(* ===== verification/_CoqProject ===== *)
-Q . S2P
Prelude.v
Bytes.v
Wire.v
Crypto.v
Commitment.v
Randomness.v
Protocol.v
RollingDigest.v
Payments.v
ApiCredits.v
TicTacToe.v
Tunnel.v
DistributedTunnel.v
SeatSafety.v
Agreement.v
AgreementSamples.v
SettleBinary.v
Transcript.v
Pipeline.v
Watchtower.v
Chat.v
Blackjack.v
BattleshipFleet.v
BattleshipLegal.v
BattleshipPlacement.v
Battleship.v
BattleshipGame.v
QuantumPoker.v
QuantumPokerEval.v
QuantumPokerGame.v
Rng.v
QuantumPokerDriver.v
Json.v
DistributedFrame.v
MoveCodecs.v
QuantumPokerViews.v
ChatDriver.v
WorldCanvas.v
BombIt.v
BombItBoard.v
BombItGame.v
BombItFair.v
BombItReplay.v
BombItBot.v
Float.v
Cross.v
CrossGame.v
MultiGame.v
WorldCanvasPvp.v
BoardMerkle.v
BattleshipPvp.v
BattleshipBot.v
BattleshipPvpGame.v
BattleshipPvpPlay.v
Caro.v
CaroGame.v
Series.v
GameSeries.v
Minimax.v
BotKit.v
TicTacToeKit.v
BattleshipKit.v
JsValue.v
Resume.v
ResumeStore.v
ResumeSession.v
ResumeReload.v
ResumeAdapters.v
PvpClose.v
MoveTunnel.v
TunnelContract.v
TxBuilders.v
Chain.v
OnchainPlay.v
TunnelTx.v
TunnelOpenBatcher.v
PayStreams.v
MpClient.v
PvpSession.v
PvpDuel.v
