(* ===== verification/Prelude.v ===== *)
(** * A verification of the tunnel framework and of the games played over it

    Two parties lock a balance on Sui and then play off chain: every move yields
    a new state, both sign a message that commits to it (nonce, state hash, the
    two balances), and at any time the latest co-signed message settles the
    tunnel.  This development models that program -- the signed formats, the two
    engines that exchange signatures, the game protocols the engines run, what is
    proved and recovered afterwards, the games and bots that live in the front
    end, how a browser takes a match up again after a reload, the Move contract
    that holds the money and the transactions that reach it -- and proves
    what its parts promise each other.  Paths below are relative to
    [sui-tunnel-ts/src/] unless they begin with [frontend/] or [sui_tunnel/].

    ** Parts, and the files that model them

    - Values and formats.  [Prelude]: results and exceptions, effectful handlers,
      shared lemmas and tactics.  [Bytes]: [core/bytes.ts] and the hex
      helpers of [utils.ts].  [Wire]: the signed
      messages of [core/wire.ts], their parser and the buffer-reusing writer.
      [Crypto]: [core/crypto.ts] over blake2b and ed25519, the operations of the
      class [Crypto].  [Commitment]: [core/commitment.ts].  [Randomness]:
      [core/randomness.ts].  [Rng]: [sim/rng.ts].  [Json]: [JSON.parse],
      [JSON.stringify] and [BigInt].
    - The protocol interface.  [Protocol]: [protocol/Protocol.ts] as a record of
      operations with the class [ProtocolLaws] of what the engines rely on.
      Instances: [Payments], [ApiCredits], [TicTacToe], [Chat] (with its JSON
      driver in [ChatDriver]), [WorldCanvas] and [WorldCanvasPvp] (these three
      chain digests, see [RollingDigest]), [Blackjack],
      [Battleship] (with [BattleshipFleet] and, for the theorems,
      [BattleshipLegal], [BattleshipPlacement], [BattleshipGame]) and
      [QuantumPoker] (with [QuantumPokerEval] for the hand evaluator,
      [QuantumPokerGame] for the hands, [QuantumPokerDriver] for the seat driver
      and [QuantumPokerViews] for what the two seats know), [BombIt] (with
      [BombItBoard] for the generated boards and the chain of explosions,
      [BombItGame] for duels, [BombItFair] for the half turn,
      [BombItReplay] for the encoding and [BombItBot] for the self-play policy)
      and [Cross] (with [Float] for binary64 and [CrossGame] for races), each of
      the file of that name in [protocol/]; [battleshipSelfPlay.ts] is in
      [Battleship].  [MultiGame] is a session of rematches over an inner protocol
      of the class [Rematch], with its instances [multiGameCross.ts] and
      [multiGameBombIt.ts].
    - The engines.  [Tunnel]: [core/tunnel.ts], one process that signs for both.  [DistributedTunnel]: [core/distributedTunnel.ts], one
      seat, with the decision table of [core/reconcile.ts]; [SeatSafety]: one seat against
      anybody; [Agreement]: two seats over an untrusted relay, as a transition
      system; [AgreementSamples]: concrete seats.
    - The relay.  [DistributedFrame]: [core/distributedFrame.ts], frames as JSON
      text, with the class [CodecLaws]; [MoveCodecs] (the payments,
      blackjack and battleship codecs, with frames whose author is no party) and the first part of [QuantumPokerViews]: the codecs of [protocol/].
    - Games of the front end ([frontend/src/games/]).  [BoardMerkle],
      [BattleshipPvp] (with its codec), [BattleshipBot] and the
      drivers in [BattleshipPvpGame]: [battleship/engine/merkle.ts], [fleet.ts], [bot.ts],
      [selfPlay.ts], [pvpDriver.ts] and [battleship/protocol/battleship.ts], in
      which every shot is answered with a Merkle proof; [BattleshipPvpGame] and
      [BattleshipPvpPlay] hold the theorems.  In
      [ticTacToe/packages/shared/src/]: [Caro] ([caro/board.ts] and
      [caro/protocol.ts], with the rule of five) and [CaroGame] for the salted
      history and the theorems; [Series]
      ([ttt/multiGameProtocol.ts]), a fixed number of games over an inner game
      of the class [StakedLaws], which [GameSeries] instantiates for tic-tac-toe
      and caro; [Minimax] ([ttt/board.ts], [ttt/minimax.ts], [ttt/fairness.ts]).
    - Arena bots ([frontend/src/agent/]).  [BotKit]: [gameKit.ts],
      [testHarness.ts] and [stateHash.ts], with the classes [KitLaws] and
      [KitEnds] of what a bot promises the harness; [TicTacToeKit] and
      [BattleshipKit] instantiate them.
    - Resuming ([frontend/src/pvp/]).  [JsValue] and [Resume]: [resume.ts], the
      text of a record and the store of records in the browser; [ResumeStore]:
      the abstract store it refines.  [ResumeSession]: [resumeSession.ts], with
      the class [AdapterLaws] of what a game's adapter owes it; [ResumeAdapters]:
      the adapters of chicken-cross and bomb-it as instances; [ResumeReload]
      and the end of [ResumeAdapters]: the theorems on reloads and resyncs and
      their samples.  [MpClient]: [mpClient.ts], the client of the relay, over
      the events of its sockets and timers and whatever the functions it is given
      throw.  [PvpSession]: [pvpMatchHook.ts], the
      session of a match, its async functions split at their awaits; [PvpDuel]:
      two sessions at the ends of one tunnel.
      [PvpClose]: [settleClose.ts], [proposePlan.ts], [resumeWatchdog.ts] and
      [autoPreference.ts].
    - After the play.  [Transcript]: [proof/transcript.ts] and [proof/limits.ts];
      [SettleBinary]: [proof/settleBinary.ts]; [Pipeline]: engine, transcript and
      settle body together; [Watchtower]: [recovery/watchtower.ts] and the tunnel
      states of [config.ts].

    - On chain.  [MoveTunnel]: what Move gives a module (checked [u64] arithmetic,
      aborts, balances), [sui_tunnel/sources/signature.move] and
      every entry of [sui_tunnel/sources/tunnel.move]; [TunnelContract]: histories
      of one tunnel under arbitrary callers, the modules of its package included.  [TxBuilders]: the transactions that
      [onchain/txbuilders.ts], [createAndFund.ts] and [gas.ts] build, as lists of
      commands; [Chain]: an interpreter of such transactions over a store of
      tunnels and coins; [OnchainPlay]: [onchain/lifecycle.ts] and the theorems
      that join the engine and the watchtower to the contract.  [TunnelTx]:
      [frontend/src/onchain/tunnelTx.ts], over a wallet that submits to [Chain];
      [TunnelOpenBatcher]: [frontend/src/onchain/tunnelOpenBatcher.ts] and the
      fall back and coin choice of [sponsor.ts].  [PayStreams]: payment streams
      and agent allowances, each with its contract
      ([sui_tunnel/sources/streaming_payment.move],
      [sources/examples/example_agent_allowance.move]) beside the client of
      [frontend/src/onchain/].

    Every definition that translates code carries a comment [[src file symbol]]
    with the file and the function, method or type (or the lines) it models.

    ** How the code is modelled

    - A function that may throw returns a [result]; a handler of a class that
      changes fields before it throws is an [eff], whose failure still carries the
      state.  Messages keep the fixed part of their text only.
    - A [bigint] is [Z]; where it is written to a 64-bit field the range check and
      its exception are kept.  A [number] used as an integer is [Z], or [jsnum]
      where the code asks [Number.isInteger]; 32-bit operations wrap explicitly
      ([Rng]).  Fractions are binary64 by the Standard Library's [SpecFloat]
      ([Float]), rounding included.  A [Uint8Array] is a list of integers, stored modulo 256.
    - [applyMove] works on a copy of the state in every protocol, so a state is a
      value.  The engines' effects (signatures made, frames sent, hooks called)
      are recorded in order.
    - Library code is a parameter: the class [Crypto] (blake2b, ed25519) with the
      laws [CryptoLaws] (32-byte digests, signatures verify) and [SignatureLaws]
      (64-byte signatures); unforgeability, where a theorem needs it, is a
      hypothesis on the frames the relay may deliver.  That no two well-formed states
      of a protocol have the same hash is a hypothesis ([hash_binding]) of the
      theorems on two seats ([two_seats_agree], [reconcile_converges],
      [resync_converges], [sessions_agree]); where a hash commits to one value
      (commitments, Merkle roots, transcripts, digests) the theorems give the
      collision as an alternative.
      Two instances evaluate the model: [toy_crypto] (a polynomial digest) and
      [ideal_crypto] (a signature carries its message).
    - An abort of a Move call is a value of [move]; a transaction that aborts
      leaves the store as it was.  A wallet ([SignExec]) that raises has not put its
      transaction on chain; what a node answers to a read, what it refuses and in
      which order it applies others' transactions are streams the theorems
      quantify over.  Each task of the opening batcher has a stream of its own, so
      every interleaving of the tasks is covered.
    - Loops.  Rejection sampling has no bound in the code: [Randomness] and
      [Blackjack] take [fuel] and the theorems hold for whatever it returns;
      [sampler_unbiased] and [next_u64_in_range_correct] say when a draw is
      accepted.  The flood fill of [isLegalBoard] has fuel 101, one more than the
      board has cells, and is proved never to run out; [self_play_completes]
      bounds a game of battleship by 408 moves.  The loop that
      spreads explosions has one round more than there are bombs, and is proved
      to be done by then.  The 200 tries of a ship, the 10000 tries of a board card
      and the depths of the searches of the bomb-it policy are constants of the
      code, and so are the 10000 rounds of the arena harness.  The layers of a
      board's Merkle tree take fuel 128, its number of leaves; a walk along a line
      of caro takes the size of the board, and the minimax search the number of
      empty cells: each is proved enough where a theorem needs the result.  [Json.parse] bounds
      nesting by the length of the text.

    ** What the theorems show

    - Engines: two honest seats never confirm different states at one nonce
      ([two_seats_agree]) when the protocol lets one party move at a time or the
      callers of the seats take turns, a seat never holds what it could not settle
      ([seat_safety]), exchanges and resumes converge ([exchange_converges],
      [reconcile_converges]); the in-memory engine signs consecutive, conserving
      updates, atomically ([tunnel_history], [tunnel_step_atomic],
      [tunnel_settlement]).
    - Resuming: the store is a pair of maps, whatever the order of writes,
      callbacks, flushes, evictions and reloads ([resume_store_refines]); a match
      in play is rebuilt after a reload exactly as it was ([reload_resumes]); the
      resync handshake of two sessions brings both to the later state and keeps
      their secrets ([resync_converges]); a close over the peer's root pays the
      seat's own balances ([close_from_peer_root]).
    - Sessions: two browsers that play by [pvpMatchHook.ts] never fork, in any
      interleaving of users, promises, timers and frames and in any protocol whose
      states are told apart by their hashes, for their timers take turns
      ([sessions_agree]); a session's snapshot is current
      and no timer outlives it ([session_kept]); what it submits pays its own
      balances ([half_closes]).
    - Relay client: whatever comes before or after its engine is wired, the engine
      gets the frames of its match once each and in order, but for those that wait
      behind one at which it throws while it is wired ([frames_reach_the_engine],
      [throwing_engine_loses_frames]), byte for byte what the peer's transport was given ([frame_reaches_the_peer]);
      after a drop the client connects again and resumes every match
      ([connection_comes_back]), and every match found is handed out or kept
      ([matches_accounted]).
    - Formats: the state update parses back, no two messages of any kind share
      their bytes, the fast writer is the serializer ([Wire]); frames arrive as
      sent, without the secrets of their moves ([frames_cross_the_relay]); the
      settle body and its strict decoder ([SettleBinary]).
    - Randomness: commitments bind, draws are in range and unbiased, shuffles
      permute.
    - Games: balances stay non-negative and sum to the locked total in every
      protocol (its [ProtocolLaws] instance); payments and credits are exact;
      tic-tac-toe ends and pays the winner; battleship boards are legal fleets, no
      answer survives a contradicting reveal, self-play finishes; blackjack pays
      its rules, its cards are fixed by the commitments; a poker hand moves exactly
      the matched bets, its board is fixed by the commitments, the evaluator ranks
      hands as poker does, and the opponent re-derives the hash the mover signed
      though the two know different secrets ([poker_opponent_follows]).  A duel of
      bomb-it favours no seat ([bomb_it_fair]), ends ([bomb_it_ends]), keeps its
      board and bombs well formed, goes on alike from any state of one encoding
      ([bomb_it_replays]), and its policy does not kill itself by a careless step
      ([bomb_it_policy]); a race pays by progress ([cross_race],
      [stalling_does_not_pay]); a session pays a stake a game, to the winners of
      the games that are played ([session_pays]).
      Battleship with proofs: openings of a committed board agree with it or a
      collision is at hand ([board_proofs_bind]), the verdict is the one of the
      boards ([proven_shots_verdict]) and every driven game ends
      ([proven_play_completes]).  Caro is won by exactly five in a row with a free
      end ([caro_five_wins]) and its accumulator fixes the moves ([caro_history]);
      a series plays at most its number of games and moves at most a stake each
      ([series_bounds]).  Two arena bots reach a terminal state by moves the
      protocol accepts, and a perfect tic-tac-toe bot is never beaten
      ([ttt_bots_complete], [battleship_bots_complete]).
    - Canvases and chat: the signed digest fixes what was painted or said
      ([strokes_are_committed]), and a batch delivered again changes nothing
      ([resent_batch_is_noop]).
    - On chain: the contract never owes more than it holds, whoever calls what
      ([contract_solvent]), and a party of a tunnel in play leaves alone with its
      balance after the timeout ([unilateral_exit]); the contract and the client
      agree on every signed byte ([wire_matches_contract]), so the settlement an
      engine signs closes the tunnel at the signed split
      ([settlement_closes_on_chain]), and what the watchtower decides is executed
      or changes nothing ([recovery_lands]).  Many tunnels are opened and joined
      by one transaction, funded exactly ([open_many], [join_many]); the batcher
      answers every request, once, when the network answers it, a deposit with its
      own tunnel and an open with one of its batch and its party A's address, and
      never stakes a committed batch again ([requests_answered_once],
      [answers_are_own], [chunk_stakes_once]).  Streams and allowances pay what is earned whatever
      else is called, and the client predicts each payment
      ([stream_pays_what_is_earned], [stream_client_agrees],
      [allowance_keeps_promises], [allowance_client_agrees]).
    - Proof and recovery: whatever a tunnel played verifies ([settled_play_verifies]),
      nothing else does ([verify_entries_sound]), the anchored root fixes the
      transcript ([anchored_root_binds]); the watchtower looks at every tunnel and
      decides right.
    - Defects, stated as theorems: a board of bytes other than 0 and 1 cannot be
      sunk ([unsinkable_fleet_accepted]); a frame attributed to nobody resigns for
      the receiver ([foreign_party_resigns_for_b]); two simultaneous proposals fork
      the seats ([simultaneous_proposals_fork]); ships laid end to end pass the
      placement check ([end_to_end_ships_pass]); the poker driver can bet more than
      the protocol takes ([driver_overbets]); the chat driver drops a repeated
      message ([repeat_is_dropped]); a battleship fleet drawn with twos commits an
      empty board and wins ([empty_board_wins]); a proof of any length is taken, so
      one root can open a cell both ways ([two_faced_root]); a session whose first stake is not covered
      ends in a state that cannot be signed ([unpayable_unencodable]); the
      watchtower withdraws where nothing was deposited
      ([withdraw_without_deposit_fails]) and disputes with updates signed at time 0,
      which the contract refuses ([untimed_update_fails]); the dispute calls of the front end work
      for SUI only ([unilateral_floor_needs_sui]); a single open may open twice and
      drops its terms ([single_open_may_open_twice], [single_open_drops_terms]), and
      two games of one wallet get one tunnel ([same_address_shares_tunnel]); a
      cancelled stream still shows funds ([cancelled_stream_shows_funds]), a
      top-up can flatten a stream ([top_up_can_flatten]), client and contract differ
      on the shortest one ([shortest_stream_differs]), and setting a rate often
      enough stops an allowance ([reanchoring_stops_accrual]); while the server is
      out of reach the reconnect timers double each round
      ([unreachable_server_doubles]), calls for two games can be answered with each
      other's match ([concurrent_games_crossed]), and a game that timed out is
      queued again after a drop ([timed_out_game_rejoins]); no session sends the
      settlement half that every session waits for ([no_half_is_sent]), leaving
      waits with it ([leave_waits_for_the_peer]), and a start that was abandoned
      still plays, or takes over the next match ([abandoned_start_plays],
      [abandoned_start_takes_over]).

    ** Not modelled

    The coordinates of [worldCanvasPvp.ts] are taken to be integers that a double
    holds exactly; the class checks that they are integers.
    [quantumPokerPersona.ts] is a heuristic in floating point whose moves the
    protocol accepts or refuses like any other.  The rest of the repository is
    outside: the Sui SDK, gas and events, the HTTP calls of [sponsor.ts],
    [mtps.ts] and of the arena entry, storage ([proof/storage.ts]),
    key files, load generation, benchmarks, telemetry, the circuits of [zk/], the
    React components and hooks of the front end with their wallets,
    the caro bot, the kits of the other arena bots, the Rust back end and the
    Move modules that neither the engine nor the clients modelled here call (hops,
    referees, on-chain randomness, proof verification and the other examples).  The adapters of the games with hidden cards hand the hook states
    whose typed arrays it rebuilds; they are not modelled, what they owe is
    [AdapterLaws].  [sessions_agree] follows matches from their start; one that a
    page takes up again is the subject of [reload_resumes].  The hook that
    subscribes React to a session is left out.  JavaScript strings
    are their UTF-8 bytes; bytes that are not UTF-8 do not reach [TextDecoder]
    here. *)
From Stdlib Require Export Ascii.
From stdpp Require Export base strings numbers list.
From Stdlib Require Export ZArith Lia.
#[global] Open Scope Z_scope.

(** * Exceptions

    A TypeScript function that may [throw] returns a [result]: the value, or
    the exception.  Only the constructor and the fixed part of the message are
    kept; values interpolated into a template literal are dropped. *)
Inductive js_error : Type :=
  | Error (msg : string)
  | RangeError (msg : string)
  | TypeError (msg : string)
  | SyntaxError (msg : string)
  | OutOfFuel. (** not an exception: a loop that has not returned within the fuel given *)

Inductive result (A : Type) : Type :=
  | Ok (a : A)
  | Throw (e : js_error).
Arguments Ok {A} a.
Arguments Throw {A} e.

Definition rbind {A B} (m : result A) (k : A -> result B) : result B :=
  match m with
  | Ok a => k a
  | Throw e => Throw e
  end.

Definition is_ok {A} (m : result A) : bool :=
  match m with Ok _ => true | Throw _ => false end.

Declare Scope js_scope.
Delimit Scope js_scope with js.
#[global] Open Scope js_scope.

Notation "'let!' x := e 'in' k" := (rbind e (fun x => k))
  (at level 200, x binder, e at level 200, k at level 200,
   format "'[v' 'let!'  x  :=  e  'in' '/' k ']'") : js_scope.
Notation "'throw_if' b 'with' e ; k" := (if b then Throw e else k)
  (at level 200, b at level 100, e at level 100, k at level 200,
   format "'[v' 'throw_if'  b  'with'  e ; '/' k ']'") : js_scope.

(** [for] loops over an array whose body may throw. *)
Fixpoint rmap {A B} (f : A -> result B) (xs : list A) : result (list B) :=
  match xs with
  | [] => Ok []
  | x :: xs' => let! y := f x in let! ys := rmap f xs' in Ok (y :: ys)
  end.

Fixpoint rfold {S A} (f : S -> A -> result S) (s : S) (xs : list A) : result S :=
  match xs with
  | [] => Ok s
  | x :: xs' => let! s' := f s x in rfold f s' xs'
  end.

(** Code that mutates an object and may throw: the mutations done before the
    exception stay. *)
Definition eff (S A : Type) : Type := S -> S * result A.

Definition eret {S A} (a : A) : eff S A := fun s => (s, Ok a).
Definition ethrow {S A} (e : js_error) : eff S A := fun s => (s, Throw e).
Definition ebind {S A B} (m : eff S A) (k : A -> eff S B) : eff S B :=
  fun s => match m s with
           | (s', Ok a) => k a s'
           | (s', Throw e) => (s', Throw e)
           end.
Definition eget {S} : eff S S := fun s => (s, Ok s).
Definition emodify {S} (f : S -> S) : eff S unit := fun s => (f s, Ok tt).
Definition elift {S A} (r : result A) : eff S A := fun s => (s, r).

Notation "'do!' x <- e ; k" := (ebind e (fun x => k))
  (at level 200, x binder, e at level 100, k at level 200,
   format "'[v' 'do!'  x  <-  e ; '/' k ']'") : js_scope.

(** A JavaScript [number] as it reaches the code from outside: an integer, or
    something that [Number.isInteger] refuses (a fraction, NaN, infinity). *)
Inductive jsnum : Type :=
  | JsInt (z : Z)
  | JsNonInt.

Definition isInteger (n : jsnum) : bool :=
  match n with JsInt _ => true | JsNonInt => false end.

(** * Decision procedures and automation *)

#[export] Instance js_error_eq_dec : EqDecision js_error.
Proof. solve_decision. Defined.

#[export] Instance result_eq_dec {A} `{EqDecision A} : EqDecision (result A).
Proof. solve_decision. Defined.

#[export] Instance jsnum_eq_dec : EqDecision jsnum.
Proof. solve_decision. Defined.

Create HintDb tunnel.

Lemma Ok_inj {A} (a b : A) : Ok a = Ok b -> a = b.
Proof. congruence. Qed.

(** Turn the boolean tests of the code into propositions. *)
Ltac bool_to_prop :=
  repeat match goal with
  | H : (_ && _)%bool = true |- _ => apply andb_true_iff in H; destruct H
  | H : (_ || _)%bool = false |- _ => apply orb_false_iff in H; destruct H
  | H : (_ && _)%bool = false |- _ => apply andb_false_iff in H
  | H : (_ || _)%bool = true |- _ => apply orb_true_iff in H
  | H : negb _ = true |- _ => apply negb_true_iff in H
  | H : negb _ = false |- _ => apply negb_false_iff in H
  | H : (_ =? _)%Z = true |- _ => apply Z.eqb_eq in H
  | H : (_ =? _)%Z = false |- _ => apply Z.eqb_neq in H
  | H : (_ <? _)%Z = true |- _ => apply Z.ltb_lt in H
  | H : (_ <? _)%Z = false |- _ => apply Z.ltb_ge in H
  | H : (_ <=? _)%Z = true |- _ => apply Z.leb_le in H
  | H : (_ <=? _)%Z = false |- _ => apply Z.leb_gt in H
  | H : (_ =? _)%nat = true |- _ => apply Nat.eqb_eq in H
  | H : (_ =? _)%nat = false |- _ => apply Nat.eqb_neq in H
  | H : (_ <? _)%nat = true |- _ => apply Nat.ltb_lt in H
  | H : (_ <? _)%nat = false |- _ => apply Nat.ltb_ge in H
  | H : (_ <=? _)%nat = true |- _ => apply Nat.leb_le in H
  | H : (_ <=? _)%nat = false |- _ => apply Nat.leb_gt in H
  | H : bool_decide _ = true |- _ => apply bool_decide_eq_true in H
  | H : bool_decide _ = false |- _ => apply bool_decide_eq_false in H
  end.

(** Follow a computation that returned [Ok]: every bind returned, every guard
    passed. *)
Ltac inv_ok :=
  repeat match goal with
  | H : rbind ?e _ = Ok _ |- _ =>
      let E := fresh "E" in destruct e eqn:E; cbn [rbind] in H; [|discriminate H]
  | H : (if ?b then Throw _ else _) = Ok _ |- _ =>
      let E := fresh "E" in destruct b eqn:E; [discriminate H|]
  | H : (if ?b then _ else Throw _) = Ok _ |- _ =>
      let E := fresh "E" in destruct b eqn:E; [|discriminate H]
  | H : Throw _ = Ok _ |- _ => discriminate H
  | H : Ok _ = Ok _ |- _ => apply Ok_inj in H; try subst
  end.

(** Linear arithmetic with [/] and [mod] by constants. *)
Ltac zdiv_lia := Z.to_euclidean_division_equations; lia.

(** * Lemmas on results *)

Lemma rbind_ok {A B} (m : result A) (k : A -> result B) b :
  rbind m k = Ok b <-> exists a, m = Ok a /\ k a = Ok b.
Proof. destruct m; simpl; naive_solver. Qed.

Lemma is_ok_exists {A} (m : result A) : is_ok m = true <-> exists a, m = Ok a.
Proof. destruct m; simpl; naive_solver. Qed.

Lemma rmap_length {A B} (f : A -> result B) xs ys :
  rmap f xs = Ok ys -> length ys = length xs.
Proof.
  revert ys; induction xs as [|x xs IH]; intros ys H; simpl in H; inv_ok; [done|].
  simpl. f_equal. by apply IH.
Qed.

Lemma rmap_ok_Forall2 {A B} (f : A -> result B) xs ys :
  rmap f xs = Ok ys <-> Forall2 (fun x y => f x = Ok y) xs ys.
Proof.
  revert ys; induction xs as [|x xs IH]; intros ys; simpl; split.
  - intros H; inv_ok. constructor.
  - intros H. inversion H. done.
  - intros H; inv_ok. constructor; [done|]. by apply IH.
  - intros H. inversion H as [|? ? ? ? Hx Hxs]; subst. rewrite Hx; simpl.
    apply IH in Hxs. rewrite Hxs. done.
Qed.

Lemma rfold_app {S A} (f : S -> A -> result S) s xs ys :
  rfold f s (xs ++ ys) = let! s' := rfold f s xs in rfold f s' ys.
Proof.
  revert s; induction xs as [|x xs IH]; intros s; simpl; [done|].
  destruct (f s x); simpl; auto.
Qed.

(** A property that every step preserves is preserved by the loop. *)
Lemma rfold_invariant {S A} (f : S -> A -> result S) (P : S -> Prop) s xs s' :
  (forall s1 x s2, P s1 -> f s1 x = Ok s2 -> P s2) ->
  P s -> rfold f s xs = Ok s' -> P s'.
Proof.
  intros Hstep; revert s; induction xs as [|x xs IH]; intros s HP H; simpl in H.
  - inv_ok. done.
  - inv_ok. eauto.
Qed.

(** * Lemmas on lists *)

Lemma app_inj_length {A} (xs1 xs2 ys1 ys2 : list A) :
  length xs1 = length xs2 -> xs1 ++ ys1 = xs2 ++ ys2 -> xs1 = xs2 /\ ys1 = ys2.
Proof. intros; apply app_inj_1; auto. Qed.

Lemma take_app_exact {A} (xs ys : list A) n :
  n = length xs -> take n (xs ++ ys) = xs.
Proof. intros ->. apply take_app_length. Qed.

Lemma drop_app_exact {A} (xs ys : list A) n :
  n = length xs -> drop n (xs ++ ys) = ys.
Proof. intros ->. apply drop_app_length. Qed.

Lemma filter_ext_elem {A} (P Q : A -> Prop) `{!forall x, Decision (P x), !forall x, Decision (Q x)} (xs : list A) :
  (forall x, x ∈ xs -> P x <-> Q x) -> filter P xs = filter Q xs.
Proof.
  induction xs as [|x xs IH]; intros Heq; [done|]. rewrite !filter_cons.
  rewrite IH by (intros y Hy; apply Heq; by right).
  destruct (Heq x) as [H1 H2]; [left|]. repeat case_decide; try done; tauto.
Qed.
