(* ===== verification/Bytes.v ===== *)
(** The byte utilities of [sui-tunnel-ts/src/core/bytes.ts]: concatenation into
    a freshly allocated buffer, equality, and the lowercase hex codec. *)

From S2P Require Import Prelude.

(** A [Uint8Array] is a list of integers; [bytes_ok] says that they are bytes.
    Storing a number into a [Uint8Array] keeps it modulo 256 ([to_u8]). *)
Abbreviation bytes := (list Z).

Definition is_byte (b : Z) : Prop := 0 <= b < 256.
Definition bytes_ok (bs : bytes) : Prop := Forall is_byte bs.
Definition to_u8 (z : Z) : Z := z mod 256.

#[export] Instance is_byte_dec b : Decision (is_byte b).
Proof. unfold is_byte; apply _. Defined.
#[export] Instance bytes_ok_dec bs : Decision (bytes_ok bs).
Proof. unfold bytes_ok; apply _. Defined.

(** [new Uint8Array(n)] *)
Definition u8_new (n : nat) : bytes := replicate n 0.

(** [buf.set(src, off)]: a [RangeError] when [src] does not fit. *)
Definition u8_set (buf : bytes) (off : nat) (src : bytes) : result bytes :=
  if (length buf <? off + length src)%nat
  then Throw (RangeError "offset is out of bounds")
  else Ok (take off buf ++ src ++ drop (off + length src) buf).

(** [buf.slice(from, to)]: indices past the end are clamped. *)
Definition u8_slice (buf : bytes) (from to : nat) : bytes :=
  take (to - from) (drop from buf).

(** [Uint8Array.from(xs)], [Uint8Array.of(...xs)] *)
Definition u8_from (xs : list Z) : bytes := map to_u8 xs.

(** [new TextEncoder().encode(s)], on strings of Latin-1 code points below 128
    (every literal the code encodes is ASCII); a Rocq [string] is its UTF-8 bytes. *)
Fixpoint text_encode (s : string) : bytes :=
  match s with
  | EmptyString => []
  | String c s' => Z.of_N (Ascii.N_of_ascii c) :: text_encode s'
  end.

(** [src core/bytes.ts concatBytes]: sum the lengths, allocate, copy
    each part at its offset. *)
Fixpoint concat_into (out : bytes) (o : nat) (parts : list bytes) : result bytes :=
  match parts with
  | [] => Ok out
  | p :: parts' =>
      let! out' := u8_set out o p in
      concat_into out' (o + length p) parts'
  end.

(** [src core/bytes.ts concatBytes] *)
Definition concatBytes (parts : list bytes) : result bytes :=
  let len := fold_left (fun n p => (n + length p)%nat) parts 0%nat in
  concat_into (u8_new len) 0 parts.

(** [src core/bytes.ts bytesEqual] *)
Fixpoint bytes_same (a b : bytes) : bool :=
  match a, b with
  | x :: a', y :: b' => if negb (x =? y) then false else bytes_same a' b'
  | _, _ => true
  end.

(** [src core/bytes.ts bytesEqual] *)
Definition bytesEqual (a b : bytes) : bool :=
  if negb (length a =? length b)%nat then false else bytes_same a b.

(** The digits of [Number.prototype.toString(16)]. *)
Definition hex_digits : list Ascii.ascii :=
  ["0"; "1"; "2"; "3"; "4"; "5"; "6"; "7"; "8"; "9"; "a"; "b"; "c"; "d"; "e"; "f"]%char.

Definition hex_digit (d : Z) : Ascii.ascii := nth (Z.to_nat d) hex_digits "0"%char.

(** [src core/bytes.ts HEX]: two lowercase digits per byte. *)
Definition HEX (b : Z) : string :=
  String (hex_digit (b / 16)) (String (hex_digit (b mod 16)) EmptyString).

(** [src core/bytes.ts toHex] *)
Fixpoint toHex (bs : bytes) : string :=
  match bs with
  | [] => EmptyString
  | b :: bs' => (HEX b ++ toHex bs')%string
  end.

(** The class [[0-9a-fA-F]] and the digit value [parseInt(_, 16)] gives. *)
Definition hex_val (c : Ascii.ascii) : option Z :=
  let n := Z.of_N (Ascii.N_of_ascii c) in
  if (48 <=? n) && (n <=? 57) then Some (n - 48)
  else if (97 <=? n) && (n <=? 102) then Some (n - 87)
  else if (65 <=? n) && (n <=? 70) then Some (n - 55)
  else None.

Definition is_hex_char (c : Ascii.ascii) : bool :=
  match hex_val c with Some _ => true | None => false end.

Fixpoint all_hex (s : string) : bool :=
  match s with
  | EmptyString => true
  | String c s' => is_hex_char c && all_hex s'
  end.

(** [s.startsWith("0x") || s.startsWith("0X") ? s.slice(2) : s] *)
Definition strip_0x (s : string) : string :=
  match s with
  | String "0" (String "x" s') => s'
  | String "0" (String "X" s') => s'
  | _ => s
  end%char.

(** The loop that reads two digits per byte. *)
Fixpoint hex_pairs (s : string) : bytes :=
  match s with
  | String c1 (String c2 s') =>
      (16 * default 0 (hex_val c1) + default 0 (hex_val c2)) :: hex_pairs s'
  | _ => []
  end.

(** [src core/bytes.ts fromHex] *)
Definition fromHex (hex : string) : result bytes :=
  let h := strip_0x hex in
  throw_if negb (Nat.even (String.length h)) with Error "odd-length hex" ;
  throw_if negb (all_hex h) with Error "invalid hex" ;
  Ok (hex_pairs h).

(** * Lemmas *)

Lemma text_encode_app s t : text_encode (s ++ t) = text_encode s ++ text_encode t.
Proof.
  induction s as [|c s IH]; [done|].
  change (Z.of_N (Ascii.N_of_ascii c) :: text_encode (s ++ t) = text_encode (String c s) ++ text_encode t).
  by rewrite IH.
Qed.

Lemma text_encode_inj s t : text_encode s = text_encode t -> s = t.
Proof.
  revert t; induction s as [|c s IH]; intros [|c' t] H; try done. simpl in H. injection H as Hc H.
  f_equal; [|by apply IH]. apply N2Z.inj in Hc.
  by rewrite <- (ascii_N_embedding c), Hc, ascii_N_embedding.
Qed.

Lemma text_encode_ok s : bytes_ok (text_encode s).
Proof.
  induction s as [|c s IH]; simpl; constructor; [|done].
  unfold is_byte. pose proof (Ascii.N_ascii_bounded c). lia.
Qed.

Lemma to_u8_byte z : is_byte (to_u8 z).
Proof. apply Z.mod_pos_bound. lia. Qed.

Lemma to_u8_id z : is_byte z -> to_u8 z = z.
Proof. unfold is_byte, to_u8. intros. apply Z.mod_small. lia. Qed.

Lemma u8_from_ok xs : bytes_ok (u8_from xs).
Proof. unfold u8_from. induction xs; simpl; constructor; auto using to_u8_byte. Qed.

Lemma u8_from_id xs : bytes_ok xs -> u8_from xs = xs.
Proof.
  unfold u8_from. induction 1 as [|x xs Hx _ IH]; simpl; [done|].
  by rewrite IH, to_u8_id.
Qed.

Lemma bytes_ok_app xs ys : bytes_ok (xs ++ ys) <-> bytes_ok xs /\ bytes_ok ys.
Proof. apply Forall_app. Qed.

Lemma bytes_ok_snoc xs b : bytes_ok (xs ++ [b]) <-> bytes_ok xs /\ is_byte b.
Proof. rewrite bytes_ok_app. unfold bytes_ok at 2. by rewrite Forall_singleton. Qed.

Lemma bytes_ok_zeros n : bytes_ok (u8_new n).
Proof. apply Forall_replicate. unfold is_byte. lia. Qed.

Lemma drop_u8_new m n : drop m (u8_new n) = u8_new (n - m).
Proof. apply drop_replicate. Qed.

Lemma fold_length_sum (parts : list bytes) n :
  fold_left (fun n p => (n + length p)%nat) parts n = (n + length (concat parts))%nat.
Proof.
  revert n; induction parts as [|p parts IH]; intros n; simpl; [lia|].
  rewrite IH, length_app. lia.
Qed.

Lemma concat_into_spec pre n (parts : list bytes) :
  n = length (concat parts) ->
  concat_into (pre ++ u8_new n) (length pre) parts = Ok (pre ++ concat parts).
Proof.
  revert pre n; induction parts as [|p parts IH]; intros pre n ->; simpl.
  { done. }
  unfold u8_set. rewrite (proj2 (Nat.ltb_ge _ _)).
  2:{ unfold u8_new. rewrite !length_app, length_replicate. simpl. lia. }
  cbn [rbind]. rewrite take_app_length, drop_app_add, drop_u8_new, app_assoc, <- length_app.
  rewrite (IH (pre ++ p)) by (rewrite length_app; lia). by rewrite <- app_assoc.
Qed.

Lemma concatBytes_concat parts : concatBytes parts = Ok (concat parts).
Proof.
  unfold concatBytes. rewrite fold_length_sum. simpl.
  by apply (concat_into_spec []).
Qed.

Lemma bytes_same_spec a b :
  length a = length b -> bytes_same a b = true <-> a = b.
Proof.
  revert b; induction a as [|x a IH]; intros [|y b] Hl; simpl in *; try done.
  destruct (Z.eqb_spec x y) as [->|Hne]; simpl.
  - rewrite IH by lia. naive_solver.
  - naive_solver.
Qed.

Lemma bytesEqual_spec a b : bytesEqual a b = true <-> a = b.
Proof.
  unfold bytesEqual. destruct (Nat.eqb_spec (length a) (length b)) as [Hl|Hl]; simpl.
  - by apply bytes_same_spec.
  - split; [done|]. intros ->. done.
Qed.

Lemma bytesEqual_false a b : bytesEqual a b = false <-> a <> b.
Proof. rewrite <- bytesEqual_spec. destruct (bytesEqual a b); naive_solver. Qed.

Lemma hex_digit_cases (P : Z -> Prop) d :
  (forall n, (n < 16)%nat -> P (Z.of_nat n)) -> 0 <= d < 16 -> P d.
Proof. intros H Hd. rewrite <- (Z2Nat.id d) by lia. apply H. lia. Qed.

Lemma hex_val_digit d : 0 <= d < 16 -> hex_val (hex_digit d) = Some d.
Proof.
  apply (hex_digit_cases (fun d => hex_val (hex_digit d) = Some d)).
  intros n Hn. do 16 (destruct n as [|n]; [reflexivity|]). lia.
Qed.

Lemma hex_nibbles b : is_byte b -> 0 <= b / 16 < 16 /\ 0 <= b mod 16 < 16.
Proof. unfold is_byte. intros H. zdiv_lia. Qed.

Lemma toHex_cons b bs :
  toHex (b :: bs) = String (hex_digit (b / 16)) (String (hex_digit (b mod 16)) (toHex bs)).
Proof. reflexivity. Qed.

Lemma all_hex_toHex bs : bytes_ok bs -> all_hex (toHex bs) = true.
Proof.
  induction 1 as [|b bs Hb _ IH]; [done|]. rewrite toHex_cons; simpl.
  destruct (hex_nibbles _ Hb). unfold is_hex_char.
  rewrite !hex_val_digit by done. exact IH.
Qed.

Lemma length_toHex bs : String.length (toHex bs) = (2 * length bs)%nat.
Proof. induction bs as [|b bs IH]; [done|]. rewrite toHex_cons; simpl. rewrite IH. lia. Qed.

Lemma hex_pairs_toHex bs : bytes_ok bs -> hex_pairs (toHex bs) = bs.
Proof.
  induction 1 as [|b bs Hb _ IH]; [done|]. rewrite toHex_cons; simpl.
  destruct (hex_nibbles _ Hb).
  rewrite !hex_val_digit, IH by done. simpl. f_equal.
  unfold is_byte in Hb. pose proof (Z.div_mod b 16). lia.
Qed.

(** No hex string starts with a [0x] prefix: ['x'] is not a digit. *)
Lemma strip_0x_hex s : all_hex s = true -> strip_0x s = s.
Proof.
  destruct s as [|c1 [|c2 s]]; simpl; try done; intros H.
  - destruct c1 as [[] [] [] [] [] [] [] []]; done.
  - apply andb_true_iff in H as [_ H]. apply andb_true_iff in H as [H _].
    destruct c1 as [[] [] [] [] [] [] [] []]; try done;
    destruct c2 as [[] [] [] [] [] [] [] []]; done.
Qed.

Lemma even_double n : Nat.even (2 * n) = true.
Proof. apply Nat.even_spec. by exists n. Qed.

Lemma fromHex_toHex bs : bytes_ok bs -> fromHex (toHex bs) = Ok bs.
Proof.
  intros H. unfold fromHex.
  rewrite strip_0x_hex, length_toHex, even_double, all_hex_toHex, hex_pairs_toHex
    by auto using all_hex_toHex.
  done.
Qed.

Lemma fromHex_0x_toHex bs : bytes_ok bs -> fromHex ("0x" ++ toHex bs) = Ok bs.
Proof.
  intros H. unfold fromHex. change (strip_0x ("0x" ++ toHex bs)) with (toHex bs).
  by rewrite length_toHex, even_double, all_hex_toHex, hex_pairs_toHex.
Qed.

#[export] Hint Rewrite concatBytes_concat text_encode_app : tunnel.
#[export] Hint Resolve to_u8_byte u8_from_ok bytes_ok_zeros text_encode_ok : tunnel.

(* The second pair of hex helpers of the package, [sui-tunnel-ts/src/utils.ts], which the
    front-end's codecs use: no input is refused. *)

(** [b.toString(16)] of a byte, without a leading zero *)
Definition toString16 (b : Z) : string :=
  if b <? 16 then String (hex_digit b) EmptyString else HEX b.

(** [s.padStart(2, "0")] *)
Definition padStart2 (s : string) : string :=
  match s with
  | EmptyString => "00"
  | String c EmptyString => String "0" (String c EmptyString)
  | _ => s
  end.

(** [src utils.ts bytesToHex] *)
Definition bytesToHex (bs : bytes) : string := String.concat "" (map (fun b => padStart2 (toString16 b)) bs).

(** The characters [parseInt] skips in front of a number. *)
Definition is_space (c : Ascii.ascii) : bool :=
  let n := Z.of_N (Ascii.N_of_ascii c) in (9 <=? n) && (n <=? 13) || (n =? 32) || (n =? 160).

Fixpoint skip_space (s : string) : string :=
  match s with
  | String c s' => if is_space c then skip_space s' else s
  | EmptyString => s
  end.

(** The value of the digits at the front of a string, if there is one. *)
Fixpoint digits16 (acc : option Z) (s : string) : option Z :=
  match s with
  | String c s' => match hex_val c with Some d => digits16 (Some (16 * default 0 acc + d)) s' | None => acc end
  | EmptyString => acc
  end.

(** [parseInt(s, 16)]; [None] is NaN *)
Definition parseInt16 (s : string) : option Z :=
  match skip_space s with
  | String "-" s' => option_map Z.opp (digits16 None (strip_0x s'))
  | String "+" s' => digits16 None (strip_0x s')
  | s' => digits16 None (strip_0x s')
  end.

(** [src utils.ts:118-120 hexToBytes]: every two characters are stored as a byte; of a
    string of odd length the last character falls behind the end of the array. *)
Fixpoint parsed_pairs (s : string) : bytes :=
  match s with
  | String c1 (String c2 s') => to_u8 (default 0 (parseInt16 (String c1 (String c2 EmptyString)))) :: parsed_pairs s'
  | _ => []
  end.

(** [hex.startsWith("0x") ? hex.slice(2) : hex] *)
Definition cleanHex (s : string) : string :=
  match s with
  | String "0" (String "x" s') => s'
  | _ => s
  end%char.

(** [src utils.ts hexToBytes] *)
Definition hexToBytes (hex : string) : bytes := parsed_pairs (cleanHex hex).

(** A minus sign is read, and a prefix in capitals is taken for a byte. *)
Example hexToBytes_ex : hexToBytes "0x0fFg g-1 1z" = [15; 15; 0; 255; 1] /\
  hexToBytes "0Xff" = [0; 255] /\ fromHex "0Xff" = Ok [255] /\ fromHex "-1" = Throw (Error "invalid hex").
Proof. vm_compute. auto. Qed.

Lemma bytesToHex_toHex bs : bytes_ok bs -> bytesToHex bs = toHex bs.
Proof.
  assert (Hpad : forall b, is_byte b -> padStart2 (toString16 b) = HEX b).
  { intros b Hb. unfold toString16, HEX. destruct (Z.ltb_spec b 16); [|done].
    rewrite Z.div_small, Z.mod_small by (unfold is_byte in Hb; lia). done. }
  assert (Hcat : forall l, String.concat "" l = foldr String.append "" l).
  { induction l as [|x [|y l] IH]; [done|cbn|].
    - induction x as [|c x IHx]; [done|]. change (String c x = String c (x ++ "")). f_equal. exact IHx.
    - change (String.concat "" (x :: y :: l)) with (x ++ "" ++ String.concat "" (y :: l))%string. by rewrite IH. }
  unfold bytesToHex. rewrite Hcat. induction 1 as [|b bs Hb _ IH]; [done|]. cbn [map foldr toHex]. by rewrite IH, Hpad.
Qed.

(** Two digits are read as the checked decoder reads them. *)
Lemma parse_pair c1 c2 : is_hex_char c1 = true -> is_hex_char c2 = true ->
  to_u8 (default 0 (parseInt16 (String c1 (String c2 EmptyString)))) = 16 * default 0 (hex_val c1) + default 0 (hex_val c2).
Proof.
  destruct c1 as [[] [] [] [] [] [] [] []]; try discriminate; intros _;
    destruct c2 as [[] [] [] [] [] [] [] []]; try discriminate; intros _; vm_compute; reflexivity.
Qed.

Lemma parsed_pairs_hex s : all_hex s = true -> parsed_pairs s = hex_pairs s.
Proof.
  assert (H : forall n s, (String.length s <= n)%nat -> all_hex s = true -> parsed_pairs s = hex_pairs s); [|by apply (H (String.length s))].
  clear. induction n as [|n IH]; intros [|c1 [|c2 s]] Hn Hs; try done; [cbn in Hn; lia|].
  cbn [all_hex] in Hs. apply andb_true_iff in Hs as [H1 [H2 Hs]%andb_true_iff]. cbn [parsed_pairs hex_pairs].
  rewrite parse_pair, IH by (done || (cbn in Hn; lia)). done.
Qed.

(** What the checked decoder accepts is decoded alike, but for a prefix [0X]. *)
Lemma hexToBytes_fromHex s b : (forall s', s <> String "0" (String "X" s')) -> fromHex s = Ok b -> hexToBytes s = b.
Proof.
  unfold fromHex, hexToBytes. intros HX H. assert (Hc : cleanHex s = strip_0x s).
  { unfold cleanHex, strip_0x. repeat case_match; try done; exfalso; by eapply HX. }
  rewrite Hc. destruct (negb (Nat.even _)); [done|]. destruct (all_hex (strip_0x s)) eqn:Ea; cbn [negb] in H; [|done].
  apply Ok_inj in H as <-. by apply parsed_pairs_hex.
Qed.

Lemma hexToBytes_bytesToHex bs : bytes_ok bs -> hexToBytes (bytesToHex bs) = bs.
Proof.
  intros H. rewrite bytesToHex_toHex by done. apply hexToBytes_fromHex; [|by apply fromHex_toHex].
  intros s' E. pose proof (all_hex_toHex bs H) as Ha. by rewrite E in Ha.
Qed.
