(* ===== verification/Wire.v ===== *)
(** The canonical signed-message format of [sui-tunnel-ts/src/core/wire.ts]:
    big-endian u64s, 32-byte addresses, the six signed messages, the parser of
    a state update and the buffer-reusing [StateUpdateWriter]. *)
From S2P Require Import Prelude.
From S2P Require Import Bytes.

(** [src core/wire.ts DOMAIN_STATE_UPDATE] *)
Definition DOMAIN_STATE_UPDATE : bytes := text_encode "sui_tunnel::state_update".
(** [src core/wire.ts DOMAIN_SETTLEMENT] *)
Definition DOMAIN_SETTLEMENT : bytes := text_encode "sui_tunnel::settlement".
(** [src core/wire.ts DOMAIN_SETTLEMENT_V2] *)
Definition DOMAIN_SETTLEMENT_V2 : bytes := text_encode "sui_tunnel::settlement_v2".
(** [src core/wire.ts DOMAIN_HTLC_LOCK] *)
Definition DOMAIN_HTLC_LOCK : bytes := text_encode "sui_tunnel::htlc_lock".
(** [src core/wire.ts DOMAIN_SPEND_AUTHORIZATION] *)
Definition DOMAIN_SPEND_AUTHORIZATION : bytes :=
  text_encode "sui_tunnel::spend_authorization".
(** [src core/wire.ts DOMAIN_REFEREE_ASSIGNMENT] *)
Definition DOMAIN_REFEREE_ASSIGNMENT : bytes :=
  text_encode "sui_tunnel::referee_assignment".

(** [src core/wire.ts U64_MAX] *)
Definition U64_MAX : Z := Z.shiftl 1 64 - 1.

(** [src core/wire.ts asU64] *)
Definition asU64 (v : Z) : result Z :=
  throw_if (v <? 0) || (U64_MAX <? v) with RangeError "u64 out of range" ;
  Ok v.

(** The [n] big-endian bytes a [DataView] setter writes. *)
Fixpoint be_bytes (n : nat) (v : Z) : bytes :=
  match n with
  | O => []
  | S n' => Z.land (Z.shiftr v (8 * Z.of_nat n')) 255 :: be_bytes n' v
  end.

(** The unsigned integer a [DataView] getter reads, most significant byte first. *)
Definition be_value (bs : bytes) : Z :=
  fold_left (fun acc b => Z.lor (Z.shiftl acc 8) b) bs 0.

(** [src core/wire.ts u64ToBeBytes] *)
Definition u64ToBeBytes (value : Z) : result bytes :=
  let! v := asU64 value in
  u8_set (u8_new 8) 0 (be_bytes 8 v).

(** [src core/wire.ts u64FromBeBytes] *)
Definition u64FromBeBytes (bs : bytes) (offset : nat) : result Z :=
  throw_if (length bs <? offset + 8)%nat with RangeError "u64 read out of range" ;
  Ok (be_value (u8_slice bs offset (offset + 8))).

(** [s.padStart(n, "0")] *)
Fixpoint string_zeros (n : nat) (s : string) : string :=
  match n with
  | O => s
  | S n' => String "0"%char (string_zeros n' s)
  end.

Definition padStart0 (n : nat) (s : string) : string :=
  string_zeros (n - String.length s) s.

(** [src core/wire.ts addressToBytes32] *)
Definition addressToBytes32 (addr : string) : result bytes :=
  let h := strip_0x addr in
  throw_if negb (all_hex h) with Error "invalid hex address" ;
  throw_if (64 <? String.length h)%nat with Error "address longer than 32 bytes" ;
  Ok (hex_pairs (padStart0 64 h)).

(** [src core/wire.ts StateUpdate] *)
Record StateUpdate := {
  tunnelId : string;
  stateHash : bytes;
  nonce : Z;
  timestamp : Z;
  partyABalance : Z;
  partyBBalance : Z
}.

(** [src core/wire.ts serializeRefereeAssignment] *)
Definition serializeRefereeAssignment (tunnel_id referee : string) : result bytes :=
  let! a := addressToBytes32 tunnel_id in
  let! b := addressToBytes32 referee in
  concatBytes [DOMAIN_REFEREE_ASSIGNMENT; a; b].

(** [src core/wire.ts serializeStateUpdate] *)
Definition serializeStateUpdate (u : StateUpdate) : result bytes :=
  let! id := addressToBytes32 (tunnelId u) in
  let! n := u64ToBeBytes (nonce u) in
  let! t := u64ToBeBytes (timestamp u) in
  let! a := u64ToBeBytes (partyABalance u) in
  let! b := u64ToBeBytes (partyBBalance u) in
  concatBytes [DOMAIN_STATE_UPDATE; id; stateHash u; n; t; a; b].

(** [src core/wire.ts STATE_UPDATE_LEN] *)
Definition STATE_UPDATE_LEN : nat := length DOMAIN_STATE_UPDATE + 32 + 32 + 4 * 8.

(** [src core/wire.ts parseStateUpdate] *)
Definition parseStateUpdate (message : bytes) : result StateUpdate :=
  throw_if negb (length message =? STATE_UPDATE_LEN)%nat
    with Error "state update must be 120 bytes" ;
  throw_if negb (bytes_same (take (length DOMAIN_STATE_UPDATE) message) DOMAIN_STATE_UPDATE)
    with Error "state update domain prefix mismatch" ;
  let o := length DOMAIN_STATE_UPDATE in
  let tunnel_id := ("0x" ++ toHex (u8_slice message o (o + 32)))%string in
  let o := (o + 32)%nat in
  let hash := u8_slice message o (o + 32) in
  let o := (o + 32)%nat in
  let! n := u64FromBeBytes message o in
  let! t := u64FromBeBytes message (o + 8) in
  let! a := u64FromBeBytes message (o + 16) in
  let! b := u64FromBeBytes message (o + 24) in
  Ok {| tunnelId := tunnel_id; stateHash := hash; nonce := n; timestamp := t;
        partyABalance := a; partyBBalance := b |}.

(** [src core/wire.ts Settlement] *)
Record Settlement := {
  s_tunnelId : string;
  s_partyABalance : Z;
  s_partyBBalance : Z;
  s_finalNonce : Z;
  s_timestamp : Z
}.

(** [src core/wire.ts serializeSettlement] *)
Definition serializeSettlement (s : Settlement) : result bytes :=
  let! id := addressToBytes32 (s_tunnelId s) in
  let! a := u64ToBeBytes (s_partyABalance s) in
  let! b := u64ToBeBytes (s_partyBBalance s) in
  let! n := u64ToBeBytes (s_finalNonce s) in
  let! t := u64ToBeBytes (s_timestamp s) in
  concatBytes [DOMAIN_SETTLEMENT; id; a; b; n; t].

(** [src core/wire.ts SettlementWithRoot] *)
Record SettlementWithRoot := {
  r_settlement : Settlement;
  r_transcriptRoot : bytes
}.

(** [src core/wire.ts serializeSettlementWithRoot] *)
Definition serializeSettlementWithRoot (s : SettlementWithRoot) : result bytes :=
  throw_if negb (length (r_transcriptRoot s) =? 32)%nat
    with Error "transcript root must be 32 bytes" ;
  let! id := addressToBytes32 (s_tunnelId (r_settlement s)) in
  let! a := u64ToBeBytes (s_partyABalance (r_settlement s)) in
  let! b := u64ToBeBytes (s_partyBBalance (r_settlement s)) in
  let! n := u64ToBeBytes (s_finalNonce (r_settlement s)) in
  let! t := u64ToBeBytes (s_timestamp (r_settlement s)) in
  concatBytes [DOMAIN_SETTLEMENT_V2; id; a; b; n; t; r_transcriptRoot s].

(** [src core/wire.ts HtlcLock] *)
Record HtlcLock := {
  h_tunnelId : string;
  h_paymentHash : bytes;
  h_amount : Z;
  h_sender : string;
  h_receiver : string;
  h_expiryMs : Z
}.

(** [src core/wire.ts serializeHtlcLock] *)
Definition serializeHtlcLock (h : HtlcLock) : result bytes :=
  let! id := addressToBytes32 (h_tunnelId h) in
  let! a := u64ToBeBytes (h_amount h) in
  let! s := addressToBytes32 (h_sender h) in
  let! r := addressToBytes32 (h_receiver h) in
  let! e := u64ToBeBytes (h_expiryMs h) in
  concatBytes [DOMAIN_HTLC_LOCK; id; h_paymentHash h; a; s; r; e].

(** [src core/wire.ts SpendAuthorization] *)
Record SpendAuthorization := {
  p_allowanceId : string;
  p_authorizedTotal : Z
}.

(** [src core/wire.ts serializeSpendAuthorization] *)
Definition serializeSpendAuthorization (a : SpendAuthorization) : result bytes :=
  let! id := addressToBytes32 (p_allowanceId a) in
  let! t := u64ToBeBytes (p_authorizedTotal a) in
  concatBytes [DOMAIN_SPEND_AUTHORIZATION; id; t].

(** [src core/wire.ts:271-275 StateUpdateWriter]: the one buffer every
    [write] reuses. *)
Record StateUpdateWriter := {
  buf : bytes;
  tailOffset : nat;
  stateHashLen : nat
}.

(** [src core/wire.ts StateUpdateWriter.constructor] *)
Definition newStateUpdateWriter (tunnel_id : string) (hash_len : nat)
  : result StateUpdateWriter :=
  let prefixLen := (length DOMAIN_STATE_UPDATE + 32)%nat in
  let! b0 := u8_set (u8_new (prefixLen + hash_len + 32)) 0 DOMAIN_STATE_UPDATE in
  let! id := addressToBytes32 tunnel_id in
  let! b1 := u8_set b0 (length DOMAIN_STATE_UPDATE) id in
  Ok {| buf := b1; tailOffset := prefixLen; stateHashLen := hash_len |}.

(** [buf.set(src, off)] and [dv.setBigUint64(off, asU64(v), false)] on the
    writer's buffer; a store that throws leaves the buffer as it was. *)
Definition w_set (off : nat) (src : bytes) : eff StateUpdateWriter unit :=
  fun w => match u8_set (buf w) off src with
           | Ok b => ({| buf := b; tailOffset := tailOffset w;
                         stateHashLen := stateHashLen w |}, Ok tt)
           | Throw e => (w, Throw e)
           end.

Definition w_setU64 (off : nat) (v : Z) : eff StateUpdateWriter unit :=
  do! v' <- elift (asU64 v); w_set off (be_bytes 8 v').

(** [src core/wire.ts StateUpdateWriter.write]: returns the buffer's
    contents; the fields written before an out-of-range one stay written. *)
Definition write (hash : bytes) (n t a b : Z) : eff StateUpdateWriter bytes :=
  do! w <- eget;
  if negb (length hash =? stateHashLen w)%nat
  then ethrow (Error "stateHash length")
  else
    let o := tailOffset w in
    do! _ <- w_set o hash;
    let o := (o + stateHashLen w)%nat in
    do! _ <- w_setU64 o n;
    do! _ <- w_setU64 (o + 8) t;
    do! _ <- w_setU64 (o + 16) a;
    do! _ <- w_setU64 (o + 24) b;
    do! w' <- eget;
    eret (buf w').

(** * Big-endian integers *)

Definition u64_range (v : Z) : Prop := 0 <= v <= U64_MAX.

#[export] Instance u64_range_dec v : Decision (u64_range v).
Proof. unfold u64_range; apply _. Defined.

Lemma length_be_bytes n v : length (be_bytes n v) = n.
Proof. induction n as [|n IH]; simpl; congruence. Qed.

Lemma be_byte_mod n v :
  Z.land (Z.shiftr v (8 * Z.of_nat n)) 255 = (v / 2 ^ (8 * Z.of_nat n)) mod 256.
Proof. change 255 with (Z.ones 8). rewrite Z.land_ones, Z.shiftr_div_pow2 by lia. done. Qed.

Lemma be_bytes_ok n v : bytes_ok (be_bytes n v).
Proof.
  induction n as [|n IH]; cbn [be_bytes]; constructor; [|done].
  rewrite be_byte_mod. apply Z.mod_pos_bound. lia.
Qed.

Lemma lor_shift_byte acc b : is_byte b -> Z.lor (Z.shiftl acc 8) b = acc * 256 + b.
Proof.
  intros [Hb1 Hb2].
  assert (Z.land (Z.shiftl acc 8) b = 0) as Hz.
  { apply Z.bits_inj'; intros n Hn. rewrite Z.land_spec, Z.bits_0.
    destruct (decide (n < 8)).
    - rewrite Z.shiftl_spec_low by lia. done.
    - rewrite (Z.bounded_iff_bits_nonneg 8 b) in Hb2 by lia. rewrite (Hb2 n) by lia.
      by rewrite andb_false_r. }
  pose proof (Z.add_lor_land (Z.shiftl acc 8) b). rewrite Z.shiftl_mul_pow2 in * by lia. lia.
Qed.

Lemma be_value_acc n v acc :
  fold_left (fun acc b => Z.lor (Z.shiftl acc 8) b) (be_bytes n v) acc
  = acc * 2 ^ (8 * Z.of_nat n) + v mod 2 ^ (8 * Z.of_nat n).
Proof.
  revert acc; induction n as [|n IH]; intros acc; cbn [be_bytes fold_left].
  { rewrite Z.mod_1_r. lia. }
  rewrite IH, be_byte_mod, lor_shift_byte by (apply Z.mod_pos_bound; lia).
  replace (2 ^ (8 * Z.of_nat (S n))) with (2 ^ (8 * Z.of_nat n) * 256).
  2:{ rewrite Nat2Z.inj_succ, Z.mul_succ_r, Z.pow_add_r by lia. done. }
  rewrite (Z.rem_mul_r v) by (try apply Z.pow_nonzero; lia). ring.
Qed.

Lemma be_value_be_bytes n v :
  0 <= v < 2 ^ (8 * Z.of_nat n) -> be_value (be_bytes n v) = v.
Proof. intros H. unfold be_value. rewrite be_value_acc, Z.mod_small; lia. Qed.

Lemma U64_MAX_eq : U64_MAX = 2 ^ (8 * Z.of_nat 8) - 1.
Proof. reflexivity. Qed.

Lemma be_value_u64 v : u64_range v -> be_value (be_bytes 8 v) = v.
Proof. intros [? ?]. apply be_value_be_bytes. rewrite U64_MAX_eq in *. lia. Qed.

Lemma be_bytes_inj v w :
  u64_range v -> u64_range w -> be_bytes 8 v = be_bytes 8 w -> v = w.
Proof. intros Hv Hw H. rewrite <- (be_value_u64 v), <- (be_value_u64 w), H; done. Qed.

Lemma asU64_ok v w : asU64 v = Ok w <-> w = v /\ u64_range v.
Proof.
  unfold asU64, u64_range.
  destruct (Z.ltb_spec v 0), (Z.ltb_spec U64_MAX v); simpl; naive_solver lia.
Qed.

Lemma u64ToBeBytes_ok v bs :
  u64ToBeBytes v = Ok bs <-> u64_range v /\ bs = be_bytes 8 v.
Proof.
  unfold u64ToBeBytes. rewrite rbind_ok. split.
  - intros (w & [-> Hr]%asU64_ok & Hw). unfold u8_set in Hw.
    rewrite length_be_bytes in Hw. simpl in Hw. by injection Hw as <-.
  - intros [Hr ->]. exists v. rewrite asU64_ok. split; [done|].
    unfold u8_set. rewrite length_be_bytes. done.
Qed.

Lemma u64ToBeBytes_total v : u64_range v -> u64ToBeBytes v = Ok (be_bytes 8 v).
Proof. intros H. by apply u64ToBeBytes_ok. Qed.

Lemma u64FromBeBytes_at pre v post :
  u64_range v -> u64FromBeBytes (pre ++ be_bytes 8 v ++ post) (length pre) = Ok v.
Proof.
  intros Hv. unfold u64FromBeBytes. rewrite (proj2 (Nat.ltb_ge _ _)).
  2:{ rewrite !length_app, length_be_bytes. lia. }
  unfold u8_slice. rewrite drop_app_length. replace (_ - _)%nat with 8%nat by lia.
  rewrite take_app_exact by (by rewrite length_be_bytes). by rewrite be_value_u64.
Qed.

(** * Addresses *)

Lemma hex_val_range c d : hex_val c = Some d -> 0 <= d < 16.
Proof. unfold hex_val. repeat case_match; intros [= <-]; bool_to_prop; lia. Qed.

Lemma hex_pairs_ok s : bytes_ok (hex_pairs s).
Proof.
  revert s. fix IH 1. intros [|c1 [|c2 s]]; simpl; constructor; [|apply IH].
  unfold is_byte.
  destruct (hex_val c1) eqn:E1, (hex_val c2) eqn:E2;
    try apply hex_val_range in E1; try apply hex_val_range in E2; simpl; lia.
Qed.

Lemma length_hex_pairs s : length (hex_pairs s) = Nat.div2 (String.length s).
Proof. revert s. fix IH 1. intros [|c1 [|c2 s]]; simpl; [done..|]. by rewrite IH. Qed.

Lemma length_string_zeros n s :
  String.length (string_zeros n s) = (n + String.length s)%nat.
Proof. induction n as [|n IH]; simpl; congruence. Qed.

Lemma length_padStart0 n s :
  (String.length s <= n)%nat -> String.length (padStart0 n s) = n.
Proof. intros. unfold padStart0. rewrite length_string_zeros. lia. Qed.

Lemma padStart0_full n s : String.length s = n -> padStart0 n s = s.
Proof. intros <-. unfold padStart0. by rewrite Nat.sub_diag. Qed.

Lemma addressToBytes32_shape addr id :
  addressToBytes32 addr = Ok id -> length id = 32%nat /\ bytes_ok id.
Proof.
  unfold addressToBytes32. intros H. inv_ok. bool_to_prop.
  split; [|apply hex_pairs_ok]. rewrite length_hex_pairs, length_padStart0; [done|lia].
Qed.

Lemma addressToBytes32_toHex id :
  length id = 32%nat -> bytes_ok id -> addressToBytes32 ("0x" ++ toHex id) = Ok id.
Proof.
  intros Hl Hok. unfold addressToBytes32.
  change (strip_0x ("0x" ++ toHex id)) with (toHex id).
  rewrite all_hex_toHex, length_toHex, Hl by done. simpl.
  by rewrite padStart0_full, hex_pairs_toHex by (rewrite ?length_toHex, ?Hl; done).
Qed.

(** The canonical text of an address: what {!parseStateUpdate} prints. *)
Definition canonical_address (addr : string) : string :=
  match addressToBytes32 addr with
  | Ok id => ("0x" ++ toHex id)%string
  | Throw _ => addr
  end.

Lemma canonical_address_ok addr id :
  addressToBytes32 addr = Ok id -> canonical_address addr = ("0x" ++ toHex id)%string.
Proof. intros H. unfold canonical_address. by rewrite H. Qed.

Lemma canonical_address_idem addr :
  is_ok (addressToBytes32 addr) = true ->
  canonical_address (canonical_address addr) = canonical_address addr.
Proof.
  intros (id & Hid)%is_ok_exists.
  destruct (addressToBytes32_shape _ _ Hid).
  rewrite (canonical_address_ok _ _ Hid).
  by apply canonical_address_ok, addressToBytes32_toHex.
Qed.

(** * Serializers as concatenations *)

Ltac serialize_inv :=
  repeat match goal with
  | H : rbind _ _ = Ok _ |- _ => apply rbind_ok in H as (? & ? & H)
  | H : u64ToBeBytes _ = Ok _ |- _ => apply u64ToBeBytes_ok in H as [? ->]
  | H : concatBytes _ = Ok _ |- _ => rewrite concatBytes_concat in H; apply Ok_inj in H as <-
  end.

Lemma serializeStateUpdate_inv u m :
  serializeStateUpdate u = Ok m ->
  exists id, addressToBytes32 (tunnelId u) = Ok id /\
    u64_range (nonce u) /\ u64_range (timestamp u) /\
    u64_range (partyABalance u) /\ u64_range (partyBBalance u) /\
    m = DOMAIN_STATE_UPDATE ++ id ++ stateHash u ++ be_bytes 8 (nonce u) ++
        be_bytes 8 (timestamp u) ++ be_bytes 8 (partyABalance u) ++
        be_bytes 8 (partyBBalance u).
Proof.
  unfold serializeStateUpdate. intros H. serialize_inv.
  eexists; split_and!; done.
Qed.

Lemma serializeStateUpdate_total u id :
  addressToBytes32 (tunnelId u) = Ok id ->
  u64_range (nonce u) -> u64_range (timestamp u) ->
  u64_range (partyABalance u) -> u64_range (partyBBalance u) ->
  serializeStateUpdate u =
    Ok (DOMAIN_STATE_UPDATE ++ id ++ stateHash u ++ be_bytes 8 (nonce u) ++
        be_bytes 8 (timestamp u) ++ be_bytes 8 (partyABalance u) ++
        be_bytes 8 (partyBBalance u)).
Proof.
  intros Hid ????. unfold serializeStateUpdate.
  rewrite Hid, !u64ToBeBytes_total by done. cbn [rbind].
  by rewrite concatBytes_concat.
Qed.

Lemma length_serializeStateUpdate u m :
  serializeStateUpdate u = Ok m -> length (stateHash u) = 32%nat ->
  length m = STATE_UPDATE_LEN.
Proof.
  intros (id & [Hid _]%addressToBytes32_shape & _ & _ & _ & _ & ->)%serializeStateUpdate_inv Hh.
  rewrite !length_app, !length_be_bytes, Hid, Hh. reflexivity.
Qed.

Lemma u8_slice_app (pre x post : bytes) n :
  n = (length pre + length x)%nat -> u8_slice (pre ++ x ++ post) (length pre) n = x.
Proof.
  intros ->. unfold u8_slice. rewrite drop_app_length.
  apply take_app_exact. lia.
Qed.

(** Reading back the fields of [pre ++ be_bytes 8 v1 ++ ...] at successive offsets. *)
Lemma u64_fields_read pre v1 v2 v3 v4 o :
  u64_range v1 -> u64_range v2 -> u64_range v3 -> u64_range v4 -> o = length pre ->
  let m := pre ++ be_bytes 8 v1 ++ be_bytes 8 v2 ++ be_bytes 8 v3 ++ be_bytes 8 v4 in
  u64FromBeBytes m o = Ok v1 /\ u64FromBeBytes m (o + 8) = Ok v2 /\
  u64FromBeBytes m (o + 16) = Ok v3 /\ u64FromBeBytes m (o + 24) = Ok v4.
Proof.
  intros H1 H2 H3 H4 -> m. subst m. split_and!.
  - by apply u64FromBeBytes_at.
  - pose proof (u64FromBeBytes_at (pre ++ be_bytes 8 v1) v2 (be_bytes 8 v3 ++ be_bytes 8 v4) H2) as H.
    by rewrite length_app, length_be_bytes, <- app_assoc in H.
  - pose proof (u64FromBeBytes_at (pre ++ be_bytes 8 v1 ++ be_bytes 8 v2) v3 (be_bytes 8 v4) H3) as H.
    by rewrite !length_app, !length_be_bytes, <- !app_assoc in H.
  - pose proof (u64FromBeBytes_at (pre ++ be_bytes 8 v1 ++ be_bytes 8 v2 ++ be_bytes 8 v3) v4 [] H4) as H.
    by rewrite !length_app, !length_be_bytes, <- !app_assoc, app_nil_r in H.
Qed.

Definition with_canonical_id (u : StateUpdate) : StateUpdate :=
  {| tunnelId := canonical_address (tunnelId u); stateHash := stateHash u;
     nonce := nonce u; timestamp := timestamp u;
     partyABalance := partyABalance u; partyBBalance := partyBBalance u |}.

Lemma parse_serialize u m :
  serializeStateUpdate u = Ok m -> length (stateHash u) = 32%nat ->
  parseStateUpdate m = Ok (with_canonical_id u).
Proof.
  intros Hs Hh. pose proof (length_serializeStateUpdate _ _ Hs Hh) as Hlen.
  apply serializeStateUpdate_inv in Hs as (id & Hid & Hn & Ht & Ha & Hb & ->).
  destruct (addressToBytes32_shape _ _ Hid) as [Hidl _].
  unfold parseStateUpdate. rewrite Hlen. simpl negb at 1. cbn match.
  rewrite take_app_length, (proj2 (bytes_same_spec _ _ eq_refl) eq_refl). cbn [negb].
  rewrite u8_slice_app by lia.
  set (post := be_bytes 8 (nonce u) ++ _).
  assert (length (DOMAIN_STATE_UPDATE ++ id) = (length DOMAIN_STATE_UPDATE + 32)%nat) as Hpl
    by (rewrite length_app; lia).
  rewrite (app_assoc DOMAIN_STATE_UPDATE), <- Hpl.
  rewrite u8_slice_app by lia. subst post. rewrite app_assoc.
  edestruct (u64_fields_read ((DOMAIN_STATE_UPDATE ++ id) ++ stateHash u)) as (E1 & E2 & E3 & E4);
    [exact Hn|exact Ht|exact Ha|exact Hb|reflexivity|].
  rewrite (length_app _ (stateHash u)), Hh in E1, E2, E3, E4.
  rewrite E1, E2, E3, E4. cbn [rbind]. unfold with_canonical_id.
  by rewrite (canonical_address_ok _ _ Hid).
Qed.

(** * The six signed messages together *)

(** Everything a tunnel key ever signs, one constructor per serializer. *)
Inductive signable : Type :=
  | SStateUpdate (u : StateUpdate)
  | SSettlement (s : Settlement)
  | SSettlementWithRoot (s : SettlementWithRoot)
  | SHtlcLock (h : HtlcLock)
  | SSpendAuthorization (a : SpendAuthorization)
  | SRefereeAssignment (tunnel_id referee : string).

Definition serialize (m : signable) : result bytes :=
  match m with
  | SStateUpdate u => serializeStateUpdate u
  | SSettlement s => serializeSettlement s
  | SSettlementWithRoot s => serializeSettlementWithRoot s
  | SHtlcLock h => serializeHtlcLock h
  | SSpendAuthorization a => serializeSpendAuthorization a
  | SRefereeAssignment t r => serializeRefereeAssignment t r
  end.

(** The digests a message embeds without a length prefix have 32 bytes. *)
Definition digests_32 (m : signable) : Prop :=
  match m with
  | SStateUpdate u => length (stateHash u) = 32%nat
  | SHtlcLock h => length (h_paymentHash h) = 32%nat
  | _ => True
  end.

Definition canonical_settlement (s : Settlement) : Settlement :=
  {| s_tunnelId := canonical_address (s_tunnelId s);
     s_partyABalance := s_partyABalance s; s_partyBBalance := s_partyBBalance s;
     s_finalNonce := s_finalNonce s; s_timestamp := s_timestamp s |}.

(** The message with every address in its canonical text. *)
Definition canonical (m : signable) : signable :=
  match m with
  | SStateUpdate u => SStateUpdate (with_canonical_id u)
  | SSettlement s => SSettlement (canonical_settlement s)
  | SSettlementWithRoot s =>
      SSettlementWithRoot {| r_settlement := canonical_settlement (r_settlement s);
                             r_transcriptRoot := r_transcriptRoot s |}
  | SHtlcLock h =>
      SHtlcLock {| h_tunnelId := canonical_address (h_tunnelId h);
                   h_paymentHash := h_paymentHash h; h_amount := h_amount h;
                   h_sender := canonical_address (h_sender h);
                   h_receiver := canonical_address (h_receiver h);
                   h_expiryMs := h_expiryMs h |}
  | SSpendAuthorization a =>
      SSpendAuthorization {| p_allowanceId := canonical_address (p_allowanceId a);
                             p_authorizedTotal := p_authorizedTotal a |}
  | SRefereeAssignment t r =>
      SRefereeAssignment (canonical_address t) (canonical_address r)
  end.

(** The domain tag a message starts with, and its total length. *)
Definition domain_of (m : signable) : bytes :=
  match m with
  | SStateUpdate _ => DOMAIN_STATE_UPDATE
  | SSettlement _ => DOMAIN_SETTLEMENT
  | SSettlementWithRoot _ => DOMAIN_SETTLEMENT_V2
  | SHtlcLock _ => DOMAIN_HTLC_LOCK
  | SSpendAuthorization _ => DOMAIN_SPEND_AUTHORIZATION
  | SRefereeAssignment _ _ => DOMAIN_REFEREE_ASSIGNMENT
  end.

Definition tail_length (m : signable) : nat :=
  match m with
  | SStateUpdate _ => 96
  | SSettlement _ => 64
  | SSettlementWithRoot _ => 96
  | SHtlcLock _ => 144
  | SSpendAuthorization _ => 40
  | SRefereeAssignment _ _ => 64
  end.

Lemma serialize_split m b :
  digests_32 m -> serialize m = Ok b ->
  exists rest, b = domain_of m ++ rest /\ length rest = tail_length m.
Proof.
  destruct m; simpl; intros Hd H.
  all: unfold serializeStateUpdate, serializeSettlement, serializeSettlementWithRoot,
         serializeHtlcLock, serializeSpendAuthorization, serializeRefereeAssignment in H.
  all: inv_ok; bool_to_prop; serialize_inv.
  all: repeat match goal with
       | H : addressToBytes32 _ = Ok _ |- _ => apply addressToBytes32_shape in H as [? _]
       end.
  all: eexists; split; [reflexivity|]; cbn [foldr concat];
       repeat progress (rewrite ?length_app, ?length_be_bytes; cbn [length]);
       cbn [tail_length]; lia.
Qed.

(** Two fixed-width field lists with the same bytes have the same fields. *)
Ltac split_fields :=
  repeat match goal with
  | H : ?a ++ ?b = ?c ++ ?d |- _ =>
      apply app_inj_length in H; [destruct H|rewrite ?length_be_bytes; lia]
  end.

Lemma canonical_address_inj a b ida idb :
  addressToBytes32 a = Ok ida -> addressToBytes32 b = Ok idb -> ida = idb ->
  canonical_address a = canonical_address b.
Proof. intros Ha Hb ->. by rewrite (canonical_address_ok _ _ Ha), (canonical_address_ok _ _ Hb). Qed.

Ltac fields_eq :=
  first [ solve [eauto using canonical_address_inj] | congruence | f_equal; fields_eq ].

(** Same serializer, same bytes: same message. *)
Lemma serialize_same_kind m1 m2 b :
  digests_32 m1 -> digests_32 m2 -> domain_of m1 = domain_of m2 ->
  serialize m1 = Ok b -> serialize m2 = Ok b -> canonical m1 = canonical m2.
Proof.
  destruct m1, m2; simpl; intros Hd1 Hd2 Hdom H1 H2; try discriminate Hdom; clear Hdom.
  all: unfold serializeStateUpdate, serializeSettlement, serializeSettlementWithRoot,
         serializeHtlcLock, serializeSpendAuthorization, serializeRefereeAssignment in *.
  all: inv_ok; bool_to_prop.
  all: repeat match goal with
       | H : u64ToBeBytes _ = Ok _ |- _ => apply u64ToBeBytes_ok in H as [? ->]
       end.
  all: rewrite concatBytes_concat in H1, H2; apply Ok_inj in H1 as <-; apply Ok_inj in H2.
  all: cbn [concat foldr] in H2; apply app_inv_head in H2; rewrite !app_nil_r in H2.
  all: repeat match goal with
       | H : addressToBytes32 _ = Ok ?x |- _ =>
           lazymatch goal with
           | _ : length x = 32%nat |- _ => fail
           | _ => pose proof (proj1 (addressToBytes32_shape _ _ H))
           end
       end.
  all: split_fields.
  all: repeat match goal with
       | H : be_bytes 8 _ = be_bytes 8 _ |- _ => apply be_bytes_inj in H; [|done|done]
       end.
  all: subst; unfold with_canonical_id, canonical_settlement; fields_eq.
Qed.

Lemma domains_distinct m1 m2 t1 t2 :
  domain_of m1 ++ t1 = domain_of m2 ++ t2 ->
  length t1 = tail_length m1 -> length t2 = tail_length m2 ->
  domain_of m1 = domain_of m2.
Proof.
  intros H Hl1 Hl2.
  assert (length (domain_of m1 ++ t1) = length (domain_of m2 ++ t2)) as Hl by (by rewrite H).
  rewrite !length_app, Hl1, Hl2 in Hl.
  destruct m1, m2; try reflexivity; try discriminate Hl; discriminate H.
Qed.

(** The bytes of a signed message determine it, across all kinds. *)
Lemma serialize_inj m1 m2 b :
  digests_32 m1 -> digests_32 m2 -> serialize m1 = Ok b -> serialize m2 = Ok b ->
  canonical m1 = canonical m2.
Proof.
  intros Hd1 Hd2 H1 H2.
  destruct (serialize_split m1 b Hd1 H1) as (t1 & E1 & L1).
  destruct (serialize_split m2 b Hd2 H2) as (t2 & E2 & L2).
  apply (serialize_same_kind m1 m2 b); try done.
  apply (domains_distinct m1 m2 t1 t2); congruence.
Qed.

Lemma serializeStateUpdate_inj u1 u2 b :
  length (stateHash u1) = 32%nat -> length (stateHash u2) = 32%nat -> tunnelId u1 = tunnelId u2 ->
  serializeStateUpdate u1 = Ok b -> serializeStateUpdate u2 = Ok b -> u1 = u2.
Proof.
  intros Hd1 Hd2 Ht H1 H2.
  pose proof (serialize_inj (SStateUpdate u1) (SStateUpdate u2) b Hd1 Hd2 H1 H2) as E.
  destruct u1, u2. cbn in Ht, E. injection E; intros; congruence.
Qed.

(** The writer: whatever was written before, the buffer keeps its prefix. *)
Definition writer_ok (id : bytes) (hl : nat) (w : StateUpdateWriter) : Prop :=
  tailOffset w = (length DOMAIN_STATE_UPDATE + 32)%nat /\ stateHashLen w = hl /\
  exists rest : bytes,
    length rest = (hl + 32)%nat /\ buf w = DOMAIN_STATE_UPDATE ++ id ++ rest.

Lemma new_writer_ok tid hl id :
  addressToBytes32 tid = Ok id ->
  exists w, newStateUpdateWriter tid hl = Ok w /\ writer_ok id hl w.
Proof.
  intros Hid. destruct (addressToBytes32_shape _ _ Hid) as [Hl _].
  unfold writer_ok, newStateUpdateWriter, u8_set. rewrite Hid.
  generalize DOMAIN_STATE_UPDATE as d; intros d.
  rewrite (proj2 (Nat.ltb_ge _ _)) by (unfold u8_new; rewrite length_replicate; lia).
  cbn [rbind]. rewrite take_0, app_nil_l, drop_u8_new.
  rewrite (proj2 (Nat.ltb_ge _ _)).
  2:{ rewrite length_app. unfold u8_new. rewrite length_replicate. lia. }
  cbn [rbind]. eexists; split; [reflexivity|]. split_and!; [reflexivity..|].
  exists (u8_new (hl + 32)). split; [apply length_replicate|]. cbn [buf].
  rewrite take_app_length, drop_app_add, drop_u8_new. do 3 f_equal. lia.
Qed.

Lemma w_set_tail off x rest id hl w :
  writer_ok id hl w -> length id = 32%nat ->
  buf w = DOMAIN_STATE_UPDATE ++ id ++ rest -> (off + length x <= length rest)%nat ->
  exists w', w_set (tailOffset w + off) x w = (w', Ok tt) /\ writer_ok id hl w' /\
    buf w' = DOMAIN_STATE_UPDATE ++ id ++ take off rest ++ x ++ drop (off + length x) rest.
Proof.
  intros (Ho & Hs & rest0 & Hr & Hb) Hid Hbuf Hoff.
  assert (rest0 = rest) as ->.
  { rewrite Hb in Hbuf. by do 2 apply app_inv_head in Hbuf. }
  unfold w_set, u8_set. rewrite Ho, Hb, app_assoc.
  replace (length DOMAIN_STATE_UPDATE + 32 + off)%nat
    with (length (DOMAIN_STATE_UPDATE ++ id) + off)%nat by (rewrite length_app; lia).
  rewrite (proj2 (Nat.ltb_ge _ _)) by (rewrite !length_app; lia).
  rewrite <- Nat.add_assoc, take_app_add, drop_app_add.
  eexists; split; [reflexivity|]. cbn [buf tailOffset stateHashLen].
  rewrite <- !app_assoc. split; [|done]. split_and!; [done..|].
  eexists; split; [|reflexivity].
  rewrite !length_app, length_take, length_drop. lia.
Qed.

Lemma w_set_segment o x pre old post id hl w :
  writer_ok id hl w -> length id = 32%nat ->
  buf w = DOMAIN_STATE_UPDATE ++ id ++ pre ++ old ++ post ->
  length x = length old -> o = (length DOMAIN_STATE_UPDATE + 32 + length pre)%nat ->
  exists w', w_set o x w = (w', Ok tt) /\ writer_ok id hl w' /\
    buf w' = DOMAIN_STATE_UPDATE ++ id ++ pre ++ x ++ post.
Proof.
  intros Hw Hid Hb Hl ->. rewrite <- (proj1 Hw).
  destruct (w_set_tail (length pre) x (pre ++ old ++ post) id hl w) as (w' & E & Hw' & Hb');
    [done..|rewrite !length_app; lia|].
  exists w'. split_and!; [done..|]. rewrite Hb'.
  by rewrite take_app_length, drop_app_add, Hl, drop_app_length.
Qed.

Lemma ebind_ok {S A B} (m : eff S A) (k : A -> eff S B) s s' a :
  m s = (s', Ok a) -> ebind m k s = k a s'.
Proof. intros H. unfold ebind. by rewrite H. Qed.

Lemma w_setU64_eq o v : u64_range v -> forall w, w_setU64 o v w = w_set o (be_bytes 8 v) w.
Proof.
  intros Hv w. unfold w_setU64, elift, ebind. by rewrite (proj2 (asU64_ok v v)) by done.
Qed.

Lemma split_segments (rest : bytes) hl :
  length rest = (hl + 32)%nat ->
  exists r0 r1 r2 r3 r4, rest = r0 ++ r1 ++ r2 ++ r3 ++ r4 /\
    length r0 = hl /\ length r1 = 8%nat /\ length r2 = 8%nat /\
    length r3 = 8%nat /\ length r4 = 8%nat.
Proof.
  intros H. exists (take hl rest), (take 8 (drop hl rest)), (take 8 (drop (hl + 8) rest)),
    (take 8 (drop (hl + 16) rest)), (drop (hl + 24) rest).
  rewrite !length_take, !length_drop. split_and!; try lia.
  rewrite <- (take_drop hl rest) at 1. f_equal.
  rewrite <- (take_drop 8 (drop hl rest)) at 1. f_equal.
  rewrite drop_drop, <- (take_drop 8 (drop (hl + 8) rest)) at 1. f_equal.
  rewrite drop_drop, <- Nat.add_assoc, <- (take_drop 8 (drop _ rest)) at 1. f_equal.
  rewrite drop_drop. f_equal. lia.
Qed.

(** One store of [write]: [pre] is already written, [old] is overwritten. *)
Ltac write_segment o x pre old w1 :=
  let E := fresh "E" in let Hw := fresh "Hw" in let Hb := fresh "Hb" in
  edestruct (w_set_segment o x pre old) as (w1 & E & Hw & Hb);
  [ eassumption | assumption
  | match goal with H : buf _ = _ |- _ => rewrite H; rewrite <- ?app_assoc; reflexivity end
  | rewrite ?length_be_bytes; congruence
  | rewrite ?length_app, ?length_be_bytes; cbn [length]; lia
  | match goal with H : buf ?w = _ |- _ =>
      lazymatch w with
      | w1 => fail
      | _ => clear H; rewrite (ebind_ok _ _ w w1 tt) by (rewrite ?w_setU64_eq; done)
      end end ].

(** A write with every argument in range replaces the whole tail. *)
Lemma write_in_range id hl w hash n t a b :
  writer_ok id hl w -> length id = 32%nat -> length hash = hl ->
  u64_range n -> u64_range t -> u64_range a -> u64_range b ->
  exists w', write hash n t a b w =
    (w', Ok (DOMAIN_STATE_UPDATE ++ id ++ hash ++ be_bytes 8 n ++ be_bytes 8 t ++
             be_bytes 8 a ++ be_bytes 8 b)) /\ writer_ok id hl w'.
Proof.
  intros Hw Hid Hh Hn Ht Ha Hb. pose proof Hw as (Ho & Hs & rest & Hr & Hbuf).
  destruct (split_segments rest hl Hr) as (r0 & r1 & r2 & r3 & r4 & -> & L0 & L1 & L2 & L3 & L4).
  clear Hr. rewrite <- (app_nil_r r4) in Hbuf. unfold write. rewrite (ebind_ok _ _ w w w) by done.
  rewrite Hs, Hh, Nat.eqb_refl, Ho. cbn [negb].
  remember (length DOMAIN_STATE_UPDATE + 32)%nat as o eqn:Hoff.
  write_segment o hash ([] : bytes) r0 w1.
  write_segment (o + hl)%nat (be_bytes 8 n) hash r1 w2.
  write_segment (o + hl + 8)%nat (be_bytes 8 t) (hash ++ be_bytes 8 n) r2 w3.
  write_segment (o + hl + 16)%nat (be_bytes 8 a) (hash ++ be_bytes 8 n ++ be_bytes 8 t) r3 w4.
  write_segment (o + hl + 24)%nat (be_bytes 8 b)
    (hash ++ be_bytes 8 n ++ be_bytes 8 t ++ be_bytes 8 a) r4 w5.
  exists w5. split; [|done]. unfold ebind, eget, eret.
  match goal with H : buf w5 = _ |- _ => rewrite H end. by rewrite app_nil_r, <- !app_assoc.
Qed.

(** Every store of [write] keeps the prefix, also when a later argument throws. *)
Lemma w_set_keeps id hl off x w :
  writer_ok id hl w -> length id = 32%nat -> (off + length x <= hl + 32)%nat ->
  writer_ok id hl (fst (w_set (length DOMAIN_STATE_UPDATE + 32 + off) x w)).
Proof.
  intros Hw Hid Hoff. pose proof Hw as (Ho & _ & rest & Hr & Hb).
  destruct (w_set_tail off x rest id hl w) as (w' & E & Hw' & _); [done..|lia|].
  rewrite Ho in E. by rewrite E.
Qed.

Lemma ebind_keeps {S A B} (P : S -> Prop) (m : eff S A) (k : A -> eff S B) s :
  P (fst (m s)) -> (forall a s', P s' -> P (fst (k a s'))) -> P (fst (ebind m k s)).
Proof. intros Hm Hk. unfold ebind. destruct (m s) as [s' [a|e]]; simpl in *; auto. Qed.

Lemma w_setU64_keeps id hl off v w :
  writer_ok id hl w -> length id = 32%nat -> (off + 8 <= hl + 32)%nat ->
  writer_ok id hl (fst (w_setU64 (length DOMAIN_STATE_UPDATE + 32 + off) v w)).
Proof.
  intros Hw Hid Hoff. unfold w_setU64. apply ebind_keeps; [done|]. intros v' w' Hw'.
  apply w_set_keeps; [done..|]. by rewrite length_be_bytes.
Qed.

Lemma write_keeps id hl w hash n t a b :
  writer_ok id hl w -> length id = 32%nat -> writer_ok id hl (fst (write hash n t a b w)).
Proof.
  intros Hw Hid. pose proof Hw as (Ho & Hs & _).
  unfold write. rewrite (ebind_ok _ _ w w w) by done. rewrite Hs, Ho.
  destruct (Nat.eqb_spec (length hash) hl) as [Hl|]; [|done]. cbn [negb].
  apply ebind_keeps; [rewrite <- (Nat.add_0_r (_ + 32)); apply w_set_keeps; [done..|lia]|].
  intros _ w1 Hw1. apply ebind_keeps; [by apply w_setU64_keeps; [..|lia]|].
  rewrite <- !(Nat.add_assoc _ hl).
  intros _ w2 Hw2. apply ebind_keeps; [by apply w_setU64_keeps; [..|lia]|].
  intros _ w3 Hw3. apply ebind_keeps; [by apply w_setU64_keeps; [..|lia]|].
  intros _ w4 Hw4. apply ebind_keeps; [by apply w_setU64_keeps; [..|lia]|].
  intros _ w5 Hw5. done.
Qed.

Definition u64_overflow : js_error := RangeError "u64 out of range".

Lemma asU64_cases v :
  (u64_range v /\ asU64 v = Ok v) \/ (~ u64_range v /\ asU64 v = Throw u64_overflow).
Proof.
  unfold u64_range, asU64.
  destruct (Z.ltb_spec v 0), (Z.ltb_spec U64_MAX v); simpl; (left; lia) || (right; split; [lia|done]) || idtac.
  left. split; [lia|done].
Qed.

Lemma u64ToBeBytes_overflow v : ~ u64_range v -> u64ToBeBytes v = Throw u64_overflow.
Proof. intros H. unfold u64ToBeBytes. by destruct (asU64_cases v) as [[]|[_ ->]]. Qed.

Lemma w_setU64_step id hl off v w :
  writer_ok id hl w -> length id = 32%nat -> (off + 8 <= hl + 32)%nat ->
  exists w', writer_ok id hl w' /\
    w_setU64 (length DOMAIN_STATE_UPDATE + 32 + off) v w
    = (w', if decide (u64_range v) then Ok tt else Throw u64_overflow).
Proof.
  intros Hw Hid Hoff. case_decide as Hv.
  - rewrite w_setU64_eq by done. pose proof Hw as (Ho & _ & rest & Hr & Hb).
    destruct (w_set_tail off (be_bytes 8 v) rest id hl w) as (w' & E & Hw' & _);
      [done..|rewrite length_be_bytes; lia|].
    rewrite Ho in E. eauto.
  - exists w. split; [done|]. unfold w_setU64, ebind, elift.
    by destruct (asU64_cases v) as [[]|[_ ->]].
Qed.

Lemma write_overflow id hl w hash n t a b :
  writer_ok id hl w -> length id = 32%nat -> length hash = hl ->
  ~ (u64_range n /\ u64_range t /\ u64_range a /\ u64_range b) ->
  snd (write hash n t a b w) = Throw u64_overflow.
Proof.
  intros Hw Hid Hh Hv. pose proof Hw as (Ho & Hs & rest & Hr & Hb).
  unfold write. rewrite (ebind_ok _ _ w w w) by done. rewrite Hs, Ho, Hh, Nat.eqb_refl. cbn [negb].
  destruct (w_set_tail 0 hash rest id hl w) as (w1 & E & Hw1 & _); [done..|lia|].
  rewrite Ho, Nat.add_0_r in E. rewrite (ebind_ok _ _ _ _ _ E), <- !(Nat.add_assoc _ hl).
  destruct (w_setU64_step id hl hl n w1) as (w2 & Hw2 & E2); [done..|lia|].
  unfold ebind at 1. rewrite E2. case_decide; [|done].
  destruct (w_setU64_step id hl (hl + 8) t w2) as (w3 & Hw3 & E3); [done..|lia|].
  unfold ebind at 1. rewrite E3. case_decide; [|done].
  destruct (w_setU64_step id hl (hl + 16) a w3) as (w4 & Hw4 & E4); [done..|lia|].
  unfold ebind at 1. rewrite E4. case_decide; [|done].
  destruct (w_setU64_step id hl (hl + 24) b w4) as (w5 & Hw5 & E5); [done..|lia|].
  unfold ebind at 1. rewrite E5. case_decide; [|done]. tauto.
Qed.

Lemma serializeStateUpdate_overflow u id :
  addressToBytes32 (tunnelId u) = Ok id ->
  ~ (u64_range (nonce u) /\ u64_range (timestamp u) /\
     u64_range (partyABalance u) /\ u64_range (partyBBalance u)) ->
  serializeStateUpdate u = Throw u64_overflow.
Proof.
  intros Hid Hv. unfold serializeStateUpdate. rewrite Hid. cbn [rbind].
  destruct (decide (u64_range (nonce u))); [rewrite u64ToBeBytes_total by done|by rewrite u64ToBeBytes_overflow].
  destruct (decide (u64_range (timestamp u))); [rewrite (u64ToBeBytes_total (timestamp u)) by done|by rewrite (u64ToBeBytes_overflow (timestamp u))].
  destruct (decide (u64_range (partyABalance u))); [rewrite (u64ToBeBytes_total (partyABalance u)) by done|by rewrite (u64ToBeBytes_overflow (partyABalance u))].
  rewrite (u64ToBeBytes_overflow (partyBBalance u)) by tauto. done.
Qed.

(** * Parsing accepts only serializations *)

Lemma be_value_app bs b : be_value (bs ++ [b]) = Z.lor (Z.shiftl (be_value bs) 8) b.
Proof. unfold be_value. by rewrite fold_left_app. Qed.

Lemma be_value_range bs : bytes_ok bs -> 0 <= be_value bs < 2 ^ (8 * Z.of_nat (length bs)).
Proof.
  induction bs as [|b bs IH] using rev_ind; intros Hok; [done|].
  apply bytes_ok_snoc in Hok as [Hok Hb].
  specialize (IH Hok). rewrite be_value_app, lor_shift_byte, length_app by done.
  replace (2 ^ (8 * Z.of_nat (length bs + length [b]))) with (2 ^ (8 * Z.of_nat (length bs)) * 256).
  2:{ rewrite Nat2Z.inj_add, Z.mul_add_distr_l, Z.pow_add_r by lia. done. }
  unfold is_byte in Hb. lia.
Qed.

Lemma be_bytes_app_last n v b :
  is_byte b -> be_bytes (S n) (v * 256 + b) = be_bytes n v ++ [b].
Proof.
  intros Hb. induction n as [|n IH].
  - cbn [be_bytes app]. f_equal. rewrite be_byte_mod. simpl.
    rewrite Z.div_1_r, Z.add_comm, Z.mod_add by lia. apply Z.mod_small, Hb.
  - change (be_bytes (S (S n)) (v * 256 + b))
      with (Z.land (Z.shiftr (v * 256 + b) (8 * Z.of_nat (S n))) 255 :: be_bytes (S n) (v * 256 + b)).
    rewrite IH. cbn [be_bytes app]. f_equal. rewrite !be_byte_mod. f_equal.
    replace (8 * Z.of_nat (S n)) with (8 + 8 * Z.of_nat n) by lia.
    rewrite Z.pow_add_r, <- Z.div_div by lia. change (2 ^ 8) with 256.
    rewrite Z.div_add_l, (Z.div_small b) by (unfold is_byte in Hb; lia). f_equal. lia.
Qed.

Lemma be_bytes_be_value bs : bytes_ok bs -> be_bytes (length bs) (be_value bs) = bs.
Proof.
  induction bs as [|b bs IH] using rev_ind; intros Hok; [done|].
  apply bytes_ok_snoc in Hok as [Hok Hb].
  rewrite length_app, Nat.add_1_r, be_value_app, lor_shift_byte, be_bytes_app_last, IH; done.
Qed.

Lemma u64FromBeBytes_inv m o v :
  bytes_ok m -> u64FromBeBytes m o = Ok v ->
  u64_range v /\ be_bytes 8 v = u8_slice m o (o + 8) /\ (o + 8 <= length m)%nat.
Proof.
  unfold u64FromBeBytes. intros Hok H. inv_ok. bool_to_prop.
  set (s := u8_slice m o (o + 8)).
  assert (length s = 8%nat) as Hl.
  { unfold s, u8_slice. rewrite length_take, length_drop. lia. }
  assert (bytes_ok s) as Hs by (by apply Forall_take, Forall_drop).
  pose proof (be_value_range s Hs) as Hr. pose proof (be_bytes_be_value s Hs) as Hb.
  rewrite Hl in Hr, Hb. split_and!; [|done|lia].
  unfold u64_range. rewrite U64_MAX_eq. lia.
Qed.

Lemma slice_slice (m : bytes) a b c :
  (a <= b <= c)%nat -> u8_slice m a b ++ u8_slice m b c = u8_slice m a c.
Proof.
  intros H. unfold u8_slice.
  rewrite <- (take_drop (b - a) (take (c - a) (drop a m))).
  rewrite take_take, skipn_firstn_comm, drop_drop. f_equal; f_equal; try lia.
  f_equal. lia.
Qed.

Lemma parse_inv m u :
  bytes_ok m -> parseStateUpdate m = Ok u ->
  serializeStateUpdate u = Ok m /\ length (stateHash u) = 32%nat.
Proof.
  intros Hok H. unfold parseStateUpdate in H. inv_ok. bool_to_prop.
  assert (length m = 120%nat) as Hlen by done.
  repeat match goal with
  | H : u64FromBeBytes _ _ = Ok _ |- _ => apply u64FromBeBytes_inv in H as (? & ? & _); [|done]
  end.
  apply bytes_same_spec in E0; [|rewrite length_take, Hlen; reflexivity].
  change (length DOMAIN_STATE_UPDATE) with 24%nat in *. cbn [Nat.add] in *.
  rewrite (serializeStateUpdate_total _ (u8_slice m 24 56)); [|apply addressToBytes32_toHex|done..].
  - cbn [stateHash nonce timestamp partyABalance partyBBalance].
    split; [|unfold u8_slice; rewrite length_take, length_drop; lia].
    repeat match goal with H : be_bytes 8 _ = _ |- _ => rewrite H; clear H end.
    rewrite <- E0. change (take 24 m) with (u8_slice m 0 24).
    rewrite !slice_slice by lia. unfold u8_slice. simpl (drop 0 m). f_equal.
    apply take_ge. lia.
  - unfold u8_slice. rewrite length_take, length_drop. lia.
  - by apply Forall_take, Forall_drop.
Qed.

(** * Properties *)

(** The state-update codec is a bijection: parsing a serialized update
    gives the update back (its tunnel id in canonical text), and every 120-byte
    message the parser accepts is the serialization of what it returned. *)
Theorem state_update_codec :
  (forall u m, serializeStateUpdate u = Ok m -> length (stateHash u) = 32%nat ->
     parseStateUpdate m = Ok (with_canonical_id u)) /\
  (forall m u, bytes_ok m -> parseStateUpdate m = Ok u ->
     serializeStateUpdate u = Ok m).
Proof.
  split; [exact parse_serialize|].
  intros m u Hok H. by apply (parse_inv m u Hok).
Qed.

Definition sample_update : StateUpdate :=
  {| tunnelId := "0xA1"; stateHash := replicate 32 7; nonce := 3; timestamp := 5;
     partyABalance := 258; partyBBalance := 1 |}.

Definition sample_message : bytes :=
  match serializeStateUpdate sample_update with Ok m => m | Throw _ => [] end.

Lemma state_update_codec_witness :
  parseStateUpdate sample_message = Ok (with_canonical_id sample_update) /\
  serializeStateUpdate (with_canonical_id sample_update) = Ok sample_message.
Proof.
  split.
  - apply (proj1 state_update_codec); vm_compute; reflexivity.
  - apply (proj2 state_update_codec).
    + apply (bool_decide_unpack _). vm_compute. exact I.
    + vm_compute. reflexivity.
Defined.

(** C17: what is signed determines its meaning: two messages of any of the six
    signed kinds that serialize to the same bytes are of the same kind and have
    the same fields, addresses compared as 32-byte values.  The domain tags are
    not prefix-free ("settlement" is a prefix of "settlement_v2"); the fixed
    lengths make up for it. *)
Theorem signed_messages_injective m1 m2 b :
  digests_32 m1 -> digests_32 m2 ->
  serialize m1 = Ok b -> serialize m2 = Ok b -> canonical m1 = canonical m2.
Proof. apply serialize_inj. Qed.

Lemma signed_messages_injective_witness :
  canonical (SStateUpdate sample_update)
  = canonical (SStateUpdate (with_canonical_id sample_update)).
Proof. apply (signed_messages_injective _ _ sample_message); vm_compute; reflexivity. Defined.

(** The buffer after a history of earlier [write]s, thrown ones included. *)
Definition after_writes (w : StateUpdateWriter) (history : list (bytes * Z * Z * Z * Z))
  : StateUpdateWriter :=
  fold_left (fun w '(h, n, t, a, b) => fst (write h n t a b w)) history w.

Lemma after_writes_ok id hl w history :
  writer_ok id hl w -> length id = 32%nat -> writer_ok id hl (after_writes w history).
Proof.
  intros Hw Hid. revert w Hw.
  induction history as [|[[[[h n] t] a] b] history IH]; intros w Hw; [done|].
  apply IH. by apply write_keeps.
Qed.

(** One [write] is one [serializeStateUpdate], on every input. *)
Lemma write_spec tid id w hash n t a b :
  addressToBytes32 tid = Ok id -> writer_ok id 32 w -> length hash = 32%nat ->
  exists w', writer_ok id 32 w' /\
    write hash n t a b w =
      (w', serializeStateUpdate {| tunnelId := tid; stateHash := hash; nonce := n;
             timestamp := t; partyABalance := a; partyBBalance := b |}).
Proof.
  intros Hid Hw Hh. destruct (addressToBytes32_shape _ _ Hid) as [Hl _].
  destruct (decide (u64_range n /\ u64_range t /\ u64_range a /\ u64_range b)) as [(?&?&?&?)|Hv].
  - destruct (write_in_range id 32 _ hash n t a b Hw Hl Hh) as (w' & -> & Hw'); try done.
    exists w'. split; [done|]. by rewrite (serializeStateUpdate_total _ id).
  - pose proof (write_overflow id 32 _ hash n t a b Hw Hl Hh Hv) as E.
    pose proof (write_keeps id 32 w hash n t a b Hw Hl) as Hk.
    destruct (write hash n t a b w) as [w' r]. simpl in E, Hk. subst r.
    exists w'. split; [done|]. by rewrite (serializeStateUpdate_overflow _ id).
Qed.

(** The buffer-reusing writer agrees with the reference serializer: after
    any history of writes, including writes that threw half way, [write]
    returns (or throws) exactly what [serializeStateUpdate] does. *)
Theorem writer_matches_serializer tid w0 history hash n t a b :
  newStateUpdateWriter tid 32 = Ok w0 -> length hash = 32%nat ->
  snd (write hash n t a b (after_writes w0 history)) =
  serializeStateUpdate {| tunnelId := tid; stateHash := hash; nonce := n;
    timestamp := t; partyABalance := a; partyBBalance := b |}.
Proof.
  intros Hw0 Hh.
  destruct (addressToBytes32 tid) as [id|e] eqn:Hid.
  2:{ exfalso. unfold newStateUpdateWriter in Hw0. inv_ok. congruence. }
  destruct (addressToBytes32_shape _ _ Hid) as [Hl _].
  destruct (new_writer_ok tid 32 id Hid) as (w0' & E & Hw). rewrite E in Hw0. inv_ok.
  destruct (write_spec tid id (after_writes w0 history) hash n t a b) as (w' & _ & ->); try done.
  by apply after_writes_ok.
Qed.

Lemma writer_matches_serializer_witness :
  exists w0, newStateUpdateWriter "0xA1" 32 = Ok w0 /\
    snd (write (replicate 32 7) 3 5 258 1
           (after_writes w0 [(replicate 32 9, 1, 2, -4, 9); (replicate 32 1, 8, 8, 8, 8)]))
    = Ok sample_message.
Proof.
  eexists. split; [vm_compute; reflexivity|].
  etransitivity; [apply (writer_matches_serializer "0xA1"); vm_compute; reflexivity|].
  vm_compute. reflexivity.
Defined.

#[global] Arguments be_bytes : simpl never.
