(* ===== verification/Crypto.v ===== *)
(** The cryptographic interface of [sui-tunnel-ts/src/core/crypto.ts].

    Blake2b and ed25519 come from [@noble/hashes] and [@noble/curves] (or from
    node's crypto): they are the operations of the class [Crypto], and what the
    code relies on is the class [CryptoLaws].  The functions of [crypto.ts]
    itself are defined over them. *)
From S2P Require Import Prelude.
From S2P Require Import Bytes.
From S2P Require Import Wire.

(** The library calls: [blake2b(data, {dkLen: 32})], [ed25519.getPublicKey],
    [ed25519.sign(msg, sk)] and [ed25519.verify(sig, msg, pk)], which throws on
    malformed input. *)
Class Crypto : Type := {
  blake2b : bytes -> bytes;
  ed25519_getPublicKey : bytes -> bytes;
  ed25519_sign : bytes -> bytes -> bytes;
  ed25519_verify : bytes -> bytes -> bytes -> result bool
}.

(** Their documented behaviour: 32-byte digests, and a signature verifies under
    the public key of the secret that made it. *)
Class CryptoLaws (C : Crypto) : Prop := {
  blake2b_length : forall d, length (blake2b d) = 32%nat;
  blake2b_bytes : forall d, bytes_ok (blake2b d);
  verify_sign : forall m sk, length sk = 32%nat ->
    ed25519_verify (ed25519_sign m sk) m (ed25519_getPublicKey sk) = Ok true
}.

(** The format of signatures, which only the settle body codec looks at. *)
Class SignatureLaws (C : Crypto) : Prop := {
  sign_length : forall m sk, length (ed25519_sign m sk) = 64%nat;
  sign_bytes : forall m sk, bytes_ok (ed25519_sign m sk)
}.

(** [src core/crypto.ts SignatureScheme] *)
Definition SCHEME_ED25519 : Z := 0.

Section WithCrypto.
Context `{C : Crypto}.

(** [src core/crypto.ts blake2b256] *)
Definition blake2b256 (data : bytes) : bytes := blake2b data.

(** [src core/crypto.ts KeyPair] *)
Record KeyPair := { secretKey : bytes; publicKey : bytes; scheme : Z }.

(** [src core/crypto.ts keyPairFromSecret] *)
Definition keyPairFromSecret (sk : bytes) : result KeyPair :=
  throw_if negb (length sk =? 32)%nat with Error "ed25519 secret must be 32 bytes" ;
  Ok {| secretKey := sk; publicKey := ed25519_getPublicKey sk; scheme := SCHEME_ED25519 |}.

(** [src core/crypto.ts sign] *)
Definition sign (message sk : bytes) : bytes := ed25519_sign message sk.

(** [src core/crypto.ts verify]: malformed input is a failed verification. *)
Definition verify (signature message pk : bytes) : bool :=
  match ed25519_verify signature message pk with
  | Ok b => b
  | Throw _ => false
  end.

(** [src core/crypto.ts verifyWithScheme] *)
Definition verifyWithScheme (sch : Z) (pk message signature : bytes) : result bool :=
  if sch =? SCHEME_ED25519 then Ok (verify signature message pk)
  else Throw (Error "signature scheme not yet supported off-chain").

(** [src core/crypto.ts ed25519Address] *)
Definition ed25519Address (pk : bytes) : result string :=
  let! data := u8_set (u8_new (1 + length pk)) 1 pk in
  Ok ("0x" ++ toHex (blake2b256 data))%string.

(** [src core/crypto.ts CryptoBackend] *)
Record CryptoBackend := {
  makeSigner : bytes -> bytes -> bytes;
  makeVerifier : bytes -> bytes -> bytes -> bool
}.

(** [src core/crypto.ts nobleBackend] *)
Definition nobleBackend : CryptoBackend :=
  {| makeSigner := fun sk message => ed25519_sign message sk;
     makeVerifier := fun pk message signature => verify signature message pk |}.

Lemma verify_own_signature `{!CryptoLaws C} sk m :
  length sk = 32%nat -> verify (sign m sk) m (ed25519_getPublicKey sk) = true.
Proof. intros H. unfold verify, sign. by rewrite verify_sign. Qed.

End WithCrypto.

(** A concrete instance, to evaluate the model on: a polynomial digest and
    keyed-digest signatures.  It satisfies the laws; it is not secure. *)
Definition toy_mask : Z := Eval vm_compute in Z.ones 256.

Definition toy_digest (d : bytes) : bytes :=
  be_bytes 32 (fold_left (fun acc b => Z.land (acc * 257 + b + 1) toy_mask) d 7).

Definition toy_sign (m sk : bytes) : bytes := toy_digest (sk ++ m) ++ toy_digest (m ++ sk).

#[export] Instance toy_crypto : Crypto := {|
  blake2b := toy_digest;
  ed25519_getPublicKey := fun sk => sk;
  ed25519_sign := toy_sign;
  ed25519_verify := fun s m pk =>
    if (length pk =? 32)%nat then Ok (bytesEqual s (toy_sign m pk))
    else Throw (Error "expected 32 bytes")
|}.

#[export] Instance toy_crypto_laws : CryptoLaws toy_crypto.
Proof.
  split.
  - intros d. apply length_be_bytes.
  - intros d. apply be_bytes_ok.
  - intros m sk Hl. unfold ed25519_verify, ed25519_getPublicKey, ed25519_sign, toy_crypto.
    rewrite Hl. simpl. f_equal. by apply bytesEqual_spec.
Qed.

#[export] Instance toy_signature_laws : SignatureLaws toy_crypto.
Proof.
  split.
  - intros m sk. unfold ed25519_sign, toy_crypto, toy_sign, toy_digest.
    by rewrite length_app, !length_be_bytes.
  - intros m sk. apply bytes_ok_app. split; apply be_bytes_ok.
Qed.

(** A second instance, in which a signature carries its message: nobody can
    turn it into a signature of another message. *)
Definition ideal_crypto : Crypto := {|
  blake2b := toy_digest;
  ed25519_getPublicKey := fun sk => sk;
  ed25519_sign := fun m sk => sk ++ m;
  ed25519_verify := fun s m pk =>
    if (length pk =? 32)%nat then Ok (bytesEqual s (pk ++ m))
    else Throw (Error "expected 32 bytes")
|}.

Lemma ideal_crypto_laws : CryptoLaws ideal_crypto.
Proof.
  split.
  - intros d. apply length_be_bytes.
  - intros d. apply be_bytes_ok.
  - intros m sk Hl. unfold ed25519_verify, ed25519_getPublicKey, ed25519_sign, ideal_crypto.
    rewrite Hl. simpl. f_equal. by apply bytesEqual_spec.
Qed.

Lemma ideal_verify s m pk :
  @verify ideal_crypto s m pk = true -> s = pk ++ m.
Proof.
  unfold verify, ed25519_verify, ideal_crypto. destruct (length pk =? 32)%nat; [|done].
  apply bytesEqual_spec.
Qed.
