(* ===== verification/Commitment.v ===== *)
(** Two-party commit-reveal, [sui-tunnel-ts/src/core/commitment.ts]. *)
From S2P Require Import Prelude.
From S2P Require Import Bytes.
From S2P Require Import Wire.
From S2P Require Import Crypto.

(** [src core/commitment.ts DOMAIN_COMMIT_REVEAL] *)
Definition DOMAIN_COMMIT_REVEAL : bytes :=
  text_encode "sui_tunnel::randomness::commit_reveal".

(** [src core/commitment.ts MIN_SALT_LEN] *)
Definition MIN_SALT_LEN : nat := 16.

(** [src core/commitment.ts lengthPrefixed] *)
Definition lengthPrefixed (x : bytes) : result (list bytes) :=
  let! n := u64ToBeBytes (Z.of_nat (length x)) in
  Ok [n; x].

Section WithCrypto.
Context `{C : Crypto}.

(** The bytes [hashCommitment] hashes. *)
Definition commitment_preimage (value salt : bytes) : result bytes :=
  let! v := lengthPrefixed value in
  let! s := lengthPrefixed salt in
  concatBytes (DOMAIN_COMMIT_REVEAL :: v ++ s).

(** [src core/commitment.ts hashCommitment] *)
Definition hashCommitment (value salt : bytes) : result bytes :=
  let! p := commitment_preimage value salt in
  Ok (blake2b256 p).

(** [src core/commitment.ts computeCommitment] *)
Definition computeCommitment (value salt : bytes) : result bytes :=
  throw_if (length salt <? MIN_SALT_LEN)%nat with Error "salt must be >= 16 bytes" ;
  hashCommitment value salt.

(** [src core/commitment.ts verifyCommitment] *)
Definition verifyCommitment (commitmentHash value salt : bytes) : result bool :=
  let! h := hashCommitment value salt in
  Ok (bytesEqual h commitmentHash).

(** The bytes [combineReveals] hashes. *)
Definition reveals_preimage (valueA saltA valueB saltB : bytes) : result bytes :=
  let! va := lengthPrefixed valueA in
  let! sa := lengthPrefixed saltA in
  let! vb := lengthPrefixed valueB in
  let! sb := lengthPrefixed saltB in
  concatBytes (DOMAIN_COMMIT_REVEAL :: va ++ sa ++ vb ++ sb).

(** [src core/commitment.ts combineReveals] *)
Definition combineReveals (valueA saltA valueB saltB : bytes) : result bytes :=
  let! p := reveals_preimage valueA saltA valueB saltB in
  Ok (blake2b256 p).

(** * Length-prefixed fields are unambiguous *)

Lemma lengthPrefixed_ok x ps :
  lengthPrefixed x = Ok ps <->
  u64_range (Z.of_nat (length x)) /\ ps = [be_bytes 8 (Z.of_nat (length x)); x].
Proof.
  unfold lengthPrefixed. rewrite rbind_ok. setoid_rewrite u64ToBeBytes_ok. naive_solver.
Qed.

Lemma lp_inj (x y rx ry : bytes) :
  u64_range (Z.of_nat (length x)) -> u64_range (Z.of_nat (length y)) ->
  be_bytes 8 (Z.of_nat (length x)) ++ x ++ rx = be_bytes 8 (Z.of_nat (length y)) ++ y ++ ry ->
  x = y /\ rx = ry.
Proof.
  intros Hx Hy H. apply app_inj_length in H as [Hn H]; [|by rewrite !length_be_bytes].
  apply be_bytes_inj in Hn; [|done..]. apply app_inj_length; [lia|done].
Qed.

Lemma commitment_preimage_ok v s p :
  commitment_preimage v s = Ok p ->
  u64_range (Z.of_nat (length v)) /\ u64_range (Z.of_nat (length s)) /\
  p = DOMAIN_COMMIT_REVEAL ++ be_bytes 8 (Z.of_nat (length v)) ++ v ++
      be_bytes 8 (Z.of_nat (length s)) ++ s ++ [].
Proof.
  unfold commitment_preimage. intros H. inv_ok.
  apply lengthPrefixed_ok in E as [? ->], E0 as [? ->].
  rewrite concatBytes_concat in H. apply Ok_inj in H as <-. done.
Qed.

Lemma commitment_preimage_inj v1 s1 v2 s2 p :
  commitment_preimage v1 s1 = Ok p -> commitment_preimage v2 s2 = Ok p ->
  v1 = v2 /\ s1 = s2.
Proof.
  intros H1 H2. apply commitment_preimage_ok in H1 as (? & ? & ->), H2 as (? & ? & Heq).
  apply app_inv_head in Heq. apply lp_inj in Heq as [-> Heq]; [|done..].
  by apply lp_inj in Heq as [-> _].
Qed.

Lemma reveals_preimage_ok va sa vb sb p :
  reveals_preimage va sa vb sb = Ok p ->
  (u64_range (Z.of_nat (length va)) /\ u64_range (Z.of_nat (length sa)) /\
   u64_range (Z.of_nat (length vb)) /\ u64_range (Z.of_nat (length sb))) /\
  p = DOMAIN_COMMIT_REVEAL ++ be_bytes 8 (Z.of_nat (length va)) ++ va ++
      be_bytes 8 (Z.of_nat (length sa)) ++ sa ++
      be_bytes 8 (Z.of_nat (length vb)) ++ vb ++
      be_bytes 8 (Z.of_nat (length sb)) ++ sb ++ [].
Proof.
  unfold reveals_preimage. intros H. inv_ok.
  repeat match goal with H : lengthPrefixed _ = Ok _ |- _ => apply lengthPrefixed_ok in H as [? ->] end.
  rewrite concatBytes_concat in H. apply Ok_inj in H as <-. done.
Qed.

Lemma reveals_preimage_inj va sa vb sb va' sa' vb' sb' p :
  reveals_preimage va sa vb sb = Ok p -> reveals_preimage va' sa' vb' sb' = Ok p ->
  va = va' /\ sa = sa' /\ vb = vb' /\ sb = sb'.
Proof.
  intros H1 H2. apply reveals_preimage_ok in H1 as ((?&?&?&?) & ->), H2 as ((?&?&?&?) & Heq).
  apply app_inv_head in Heq. apply lp_inj in Heq as [-> Heq]; [|done..].
  apply lp_inj in Heq as [-> Heq]; [|done..]. apply lp_inj in Heq as [-> Heq]; [|done..].
  by apply lp_inj in Heq as [-> _].
Qed.

Lemma verifyCommitment_true c v s :
  verifyCommitment c v s = Ok true <->
  exists p, commitment_preimage v s = Ok p /\ blake2b256 p = c.
Proof.
  unfold verifyCommitment, hashCommitment.
  destruct (commitment_preimage v s) as [p|]; simpl; [|naive_solver].
  split.
  - intros H. inv_ok. exists p. split; [done|]. by apply bytesEqual_spec.
  - intros (p' & Hp & Hc). inv_ok. f_equal. by apply bytesEqual_spec.
Qed.

(** Commit-reveal is complete and binding.  An honestly computed commitment
    opens; and two openings of one commitment are the same pair, unless their
    (explicit) preimages are a Blake2b collision. *)
Theorem commitment_complete_and_binding :
  (forall v s c, computeCommitment v s = Ok c -> verifyCommitment c v s = Ok true) /\
  (forall c v1 s1 v2 s2,
     verifyCommitment c v1 s1 = Ok true -> verifyCommitment c v2 s2 = Ok true ->
     (v1 = v2 /\ s1 = s2) \/
     exists p1 p2, commitment_preimage v1 s1 = Ok p1 /\ commitment_preimage v2 s2 = Ok p2 /\
       p1 <> p2 /\ blake2b256 p1 = blake2b256 p2).
Proof.
  split.
  - intros v s c H. unfold computeCommitment, hashCommitment in H. inv_ok.
    apply verifyCommitment_true. eauto.
  - intros c v1 s1 v2 s2 (p1 & H1 & E1)%verifyCommitment_true (p2 & H2 & E2)%verifyCommitment_true.
    destruct (decide (p1 = p2)) as [->|Hne].
    + left. by eapply commitment_preimage_inj.
    + right. exists p1, p2. split_and!; congruence.
Qed.

End WithCrypto.

Lemma commitment_complete_and_binding_witness :
  exists c, computeCommitment [1; 2; 3] (replicate 16 9) = Ok c /\
    verifyCommitment c [1; 2; 3] (replicate 16 9) = Ok true.
Proof.
  eexists. split; [vm_compute; reflexivity|].
  apply (proj1 (commitment_complete_and_binding (C := toy_crypto))). vm_compute. reflexivity.
Defined.
