(* ===== verification/Randomness.v ===== *)
(** Verifiable randomness, [sui-tunnel-ts/src/core/randomness.ts]: the seed
    chain, rejection sampling into a range, the Fisher-Yates shuffle and the
    swap-remove draw.

    The rejection loop of [nextU64InRange] runs until a chained digest falls
    under the threshold; the model gives it [fuel] iterations and returns
    [OutOfFuel] when none of them was accepted. *)
From S2P Require Import Prelude.
From S2P Require Import Bytes.
From S2P Require Import Wire.
From S2P Require Import Crypto.

(** [src core/randomness.ts DOMAIN_CHAIN] *)
Definition DOMAIN_CHAIN : bytes := text_encode "sui_tunnel::randomness::chain".

(** [src core/randomness.ts Seed] *)
Record Seed := { seed_bytes : bytes; seed_counter : Z }.

(** [src core/randomness.ts seedFromBytes] *)
Definition seedFromBytes (bs : bytes) : Seed := {| seed_bytes := bs; seed_counter := 0 |}.

(** [src core/randomness.ts bytesToU64BE]: [BigInt(undefined)] throws. *)
Definition bytesToU64BE (b : bytes) : result Z :=
  throw_if (length b <? 8)%nat with TypeError "Cannot convert undefined to a BigInt" ;
  Ok (be_value (take 8 b)).

(** [src core/randomness.ts:64-65 nextU64InRange] the rejection threshold *)
Definition threshold_for (range : Z) : Z :=
  let remainder := ((U64_MAX mod range) + 1) mod range in
  if remainder =? 0 then 0 else U64_MAX - remainder + 1.

Definition accepts (range raw : Z) : bool :=
  (threshold_for range =? 0) || (raw <? threshold_for range).

Section WithCrypto.
Context `{C : Crypto}.

(** [src core/randomness.ts nextSeed] *)
Definition nextSeed (seed : Seed) : result Seed :=
  let! c := u64ToBeBytes (seed_counter seed) in
  let! d := concatBytes [DOMAIN_CHAIN; seed_bytes seed; c] in
  Ok {| seed_bytes := blake2b256 d; seed_counter := 0 |}.

Definition bump (s : Seed) : Seed :=
  {| seed_bytes := seed_bytes s; seed_counter := seed_counter s + 1 |}.

(** [src core/randomness.ts nextU64] *)
Definition nextU64 (seed : Seed) : result (Z * Seed) :=
  let! ns := nextSeed seed in
  let! v := bytesToU64BE (seed_bytes ns) in
  Ok (v, bump ns).

(** [src core/randomness.ts:66-78 nextU64InRange] the loop *)
Fixpoint rejection_loop (fuel : nat) (current : Seed) (min range : Z) : result (Z * Seed) :=
  match fuel with
  | O => Throw OutOfFuel
  | S fuel' =>
      let! ns := nextSeed current in
      let! raw := bytesToU64BE (seed_bytes ns) in
      if accepts range raw then Ok (raw mod range + min, bump ns)
      else rejection_loop fuel' ns min range
  end.

(** [src core/randomness.ts nextU64InRange] *)
Definition nextU64InRange (fuel : nat) (seed : Seed) (min max : Z) : result (Z * Seed) :=
  throw_if (max <=? min) with Error "invalid randomness range" ;
  let range := max - min in
  if range =? 1
  then let! ns := nextSeed seed in Ok (min, bump ns)
  else rejection_loop fuel seed min range.

(** The exchange [t = arr[i]; arr[i] = arr[j]; arr[j] = t]. *)
Definition swap {T} (i j : nat) (arr : list T) : list T :=
  match arr !! i, arr !! j with
  | Some x, Some y => <[j := x]> (<[i := y]> arr)
  | _, _ => arr
  end.

(** [src core/randomness.ts:85-95 shuffle] the loop, [i] counting down to 1 *)
Fixpoint shuffle_loop {T} (fuel i : nat) (current : Seed) (arr : list T)
  : result (list T * Seed) :=
  match i with
  | O => Ok (arr, current)
  | S i' =>
      let! r := nextU64InRange fuel current 0 (Z.of_nat i + 1) in
      let j := Z.to_nat (fst r) in
      shuffle_loop fuel i' (snd r) (if (i =? j)%nat then arr else swap i j arr)
  end.

(** [src core/randomness.ts shuffle] *)
Definition shuffle {T} (fuel : nat) (seed : Seed) (arr : list T) : result (list T * Seed) :=
  if (length arr <=? 1)%nat then Ok (arr, seed)
  else shuffle_loop fuel (length arr - 1) seed arr.

(** [src core/randomness.ts drawFromVector]: the drawn element, the array after
    the swap-remove, the next seed. *)
Definition drawFromVector {T} (fuel : nat) (seed : Seed) (arr : list T)
  : result (option T * list T * Seed) :=
  throw_if (length arr =? 0)%nat with Error "empty vector" ;
  let! r := nextU64InRange fuel seed 0 (Z.of_nat (length arr)) in
  let idx := Z.to_nat (fst r) in
  let el := arr !! idx in
  let arr' := match last arr with Some x => <[idx := x]> arr | None => arr end in
  Ok (el, take (length arr' - 1) arr', snd r).

(** * The sampler *)

(** The number of raw draws the threshold keeps: a multiple of [range]. *)
Definition kept (range : Z) : Z :=
  if threshold_for range =? 0 then 2 ^ 64 else threshold_for range.

Lemma kept_spec range :
  0 < range <= 2 ^ 64 ->
  kept range = 2 ^ 64 / range * range /\
  forall raw, 0 <= raw < 2 ^ 64 -> accepts range raw = true <-> raw < kept range.
Proof.
  intros Hr.
  assert ((U64_MAX mod range + 1) mod range = 2 ^ 64 mod range) as Hrem.
  { rewrite Z.add_mod_idemp_l by lia. f_equal. }
  pose proof (Z.div_mod (2 ^ 64) range) as Hdm.
  pose proof (Z.mod_pos_bound (2 ^ 64) range) as Hb.
  unfold kept, accepts, threshold_for. rewrite Hrem.
  change U64_MAX with (2 ^ 64 - 1).
  destruct (Z.eqb_spec (2 ^ 64 mod range) 0) as [E|E]; simpl (0 =? 0).
  - split; [lia|]. intros raw Hraw. simpl. intuition.
  - destruct (Z.eqb_spec (2 ^ 64 - 1 - 2 ^ 64 mod range + 1) 0) as [E'|E'].
    + lia.
    + split; [lia|]. intros raw Hraw. simpl. rewrite Z.ltb_lt. lia.
Qed.

Lemma bytesToU64BE_range b v : bytes_ok b -> bytesToU64BE b = Ok v -> 0 <= v < 2 ^ 64.
Proof.
  unfold bytesToU64BE. intros Hok H. inv_ok. bool_to_prop.
  pose proof (be_value_range (take 8 b)) as Hr.
  rewrite length_take, Nat.min_l in Hr by lia. apply Hr. by apply Forall_take.
Qed.

Section WithLaws.
Context `{!CryptoLaws C}.

Lemma nextSeed_shape s ns :
  nextSeed s = Ok ns -> length (seed_bytes ns) = 32%nat /\ bytes_ok (seed_bytes ns) /\ seed_counter ns = 0.
Proof.
  unfold nextSeed. intros H. inv_ok. simpl.
  split_and!; [apply blake2b_length|apply blake2b_bytes|done].
Qed.

Lemma nextU64InRange_range fuel seed min max v s :
  nextU64InRange fuel seed min max = Ok (v, s) -> min <= v < max.
Proof.
  unfold nextU64InRange. intros H. inv_ok. bool_to_prop.
  destruct (Z.eqb_spec (max - min) 1) as [E'|E'].
  { inv_ok. simplify_eq. lia. }
  revert seed H. induction fuel as [|fuel IH]; intros seed H; simpl in H; [done|].
  inv_ok. destruct (accepts _ _); [|by eapply IH].
  apply Ok_inj in H. simplify_eq. pose proof (Z.mod_pos_bound a0 (max - min)). lia.
Qed.

Lemma nextSeed_total s : u64_range (seed_counter s) -> exists ns, nextSeed s = Ok ns.
Proof.
  intros H. unfold nextSeed. rewrite u64ToBeBytes_total by done.
  cbn [rbind]. rewrite concatBytes_concat. simpl. eauto.
Qed.

(** The chain of raw draws the loop looks at. *)
Fixpoint chain (n : nat) (s : Seed) : result Seed :=
  match n with
  | O => nextSeed s
  | S n' => let! ns := nextSeed s in chain n' ns
  end.

Definition raw_at (n : nat) (s : Seed) : result Z :=
  let! ns := chain n s in bytesToU64BE (seed_bytes ns).

(** The loop returns exactly when one of its draws is accepted. *)
Lemma rejection_loop_returns fuel s min range :
  u64_range (seed_counter s) ->
  is_ok (rejection_loop fuel s min range) = true <->
  exists n raw, (n < fuel)%nat /\ raw_at n s = Ok raw /\ accepts range raw = true.
Proof.
  revert s; induction fuel as [|fuel IH]; intros s Hs; simpl.
  { split; [done|]. intros (n & raw & ? & _). lia. }
  destruct (nextSeed_total s Hs) as [ns Hns]. rewrite Hns. cbn [rbind].
  destruct (nextSeed_shape _ _ Hns) as (Hl & Hok & Hc).
  assert (exists v, bytesToU64BE (seed_bytes ns) = Ok v) as [v Hv].
  { unfold bytesToU64BE. rewrite Hl. eauto. }
  rewrite Hv. cbn [rbind]. destruct (accepts range v) eqn:Ha; simpl.
  - split; [|done]. intros _. exists 0%nat, v. unfold raw_at. simpl. rewrite Hns. simpl. auto with lia.
  - rewrite IH by (rewrite Hc; done). split.
    + intros (n & raw & Hn & Hr & Hacc). exists (S n), raw. unfold raw_at. simpl.
      rewrite Hns. auto with lia.
    + intros ([|n] & raw & Hn & Hr & Hacc); unfold raw_at in Hr; simpl in Hr; rewrite Hns in Hr; simpl in Hr.
      * rewrite Hv in Hr. congruence.
      * exists n, raw. auto with lia.
Qed.

(** * Shuffle and draw *)

Lemma swap_Permutation {T} i j (arr : list T) : swap i j arr ≡ₚ arr.
Proof.
  unfold swap. destruct (arr !! i) as [x|] eqn:Hi; [|done].
  destruct (arr !! j) as [y|] eqn:Hj; [|done]. by apply Permutation_insert_swap.
Qed.

Lemma shuffle_loop_Permutation {T} fuel i seed (arr : list T) arr' s' :
  shuffle_loop fuel i seed arr = Ok (arr', s') -> arr' ≡ₚ arr.
Proof.
  revert seed arr; induction i as [|i IH]; intros seed arr H; cbn [shuffle_loop] in H.
  { apply Ok_inj in H. by simplify_eq. }
  inv_ok. apply IH in H. destruct (_ =? _)%nat; [done|]. by rewrite swap_Permutation in H.
Qed.

Lemma shuffle_Permutation {T} fuel seed (arr : list T) arr' s' :
  shuffle fuel seed arr = Ok (arr', s') -> arr' ≡ₚ arr.
Proof.
  unfold shuffle. destruct (_ <=? _)%nat; [intros [= -> _]; done|].
  apply shuffle_loop_Permutation.
Qed.

(** Overwriting slot [i] with the last element and popping removes slot [i]. *)
Lemma swap_remove_Permutation {T} (arr : list T) i x z :
  arr !! i = Some x -> last arr = Some z ->
  x :: take (length arr - 1) (<[i := z]> arr) ≡ₚ arr.
Proof.
  intros Hi Hz. apply last_Some in Hz as [init ->].
  rewrite length_app. replace (length init + length [z] - 1)%nat with (length init) by (simpl; lia).
  destruct (decide (i < length init)%nat) as [Hlt|Hge].
  - rewrite insert_app_l, take_app_length' by (rewrite ?length_insert; lia).
    pose proof Hi as Hi'. rewrite lookup_app_l in Hi' by done.
    rewrite <- (Permutation_insert_swap (init ++ [z]) i (length init) x z) by
      (rewrite ?lookup_app_r, ?Nat.sub_diag by lia; done).
    rewrite insert_app_l by lia.
    rewrite insert_app_r_alt by (rewrite length_insert; lia).
    rewrite length_insert, Nat.sub_diag. simpl. apply Permutation_cons_append.
  - assert (i = length init) as ->.
    { apply lookup_lt_Some in Hi. rewrite length_app in Hi. simpl in Hi. lia. }
    rewrite insert_app_r_alt, Nat.sub_diag, take_app_length by lia.
    rewrite lookup_app_r, Nat.sub_diag in Hi by lia. simpl in Hi. simplify_eq.
    apply Permutation_cons_append.
Qed.

Lemma drawFromVector_Permutation {T} fuel seed (arr : list T) el rest s' :
  drawFromVector fuel seed arr = Ok (el, rest, s') ->
  exists x, el = Some x /\ x :: rest ≡ₚ arr.
Proof.
  unfold drawFromVector. intros H. inv_ok. bool_to_prop.
  destruct a as [v s]. apply nextU64InRange_range in E0 as Hv. simpl in H.
  simplify_eq.
  destruct (last arr) as [z|] eqn:Hz.
  2:{ apply last_None in Hz. by subst. }
  rewrite length_insert.
  destruct (arr !! Z.to_nat v) as [x|] eqn:Hx.
  2:{ apply lookup_ge_None in Hx. lia. }
  exists x. split; [done|]. by apply swap_remove_Permutation.
Qed.

(** * Properties *)

(** A draw that returns lies in [[min, max)], and for a range of two values
    or more the sampler returns exactly when one of the first [fuel] chained
    digests passes the threshold test (its fuel is the only way to fail). *)
Theorem next_u64_in_range_correct fuel seed min max :
  u64_range (seed_counter seed) -> min < max ->
  (forall v s, nextU64InRange fuel seed min max = Ok (v, s) -> min <= v < max) /\
  (is_ok (nextU64InRange fuel seed min max) = true <->
   max - min = 1 \/
   exists n raw, (n < fuel)%nat /\ raw_at n seed = Ok raw /\ accepts (max - min) raw = true).
Proof.
  intros Hs Hlt. split; [intros v s; apply nextU64InRange_range|].
  unfold nextU64InRange. rewrite (proj2 (Z.leb_gt _ _)) by lia.
  destruct (Z.eqb_spec (max - min) 1) as [E|E].
  - destruct (nextSeed_total seed Hs) as [ns ->]. simpl. intuition.
  - rewrite rejection_loop_returns by done. intuition.
Qed.

(** A shuffle permutes its array and a draw removes one of its elements:
    no card is lost, duplicated or invented. *)
Theorem shuffle_and_draw_permute {T} fuel seed (arr : list T) :
  (forall arr' s', shuffle fuel seed arr = Ok (arr', s') -> arr' ≡ₚ arr) /\
  (forall el rest s', drawFromVector fuel seed arr = Ok (el, rest, s') ->
     exists x, el = Some x /\ x :: rest ≡ₚ arr).
Proof.
  split; [intros arr' s'; apply shuffle_Permutation|].
  intros el rest s'. apply drawFromVector_Permutation.
Qed.

End WithLaws.
End WithCrypto.

(** The rejection threshold removes all modulo bias: for every range up to
    2^64, each of its values [k] is hit by exactly [2^64 / range] of the accepted
    raw words, namely [k], [range + k], [2 range + k], ... *)
Theorem sampler_unbiased range k raw :
  0 < range <= 2 ^ 64 -> 0 <= k < range -> 0 <= raw < 2 ^ 64 ->
  accepts range raw = true /\ raw mod range = k <->
  exists q, 0 <= q < 2 ^ 64 / range /\ raw = q * range + k.
Proof.
  intros Hr Hk Hraw. destruct (kept_spec range Hr) as [Hkept Hacc].
  rewrite Hacc, Hkept by done.
  pose proof (Z.div_mod raw range) as Hdm. split.
  - intros [Hlt Hmod]. exists (raw / range). split; [|lia].
    split; [apply Z.div_pos; lia|]. apply Z.div_lt_upper_bound; nia.
  - intros (q & Hq & ->). split; [nia|].
    rewrite Z.add_comm, Z.mod_add by lia. apply Z.mod_small. lia.
Qed.

Lemma next_u64_in_range_correct_witness :
  exists v s, nextU64InRange (C := toy_crypto) 4 (seedFromBytes [1; 2]) 0 13 = Ok (v, s) /\
    0 <= v < 13.
Proof.
  eexists _, _. split; [vm_compute; reflexivity|].
  apply (proj1 (next_u64_in_range_correct (C := toy_crypto) 4 (seedFromBytes [1; 2]) 0 13
    ltac:(vm_compute; split; discriminate) ltac:(lia)) _
    {| seed_bytes := blake2b256 (C := toy_crypto) (concat [DOMAIN_CHAIN; [1; 2]; be_bytes 8 0]);
       seed_counter := 1 |}).
  vm_compute. reflexivity.
Defined.

Lemma shuffle_and_draw_permute_witness :
  exists arr' s', shuffle (C := toy_crypto) 4 (seedFromBytes [1]) [10; 20; 30; 40] = Ok (arr', s') /\
    arr' ≡ₚ [10; 20; 30; 40].
Proof.
  eexists _, _. split; [vm_compute; reflexivity|].
  eapply (proj1 (shuffle_and_draw_permute (C := toy_crypto) 4 (seedFromBytes [1]) [10; 20; 30; 40])).
  vm_compute. reflexivity.
Defined.

Lemma sampler_unbiased_witness :
  exists q, 0 <= q < 2 ^ 64 / 13 /\ 30 = q * 13 + 4.
Proof. apply (sampler_unbiased 13 4 30); [lia|lia|lia|]. split; vm_compute; reflexivity. Defined.
