(* ===== verification/Protocol.v ===== *)
(** The interaction-protocol interface of [sui-tunnel-ts/src/protocol/Protocol.ts].

    [Protocol State Move] is the record of operations every tunnel protocol
    implements; the class [ProtocolLaws] is what the interface's comments
    promise to the tunnel engines: an invariant that holds initially, that every
    accepted move preserves, and under which the balances are non-negative and
    sum to the locked total.  The engines are verified against the class; each
    protocol file gives an instance. *)
From S2P Require Import Prelude.
From S2P Require Import Bytes.
From S2P Require Import Wire.
From S2P Require Import Crypto.

(** [src protocol/Protocol.ts Party] *)
Inductive Party : Type := PartyA | PartyB.

#[export] Instance Party_eq_dec : EqDecision Party.
Proof. solve_decision. Defined.

Definition party_eqb (p q : Party) : bool :=
  match p, q with
  | PartyA, PartyA | PartyB, PartyB => true
  | _, _ => false
  end.

(** [src protocol/Protocol.ts otherParty] *)
Definition otherParty (p : Party) : Party :=
  match p with PartyA => PartyB | PartyB => PartyA end.

(** [src protocol/Protocol.ts Balances] *)
Record Balances := { bal_a : Z; bal_b : Z }.

(** [src protocol/Protocol.ts ProtocolContext] *)
Record ProtocolContext := { ctx_tunnelId : string; initialBalances : Balances }.

(** [src protocol/Protocol.ts Protocol] *)
Record Protocol (State Move : Type) := {
  movesCarrySecrets : bool;
  initialState : ProtocolContext -> result State;
  applyMove : State -> Move -> Party -> result State;
  encodeState : State -> result bytes;
  balances : State -> Balances;
  isTerminal : State -> bool
}.
Arguments movesCarrySecrets {State Move}.
Arguments initialState {State Move}.
Arguments applyMove {State Move}.
Arguments encodeState {State Move}.
Arguments balances {State Move}.
Arguments isTerminal {State Move}.

(** [src protocol/Protocol.ts protocolDomain] *)
Definition protocolDomain (name : string) : bytes :=
  text_encode ("sui_tunnel::proto::" ++ name).

(** [src protocol/Protocol.ts lengthPrefixedConcat] *)
Definition lengthPrefixedConcat (parts : list bytes) : result bytes :=
  let! out := rfold (fun out p =>
    let! n := u64ToBeBytes (Z.of_nat (length p)) in Ok (out ++ [n; p])) [] parts in
  concatBytes out.

(** [src protocol/Protocol.ts rollingDigest] *)
Definition rollingDigest (h : bytes -> bytes) (prevDigest delta : bytes) : result bytes :=
  let! d := concatBytes [prevDigest; delta] in
  Ok (h d).

(** The total locked in a tunnel. *)
Definition sum_of (b : Balances) : Z := bal_a b + bal_b b.

(** Balances as they can be locked: non-negative, and their sum a u64. *)
Definition lockable (b : Balances) : Prop :=
  0 <= bal_a b /\ 0 <= bal_b b /\ sum_of b <= U64_MAX.

#[export] Instance lockable_dec b : Decision (lockable b).
Proof. unfold lockable; apply _. Defined.

(** What a protocol promises to the engine.  [inv total s] is the protocol's
    own well-formedness of a state of a tunnel that locked [total]. *)
Class ProtocolLaws {S M} (P : Protocol S M) (inv : Z -> S -> Prop)
    (ctx_ok : ProtocolContext -> Prop) : Prop := {
  laws_initial : forall ctx s,
    ctx_ok ctx -> lockable (initialBalances ctx) -> initialState P ctx = Ok s ->
    inv (sum_of (initialBalances ctx)) s /\ balances P s = initialBalances ctx;
  laws_step : forall total s m by_ s',
    inv total s -> applyMove P s m by_ = Ok s' -> inv total s';
  laws_balances : forall total s,
    inv total s -> 0 <= bal_a (balances P s) /\ 0 <= bal_b (balances P s) /\
                   sum_of (balances P s) = total
}.

(** Running a list of moves. *)
Definition run {S M} (P : Protocol S M) (s : S) (moves : list (M * Party)) : result S :=
  rfold (fun s '(m, by_) => applyMove P s m by_) s moves.

Lemma run_invariant {S M} (P : Protocol S M) inv ok `{!ProtocolLaws P inv ok} total s ms s' :
  inv total s -> run P s ms = Ok s' -> inv total s'.
Proof.
  intros Hs H. eapply rfold_invariant; [|exact Hs|exact H].
  intros s1 [m by_] s2. apply laws_step.
Qed.

Lemma run_from_initial {S M} (P : Protocol S M) inv ok `{!ProtocolLaws P inv ok} ctx s0 ms s :
  ok ctx -> lockable (initialBalances ctx) -> initialState P ctx = Ok s0 ->
  run P s0 ms = Ok s -> inv (sum_of (initialBalances ctx)) s.
Proof.
  intros Hok Hl H0 H. apply (run_invariant P inv ok _ s0 ms); [|done].
  exact (proj1 (laws_initial ctx s0 Hok Hl H0)).
Qed.

Lemma party_eqb_spec p q : party_eqb p q = true <-> p = q.
Proof. destruct p, q; naive_solver. Qed.

Lemma party_eqb_neq p q : party_eqb p q = false <-> p <> q.
Proof. destruct p, q; naive_solver. Qed.

Lemma party_eqb_refl p : party_eqb p p = true.
Proof. by destruct p. Qed.

Lemma otherParty_involutive p : otherParty (otherParty p) = p.
Proof. by destruct p. Qed.

Lemma otherParty_neq p : otherParty p <> p.
Proof. by destruct p. Qed.

Ltac party_cases :=
  repeat match goal with
  | H : party_eqb _ _ = true |- _ => apply party_eqb_spec in H; subst
  | H : party_eqb _ _ = false |- _ => apply party_eqb_neq in H
  end.

Lemma protocolDomain_ok name : bytes_ok (protocolDomain name).
Proof.
  unfold protocolDomain. induction ("sui_tunnel::proto::" ++ name)%string as [|c s IH]; constructor; [|done].
  unfold is_byte. pose proof (Ascii.N_ascii_bounded c). lia.
Qed.

(** * The length-prefixed encoding is injective *)

Definition lp (x : bytes) : bytes := be_bytes 8 (Z.of_nat (length x)) ++ x.

Definition lp_range (x : bytes) : Prop := u64_range (Z.of_nat (length x)).

Definition lp_push (out : list bytes) (p : bytes) : result (list bytes) :=
  let! n := u64ToBeBytes (Z.of_nat (length p)) in Ok (out ++ [n; p]).

Lemma lp_push_all parts out a :
  rfold lp_push out parts = Ok a ->
  Forall lp_range parts /\ concat a = concat out ++ concat (map lp parts).
Proof.
  revert out a; induction parts as [|p parts IH]; intros out a E; simpl in E.
  { inv_ok. by rewrite app_nil_r. }
  inv_ok. unfold lp_push in E0. inv_ok. apply u64ToBeBytes_ok in E1 as [Hr ->].
  apply IH in E as [Hf ->]. split; [by constructor|]. rewrite concat_app. simpl. unfold lp.
  by rewrite app_nil_r, <- !app_assoc.
Qed.

Lemma lengthPrefixedConcat_ok parts b :
  lengthPrefixedConcat parts = Ok b ->
  Forall lp_range parts /\ b = concat (map lp parts).
Proof.
  unfold lengthPrefixedConcat. intros H. apply rbind_ok in H as (a & E & H).
  rewrite concatBytes_concat in H. inv_ok. by apply (lp_push_all parts []) in E.
Qed.

Lemma lp_push_total parts out : Forall lp_range parts -> exists a, rfold lp_push out parts = Ok a.
Proof.
  intros H. revert out; induction H as [|p parts Hp _ IH]; intros out; [by eexists|].
  cbn [rfold]. unfold lp_push at 1. rewrite (u64ToBeBytes_total _ Hp). cbn [rbind]. apply IH.
Qed.

Lemma lengthPrefixedConcat_total parts : Forall lp_range parts -> lengthPrefixedConcat parts = Ok (concat (map lp parts)).
Proof.
  intros H. destruct (lp_push_total parts [] H) as [a Ea].
  assert (E : lengthPrefixedConcat parts = Ok (concat a)).
  { change (rbind (rfold lp_push [] parts) concatBytes = Ok (concat a)). rewrite Ea. apply concatBytes_concat. }
  rewrite E. f_equal. by apply lengthPrefixedConcat_ok in E as [_ ->].
Qed.

Lemma lp_concat_inj ps qs :
  Forall lp_range ps -> Forall lp_range qs ->
  concat (map lp ps) = concat (map lp qs) -> length ps = length qs -> ps = qs.
Proof.
  intros Hp; revert qs; induction Hp as [|p ps Hp _ IH]; intros [|q qs] Hq Heq Hl; try done.
  cbn [map concat foldr length] in Heq, Hl. inversion Hq; subst. unfold lp in Heq. rewrite <- !app_assoc in Heq.
  apply app_inj_length in Heq as [Hn Heq]; [|by rewrite !length_be_bytes].
  apply be_bytes_inj in Hn; [|done..].
  apply app_inj_length in Heq as [-> Heq]; [|lia]. f_equal. apply IH; auto.
Qed.
