(* ===== verification/RollingDigest.v ===== *)
(** Rolling digests, [rollingDigest] of [sui-tunnel-ts/src/protocol/Protocol.ts] applied
    to one delta after another: the last digest fixes the deltas, unless the hash
    collides on the inputs hashed on the way. *)
From S2P Require Import Prelude.
From S2P Require Import Bytes.
From S2P Require Import Crypto.

Section Collisions.
Context `{C : Crypto}.

(** The hash does not collide between two lists of inputs. *)
Definition no_collision (I1 I2 : list bytes) : Prop :=
  forall p q, p ∈ I1 -> q ∈ I2 -> blake2b256 p = blake2b256 q -> p = q.

Definition collision (I1 I2 : list bytes) : Prop :=
  exists p q, p ∈ I1 /\ q ∈ I2 /\ p <> q /\ blake2b256 p = blake2b256 q.

Lemma collision_or (I1 I2 : list bytes) : collision I1 I2 \/ no_collision I1 I2.
Proof.
  destruct (decide (Exists (fun p => Exists (fun q => p <> q /\ blake2b256 p = blake2b256 q) I2) I1)) as [Hx|Hx].
  - left. apply Exists_exists in Hx as (p & Hp & (q & Hq & Hne & He)%Exists_exists). unfold collision. eauto 10.
  - right. intros p q Hp Hq He. destruct (decide (p = q)) as [|Hne]; [done|]. exfalso. apply Hx.
    apply Exists_exists. exists p. split; [done|]. apply Exists_exists. by exists q.
Qed.

Lemma no_collision_sub I1 I2 J1 J2 :
  no_collision J1 J2 -> (forall p, p ∈ I1 -> p ∈ J1) -> (forall p, p ∈ I2 -> p ∈ J2) -> no_collision I1 I2.
Proof. intros H H1 H2 p q Hp Hq. apply H; auto. Qed.
End Collisions.

(** A digest over items: the next digest hashes an input made of the digest and the item. *)
Section Fold.
Context `{C : Crypto} {X K : Type} (input : bytes -> X -> bytes) (key : X -> K).

(** The digest after some items, and the inputs hashed for it. *)
Definition fold_digest (d : bytes) (xs : list X) : bytes := fold_left (fun d x => blake2b256 (input d x)) xs d.

Fixpoint fold_inputs (d : bytes) (xs : list X) : list bytes :=
  match xs with
  | [] => []
  | x :: xs' => input d x :: fold_inputs (blake2b256 (input d x)) xs'
  end.

Lemma fold_digest_snoc d xs x : fold_digest d (xs ++ [x]) = blake2b256 (input (fold_digest d xs) x).
Proof. unfold fold_digest. by rewrite fold_left_app. Qed.

Lemma fold_inputs_snoc d xs x : fold_inputs d (xs ++ [x]) = fold_inputs d xs ++ [input (fold_digest d xs) x].
Proof. revert d; induction xs as [|y xs IH]; intros d; [done|]. cbn. by rewrite IH. Qed.

Context `{!CryptoLaws C}.

Lemma length_fold_digest d xs : length d = 32%nat -> length (fold_digest d xs) = 32%nat.
Proof. unfold fold_digest. revert d; induction xs as [|x xs IH]; intros d Hd; [done|]. apply IH, blake2b_length. Qed.

(** An input shows its digest and the key of its item. *)
Definition shows (xs ys : list X) : Prop :=
  forall d d' x y, length d = 32%nat -> length d' = 32%nat -> x ∈ xs -> y ∈ ys -> input d x = input d' y -> d = d' /\ key x = key y.

Lemma shows_init xs x ys y : shows (xs ++ [x]) (ys ++ [y]) -> shows xs ys.
Proof. intros H d d' x' y' Hd Hd' Hx Hy. apply H; [done|done|apply elem_of_app; by left..]. Qed.

(** Equal digests after equally many items: compare from the last item back. *)
Lemma fold_inj d xs ys :
  length d = 32%nat -> no_collision (fold_inputs d xs) (fold_inputs d ys) -> shows xs ys ->
  length xs = length ys -> fold_digest d xs = fold_digest d ys -> map key xs = map key ys.
Proof.
  intros Hd. revert ys; induction xs as [|x xs IH] using rev_ind; intros ys HD Hs Hl H.
  { destruct ys; [done|simpl in Hl; lia]. }
  destruct ys as [|y ys _] using rev_ind; [rewrite length_app in Hl; simpl in Hl; lia|].
  rewrite !length_app in Hl. simpl in Hl. rewrite !fold_digest_snoc in H. rewrite !fold_inputs_snoc in HD.
  apply HD in H; [|apply elem_of_app; right; left|apply elem_of_app; right; left].
  apply Hs in H as [H Hk]; [|by apply length_fold_digest..|apply elem_of_app; right; left|apply elem_of_app; right; left].
  rewrite !map_app. cbn [map]. rewrite Hk. f_equal. apply IH; [|by eapply shows_init|lia|done].
  eapply no_collision_sub; [exact HD|..]; intros p Hp; apply elem_of_app; by left.
Qed.

(** When the first digest is itself the hash of a root that no input can be, the number
    of items need not be known. *)
Lemma fold_inj_root root xs ys :
  (forall d x, length d = 32%nat -> input d x <> root) ->
  no_collision (root :: fold_inputs (blake2b256 root) xs) (root :: fold_inputs (blake2b256 root) ys) -> shows xs ys ->
  fold_digest (blake2b256 root) xs = fold_digest (blake2b256 root) ys -> map key xs = map key ys.
Proof.
  intros Hroot. assert (H32 : length (blake2b256 root) = 32%nat) by apply blake2b_length.
  revert ys; induction xs as [|x xs IH] using rev_ind; intros ys HD Hs H.
  - destruct ys as [|y ys _] using rev_ind; [done|]. rewrite fold_digest_snoc in H. rewrite fold_inputs_snoc in HD.
    apply HD in H; [|left|apply elem_of_cons; right; apply elem_of_app; right; left].
    by destruct (Hroot (fold_digest (blake2b256 root) ys) y); [apply length_fold_digest|].
  - rewrite fold_digest_snoc in H. rewrite fold_inputs_snoc in HD. destruct ys as [|y ys _] using rev_ind.
    + change (fold_digest (blake2b256 root) []) with (blake2b256 root) in H.
      apply (HD _ root) in H; [..|left]; [|apply elem_of_cons; right; apply elem_of_app; right; left].
      by destruct (Hroot (fold_digest (blake2b256 root) xs) x); [apply length_fold_digest|].
    + rewrite fold_digest_snoc in H. rewrite fold_inputs_snoc in HD.
      apply HD in H; [|apply elem_of_cons; right; apply elem_of_app; right; left..].
      apply Hs in H as [H Hk]; [|by apply length_fold_digest..|apply elem_of_app; right; left|apply elem_of_app; right; left].
      rewrite !map_app. cbn [map]. rewrite Hk. f_equal. apply IH; [|by eapply shows_init|done].
      eapply no_collision_sub; [exact HD|..]; intros p [->|Hp]%elem_of_cons; apply elem_of_cons;
        [by left|right; apply elem_of_app; by left|by left|right; apply elem_of_app; by left].
Qed.
End Fold.

(** Rolling digests: the input is the digest followed by the delta. *)
Section Chain.
Context `{C : Crypto} {X K : Type} (delta : X -> bytes) (key : X -> K).
Notation rolling := (fun d x => d ++ delta x).

Definition chain (d : bytes) (xs : list X) : bytes := fold_digest rolling d xs.
Definition chain_inputs (d : bytes) (xs : list X) : list bytes := fold_inputs rolling d xs.

Lemma chain_snoc d xs x : chain d (xs ++ [x]) = blake2b256 (chain d xs ++ delta x).
Proof. exact (fold_digest_snoc rolling d xs x). Qed.

Context `{!CryptoLaws C}.

Lemma length_chain d xs : length d = 32%nat -> length (chain d xs) = 32%nat.
Proof. exact (length_fold_digest rolling d xs). Qed.

Lemma rolling_shows xs ys :
  (forall x y, x ∈ xs -> y ∈ ys -> delta x = delta y -> key x = key y) -> shows rolling key xs ys.
Proof.
  intros Hk d d' x y Hd Hd' Hx Hy E. apply app_inj_length in E as [-> E]; [|by rewrite Hd]. split; [done|]. by apply Hk.
Qed.

Lemma chain_inj d xs ys :
  length d = 32%nat -> no_collision (chain_inputs d xs) (chain_inputs d ys) ->
  (forall x y, x ∈ xs -> y ∈ ys -> delta x = delta y -> key x = key y) ->
  length xs = length ys -> chain d xs = chain d ys -> map key xs = map key ys.
Proof. intros Hd HD Hk. apply (fold_inj rolling key d xs ys Hd HD (rolling_shows xs ys Hk)). Qed.

Lemma chain_inj_root root xs ys :
  (forall d x, length d = 32%nat -> d ++ delta x <> root) ->
  no_collision (root :: chain_inputs (blake2b256 root) xs) (root :: chain_inputs (blake2b256 root) ys) ->
  (forall x y, x ∈ xs -> y ∈ ys -> delta x = delta y -> key x = key y) ->
  chain (blake2b256 root) xs = chain (blake2b256 root) ys -> map key xs = map key ys.
Proof. intros Hr HD Hk. apply (fold_inj_root rolling key root xs ys Hr HD (rolling_shows xs ys Hk)). Qed.
End Chain.
