(* ===== verification/Payments.v ===== *)
(** Bidirectional micropayments: [sui-tunnel-ts/src/protocol/payments.ts]. *)
From S2P Require Import Prelude.
From S2P Require Import Bytes.
From S2P Require Import Wire.
From S2P Require Import Protocol.

(** [src protocol/payments.ts PaymentsState] *)
Record PaymentsState := { balanceA : Z; balanceB : Z; total : Z; count : Z }.

(** [src protocol/payments.ts PaymentMove] *)
Record PaymentMove := { from : Party; amount : Z }.

(** [src protocol/payments.ts DOMAIN] *)
Definition DOMAIN : bytes := protocolDomain "payments.v1".

(** [src protocol/payments.ts PaymentsProtocol.initialState] *)
Definition initialState (ctx : ProtocolContext) : PaymentsState :=
  {| balanceA := bal_a (initialBalances ctx);
     balanceB := bal_b (initialBalances ctx);
     total := bal_a (initialBalances ctx) + bal_b (initialBalances ctx);
     count := 0 |}.

(** [src protocol/payments.ts PaymentsProtocol.applyMove] *)
Definition applyMove (state : PaymentsState) (move : PaymentMove) (by_ : Party)
  : result PaymentsState :=
  throw_if negb (party_eqb (from move) by_) with Error "move.from must equal signer" ;
  throw_if (amount move <=? 0) with Error "payment amount must be positive" ;
  let sender := from move in
  let fromBal := match sender with PartyA => balanceA state | PartyB => balanceB state end in
  throw_if (fromBal <? amount move) with Error "insufficient balance" ;
  Ok {| balanceA := match sender with
                    | PartyA => balanceA state - amount move
                    | PartyB => balanceA state + amount move
                    end;
        balanceB := match sender with
                    | PartyB => balanceB state - amount move
                    | PartyA => balanceB state + amount move
                    end;
        total := total state;
        count := count state + 1 |}.

(** [src protocol/payments.ts PaymentsProtocol.encodeState] *)
Definition encodeState (state : PaymentsState) : result bytes :=
  let! a := u64ToBeBytes (balanceA state) in
  let! b := u64ToBeBytes (balanceB state) in
  let! c := u64ToBeBytes (count state) in
  concatBytes [DOMAIN; a; b; c].

(** [src protocol/payments.ts PaymentsProtocol.balances] *)
Definition balances (state : PaymentsState) : Balances :=
  {| bal_a := balanceA state; bal_b := balanceB state |}.

(** [src protocol/payments.ts PaymentsProtocol.isTerminal] *)
Definition isTerminal (state : PaymentsState) : bool := false.

(** [src protocol/payments.ts PaymentsProtocol.randomMove]: [draw cap] is
    [Math.floor(rng() * Number(cap))], a number below [cap]. *)
Definition randomMove (state : PaymentsState) (by_ : Party) (draw : Z -> Z)
  : option PaymentMove :=
  let bal := match by_ with PartyA => balanceA state | PartyB => balanceB state end in
  if bal <=? 0 then None
  else
    let cap := if bal <? 1000 then bal else 1000 in
    Some {| from := by_; amount := 1 + draw cap |}.

(** [src protocol/payments.ts:36-37 PaymentsProtocol] *)
Definition PaymentsProtocol : Protocol PaymentsState PaymentMove :=
  {| movesCarrySecrets := false;
     Protocol.initialState := fun ctx => Ok (initialState ctx);
     Protocol.applyMove := applyMove;
     Protocol.encodeState := encodeState;
     Protocol.balances := balances;
     Protocol.isTerminal := isTerminal |}.

Definition inv (tot : Z) (s : PaymentsState) : Prop :=
  0 <= balanceA s /\ 0 <= balanceB s /\ balanceA s + balanceB s = tot /\
  total s = tot /\ 0 <= count s.

(** Each accepted move shifts exactly [amount] from the signer to the other
    party, and the move is accepted exactly when the guards of the code hold. *)
Lemma payments_apply_spec s m by_ s' :
  applyMove s m by_ = Ok s' <->
  from m = by_ /\ 0 < amount m /\
  amount m <= (match by_ with PartyA => balanceA s | PartyB => balanceB s end) /\
  s' = {| balanceA := match by_ with PartyA => balanceA s - amount m | PartyB => balanceA s + amount m end;
          balanceB := match by_ with PartyA => balanceB s + amount m | PartyB => balanceB s - amount m end;
          total := total s; count := count s + 1 |}.
Proof.
  unfold applyMove. split.
  - intros H. inv_ok. bool_to_prop. party_cases. destruct (from m); split_and!; done.
  - intros (<- & ? & ? & ->). rewrite party_eqb_refl. simpl.
    rewrite (proj2 (Z.leb_gt _ _)), (proj2 (Z.ltb_ge _ _)) by done. by destruct (from m).
Qed.

#[export] Instance payments_laws : ProtocolLaws PaymentsProtocol inv (fun _ => True).
Proof.
  split.
  - intros ctx s _ (Ha & Hb & _) H. injection H as <-. unfold sum_of.
    split; [split_and!; simpl; lia|]. by destruct ctx as [? []].
  - intros tot s m by_ s' (? & ? & ? & ? & ?) (? & ? & ? & ->)%payments_apply_spec.
    destruct by_; split_and!; simpl; lia.
  - intros tot s (? & ? & ? & ? & ?). unfold sum_of. simpl. lia.
Qed.

(** What party [p] sent over a list of payments. *)
Definition sent (p : Party) (ms : list (PaymentMove * Party)) : Z :=
  foldr Z.add 0 (map (fun mv => if party_eqb (snd mv) p then amount (fst mv) else 0) ms).

Lemma payments_run ms s0 s :
  run PaymentsProtocol s0 ms = Ok s ->
  count s = count s0 + Z.of_nat (length ms) /\
  balanceA s = balanceA s0 - sent PartyA ms + sent PartyB ms.
Proof.
  unfold sent, run. revert s0; induction ms as [|[m p] ms IH]; intros s0 H; simpl in H; inv_ok; simpl.
  { lia. }
  apply payments_apply_spec in E as (_ & _ & _ & ->).
  apply IH in H as [-> ->]. destruct p; simpl; lia.
Qed.

(** Payments conserve the locked total at every step and are exact: from
    any opened tunnel, a sequence of accepted payments leaves non-negative
    balances that sum to the locked total, the state counts the payments, and
    A's balance is its deposit minus what A sent plus what B sent. *)
Theorem payments_ledger ctx ms s :
  lockable (initialBalances ctx) ->
  run PaymentsProtocol (initialState ctx) ms = Ok s ->
  0 <= balanceA s /\ 0 <= balanceB s /\
  balanceA s + balanceB s = sum_of (initialBalances ctx) /\
  count s = Z.of_nat (length ms) /\
  balanceA s = bal_a (initialBalances ctx) - sent PartyA ms + sent PartyB ms.
Proof.
  intros Hl H. destruct (payments_run _ _ _ H) as [Hc Hb].
  assert (inv (sum_of (initialBalances ctx)) s) as (? & ? & ? & ? & ?).
  { by apply (run_from_initial PaymentsProtocol inv (fun _ => True) ctx (initialState ctx) ms). }
  split_and!; done.
Qed.

Definition sample_ctx : ProtocolContext :=
  {| ctx_tunnelId := "0xA1"; initialBalances := {| bal_a := 100; bal_b := 50 |} |}.

Definition sample_moves : list (PaymentMove * Party) :=
  [({| from := PartyA; amount := 30 |}, PartyA); ({| from := PartyB; amount := 5 |}, PartyB)].

Lemma payments_ledger_witness :
  exists s, run PaymentsProtocol (initialState sample_ctx) sample_moves = Ok s /\
    balanceA s = 75.
Proof.
  eexists. split; [reflexivity|].
  exact (proj2 (proj2 (proj2 (proj2 (payments_ledger sample_ctx sample_moves
    {| balanceA := 75; balanceB := 75; total := 150; count := 2 |}
    ltac:(vm_compute; split_and!; discriminate) eq_refl))))).
Defined.
