(* ===== verification/ApiCredits.v ===== *)
(** Metered API calls: [sui-tunnel-ts/src/protocol/apiCredits.ts]. *)
From S2P Require Import Prelude.
From S2P Require Import Bytes.
From S2P Require Import Wire.
From S2P Require Import Protocol.

(** [src protocol/apiCredits.ts ApiCreditsState] *)
Record ApiCreditsState := { client : Z; provider : Z; total : Z; calls : Z }.

(** [src protocol/apiCredits.ts ApiCreditsMove]: any other [kind] is [OtherKind]. *)
Inductive ApiCreditsMove : Type := Call | OtherKind (kind : string).

(** [src protocol/apiCredits.ts DOMAIN] *)
Definition DOMAIN : bytes := protocolDomain "api_credits.v1".

(** [src protocol/apiCredits.ts ApiCreditsProtocol.constructor]: the checked cost. *)
Definition newApiCredits (costPerCall : Z) : result Z :=
  throw_if (costPerCall <=? 0) with Error "costPerCall must be positive" ;
  Ok costPerCall.

Section WithCost.
Variable costPerCall : Z.

(** [src protocol/apiCredits.ts ApiCreditsProtocol.initialState] *)
Definition initialState (ctx : ProtocolContext) : ApiCreditsState :=
  {| client := bal_a (initialBalances ctx);
     provider := bal_b (initialBalances ctx);
     total := bal_a (initialBalances ctx) + bal_b (initialBalances ctx);
     calls := 0 |}.

(** [src protocol/apiCredits.ts ApiCreditsProtocol.applyMove] *)
Definition applyMove (state : ApiCreditsState) (move : ApiCreditsMove) (by_ : Party)
  : result ApiCreditsState :=
  throw_if negb (party_eqb by_ PartyA) with Error "only the client (A) makes calls" ;
  match move with
  | OtherKind _ => Throw (Error "unknown move")
  | Call =>
      throw_if (client state <? costPerCall)
        with Error "out of credits: remaining balance can't cover a call" ;
      Ok {| client := client state - costPerCall;
            provider := provider state + costPerCall;
            total := total state;
            calls := calls state + 1 |}
  end.

(** [src protocol/apiCredits.ts ApiCreditsProtocol.encodeState] *)
Definition encodeState (state : ApiCreditsState) : result bytes :=
  let! c := u64ToBeBytes (client state) in
  let! p := u64ToBeBytes (provider state) in
  let! n := u64ToBeBytes (calls state) in
  concatBytes [DOMAIN; c; p; n].

(** [src protocol/apiCredits.ts ApiCreditsProtocol.balances] *)
Definition balances (state : ApiCreditsState) : Balances :=
  {| bal_a := client state; bal_b := provider state |}.

(** [src protocol/apiCredits.ts ApiCreditsProtocol.isTerminal] *)
Definition isTerminal (state : ApiCreditsState) : bool := client state <? costPerCall.

(** [src protocol/apiCredits.ts ApiCreditsProtocol.randomMove] *)
Definition randomMove (state : ApiCreditsState) (by_ : Party) : option ApiCreditsMove :=
  if negb (party_eqb by_ PartyA) || (client state <? costPerCall) then None else Some Call.

(** [src protocol/apiCredits.ts:40-43 ApiCreditsProtocol] *)
Definition ApiCreditsProtocol : Protocol ApiCreditsState ApiCreditsMove :=
  {| movesCarrySecrets := false;
     Protocol.initialState := fun ctx => Ok (initialState ctx);
     Protocol.applyMove := applyMove;
     Protocol.encodeState := encodeState;
     Protocol.balances := balances;
     Protocol.isTerminal := isTerminal |}.

Definition inv (tot : Z) (s : ApiCreditsState) : Prop :=
  0 <= client s /\ 0 <= provider s /\ client s + provider s = tot /\ total s = tot.

Hypothesis cost_pos : 0 < costPerCall.

#[local] Instance api_credits_laws_aux : ProtocolLaws ApiCreditsProtocol inv (fun _ => True).
Proof using cost_pos.
  split.
  - intros ctx s _ (Ha & Hb & _) H. injection H as <-. unfold sum_of.
    split; [split_and!; simpl; lia|]. by destruct ctx as [? []].
  - intros tot s m by_ s' (? & ? & ? & ?) Happ. cbn in Happ. unfold applyMove in Happ.
    destruct m; inv_ok; bool_to_prop. split_and!; simpl; lia.
  - intros tot s (? & ? & ? & ?). unfold sum_of. simpl. lia.
Qed.

Lemma api_run_calls n s :
  0 <= client s ->
  is_ok (run ApiCreditsProtocol s (replicate n (Call, PartyA))) = true <->
  Z.of_nat n * costPerCall <= client s.
Proof using cost_pos.
  revert s; induction n as [|n IH]; intros s Hs; unfold run in *; simpl.
  { split; [lia|done]. }
  unfold applyMove; simpl. destruct (Z.ltb_spec (client s) costPerCall); cbn [rbind is_ok].
  - split; [done|]. nia.
  - rewrite IH by (simpl; lia). simpl. nia.
Qed.

End WithCost.

#[export] Instance api_credits_laws cost : 0 < cost ->
  ProtocolLaws (ApiCreditsProtocol cost) inv (fun _ => True).
Proof. intros H. by apply api_credits_laws_aux. Qed.

(** Prepaid credits buy exactly [floor(client / cost)] calls: from an opened
    tunnel, a sequence of [n] calls is accepted if and only if [n] times the cost
    does not exceed the client's deposit, and the session is terminal exactly
    when no further call can be paid. *)
Theorem api_credits_budget cost ctx n :
  0 < cost -> lockable (initialBalances ctx) ->
  (is_ok (run (ApiCreditsProtocol cost) (initialState ctx) (replicate n (Call, PartyA))) = true <->
   Z.of_nat n <= bal_a (initialBalances ctx) / cost) /\
  (forall s, isTerminal cost s = true <-> is_ok (applyMove cost s Call PartyA) = false).
Proof.
  intros Hc (Ha & _). split.
  - rewrite api_run_calls by done. simpl. split; intros H.
    + apply Z.div_le_lower_bound; lia.
    + pose proof (Z.mul_div_le (bal_a (initialBalances ctx)) cost Hc). nia.
  - intros s. unfold isTerminal, applyMove. simpl. by destruct (_ <? _).
Qed.

Lemma api_credits_budget_witness :
  is_ok (run (ApiCreditsProtocol 10) (initialState {| ctx_tunnelId := "0x1";
           initialBalances := {| bal_a := 35; bal_b := 0 |} |}) (replicate 3 (Call, PartyA))) = true.
Proof.
  apply (api_credits_budget 10 {| ctx_tunnelId := "0x1";
    initialBalances := {| bal_a := 35; bal_b := 0 |} |} 3); [lia| |vm_compute; discriminate].
  vm_compute; split_and!; discriminate.
Defined.
