(* ===== verification/TicTacToe.v ===== *)
(** Staked tic-tac-toe with a move accumulator:
    [sui-tunnel-ts/src/protocol/ticTacToe.ts]. *)
From S2P Require Import Prelude.
From S2P Require Import Bytes.
From S2P Require Import Wire.
From S2P Require Import Crypto.
From S2P Require Import Commitment.
From S2P Require Import Protocol.

(** [src protocol/ticTacToe.ts EMPTY] *)
Definition EMPTY : Z := 0.
(** [src protocol/ticTacToe.ts MARK_A] *)
Definition MARK_A : Z := 1.
(** [src protocol/ticTacToe.ts MARK_B] *)
Definition MARK_B : Z := 2.

(** [src protocol/ticTacToe.ts TicTacToeState] *)
Record TicTacToeState := {
  board : list Z;
  turn : Party;
  movesCount : Z;
  winner : Z;
  balanceA : Z;
  balanceB : Z;
  total : Z;
  stake : Z;
  moveAccumulator : bytes
}.

(** [src protocol/ticTacToe.ts TicTacToeMove]: [salt] may be missing in a move
    that came over the wire. *)
Record TicTacToeMove := { cell : jsnum; salt : option bytes }.

(** [src protocol/ticTacToe.ts DOMAIN] *)
Definition DOMAIN : bytes := protocolDomain "tic_tac_toe.v2".

(** [src protocol/ticTacToe.ts LINES] *)
Definition LINES : list (nat * nat * nat) :=
  [(0, 1, 2); (3, 4, 5); (6, 7, 8); (0, 3, 6); (1, 4, 7); (2, 5, 8); (0, 4, 8); (2, 4, 6)]%nat.

Definition line_won (b : list Z) (l : nat * nat * nat) : bool :=
  let '(x, y, z) := l in
  let v := b !!! x in
  negb (v =? EMPTY) && (v =? b !!! y) && (v =? b !!! z).

(** [src protocol/ticTacToe.ts checkWinner] *)
Definition checkWinner (b : list Z) (moves_count : Z) : Z :=
  match List.find (line_won b) LINES with
  | Some (x, _, _) => b !!! x
  | None => if moves_count =? 9 then 3 else 0
  end.

(** [src protocol/ticTacToe.ts TicTacToeProtocol.constructor] *)
Definition newTicTacToe (stake : Z) : result Z :=
  throw_if (stake <? 0) with Error "stake must be non-negative" ;
  Ok stake.

(** [src protocol/ticTacToe.ts TicTacToeProtocol.balances] *)
Definition balances (s : TicTacToeState) : Balances :=
  {| bal_a := balanceA s; bal_b := balanceB s |}.

(** [src protocol/ticTacToe.ts TicTacToeProtocol.isTerminal] *)
Definition isTerminal (s : TicTacToeState) : bool := negb (winner s =? 0).

(** [src protocol/ticTacToe.ts TicTacToeProtocol.encodeState] *)
Definition encodeState (s : TicTacToeState) : result bytes :=
  let b := u8_from (board s) in
  let! a := u64ToBeBytes (balanceA s) in
  let! bb := u64ToBeBytes (balanceB s) in
  let! st := u64ToBeBytes (stake s) in
  concatBytes [DOMAIN; b;
    u8_from [movesCount s; winner s; match turn s with PartyA => 0 | PartyB => 1 end];
    a; bb; st; moveAccumulator s].

Section WithCrypto.
Context `{C : Crypto}.

(** [src protocol/ticTacToe.ts initialAccumulator] *)
Definition initialAccumulator : result bytes :=
  let! d := lengthPrefixed DOMAIN in
  let! p := concatBytes (DOMAIN_COMMIT_REVEAL :: d) in
  Ok (blake2b256 p).

(** [src protocol/ticTacToe.ts advanceAccumulator] *)
Definition advanceAccumulator (prevAcc commitment : bytes) : result bytes :=
  let! a := lengthPrefixed prevAcc in
  let! c := lengthPrefixed commitment in
  let! p := concatBytes (DOMAIN_COMMIT_REVEAL :: a ++ c) in
  Ok (blake2b256 p).

(** [src protocol/ticTacToe.ts TicTacToeProtocol.initialState] *)
Definition initialState (defaultStake : Z) (ctx : ProtocolContext) : result TicTacToeState :=
  let a := bal_a (initialBalances ctx) in
  let b := bal_b (initialBalances ctx) in
  let cap := if a <? b then a else b in
  let! acc := initialAccumulator in
  Ok {| board := [0; 0; 0; 0; 0; 0; 0; 0; 0];
        turn := PartyA;
        movesCount := 0;
        winner := 0;
        balanceA := a;
        balanceB := b;
        total := a + b;
        stake := if defaultStake <? cap then defaultStake else cap;
        moveAccumulator := acc |}.

(** [src protocol/ticTacToe.ts:176-189 applyMove] the loser pays the stake,
    clamped to what it has *)
Definition payout (w : Z) (s : TicTacToeState) : Z * Z :=
  if (w =? 1) || (w =? 2) then
    let loserBal := if w =? 1 then balanceB s else balanceA s in
    let shift := if stake s <? loserBal then stake s else loserBal in
    if w =? 1 then (balanceA s + shift, balanceB s - shift)
    else (balanceA s - shift, balanceB s + shift)
  else (balanceA s, balanceB s).

(** [src protocol/ticTacToe.ts TicTacToeProtocol.applyMove] *)
Definition applyMove (s : TicTacToeState) (move : TicTacToeMove) (by_ : Party)
  : result TicTacToeState :=
  throw_if negb (winner s =? 0) with Error "game already over" ;
  throw_if negb (party_eqb by_ (turn s)) with Error "not your turn" ;
  match cell move with
  | JsNonInt => Throw (Error "cell out of range")
  | JsInt c =>
      throw_if (c <? 0) || (8 <? c) with Error "cell out of range" ;
      throw_if negb (board s !!! Z.to_nat c =? EMPTY) with Error "cell occupied" ;
      match salt move with
      | None => Throw (Error "salt must be >= 16 bytes")
      | Some slt =>
          throw_if (length slt <? MIN_SALT_LEN)%nat with Error "salt must be >= 16 bytes" ;
          let b := <[Z.to_nat c := match by_ with PartyA => MARK_A | PartyB => MARK_B end]> (board s) in
          let mc := movesCount s + 1 in
          let w := checkWinner b mc in
          let pay := payout w s in
          let moverByte := match by_ with PartyA => 1 | PartyB => 2 end in
          let! mcb := u64ToBeBytes mc in
          let! cb := u64ToBeBytes c in
          let! value := concatBytes [u8_from [moverByte]; mcb; cb] in
          let! commitment := computeCommitment value slt in
          let! acc := advanceAccumulator (moveAccumulator s) commitment in
          Ok {| board := b;
                turn := otherParty by_;
                movesCount := mc;
                winner := w;
                balanceA := fst pay;
                balanceB := snd pay;
                total := total s;
                stake := stake s;
                moveAccumulator := acc |}
      end
  end.

(** [src protocol/ticTacToe.ts:120-124 TicTacToeProtocol] *)
Definition TicTacToeProtocol (defaultStake : Z) : Protocol TicTacToeState TicTacToeMove :=
  {| movesCarrySecrets := false;
     Protocol.initialState := initialState defaultStake;
     Protocol.applyMove := applyMove;
     Protocol.encodeState := encodeState;
     Protocol.balances := balances;
     Protocol.isTerminal := isTerminal |}.

(** * The invariant *)

Definition mark_of (p : Party) : Z := match p with PartyA => MARK_A | PartyB => MARK_B end.

Definition marks (v : Z) (b : list Z) : Z := Z.of_nat (length (filter (fun x => x = v) b)).

(** What a decided game owes, relative to the balances at the start. *)
Definition shift_of (w stk : Z) : Z :=
  if w =? 1 then stk else if w =? 2 then - stk else 0.

(** The same game with another seat to begin. *)
Definition with_turn (s : TicTacToeState) (p : Party) : TicTacToeState :=
  {| board := board s; turn := p; movesCount := movesCount s; winner := winner s; balanceA := balanceA s;
     balanceB := balanceB s; total := total s; stake := stake s; moveAccumulator := moveAccumulator s |}.

(** The opener has the odd stone. *)
Definition lead (first p : Party) : Z := if party_eqb first p then 1 else 0.

Record wf (first : Party) (a0 b0 stk : Z) (s : TicTacToeState) : Prop := {
  wf_board : length (board s) = 9%nat;
  wf_cells : Forall (fun v => v = 0 \/ v = 1 \/ v = 2) (board s);
  wf_A : marks 1 (board s) = (movesCount s + lead first PartyA) / 2;
  wf_B : marks 2 (board s) = (movesCount s + lead first PartyB) / 2;
  wf_count : marks 0 (board s) = 9 - movesCount s;
  wf_turn : turn s = if Z.even (movesCount s) then first else otherParty first;
  wf_winner : winner s = checkWinner (board s) (movesCount s);
  wf_stake : stake s = stk /\ 0 <= stk <= a0 /\ stk <= b0;
  wf_balA : balanceA s = a0 + shift_of (winner s) stk;
  wf_balB : balanceB s = b0 - shift_of (winner s) stk;
  wf_total : total s = a0 + b0;
  wf_acc : exists p, moveAccumulator s = blake2b256 p
}.

Lemma ttt_apply_inv s m by_ s' :
  applyMove s m by_ = Ok s' ->
  exists c slt pre, cell m = JsInt c /\ 0 <= c <= 8 /\ salt m = Some slt /\
    (MIN_SALT_LEN <= length slt)%nat /\
    winner s = 0 /\ by_ = turn s /\ board s !!! Z.to_nat c = 0 /\
    s' = {| board := <[Z.to_nat c := mark_of by_]> (board s);
            turn := otherParty by_;
            movesCount := movesCount s + 1;
            winner := checkWinner (<[Z.to_nat c := mark_of by_]> (board s)) (movesCount s + 1);
            balanceA := fst (payout (checkWinner (<[Z.to_nat c := mark_of by_]> (board s)) (movesCount s + 1)) s);
            balanceB := snd (payout (checkWinner (<[Z.to_nat c := mark_of by_]> (board s)) (movesCount s + 1)) s);
            total := total s; stake := stake s; moveAccumulator := blake2b256 pre |}.
Proof.
  unfold applyMove. intros H. inv_ok.
  destruct (cell m) as [c|] eqn:Hc; [|done]. inv_ok.
  destruct (salt m) as [slt|] eqn:Hs; [|done]. inv_ok. bool_to_prop. party_cases.
  unfold advanceAccumulator in *. inv_ok.
  eexists c, slt, _. split_and!; try done; lia.
Qed.

Lemma marks_insert v w b i :
  (i < length b)%nat -> b !!! i = 0 -> w <> 0 ->
  marks v (<[i := w]> b) =
    marks v b + (if v =? w then 1 else 0) - (if v =? 0 then 1 else 0).
Proof.
  intros Hi Hb Hw. destruct (lookup_lt_is_Some_2 b i Hi) as [x Hx].
  rewrite (list_lookup_total_correct _ _ _ Hx) in Hb. subst x.
  unfold marks.
  rewrite insert_take_drop, !filter_app by done.
  rewrite <- (take_drop_middle b i 0 Hx) at 3. rewrite !filter_app, !length_app.
  rewrite !filter_cons.
  destruct (Z.eqb_spec v w), (Z.eqb_spec v 0); repeat case_decide; subst; simpl; try lia.
Qed.

(** A won line of the new board runs through the cell just marked. *)
Lemma new_line_is_movers b i v l :
  length b = 9%nat -> (i < 9)%nat -> v <> 0 -> List.find (line_won b) LINES = None ->
  In l LINES -> line_won (<[i := v]> b) l = true ->
  let '(x, _, _) := l in <[i := v]> b !!! x = v.
Proof.
  intros Hlen Hi Hv Hnone Hin Hwon. destruct l as [[x y] z].
  pose proof (List.find_none _ _ Hnone _ Hin) as Hold. unfold line_won in Hwon, Hold.
  bool_to_prop.
  assert (forall k, k <> i -> <[i := v]> b !!! k = b !!! k) as Hne
    by (intros k Hk; by rewrite list_lookup_total_insert_ne).
  assert (<[i := v]> b !!! i = v) as Heq by (apply list_lookup_total_insert_eq; lia).
  destruct (decide (x = i)) as [->|Hx]; [done|].
  destruct (decide (y = i)) as [->|Hy]; [congruence|].
  destruct (decide (z = i)) as [->|Hz]; [congruence|].
  rewrite !Hne in * by done.
  destruct Hold as [Hold|Hold]; bool_to_prop; [destruct Hold; bool_to_prop|]; congruence.
Qed.

Lemma checkWinner_find b mc w :
  checkWinner b mc = w ->
  (List.find (line_won b) LINES = None /\ w = if mc =? 9 then 3 else 0) \/
  exists x y z, In (x, y, z) LINES /\ line_won b (x, y, z) = true /\ w = b !!! x /\ w <> 0.
Proof.
  unfold checkWinner. destruct (List.find (line_won b) LINES) as [[[x y] z]|] eqn:E; intros <-.
  - right. exists x, y, z. apply List.find_some in E as [Hin Hwon].
    split_and!; try done. unfold line_won in Hwon. bool_to_prop. done.
  - left. done.
Qed.

Lemma checkWinner_0_none b mc :
  checkWinner b mc = 0 -> List.find (line_won b) LINES = None /\ mc <> 9.
Proof.
  intros [[H1 H2]|(x & y & z & _ & _ & H1 & H2)]%checkWinner_find; [|done].
  split; [done|]. intros ->. done.
Qed.

(** After a move from an undecided board: the mover won, or a draw, or still open. *)
Lemma checkWinner_step b i mc p :
  length b = 9%nat -> (i < 9)%nat -> List.find (line_won b) LINES = None ->
  checkWinner (<[i := mark_of p]> b) mc = mark_of p \/
  checkWinner (<[i := mark_of p]> b) mc = 3 \/ checkWinner (<[i := mark_of p]> b) mc = 0.
Proof.
  intros Hlen Hi Hnone.
  destruct (checkWinner_find (<[i := mark_of p]> b) mc _ eq_refl)
    as [[_ ->]|(x & y & z & Hin & Hwon & -> & _)].
  - destruct (mc =? 9); auto.
  - left. assert (mark_of p <> 0) as Hp by by destruct p.
    exact (new_line_is_movers b i (mark_of p) (x, y, z) Hlen Hi Hp Hnone Hin Hwon).
Qed.

Lemma ttt_wf_initial first stk ctx s :
  0 <= stk -> lockable (initialBalances ctx) -> initialState stk ctx = Ok s ->
  let a := bal_a (initialBalances ctx) in let b := bal_b (initialBalances ctx) in
  wf first a b (Z.min stk (Z.min a b)) (with_turn s first).
Proof.
  intros Hs (Ha & Hb & _) H. unfold initialState in H. inv_ok.
  unfold initialAccumulator in *. inv_ok.
  assert (forall x y, (if x <? y then x else y) = Z.min x y) as Hmin
    by (intros x y; destruct (Z.ltb_spec x y); lia).
  rewrite !Hmin. split; simpl; try (done || lia).
  - repeat constructor; auto.
  - by destruct first.
  - by destruct first.
  - unfold shift_of; simpl; lia.
  - unfold shift_of; simpl; lia.
  - eauto.
Qed.

Lemma ttt_wf_step first a0 b0 stk s m by_ s' :
  wf first a0 b0 stk s -> applyMove s m by_ = Ok s' -> wf first a0 b0 stk s'.
Proof.
  intros [Hl Hc HA HB H0 Ht Hw (Hst & Hstk1 & Hstk2) HbA HbB Htot Hacc] Hstp.
  apply ttt_apply_inv in Hstp as (c & slt & pre & Hcell & Hcr & _ & _ & Hw0 & -> & Hempty & ->).
  rewrite Hw0 in *. unfold shift_of in HbA, HbB. simpl in HbA, HbB.
  destruct (checkWinner_0_none _ _ (eq_sym Hw)) as [Hnone Hm9].
  set (i := Z.to_nat c). assert (i < 9)%nat as Hi by lia.
  pose proof (checkWinner_step (board s) i (movesCount s + 1) (turn s) Hl Hi Hnone) as Hstep.
  split; cbn [board turn movesCount winner balanceA balanceB total stake moveAccumulator].
  - by rewrite length_insert.
  - apply Forall_insert; [done|]. destruct (turn s); auto.
  - rewrite marks_insert, HA, Ht by (try done; try lia; by destruct (turn s)).
    unfold lead. destruct (Z.even _) eqn:Ev, first; simpl; rewrite Zeven_mod in Ev; bool_to_prop; zdiv_lia.
  - rewrite marks_insert, HB, Ht by (try done; try lia; by destruct (turn s)).
    unfold lead. destruct (Z.even _) eqn:Ev, first; simpl; rewrite Zeven_mod in Ev; bool_to_prop; zdiv_lia.
  - rewrite marks_insert, H0 by (try done; try lia; by destruct (turn s)).
    destruct (turn s); simpl; lia.
  - rewrite Ht, Z.even_add. by destruct (Z.even (movesCount s)), first.
  - done.
  - done.
  - unfold payout, shift_of. destruct Hstep as [-> | [-> | ->]]; [|simpl; lia..].
    destruct (turn s); simpl; [destruct (Z.ltb_spec (stake s) (balanceB s))|destruct (Z.ltb_spec (stake s) (balanceA s))]; simpl; lia.
  - unfold payout, shift_of. destruct Hstep as [-> | [-> | ->]]; [|simpl; lia..].
    destruct (turn s); simpl; [destruct (Z.ltb_spec (stake s) (balanceB s))|destruct (Z.ltb_spec (stake s) (balanceA s))]; simpl; lia.
  - done.
  - eauto.
Qed.

Lemma ttt_opens_A stk ctx s : initialState stk ctx = Ok s -> with_turn s PartyA = s.
Proof. unfold initialState. intros H. by apply rbind_ok in H as (acc & _ & [= <-]). Qed.

Definition ttt_inv (tot : Z) (s : TicTacToeState) : Prop :=
  exists first a0 b0 stk, wf first a0 b0 stk s /\ a0 + b0 = tot.

#[export] Instance ttt_laws stk :
  ProtocolLaws (TicTacToeProtocol stk) ttt_inv (fun _ => 0 <= stk).
Proof.
  split.
  - intros ctx s Hs Hl H. split.
    + exists PartyA. do 3 eexists. split; [|done]. pose proof (ttt_wf_initial PartyA stk ctx s Hs Hl H) as Hwf.
      by rewrite (ttt_opens_A _ _ _ H) in Hwf.
    + simpl in H. unfold initialState in H. inv_ok. by destruct ctx as [? []].
  - intros tot s m p s' (f & a0 & b0 & k & Hwf & Hsum) H.
    exists f, a0, b0, k. split; [by eapply ttt_wf_step|done].
  - intros tot s (f & a0 & b0 & k & Hwf & Hsum). unfold sum_of. simpl.
    destruct Hwf as [_ _ _ _ _ _ _ (_ & ? & ?) -> -> _ _].
    unfold shift_of. repeat case_match; lia.
Qed.

Lemma ttt_run_wf first a0 b0 k stk ms s0 s :
  wf first a0 b0 k s0 -> run (TicTacToeProtocol stk) s0 ms = Ok s ->
  wf first a0 b0 k s /\ movesCount s = movesCount s0 + Z.of_nat (length ms).
Proof.
  revert s0; induction ms as [|[m p] ms IH]; intros s0 Hwf H.
  - unfold run in H; simpl in H; inv_ok. split; [done|simpl; lia].
  - unfold run in H; simpl in H. inv_ok. rename a into s1. simpl in E.
    destruct (IH s1) as [? Hc]; [by eapply ttt_wf_step|done|]. split; [done|].
    apply ttt_apply_inv in E as (? & ? & ? & _ & _ & _ & _ & _ & _ & _ & ->).
    simpl in Hc. simpl length. lia.
Qed.

Lemma marks_nonneg v b : 0 <= marks v b.
Proof. unfold marks; lia. Qed.

Lemma wf_winner_line first a0 b0 k s p :
  wf first a0 b0 k s -> winner s = mark_of p ->
  exists x y z, In (x, y, z) LINES /\
    board s !!! x = mark_of p /\ board s !!! y = mark_of p /\ board s !!! z = mark_of p.
Proof.
  intros Hwf Hw. pose proof (wf_winner _ _ _ _ _ Hwf) as Hc. rewrite Hw in Hc.
  destruct (checkWinner_find _ _ _ (eq_sym Hc)) as [[_ Hd]|(x & y & z & Hin & Hwon & Hx & _)].
  { destruct (movesCount s =? 9), p; discriminate Hd. }
  exists x, y, z. unfold line_won in Hwon. bool_to_prop. split_and!; congruence.
Qed.

Lemma wf_full first a0 b0 k s : wf first a0 b0 k s -> 0 <= movesCount s <= 9.
Proof.
  intros Hwf. pose proof (wf_count _ _ _ _ _ Hwf). pose proof (marks_nonneg 0 (board s)).
  pose proof (wf_B _ _ _ _ _ Hwf). pose proof (marks_nonneg 2 (board s)).
  pose proof (wf_A _ _ _ _ _ Hwf). pose proof (marks_nonneg 1 (board s)).
  destruct first; cbn [lead party_eqb] in *; zdiv_lia.
Qed.

Lemma ttt_initial_total stk ctx : exists s, initialState stk ctx = Ok s.
Proof.
  unfold initialState, initialAccumulator.
  assert (Hd : u64_range (Z.of_nat (length DOMAIN))) by (apply (bool_decide_unpack _); vm_compute; exact I).
  rewrite (proj2 (lengthPrefixed_ok DOMAIN _) (conj Hd eq_refl)).
  cbn [rbind]. rewrite concatBytes_concat. by eexists.
Qed.

(** The accepted moves of a well-formed state. *)
Lemma ttt_accepts `{!CryptoLaws C} first a0 b0 k s c slt :
  wf first a0 b0 k s -> winner s = 0 -> 0 <= c <= 8 -> board s !!! Z.to_nat c = 0 ->
  (MIN_SALT_LEN <= length slt)%nat -> u64_range (Z.of_nat (length slt)) ->
  is_ok (applyMove s {| cell := JsInt c; salt := Some slt |} (turn s)) = true.
Proof.
  intros Hwf Hw Hc Hb Hs Hr. unfold applyMove. cbn [cell salt].
  rewrite Hw, party_eqb_refl. cbn [Z.eqb negb].
  rewrite (proj2 (orb_false_iff _ _)) by (split; [apply Z.ltb_ge|apply Z.ltb_ge]; lia).
  rewrite Hb. cbn [Z.eqb negb EMPTY]. rewrite (proj2 (Nat.ltb_ge _ _)) by done. cbv zeta.
  pose proof (wf_full _ _ _ _ _ Hwf) as Hm.
  assert (9 < U64_MAX) as HU by done.
  rewrite !u64ToBeBytes_total by (unfold u64_range; lia). cbn [rbind].
  rewrite concatBytes_concat. cbn [rbind]. unfold computeCommitment.
  rewrite (proj2 (Nat.ltb_ge _ _)) by done.
  unfold hashCommitment, commitment_preimage, advanceAccumulator, lengthPrefixed.
  destruct (wf_acc _ _ _ _ _ Hwf) as [pre ->]. unfold blake2b256.
  rewrite !length_concat, ?blake2b_length. cbn [fmap list_fmap map length].
  rewrite !u64ToBeBytes_total by (done || (rewrite !length_be_bytes; done)).
  cbn [rbind]. rewrite !concatBytes_concat. cbn [rbind].
  rewrite !blake2b_length. rewrite !u64ToBeBytes_total by done. cbn [rbind].
  by rewrite !concatBytes_concat.
Qed.

Lemma empty_cell b : length b = 9%nat -> 0 < marks 0 b -> exists c, 0 <= c <= 8 /\ b !!! Z.to_nat c = 0.
Proof.
  intros Hl Hm. unfold marks in Hm.
  destruct (filter (fun x => x = 0) b) as [|x xs] eqn:E; [simpl in Hm; lia|].
  assert (x ∈ filter (fun x => x = 0) b) as [-> Hin]%list_elem_of_filter by (rewrite E; left).
  apply list_elem_of_lookup in Hin as [i Hi]. exists (Z.of_nat i).
  pose proof (lookup_lt_Some _ _ _ Hi). split; [lia|].
  rewrite Nat2Z.id. by apply list_lookup_total_correct.
Qed.

(** A game of tic-tac-toe from an opened tunnel ends within nine moves and
    pays exactly the stake: after any sequence of accepted moves the number of
    moves is at most nine, the balances are the deposits shifted by the stake
    (the smallest of the configured stake and the two deposits) to the winner
    and unchanged in an open or drawn game, a declared winner owns a full line,
    and as long as no winner is declared the party to move, and only that
    party, has an accepted move. *)
Theorem ttt_settlement `{!CryptoLaws C} stk ctx s0 ms s :
  0 <= stk -> lockable (initialBalances ctx) -> initialState stk ctx = Ok s0 ->
  run (TicTacToeProtocol stk) s0 ms = Ok s ->
  let a0 := bal_a (initialBalances ctx) in
  let b0 := bal_b (initialBalances ctx) in
  (length ms <= 9)%nat /\
  balanceA s = a0 + shift_of (winner s) (Z.min stk (Z.min a0 b0)) /\
  balanceB s = b0 - shift_of (winner s) (Z.min stk (Z.min a0 b0)) /\
  (forall p, winner s = mark_of p -> exists x y z, In (x, y, z) LINES /\
     board s !!! x = mark_of p /\ board s !!! y = mark_of p /\ board s !!! z = mark_of p) /\
  (isTerminal s = false <-> exists m p, is_ok (applyMove s m p) = true) /\
  (forall m p, is_ok (applyMove s m p) = true -> p = turn s).
Proof.
  intros Hs Hl H0 H. cbv zeta. pose proof (ttt_wf_initial PartyA _ _ _ Hs Hl H0) as Hwf0. cbv zeta in Hwf0.
  rewrite (ttt_opens_A _ _ _ H0) in Hwf0. destruct (ttt_run_wf _ _ _ _ _ _ _ _ Hwf0 H) as [Hwf Hc].
  assert (movesCount s0 = 0) as Hz by (unfold initialState in H0; inv_ok; done).
  pose proof (wf_count _ _ _ _ _ Hwf) as Hcnt. pose proof (marks_nonneg 0 (board s)).
  split_and!.
  - lia.
  - apply (wf_balA _ _ _ _ _ Hwf).
  - apply (wf_balB _ _ _ _ _ Hwf).
  - intros p. by apply (wf_winner_line _ _ _ _ _ p Hwf).
  - unfold isTerminal. split.
    + intros Ht. bool_to_prop.
      pose proof (wf_winner _ _ _ _ _ Hwf) as Hw. rewrite Ht in Hw.
      destruct (checkWinner_0_none _ _ (eq_sym Hw)) as [_ Hm9].
      destruct (empty_cell (board s)) as (c & Hcr & Hb); [apply (wf_board _ _ _ _ _ Hwf)|lia|].
      exists {| cell := JsInt c; salt := Some (replicate 16 0) |}, (turn s).
      by eapply ttt_accepts.
    + intros (m & p & Hok). apply is_ok_exists in Hok as (s' & E).
      apply ttt_apply_inv in E as (? & ? & ? & _ & _ & _ & _ & -> & _). done.
  - intros m p Hok. apply is_ok_exists in Hok as (s' & E).
    by apply ttt_apply_inv in E as (? & ? & ? & _ & _ & _ & _ & _ & -> & _).
Qed.

End WithCrypto.

Definition sample_ctx : ProtocolContext :=
  {| ctx_tunnelId := "0xA1"; initialBalances := {| bal_a := 100; bal_b := 50 |} |}.

Definition sample_moves : list (TicTacToeMove * Party) :=
  let mv c p := ({| cell := JsInt c; salt := Some (replicate 16 7) |}, p) in
  [mv 0 PartyA; mv 3 PartyB; mv 1 PartyA; mv 4 PartyB; mv 2 PartyA].

Definition sample_final : result TicTacToeState :=
  let! s0 := initialState 80 sample_ctx in run (TicTacToeProtocol 80) s0 sample_moves.

Lemma sample_final_won :
  match sample_final with Ok s => winner s =? 1 | Throw _ => false end = true.
Proof. vm_compute. reflexivity. Qed.

Lemma ttt_settlement_witness :
  exists s0 s, initialState 80 sample_ctx = Ok s0 /\ sample_final = Ok s /\
    winner s = 1 /\ balanceA s = 150 /\ balanceB s = 0.
Proof.
  pose proof sample_final_won as Hw. unfold sample_final in Hw |- *.
  destruct (initialState 80 sample_ctx) as [s0|] eqn:E0; [|discriminate Hw]. cbn [rbind] in Hw |- *.
  destruct (run (TicTacToeProtocol 80) s0 sample_moves) as [s|] eqn:E; [|discriminate Hw].
  apply Z.eqb_eq in Hw.
  destruct (ttt_settlement 80 sample_ctx s0 sample_moves s ltac:(lia)
    ltac:(unfold lockable, sum_of; simpl; rewrite U64_MAX_eq; lia) E0 E) as (_ & HA & HB & _).
  rewrite Hw in HA, HB. exists s0, s. split_and!; first [reflexivity | assumption].
Defined.
