(* ===== verification/Tunnel.v ===== *)
(** The in-memory tunnel engine: [sui-tunnel-ts/src/core/tunnel.ts].

    The class [OffchainTunnel] is a record; its methods are [eff] handlers over
    it, so that a handler that throws half way shows what it has changed. *)

From Stdlib Require Import Sorting.Sorted.
From S2P Require Import Prelude.
From S2P Require Import Bytes.
From S2P Require Import Wire.
From S2P Require Import Crypto.
From S2P Require Import Protocol.

(** [src core/tunnel.ts PartyEndpoint] *)
Record PartyEndpoint := {
  address : string;
  ep_publicKey : bytes;
  ep_scheme : Z;
  ep_secretKey : option bytes;
  ep_sign : option (bytes -> bytes);
  ep_verify : bytes -> bytes -> bool
}.

(** [src core/tunnel.ts makeEndpoint] *)
Definition makeEndpoint (backend : CryptoBackend) (addr : string) (pk : bytes) (sch : Z)
    (sk : option bytes) (controlled : bool) : PartyEndpoint :=
  {| address := addr;
     ep_publicKey := pk;
     ep_scheme := sch;
     ep_secretKey := if controlled then sk else None;
     ep_sign := if controlled then option_map (makeSigner backend) sk else None;
     ep_verify := makeVerifier backend pk |}.

(** [src core/tunnel.ts CoSignedUpdate] *)
Record CoSignedUpdate := { update : StateUpdate; sigA : bytes; sigB : bytes }.

(** [src core/tunnel.ts CoSignedSettlement] *)
Record CoSignedSettlement := {
  cs_settlement : Settlement; cs_sigA : bytes; cs_sigB : bytes }.

(** [src core/tunnel.ts CoSignedSettlementWithRoot] *)
Record CoSignedSettlementWithRoot := {
  csr_settlement : SettlementWithRoot; csr_sigA : bytes; csr_sigB : bytes }.

(** [src core/tunnel.ts SignMode] *)
Inductive SignMode := Full | SignOnly | NoSign.

(** [src core/tunnel.ts StepResult] *)
Record StepResult := {
  res_nonce : Z;
  signed : option CoSignedUpdate;
  verified : bool;
  messageBytes : nat
}.

(** [src core/tunnel.ts:121-134 OffchainTunnel]: the observer [onUpdate] is
    caller code; [updates] is the list of the calls made to it. *)
Record OffchainTunnel (State : Type) := {
  t_tunnelId : string;
  partyA : PartyEndpoint;
  partyB : PartyEndpoint;
  t_total : Z;
  _state : State;
  _nonce : Z;
  _latest : option CoSignedUpdate;
  writer : StateUpdateWriter;
  onUpdate : bool;
  updates : list (CoSignedUpdate * nat)
}.
Arguments t_tunnelId {State}.
Arguments partyA {State}.
Arguments partyB {State}.
Arguments t_total {State}.
Arguments _state {State}.
Arguments _nonce {State}.
Arguments _latest {State}.
Arguments writer {State}.
Arguments onUpdate {State}.
Arguments updates {State}.

Definition set_latest {S} (u : CoSignedUpdate) (t : OffchainTunnel S) : OffchainTunnel S :=
  {| t_tunnelId := t_tunnelId t; partyA := partyA t; partyB := partyB t; t_total := t_total t;
     _state := _state t; _nonce := _nonce t; _latest := Some u; writer := writer t;
     onUpdate := onUpdate t; updates := updates t |}.

Definition set_state {S} (s : S) (n : Z) (t : OffchainTunnel S) : OffchainTunnel S :=
  {| t_tunnelId := t_tunnelId t; partyA := partyA t; partyB := partyB t; t_total := t_total t;
     _state := s; _nonce := n; _latest := _latest t; writer := writer t;
     onUpdate := onUpdate t; updates := updates t |}.

Definition set_writer {S} (w : StateUpdateWriter) (t : OffchainTunnel S) : OffchainTunnel S :=
  {| t_tunnelId := t_tunnelId t; partyA := partyA t; partyB := partyB t; t_total := t_total t;
     _state := _state t; _nonce := _nonce t; _latest := _latest t; writer := w;
     onUpdate := onUpdate t; updates := updates t |}.

(** [if (signed && this.onUpdate) this.onUpdate(signed, messageBytes)] *)
Definition notify {S} (u : option CoSignedUpdate) (mb : nat) (t : OffchainTunnel S)
  : OffchainTunnel S :=
  match u with
  | Some u =>
      if onUpdate t then
        {| t_tunnelId := t_tunnelId t; partyA := partyA t; partyB := partyB t; t_total := t_total t;
           _state := _state t; _nonce := _nonce t; _latest := _latest t; writer := writer t;
           onUpdate := true; updates := updates t ++ [(u, mb)] |}
      else t
  | None => t
  end.

(** A call on the tunnel's own writer. *)
Definition with_writer {S A} (m : eff StateUpdateWriter A) : eff (OffchainTunnel S) A :=
  fun t => let (w, r) := m (writer t) in (set_writer w t, r).

Section WithCrypto.
Context `{C : Crypto}.

Section Engine.
Context {State Move : Type} (P : Protocol State Move).

(** [src core/tunnel.ts OffchainTunnel.constructor] *)
Definition newOffchainTunnel (tid : string) (pA pB : PartyEndpoint) (initial : Balances)
    (observed : bool) : result (OffchainTunnel State) :=
  let tot := bal_a initial + bal_b initial in
  let! s := initialState P {| ctx_tunnelId := tid; initialBalances := initial |} in
  let b := balances P s in
  throw_if negb (bal_a b + bal_b b =? tot) with Error "protocol initial balances" ;
  let! w := newStateUpdateWriter tid 32 in
  Ok {| t_tunnelId := tid; partyA := pA; partyB := pB; t_total := tot;
        _state := s; _nonce := 0; _latest := None; writer := w;
        onUpdate := observed; updates := [] |}.

(** [src core/tunnel.ts OffchainTunnel.selfPlay] *)
Definition selfPlay (tid : string) (keyA keyB : KeyPair) (addrA addrB : string)
    (initial : Balances) (backend : CryptoBackend) (observed : bool)
  : result (OffchainTunnel State) :=
  newOffchainTunnel tid
    (makeEndpoint backend addrA (publicKey keyA) (scheme keyA) (Some (secretKey keyA)) true)
    (makeEndpoint backend addrB (publicKey keyB) (scheme keyB) (Some (secretKey keyB)) true)
    initial observed.

Definition sign_or_empty (e : PartyEndpoint) (msg : bytes) : bytes :=
  match ep_sign e with Some f => f msg | None => [] end.

(** [src core/tunnel.ts OffchainTunnel.step] *)
Definition step (move : Move) (by_ : Party) (ts : Z) (mode : SignMode)
  : eff (OffchainTunnel State) StepResult :=
  do! t <- eget;
  do! next <- elift (applyMove P (_state t) move by_);
  let a := bal_a (balances P next) in
  let b := bal_b (balances P next) in
  if negb (a + b =? t_total t) then ethrow (Error "balance sum != locked total") else
  let n := _nonce t + 1 in
  do! enc <- elift (encodeState P next);
  let h := blake2b256 enc in
  let upd := {| tunnelId := t_tunnelId t; stateHash := h; nonce := n; timestamp := ts;
                partyABalance := a; partyBBalance := b |} in
  do! r <- match mode with
           | NoSign => do! msg <- elift (serializeStateUpdate upd); eret (None, false, length msg)
           | _ =>
               do! msg <- with_writer (write h n ts a b);
               let sA := sign_or_empty (partyA t) msg in
               let sB := sign_or_empty (partyB t) msg in
               let v := match mode with
                        | Full => ep_verify (partyA t) msg sA && ep_verify (partyB t) msg sB
                        | _ => false
                        end in
               if match mode with Full => negb v | _ => false end
               then ethrow (Error "self co-signed update failed verification (bug)")
               else
                 let sgn := {| update := upd; sigA := sA; sigB := sB |} in
                 do! _ <- emodify (set_latest sgn);
                 eret (Some sgn, v, length msg)
           end;
  let '(sgn, v, mb) := r in
  do! _ <- emodify (set_state next n);
  do! _ <- emodify (notify sgn mb);
  eret {| res_nonce := n; signed := sgn; verified := v; messageBytes := mb |}.

(** [src core/tunnel.ts OffchainTunnel.buildSettlement] *)
Definition buildSettlement (t : OffchainTunnel State) (ts onchainNonce : Z)
  : result CoSignedSettlement :=
  match ep_sign (partyA t), ep_sign (partyB t) with
  | Some signA, Some signB =>
      let b := balances P (_state t) in
      let s := {| s_tunnelId := t_tunnelId t; s_partyABalance := bal_a b;
                  s_partyBBalance := bal_b b; s_finalNonce := onchainNonce + 1;
                  s_timestamp := ts |} in
      let! msg := serializeSettlement s in
      Ok {| cs_settlement := s; cs_sigA := signA msg; cs_sigB := signB msg |}
  | _, _ => Throw (Error "buildSettlement requires both signers (self-play)")
  end.

(** [src core/tunnel.ts OffchainTunnel.buildSettlementWithRoot] *)
Definition buildSettlementWithRoot (t : OffchainTunnel State) (ts : Z) (root : bytes)
    (onchainNonce : Z) : result CoSignedSettlementWithRoot :=
  match ep_sign (partyA t), ep_sign (partyB t) with
  | Some signA, Some signB =>
      throw_if negb (length root =? 32)%nat with Error "transcriptRoot must be 32 bytes" ;
      let b := balances P (_state t) in
      let s := {| r_settlement :=
                    {| s_tunnelId := t_tunnelId t; s_partyABalance := bal_a b;
                       s_partyBBalance := bal_b b; s_finalNonce := onchainNonce + 1;
                       s_timestamp := ts |};
                  r_transcriptRoot := root |} in
      let! msg := serializeSettlementWithRoot s in
      Ok {| csr_settlement := s; csr_sigA := signA msg; csr_sigB := signB msg |}
  | _, _ => Throw (Error "buildSettlementWithRoot requires both signers (self-play)")
  end.

End Engine.

(** [src core/tunnel.ts verifyCoSignedUpdate] *)
Definition verifyCoSignedUpdate (u : CoSignedUpdate) (pkA : bytes) (schemeA : Z)
    (pkB : bytes) (schemeB : Z) : result bool :=
  throw_if negb (schemeA =? SCHEME_ED25519) || negb (schemeB =? SCHEME_ED25519)
    with Error "verifyCoSignedUpdate currently supports ed25519 only" ;
  let! msg := serializeStateUpdate (update u) in
  Ok (verify (sigA u) msg pkA && verify (sigB u) msg pkB).

(** What a backend promises: the bytes of the reference signer, and the
    verdict of the reference verifier ([crypto-native.ts]: "byte-identical to
    @noble"). *)
Class BackendLaws (bk : CryptoBackend) : Prop := {
  backend_sign : forall sk m, makeSigner bk sk m = sign m sk;
  backend_verify : forall pk m s, makeVerifier bk pk m s = verify s m pk
}.

#[export] Instance noble_backend_laws : BackendLaws nobleBackend.
Proof. split; done. Qed.

(** An endpoint this process controls, made from a 32-byte secret. *)
Definition own_endpoint (bk : CryptoBackend) (e : PartyEndpoint) : Prop :=
  exists addr sk, length sk = 32%nat /\
    e = makeEndpoint bk addr (ed25519_getPublicKey sk) SCHEME_ED25519 (Some sk) true.

Lemma own_endpoint_signs `{!CryptoLaws C} bk `{!BackendLaws bk} e m :
  own_endpoint bk e ->
  exists f, ep_sign e = Some f /\ ep_scheme e = SCHEME_ED25519 /\
    verify (f m) m (ep_publicKey e) = true /\ ep_verify e m (f m) = true.
Proof.
  intros (addr & sk & Hl & ->). simpl. eexists; split_and!; [done..| |].
  - rewrite backend_sign. by apply verify_own_signature.
  - rewrite backend_sign, backend_verify. by apply verify_own_signature.
Qed.

Section SelfPlay.
Context `{!CryptoLaws C} (bk : CryptoBackend) `{!BackendLaws bk}.
Context {State Move : Type} (P : Protocol State Move).
Context (inv : Z -> State -> Prop) (ctx_ok : ProtocolContext -> Prop).
Context `{!ProtocolLaws P inv ctx_ok}.

(** The update as both parties of this tunnel sign it. *)
Definition signed_update (t : OffchainTunnel State) (u : StateUpdate) (msg : bytes) : CoSignedUpdate :=
  {| update := u; sigA := sign_or_empty (partyA t) msg; sigB := sign_or_empty (partyB t) msg |}.

(** A co-signed update anyone can check, of this tunnel, that conserves the total. *)
Definition update_ok (t : OffchainTunnel State) (u : CoSignedUpdate) : Prop :=
  verifyCoSignedUpdate u (ep_publicKey (partyA t)) (ep_scheme (partyA t))
    (ep_publicKey (partyB t)) (ep_scheme (partyB t)) = Ok true /\
  tunnelId (update u) = t_tunnelId t /\
  partyABalance (update u) + partyBBalance (update u) = t_total t /\
  length (stateHash (update u)) = 32%nat /\
  exists msg, serializeStateUpdate (update u) = Ok msg /\ u = signed_update t (update u) msg.

Record tunnel_ok (t : OffchainTunnel State) : Prop := {
  ok_A : own_endpoint bk (partyA t);
  ok_B : own_endpoint bk (partyB t);
  ok_id : exists id, addressToBytes32 (t_tunnelId t) = Ok id /\ writer_ok id 32 (writer t);
  ok_state : inv (t_total t) (_state t);
  ok_total : t_total t <= U64_MAX;
  ok_nonce : 0 <= _nonce t;
  ok_latest : forall u, _latest t = Some u ->
    update_ok t u /\ nonce (update u) <= _nonce t /\
    (onUpdate t = true -> exists mb us, updates t = us ++ [(u, mb)]);
  ok_updates : Forall (fun um => update_ok t (fst um) /\ nonce (update (fst um)) <= _nonce t) (updates t);
  ok_sorted : StronglySorted Z.lt (map (fun um => nonce (update (fst um))) (updates t))
}.

(** The update the next step signs. *)
Definition next_update (t : OffchainTunnel State) (next : State) (enc : bytes) (ts : Z) : StateUpdate :=
  {| tunnelId := t_tunnelId t; stateHash := blake2b256 enc; nonce := _nonce t + 1;
     timestamp := ts; partyABalance := bal_a (balances P next);
     partyBBalance := bal_b (balances P next) |}.

Lemma inv_u64 tot s :
  inv tot s -> tot <= U64_MAX ->
  u64_range (bal_a (balances P s)) /\ u64_range (bal_b (balances P s)).
Proof.
  intros Hs Ht. destruct (laws_balances tot s Hs) as (? & ? & Hsum). unfold sum_of in Hsum.
  unfold u64_range. lia.
Qed.

Lemma signed_update_verifies t u msg :
  tunnel_ok t -> serializeStateUpdate u = Ok msg ->
  verifyCoSignedUpdate (signed_update t u msg) (ep_publicKey (partyA t)) (ep_scheme (partyA t))
    (ep_publicKey (partyB t)) (ep_scheme (partyB t)) = Ok true /\
  ep_verify (partyA t) msg (sign_or_empty (partyA t) msg) = true /\
  ep_verify (partyB t) msg (sign_or_empty (partyB t) msg) = true.
Proof.
  intros [HA HB _ _ _ _ _ _ _] Hm.
  destruct (own_endpoint_signs bk _ msg HA) as (fA & EA & SA & VA & VA').
  destruct (own_endpoint_signs bk _ msg HB) as (fB & EB & SB & VB & VB').
  unfold verifyCoSignedUpdate, signed_update, sign_or_empty. simpl.
  rewrite SA, SB, EA, EB, Hm. simpl. by rewrite VA, VB.
Qed.

(** Every branch of [step] on a well-formed tunnel. *)
Lemma step_cases t m p ts mode :
  tunnel_ok t ->
  (exists e w, step P m p ts mode t = (set_writer w t, Throw e) /\
     (forall id, addressToBytes32 (t_tunnelId t) = Ok id -> writer_ok id 32 w) /\
     (applyMove P (_state t) m p = Throw e \/
      exists next, applyMove P (_state t) m p = Ok next /\
        (encodeState P next = Throw e \/
         exists enc, encodeState P next = Ok enc /\
           ~ (u64_range (_nonce t + 1) /\ u64_range ts)))) \/
  (exists next enc msg w, applyMove P (_state t) m p = Ok next /\ encodeState P next = Ok enc /\
     u64_range (_nonce t + 1) /\ u64_range ts /\
     serializeStateUpdate (next_update t next enc ts) = Ok msg /\
     (forall id, addressToBytes32 (t_tunnelId t) = Ok id -> writer_ok id 32 w) /\
     step P m p ts mode t =
       let su := signed_update t (next_update t next enc ts) msg in
       match mode with
       | NoSign =>
           (set_state next (_nonce t + 1) (set_writer w t),
            Ok {| res_nonce := _nonce t + 1; signed := None; verified := false;
                  messageBytes := STATE_UPDATE_LEN |})
       | _ =>
           (notify (Some su) STATE_UPDATE_LEN
              (set_state next (_nonce t + 1) (set_latest su (set_writer w t))),
            Ok {| res_nonce := _nonce t + 1; signed := Some su;
                  verified := match mode with Full => true | _ => false end;
                  messageBytes := STATE_UPDATE_LEN |})
       end).
Proof.
  intros Hok. pose proof Hok as [HA HB (id & Hid & Hw) Hst Htot Hn _ _ _].
  assert (forall w', writer_ok id 32 w' ->
    forall id', addressToBytes32 (t_tunnelId t) = Ok id' -> writer_ok id' 32 w') as Hwid
    by (intros w' ? id' E; rewrite Hid in E; inv_ok; done).
  assert (set_writer (writer t) t = t) as Hself by (by destruct t).
  remember (step P m p ts mode t) as r eqn:Er.
  unfold step, ebind at 1, eget, ebind at 1, elift at 1 in Er.
  destruct (applyMove P (_state t) m p) as [next|e] eqn:E1.
  2:{ left. exists e, (writer t). rewrite Hself. subst r. eauto 10. }
  pose proof (laws_step _ _ _ _ _ Hst E1) as Hnext.
  destruct (laws_balances _ _ Hnext) as (_ & _ & Hsum). unfold sum_of in Hsum.
  destruct (inv_u64 _ _ Hnext Htot) as [Hra Hrb].
  rewrite (proj2 (Z.eqb_eq _ _) Hsum) in Er. cbn [negb] in Er. cbv zeta in Er.
  unfold ebind at 1, elift at 1 in Er.
  destruct (encodeState P next) as [enc|e] eqn:E2.
  2:{ left. exists e, (writer t). rewrite Hself. split_and!; [by subst r|by eauto|]. right. eauto. }
  assert (length (blake2b256 enc) = 32%nat) as Hh by apply blake2b_length.
  set (u := next_update t next enc ts).
  fold (next_update t next enc ts) in Er. fold u in Er.
  destruct (write_spec _ id (writer t) (blake2b256 enc) (_nonce t + 1) ts
    (bal_a (balances P next)) (bal_b (balances P next)) Hid Hw Hh) as (w' & Hw' & Ew).
  fold (next_update t next enc ts) in Ew. fold u in Ew.
  destruct (decide (u64_range (_nonce t + 1) /\ u64_range ts)) as [[Hrn Hrt]|Hbad].
  - right. destruct (serializeStateUpdate u) as [msg|] eqn:Hser;
      [|by rewrite (serializeStateUpdate_total u id Hid Hrn Hrt Hra Hrb) in Hser].
    pose proof (length_serializeStateUpdate _ _ Hser Hh) as Hlen.
    destruct (signed_update_verifies t u msg Hok Hser) as (_ & VA & VB).
    exists next, enc, msg, (match mode with NoSign => writer t | _ => w' end).
    split_and!; [done..|destruct mode; by eauto|].
    fold u. rewrite Er.
    destruct mode; unfold ebind, elift, with_writer, eret; rewrite ?Ew, ?Hser;
      cbn [partyA partyB]; rewrite ?VA, ?VB, ?Hlen, ?Hself; reflexivity.
  - left. pose proof (serializeStateUpdate_overflow u id Hid ltac:(simpl; tauto)) as Hser.
    rewrite Hser in Ew.
    exists u64_overflow, (match mode with NoSign => writer t | _ => w' end).
    split_and!; [|destruct mode; by eauto|right; eexists; split; [done|right; by eauto]].
    rewrite Er. destruct mode; unfold ebind, elift, with_writer; rewrite ?Ew, ?Hser, ?Hself; done.
Qed.

Lemma tunnel_ok_writer t w :
  tunnel_ok t -> (forall id, addressToBytes32 (t_tunnelId t) = Ok id -> writer_ok id 32 w) ->
  tunnel_ok (set_writer w t).
Proof.
  intros [HA HB (id & Hid & Hw) Hst Htot Hn Hl Hu Hs] Hw'. split; simpl; eauto.
Qed.

Lemma tunnel_ok_advance t next :
  tunnel_ok t -> inv (t_total t) next -> tunnel_ok (set_state next (_nonce t + 1) t).
Proof.
  intros [HA HB Hid Hst Htot Hn Hl Hu Hs] Hnext. split; simpl; eauto with lia.
  - intros u Hu'. destruct (Hl u Hu') as (? & ? & ?). split_and!; [done|lia|done].
  - eapply Forall_impl; [exact Hu|]. intros um [? ?]. split; [done|lia].
Qed.

Lemma StronglySorted_snoc l x :
  StronglySorted Z.lt l -> Forall (fun y => y < x) l -> StronglySorted Z.lt (l ++ [x]).
Proof.
  induction 1 as [|y l Hl IH Hy]; intros Hx; simpl; [repeat constructor|].
  inversion Hx; subst. constructor; [by apply IH|]. apply Forall_app. eauto.
Qed.

Lemma tunnel_ok_signed t next u mb :
  tunnel_ok t -> inv (t_total t) next -> update_ok t u -> nonce (update u) = _nonce t + 1 ->
  tunnel_ok (notify (Some u) mb (set_state next (_nonce t + 1) (set_latest u t))).
Proof.
  intros [HA HB Hid Hst Htot Hn Hl Hu Hs] Hnext Hok Hnn.
  assert (Forall (fun um => update_ok t (fst um) /\ nonce (update (fst um)) <= _nonce t + 1)
    (updates t)) as Hu'
    by (eapply Forall_impl; [exact Hu|]; intros um [? ?]; split; [done|lia]).
  unfold notify, set_state, set_latest. simpl. destruct (onUpdate t) eqn:Eo; split; simpl; eauto with lia.
  - intros u0 [= <-]. split_and!; [done|lia|eauto].
  - apply Forall_app. split; [done|]. constructor; [|done]. simpl. split; [done|lia].
  - rewrite map_app. apply StronglySorted_snoc; [done|]. apply Forall_map.
    eapply Forall_impl; [exact Hu|]. intros um [_ ?]. simpl. lia.
  - intros u0 [= <-]. split_and!; [done|lia|congruence].
Qed.

Lemma step_preserves t m p ts mode :
  tunnel_ok t -> tunnel_ok (fst (step P m p ts mode t)).
Proof.
  intros Hok.
  destruct (step_cases t m p ts mode Hok) as
    [(e & w & -> & Hw & _)|(next & enc & msg & w & E1 & E2 & _ & _ & Hser & Hw & ->)].
  { simpl. by apply tunnel_ok_writer. }
  pose proof (laws_step _ _ _ _ _ (ok_state _ Hok) E1) as Hnext.
  pose proof (tunnel_ok_writer t w Hok Hw) as Hok'.
  destruct (signed_update_verifies t _ msg Hok Hser) as (Hv & _).
  assert (update_ok t (signed_update t (next_update t next enc ts) msg)) as Hup.
  { split_and!; [done|done| |apply blake2b_length|].
    - simpl. apply (laws_balances _ _ Hnext).
    - exists msg. done. }
  destruct mode; cbv zeta; cbn [fst];
    solve [by apply (tunnel_ok_signed (set_writer w t))|by apply (tunnel_ok_advance (set_writer w t))].
Qed.

Lemma selfPlay_ok tid skA skB kA kB addrA addrB initial obs t :
  keyPairFromSecret skA = Ok kA -> keyPairFromSecret skB = Ok kB ->
  ctx_ok {| ctx_tunnelId := tid; initialBalances := initial |} -> lockable initial ->
  selfPlay P tid kA kB addrA addrB initial bk obs = Ok t ->
  tunnel_ok t /\ t_total t = sum_of initial /\ t_tunnelId t = tid /\
  _nonce t = 0 /\ updates t = [] /\ onUpdate t = obs.
Proof.
  unfold keyPairFromSecret, selfPlay, newOffchainTunnel. intros HA HB Hctx Hlock H. inv_ok. bool_to_prop.
  destruct (laws_initial {| ctx_tunnelId := tid; initialBalances := initial |} _ Hctx Hlock E) as [Hinv _].
  assert (exists id, addressToBytes32 tid = Ok id) as [id Hid].
  { unfold newStateUpdateWriter in E1. inv_ok. eauto. }
  destruct (new_writer_ok tid 32 id Hid) as (w' & Ew & Hw). rewrite Ew in E1. inv_ok.
  split; [|done]. split; simpl.
  - eexists _, _. split; [exact E3|reflexivity].
  - eexists _, _. split; [exact E2|reflexivity].
  - eauto.
  - exact Hinv.
  - apply Hlock.
  - lia.
  - discriminate.
  - constructor.
  - constructor.
Qed.

(** Attempted steps, one after the other; a step that throws leaves its effects. *)
Definition attempts (t : OffchainTunnel State) (ms : list (Move * Party * Z * SignMode))
  : OffchainTunnel State :=
  fold_left (fun t '(m, p, ts, mode) => fst (step P m p ts mode t)) ms t.

Lemma notify_frame {S} u mb (t : OffchainTunnel S) :
  let t' := notify u mb t in
  t_tunnelId t' = t_tunnelId t /\ t_total t' = t_total t /\ onUpdate t' = onUpdate t /\
  partyA t' = partyA t /\ partyB t' = partyB t /\ _state t' = _state t /\ _nonce t' = _nonce t /\
  _latest t' = _latest t.
Proof. unfold notify. destruct u; [destruct (onUpdate t) eqn:E|]; simpl; rewrite ?E; done. Qed.

Lemma step_frame t m p ts mode :
  tunnel_ok t ->
  let t' := fst (step P m p ts mode t) in
  t_tunnelId t' = t_tunnelId t /\ t_total t' = t_total t /\ onUpdate t' = onUpdate t /\
  partyA t' = partyA t /\ partyB t' = partyB t.
Proof.
  intros Hok. cbv zeta.
  destruct (step_cases t m p ts mode Hok) as
    [(e & w & -> & Hw & _)|(next & enc & msg & w & _ & _ & _ & _ & _ & _ & ->)]; [done|].
  cbv zeta. destruct mode; cbn [fst]; [| |done];
    match goal with |- context [notify ?u ?mb ?t0] =>
      destruct (notify_frame u mb t0) as (-> & -> & -> & -> & -> & _) end; done.
Qed.

Lemma attempts_ok ms t :
  tunnel_ok t -> tunnel_ok (attempts t ms) /\
  t_tunnelId (attempts t ms) = t_tunnelId t /\ t_total (attempts t ms) = t_total t /\
  onUpdate (attempts t ms) = onUpdate t /\
  partyA (attempts t ms) = partyA t /\ partyB (attempts t ms) = partyB t.
Proof.
  revert t; induction ms as [|[[[m p] ts] mode] ms IH]; intros t Hok; [done|].
  simpl. destruct (step_frame t m p ts mode Hok) as (E1 & E2 & E3 & E4 & E5).
  rewrite <- E1, <- E2, <- E3, <- E4, <- E5. apply IH. by apply step_preserves.
Qed.

(** C8: whatever sequence of steps is attempted on a self-play tunnel, in any
    signing mode and with any of them refused, every update handed to the
    observer is of this tunnel, verifies under both parties' keys and conserves
    the locked total; their nonces increase strictly up to the tunnel's; the
    latest co-signed update is the last of them; and the current balances are
    non-negative and sum to the locked total. *)
Theorem tunnel_history tid skA skB kA kB addrA addrB initial t ms :
  keyPairFromSecret skA = Ok kA -> keyPairFromSecret skB = Ok kB ->
  ctx_ok {| ctx_tunnelId := tid; initialBalances := initial |} -> lockable initial ->
  selfPlay P tid kA kB addrA addrB initial bk true = Ok t ->
  let t' := attempts t ms in
  Forall (fun '(u, mb) =>
    verifyCoSignedUpdate u (publicKey kA) (scheme kA) (publicKey kB) (scheme kB) = Ok true /\
    tunnelId (update u) = tid /\
    partyABalance (update u) + partyBBalance (update u) = sum_of initial /\
    nonce (update u) <= _nonce t') (updates t') /\
  StronglySorted Z.lt (map (fun um => nonce (update (fst um))) (updates t')) /\
  (forall u, _latest t' = Some u -> exists us mb, updates t' = us ++ [(u, mb)]) /\
  0 <= bal_a (balances P (_state t')) /\ 0 <= bal_b (balances P (_state t')) /\
  sum_of (balances P (_state t')) = sum_of initial.
Proof.
  intros HkA HkB Hctx Hlock Hsp. cbv zeta.
  destruct (selfPlay_ok _ _ _ _ _ _ _ _ _ _ HkA HkB Hctx Hlock Hsp) as (Hok & Htot & Htid & _ & _ & Hobs).
  destruct (attempts_ok ms t Hok) as (Hok' & Etid & Etot & Eobs & EA & EB).
  assert (ep_publicKey (partyA t) = publicKey kA /\ ep_scheme (partyA t) = scheme kA /\
          ep_publicKey (partyB t) = publicKey kB /\ ep_scheme (partyB t) = scheme kB) as (PA & SA & PB & SB).
  { unfold selfPlay, newOffchainTunnel in Hsp. inv_ok. done. }
  split_and!.
  - eapply Forall_impl; [apply (ok_updates _ Hok')|]. intros [u mb] [(Hv & Hid & Hs & _) Hn].
    cbn [fst] in *. rewrite EA, EB, PA, PB, SA, SB in Hv. split_and!; [done|congruence..|done].
  - apply (ok_sorted _ Hok').
  - intros u Hu. destruct (ok_latest _ Hok' u Hu) as (_ & _ & Hlast).
    destruct Hlast as (mb & us & E); [congruence|eauto].
  - apply (laws_balances _ _ (ok_state _ Hok')).
  - apply (laws_balances _ _ (ok_state _ Hok')).
  - rewrite <- Htot, <- Etot. apply (laws_balances _ _ (ok_state _ Hok')).
Qed.

(** A full step is atomic and refuses nothing it should accept: on a
    tunnel reached by any attempts it succeeds exactly when the protocol accepts
    the move, the new state can be encoded, and nonce and timestamp are u64s;
    then the state is the protocol's next state, the nonce grew by one, and the
    stored update carries the hash of the encoded state; when it throws, state,
    nonce, latest update and observer log are as before. *)
Theorem tunnel_step_atomic tid skA skB kA kB addrA addrB initial obs t0 ms m p ts :
  keyPairFromSecret skA = Ok kA -> keyPairFromSecret skB = Ok kB ->
  ctx_ok {| ctx_tunnelId := tid; initialBalances := initial |} -> lockable initial ->
  selfPlay P tid kA kB addrA addrB initial bk obs = Ok t0 ->
  let t := attempts t0 ms in
  let t' := fst (step P m p ts Full t) in
  (is_ok (snd (step P m p ts Full t)) = true <->
     (exists next, applyMove P (_state t) m p = Ok next /\ is_ok (encodeState P next) = true) /\
     _nonce t < U64_MAX /\ u64_range ts) /\
  match snd (step P m p ts Full t) with
  | Ok r =>
      applyMove P (_state t) m p = Ok (_state t') /\ _nonce t' = _nonce t + 1 /\
      verified r = true /\ _latest t' = signed r /\
      exists enc u, encodeState P (_state t') = Ok enc /\ _latest t' = Some u /\
        stateHash (update u) = blake2b256 enc /\ nonce (update u) = _nonce t' /\
        partyABalance (update u) = bal_a (balances P (_state t')) /\
        partyBBalance (update u) = bal_b (balances P (_state t'))
  | Throw _ =>
      _state t' = _state t /\ _nonce t' = _nonce t /\ _latest t' = _latest t /\
      updates t' = updates t
  end.
Proof.
  intros HkA HkB Hctx Hlock Hsp. cbv zeta.
  destruct (selfPlay_ok _ _ _ _ _ _ _ _ _ _ HkA HkB Hctx Hlock Hsp) as (Hok0 & _).
  destruct (attempts_ok ms t0 Hok0) as (Hok & _). set (t := attempts t0 ms) in *.
  pose proof (ok_nonce _ Hok) as Hn.
  destruct (step_cases t m p ts Full Hok) as
    [(e & w & -> & _ & Hwhy)|(next & enc & msg & w & E1 & E2 & [_ R1] & R2 & _ & _ & ->)].
  - cbn [fst snd is_ok]. split; [|done]. split; [discriminate|].
    intros ((nx & E1 & (enc & E2)%is_ok_exists) & Hmax & Hts). exfalso.
    destruct Hwhy as [E|(nx' & E & [E'|(enc' & E' & Hbad)])]; try congruence.
    apply Hbad. split; [unfold u64_range; lia|done].
  - cbv zeta. cbn [fst snd is_ok].
    match goal with |- context [notify ?u ?mb ?tt] =>
      destruct (notify_frame u mb tt) as (_ & _ & _ & _ & _ & -> & -> & ->) end.
    cbn [_state _nonce _latest set_state set_latest verified signed]. split.
    + split; [intros _|done]. split_and!; [|lia|apply R2..].
      exists next. by rewrite E1, E2.
    + split_and!; try done. exists enc. eexists. split_and!; done.
Qed.

(** The cooperative settlement of a self-play tunnel pays out the current
    balances, whole: it exists exactly when the final nonce and the timestamp
    are u64s, carries the protocol's balances (which sum to the locked total)
    and [onchainNonce + 1], and both signatures verify over its bytes. *)
Theorem tunnel_settlement tid skA skB kA kB addrA addrB initial obs t0 ms ts onchain :
  keyPairFromSecret skA = Ok kA -> keyPairFromSecret skB = Ok kB ->
  ctx_ok {| ctx_tunnelId := tid; initialBalances := initial |} -> lockable initial ->
  selfPlay P tid kA kB addrA addrB initial bk obs = Ok t0 ->
  let t := attempts t0 ms in
  match buildSettlement P t ts onchain with
  | Ok cs =>
      u64_range (onchain + 1) /\ u64_range ts /\
      cs_settlement cs =
        {| s_tunnelId := tid; s_partyABalance := bal_a (balances P (_state t));
           s_partyBBalance := bal_b (balances P (_state t));
           s_finalNonce := onchain + 1; s_timestamp := ts |} /\
      s_partyABalance (cs_settlement cs) + s_partyBBalance (cs_settlement cs) = sum_of initial /\
      exists msg, serializeSettlement (cs_settlement cs) = Ok msg /\
        verify (cs_sigA cs) msg (publicKey kA) = true /\
        verify (cs_sigB cs) msg (publicKey kB) = true
  | Throw _ => ~ (u64_range (onchain + 1) /\ u64_range ts)
  end.
Proof.
  intros HkA HkB Hctx Hlock Hsp. cbv zeta.
  destruct (selfPlay_ok _ _ _ _ _ _ _ _ _ _ HkA HkB Hctx Hlock Hsp) as (Hok0 & Htot & Htid & _).
  assert (ep_publicKey (partyA t0) = publicKey kA /\ ep_publicKey (partyB t0) = publicKey kB) as (PA & PB).
  { unfold selfPlay, newOffchainTunnel in Hsp. inv_ok. done. }
  destruct (attempts_ok ms t0 Hok0) as (Hok & Etid & Etot & _ & EA & EB).
  set (t := attempts t0 ms) in *. rewrite <- EA in PA. rewrite <- EB in PB.
  destruct (laws_balances _ _ (ok_state _ Hok)) as (_ & _ & Hsum). unfold sum_of at 1 in Hsum.
  destruct (inv_u64 _ _ (ok_state _ Hok) (ok_total _ Hok)) as [Ra Rb].
  destruct (ok_id _ Hok) as (id & Hid & _).
  destruct (own_endpoint_signs bk _ [] (ok_A _ Hok)) as (fA & SA & _).
  destruct (own_endpoint_signs bk _ [] (ok_B _ Hok)) as (fB & SB & _).
  unfold buildSettlement. rewrite SA, SB.
  destruct (serializeSettlement _) as [msg|e] eqn:Hser; cbn [rbind].
  - pose proof Hser as Hser'. unfold serializeSettlement in Hser'. inv_ok.
    cbn [s_finalNonce s_timestamp] in *.
    apply u64ToBeBytes_ok in E2 as [Rn _]. apply u64ToBeBytes_ok in E3 as [Rt _].
    cbn [cs_settlement s_partyABalance s_partyBBalance cs_sigA cs_sigB].
    split_and!; [done..|congruence|congruence|].
    exists msg. rewrite <- PA, <- PB.
    destruct (own_endpoint_signs bk _ msg (ok_A _ Hok)) as (fA' & SA' & _ & VA & _).
    destruct (own_endpoint_signs bk _ msg (ok_B _ Hok)) as (fB' & SB' & _ & VB & _).
    replace fA with fA' by congruence. replace fB with fB' by congruence. done.
  - intros [Rn Rt]. unfold serializeSettlement in Hser. cbn [s_tunnelId s_partyABalance s_partyBBalance s_finalNonce s_timestamp] in Hser.
    rewrite Hid, !u64ToBeBytes_total in Hser by done. cbn [rbind] in Hser.
    by rewrite concatBytes_concat in Hser.
Qed.

End SelfPlay.
End WithCrypto.

(* The theorems on the in-memory engine, applied to a payments tunnel between
    two concrete key pairs. *)
From S2P Require Import Payments.

Definition skA : bytes := replicate 32 3.
Definition skB : bytes := replicate 32 4.
Definition kA : KeyPair := {| secretKey := skA; publicKey := skA; scheme := 0 |}.
Definition kB : KeyPair := {| secretKey := skB; publicKey := skB; scheme := 0 |}.
Definition deposits : Balances := {| bal_a := 100; bal_b := 50 |}.

Definition opened : result (OffchainTunnel PaymentsState) :=
  selfPlay PaymentsProtocol "0xA1" kA kB "0xA" "0xB" deposits nobleBackend true.

Definition pay (p : Party) (n : Z) : PaymentMove := {| from := p; amount := n |}.

(** A payment, an overdraft that is refused, and a payment back. *)
Definition script : list (PaymentMove * Party * Z * SignMode) :=
  [(pay PartyA 30, PartyA, 5, Full); (pay PartyB 500, PartyB, 6, Full); (pay PartyB 5, PartyB, 7, SignOnly)].

Lemma script_facts :
  match opened with
  | Ok t0 =>
      let t := attempts PaymentsProtocol t0 script in
      (length (updates t) =? 2)%nat && (_nonce t =? 2) &&
      is_ok (snd (step PaymentsProtocol (pay PartyA 1) PartyA 9 Full t)) &&
      negb (is_ok (snd (step PaymentsProtocol (pay PartyA 76) PartyA 9 Full t))) &&
      is_ok (buildSettlement PaymentsProtocol t 11 0)
  | Throw _ => false
  end = true.
Proof. vm_compute. reflexivity. Qed.

Lemma deposits_lockable : lockable deposits.
Proof. unfold lockable, sum_of. simpl. rewrite U64_MAX_eq. lia. Qed.

Lemma tunnel_history_witness :
  exists t, opened = Ok t /\ length (updates (attempts PaymentsProtocol t script)) = 2%nat /\
    sum_of (Protocol.balances PaymentsProtocol (_state (attempts PaymentsProtocol t script))) = 150.
Proof.
  pose proof script_facts as F.
  destruct opened as [t|] eqn:E; [|discriminate F]. cbv zeta in F.
  exists t. split; [reflexivity|]. bool_to_prop. split; [assumption|].
  exact (proj2 (proj2 (proj2 (proj2 (proj2
    (tunnel_history nobleBackend PaymentsProtocol inv (fun _ => True) "0xA1" skA skB kA kB
      "0xA" "0xB" deposits t script eq_refl eq_refl I deposits_lockable E)))))).
Defined.

Lemma tunnel_step_atomic_witness :
  exists t, opened = Ok t /\
    let t1 := attempts PaymentsProtocol t script in
    _nonce (fst (step PaymentsProtocol (pay PartyA 1) PartyA 9 Full t1)) = 3 /\
    _nonce (fst (step PaymentsProtocol (pay PartyA 76) PartyA 9 Full t1)) = 2.
Proof.
  pose proof script_facts as F.
  destruct opened as [t|] eqn:E; [|discriminate F]. cbv zeta in F.
  exists t. split; [reflexivity|]. cbv zeta. bool_to_prop.
  pose proof (tunnel_step_atomic nobleBackend PaymentsProtocol inv (fun _ => True) "0xA1" skA skB kA kB
      "0xA" "0xB" deposits true t script) as T.
  pose proof (proj2 (T (pay PartyA 1) PartyA 9 eq_refl eq_refl I deposits_lockable E)) as T1.
  pose proof (proj2 (T (pay PartyA 76) PartyA 9 eq_refl eq_refl I deposits_lockable E)) as T2.
  split.
  - destruct (snd (step PaymentsProtocol (pay PartyA 1) _ _ _ _)); [|discriminate].
    destruct T1 as (_ & -> & _). lia.
  - destruct (snd (step PaymentsProtocol (pay PartyA 76) _ _ _ _)); [discriminate|].
    destruct T2 as (_ & -> & _). lia.
Defined.

Lemma tunnel_settlement_witness :
  exists t cs, opened = Ok t /\
    buildSettlement PaymentsProtocol (attempts PaymentsProtocol t script) 11 0 = Ok cs /\
    s_partyABalance (cs_settlement cs) + s_partyBBalance (cs_settlement cs) = 150.
Proof.
  pose proof script_facts as F.
  destruct opened as [t|] eqn:E; [|discriminate F]. cbv zeta in F. bool_to_prop.
  pose proof (tunnel_settlement nobleBackend PaymentsProtocol inv (fun _ => True) "0xA1" skA skB kA kB
      "0xA" "0xB" deposits true t script 11 0 eq_refl eq_refl I deposits_lockable E) as T.
  cbv zeta in T.
  destruct (buildSettlement _ _ 11 0) as [cs|] eqn:B; [|discriminate].
  exists t, cs. split; [reflexivity|]. split; [exact B|].
  destruct T as (_ & _ & _ & T & _). exact T.
Defined.
