(* ===== verification/DistributedTunnel.v ===== *)
(** The two-seat engine: [sui-tunnel-ts/src/core/distributedTunnel.ts], with the
    frames of [distributedFrame.ts].

    The class is a record and its methods are [eff] handlers.  What a seat does
    to the outside is recorded in order in [effects]: the messages it signs, the
    frames it sends and the calls of its two hooks.  Frames are values here: the
    JSON envelope and the relay are outside this file; the move codec shows in
    [transmit], what the opponent decodes of a move this seat encodes. *)
From S2P Require Import Prelude.
From S2P Require Import Bytes.
From S2P Require Import Wire.
From S2P Require Import Crypto.
From S2P Require Import Protocol.
From S2P Require Import Tunnel.

(** The resume decision table: [sui-tunnel-ts/src/core/reconcile.ts]. *)

(** [src core/reconcile.ts ReconcileAction] *)
Inductive ReconcileAction := Adopt | Wait | RePropose | Noop | Settle.

#[export] Instance ReconcileAction_eq_dec : EqDecision ReconcileAction.
Proof. solve_decision. Defined.

(** [src core/reconcile.ts ResyncView] *)
Record ResyncView := {
  rv_nonce : Z;
  hasPending : bool;
  checkpoint : option CoSignedUpdate
}.

(** [src core/reconcile.ts decideReconcile] *)
Definition decideReconcile (self peer : ResyncView) : ReconcileAction :=
  if rv_nonce self <? rv_nonce peer then Adopt
  else if rv_nonce peer <? rv_nonce self then Wait
  else if match checkpoint self, checkpoint peer with
          | Some cs, Some cp =>
              negb (bytesEqual (stateHash (update cs)) (stateHash (update cp)))
          | _, _ => false
          end
  then Settle
  else if hasPending self then RePropose
  else Noop.

(** [src core/distributedFrame.ts MoveFrame] *)
Record MoveFrame (Move : Type) := {
  mf_nonce : Z;
  mf_by : Party;
  mf_move : Move;
  mf_timestamp : Z;
  mf_stateHash : bytes;
  mf_partyABalance : Z;
  mf_partyBBalance : Z;
  sigProposer : bytes
}.
Arguments mf_nonce {Move}.
Arguments mf_by {Move}.
Arguments mf_move {Move}.
Arguments mf_timestamp {Move}.
Arguments mf_stateHash {Move}.
Arguments mf_partyABalance {Move}.
Arguments mf_partyBBalance {Move}.
Arguments sigProposer {Move}.

(** [src core/distributedFrame.ts AckFrame] *)
Record AckFrame := { af_nonce : Z; sigResponder : bytes }.

(** [src core/distributedFrame.ts Frame] *)
Inductive Frame (Move : Type) :=
  | FMove (f : MoveFrame Move)
  | FAck (f : AckFrame).
Arguments FMove {Move}.
Arguments FAck {Move}.

(** [src core/distributedTunnel.ts PendingProposal] *)
Record PendingProposal (State Move : Type) := {
  p_next : State;
  p_update : StateUpdate;
  p_msg : bytes;
  p_sigSelf : bytes;
  p_move : Move;
  p_timestamp : Z
}.
Arguments p_next {State Move}.
Arguments p_update {State Move}.
Arguments p_msg {State Move}.
Arguments p_sigSelf {State Move}.
Arguments p_move {State Move}.
Arguments p_timestamp {State Move}.

(** What a seat does to its environment. *)
Inductive effect (Move : Type) :=
  | Signed (msg : bytes)
  | Sent (f : Frame Move)
  | OnConfirmed (u : CoSignedUpdate)
  | OnProposed.
Arguments Signed {Move}.
Arguments Sent {Move}.
Arguments OnConfirmed {Move}.
Arguments OnProposed {Move}.

(** [src core/distributedTunnel.ts:75-96 DistributedTunnel] *)
Record DistributedTunnel (State Move : Type) := {
  d_tunnelId : string;
  self : PartyEndpoint;
  opponent : PartyEndpoint;
  selfParty : Party;
  d_total : Z;
  d_state : State;
  d_nonce : Z;
  d_latest : option CoSignedUpdate;
  pending : option (PendingProposal State Move);
  effects : list (effect Move)
}.
Arguments d_tunnelId {State Move}.
Arguments self {State Move}.
Arguments opponent {State Move}.
Arguments selfParty {State Move}.
Arguments d_total {State Move}.
Arguments d_state {State Move}.
Arguments d_nonce {State Move}.
Arguments d_latest {State Move}.
Arguments pending {State Move}.
Arguments effects {State Move}.

Section WithCrypto.
Context `{C : Crypto}.
Context {State Move : Type} (P : Protocol State Move).

Notation seat := (DistributedTunnel State Move).

Definition with_confirmed (s : State) (n : Z) (u : CoSignedUpdate)
    (p : option (PendingProposal State Move)) (d : seat) : seat :=
  {| d_tunnelId := d_tunnelId d; self := self d; opponent := opponent d;
     selfParty := selfParty d; d_total := d_total d; d_state := s; d_nonce := n;
     d_latest := Some u; pending := p; effects := effects d |}.

Definition with_pending (p : option (PendingProposal State Move)) (d : seat) : seat :=
  {| d_tunnelId := d_tunnelId d; self := self d; opponent := opponent d;
     selfParty := selfParty d; d_total := d_total d; d_state := d_state d; d_nonce := d_nonce d;
     d_latest := d_latest d; pending := p; effects := effects d |}.

Definition emit (e : effect Move) (d : seat) : seat :=
  {| d_tunnelId := d_tunnelId d; self := self d; opponent := opponent d;
     selfParty := selfParty d; d_total := d_total d; d_state := d_state d; d_nonce := d_nonce d;
     d_latest := d_latest d; pending := pending d; effects := effects d ++ [e] |}.

(** [this.self.sign!(msg)]: the constructor has checked that the signer is there. *)
Definition sign_self (msg : bytes) : eff seat bytes :=
  do! d <- eget;
  match ep_sign (self d) with
  | None => ethrow (TypeError "this.self.sign is not a function")
  | Some f =>
      do! _ <- emodify (emit (Signed msg));
      eret (f msg)
  end.

(** [src core/distributedTunnel.ts DistributedTunnel.constructor]: [hasCodec]
    is whether the configuration carries a [moveCodec]. *)
Definition newDistributedTunnel (tid : string) (slf opp : PartyEndpoint) (party : Party)
    (hasCodec : bool) (initial : Balances) : result seat :=
  throw_if match ep_sign slf with None => true | Some _ => false end
    with Error "DistributedTunnel: self endpoint must carry a signer" ;
  throw_if movesCarrySecrets P && negb hasCodec
    with Error "DistributedTunnel: protocol has secret-bearing moves and requires an explicit moveCodec" ;
  let tot := bal_a initial + bal_b initial in
  let! s := initialState P {| ctx_tunnelId := tid; initialBalances := initial |} in
  let b := balances P s in
  throw_if negb (bal_a b + bal_b b =? tot) with Error "protocol initial balances" ;
  Ok {| d_tunnelId := tid; self := slf; opponent := opp; selfParty := party; d_total := tot;
        d_state := s; d_nonce := 0; d_latest := None; pending := None; effects := [] |}.

(** [src core/distributedTunnel.ts DistributedTunnel.displayState] *)
Definition displayState (d : seat) : State :=
  match pending d with
  | Some p => if d_nonce d <? nonce (p_update p) then p_next p else d_state d
  | None => d_state d
  end.

(** [src core/distributedTunnel.ts DistributedTunnel.selfIsA] *)
Definition selfIsA (d : seat) : bool := party_eqb (selfParty d) PartyA.

(** [src core/distributedTunnel.ts DistributedTunnel.coSign] *)
Definition coSign (d : seat) (u : StateUpdate) (sigSelf sigOther : bytes) : CoSignedUpdate :=
  if selfIsA d then {| update := u; sigA := sigSelf; sigB := sigOther |}
  else {| update := u; sigA := sigOther; sigB := sigSelf |}.

(** [src core/distributedTunnel.ts DistributedTunnel.pendingMoveFrame] *)
Definition pendingMoveFrame (d : seat) (p : PendingProposal State Move) : MoveFrame Move :=
  {| mf_nonce := nonce (p_update p);
     mf_by := selfParty d;
     mf_move := p_move p;
     mf_timestamp := p_timestamp p;
     mf_stateHash := stateHash (p_update p);
     mf_partyABalance := partyABalance (p_update p);
     mf_partyBBalance := partyBBalance (p_update p);
     sigProposer := p_sigSelf p |}.

(** [src core/distributedTunnel.ts DistributedTunnel.seatPending] *)
Definition seatPending (move : Move) (ts : Z) : eff seat unit :=
  do! d <- eget;
  match pending d with
  | Some _ => ethrow (Error "a proposal is already awaiting ACK")
  | None =>
      do! next <- elift (applyMove P (d_state d) move (selfParty d));
      let a := bal_a (balances P next) in
      let b := bal_b (balances P next) in
      if negb (a + b =? d_total d) then ethrow (Error "balance sum != locked total") else
      let n := d_nonce d + 1 in
      do! enc <- elift (encodeState P next);
      let upd := {| tunnelId := d_tunnelId d; stateHash := blake2b256 enc; nonce := n;
                    timestamp := ts; partyABalance := a; partyBBalance := b |} in
      do! msg <- elift (serializeStateUpdate upd);
      do! sigSelf <- sign_self msg;
      emodify (with_pending (Some {| p_next := next; p_update := upd; p_msg := msg;
        p_sigSelf := sigSelf; p_move := move; p_timestamp := ts |}))
  end.

(** [src core/distributedTunnel.ts DistributedTunnel.resendPending] *)
Definition resendPending : eff seat unit :=
  do! d <- eget;
  match pending d with
  | Some p => emodify (emit (Sent (FMove (pendingMoveFrame d p))))
  | None => eret tt
  end.

(** [src core/distributedTunnel.ts DistributedTunnel.propose] *)
Definition propose (move : Move) (ts : Z) : eff seat unit :=
  do! _ <- seatPending move ts;
  do! _ <- resendPending;
  emodify (emit OnProposed).

(** The rule of [onMove] and [adoptCheckpoint] on an overtaken proposal. *)
Definition keep_pending (p : option (PendingProposal State Move)) (n : Z)
  : option (PendingProposal State Move) :=
  match p with
  | Some pp => if nonce (p_update pp) <=? n then None else Some pp
  | None => None
  end.

(** [src core/distributedTunnel.ts DistributedTunnel.adoptCheckpoint] *)
Definition adoptCheckpoint (state : State) (coSigned : CoSignedUpdate) : eff seat unit :=
  do! d <- eget;
  let u := update coSigned in
  if negb (String.eqb (tunnelId u) (d_tunnelId d))
  then ethrow (Error "adoptCheckpoint: tunnelId mismatch") else
  if nonce u <? d_nonce d then eret tt else
  if negb (partyABalance u + partyBBalance u =? d_total d)
  then ethrow (Error "adoptCheckpoint: balance sum != locked total") else
  do! enc <- elift (encodeState P state);
  if negb (bytesEqual (blake2b256 enc) (stateHash u))
  then ethrow (Error "adoptCheckpoint: state hash mismatch") else
  let pA := if selfIsA d then self d else opponent d in
  let pB := if selfIsA d then opponent d else self d in
  do! ok <- elift (verifyCoSignedUpdate coSigned (ep_publicKey pA) (ep_scheme pA)
                     (ep_publicKey pB) (ep_scheme pB));
  if negb ok then ethrow (Error "adoptCheckpoint: co-signature verification failed") else
  emodify (with_confirmed state (nonce u) coSigned (keep_pending (pending d) (nonce u))).

(** [src core/distributedTunnel.ts DistributedTunnel.snapshot] *)
Definition snapshot (d : seat)
  : State * Z * option CoSignedUpdate * option (Move * Z) :=
  (d_state d, d_nonce d, d_latest d,
   option_map (fun p => (p_move p, p_timestamp p)) (pending d)).

(** [src core/distributedTunnel.ts DistributedTunnel.onMove] *)
Definition onMove (frame : MoveFrame Move) : eff seat unit :=
  do! d <- eget;
  if party_eqb (mf_by frame) (selfParty d)
  then ethrow (Error "received a MOVE attributed to self") else
  if mf_nonce frame <=? d_nonce d then
    match d_latest d, ep_sign (self d) with
    | Some l, Some _ =>
        if (mf_nonce frame =? d_nonce d) && (nonce (update l) =? mf_nonce frame) then
          do! msg <- elift (serializeStateUpdate (update l));
          do! sg <- sign_self msg;
          emodify (emit (Sent (FAck {| af_nonce := mf_nonce frame; sigResponder := sg |})))
        else eret tt
    | _, _ => eret tt
    end
  else if negb (mf_nonce frame =? d_nonce d + 1) then ethrow (Error "nonce gap") else
  do! next <- elift (applyMove P (d_state d) (mf_move frame) (mf_by frame));
  let a := bal_a (balances P next) in
  let b := bal_b (balances P next) in
  if negb (a + b =? d_total d) then ethrow (Error "balance sum != locked total") else
  if negb (a =? mf_partyABalance frame) || negb (b =? mf_partyBBalance frame)
  then ethrow (Error "frame balances != re-derived balances") else
  do! enc <- elift (encodeState P next);
  if negb (bytesEqual (blake2b256 enc) (mf_stateHash frame))
  then ethrow (Error "frame stateHash != re-derived stateHash") else
  let upd := {| tunnelId := d_tunnelId d; stateHash := blake2b256 enc; nonce := mf_nonce frame;
                timestamp := mf_timestamp frame; partyABalance := a; partyBBalance := b |} in
  do! msg <- elift (serializeStateUpdate upd);
  if negb (ep_verify (opponent d) msg (sigProposer frame))
  then ethrow (Error "proposer signature failed verification") else
  do! sg <- sign_self msg;
  let latest := coSign d upd sg (sigProposer frame) in
  do! _ <- emodify (fun d => with_confirmed next (mf_nonce frame) latest
                               (keep_pending (pending d) (mf_nonce frame)) d);
  do! _ <- emodify (emit (Sent (FAck {| af_nonce := mf_nonce frame; sigResponder := sg |})));
  emodify (emit (OnConfirmed latest)).

(** [src core/distributedTunnel.ts DistributedTunnel.onAck] *)
Definition onAck (frame : AckFrame) : eff seat unit :=
  do! d <- eget;
  if af_nonce frame <=? d_nonce d then eret tt else
  match pending d with
  | None => ethrow (Error "unexpected ACK")
  | Some p =>
      if negb (af_nonce frame =? nonce (p_update p)) then ethrow (Error "unexpected ACK") else
      if negb (ep_verify (opponent d) (p_msg p) (sigResponder frame))
      then ethrow (Error "responder signature failed verification") else
      let latest := coSign d (p_update p) (p_sigSelf p) (sigResponder frame) in
      do! _ <- emodify (with_confirmed (p_next p) (nonce (p_update p)) latest None);
      emodify (emit (OnConfirmed latest))
  end.

(** [src core/distributedTunnel.ts DistributedTunnel.onFrame], after decoding. *)
Definition onFrame (f : Frame Move) : eff seat unit :=
  match f with FMove mf => onMove mf | FAck af => onAck af end.

(** [src core/distributedTunnel.ts DistributedTunnel.buildSettlementHalf] *)
Definition buildSettlementHalf (ts onchainNonce : Z) : eff seat (Settlement * bytes) :=
  do! d <- eget;
  let b := balances P (d_state d) in
  let s := {| s_tunnelId := d_tunnelId d; s_partyABalance := bal_a b; s_partyBBalance := bal_b b;
              s_finalNonce := onchainNonce + 1; s_timestamp := ts |} in
  do! msg <- elift (serializeSettlement s);
  do! sg <- sign_self msg;
  eret (s, sg).

(** [src core/distributedTunnel.ts DistributedTunnel.combineSettlement] *)
Definition combineSettlement (d : seat) (s : Settlement) (sigSelf sigOther : bytes)
  : result CoSignedSettlement :=
  let! msg := serializeSettlement s in
  throw_if negb (ep_verify (opponent d) msg sigOther)
    with Error "opponent settlement signature failed verification" ;
  Ok (if selfIsA d then {| cs_settlement := s; cs_sigA := sigSelf; cs_sigB := sigOther |}
      else {| cs_settlement := s; cs_sigA := sigOther; cs_sigB := sigSelf |}).

(** [src core/distributedTunnel.ts DistributedTunnel.buildSettlementHalfWithRoot] *)
Definition buildSettlementHalfWithRoot (ts : Z) (root : bytes) (onchainNonce : Z)
  : eff seat (SettlementWithRoot * bytes) :=
  do! d <- eget;
  if negb (length root =? 32)%nat then ethrow (Error "transcriptRoot must be 32 bytes") else
  let b := balances P (d_state d) in
  let s := {| r_settlement :=
                {| s_tunnelId := d_tunnelId d; s_partyABalance := bal_a b; s_partyBBalance := bal_b b;
                   s_finalNonce := onchainNonce + 1; s_timestamp := ts |};
              r_transcriptRoot := root |} in
  do! msg <- elift (serializeSettlementWithRoot s);
  do! sg <- sign_self msg;
  eret (s, sg).

(** [src core/distributedTunnel.ts DistributedTunnel.combineSettlementWithRoot] *)
Definition combineSettlementWithRoot (d : seat) (s : SettlementWithRoot) (sigSelf sigOther : bytes)
  : result CoSignedSettlementWithRoot :=
  let! msg := serializeSettlementWithRoot s in
  throw_if negb (ep_verify (opponent d) msg sigOther)
    with Error "opponent settlement signature failed verification" ;
  Ok (if selfIsA d then {| csr_settlement := s; csr_sigA := sigSelf; csr_sigB := sigOther |}
      else {| csr_settlement := s; csr_sigA := sigOther; csr_sigB := sigSelf |}).

(** * What each handler can do *)

(** The update that moves seat [d] to [next] at nonce [n]. *)
Definition update_to (d : seat) (next : State) (enc : bytes) (n ts : Z) : StateUpdate :=
  {| tunnelId := d_tunnelId d; stateHash := blake2b256 enc; nonce := n; timestamp := ts;
     partyABalance := bal_a (balances P next); partyBBalance := bal_b (balances P next) |}.

(** [next] can be proposed or accepted by [d] as the update [u] with bytes [msg]. *)
Definition admits (d : seat) (m : Move) (p : Party) (next : State) (enc : bytes)
    (u : StateUpdate) (msg : bytes) : Prop :=
  applyMove P (d_state d) m p = Ok next /\
  bal_a (balances P next) + bal_b (balances P next) = d_total d /\
  encodeState P next = Ok enc /\ u = update_to d next enc (d_nonce d + 1) (timestamp u) /\
  serializeStateUpdate u = Ok msg.

Ltac eff_unfold := unfold sign_self; unfold ebind, eget, elift, eret, ethrow, emodify.

(** The branches that leave the seat as it was. *)
Ltac quiet := left; eexists; reflexivity.

Lemma seatPending_cases m ts (d : seat) :
  (exists e, seatPending m ts d = (d, Throw e)) \/
  (exists next enc u msg f, pending d = None /\ admits d m (selfParty d) next enc u msg /\
     timestamp u = ts /\ ep_sign (self d) = Some f /\
     seatPending m ts d =
       (with_pending (Some {| p_next := next; p_update := u; p_msg := msg; p_sigSelf := f msg;
          p_move := m; p_timestamp := ts |}) (emit (Signed msg) d), Ok tt)).
Proof.
  unfold seatPending. eff_unfold.
  destruct (pending d) eqn:Ep; [quiet|].
  destruct (applyMove P (d_state d) m (selfParty d)) as [next|e] eqn:E1; [|quiet].
  destruct (Z.eqb_spec (bal_a (balances P next) + bal_b (balances P next)) (d_total d)) as [Es|]; [|quiet].
  cbn [negb]. destruct (encodeState P next) as [enc|e] eqn:E2; [|quiet].
  destruct (serializeStateUpdate _) as [msg|e] eqn:E3; [|quiet].
  destruct (ep_sign (self d)) as [f|] eqn:E4; [|quiet].
  right. exists next, enc, (update_to d next enc (d_nonce d + 1) ts), msg, f. split_and!; [done| |reflexivity|done|reflexivity].
  unfold admits. by split_and!.
Qed.

Lemma onMove_cases f (d : seat) :
  (exists r, onMove f d = (d, r)) \/
  (exists l msg g, d_latest d = Some l /\ nonce (update l) = d_nonce d /\ mf_nonce f = d_nonce d /\
     serializeStateUpdate (update l) = Ok msg /\ ep_sign (self d) = Some g /\
     onMove f d = (emit (Sent (FAck {| af_nonce := mf_nonce f; sigResponder := g msg |}))
                       (emit (Signed msg) d), Ok tt)) \/
  (exists next enc u msg g, mf_by f <> selfParty d /\ mf_nonce f = d_nonce d + 1 /\
     admits d (mf_move f) (mf_by f) next enc u msg /\ timestamp u = mf_timestamp f /\
     partyABalance u = mf_partyABalance f /\ partyBBalance u = mf_partyBBalance f /\
     stateHash u = mf_stateHash f /\
     ep_verify (opponent d) msg (sigProposer f) = true /\ ep_sign (self d) = Some g /\
     let latest := coSign d u (g msg) (sigProposer f) in
     onMove f d =
       (emit (OnConfirmed latest)
          (emit (Sent (FAck {| af_nonce := mf_nonce f; sigResponder := g msg |}))
             (with_confirmed next (mf_nonce f) latest (keep_pending (pending d) (mf_nonce f))
                (emit (Signed msg) d))), Ok tt)).
Proof.
  unfold onMove. eff_unfold.
  destruct (party_eqb (mf_by f) (selfParty d)) eqn:Eb; [quiet|]. party_cases.
  destruct (Z.leb_spec (mf_nonce f) (d_nonce d)) as [Hle|Hgt].
  - destruct (d_latest d) as [l|] eqn:El; [|quiet].
    destruct (ep_sign (self d)) as [g|] eqn:Eg; [|quiet].
    destruct ((mf_nonce f =? d_nonce d) && (nonce (update l) =? mf_nonce f)) eqn:Eq; [|quiet].
    bool_to_prop. destruct (serializeStateUpdate (update l)) as [msg|] eqn:Em; [|quiet].
    right; left. exists l, msg, g. split_and!; try congruence. by rewrite Eg.
  - destruct (Z.eqb_spec (mf_nonce f) (d_nonce d + 1)) as [Hn|]; [|quiet]. cbn [negb].
    destruct (applyMove P (d_state d) (mf_move f) (mf_by f)) as [next|e] eqn:E1; [|quiet].
    destruct (Z.eqb_spec (bal_a (balances P next) + bal_b (balances P next)) (d_total d)) as [Es|]; [|quiet].
    cbn [negb]. destruct (negb (_ =? mf_partyABalance f) || _) eqn:Eba; [quiet|]. bool_to_prop.
    destruct (encodeState P next) as [enc|e] eqn:E2; [|quiet].
    destruct (bytesEqual _ (mf_stateHash f)) eqn:Eh; [|quiet]. cbn [negb].
    apply bytesEqual_spec in Eh.
    destruct (serializeStateUpdate _) as [msg|e] eqn:E3; [|quiet].
    destruct (ep_verify (opponent d) msg (sigProposer f)) eqn:Ev; [|quiet]. cbn [negb].
    destruct (ep_sign (self d)) as [g|] eqn:E4; [|quiet].
    right; right. exists next, enc, (update_to d next enc (mf_nonce f) (mf_timestamp f)), msg, g.
    split_and!; [done|done| |reflexivity|..|reflexivity]; try done.
    unfold admits, update_to. rewrite <- Hn. by split_and!.
Qed.

Lemma onAck_cases f (d : seat) :
  (exists r, onAck f d = (d, r)) \/
  (exists p, pending d = Some p /\ d_nonce d < af_nonce f /\ af_nonce f = nonce (p_update p) /\
     ep_verify (opponent d) (p_msg p) (sigResponder f) = true /\
     let latest := coSign d (p_update p) (p_sigSelf p) (sigResponder f) in
     onAck f d =
       (emit (OnConfirmed latest) (with_confirmed (p_next p) (nonce (p_update p)) latest None d), Ok tt)).
Proof.
  unfold onAck. eff_unfold.
  destruct (Z.leb_spec (af_nonce f) (d_nonce d)) as [Hle|Hgt]; [quiet|].
  destruct (pending d) as [p|] eqn:Ep; [|quiet].
  destruct (Z.eqb_spec (af_nonce f) (nonce (p_update p))) as [En|]; [|quiet]. cbn [negb].
  destruct (ep_verify _ _ _) eqn:Ev; [|quiet].
  right. exists p. by split_and!.
Qed.

Lemma adoptCheckpoint_cases s co (d : seat) :
  (exists r, adoptCheckpoint s co d = (d, r)) \/
  (exists enc msg, tunnelId (update co) = d_tunnelId d /\ d_nonce d <= nonce (update co) /\
     partyABalance (update co) + partyBBalance (update co) = d_total d /\
     encodeState P s = Ok enc /\ stateHash (update co) = blake2b256 enc /\
     serializeStateUpdate (update co) = Ok msg /\
     verify (sigA co) msg (ep_publicKey (if selfIsA d then self d else opponent d)) = true /\
     verify (sigB co) msg (ep_publicKey (if selfIsA d then opponent d else self d)) = true /\
     adoptCheckpoint s co d =
       (with_confirmed s (nonce (update co)) co (keep_pending (pending d) (nonce (update co))) d, Ok tt)).
Proof.
  unfold adoptCheckpoint. eff_unfold. cbv zeta.
  destruct (String.eqb_spec (tunnelId (update co)) (d_tunnelId d)) as [Et|]; [|quiet]. cbn [negb].
  destruct (Z.ltb_spec (nonce (update co)) (d_nonce d)) as [|Hn]; [quiet|].
  destruct (Z.eqb_spec (partyABalance (update co) + partyBBalance (update co)) (d_total d)) as [Es|]; [|quiet].
  cbn [negb]. destruct (encodeState P s) as [enc|] eqn:E2; [|quiet].
  destruct (bytesEqual _ _) eqn:Eh; [|quiet]. apply bytesEqual_spec in Eh. cbn [negb].
  unfold verifyCoSignedUpdate. destruct (negb _ || negb _) eqn:Esch; [quiet|].
  destruct (serializeStateUpdate (update co)) as [msg|] eqn:Em; [|quiet]. cbn [rbind].
  destruct (verify _ _ _ && verify _ _ _) eqn:Ev; [|quiet]. cbn [negb].
  bool_to_prop. right. exists enc, msg. by split_and!.
Qed.

End WithCrypto.
