(* ===== verification/SeatSafety.v ===== *)
(** One seat against anybody: what holds of a [DistributedTunnel] seat after any
    sequence of calls and frames, whoever sent them; and the honest exchange of
    one move between two seats. *)
From Stdlib Require Import Sorting.Sorted.
From S2P Require Import Prelude.
From S2P Require Import Bytes.
From S2P Require Import Wire.
From S2P Require Import Crypto.
From S2P Require Import Protocol.
From S2P Require Import Tunnel.
From S2P Require Import DistributedTunnel.

Section Seat.
Context `{C : Crypto} `{!CryptoLaws C} (bk : CryptoBackend) `{!BackendLaws bk}.
Context {State Move : Type} (P : Protocol State Move).

Notation seat := (DistributedTunnel State Move).

(** The calls the code makes on a seat. *)
Inductive seat_call :=
  | CallPropose (m : Move) (ts : Z)
  | CallSeat (m : Move) (ts : Z)
  | CallResend
  | CallFrame (f : Frame Move)
  | CallAdopt (s : State) (co : CoSignedUpdate)
  | CallSettle (ts n : Z)
  | CallSettleRoot (ts : Z) (root : bytes) (n : Z).

Definition do_call (c : seat_call) (d : seat) : seat :=
  match c with
  | CallPropose m ts => fst (propose P m ts d)
  | CallSeat m ts => fst (seatPending P m ts d)
  | CallResend => fst (resendPending d)
  | CallFrame f => fst (onFrame P f d)
  | CallAdopt s co => fst (adoptCheckpoint P s co d)
  | CallSettle ts n => fst (buildSettlementHalf P ts n d)
  | CallSettleRoot ts root n => fst (buildSettlementHalfWithRoot P ts root n d)
  end.

Definition do_calls (cs : list seat_call) (d : seat) : seat :=
  fold_left (fun d c => do_call c d) cs d.

(** The seats' public keys, by slot. *)
Definition pkA (d : seat) : bytes := ep_publicKey (if selfIsA d then self d else opponent d).
Definition pkB (d : seat) : bytes := ep_publicKey (if selfIsA d then opponent d else self d).

(** An update of this tunnel that both keys have signed and that pays out the total. *)
Definition co_signed_ok (d : seat) (co : CoSignedUpdate) : Prop :=
  verifyCoSignedUpdate co (pkA d) SCHEME_ED25519 (pkB d) SCHEME_ED25519 = Ok true /\
  tunnelId (update co) = d_tunnelId d /\
  partyABalance (update co) + partyBBalance (update co) = d_total d.

Definition binds (u : StateUpdate) (s : State) : Prop :=
  exists enc, encodeState P s = Ok enc /\ stateHash u = blake2b256 enc.

Definition confirmed (d : seat) : list CoSignedUpdate :=
  omap (fun e => match e with OnConfirmed u => Some u | _ => None end) (effects d).

Definition opp_endpoint (e : PartyEndpoint) : Prop :=
  exists addr pk, e = makeEndpoint bk addr pk SCHEME_ED25519 None false.

Record seat_safe (d : seat) : Prop := {
  ss_self : own_endpoint bk (self d);
  ss_opp : opp_endpoint (opponent d);
  ss_latest : forall co, d_latest d = Some co ->
    co_signed_ok d co /\ nonce (update co) = d_nonce d /\ binds (update co) (d_state d);
  ss_none : d_latest d = None -> d_nonce d = 0;
  ss_pending : forall p, pending d = Some p ->
    nonce (p_update p) = d_nonce d + 1 /\ tunnelId (p_update p) = d_tunnelId d /\
    partyABalance (p_update p) + partyBBalance (p_update p) = d_total d /\
    binds (p_update p) (p_next p) /\ serializeStateUpdate (p_update p) = Ok (p_msg p) /\
    verify (p_sigSelf p) (p_msg p) (ep_publicKey (self d)) = true;
  ss_confirmed : Forall (fun u => co_signed_ok d u /\ nonce (update u) <= d_nonce d) (confirmed d);
  ss_sorted : StronglySorted Z.lt (map (fun u => nonce (update u)) (confirmed d))
}.

(** Two seats with the same fixed fields. *)
Definition same_static (d d' : seat) : Prop :=
  d_tunnelId d' = d_tunnelId d /\ d_total d' = d_total d /\ self d' = self d /\
  opponent d' = opponent d /\ selfParty d' = selfParty d.

Lemma co_signed_ok_static d d' co :
  same_static d d' -> co_signed_ok d co -> co_signed_ok d' co.
Proof.
  intros (E1 & E2 & E3 & E4 & E5) H. unfold co_signed_ok, pkA, pkB, selfIsA in *.
  by rewrite E1, E2, E3, E4, E5.
Qed.

Lemma confirmed_emit e (d : seat) :
  confirmed (emit e d) = confirmed d ++ match e with OnConfirmed u => [u] | _ => [] end.
Proof. unfold confirmed. simpl. rewrite omap_app. f_equal. by destruct e. Qed.

(** Only the environment, or the pending proposal, changes. *)
Lemma seat_safe_quiet d d' :
  seat_safe d -> same_static d d' -> d_nonce d' = d_nonce d -> d_state d' = d_state d ->
  d_latest d' = d_latest d -> confirmed d' = confirmed d ->
  (forall p, pending d' = Some p -> pending d = Some p \/
    (nonce (p_update p) = d_nonce d + 1 /\ tunnelId (p_update p) = d_tunnelId d /\
     partyABalance (p_update p) + partyBBalance (p_update p) = d_total d /\
     binds (p_update p) (p_next p) /\ serializeStateUpdate (p_update p) = Ok (p_msg p) /\
     verify (p_sigSelf p) (p_msg p) (ep_publicKey (self d)) = true)) ->
  seat_safe d'.
Proof.
  intros [H1 H2 H3 H4 H5 H6 H7] Hst En Es El Ec Hp. pose proof Hst as (E1 & E2 & E3 & E4 & E5).
  split; rewrite ?E3, ?E4, ?En, ?Es, ?El, ?Ec, ?E1, ?E2; try done.
  - intros co Hco. destruct (H3 co Hco) as (Hok & ? & ?). split_and!; try done.
    by apply (co_signed_ok_static d).
  - intros p [Hold|Hnew]%Hp; [by apply H5|done].
  - eapply Forall_impl; [exact H6|]. intros u [? ?]. split; [by apply (co_signed_ok_static d)|done].
Qed.

(** A newly confirmed update, with or without a call of the hook. *)
Lemma seat_safe_confirm d d' co :
  seat_safe d -> same_static d d' -> d_latest d' = Some co -> co_signed_ok d co ->
  nonce (update co) = d_nonce d' -> binds (update co) (d_state d') ->
  (forall p, pending d' = Some p -> pending d = Some p /\ d_nonce d' = d_nonce d) ->
  (confirmed d' = confirmed d /\ d_nonce d <= d_nonce d' \/
   confirmed d' = confirmed d ++ [co] /\ d_nonce d < d_nonce d') ->
  seat_safe d'.
Proof.
  intros [H1 H2 H3 H4 H5 H6 H7] Hst El Hok Hn Hb Hp Hc. pose proof Hst as (E1 & E2 & E3 & E4 & E5).
  assert (d_nonce d <= d_nonce d') as Hle by (destruct Hc; lia).
  assert (Forall (fun u => co_signed_ok d' u /\ nonce (update u) <= d_nonce d') (confirmed d)) as H6'
    by (eapply Forall_impl; [exact H6|]; intros u [? ?]; split; [by apply (co_signed_ok_static d)|lia]).
  split; rewrite ?E3, ?E4; try done.
  - intros co'. rewrite El. intros [= <-]. split_and!; try done. by apply (co_signed_ok_static d).
  - congruence.
  - intros p [Hold E]%Hp. rewrite E, E1, E2. by apply H5.
  - destruct Hc as [[-> _]|[-> _]]; [done|]. apply Forall_app. split; [done|].
    constructor; [|done]. split; [by apply (co_signed_ok_static d)|lia].
  - destruct Hc as [[-> _]|[-> Hlt]]; [done|]. rewrite map_app. apply StronglySorted_snoc; [done|].
    apply Forall_map. eapply Forall_impl; [exact H6|]. intros u [_ ?]. simpl. lia.
Qed.

(** The signatures of a fresh [coSign]. *)
Lemma coSign_ok (d : seat) u msg sigSelf sigOther :
  seat_safe d -> tunnelId u = d_tunnelId d -> partyABalance u + partyBBalance u = d_total d ->
  serializeStateUpdate u = Ok msg -> verify sigSelf msg (ep_publicKey (self d)) = true ->
  ep_verify (opponent d) msg sigOther = true -> co_signed_ok d (coSign d u sigSelf sigOther).
Proof.
  intros Hs Ht Hsum Hser Hv1 Hv2. destruct (ss_opp _ Hs) as (addr & pk & Eo).
  assert (verify sigOther msg (ep_publicKey (opponent d)) = true) as Hv3
    by (rewrite Eo in Hv2 |- *; simpl in *; by rewrite backend_verify in Hv2).
  unfold co_signed_ok, coSign, pkA, pkB, verifyCoSignedUpdate.
  destruct (selfIsA d); simpl; rewrite Hser; simpl; by rewrite Hv1, Hv3.
Qed.

Lemma own_sign (d : seat) f msg :
  seat_safe d -> ep_sign (self d) = Some f -> verify (f msg) msg (ep_publicKey (self d)) = true.
Proof.
  intros Hs Hf. destruct (own_endpoint_signs bk _ msg (ss_self _ Hs)) as (f' & E & _ & Hv & _).
  by replace f with f' by congruence.
Qed.

Lemma safe_seatPending m ts d : seat_safe d -> seat_safe (fst (seatPending P m ts d)).
Proof.
  intros Hs. destruct (seatPending_cases P m ts d) as
    [(e & ->)|(next & enc & u & msg & f & Hnone & (E1 & Es & E2 & Hu & E3) & _ & Hf & ->)]; [done|].
  apply (seat_safe_quiet d); try done; cbn [fst].
  - unfold confirmed. simpl. rewrite omap_app. simpl. by rewrite app_nil_r.
  - intros p [= <-]. right. cbn [p_update p_next p_msg p_sigSelf].
    split_and!; try done; try (rewrite Hu; done).
    + exists enc. split; [done|]. by rewrite Hu.
    + by apply own_sign.
Qed.

Lemma safe_emit e d :
  seat_safe d -> (forall u, e <> OnConfirmed u) -> seat_safe (emit e d).
Proof.
  intros Hs He. apply (seat_safe_quiet d); try done; [|by left].
  rewrite confirmed_emit. destruct e; try by rewrite app_nil_r. by destruct (He u).
Qed.

Lemma safe_resend d : seat_safe d -> seat_safe (fst (resendPending d)).
Proof.
  intros Hs. unfold resendPending, ebind, eget, emodify, eret.
  destruct (pending d); cbn [fst]; [by apply safe_emit|done].
Qed.

Lemma safe_propose m ts d : seat_safe d -> seat_safe (fst (propose P m ts d)).
Proof.
  intros Hs. unfold propose. pose proof (safe_seatPending m ts d Hs) as H1. unfold ebind.
  destruct (seatPending P m ts d) as [d1 [[]|e]]; [|done]. simpl in H1.
  pose proof (safe_resend d1 H1) as H2.
  destruct (resendPending d1) as [d2 [[]|e]]; [|done]. by apply safe_emit.
Qed.

Lemma keep_pending_next (d : seat) n p :
  seat_safe d -> d_nonce d <= n -> keep_pending (pending d) n = Some p ->
  pending d = Some p /\ n = d_nonce d.
Proof.
  intros Hs Hn. unfold keep_pending. destruct (pending d) as [pp|] eqn:Ep; [|done].
  destruct (ss_pending _ Hs pp Ep) as (Hnp & _).
  destruct (Z.leb_spec (nonce (p_update pp)) n); [done|]. intros [= ->]. split; [done|lia].
Qed.

Lemma safe_onMove f d : seat_safe d -> seat_safe (fst (onMove P f d)).
Proof.
  intros Hs. destruct (onMove_cases P f d) as
    [(r & ->)|[(l & msg & g & _ & _ & _ & _ & _ & ->)|
     (next & enc & u & msg & g & Hby & Hn & (E1 & Es & E2 & Hu & E3) & _ & _ & _ & _ & Hv & Hg & ->)]].
  - done.
  - by apply safe_emit; [apply safe_emit|].
  - eapply (seat_safe_confirm d); cbn [fst]; try done; simpl.
    + apply (coSign_ok d u msg); try done; try (rewrite Hu; done). by apply own_sign.
    + unfold coSign. rewrite Hn. destruct (selfIsA d); simpl; by rewrite Hu.
    + exists enc. split; [done|]. unfold coSign. destruct (selfIsA d); simpl; by rewrite Hu.
    + intros p Hp. apply keep_pending_next in Hp as [? ?]; [done|done|lia].
    + right. split; [|lia]. rewrite !confirmed_emit, app_nil_r. f_equal.
      unfold confirmed. simpl. rewrite omap_app. simpl. by rewrite app_nil_r.
Qed.

Lemma safe_onAck f d : seat_safe d -> seat_safe (fst (onAck f d)).
Proof.
  intros Hs. destruct (onAck_cases f d) as [(r & ->)|(p & Hp & Hlt & Hn & Hv & ->)]; [done|].
  destruct (ss_pending _ Hs p Hp) as (Hnp & Ht & Hsum & Hb & Hser & Hsig).
  eapply (seat_safe_confirm d); cbn [fst]; try done; simpl.
  - by apply (coSign_ok d (p_update p) (p_msg p)).
  - unfold coSign. by destruct (selfIsA d).
  - unfold coSign. by destruct (selfIsA d).
  - right. split; [|lia]. by rewrite confirmed_emit.
Qed.

Lemma safe_adopt s co d : seat_safe d -> seat_safe (fst (adoptCheckpoint P s co d)).
Proof.
  intros Hs. destruct (adoptCheckpoint_cases P s co d) as
    [(r & ->)|(enc & msg & Ht & Hle & Hsum & Henc & Hh & Hser & HvA & HvB & ->)]; [done|].
  eapply (seat_safe_confirm d); cbn [fst]; try done; simpl.
  - split_and!; try done. unfold verifyCoSignedUpdate, pkA, pkB. rewrite Hser. simpl. by rewrite HvA, HvB.
  - by exists enc.
  - intros p. by apply keep_pending_next.
  - by left.
Qed.

Lemma safe_settle ts n d : seat_safe d -> seat_safe (fst (buildSettlementHalf P ts n d)).
Proof.
  intros Hs. unfold buildSettlementHalf, sign_self, ebind, eget, elift, emodify, eret, ethrow.
  destruct (serializeSettlement _); [|done].
  destruct (ep_sign (self d)); cbn [fst]; [by apply safe_emit|done].
Qed.

Lemma safe_settle_root ts root n d :
  seat_safe d -> seat_safe (fst (buildSettlementHalfWithRoot P ts root n d)).
Proof.
  intros Hs. unfold buildSettlementHalfWithRoot, sign_self, ebind, eget, elift, emodify, eret, ethrow.
  destruct (negb _); [done|]. destruct (serializeSettlementWithRoot _); [|done].
  destruct (ep_sign (self d)); cbn [fst]; [by apply safe_emit|done].
Qed.

Lemma safe_call c d : seat_safe d -> seat_safe (do_call c d).
Proof.
  destruct c as [m ts|m ts| |[f|f]|s co|ts n|ts root n]; simpl;
    eauto using safe_propose, safe_seatPending, safe_resend, safe_onMove, safe_onAck, safe_adopt,
      safe_settle, safe_settle_root.
Qed.

Lemma safe_calls cs d : seat_safe d -> seat_safe (do_calls cs d).
Proof. revert d; induction cs as [|c cs IH]; intros d Hs; [done|]. apply IH. by apply safe_call. Qed.

Lemma opened_safe tid slf opp party codec initial d :
  own_endpoint bk slf -> opp_endpoint opp ->
  newDistributedTunnel P tid slf opp party codec initial = Ok d ->
  seat_safe d /\ d_tunnelId d = tid /\ d_total d = sum_of initial /\ self d = slf /\
  opponent d = opp /\ selfParty d = party.
Proof.
  intros H1 H2 H. unfold newDistributedTunnel in H. inv_ok. split; [|done].
  split; simpl; try done; try by constructor.
Qed.

(** No call changes the fixed fields, and none moves the nonce back. *)
Lemma call_frame c d :
  seat_safe d -> same_static d (do_call c d) /\ d_nonce d <= d_nonce (do_call c d).
Proof.
  intros Hs.
  assert (forall m ts, same_static d (fst (seatPending P m ts d)) /\
    d_nonce d <= d_nonce (fst (seatPending P m ts d))) as HP.
  { intros m ts. by destruct (seatPending_cases P m ts d) as [(e & ->)|(? & ? & ? & ? & ? & _ & _ & _ & _ & ->)]. }
  destruct c as [m ts|m ts| |[f|f]|s co|ts n|ts root n]; simpl.
  - destruct (HP m ts) as [H1 H2]. unfold propose, ebind.
    destruct (seatPending P m ts d) as [d1 [[]|e]]; [|done]. simpl in *.
    unfold resendPending, ebind, eget, emodify, eret. by destruct (pending d1).
  - apply HP.
  - unfold resendPending, ebind, eget, emodify, eret. by destruct (pending d).
  - destruct (onMove_cases P f d) as
      [(r & ->)|[(? & ? & ? & _ & _ & _ & _ & _ & ->)|(? & ? & ? & ? & ? & _ & Hn & _ & _ & _ & _ & _ & _ & _ & ->)]];
      [done|done|]. split; [done|simpl; lia].
  - destruct (onAck_cases f d) as [(r & ->)|(p & Hp & Hlt & Hn & _ & ->)]; [done|]. split; [done|simpl; lia].
  - destruct (adoptCheckpoint_cases P s co d) as [(r & ->)|(? & ? & _ & Hle & _ & _ & _ & _ & _ & _ & ->)];
      [done|]. split; [done|simpl; lia].
  - unfold buildSettlementHalf, sign_self, ebind, eget, elift, emodify, eret, ethrow.
    destruct (serializeSettlement _); [|done]. by destruct (ep_sign (self d)).
  - unfold buildSettlementHalfWithRoot, sign_self, ebind, eget, elift, emodify, eret, ethrow.
    destruct (negb _); [done|]. destruct (serializeSettlementWithRoot _); [|done].
    by destruct (ep_sign (self d)).
Qed.

Lemma calls_frame cs d : seat_safe d -> same_static d (do_calls cs d).
Proof.
  revert d; induction cs as [|c cs IH]; intros d Hs; [done|]. simpl.
  destruct (call_frame c d Hs) as [(E1 & E2 & E3 & E4 & E5) _].
  destruct (IH (do_call c d)) as (F1 & F2 & F3 & F4 & F5); [by apply safe_call|].
  unfold do_calls in *. unfold same_static. simpl. split_and!; congruence.
Qed.

(** C3: a seat never holds or confirms anything it could not settle: after any
    sequence of proposals, resends, settlement halves, adopted checkpoints and
    received frames, honest or not, the latest update is signed by both keys, is
    of this tunnel, pays out the locked total, has the seat's nonce, and its
    hash is that of the seat's current state; the updates reported to
    [onConfirmed] are all such and their nonces increase strictly; a seat
    without a co-signed update is still at nonce zero, and a pending proposal is
    always for the next nonce. *)
Theorem seat_safety tid slf opp party codec initial d0 cs :
  own_endpoint bk slf -> opp_endpoint opp ->
  newDistributedTunnel P tid slf opp party codec initial = Ok d0 ->
  let d := do_calls cs d0 in
  let ok u :=
    verifyCoSignedUpdate u
      (ep_publicKey (if party_eqb party PartyA then slf else opp)) SCHEME_ED25519
      (ep_publicKey (if party_eqb party PartyA then opp else slf)) SCHEME_ED25519 = Ok true /\
    tunnelId (update u) = tid /\
    partyABalance (update u) + partyBBalance (update u) = sum_of initial in
  (forall u, d_latest d = Some u ->
     ok u /\ nonce (update u) = d_nonce d /\ binds (update u) (d_state d)) /\
  (d_latest d = None -> d_nonce d = 0) /\
  (forall p, pending d = Some p -> nonce (p_update p) = d_nonce d + 1) /\
  Forall ok (confirmed d) /\ StronglySorted Z.lt (map (fun u => nonce (update u)) (confirmed d)).
Proof.
  intros H1 H2 H. cbv zeta.
  destruct (opened_safe _ _ _ _ _ _ _ H1 H2 H) as (Hs0 & E1 & E2 & E3 & E4 & E5).
  pose proof (safe_calls cs d0 Hs0) as Hs. pose proof (calls_frame cs d0 Hs0) as (F1 & F2 & F3 & F4 & F5).
  set (d := do_calls cs d0) in *.
  assert (forall u, co_signed_ok d u ->
    verifyCoSignedUpdate u
      (ep_publicKey (if party_eqb party PartyA then slf else opp)) SCHEME_ED25519
      (ep_publicKey (if party_eqb party PartyA then opp else slf)) SCHEME_ED25519 = Ok true /\
    tunnelId (update u) = tid /\
    partyABalance (update u) + partyBBalance (update u) = sum_of initial) as Hok.
  { intros u (Hv & Ht & Hsum). unfold pkA, pkB, selfIsA in Hv.
    rewrite F3, F4, F5, E3, E4, E5 in Hv. split_and!; [done|congruence..]. }
  split_and!.
  - intros u Hu. destruct (ss_latest _ Hs u Hu) as (? & ? & ?). split_and!; try done; by apply Hok.
  - apply (ss_none _ Hs).
  - intros p Hp. apply (ss_pending _ Hs p Hp).
  - eapply Forall_impl; [apply (ss_confirmed _ Hs)|]. intros u [? _]. by apply Hok.
  - apply (ss_sorted _ Hs).
Qed.

(** ** The exchange of one move *)

(** [dX] and [dY] are the two ends of one tunnel. *)
Definition facing (dX dY : seat) : Prop :=
  seat_safe dX /\ seat_safe dY /\ d_tunnelId dX = d_tunnelId dY /\ d_total dX = d_total dY /\
  selfParty dY = otherParty (selfParty dX) /\
  ep_publicKey (opponent dY) = ep_publicKey (self dX) /\
  ep_publicKey (opponent dX) = ep_publicKey (self dY).

Lemma opp_accepts (d : seat) m s :
  seat_safe d -> ep_verify (opponent d) m s = verify s m (ep_publicKey (opponent d)).
Proof. intros Hs. destruct (ss_opp _ Hs) as (addr & pk & ->). simpl. apply backend_verify. Qed.

Lemma propose_ok m ts d d1 :
  propose P m ts d = (d1, Ok tt) ->
  exists next enc u msg f, pending d = None /\ admits P d m (selfParty d) next enc u msg /\
    timestamp u = ts /\ ep_sign (self d) = Some f /\
    let p := {| p_next := next; p_update := u; p_msg := msg; p_sigSelf := f msg;
                p_move := m; p_timestamp := ts |} in
    d1 = emit OnProposed (emit (Sent (FMove (pendingMoveFrame d p)))
           (with_pending (Some p) (emit (Signed msg) d))).
Proof.
  unfold propose, ebind. intros H.
  destruct (seatPending_cases P m ts d) as
    [(e & E)|(next & enc & u & msg & f & Hnone & Had & Hts & Hf & E)]; rewrite E in H; [done|].
  unfold resendPending, ebind, eget, emodify in H. cbn [pending with_pending emit] in H.
  injection H as <-. exists next, enc, u, msg, f. by split_and!.
Qed.

Lemma onMove_accepts (dX dY : seat) m ts next enc u msg f g :
  facing dX dY -> d_state dX = d_state dY -> d_nonce dX = d_nonce dY ->
  admits P dX m (selfParty dX) next enc u msg -> timestamp u = ts ->
  ep_sign (self dX) = Some f -> ep_sign (self dY) = Some g ->
  let p := {| p_next := next; p_update := u; p_msg := msg; p_sigSelf := f msg;
              p_move := m; p_timestamp := ts |} in
  let latest := coSign dY u (g msg) (f msg) in
  onMove P (pendingMoveFrame dX p) dY =
    (emit (OnConfirmed latest)
       (emit (Sent (FAck {| af_nonce := nonce u; sigResponder := g msg |}))
          (with_confirmed next (nonce u) latest (keep_pending (pending dY) (nonce u))
             (emit (Signed msg) dY))), Ok tt).
Proof.
  intros (HsX & HsY & Et & Etot & Ep & Ek1 & Ek2) Es En (E1 & Esum & E2 & Hu & E3) Hts Hf Hg. cbv zeta.
  assert (nonce u = d_nonce dY + 1) as Hnu by (rewrite Hu, <- En; done).
  assert (u = {| tunnelId := d_tunnelId dY; stateHash := blake2b256 enc; nonce := nonce u;
    timestamp := ts; partyABalance := bal_a (balances P next); partyBBalance := bal_b (balances P next) |})
    as Hu' by (rewrite <- Hts, <- Et, Hu at 1; rewrite Hnu, <- En; done).
  assert (partyABalance u = bal_a (balances P next)) as Ha by (by rewrite Hu).
  assert (partyBBalance u = bal_b (balances P next)) as Hb by (by rewrite Hu).
  assert (stateHash u = blake2b256 enc) as Hh by (by rewrite Hu).
  unfold onMove. unfold ebind, eget. cbn [mf_by pendingMoveFrame mf_nonce mf_move p_update p_move
    mf_partyABalance mf_partyBBalance mf_stateHash mf_timestamp p_timestamp sigProposer p_sigSelf].
  rewrite Ep, (proj2 (party_eqb_neq _ _)) by (by destruct (selfParty dX)).
  rewrite (proj2 (Z.leb_gt _ _)), (proj2 (Z.eqb_eq (nonce u) (d_nonce dY + 1))) by lia. cbn [negb].
  unfold elift. rewrite <- Es, E1, <- Etot, (proj2 (Z.eqb_eq _ _) Esum). cbn [negb].
  rewrite Ha, Hb, !Z.eqb_refl. cbn [negb orb]. rewrite E2, Hh.
  rewrite (proj2 (bytesEqual_spec _ _) eq_refl). cbn [negb]. rewrite <- Hu', E3.
  rewrite opp_accepts, Ek1, (own_sign dX f msg HsX Hf) by done. cbn [negb].
  unfold sign_self, ebind, eget. rewrite Hg. reflexivity.
Qed.

(** C4: the two-seat exchange converges and tolerates redelivery.  Whenever two
    ends of a tunnel hold the same state at the same nonce and one proposes a
    move its protocol accepts, the other end accepts the MOVE, the proposer
    accepts the ACK, and both end at the next nonce in the protocol's next
    state, holding the identical co-signed update and no pending proposal;
    delivering the MOVE again makes the responder send the identical ACK and
    change nothing else, and delivering the ACK again changes nothing. *)
Theorem exchange_converges dX dY m ts dX1 :
  facing dX dY -> d_state dX = d_state dY -> d_nonce dX = d_nonce dY ->
  propose P m ts dX = (dX1, Ok tt) ->
  exists pre mf ack dY1 dX2 u,
    effects dX1 = pre ++ [Sent (FMove mf); OnProposed] /\
    onMove P mf dY = (dY1, Ok tt) /\
    (exists pre', effects dY1 = pre' ++ [Sent (FAck ack); OnConfirmed u]) /\
    onAck ack dX1 = (dX2, Ok tt) /\
    applyMove P (d_state dX) m (selfParty dX) = Ok (d_state dX2) /\
    d_state dY1 = d_state dX2 /\ d_nonce dX2 = d_nonce dX + 1 /\ d_nonce dY1 = d_nonce dX2 /\
    d_latest dX2 = Some u /\ d_latest dY1 = Some u /\ pending dX2 = None /\ pending dY1 = None /\
    (exists pre', onMove P mf dY1 = (emit (Sent (FAck ack)) (emit (Signed pre') dY1), Ok tt)) /\
    onAck ack dX2 = (dX2, Ok tt).
Proof.
  intros Hf Es En Hp.
  destruct (propose_ok _ _ _ _ Hp) as (next & enc & u & msg & f & Hnone & Had & Hts & Hfs & ->).
  pose proof Hf as (HsX & HsY & Et & Etot & Ep & Ek1 & Ek2).
  destruct (own_endpoint_signs bk _ msg (ss_self _ HsY)) as (g & Hg & _ & Hv & _).
  pose proof (onMove_accepts dX dY m ts next enc u msg f g Hf Es En Had Hts Hfs Hg) as HM. cbv zeta in HM.
  destruct Had as (E1 & Esum & E2 & Hu & E3).
  assert (nonce u = d_nonce dX + 1) as Hnu by (by rewrite Hu).
  assert (keep_pending (pending dY) (nonce u) = None) as Hk.
  { unfold keep_pending. destruct (pending dY) as [pp|] eqn:Epp; [|done].
    destruct (ss_pending _ HsY pp Epp) as (Hnp & _). rewrite (proj2 (Z.leb_le _ _)) by lia. done. }
  rewrite Hk in HM.
  assert (coSign dX u (f msg) (g msg) = coSign dY u (g msg) (f msg)) as Hco
    by (unfold coSign, selfIsA; rewrite Ep; by destruct (selfParty dX)).
  exists (effects dX ++ [Signed msg]). eexists. exists {| af_nonce := nonce u; sigResponder := g msg |}. do 2 eexists.
  exists (coSign dY u (g msg) (f msg)). split; [|split; [exact HM|]].
  { simpl. by rewrite <- (app_assoc (effects dX ++ [Signed msg])). }
  split. { exists (effects dY ++ [Signed msg]). simpl. by rewrite <- !app_assoc. }
  split.
  { unfold onAck, ebind, eget. cbn [af_nonce d_nonce emit with_pending pending sigResponder opponent p_update p_msg].
    rewrite (proj2 (Z.leb_gt _ _)), Z.eqb_refl by lia. cbn [negb].
    rewrite opp_accepts, Ek2, Hv by done. cbn [negb]. reflexivity. }
  cbn [d_state d_nonce d_latest pending emit with_confirmed p_next p_update].
  split_and!; try done; try lia.
  - f_equal. exact Hco.
  - eexists. unfold onMove, ebind at 1, eget at 1. cbn [mf_by pendingMoveFrame mf_nonce p_update selfParty emit with_confirmed
      d_nonce d_latest self].
    rewrite Ep, (proj2 (party_eqb_neq _ _)) by (by destruct (selfParty dX)).
    rewrite Z.leb_refl, Hg, Z.eqb_refl.
    assert (update (coSign dY u (g msg) (f msg)) = u) as -> by (unfold coSign; by destruct (selfIsA dY)).
    rewrite Z.eqb_refl. cbn [andb]. unfold elift, ebind, sign_self, ebind, eget. rewrite E3.
    cbn [self emit with_confirmed]. rewrite Hg. reflexivity.
  - unfold onAck, ebind, eget. cbn [af_nonce d_nonce emit with_confirmed p_update].
    by rewrite Z.leb_refl.
Qed.

End Seat.
