(* ===== verification/Agreement.v ===== *)
(** Two honest seats over an untrusted relay.

    A system is the two [DistributedTunnel] seats.  Its steps are the calls the
    code makes on a seat: proposing, seating, re-sending, adopting a checkpoint,
    signing a settlement half, and the delivery of any frame whatsoever, in any
    order, any number of times, to either seat.  The relay is bound by one thing
    only: a signature that verifies under a seat's key is over a message that
    seat has signed.  A proposal is made by a party that may make it, and at most
    one may at a nonce: by the rules of the protocol, or since the callers alternate. *)
From S2P Require Import Prelude.
From S2P Require Import Bytes.
From S2P Require Import Wire.
From S2P Require Import Crypto.
From S2P Require Import Protocol.
From S2P Require Import Tunnel.
From S2P Require Import DistributedTunnel.
From S2P Require Import SeatSafety.

Section TwoSeats.
Context `{C : Crypto} `{!CryptoLaws C} (bk : CryptoBackend) `{!BackendLaws bk}.
Context {State Move : Type} (P : Protocol State Move).
Context (inv : Z -> State -> Prop) (ctx_ok : ProtocolContext -> Prop).
Context `{!ProtocolLaws P inv ctx_ok}.
Context (tid : string) (pk : Party -> bytes) (deposits : Balances).

Notation seat := (DistributedTunnel State Move).
Notation tot := (sum_of deposits).

(** Who may propose, at a nonce and in a state: by the rules of the protocol, or
    because the callers of the two seats take turns.  At most one party may. *)
Context (mover : Z -> State -> Party -> Prop).

Definition exclusive : Prop :=
  forall n s p q, inv tot s -> mover n s p -> mover n s q -> p = q.

(** A move the protocol accepts is proposed by who may. *)
Definition rightful (d : seat) (X : Party) (m : Move) : Prop :=
  forall s', applyMove P (d_state d) m X = Ok s' -> mover (d_nonce d) (d_state d) X.

(** Well-formed states with the same state hash are the same state. *)
Definition hash_binding : Prop :=
  forall s1 s2 e1 e2, inv tot s1 -> inv tot s2 ->
    encodeState P s1 = Ok e1 -> encodeState P s2 = Ok e2 ->
    blake2b256 e1 = blake2b256 e2 -> s1 = s2.

Definition sys : Type := Party -> seat.

Definition put (sg : sys) (X : Party) (d : seat) : sys :=
  fun Y => if party_eqb X Y then d else sg Y.

(** What seat [X] has signed. *)
Definition signed_by (sg : sys) (X : Party) (msg : bytes) : Prop :=
  Signed msg ∈ effects (sg X).

Definition unforged (sg : sys) (Y : Party) (sig : bytes) : Prop :=
  forall msg, verify sig msg (pk Y) = true -> signed_by sg Y msg.

Inductive sys_step (sg : sys) : sys -> Prop :=
  | StepPropose X m ts :
      rightful (sg X) X m ->
      sys_step sg (put sg X (fst (propose P m ts (sg X))))
  | StepSeat X m ts :
      rightful (sg X) X m ->
      sys_step sg (put sg X (fst (seatPending P m ts (sg X))))
  | StepResend X :
      sys_step sg (put sg X (fst (resendPending (sg X))))
  | StepMove X f :
      unforged sg (otherParty X) (sigProposer f) ->
      sys_step sg (put sg X (fst (onMove P f (sg X))))
  | StepAck X f :
      unforged sg (otherParty X) (sigResponder f) ->
      sys_step sg (put sg X (fst (onAck f (sg X))))
  | StepAdopt X s co :
      inv tot s -> unforged sg PartyA (sigA co) -> unforged sg PartyB (sigB co) ->
      sys_step sg (put sg X (fst (adoptCheckpoint P s co (sg X))))
  | StepSettle X ts n :
      sys_step sg (put sg X (fst (buildSettlementHalf P ts n (sg X))))
  | StepSettleRoot X ts root n :
      sys_step sg (put sg X (fst (buildSettlementHalfWithRoot P ts root n (sg X)))).

(** Seat [X] as it is opened: own key in [self], the other's in [opponent]. *)
Definition opened (X : Party) (d : seat) : Prop :=
  exists slf opp hasCodec,
    own_endpoint bk slf /\ ep_publicKey slf = pk X /\
    opp = makeEndpoint bk (address opp) (pk (otherParty X)) SCHEME_ED25519 None false /\
    newDistributedTunnel P tid slf opp X hasCodec deposits = Ok d.

Inductive reachable : sys -> Prop :=
  | reach_init sg : (forall X, opened X (sg X)) -> reachable sg
  | reach_step sg sg' : reachable sg -> sys_step sg sg' -> reachable sg'.

(** * The common history

    Each entry is an update somebody proposed; both seats are at some position
    of the same list. *)
Record entry := { e_by : Party; e_state : State; e_upd : StateUpdate; e_msg : bytes }.

Definition entry_at (h : list entry) (n : Z) : option entry :=
  if 0 <? n then h !! Z.to_nat (n - 1) else None.

Definition state_at (s0 : State) (h : list entry) (n : Z) : option State :=
  if n =? 0 then Some s0 else e_state <$> entry_at h n.

Definition matches (p : PendingProposal State Move) (e : entry) : Prop :=
  p_next p = e_state e /\ p_update p = e_upd e /\ p_msg p = e_msg e.

Definition entry_ok (s0 : State) (h : list entry) (n : Z) (e : entry) : Prop :=
  inv tot (e_state e) /\
  (exists prev m, state_at s0 h (n - 1) = Some prev /\ applyMove P prev m (e_by e) = Ok (e_state e) /\
     mover (n - 1) prev (e_by e)) /\
  (exists enc, encodeState P (e_state e) = Ok enc /\ stateHash (e_upd e) = blake2b256 enc) /\
  nonce (e_upd e) = n /\ tunnelId (e_upd e) = tid /\
  serializeStateUpdate (e_upd e) = Ok (e_msg e).

Definition settlement_msg (msg : bytes) : Prop :=
  (exists s, serializeSettlement s = Ok msg) \/ (exists s, serializeSettlementWithRoot s = Ok msg).

(** The part of a seat that never changes. *)
Definition static (X : Party) (d : seat) : Prop :=
  selfParty d = X /\ d_tunnelId d = tid /\ d_total d = tot /\
  ep_publicKey (self d) = pk X /\ ep_publicKey (opponent d) = pk (otherParty X) /\
  (forall m s, ep_verify (opponent d) m s = verify s m (pk (otherParty X))).

(** A message [X], at nonce [n], may have signed. *)
Definition may_sign (h : list entry) (X : Party) (n : Z) (msg : bytes) : Prop :=
  (exists j e, entry_at h j = Some e /\ msg = e_msg e /\ (j <= n \/ (j = n + 1 /\ e_by e = X))) \/
  settlement_msg msg.

(** What the history [h] says about seat [X] being in state [d]. *)
Record seat_inv (s0 : State) (h : list entry) (X : Party) (d : seat) : Prop := {
  si_static : static X d;
  si_nonce : 0 <= d_nonce d;
  si_state : state_at s0 h (d_nonce d) = Some (d_state d);
  si_own : forall n e, entry_at h n = Some e -> e_by e = X ->
    n <= d_nonce d \/ (n = d_nonce d + 1 /\ exists p, pending d = Some p /\ matches p e);
  si_pending : forall p, pending d = Some p ->
    exists e, entry_at h (d_nonce d + 1) = Some e /\ e_by e = X /\ matches p e;
  si_signed : forall msg, Signed msg ∈ effects d -> may_sign h X (d_nonce d) msg;
  si_latest : forall co, d_latest d = Some co ->
    exists e, entry_at h (d_nonce d) = Some e /\ update co = e_upd e;
  si_has_latest : 0 < d_nonce d -> d_latest d <> None
}.

Record sys_inv (s0 : State) (h : list entry) (sg : sys) : Prop := {
  inv_s0 : inv tot s0;
  inv_entries : forall n e, entry_at h n = Some e -> entry_ok s0 h n e;
  inv_seats : forall X, seat_inv s0 h X (sg X);
  inv_acked : forall X e, entry_at h (d_nonce (sg X)) = Some e -> e_by e = X ->
    d_nonce (sg X) <= d_nonce (sg (otherParty X))
}.

(** ** Facts about histories *)

Lemma entry_at_pos h n e : entry_at h n = Some e -> 0 < n.
Proof. unfold entry_at. destruct (Z.ltb_spec 0 n); [done|discriminate]. Qed.

Lemma entry_at_app h e n e' : entry_at h n = Some e' -> entry_at (h ++ [e]) n = Some e'.
Proof. unfold entry_at. destruct (0 <? n); [|done]. apply lookup_app_l_Some. Qed.

Lemma entry_at_last h e : entry_at (h ++ [e]) (Z.of_nat (length h) + 1) = Some e.
Proof.
  unfold entry_at. rewrite (proj2 (Z.ltb_lt _ _)) by lia.
  replace (Z.to_nat _) with (length h) by lia. by apply list_lookup_middle.
Qed.

Lemma entry_at_app_inv h e n e' :
  entry_at (h ++ [e]) n = Some e' ->
  entry_at h n = Some e' \/ (n = Z.of_nat (length h) + 1 /\ e' = e).
Proof.
  unfold entry_at. destruct (Z.ltb_spec 0 n); [|done].
  intros [?|[? Hn]]%lookup_app_Some; [by left|]. right.
  apply list_lookup_singleton_Some in Hn as [Hn <-]. split; [lia|done].
Qed.

Lemma entry_at_total h n : 0 < n -> n <= Z.of_nat (length h) -> exists e, entry_at h n = Some e.
Proof.
  intros H1 H2. unfold entry_at. rewrite (proj2 (Z.ltb_lt _ _)) by done.
  apply lookup_lt_is_Some. lia.
Qed.

Lemma state_at_app s0 h e n s : state_at s0 h n = Some s -> state_at s0 (h ++ [e]) n = Some s.
Proof.
  unfold state_at. destruct (n =? 0); [done|].
  destruct (entry_at h n) as [e0|] eqn:E; [|done]. by rewrite (entry_at_app _ _ _ _ E).
Qed.

Lemma state_at_le s0 h n s : state_at s0 h n = Some s -> n <= Z.of_nat (length h).
Proof.
  unfold state_at, entry_at. destruct (Z.eqb_spec n 0); [lia|].
  destruct (Z.ltb_spec 0 n); [|done]. intros Hs.
  destruct (h !! Z.to_nat (n - 1)) eqn:E; [|done]. apply lookup_lt_Some in E. lia.
Qed.

Lemma state_at_entry s0 h n e : entry_at h n = Some e -> state_at s0 h n = Some (e_state e).
Proof.
  intros H. pose proof (entry_at_pos _ _ _ H). unfold state_at.
  rewrite (proj2 (Z.eqb_neq _ _)) by lia. by rewrite H.
Qed.

Lemma put_same sg X d : put sg X d X = d.
Proof. unfold put. by rewrite party_eqb_refl. Qed.

Lemma put_other sg X d Y : Y <> X -> put sg X d Y = sg Y.
Proof. unfold put. intros H. by rewrite (proj2 (party_eqb_neq X Y)). Qed.

(** ** Preservation, by kind of change *)

Lemma may_sign_mono h e X n msg : may_sign h X n msg -> may_sign (h ++ [e]) X n msg.
Proof.
  intros [(j & e0 & E & ? & ?)|?]; [left|by right].
  exists j, e0. split; [by apply entry_at_app|done].
Qed.

Lemma may_sign_later h X n msg e :
  entry_at h (n + 1) = Some e -> may_sign h X n msg -> may_sign h X (n + 1) msg.
Proof.
  intros He [(j & e0 & E & ? & ?)|?]; [left|by right].
  exists j, e0. split_and!; [done..|lia].
Qed.

Lemma seat_inv_quiet s0 h X d d' :
  seat_inv s0 h X d -> static X d' -> d_nonce d' = d_nonce d -> d_state d' = d_state d ->
  pending d' = pending d ->
  (forall msg, Signed msg ∈ effects d' -> Signed msg ∈ effects d \/ may_sign h X (d_nonce d) msg) ->
  (d_latest d' = d_latest d \/
   exists co e, d_latest d' = Some co /\ entry_at h (d_nonce d) = Some e /\ update co = e_upd e) ->
  seat_inv s0 h X d'.
Proof.
  intros [Hst Hn Hs Ho Hp Hsg Hl Hhl] Hst' En Es Ep Hsg' Hl'.
  split; rewrite ?En, ?Es, ?Ep; try done.
  - intros msg [?|?]%Hsg'; [by apply Hsg|done].
  - intros co Hco. destruct Hl' as [E|(co' & e & E & He & Hu)]; [apply Hl; congruence|].
    exists e. split; [done|congruence].
  - intros Hpos. destruct Hl' as [->|(co' & e & -> & _)]; [by apply Hhl|done].
Qed.

Lemma seat_inv_advance s0 h X d d' e :
  seat_inv s0 h X d -> entry_at h (d_nonce d + 1) = Some e ->
  static X d' -> d_nonce d' = d_nonce d + 1 -> d_state d' = e_state e -> pending d' = None ->
  (forall msg, Signed msg ∈ effects d' -> Signed msg ∈ effects d \/ msg = e_msg e) ->
  (exists co, d_latest d' = Some co /\ update co = e_upd e) ->
  seat_inv s0 h X d'.
Proof.
  intros [Hst Hn Hs Ho Hp Hsg Hl Hhl] He Hst' En Es Ep Hsg' (co & Hco & Hu).
  split; rewrite ?En, ?Es, ?Ep; try done.
  - lia.
  - by apply state_at_entry.
  - intros n e' E Hby. left. destruct (Ho n e' E Hby) as [?|[? _]]; lia.
  - intros msg [Hm| ->]%Hsg'; [by apply (may_sign_later _ _ _ _ e), Hsg|].
    left. exists (d_nonce d + 1), e. split_and!; [done..|lia].
  - intros co' Hco'. exists e. split; [done|congruence].
  - intros _. by rewrite Hco.
Qed.

Lemma seat_inv_other s0 h e Y d : seat_inv s0 h Y d -> e_by e <> Y -> seat_inv s0 (h ++ [e]) Y d.
Proof.
  intros [Hst Hn Hs Ho Hp Hsg Hl Hhl] Hne. split; try done.
  - by apply state_at_app.
  - intros n e' [E|[_ ->]]%entry_at_app_inv Hby; [by apply Ho|done].
  - intros p Hpe. destruct (Hp p Hpe) as (e0 & E & ?). exists e0. split; [by apply entry_at_app|done].
  - intros msg Hm. by apply may_sign_mono, Hsg.
  - intros co Hco. destruct (Hl co Hco) as (e0 & E & ?). exists e0. split; [by apply entry_at_app|done].
Qed.

Lemma seat_inv_propose s0 h e X d d' p :
  seat_inv s0 h X d -> pending d = None -> e_by e = X -> d_nonce d = Z.of_nat (length h) ->
  static X d' -> d_nonce d' = d_nonce d -> d_state d' = d_state d -> d_latest d' = d_latest d ->
  pending d' = Some p -> matches p e ->
  (forall msg, Signed msg ∈ effects d' -> Signed msg ∈ effects d \/ msg = e_msg e) ->
  seat_inv s0 (h ++ [e]) X d'.
Proof.
  intros [Hst Hn Hs Ho Hp Hsg Hl Hhl] Hnone Hby Hlen Hst' En Es El Ep Hm Hsg'.
  split; rewrite ?En, ?Es, ?El, ?Ep; try done.
  - by apply state_at_app.
  - intros n e' [E|[-> ->]]%entry_at_app_inv Hby'.
    + destruct (Ho n e' E Hby') as [?|[_ (p' & Hp' & _)]]; [by left|congruence].
    + right. split; [lia|]. eauto.
  - intros p' [= <-]. exists e. rewrite Hlen. split; [apply entry_at_last|done].
  - intros msg [Hm'| ->]%Hsg'; [by apply may_sign_mono, Hsg|].
    left. exists (d_nonce d + 1), e. split_and!; [rewrite Hlen; apply entry_at_last|done|by right].
  - intros co Hco. destruct (Hl co Hco) as (e0 & E & ?). exists e0. split; [by apply entry_at_app|done].
Qed.

Lemma party_cases_other X Y : Y = X \/ Y = otherParty X.
Proof. destruct X, Y; auto. Qed.

Lemma sys_inv_put s0 h sg X d' :
  sys_inv s0 h sg -> seat_inv s0 h X d' -> d_nonce (sg X) <= d_nonce d' ->
  (forall e, entry_at h (d_nonce d') = Some e -> e_by e = X -> d_nonce d' <= d_nonce (sg (otherParty X))) ->
  sys_inv s0 h (put sg X d').
Proof.
  intros [H0 He Hs Ha] Hs' Hn Ha'. split; try done.
  - intros Y. destruct (decide (Y = X)) as [->|Hne]; [by rewrite put_same|by rewrite put_other].
  - intros Y e. destruct (party_cases_other X Y) as [->| ->].
    + rewrite put_same, put_other by apply otherParty_neq. apply Ha'.
    + rewrite put_other, otherParty_involutive, put_same by apply otherParty_neq.
      intros E Hby. pose proof (Ha (otherParty X) e E Hby) as Hle.
      rewrite otherParty_involutive in Hle. lia.
Qed.

Lemma sys_inv_quiet s0 h sg X d' :
  sys_inv s0 h sg -> seat_inv s0 h X d' -> d_nonce d' = d_nonce (sg X) ->
  sys_inv s0 h (put sg X d').
Proof.
  intros Hi Hs En. apply sys_inv_put; [done|done|lia|]. rewrite En. apply (inv_acked _ _ _ Hi).
Qed.

Lemma entry_ok_mono s0 h e n e0 : entry_ok s0 h n e0 -> entry_ok s0 (h ++ [e]) n e0.
Proof.
  intros (? & (prev & m & Hp & ? & ?) & ?). split; [done|]. split; [|done].
  exists prev, m. split_and!; [by apply state_at_app|done..].
Qed.

Lemma sys_inv_propose s0 h sg X d' e :
  sys_inv s0 h sg -> seat_inv s0 (h ++ [e]) X d' -> d_nonce d' = d_nonce (sg X) -> e_by e = X ->
  entry_ok s0 (h ++ [e]) (Z.of_nat (length h) + 1) e ->
  sys_inv s0 (h ++ [e]) (put sg X d').
Proof.
  intros [H0 He Hs Ha] Hs' En Hby Hok. split; [done|..].
  - intros n e' [E|[-> ->]]%entry_at_app_inv; [by apply entry_ok_mono, He|done].
  - intros Y. destruct (decide (Y = X)) as [->|Hne]; [by rewrite put_same|].
    rewrite put_other by done. apply seat_inv_other; [done|congruence].
  - assert (forall Y, d_nonce (put sg X d' Y) = d_nonce (sg Y)) as Hn.
    { intros Y. destruct (decide (Y = X)) as [->|?]; [by rewrite put_same|by rewrite put_other]. }
    intros Y e'. rewrite !Hn. intros [E|[E _]]%entry_at_app_inv; [by apply Ha|].
    pose proof (state_at_le _ _ _ _ (si_state _ _ _ _ (Hs Y))). lia.
Qed.

(** ** What a verified signature says *)

Lemma update_not_settlement u msg :
  length (stateHash u) = 32%nat -> serializeStateUpdate u = Ok msg -> ~ settlement_msg msg.
Proof.
  intros Hl Hu [[s Hs]|[s Hs]].
  - by pose proof (serialize_inj (SStateUpdate u) (SSettlement s) msg Hl I Hu Hs).
  - by pose proof (serialize_inj (SStateUpdate u) (SSettlementWithRoot s) msg Hl I Hu Hs).
Qed.

(** An update that [Y] signed is the history's entry of its nonce. *)
Lemma signed_entry s0 h sg Y u msg :
  sys_inv s0 h sg -> signed_by sg Y msg -> serializeStateUpdate u = Ok msg ->
  length (stateHash u) = 32%nat -> tunnelId u = tid ->
  exists e, entry_at h (nonce u) = Some e /\ u = e_upd e /\ msg = e_msg e /\
    (nonce u <= d_nonce (sg Y) \/ (nonce u = d_nonce (sg Y) + 1 /\ e_by e = Y)).
Proof.
  intros Hi Hs Hu Hl Ht.
  destruct (si_signed _ _ _ _ (inv_seats _ _ _ Hi Y) msg Hs) as [(j & e & E & -> & Hj)|Hse].
  2:{ by destruct (update_not_settlement u msg Hl Hu). }
  destruct (inv_entries _ _ _ Hi j e E) as (_ & _ & (enc & _ & Hh) & Hn & Htid & Hser).
  assert (u = e_upd e) as -> by (eapply serializeStateUpdate_inj; [done|..|done|done];
    [rewrite Hh; apply blake2b_length|congruence]).
  rewrite Hn. eauto.
Qed.

Lemma seat_state_inv s0 h sg X : sys_inv s0 h sg -> inv tot (d_state (sg X)).
Proof.
  intros Hi. pose proof (si_state _ _ _ _ (inv_seats _ _ _ Hi X)) as Hs. unfold state_at in Hs.
  destruct (_ =? 0); [injection Hs as <-; apply (inv_s0 _ _ _ Hi)|].
  destruct (entry_at h _) as [e|] eqn:E; [|done]. injection Hs as <-.
  apply (inv_entries _ _ _ Hi _ _ E).
Qed.

(** The proposer of the entry after a seat's state is the party to move there. *)
Lemma next_proposer s0 h sg X e p :
  exclusive -> sys_inv s0 h sg -> entry_at h (d_nonce (sg X) + 1) = Some e ->
  mover (d_nonce (sg X)) (d_state (sg X)) p -> e_by e = p.
Proof.
  intros Hex Hi E Hm.
  destruct (inv_entries _ _ _ Hi _ e E) as (_ & (prev & m0 & Hp & _ & Hm0) & _).
  replace (d_nonce (sg X) + 1 - 1) with (d_nonce (sg X)) in Hp, Hm0 by lia.
  rewrite (si_state _ _ _ _ (inv_seats _ _ _ Hi X)) in Hp. injection Hp as <-.
  eapply Hex; [by apply (seat_state_inv s0 h sg X)|exact Hm0|exact Hm].
Qed.

Lemma entry_state s0 h sg n e s enc :
  hash_binding -> sys_inv s0 h sg -> entry_at h n = Some e -> inv tot s ->
  encodeState P s = Ok enc -> stateHash (e_upd e) = blake2b256 enc -> s = e_state e.
Proof.
  intros Hb Hi E Hs Henc Hh.
  destruct (inv_entries _ _ _ Hi _ e E) as (Hie & _ & (enc' & Henc' & Hh') & _).
  eapply Hb; [done|done|exact Henc|exact Henc'|congruence].
Qed.

Lemma elem_of_emit e (d : seat) msg :
  Signed msg ∈ effects (emit e d) <-> Signed msg ∈ effects d \/ e = Signed msg.
Proof. simpl. rewrite elem_of_app, list_elem_of_singleton. naive_solver. Qed.

Lemma admits_facts s0 h sg X m p next enc u msg :
  sys_inv s0 h sg -> admits P (sg X) m p next enc u msg ->
  inv tot next /\ length (stateHash u) = 32%nat /\ tunnelId u = tid /\
  nonce u = d_nonce (sg X) + 1 /\ stateHash u = blake2b256 enc.
Proof.
  intros Hi (E1 & _ & _ & Hu & _).
  destruct (si_static _ _ _ _ (inv_seats _ _ _ Hi X)) as (_ & Ht & _).
  rewrite Hu. simpl. split_and!; [|apply blake2b_length|done..].
  eapply laws_step; [by apply (seat_state_inv s0 h sg X)|exact E1].
Qed.

(** ** The steps *)

Lemma step_quiet s0 h sg X d' :
  sys_inv s0 h sg -> static X d' -> d_nonce d' = d_nonce (sg X) -> d_state d' = d_state (sg X) ->
  pending d' = pending (sg X) ->
  (forall msg, Signed msg ∈ effects d' ->
     Signed msg ∈ effects (sg X) \/ may_sign h X (d_nonce (sg X)) msg) ->
  d_latest d' = d_latest (sg X) -> sys_inv s0 h (put sg X d').
Proof.
  intros Hi ??????. apply sys_inv_quiet; [done| |done].
  eapply seat_inv_quiet; [apply (inv_seats _ _ _ Hi X)|done..|by left].
Qed.

Lemma step_same s0 h sg X : sys_inv s0 h sg -> sys_inv s0 h (put sg X (sg X)).
Proof.
  intros Hi. apply step_quiet; try done; [|by left].
  apply (si_static _ _ _ _ (inv_seats _ _ _ Hi X)).
Qed.

Lemma step_seat s0 h sg X m ts :
  exclusive -> sys_inv s0 h sg -> rightful (sg X) X m ->
  exists h', sys_inv s0 h' (put sg X (fst (seatPending P m ts (sg X)))).
Proof.
  intros Hex Hi Hmay. pose proof (inv_seats _ _ _ Hi X) as HX. pose proof (si_static _ _ _ _ HX) as Hst.
  destruct (seatPending_cases P m ts (sg X)) as
    [(e & ->)|(next & enc & u & msg & f & Hnone & Had & Hts & _ & ->)].
  { exists h. by apply step_same. }
  destruct (admits_facts _ _ _ _ _ _ _ _ _ _ Hi Had) as (Hinv & Hl & Ht & Hn & Hh).
  destruct Had as (E1 & _ & E2 & Hu & E3). rewrite (proj1 Hst) in E1.
  pose proof (Hmay _ E1) as Hmover.
  assert (d_nonce (sg X) = Z.of_nat (length h)) as Hlen.
  { pose proof (state_at_le _ _ _ _ (si_state _ _ _ _ HX)).
    destruct (Z.lt_total (d_nonce (sg X)) (Z.of_nat (length h))) as [Hlt|[?|?]]; [|done|lia].
    destruct (entry_at_total h (d_nonce (sg X) + 1)) as [e He]; [pose proof (si_nonce _ _ _ _ HX); lia|lia|].
    pose proof (next_proposer _ _ _ _ _ _ Hex Hi He Hmover) as Hby.
    destruct (si_own _ _ _ _ HX _ e He Hby) as [?|[_ (p & Hp & _)]]; [lia|congruence]. }
  exists (h ++ [{| e_by := X; e_state := next; e_upd := u; e_msg := msg |}]).
  apply sys_inv_propose; try done.
  - eapply seat_inv_propose; [exact HX|done..| |]; simpl; [done|].
    intros msg'. rewrite elem_of_app, list_elem_of_singleton. intros [?|[= ->]]; auto.
  - split_and!; simpl; try done.
    + exists (d_state (sg X)), m. replace (Z.of_nat (length h) + 1 - 1) with (d_nonce (sg X)) by lia.
      split_and!; [apply state_at_app, (si_state _ _ _ _ HX)|done..].
    + eauto.
    + lia.
Qed.

Lemma step_advance s0 h sg X d' e :
  sys_inv s0 h sg -> entry_at h (d_nonce (sg X) + 1) = Some e ->
  (e_by e = X -> d_nonce (sg X) + 1 <= d_nonce (sg (otherParty X))) ->
  static X d' -> d_nonce d' = d_nonce (sg X) + 1 -> d_state d' = e_state e -> pending d' = None ->
  (forall msg, Signed msg ∈ effects d' -> Signed msg ∈ effects (sg X) \/ msg = e_msg e) ->
  (exists co, d_latest d' = Some co /\ update co = e_upd e) ->
  sys_inv s0 h (put sg X d').
Proof.
  intros Hi He Hack Hst En Es Ep Hsg Hl. apply sys_inv_put; [done| |lia|].
  - by eapply seat_inv_advance; [apply (inv_seats _ _ _ Hi X)|..].
  - intros e'. rewrite En. intros E. replace e' with e by congruence. exact Hack.
Qed.

Lemma step_resend s0 h sg X :
  sys_inv s0 h sg -> sys_inv s0 h (put sg X (fst (resendPending (sg X)))).
Proof.
  intros Hi. unfold resendPending, ebind, eget, emodify, eret.
  destruct (pending (sg X)) as [p|]; cbn [fst]; [|by apply step_same].
  apply step_quiet; try done; [apply (si_static _ _ _ _ (inv_seats _ _ _ Hi X))|].
  intros msg [?|?]%elem_of_emit; [by left|done].
Qed.

Lemma put_put sg X d d' s0 h : sys_inv s0 h (put (put sg X d) X d') -> sys_inv s0 h (put sg X d').
Proof.
  intros [H0 He Hs Ha].
  assert (forall Y, put (put sg X d) X d' Y = put sg X d' Y) as E
    by (intros Y; unfold put; by destruct (party_eqb X Y)).
  split; try done.
  - intros Y. rewrite <- E. apply Hs.
  - intros Y. rewrite <- !E. apply Ha.
Qed.

Lemma step_propose s0 h sg X m ts :
  exclusive -> sys_inv s0 h sg -> rightful (sg X) X m ->
  exists h', sys_inv s0 h' (put sg X (fst (propose P m ts (sg X)))).
Proof.
  intros Hex Hi Hmay. destruct (step_seat s0 h sg X m ts Hex Hi Hmay) as [h' Hi']. exists h'.
  unfold propose, ebind. destruct (seatPending P m ts (sg X)) as [d1 [[]|e]]; [|done].
  cbn [fst] in Hi'. pose proof (step_resend _ _ _ X Hi') as Hr. rewrite put_same in Hr.
  destruct (resendPending d1) as [d2 [[]|e]]; cbn [fst] in *; apply put_put in Hr; [|done].
  unfold emodify. cbn [fst]. apply (put_put _ _ d2), step_quiet; rewrite ?put_same; try done.
  - pose proof (inv_seats _ _ _ Hr X) as HX. rewrite put_same in HX. apply (si_static _ _ _ _ HX).
  - intros msg [?|?]%elem_of_emit; [by left|done].
Qed.

(** A pending proposal is for the next nonce. *)
Lemma overtaken s0 h sg X n :
  sys_inv s0 h sg -> n = d_nonce (sg X) + 1 -> keep_pending (pending (sg X)) n = None.
Proof.
  intros Hi ->. unfold keep_pending. destruct (pending (sg X)) as [p|] eqn:Ep; [|done].
  destruct (si_pending _ _ _ _ (inv_seats _ _ _ Hi X) p Ep) as (e & He & _ & _ & Hup & _).
  destruct (inv_entries _ _ _ Hi _ e He) as (_ & _ & _ & Hn & _).
  by rewrite Hup, Hn, Z.leb_refl.
Qed.

Lemma step_move s0 h sg X f :
  hash_binding -> sys_inv s0 h sg ->
  unforged sg (otherParty X) (sigProposer f) ->
  sys_inv s0 h (put sg X (fst (onMove P f (sg X)))).
Proof.
  intros Hb Hi Huf. pose proof (inv_seats _ _ _ Hi X) as HX. pose proof (si_static _ _ _ _ HX) as Hst.
  destruct (onMove_cases P f (sg X)) as
    [(r & ->)|[(l & msg & g & Hl & Hn & _ & Hser & _ & ->)|
     (next & enc & u & msg & g & Hby & Hn & Had & _ & _ & _ & _ & Hv & _ & ->)]].
  - by apply step_same.
  - apply step_quiet; try done. intros msg' [Hm|?]%elem_of_emit; [|done].
    apply elem_of_emit in Hm as [?|[= <-]]; [by left|right].
    destruct (si_latest _ _ _ _ HX l Hl) as (e & He & Hu).
    destruct (inv_entries _ _ _ Hi _ e He) as (_ & _ & _ & _ & _ & Hser').
    left. exists (d_nonce (sg X)), e. split_and!; [done|congruence|lia].
  - destruct (admits_facts _ _ _ _ _ _ _ _ _ _ Hi Had) as (Hinv & Hl & Ht & Hnu & Hh).
    destruct Had as (E1 & _ & E2 & _ & E3).
    destruct Hst as (Hself & Htid & Htot & Hpk & Hopk & Hver). rewrite Hver in Hv.
    destruct (signed_entry _ _ _ _ _ _ Hi (Huf _ Hv) E3 Hl Ht) as (e & He & Hue & Hme & Hsigned).
    rewrite Hnu in He. rewrite Hself in Hby.
    assert (mf_by f = otherParty X) as Hby' by (destruct (mf_by f), X; done).
    assert (next = e_state e) as -> by (eapply entry_state; try done; congruence).
    apply (step_advance _ _ _ _ _ e Hi He); simpl; try done.
    + intros Hx. destruct Hsigned as [?|[_ Hy]]; [lia|]. rewrite Hx in Hy. by destruct X.
    + by apply (overtaken s0 h sg X).
    + intros msg'. rewrite !elem_of_app, !list_elem_of_singleton. intuition congruence.
    + eexists. split; [done|]. rewrite <- Hue. unfold coSign. by destruct (selfIsA _).
Qed.

Lemma step_ack s0 h sg X f :
  sys_inv s0 h sg -> unforged sg (otherParty X) (sigResponder f) ->
  sys_inv s0 h (put sg X (fst (onAck f (sg X)))).
Proof.
  intros Hi Huf. pose proof (inv_seats _ _ _ Hi X) as HX. pose proof (si_static _ _ _ _ HX) as Hst.
  destruct (onAck_cases f (sg X)) as [(r & ->)|(p & Hp & Hlt & Hn & Hv & ->)]; [by apply step_same|].
  destruct Hst as (Hself & Htid & Htot & Hpk & Hopk & Hver). rewrite Hver in Hv.
  destruct (si_pending _ _ _ _ HX p Hp) as (e & He & Hby & Hnext & Hupd & Hmsg).
  destruct (inv_entries _ _ _ Hi _ e He) as (_ & _ & (enc & _ & Hh) & Hne & Hte & Hser).
  rewrite Hmsg in Hv.
  destruct (signed_entry _ _ _ _ _ _ Hi (Huf _ Hv) Hser) as (e' & He' & _ & _ & Hsigned);
    [rewrite Hh; apply blake2b_length|done|].
  rewrite Hne in He', Hsigned. replace e' with e in * by congruence.
  apply (step_advance _ _ _ _ _ e Hi He); simpl; try done.
  - intros _. destruct Hsigned as [?|[_ Hx]]; [done|]. rewrite Hby in Hx. by destruct X.
  - by rewrite Hupd.
  - intros msg'. rewrite !elem_of_app, !list_elem_of_singleton. intuition congruence.
  - eexists. split; [done|]. rewrite <- Hupd. unfold coSign. by destruct (selfIsA _).
Qed.

Lemma step_adopt s0 h sg X s co :
  hash_binding -> sys_inv s0 h sg -> inv tot s -> unforged sg PartyA (sigA co) ->
  unforged sg PartyB (sigB co) ->
  sys_inv s0 h (put sg X (fst (adoptCheckpoint P s co (sg X)))).
Proof.
  intros Hb Hi Hs HufA HufB. pose proof (inv_seats _ _ _ Hi X) as HX. pose proof (si_static _ _ _ _ HX) as Hst.
  destruct (adoptCheckpoint_cases P s co (sg X)) as
    [(r & ->)|(enc & msg & Ht & Hle & _ & Henc & Hh & Hser & HvA & HvB & ->)]; [by apply step_same|].
  pose proof Hst as (Hself & Htid & Htot & Hpk & Hopk & Hver).
  assert (signed_by sg PartyA msg /\ signed_by sg PartyB msg) as [HsA HsB].
  { unfold selfIsA in HvA, HvB. rewrite Hself in HvA, HvB.
    destruct X; simpl in *; rewrite ?Hpk, ?Hopk in HvA; rewrite ?Hpk, ?Hopk in HvB; (split; [by apply HufA|by apply HufB]). }
  assert (signed_by sg X msg /\ signed_by sg (otherParty X) msg) as [Hsx Hso] by (by destruct X).
  assert (length (stateHash (update co)) = 32%nat) as Hl by (rewrite Hh; apply blake2b_length).
  destruct (signed_entry _ _ _ _ _ _ Hi Hsx Hser Hl) as (e & He & Hue & _ & Hx); [congruence|].
  destruct (signed_entry _ _ _ _ _ _ Hi Hso Hser Hl) as (e' & He' & _ & _ & Ho); [congruence|].
  replace e' with e in * by congruence.
  assert (s = e_state e) as -> by (eapply entry_state; try done; congruence).
  destruct (decide (nonce (update co) = d_nonce (sg X))) as [Heq|Hne].
  - apply sys_inv_quiet; [done| |simpl; done].
    rewrite Heq in He. pose proof (state_at_entry s0 _ _ _ He) as Hse.
    rewrite (si_state _ _ _ _ HX) in Hse. injection Hse as Hse.
    eapply seat_inv_quiet; [exact HX|..]; simpl; try done; [|by eauto|right; by eauto].
    destruct (pending (sg X)) as [p|] eqn:Ep; [|done]. simpl.
    destruct (si_pending _ _ _ _ HX p Ep) as (e2 & He2 & _ & _ & Hup & _).
    destruct (inv_entries _ _ _ Hi _ e2 He2) as (_ & _ & _ & Hn2 & _).
    rewrite Hup, Hn2. rewrite (proj2 (Z.leb_gt _ _)) by lia. done.
  - destruct Hx as [?|[Hn Hby]]; [lia|]. rewrite Hn in He, Ho.
    apply (step_advance _ _ _ _ _ e Hi He); simpl; try done; try by auto.
    + intros _. destruct Ho as [?|[_ Hbo]]; [done|]. rewrite Hby in Hbo. by destruct X.
    + unfold keep_pending. destruct (pending (sg X)) as [p|] eqn:Ep; [|done].
      destruct (si_pending _ _ _ _ HX p Ep) as (e2 & He2 & _ & _ & Hup & _).
      destruct (inv_entries _ _ _ Hi _ e2 He2) as (_ & _ & _ & Hn2 & _).
      rewrite Hup, Hn2. rewrite (proj2 (Z.leb_le _ _)) by lia. done.
    + eauto.
Qed.

Lemma step_settle s0 h sg X ts n :
  sys_inv s0 h sg -> sys_inv s0 h (put sg X (fst (buildSettlementHalf P ts n (sg X)))).
Proof.
  intros Hi. unfold buildSettlementHalf, sign_self, ebind, eget, elift, emodify, eret, ethrow.
  destruct (serializeSettlement _) as [msg|] eqn:E; cbn [fst]; [|by apply step_same].
  destruct (ep_sign (self (sg X))); cbn [fst]; [|by apply step_same].
  apply step_quiet; try done; [apply (si_static _ _ _ _ (inv_seats _ _ _ Hi X))|].
  intros msg' [?|[= <-]]%elem_of_emit; [by left|right; right; left; eauto].
Qed.

Lemma step_settle_root s0 h sg X ts root n :
  sys_inv s0 h sg -> sys_inv s0 h (put sg X (fst (buildSettlementHalfWithRoot P ts root n (sg X)))).
Proof.
  intros Hi. unfold buildSettlementHalfWithRoot, sign_self, ebind, eget, elift, emodify, eret, ethrow.
  destruct (negb _); cbn [fst]; [by apply step_same|].
  destruct (serializeSettlementWithRoot _) as [msg|] eqn:E; cbn [fst]; [|by apply step_same].
  destruct (ep_sign (self (sg X))); cbn [fst]; [|by apply step_same].
  apply step_quiet; try done; [apply (si_static _ _ _ _ (inv_seats _ _ _ Hi X))|].
  intros msg' [?|[= <-]]%elem_of_emit; [by left|right; right; right; eauto].
Qed.

Lemma sys_step_inv s0 h sg sg' :
  exclusive -> hash_binding -> sys_inv s0 h sg -> sys_step sg sg' ->
  exists h', sys_inv s0 h' sg'.
Proof.
  intros Hex Hb Hi H. destruct H.
  - by apply (step_propose s0 h).
  - by apply (step_seat s0 h).
  - exists h. by apply step_resend.
  - exists h. by apply step_move.
  - exists h. by apply step_ack.
  - exists h. by apply step_adopt.
  - exists h. by apply step_settle.
  - exists h. by apply step_settle_root.
Qed.

Lemma opened_inv sg :
  ctx_ok {| ctx_tunnelId := tid; initialBalances := deposits |} -> lockable deposits ->
  (forall X, opened X (sg X)) -> exists s0, sys_inv s0 [] sg.
Proof.
  intros Hctx Hlock Ho.
  destruct (initialState P {| ctx_tunnelId := tid; initialBalances := deposits |}) as [s0|e] eqn:E0.
  2:{ destruct (Ho PartyA) as (? & ? & ? & _ & _ & _ & H). unfold newDistributedTunnel in H.
      rewrite E0 in H. inv_ok. }
  exists s0.
  pose proof (proj1 (laws_initial {| ctx_tunnelId := tid; initialBalances := deposits |} s0 Hctx Hlock E0)) as Hinv.
  assert (forall X, seat_inv s0 [] X (sg X) /\ d_nonce (sg X) = 0) as Hs.
  { intros X. destruct (Ho X) as (slf & opp & cd & _ & Hpk & Hopp & H).
    unfold newDistributedTunnel in H. rewrite E0 in H. cbn [rbind] in H. inv_ok.
    rewrite <- H. split; [|done]. split; simpl; try done; try lia.
    - split_and!; try done; rewrite Hopp; simpl; [done|]. intros m s. apply backend_verify.
    - intros n e He. unfold entry_at in He. by destruct (0 <? n).
    - intros msg Hm. by apply not_elem_of_nil in Hm. }
  split; [done|..].
  - intros n e He. unfold entry_at in He. by destruct (0 <? n).
  - intros X. apply Hs.
  - intros X e He. unfold entry_at in He. by destruct (0 <? _).
Qed.

Lemma reachable_inv sg :
  exclusive -> hash_binding ->
  ctx_ok {| ctx_tunnelId := tid; initialBalances := deposits |} -> lockable deposits ->
  reachable sg -> (exists s0 h, sys_inv s0 h sg) /\ (forall X, seat_safe bk P (sg X)).
Proof.
  intros Hex Hb Hctx Hlock. induction 1 as [sg Ho|sg sg' Hr [(s0 & h & Hi) Hs] Hstep].
  - split; [destruct (opened_inv sg Hctx Hlock Ho) as [s0 ?]; eauto|].
    intros X. destruct (Ho X) as (slf & opp & cd & Hown & _ & Hopp & H).
    eapply opened_safe; [done| |done]. unfold opp_endpoint. eauto.
  - split; [exists s0; by eapply sys_step_inv|].
    destruct Hstep; intros Y;
      (destruct (decide (Y = X)) as [->|?]; [rewrite put_same|by rewrite put_other]);
      eauto using safe_propose, safe_seatPending, safe_resend, safe_onMove, safe_onAck, safe_adopt,
        safe_settle, safe_settle_root.
Qed.

(** At most one nonce apart, in one direction. *)
Lemma nonce_gap s0 h sg X :
  sys_inv s0 h sg -> d_nonce (sg X) <= d_nonce (sg (otherParty X)) + 1.
Proof.
  intros Hi. pose proof (inv_seats _ _ _ Hi X) as HX. pose proof (inv_seats _ _ _ Hi (otherParty X)) as HY.
  pose proof (si_nonce _ _ _ _ HX). pose proof (si_nonce _ _ _ _ HY).
  destruct (Z.le_gt_cases (d_nonce (sg X)) 0); [lia|].
  destruct (entry_at_total h (d_nonce (sg X))) as [e He]; [lia|apply (state_at_le s0 h _ _ (si_state _ _ _ _ HX))|].
  destruct (decide (e_by e = X)) as [Hby|Hby]; [pose proof (inv_acked _ _ _ Hi X e He Hby); lia|].
  assert (e_by e = otherParty X) as Hby' by (destruct (e_by e), X; done).
  destruct (si_own _ _ _ _ HY _ e He Hby') as [?|[? _]]; lia.
Qed.

Lemma same_nonce s0 h sg X Y :
  sys_inv s0 h sg -> d_nonce (sg X) = d_nonce (sg Y) ->
  d_state (sg X) = d_state (sg Y) /\
  option_map update (d_latest (sg X)) = option_map update (d_latest (sg Y)).
Proof.
  intros Hi En. pose proof (inv_seats _ _ _ Hi X) as HX. pose proof (inv_seats _ _ _ Hi Y) as HY.
  split.
  - pose proof (si_state _ _ _ _ HX) as H1. pose proof (si_state _ _ _ _ HY) as H2.
    rewrite En, H2 in H1. congruence.
  - destruct (d_latest (sg X)) as [cx|] eqn:Ex, (d_latest (sg Y)) as [cy|] eqn:Ey; [..|done].
    + destruct (si_latest _ _ _ _ HX cx Ex) as (e & He & Hu).
      destruct (si_latest _ _ _ _ HY cy Ey) as (e' & He' & Hu'). simpl. f_equal. congruence.
    + destruct (si_latest _ _ _ _ HX cx Ex) as (e & He & _). apply entry_at_pos in He.
      destruct (si_has_latest _ _ _ _ HY); [lia|done].
    + destruct (si_latest _ _ _ _ HY cy Ey) as (e & He & _). apply entry_at_pos in He.
      destruct (si_has_latest _ _ _ _ HX); [lia|done].
Qed.

(** C1: two honest seats never fork.  When at every nonce at most one party may
    propose -- by the rules of the protocol ([accepts]) or because the callers
    take turns ([alternates]) -- and as long as state hashes do not collide,
    nobody on the wire (who cannot forge signatures) can bring the two seats to
    different histories: in every reachable system the nonces differ by at most
    one, seats at the same nonce hold the same state and the same last update,
    and each seat's balances are non-negative and sum to the locked total. *)
Theorem two_seats_agree sg :
  exclusive -> hash_binding ->
  ctx_ok {| ctx_tunnelId := tid; initialBalances := deposits |} -> lockable deposits ->
  reachable sg ->
  Z.abs (d_nonce (sg PartyA) - d_nonce (sg PartyB)) <= 1 /\
  (d_nonce (sg PartyA) = d_nonce (sg PartyB) ->
     d_state (sg PartyA) = d_state (sg PartyB) /\
     option_map update (d_latest (sg PartyA)) = option_map update (d_latest (sg PartyB))) /\
  forall X, 0 <= bal_a (balances P (d_state (sg X))) /\ 0 <= bal_b (balances P (d_state (sg X))) /\
    sum_of (balances P (d_state (sg X))) = sum_of deposits.
Proof.
  intros Hex Hb Hctx Hlock Hr. destruct (reachable_inv sg Hex Hb Hctx Hlock Hr) as [(s0 & h & Hi) _].
  split_and!.
  - pose proof (nonce_gap s0 h sg PartyA Hi). pose proof (nonce_gap s0 h sg PartyB Hi). simpl in *. lia.
  - by apply (same_nonce s0 h).
  - intros X. apply laws_balances. by apply (seat_state_inv s0 h).
Qed.

(** ** Resuming *)

Definition view_of (d : seat) : ResyncView :=
  {| rv_nonce := d_nonce d;
     hasPending := match pending d with Some _ => true | None => false end;
     checkpoint := d_latest d |}.

Lemma decideReconcile_adopt v w : decideReconcile v w = Adopt <-> rv_nonce v < rv_nonce w.
Proof.
  unfold decideReconcile. destruct (Z.ltb_spec (rv_nonce v) (rv_nonce w)); [done|].
  split; [|lia]. repeat case_match; discriminate.
Qed.

Lemma reachable_facing sg X :
  exclusive -> hash_binding ->
  ctx_ok {| ctx_tunnelId := tid; initialBalances := deposits |} -> lockable deposits ->
  reachable sg -> facing bk P (sg X) (sg (otherParty X)).
Proof.
  intros Hex Hb Hctx Hlock Hr. destruct (reachable_inv sg Hex Hb Hctx Hlock Hr) as [(s0 & h & Hi) Hs].
  destruct (si_static _ _ _ _ (inv_seats _ _ _ Hi X)) as (E1 & E2 & E3 & E4 & E5 & _).
  destruct (si_static _ _ _ _ (inv_seats _ _ _ Hi (otherParty X))) as (F1 & F2 & F3 & F4 & F5 & _).
  rewrite otherParty_involutive in F5. split_and!; try done; congruence.
Qed.

(** What two reachable seats know of each other. *)
Lemma reachable_facts sg :
  exclusive -> hash_binding ->
  ctx_ok {| ctx_tunnelId := tid; initialBalances := deposits |} -> lockable deposits ->
  reachable sg ->
  (forall X, inv tot (d_state (sg X)) /\ 0 <= d_nonce (sg X) /\
     (0 < d_nonce (sg X) -> exists co, d_latest (sg X) = Some co)) /\
  (forall X Y, d_nonce (sg X) = d_nonce (sg Y) ->
     d_state (sg X) = d_state (sg Y) /\
     option_map update (d_latest (sg X)) = option_map update (d_latest (sg Y))).
Proof.
  intros Hex Hb Hctx Hlock Hr. destruct (reachable_inv sg Hex Hb Hctx Hlock Hr) as [(s0 & h & Hi) _]. split.
  - intros X. pose proof (inv_seats _ _ _ Hi X) as Hx. split_and!.
    + by apply (seat_state_inv s0 h).
    + apply (si_nonce _ _ _ _ Hx).
    + intros Hn. pose proof (si_has_latest _ _ _ _ Hx Hn). destruct (d_latest (sg X)); [eauto|done].
  - intros X Y. by apply (same_nonce s0 h).
Qed.

(** A seat accepts the checkpoint of a seat of the same tunnel and keys that is
    not behind it. *)
Lemma adopt_known (dX dY : seat) co :
  seat_safe bk P dX -> seat_safe bk P dY -> d_tunnelId dX = d_tunnelId dY -> d_total dX = d_total dY ->
  pkA dX = pkA dY -> pkB dX = pkB dY -> d_nonce dX <= d_nonce dY -> d_latest dY = Some co ->
  adoptCheckpoint P (d_state dY) co dX =
    (with_confirmed (d_state dY) (d_nonce dY) co (keep_pending (pending dX) (d_nonce dY)) dX, Ok tt).
Proof.
  intros HsX HsY Et Etot KA KB Hle Hl.
  destruct (ss_latest _ _ _ HsY co Hl) as ((Hv & Ht & Hsum) & Hn & (enc & Henc & Hh)).
  assert (ep_scheme (self dX) = SCHEME_ED25519 /\ ep_scheme (opponent dX) = SCHEME_ED25519) as [S1 S2].
  { destruct (ss_self _ _ _ HsX) as (? & ? & _ & ->). destruct (ss_opp _ _ _ HsX) as (? & ? & ->). done. }
  unfold adoptCheckpoint, ebind, eget, elift. cbv zeta.
  rewrite Ht, <- Et, String.eqb_refl. cbn [negb].
  rewrite Hn, (proj2 (Z.ltb_ge _ _)), Hsum, <- Etot, Z.eqb_refl by done. cbn [negb].
  rewrite Henc, Hh, (proj2 (bytesEqual_spec _ _) eq_refl). cbn [negb].
  fold (pkA dX). fold (pkB dX). rewrite KA, KB.
  assert (ep_scheme (if selfIsA dX then self dX else opponent dX) = SCHEME_ED25519) as -> by (by destruct (selfIsA dX)).
  assert (ep_scheme (if selfIsA dX then opponent dX else self dX) = SCHEME_ED25519) as -> by (by destruct (selfIsA dX)).
  by rewrite Hv.
Qed.

(** A seat accepts the checkpoint of its peer when the peer is ahead. *)
Lemma adopt_peer (dX dY : seat) co :
  facing bk P dX dY -> d_nonce dX <= d_nonce dY -> d_latest dY = Some co ->
  adoptCheckpoint P (d_state dY) co dX =
    (with_confirmed (d_state dY) (d_nonce dY) co (keep_pending (pending dX) (d_nonce dY)) dX, Ok tt).
Proof.
  intros (HsX & HsY & Et & Etot & Ep & Ek1 & Ek2). apply adopt_known; try done;
    unfold pkA, pkB, selfIsA; rewrite Ep; destruct (selfParty dX); simpl; congruence.
Qed.

(** The resume handshake converges.  Between two honest seats the decision
    is never "settle"; when one side decides "adopt" the other decides "wait",
    and adopting the peer's checkpoint and state succeeds and leaves the seat
    with the peer's state, nonce and update and no pending proposal; when
    neither adopts, the seats already hold the same state, and only a seat with
    a pending proposal re-proposes. *)
Theorem reconcile_converges sg X :
  exclusive -> hash_binding ->
  ctx_ok {| ctx_tunnelId := tid; initialBalances := deposits |} -> lockable deposits ->
  reachable sg ->
  let Y := otherParty X in
  match decideReconcile (view_of (sg X)) (view_of (sg Y)) with
  | Settle => False
  | Adopt =>
      decideReconcile (view_of (sg Y)) (view_of (sg X)) = Wait /\
      exists co, d_latest (sg Y) = Some co /\
        snd (adoptCheckpoint P (d_state (sg Y)) co (sg X)) = Ok tt /\
        let d := fst (adoptCheckpoint P (d_state (sg Y)) co (sg X)) in
        d_state d = d_state (sg Y) /\ d_nonce d = d_nonce (sg Y) /\ d_latest d = d_latest (sg Y) /\
        pending d = None
  | Wait => decideReconcile (view_of (sg Y)) (view_of (sg X)) = Adopt
  | RePropose => d_state (sg X) = d_state (sg Y) /\ pending (sg X) <> None
  | Noop => d_state (sg X) = d_state (sg Y) /\ pending (sg X) = None
  end.
Proof.
  intros Hex Hb Hctx Hlock Hr. cbv zeta.
  destruct (reachable_inv sg Hex Hb Hctx Hlock Hr) as [(s0 & h & Hi) Hs].
  pose proof (reachable_facing sg X Hex Hb Hctx Hlock Hr) as Hf.
  set (Y := otherParty X) in *.
  unfold decideReconcile at 1. cbn [rv_nonce view_of].
  destruct (Z.ltb_spec (d_nonce (sg X)) (d_nonce (sg Y))) as [Hlt|Hge].
  - split.
    { unfold decideReconcile. cbn [rv_nonce view_of].
      rewrite (proj2 (Z.ltb_ge _ _)), (proj2 (Z.ltb_lt _ _)) by lia. done. }
    destruct (d_latest (sg Y)) as [co|] eqn:El.
    2:{ pose proof (ss_none _ _ _ (Hs Y) El). pose proof (si_nonce _ _ _ _ (inv_seats _ _ _ Hi X)). lia. }
    exists co. rewrite (adopt_peer _ _ co Hf) by (done || lia). cbn [fst snd]. split_and!; try done.
    cbn [pending with_confirmed]. unfold keep_pending.
    destruct (pending (sg X)) as [p|] eqn:Ep; [|done].
    destruct (ss_pending _ _ _ (Hs X) p Ep) as (Hnp & _). rewrite (proj2 (Z.leb_le _ _)) by lia. done.
  - destruct (Z.ltb_spec (d_nonce (sg Y)) (d_nonce (sg X))) as [Hlt|Hle]; [by apply decideReconcile_adopt|].
    destruct (same_nonce s0 h sg X Y Hi) as [Est Ela]; [lia|].
    cbn [checkpoint hasPending view_of].
    destruct (match d_latest (sg X) with Some _ => _ | None => _ end) eqn:Ec.
    { destruct (d_latest (sg X)) as [cx|], (d_latest (sg Y)) as [cy|]; try discriminate.
      simpl in Ela. injection Ela as Ela. rewrite Ela in Ec.
      by rewrite (proj2 (bytesEqual_spec _ _) eq_refl) in Ec. }
    destruct (pending (sg X)); done.
Qed.

End TwoSeats.

(** ** Two rules of who may propose *)

Section Rules.
Context {State Move : Type} (P : Protocol State Move) (inv : Z -> State -> Prop) (deposits : Balances).

(** In every state at most one party has an accepted move. *)
Definition turn_exclusive : Prop :=
  forall s m1 p1 s1 m2 p2 s2, inv (sum_of deposits) s ->
    applyMove P s m1 p1 = Ok s1 -> applyMove P s m2 p2 = Ok s2 -> p1 = p2.

(** Whoever has an accepted move may propose: every proposal is then rightful. *)
Definition accepts (n : Z) (s : State) (p : Party) : Prop := exists m s', applyMove P s m p = Ok s'.

Lemma accepts_exclusive : turn_exclusive -> exclusive inv deposits accepts.
Proof. intros Hex n s p q Hs (m1 & s1 & H1) (m2 & s2 & H2). by apply (Hex s m1 p s1 m2 q s2). Qed.

Lemma accepts_rightful d X m : rightful P accepts d X m.
Proof. intros s' H. by exists m, s'. Qed.

(** The callers alternate: who may propose depends on the nonce alone. *)
Definition alternates (whose : Z -> Party) (n : Z) (s : State) (p : Party) : Prop := whose n = p.

Lemma alternates_exclusive whose : exclusive inv deposits (alternates whose).
Proof. intros n s p q _ Hp Hq. unfold alternates in *. congruence. Qed.

End Rules.
