(* ===== verification/AgreementSamples.v ===== *)
(** The theorems on the two-seat engine applied to concrete seats, and the fork
    that simultaneous proposals cause in a protocol without turns.

    The seats run over [ideal_crypto], in which signatures cannot be forged.
    The turn-based protocol is a small one: the parties alternate, nothing moves. *)
From S2P Require Import Prelude.
From S2P Require Import Bytes.
From S2P Require Import Wire.
From S2P Require Import Crypto.
From S2P Require Import Payments.
From S2P Require Import Protocol.
From S2P Require Import Tunnel.
From S2P Require Import DistributedTunnel.
From S2P Require Import SeatSafety.
From S2P Require Import Agreement.

#[local] Existing Instance ideal_crypto.
#[local] Existing Instance ideal_crypto_laws.

Definition deposits : Balances := {| bal_a := 100; bal_b := 50 |}.

Definition sk (X : Party) : bytes := replicate 32 (match X with PartyA => 3 | PartyB => 4 end).

#[local] Arguments sk : simpl never.

Definition own (X : Party) : PartyEndpoint :=
  makeEndpoint nobleBackend "0x1" (sk X) SCHEME_ED25519 (Some (sk X)) true.
Definition peer (X : Party) : PartyEndpoint :=
  makeEndpoint nobleBackend "0x1" (sk X) SCHEME_ED25519 None false.

Lemma deposits_ok : lockable deposits.
Proof. unfold lockable, sum_of. simpl. rewrite U64_MAX_eq. lia. Qed.

Lemma own_ok X : own_endpoint nobleBackend (own X).
Proof. exists "0x1"%string, (sk X). by destruct X. Qed.

Lemma peer_ok X : opp_endpoint nobleBackend (peer X).
Proof. exists "0x1"%string, (sk X). done. Qed.

(** * Turns: the party of the count's parity counts up *)

Record Baton := { passes : Z; left_a : Z; left_b : Z }.

Definition baton_apply (s : Baton) (m : unit) (by_ : Party) : result Baton :=
  throw_if 9 <=? passes s with Error "over" ;
  throw_if negb (Bool.eqb (Z.even (passes s)) (party_eqb by_ PartyA)) with Error "not your turn" ;
  Ok {| passes := passes s + 1; left_a := left_a s; left_b := left_b s |}.

Definition BatonProtocol : Protocol Baton unit :=
  {| movesCarrySecrets := false;
     Protocol.initialState := fun ctx =>
       Ok {| passes := 0; left_a := bal_a (initialBalances ctx); left_b := bal_b (initialBalances ctx) |};
     Protocol.applyMove := baton_apply;
     Protocol.encodeState := fun s => Ok [passes s];
     Protocol.balances := fun s => {| bal_a := left_a s; bal_b := left_b s |};
     Protocol.isTerminal := fun s => 9 <=? passes s |}.

Definition baton_inv (tot : Z) (s : Baton) : Prop :=
  0 <= passes s <= 9 /\ left_a s = 100 /\ left_b s = 50 /\ tot = 150.

Definition baton_ctx (ctx : ProtocolContext) : Prop := initialBalances ctx = deposits.

#[local] Instance baton_laws : ProtocolLaws BatonProtocol baton_inv baton_ctx.
Proof.
  split.
  - intros ctx s Hc _ H. simpl in H. inv_ok. unfold baton_ctx in Hc. rewrite Hc.
    split; [|done]. split_and!; simpl; done.
  - intros tot s m p s' (? & ? & ? & ?) Hstp. simpl in Hstp. unfold baton_apply in Hstp. inv_ok. bool_to_prop.
    split_and!; simpl; lia.
  - intros tot s (? & Ha & Hb & Ht). simpl. unfold sum_of. simpl. lia.
Qed.

Lemma baton_exclusive : exclusive baton_inv deposits (accepts BatonProtocol).
Proof.
  apply accepts_exclusive. intros s [] p1 s1 [] p2 s2 _ H1 H2. simpl in *. unfold baton_apply in *. inv_ok. bool_to_prop.
  apply Bool.eqb_prop in E0, E1. rewrite E0 in E1. by destruct p1, p2.
Qed.

Lemma toy_digest_one a b :
  0 <= a <= 9 -> 0 <= b <= 9 -> toy_digest [a] = toy_digest [b] -> a = b.
Proof.
  intros Ha Hb H. unfold toy_digest in H. simpl fold_left in H.
  assert (forall x, 0 <= x <= 9 -> Z.land (7 * 257 + x + 1) toy_mask = 7 * 257 + x + 1) as Hm.
  { intros x Hx. change toy_mask with (Z.ones 256). rewrite Z.land_ones by done. apply Z.mod_small. lia. }
  rewrite !Hm in H by done.
  assert (forall v, 0 <= v < 2 ^ (8 * Z.of_nat 32) -> be_value (be_bytes 32 v) = v) as Hv.
  { intros v Hv. by apply be_value_be_bytes. }
  assert (7 * 257 + a + 1 = 7 * 257 + b + 1); [|lia].
  rewrite <- (Hv (7 * 257 + a + 1)), <- (Hv (7 * 257 + b + 1)) by lia. by rewrite H.
Qed.

Lemma baton_binding : hash_binding BatonProtocol baton_inv deposits.
Proof.
  intros s1 s2 e1 e2 (H1 & Ha1 & Hb1 & _) (H2 & Ha2 & Hb2 & _) E1 E2 Hh. simpl in E1, E2. inv_ok.
  apply toy_digest_one in Hh; [|done..]. destruct s1, s2; simpl in *; congruence.
Qed.

(** * Seats and systems *)

Section Seats.
Context {State Move : Type} (P : Protocol State Move).

Definition open_seat (X : Party) : result (DistributedTunnel State Move) :=
  newDistributedTunnel P "0xA1" (own X) (peer (otherParty X)) X false deposits.

(** The MOVE frame of a seat's pending proposal. *)
Definition move_frame (d : DistributedTunnel State Move) : option (MoveFrame Move) :=
  option_map (pendingMoveFrame d) (pending d).

Lemma open_seat_opened X d :
  open_seat X = Ok d -> opened nobleBackend P "0xA1" sk deposits X d.
Proof. intros H. exists (own X), (peer (otherParty X)), false. split; [apply own_ok|]. done. Qed.

(** A proposal's frame carries the proposer's signature over a message it signed. *)
Lemma proposal_unforged (sg : Party -> DistributedTunnel State Move) X d0 m ts d1 f :
  open_seat X = Ok d0 -> propose P m ts d0 = (d1, Ok tt) -> move_frame d1 = Some f ->
  effects (sg X) = effects d1 -> unforged sk sg X (sigProposer f).
Proof.
  intros Ho Hp Hf He msg Hv.
  destruct (propose_ok P _ _ _ _ Hp) as (next & enc & u & msg0 & g & _ & _ & _ & Hg & ->).
  unfold move_frame in Hf. simpl in Hf. injection Hf as <-. cbn [sigProposer pendingMoveFrame p_sigSelf] in Hv.
  assert (self d0 = own X) as Es by (unfold open_seat, newDistributedTunnel in Ho; inv_ok; done).
  rewrite Es in Hg. injection Hg as <-. apply ideal_verify in Hv.
  change (sk X ++ msg0 = sk X ++ msg) in Hv.
  apply app_inv_head in Hv as <-. unfold signed_by. rewrite He. simpl.
  rewrite !elem_of_app, !list_elem_of_singleton. auto.
Qed.

End Seats.

(** * Witnesses *)

Definition ping (X : Party) : result (DistributedTunnel Baton unit) := open_seat BatonProtocol X.

Definition sys_of (a b : DistributedTunnel Baton unit) : Party -> DistributedTunnel Baton unit :=
  fun X => match X with PartyA => a | PartyB => b end.

Lemma seat_safety_witness :
  exists d0, ping PartyA = Ok d0 /\
    d_nonce (do_calls BatonProtocol [CallPropose tt 5; CallFrame (FAck {| af_nonce := 1; sigResponder := [] |})] d0) = 0.
Proof.
  eexists. split; [reflexivity|].
  apply (proj1 (proj2 (seat_safety nobleBackend BatonProtocol "0xA1" (own PartyA) (peer PartyB) PartyA false
    deposits _ [CallPropose tt 5; CallFrame (FAck {| af_nonce := 1; sigResponder := [] |})]
    (own_ok PartyA) (peer_ok PartyB) eq_refl))).
  vm_compute. reflexivity.
Defined.

Lemma ping_facing dA dB :
  ping PartyA = Ok dA -> ping PartyB = Ok dB -> facing nobleBackend BatonProtocol dA dB.
Proof.
  intros HA HB.
  destruct (opened_safe nobleBackend BatonProtocol "0xA1" (own PartyA) (peer PartyB) PartyA false deposits dA
    (own_ok PartyA) (peer_ok PartyB) HA)
    as (SA & E1 & E2 & E3 & E4 & E5).
  destruct (opened_safe nobleBackend BatonProtocol "0xA1" (own PartyB) (peer PartyA) PartyB false deposits dB
    (own_ok PartyB) (peer_ok PartyA) HB)
    as (SB & F1 & F2 & F3 & F4 & F5).
  split_and!; try done; rewrite ?E3, ?E4, ?F3, ?F4, ?E5, ?F5, ?E1, ?F1, ?E2, ?F2; done.
Qed.

Lemma exchange_converges_witness :
  exists dA dB dA1 dB1 dA2 : DistributedTunnel Baton unit, ping PartyA = Ok dA /\ ping PartyB = Ok dB /\
    propose BatonProtocol tt 5 dA = (dA1, Ok tt) /\
    d_state dB1 = d_state dA2 /\ d_nonce dA2 = 1 /\ d_latest dA2 = d_latest dB1.
Proof.
  destruct (ping PartyA) as [dA|] eqn:EA; [|discriminate EA].
  destruct (ping PartyB) as [dB|] eqn:EB; [|discriminate EB].
  assert (d_state dA = d_state dB /\ d_nonce dA = d_nonce dB /\ d_nonce dA = 0) as (E1 & E2 & E3)
    by (cbv in EA, EB; injection EA as <-; injection EB as <-; done).
  destruct (propose BatonProtocol tt 5 dA) as [dA1 r] eqn:Ep.
  assert (r = Ok tt) as ->.
  { assert (match ping PartyA with
            | Ok d => match snd (propose BatonProtocol tt 5 d) with Ok _ => true | Throw _ => false end
            | Throw _ => false end = true) as F by (vm_compute; reflexivity).
    rewrite EA, Ep in F. simpl in F. destruct r as [[]|]; done. }
  destruct (exchange_converges nobleBackend BatonProtocol dA dB tt 5 dA1 (ping_facing dA dB EA EB) E1 E2 Ep)
    as (pre & mf & ack & dB1 & dA2 & u & _ & _ & _ & _ & _ & H1 & H2 & _ & H3 & H4 & _).
  exists dA, dB, dA1, dB1, dA2. split_and!; try done; [by rewrite H2, E3|congruence].
Defined.

(** A has proposed and B has accepted; the ACK is still on the way. *)
Definition half_way : result (Party -> DistributedTunnel Baton unit) :=
  let! a := ping PartyA in
  let! b := ping PartyB in
  let a1 := fst (propose BatonProtocol tt 5 a) in
  match move_frame a1 with
  | Some f => Ok (put (put (sys_of a b) PartyA a1) PartyB (fst (onMove BatonProtocol f b)))
  | None => Throw (Error "no proposal")
  end.

Lemma half_way_facts :
  match half_way with
  | Ok sg => (d_nonce (sg PartyA) =? 0) && (d_nonce (sg PartyB) =? 1) &&
             bool_decide (decideReconcile (view_of (sg PartyA)) (view_of (sg PartyB)) = Adopt)
  | Throw _ => false
  end = true.
Proof. vm_compute. reflexivity. Qed.

Lemma ping_proposes a : ping PartyA = Ok a -> exists a1, propose BatonProtocol tt 5 a = (a1, Ok tt).
Proof.
  intros Ha. assert (match ping PartyA with
    | Ok d => match snd (propose BatonProtocol tt 5 d) with Ok _ => true | Throw _ => false end
    | Throw _ => false end = true) as F by (vm_compute; reflexivity).
  rewrite Ha in F. destruct (propose BatonProtocol tt 5 a) as [a1 [[]|]]; [by eauto|done].
Qed.

Lemma half_way_reachable sg :
  half_way = Ok sg -> reachable nobleBackend BatonProtocol baton_inv "0xA1" sk deposits (accepts BatonProtocol) sg.
Proof.
  unfold half_way. intros H. apply rbind_ok in H as (a & Ha & H). apply rbind_ok in H as (b & Hb & H).
  destruct (ping_proposes a Ha) as [a1 Hp]. rewrite Hp in H. cbn [fst] in H.
  destruct (move_frame a1) as [f|] eqn:Ef; [|discriminate H]. apply Ok_inj in H as <-.
  set (sg1 := put (sys_of a b) PartyA a1).
  apply (reach_step _ _ _ _ _ _ _ sg1).
  - unfold sg1. replace a1 with (fst (propose BatonProtocol tt 5 (sys_of a b PartyA))) by (simpl; by rewrite Hp).
    eapply reach_step; [|apply StepPropose, accepts_rightful]. apply reach_init.
    intros []; simpl; by apply open_seat_opened.
  - change b with (sg1 PartyB). apply StepMove.
    exact (proposal_unforged BatonProtocol sg1 PartyA a tt 5 a1 f Ha Hp Ef eq_refl).
Qed.

Lemma two_seats_agree_witness :
  exists sg, half_way = Ok sg /\ d_nonce (sg PartyB) = 1 /\
    Z.abs (d_nonce (sg PartyA) - d_nonce (sg PartyB)) <= 1.
Proof.
  pose proof half_way_facts as F. destruct half_way as [sg|] eqn:E; [|discriminate F].
  bool_to_prop. exists sg. split; [reflexivity|]. split; [assumption|].
  exact (proj1 (two_seats_agree nobleBackend BatonProtocol baton_inv baton_ctx "0xA1" sk deposits
    (accepts BatonProtocol) sg baton_exclusive baton_binding eq_refl deposits_ok (half_way_reachable sg E))).
Defined.

Lemma reconcile_converges_witness :
  exists sg co, half_way = Ok sg /\ d_latest (sg PartyB) = Some co /\
    d_nonce (fst (adoptCheckpoint BatonProtocol (d_state (sg PartyB)) co (sg PartyA))) = 1.
Proof.
  pose proof half_way_facts as F. destruct half_way as [sg|] eqn:E; [|discriminate F].
  bool_to_prop.
  pose proof (reconcile_converges nobleBackend BatonProtocol baton_inv baton_ctx "0xA1" sk deposits
    (accepts BatonProtocol) sg PartyA baton_exclusive baton_binding eq_refl deposits_ok (half_way_reachable sg E)) as T. cbv zeta in T.
  cbn [otherParty] in T.
  match goal with H : decideReconcile _ _ = Adopt |- _ => rewrite H in T end.
  destruct T as (_ & co & Hco & _ & _ & Hn & _). exists sg, co.
  split; [reflexivity|]. split; [exact Hco|]. rewrite Hn. assumption.
Defined.

(** * Without turns: both seats propose at once *)

Definition pay (p : Party) (n : Z) : PaymentMove := {| from := p; amount := n |}.

(** Each seat pays the other ten and thirty before either has seen the other's frame. *)
Definition forked : result (Party -> DistributedTunnel PaymentsState PaymentMove) :=
  let! a := open_seat PaymentsProtocol PartyA in
  let! b := open_seat PaymentsProtocol PartyB in
  let a1 := fst (propose PaymentsProtocol (pay PartyA 10) 5 a) in
  let b1 := fst (propose PaymentsProtocol (pay PartyB 30) 6 b) in
  match move_frame a1, move_frame b1 with
  | Some fa, Some fb =>
      Ok (fun X => match X with
                   | PartyA => fst (onMove PaymentsProtocol fb a1)
                   | PartyB => fst (onMove PaymentsProtocol fa b1)
                   end)
  | _, _ => Throw (Error "no proposal")
  end.

Definition verified_latest (d : DistributedTunnel PaymentsState PaymentMove) : bool :=
  match d_latest d with
  | Some u => match verifyCoSignedUpdate u (sk PartyA) 0 (sk PartyB) 0 with Ok b => b | Throw _ => false end
  | None => false
  end.

Lemma forked_facts :
  match forked with
  | Ok sg =>
      (d_nonce (sg PartyA) =? 1) && (d_nonce (sg PartyB) =? 1) &&
      (bal_a (Protocol.balances PaymentsProtocol (d_state (sg PartyA))) =? 130) &&
      (bal_a (Protocol.balances PaymentsProtocol (d_state (sg PartyB))) =? 90) &&
      verified_latest (sg PartyA) && verified_latest (sg PartyB) &&
      bool_decide (decideReconcile (view_of (sg PartyA)) (view_of (sg PartyB)) = Settle)
  | Throw _ => false
  end = true.
Proof. vm_compute. reflexivity. Qed.

(** The engine does not protect a protocol in which both parties may move:
    when both seats of a payments tunnel propose before seeing the other's
    frame, each accepts the other's MOVE in place of its own proposal, both
    confirm nonce one with different states and updates signed by both keys,
    and the resume handshake can only fall back to settling. *)
Theorem simultaneous_proposals_fork :
  match forked with
  | Ok sg =>
      d_nonce (sg PartyA) = 1 /\ d_nonce (sg PartyB) = 1 /\
      bal_a (Protocol.balances PaymentsProtocol (d_state (sg PartyA))) = 130 /\
      bal_a (Protocol.balances PaymentsProtocol (d_state (sg PartyB))) = 90 /\
      verified_latest (sg PartyA) = true /\ verified_latest (sg PartyB) = true /\
      decideReconcile (view_of (sg PartyA)) (view_of (sg PartyB)) = Settle
  | Throw _ => False
  end.
Proof.
  pose proof forked_facts as F. destruct forked as [sg|]; [|discriminate F].
  bool_to_prop. by split_and!.
Qed.
