(* ===== verification/SettleBinary.v ===== *)
(** The binary settle body: [sui-tunnel-ts/src/proof/settleBinary.ts]. *)
From S2P Require Import Prelude.
From S2P Require Import Bytes.
From S2P Require Import Wire.

(** [src proof/settleBinary.ts SETTLE_BODY_VERSION] *)
Definition SETTLE_BODY_VERSION : Z := 1.

(** [src proof/settleBinary.ts HEADER_LEN] *)
Definition HEADER_LEN : nat := 229.

(** [src proof/settleBinary.ts SettleEntry] *)
Record SettleEntry := { message : bytes; e_sigA : bytes; e_sigB : bytes }.

(** [src proof/settleBinary.ts SettleBody] *)
Record SettleBody := {
  b_tunnelId : string;
  b_partyABalance : Z;
  b_partyBBalance : Z;
  b_finalNonce : Z;
  b_timestamp : Z;
  b_transcriptRoot : bytes;
  b_sigA : bytes;
  b_sigB : bytes;
  entries : list SettleEntry
}.

(** [parseInt(c1 + c2, 16)] stored into a [Uint8Array] cell: leading white space
    and a sign are skipped, digits are read up to the first other character, and
    NaN is stored as zero. *)
Definition is_js_space (c : Ascii.ascii) : bool :=
  let n := Ascii.N_of_ascii c in
  ((9 <=? n) && (n <=? 13) || (n =? 32))%N.

Definition parse_pair (c1 c2 : Ascii.ascii) : Z :=
  match hex_val c1, hex_val c2 with
  | Some a, Some b => 16 * a + b
  | Some a, None => a
  | None, Some b =>
      if is_js_space c1 || Ascii.eqb c1 "+" then b
      else if Ascii.eqb c1 "-" then to_u8 (- b)
      else 0
  | None, None => 0
  end.

Fixpoint parse_pairs (n : nat) (s : string) : bytes :=
  match n, s with
  | S n', String c1 (String c2 s') => parse_pair c1 c2 :: parse_pairs n' s'
  | _, _ => []
  end.

(** [src proof/settleBinary.ts id32]: the text is not validated, and only its
    first 64 digits are read. *)
Definition id32 (tunnel_id : string) : bytes :=
  let h := match tunnel_id with
           | String "0" (String "x" s') => s'
           | _ => tunnel_id
           end%char in
  parse_pairs 32 (padStart0 64 h).

(** [src proof/settleBinary.ts u16]: [setUint16] keeps the low 16 bits. *)
Definition u16 (n : nat) : bytes := be_bytes 2 (Z.of_nat n).

(** [src proof/settleBinary.ts u32]: [setUint32] keeps the low 32 bits. *)
Definition u32 (n : nat) : bytes := be_bytes 4 (Z.of_nat n).

(** [src proof/settleBinary.ts encodeSettleBody] *)
Definition encodeSettleBody (b : SettleBody) : result bytes :=
  throw_if negb (length (b_transcriptRoot b) =? 32)%nat with Error "transcriptRoot must be 32 bytes" ;
  throw_if negb (length (b_sigA b) =? 64)%nat || negb (length (b_sigB b) =? 64)%nat
    with Error "settlement sigs must be 64 bytes" ;
  let! a := u64ToBeBytes (b_partyABalance b) in
  let! bb := u64ToBeBytes (b_partyBBalance b) in
  let! n := u64ToBeBytes (b_finalNonce b) in
  let! t := u64ToBeBytes (b_timestamp b) in
  let parts := [u8_from [SETTLE_BODY_VERSION]; id32 (b_tunnelId b); a; bb; n; t;
                b_transcriptRoot b; b_sigA b; b_sigB b; u32 (length (entries b))] in
  let! parts := rfold (fun parts e =>
    throw_if negb (length (e_sigA e) =? 64)%nat || negb (length (e_sigB e) =? 64)%nat
      with Error "entry sigs must be 64 bytes" ;
    Ok (parts ++ [u16 (length (message e)); message e; e_sigA e; e_sigB e])) parts (entries b) in
  concatBytes parts.

(** [dv.getUint16(off, false)] and [dv.getUint32(off, false)] *)
Definition getUint (w : nat) (bs : bytes) (off : nat) : result Z :=
  throw_if (length bs <? off + w)%nat with RangeError "Offset is outside the bounds of the DataView" ;
  Ok (be_value (u8_slice bs off (off + w))).

(** [src proof/settleBinary.ts:84-98 decodeSettleEntries] the loop; each round
    reads at least 130 bytes *)
Fixpoint decode_entries_loop (fuel : nat) (bs : bytes) (off : nat) (acc : list SettleEntry)
  : result (list SettleEntry) :=
  match fuel with
  | O => Throw OutOfFuel
  | S fuel' =>
      if (off <? length bs)%nat then
        throw_if (length bs <? off + 2)%nat with Error "truncated entry length prefix" ;
        let! msgLen := getUint 2 bs off in
        let n := Z.to_nat msgLen in
        let off := (off + 2)%nat in
        throw_if (length bs <? off + n + 128)%nat with Error "truncated entry body" ;
        let m := u8_slice bs off (off + n) in
        let off := (off + n)%nat in
        let sA := u8_slice bs off (off + 64) in
        let off := (off + 64)%nat in
        let sB := u8_slice bs off (off + 64) in
        decode_entries_loop fuel' bs (off + 64) (acc ++ [{| message := m; e_sigA := sA; e_sigB := sB |}])
      else Ok acc
  end.

(** [src proof/settleBinary.ts decodeSettleEntries] *)
Definition decodeSettleEntries (bs : bytes) : result (list SettleEntry) :=
  decode_entries_loop (S (length bs)) bs 0 [].

(** [src proof/settleBinary.ts:117-127 decodeSettleBody] the loop over [count] *)
Fixpoint decode_body_loop (count : nat) (bs : bytes) (off : nat) (acc : list SettleEntry)
  : result (list SettleEntry) :=
  match count with
  | O => Ok acc
  | S count' =>
      let! msgLen := getUint 2 bs off in
      let n := Z.to_nat msgLen in
      let off := (off + 2)%nat in
      let m := u8_slice bs off (off + n) in
      let off := (off + n)%nat in
      let sA := u8_slice bs off (off + 64) in
      let off := (off + 64)%nat in
      let sB := u8_slice bs off (off + 64) in
      decode_body_loop count' bs (off + 64) (acc ++ [{| message := m; e_sigA := sA; e_sigB := sB |}])
  end.

(** [src proof/settleBinary.ts decodeSettleBody] *)
Definition decodeSettleBody (bs : bytes) : result SettleBody :=
  throw_if (length bs <? HEADER_LEN)%nat with Error "settle body too short" ;
  throw_if negb (bs !!! 0%nat =? SETTLE_BODY_VERSION) with Error "unexpected settle version" ;
  let tunnel_id := ("0x" ++ toHex (u8_slice bs 1 33))%string in
  let! a := u64FromBeBytes bs 33 in
  let! b := u64FromBeBytes bs 41 in
  let! n := u64FromBeBytes bs 49 in
  let! t := u64FromBeBytes bs 57 in
  let! count := getUint 4 bs 225 in
  let! es := decode_body_loop (Z.to_nat count) bs HEADER_LEN [] in
  Ok {| b_tunnelId := tunnel_id; b_partyABalance := a; b_partyBBalance := b; b_finalNonce := n;
        b_timestamp := t; b_transcriptRoot := u8_slice bs 65 97; b_sigA := u8_slice bs 97 161;
        b_sigB := u8_slice bs 161 225; entries := es |}.

(** * Entries on the wire *)

Definition entry_bytes (e : SettleEntry) : bytes :=
  u16 (length (message e)) ++ message e ++ e_sigA e ++ e_sigB e.

Definition entries_bytes (es : list SettleEntry) : bytes := concat (map entry_bytes es).

(** Entries the format can carry. *)
Definition entry_fits (e : SettleEntry) : Prop :=
  Z.of_nat (length (message e)) < 65536 /\ length (e_sigA e) = 64%nat /\ length (e_sigB e) = 64%nat.

#[export] Instance entry_fits_dec e : Decision (entry_fits e).
Proof. unfold entry_fits. apply _. Defined.

Lemma getUint_at w pre v post :
  0 <= v < 2 ^ (8 * Z.of_nat w) -> getUint w (pre ++ be_bytes w v ++ post) (length pre) = Ok v.
Proof.
  intros Hv. unfold getUint. rewrite (proj2 (Nat.ltb_ge _ _)).
  2:{ rewrite !length_app, length_be_bytes. lia. }
  unfold u8_slice. rewrite drop_app_length. replace (_ - _)%nat with w by lia.
  rewrite take_app_exact by (by rewrite length_be_bytes). by rewrite be_value_be_bytes.
Qed.

Lemma getUint_inv w bs off v :
  bytes_ok bs -> getUint w bs off = Ok v ->
  be_bytes w v = u8_slice bs off (off + w) /\ 0 <= v < 2 ^ (8 * Z.of_nat w) /\ (off + w <= length bs)%nat.
Proof.
  unfold getUint. intros Hok H. inv_ok. bool_to_prop.
  assert (length (u8_slice bs off (off + w)) = w) as Hl
    by (unfold u8_slice; rewrite length_take, length_drop; lia).
  assert (bytes_ok (u8_slice bs off (off + w))) as Hs by (by apply Forall_take, Forall_drop).
  pose proof (be_value_range _ Hs) as Hr. pose proof (be_bytes_be_value _ Hs) as Hb.
  rewrite Hl in Hr, Hb. done.
Qed.

Lemma length_entry_bytes e :
  entry_fits e -> length (entry_bytes e) = (130 + length (message e))%nat.
Proof.
  intros (_ & HA & HB). unfold entry_bytes, u16. rewrite !length_app, length_be_bytes, HA, HB. lia.
Qed.

Lemma slice_at (pre x post : bytes) a b :
  a = length pre -> b = (a + length x)%nat -> u8_slice (pre ++ x ++ post) a b = x.
Proof.
  intros -> ->. unfold u8_slice. rewrite drop_app_length.
  replace (_ - _)%nat with (length x) by lia. apply take_app_length.
Qed.

(** Reading back one entry at its offset. *)
Lemma read_entry pre e post :
  entry_fits e ->
  let bs := pre ++ entry_bytes e ++ post in
  let n := length (message e) in
  let o := (length pre + 2)%nat in
  getUint 2 bs (length pre) = Ok (Z.of_nat n) /\
  u8_slice bs o (o + n) = message e /\
  u8_slice bs (o + n) (o + n + 64) = e_sigA e /\
  u8_slice bs (o + n + 64) (o + n + 64 + 64) = e_sigB e.
Proof.
  intros (Hm & HA & HB). cbv zeta. unfold entry_bytes, u16. rewrite <- !app_assoc. split_and!.
  - apply getUint_at. change (2 ^ (8 * Z.of_nat 2)) with 65536. lia.
  - rewrite (app_assoc pre). apply slice_at; [|done]. by rewrite length_app, length_be_bytes.
  - rewrite (app_assoc pre), (app_assoc (pre ++ _)).
    apply slice_at; [rewrite !length_app, length_be_bytes|]; lia.
  - rewrite (app_assoc pre), (app_assoc (pre ++ _)), (app_assoc ((pre ++ _) ++ _)).
    apply slice_at; [rewrite !length_app, length_be_bytes|]; lia.
Qed.

Lemma entry_eta e : {| message := message e; e_sigA := e_sigA e; e_sigB := e_sigB e |} = e.
Proof. by destruct e. Qed.

Lemma decode_body_loop_ok es pre post acc :
  Forall entry_fits es ->
  decode_body_loop (length es) (pre ++ entries_bytes es ++ post) (length pre) acc = Ok (acc ++ es).
Proof.
  intros Hf; revert pre acc; induction Hf as [|e es He Hes IH]; intros pre acc.
  { simpl. by rewrite app_nil_r. }
  unfold entries_bytes. cbn [map concat foldr length decode_body_loop]. fold (entries_bytes es).
  rewrite <- (app_assoc (entry_bytes e)).
  destruct (read_entry pre e (entries_bytes es ++ post) He) as (-> & E1 & E2 & E3). cbn [rbind].
  rewrite Nat2Z.id, E1, E2, E3, entry_eta.
  rewrite (app_assoc pre (entry_bytes e)).
  replace (length pre + 2 + length (message e) + 64 + 64)%nat with (length (pre ++ entry_bytes e))
    by (rewrite length_app, length_entry_bytes by done; lia).
  rewrite IH, <- app_assoc. done.
Qed.

Lemma decode_entries_loop_ok es pre acc fuel :
  Forall entry_fits es -> (length es < fuel)%nat ->
  decode_entries_loop fuel (pre ++ entries_bytes es) (length pre) acc = Ok (acc ++ es).
Proof.
  intros Hf; revert pre acc fuel; induction Hf as [|e es He Hes IH]; intros pre acc fuel Hfuel;
    (destruct fuel as [|fuel]; [simpl in Hfuel; lia|]); cbn [decode_entries_loop].
  { unfold entries_bytes. simpl. rewrite !app_nil_r, Nat.ltb_irrefl. done. }
  unfold entries_bytes. cbn [map concat foldr]. fold (entries_bytes es).
  destruct (read_entry pre e (entries_bytes es) He) as (E0 & E1 & E2 & E3).
  pose proof (length_entry_bytes e He) as Hl.
  rewrite (proj2 (Nat.ltb_lt _ _)) by (rewrite !length_app; lia).
  rewrite (proj2 (Nat.ltb_ge _ (length pre + 2))) by (rewrite !length_app; lia).
  rewrite E0. cbn [rbind]. rewrite Nat2Z.id.
  rewrite (proj2 (Nat.ltb_ge _ _)) by (rewrite !length_app; lia).
  rewrite E1, E2, E3, entry_eta, (app_assoc pre (entry_bytes e)).
  replace (length pre + 2 + length (message e) + 64 + 64)%nat with (length (pre ++ entry_bytes e))
    by (rewrite length_app; lia).
  rewrite IH by (simpl in Hfuel; lia). by rewrite <- app_assoc.
Qed.

(** The loop never runs out of fuel, and what it accepts is exactly the bytes of
    the entries it returns. *)
Lemma decode_entries_loop_inv fuel bs off acc :
  bytes_ok bs -> (length bs - off < fuel)%nat -> (off <= length bs)%nat ->
  match decode_entries_loop fuel bs off acc with
  | Ok r => exists es, r = acc ++ es /\ Forall entry_fits es /\ drop off bs = entries_bytes es
  | Throw e => e <> OutOfFuel
  end.
Proof.
  intros Hok; revert off acc; induction fuel as [|fuel IH]; intros off acc Hf Ho; [lia|].
  cbn [decode_entries_loop].
  destruct (Nat.ltb_spec off (length bs)) as [Hlt|Hge].
  2:{ exists []. rewrite app_nil_r. split_and!; [done|constructor|]. by rewrite drop_ge. }
  destruct (Nat.ltb_spec (length bs) (off + 2)); [done|].
  destruct (getUint 2 bs off) as [v|e] eqn:Eg; cbn [rbind].
  2:{ unfold getUint in Eg. destruct (length bs <? off + 2)%nat; congruence. }
  apply getUint_inv in Eg as (Ev & Hv & _); [|done].
  set (n := Z.to_nat v) in *. destruct (Nat.ltb_spec (length bs) (off + 2 + n + 128)) as [|Hlen]; [done|].
  specialize (IH (off + 2 + n + 64 + 64)%nat
    (acc ++ [{| message := u8_slice bs (off + 2) (off + 2 + n);
                e_sigA := u8_slice bs (off + 2 + n) (off + 2 + n + 64);
                e_sigB := u8_slice bs (off + 2 + n + 64) (off + 2 + n + 64 + 64) |}]) ltac:(lia) ltac:(lia)).
  destruct (decode_entries_loop fuel bs _ _) as [r|e]; [|done].
  destruct IH as (es & -> & Hfit & Hd). eexists. rewrite <- app_assoc. split; [reflexivity|].
  assert (forall a b, (a <= b <= length bs)%nat -> length (u8_slice bs a b) = (b - a)%nat) as Hsl
    by (intros a b Hab; unfold u8_slice; rewrite length_take, length_drop; lia).
  change (2 ^ (8 * Z.of_nat 2)) with 65536 in Hv.
  split.
  - constructor; [|done]. unfold entry_fits. simpl. rewrite !Hsl by lia. split_and!; lia.
  - unfold entries_bytes. cbn [map concat foldr app]. fold (entries_bytes es). rewrite <- Hd.
    unfold entry_bytes, u16. cbn [message e_sigA e_sigB]. rewrite Hsl by lia.
    replace (Z.of_nat (off + 2 + n - (off + 2))) with v by lia.
    rewrite Ev, !slice_slice by lia. unfold u8_slice.
    replace (off + 2 + n + 64 + 64)%nat with (off + (off + 2 + n + 64 + 64 - off))%nat at 2 by lia.
    rewrite <- drop_drop. by rewrite take_drop.
Qed.

(** * The header *)

Lemma parse_pair_hex c1 c2 :
  is_hex_char c1 = true -> is_hex_char c2 = true ->
  parse_pair c1 c2 = 16 * default 0 (hex_val c1) + default 0 (hex_val c2).
Proof. unfold is_hex_char, parse_pair. by destruct (hex_val c1), (hex_val c2). Qed.

Lemma parse_pairs_hex n s :
  all_hex s = true -> (String.length s <= 2 * n)%nat -> parse_pairs n s = hex_pairs s.
Proof.
  revert n. assert (forall k s, (String.length s <= k)%nat -> forall n, all_hex s = true ->
    (String.length s <= 2 * n)%nat -> parse_pairs n s = hex_pairs s) as Hgen.
  { clear s. induction k as [|k IH]; intros s Hk n Hh Hl.
    { destruct s; [by destruct n|simpl in Hk; lia]. }
    destruct s as [|c1 [|c2 s]]; [by destruct n|by destruct n|].
    destruct n as [|n]; [simpl in Hl; lia|]. simpl in Hh, Hl, Hk. bool_to_prop.
    cbn [parse_pairs hex_pairs]. rewrite parse_pair_hex by done. f_equal. apply IH; [lia|done|lia]. }
  intros n. by apply (Hgen (String.length s)).
Qed.

(** On the text the system itself writes, the header carries the address. *)
Lemma id32_toHex id : bytes_ok id -> length id = 32%nat -> id32 ("0x" ++ toHex id) = id.
Proof.
  intros Hok Hl. unfold id32. cbn [String.append].
  pose proof (all_hex_toHex id Hok) as Hh. pose proof (length_toHex id) as Hlen. rewrite Hl in Hlen.
  change (String "0" (String "x" ("" ++ toHex id))) with ("0x" ++ toHex id)%string.
  change (match ("0x" ++ toHex id)%string with
          | String "0" (String "x" s') => s' | _ => ("0x" ++ toHex id)%string end) with (toHex id).
  rewrite padStart0_full, parse_pairs_hex by (done || lia). by apply hex_pairs_toHex.
Qed.

Lemma length_parse_pairs n s : (2 * n <= String.length s)%nat -> length (parse_pairs n s) = n.
Proof.
  revert s; induction n as [|n IH]; intros [|c1 [|c2 s]] Hl; simpl in *; try lia.
  f_equal. apply IH. lia.
Qed.

Definition header_bytes (b : SettleBody) : bytes :=
  [SETTLE_BODY_VERSION] ++ id32 (b_tunnelId b) ++ be_bytes 8 (b_partyABalance b) ++
  be_bytes 8 (b_partyBBalance b) ++ be_bytes 8 (b_finalNonce b) ++ be_bytes 8 (b_timestamp b) ++
  b_transcriptRoot b ++ b_sigA b ++ b_sigB b ++ u32 (length (entries b)).

(** What [encodeSettleBody] accepts. *)
Definition encodable (b : SettleBody) : Prop :=
  length (b_transcriptRoot b) = 32%nat /\ length (b_sigA b) = 64%nat /\ length (b_sigB b) = 64%nat /\
  u64_range (b_partyABalance b) /\ u64_range (b_partyBBalance b) /\ u64_range (b_finalNonce b) /\
  u64_range (b_timestamp b) /\
  Forall (fun e => length (e_sigA e) = 64%nat /\ length (e_sigB e) = 64%nat) (entries b).

Definition push_entry (parts : list bytes) (e : SettleEntry) : result (list bytes) :=
  throw_if negb (length (e_sigA e) =? 64)%nat || negb (length (e_sigB e) =? 64)%nat
    with Error "entry sigs must be 64 bytes" ;
  Ok (parts ++ [u16 (length (message e)); message e; e_sigA e; e_sigB e]).

Lemma push_entries es parts :
  Forall (fun e => length (e_sigA e) = 64%nat /\ length (e_sigB e) = 64%nat) es ->
  exists ps, rfold push_entry parts es = Ok ps /\ concat ps = concat parts ++ entries_bytes es.
Proof.
  intros Hf; revert parts; induction Hf as [|e es [HA HB] _ IH]; intros parts.
  { exists parts. split; [done|]. unfold entries_bytes. simpl. by rewrite app_nil_r. }
  cbn [rfold]. unfold push_entry at 1. rewrite HA, HB. simpl negb. cbn [orb rbind].
  destruct (IH (parts ++ [u16 (length (message e)); message e; e_sigA e; e_sigB e])) as (ps & -> & Hps).
  exists ps. split; [done|]. rewrite Hps, concat_app. unfold entries_bytes, entry_bytes. cbn [map concat foldr].
  by rewrite app_nil_r, <- !app_assoc.
Qed.

Lemma encodeSettleBody_ok b :
  encodable b -> encodeSettleBody b = Ok (header_bytes b ++ entries_bytes (entries b)).
Proof.
  intros (Hr & HA & HB & Ra & Rb & Rn & Rt & Hes). unfold encodeSettleBody.
  rewrite Hr, HA, HB. cbn [Nat.eqb negb orb]. rewrite !u64ToBeBytes_total by done. cbn [rbind].
  change (rfold _ ?p (entries b)) with (rfold push_entry p (entries b)).
  destruct (push_entries (entries b) [u8_from [SETTLE_BODY_VERSION]; id32 (b_tunnelId b);
    be_bytes 8 (b_partyABalance b); be_bytes 8 (b_partyBBalance b); be_bytes 8 (b_finalNonce b);
    be_bytes 8 (b_timestamp b); b_transcriptRoot b; b_sigA b; b_sigB b; u32 (length (entries b))] Hes)
    as (ps & -> & Hc).
  cbn [rbind]. rewrite concatBytes_concat, Hc. done.
Qed.

Lemma length_id32 t : length (id32 t) = 32%nat.
Proof.
  unfold id32. apply length_parse_pairs. etransitivity; [|apply Nat.eq_le_incl; symmetry; apply length_string_zeros].
  lia.
Qed.

Lemma length_header b : encodable b -> length (header_bytes b) = HEADER_LEN.
Proof.
  intros (Hr & HA & HB & _). unfold header_bytes, u32.
  rewrite !length_app, !length_be_bytes, length_id32, Hr, HA, HB. reflexivity.
Qed.

(** Reading past a field of known width. *)
Lemma slice_skip (x r : bytes) n a b :
  length x = n -> (n <= a <= b)%nat -> u8_slice (x ++ r) a b = u8_slice r (a - n) (b - n).
Proof.
  intros <- [Ha Hb]. unfold u8_slice. rewrite drop_app_ge by done. f_equal. lia.
Qed.

Lemma getUint_skip w (x r : bytes) n o :
  length x = n -> (n <= o)%nat -> getUint w (x ++ r) o = getUint w r (o - n).
Proof.
  intros Hn Ho. unfold getUint. rewrite (slice_skip x r n) by (done || lia).
  replace (o + w - n)%nat with (o - n + w)%nat by lia.
  assert ((length (x ++ r) <? o + w)%nat = (length r <? o - n + w)%nat) as ->; [|done].
  rewrite length_app, Hn. destruct (Nat.ltb_spec (length r) (o - n + w)); bool_to_prop;
    [apply Nat.ltb_lt|apply Nat.ltb_ge]; lia.
Qed.

Lemma getUint_here w v r :
  0 <= v < 2 ^ (8 * Z.of_nat w) -> getUint w (be_bytes w v ++ r) 0 = Ok v.
Proof. intros Hv. by apply (getUint_at w []). Qed.

Lemma u64_read_getUint bs o : is_ok (getUint 8 bs o) = true -> u64FromBeBytes bs o = getUint 8 bs o.
Proof. unfold u64FromBeBytes, getUint. by destruct (length bs <? o + 8)%nat. Qed.

Lemma u64_read bs o v : getUint 8 bs o = Ok v -> u64FromBeBytes bs o = Ok v.
Proof. intros H. rewrite u64_read_getUint; by rewrite H. Qed.

Lemma u64_range_8 v : u64_range v -> 0 <= v < 2 ^ (8 * Z.of_nat 8).
Proof. unfold u64_range. rewrite U64_MAX_eq. lia. Qed.

Ltac field_width := first [eassumption | apply length_be_bytes | progress simpl; reflexivity | lia].
Ltac skip_fields :=
  repeat (match goal with
  | |- u8_slice (?x ++ ?r) ?a ?b = _ => erewrite (slice_skip x r _ a b) by field_width
  | |- getUint ?w (?x ++ ?r) ?o = _ => erewrite (getUint_skip w x r _ o) by field_width
  end; cbn [Nat.sub]).

(** The fields of the header, read back at their offsets. *)
Lemma header_fields b rest :
  encodable b -> Z.of_nat (length (entries b)) < 2 ^ 32 ->
  let bs := header_bytes b ++ rest in
  bs !!! 0%nat = SETTLE_BODY_VERSION /\ u8_slice bs 1 33 = id32 (b_tunnelId b) /\
  u64FromBeBytes bs 33 = Ok (b_partyABalance b) /\ u64FromBeBytes bs 41 = Ok (b_partyBBalance b) /\
  u64FromBeBytes bs 49 = Ok (b_finalNonce b) /\ u64FromBeBytes bs 57 = Ok (b_timestamp b) /\
  u8_slice bs 65 97 = b_transcriptRoot b /\ u8_slice bs 97 161 = b_sigA b /\
  u8_slice bs 161 225 = b_sigB b /\ getUint 4 bs 225 = Ok (Z.of_nat (length (entries b))).
Proof.
  intros (Hr & HA & HB & Ra & Rb & Rn & Rt & _) Hc. cbv zeta. unfold header_bytes, u32.
  pose proof (length_id32 (b_tunnelId b)) as Hid.
  apply u64_range_8 in Ra, Rb, Rn, Rt.
  rewrite <- !app_assoc. split_and!; try apply u64_read.
  - done.
  - skip_fields. by apply (slice_at []).
  - skip_fields. by apply getUint_here.
  - skip_fields. by apply getUint_here.
  - skip_fields. by apply getUint_here.
  - skip_fields. by apply getUint_here.
  - skip_fields. by apply (slice_at []).
  - skip_fields. by apply (slice_at []).
  - skip_fields. by apply (slice_at []).
  - skip_fields. apply getUint_here. change (2 ^ (8 * Z.of_nat 4)) with (2 ^ 32). lia.
Qed.

(** Decoding what was encoded: everything but the spelling of the tunnel id. *)
Lemma decode_encoded b :
  encodable b -> Forall entry_fits (entries b) -> Z.of_nat (length (entries b)) < 2 ^ 32 ->
  decodeSettleBody (header_bytes b ++ entries_bytes (entries b)) =
    Ok {| b_tunnelId := "0x" ++ toHex (id32 (b_tunnelId b)); b_partyABalance := b_partyABalance b;
          b_partyBBalance := b_partyBBalance b; b_finalNonce := b_finalNonce b;
          b_timestamp := b_timestamp b; b_transcriptRoot := b_transcriptRoot b;
          b_sigA := b_sigA b; b_sigB := b_sigB b; entries := entries b |}.
Proof.
  intros He Hf Hc.
  destruct (header_fields b (entries_bytes (entries b)) He Hc) as
    (F1 & F2 & F3 & F4 & F5 & F6 & F7 & F8 & F9 & F10).
  pose proof (length_header b He) as Hh.
  unfold decodeSettleBody. rewrite (proj2 (Nat.ltb_ge _ _)) by (rewrite length_app; lia).
  rewrite F1, F2, F3, F4, F5, F6, F7, F8, F9, F10. cbn [Z.eqb SETTLE_BODY_VERSION Pos.eqb negb rbind].
  rewrite Nat2Z.id. pose proof (decode_body_loop_ok (entries b) (header_bytes b) [] [] Hf) as D.
  rewrite app_nil_r, Hh in D. rewrite D. done.
Qed.

Lemma length_entries_bytes es : Forall entry_fits es -> (length es < S (length (entries_bytes es)))%nat.
Proof.
  induction 1 as [|e es He _ IH]; [simpl; lia|].
  unfold entries_bytes. cbn [map concat foldr length]. fold (entries_bytes es).
  rewrite length_app, length_entry_bytes by done. lia.
Qed.

(** A body whose every field survives the format. *)
Definition body_fits (b : SettleBody) : Prop :=
  encodable b /\ Forall entry_fits (entries b) /\ Z.of_nat (length (entries b)) < 2 ^ 32 /\
  exists id, bytes_ok id /\ length id = 32%nat /\ b_tunnelId b = ("0x" ++ toHex id)%string.

(** The settle body is a faithful archive.  Every body whose messages are
    shorter than 2^16 bytes, with fewer than 2^32 entries and a full-length
    lower-case tunnel id, is encoded, and decoding the bytes gives it back; the
    run of entries after the 229-byte header decodes on its own to the same
    entries. *)
Theorem settle_body_roundtrip b :
  body_fits b ->
  exists bs, encodeSettleBody b = Ok bs /\ decodeSettleBody bs = Ok b /\
    decodeSettleEntries (drop HEADER_LEN bs) = Ok (entries b).
Proof.
  intros (He & Hf & Hc & id & Hok & Hl & Ht).
  exists (header_bytes b ++ entries_bytes (entries b)). split; [by apply encodeSettleBody_ok|].
  pose proof (length_header b He) as Hh. split.
  - rewrite decode_encoded, Ht, id32_toHex, <- Ht by done. by destruct b.
  - rewrite drop_app_exact by done.
    apply (decode_entries_loop_ok (entries b) []); [done|by apply length_entries_bytes].
Qed.

(** The entry decoder accepts exactly the encodings: on any byte string it
    returns or throws (it never runs on), and it returns [es] exactly when the
    bytes are the concatenation of the encodings of [es]; nothing is skipped,
    padded or cut short. *)
Theorem decode_entries_exact bs :
  bytes_ok bs ->
  decodeSettleEntries bs <> Throw OutOfFuel /\
  forall es, decodeSettleEntries bs = Ok es <-> Forall entry_fits es /\ bs = entries_bytes es.
Proof.
  intros Hok. unfold decodeSettleEntries.
  pose proof (decode_entries_loop_inv (S (length bs)) bs 0 [] Hok ltac:(lia) ltac:(lia)) as Hinv.
  split; [destruct (decode_entries_loop _ _ _ _); congruence|].
  intros es. split.
  - intros E. rewrite E in Hinv. destruct Hinv as (es' & -> & Hf & Hd). done.
  - intros [Hf ->]. apply (decode_entries_loop_ok es []); [done|by apply length_entries_bytes].
Qed.

Definition sample_body : SettleBody :=
  {| b_tunnelId := "0x" ++ toHex (replicate 32 10); b_partyABalance := 70; b_partyBBalance := 80;
     b_finalNonce := 1; b_timestamp := 1700; b_transcriptRoot := replicate 32 9;
     b_sigA := replicate 64 1; b_sigB := replicate 64 2;
     entries := [{| message := [1; 2; 3]; e_sigA := replicate 64 5; e_sigB := replicate 64 6 |};
                 {| message := []; e_sigA := replicate 64 7; e_sigB := replicate 64 8 |}] |}.

Lemma settle_body_roundtrip_witness :
  exists bs, encodeSettleBody sample_body = Ok bs /\ decodeSettleBody bs = Ok sample_body /\
    length bs = 492%nat.
Proof.
  destruct (settle_body_roundtrip sample_body) as (bs & E & D & _).
  - split; [|split; [|split]].
    + apply (bool_decide_unpack _). vm_compute. exact I.
    + apply (bool_decide_unpack _). vm_compute. exact I.
    + reflexivity.
    + exists (replicate 32 10). split; [|split; reflexivity].
      apply (bool_decide_unpack _). vm_compute. exact I.
  - exists bs. split; [exact E|]. split; [exact D|].
    vm_compute in E. injection E as <-. reflexivity.
Defined.

Lemma decode_entries_exact_witness :
  decodeSettleEntries (entries_bytes (entries sample_body)) = Ok (entries sample_body).
Proof.
  apply (proj2 (decode_entries_exact (entries_bytes (entries sample_body))
    ltac:(apply (bool_decide_unpack _); vm_compute; exact I))).
  split; [|reflexivity]. apply (bool_decide_unpack _). vm_compute. exact I.
Defined.
