(* ===== verification/Transcript.v ===== *)
(** The proof-of-existence transcript: [sui-tunnel-ts/src/proof/transcript.ts],
    and the per-tunnel move ceiling of [proof/limits.ts]. *)
From Stdlib Require Import Sorting.Sorted.
From S2P Require Import Prelude.
From S2P Require Import Bytes.
From S2P Require Import Wire.
From S2P Require Import Crypto.
From S2P Require Import Protocol.
From S2P Require Import Tunnel.
From S2P Require Import SettleBinary.

(** [src proof/limits.ts MAX_MOVES_PER_TUNNEL] *)
Definition MAX_MOVES_PER_TUNNEL : Z := 100000.

(** [src proof/limits.ts shouldRotateTunnel] *)
Definition shouldRotateTunnel (updateCount : Z) : bool := MAX_MOVES_PER_TUNNEL <=? updateCount.

(** [src proof/transcript.ts LEAF] *)
Definition LEAF : bytes := text_encode "sui_tunnel::transcript::leaf".
(** [src proof/transcript.ts NODE] *)
Definition NODE : bytes := text_encode "sui_tunnel::transcript::node".
(** [src proof/transcript.ts ZERO32] *)
Definition ZERO32 : bytes := u8_new 32.

(** [src proof/transcript.ts TranscriptEntry] *)
Record TranscriptEntry := { te_nonce : Z; te_message : bytes; te_sigA : bytes; te_sigB : bytes }.

(** [s.toLowerCase()] on ASCII text *)
Definition lower_char (c : Ascii.ascii) : Ascii.ascii :=
  let n := Ascii.N_of_ascii c in
  if ((65 <=? n) && (n <=? 90))%N then Ascii.ascii_of_N (n + 32) else c.

Fixpoint toLowerCase (s : string) : string :=
  match s with
  | EmptyString => EmptyString
  | String c s' => String (lower_char c) (toLowerCase s')
  end.

(** [src proof/transcript.ts normRoot] *)
Definition normRoot (hex : string) : string := toLowerCase (strip_0x hex).

(** [src proof/transcript.ts VerifyParams] *)
Record VerifyParams := {
  vp_keyA : bytes; vp_schemeA : Z; vp_keyB : bytes; vp_schemeB : Z;
  onchainRoot : string;
  lockedTotal : option Z
}.

(** [src proof/transcript.ts:73-79 TranscriptVerification] one step *)
Record VerifiedStep := {
  vs_nonce : Z; sigAValid : bool; sigBValid : bool; vs_partyABalance : Z; vs_partyBBalance : Z }.

(** [src proof/transcript.ts TranscriptVerification] *)
Record TranscriptVerification := {
  tv_ok : bool;
  rootMatches : bool;
  allSigsValid : bool;
  nonceMonotonic : bool;
  balancesConserved : bool;
  stepCount : nat;
  steps : list VerifiedStep;
  failures : list string
}.

(** The variables of the loop of [verifyEntries]. *)
Record Scan := {
  sc_sigs : bool; sc_nonces : bool; sc_balances : bool;
  prevNonce : option Z; sc_total : option Z;
  leaves : list bytes; sc_steps : list VerifiedStep
}.

(** [src proof/transcript.ts ProofRecord] *)
Record ProofRecord := {
  pr_tunnelId : string;
  pr_root : string;
  updateCount : nat;
  finalBalances : option (Z * Z);
  closedAtMs : option Z;
  pr_entries : list (Z * string * string * string)
}.

(** [src proof/transcript.ts:199-202 Transcript] *)
Record Transcript := {
  t_id : string;
  t_entries : list TranscriptEntry;
  t_leaves : list bytes
}.

(** [src proof/transcript.ts Transcript.constructor] *)
Definition newTranscript (tid : string) : Transcript :=
  {| t_id := tid; t_entries := []; t_leaves := [] |}.

(** [src proof/transcript.ts Transcript.rawEntries] *)
Definition rawEntries (t : Transcript) : list TranscriptEntry := t_entries t.

Section WithCrypto.
Context `{C : Crypto}.

(** The bytes a leaf and an inner node hash. *)
Definition leaf_preimage (msg sA sB : bytes) : bytes := LEAF ++ msg ++ sA ++ sB.
Definition node_preimage (l r : bytes) : bytes := NODE ++ l ++ r.

(** [src proof/transcript.ts transcriptLeaf] *)
Definition transcriptLeaf (e : TranscriptEntry) : result bytes :=
  let! p := concatBytes [LEAF; te_message e; te_sigA e; te_sigB e] in
  Ok (blake2b256 p).

(** [src proof/transcript.ts:45-47 transcriptRoot] one level of an even number of hashes *)
Fixpoint next_level (level : list bytes) : result (list bytes) :=
  match level with
  | l :: r :: level' =>
      let! p := concatBytes [NODE; l; r] in
      let! rest := next_level level' in
      Ok (blake2b256 p :: rest)
  | _ => Ok []
  end.

(** [src proof/transcript.ts:42-49 transcriptRoot] the loop *)
Fixpoint root_loop (fuel : nat) (level : list bytes) : result bytes :=
  match fuel with
  | O => Throw OutOfFuel
  | S fuel' =>
      if (1 <? length level)%nat then
        let level := if (length level mod 2 =? 1)%nat then level ++ [ZERO32] else level in
        let! next := next_level level in
        root_loop fuel' next
      else match level with
           | root :: _ => Ok root
           | [] => Throw (TypeError "undefined")
           end
  end.

(** [src proof/transcript.ts transcriptRoot]: a level at least halves, so as many
    rounds as there are leaves are enough. *)
Definition transcriptRoot (lvs : list bytes) : result bytes :=
  match lvs with
  | [] => Ok ZERO32
  | _ => root_loop (length lvs) lvs
  end.

(** [src proof/transcript.ts:126-148 verifyEntries] one entry *)
Definition scan_entry (params : VerifyParams) (sc : Scan) (e : SettleEntry) : result Scan :=
  let! su := parseStateUpdate (message e) in
  let vA := verify (e_sigA e) (message e) (vp_keyA params) in
  let vB := verify (e_sigB e) (message e) (vp_keyB params) in
  let sigs := if negb vA || negb vB then false else sc_sigs sc in
  let nonces := match prevNonce sc with
                | Some p => if nonce su <=? p then false else sc_nonces sc
                | None => sc_nonces sc
                end in
  let sum := partyABalance su + partyBBalance su in
  let tot := match sc_total sc with None => Some sum | Some t => Some t end in
  let bals := match sc_total sc with
              | Some t => if sum =? t then sc_balances sc else false
              | None => sc_balances sc
              end in
  let! leaf := transcriptLeaf {| te_nonce := nonce su; te_message := message e;
                                 te_sigA := e_sigA e; te_sigB := e_sigB e |} in
  Ok {| sc_sigs := sigs; sc_nonces := nonces; sc_balances := bals;
        prevNonce := Some (nonce su); sc_total := tot;
        leaves := leaves sc ++ [leaf];
        sc_steps := sc_steps sc ++
          [{| vs_nonce := nonce su; sigAValid := vA; sigBValid := vB;
              vs_partyABalance := partyABalance su; vs_partyBBalance := partyBBalance su |}] |}.

Definition scan_start (params : VerifyParams) : Scan :=
  {| sc_sigs := true; sc_nonces := true; sc_balances := true;
     prevNonce := None; sc_total := lockedTotal params; leaves := []; sc_steps := [] |}.

(** [src proof/transcript.ts verifyEntries] *)
Definition verifyEntries (es : list SettleEntry) (params : VerifyParams)
    (bodyHeaderRoot : option string) : result TranscriptVerification :=
  throw_if negb (vp_schemeA params =? SCHEME_ED25519) || negb (vp_schemeB params =? SCHEME_ED25519)
    with Error "verifyTranscript currently supports ed25519 only" ;
  let! sc := rfold (scan_entry params) (scan_start params) es in
  let! root := transcriptRoot (leaves sc) in
  let recomputed := toHex root in
  let matches := String.eqb recomputed (normRoot (onchainRoot params)) &&
    match bodyHeaderRoot with
    | None => true
    | Some r => String.eqb recomputed (normRoot r)
    end in
  Ok {| tv_ok := matches && sc_sigs sc && sc_nonces sc && sc_balances sc;
        rootMatches := matches;
        allSigsValid := sc_sigs sc;
        nonceMonotonic := sc_nonces sc;
        balancesConserved := sc_balances sc;
        stepCount := length es;
        steps := sc_steps sc;
        failures :=
          (if matches then [] else ["merkle root does not match the on-chain anchor"%string]) ++
          (if sc_sigs sc then [] else ["one or more dual signatures are invalid"%string]) ++
          (if sc_nonces sc then [] else ["nonces are not strictly increasing"%string]) ++
          (if sc_balances sc then [] else ["balance conservation violated"%string]) |}.

(** [src proof/transcript.ts verifyTranscript] *)
Definition verifyTranscript (blob : bytes) (params : VerifyParams) : result TranscriptVerification :=
  let! decoded := decodeSettleBody blob in
  verifyEntries (entries decoded) params (Some (toHex (b_transcriptRoot decoded))).

(** [src proof/transcript.ts verifyTranscriptEntries] *)
Definition verifyTranscriptEntries (entriesBlob : bytes) (params : VerifyParams)
  : result TranscriptVerification :=
  let! es := decodeSettleEntries entriesBlob in
  verifyEntries es params None.

(** [src proof/transcript.ts Transcript.append] *)
Definition append (t : Transcript) (u : CoSignedUpdate) : result Transcript :=
  let! msg := serializeStateUpdate (update u) in
  let e := {| te_nonce := nonce (update u); te_message := msg; te_sigA := sigA u; te_sigB := sigB u |} in
  let! leaf := transcriptLeaf e in
  Ok {| t_id := t_id t; t_entries := t_entries t ++ [e]; t_leaves := t_leaves t ++ [leaf] |}.

(** [src proof/transcript.ts Transcript.root] *)
Definition root (t : Transcript) : result bytes := transcriptRoot (t_leaves t).

(** [src proof/transcript.ts Transcript.toRecord]; the numbers stay numbers. *)
Definition toRecord (t : Transcript) (bals : option (Z * Z)) (closed : option Z) : result ProofRecord :=
  let! r := root t in
  Ok {| pr_tunnelId := t_id t;
        pr_root := toHex r;
        updateCount := length (t_entries t);
        finalBalances := bals;
        closedAtMs := closed;
        pr_entries := map (fun e => (te_nonce e, toHex (te_message e), toHex (te_sigA e),
                                     toHex (te_sigB e))) (t_entries t) |}.

(** * The Merkle root *)

(** Reference: one level, and the whole tree, without buffers. *)
Fixpoint level_up (level : list bytes) : list bytes :=
  match level with
  | l :: r :: level' => blake2b256 (node_preimage l r) :: level_up level'
  | _ => []
  end.

Definition padded (level : list bytes) : list bytes :=
  if (length level mod 2 =? 1)%nat then level ++ [ZERO32] else level.

Lemma next_level_up level : next_level level = Ok (level_up level).
Proof.
  assert (forall n level, (length level <= n)%nat -> next_level level = Ok (level_up level)) as H.
  { clear level. induction n as [|n IH]; intros [|l [|r level]] Hn; try done; simpl in Hn; [lia|].
    cbn [next_level level_up]. rewrite concatBytes_concat. cbn [rbind]. rewrite IH by lia.
    cbn [rbind concat foldr]. unfold node_preimage. by rewrite app_nil_r. }
  by apply (H (length level)).
Qed.

Lemma length_level_up level : length (level_up level) = (length level / 2)%nat.
Proof.
  assert (forall n level, (length level <= n)%nat -> length (level_up level) = (length level / 2)%nat) as H.
  { clear level. induction n as [|n IH]; intros [|l [|r level]] Hn; try done; simpl in Hn; [lia|].
    cbn [level_up length]. rewrite IH by lia.
    replace (S (S (length level))) with (length level + 1 * 2)%nat by lia.
    rewrite Nat.div_add by lia. lia. }
  by apply (H (length level)).
Qed.

Lemma length_padded level :
  length (padded level) = (length level + length level mod 2)%nat /\ (length (padded level) mod 2 = 0)%nat.
Proof.
  unfold padded. pose proof (Nat.mod_upper_bound (length level) 2 ltac:(lia)).
  destruct (Nat.eqb_spec (length level mod 2) 1) as [E|E].
  - rewrite length_app. simpl (length [ZERO32]). rewrite E. split; [done|].
    rewrite Nat.Div0.add_mod, E. done.
  - split; [|lia]. lia.
Qed.

Lemma root_loop_step fuel level :
  (1 < length level)%nat -> root_loop (S fuel) level = root_loop fuel (level_up (padded level)).
Proof.
  intros Hl. cbn [root_loop]. rewrite (proj2 (Nat.ltb_lt _ _)) by done.
  fold (padded level). rewrite next_level_up. done.
Qed.

Lemma level_up_shrinks level :
  (1 < length level)%nat ->
  (0 < length (level_up (padded level)) < length level)%nat.
Proof.
  intros Hl. rewrite length_level_up. destruct (length_padded level) as [-> _].
  set (n := length level) in *. pose proof (Nat.div_mod_eq (n + n mod 2) 2).
  pose proof (Nat.mod_upper_bound n 2 ltac:(lia)). pose proof (Nat.mod_upper_bound (n + n mod 2) 2 ltac:(lia)).
  lia.
Qed.

(** The tree is total: enough fuel is the number of leaves. *)
Lemma root_loop_total fuel level :
  (0 < length level <= fuel)%nat -> is_ok (root_loop fuel level) = true.
Proof.
  revert level; induction fuel as [|fuel IH]; intros level Hl; [lia|].
  destruct (Nat.lt_ge_cases 1 (length level)) as [Hgt|Hle].
  - rewrite root_loop_step by done. apply IH. pose proof (level_up_shrinks level Hgt). lia.
  - cbn [root_loop]. rewrite (proj2 (Nat.ltb_ge _ _)) by done. destruct level; [simpl in Hl; lia|done].
Qed.

Lemma transcriptRoot_total lvs : exists r, transcriptRoot lvs = Ok r.
Proof.
  apply is_ok_exists. destruct lvs as [|l lvs]; [done|]. unfold transcriptRoot.
  apply root_loop_total. simpl. lia.
Qed.

(** ** The root binds the transcript *)

(** The inputs hashed on the way to the root. *)
Fixpoint level_inputs (level : list bytes) : list bytes :=
  match level with
  | l :: r :: level' => node_preimage l r :: level_inputs level'
  | _ => []
  end.

Fixpoint tree_inputs (fuel : nat) (level : list bytes) : list bytes :=
  match fuel with
  | O => []
  | S fuel' =>
      if (1 <? length level)%nat
      then level_inputs (padded level) ++ tree_inputs fuel' (level_up (padded level))
      else []
  end.

Definition leaf_input (e : SettleEntry) : bytes := leaf_preimage (message e) (e_sigA e) (e_sigB e).

Definition leaf_hashes (es : list SettleEntry) : list bytes := map (fun e => blake2b256 (leaf_input e)) es.

Definition root_inputs (es : list SettleEntry) : list bytes :=
  map leaf_input es ++ tree_inputs (length es) (leaf_hashes es).

(** No two different inputs of [D] have the same digest, and none is all zero. *)
Definition hashes_well (D : list bytes) : Prop :=
  (forall p q, p ∈ D -> q ∈ D -> blake2b256 p = blake2b256 q -> p = q) /\
  (forall p, p ∈ D -> blake2b256 p <> ZERO32).

(** [z] is the hash of a node [k] levels above the leaves. *)
Inductive digest_at (D : list bytes) : nat -> bytes -> Prop :=
  | digest_leaf e : leaf_input e ∈ D -> digest_at D 0 (blake2b256 (leaf_input e))
  | digest_node k l r :
      node_preimage l r ∈ D -> digest_at D k l -> digest_at D (S k) (blake2b256 (node_preimage l r)).

Context `{!CryptoLaws C}.

Lemma digest_length D k z : digest_at D k z -> length z = 32%nat.
Proof. destruct 1; apply blake2b_length. Qed.

Lemma leaf_not_node e l r : leaf_input e <> node_preimage l r.
Proof. discriminate. Qed.

Lemma node_preimage_inj l r l' r' :
  length l = length l' -> node_preimage l r = node_preimage l' r' -> l = l' /\ r = r'.
Proof. intros Hl H. apply app_inv_head in H. by apply app_inj_length in H. Qed.

(** Nodes of different heights differ. *)
Lemma digest_height D k j z :
  hashes_well D -> digest_at D k z -> digest_at D j z -> k = j.
Proof.
  intros [Hc _] Hk; revert j; induction Hk as [e He|k l r Hd Hl IH]; intros j Hj;
    inversion Hj as [e' He' Ej Ez|j' l' r' Hd' Hl' Ej Ez]; subst; [done|..].
  - apply Hc in Ez; [|done..]. by destruct (leaf_not_node e l' r').
  - apply Hc in Ez; [|done..]. by destruct (leaf_not_node e' l r).
  - apply Hc in Ez; [|done..].
    apply node_preimage_inj in Ez as [-> _]; [|by rewrite (digest_length _ _ _ Hl), (digest_length _ _ _ Hl')].
    f_equal. by apply IH.
Qed.

Lemma level_up_digests D k x :
  Forall (digest_at D k) x -> (forall p, p ∈ level_inputs (padded x) -> p ∈ D) ->
  Forall (digest_at D (S k)) (level_up (padded x)).
Proof.
  assert (forall n x tail_, (length x <= n)%nat -> Forall (digest_at D k) x ->
    (tail_ = [] \/ tail_ = [ZERO32]) -> ((length x + length tail_) mod 2 = 0)%nat ->
    (forall p, p ∈ level_inputs (x ++ tail_) -> p ∈ D) ->
    Forall (digest_at D (S k)) (level_up (x ++ tail_))) as H.
  { clear x. induction n as [|n IH]; intros x tl Hn Hx Ht He Hin.
    { destruct x; [|simpl in Hn; lia]. by destruct Ht as [->| ->]. }
    destruct Hx as [|l x Hl Hx]; [by destruct Ht as [->| ->]|].
    destruct Hx as [|r x Hr Hx].
    - destruct Ht as [->| ->]; [done|]. simpl in Hin |- *. constructor; [|done].
      apply digest_node; [|done]. apply Hin. left.
    - simpl in Hin |- *. constructor; [apply digest_node; [apply Hin; left|done]|].
      apply IH; try done; [simpl in Hn; lia| |intros p Hp; apply Hin; by right].
      replace (length (l :: r :: x) + length tl)%nat with (length x + length tl + 1 * 2)%nat in He by (simpl; lia).
      by rewrite Nat.Div0.mod_add in He. }
  intros Hx Hin. unfold padded in *. destruct (Nat.eqb_spec (length x mod 2) 1) as [E|E].
  - apply (H (length x) x [ZERO32]); [done|done|by right| |done].
    cbn [length]. rewrite Nat.Div0.add_mod, E. done.
  - rewrite <- (app_nil_r x) in Hin |- *.
    apply (H (length x) x []); [done|done|by left| |done].
    pose proof (Nat.mod_upper_bound (length x) 2 ltac:(lia)). cbn [length]. rewrite Nat.add_0_r. lia.
Qed.

Lemma root_height D fuel k x r :
  Forall (digest_at D k) x -> (0 < length x)%nat -> (forall p, p ∈ tree_inputs fuel x -> p ∈ D) ->
  root_loop fuel x = Ok r -> exists j, digest_at D j r /\ (if (1 <? length x)%nat then k < j else j = k)%nat.
Proof.
  revert k x; induction fuel as [|fuel IH]; intros k x Hx Hl Hin Hr; [done|].
  destruct (Nat.ltb_spec 1 (length x)) as [Hgt|Hle].
  - rewrite root_loop_step in Hr by done. cbn [tree_inputs] in Hin.
    rewrite (proj2 (Nat.ltb_lt _ _)) in Hin by done.
    destruct (IH (S k) (level_up (padded x))) as (j & Hj & Hjk); try done.
    + apply level_up_digests; [done|]. intros p Hp. apply Hin, elem_of_app. by left.
    + apply level_up_shrinks. done.
    + intros p Hp. apply Hin, elem_of_app. by right.
    + exists j. split; [done|]. destruct (1 <? length (level_up (padded x)))%nat; lia.
  - cbn [root_loop] in Hr. rewrite (proj2 (Nat.ltb_ge _ _)) in Hr by done.
    destruct x as [|z x]; [done|]. inv_ok. inversion Hx; subst. eauto.
Qed.

(** Equal levels above come from equal levels below. *)
Lemma level_up_inj D k x y :
  hashes_well D -> Forall (digest_at D k) x -> Forall (digest_at D k) y ->
  (forall p, p ∈ level_inputs (padded x) -> p ∈ D) -> (forall p, p ∈ level_inputs (padded y) -> p ∈ D) ->
  level_up (padded x) = level_up (padded y) -> padded x = padded y.
Proof.
  intros [Hc _].
  assert (forall n x y, (length x <= n)%nat -> (length x mod 2 = 0)%nat -> (length y mod 2 = 0)%nat ->
    Forall (fun z => length z = 32%nat) x -> Forall (fun z => length z = 32%nat) y ->
    (forall p, p ∈ level_inputs x -> p ∈ D) -> (forall p, p ∈ level_inputs y -> p ∈ D) ->
    level_up x = level_up y -> x = y) as H.
  { clear x y. induction n as [|n IH]; intros [|a [|b x]] [|c [|d y]] Hn Ex Ey Fx Fy Ix Iy Heq; try done;
      simpl in Hn; try lia.
    simpl in Heq. injection Heq as Hh Hrest.
    apply Hc in Hh; [|apply Ix; left|apply Iy; left].
    inversion Fx as [|? ? La Fx']; subst. inversion Fy as [|? ? Lc Fy']; subst.
    inversion Fx'; inversion Fy'; subst.
    apply node_preimage_inj in Hh as [-> ->]; [|congruence]. do 2 f_equal.
    assert (forall m, (S (S m) mod 2 = m mod 2)%nat) as Hmod
      by (intros m; replace (S (S m)) with (m + 1 * 2)%nat by lia; apply Nat.Div0.mod_add).
    simpl length in Ex, Ey. rewrite Hmod in Ex, Ey.
    apply IH; try done; [lia|intros p Hp; apply Ix; by right|intros p Hp; apply Iy; by right]. }
  intros Hx Hy Ix Iy Heq.
  assert (forall z, Forall (digest_at D k) z -> Forall (fun z => length z = 32%nat) (padded z)) as Hlen.
  { intros z Hz. assert (Forall (fun z => length z = 32%nat) z) as Hz'
      by (eapply Forall_impl; [exact Hz|]; intros ?; apply digest_length).
    unfold padded. destruct (_ =? 1)%nat; [|done]. apply Forall_app. split; [done|]. by repeat constructor. }
  apply (H (length (padded x))); try done; try apply length_padded; by apply Hlen.
Qed.

Lemma padded_inj D k x y :
  hashes_well D -> Forall (digest_at D k) x -> Forall (digest_at D k) y ->
  padded x = padded y -> x = y.
Proof.
  intros [_ Hz] Hx Hy Heq.
  assert (forall a b, Forall (digest_at D k) b -> a ++ [ZERO32] = b -> False) as Hno.
  { intros a b Hb <-. apply Forall_app in Hb as [_ Hb]. inversion Hb as [|? ? Hd _]; subst.
    inversion Hd as [e He Ek E|? l r He _ Ek E]; by destruct (Hz _ He). }
  unfold padded in Heq.
  destruct (Nat.eqb_spec (length x mod 2) 1), (Nat.eqb_spec (length y mod 2) 1).
  - by apply app_inj_tail in Heq as [-> _].
  - by destruct (Hno x y).
  - symmetry in Heq. by destruct (Hno y x).
  - done.
Qed.

Lemma root_loop_inj D f1 f2 k x y r :
  hashes_well D -> Forall (digest_at D k) x -> Forall (digest_at D k) y ->
  (0 < length x)%nat -> (0 < length y)%nat ->
  (forall p, p ∈ tree_inputs f1 x -> p ∈ D) -> (forall p, p ∈ tree_inputs f2 y -> p ∈ D) ->
  root_loop f1 x = Ok r -> root_loop f2 y = Ok r -> x = y.
Proof.
  intros HD; revert f2 k x y; induction f1 as [|f1 IH]; intros f2 k x y Hx Hy Lx Ly Ix Iy Rx Ry; [done|].
  destruct (root_height D _ k x r Hx Lx Ix Rx) as (jx & Dx & Jx).
  destruct (root_height D _ k y r Hy Ly Iy Ry) as (jy & Dy & Jy).
  pose proof (digest_height D _ _ _ HD Dx Dy). subst jy.
  destruct f2 as [|f2]; [done|].
  destruct (Nat.ltb_spec 1 (length x)) as [Gx|Gx], (Nat.ltb_spec 1 (length y)) as [Gy|Gy]; try lia.
  - rewrite root_loop_step in Rx, Ry by done. cbn [tree_inputs] in Ix, Iy.
    rewrite (proj2 (Nat.ltb_lt 1 (length x)) Gx) in Ix. rewrite (proj2 (Nat.ltb_lt 1 (length y)) Gy) in Iy.
    setoid_rewrite elem_of_app in Ix. setoid_rewrite elem_of_app in Iy.
    apply (padded_inj D k); try done. apply (level_up_inj D k); auto.
    pose proof (level_up_shrinks x Gx). pose proof (level_up_shrinks y Gy).
    apply (IH f2 (S k)); auto using level_up_digests; lia.
  - cbn [root_loop] in Rx, Ry.
    rewrite (proj2 (Nat.ltb_ge 1 (length x)) Gx) in Rx. rewrite (proj2 (Nat.ltb_ge 1 (length y)) Gy) in Ry.
    destruct x as [|a [|]], y as [|b [|]]; simpl in *; try lia. by inv_ok.
Qed.

Lemma transcriptLeaf_eq n m a b :
  transcriptLeaf {| te_nonce := n; te_message := m; te_sigA := a; te_sigB := b |} =
  Ok (blake2b256 (leaf_preimage m a b)).
Proof.
  unfold transcriptLeaf. rewrite concatBytes_concat. cbn [rbind concat foldr].
  unfold leaf_preimage. by rewrite app_nil_r.
Qed.

Definition entry_signed (params : VerifyParams) (e : SettleEntry) : bool :=
  verify (e_sigA e) (message e) (vp_keyA params) && verify (e_sigB e) (message e) (vp_keyB params).

(** The nonces increase from [prev] on. *)
Fixpoint increasing (prev : option Z) (ns : list Z) : bool :=
  match ns with
  | [] => true
  | n :: ns' => match prev with Some p => p <? n | None => true end && increasing (Some n) ns'
  end.

(** All sums are [tot], or the first one when [tot] is not given. *)
Fixpoint conserved (tot : option Z) (sums : list Z) : bool :=
  match sums with
  | [] => true
  | x :: sums' => match tot with Some t => x =? t | None => true end &&
                  conserved (match tot with Some t => Some t | None => Some x end) sums'
  end.

Definition sum_of_update (u : StateUpdate) : Z := partyABalance u + partyBBalance u.

(** The loop of [verifyEntries], in closed form. *)
Lemma scan_spec params es us sc :
  Forall2 (fun e u => parseStateUpdate (message e) = Ok u) es us ->
  exists sc', rfold (scan_entry params) sc es = Ok sc' /\
    sc_sigs sc' = sc_sigs sc && forallb (entry_signed params) es /\
    sc_nonces sc' = sc_nonces sc && increasing (prevNonce sc) (map nonce us) /\
    sc_balances sc' = sc_balances sc && conserved (sc_total sc) (map sum_of_update us) /\
    leaves sc' = leaves sc ++ leaf_hashes es.
Proof.
  intros Hp; revert sc; induction Hp as [|e u es us He _ IH]; intros sc.
  { exists sc. cbn. rewrite !andb_true_r, app_nil_r. done. }
  cbn [rfold]. unfold scan_entry at 1. rewrite He. cbn [rbind]. rewrite transcriptLeaf_eq. cbn [rbind].
  match goal with |- context [rfold _ ?sc1 es] => destruct (IH sc1) as (sc' & -> & E1 & E2 & E3 & E4) end.
  exists sc'. cbn [sc_sigs sc_nonces sc_balances prevNonce sc_total leaves] in *.
  rewrite E1, E2, E3, E4. cbn [forallb map increasing conserved]. split_and!; [done|..].
  - unfold entry_signed. destruct (verify _ _ _), (verify _ _ _), (sc_sigs sc); done.
  - destruct (prevNonce sc) as [p|]; [|done]. rewrite Z.leb_antisym.
    destruct (p <? nonce u), (sc_nonces sc); done.
  - fold (sum_of_update u). destruct (sc_total sc) as [t|]; [|done].
    destruct (sum_of_update u =? t), (sc_balances sc); done.
  - rewrite <- app_assoc. done.
Qed.

Lemma scan_parses params es sc sc' :
  rfold (scan_entry params) sc es = Ok sc' ->
  exists us, Forall2 (fun e u => parseStateUpdate (message e) = Ok u) es us.
Proof.
  revert sc; induction es as [|e es IH]; intros sc H; [exists []; constructor|].
  cbn [rfold] in H. inv_ok. unfold scan_entry in E. inv_ok.
  destruct (IH _ H) as [us Hus]. eauto.
Qed.

Definition root_text (es : list SettleEntry) (txt : string) : Prop :=
  exists r, transcriptRoot (leaf_hashes es) = Ok r /\ toHex r = normRoot txt.

Lemma verifyEntries_eq es us params hdr r :
  vp_schemeA params = SCHEME_ED25519 -> vp_schemeB params = SCHEME_ED25519 ->
  Forall2 (fun e u => parseStateUpdate (message e) = Ok u) es us ->
  transcriptRoot (leaf_hashes es) = Ok r ->
  exists v, verifyEntries es params hdr = Ok v /\
    rootMatches v = String.eqb (toHex r) (normRoot (onchainRoot params)) &&
      match hdr with Some h => String.eqb (toHex r) (normRoot h) | None => true end /\
    tv_ok v = rootMatches v && forallb (entry_signed params) es &&
      increasing None (map nonce us) && conserved (lockedTotal params) (map sum_of_update us) /\
    stepCount v = length es.
Proof.
  intros HA HB Hp Hr.
  destruct (scan_spec params es us (scan_start params) Hp) as (sc & E & E1 & E2 & E3 & E4).
  unfold verifyEntries. rewrite HA, HB, E. cbn [rbind Z.eqb negb orb SCHEME_ED25519].
  rewrite E4. cbn [scan_start leaves app]. rewrite Hr. cbn [rbind].
  eexists. split; [reflexivity|]. cbn [rootMatches tv_ok stepCount]. rewrite E1, E2, E3. by destruct hdr.
Qed.

Lemma increasing_sorted prev ns :
  increasing prev ns = true <->
  match prev with Some p => StronglySorted Z.lt (p :: ns) | None => StronglySorted Z.lt ns end.
Proof.
  revert prev; induction ns as [|n ns IH]; intros prev; cbn [increasing].
  { destruct prev; split; try done; repeat constructor. }
  rewrite andb_true_iff, IH. destruct prev as [p|].
  - rewrite Z.ltb_lt. split.
    + intros [Hlt Hs]. constructor; [done|]. constructor; [done|].
      inversion Hs as [|? ? _ Hf]; subst. eapply Forall_impl; [exact Hf|]. simpl. lia.
    + intros Hs. inversion Hs as [|? ? Hs' Hf]; subst. inversion Hf; subst. done.
  - naive_solver.
Qed.

Lemma conserved_spec tot sums :
  conserved tot sums = true <->
  exists t, (forall t', tot = Some t' -> t = t') /\ Forall (fun x => x = t) sums.
Proof.
  revert tot; induction sums as [|x sums IH]; intros tot; cbn [conserved].
  { split; [|done]. intros _. exists (default 0 tot). split; [by intros t' ->|constructor]. }
  rewrite andb_true_iff, IH. destruct tot as [t|].
  - rewrite Z.eqb_eq. split.
    + intros [-> (t0 & H1 & H2)]. rewrite (H1 t eq_refl) in *. exists t. split; [by intros ? [= ->]|by constructor].
    + intros (t0 & H1 & H2). rewrite (H1 t eq_refl) in *. inversion H2; subst. split; [done|].
      exists t. split; [by intros ? [= ->]|done].
  - split.
    + intros [_ (t0 & H1 & H2)]. rewrite (H1 x eq_refl) in *. exists x. split; [done|by constructor].
    + intros (t0 & _ & H2). inversion H2; subst. split; [done|]. exists t0. split; [by intros ? [= ->]|done].
Qed.

(** A transcript verifies exactly when it is one.  Whatever entries are
    given, if the verifier returns then every message is a state update, and its
    verdict is positive exactly when each entry carries valid signatures of both
    parties, the nonces increase strictly, every update distributes the same
    total (the locked total when one is given), and the recomputed Merkle root
    is the one anchored on chain and, for a whole body, the one in its header. *)
Theorem verify_entries_sound params es hdr v :
  verifyEntries es params hdr = Ok v ->
  exists us, Forall2 (fun e u => parseStateUpdate (message e) = Ok u) es us /\
  (tv_ok v = true <->
     root_text es (onchainRoot params) /\ (forall h, hdr = Some h -> root_text es h) /\
     Forall (fun e => verify (e_sigA e) (message e) (vp_keyA params) = true /\
                      verify (e_sigB e) (message e) (vp_keyB params) = true) es /\
     StronglySorted Z.lt (map nonce us) /\
     exists t, (forall t', lockedTotal params = Some t' -> t = t') /\
       Forall (fun u => partyABalance u + partyBBalance u = t) us).
Proof.
  intros H. pose proof H as H'. unfold verifyEntries in H'. inv_ok. bool_to_prop.
  destruct (scan_parses _ _ _ _ E0) as [us Hus]. exists us. split; [done|].
  destruct (transcriptRoot_total (leaf_hashes es)) as [r Hr].
  destruct (verifyEntries_eq es us params hdr r) as (v' & Ev & Em & Eok & _); [done..|].
  rewrite Ev in H. apply Ok_inj in H as <-.
  rewrite Eok, Em, !andb_true_iff, forallb_forall, increasing_sorted, conserved_spec.
  assert (forall txt, String.eqb (toHex r) (normRoot txt) = true <-> root_text es txt) as Htxt.
  { intros txt. rewrite String.eqb_eq. unfold root_text. rewrite Hr. split; [by eauto|].
    intros (r' & [= ->] & ?). done. }
  rewrite Htxt.
  assert (match hdr with Some h => String.eqb (toHex r) (normRoot h) | None => true end = true <->
    (forall h, hdr = Some h -> root_text es h)) as -> by (destruct hdr; rewrite ?Htxt; naive_solver).
  setoid_rewrite Forall_map. rewrite Forall_forall. unfold entry_signed. setoid_rewrite andb_true_iff.
  setoid_rewrite list_elem_of_In. unfold sum_of_update. tauto.
Qed.

(** ** The anchored root determines the transcript *)

Lemma leaf_input_inj e1 e2 :
  length (e_sigA e1) = 64%nat -> length (e_sigB e1) = 64%nat ->
  length (e_sigA e2) = 64%nat -> length (e_sigB e2) = 64%nat ->
  leaf_input e1 = leaf_input e2 -> e1 = e2.
Proof.
  intros HA1 HB1 HA2 HB2 H. apply app_inv_head in H.
  assert (length (message e1) = length (message e2)) as Hl.
  { apply (f_equal length) in H. rewrite !length_app in H. lia. }
  apply app_inj_length in H as [Hm H]; [|done].
  apply app_inj_length in H as [Ha Hb]; [|congruence]. destruct e1, e2; simpl in *; congruence.
Qed.

Lemma leaf_hashes_digests D es :
  (forall p, p ∈ map leaf_input es -> p ∈ D) -> Forall (digest_at D 0) (leaf_hashes es).
Proof.
  intros Hin. apply Forall_map, Forall_forall. intros e He. apply digest_leaf, Hin.
  by apply list_elem_of_In, in_map, list_elem_of_In.
Qed.

Lemma leaf_hashes_inj D es1 es2 :
  hashes_well D -> (forall p, p ∈ map leaf_input es1 -> p ∈ D) -> (forall p, p ∈ map leaf_input es2 -> p ∈ D) ->
  Forall (fun e => length (e_sigA e) = 64%nat /\ length (e_sigB e) = 64%nat) (es1 ++ es2) ->
  leaf_hashes es1 = leaf_hashes es2 -> es1 = es2.
Proof.
  intros [Hc _]; revert es2; induction es1 as [|e1 es1 IH]; intros [|e2 es2] I1 I2 Hs H; try done.
  simpl in H. injection H as Hh H. apply Hc in Hh; [|apply I1; left|apply I2; left].
  apply Forall_app in Hs as [Hs1 Hs2]. inversion Hs1 as [|? ? [? ?] Hs1']; inversion Hs2 as [|? ? [? ?] Hs2']; subst.
  apply leaf_input_inj in Hh as ->; [|done..]. f_equal.
  apply IH; [intros p Hp; apply I1; by right|intros p Hp; apply I2; by right| |done].
  by apply Forall_app.
Qed.

Lemma transcriptRoot_inj es1 es2 r :
  hashes_well (root_inputs es1 ++ root_inputs es2) ->
  Forall (fun e => length (e_sigA e) = 64%nat /\ length (e_sigB e) = 64%nat) (es1 ++ es2) ->
  transcriptRoot (leaf_hashes es1) = Ok r -> transcriptRoot (leaf_hashes es2) = Ok r -> es1 = es2.
Proof.
  set (D := root_inputs es1 ++ root_inputs es2). intros HD Hs R1 R2.
  assert ((forall p, p ∈ map leaf_input es1 -> p ∈ D) /\ (forall p, p ∈ map leaf_input es2 -> p ∈ D)) as [I1 I2]
    by (unfold D, root_inputs; split; intros p; rewrite !elem_of_app; auto).
  assert ((forall p, p ∈ tree_inputs (length es1) (leaf_hashes es1) -> p ∈ D) /\
          (forall p, p ∈ tree_inputs (length es2) (leaf_hashes es2) -> p ∈ D)) as [T1 T2]
    by (unfold D, root_inputs; split; intros p; rewrite !elem_of_app; auto).
  pose proof (leaf_hashes_digests D es1 I1) as D1. pose proof (leaf_hashes_digests D es2 I2) as D2.
  apply (leaf_hashes_inj D); try done.
  assert (forall es, length (leaf_hashes es) = length es) as Hlen by (intros; apply length_map).
  assert (forall es, (forall p, p ∈ tree_inputs (length es) (leaf_hashes es) -> p ∈ D) ->
    Forall (digest_at D 0) (leaf_hashes es) -> leaf_hashes es <> [] ->
    transcriptRoot (leaf_hashes es) = Ok ZERO32 -> False) as Hzero.
  { intros es T Dg Hne Hz. unfold transcriptRoot in Hz.
    destruct (leaf_hashes es) as [|z zs] eqn:El; [done|]. rewrite <- El in *.
    rewrite Hlen in Hz. destruct (root_height D (length es) 0 (leaf_hashes es) ZERO32 Dg) as (j & Hj & _);
      [rewrite El; simpl; lia|done|done|].
    destruct HD as [_ Hnz]. inversion Hj as [e He Ek E|? l rr He _ Ek E]; by destruct (Hnz _ He). }
  destruct (decide (leaf_hashes es1 = [])) as [N1|N1], (decide (leaf_hashes es2 = [])) as [N2|N2].
  - congruence.
  - exfalso. rewrite N1 in R1. simpl in R1. inv_ok. by apply (Hzero es2).
  - exfalso. rewrite N2 in R2. simpl in R2. inv_ok. by apply (Hzero es1).
  - apply (root_loop_inj D (length es1) (length es2) 0 _ _ r); try done.
    + destruct (leaf_hashes es1); [done|simpl; lia].
    + destruct (leaf_hashes es2); [done|simpl; lia].
    + unfold transcriptRoot in R1. rewrite <- (Hlen es1). by destruct (leaf_hashes es1).
    + unfold transcriptRoot in R2. rewrite <- (Hlen es2). by destruct (leaf_hashes es2).
Qed.

Lemma toHex_inj a b : bytes_ok a -> bytes_ok b -> toHex a = toHex b -> a = b.
Proof. intros Ha Hb H. rewrite <- (hex_pairs_toHex a), <- (hex_pairs_toHex b) by done. by rewrite H. Qed.

Lemma transcriptRoot_shape es r :
  transcriptRoot (leaf_hashes es) = Ok r -> bytes_ok r /\ length r = 32%nat.
Proof.
  intros H. unfold transcriptRoot in H. destruct (leaf_hashes es) as [|z zs] eqn:El.
  { inv_ok. split; [|done]. apply (bool_decide_unpack _). reflexivity. }
  rewrite <- El in H.
  destruct (root_height (root_inputs es) (length (leaf_hashes es)) 0 (leaf_hashes es) r) as (j & Hj & _).
  - apply leaf_hashes_digests. intros p Hp. unfold root_inputs. apply elem_of_app. by left.
  - rewrite El. simpl. lia.
  - intros p Hp. unfold root_inputs. apply elem_of_app. right.
    unfold leaf_hashes in Hp. rewrite length_map in Hp. done.
  - done.
  - split; [destruct Hj; apply blake2b_bytes|by eapply digest_length].
Qed.

(** C36: the root anchored on chain fixes the whole transcript.  If two lists of
    entries with 64-byte signatures are both found to match the same anchored
    root, they are the same list, number of entries included, unless the hash
    collides (or gives all zeroes) on the inputs hashed for the two trees. *)
Theorem anchored_root_binds params1 params2 es1 es2 h1 h2 v1 v2 :
  hashes_well (root_inputs es1 ++ root_inputs es2) ->
  Forall (fun e => length (e_sigA e) = 64%nat /\ length (e_sigB e) = 64%nat) (es1 ++ es2) ->
  normRoot (onchainRoot params1) = normRoot (onchainRoot params2) ->
  verifyEntries es1 params1 h1 = Ok v1 -> rootMatches v1 = true ->
  verifyEntries es2 params2 h2 = Ok v2 -> rootMatches v2 = true ->
  es1 = es2.
Proof.
  intros HD Hs Hroot V1 M1 V2 M2.
  assert (forall params es h v, verifyEntries es params h = Ok v -> rootMatches v = true ->
    exists r, transcriptRoot (leaf_hashes es) = Ok r /\ toHex r = normRoot (onchainRoot params)) as Hm.
  { intros params es h v V M. pose proof V as V'. unfold verifyEntries in V'. inv_ok. bool_to_prop.
    destruct (scan_parses _ _ _ _ E0) as [us Hus].
    destruct (transcriptRoot_total (leaf_hashes es)) as [r Hr].
    destruct (verifyEntries_eq es us params h r) as (v' & Ev & Em & _); [done..|].
    rewrite Ev in V. apply Ok_inj in V. rewrite <- V, Em in M. bool_to_prop.
    exists r. split; [done|]. by apply String.eqb_eq. }
  destruct (Hm _ _ _ _ V1 M1) as (r1 & R1 & T1). destruct (Hm _ _ _ _ V2 M2) as (r2 & R2 & T2).
  assert (r1 = r2) as <- by (apply toHex_inj; [by eapply transcriptRoot_shape..|congruence]).
  by apply (transcriptRoot_inj es1 es2 r1).
Qed.

End WithCrypto.
