(* ===== verification/Pipeline.v ===== *)
(** From play to proof: the updates a self-play tunnel hands to its observer,
    collected in a [Transcript], anchored by [buildSettlementWithRoot], written
    as a settle body and verified by [verifyTranscript]. *)
From Stdlib Require Import Sorting.Sorted.
From S2P Require Import Prelude.
From S2P Require Import Bytes.
From S2P Require Import Wire.
From S2P Require Import Crypto.
From S2P Require Import Payments.
From S2P Require Import Protocol.
From S2P Require Import Tunnel.
From S2P Require Import SettleBinary.
From S2P Require Import Transcript.

(** [transcript.append] wired to [tunnel.onUpdate]. *)
Definition record_updates `{C : Crypto} (tid : string) (us : list CoSignedUpdate) : result Transcript :=
  rfold append (newTranscript tid) us.

Definition settle_entry (e : TranscriptEntry) : SettleEntry :=
  {| message := te_message e; e_sigA := te_sigA e; e_sigB := te_sigB e |}.

(** The settle body of a transcript and its co-signed settlement. *)
Definition settle_body (t : Transcript) (cs : CoSignedSettlementWithRoot) : SettleBody :=
  let s := r_settlement (csr_settlement cs) in
  {| b_tunnelId := s_tunnelId s; b_partyABalance := s_partyABalance s;
     b_partyBBalance := s_partyBBalance s; b_finalNonce := s_finalNonce s;
     b_timestamp := s_timestamp s; b_transcriptRoot := r_transcriptRoot (csr_settlement cs);
     b_sigA := csr_sigA cs; b_sigB := csr_sigB cs;
     entries := map settle_entry (rawEntries t) |}.

Section Pipeline.
Context `{C : Crypto} `{!CryptoLaws C} `{!SignatureLaws C} (bk : CryptoBackend) `{!BackendLaws bk}.
Context {State Move : Type} (P : Protocol State Move).
Context (inv : Z -> State -> Prop) (ctx_ok : ProtocolContext -> Prop).
Context `{!ProtocolLaws P inv ctx_ok}.

Lemma append_ok t u msg :
  serializeStateUpdate (update u) = Ok msg ->
  let e := {| te_nonce := nonce (update u); te_message := msg; te_sigA := sigA u; te_sigB := sigB u |} in
  append t u = Ok {| t_id := t_id t; t_entries := t_entries t ++ [e];
                     t_leaves := t_leaves t ++ [blake2b256 (leaf_input (settle_entry e))] |}.
Proof. intros H. unfold append. rewrite H. cbn [rbind]. by rewrite transcriptLeaf_eq. Qed.

(** The entry of an update. *)
Definition entry_of (u : CoSignedUpdate) (e : SettleEntry) : Prop :=
  serializeStateUpdate (update u) = Ok (message e) /\ e_sigA e = sigA u /\ e_sigB e = sigB u.

Lemma record_updates_ok us t :
  Forall (fun u => is_ok (serializeStateUpdate (update u)) = true) us ->
  exists t', rfold append t us = Ok t' /\
    (exists es, map settle_entry (t_entries t') = map settle_entry (t_entries t) ++ es /\
       Forall2 entry_of us es /\ t_leaves t' = t_leaves t ++ leaf_hashes es).
Proof.
  intros Hf; revert t; induction Hf as [|u us Hu _ IH]; intros t.
  { exists t. split; [done|]. exists []. rewrite !app_nil_r. split_and!; [done|constructor|done]. }
  apply is_ok_exists in Hu as [msg Hm]. cbn [rfold]. rewrite (append_ok t u msg Hm). cbn [rbind].
  match goal with |- context [rfold append ?t1 us] => destruct (IH t1) as (t' & -> & es & E1 & E2 & E3) end.
  cbn [t_entries t_leaves] in E1, E3. rewrite map_app in E1. cbn [map] in E1.
  exists t'. split; [done|].
  eexists. split; [rewrite E1, <- app_assoc; reflexivity|]. split; [by constructor|].
  rewrite E3, <- app_assoc. done.
Qed.

Lemma own_sign_length e m : own_endpoint bk e -> length (sign_or_empty e m) = 64%nat.
Proof.
  intros (addr & sk & _ & ->). unfold sign_or_empty. simpl. rewrite backend_sign. apply sign_length.
Qed.

(** What a recorded update of a good tunnel looks like to the verifier. *)
Lemma recorded_entry t u e :
  tunnel_ok bk inv t -> update_ok t u -> entry_of u e ->
  entry_fits e /\ (exists v, parseStateUpdate (message e) = Ok v /\ nonce v = nonce (update u) /\
     sum_of_update v = t_total t) /\
  verify (e_sigA e) (message e) (ep_publicKey (partyA t)) = true /\
  verify (e_sigB e) (message e) (ep_publicKey (partyB t)) = true.
Proof.
  intros Hok (Hv & _ & Hsum & Hl & msg & Hm & Hu) (He & EA & EB).
  rewrite Hm in He. apply Ok_inj in He. subst msg.
  unfold verifyCoSignedUpdate in Hv. rewrite Hm in Hv. inv_ok.
  bool_to_prop. rewrite EA, EB.
  assert (length (message e) = STATE_UPDATE_LEN) as Hlen by (by eapply length_serializeStateUpdate).
  split_and!; try done.
  - unfold entry_fits. rewrite Hlen, EA, EB, Hu. split; [done|].
    split; apply own_sign_length; [apply (ok_A _ _ _ Hok)|apply (ok_B _ _ _ Hok)].
  - exists (with_canonical_id (update u)). split; [by apply parse_serialize|]. done.
Qed.

Lemma toLowerCase_hex d : 0 <= d < 16 -> lower_char (hex_digit d) = hex_digit d.
Proof.
  apply (hex_digit_cases (fun d => lower_char (hex_digit d) = hex_digit d)).
  intros n Hn. do 16 (destruct n as [|n]; [reflexivity|]). lia.
Qed.

Lemma toLowerCase_toHex bs : bytes_ok bs -> toLowerCase (toHex bs) = toHex bs.
Proof.
  induction 1 as [|b bs Hb _ IH]; [done|]. rewrite toHex_cons. cbn [toLowerCase].
  destruct (hex_nibbles b Hb). rewrite IH, !toLowerCase_hex by done. done.
Qed.

Lemma normRoot_toHex bs : bytes_ok bs -> normRoot (toHex bs) = toHex bs /\ normRoot ("0x" ++ toHex bs) = toHex bs.
Proof.
  intros Hb. unfold normRoot. split; [|by apply toLowerCase_toHex].
  rewrite strip_0x_hex by (by apply all_hex_toHex). by apply toLowerCase_toHex.
Qed.

Lemma conserved_const t xs : Forall (fun x => x = t) xs -> conserved (Some t) xs = true.
Proof. intros H. apply conserved_spec. exists t. split; [by intros ? [= ->]|done]. Qed.

Lemma entries_of_updates t us es :
  tunnel_ok bk inv t -> Forall (update_ok t) us -> Forall2 entry_of us es ->
  Forall entry_fits es /\
  (exists vs, Forall2 (fun e v => parseStateUpdate (message e) = Ok v) es vs /\
     map nonce vs = map (fun u => nonce (update u)) us /\
     Forall (fun x => x = t_total t) (map sum_of_update vs)) /\
  Forall (fun e => verify (e_sigA e) (message e) (ep_publicKey (partyA t)) = true /\
                   verify (e_sigB e) (message e) (ep_publicKey (partyB t)) = true) es.
Proof.
  intros Hok Hu He. induction He as [|u e us es He _ IH].
  { split_and!; [constructor|exists []; split_and!; constructor|constructor]. }
  inversion Hu as [|? ? Hu1 Hu2]; subst.
  destruct (recorded_entry t u e Hok Hu1 He) as (F & (v & Hv & Hn & Hs) & VA & VB).
  destruct (IH Hu2) as (IF & (vs & I1 & I2 & I3) & I4).
  split_and!; [by constructor| |by constructor].
  exists (v :: vs). split_and!; [by constructor|cbn [map]; congruence|cbn [map]; by constructor].
Qed.

Lemma verdict_ok params t us es r :
  tunnel_ok bk inv t -> Forall (update_ok t) us -> Forall2 entry_of us es ->
  StronglySorted Z.lt (map (fun u => nonce (update u)) us) ->
  transcriptRoot (leaf_hashes es) = Ok r ->
  vp_keyA params = ep_publicKey (partyA t) -> vp_schemeA params = SCHEME_ED25519 ->
  vp_keyB params = ep_publicKey (partyB t) -> vp_schemeB params = SCHEME_ED25519 ->
  onchainRoot params = ("0x" ++ toHex r)%string -> lockedTotal params = Some (t_total t) ->
  exists v, verifyEntries es params (Some (toHex r)) = Ok v /\ tv_ok v = true /\ stepCount v = length us.
Proof.
  intros Hok Hu He Hs Hr KA SA KB SB Hroot Htot.
  destruct (entries_of_updates t us es Hok Hu He) as (_ & (vs & P1 & P2 & P3) & Hv).
  destruct (verifyEntries_eq es vs params (Some (toHex r)) r SA SB P1 Hr) as (v & Ev & Em & Eok & Ec).
  exists v. split; [done|]. rewrite Eok, Em, Hroot, Htot, Ec.
  destruct (normRoot_toHex r (proj1 (transcriptRoot_shape _ _ Hr))) as [N1 N2]. rewrite N1, N2, String.eqb_refl.
  cbn [andb]. rewrite conserved_const by done. rewrite P2.
  rewrite (proj2 (increasing_sorted None _)) by done.
  rewrite (proj2 (forallb_forall _ _)); [by rewrite (Forall2_length _ _ _ He)|].
  intros e Hin%list_elem_of_In. rewrite Forall_forall in Hv. destruct (Hv e Hin) as [VA VB].
  unfold entry_signed. by rewrite KA, KB, VA, VB.
Qed.

(** C35: everything played can be proved.  Take any self-play tunnel after any
    attempted steps (with fewer than 2^32 observed updates): its observed updates
    form a transcript with a root; the root-anchored settlement over that root
    exists for every u64 final nonce and timestamp; the settle body made of both
    is encoded; and verifying its bytes against the parties' keys, the anchored
    root and the locked total succeeds with one step per update. *)
Theorem settled_play_verifies tid skA skB kA kB addrA addrB initial t0 ms ts onchain :
  keyPairFromSecret skA = Ok kA -> keyPairFromSecret skB = Ok kB ->
  ctx_ok {| ctx_tunnelId := tid; initialBalances := initial |} -> lockable initial ->
  selfPlay P tid kA kB addrA addrB initial bk true = Ok t0 ->
  let t := attempts P t0 ms in
  Z.of_nat (length (updates t)) < 2 ^ 32 -> u64_range ts -> u64_range (onchain + 1) ->
  exists tr r cs blob v,
    record_updates tid (map fst (updates t)) = Ok tr /\
    root tr = Ok r /\
    buildSettlementWithRoot P t ts r onchain = Ok cs /\
    encodeSettleBody (settle_body tr cs) = Ok blob /\
    verifyTranscript blob
      {| vp_keyA := publicKey kA; vp_schemeA := scheme kA; vp_keyB := publicKey kB;
         vp_schemeB := scheme kB; onchainRoot := "0x" ++ toHex r;
         lockedTotal := Some (sum_of initial) |} = Ok v /\
    tv_ok v = true /\ stepCount v = length (updates t).
Proof.
  intros HkA HkB Hctx Hlock Hsp. cbv zeta. intros Hcount Hts Hon.
  destruct (selfPlay_ok bk P inv ctx_ok _ _ _ _ _ _ _ _ _ _ HkA HkB Hctx Hlock Hsp) as (Hok0 & Htot & Htid & _).
  assert (ep_publicKey (partyA t0) = publicKey kA /\ ep_scheme (partyA t0) = scheme kA /\
          ep_publicKey (partyB t0) = publicKey kB /\ ep_scheme (partyB t0) = scheme kB) as (PA & SA & PB & SB).
  { unfold selfPlay, newOffchainTunnel in Hsp. inv_ok. done. }
  destruct (attempts_ok bk P inv ctx_ok ms t0 Hok0) as (Hok & Etid & Etot & _ & EA & EB).
  set (t := attempts P t0 ms) in *. rewrite <- EA in PA, SA. rewrite <- EB in PB, SB.
  set (us := map fst (updates t)).
  assert (Forall (update_ok t) us) as Hus.
  { unfold us. apply Forall_map. eapply Forall_impl; [apply (ok_updates _ _ _ Hok)|]. by intros um [? _]. }
  destruct (record_updates_ok us (newTranscript tid)) as (tr & Etr & es & E1 & E2 & E3).
  { eapply Forall_impl; [exact Hus|]. intros u (_ & _ & _ & _ & msg & -> & _). done. }
  cbn [newTranscript t_entries t_leaves map app] in E1, E3.
  destruct (transcriptRoot_total (t_leaves tr)) as [r Hr].
  pose proof Hr as Hr'. rewrite E3 in Hr'.
  assert (length r = 32%nat) as Hrl by (by eapply transcriptRoot_shape).
  destruct (entries_of_updates t us es Hok Hus E2) as (Hfits & _).
  destruct (laws_balances _ _ (ok_state _ _ _ Hok)) as (_ & _ & Hsum).
  destruct (inv_u64 P inv ctx_ok _ _ (ok_state _ _ _ Hok) (ok_total _ _ _ Hok)) as [Ra Rb].
  destruct (ok_id _ _ _ Hok) as (id & Hid & _).
  destruct (own_endpoint_signs bk _ [] (ok_A _ _ _ Hok)) as (fA & SgA & SchA & _).
  destruct (own_endpoint_signs bk _ [] (ok_B _ _ _ Hok)) as (fB & SgB & SchB & _).
  assert (exists cs, buildSettlementWithRoot P t ts r onchain = Ok cs /\
    encodable (settle_body tr cs) /\ r_transcriptRoot (csr_settlement cs) = r) as (cs & Ecs & Henc & Ecr).
  { unfold buildSettlementWithRoot. rewrite SgA, SgB, Hrl. cbn [Nat.eqb negb].
    unfold serializeSettlementWithRoot. cbn [r_settlement r_transcriptRoot s_tunnelId s_partyABalance
      s_partyBBalance s_finalNonce s_timestamp]. rewrite Hrl, Hid. cbn [Nat.eqb negb rbind].
    rewrite !u64ToBeBytes_total by done. cbn [rbind]. rewrite concatBytes_concat. cbn [rbind].
    eexists. split; [reflexivity|]. split; [|done]. unfold encodable, settle_body. simpl.
    split_and!; try done.
    - pose proof (own_sign_length (partyA t)) as L. unfold sign_or_empty in L. rewrite SgA in L.
      apply L, (ok_A _ _ _ Hok).
    - pose proof (own_sign_length (partyB t)) as L. unfold sign_or_empty in L. rewrite SgB in L.
      apply L, (ok_B _ _ _ Hok).
    - unfold rawEntries. rewrite E1. eapply Forall_impl; [exact Hfits|]. by intros e (_ & ? & ?). }
  assert (entries (settle_body tr cs) = es) as Ees by exact E1.
  destruct (verdict_ok {| vp_keyA := publicKey kA; vp_schemeA := scheme kA; vp_keyB := publicKey kB;
     vp_schemeB := scheme kB; onchainRoot := "0x" ++ toHex r; lockedTotal := Some (sum_of initial) |}
     t us es r Hok Hus E2) as (v & Ev & Hv & Hc); simpl; try congruence.
  { unfold us. rewrite map_map. apply (ok_sorted _ _ _ Hok). }
  exists tr, r, cs, (header_bytes (settle_body tr cs) ++ entries_bytes es), v.
  split_and!; try done.
  - rewrite <- Ees. by apply encodeSettleBody_ok.
  - unfold verifyTranscript. rewrite <- Ees at 1. rewrite decode_encoded; rewrite ?Ees; try done.
    + cbn [rbind entries b_transcriptRoot].
      assert (b_transcriptRoot (settle_body tr cs) = r) as -> by exact Ecr. exact Ev.
    + rewrite <- (Forall2_length _ _ _ E2). unfold us. by rewrite length_map.
  - rewrite Hc. unfold us. apply length_map.
Qed.

End Pipeline.

(** * On the sample payments tunnel *)

Lemma settled_play_verifies_witness :
  exists t0 tr r cs blob v, opened = Ok t0 /\
    let t := attempts PaymentsProtocol t0 script in
    record_updates "0xA1" (map fst (updates t)) = Ok tr /\ root tr = Ok r /\
    buildSettlementWithRoot PaymentsProtocol t 11 r 0 = Ok cs /\
    encodeSettleBody (settle_body tr cs) = Ok blob /\
    verifyTranscript blob
      {| vp_keyA := skA; vp_schemeA := 0; vp_keyB := skB; vp_schemeB := 0;
         onchainRoot := "0x" ++ toHex r; lockedTotal := Some 150 |} = Ok v /\
    tv_ok v = true /\ stepCount v = 2%nat.
Proof.
  pose proof script_facts as F. destruct opened as [t0|] eqn:E; [|discriminate F]. cbv zeta in F.
  bool_to_prop.
  match goal with H : length (updates _) = 2%nat |- _ => rename H into Hlen end.
  destruct (settled_play_verifies (C := toy_crypto) nobleBackend PaymentsProtocol inv (fun _ => True) "0xA1" skA skB kA kB
    "0xA" "0xB" deposits t0 script 11 0 eq_refl eq_refl I deposits_lockable E
    ltac:(rewrite Hlen; reflexivity) ltac:(split; discriminate) ltac:(split; discriminate))
    as (tr & r & cs & blob & v & E1 & E2 & E3 & E4 & E5 & E6 & E7).
  exists t0, tr, r, cs, blob, v. cbv zeta. rewrite Hlen in E7. split; [reflexivity|].
  split; [exact E1|]. split; [exact E2|]. split; [exact E3|]. split; [exact E4|].
  split; [exact E5|]. split; [exact E6|exact E7].
Defined.

(** Two entries over the same message, in the slots of the sample keys. *)
Definition sample_entries : list SettleEntry :=
  let e m := {| message := m; e_sigA := toy_sign m skA; e_sigB := toy_sign m skB |} in
  match serializeStateUpdate {| tunnelId := "0xA1"; stateHash := replicate 32 7; nonce := 4;
          timestamp := 5; partyABalance := 100; partyBBalance := 50 |} with
  | Ok m => [e sample_message; e m]
  | Throw _ => []
  end.

Definition sample_params (locked : option Z) : VerifyParams :=
  {| vp_keyA := skA; vp_schemeA := 0; vp_keyB := skB; vp_schemeB := 0;
     onchainRoot := match transcriptRoot (leaf_hashes sample_entries) with
                    | Ok r => "0X" ++ toHex r | Throw _ => ""
                    end;
     lockedTotal := locked |}.

(** The first update distributes 259, the second 150. *)
Lemma sample_verdict :
  match verifyEntries sample_entries (sample_params None) None with
  | Ok v => rootMatches v && negb (tv_ok v)
  | Throw _ => false
  end = true.
Proof. vm_compute. reflexivity. Qed.

Definition hashes_check (D : list bytes) : bool :=
  forallb (fun p => forallb (fun q =>
    implb (bytesEqual (blake2b256 p) (blake2b256 q)) (bytesEqual p q)) D) D &&
  forallb (fun p => negb (bytesEqual (blake2b256 p) ZERO32)) D.

Lemma hashes_check_ok D : hashes_check D = true -> hashes_well D.
Proof.
  unfold hashes_check, hashes_well. intros H. bool_to_prop. rewrite forallb_forall in H, H0. split.
  - intros p q Hp%list_elem_of_In Hq%list_elem_of_In E. specialize (H p Hp). rewrite forallb_forall in H.
    specialize (H q Hq). rewrite (proj2 (bytesEqual_spec _ _) E) in H. simpl in H. by apply bytesEqual_spec.
  - intros p Hp%list_elem_of_In. specialize (H0 p Hp). bool_to_prop. by apply bytesEqual_false.
Qed.

Lemma verify_entries_sound_witness :
  exists v us, verifyEntries sample_entries (sample_params None) None = Ok v /\
    Forall2 (fun e u => parseStateUpdate (message e) = Ok u) sample_entries us /\ tv_ok v = false.
Proof.
  pose proof sample_verdict as F.
  destruct (verifyEntries sample_entries (sample_params None) None) as [v|] eqn:E; [|discriminate F].
  destruct (verify_entries_sound (sample_params None) sample_entries None v E) as (us & Hus & _).
  exists v, us. bool_to_prop. split; [reflexivity|]. split; [exact Hus|assumption].
Defined.

(** The same transcript as a second party has it: read back from the settle body
    the first one published, with the root it got from another node, without
    prefix and in its own request header. *)
Definition downloaded : list SettleEntry :=
  let sent := encodeSettleBody {| b_tunnelId := "0xA1"; b_partyABalance := 100; b_partyBBalance := 50;
    b_finalNonce := 5; b_timestamp := 9; b_transcriptRoot := replicate 32 0;
    b_sigA := replicate 64 0; b_sigB := replicate 64 0; entries := sample_entries |} in
  match (let! bs := sent in decodeSettleBody bs) with
  | Ok b => entries b
  | Throw _ => []
  end.

Definition other_params : VerifyParams :=
  {| vp_keyA := skA; vp_schemeA := 0; vp_keyB := skB; vp_schemeB := 0;
     onchainRoot := normRoot (onchainRoot (sample_params None)); lockedTotal := Some 150 |}.

(** A transcript whose last update, signed by both, moves one unit to B. *)
Definition rewritten : list SettleEntry :=
  let e m := {| message := m; e_sigA := toy_sign m skA; e_sigB := toy_sign m skB |} in
  match serializeStateUpdate {| tunnelId := "0xA1"; stateHash := replicate 32 7; nonce := 4;
          timestamp := 5; partyABalance := 99; partyBBalance := 51 |} with
  | Ok m => [e sample_message; e m]
  | Throw _ => []
  end.

Definition sigs_check (es : list SettleEntry) : bool :=
  forallb (fun e => (length (e_sigA e) =? 64)%nat && (length (e_sigB e) =? 64)%nat) es.

Lemma sigs_check_ok es : sigs_check es = true ->
  Forall (fun e => length (e_sigA e) = 64%nat /\ length (e_sigB e) = 64%nat) es.
Proof.
  unfold sigs_check. rewrite forallb_forall. intros H. apply Forall_forall.
  intros e He. apply list_elem_of_In, H in He. by bool_to_prop.
Qed.

Lemma both_hash_well :
  hashes_well (root_inputs sample_entries ++ root_inputs downloaded) /\
  hashes_well (root_inputs sample_entries ++ root_inputs rewritten).
Proof. split; apply hashes_check_ok; vm_compute; reflexivity. Qed.

Lemma both_signed :
  Forall (fun e => length (e_sigA e) = 64%nat /\ length (e_sigB e) = 64%nat) (sample_entries ++ downloaded) /\
  Forall (fun e => length (e_sigA e) = 64%nat /\ length (e_sigB e) = 64%nat) (sample_entries ++ rewritten).
Proof. split; apply sigs_check_ok; vm_compute; reflexivity. Qed.

Lemma downloaded_verdict :
  match verifyEntries downloaded other_params (Some (onchainRoot (sample_params None))) with
  | Ok v => rootMatches v
  | Throw _ => false
  end = true.
Proof. vm_compute. reflexivity. Qed.

Lemma rewritten_scanned :
  match verifyEntries rewritten (sample_params None) None with Ok _ => true | Throw _ => false end = true.
Proof. vm_compute. reflexivity. Qed.

Lemma sample_two : length sample_entries = 2%nat.
Proof. vm_compute. reflexivity. Qed.

Lemma same_root :
  normRoot (onchainRoot (sample_params None)) = normRoot (onchainRoot other_params).
Proof. vm_compute. reflexivity. Qed.

Lemma rewritten_differs : sample_entries <> rewritten.
Proof.
  intros E. assert (map message sample_entries = map message rewritten) as H by by rewrite E.
  revert H. vm_compute. discriminate.
Qed.

(** Two parties with their own copies have the same transcript, and the rewritten
    one, which differs, is not found to match the root. *)
Lemma anchored_root_binds_witness :
  downloaded <> [] /\ sample_entries = downloaded /\
  exists w, verifyEntries rewritten (sample_params None) None = Ok w /\ rootMatches w = false.
Proof.
  pose proof sample_verdict as F. pose proof downloaded_verdict as M. pose proof rewritten_scanned as R.
  pose proof both_hash_well as [H1 H2]. pose proof both_signed as [S1 S2].
  destruct (verifyEntries sample_entries (sample_params None) None) as [v|] eqn:E; [|discriminate F].
  apply andb_true_iff in F. destruct F as [F _].
  destruct (verifyEntries downloaded _ _) as [v1|] eqn:E1; [|discriminate M].
  destruct (verifyEntries rewritten _ _) as [v2|] eqn:E2; [|discriminate R].
  pose proof (anchored_root_binds (sample_params None) other_params sample_entries downloaded None
    (Some (onchainRoot (sample_params None))) v v1 H1 S1 same_root E F E1 M) as Same.
  split; [intros N; rewrite <- Same in N; pose proof sample_two as L; rewrite N in L; discriminate L|].
  split; [exact Same|].
  exists v2. split; [reflexivity|]. destruct (rootMatches v2) eqn:M2; [|reflexivity].
  destruct (rewritten_differs (anchored_root_binds (sample_params None) (sample_params None)
    sample_entries rewritten None None v v2 H2 S2 eq_refl E F E2 M2)).
Defined.
