(* ===== verification/Watchtower.v ===== *)
(** The watchtower: [sui-tunnel-ts/src/recovery/watchtower.ts], with the tunnel
    states of [config.ts].

    Times are JavaScript numbers holding milliseconds, here integers.  The chain
    client (the liveness fetch and the executor) is a parameter: a function that
    returns or throws for each tunnel. *)
From S2P Require Import Prelude.

(** [src config.ts TunnelStatus] *)
Module TunnelStatus.
Definition CREATED : Z := 0.
Definition ACTIVE : Z := 1.
Definition CLOSED : Z := 2.
Definition DISPUTED : Z := 3.
End TunnelStatus.

(** [src recovery/watchtower.ts RecoveryAction] *)
Inductive RecoveryAction :=
  | NoAction
  | WithdrawTimeout
  | RaiseDispute
  | RaiseDisputeCurrentState
  | ResolveDispute
  | ForceClose.

#[export] Instance RecoveryAction_eq_dec : EqDecision RecoveryAction.
Proof. solve_decision. Defined.

(** [src recovery/watchtower.ts TunnelLiveness] *)
Record TunnelLiveness := {
  status : Z;
  iAmDisputeRaiser : bool;
  hasCounterpartySignedNewerState : bool;
  createdAtMs : Z;
  lastActivityMs : Z;
  timeoutMs : Z;
  nowMs : Z;
  counterpartyDeposited : bool;
  heartbeatTimeoutMs : Z;
  disputeStartMs : option Z
}.

(** [src recovery/watchtower.ts decideRecovery] *)
Definition decideRecovery (t : TunnelLiveness) : RecoveryAction :=
  if (status t =? TunnelStatus.CLOSED) || (4 <=? status t) then NoAction
  else if status t =? TunnelStatus.DISPUTED then
    if negb (iAmDisputeRaiser t) && hasCounterpartySignedNewerState t then ResolveDispute
    else if iAmDisputeRaiser t &&
            match disputeStartMs t with Some d => d + timeoutMs t <=? nowMs t | None => false end
    then ForceClose
    else NoAction
  else if status t =? TunnelStatus.CREATED then
    if negb (counterpartyDeposited t) && (createdAtMs t + timeoutMs t <=? nowMs t)
    then WithdrawTimeout
    else NoAction
  else if heartbeatTimeoutMs t <=? nowMs t - lastActivityMs t then
    if hasCounterpartySignedNewerState t then RaiseDispute else RaiseDisputeCurrentState
  else NoAction.

(** What a watchtower does to the outside, in order: the calls of [onAction], of
    the executor, and of [onError]. *)
Inductive event :=
  | OnAction (id : string) (a : RecoveryAction)
  | Execute (id : string) (a : RecoveryAction)
  | OnError (id : string) (e : js_error).

(** [src recovery/watchtower.ts:113-115 Watchtower]: the [Map] of watched tunnels
    in insertion order, and whether the polling timer runs. *)
Record Watchtower (Handle : Type) := {
  tunnels : list (string * Handle);
  timer : bool;
  events : list event
}.
Arguments tunnels {Handle}.
Arguments timer {Handle}.
Arguments events {Handle}.

Section Tower.
Context {Handle : Type}.
Context (fetchLiveness : Handle -> result TunnelLiveness).
Context (execute : string -> RecoveryAction -> result unit).

Definition set_tunnels (ts : list (string * Handle)) (w : Watchtower Handle) : Watchtower Handle :=
  {| tunnels := ts; timer := timer w; events := events w |}.

Definition log (e : event) (w : Watchtower Handle) : Watchtower Handle :=
  {| tunnels := tunnels w; timer := timer w; events := events w ++ [e] |}.

(** [Map.set]: a key keeps its place. *)
Fixpoint map_set (id : string) (h : Handle) (ts : list (string * Handle)) : list (string * Handle) :=
  match ts with
  | [] => [(id, h)]
  | (k, v) :: ts' => if String.eqb k id then (k, h) :: ts' else (k, v) :: map_set id h ts'
  end.

Definition map_delete (id : string) (ts : list (string * Handle)) : list (string * Handle) :=
  filter (fun kv => negb (String.eqb (fst kv) id) = true) ts.

(** [src recovery/watchtower.ts Watchtower.watch] *)
Definition watch (id : string) (h : Handle) (w : Watchtower Handle) : Watchtower Handle :=
  set_tunnels (map_set id h (tunnels w)) w.

(** [src recovery/watchtower.ts Watchtower.unwatch] *)
Definition unwatch (id : string) (w : Watchtower Handle) : Watchtower Handle :=
  set_tunnels (map_delete id (tunnels w)) w.

(** [src recovery/watchtower.ts Watchtower.size] *)
Definition size (w : Watchtower Handle) : nat := length (tunnels w).

Definition terminal (a : RecoveryAction) : bool :=
  match a with ForceClose | WithdrawTimeout => true | _ => false end.

(** [src recovery/watchtower.ts:137-150 Watchtower.tick] one tunnel *)
Definition tick_one (w : Watchtower Handle) (t : string * Handle) : Watchtower Handle :=
  let (id, h) := t in
  match fetchLiveness h with
  | Throw e => log (OnError id e) w
  | Ok liveness =>
      let action := decideRecovery liveness in
      let w := log (OnAction id action) w in
      if bool_decide (action = NoAction) then w
      else
        let w := log (Execute id action) w in
        match execute id action with
        | Throw e => log (OnError id e) w
        | Ok _ => if terminal action then unwatch id w else w
        end
  end.

(** [src recovery/watchtower.ts Watchtower.tick]: deleting the tunnel at hand
    does not disturb the iteration over the [Map]. *)
Definition tick (w : Watchtower Handle) : Watchtower Handle :=
  fold_left tick_one (tunnels w) w.

(** [src recovery/watchtower.ts Watchtower.start] *)
Definition start (w : Watchtower Handle) : Watchtower Handle :=
  if timer w then w else {| tunnels := tunnels w; timer := true; events := events w |}.

(** [src recovery/watchtower.ts Watchtower.stop] *)
Definition stop (w : Watchtower Handle) : Watchtower Handle :=
  if timer w then {| tunnels := tunnels w; timer := false; events := events w |} else w.

(** * One tick, tunnel by tunnel *)

(** What the tower does about one tunnel, on its own. *)
Definition events_of (t : string * Handle) : list event :=
  match fetchLiveness (snd t) with
  | Throw e => [OnError (fst t) e]
  | Ok liveness =>
      let a := decideRecovery liveness in
      OnAction (fst t) a ::
      (if bool_decide (a = NoAction) then []
       else Execute (fst t) a ::
            match execute (fst t) a with Throw e => [OnError (fst t) e] | Ok _ => [] end)
  end.

(** Whether a tunnel is done after its turn. *)
Definition done_with (t : string * Handle) : bool :=
  match fetchLiveness (snd t) with
  | Throw _ => false
  | Ok liveness =>
      let a := decideRecovery liveness in
      terminal a && is_ok (execute (fst t) a)
  end.

Lemma tick_one_eq w t :
  tick_one w t =
    {| tunnels := if done_with t then map_delete (fst t) (tunnels w) else tunnels w;
       timer := timer w; events := events w ++ events_of t |}.
Proof.
  destruct t as [id h]. unfold tick_one, done_with, events_of, unwatch, set_tunnels, log. cbn [fst snd].
  destruct (fetchLiveness h) as [l|e]; [|done].
  destruct (decideRecovery l) eqn:Ea; cbn [bool_decide decide decide_rel];
    repeat case_bool_decide; try done;
    destruct (execute id _) as [|e]; simpl; rewrite <- ?app_assoc; done.
Qed.

Lemma tick_loop ts w :
  fold_left tick_one ts w =
    {| tunnels := fold_left (fun acc t => if done_with t then map_delete (fst t) acc else acc) ts (tunnels w);
       timer := timer w; events := events w ++ concat (map events_of ts) |}.
Proof.
  revert w; induction ts as [|t ts IH]; intros w; simpl.
  { rewrite app_nil_r. by destruct w. }
  rewrite IH, tick_one_eq. cbn [tunnels timer events]. by rewrite <- app_assoc.
Qed.

Lemma deletes_spec ts acc :
  fold_left (fun acc t => if done_with t then map_delete (fst t) acc else acc) ts acc =
  filter (fun kv => negb (existsb (fun t => done_with t && String.eqb (fst kv) (fst t)) ts) = true) acc.
Proof.
  revert acc; induction ts as [|t ts IH]; intros acc; simpl.
  { induction acc as [|kv acc IHa]; [done|]. rewrite filter_cons_True by done. by f_equal. }
  rewrite IH. destruct (done_with t); [|done]. unfold map_delete. rewrite list_filter_filter.
  apply list_filter_iff. intros kv. cbn [andb].
  rewrite !negb_true_iff, orb_false_iff. tauto.
Qed.

Lemma existsb_done ts kv :
  NoDup (map fst ts) -> In kv ts ->
  existsb (fun t => done_with t && String.eqb (fst kv) (fst t)) ts = done_with kv.
Proof.
  intros Hnd Hin. apply eq_true_iff_eq. rewrite existsb_exists. split.
  - intros (t & Ht & Hd). bool_to_prop. apply String.eqb_eq in H0.
    replace kv with t; [done|]. clear H. revert Hnd Hin Ht H0.
    induction ts as [|x ts IH]; [done|]. intros Hnd [->|Hin] [->|Ht] E; [done|..]; apply NoDup_cons in Hnd as [Hx Hnd].
    + destruct Hx. rewrite E. by apply list_elem_of_In, in_map.
    + destruct Hx. rewrite <- E. by apply list_elem_of_In, in_map.
    + by apply IH.
  - intros Hd. exists kv. split; [done|]. by rewrite Hd, String.eqb_refl.
Qed.

Lemma map_set_keys id h ts :
  map fst (map_set id h ts) = if bool_decide (id ∈ map fst ts) then map fst ts else map fst ts ++ [id].
Proof.
  induction ts as [|[k v] ts IH]; [done|]. cbn [map_set map fst].
  destruct (String.eqb_spec k id) as [->|Hne]; cbn [map fst].
  - rewrite bool_decide_true by (by left). done.
  - rewrite IH. destruct (decide (id ∈ map fst ts)) as [Hin|Hin].
    + rewrite !bool_decide_true by (done || by right). done.
    + rewrite !bool_decide_false; [done| |done]. intros [?|?]%elem_of_cons; congruence.
Qed.

Lemma watch_keys id h w : NoDup (map fst (tunnels w)) -> NoDup (map fst (tunnels (watch id h w))).
Proof.
  intros Hnd. unfold watch. cbn [tunnels set_tunnels]. rewrite map_set_keys. case_bool_decide as Hin; [done|].
  apply NoDup_app. split_and!; [done| |apply NoDup_singleton].
  intros x Hx Hid%list_elem_of_singleton. by subst.
Qed.

Lemma filter_keys (Q : string * Handle -> Prop) `{!forall kv, Decision (Q kv)} ts :
  NoDup (map fst ts) -> NoDup (map fst (filter Q ts)).
Proof.
  induction ts as [|kv ts IH]; [done|]. cbn [map]. rewrite NoDup_cons, filter_cons. intros [Hni Hnd].
  case_decide; [|by apply IH]. cbn [map]. apply NoDup_cons. split; [|by apply IH].
  intros Hin. apply Hni. apply list_elem_of_In, in_map_iff in Hin as (x & E & Hx).
  rewrite <- E. apply list_elem_of_In, in_map. apply list_elem_of_In in Hx.
  apply list_elem_of_In. by apply list_elem_of_filter in Hx as [_ ?].
Qed.

(** Towers built by the class's own operations. *)
Inductive tower : Watchtower Handle -> Prop :=
  | tower_new : tower {| tunnels := []; timer := false; events := [] |}
  | tower_watch id h w : tower w -> tower (watch id h w)
  | tower_unwatch id w : tower w -> tower (unwatch id w)
  | tower_tick w : tower w -> tower (tick w)
  | tower_start w : tower w -> tower (start w)
  | tower_stop w : tower w -> tower (stop w).

Lemma tower_keys w : tower w -> NoDup (map fst (tunnels w)).
Proof.
  induction 1 as [|id h w _ IH|id w _ IH|w _ IH|w _ IH|w _ IH].
  - constructor.
  - by apply watch_keys.
  - by apply filter_keys.
  - unfold tick. rewrite tick_loop. cbn [tunnels]. rewrite deletes_spec. by apply filter_keys.
  - unfold start. by destruct (timer w).
  - unfold stop. by destruct (timer w).
Qed.

(** A tick handles every watched tunnel, once and on its own.  Whatever the
    chain client answers or throws, a tick of a watchtower looks at each watched
    tunnel in the order it was added and does exactly what that tunnel's
    liveness calls for (an error while fetching or executing is reported and
    holds up no other tunnel), and stops watching exactly the tunnels whose
    force-close or timeout withdrawal was submitted. *)
Theorem watchtower_tick w :
  tower w ->
  events (tick w) = events w ++ concat (map events_of (tunnels w)) /\
  tunnels (tick w) = filter (fun t => done_with t = false) (tunnels w).
Proof.
  intros Hw%tower_keys. unfold tick. rewrite tick_loop. cbn [events tunnels]. split; [done|].
  rewrite deletes_spec. apply filter_ext_elem. intros kv Hin%list_elem_of_In.
  rewrite existsb_done by done. apply negb_true_iff.
Qed.

End Tower.

Definition at_time (t : TunnelLiveness) (n : Z) : TunnelLiveness :=
  {| status := status t; iAmDisputeRaiser := iAmDisputeRaiser t;
     hasCounterpartySignedNewerState := hasCounterpartySignedNewerState t;
     createdAtMs := createdAtMs t; lastActivityMs := lastActivityMs t; timeoutMs := timeoutMs t;
     nowMs := n; counterpartyDeposited := counterpartyDeposited t;
     heartbeatTimeoutMs := heartbeatTimeoutMs t; disputeStartMs := disputeStartMs t |}.

(** The recovery decision is the right one.  The watchtower force-closes
    exactly a dispute of its own whose timeout has passed, answers exactly a
    foreign dispute for which it holds a newer co-signed state, withdraws
    exactly from an unjoined tunnel after the timeout, raises a dispute exactly
    in an active tunnel whose counterparty has been silent for the heartbeat
    time (with the co-signed state when it has one), and does nothing otherwise;
    and a decision to act stands as long as only time passes. *)
Theorem recovery_decisions t :
  status t ∈ [0; 1; 2; 3; 4] ->
  let a := decideRecovery t in
  (a = ForceClose <-> status t = 3 /\ iAmDisputeRaiser t = true /\
     exists d, disputeStartMs t = Some d /\ d + timeoutMs t <= nowMs t) /\
  (a = ResolveDispute <-> status t = 3 /\ iAmDisputeRaiser t = false /\
     hasCounterpartySignedNewerState t = true) /\
  (a = WithdrawTimeout <-> status t = 0 /\ counterpartyDeposited t = false /\
     createdAtMs t + timeoutMs t <= nowMs t) /\
  (a = RaiseDispute <-> status t = 1 /\ heartbeatTimeoutMs t <= nowMs t - lastActivityMs t /\
     hasCounterpartySignedNewerState t = true) /\
  (a = RaiseDisputeCurrentState <-> status t = 1 /\
     heartbeatTimeoutMs t <= nowMs t - lastActivityMs t /\ hasCounterpartySignedNewerState t = false) /\
  (a <> NoAction -> forall n, nowMs t <= n -> decideRecovery (at_time t n) = a).
Proof.
  intros Hs. cbv zeta. unfold decideRecovery, at_time, TunnelStatus.CLOSED, TunnelStatus.DISPUTED,
    TunnelStatus.CREATED.
  assert (status t = 0 \/ status t = 1 \/ status t = 2 \/ status t = 3 \/ status t = 4) as Hst.
  { rewrite !elem_of_cons in Hs. rewrite elem_of_nil in Hs. tauto. }
  clear Hs. cbn [status iAmDisputeRaiser hasCounterpartySignedNewerState createdAtMs lastActivityMs
    timeoutMs nowMs counterpartyDeposited heartbeatTimeoutMs disputeStartMs].
  destruct Hst as [->|[->|[->|[->| ->]]]]; cbn;
    destruct (iAmDisputeRaiser t), (hasCounterpartySignedNewerState t), (counterpartyDeposited t),
      (disputeStartMs t) as [d|]; cbn [negb andb];
    repeat match goal with |- context [?x <=? nowMs ?y] => destruct (Z.leb_spec x (nowMs y)) end;
    repeat match goal with |- context [?x <=? nowMs ?y - ?z] => destruct (Z.leb_spec x (nowMs y - z)) end;
    split_and!; try (intros _ n Hn; rewrite (proj2 (Z.leb_le _ _)) by lia); try done;
    try (split; [discriminate|]; naive_solver lia); try naive_solver lia.
Qed.

Definition sample_liveness : TunnelLiveness :=
  {| status := 3; iAmDisputeRaiser := true; hasCounterpartySignedNewerState := false;
     createdAtMs := 0; lastActivityMs := 10; timeoutMs := 100; nowMs := 150;
     counterpartyDeposited := true; heartbeatTimeoutMs := 5; disputeStartMs := Some 20 |}.

Lemma recovery_decisions_witness :
  decideRecovery sample_liveness = ForceClose /\ decideRecovery (at_time sample_liveness 151) = ForceClose.
Proof.
  split; [reflexivity|].
  apply (proj2 (proj2 (proj2 (proj2 (proj2 (recovery_decisions sample_liveness
    ltac:(simpl; repeat (first [left; reflexivity | right])))))))); [discriminate|discriminate].
Defined.

Definition sample_tower : Watchtower Z :=
  watch "b" 1 (watch "a" 0 {| tunnels := []; timer := false; events := [] |}).

(** Tunnel "a" cannot be fetched; tunnel "b" is force-closed. *)
Lemma watchtower_tick_witness :
  tunnels (tick (fun h => if h =? 0 then Throw (Error "rpc") else Ok sample_liveness)
                (fun _ _ => Ok tt) sample_tower) = [("a"%string, 0)].
Proof.
  rewrite (proj2 (watchtower_tick (fun h => if h =? 0 then Throw (Error "rpc") else Ok sample_liveness)
    (fun _ _ => Ok tt) sample_tower ltac:(repeat constructor))).
  reflexivity.
Defined.
