(* ===== verification/Chat.v ===== *)
(** The chat protocol with tips: the class [ChatProtocol] of
    [sui-tunnel-ts/src/protocol/chat.ts]. *)
From S2P Require Import Prelude.
From S2P Require Import Bytes.
From S2P Require Import Wire.
From S2P Require Import Crypto.
From S2P Require Import Protocol.
From S2P Require Import RollingDigest.

(** [src protocol/chat.ts ChatStateData] *)
Record ChatStateData := {
  transcriptDigest : bytes;
  messageCount : Z;
  lastSender : option Party;
  balanceA : Z;
  balanceB : Z;
  total : Z
}.

(** [src protocol/chat.ts ChatMove]: [kind] is whatever came over the wire; the
    text is its UTF-8 bytes. *)
Record ChatMove := { kind : string; text : string; tip : option Z }.

(** [src protocol/chat.ts DOMAIN] *)
Definition DOMAIN : bytes := protocolDomain "chat.v1".

(** [src protocol/chat.ts partyByte] *)
Definition partyByte (p : Party) : Z := match p with PartyA => 1 | PartyB => 2 end.

(** [src protocol/chat.ts ChatProtocol.initialState] *)
Definition initialState (ctx : ProtocolContext) : ChatStateData :=
  {| transcriptDigest := u8_new 32;
     messageCount := 0;
     lastSender := None;
     balanceA := bal_a (initialBalances ctx);
     balanceB := bal_b (initialBalances ctx);
     total := bal_a (initialBalances ctx) + bal_b (initialBalances ctx) |}.

(** [src protocol/chat.ts:128-143 applyMove] the tip *)
Definition shift_tip (s : ChatStateData) (t : option Z) (by_ : Party) : result (Z * Z) :=
  match t with
  | None => Ok (balanceA s, balanceB s)
  | Some t =>
      if t =? 0 then Ok (balanceA s, balanceB s)
      else
        throw_if (t <? 0) with Error "tip must be non-negative" ;
        let senderBal := match by_ with PartyA => balanceA s | PartyB => balanceB s end in
        throw_if (senderBal <? t) with Error "tip exceeds balance" ;
        Ok (match by_ with PartyA => balanceA s - t | PartyB => balanceA s + t end,
            match by_ with PartyB => balanceB s - t | PartyA => balanceB s + t end)
  end.

(** [src protocol/chat.ts ChatProtocol.encodeState] *)
Definition encodeState (s : ChatStateData) : result bytes :=
  let! c := u64ToBeBytes (messageCount s) in
  let! a := u64ToBeBytes (balanceA s) in
  let! b := u64ToBeBytes (balanceB s) in
  concatBytes [DOMAIN; transcriptDigest s; c; a; b].

(** [src protocol/chat.ts ChatProtocol.balances] *)
Definition balances (s : ChatStateData) : Balances :=
  {| bal_a := balanceA s; bal_b := balanceB s |}.

(** [src protocol/chat.ts ChatProtocol.isTerminal] *)
Definition isTerminal (s : ChatStateData) : bool := false.

Section WithCrypto.
Context `{C : Crypto}.

(** [src protocol/chat.ts ChatProtocol.applyMove] *)
Definition applyMove (s : ChatStateData) (move : ChatMove) (by_ : Party) : result ChatStateData :=
  throw_if negb (String.eqb (kind move) "msg") with Error "unknown chat move kind" ;
  let messageBytes := text_encode (text move) in
  throw_if (length messageBytes =? 0)%nat with Error "chat message must be non-empty" ;
  let! n := u64ToBeBytes (Z.of_nat (length messageBytes)) in
  let! d := concatBytes [u8_from [partyByte by_]; n; messageBytes] in
  let delta := blake2b256 d in
  let! digest := rollingDigest blake2b256 (transcriptDigest s) delta in
  let! bals := shift_tip s (tip move) by_ in
  Ok {| transcriptDigest := digest;
        messageCount := messageCount s + 1;
        lastSender := Some by_;
        balanceA := fst bals;
        balanceB := snd bals;
        total := total s |}.

(** [src protocol/chat.ts:91-92 ChatProtocol] *)
Definition ChatProtocol : Protocol ChatStateData ChatMove :=
  {| movesCarrySecrets := false;
     Protocol.initialState := fun ctx => Ok (initialState ctx);
     Protocol.applyMove := applyMove;
     Protocol.encodeState := encodeState;
     Protocol.balances := balances;
     Protocol.isTerminal := isTerminal |}.

(** * Balances *)

Definition chat_inv (tot : Z) (s : ChatStateData) : Prop :=
  0 <= balanceA s /\ 0 <= balanceB s /\ balanceA s + balanceB s = tot /\
  0 <= messageCount s /\ length (transcriptDigest s) = 32%nat.

(** The bytes hashed for one message, and for its link in the chain. *)
Definition delta_input (m : ChatMove) (p : Party) : bytes :=
  [partyByte p] ++ be_bytes 8 (Z.of_nat (length (text_encode (text m)))) ++ text_encode (text m).

Definition link_input (digest : bytes) (m : ChatMove) (p : Party) : bytes :=
  digest ++ blake2b256 (delta_input m p).

Definition tip_of (m : ChatMove) : Z := default 0 (tip m).

Lemma chat_apply_inv s m p s' :
  applyMove s m p = Ok s' ->
  kind m = "msg"%string /\ text m <> ""%string /\ u64_range (Z.of_nat (length (text_encode (text m)))) /\
  0 <= tip_of m <= (match p with PartyA => Z.max 0 (balanceA s) | PartyB => Z.max 0 (balanceB s) end) /\
  s' = {| transcriptDigest := blake2b256 (link_input (transcriptDigest s) m p);
          messageCount := messageCount s + 1; lastSender := Some p;
          balanceA := match p with PartyA => balanceA s - tip_of m | PartyB => balanceA s + tip_of m end;
          balanceB := match p with PartyB => balanceB s - tip_of m | PartyA => balanceB s + tip_of m end;
          total := total s |}.
Proof.
  unfold applyMove. intros H. inv_ok. apply u64ToBeBytes_ok in E1 as [Hr ->].
  unfold rollingDigest in E3. rewrite concatBytes_concat in E2, E3. cbn [rbind] in E3. inv_ok.
  bool_to_prop. apply String.eqb_eq in E.
  assert (0 <= tip_of m <= match p with PartyA => Z.max 0 (balanceA s) | PartyB => Z.max 0 (balanceB s) end /\
    a2 = (match p with PartyA => balanceA s - tip_of m | PartyB => balanceA s + tip_of m end,
          match p with PartyB => balanceB s - tip_of m | PartyA => balanceB s + tip_of m end)) as [Ht ->].
  { unfold shift_tip in E4. unfold tip_of. destruct (tip m) as [t|]; simpl.
    - destruct (Z.eqb_spec t 0) as [H0|Hne]; inv_ok; bool_to_prop; destruct p; (split; [lia|]); f_equal; lia.
    - inv_ok. destruct p; (split; [lia|]); f_equal; lia. }
  split_and!; try done.
  - intros Ht'. rewrite Ht' in E0. done.
  - apply Ht.
  - apply Ht.
  - unfold link_input, delta_input. cbn [concat foldr fst snd u8_from map].
    rewrite !app_nil_r. replace (to_u8 (partyByte p)) with (partyByte p) by (by destruct p). done.
Qed.

#[export] Instance chat_laws `{!CryptoLaws C} : ProtocolLaws ChatProtocol chat_inv (fun _ => True).
Proof.
  split.
  - intros ctx s _ (Ha & Hb & _) H. injection H as <-. unfold sum_of.
    split; [split_and!; simpl; done || lia|]. by destruct ctx as [? []].
  - intros tot s m p s' (Ha & Hb & Hs & Hc & _) H.
    apply chat_apply_inv in H as (_ & _ & _ & Ht & ->). simpl.
    destruct p; split_and!; simpl; try lia; apply blake2b_length.
  - intros tot s (Ha & Hb & Hs & _). unfold sum_of. simpl. lia.
Qed.

(** * The digest determines the conversation *)

(** The conversation part of a move. *)
Definition said (mp : ChatMove * Party) : string * Party := (text (fst mp), snd mp).

(** The inputs hashed along a conversation, from digest [d] on. *)
Fixpoint chat_inputs (d : bytes) (ms : list (ChatMove * Party)) : list bytes :=
  match ms with
  | [] => []
  | (m, p) :: ms' =>
      delta_input m p :: link_input d m p :: chat_inputs (blake2b256 (link_input d m p)) ms'
  end.

(** The link of a message in the chain of the conversation. *)
Definition link (mp : ChatMove * Party) : bytes := blake2b256 (delta_input mp.1 mp.2).

Definition hash_injective_on (D : list bytes) : Prop :=
  forall p q, p ∈ D -> q ∈ D -> blake2b256 p = blake2b256 q -> p = q.

Definition sendable (mp : ChatMove * Party) : Prop :=
  u64_range (Z.of_nat (length (text_encode (text (fst mp))))).

Lemma delta_input_inj m p m' p' :
  sendable (m, p) -> sendable (m', p') -> delta_input m p = delta_input m' p' ->
  said (m, p) = said (m', p').
Proof.
  unfold sendable, delta_input, said. cbn [fst snd]. intros H1 H2 H. apply app_inj_length in H as [Hp H]; [|done].
  apply app_inj_length in H as [_ H]; [|by rewrite !length_be_bytes].
  apply text_encode_inj in H. rewrite H. f_equal. by destruct p, p'.
Qed.

Lemma elem_chat_inputs d ms :
  (forall x, x ∈ chain_inputs link d ms -> x ∈ chat_inputs d ms) /\
  (forall mp, mp ∈ ms -> delta_input mp.1 mp.2 ∈ chat_inputs d ms).
Proof.
  revert d; induction ms as [|[m p] ms IH]; intros d; cbn [chain_inputs chat_inputs].
  { by split; intros ? ?%elem_of_nil. }
  destruct (IH (blake2b256 (link_input d m p))) as [H1 H2]. split.
  - intros x [->|Hx]%elem_of_cons; [right; left|do 2 right; by apply H1].
  - intros mp [->|Hx]%elem_of_cons; [left|do 2 right; by apply H2].
Qed.

Lemma chat_run `{!CryptoLaws C} ms s0 s :
  run ChatProtocol s0 ms = Ok s ->
  transcriptDigest s = chain link (transcriptDigest s0) ms /\
  messageCount s = messageCount s0 + Z.of_nat (length ms) /\ Forall sendable ms.
Proof.
  unfold run. revert s0; induction ms as [|[m p] ms IH]; intros s0 H; cbn [rfold] in H; inv_ok.
  { split_and!; [done|simpl; lia|constructor]. }
  apply chat_apply_inv in E as (_ & _ & Hr & _ & ->). apply IH in H as (-> & -> & Hs).
  cbn [transcriptDigest messageCount length]. split_and!; [done|lia|by constructor].
Qed.

(** The constant-size chat state commits to the whole conversation: if two
    conversations over tunnels (whatever their deposits and tips) end in states
    with the same encoding, they have the same messages by the same senders in
    the same order, unless the hash collides on the inputs hashed along the two;
    and tips never make a balance negative nor change the locked total. *)
Theorem chat_commits_to_conversation `{!CryptoLaws C} ctx1 ctx2 ms1 ms2 s1 s2 b :
  lockable (initialBalances ctx1) ->
  run ChatProtocol (initialState ctx1) ms1 = Ok s1 ->
  run ChatProtocol (initialState ctx2) ms2 = Ok s2 ->
  encodeState s1 = Ok b -> encodeState s2 = Ok b ->
  hash_injective_on (chat_inputs (u8_new 32) ms1 ++ chat_inputs (u8_new 32) ms2) ->
  map said ms1 = map said ms2 /\
  0 <= balanceA s1 /\ 0 <= balanceB s1 /\ balanceA s1 + balanceB s1 = sum_of (initialBalances ctx1).
Proof.
  intros Hl R1 R2 E1 E2 HD.
  assert (chat_inv (sum_of (initialBalances ctx1)) s1) as (? & ? & ? & _).
  { by apply (run_from_initial ChatProtocol chat_inv (fun _ => True) ctx1 (initialState ctx1) ms1). }
  split; [|done].
  destruct (chat_run _ _ _ R1) as (D1 & C1 & S1). destruct (chat_run _ _ _ R2) as (D2 & C2 & S2).
  unfold encodeState in E1, E2. inv_ok. rewrite !concatBytes_concat in *.
  repeat match goal with H : u64ToBeBytes _ = Ok _ |- _ => apply u64ToBeBytes_ok in H as [? ->] end.
  apply Ok_inj in E1 as <-. apply Ok_inj in E2. cbn [concat foldr] in E2.
  apply app_inv_head in E2. cbn [initialState transcriptDigest messageCount] in *.
  assert (length (u8_new 32) = 32%nat) as H32 by done.
  apply app_inj_length in E2 as [Hd E2]; [|rewrite D1, D2; by rewrite !length_chain].
  apply app_inj_length in E2 as [Hc _]; [|by rewrite !length_be_bytes].
  apply be_bytes_inj in Hc; [|done..].
  destruct (elem_chat_inputs (u8_new 32) ms1) as [I1 J1], (elem_chat_inputs (u8_new 32) ms2) as [I2 J2].
  apply (chain_inj link said (u8_new 32)); [done| | |lia|congruence].
  - intros p q Hp Hq. apply HD; apply elem_of_app; auto.
  - rewrite Forall_forall in S1, S2. intros [m p] [m' p'] Hm Hm' Heq.
    apply delta_input_inj; [by apply S1|by apply S2|].
    apply HD in Heq; [done|apply elem_of_app; left; by apply J1|apply elem_of_app; right; by apply J2].
Qed.

End WithCrypto.

Definition sample_ctx : ProtocolContext :=
  {| ctx_tunnelId := "0xA1"; initialBalances := {| bal_a := 100; bal_b := 50 |} |}.

Definition sample_chat : list (ChatMove * Party) :=
  [({| kind := "msg"; text := "hi"; tip := Some 30 |}, PartyA);
   ({| kind := "msg"; text := "thanks"; tip := None |}, PartyB)].

Lemma sample_chat_run :
  match run ChatProtocol (initialState sample_ctx) sample_chat with
  | Ok s => is_ok (encodeState s)
  | Throw _ => false
  end = true.
Proof. vm_compute. reflexivity. Qed.

Definition inputs_check (D : list bytes) : bool :=
  forallb (fun p => forallb (fun q =>
    implb (bytesEqual (blake2b256 p) (blake2b256 q)) (bytesEqual p q)) D) D.

Lemma inputs_check_ok D : inputs_check D = true -> hash_injective_on (D ++ D).
Proof.
  unfold inputs_check, hash_injective_on. rewrite forallb_forall. intros H p q Hp Hq E.
  assert (In p D) as Hp' by (apply elem_of_app in Hp as [?|?]; by apply list_elem_of_In).
  assert (In q D) as Hq' by (apply elem_of_app in Hq as [?|?]; by apply list_elem_of_In).
  specialize (H p Hp'). rewrite forallb_forall in H. specialize (H q Hq').
  rewrite (proj2 (bytesEqual_spec _ _) E) in H. simpl in H. by apply bytesEqual_spec.
Qed.

Lemma sample_chat_inputs : inputs_check (chat_inputs (u8_new 32) sample_chat) = true.
Proof. vm_compute. reflexivity. Qed.

Lemma chat_commits_to_conversation_witness :
  exists s, run ChatProtocol (initialState sample_ctx) sample_chat = Ok s /\
    balanceA s + balanceB s = 150.
Proof.
  pose proof sample_chat_run as F.
  destruct (run ChatProtocol (initialState sample_ctx) sample_chat) as [s|] eqn:E; [|discriminate F].
  destruct (encodeState s) as [b|] eqn:Eb; [|discriminate F].
  exists s. split; [reflexivity|].
  exact (proj2 (proj2 (proj2 (chat_commits_to_conversation sample_ctx sample_ctx sample_chat sample_chat s s b
    ltac:(unfold lockable, sum_of; simpl; rewrite U64_MAX_eq; lia) E E Eb Eb
    (inputs_check_ok _ sample_chat_inputs))))).
Defined.
