(* ===== verification/Blackjack.v ===== *)
(** Two-party blackjack with a commit-reveal per card:
    [sui-tunnel-ts/src/protocol/blackjack.ts].

    Cards come out of rejection sampling, which has no bound on its rounds; the
    fuel of [nextU64InRange] is the section variable [fuel]. *)
From S2P Require Import Prelude.
From S2P Require Import Bytes.
From S2P Require Import Wire.
From S2P Require Import Crypto.
From S2P Require Import Commitment.
From S2P Require Import Randomness.
From S2P Require Import Protocol.

(** [src protocol/blackjack.ts getPlayerParty] *)
Definition getPlayerParty (round : Z) : Party :=
  let r := round - 1 in
  if (r / 2) mod 2 =? 0 then PartyA else PartyB.

(** [src protocol/blackjack.ts getDealerParty] *)
Definition getDealerParty (round : Z) : Party :=
  if party_eqb (getPlayerParty round) PartyA then PartyB else PartyA.

(** [src protocol/blackjack.ts PlayerPartyFor] *)
Definition PlayerPartyFor : Type := Z -> Party.

(** [src protocol/blackjack.ts FIXED_PLAYER_A] *)
Definition FIXED_PLAYER_A : PlayerPartyFor := fun _ => PartyA.

(** [src protocol/blackjack.ts dealerPartyForWith] *)
Definition dealerPartyForWith (round : Z) (playerPartyFor : PlayerPartyFor) : Party :=
  if party_eqb (playerPartyFor round) PartyA then PartyB else PartyA.

(** [src protocol/blackjack.ts MIN_BET] *)
Definition MIN_BET : Z := 1.
(** [src protocol/blackjack.ts ROUND_CAP] *)
Definition ROUND_CAP : Z := 1000.
(** [src protocol/blackjack.ts DEALER_STANDS_AT] *)
Definition DEALER_STANDS_AT : Z := 17.
(** [src protocol/blackjack.ts BUST_AT] *)
Definition BUST_AT : Z := 21.

(** [src protocol/blackjack.ts:65-69 BlackjackPhase] *)
Inductive BlackjackPhase := DrawCommit | DrawReveal | Player | RoundOver.

#[export] Instance BlackjackPhase_eq_dec : EqDecision BlackjackPhase.
Proof. solve_decision. Defined.

(** [src protocol/blackjack.ts BlackjackSlotReveal] *)
Record BlackjackSlotReveal := { sr_value : bytes; sr_salt : bytes }.

(** [src protocol/blackjack.ts DrawReason] *)
Inductive DrawReason := Deal | HitCard | DealerAuto.
Inductive ForHand := PlayerHand | DealerHand.

(** [src protocol/blackjack.ts DrawContext] *)
Record DrawContext := { forHand : ForHand; reason : DrawReason }.

(** [src protocol/blackjack.ts BlackjackState] *)
Record BlackjackState := {
  phase : BlackjackPhase;
  round : Z;
  drawCount : Z;
  playerHand : list Z;
  dealerHand : list Z;
  draw : option DrawContext;
  pendingCommitA : option bytes;
  pendingCommitB : option bytes;
  pendingRevealA : option BlackjackSlotReveal;
  pendingRevealB : option BlackjackSlotReveal;
  localSecretA : option BlackjackSlotReveal;
  localSecretB : option BlackjackSlotReveal;
  balanceA : Z;
  balanceB : Z;
  total : Z;
  bet : Z
}.

(** [src protocol/blackjack.ts:108-118 BlackjackMove] *)
Inductive BlackjackMove :=
  | Bet (amount : Z)
  | Commit (commitment : bytes) (localSecret : option BlackjackSlotReveal)
  | Reveal (reveal : BlackjackSlotReveal)
  | Hit
  | Stand
  | Forfeit.

(** [src protocol/blackjack.ts DOMAIN] *)
Definition DOMAIN : bytes := protocolDomain "blackjack.v2".

(** [src protocol/blackjack.ts PHASE_CODE] *)
Definition PHASE_CODE (p : BlackjackPhase) : Z :=
  match p with DrawCommit => 0 | DrawReveal => 1 | Player => 2 | RoundOver => 3 end.
(** [src protocol/blackjack.ts FORHAND_CODE] *)
Definition FORHAND_CODE (h : ForHand) : Z := match h with PlayerHand => 0 | DealerHand => 1 end.
(** [src protocol/blackjack.ts REASON_CODE] *)
Definition REASON_CODE (r : DrawReason) : Z := match r with Deal => 0 | HitCard => 1 | DealerAuto => 2 end.

(** [src protocol/blackjack.ts rankValue] *)
Definition rankValue (rank : Z) : Z :=
  if rank =? 1 then 11 else if 11 <=? rank then 10 else rank.

(** [src protocol/blackjack.ts:157-160 handValue] the loop *)
Fixpoint soften (total : Z) (aces : nat) : Z :=
  match aces with
  | O => total
  | S aces' => if BUST_AT <? total then soften (total - 10) aces' else total
  end.

(** [src protocol/blackjack.ts handValue] *)
Definition handValue (hand : list Z) : Z :=
  let '(total, aces) :=
    fold_left (fun '(t, a) v => (t + v, if v =? 11 then S a else a)) hand (0, O) in
  soften total aces.

(** [src protocol/blackjack.ts isBust] *)
Definition isBust (hand : list Z) : bool := BUST_AT <? handValue hand.

(** [src protocol/blackjack.ts maxBet] *)
Definition maxBet (s : BlackjackState) : Z :=
  if balanceA s <? balanceB s then balanceA s else balanceB s.

(** [src protocol/blackjack.ts canStartRound] *)
Definition canStartRound (s : BlackjackState) : bool := MIN_BET <=? maxBet s.

(** [src protocol/blackjack.ts blackjackHandValue] *)
Definition blackjackHandValue (hand : list Z) : Z := handValue hand.

(** [src protocol/blackjack.ts beginDraw] *)
Definition beginDraw (s : BlackjackState) (ctx : DrawContext) : BlackjackState :=
  {| phase := DrawCommit; round := round s; drawCount := drawCount s;
     playerHand := playerHand s; dealerHand := dealerHand s; draw := Some ctx;
     pendingCommitA := None; pendingCommitB := None; pendingRevealA := None; pendingRevealB := None;
     localSecretA := None; localSecretB := None;
     balanceA := balanceA s; balanceB := balanceB s; total := total s; bet := bet s |}.

(** [src protocol/blackjack.ts beginRound] *)
Definition beginRound (s : BlackjackState) : BlackjackState :=
  let r := round s + 1 in
  let base :=
    {| phase := phase s; round := r; drawCount := 0; playerHand := []; dealerHand := [];
       draw := draw s; pendingCommitA := pendingCommitA s; pendingCommitB := pendingCommitB s;
       pendingRevealA := pendingRevealA s; pendingRevealB := pendingRevealB s;
       localSecretA := localSecretA s; localSecretB := localSecretB s;
       balanceA := balanceA s; balanceB := balanceB s; total := total s; bet := bet s |} in
  beginDraw base {| forHand := PlayerHand; reason := Deal |}.

(** [src protocol/blackjack.ts settle] *)
Definition settle (s : BlackjackState) (winner : option Party) : BlackjackState :=
  let '(a, b) :=
    match winner with
    | Some PartyA =>
        let amt := if bet s <=? balanceB s then bet s else balanceB s in
        (balanceA s + amt, balanceB s - amt)
    | Some PartyB =>
        let amt := if bet s <=? balanceA s then bet s else balanceA s in
        (balanceA s - amt, balanceB s + amt)
    | None => (balanceA s, balanceB s)
    end in
  {| phase := RoundOver; round := round s; drawCount := drawCount s;
     playerHand := playerHand s; dealerHand := dealerHand s; draw := None;
     pendingCommitA := None; pendingCommitB := None; pendingRevealA := None; pendingRevealB := None;
     localSecretA := None; localSecretB := None;
     balanceA := a; balanceB := b; total := total s; bet := bet s |}.

Section Roles.
Context (playerPartyFor : PlayerPartyFor).

(** [src protocol/blackjack.ts resolveShowdown] *)
Definition resolveShowdown (s : BlackjackState) : BlackjackState :=
  let pv := handValue (playerHand s) in
  let dv := handValue (dealerHand s) in
  let winner :=
    if isBust (dealerHand s) then Some (playerPartyFor (round s))
    else if dv <? pv then Some (playerPartyFor (round s))
    else if pv <? dv then Some (dealerPartyForWith (round s) playerPartyFor)
    else None in
  settle s winner.

Definition with_phase (p : BlackjackPhase) (s : BlackjackState) : BlackjackState :=
  {| phase := p; round := round s; drawCount := drawCount s;
     playerHand := playerHand s; dealerHand := dealerHand s; draw := draw s;
     pendingCommitA := pendingCommitA s; pendingCommitB := pendingCommitB s;
     pendingRevealA := pendingRevealA s; pendingRevealB := pendingRevealB s;
     localSecretA := localSecretA s; localSecretB := localSecretB s;
     balanceA := balanceA s; balanceB := balanceB s; total := total s; bet := bet s |}.

(** [src protocol/blackjack.ts:277-295 afterDraw] the state with the card added *)
Definition add_card (s : BlackjackState) (ctx : DrawContext) (rank : Z) : BlackjackState :=
  let value := rankValue rank in
  {| phase := phase s; round := round s; drawCount := drawCount s + 1;
     playerHand := match forHand ctx with PlayerHand => playerHand s ++ [value] | DealerHand => playerHand s end;
     dealerHand := match forHand ctx with DealerHand => dealerHand s ++ [value] | PlayerHand => dealerHand s end;
     draw := None;
     pendingCommitA := None; pendingCommitB := None; pendingRevealA := None; pendingRevealB := None;
     localSecretA := None; localSecretB := None;
     balanceA := balanceA s; balanceB := balanceB s; total := total s; bet := bet s |}.

(** [src protocol/blackjack.ts afterDraw]: [s.draw!] is an assertion. *)
Definition afterDraw (s : BlackjackState) (rank : Z) : result BlackjackState :=
  match draw s with
  | None => Throw (TypeError "Cannot read properties of null")
  | Some ctx =>
      let base := add_card s ctx rank in
      match reason ctx with
      | Deal =>
          if (length (playerHand base) <? 2)%nat
          then Ok (beginDraw base {| forHand := PlayerHand; reason := Deal |})
          else if (length (dealerHand base) <? 2)%nat
          then Ok (beginDraw base {| forHand := DealerHand; reason := Deal |})
          else Ok (with_phase Player base)
      | HitCard =>
          if isBust (playerHand base)
          then Ok (settle base (Some (dealerPartyForWith (round base) playerPartyFor)))
          else Ok (with_phase Player base)
      | DealerAuto =>
          if handValue (dealerHand base) <? DEALER_STANDS_AT
          then Ok (beginDraw base {| forHand := DealerHand; reason := DealerAuto |})
          else Ok (resolveShowdown base)
      end
  end.

(** [src protocol/blackjack.ts applyCommit] *)
Definition applyCommit (s : BlackjackState) (commitment : bytes)
    (localSecret : option BlackjackSlotReveal) (by_ : Party) : result BlackjackState :=
  let already := match by_ with PartyA => pendingCommitA s | PartyB => pendingCommitB s end in
  match already with
  | Some _ => Throw (Error "party already committed")
  | None =>
      throw_if negb (length commitment =? 32)%nat with Error "commitment must be 32 bytes" ;
      let cA := match by_ with PartyA => Some commitment | PartyB => pendingCommitA s end in
      let cB := match by_ with PartyB => Some commitment | PartyA => pendingCommitB s end in
      Ok {| phase := match cA, cB with Some _, Some _ => DrawReveal | _, _ => phase s end;
            round := round s; drawCount := drawCount s;
            playerHand := playerHand s; dealerHand := dealerHand s; draw := draw s;
            pendingCommitA := cA; pendingCommitB := cB;
            pendingRevealA := pendingRevealA s; pendingRevealB := pendingRevealB s;
            localSecretA := match by_ with PartyA => localSecret | PartyB => localSecretA s end;
            localSecretB := match by_ with PartyB => localSecret | PartyA => localSecretB s end;
            balanceA := balanceA s; balanceB := balanceB s; total := total s; bet := bet s |}
  end.

(** Whether party [p] has filled its slot of the pair. *)
Definition has_slot {T} (a b : option T) (p : Party) : bool :=
  match p with PartyA => bool_decide (is_Some a) | PartyB => bool_decide (is_Some b) end.

(** [src protocol/blackjack.ts claimForfeit] *)
Definition claimForfeit (s : BlackjackState) (by_ : Party) : result BlackjackState :=
  let opp := otherParty by_ in
  match phase s with
  | DrawCommit =>
      throw_if negb (has_slot (pendingCommitA s) (pendingCommitB s) by_) ||
               has_slot (pendingCommitA s) (pendingCommitB s) opp
        with Error "forfeit not claimable: opponent does not owe a commit" ;
      Ok (settle s (Some by_))
  | DrawReveal =>
      throw_if negb (has_slot (pendingRevealA s) (pendingRevealB s) by_) ||
               has_slot (pendingRevealA s) (pendingRevealB s) opp
        with Error "forfeit not claimable: opponent does not owe a reveal" ;
      Ok (settle s (Some by_))
  | _ => Throw (Error "forfeit only valid during a pending draw")
  end.

(** [src protocol/blackjack.ts actorFor] *)
Definition actorFor (s : BlackjackState) : option Party :=
  match phase s with
  | RoundOver => Some (playerPartyFor (round s + 1))
  | DrawCommit =>
      match pendingCommitA s, pendingCommitB s with
      | None, _ => Some PartyA
      | _, None => Some PartyB
      | _, _ => None
      end
  | DrawReveal =>
      match pendingRevealA s, pendingRevealB s with
      | None, _ => Some PartyA
      | _, None => Some PartyB
      | _, _ => None
      end
  | Player => Some (playerPartyFor (round s))
  end.

(** [src protocol/blackjack.ts BlackjackProtocol.initialState] *)
Definition initialState (ctx : ProtocolContext) : BlackjackState :=
  {| phase := RoundOver; round := 0; drawCount := 0; playerHand := []; dealerHand := []; draw := None;
     pendingCommitA := None; pendingCommitB := None; pendingRevealA := None; pendingRevealB := None;
     localSecretA := None; localSecretB := None;
     balanceA := bal_a (initialBalances ctx); balanceB := bal_b (initialBalances ctx);
     total := bal_a (initialBalances ctx) + bal_b (initialBalances ctx); bet := 0 |}.

(** [src protocol/blackjack.ts BlackjackProtocol.isTerminal] *)
Definition isTerminal (s : BlackjackState) : bool :=
  if ROUND_CAP <=? round s then true
  else match phase s with RoundOver => negb (canStartRound s) | _ => false end.

(** [src protocol/blackjack.ts BlackjackProtocol.balances] *)
Definition balances (s : BlackjackState) : Balances :=
  {| bal_a := balanceA s; bal_b := balanceB s |}.

Definition encode_reveal (r : option BlackjackSlotReveal) : result (list bytes) :=
  match r with
  | None => Ok [u8_from [0]]
  | Some r =>
      let! v := lengthPrefixedConcat [sr_value r] in
      let! s := lengthPrefixedConcat [sr_salt r] in
      Ok [u8_from [1]; v; s]
  end.

(** [src protocol/blackjack.ts BlackjackProtocol.encodeState] *)
Definition encodeState (s : BlackjackState) : result bytes :=
  let! a := u64ToBeBytes (balanceA s) in
  let! b := u64ToBeBytes (balanceB s) in
  let! r := u64ToBeBytes (round s) in
  let! d := u64ToBeBytes (drawCount s) in
  let! np := u64ToBeBytes (Z.of_nat (length (playerHand s))) in
  let! nd := u64ToBeBytes (Z.of_nat (length (dealerHand s))) in
  let! w := u64ToBeBytes (bet s) in
  let parts := [DOMAIN; a; b; r; d; u8_from [PHASE_CODE (phase s)]; np; u8_from (playerHand s);
                nd; u8_from (dealerHand s); w] in
  let parts := parts ++
    [match draw s with
     | None => u8_from [255]
     | Some c => u8_from [1; FORHAND_CODE (forHand c); REASON_CODE (reason c)]
     end] in
  let! ca := lengthPrefixedConcat [default [] (pendingCommitA s)] in
  let! cb := lengthPrefixedConcat [default [] (pendingCommitB s)] in
  let! ra := encode_reveal (pendingRevealA s) in
  let! rb := encode_reveal (pendingRevealB s) in
  concatBytes (parts ++ [ca; cb] ++ ra ++ rb).

Section WithCrypto.
Context `{C : Crypto} (fuel : nat).

(** [src protocol/blackjack.ts deriveRank] *)
Definition deriveRank (a b : BlackjackSlotReveal) : result Z :=
  let! r := combineReveals (sr_value a) (sr_salt a) (sr_value b) (sr_salt b) in
  let! vs := nextU64InRange fuel (seedFromBytes r) 0 13 in
  Ok (fst vs + 1).

(** [src protocol/blackjack.ts applyReveal] *)
Definition applyReveal (s : BlackjackState) (reveal : BlackjackSlotReveal) (by_ : Party)
  : result BlackjackState :=
  let already := match by_ with PartyA => pendingRevealA s | PartyB => pendingRevealB s end in
  match already with
  | Some _ => Throw (Error "party already revealed")
  | None =>
      match match by_ with PartyA => pendingCommitA s | PartyB => pendingCommitB s end with
      | None => Throw (Error "party has no commitment to reveal")
      | Some commit =>
          let! ok := verifyCommitment commit (sr_value reveal) (sr_salt reveal) in
          throw_if negb ok with Error "reveal does not match commitment for party" ;
          let next :=
            {| phase := phase s; round := round s; drawCount := drawCount s;
               playerHand := playerHand s; dealerHand := dealerHand s; draw := draw s;
               pendingCommitA := pendingCommitA s; pendingCommitB := pendingCommitB s;
               pendingRevealA := match by_ with PartyA => Some reveal | PartyB => pendingRevealA s end;
               pendingRevealB := match by_ with PartyB => Some reveal | PartyA => pendingRevealB s end;
               localSecretA := localSecretA s; localSecretB := localSecretB s;
               balanceA := balanceA s; balanceB := balanceB s; total := total s; bet := bet s |} in
          match pendingRevealA next, pendingRevealB next with
          | Some ra, Some rb =>
              let! rank := deriveRank ra rb in
              afterDraw next rank
          | _, _ => Ok next
          end
      end
  end.

(** [src protocol/blackjack.ts randomSecret]: [b i] is the [i]-th value of
    [Math.floor(rng() * 256) & 0xff]. *)
Definition randomSecret (b : nat -> Z) : BlackjackSlotReveal :=
  {| sr_value := u8_from [b 0%nat]; sr_salt := u8_from (map b (seq 1 MIN_SALT_LEN)) |}.

(** [src protocol/blackjack.ts secureCommitMove] with the bytes its source gave *)
Definition secureCommitMove (value salt : bytes) : result BlackjackMove :=
  let! c := computeCommitment value salt in
  Ok (Commit c (Some {| sr_value := value; sr_salt := salt |})).

Definition with_bet (w : Z) (s : BlackjackState) : BlackjackState :=
  {| phase := phase s; round := round s; drawCount := drawCount s;
     playerHand := playerHand s; dealerHand := dealerHand s; draw := draw s;
     pendingCommitA := pendingCommitA s; pendingCommitB := pendingCommitB s;
     pendingRevealA := pendingRevealA s; pendingRevealB := pendingRevealB s;
     localSecretA := localSecretA s; localSecretB := localSecretB s;
     balanceA := balanceA s; balanceB := balanceB s; total := total s; bet := w |}.

(** [src protocol/blackjack.ts BlackjackProtocol.applyMove] *)
Definition applyMove (s : BlackjackState) (move : BlackjackMove) (by_ : Party) : result BlackjackState :=
  match phase s with
  | RoundOver =>
      match move with
      | Bet amount =>
          throw_if isTerminal s with Error "game over: no more rounds can be played" ;
          let nextPlayer := playerPartyFor (round s + 1) in
          throw_if negb (party_eqb by_ nextPlayer) with Error "only the player sets the bet" ;
          let cap := maxBet s in
          throw_if (amount <? MIN_BET) || (cap <? amount) with Error "bet must be in range" ;
          Ok (beginRound (with_bet amount s))
      | _ => Throw (Error "expected 'bet' in round_over")
      end
  | DrawCommit =>
      match move with
      | Forfeit => claimForfeit s by_
      | Commit c sec => applyCommit s c sec by_
      | _ => Throw (Error "expected 'commit' in draw_commit")
      end
  | DrawReveal =>
      match move with
      | Forfeit => claimForfeit s by_
      | Reveal r => applyReveal s r by_
      | _ => Throw (Error "expected 'reveal' in draw_reveal")
      end
  | Player =>
      let playerParty := playerPartyFor (round s) in
      throw_if negb (party_eqb by_ playerParty) with Error "it is the player's turn" ;
      match move with
      | Hit => Ok (beginDraw s {| forHand := PlayerHand; reason := HitCard |})
      | Stand =>
          if DEALER_STANDS_AT <=? handValue (dealerHand s) then Ok (resolveShowdown s)
          else Ok (beginDraw s {| forHand := DealerHand; reason := DealerAuto |})
      | _ => Throw (Error "expected 'hit' or 'stand' in player phase")
      end
  end.

(** [src protocol/blackjack.ts BlackjackProtocol.randomMove]: [Ok None] is
    [null]. *)
Definition randomMove (s : BlackjackState) (by_ : Party) (b : nat -> Z)
  : result (option BlackjackMove) :=
  if isTerminal s then Ok None
  else match phase s with
  | RoundOver =>
      let nextPlayer := playerPartyFor (round s + 1) in
      if negb (party_eqb by_ nextPlayer) then Ok None
      else if maxBet s <? MIN_BET then Ok None
      else Ok (Some (Bet MIN_BET))
  | DrawCommit =>
      if has_slot (pendingCommitA s) (pendingCommitB s) by_ then Ok None
      else
        let secret := randomSecret b in
        let! c := computeCommitment (sr_value secret) (sr_salt secret) in
        Ok (Some (Commit c (Some secret)))
  | DrawReveal =>
      if has_slot (pendingRevealA s) (pendingRevealB s) by_ then Ok None
      else match match by_ with PartyA => localSecretA s | PartyB => localSecretB s end with
           | None => Ok None
           | Some secret => Ok (Some (Reveal secret))
           end
  | Player =>
      if negb (party_eqb by_ (playerPartyFor (round s))) then Ok None
      else Ok (Some (if blackjackHandValue (playerHand s) <? 17 then Hit else Stand))
  end.

(** [src protocol/blackjack.ts:452-460 BlackjackProtocol] *)
Definition BlackjackProtocol : Protocol BlackjackState BlackjackMove :=
  {| movesCarrySecrets := false;
     Protocol.initialState := fun ctx => Ok (initialState ctx);
     Protocol.applyMove := applyMove;
     Protocol.encodeState := encodeState;
     Protocol.balances := balances;
     Protocol.isTerminal := isTerminal |}.

End WithCrypto.
End Roles.

(** * Hand values *)

(** The totals a hand can count for: each ace (stored as 11) as 11 or as 1. *)
Fixpoint totals (hand : list Z) : list Z :=
  match hand with
  | [] => [0]
  | v :: hand' =>
      map (Z.add v) (totals hand') ++ (if v =? 11 then map (Z.add 1) (totals hand') else [])
  end.

Definition hard_sum (hand : list Z) : Z := foldr Z.add 0 hand.
Definition aces (hand : list Z) : nat := length (filter (fun v => v = 11) hand).

Lemma hand_loop hand t a :
  fold_left (fun '(t, a) v => (t + v, if v =? 11 then S a else a)) hand (t, a) =
  (t + hard_sum hand, (a + aces hand)%nat).
Proof.
  revert t a; induction hand as [|v hand IH]; intros t a; simpl.
  { unfold aces; simpl. f_equal; lia. }
  rewrite IH. unfold aces. rewrite filter_cons. destruct (Z.eqb_spec v 11), (decide (v = 11)); try done; simpl; f_equal; lia.
Qed.

Lemma handValue_soften hand : handValue hand = soften (hard_sum hand) (aces hand).
Proof. unfold handValue. by rewrite hand_loop. Qed.

Lemma soften_spec t a :
  exists k : nat, (k <= a)%nat /\ soften t a = t - 10 * Z.of_nat k /\
    (soften t a <= BUST_AT \/ k = a) /\
    (forall j : nat, (j < k)%nat -> BUST_AT < t - 10 * Z.of_nat j).
Proof.
  revert t; induction a as [|a IH]; intros t; simpl.
  { exists 0%nat. split_and!; [lia|lia|by right|lia]. }
  destruct (Z.ltb_spec BUST_AT t) as [Hb|Hb].
  - destruct (IH (t - 10)) as (k & Hk & Hs & Hor & Hj). exists (S k). split_and!; [lia|lia| |].
    + destruct Hor as [?| ->]; [by left|by right].
    + intros [|j] Hlt; [lia|]. specialize (Hj j). lia.
  - exists 0%nat. split_and!; [lia|lia|by left|lia].
Qed.

Lemma totals_spec hand t :
  t ∈ totals hand <-> exists k : nat, (k <= aces hand)%nat /\ t = hard_sum hand - 10 * Z.of_nat k.
Proof.
  revert t; induction hand as [|v hand IH]; intros t.
  { simpl. rewrite list_elem_of_singleton. unfold aces; simpl. split.
    - intros ->. by exists 0%nat.
    - intros (k & Hk & ->). lia. }
  cbn [totals hard_sum foldr]. rewrite elem_of_app. unfold aces. rewrite filter_cons.
  fold (hard_sum hand). split.
  - intros [H|H].
    + apply list_elem_of_fmap in H as (u & -> & (k & Hk & ->)%IH). exists k.
      split; [|lia]. unfold aces in Hk. case_decide; simpl; lia.
    + destruct (Z.eqb_spec v 11) as [->|]; [|by apply elem_of_nil in H].
      apply list_elem_of_fmap in H as (u & -> & (k & Hk & ->)%IH). exists (S k).
      case_decide; [|done]. unfold aces in Hk. simpl. lia.
  - intros (k & Hk & ->). case_decide as Hv.
    + subst v. simpl in Hk. destruct k as [|k].
      * left. apply list_elem_of_fmap. exists (hard_sum hand). split; [lia|]. apply IH. exists 0%nat. lia.
      * right. apply list_elem_of_fmap. exists (hard_sum hand - 10 * Z.of_nat k). split; [lia|].
        apply IH. exists k. unfold aces. lia.
    + left. apply list_elem_of_fmap. exists (hard_sum hand - 10 * Z.of_nat k). split; [lia|].
      apply IH. exists k. unfold aces. lia.
Qed.

(** A hand counts for the best of its totals: [handValue] is one of the
    totals the aces allow; it is at least every total that does not exceed 21,
    and exceeds 21 itself only when every total does, in which case it is the
    smallest of them. *)
Theorem hand_value_best hand :
  handValue hand ∈ totals hand /\
  (forall t, t ∈ totals hand -> t <= BUST_AT -> t <= handValue hand <= BUST_AT) /\
  (isBust hand = true <-> forall t, t ∈ totals hand -> BUST_AT < t) /\
  (isBust hand = true -> forall t, t ∈ totals hand -> handValue hand <= t).
Proof.
  unfold isBust. rewrite handValue_soften.
  destruct (soften_spec (hard_sum hand) (aces hand)) as (k & Hk & Hs & Hor & Hj).
  assert (soften (hard_sum hand) (aces hand) ∈ totals hand) as Hin by (apply totals_spec; eauto).
  assert (forall t, t ∈ totals hand -> t <= BUST_AT ->
    t <= soften (hard_sum hand) (aces hand) <= BUST_AT) as Hbest.
  { intros t (j & Hja & ->)%totals_spec Ht.
    destruct (decide (j < k)%nat) as [Hlt|]; [specialize (Hj j Hlt); lia|].
    split; [lia|]. destruct Hor as [?| ->]; [done|]. assert (j = aces hand) as -> by lia. lia. }
  split_and!; [done|done| |].
  - rewrite Z.ltb_lt. split; [|auto]. intros Hb t Ht.
    destruct (decide (t <= BUST_AT)) as [Hle|]; [|lia]. specialize (Hbest t Ht Hle). lia.
  - rewrite Z.ltb_lt. intros Hb t (j & Hja & ->)%totals_spec.
    destruct Hor as [?| ->]; [lia|]. lia.
Qed.

(** * The invariant of a table *)

Definition card_ok (v : Z) : Prop := 2 <= v <= 11.

Lemma rankValue_card rank : 1 <= rank <= 13 -> card_ok (rankValue rank).
Proof. unfold rankValue, card_ok. intros. destruct (Z.eqb_spec rank 1), (Z.leb_spec 11 rank); lia. Qed.

Lemma two_cards_not_bust hand : Forall card_ok hand -> length hand = 2%nat -> isBust hand = false.
Proof.
  intros Hc Hl. destruct hand as [|a [|b [|]]]; try done.
  apply Forall_cons in Hc as [Ha Hc]. apply Forall_cons in Hc as [Hb _]. unfold card_ok in *.
  unfold isBust, handValue, BUST_AT. cbn [fold_left].
  destruct (Z.eqb_spec a 11), (Z.eqb_spec b 11); subst; cbn [soften]; unfold BUST_AT;
    repeat case_match; bool_to_prop; apply Z.ltb_ge; lia.
Qed.

(** What the phase says of the hands and of the pending draw. *)
Definition dealt (s : BlackjackState) : Prop :=
  (2 <= length (playerHand s))%nat /\ (2 <= length (dealerHand s))%nat /\ isBust (playerHand s) = false.

Definition draw_ok (s : BlackjackState) (ctx : DrawContext) : Prop :=
  match reason ctx, forHand ctx with
  | Deal, PlayerHand => (length (playerHand s) < 2)%nat /\ dealerHand s = []
  | Deal, DealerHand => length (playerHand s) = 2%nat /\ (length (dealerHand s) < 2)%nat
  | HitCard, PlayerHand => dealt s
  | DealerAuto, DealerHand => dealt s /\ handValue (dealerHand s) < DEALER_STANDS_AT
  | _, _ => False
  end.

Definition opened `{Crypto} (c : option bytes) (r : option BlackjackSlotReveal) : Prop :=
  forall x, r = Some x -> exists h, c = Some h /\ verifyCommitment h (sr_value x) (sr_salt x) = Ok true.

Definition phase_ok `{Crypto} (s : BlackjackState) : Prop :=
  match phase s with
  | RoundOver => draw s = None
  | Player => draw s = None /\ dealt s
  | DrawCommit =>
      (exists ctx, draw s = Some ctx /\ draw_ok s ctx) /\
      (pendingCommitA s = None \/ pendingCommitB s = None) /\
      pendingRevealA s = None /\ pendingRevealB s = None
  | DrawReveal =>
      (exists ctx, draw s = Some ctx /\ draw_ok s ctx) /\
      is_Some (pendingCommitA s) /\ is_Some (pendingCommitB s) /\
      (pendingRevealA s = None \/ pendingRevealB s = None) /\
      opened (pendingCommitA s) (pendingRevealA s) /\ opened (pendingCommitB s) (pendingRevealB s)
  end.

Record table_ok `{Crypto} (t : Z) (s : BlackjackState) : Prop := {
  ok_balA : 0 <= balanceA s;
  ok_balB : 0 <= balanceB s;
  ok_sum : balanceA s + balanceB s = t;
  ok_total : total s = t;
  ok_bet : phase s <> RoundOver -> MIN_BET <= bet s <= Z.min (balanceA s) (balanceB s);
  ok_cards : Forall card_ok (playerHand s ++ dealerHand s);
  ok_phase : phase_ok s
}.

(** The rules: who wins a round that was played to its end. *)
Definition round_winner (player dealer : Party) (ph dh : list Z) : option Party :=
  if isBust ph then Some dealer
  else if isBust dh then Some player
  else if handValue dh <? handValue ph then Some player
  else if handValue ph <? handValue dh then Some dealer
  else None.

(** What winning a bet does to the balances. *)
Definition pays (winner : option Party) (w : Z) (a b a' b' : Z) : Prop :=
  match winner with
  | Some PartyA => a' = a + w /\ b' = b - w
  | Some PartyB => a' = a - w /\ b' = b + w
  | None => a' = a /\ b' = b
  end.

Lemma settle_pays s winner :
  bet s <= Z.min (balanceA s) (balanceB s) ->
  pays winner (bet s) (balanceA s) (balanceB s)
    (balanceA (settle s winner)) (balanceB (settle s winner)).
Proof.
  intros Hb. unfold settle. destruct winner as [[]|]; simpl; [| |done].
  - rewrite (proj2 (Z.leb_le _ _)) by lia. lia.
  - rewrite (proj2 (Z.leb_le _ _)) by lia. lia.
Qed.

Lemma settle_ok `{Crypto} t s winner :
  0 <= balanceA s -> 0 <= balanceB s -> balanceA s + balanceB s = t -> total s = t ->
  MIN_BET <= bet s <= Z.min (balanceA s) (balanceB s) ->
  Forall card_ok (playerHand s ++ dealerHand s) -> table_ok t (settle s winner).
Proof.
  intros HA HB Hs Ht Hb Hc. unfold MIN_BET in Hb.
  pose proof (settle_pays s winner (proj2 Hb)) as Hp. unfold pays in Hp.
  assert (phase (settle s winner) = RoundOver /\ total (settle s winner) = total s /\
    draw (settle s winner) = None /\
    playerHand (settle s winner) = playerHand s /\ dealerHand (settle s winner) = dealerHand s)
    as (Ep & Et & Ed & Eh & Eh') by (unfold settle; by destruct winner as [[]|]).
  destruct winner as [[]|]; destruct Hp as [-> ->] || idtac;
    split; rewrite ?Ep, ?Et, ?Eh, ?Eh'; try lia; try done; try (destruct Hp; lia);
    unfold phase_ok; by rewrite Ep.
Qed.


Section Rules.
Context (playerPartyFor : PlayerPartyFor).
Context `{C : Crypto, !CryptoLaws C} (fuel : nat).

Notation player_of s := (playerPartyFor (round s)).
Notation dealer_of s := (dealerPartyForWith (round s) playerPartyFor).

(** What a move does to the balances. *)
Definition step_rules (s : BlackjackState) (m : BlackjackMove) (by_ : Party) (s' : BlackjackState) : Prop :=
  match phase s' with
  | RoundOver =>
      bet s' = bet s /\ round s' = round s /\
      match m with
      | Forfeit => pays (Some by_) (bet s) (balanceA s) (balanceB s) (balanceA s') (balanceB s')
      | _ =>
          pays (round_winner (player_of s) (dealer_of s) (playerHand s') (dealerHand s'))
            (bet s) (balanceA s) (balanceB s) (balanceA s') (balanceB s') /\
          (2 <= length (playerHand s'))%nat /\ (2 <= length (dealerHand s'))%nat /\
          (isBust (playerHand s') = false -> DEALER_STANDS_AT <= handValue (dealerHand s'))
      end
  | _ => balanceA s' = balanceA s /\ balanceB s' = balanceB s
  end.

(** The part of the invariant that holds whatever the phase is. *)
Definition funds_ok (t : Z) (s : BlackjackState) : Prop :=
  0 <= balanceA s /\ 0 <= balanceB s /\ balanceA s + balanceB s = t /\ total s = t /\
  MIN_BET <= bet s <= Z.min (balanceA s) (balanceB s) /\
  Forall card_ok (playerHand s ++ dealerHand s).

Lemma funds_of_table t s : table_ok t s -> phase s <> RoundOver -> funds_ok t s.
Proof. intros [] Hp. unfold funds_ok. auto 10. Qed.

Lemma table_of_funds t s : funds_ok t s -> phase_ok s -> table_ok t s.
Proof. intros (?&?&?&?&?&?) Hp. by split. Qed.

Lemma beginDraw_ok t s ctx : funds_ok t s -> draw_ok s ctx -> table_ok t (beginDraw s ctx).
Proof.
  intros Hf Hd. apply table_of_funds; [exact Hf|].
  unfold phase_ok, beginDraw; simpl. split_and!; eauto.
Qed.

Lemma resolveShowdown_winner s :
  isBust (playerHand s) = false ->
  resolveShowdown playerPartyFor s =
  settle s (round_winner (player_of s) (dealer_of s) (playerHand s) (dealerHand s)).
Proof. intros Hb. unfold resolveShowdown, round_winner. by rewrite Hb. Qed.

Lemma settle_fields s w :
  phase (settle s w) = RoundOver /\ bet (settle s w) = bet s /\ round (settle s w) = round s /\
  playerHand (settle s w) = playerHand s /\ dealerHand (settle s w) = dealerHand s.
Proof. unfold settle. by destruct w as [[]|]. Qed.

Lemma settle_round_ok t s :
  funds_ok t s -> (2 <= length (playerHand s))%nat -> (2 <= length (dealerHand s))%nat ->
  (isBust (playerHand s) = false -> DEALER_STANDS_AT <= handValue (dealerHand s)) ->
  let s' := settle s (round_winner (player_of s) (dealer_of s) (playerHand s) (dealerHand s)) in
  table_ok t s' /\ forall m by_, m <> Forfeit -> step_rules s m by_ s'.
Proof.
  intros (HA & HB & Hs & Ht & Hb & Hc) Hl1 Hl2 H17. cbv zeta. split; [by apply settle_ok|].
  intros m by_ Hm. set (w := round_winner _ _ _ _). unfold step_rules.
  destruct (settle_fields s w) as (-> & -> & -> & -> & ->).
  pose proof (settle_pays s w (proj2 Hb)). by destruct m.
Qed.

Lemma add_card_funds t s ctx rank :
  funds_ok t s -> 1 <= rank <= 13 -> funds_ok t (add_card s ctx rank).
Proof.
  intros (HA & HB & Hs & Ht & Hb & Hc) Hr. unfold funds_ok; simpl. split_and!; try done; try lia.
  apply rankValue_card in Hr. apply Forall_app in Hc as [Hp Hd].
  destruct (forHand ctx); rewrite !Forall_app; auto.
Qed.

Lemma step_rules_ext s1 s2 m by_ s' :
  step_rules s1 m by_ s' -> bet s1 = bet s2 -> round s1 = round s2 ->
  balanceA s1 = balanceA s2 -> balanceB s1 = balanceB s2 -> step_rules s2 m by_ s'.
Proof. unfold step_rules. by intros H <- <- <- <-. Qed.

Lemma beginDraw_rules s ctx m by_ : step_rules s m by_ (beginDraw s ctx).
Proof. by unfold step_rules. Qed.

(** A move that is not a claim, seen from a state with the same funds. *)
Definition good_next (t : Z) (s s' : BlackjackState) : Prop :=
  table_ok t s' /\ forall m by_, m <> Forfeit -> step_rules s m by_ s'.

Lemma beginDraw_good t s ctx : funds_ok t s -> draw_ok s ctx -> good_next t s (beginDraw s ctx).
Proof. intros Hf Hd. split; [by apply beginDraw_ok|]. intros. apply beginDraw_rules. Qed.

Lemma player_good t s : funds_ok t s -> draw s = None -> dealt s -> good_next t s (with_phase Player s).
Proof.
  intros Hf Hn Hd. split; [|done]. by apply table_of_funds; [|split].
Qed.

Lemma good_next_ext t s1 s2 s' :
  good_next t s1 s' -> bet s1 = bet s2 -> round s1 = round s2 ->
  balanceA s1 = balanceA s2 -> balanceB s1 = balanceB s2 -> good_next t s2 s'.
Proof. intros [Ht Hr] ? ? ? ?. split; [done|]. intros. apply (step_rules_ext s1); auto. Qed.

(** A drawn card: the round goes on or is settled by the rules.  [ph] and [dh]
    are the hands before the draw. *)
Lemma deal_good t base ctx ph dh v s' :
  reason ctx = Deal -> funds_ok t base -> draw base = None ->
  match forHand ctx with
  | PlayerHand => (length ph < 2)%nat /\ dh = [] /\ playerHand base = ph ++ [v] /\ dealerHand base = dh
  | DealerHand => length ph = 2%nat /\ (length dh < 2)%nat /\ playerHand base = ph /\ dealerHand base = dh ++ [v]
  end ->
  (if (length (playerHand base) <? 2)%nat
   then Ok (beginDraw base {| forHand := PlayerHand; reason := Deal |})
   else if (length (dealerHand base) <? 2)%nat
   then Ok (beginDraw base {| forHand := DealerHand; reason := Deal |})
   else Ok (with_phase Player base)) = Ok s' ->
  good_next t base s'.
Proof.
  intros _ Hf Hn Hh H. destruct (forHand ctx).
  - destruct Hh as (Hl & -> & Hp & Hd). pose proof (f_equal length Hp) as Hlp. rewrite length_app in Hlp. simpl in Hlp.
    rewrite Hd in H. change (length [] <? 2)%nat with true in H. cbv iota in H.
    destruct (_ <? 2)%nat eqn:E; bool_to_prop; apply Ok_inj in H; subst s';
      (apply beginDraw_good; [done|]); unfold draw_ok; cbn [reason forHand]; rewrite Hd; [by split|].
    split; [lia|simpl; lia].
  - destruct Hh as (Hl & Hld & Hp & Hd). pose proof (f_equal length Hd) as Hlp. rewrite length_app in Hlp. simpl in Hlp.
    rewrite Hp, Hl in H. change (2 <? 2)%nat with false in H. cbv iota in H.
    destruct (_ <? 2)%nat eqn:E; bool_to_prop; apply Ok_inj in H; subst s'.
    + apply beginDraw_good; [done|]. unfold draw_ok; cbn [reason forHand]. by rewrite Hp.
    + apply player_good; [done..|]. split_and!; [rewrite Hp; lia|lia|].
      destruct Hf as (_&_&_&_&_&Hc). apply Forall_app in Hc as [Hc _].
      apply two_cards_not_bust; [done|by rewrite Hp].
Qed.

Lemma hit_good t base s' :
  funds_ok t base -> draw base = None ->
  (2 <= length (playerHand base))%nat -> (2 <= length (dealerHand base))%nat ->
  (if isBust (playerHand base) then Ok (settle base (Some (dealer_of base)))
   else Ok (with_phase Player base)) = Ok s' ->
  good_next t base s'.
Proof.
  intros Hf Hn Hp Hd H. destruct (isBust (playerHand base)) eqn:Eb; apply Ok_inj in H; subst s'.
  - replace (Some (dealer_of base)) with
      (round_winner (player_of base) (dealer_of base) (playerHand base) (dealerHand base))
      by (unfold round_winner; by rewrite Eb).
    apply settle_round_ok; [done..|congruence].
  - by apply player_good; [..|split_and!].
Qed.

Lemma dealer_good t base s' :
  funds_ok t base -> dealt base ->
  (if handValue (dealerHand base) <? DEALER_STANDS_AT
   then Ok (beginDraw base {| forHand := DealerHand; reason := DealerAuto |})
   else Ok (resolveShowdown playerPartyFor base)) = Ok s' ->
  good_next t base s'.
Proof.
  intros Hf (Hp & Hd & Hb) H.
  destruct (_ <? DEALER_STANDS_AT) eqn:E; bool_to_prop; apply Ok_inj in H; subst s'.
  - apply beginDraw_good; [done|]. by repeat split.
  - rewrite resolveShowdown_winner by done. by apply settle_round_ok.
Qed.

Lemma afterDraw_ok t s ctx rank s' :
  funds_ok t s -> draw s = Some ctx -> draw_ok s ctx -> 1 <= rank <= 13 ->
  afterDraw playerPartyFor s rank = Ok s' -> good_next t s s'.
Proof.
  intros Hf Hd Hok Hr H. unfold afterDraw in H. rewrite Hd in H. cbv zeta in H.
  pose proof (add_card_funds t s ctx rank Hf Hr) as Hf'.
  apply (good_next_ext t (add_card s ctx rank)); [|done..].
  assert (Hplayer : playerHand (add_card s ctx rank) =
    match forHand ctx with PlayerHand => playerHand s ++ [rankValue rank] | DealerHand => playerHand s end) by done.
  assert (Hdealer : dealerHand (add_card s ctx rank) =
    match forHand ctx with DealerHand => dealerHand s ++ [rankValue rank] | PlayerHand => dealerHand s end) by done.
  assert (Hn : draw (add_card s ctx rank) = None) by done.
  set (base := add_card s ctx rank) in *. clearbody base.
  unfold draw_ok, dealt in Hok. destruct (reason ctx) eqn:Er, (forHand ctx) eqn:Ef; try done.
  - apply (deal_good t base ctx (playerHand s) (dealerHand s) (rankValue rank)); [done..| |exact H]. rewrite Ef. tauto.
  - apply (deal_good t base ctx (playerHand s) (dealerHand s) (rankValue rank)); [done..| |exact H]. rewrite Ef. tauto.
  - destruct Hok as (Hl1 & Hl2 & Hnb). apply hit_good; [done|done|..|exact H].
    + rewrite Hplayer, length_app. lia.
    + by rewrite Hdealer.
  - destruct Hok as ((Hl1 & Hl2 & Hnb) & H17). apply dealer_good; [done| |exact H].
    split_and!; rewrite ?Hplayer, ?Hdealer, ?length_app; done || lia.
Qed.

Lemma deriveRank_range a b rank : deriveRank fuel a b = Ok rank -> 1 <= rank <= 13.
Proof.
  unfold deriveRank. intros H. inv_ok. destruct a1 as [v sd]. apply nextU64InRange_range in E0. simpl. lia.
Qed.

Lemma claimForfeit_inv s by_ s' :
  claimForfeit s by_ = Ok s' ->
  s' = settle s (Some by_) /\
  match phase s with
  | DrawCommit => has_slot (pendingCommitA s) (pendingCommitB s) by_ = true /\
                  has_slot (pendingCommitA s) (pendingCommitB s) (otherParty by_) = false
  | DrawReveal => has_slot (pendingRevealA s) (pendingRevealB s) by_ = true /\
                  has_slot (pendingRevealA s) (pendingRevealB s) (otherParty by_) = false
  | _ => False
  end.
Proof.
  unfold claimForfeit. intros H. cbv zeta in H. destruct (phase s); inv_ok; bool_to_prop; auto.
Qed.

Lemma forfeit_good t s by_ :
  funds_ok t s -> table_ok t (settle s (Some by_)) /\ step_rules s Forfeit by_ (settle s (Some by_)).
Proof.
  intros (HA & HB & Hs & Ht & Hb & Hc). split; [by apply settle_ok|].
  unfold step_rules. destruct (settle_fields s (Some by_)) as (-> & -> & -> & _).
  pose proof (settle_pays s (Some by_) (proj2 Hb)). done.
Qed.

Lemma applyCommit_good t s c sec by_ s' :
  table_ok t s -> phase s = DrawCommit -> applyCommit s c sec by_ = Ok s' -> good_next t s s'.
Proof.
  intros Ht Hp H. assert (funds_ok t s) as Hf by (apply funds_of_table; [done|congruence]).
  pose proof (ok_phase _ _ Ht) as Hph. unfold phase_ok in Hph. rewrite Hp in Hph.
  destruct Hph as (Hd & Hc & HrA & HrB). unfold applyCommit in H.
  split.
  - apply table_of_funds.
    + destruct by_; case_match; inv_ok; done.
    + unfold phase_ok, opened. rewrite Hp in H.
      destruct by_; destruct (pendingCommitA s) eqn:EA, (pendingCommitB s) eqn:EB; inv_ok; simpl;
        split_and!; eauto; try (by destruct Hc); rewrite ?HrA, ?HrB; done.
  - intros m b _. unfold step_rules. rewrite Hp in H.
    destruct by_; destruct (pendingCommitA s) eqn:EA, (pendingCommitB s) eqn:EB; inv_ok; done.
Qed.

(** A recorded reveal, and the card of the second one. *)
Definition with_reveal (s : BlackjackState) (reveal : BlackjackSlotReveal) (by_ : Party) : BlackjackState :=
  {| phase := phase s; round := round s; drawCount := drawCount s;
     playerHand := playerHand s; dealerHand := dealerHand s; draw := draw s;
     pendingCommitA := pendingCommitA s; pendingCommitB := pendingCommitB s;
     pendingRevealA := match by_ with PartyA => Some reveal | PartyB => pendingRevealA s end;
     pendingRevealB := match by_ with PartyB => Some reveal | PartyA => pendingRevealB s end;
     localSecretA := localSecretA s; localSecretB := localSecretB s;
     balanceA := balanceA s; balanceB := balanceB s; total := total s; bet := bet s |}.

Lemma applyReveal_inv s reveal by_ s' :
  applyReveal playerPartyFor fuel s reveal by_ = Ok s' ->
  match by_ with PartyA => pendingRevealA s | PartyB => pendingRevealB s end = None /\
  (exists h, match by_ with PartyA => pendingCommitA s | PartyB => pendingCommitB s end = Some h /\
     verifyCommitment h (sr_value reveal) (sr_salt reveal) = Ok true) /\
  match pendingRevealA (with_reveal s reveal by_), pendingRevealB (with_reveal s reveal by_) with
  | Some ra, Some rb => exists rank, deriveRank fuel ra rb = Ok rank /\
      afterDraw playerPartyFor (with_reveal s reveal by_) rank = Ok s'
  | _, _ => s' = with_reveal s reveal by_
  end.
Proof.
  unfold applyReveal. intros H.
  destruct (match by_ with PartyA => pendingRevealA s | PartyB => _ end) eqn:E1; [done|].
  destruct (match by_ with PartyA => pendingCommitA s | PartyB => _ end) as [h|] eqn:E2; [|done].
  inv_ok. destruct a; [|done]. split; [done|]. split; [eauto|].
  fold (with_reveal s reveal by_) in H. cbv zeta in H.
  destruct (pendingRevealA (with_reveal s reveal by_)), (pendingRevealB (with_reveal s reveal by_)); inv_ok; eauto.
Qed.

Lemma applyReveal_good t s reveal by_ s' :
  table_ok t s -> phase s = DrawReveal -> applyReveal playerPartyFor fuel s reveal by_ = Ok s' ->
  good_next t s s'.
Proof.
  intros Ht Hp H. assert (funds_ok t s) as Hf by (apply funds_of_table; [done|congruence]).
  pose proof (ok_phase _ _ Ht) as Hph. unfold phase_ok in Hph. rewrite Hp in Hph.
  destruct Hph as ((ctx & Hd & Hok) & HcA & HcB & Hr & HoA & HoB).
  apply applyReveal_inv in H as (Hnone & Hopen & H).
  set (s1 := with_reveal s reveal by_) in *.
  assert (good : s' = s1 -> (pendingRevealA s1 = None \/ pendingRevealB s1 = None) -> good_next t s s').
  { intros -> Hone. split; [|intros; unfold step_rules; unfold s1, with_reveal; simpl; by rewrite Hp].
    apply table_of_funds; [exact Hf|]. unfold phase_ok.
    change (phase s1) with (phase s). rewrite Hp.
    split_and!; [by exists ctx|done|done|done| |];
      unfold s1; destruct by_; simpl; try done; intros x [= <-]; destruct Hopen as (h & Hh & Hv); eauto. }
  destruct (pendingRevealA s1) as [ra|]; [|auto]. destruct (pendingRevealB s1) as [rb|]; [|auto].
  destruct H as (rank & Hrank & H). apply deriveRank_range in Hrank.
  apply (good_next_ext t s1); [|done..]. by apply (afterDraw_ok t s1 ctx rank).
Qed.

Lemma applyMove_good t s m by_ s' :
  table_ok t s -> applyMove playerPartyFor fuel s m by_ = Ok s' ->
  table_ok t s' /\ step_rules s m by_ s'.
Proof.
  intros Ht H. pose proof (ok_phase _ _ Ht) as Hph. unfold applyMove in H.
  assert (phase s <> RoundOver -> funds_ok t s) as Hf by (by apply funds_of_table).
  destruct (phase s) eqn:Hp.
  - destruct m; try done.
    + eapply applyCommit_good in H as [? ?]; [|done..]. auto.
    + apply claimForfeit_inv in H as [-> _]. by apply forfeit_good, Hf.
  - destruct m; try done.
    + eapply applyReveal_good in H as [? ?]; [|done..]. auto.
    + apply claimForfeit_inv in H as [-> _]. by apply forfeit_good, Hf.
  - unfold phase_ok in Hph. rewrite Hp in Hph. destruct Hph as [Hn Hd]. inv_ok.
    specialize (Hf ltac:(done)). destruct m; try done.
    + inv_ok. destruct (beginDraw_good t s {| forHand := PlayerHand; reason := HitCard |}); [done..|]. auto.
    + assert (good_next t s s') as [? ?]; [|by auto].
      apply dealer_good; [done..|]. rewrite <- H. rewrite Z.leb_antisym. by destruct (_ <? _).
  - destruct m; try done. inv_ok. bool_to_prop. inv_ok. split; [|done].
    destruct Ht. apply beginDraw_ok; [|split; simpl; [lia|done]]. unfold funds_ok, maxBet, MIN_BET in *. simpl.
    split_and!; try done; try lia. destruct (_ <? _) eqn:?; bool_to_prop; lia.
Qed.

#[export] Instance blackjack_laws :
  ProtocolLaws (BlackjackProtocol playerPartyFor fuel) table_ok (fun _ => True).
Proof.
  split.
  - intros ctx s _ (HA & HB & _) H. cbn in H. inv_ok. split; [|by destruct ctx as [? []]].
    split; simpl; try done.
  - intros t s m by_ s' Ht H. exact (proj1 (applyMove_good t s m by_ s' Ht H)).
  - intros t s []. done.
Qed.

(** C24: a blackjack table pays exactly the bet and only when a round ends.
    After any play from an opened tunnel the balances are non-negative and sum
    to the deposits; a move that does not end the round leaves them alone; one
    that ends it moves exactly the bet, which both sides could cover, to the
    winner of the hands (the dealer if the player is bust, else the player if
    the dealer is bust or lower, the dealer if higher, nobody on a tie), the
    dealer having drawn to 17 unless the player is bust; and a claimed forfeit
    moves it to the claimant, who has done its half of the pending draw while
    the opponent has not. *)
Theorem blackjack_pays_the_rules ctx s0 ms s m by_ s' :
  lockable (initialBalances ctx) -> s0 = initialState ctx ->
  run (BlackjackProtocol playerPartyFor fuel) s0 ms = Ok s ->
  applyMove playerPartyFor fuel s m by_ = Ok s' ->
  table_ok (sum_of (initialBalances ctx)) s /\ table_ok (sum_of (initialBalances ctx)) s' /\
  step_rules s m by_ s' /\
  (m = Forfeit ->
   match phase s with
   | DrawCommit => has_slot (pendingCommitA s) (pendingCommitB s) by_ = true /\
                   has_slot (pendingCommitA s) (pendingCommitB s) (otherParty by_) = false
   | DrawReveal => has_slot (pendingRevealA s) (pendingRevealB s) by_ = true /\
                   has_slot (pendingRevealA s) (pendingRevealB s) (otherParty by_) = false
   | _ => False
   end).
Proof.
  intros Hl -> Hrun H.
  assert (table_ok (sum_of (initialBalances ctx)) s) as Ht.
  { by apply (run_from_initial (BlackjackProtocol playerPartyFor fuel) table_ok (fun _ => True) ctx (initialState ctx) ms). }
  pose proof (applyMove_good _ _ _ _ _ Ht H) as [? ?]. split_and!; [done..|].
  intros ->. unfold applyMove in H. destruct (phase s) eqn:Hp; inv_ok; try done;
    apply claimForfeit_inv in H as [_ H]; by rewrite Hp in H.
Qed.

(** * Cards are fixed by the commitments *)

(** Two openings of one commitment that differ exhibit a collision of the hash. *)
Definition collision (r1 r2 : BlackjackSlotReveal) : Prop :=
  exists p1 p2, commitment_preimage (sr_value r1) (sr_salt r1) = Ok p1 /\
    commitment_preimage (sr_value r2) (sr_salt r2) = Ok p2 /\
    p1 <> p2 /\ blake2b256 p1 = blake2b256 p2.

Lemma openings_agree h r1 r2 :
  verifyCommitment h (sr_value r1) (sr_salt r1) = Ok true ->
  verifyCommitment h (sr_value r2) (sr_salt r2) = Ok true -> r1 = r2 \/ collision r1 r2.
Proof.
  intros (p1 & E1 & H1)%verifyCommitment_true (p2 & E2 & H2)%verifyCommitment_true.
  destruct (decide (p1 = p2)) as [->|Hne].
  - left. destruct r1, r2. simpl in *. by destruct (commitment_preimage_inj _ _ _ _ _ E1 E2) as [-> ->].
  - right. exists p1, p2. by rewrite H1, H2.
Qed.

Definition both_reveal (a b : BlackjackSlotReveal) : list (BlackjackMove * Party) :=
  [(Reveal a, PartyA); (Reveal b, PartyB)].

(** Whatever the order of the two reveals, the card is that of [a] and [b], each
    of which opens its party's commitment. *)
Lemma both_reveal_run s a b ms s' :
  phase s = DrawReveal -> pendingRevealA s = None -> pendingRevealB s = None ->
  ms ≡ₚ both_reveal a b -> run (BlackjackProtocol playerPartyFor fuel) s ms = Ok s' ->
  (exists hA, pendingCommitA s = Some hA /\ verifyCommitment hA (sr_value a) (sr_salt a) = Ok true) /\
  (exists hB, pendingCommitB s = Some hB /\ verifyCommitment hB (sr_value b) (sr_salt b) = Ok true) /\
  exists rank, deriveRank fuel a b = Ok rank /\
    afterDraw playerPartyFor (with_reveal (with_reveal s a PartyA) b PartyB) rank = Ok s'.
Proof.
  intros Hp HA HB Hms H. unfold run in H.
  assert (ms = both_reveal a b \/ ms = reverse (both_reveal a b)) as [-> | ->].
  { apply Permutation_length_2_inv. by symmetry. }
  - cbn [both_reveal rfold] in H. inv_ok. unfold Protocol.applyMove, BlackjackProtocol, applyMove in E, E0.
    rewrite Hp in E. apply applyReveal_inv in E as (_ & HoA & E). cbn in E. rewrite HB in E. subst a0.
    cbn [phase with_reveal] in E0. rewrite Hp in E0. apply applyReveal_inv in E0 as (_ & HoB & E0). auto.
  - cbn [both_reveal reverse rev_append rfold] in H. inv_ok. unfold Protocol.applyMove, BlackjackProtocol, applyMove in E, E0.
    rewrite Hp in E. apply applyReveal_inv in E as (_ & HoB & E). cbn in E. rewrite HA in E. subst a0.
    cbn [phase with_reveal] in E0. rewrite Hp in E0. apply applyReveal_inv in E0 as (_ & HoA & E0). auto.
Qed.

(** Once both parties have committed to their shares the card is decided:
    whatever the two parties reveal and in whichever order, the table comes out
    the same, unless one of them shows two preimages of one digest. *)
Theorem blackjack_card_is_committed s a1 b1 a2 b2 ms1 ms2 s1 s2 :
  phase s = DrawReveal -> pendingRevealA s = None -> pendingRevealB s = None ->
  ms1 ≡ₚ both_reveal a1 b1 -> ms2 ≡ₚ both_reveal a2 b2 ->
  run (BlackjackProtocol playerPartyFor fuel) s ms1 = Ok s1 ->
  run (BlackjackProtocol playerPartyFor fuel) s ms2 = Ok s2 ->
  s1 = s2 \/ collision a1 a2 \/ collision b1 b2.
Proof.
  intros Hp HA HB Hm1 Hm2 H1 H2.
  destruct (both_reveal_run s a1 b1 ms1 s1) as ((hA & EA & VA1) & (hB & EB & VB1) & r1 & R1 & D1); [done..|].
  destruct (both_reveal_run s a2 b2 ms2 s2) as ((hA' & EA' & VA2) & (hB' & EB' & VB2) & r2 & R2 & D2); [done..|].
  rewrite EA in EA'. rewrite EB in EB'. simplify_eq.
  destruct (openings_agree hA' a1 a2) as [->|]; [done..| |by auto].
  destruct (openings_agree hB' b1 b2) as [->|]; [done..| |by auto].
  left. congruence.
Qed.

End Rules.

(** * A played round *)

(** The move of the first party that has one. *)
Definition autoMove (s : BlackjackState) (b : nat -> Z) : result (option (BlackjackMove * Party)) :=
  let! ma := randomMove (C := toy_crypto) getPlayerParty s PartyA b in
  match ma with
  | Some m => Ok (Some (m, PartyA))
  | None => let! mb := randomMove (C := toy_crypto) getPlayerParty s PartyB b in
            Ok (option_map (fun m => (m, PartyB)) mb)
  end.

Fixpoint autoplay (n : nat) (s : BlackjackState) : result (list (BlackjackMove * Party)) :=
  match n with
  | O => Ok []
  | S n' =>
      let! om := autoMove s (fun i => Z.of_nat (n * 31 + i * i)) in
      match om with
      | None => Ok []
      | Some (m, p) =>
          let! s' := applyMove (C := toy_crypto) getPlayerParty 8 s m p in
          let! ms := autoplay n' s' in
          Ok ((m, p) :: ms)
      end
  end.

Definition bj_ctx : ProtocolContext :=
  {| ctx_tunnelId := "0xB1"; initialBalances := {| bal_a := 100; bal_b := 50 |} |}.

Definition bj_moves (n : nat) : list (BlackjackMove * Party) :=
  match autoplay n (initialState bj_ctx) with Ok ms => ms | Throw _ => [] end.

Notation toy_table := (BlackjackProtocol (C := toy_crypto) getPlayerParty 8).

Lemma round_facts :
  match run toy_table (initialState bj_ctx) (take 17 (bj_moves 22)) with
  | Ok s =>
      match applyMove (C := toy_crypto) getPlayerParty 8 s Stand PartyA with
      | Ok s' => bool_decide (phase s' = RoundOver) && (bet s =? 1) &&
                 (balanceA s =? 100) && (balanceB s =? 50) &&
                 bool_decide (round_winner PartyA PartyB (playerHand s') (dealerHand s') = Some PartyA) &&
                 (round s =? 1)
      | Throw _ => false
      end
  | Throw _ => false
  end = true.
Proof. vm_compute. reflexivity. Qed.

Lemma blackjack_pays_the_rules_witness :
  exists s s', run toy_table (initialState bj_ctx) (take 17 (bj_moves 22)) = Ok s /\
    applyMove (C := toy_crypto) getPlayerParty 8 s Stand PartyA = Ok s' /\
    phase s' = RoundOver /\ balanceA s' = 101 /\ balanceB s' = 49.
Proof.
  pose proof round_facts as F.
  destruct (run toy_table (initialState bj_ctx) (take 17 (bj_moves 22))) as [s|] eqn:Hrun; [|discriminate F].
  destruct (applyMove getPlayerParty 8 s Stand PartyA) as [s'|] eqn:Hlast; [|discriminate F].
  destruct (blackjack_pays_the_rules getPlayerParty 8 bj_ctx (initialState bj_ctx) (take 17 (bj_moves 22)) s
    Stand PartyA s' ltac:(unfold lockable, sum_of; simpl; rewrite U64_MAX_eq; lia)
    eq_refl Hrun Hlast) as (_ & _ & Hr & _).
  exists s, s'. split; [reflexivity|]. split; [exact Hlast|]. clear Hrun Hlast.
  bool_to_prop. unfold step_rules in Hr.
  match goal with H : phase s' = RoundOver |- _ => rewrite H in Hr |- * end.
  destruct Hr as (_ & _ & Hpay & _).
  repeat match goal with H : round s = 1 |- _ => rewrite H in Hpay; clear H end.
  change (getPlayerParty 1) with PartyA in Hpay.
  change (dealerPartyForWith 1 getPlayerParty) with PartyB in Hpay.
  match goal with H : round_winner _ _ _ _ = _ |- _ => rewrite H in Hpay end.
  cbn [pays] in Hpay. destruct Hpay. split_and!; [reflexivity|lia..].
Defined.

(** The draw of the round's first card: both have committed. *)
Lemma draw_facts :
  match run toy_table (initialState bj_ctx) (take 3 (bj_moves 22)) with
  | Ok s =>
      bool_decide (phase s = DrawReveal) && negb (bool_decide (is_Some (pendingRevealA s))) &&
      negb (bool_decide (is_Some (pendingRevealB s))) &&
      match localSecretA s, localSecretB s with
      | Some a, Some b => is_ok (run toy_table s (both_reveal a b)) &&
                          is_ok (run toy_table s (reverse (both_reveal a b)))
      | _, _ => false
      end
  | Throw _ => false
  end = true.
Proof. vm_compute. reflexivity. Qed.

Lemma blackjack_card_is_committed_witness :
  exists s a b s1 s2, run toy_table s (both_reveal a b) = Ok s1 /\
    run toy_table s (reverse (both_reveal a b)) = Ok s2 /\
    (s1 = s2 \/ collision a a \/ collision b b).
Proof.
  pose proof draw_facts as F.
  destruct (run toy_table (initialState bj_ctx) (take 3 (bj_moves 22))) as [s|] eqn:Hrun; [|discriminate F].
  destruct (localSecretA s) as [a|], (localSecretB s) as [b|];
    try (rewrite andb_false_r in F; discriminate F).
  clear Hrun. bool_to_prop.
  destruct (pendingRevealA s) eqn:EA; [exfalso; eauto|]. destruct (pendingRevealB s) eqn:EB; [exfalso; eauto|].
  repeat match goal with H : is_ok _ = true |- _ => apply is_ok_exists in H as [? ?] end.
  eexists s, a, b, _, _. split; [eassumption|]. split; [eassumption|].
  eapply (blackjack_card_is_committed getPlayerParty 8 s a b a b); [eassumption|exact EA|exact EB| | | eassumption|eassumption].
  - reflexivity.
  - apply Permutation_swap.
Defined.
