(* ===== verification/BattleshipFleet.v ===== *)
(** Fleets and legal boards of battleship:
    [sui-tunnel-ts/src/protocol/battleshipFleet.ts].

    Cells are integers, a board a list of bytes whose non-zero cells are ship
    cells.  A read outside the board is [undefined], which is as falsy as 0.
    Randomness is a stream: [coin k] and [cellOf k] are what the [k]-th try of
    [placeFleetRandom] draws ([rng() < 0.5] and [Math.floor(rng() * 100)]). *)
From stdpp Require Import gmap sorting.
From S2P Require Import Prelude.
From S2P Require Import Bytes.

(** [src protocol/battleshipFleet.ts BOARD_SIZE] *)
Definition BOARD_SIZE : Z := 10.
(** [src protocol/battleshipFleet.ts BATTLESHIP_CELL_COUNT] *)
Definition BATTLESHIP_CELL_COUNT : Z := BOARD_SIZE * BOARD_SIZE.

(** [src protocol/battleshipFleet.ts ShipSpec] *)
Record ShipSpec := { spec_id : string; spec_name : string; ship_size : Z }.

(** [src protocol/battleshipFleet.ts FLEET] *)
Definition FLEET : list ShipSpec :=
  [ {| spec_id := "carrier"; spec_name := "Carrier"; ship_size := 5 |};
    {| spec_id := "battleship"; spec_name := "Battleship"; ship_size := 4 |};
    {| spec_id := "cruiser"; spec_name := "Cruiser"; ship_size := 3 |};
    {| spec_id := "submarine"; spec_name := "Submarine"; ship_size := 3 |};
    {| spec_id := "destroyer"; spec_name := "Destroyer"; ship_size := 2 |} ].

(** [src protocol/battleshipFleet.ts FLEET_CELLS] *)
Definition FLEET_CELLS : Z := fold_left (fun n s => n + ship_size s) FLEET 0.

(** [src protocol/battleshipFleet.ts Orientation] *)
Inductive Orientation := Hor | Ver.

(** [src protocol/battleshipFleet.ts Placement] *)
Record Placement := { p_id : string; p_cell : Z; orient : Orientation }.

(** [src protocol/battleshipFleet.ts rowOf] *)
Definition rowOf (cell : Z) : Z := cell / BOARD_SIZE.
(** [src protocol/battleshipFleet.ts colOf]: [%] truncates. *)
Definition colOf (cell : Z) : Z := Z.rem cell BOARD_SIZE.
(** [src protocol/battleshipFleet.ts cellAt] *)
Definition cellAt (row col : Z) : Z := row * BOARD_SIZE + col.
(** [src protocol/battleshipFleet.ts inBounds] *)
Definition inBounds (row col : Z) : bool :=
  (0 <=? row) && (row <? BOARD_SIZE) && (0 <=? col) && (col <? BOARD_SIZE).

(** [src protocol/battleshipFleet.ts specOf] *)
Definition specOf (id : string) : result ShipSpec :=
  match List.find (fun s => bool_decide (spec_id s = id)) FLEET with
  | Some s => Ok s
  | None => Throw (Error "unknown ship id")
  end.

(** [src protocol/battleshipFleet.ts:73-78 placementCells] the loop, from index [i] *)
Fixpoint run_cells (o : Orientation) (r0 c0 i : Z) (n : nat) : option (list Z) :=
  match n with
  | O => Some []
  | S n' =>
      let r := match o with Ver => r0 + i | Hor => r0 end in
      let c := match o with Hor => c0 + i | Ver => c0 end in
      if negb (inBounds r c) then None
      else cells ← run_cells o r0 c0 (i + 1) n'; Some (cellAt r c :: cells)
  end.

(** [src protocol/battleshipFleet.ts placementCells]: [Ok None] is [null]. *)
Definition placementCells (p : Placement) : result (option (list Z)) :=
  let! spec := specOf (p_id p) in
  Ok (run_cells (orient p) (rowOf (p_cell p)) (colOf (p_cell p)) 0 (Z.to_nat (ship_size spec))).

Definition neighbors (steps : list (Z * Z)) (cell : Z) : list Z :=
  let r := rowOf cell in
  let c := colOf cell in
  fold_left (fun out '(dr, dc) =>
    if inBounds (r + dr) (c + dc) then out ++ [cellAt (r + dr) (c + dc)] else out) steps [].

(** [src protocol/battleshipFleet.ts diagonalNeighbors] *)
Definition diagonalNeighbors (cell : Z) : list Z :=
  neighbors [(-1, -1); (-1, 1); (1, -1); (1, 1)] cell.

(** [src protocol/battleshipFleet.ts orthoNeighbors] *)
Definition orthoNeighbors (cell : Z) : list Z :=
  neighbors [(-1, 0); (1, 0); (0, -1); (0, 1)] cell.

(** [src protocol/battleshipFleet.ts:110-117 fleetIsLegal] the map from cells to
    ships; [None] is the early [return false]. *)
Fixpoint own_cells (id : string) (owner : gmap Z string) (cells : list Z) : option (gmap Z string) :=
  match cells with
  | [] => Some owner
  | cell :: cells' =>
      if bool_decide (is_Some (owner !! cell)) then None
      else own_cells id (<[cell := id]> owner) cells'
  end.

(** [src protocol/battleshipFleet.ts:109-117 fleetIsLegal] *)
Fixpoint own_all (owner : gmap Z string) (ps : list Placement) : result (option (gmap Z string)) :=
  match ps with
  | [] => Ok (Some owner)
  | p :: ps' =>
      let! cells := placementCells p in
      match cells with
      | None => Ok None
      | Some cells =>
          match own_cells (p_id p) owner cells with
          | None => Ok None
          | Some owner' => own_all owner' ps'
          end
      end
  end.

Definition touches_other (owner : gmap Z string) (cell : Z) (id : string) : bool :=
  existsb (fun d => match owner !! d with
                    | Some other => negb (bool_decide (other = id))
                    | None => false
                    end) (diagonalNeighbors cell).

(** [src protocol/battleshipFleet.ts fleetIsLegal] *)
Definition fleetIsLegal (placements : list Placement) : result bool :=
  if negb (length placements =? length FLEET)%nat then Ok false
  else
    let ids := remove_dups (map p_id placements) in
    if negb (length ids =? length FLEET)%nat then Ok false
    else if negb (forallb (fun spec => bool_decide (spec_id spec ∈ ids)) FLEET) then Ok false
    else
      let! owner := own_all ∅ placements in
      match owner with
      | None => Ok false
      | Some owner =>
          Ok (negb (existsb (fun '(cell, id) => touches_other owner cell id) (map_to_list owner)))
      end.

(** Reading and writing a cell of a [Uint8Array]. *)
Definition at_cell (b : bytes) (cell : Z) : Z :=
  if cell <? 0 then 0 else nth (Z.to_nat cell) b 0.
Definition ship_at (b : bytes) (cell : Z) : bool := negb (at_cell b cell =? 0).
Definition mark_cell (b : bytes) (cell : Z) : bytes := <[Z.to_nat cell := 1]> b.

(** [src protocol/battleshipFleet.ts placementsToBoard] *)
Definition placementsToBoard (placements : list Placement) : result bytes :=
  rfold (fun board p =>
    let! cells := placementCells p in
    match cells with
    | None => Throw (Error "placement is out of bounds")
    | Some cells => Ok (fold_left mark_cell cells board)
    end) (u8_new (Z.to_nat BATTLESHIP_CELL_COUNT)) placements.

(** [src protocol/battleshipFleet.ts shipCellCount] *)
Definition shipCellCount (board : bytes) : Z :=
  fold_left (fun n x => if negb (x =? 0) then n + 1 else n) board 0.

(** All the cells, in the order of the [for] loops over them. *)
Definition all_cells : list Z := map Z.of_nat (seq 0 (Z.to_nat BATTLESHIP_CELL_COUNT)).

(** [src protocol/battleshipFleet.ts:192-197 isLegalBoard] the neighbours of a
    popped cell; the top of the stack is its head. *)
Definition visit (board : bytes) (ns : list Z) (seen : bytes) (stack : list Z) : bytes * list Z :=
  fold_left (fun '(seen, stack) n =>
    if ship_at board n && negb (ship_at seen n) then (mark_cell seen n, n :: stack)
    else (seen, stack)) ns (seen, stack).

(** [src protocol/battleshipFleet.ts:189-198 isLegalBoard] the flood fill *)
Fixpoint flood (fuel : nat) (board seen : bytes) (stack comp : list Z) : result (bytes * list Z) :=
  match fuel with
  | O => Throw OutOfFuel
  | S fuel' =>
      match stack with
      | [] => Ok (seen, comp)
      | cur :: stack' =>
          let '(seen', stack'') := visit board (orthoNeighbors cur) seen stack' in
          flood fuel' board seen' stack'' (comp ++ [cur])
      end
  end.

(** Each cell is pushed at most once. *)
Definition flood_fuel : nat := S (Z.to_nat BATTLESHIP_CELL_COUNT).

Definition straight (comp : list Z) : bool :=
  (length (remove_dups (map rowOf comp)) =? 1)%nat || (length (remove_dups (map colOf comp)) =? 1)%nat.

(** [src protocol/battleshipFleet.ts:182-203 isLegalBoard] the sizes of the
    components; [Ok None] is the early [return false]. *)
Fixpoint component_sizes (board : bytes) (starts : list Z) (seen : bytes) (sizes : list Z)
  : result (option (list Z)) :=
  match starts with
  | [] => Ok (Some sizes)
  | start :: starts' =>
      if negb (ship_at board start) || ship_at seen start
      then component_sizes board starts' seen sizes
      else
        let! sc := flood flood_fuel board (mark_cell seen start) [start] [] in
        if negb (straight (snd sc)) then Ok None
        else component_sizes board starts' (fst sc) (sizes ++ [Z.of_nat (length (snd sc))])
  end.

(** [src protocol/battleshipFleet.ts isLegalBoard]: the joined strings of the
    sorted sizes are equal exactly when the lists are. *)
Definition isLegalBoard (board : bytes) : result bool :=
  if negb (Z.of_nat (length board) =? BATTLESHIP_CELL_COUNT) then Ok false
  else if negb (shipCellCount board =? FLEET_CELLS) then Ok false
  else if existsb (fun cell => ship_at board cell && existsb (ship_at board) (diagonalNeighbors cell)) all_cells
  then Ok false
  else
    let! sizes := component_sizes board all_cells (u8_new (Z.to_nat BATTLESHIP_CELL_COUNT)) [] in
    match sizes with
    | None => Ok false
    | Some sizes =>
        let want := merge_sort Z.le (map ship_size FLEET) in
        let got := merge_sort Z.le sizes in
        Ok (bool_decide (want = got))
    end.

(** [src protocol/battleshipFleet.ts:230-240 placeFleetRandom] block the cells of
    a ship and those around them *)
Definition block_around (blocked : bytes) (c : Z) : bytes :=
  let r := rowOf c in
  let col := colOf c in
  fold_left (fun blocked '(dr, dc) =>
      if inBounds (r + dr) (col + dc) then mark_cell blocked (cellAt (r + dr) (col + dc)) else blocked)
    [(-1, -1); (-1, 0); (-1, 1); (0, -1); (0, 0); (0, 1); (1, -1); (1, 0); (1, 1)]
    (mark_cell blocked c).

(** Both loops of [placeFleetRandom] try this often. *)
Definition RETRIES : nat := 200.

Section Random.
Context (coin : nat -> bool) (cellOf : nat -> Z).

(** [src protocol/battleshipFleet.ts:223-243 placeFleetRandom] the tries of one
    ship: the placement and the blocked cells, or [None]; [k] counts the draws. *)
Fixpoint place_ship (tries : nat) (spec : ShipSpec) (blocked : bytes) (k : nat)
  : result (option (Placement * bytes) * nat) :=
  match tries with
  | O => Ok (None, k)
  | S tries' =>
      let p := {| p_id := spec_id spec; p_cell := cellOf k; orient := if coin k then Hor else Ver |} in
      let! cells := placementCells p in
      match cells with
      | None => place_ship tries' spec blocked (S k)
      | Some cells =>
          if existsb (ship_at blocked) cells then place_ship tries' spec blocked (S k)
          else Ok (Some (p, fold_left block_around cells blocked), S k)
      end
  end.

(** [src protocol/battleshipFleet.ts:222-248 placeFleetRandom] one attempt *)
Fixpoint place_all (specs : list ShipSpec) (placements : list Placement) (blocked : bytes) (k : nat)
  : result (option (list Placement) * nat) :=
  match specs with
  | [] => Ok (Some placements, k)
  | spec :: specs' =>
      let! r := place_ship RETRIES spec blocked k in
      match fst r with
      | None => Ok (None, snd r)
      | Some (p, blocked') => place_all specs' (placements ++ [p]) blocked' (snd r)
      end
  end.

Fixpoint place_attempts (attempts : nat) (k : nat) : result (list Placement) :=
  match attempts with
  | O => Throw (Error "could not place fleet (rng exhausted retry budget)")
  | S attempts' =>
      let! r := place_all FLEET [] (u8_new (Z.to_nat BATTLESHIP_CELL_COUNT)) k in
      match fst r with
      | Some placements => Ok placements
      | None => place_attempts attempts' (snd r)
      end
  end.

(** [src protocol/battleshipFleet.ts placeFleetRandom] *)
Definition placeFleetRandom : result (list Placement) := place_attempts RETRIES 0.
End Random.
