(* ===== verification/BattleshipLegal.v ===== *)
(** Which boards [isLegalBoard] accepts: exactly those that carry the standard
    fleet, each ship a straight run and no two ships touching.  The flood fill
    terminates within its fuel and computes the connected components. *)
From stdpp Require Import gmap sorting.
From S2P Require Import Prelude.
From S2P Require Import Bytes.
From S2P Require Import BattleshipFleet.

Definition cell_ok (c : Z) : Prop := 0 <= c < BATTLESHIP_CELL_COUNT.
Definition cell_okb (c : Z) : bool := (0 <=? c) && (c <? BATTLESHIP_CELL_COUNT).

Lemma cell_okb_spec c : cell_okb c = true <-> cell_ok c.
Proof. unfold cell_okb, cell_ok. rewrite andb_true_iff. lia. Qed.

Lemma elem_of_all_cells c : c ∈ all_cells <-> cell_ok c.
Proof.
  unfold all_cells, cell_ok. rewrite list_elem_of_fmap. split.
  - intros (n & -> & Hn). apply elem_of_seq in Hn. change BATTLESHIP_CELL_COUNT with 100 in *. lia.
  - intros Hc. exists (Z.to_nat c). rewrite elem_of_seq. change BATTLESHIP_CELL_COUNT with 100 in *. lia.
Qed.

Lemma length_all_cells : length all_cells = 100%nat.
Proof. done. Qed.

Lemma NoDup_all_cells : NoDup all_cells.
Proof. unfold all_cells. apply NoDup_fmap; [intros ? ? ?; lia|apply NoDup_seq]. Qed.

(** A check that holds of the hundred cells holds of every cell. *)
Lemma all_cells_check (f : Z -> bool) c : forallb f all_cells = true -> cell_ok c -> f c = true.
Proof.
  intros H Hc. rewrite forallb_forall in H. apply H. apply list_elem_of_In. by apply elem_of_all_cells.
Qed.

Definition near_check (ns : Z -> list Z) (f : Z -> Z -> bool) : bool :=
  forallb (fun c => forallb (f c) (ns c)) all_cells.

Lemma near_check_spec ns f c d :
  near_check ns f = true -> cell_ok c -> d ∈ ns c -> f c d = true.
Proof.
  intros H Hc Hd. apply (all_cells_check _ c) in H; [|done].
  rewrite forallb_forall in H. apply H. by apply list_elem_of_In.
Qed.

Lemma ortho_facts c d :
  cell_ok c -> d ∈ orthoNeighbors c ->
  cell_ok d /\ c ∈ orthoNeighbors d /\
  (rowOf c = rowOf d -> d = c - 1 \/ d = c + 1) /\
  (colOf c = colOf d -> d = c - 10 \/ d = c + 10).
Proof.
  intros Hc Hd.
  pose proof (near_check_spec orthoNeighbors (fun c d =>
    cell_okb d && existsb (Z.eqb c) (orthoNeighbors d) &&
    (negb (rowOf c =? rowOf d) || (d =? c - 1) || (d =? c + 1)) &&
    (negb (colOf c =? colOf d) || (d =? c - 10) || (d =? c + 10))) c d ltac:(vm_compute; reflexivity) Hc Hd) as H.
  cbv beta in H. bool_to_prop. rewrite cell_okb_spec in *. split_and!; [done| |intros; lia..].
  match goal with H : existsb _ _ = true |- _ => apply existsb_exists in H as (x & Hx & ->%Z.eqb_eq) end.
  by apply list_elem_of_In.
Qed.

Lemma diag_facts c d :
  cell_ok c -> d ∈ diagonalNeighbors c -> cell_ok d /\ rowOf c <> rowOf d /\ colOf c <> colOf d.
Proof.
  intros Hc Hd.
  pose proof (near_check_spec diagonalNeighbors (fun c d =>
    cell_okb d && negb (rowOf c =? rowOf d) && negb (colOf c =? colOf d)) c d
    ltac:(vm_compute; reflexivity) Hc Hd) as H.
  cbv beta in H. bool_to_prop. rewrite cell_okb_spec in *. done.
Qed.

(** * Reading and writing cells *)

Lemma ship_at_mark b c d :
  cell_ok c -> length b = 100%nat -> ship_at (mark_cell b c) d = bool_decide (d = c) || ship_at b d.
Proof.
  intros Hc Hl. unfold cell_ok, ship_at, at_cell, mark_cell in *. change BATTLESHIP_CELL_COUNT with 100 in Hc.
  destruct (Z.ltb_spec d 0) as [Hd|Hd]; [rewrite bool_decide_eq_false_2 by lia; done|].
  rewrite !nth_lookup. case_bool_decide as E.
  - subst d. rewrite list_lookup_insert_eq by lia. done.
  - rewrite list_lookup_insert_ne by lia. done.
Qed.

Lemma length_mark b c : length (mark_cell b c) = length b.
Proof. apply length_insert. Qed.

Lemma ship_at_out b c : length b = 100%nat -> ship_at b c = true -> cell_ok c.
Proof.
  unfold ship_at, at_cell, cell_ok. change BATTLESHIP_CELL_COUNT with 100. intros Hl.
  destruct (Z.ltb_spec c 0) as [Hd|Hd]; [done|]. rewrite nth_lookup. intros H.
  destruct (b !! Z.to_nat c) eqn:E; [|done]. apply lookup_lt_Some in E. lia.
Qed.

Lemma ship_at_zeros n c : ship_at (u8_new n) c = false.
Proof.
  unfold ship_at, at_cell, u8_new. destruct (c <? 0); [done|]. rewrite nth_lookup.
  destruct (replicate n 0 !! Z.to_nat c) eqn:E; [|done]. by apply lookup_replicate in E as [-> _].
Qed.

(** * The flood fill *)

Section Board.
Context (board : bytes) (Hboard : length board = 100%nat).

Notation ship c := (ship_at board c = true).

Lemma ship_ok c : ship c -> cell_ok c.
Proof. by apply ship_at_out. Qed.

(** One step between ship cells, and what it reaches. *)
Definition step (c d : Z) : Prop := ship c /\ d ∈ orthoNeighbors c /\ ship d.

Lemma step_sym c d : step c d -> step d c.
Proof.
  intros (Hc & Hd & Hs). split_and!; [done| |done]. by apply (ortho_facts c d); [apply ship_ok|].
Qed.

Lemma reach_sym c d : rtc step c d -> rtc step d c.
Proof.
  induction 1 as [|c d e Hs _ IH]; [done|]. eapply rtc_r; [exact IH|]. by apply step_sym.
Qed.

Lemma reach_ship c d : ship c -> rtc step c d -> ship d.
Proof. intros Hc H. induction H as [|? ? ? (?&?&?) _ IH]; auto. Qed.

(** A component: all that a ship cell reaches, listed once. *)
Definition is_component (start : Z) (comp : list Z) : Prop :=
  ship start /\ NoDup comp /\ forall c, c ∈ comp <-> rtc step start c.

(** The cells seen so far are ship cells and closed under steps. *)
Definition closed (seen : bytes) : Prop :=
  length seen = 100%nat /\
  (forall c, ship_at seen c = true -> ship c) /\
  (forall c d, ship_at seen c = true -> step c d -> ship_at seen d = true).

(** The state of the fill: [seen0] was seen before it. *)
Record filling (seen0 : bytes) (start : Z) (seen : bytes) (stack comp : list Z) : Prop := {
  fl_length : length seen = 100%nat;
  fl_nodup : NoDup (comp ++ stack);
  fl_in : forall c, c ∈ comp ++ stack -> ship_at seen0 c = false /\ rtc step start c;
  fl_seen : forall c, ship_at seen c = true <-> ship_at seen0 c = true \/ c ∈ comp ++ stack;
  fl_done : forall c d, c ∈ comp -> step c d -> ship_at seen d = true
}.

(** What [visit] does to the seen cells and the stack. *)
Lemma visit_spec ns seen stack seen' stack' :
  length seen = 100%nat -> Forall cell_ok ns -> visit board ns seen stack = (seen', stack') ->
  exists new, stack' = new ++ stack /\ length seen' = 100%nat /\ NoDup new /\
    (forall c, c ∈ new -> c ∈ ns /\ ship c /\ ship_at seen c = false) /\
    (forall c, ship_at seen' c = true <-> ship_at seen c = true \/ c ∈ new) /\
    (forall c, c ∈ ns -> ship c -> ship_at seen' c = true).
Proof.
  unfold visit. revert seen stack. induction ns as [|n ns IH]; intros seen stack Hl Hns H; cbn [fold_left] in H.
  { simplify_eq. exists []. split_and!; [done|done|apply NoDup_nil_2|set_solver..]. }
  apply Forall_cons in Hns as [Hn Hns].
  destruct (ship_at board n && negb (ship_at seen n)) eqn:E; bool_to_prop.
  - apply IH in H as (new & -> & Hl' & Hnd & Hnew & Hseen & Hcov); [|by rewrite length_mark|done].
    exists (new ++ [n]). rewrite <- app_assoc. setoid_rewrite elem_of_app. setoid_rewrite list_elem_of_singleton.
    assert (Hm : forall c, ship_at (mark_cell seen n) c = bool_decide (c = n) || ship_at seen c)
      by (intros; by apply ship_at_mark).
    split_and!; try done.
    + apply NoDup_app. split_and!; [done| |apply NoDup_singleton].
      intros c Hc ->%list_elem_of_singleton. destruct (Hnew n Hc) as (_ & _ & Hf).
      rewrite Hm, bool_decide_eq_true_2 in Hf by done. done.
    + intros c [Hc| ->]; [|split_and!; [by left|done|done]].
      destruct (Hnew c Hc) as (? & ? & Hf). rewrite Hm in Hf. apply orb_false_iff in Hf as [_ ?].
      split_and!; [by right|done|done].
    + intros c. rewrite Hseen, Hm, orb_true_iff, bool_decide_eq_true. tauto.
    + intros c Hc Hs. apply elem_of_cons in Hc as [-> |Hc]; [|by apply Hcov].
      apply Hseen. left. rewrite Hm, bool_decide_eq_true_2 by done. done.
  - apply IH in H as (new & -> & Hl' & Hnd & Hnew & Hseen & Hcov); [|done|done].
    exists new. split_and!; try done.
    + intros c Hc. destruct (Hnew c Hc) as (? & ? & ?). split_and!; [by right|done|done].
    + intros c Hc Hs. apply elem_of_cons in Hc as [-> |Hc]; [|by apply Hcov].
      apply Hseen. left. destruct E as [E|E]; [congruence|]. by apply negb_false_iff in E.
Qed.

Lemma ortho_cells c : cell_ok c -> Forall cell_ok (orthoNeighbors c).
Proof. intros Hc. apply Forall_forall. intros d Hd. by apply (ortho_facts c d). Qed.

(** Popping one cell keeps the state of the fill. *)
Lemma filling_pop seen0 start seen cur stack comp seen' stack' :
  ship start -> filling seen0 start seen (cur :: stack) comp ->
  (forall c d, ship_at seen0 c = true -> step c d -> ship_at seen0 d = true) ->
  visit board (orthoNeighbors cur) seen stack = (seen', stack') ->
  filling seen0 start seen' stack' (comp ++ [cur]).
Proof.
  intros Hstart [Hl Hnd Hin Hseen Hdone] Hclosed H.
  assert (Hcur : ship_at seen0 cur = false /\ rtc step start cur) by (apply Hin; set_solver).
  destruct Hcur as [Hc0 Hreach]. pose proof (reach_ship _ _ Hstart Hreach) as Hship.
  apply visit_spec in H as (new & -> & Hl' & Hndn & Hnew & Hseen' & Hcov);
    [|done|by apply ortho_cells, ship_ok].
  assert (Hdisj : forall c, c ∈ new -> c ∉ comp ++ cur :: stack).
  { intros c Hc Hc'. destruct (Hnew c Hc) as (_ & _ & Hf).
    rewrite (proj2 (Hseen c)) in Hf by (by right). done. }
  assert (Hperm : (comp ++ [cur]) ++ new ++ stack ≡ₚ new ++ comp ++ cur :: stack) by solve_Permutation.
  split; [done|..].
  - rewrite Hperm. apply NoDup_app. split_and!; [done|exact Hdisj|done].
  - intros c. rewrite Hperm, elem_of_app. intros [Hc|Hc]; [|by apply Hin].
    destruct (Hnew c Hc) as (Ho & Hs & Hf). split.
    + apply not_true_iff_false. intros Ht. rewrite (proj2 (Hseen c)) in Hf by (by left). done.
    + eapply rtc_r; [exact Hreach|]. by repeat split.
  - intros c. rewrite Hseen', Hseen, Hperm, !elem_of_app. tauto.
  - intros c d Hc Hs. apply Hseen'. apply elem_of_app in Hc as [Hc|Hc].
    + left. eapply Hdone; eauto.
    + apply list_elem_of_singleton in Hc as ->. destruct Hs as (_ & Ho & Hd). apply Hseen'. by apply Hcov.
Qed.

(** The fill returns, with the component of its start. *)
Lemma flood_filling fuel seen0 start seen stack comp :
  ship start -> closed seen0 -> filling seen0 start seen stack comp ->
  start ∈ comp ++ stack -> (101 - length comp <= fuel)%nat ->
  exists seen' comp', flood fuel board seen stack comp = Ok (seen', comp') /\
    filling seen0 start seen' [] comp' /\ start ∈ comp'.
Proof.
  intros Hstart Hc0. revert seen stack comp.
  induction fuel as [|fuel IH]; intros seen stack comp Hf Hs Hfuel.
  - exfalso. assert (length comp <= 100)%nat; [|lia].
    rewrite <- length_all_cells. apply NoDup_incl_length.
    + destruct Hf as [_ Hnd _ _ _]. apply NoDup_app in Hnd as (Hnd & _). by apply NoDup_ListNoDup.
    + intros c Hc. apply list_elem_of_In, elem_of_all_cells, ship_ok.
      apply (reach_ship start); [done|]. apply (fl_in _ _ _ _ _ Hf). apply elem_of_app. left. by apply list_elem_of_In.
  - destruct stack as [|cur stack]; cbn [flood].
    { exists seen, comp. rewrite app_nil_r in Hs. done. }
    destruct (visit board (orthoNeighbors cur) seen stack) as [seen' stack'] eqn:E.
    pose proof (filling_pop _ _ _ _ _ _ _ _ Hstart Hf (proj2 (proj2 Hc0)) E) as Hf'.
    apply IH; [done| |rewrite length_app; simpl; lia].
    apply visit_spec in E as (new & -> & _); [|by apply (fl_length _ _ _ _ _ Hf)|].
    + rewrite !elem_of_app in *. set_solver.
    + apply ortho_cells, ship_ok, (reach_ship start); [done|]. apply (fl_in _ _ _ _ _ Hf). set_solver.
Qed.

Lemma flood_component seen0 start :
  ship start -> ship_at seen0 start = false -> closed seen0 ->
  exists seen comp, flood flood_fuel board (mark_cell seen0 start) [start] [] = Ok (seen, comp) /\
    is_component start comp /\ closed seen /\
    (forall c, ship_at seen c = true <-> ship_at seen0 c = true \/ c ∈ comp) /\
    (forall c, c ∈ comp -> ship_at seen0 c = false).
Proof.
  intros Hs Hs0 Hc0. pose proof Hc0 as (Hl0 & Hsub & Hcl).
  destruct (flood_filling flood_fuel seen0 start (mark_cell seen0 start) [start] [])
    as (seen & comp & E & Hf & Hin); [done|done| |set_solver|done|].
  { split; simpl.
    - by rewrite length_mark.
    - apply NoDup_singleton.
    - by intros c ->%list_elem_of_singleton.
    - intros c. rewrite ship_at_mark by (done || by apply ship_ok).
      rewrite orb_true_iff, bool_decide_eq_true, list_elem_of_singleton. tauto.
    - intros c d Hc. by apply elem_of_nil in Hc. }
  exists seen, comp. destruct Hf as [Hl Hnd Hreach Hseen Hdone]. rewrite app_nil_r in *.
  assert (Hall : forall c, rtc step start c -> c ∈ comp).
  { apply (rtc_ind_r (fun c => c ∈ comp)); [done|]. intros y z _ Hyz IH.
    pose proof (Hdone _ _ IH Hyz) as [Hz|Hz]%Hseen; [|done].
    pose proof (Hcl z y Hz (step_sym _ _ Hyz)). destruct (Hreach _ IH). congruence. }
  split_and!; [done| | |done|by apply Hreach].
  - split_and!; [done|done|]. intros c. split; [apply Hreach|apply Hall].
  - split_and!; [done| |].
    + intros c [Hc|Hc]%Hseen; [auto|]. apply (reach_ship start); [done|]. by apply Hreach.
    + intros c d Hc Hcd. apply Hseen in Hc as [Hc|Hc]; [|eauto].
      apply Hseen. left. eauto.
Qed.

(** * The components the scan collects *)

Definition len (cs : list Z) : Z := Z.of_nat (length cs).

(** What a scan over [starts] returns, from the cells [seen] before. *)
Definition scanned (starts : list Z) (seen : bytes) (sizes : list Z) (r : option (list Z)) : Prop :=
  match r with
  | None => exists start comp, is_component start comp /\ straight comp = false
  | Some out => exists comps, out = sizes ++ map len comps /\
      Forall (fun comp => (exists start, is_component start comp) /\ straight comp = true) comps /\
      NoDup (concat comps) /\
      (forall c, c ∈ concat comps -> ship c /\ ship_at seen c = false) /\
      (forall c, c ∈ starts -> ship c -> ship_at seen c = true \/ c ∈ concat comps)
  end.

Lemma component_sizes_spec starts seen sizes :
  closed seen ->
  exists r, component_sizes board starts seen sizes = Ok r /\ scanned starts seen sizes r.
Proof.
  revert seen sizes. induction starts as [|start starts IH]; intros seen sizes Hc; cbn [component_sizes].
  { eexists. split; [done|]. exists []. rewrite app_nil_r. split_and!; try done; [apply NoDup_nil_2|set_solver..]. }
  destruct (negb (ship_at board start) || ship_at seen start) eqn:E;
    [apply orb_true_iff in E|apply orb_false_iff in E].
  { destruct (IH seen sizes Hc) as (r & Hr & Hs). exists r. split; [done|].
    destruct r as [out|]; [|done]. destruct Hs as (comps & ? & ? & ? & ? & Hcov).
    exists comps. split_and!; try done. intros c [-> |Hin]%elem_of_cons Hsh; [|by apply Hcov].
    destruct E as [E|E]; [apply negb_true_iff in E; congruence|by left]. }
  destruct E as [Hship Hns]. apply negb_false_iff in Hship.
  destruct (flood_component seen start) as (seen' & comp & -> & Hcomp & Hc' & Hseen' & Hfresh); [done..|].
  cbn [rbind fst snd]. destruct (straight comp) eqn:Est; cbn [negb].
  - destruct (IH seen' (sizes ++ [len comp]) Hc') as (r & Hr & Hs). exists r. split; [exact Hr|].
    destruct r as [out|]; [|done]. destruct Hs as (comps & -> & Hall & Hnd & Hin & Hcov).
    exists (comp :: comps). cbn [map concat]. rewrite <- app_assoc. split_and!; [done| | | |].
    + constructor; [|done]. eauto.
    + apply NoDup_app. split_and!; [apply Hcomp| |done]. intros c Hc1 Hc2.
      destruct (Hin c Hc2) as [_ Hf]. rewrite (proj2 (Hseen' c)) in Hf by auto. done.
    + intros c [Hc1|Hc1]%elem_of_app.
      * split; [|auto]. apply (reach_ship start); [done|]. by apply Hcomp.
      * destruct (Hin c Hc1) as [? Hf]. split; [done|]. apply not_true_iff_false. intros Ht.
        rewrite (proj2 (Hseen' c)) in Hf by auto. done.
    + intros c Hc1 Hsh. rewrite elem_of_app. apply elem_of_cons in Hc1 as [-> |Hc1].
      * right. left. apply Hcomp. done.
      * destruct (Hcov c Hc1 Hsh) as [Hs|]; [|by auto]. apply Hseen' in Hs. tauto.
  - eexists. split; [done|]. exists start, comp. done.
Qed.

Lemma scan_all :
  exists r, component_sizes board all_cells (u8_new (Z.to_nat BATTLESHIP_CELL_COUNT)) [] = Ok r /\
    scanned all_cells (u8_new (Z.to_nat BATTLESHIP_CELL_COUNT)) [] r.
Proof.
  apply component_sizes_spec. split_and!; [done|..]; intros c; by rewrite ship_at_zeros.
Qed.

End Board.

(** * Lists of cells *)

Lemma elem_of_concat {A} (x : A) (ls : list (list A)) : x ∈ concat ls <-> exists l, l ∈ ls /\ x ∈ l.
Proof. setoid_rewrite list_elem_of_In. apply in_concat. Qed.

Lemma concat_Permutation {A} (ls ls' : list (list A)) : ls ≡ₚ ls' -> concat ls ≡ₚ concat ls'.
Proof. induction 1; simpl; [done|by f_equiv|solve_Permutation|by etrans]. Qed.

Lemma concat_Forall2_Permutation {A} (ls ls' : list (list A)) :
  Forall2 Permutation ls ls' -> concat ls ≡ₚ concat ls'.
Proof. induction 1; simpl; [done|by f_equiv]. Qed.

Lemma Forall_choose {A B} (R : A -> B -> Prop) l :
  Forall (fun x => exists y, R x y) l -> exists l', Forall2 R l l'.
Proof.
  induction 1 as [|x l (y & Hy) _ (l' & Hl)]; [by exists []|]. exists (y :: l'). by constructor.
Qed.

Lemma same_list {A} (ls : list (list A)) l l' x :
  NoDup (concat ls) -> l ∈ ls -> l' ∈ ls -> x ∈ l -> x ∈ l' -> l = l'.
Proof.
  induction ls as [|k ls IH]; [set_solver|]. cbn [concat].
  intros (_ & Hd & Hnd)%NoDup_app Hl Hl' Hx Hx'.
  assert (Hc : forall m, m ∈ ls -> x ∈ m -> x ∈ concat ls) by (intros m; rewrite elem_of_concat; eauto).
  apply elem_of_cons in Hl as [-> |Hl], Hl' as [-> |Hl']; [done| | |by apply IH].
  - destruct (Hd x Hx). eauto.
  - destruct (Hd x Hx'). eauto.
Qed.

Lemma remove_dups_single {A} `{EqDecision A} (l : list A) :
  length (remove_dups l) = 1%nat <-> l <> [] /\ forall x y, x ∈ l -> y ∈ l -> x = y.
Proof.
  split.
  - intros H. destruct (remove_dups l) as [|z [|]] eqn:E; try done.
    assert (Hz : forall x, x ∈ l -> x = z).
    { intros x Hx. apply elem_of_remove_dups in Hx. rewrite E in Hx. by apply list_elem_of_singleton in Hx. }
    split; [intros ->; done|]. intros x y Hx Hy. rewrite (Hz x), (Hz y); done.
  - intros [Hne Hall]. pose proof (NoDup_remove_dups l) as Hnd. setoid_rewrite <- elem_of_remove_dups in Hall.
    destruct l as [|a l]; [done|]. assert (a ∈ remove_dups (a :: l)) as Ha by (apply elem_of_remove_dups; left).
    destruct (remove_dups (a :: l)) as [|x [|y l']]; [set_solver|done|].
    apply NoDup_cons in Hnd as [Hx _]. destruct Hx. rewrite (Hall x y); set_solver.
Qed.

Lemma straight_spec comp :
  straight comp = true <-> comp <> [] /\
    ((forall c d, c ∈ comp -> d ∈ comp -> rowOf c = rowOf d) \/
     (forall c d, c ∈ comp -> d ∈ comp -> colOf c = colOf d)).
Proof.
  unfold straight. rewrite orb_true_iff, !Nat.eqb_eq, !remove_dups_single.
  assert (Hm : forall f : Z -> Z, (map f comp <> [] /\ (forall x y, x ∈ map f comp -> y ∈ map f comp -> x = y)) <->
    comp <> [] /\ forall c d, c ∈ comp -> d ∈ comp -> f c = f d).
  { intros f. split; intros [Hne H]; (split; [by destruct comp|]).
    - intros c d Hc Hd. apply H; apply list_elem_of_fmap; eauto.
    - intros x y (c & -> & Hc)%list_elem_of_fmap (d & -> & Hd)%list_elem_of_fmap. auto. }
  rewrite !Hm. tauto.
Qed.

Lemma list_least (l : list Z) : l <> [] -> exists m, m ∈ l /\ forall c, c ∈ l -> m <= c.
Proof.
  induction l as [|a l IH]; [done|]. intros _. destruct l as [|b l].
  - exists a. split; [left|]. intros c ->%list_elem_of_singleton. lia.
  - destruct IH as (m & Hm & Hle); [done|]. destruct (Z_le_gt_dec a m).
    + exists a. split; [left|]. intros c [-> |Hc]%elem_of_cons; [lia|]. specialize (Hle c Hc). lia.
    + exists m. split; [by right|]. intros c [-> |Hc]%elem_of_cons; [lia|]. auto.
Qed.

Lemma list_greatest (l : list Z) : l <> [] -> exists m, m ∈ l /\ forall c, c ∈ l -> c <= m.
Proof.
  intros Hne. destruct (list_least (map Z.opp l)) as (m & (x & -> & Hx)%list_elem_of_fmap & Hle); [by destruct l|].
  exists x. split; [done|]. intros c Hc. specialize (Hle (- c)). rewrite list_elem_of_fmap in Hle.
  assert (- x <= - c) by (apply Hle; eauto). lia.
Qed.

(** A gapless set of cells at distance [k] is the progression of its length. *)
Definition progression (m k : Z) (n : nat) : list Z := map (fun j => m + k * Z.of_nat j) (seq 0 n).

Lemma elem_of_progression c m k n : c ∈ progression m k n <-> exists j : nat, (j < n)%nat /\ c = m + k * Z.of_nat j.
Proof.
  unfold progression. rewrite list_elem_of_fmap. setoid_rewrite elem_of_seq. split.
  - intros (j & -> & ?). exists j. split; [lia|done].
  - intros (j & ? & ->). exists j. split; [done|lia].
Qed.

Lemma NoDup_progression m k n : 0 < k -> NoDup (progression m k n).
Proof. intros Hk. apply NoDup_fmap_2; [|apply NoDup_seq]. intros i j H. nia. Qed.

Lemma gapless_progression comp m k :
  0 < k -> NoDup comp -> m ∈ comp ->
  (forall c, c ∈ comp -> exists j : nat, c = m + k * Z.of_nat j) ->
  (forall c (j : nat), c ∈ comp -> m + k * Z.of_nat j <= c -> m + k * Z.of_nat j ∈ comp) ->
  comp ≡ₚ progression m k (length comp).
Proof.
  intros Hk Hnd Hm Hform Hgap.
  destruct (list_greatest comp) as (M & HM & Hmax); [by intros ->; apply elem_of_nil in Hm|].
  destruct (Hform M HM) as (jM & EM).
  assert (comp ≡ₚ progression m k (S jM)) as Hp.
  { apply NoDup_Permutation; [done|by apply NoDup_progression|]. intros c. rewrite elem_of_progression. split.
    - intros Hc. destruct (Hform c Hc) as (j & ->). specialize (Hmax _ Hc). exists j. split; [nia|done].
    - intros (j & Hj & ->). apply (Hgap M); [done|]. nia. }
  pose proof (Permutation_length Hp) as Hl. unfold progression in Hl. rewrite length_map, length_seq in Hl.
  rewrite Hl. exact Hp.
Qed.

(** * Ships *)

Definition stride (o : Orientation) : Z := match o with Hor => 1 | Ver => BOARD_SIZE end.
Definition line_of (o : Orientation) : Z -> Z := match o with Hor => rowOf | Ver => colOf end.

(** The cells of a ship of [n] cells placed on the board. *)
Definition is_run (n : nat) (cs : list Z) : Prop :=
  exists o cell, cell_ok cell /\ run_cells o (rowOf cell) (colOf cell) 0 n = Some cs.

Definition fleet_sizes : list nat := map (fun s => Z.to_nat (ship_size s)) FLEET.

(** All ships, checked: a placed run is a progression on one line with adjacent
    neighbours, and every progression on one line is placed. *)
Definition run_check (o : Orientation) (n : nat) (cell : Z) : bool :=
  let cs := progression cell (stride o) n in
  bool_decide (run_cells o (rowOf cell) (colOf cell) 0 n =
    if forallb (fun c => cell_okb c && (line_of o c =? line_of o cell)) cs then Some cs else None) &&
  (negb (forallb (fun c => cell_okb c && (line_of o c =? line_of o cell)) cs) ||
   forallb (fun j => existsb (Z.eqb (cell + stride o * Z.of_nat (S j)))
                       (orthoNeighbors (cell + stride o * Z.of_nat j))) (seq 0 (n - 1))).

Lemma run_check_all o n cell : n ∈ fleet_sizes -> cell_ok cell -> run_check o n cell = true.
Proof.
  intros Hn. apply (all_cells_check (run_check o n)).
  assert (forallb (fun n => forallb (run_check o n) all_cells) fleet_sizes = true) as H
    by (destruct o; vm_compute; reflexivity).
  rewrite forallb_forall in H. apply H. by apply list_elem_of_In.
Qed.

Lemma run_facts o n cell cs :
  n ∈ fleet_sizes -> cell_ok cell -> run_cells o (rowOf cell) (colOf cell) 0 n = Some cs ->
  cs = progression cell (stride o) n /\
  (forall c, c ∈ cs -> cell_ok c /\ line_of o c = line_of o cell) /\
  (forall j, (S j < n)%nat ->
     cell + stride o * Z.of_nat (S j) ∈ orthoNeighbors (cell + stride o * Z.of_nat j)).
Proof.
  intros Hn Hc H. pose proof (run_check_all o n cell Hn Hc) as F. unfold run_check in F. cbv zeta in F.
  apply andb_true_iff in F as [F1 F2]. apply bool_decide_eq_true in F1. rewrite H in F1.
  destruct (forallb _ (progression cell (stride o) n)) eqn:E; [|done]. simplify_eq. cbn [negb orb] in F2.
  rewrite forallb_forall in E, F2. split_and!; [done| |].
  - intros c Hcs. apply list_elem_of_In, E in Hcs. bool_to_prop. by rewrite cell_okb_spec in *.
  - intros j Hj. specialize (F2 j). apply existsb_exists in F2 as (x & Hx & ->%Z.eqb_eq).
    + by apply list_elem_of_In.
    + apply in_seq. lia.
Qed.

Lemma run_intro o n cell :
  n ∈ fleet_sizes -> cell_ok cell ->
  (forall c, c ∈ progression cell (stride o) n -> cell_ok c /\ line_of o c = line_of o cell) ->
  is_run n (progression cell (stride o) n).
Proof.
  intros Hn Hc Hall. exists o, cell. split; [done|].
  pose proof (run_check_all o n cell Hn Hc) as F. unfold run_check in F. cbv zeta in F.
  apply andb_true_iff in F as [F1 _]. apply bool_decide_eq_true in F1. rewrite F1.
  rewrite (proj2 (forallb_forall _ _)); [done|]. intros c Hcs%list_elem_of_In%Hall.
  rewrite andb_true_iff, cell_okb_spec, Z.eqb_eq. done.
Qed.

(** No two of these lists overlap, and cells that touch are in the same one. *)
Definition apart (css : list (list Z)) : Prop :=
  NoDup (concat css) /\
  forall c d, c ∈ concat css -> d ∈ concat css ->
    d ∈ orthoNeighbors c \/ d ∈ diagonalNeighbors c -> exists cs, cs ∈ css /\ c ∈ cs /\ d ∈ cs.

(** The standard fleet lies on [board]: five runs of the ships' sizes, apart, whose
    cells are the ship cells. *)
Definition fleet_board (board : bytes) : Prop :=
  length board = 100%nat /\
  exists css, Forall2 is_run fleet_sizes css /\ apart css /\
    forall c, ship_at board c = true <-> c ∈ concat css.

Lemma fleet_size_range n : n ∈ fleet_sizes -> (2 <= n <= 5)%nat.
Proof. unfold fleet_sizes; simpl. set_solver by lia. Qed.

Lemma run_props n cs :
  n ∈ fleet_sizes -> is_run n cs ->
  length cs = n /\ NoDup cs /\ straight cs = true /\ (forall c, c ∈ cs -> cell_ok c) /\
  (forall c d, c ∈ cs -> d ∈ cs -> d ∉ diagonalNeighbors c).
Proof.
  intros Hn (o & cell & Hc & H). apply (run_facts o n cell) in H as (-> & Hall & _); [|done..].
  pose proof (fleet_size_range n Hn).
  assert (Hk : 0 < stride o) by (by destruct o).
  assert (Hline : forall c d, c ∈ progression cell (stride o) n -> d ∈ progression cell (stride o) n ->
    line_of o c = line_of o d) by (intros c d [_ ->]%Hall [_ ->]%Hall; done).
  split_and!.
  - unfold progression. by rewrite length_map, length_seq.
  - by apply NoDup_progression.
  - apply straight_spec. split.
    + intros E. assert (cell ∈ progression cell (stride o) n) as Hin; [|rewrite E in Hin; by apply elem_of_nil in Hin].
      apply elem_of_progression. exists 0%nat. split; lia.
    + destruct o; [left|right]; exact Hline.
  - intros c Hcs. by apply Hall.
  - intros c d Hcs Hds Hd. specialize (Hline c d Hcs Hds).
    apply (diag_facts c d) in Hd as (_ & Hr & Hcol); [|by apply Hall]. by destruct o.
Qed.

Section Legal.
Context (board : bytes) (Hboard : length board = 100%nat).
Notation ship c := (ship_at board c = true).

(** The three tests of [isLegalBoard] after the length. *)
Definition diagonal_contact : bool :=
  existsb (fun cell => ship_at board cell && existsb (ship_at board) (diagonalNeighbors cell)) all_cells.

Lemma diagonal_contact_false :
  diagonal_contact = false <-> forall c d, ship c -> ship d -> d ∉ diagonalNeighbors c.
Proof.
  unfold diagonal_contact. split.
  - intros H c d Hc Hd Hdc. apply not_true_iff_false in H. apply H. apply existsb_exists. exists c. split.
    + by apply list_elem_of_In, elem_of_all_cells, (ship_at_out board).
    + rewrite Hc. apply existsb_exists. exists d. by rewrite <- list_elem_of_In.
  - intros H. apply not_true_iff_false. intros (c & _ & Hc)%existsb_exists. bool_to_prop.
    match goal with Hx : existsb _ _ = true |- _ => apply existsb_exists in Hx as (d & Hd & Hs) end.
    by apply (H c d); [..|apply list_elem_of_In].
Qed.

Lemma shipCellCount_filter : shipCellCount board = Z.of_nat (length (filter (fun c => ship c) all_cells)).
Proof.
  assert (Hgen : forall (b : bytes) n, fold_left (fun n x => if negb (x =? 0) then n + 1 else n) b n =
    n + Z.of_nat (length (filter (fun x => x <> 0) b))).
  { induction b as [|x b IH]; intros n; [simpl; lia|]. cbn [fold_left]. rewrite IH, filter_cons.
    destruct (Z.eqb_spec x 0); case_decide; cbn [negb]; try done; simpl length; lia. }
  unfold shipCellCount. rewrite Hgen. rewrite Z.add_0_l. f_equal.
  assert (board = map (at_cell board) all_cells) as E.
  { apply (list_eq_same_length _ _ 100); [by rewrite length_map|done|].
    intros i x y Hi Hx Hy. unfold all_cells in Hy. rewrite !list_lookup_fmap, lookup_seq_lt in Hy by (change (Z.to_nat BATTLESHIP_CELL_COUNT) with 100%nat; lia).
    simpl in Hy. simplify_eq. unfold at_cell. rewrite (proj2 (Z.ltb_ge _ _)) by lia.
    by rewrite Nat2Z.id, nth_lookup, Hx. }
  rewrite E at 1. generalize all_cells as l. induction l as [|c l IH]; [done|].
  assert (Hs : ship c <-> at_cell board c <> 0) by (unfold ship_at; rewrite negb_true_iff, Z.eqb_neq; done).
  cbn [map]. rewrite !filter_cons. do 2 case_decide; try (exfalso; tauto); [|exact IH].
  cbn [length]. by rewrite IH.
Qed.

(** The ship cells, once each, are counted. *)
Lemma shipCellCount_concat css :
  NoDup (concat css) -> (forall c, ship c <-> c ∈ concat css) ->
  shipCellCount board = Z.of_nat (length (concat css)).
Proof.
  intros Hnd Hcov. rewrite shipCellCount_filter. f_equal. apply Permutation_length, NoDup_Permutation.
  - apply NoDup_filter, NoDup_all_cells.
  - done.
  - intros c. rewrite list_elem_of_filter, elem_of_all_cells, <- Hcov. split; [tauto|].
    intros Hc. split; [done|]. by apply (ship_at_out board).
Qed.

Lemma isLegalBoard_unfold :
  exists r, scanned board all_cells (u8_new (Z.to_nat BATTLESHIP_CELL_COUNT)) [] r /\
    isLegalBoard board = Ok (
      match r with
      | None => false
      | Some sizes => (shipCellCount board =? FLEET_CELLS) && negb diagonal_contact &&
                      bool_decide (merge_sort Z.le (map ship_size FLEET) = merge_sort Z.le sizes)
      end).
Proof.
  destruct (scan_all board Hboard) as (r & E & Hs). exists r. split; [done|].
  unfold isLegalBoard. rewrite Hboard. change (negb (Z.of_nat 100 =? BATTLESHIP_CELL_COUNT)) with false. cbv iota.
  fold diagonal_contact. rewrite E. cbn [rbind].
  destruct (shipCellCount board =? FLEET_CELLS), diagonal_contact, r; done.
Qed.

Lemma sorted_equal (l1 l2 : list Z) : merge_sort Z.le l1 = merge_sort Z.le l2 <-> l1 ≡ₚ l2.
Proof.
  split.
  - intros H. by rewrite <- (merge_sort_Permutation Z.le l1), H, merge_sort_Permutation.
  - intros H. apply (StronglySorted_unique Z.le); [apply StronglySorted_merge_sort; apply _..|].
    by rewrite !merge_sort_Permutation.
Qed.

(** * A board that carries the fleet is accepted *)

Section Carries.
Context (css : list (list Z)) (Hruns : Forall2 is_run fleet_sizes css) (Hapart : apart css)
  (Hcov : forall c, ship c <-> c ∈ concat css).

Lemma carried_run cs : cs ∈ css -> exists n, n ∈ fleet_sizes /\ is_run n cs.
Proof.
  intros Hcs. apply list_elem_of_lookup in Hcs as [i Hi].
  destruct (Forall2_lookup_r _ _ _ _ _ Hruns Hi) as (n & Hn & Hr).
  exists n. split; [|done]. by eapply list_elem_of_lookup_2.
Qed.

Lemma carried_reach cs c d : cs ∈ css -> c ∈ cs -> d ∈ cs -> rtc (step board) c d.
Proof.
  intros Hcs Hc Hd. destruct (carried_run cs Hcs) as (n & Hn & o & cell & Hok & Hrun).
  assert (Hship : forall x, x ∈ cs -> ship x) by (intros x Hx; apply Hcov, elem_of_concat; eauto).
  apply run_facts in Hrun as (-> & _ & Hchain); [|done..].
  assert (Hfrom : forall j : nat, (j < n)%nat -> rtc (step board) cell (cell + stride o * Z.of_nat j)).
  { induction j as [|j IH]; intros Hj; [replace (cell + stride o * Z.of_nat 0) with cell by lia; done|].
    eapply rtc_r; [apply IH; lia|]. split_and!; [|by apply Hchain|];
      apply Hship, elem_of_progression; eexists; (split; [|done]); lia. }
  apply elem_of_progression in Hc as (i & Hi & ->), Hd as (j & Hj & ->).
  transitivity cell; [|by apply Hfrom]. apply reach_sym; [done|]. by apply Hfrom.
Qed.

Lemma carried_component start comp :
  is_component board start comp -> exists cs, cs ∈ css /\ comp ≡ₚ cs.
Proof.
  intros (Hs & Hnd & Hreach). pose proof Hs as Hin. apply Hcov, elem_of_concat in Hin as (cs & Hcs & Hin).
  exists cs. split; [done|]. apply NoDup_Permutation; [done| |].
  - destruct (carried_run cs Hcs) as (n & Hn & Hr). by apply run_props in Hr as (_ & ? & _).
  - intros c. rewrite Hreach. split; [|by apply carried_reach].
    revert c. apply (rtc_ind_r (fun c => c ∈ cs)); [done|]. intros y z _ (Hy & Ho & Hz) IH.
    destruct (proj2 Hapart y z) as (cs' & Hcs' & Hy' & Hz'); [by apply Hcov..|by left|].
    by rewrite (same_list css cs cs' y) by (try apply Hapart; done).
Qed.

(** The components, one for one, are the ships. *)
Lemma components_match (comps kss : list (list Z)) :
  NoDup (concat comps) -> NoDup (concat kss) ->
  Forall (fun comp => comp <> [] /\ exists cs, cs ∈ kss /\ comp ≡ₚ cs) comps ->
  Forall (fun cs => cs <> []) kss ->
  (forall c, c ∈ concat kss -> c ∈ concat comps) ->
  exists kss', kss' ≡ₚ kss /\ Forall2 Permutation comps kss'.
Proof.
  revert kss. induction comps as [|comp comps IH]; intros kss Hnd Hndk Hall Hne Hc.
  { exists []. split; [|done]. destruct kss as [|[|x cs] kss]; [done| |].
    - apply Forall_cons in Hne as [? _]. done.
    - specialize (Hc x). rewrite !elem_of_concat in Hc. destruct Hc as (l & Hl & _); [|by apply elem_of_nil in Hl].
      exists (x :: cs). split; left. }
  apply Forall_cons in Hall as [(Hcne & cs & Hcs & Hp) Hall].
  apply elem_of_Permutation in Hcs as (rest & Hk).
  pose proof (concat_Permutation _ _ Hk) as Hkc. cbn [concat] in Hnd, Hkc.
  rewrite Hkc in Hndk. apply NoDup_app in Hnd as (Hndc & Hd1 & Hnd), Hndk as (Hndcs & Hd2 & Hndr).
  destruct (IH rest) as (kss' & Hk' & Hf); [done|done| | | |].
  - rewrite Forall_forall in Hall |- *. intros l Hl. destruct (Hall l Hl) as (Hlne & cs' & Hcs' & Hp').
    split; [done|]. exists cs'. split; [|done]. rewrite Hk in Hcs'. apply elem_of_cons in Hcs' as [-> |?]; [|done].
    exfalso. destruct l as [|x l]; [done|]. apply (Hd1 x).
    + rewrite Hp, <- Hp'. left.
    + apply elem_of_concat. exists (x :: l). split; [done|left].
  - rewrite Hk in Hne. by apply Forall_cons in Hne as [_ ?].
  - intros c Hcr. assert (c ∈ concat (comp :: comps)) as Hin by (apply Hc; rewrite Hkc; apply elem_of_app; auto).
    cbn [concat] in Hin. apply elem_of_app in Hin as [Hin|]; [|done]. rewrite Hp in Hin. by destruct (Hd2 c).
  - exists (cs :: kss'). split; [by rewrite Hk, Hk'|]. by constructor.
Qed.

End Carries.
End Legal.

Lemma run_lens ns kss :
  Forall (fun n => n ∈ fleet_sizes) ns -> Forall2 is_run ns kss -> map len kss = map Z.of_nat ns.
Proof.
  intros Hns H. induction H as [|n cs ns kss Hr _ IH]; [done|]. apply Forall_cons in Hns as [Hn Hns].
  cbn [map]. rewrite IH by done. f_equal. apply run_props in Hr as (Hl & _); [|done]. unfold len. by rewrite Hl.
Qed.

Lemma Permutation_lens (kss kss' : list (list Z)) : Forall2 Permutation kss kss' -> map len kss = map len kss'.
Proof. induction 1 as [|? ? ? ? Hp _ IH]; [done|]. cbn [map]. rewrite IH. unfold len. by rewrite Hp. Qed.

Lemma sum_lens kss : Z.of_nat (length (concat kss)) = foldr Z.add 0 (map len kss).
Proof. induction kss as [|k kss IH]; [done|]. cbn [concat map foldr]. rewrite length_app. unfold len at 1. lia. Qed.

Lemma sizes_perm ns kss :
  ns ≡ₚ kss -> foldr Z.add 0 ns = foldr Z.add 0 kss.
Proof. induction 1; simpl; lia. Qed.

Lemma fleet_accepted board : fleet_board board -> isLegalBoard board = Ok true.
Proof.
  intros (Hl & css & Hruns & Hapart & Hcov).
  destruct (isLegalBoard_unfold board Hl) as (r & Hs & ->). f_equal.
  assert (Hlens : map len css = map ship_size FLEET).
  { rewrite (run_lens fleet_sizes css); [done| |done]. apply Forall_forall. done. }
  assert (Hstraight : forall start comp, is_component board start comp -> straight comp = true).
  { intros start comp Hc. destruct (carried_component board Hl css Hruns Hapart Hcov start comp Hc) as (cs & Hcs & Hp).
    destruct (carried_run css Hruns cs Hcs) as (n & Hn & Hr). apply run_props in Hr as (_ & _ & Hst & _); [|done].
    apply straight_spec in Hst as [Hne Hst]. apply straight_spec. split.
    - intros ->. by apply Permutation_nil_l in Hp.
    - setoid_rewrite Hp. done. }
  destruct r as [sizes|].
  2: { destruct Hs as (start & comp & Hc & Hno). rewrite (Hstraight start comp Hc) in Hno. done. }
  destruct Hs as (comps & -> & Hall & Hnd & Hin & Hcovc). rewrite !andb_true_iff, negb_true_iff. split_and!.
  - apply Z.eqb_eq. rewrite (shipCellCount_concat board Hl css) by (done || apply Hapart).
    rewrite sum_lens, Hlens. done.
  - apply diagonal_contact_false; [done|]. intros c d Hc Hd Hdc.
    destruct (proj2 Hapart c d) as (cs & Hcs & Hc' & Hd'); [by apply Hcov..|by right|].
    destruct (carried_run css Hruns cs Hcs) as (n & Hn & Hr). apply run_props in Hr as (_ & _ & _ & _ & Hno); [|done].
    by destruct (Hno c d).
  - apply bool_decide_eq_true, sorted_equal. cbn [app].
    destruct (components_match comps css) as (css' & Hp & Hf); [done|apply Hapart| | | |].
    + eapply Forall_impl; [exact Hall|]. intros comp ((start & Hc) & Hst).
      split; [by apply straight_spec in Hst as [? _]|]. by eapply carried_component.
    + apply Forall_forall. intros cs Hcs.
      destruct (carried_run css Hruns cs Hcs) as (n & Hn & Hr). apply run_props in Hr as (_ & _ & Hst & _); [|done].
      by apply straight_spec in Hst as [? _].
    + intros c Hc. destruct (Hcovc c) as [Hz|]; [|by apply Hcov| |done].
      * apply elem_of_all_cells, (ship_at_out board); [done|]. by apply Hcov.
      * by rewrite ship_at_zeros in Hz.
    + rewrite (Permutation_lens _ _ Hf), <- Hlens. by apply fmap_Permutation.
Qed.

(** * An accepted board carries the fleet *)

Section Accepted.
Context (board : bytes) (Hboard : length board = 100%nat).
Notation ship c := (ship_at board c = true).

(** On one line, a step moves by one stride. *)
Lemma step_on_line o c d :
  step board c d -> line_of o c = line_of o d -> d = c - stride o \/ d = c + stride o.
Proof.
  intros (Hc & Ho & _) Hline. apply (ship_at_out board) in Hc; [|done].
  apply (ortho_facts c d) in Ho as (_ & _ & Hr & Hcol); [|done]. by destruct o; [apply Hr|apply Hcol].
Qed.

(** A straight component is a placed ship. *)
Lemma component_on_line o start comp :
  is_component board start comp -> length comp ∈ fleet_sizes ->
  (forall c d, c ∈ comp -> d ∈ comp -> line_of o c = line_of o d) ->
  exists cs, is_run (length comp) cs /\ comp ≡ₚ cs.
Proof.
  intros (Hs & Hnd & Hreach) Hlen Hline. pose proof (fleet_size_range _ Hlen).
  destruct (list_least comp) as (m & Hm & Hmin); [intros ->; simpl in *; lia|].
  assert (Hk : 0 < stride o) by (by destruct o).
  assert (Hfrom : forall c, c ∈ comp <-> rtc (step board) m c).
  { intros c. pose proof (proj1 (Hreach m) Hm) as Hsm. rewrite Hreach. split; intros Hr.
    - transitivity start; [by apply reach_sym|done].
    - by transitivity m. }
  assert (Hform : forall c, c ∈ comp -> exists j : nat, c = m + stride o * Z.of_nat j).
  { intros c Hc. pose proof (Hmin c Hc) as Hle. assert (exists j, c = m + stride o * j) as (j & ->).
    { apply Hfrom in Hc. clear Hle. revert c Hc. apply (rtc_ind_r (fun c => exists j, c = m + stride o * j)).
      - exists 0. lia.
      - intros y z Hy Hyz (j & ->).
        assert (m + stride o * j ∈ comp /\ z ∈ comp) as [Hy' Hz'] by (split; apply Hfrom; [done|by eapply rtc_r]).
        destruct (step_on_line o _ _ Hyz) as [-> | ->];
          [by apply Hline|exists (j - 1); lia|exists (j + 1); lia]. }
    exists (Z.to_nat j). nia. }
  assert (Hgap : forall c (j : nat), c ∈ comp -> m + stride o * Z.of_nat j <= c ->
    m + stride o * Z.of_nat j ∈ comp).
  { intros c j Hc. apply Hfrom in Hc. revert c Hc j.
    apply (rtc_ind_r (fun c => forall j : nat, m + stride o * Z.of_nat j <= c -> m + stride o * Z.of_nat j ∈ comp)).
    - intros j Hj. assert (j = 0)%nat as -> by nia. by replace (m + stride o * Z.of_nat 0) with m by lia.
    - intros y z Hy Hyz IH j Hj. destruct (Z_le_gt_dec (m + stride o * Z.of_nat j) y); [by apply IH|].
      assert (y ∈ comp) as Hyc by (by apply Hfrom). assert (z ∈ comp) as Hzc by (apply Hfrom; by eapply rtc_r).
      destruct (Hform y Hyc) as (jy & Ey).
      destruct (step_on_line o _ _ Hyz) as [E|E]; [by apply Hline|lia|].
      assert (j = S jy) as -> by nia. by replace (m + stride o * Z.of_nat (S jy)) with z by lia. }
  pose proof (gapless_progression comp m (stride o) Hk Hnd Hm Hform Hgap) as Hp.
  exists (progression m (stride o) (length comp)). split; [|done].
  assert (Hok : forall c, c ∈ comp -> cell_ok c).
  { intros c Hc. apply (ship_at_out board); [done|]. apply (reach_ship board start); [done|]. by apply Hreach. }
  apply run_intro; [done|by apply Hok|]. intros c Hc. rewrite <- Hp in Hc. auto.
Qed.

Lemma accepted_fleet : isLegalBoard board = Ok true -> fleet_board board.
Proof.
  intros H. destruct (isLegalBoard_unfold board Hboard) as (r & Hs & E). rewrite E in H. apply Ok_inj in H.
  destruct r as [sizes|]; [|done]. rewrite !andb_true_iff, negb_true_iff in H. destruct H as [[_ Hdiag] Hsort].
  apply bool_decide_eq_true, sorted_equal in Hsort. rewrite diagonal_contact_false in Hdiag by done.
  destruct Hs as (comps & -> & Hall & Hnd & Hin & Hcov). cbn [app] in Hsort.
  apply Permutation_map_inv in Hsort as (comps' & Hl & Hp). split; [done|].
  assert (Hall' : Forall (fun comp => exists cs, is_run (length comp) cs /\ comp ≡ₚ cs) comps').
  { rewrite Hp in Hall. rewrite Forall_forall in Hall |- *. intros comp Hc.
    destruct (Hall comp Hc) as ((start & Hcomp) & Hst).
    assert (length comp ∈ fleet_sizes) as Hlen.
    { assert (len comp ∈ map ship_size FLEET) as Hz by (rewrite Hl; apply list_elem_of_fmap; eauto).
      unfold fleet_sizes. apply list_elem_of_fmap in Hz as (sp & Esp & Hsp).
      apply list_elem_of_fmap. exists sp. split; [|done]. rewrite <- Esp. unfold len. lia. }
    apply straight_spec in Hst as [_ [Hrow|Hcol]].
    - by apply (component_on_line Hor start).
    - by apply (component_on_line Ver start). }
  apply Forall_choose in Hall' as (css & Hcss).
  assert (Hperm : concat css ≡ₚ concat comps).
  { rewrite (concat_Permutation _ _ Hp). symmetry. apply concat_Forall2_Permutation.
    eapply Forall2_impl; [exact Hcss|]. by intros ? ? [_ ?]. }
  exists css. split_and!.
  - assert (fleet_sizes = map length comps') as ->.
    { transitivity (map Z.to_nat (map ship_size FLEET)); [done|]. rewrite Hl, map_map. apply map_ext.
      intros cs. unfold len. lia. }
    clear -Hcss. induction Hcss as [|? ? ? ? [? _] _ IH]; [by constructor|]. cbn [map]. by constructor.
  - split; [by rewrite Hperm|]. intros c d Hc Hd Hcd. rewrite Hperm in Hc, Hd.
    destruct (Hin c Hc) as [Hsc _], (Hin d Hd) as [Hsd _].
    destruct Hcd as [Ho|Hdg]; [|by destruct (Hdiag c d Hsc Hsd)].
    apply elem_of_concat in Hc as (comp & Hcomp & Hc).
    rewrite Forall_forall in Hall. destruct (Hall comp Hcomp) as ((start & Hs' & _ & Hr) & _).
    assert (d ∈ comp) as Hd'. { apply Hr. eapply rtc_r; [by apply Hr|]. by repeat split. }
    rewrite Hp in Hcomp. apply list_elem_of_lookup in Hcomp as [i Hi].
    destruct (Forall2_lookup_l _ _ _ _ _ Hcss Hi) as (cs & Hcs & _ & Hpc).
    exists cs. split_and!; [by eapply list_elem_of_lookup_2|by rewrite <- Hpc..].
  - intros c. rewrite Hperm. split; [|by intros Hc; apply Hin]. intros Hc.
    destruct (Hcov c) as [Hz|]; [|done| |done].
    + apply elem_of_all_cells. by apply (ship_at_out board).
    + by rewrite ship_at_zeros in Hz.
Qed.
End Accepted.

(** C23: [isLegalBoard] always returns, and accepts exactly the boards that carry
    the standard fleet: a hundred cells whose ship cells are five straight runs
    of 5, 4, 3, 3 and 2 cells, no two of which overlap or touch, not even
    diagonally. *)
Theorem legal_board_iff_fleet board :
  is_ok (isLegalBoard board) = true /\ (isLegalBoard board = Ok true <-> fleet_board board).
Proof.
  destruct (decide (length board = 100%nat)) as [Hl|Hl].
  - split.
    + destruct (isLegalBoard_unfold board Hl) as (r & _ & ->). done.
    + split; [by apply accepted_fleet|apply fleet_accepted].
  - assert (isLegalBoard board = Ok false) as ->; [|split; [done|]; split; [done|by intros [? _]]].
    unfold isLegalBoard. destruct (Z.eqb_spec (Z.of_nat (length board)) BATTLESHIP_CELL_COUNT) as [E|]; [|done].
    change BATTLESHIP_CELL_COUNT with 100 in E. lia.
Qed.
