(* ===== verification/BattleshipPlacement.v ===== *)
(** Placing a fleet: what the random placement returns renders to a board that
    [isLegalBoard] accepts, and what the placement check [fleetIsLegal] lets
    through need not. *)
From stdpp Require Import gmap sorting.
From S2P Require Import Prelude.
From S2P Require Import Bytes.
From S2P Require Import BattleshipFleet.
From S2P Require Import BattleshipLegal.

(** * Marking cells *)

Lemma length_mark_all cells b : length (fold_left mark_cell cells b) = length b.
Proof. revert b. induction cells as [|c cells IH]; intros b; [done|]. cbn [fold_left]. by rewrite IH, length_mark. Qed.

Lemma ship_at_mark_all cells b d :
  Forall cell_ok cells -> length b = 100%nat ->
  ship_at (fold_left mark_cell cells b) d = true <-> d ∈ cells \/ ship_at b d = true.
Proof.
  intros Hok. revert b. induction Hok as [|c cells Hc _ IH]; intros b Hl; cbn [fold_left]; [set_solver|].
  rewrite IH by (by rewrite length_mark). rewrite ship_at_mark by done.
  rewrite orb_true_iff, bool_decide_eq_true, elem_of_cons. tauto.
Qed.

(** The cells [block_around] blocks. *)
Definition around (c : Z) : list Z :=
  c :: neighbors [(-1, -1); (-1, 0); (-1, 1); (0, -1); (0, 0); (0, 1); (1, -1); (1, 0); (1, 1)] c.

Lemma fold_neighbors steps c b out :
  fold_left mark_cell (fold_left (fun out '(dr, dc) =>
    if inBounds (rowOf c + dr) (colOf c + dc) then out ++ [cellAt (rowOf c + dr) (colOf c + dc)] else out) steps out) b =
  fold_left (fun b '(dr, dc) =>
    if inBounds (rowOf c + dr) (colOf c + dc) then mark_cell b (cellAt (rowOf c + dr) (colOf c + dc)) else b) steps
    (fold_left mark_cell out b).
Proof.
  revert out. induction steps as [|[dr dc] steps IH]; intros out; [done|]. cbn [fold_left].
  destruct (inBounds _ _); rewrite IH; [|done]. by rewrite fold_left_app.
Qed.

Lemma block_around_marks b c : block_around b c = fold_left mark_cell (around c) b.
Proof. unfold around. cbn [fold_left]. unfold neighbors. cbv zeta. by rewrite fold_neighbors. Qed.

Definition near (c d : Z) : Prop := d = c \/ d ∈ orthoNeighbors c \/ d ∈ diagonalNeighbors c.

Lemma around_facts c :
  cell_ok c -> Forall cell_ok (around c) /\ forall d, near c d -> d ∈ around c /\ near d c.
Proof.
  intros Hc. split.
  - apply Forall_forall. intros d Hd. apply cell_okb_spec.
    by apply (near_check_spec around (fun _ d => cell_okb d) c d ltac:(vm_compute; reflexivity)).
  - intros d Hd. assert (d ∈ c :: orthoNeighbors c ++ diagonalNeighbors c) as Hin.
    { destruct Hd as [-> |[?|?]]; rewrite elem_of_cons, elem_of_app; auto. }
    pose proof (near_check_spec (fun c => c :: orthoNeighbors c ++ diagonalNeighbors c) (fun c d =>
      existsb (Z.eqb d) (around c) &&
      existsb (Z.eqb c) (d :: orthoNeighbors d ++ diagonalNeighbors d)) c d
      ltac:(vm_compute; reflexivity) Hc Hin) as H. cbv beta in H. apply andb_true_iff in H.
    assert (Hex : forall x l, existsb (Z.eqb x) l = true -> x ∈ l).
    { intros x l (y & Hy & ->%Z.eqb_eq)%existsb_exists. by apply list_elem_of_In. }
    destruct H as [H1%Hex H2%Hex]. split; [done|]. unfold near.
    rewrite elem_of_cons, elem_of_app in H2. tauto.
Qed.

Lemma block_all_spec cs b :
  Forall cell_ok cs -> length b = 100%nat ->
  length (fold_left block_around cs b) = 100%nat /\
  (forall d, ship_at b d = true -> ship_at (fold_left block_around cs b) d = true) /\
  (forall c d, c ∈ cs -> near c d -> ship_at (fold_left block_around cs b) d = true).
Proof.
  intros Hok. revert b. induction Hok as [|c cs Hc _ IH]; intros b Hl; cbn [fold_left].
  { split_and!; [done|done|]. intros c d Hc. by apply elem_of_nil in Hc. }
  destruct (around_facts c Hc) as [Hoks Hnear].
  assert (Hspec : forall d, ship_at (block_around b c) d = true <-> d ∈ around c \/ ship_at b d = true)
    by (intros d; rewrite block_around_marks; by apply ship_at_mark_all).
  destruct (IH (block_around b c)) as (Hl' & Hmono & Hcov); [by rewrite block_around_marks, length_mark_all|].
  split_and!; [done| |].
  - intros d Hd. apply Hmono, Hspec. auto.
  - intros x d [-> |Hx]%elem_of_cons Hd; [|eauto]. apply Hmono, Hspec. left. by apply Hnear.
Qed.

(** * Placements and their cells *)

Definition placed (p : Placement) (cs : list Z) : Prop := placementCells p = Ok (Some cs).

Lemma in_bounds_cell cell : inBounds (rowOf cell) (colOf cell) = true -> cell_ok cell.
Proof.
  unfold inBounds, rowOf, colOf, cell_ok. change BATTLESHIP_CELL_COUNT with 100. change BOARD_SIZE with 10.
  intros H. bool_to_prop. zdiv_lia.
Qed.

Lemma placed_run p cs sp :
  placed p cs -> specOf (p_id p) = Ok sp -> Z.to_nat (ship_size sp) ∈ fleet_sizes ->
  is_run (Z.to_nat (ship_size sp)) cs.
Proof.
  unfold placed, placementCells. intros H E Hn. rewrite E in H. cbn [rbind] in H. apply Ok_inj in H.
  pose proof (fleet_size_range _ Hn). exists (orient p), (p_cell p). split; [|done].
  destruct (Z.to_nat (ship_size sp)) as [|n]; [lia|]. cbn [run_cells] in H.
  destruct (inBounds _ _) eqn:E'; [|done]. apply in_bounds_cell.
  destruct (orient p); by rewrite Z.add_0_r in E'.
Qed.

(** [specOf] finds the ships of the fleet. *)
Lemma specOf_fleet sp : sp ∈ FLEET -> specOf (spec_id sp) = Ok sp.
Proof. unfold FLEET. intros H. repeat (apply elem_of_cons in H as [-> |H]; [reflexivity|]). by apply elem_of_nil in H. Qed.

Lemma fleet_size sp : sp ∈ FLEET -> Z.to_nat (ship_size sp) ∈ fleet_sizes.
Proof. intros H. unfold fleet_sizes. apply list_elem_of_fmap. eauto. Qed.

(** A board with placed cells rendered on it. *)
Lemma render_spec ps css b :
  Forall2 placed ps css -> Forall (Forall cell_ok) css -> length b = 100%nat ->
  exists b', rfold (fun board p =>
      let! cells := placementCells p in
      match cells with
      | None => Throw (Error "placement is out of bounds")
      | Some cells => Ok (fold_left mark_cell cells board)
      end) b ps = Ok b' /\ length b' = 100%nat /\
    forall d, ship_at b' d = true <-> d ∈ concat css \/ ship_at b d = true.
Proof.
  intros H. revert b. induction H as [|p cs ps css Hp _ IH]; intros b Hok Hl; cbn [rfold concat].
  { exists b. split_and!; [done|done|set_solver]. }
  apply Forall_cons in Hok as [Hcs Hok]. rewrite Hp. cbn [rbind].
  destruct (IH (fold_left mark_cell cs b)) as (b' & E & Hl' & Hs); [done|by rewrite length_mark_all|].
  exists b'. split_and!; [done|done|]. intros d. rewrite Hs, ship_at_mark_all, elem_of_app by done. tauto.
Qed.

(** * The random placement *)

Section Random.
Context (coin : nat -> bool) (cellOf : nat -> Z).

(** The ships placed so far, and the blocked cells around them. *)
Record placing (specs : list ShipSpec) (ps : list Placement) (css : list (list Z)) (blocked : bytes) : Prop := {
  pl_ids : map p_id ps = map spec_id specs;
  pl_placed : Forall2 placed ps css;
  pl_runs : Forall2 (fun sp cs => is_run (Z.to_nat (ship_size sp)) cs) specs css;
  pl_fleet : forall sp, sp ∈ specs -> sp ∈ FLEET;
  pl_apart : apart css;
  pl_length : length blocked = 100%nat;
  pl_blocked : forall c d, c ∈ concat css -> near c d -> ship_at blocked d = true
}.

Lemma placing_cells specs ps css blocked :
  placing specs ps css blocked -> Forall (Forall cell_ok) css.
Proof.
  intros H. apply Forall_forall. intros cs Hcs. apply list_elem_of_lookup in Hcs as [i Hi].
  destruct (Forall2_lookup_r _ _ _ _ _ (pl_runs _ _ _ _ H) Hi) as (sp & Hsp & Hr).
  apply list_elem_of_lookup_2 in Hsp. apply Forall_forall.
  by apply run_props in Hr as (_ & _ & _ & ? & _); [|apply fleet_size, (pl_fleet _ _ _ _ H)].
Qed.

Lemma place_ship_spec tries sp blocked k p blocked' k' :
  place_ship coin cellOf tries sp blocked k = Ok (Some (p, blocked'), k') ->
  p_id p = spec_id sp /\ exists cs, placed p cs /\ blocked' = fold_left block_around cs blocked /\
    forall c, c ∈ cs -> ship_at blocked c = false.
Proof.
  revert k. induction tries as [|tries IH]; intros k H; cbn [place_ship] in H; [discriminate|].
  inv_ok. destruct a as [cells|]; [|by apply IH in H].
  destruct (existsb (ship_at blocked) cells) eqn:Ex; [by apply IH in H|].
  apply Ok_inj in H. simplify_eq. split; [done|]. exists cells. split_and!; [done|done|].
  intros c Hc. apply not_true_iff_false. intros Ht. apply not_true_iff_false in Ex. apply Ex.
  apply existsb_exists. exists c. by rewrite <- list_elem_of_In.
Qed.

(** One more ship, clear of the blocked cells. *)
Lemma placing_snoc specs ps css blocked sp p cs :
  placing specs ps css blocked -> sp ∈ FLEET -> p_id p = spec_id sp -> placed p cs ->
  (forall c, c ∈ cs -> ship_at blocked c = false) ->
  placing (specs ++ [sp]) (ps ++ [p]) (css ++ [cs]) (fold_left block_around cs blocked).
Proof.
  intros Hpl Hsp Hid Hp Hfree.
  assert (Hrun : is_run (Z.to_nat (ship_size sp)) cs).
  { apply (placed_run p); [done|by rewrite Hid, specOf_fleet|by apply fleet_size]. }
  pose proof (run_props _ _ (fleet_size sp Hsp) Hrun) as (_ & Hnd & _ & Hok & _).
  pose proof (placing_cells _ _ _ _ Hpl) as Hcells.
  destruct Hpl as [Hids Hpd Hruns Hfl [Hapn Hapt] Hl Hbl].
  destruct (block_all_spec cs blocked) as (Hl' & Hmono & Hcov); [by apply Forall_forall|done|].
  assert (Hclear : forall c d, c ∈ concat css -> d ∈ cs -> ~ near c d).
  { intros c d Hc Hd Hn. pose proof (Hbl c d Hc Hn) as Ht. by rewrite (Hfree d Hd) in Ht. }
  assert (Hcok : forall c, c ∈ concat css -> cell_ok c).
  { intros c (l & Hlc & Hc)%elem_of_concat. rewrite Forall_forall in Hcells.
    specialize (Hcells l Hlc). rewrite Forall_forall in Hcells. auto. }
  assert (Hconcat : concat (css ++ [cs]) = concat css ++ cs) by (rewrite concat_app; cbn [concat]; by rewrite app_nil_r).
  split; rewrite ?map_app, ?Hconcat; cbn [map].
  - by rewrite Hids, Hid.
  - by apply Forall2_app; [|constructor].
  - by apply Forall2_app; [|constructor].
  - intros s [Hs|Hs]%elem_of_app; [auto|]. by apply list_elem_of_singleton in Hs as ->.
  - split; rewrite Hconcat.
    + apply NoDup_app. split_and!; [done| |done]. intros c Hc Hc'. by apply (Hclear c c); [..|left].
    + intros c d Hc Hd Ht. rewrite elem_of_app in Hc, Hd.
      destruct Hc as [Hc|Hc], Hd as [Hd|Hd].
      * destruct (Hapt c d Hc Hd Ht) as (l & ? & ? & ?). exists l. rewrite elem_of_app. auto.
      * exfalso. apply (Hclear c d Hc Hd). by right.
      * exfalso. apply (Hclear d c Hd Hc). apply around_facts; [auto|]. by right.
      * exists cs. rewrite elem_of_app, list_elem_of_singleton. auto.
  - done.
  - intros c d [Hc|Hc]%elem_of_app Hn; [|eauto]. apply Hmono. eauto.
Qed.

Lemma place_all_cons sp todo ps blocked k :
  place_all coin cellOf (sp :: todo) ps blocked k =
  let! r := place_ship coin cellOf RETRIES sp blocked k in
  match fst r with
  | None => Ok (None, snd r)
  | Some (p, blocked') => place_all coin cellOf todo (ps ++ [p]) blocked' (snd r)
  end.
Proof. reflexivity. Qed.

Lemma place_all_spec todo specs ps css blocked k ps' k' :
  placing specs ps css blocked -> (forall sp, sp ∈ todo -> sp ∈ FLEET) ->
  place_all coin cellOf todo ps blocked k = Ok (Some ps', k') ->
  exists css' blocked', placing (specs ++ todo) ps' css' blocked'.
Proof.
  revert specs ps css blocked k. induction todo as [|sp todo IH]; intros specs ps css blocked k Hpl Hfl H.
  { cbn [place_all] in H. apply Ok_inj in H. simplify_eq. rewrite app_nil_r. eauto. }
  rewrite place_all_cons in H. inv_ok. destruct a as [[[p blocked']|] k1]; [|done]. cbn [fst snd] in H.
  apply place_ship_spec in E as (Hid & cs & Hp & -> & Hfree).
  assert (Hspf : sp ∈ FLEET) by (apply Hfl; left).
  pose proof (placing_snoc _ _ _ _ sp p cs Hpl Hspf Hid Hp Hfree) as Hpl'.
  apply (IH (specs ++ [sp])) with (css := css ++ [cs]) in H as (css' & b' & H); [|done|].
  - rewrite <- app_assoc in H. cbn [app] in H. eauto.
  - intros s Hs. apply Hfl. by right.
Qed.

Lemma place_attempts_S n k :
  place_attempts coin cellOf (S n) k =
  let! r := place_all coin cellOf FLEET [] (u8_new (Z.to_nat BATTLESHIP_CELL_COUNT)) k in
  match fst r with
  | Some placements => Ok placements
  | None => place_attempts coin cellOf n (snd r)
  end.
Proof. reflexivity. Qed.

Lemma place_attempts_spec n k ps :
  place_attempts coin cellOf n k = Ok ps -> exists css blocked, placing FLEET ps css blocked.
Proof.
  revert k. induction n as [|n IH]; intros k H; [done|]. rewrite place_attempts_S in H.
  inv_ok. destruct a as [[ps'|] k1]; cbn [fst snd] in H; [|eauto].
  inv_ok. apply (place_all_spec FLEET [] [] []) in E; [done| |done].
  assert (Hno : forall c : Z, c ∉ concat ([] : list (list Z))) by (intros c Hc; by apply elem_of_nil in Hc).
  split; [done|constructor|constructor| |split; [apply NoDup_nil_2|]|done|].
  - intros sp Hsp. by apply elem_of_nil in Hsp.
  - intros c d Hc. by destruct (Hno c).
  - intros c d Hc. by destruct (Hno c).
Qed.

(** Whatever the random numbers, a fleet that [placeFleetRandom] returns has
    the five ships in order and renders to a board that [isLegalBoard]
    accepts. *)
Theorem random_fleet_is_legal ps :
  placeFleetRandom coin cellOf = Ok ps ->
  map p_id ps = map spec_id FLEET /\
  exists board, placementsToBoard ps = Ok board /\ isLegalBoard board = Ok true.
Proof.
  unfold placeFleetRandom. intros (css & blocked & Hpl)%place_attempts_spec.
  split; [apply (pl_ids _ _ _ _ Hpl)|].
  destruct (render_spec ps css (u8_new (Z.to_nat BATTLESHIP_CELL_COUNT))) as (b & E & Hl & Hs);
    [apply (pl_placed _ _ _ _ Hpl)|by apply (placing_cells _ _ _ _ Hpl)|done|].
  exists b. split; [exact E|]. apply fleet_accepted. split; [done|]. exists css. split_and!.
  - unfold fleet_sizes. apply Forall2_fmap_l. apply (pl_runs _ _ _ _ Hpl).
  - apply (pl_apart _ _ _ _ Hpl).
  - intros c. rewrite Hs, ship_at_zeros. split; [by intros [?|?]|auto].
Qed.
End Random.

Definition sample_coin (k : nat) : bool := Nat.even (k * k / 3).
Definition sample_cell (k : nat) : Z := (37 * Z.of_nat k * Z.of_nat k + 11) mod 100.

Lemma sample_placed : is_ok (placeFleetRandom sample_coin sample_cell) = true.
Proof. vm_compute. reflexivity. Qed.

Lemma random_fleet_is_legal_witness :
  exists ps board, placeFleetRandom sample_coin sample_cell = Ok ps /\
    placementsToBoard ps = Ok board /\ isLegalBoard board = Ok true.
Proof.
  pose proof sample_placed as E. apply is_ok_exists in E as (ps & E).
  destruct (random_fleet_is_legal _ _ ps E) as [_ (b & Hb & Hlegal)]. exists ps, b.
  split; [exact E|]. split; [exact Hb|exact Hlegal].
Defined.

(** * The placement check *)

Definition ship_placement (id : string) (cell : Z) (o : Orientation) : Placement :=
  {| p_id := id; p_cell := cell; orient := o |}.

(** The carrier and the battleship end to end on the first row. *)
Definition touching_fleet : list Placement :=
  [ship_placement "carrier" 0 Hor; ship_placement "battleship" 5 Hor; ship_placement "cruiser" 40 Hor;
   ship_placement "submarine" 60 Hor; ship_placement "destroyer" 80 Hor].

(** [fleetIsLegal] checks only diagonal contact, so it accepts two ships laid
    end to end, although the rule it documents is that no two ships touch; the
    board of such a fleet is refused by [isLegalBoard], so a player who committed
    to it can never reveal it. *)
Theorem end_to_end_ships_pass :
  fleetIsLegal touching_fleet = Ok true /\
  (let! board := placementsToBoard touching_fleet in isLegalBoard board) = Ok false.
Proof. split; vm_compute; reflexivity. Qed.
