(* ===== verification/Battleship.v ===== *)
(** Battleship with one commitment per board:
    [sui-tunnel-ts/src/protocol/battleship.ts], and the driver that plays it from
    two known fleets, [battleshipSelfPlay.ts]. *)
From S2P Require Import Prelude.
From S2P Require Import Bytes.
From S2P Require Import Wire.
From S2P Require Import Crypto.
From S2P Require Import Commitment.
From S2P Require Import Protocol.
From S2P Require Import BattleshipFleet.

(** [src protocol/battleship.ts BattleshipWinner] *)
Definition BattleshipWinner : Type := Z.

(** [src protocol/battleship.ts:29-33 BattleshipPhase] *)
Inductive BattleshipPhase := AwaitingCommits | Playing | RevealBoards | Over.

#[export] Instance BattleshipPhase_eq_dec : EqDecision BattleshipPhase.
Proof. solve_decision. Defined.

(** [src protocol/battleship.ts BattleshipShotResult] *)
Record BattleshipShotResult := { shot_cell : Z; isHit : bool }.

Record PendingShot := { shot_by : Party; target : Z }.

(** [src protocol/battleship.ts BattleshipState] *)
Record BattleshipState := {
  phase : BattleshipPhase;
  turn : Party;
  pendingShot : option PendingShot;
  commitA : option bytes;
  commitB : option bytes;
  shotsAtA : list BattleshipShotResult;
  shotsAtB : list BattleshipShotResult;
  hitsOnA : Z;
  hitsOnB : Z;
  revealedA : bool;
  revealedB : bool;
  winner : BattleshipWinner;
  balanceA : Z;
  balanceB : Z;
  total : Z;
  stake : Z
}.

(** [src protocol/battleship.ts:65-70 BattleshipMove] *)
Inductive BattleshipMove :=
  | Commit (commitment : bytes)
  | Shoot (cell : jsnum)
  | Answer (hit : bool) (next : option jsnum)
  | RevealBoard (board salt : bytes)
  | Resign.

(** [src protocol/battleship.ts DOMAIN] *)
Definition DOMAIN : bytes := protocolDomain "battleship.v2".
(** [src protocol/battleship.ts COMMIT_BYTES] *)
Definition COMMIT_BYTES : nat := 32.

(** [src protocol/battleship.ts PHASE_CODE] *)
Definition PHASE_CODE (p : BattleshipPhase) : Z :=
  match p with AwaitingCommits => 0 | Playing => 1 | RevealBoards => 2 | Over => 3 end.

(** [src protocol/battleship.ts commitFor] *)
Definition commitFor (s : BattleshipState) (p : Party) : option bytes :=
  match p with PartyA => commitA s | PartyB => commitB s end.

(** [src protocol/battleship.ts shotsAt] *)
Definition shotsAt (s : BattleshipState) (defender : Party) : list BattleshipShotResult :=
  match defender with PartyA => shotsAtA s | PartyB => shotsAtB s end.

(** [src protocol/battleship.ts openCells] *)
Definition openCells (s : BattleshipState) (shooter : Party) : Z :=
  BATTLESHIP_CELL_COUNT - Z.of_nat (length (shotsAt s (otherParty shooter))).

Definition fired_at (shots : list BattleshipShotResult) (cell : Z) : bool :=
  existsb (fun x => shot_cell x =? cell) shots.

(** [src protocol/battleship.ts assertShootable]: the cell, once checked. *)
Definition assertShootable (s : BattleshipState) (shooter : Party) (cell : jsnum) : result Z :=
  match cell with
  | JsNonInt => Throw (Error "cell out of range")
  | JsInt c =>
      throw_if (c <? 0) || (BATTLESHIP_CELL_COUNT <=? c) with Error "cell out of range" ;
      throw_if fired_at (shotsAt s (otherParty shooter)) c with Error "already fired at cell" ;
      Ok c
  end.

(** [src protocol/battleship.ts BattleshipProtocol.constructor] *)
Definition newBattleship (stake : Z) : result Z :=
  throw_if (stake <? 0) with Error "stake must be non-negative" ;
  Ok stake.

(** [src protocol/battleship.ts BattleshipProtocol.initialState] *)
Definition initialState (defaultStake : Z) (ctx : ProtocolContext) : BattleshipState :=
  let a := bal_a (initialBalances ctx) in
  let b := bal_b (initialBalances ctx) in
  let cap := if a <? b then a else b in
  {| phase := AwaitingCommits; turn := PartyA; pendingShot := None; commitA := None; commitB := None;
     shotsAtA := []; shotsAtB := []; hitsOnA := 0; hitsOnB := 0; revealedA := false; revealedB := false;
     winner := 0; balanceA := a; balanceB := b; total := a + b;
     stake := if defaultStake <? cap then defaultStake else cap |}.

(** [src protocol/battleship.ts BattleshipProtocol.settle] *)
Definition settle (s : BattleshipState) (w : BattleshipWinner) : BattleshipState :=
  let '(a, b) :=
    if w =? 0 then (balanceA s, balanceB s)
    else
      let loserBal := if w =? 1 then balanceB s else balanceA s in
      let shift := if stake s <? loserBal then stake s else loserBal in
      if w =? 1 then (balanceA s + shift, balanceB s - shift)
      else (balanceA s - shift, balanceB s + shift) in
  {| phase := Over; turn := turn s; pendingShot := pendingShot s; commitA := commitA s; commitB := commitB s;
     shotsAtA := shotsAtA s; shotsAtB := shotsAtB s; hitsOnA := hitsOnA s; hitsOnB := hitsOnB s;
     revealedA := revealedA s; revealedB := revealedB s; winner := w;
     balanceA := a; balanceB := b; total := total s; stake := stake s |}.

(** [src protocol/battleship.ts BattleshipProtocol.finalize] *)
Definition finalize (s : BattleshipState) : BattleshipState :=
  let aSunk := FLEET_CELLS <=? hitsOnA s in
  let bSunk := FLEET_CELLS <=? hitsOnB s in
  let w :=
    if bSunk && negb aSunk then 1
    else if aSunk && negb bSunk then 2
    else if hitsOnA s <? hitsOnB s then 1
    else if hitsOnB s <? hitsOnA s then 2
    else 0 in
  settle s w.

(** [src protocol/battleship.ts BattleshipProtocol.applyCommit] *)
Definition applyCommit (s : BattleshipState) (commitment : bytes) (by_ : Party) : result BattleshipState :=
  throw_if negb (bool_decide (phase s = AwaitingCommits)) with Error "commits are closed" ;
  throw_if negb (length commitment =? COMMIT_BYTES)%nat with Error "commitment must be 32 bytes" ;
  let! _ := match commitA s, commitB s with
            | None, _ => throw_if negb (party_eqb by_ PartyA) with Error "A commits first" ; Ok tt
            | _, None => throw_if negb (party_eqb by_ PartyB) with Error "B commits second" ; Ok tt
            | _, _ => Throw (Error "both fleets already committed")
            end in
  let cA := match by_ with PartyA => Some commitment | PartyB => commitA s end in
  let cB := match by_ with PartyB => Some commitment | PartyA => commitB s end in
  let both := match cA, cB with Some _, Some _ => true | _, _ => false end in
  Ok {| phase := if both then Playing else phase s; turn := if both then PartyA else turn s;
        pendingShot := pendingShot s; commitA := cA; commitB := cB;
        shotsAtA := shotsAtA s; shotsAtB := shotsAtB s; hitsOnA := hitsOnA s; hitsOnB := hitsOnB s;
        revealedA := revealedA s; revealedB := revealedB s; winner := winner s;
        balanceA := balanceA s; balanceB := balanceB s; total := total s; stake := stake s |}.

(** [{...state, phase, turn, pendingShot}] *)
Definition with_turn (s : BattleshipState) (p : BattleshipPhase) (t : Party) (pend : option PendingShot)
  : BattleshipState :=
  {| phase := p; turn := t; pendingShot := pend; commitA := commitA s; commitB := commitB s;
     shotsAtA := shotsAtA s; shotsAtB := shotsAtB s; hitsOnA := hitsOnA s; hitsOnB := hitsOnB s;
     revealedA := revealedA s; revealedB := revealedB s; winner := winner s;
     balanceA := balanceA s; balanceB := balanceB s; total := total s; stake := stake s |}.

(** [src protocol/battleship.ts BattleshipProtocol.applyShoot] *)
Definition applyShoot (s : BattleshipState) (cell : jsnum) (by_ : Party) : result BattleshipState :=
  throw_if negb (bool_decide (phase s = Playing)) with Error "not in the firing phase" ;
  match pendingShot s with
  | Some _ => Throw (Error "awaiting the previous answer")
  | None =>
      throw_if negb (party_eqb by_ (turn s)) with Error "not your turn" ;
      let! c := assertShootable s by_ cell in
      Ok (with_turn s (phase s) (turn s) (Some {| shot_by := by_; target := c |}))
  end.

(** [src protocol/battleship.ts:222-243 BattleshipProtocol.applyAnswer] the shot recorded on the
    defender's board *)
Definition record_shot (s : BattleshipState) (defender : Party) (cell : Z) (hit : bool) : BattleshipState :=
  let r := {| shot_cell := cell; isHit := hit |} in
  {| phase := phase s; turn := turn s; pendingShot := None; commitA := commitA s; commitB := commitB s;
     shotsAtA := match defender with PartyA => shotsAtA s ++ [r] | PartyB => shotsAtA s end;
     shotsAtB := match defender with PartyB => shotsAtB s ++ [r] | PartyA => shotsAtB s end;
     hitsOnA := if party_eqb defender PartyA && hit then hitsOnA s + 1 else hitsOnA s;
     hitsOnB := if party_eqb defender PartyB && hit then hitsOnB s + 1 else hitsOnB s;
     revealedA := revealedA s; revealedB := revealedB s; winner := winner s;
     balanceA := balanceA s; balanceB := balanceB s; total := total s; stake := stake s |}.

(** [src protocol/battleship.ts BattleshipProtocol.applyAnswer] *)
Definition applyAnswer (s : BattleshipState) (hit : bool) (nextShot : option jsnum) (by_ : Party)
  : result BattleshipState :=
  match pendingShot s with
  | Some pending =>
      throw_if negb (bool_decide (phase s = Playing)) with Error "no shot to answer" ;
      let defender := otherParty (shot_by pending) in
      throw_if negb (party_eqb by_ defender) with Error "only the defender answers" ;
      throw_if (match nextShot with Some _ => true | None => false end) && hit
        with Error "a hit keeps the shooter's turn; defender cannot fire" ;
      let next := record_shot s defender (target pending) hit in
      let defenderHits := match defender with PartyA => hitsOnA next | PartyB => hitsOnB next end in
      if FLEET_CELLS <=? defenderHits then Ok (with_turn next RevealBoards (turn next) None)
      else
        let shooter := shot_by pending in
        if hit then
          Ok (with_turn next (if openCells next shooter =? 0 then RevealBoards else phase next) shooter None)
        else
          match nextShot with
          | Some n =>
              let! c := assertShootable next defender n in
              Ok (with_turn next (phase next) defender (Some {| shot_by := defender; target := c |}))
          | None =>
              Ok (with_turn next (if openCells next defender =? 0 then RevealBoards else phase next) defender None)
          end
  | None => Throw (Error "no shot to answer")
  end.

(** [board[cell] === 1] *)
Definition is_ship (board : bytes) (cell : Z) : bool := at_cell board cell =? 1.

Definition with_revealed (s : BattleshipState) (by_ : Party) : BattleshipState :=
  {| phase := phase s; turn := turn s; pendingShot := pendingShot s; commitA := commitA s; commitB := commitB s;
     shotsAtA := shotsAtA s; shotsAtB := shotsAtB s; hitsOnA := hitsOnA s; hitsOnB := hitsOnB s;
     revealedA := match by_ with PartyA => true | PartyB => revealedA s end;
     revealedB := match by_ with PartyB => true | PartyA => revealedB s end;
     winner := winner s; balanceA := balanceA s; balanceB := balanceB s; total := total s; stake := stake s |}.

(** [src protocol/battleship.ts BattleshipProtocol.balances] *)
Definition balances (s : BattleshipState) : Balances := {| bal_a := balanceA s; bal_b := balanceB s |}.

(** [src protocol/battleship.ts BattleshipProtocol.isTerminal] *)
Definition isTerminal (s : BattleshipState) : bool := bool_decide (phase s = Over).

(** The cells [by_] has not fired at, in order: the loop of [randomMove] and of
    the driver. *)
Definition open_list (s : BattleshipState) (shooter : Party) : list Z :=
  List.filter (fun cell => negb (fired_at (shotsAt s (otherParty shooter)) cell)) all_cells.

(** [src protocol/battleship.ts BattleshipProtocol.randomMove]: [draw n] is
    [Math.floor(rng() * n)]. *)
Definition randomMove (s : BattleshipState) (by_ : Party) (draw : nat -> nat) : option BattleshipMove :=
  if negb (bool_decide (phase s = Playing)) || bool_decide (is_Some (pendingShot s)) ||
     negb (party_eqb by_ (turn s)) then None
  else
    let open := open_list s by_ in
    if (length open =? 0)%nat then None
    else
      let idx := Nat.min (length open - 1) (draw (length open)) in
      Some (Shoot (JsInt (nth idx open 0))).

(** [src protocol/battleship.ts:368-375 BattleshipProtocol.encodeState] *)
Definition shotBytes (shots : list BattleshipShotResult) : bytes :=
  u8_from (concat (map (fun x => [shot_cell x; if isHit x then 1 else 0]) shots)).

(** [src protocol/battleship.ts BattleshipProtocol.encodeState] *)
Definition encodeState (s : BattleshipState) : result bytes :=
  let pend := pendingShot s in
  let bit (b : bool) : Z := if b then 1 else 0 in
  let seat (p : Party) : Z := match p with PartyA => 0 | PartyB => 1 end in
  let fixed := u8_from
    [PHASE_CODE (phase s); seat (turn s);
     match pend with Some _ => 1 | None => 0 end;
     match pend with Some p => seat (shot_by p) | None => 0 end;
     match pend with Some p => target p | None => 0 end;
     hitsOnA s; hitsOnB s; bit (revealedA s); bit (revealedB s); winner s] in
  let! shots := lengthPrefixedConcat
    [default [] (commitA s); default [] (commitB s); shotBytes (shotsAtA s); shotBytes (shotsAtB s)] in
  let! a := u64ToBeBytes (balanceA s) in
  let! b := u64ToBeBytes (balanceB s) in
  let! st := u64ToBeBytes (stake s) in
  concatBytes [DOMAIN; fixed; shots; a; b; st].

Section WithCrypto.
Context `{C : Crypto}.

(** [src protocol/battleship.ts BattleshipProtocol.applyRevealBoard] *)
Definition applyRevealBoard (s : BattleshipState) (board salt : bytes) (by_ : Party) : result BattleshipState :=
  throw_if negb (bool_decide (phase s = RevealBoards)) with Error "not in the reveal phase" ;
  throw_if (match by_ with PartyA => revealedA s | PartyB => revealedB s end) with Error "already revealed" ;
  match commitFor s by_ with
  | None => Throw (Error "party has not committed")
  | Some commit =>
      let! ok := verifyCommitment commit board salt in
      throw_if negb ok with Error "reveal does not match the commitment" ;
      let! legal := isLegalBoard board in
      throw_if negb legal with Error "revealed board is not a legal fleet" ;
      throw_if negb (forallb (fun shot => eqb (is_ship board (shot_cell shot)) (isHit shot)) (shotsAt s by_))
        with Error "reveal contradicts answered shot" ;
      let next := with_revealed s by_ in
      if revealedA next && revealedB next then Ok (finalize next) else Ok next
  end.

(** [src protocol/battleship.ts BattleshipProtocol.applyMove] *)
Definition applyMove (s : BattleshipState) (move : BattleshipMove) (by_ : Party) : result BattleshipState :=
  throw_if bool_decide (phase s = Over) || negb (winner s =? 0) with Error "game already over" ;
  match move with
  | Commit commitment => applyCommit s commitment by_
  | Shoot cell => applyShoot s cell by_
  | Answer hit nextShot => applyAnswer s hit nextShot by_
  | RevealBoard board salt => applyRevealBoard s board salt by_
  | Resign => Ok (settle s (match by_ with PartyA => 2 | PartyB => 1 end))
  end.

(** [src protocol/battleship.ts:106-111 BattleshipProtocol] *)
Definition BattleshipProtocol (defaultStake : Z) : Protocol BattleshipState BattleshipMove :=
  {| movesCarrySecrets := false;
     Protocol.initialState := fun ctx => Ok (initialState defaultStake ctx);
     Protocol.applyMove := applyMove;
     Protocol.encodeState := encodeState;
     Protocol.balances := balances;
     Protocol.isTerminal := isTerminal |}.

(** * The self-play driver *)

(** [src protocol/battleshipSelfPlay.ts FleetSecret] *)
Record FleetSecret := { fs_board : bytes; fs_salt : bytes; fs_commitment : bytes }.

(** [src protocol/battleshipSelfPlay.ts makeFleetSecret] *)
Definition makeFleetSecret (board salt : bytes) : result FleetSecret :=
  let! c := computeCommitment board salt in
  Ok {| fs_board := board; fs_salt := salt; fs_commitment := c |}.

(** [src protocol/battleshipSelfPlay.ts randomFleetSecret]: the draws of the
    placement, then [saltOf i], the [i]-th value of [Math.floor(rng() * 256)]. *)
Definition randomFleetSecret (coin : nat -> bool) (cellOf saltOf : nat -> Z) : result FleetSecret :=
  let! ps := placeFleetRandom coin cellOf in
  let! board := placementsToBoard ps in
  makeFleetSecret board (u8_from (map saltOf (seq 0 16))).

(** [src protocol/battleshipSelfPlay.ts DrivenMove] *)
Record DrivenMove := { dm_move : BattleshipMove; dm_by : Party }.

(** [src protocol/battleshipSelfPlay.ts openCellsFor] *)
Definition openCellsFor (s : BattleshipState) (shooter : Party) : list Z :=
  let fired := match shooter with PartyA => shotsAtB s | PartyB => shotsAtA s end in
  List.filter (fun cell => negb (fired_at fired cell)) all_cells.

(** [src protocol/battleshipSelfPlay.ts pickOpenCell] *)
Definition pickOpenCell (s : BattleshipState) (shooter : Party) (draw : nat -> nat) : option Z :=
  let open := openCellsFor s shooter in
  if (length open =? 0)%nat then None
  else Some (nth (Nat.min (length open - 1) (draw (length open))) open 0).

Definition secret_of (secrets : FleetSecret * FleetSecret) (p : Party) : FleetSecret :=
  match p with PartyA => fst secrets | PartyB => snd secrets end.

(** [src protocol/battleshipSelfPlay.ts nextMove] *)
Definition nextMove (s : BattleshipState) (secrets : FleetSecret * FleetSecret) (draw : nat -> nat)
  : option DrivenMove :=
  match phase s with
  | Over => None
  | AwaitingCommits =>
      match commitA s, commitB s with
      | None, _ => Some {| dm_by := PartyA; dm_move := Commit (fs_commitment (fst secrets)) |}
      | _, None => Some {| dm_by := PartyB; dm_move := Commit (fs_commitment (snd secrets)) |}
      | _, _ => None
      end
  | RevealBoards =>
      if negb (revealedA s)
      then Some {| dm_by := PartyA; dm_move := RevealBoard (fs_board (fst secrets)) (fs_salt (fst secrets)) |}
      else if negb (revealedB s)
      then Some {| dm_by := PartyB; dm_move := RevealBoard (fs_board (snd secrets)) (fs_salt (snd secrets)) |}
      else None
  | Playing =>
      match pendingShot s with
      | Some pending =>
          let defender := otherParty (shot_by pending) in
          if is_ship (fs_board (secret_of secrets defender)) (target pending)
          then Some {| dm_by := defender; dm_move := Answer true None |}
          else
            Some {| dm_by := defender;
                    dm_move := match pickOpenCell s defender draw with
                               | None => Answer false None
                               | Some n => Answer false (Some (JsInt n))
                               end |}
      | None =>
          match pickOpenCell s (turn s) draw with
          | None => None
          | Some cell => Some {| dm_by := turn s; dm_move := Shoot (JsInt cell) |}
          end
      end
  end.

(** [src protocol/battleshipSelfPlay.ts playToCompletion]: [rng i] is the draw of
    the [i]-th move from the end. *)
Fixpoint playToCompletion (maxMoves : nat) (s : BattleshipState) (secrets : FleetSecret * FleetSecret)
    (rng : nat -> nat -> nat) : result BattleshipState :=
  match maxMoves with
  | O => Throw (Error "game did not terminate within maxMoves")
  | S n =>
      match nextMove s secrets (rng n) with
      | None => Ok s
      | Some driven =>
          let! s' := applyMove s (dm_move driven) (dm_by driven) in
          playToCompletion n s' secrets rng
      end
  end.

End WithCrypto.
