(* ===== verification/BattleshipGame.v ===== *)
(** Battleship games: the invariant of a game, what a settled game guarantees,
    and that self-play between committed fleets always finishes. *)
From S2P Require Import Prelude.
From S2P Require Import Bytes.
From S2P Require Import Wire.
From S2P Require Import Crypto.
From S2P Require Import Commitment.
From S2P Require Import Protocol.
From S2P Require Import BattleshipFleet.
From S2P Require Import BattleshipLegal.
From S2P Require Import Battleship.

(** * Shots *)

Definition count_hits (shots : list BattleshipShotResult) : Z :=
  Z.of_nat (length (filter (fun x => isHit x = true) shots)).

Definition cells_of (shots : list BattleshipShotResult) : list Z := map shot_cell shots.

(** Distinct cells of the board, with the number of hits among them. *)
Definition shots_ok (shots : list BattleshipShotResult) (hits : Z) : Prop :=
  NoDup (cells_of shots) /\ Forall cell_ok (cells_of shots) /\ hits = count_hits shots.

(** Every answer is what the board says. *)
Definition honest (board : bytes) (shots : list BattleshipShotResult) : Prop :=
  Forall (fun x => isHit x = is_ship board (shot_cell x)) shots.

Lemma fired_at_spec shots c : fired_at shots c = true <-> c ∈ cells_of shots.
Proof.
  unfold fired_at, cells_of. rewrite existsb_exists, list_elem_of_fmap. setoid_rewrite Z.eqb_eq.
  setoid_rewrite <- list_elem_of_In. naive_solver.
Qed.

Lemma fired_at_false shots c : fired_at shots c = false <-> c ∉ cells_of shots.
Proof. rewrite <- fired_at_spec. by destruct (fired_at shots c). Qed.

Lemma count_hits_snoc shots c hit :
  count_hits (shots ++ [{| shot_cell := c; isHit := hit |}]) = count_hits shots + (if hit then 1 else 0).
Proof.
  unfold count_hits. rewrite filter_app, length_app, filter_cons, filter_nil. destruct hit; simpl; lia.
Qed.

Lemma shots_ok_snoc shots hits c hit :
  shots_ok shots hits -> cell_ok c -> c ∉ cells_of shots ->
  shots_ok (shots ++ [{| shot_cell := c; isHit := hit |}]) (if hit then hits + 1 else hits).
Proof.
  intros (Hnd & Hok & ->) Hc Hn. unfold shots_ok, cells_of in *. rewrite map_app, count_hits_snoc. split_and!.
  - apply NoDup_app. split_and!; [done| |apply NoDup_singleton].
    intros d Hd ->%list_elem_of_singleton. done.
  - apply Forall_app. split; [done|]. by constructor.
  - destruct hit; lia.
Qed.

Lemma shots_bound shots hits : shots_ok shots hits -> (length shots <= 100)%nat.
Proof.
  intros (Hnd & Hok & _). rewrite <- length_all_cells. unfold cells_of in *. rewrite <- (length_map shot_cell).
  apply NoDup_incl_length; [by apply NoDup_ListNoDup|].
  intros c Hc%list_elem_of_In. apply list_elem_of_In, elem_of_all_cells.
  rewrite Forall_forall in Hok. auto.
Qed.

(** Nobody can be hit more often than a legal board has ship cells. *)
Lemma honest_hits board shots hits :
  isLegalBoard board = Ok true -> shots_ok shots hits -> honest board shots -> 0 <= hits <= FLEET_CELLS.
Proof.
  intros Hlegal (Hnd & Hok & ->) Hh. unfold count_hits. split; [lia|].
  assert (Hlen : length board = 100%nat).
  { unfold isLegalBoard in Hlegal. destruct (Z.eqb_spec (Z.of_nat (length board)) BATTLESHIP_CELL_COUNT) as [E|]; [|done].
    change BATTLESHIP_CELL_COUNT with 100 in E. lia. }
  apply accepted_fleet in Hlegal as (_ & css & Hruns & _ & Hcov); [|done].
  assert (Z.of_nat (length (concat css)) = FLEET_CELLS) as <-.
  { rewrite sum_lens, (run_lens fleet_sizes css); [done| |done]. by apply Forall_forall. }
  apply inj_le. rewrite <- (length_map shot_cell).
  apply NoDup_incl_length.
  - apply NoDup_ListNoDup. unfold cells_of in Hnd. eapply sublist_NoDup; [exact Hnd|].
    apply fmap_sublist, sublist_filter.
  - intros c Hc%list_elem_of_In. apply list_elem_of_fmap in Hc as (x & -> & (Hhit & Hx)%list_elem_of_filter).
    apply list_elem_of_In, Hcov. unfold honest in Hh. rewrite Forall_forall in Hh. rewrite (Hh x Hx) in Hhit.
    unfold is_ship in Hhit. unfold ship_at. apply Z.eqb_eq in Hhit. by rewrite Hhit.
Qed.

(** * The invariant of a game *)

(** The side with more hits on the other's board wins. *)
Definition verdict (hitsA hitsB : Z) : Z :=
  if hitsA <? hitsB then 1 else if hitsB <? hitsA then 2 else 0.

(** What a result does to the deposits. *)
Definition payout (w st : Z) : Z := if w =? 1 then st else if w =? 2 then - st else 0.

Definition hitsOn (s : BattleshipState) (p : Party) : Z :=
  match p with PartyA => hitsOnA s | PartyB => hitsOnB s end.
Definition revealed (s : BattleshipState) (p : Party) : bool :=
  match p with PartyA => revealedA s | PartyB => revealedB s end.

Section WithCrypto.
Context `{C : Crypto}.

(** The board [p] committed to was shown, is legal and agrees with every answer. *)
Definition board_shown (s : BattleshipState) (p : Party) : Prop :=
  exists h board salt, commitFor s p = Some h /\ verifyCommitment h board salt = Ok true /\
    isLegalBoard board = Ok true /\ honest board (shotsAt s p).

(** What the phase says of the rest of the state. *)
Definition phase_ok (s : BattleshipState) : Prop :=
  match phase s with
  | AwaitingCommits =>
      (commitA s = None \/ commitB s = None) /\ pendingShot s = None /\ shotsAtA s = [] /\ shotsAtB s = [] /\
      revealedA s = false /\ revealedB s = false /\ winner s = 0
  | Playing =>
      is_Some (commitA s) /\ is_Some (commitB s) /\ revealedA s = false /\ revealedB s = false /\ winner s = 0 /\
      match pendingShot s with
      | None => openCells s (turn s) <> 0
      | Some q => shot_by q = turn s /\ cell_ok (target q) /\
                  target q ∉ cells_of (shotsAt s (otherParty (turn s)))
      end
  | RevealBoards =>
      is_Some (commitA s) /\ is_Some (commitB s) /\ (revealedA s = false \/ revealedB s = false) /\ winner s = 0 /\
      forall p, revealed s p = true -> board_shown s p
  | Over =>
      (winner s = 0 \/ winner s = 1 \/ winner s = 2) /\ forall p, revealed s p = true -> board_shown s p
  end.

Record ledger_ok (a0 b0 st : Z) (s : BattleshipState) : Prop := {
  g_stake : stake s = st;
  g_total : total s = a0 + b0;
  g_balA : balanceA s = a0 + payout (winner s) st;
  g_balB : balanceB s = b0 - payout (winner s) st;
  g_shots : forall p, shots_ok (shotsAt s p) (hitsOn s p)
}.

Definition game_ok (a0 b0 st : Z) (s : BattleshipState) : Prop := ledger_ok a0 b0 st s /\ phase_ok s.

(** What ends a game. *)
Definition ended (m : BattleshipMove) (by_ : Party) (s' : BattleshipState) : Prop :=
  phase s' = Over ->
  (m = Resign /\ winner s' = match by_ with PartyA => 2 | PartyB => 1 end) \/
  (revealedA s' = true /\ revealedB s' = true /\ winner s' = verdict (hitsOnA s') (hitsOnB s')).

Lemma assertShootable_ok s p n c :
  assertShootable s p n = Ok c -> n = JsInt c /\ cell_ok c /\ c ∉ cells_of (shotsAt s (otherParty p)).
Proof.
  unfold assertShootable, cell_ok. destruct n as [z|]; [|done]. intros H. inv_ok. bool_to_prop.
  rewrite <- fired_at_false. split_and!; [done|lia..|done].
Qed.

Lemma record_shots s d c hit p :
  shotsAt (record_shot s d c hit) p =
    if party_eqb p d then shotsAt s p ++ [{| shot_cell := c; isHit := hit |}] else shotsAt s p.
Proof. by destruct d, p. Qed.

Lemma record_hits s d c hit p :
  hitsOn (record_shot s d c hit) p = if party_eqb p d && hit then hitsOn s p + 1 else hitsOn s p.
Proof. by destruct d, p, hit. Qed.

Lemma record_shots_ok s d c hit :
  (forall p, shots_ok (shotsAt s p) (hitsOn s p)) -> cell_ok c -> c ∉ cells_of (shotsAt s d) ->
  forall p, shots_ok (shotsAt (record_shot s d c hit) p) (hitsOn (record_shot s d c hit) p).
Proof.
  intros Hsh Hc Hn p. rewrite record_shots, record_hits. destruct (party_eqb p d) eqn:E; [|apply Hsh].
  party_cases. cbn [andb]. by apply shots_ok_snoc.
Qed.

(** The next state of an answer: the shot is recorded, and the game goes on with
    a shot to fire or to answer, or with the reveals. *)
Lemma answer_cases s hit nextShot by_ s' :
  applyAnswer s hit nextShot by_ = Ok s' ->
  phase s = Playing /\ exists q, pendingShot s = Some q /\ by_ = otherParty (shot_by q) /\
    let next := record_shot s by_ (target q) hit in
    exists ph t pend, s' = with_turn next ph t pend /\
      ((ph = RevealBoards /\ pend = None) \/
       (ph = Playing /\ pend = None /\ openCells next t <> 0) \/
       (ph = Playing /\ exists c, pend = Some {| shot_by := t; target := c |} /\ cell_ok c /\
          c ∉ cells_of (shotsAt next (otherParty t)))).
Proof.
  unfold applyAnswer. intros E. destruct (pendingShot s) as [q|]; [|done]. inv_ok. bool_to_prop.
  party_cases. split; [done|]. exists q. split; [done|]. split; [done|]. cbv zeta in E |- *.
  set (next := record_shot _ _ _ _) in *. change (phase next) with (phase s) in E. rewrite E0 in E.
  destruct (FLEET_CELLS <=? _); [inv_ok; eauto 10|]. destruct hit.
  - inv_ok. destruct (Z.eqb_spec (openCells next (shot_by q)) 0); eauto 10.
  - destruct nextShot as [n|].
    + inv_ok. match goal with H : assertShootable _ _ _ = Ok _ |- _ => apply assertShootable_ok in H as (_ & ? & ?) end.
      eauto 12.
    + inv_ok. destruct (Z.eqb_spec (openCells next (otherParty (shot_by q))) 0); eauto 10.
Qed.

Lemma verdict_range hA hB : verdict hA hB = 0 \/ verdict hA hB = 1 \/ verdict hA hB = 2.
Proof. unfold verdict. repeat case_match; auto. Qed.

(** With at most seventeen hits each, [finalize] compares the hits. *)
Lemma finalize_verdict s :
  hitsOnA s <= FLEET_CELLS -> hitsOnB s <= FLEET_CELLS ->
  finalize s = settle s (verdict (hitsOnA s) (hitsOnB s)).
Proof.
  intros HA HB. unfold finalize, verdict. f_equal.
  destruct (Z.leb_spec FLEET_CELLS (hitsOnA s)), (Z.leb_spec FLEET_CELLS (hitsOnB s)); cbn [andb negb];
    repeat case_match; bool_to_prop; lia.
Qed.

Lemma settle_keeps s w :
  phase (settle s w) = Over /\ winner (settle s w) = w /\
  revealedA (settle s w) = revealedA s /\ revealedB (settle s w) = revealedB s /\
  hitsOnA (settle s w) = hitsOnA s /\ hitsOnB (settle s w) = hitsOnB s.
Proof. unfold settle. by destruct (if w =? 0 then _ else _). Qed.

Section Step.
Context (a0 b0 st : Z) (Hst : 0 <= st <= Z.min a0 b0).
Notation inv := (game_ok a0 b0 st).
Notation ledger := (ledger_ok a0 b0 st).

Lemma settle_balances s w :
  ledger s -> winner s = 0 -> w = 0 \/ w = 1 \/ w = 2 ->
  balanceA (settle s w) = a0 + payout w st /\ balanceB (settle s w) = b0 - payout w st.
Proof.
  intros H Hw Hcase. pose proof (g_balA _ _ _ _ H) as HA. pose proof (g_balB _ _ _ _ H) as HB.
  rewrite Hw in HA, HB. change (payout 0 st) with 0 in *.
  unfold settle, payout. rewrite HA, HB, (g_stake _ _ _ _ H).
  destruct Hcase as [-> |[-> | ->]]; cbn [Z.eqb Pos.eqb]; [simpl; lia|..];
    destruct (Z.ltb_spec st (b0 - 0)), (Z.ltb_spec st (a0 + 0)); simpl; lia.
Qed.

(** Settling keeps everything but the phase, the winner and the balances. *)
Lemma settle_inv s w :
  ledger s -> winner s = 0 -> w = 0 \/ w = 1 \/ w = 2 ->
  (forall p, revealed s p = true -> board_shown s p) -> inv (settle s w).
Proof.
  intros H Hw Hcase Hshown. destruct (settle_balances s w H Hw Hcase) as [EA EB].
  unfold settle in EA, EB |- *.
  destruct (if w =? 0 then _ else _) as [a b]. cbn [balanceA balanceB] in EA, EB. subst a b.
  destruct H as [Hs Ht _ _ Hsh]. split; [|split; [done|exact Hshown]]. split; [done..|exact Hsh].
Qed.

Lemma active_winner s : inv s -> phase s <> Over -> winner s = 0.
Proof.
  intros [_ Hph] Hp. unfold phase_ok in Hph.
  destruct (phase s); [| | |done]; tauto.
Qed.

Lemma shown_of_inv s p : inv s -> revealed s p = true -> board_shown s p.
Proof.
  intros [_ Hph] Hr. unfold phase_ok in Hph.
  destruct (phase s).
  - destruct p; cbn in Hr; naive_solver congruence.
  - destruct p; cbn in Hr; naive_solver congruence.
  - by apply Hph.
  - by apply Hph.
Qed.

Lemma commit_inv s c by_ s' : inv s -> applyCommit s c by_ = Ok s' -> inv s' /\ phase s' <> Over.
Proof.
  intros [[Hs Ht HA HB Hsh] Hph] E. unfold applyCommit in E. cbv zeta in E. inv_ok. bool_to_prop.
  unfold phase_ok in Hph. rewrite E0 in Hph. destruct Hph as (Hc & Hp & EA & EB & HrA & HrB & Hw).
  assert (Ho : forall t, 100 - Z.of_nat (length (shotsAt s (otherParty t))) <> 0)
    by (intros []; cbn; rewrite ?EA, ?EB; done).
  rewrite E0, Hp.
  destruct by_, (commitA s) eqn:CA, (commitB s) eqn:CB; try discriminate E3; (split; [|done]);
    (split; [done|]); unfold phase_ok; cbn; rewrite ?HrA, ?HrB, ?EA, ?EB; split_and!; try done; auto.
Qed.

Lemma shoot_inv s n by_ s' : inv s -> applyShoot s n by_ = Ok s' -> inv s' /\ phase s' <> Over.
Proof.
  intros [[Hs Ht HA HB Hsh] Hph] E. unfold applyShoot in E. inv_ok. bool_to_prop.
  destruct (pendingShot s) eqn:Ep; [done|]. inv_ok. bool_to_prop. party_cases.
  match goal with H : assertShootable _ _ _ = Ok _ |- _ => apply assertShootable_ok in H as (_ & Hok & Hn) end.
  unfold phase_ok in Hph. rewrite E0 in Hph.
  split; [|cbn; congruence]. split; [done|]. unfold phase_ok, with_turn; cbn. rewrite E0. cbn. tauto.
Qed.

Lemma answer_inv s hit nextShot by_ s' :
  inv s -> applyAnswer s hit nextShot by_ = Ok s' -> inv s' /\ phase s' <> Over.
Proof.
  intros [[Hs Ht HA HB Hsh] Hph] E.
  apply answer_cases in E as (Ep & q & Eq & -> & ph & t & pend & -> & Hcase).
  unfold phase_ok in Hph. rewrite Ep, Eq in Hph.
  destruct Hph as (HcA & HcB & HrA & HrB & Hw & Hby & Hok & Hn). rewrite Hby in *.
  pose proof (record_shots_ok s _ _ hit Hsh Hok Hn) as Hsh'.
  split; [|cbn; naive_solver].
  split; [by split|]. unfold phase_ok. cbn [phase with_turn].
  destruct Hcase as [(-> & ->)|[(-> & -> & Hop)|(-> & c & -> & Hc & Hcn)]]; cbn [with_turn pendingShot].
  - split_and!; try done; [by left|]. intros p Hr. destruct p; cbn in Hr; congruence.
  - by split_and!.
  - by split_and!.
Qed.

Lemma shown_hits s p : ledger s -> board_shown s p -> hitsOn s p <= FLEET_CELLS.
Proof.
  intros H (h & board & salt & _ & _ & Hlegal & Hh). by apply (honest_hits board (shotsAt s p)); [|apply H|].
Qed.

Lemma reveal_inv s board salt by_ s' :
  inv s -> applyRevealBoard s board salt by_ = Ok s' ->
  inv s' /\ ended (RevealBoard board salt) by_ s'.
Proof.
  intros H E. unfold applyRevealBoard in E. inv_ok. bool_to_prop.
  destruct (commitFor s by_) as [h|] eqn:Eh; [|done]. inv_ok. destruct a; [|done]. destruct a1; [|done].
  bool_to_prop. assert (Hhon : honest board (shotsAt s by_)).
  { apply Forall_forall. intros x Hx.
    match goal with H : forallb _ _ = true |- _ => rewrite forallb_forall in H; apply list_elem_of_In, H in Hx end. by apply eqb_prop in Hx. }
  set (next := with_revealed s by_) in *. cbv zeta in E.
  assert (Hshown : forall p, revealed next p = true -> board_shown next p).
  { intros p Hr. destruct (decide (p = by_)) as [->|Hne].
    - exists h, board, salt. split_and!; [by destruct by_|done|done|by destruct by_].
    - assert (revealed s p = true) as Hr' by (unfold next in Hr; by destruct p, by_).
      pose proof (shown_of_inv s p H Hr'). by destruct p. }
  destruct H as [Hl Hph]. unfold phase_ok in Hph. rewrite E0 in Hph.
  destruct Hph as (HcA & HcB & Hnot & Hw & _). assert (Hl' : ledger next) by (by destruct Hl).
  destruct (revealedA next && revealedB next) eqn:Eb; inv_ok; bool_to_prop.
  - assert (Hhits : forall p, hitsOn next p <= FLEET_CELLS).
    { intros p. apply shown_hits; [done|]. apply Hshown. by destruct p. }
    rewrite finalize_verdict by (exact (Hhits PartyA) || exact (Hhits PartyB)). split.
    + by apply settle_inv; [..|apply verdict_range|].
    + intros _. right. destruct (settle_keeps next (verdict (hitsOnA next) (hitsOnB next))) as (_ & -> & -> & -> & -> & ->).
      done.
  - split; [|intros Hp; cbn in Hp; congruence]. split; [done|]. unfold phase_ok. cbn [phase next with_revealed].
    rewrite E0. split_and!; try done.
Qed.

Lemma applyMove_inv s m by_ s' : inv s -> applyMove s m by_ = Ok s' -> inv s' /\ ended m by_ s'.
Proof.
  intros H E. unfold applyMove in E. inv_ok. bool_to_prop. destruct m.
  - apply commit_inv in E as [? ?]; [|done]. split; [done|]. by intros ?.
  - apply shoot_inv in E as [? ?]; [|done]. split; [done|]. by intros ?.
  - apply answer_inv in E as [? ?]; [|done]. split; [done|]. by intros ?.
  - by apply (reveal_inv s).
  - inv_ok. split.
    + apply settle_inv; [apply H|done|destruct by_; auto|]. intros p. by apply shown_of_inv.
    + intros _. left. split; [done|]. apply settle_keeps.
Qed.

End Step.

(** A game from deposits [a0] and [b0] with the stake clamped to them. *)
Definition stake_of (defaultStake : Z) (ctx : ProtocolContext) : Z :=
  Z.min defaultStake (Z.min (bal_a (initialBalances ctx)) (bal_b (initialBalances ctx))).

Definition game_of (defaultStake : Z) (ctx : ProtocolContext) : BattleshipState -> Prop :=
  game_ok (bal_a (initialBalances ctx)) (bal_b (initialBalances ctx)) (stake_of defaultStake ctx).

Lemma stake_of_range ds ctx :
  0 <= ds -> lockable (initialBalances ctx) ->
  0 <= stake_of ds ctx <= Z.min (bal_a (initialBalances ctx)) (bal_b (initialBalances ctx)).
Proof. intros Hd (HA & HB & _). unfold stake_of. lia. Qed.

Lemma initial_game ds ctx : 0 <= ds -> lockable (initialBalances ctx) -> game_of ds ctx (initialState ds ctx).
Proof.
  intros Hd (HA & HB & _). unfold game_of, stake_of, initialState. split.
  - split; cbn [stake total balanceA balanceB winner].
    + destruct (Z.ltb_spec (bal_a (initialBalances ctx)) (bal_b (initialBalances ctx)));
        case_match; bool_to_prop; lia.
    + done.
    + unfold payout; simpl; lia.
    + unfold payout; simpl; lia.
    + intros []; split_and!; cbn; try done; apply NoDup_nil_2.
  - cbn. split_and!; auto.
Qed.

Lemma run_game ds ctx ms s s' :
  0 <= ds -> lockable (initialBalances ctx) -> game_of ds ctx s ->
  run (BattleshipProtocol ds) s ms = Ok s' -> game_of ds ctx s'.
Proof.
  intros Hd Hl H Hrun. eapply rfold_invariant; [|exact H|exact Hrun].
  intros s1 [m by_] s2 H1 E. 
  exact (proj1 (applyMove_inv _ _ _ (stake_of_range ds ctx Hd Hl) s1 m by_ s2 H1 E)).
Qed.

(** A board as the code renders one: water is 0 and a ship cell is 1. *)
Definition rendered (board : bytes) : Prop := Forall (fun x => x = 0 \/ x = 1) board.

(** The reveal of [p]: a board that opens the commitment and is a legal fleet, with a
    hit recorded at exactly the shots whose cell holds the byte 1.  On a rendered
    board these are the shots at the ships of the fleet. *)
Definition board_opened (s : BattleshipState) (p : Party) : Prop :=
  exists h board salt, commitFor s p = Some h /\ verifyCommitment h board salt = Ok true /\
    isLegalBoard board = Ok true /\
    Forall (fun x => isHit x = is_ship board (shot_cell x)) (shotsAt s p) /\
    (rendered board -> Forall (fun x => isHit x = ship_at board (shot_cell x)) (shotsAt s p)).

Lemma rendered_ship board c : rendered board -> is_ship board c = ship_at board c.
Proof.
  intros H. unfold is_ship, ship_at, at_cell. destruct (c <? 0); [done|].
  destruct (nth_in_or_default (Z.to_nat c) board 0) as [Hin| ->]; [|done].
  unfold rendered in H. rewrite Forall_forall in H. apply list_elem_of_In in Hin.
  by destruct (H _ Hin) as [-> | ->].
Qed.

Lemma shown_opened s p : board_shown s p -> board_opened s p.
Proof.
  intros (h & board & slt & Hc & Hv & Hl & Hh). exists h, board, slt.
  assert (Forall (fun x => isHit x = is_ship board (shot_cell x)) (shotsAt s p)) as Ha.
  { unfold honest in Hh. eapply Forall_impl; [exact Hh|]. intros x Hx. by rewrite Hx. }
  split_and!; [done..|]. intros Hr. eapply Forall_impl; [exact Ha|].
  intros x ->. by apply rendered_ship.
Qed.

(** C18: what a finished game of battleship guarantees.  Whatever was played from
    an opened tunnel, the deposits are shifted by exactly the stake to the winner
    (not at all in a draw or before the end).  When the game is over, either the
    last move was a resignation, and the other party won, or both boards were
    opened against the commitments made before the first shot and are legal
    fleets, a hit was answered at exactly the shots whose cell of the board is the
    byte 1, each board took at most seventeen hits, and the party that hit more
    often won.  On a board of zeroes and ones every answer is thus the truth about
    the fleet; the reveal does not refuse other boards, on which a party can deny
    every hit ([unsinkable_fleet_accepted]). *)
Theorem battleship_verdict ds ctx ms s :
  0 <= ds -> lockable (initialBalances ctx) ->
  run (BattleshipProtocol ds) (initialState ds ctx) ms = Ok s ->
  balanceA s = bal_a (initialBalances ctx) + payout (winner s) (stake_of ds ctx) /\
  balanceB s = bal_b (initialBalances ctx) - payout (winner s) (stake_of ds ctx) /\
  (phase s <> Over -> winner s = 0) /\
  (phase s = Over ->
   (exists p, last ms = Some (Resign, p) /\ winner s = match p with PartyA => 2 | PartyB => 1 end) \/
   ((forall p, board_opened s p /\ hitsOn s p = count_hits (shotsAt s p) /\ hitsOn s p <= FLEET_CELLS) /\
    winner s = verdict (hitsOnA s) (hitsOnB s))).
Proof.
  intros Hd Hl Hrun. pose proof (initial_game ds ctx Hd Hl) as H0. pose proof (stake_of_range ds ctx Hd Hl) as Hst.
  pose proof (run_game ds ctx ms _ s Hd Hl H0 Hrun) as H.
  split; [apply H|]. split; [apply H|]. split; [intros Hp; by apply (active_winner _ _ _ Hst s H)|]. intros Hover.
  destruct (rev_ind (fun ms => ms = [] \/ exists ms' mp, ms = ms' ++ [mp]) (or_introl eq_refl)
    (fun mp ms' _ => or_intror (ex_intro _ ms' (ex_intro _ mp eq_refl))) ms) as [-> |(ms' & [m p] & ->)].
  { apply Ok_inj in Hrun. subst s. done. }
  unfold run in Hrun. rewrite rfold_app in Hrun. apply rbind_ok in Hrun as (s1 & Hrun & E).
  cbn [rfold] in E. apply rbind_ok in E as (s2 & E & E2). apply Ok_inj in E2. subst s2.
  pose proof (run_game ds ctx ms' _ s1 Hd Hl H0 Hrun) as H1.
  destruct (proj2 (applyMove_inv _ _ _ Hst s1 m p s H1 E) Hover) as [(-> & Hw)|(HrA & HrB & Hw)].
  - left. exists p. by rewrite last_snoc.
  - right. split; [|done]. intros q.
    assert (board_shown s q) as Hs by (apply (shown_of_inv _ _ _ Hst s q H); by destruct q).
    split; [by apply shown_opened|]. split; [apply (g_shots _ _ _ _ (proj1 H) q)|].
    by apply (shown_hits _ _ _ _ _ (proj1 H)).
Qed.

(** * Self-play *)

Lemma computed_opens v slt c : computeCommitment v slt = Ok c -> verifyCommitment c v slt = Ok true.
Proof.
  intros H. unfold computeCommitment, hashCommitment in H. inv_ok. apply verifyCommitment_true. eauto.
Qed.

Lemma open_cells_for s p : openCellsFor s p = open_list s p.
Proof. by destruct p. Qed.

(** The driver finds a cell exactly when one is open, and it can be shot. *)
Lemma pickOpenCell_some s p draw hits c :
  shots_ok (shotsAt s (otherParty p)) hits -> pickOpenCell s p draw = Some c ->
  cell_ok c /\ c ∉ cells_of (shotsAt s (otherParty p)).
Proof.
  intros _ H. unfold pickOpenCell in H. rewrite open_cells_for in H.
  destruct (length (open_list s p) =? 0)%nat eqn:E; [done|]. bool_to_prop. simplify_eq.
  set (i := Nat.min _ _).
  assert (In (nth i (open_list s p) 0) (open_list s p)) as Hin by (apply nth_In; lia).
  unfold open_list in Hin at 2. apply List.filter_In in Hin as [Hin Hf]. apply negb_true_iff in Hf.
  apply list_elem_of_In, elem_of_all_cells in Hin. by apply fired_at_false in Hf.
Qed.

Lemma pickOpenCell_none s p draw hits :
  shots_ok (shotsAt s (otherParty p)) hits -> pickOpenCell s p draw = None -> openCells s p = 0.
Proof.
  intros Hok H. unfold pickOpenCell in H. rewrite open_cells_for in H.
  destruct (length (open_list s p) =? 0)%nat eqn:E; [|done]. bool_to_prop.
  pose proof (shots_bound _ _ Hok) as Hle.
  assert (100 <= length (shotsAt s (otherParty p)))%nat.
  { rewrite <- length_all_cells, <- (length_map shot_cell (shotsAt s (otherParty p))).
    apply NoDup_incl_length; [apply NoDup_ListNoDup, NoDup_all_cells|].
    intros c Hc. apply list_elem_of_In. change (c ∈ cells_of (shotsAt s (otherParty p))).
    apply fired_at_spec. destruct (fired_at _ c) eqn:Ef; [done|]. exfalso.
    assert (In c (open_list s p)) as Hin by (apply List.filter_In; by rewrite Ef).
    destruct (open_list s p); [by apply in_nil in Hin|done]. }
  unfold openCells. change BATTLESHIP_CELL_COUNT with 100. lia.
Qed.

Lemma shootable s p c :
  cell_ok c -> c ∉ cells_of (shotsAt s (otherParty p)) -> assertShootable s p (JsInt c) = Ok c.
Proof.
  intros [H1 H2] Hn. unfold assertShootable.
  rewrite (proj2 (orb_false_iff _ _)) by (split; [by apply Z.ltb_ge|by apply Z.leb_gt]).
  apply fired_at_false in Hn. by rewrite Hn.
Qed.

(** Shots still to come, in moves. *)
Definition moves_left (s : BattleshipState) : nat :=
  match phase s with
  | AwaitingCommits => 405 + (if commitA s then 0 else 1) + (if commitB s then 0 else 1)
  | Playing => 2 * (200 - length (shotsAtA s) - length (shotsAtB s)) + 3 + (if pendingShot s then 0 else 1)
  | RevealBoards => (if revealedA s then 0 else 1) + (if revealedB s then 0 else 1)
  | Over => 0
  end.

Section Driver.
Context `{!CryptoLaws C} (a0 b0 st : Z) (Hst : 0 <= st <= Z.min a0 b0).
Context (secrets : FleetSecret * FleetSecret).
Notation inv := (game_ok a0 b0 st).

(** A committed legal fleet. *)
Definition secret_ok (f : FleetSecret) : Prop :=
  computeCommitment (fs_board f) (fs_salt f) = Ok (fs_commitment f) /\ isLegalBoard (fs_board f) = Ok true.
Context (Hsecrets : forall p, secret_ok (secret_of secrets p)).

(** The game was played with these fleets. *)
Definition driven (s : BattleshipState) : Prop :=
  forall p, (forall h, commitFor s p = Some h -> h = fs_commitment (secret_of secrets p)) /\
    honest (fs_board (secret_of secrets p)) (shotsAt s p).

Lemma commitment_length p : length (fs_commitment (secret_of secrets p)) = COMMIT_BYTES.
Proof.
  destruct (Hsecrets p) as [H _]. unfold computeCommitment, hashCommitment in H. inv_ok. rewrite <- H.
  apply blake2b_length.
Qed.

(** The driver's move is accepted and brings the end nearer. *)
Definition advances (s : BattleshipState) (d : DrivenMove) : Prop :=
  exists s', applyMove s (dm_move d) (dm_by d) = Ok s' /\ driven s' /\ (moves_left s' < moves_left s)%nat.

Lemma drive_commit s draw :
  inv s -> driven s -> phase s = AwaitingCommits -> exists d, nextMove s secrets draw = Some d /\ advances s d.
Proof.
  intros [_ Hph] Hd Ep. unfold phase_ok in Hph. rewrite Ep in Hph. destruct Hph as (Hc & Hp & EA & EB & HrA & HrB & Hw).
  pose proof (commitment_length PartyA) as HlA. pose proof (commitment_length PartyB) as HlB. cbn in HlA, HlB.
  unfold nextMove. rewrite Ep. destruct (commitA s) as [cA|] eqn:CA; [destruct (commitB s) as [cB|] eqn:CB; [by destruct Hc|]|];
    (eexists; split; [reflexivity|]); unfold advances, applyMove, applyCommit; cbn [dm_move dm_by];
    rewrite Ep, Hw, CA, ?CB, ?HlA, ?HlB; cbn [bool_decide decide_rel negb orb Z.eqb]; cbn.
  - eexists. split; [reflexivity|]. split.
    + intros p. destruct (Hd p) as [Hcp Hh]. split; [|by destruct p].
      intros h Hh'. destruct p; cbn in Hh' |- *; [apply Hcp; cbn; congruence|congruence].
    + unfold moves_left. rewrite Ep, CA, CB. cbn. rewrite EA, EB, Hp. cbn. lia.
  - destruct (commitB s) as [cB|] eqn:CB; cbn; (eexists; split; [reflexivity|]); (split;
      [intros p; destruct (Hd p) as [Hcp Hh]; (split; [|by destruct p]);
       intros h Hh'; destruct p; cbn in Hh' |- *; [congruence|apply Hcp; cbn; congruence]|]);
      unfold moves_left; rewrite Ep, CA, CB; cbn; rewrite ?Ep, ?EA, ?EB, ?Hp; cbn; lia.
Qed.

(** A fired shot changes nothing but the pending shot. *)
Lemma drive_shoot s draw :
  inv s -> driven s -> phase s = Playing -> pendingShot s = None ->
  exists d, nextMove s secrets draw = Some d /\ advances s d.
Proof.
  intros [Hl Hph] Hd Ep Eq. unfold phase_ok in Hph. rewrite Ep, Eq in Hph.
  destruct Hph as (_ & _ & _ & _ & Hw & Ho). unfold nextMove. rewrite Ep, Eq.
  pose proof (g_shots _ _ _ _ Hl (otherParty (turn s))) as Hsh.
  destruct (pickOpenCell s (turn s) draw) as [c|] eqn:E; [|by apply (pickOpenCell_none _ _ _ _ Hsh) in E].
  apply (pickOpenCell_some _ _ _ _ _ Hsh) in E as [Hc Hn]. eexists. split; [reflexivity|].
  unfold advances, applyMove, applyShoot; cbn [dm_move dm_by].
  rewrite Ep, Hw, Eq, party_eqb_refl, shootable by done. cbn. eexists. split; [reflexivity|]. split; [exact Hd|].
  unfold moves_left. cbn. rewrite Ep, Eq. cbn. lia.
Qed.

(** A recorded answer is honest when it is what the board says. *)
Lemma record_driven s d c ph t pend :
  driven s -> driven (with_turn (record_shot s d c (is_ship (fs_board (secret_of secrets d)) c)) ph t pend).
Proof.
  intros Hd p. destruct (Hd p) as [Hc Hh]. split; [exact Hc|].
  change (honest (fs_board (secret_of secrets p))
    (shotsAt (record_shot s d c (is_ship (fs_board (secret_of secrets d)) c)) p)).
  rewrite record_shots. destruct (party_eqb p d) eqn:E; [|done]. party_cases.
  apply Forall_app. split; [done|]. by constructor.
Qed.

Lemma record_moves_left s d c hit ph t pend :
  (forall p, shots_ok (shotsAt s p) (hitsOn s p)) -> c ∉ cells_of (shotsAt s d) -> cell_ok c ->
  phase s = Playing -> is_Some (pendingShot s) -> revealedA s = false -> revealedB s = false ->
  ph = Playing \/ ph = RevealBoards ->
  (moves_left (with_turn (record_shot s d c hit) ph t pend) < moves_left s)%nat.
Proof.
  intros Hsh Hn Hok Ep [q Eq] HrA HrB Hph.
  pose proof (record_shots_ok s d c hit Hsh Hok Hn) as Hsh'.
  pose proof (shots_bound _ _ (Hsh' PartyA)) as H1. pose proof (shots_bound _ _ (Hsh' PartyB)) as H2.
  unfold moves_left. rewrite Ep, Eq. cbn [phase with_turn].
  destruct Hph as [-> | ->]; cbn; rewrite ?HrA, ?HrB; cbn; [|lia].
  destruct d; cbn in H1, H2; rewrite length_app in *; cbn in *; destruct pend; lia.
Qed.

Lemma answer_accepted s q hit nextShot :
  phase s = Playing -> pendingShot s = Some q -> winner s = 0 ->
  (hit = true -> nextShot = None) ->
  (forall n, nextShot = Some n -> exists c, n = JsInt c /\ cell_ok c /\ c ∉ cells_of (shotsAt s (shot_by q))) ->
  is_ok (applyAnswer s hit nextShot (otherParty (shot_by q))) = true.
Proof.
  intros Ep Eq Hw Hhit Hnext. unfold applyAnswer. rewrite Eq, Ep, party_eqb_refl. cbn [negb bool_decide decide_rel].
  change (negb (bool_decide (Playing = Playing))) with false. cbv iota zeta.
  assert ((match nextShot with Some _ => true | None => false end && hit) = false) as ->.
  { destruct nextShot, hit; try done. by specialize (Hhit eq_refl). }
  destruct (FLEET_CELLS <=? _); [done|]. destruct hit; [done|]. destruct nextShot as [n|]; [|done].
  destruct (Hnext n eq_refl) as (c & -> & Hc & Hn). rewrite shootable; [done|done|].
  rewrite otherParty_involutive, record_shots.
  destruct (party_eqb (shot_by q) (otherParty (shot_by q))) eqn:E; [|done].
  apply party_eqb_spec in E. by destruct (otherParty_neq (shot_by q)).
Qed.

Lemma drive_answer s q draw :
  inv s -> driven s -> phase s = Playing -> pendingShot s = Some q ->
  exists d, nextMove s secrets draw = Some d /\ advances s d.
Proof.
  intros [Hl Hph] Hd Ep Eq. unfold phase_ok in Hph. rewrite Ep, Eq in Hph.
  destruct Hph as (_ & _ & HrA & HrB & Hw & Hby & Hok & Hn).
  pose proof (g_shots _ _ _ _ Hl) as Hsh. unfold nextMove. rewrite Ep, Eq. cbv zeta.
  set (def := otherParty (shot_by q)). set (hit := is_ship (fs_board (secret_of secrets def)) (target q)).
  assert (Hgo : forall nextShot, is_ok (applyAnswer s hit nextShot def) = true ->
    advances s {| dm_move := Answer hit nextShot; dm_by := def |}).
  { intros nextShot [s' E]%is_ok_exists. exists s'. cbn [dm_move dm_by]. unfold applyMove.
    rewrite Ep, Hw. cbn [orb negb Z.eqb]. change (bool_decide (Playing = Over)) with false. cbn [orb].
    split; [done|]. apply answer_cases in E as (_ & q' & Eq' & _ & ph & t & pend & -> & Hcase).
    rewrite Eq in Eq'. injection Eq' as <-. split; [by apply record_driven|].
    rewrite <- Hby in Hn. apply record_moves_left; first [done|by rewrite Eq|naive_solver]. }
  destruct hit eqn:Eh; eexists; (split; [reflexivity|]).
  - apply Hgo, answer_accepted; done.
  - destruct (pickOpenCell s def draw) as [c|] eqn:E; apply Hgo, answer_accepted; try done.
    intros n [= <-]. exists c. split; [done|].
    pose proof (Hsh (otherParty def)) as Hs. apply (pickOpenCell_some _ _ _ _ _ Hs) in E.
    unfold def in E. by rewrite otherParty_involutive in E.
Qed.

Lemma drive_reveal s draw :
  inv s -> driven s -> phase s = RevealBoards -> exists d, nextMove s secrets draw = Some d /\ advances s d.
Proof.
  intros [Hl Hph] Hd Ep. unfold phase_ok in Hph. rewrite Ep in Hph.
  destruct Hph as (HcA & HcB & Hnot & Hw & _). unfold nextMove. rewrite Ep.
  assert (Hgo : forall p, is_Some (commitFor s p) -> revealed s p = false ->
    advances s {| dm_by := p; dm_move := RevealBoard (fs_board (secret_of secrets p)) (fs_salt (secret_of secrets p)) |}).
  { intros p [h Eh] Hr. destruct (Hd p) as [Hc Hh], (Hsecrets p) as [Hcom Hlegal].
    unfold advances. cbn [dm_move dm_by]. unfold applyMove, applyRevealBoard. rewrite Ep, Hw.
    change (match p with PartyA => revealedA s | PartyB => revealedB s end) with (revealed s p). rewrite Hr, Eh.
    change (bool_decide (RevealBoards = Over) || negb (0 =? 0)) with false.
    change (negb (bool_decide (RevealBoards = RevealBoards))) with false. cbv iota.
    rewrite (Hc h Eh), (computed_opens _ _ _ Hcom), Hlegal. cbn [rbind negb].
    rewrite (proj2 (forallb_forall _ _)).
    2: { intros x Hx%list_elem_of_In. unfold honest in Hh. rewrite Forall_forall in Hh. rewrite (Hh x Hx).
         by apply eqb_true_iff. }
    cbn [negb]. cbv zeta.
    assert (Hleft : (moves_left (with_revealed s p) < moves_left s)%nat).
    { unfold moves_left. cbn [phase with_revealed]. rewrite Ep. destruct p; cbn in Hr |- *; rewrite Hr; cbn; lia. }
    destruct (revealedA (with_revealed s p) && revealedB (with_revealed s p)) eqn:Eb.
    - eexists. split; [reflexivity|]. unfold finalize. set (w := if _ && _ then _ else _).
      split.
      + unfold settle. by destruct (if w =? 0 then _ else _).
      + destruct (settle_keeps (with_revealed s p) w) as (Ho & _). unfold moves_left at 1. rewrite Ho.
        unfold moves_left. rewrite Ep. destruct p; cbn in Hr; rewrite Hr; cbn; lia.
    - eexists. split; [reflexivity|]. by split. }
  destruct (revealedA s) eqn:RA; cbn [negb].
  - destruct (revealedB s) eqn:RB; [by destruct Hnot|]. eexists. split; [reflexivity|]. by apply (Hgo PartyB).
  - eexists. split; [reflexivity|]. by apply (Hgo PartyA).
Qed.

Lemma drive s draw :
  inv s -> driven s ->
  phase s = Over /\ nextMove s secrets draw = None \/
  phase s <> Over /\ exists d, nextMove s secrets draw = Some d /\ advances s d.
Proof.
  intros Hi Hd. destruct (phase s) eqn:Ep.
  - right. split; [done|]. by apply drive_commit.
  - right. split; [done|]. destruct (pendingShot s) eqn:Eq; [by eapply drive_answer|by apply drive_shoot].
  - right. split; [done|]. by apply drive_reveal.
  - left. split; [done|]. unfold nextMove. by rewrite Ep.
Qed.

Lemma nextMove_plays s draw d : nextMove s secrets draw = Some d -> dm_move d <> Resign.
Proof. unfold nextMove. intros H. repeat case_match; simplify_eq; done. Qed.

(** Enough moves bring the game to its end, and to the verdict of the boards. *)
Lemma play_completes n s rng :
  inv s -> driven s -> (moves_left s < n)%nat ->
  exists s', playToCompletion n s secrets rng = Ok s' /\ inv s' /\ driven s' /\ phase s' = Over /\
    (phase s <> Over -> revealedA s' = true /\ revealedB s' = true /\
       winner s' = verdict (hitsOnA s') (hitsOnB s')).
Proof.
  revert s. induction n as [|n IH]; intros s Hi Hd Hn; [lia|]. cbn [playToCompletion].
  destruct (drive s (rng n) Hi Hd) as [[Ep ->]|(_ & d & En & s' & E & Hd' & Hlt)]; [by exists s|].
  rewrite En, E. cbn [rbind]. destruct (applyMove_inv _ _ _ Hst s _ _ s' Hi E) as [Hi' Hend].
  destruct (IH s' Hi' Hd' ltac:(lia)) as (s2 & E2 & Hi2 & Hd2 & Ho2 & Hv2).
  exists s2. split_and!; [done..|]. intros _.
  destruct (decide (phase s' = Over)) as [Ho|Ho]; [|by apply Hv2].
  destruct n as [|n]; [lia|]. cbn [playToCompletion] in E2.
  assert (nextMove s' secrets (rng n) = None) as En' by (unfold nextMove; by rewrite Ho).
  rewrite En' in E2. apply Ok_inj in E2 as <-.
  destruct (Hend Ho) as [[Hr _]|Hv]; [|done]. by apply nextMove_plays in En.
Qed.
End Driver.

(** C19: self-play always finishes.  Between two committed legal fleets, whatever
    cells the random numbers pick, every move of the driver is accepted and
    [playToCompletion] returns within 408 moves a game that is over: both boards
    were revealed, every recorded answer is what they say, a board's hits are
    counted from them, the party that hit more often is the winner (nobody if
    both hit as often), and the stake moved from the loser to the winner. *)
Theorem self_play_completes `{!CryptoLaws C} ds ctx secrets rng n :
  0 <= ds -> lockable (initialBalances ctx) -> (forall p, secret_ok (secret_of secrets p)) ->
  (408 <= n)%nat ->
  exists s, playToCompletion n (initialState ds ctx) secrets rng = Ok s /\ phase s = Over /\
    revealedA s = true /\ revealedB s = true /\
    (forall p, honest (fs_board (secret_of secrets p)) (shotsAt s p) /\
       hitsOn s p = count_hits (shotsAt s p)) /\
    winner s = (if hitsOnA s <? hitsOnB s then 1 else if hitsOnB s <? hitsOnA s then 2 else 0) /\
    balanceA s = bal_a (initialBalances ctx) + payout (winner s) (stake_of ds ctx) /\
    balanceB s = bal_b (initialBalances ctx) - payout (winner s) (stake_of ds ctx).
Proof.
  intros Hd Hl Hsec Hn. pose proof (initial_game ds ctx Hd Hl) as H0.
  destruct (play_completes _ _ _ (stake_of_range ds ctx Hd Hl) secrets Hsec n (initialState ds ctx) rng)
    as (s & E & [Hled _] & Hdr & Ho & Hv); [done| |cbn; lia|].
  - intros p. split; [by destruct p|by destruct p; constructor].
  - destruct (Hv ltac:(done)) as (HrA & HrB & Hw). exists s.
    split_and!; [done..| |done|apply Hled|apply Hled].
    intros p. split; [apply Hdr|apply (g_shots _ _ _ _ Hled p)].
Qed.

End WithCrypto.

(** * Samples *)

Definition bs_ctx : ProtocolContext :=
  {| ctx_tunnelId := "0xB5"; initialBalances := {| bal_a := 300; bal_b := 200 |} |}.

Definition row_ship (id : string) (cell : Z) : Placement := {| p_id := id; p_cell := cell; orient := Hor |}.
Definition rows_fleet : list Placement :=
  [row_ship "carrier" 0; row_ship "battleship" 20; row_ship "cruiser" 40; row_ship "submarine" 60; row_ship "destroyer" 80].
Definition rows_board : bytes :=
  match placementsToBoard rows_fleet with Ok b => b | Throw _ => [] end.
Definition bs_salt (k : Z) : bytes := replicate 16 k.

Definition bs_secret (k : Z) : FleetSecret :=
  match makeFleetSecret (C := toy_crypto) rows_board (bs_salt k) with
  | Ok f => f
  | Throw _ => {| fs_board := []; fs_salt := []; fs_commitment := [] |}
  end.

Lemma bs_secret_ok k : k = 3 \/ k = 4 -> secret_ok (C := toy_crypto) (bs_secret k).
Proof. intros [-> | ->]; split; vm_compute; reflexivity. Qed.

Lemma self_play_completes_witness :
  exists s, playToCompletion (C := toy_crypto) 408 (initialState 100 bs_ctx) (bs_secret 3, bs_secret 4)
      (fun i n => i * 7)%nat = Ok s /\ phase s = Over /\
    winner s = (if hitsOnA s <? hitsOnB s then 1 else if hitsOnB s <? hitsOnA s then 2 else 0) /\
    balanceA s = 300 + payout (winner s) 100.
Proof.
  destruct (self_play_completes (C := toy_crypto) 100 bs_ctx (bs_secret 3, bs_secret 4) (fun i n => i * 7)%nat 408)
    as (s & E & Ho & _ & _ & _ & Hw & HA & _).
  - lia.
  - unfold lockable, sum_of; simpl; rewrite U64_MAX_eq; lia.
  - intros []; apply bs_secret_ok; auto.
  - lia.
  - exists s. split; [exact E|]. split; [exact Ho|]. split; [exact Hw|exact HA].
Defined.

(** A fleet whose ship cells are marked 2 instead of 1. *)
Definition twos_board : bytes := map (fun x => 2 * x) rows_board.
Definition ship_cells : list Z := List.filter (ship_at rows_board) all_cells.
Definition water_cells : list Z := List.filter (fun c => negb (ship_at rows_board c)) all_cells.

Definition commit_of (b salt : bytes) : bytes :=
  match computeCommitment (C := toy_crypto) b salt with Ok c => c | Throw _ => [] end.

(** [A] shoots at every ship cell of [B], who answers "miss" and shoots back at
    water; then [B] sinks [A]'s fleet, and both reveal. *)
Definition cheat_moves : list (BattleshipMove * Party) :=
  [(Commit (commit_of rows_board (bs_salt 3)), PartyA); (Commit (commit_of twos_board (bs_salt 4)), PartyB);
   (Shoot (JsInt (nth 0 ship_cells 0)), PartyA)] ++
  concat (map (fun i => [(Answer false (Some (JsInt (nth i water_cells 0))), PartyB);
                         (Answer false (Some (JsInt (nth (S i) ship_cells 0))), PartyA)]) (seq 0 16)) ++
  [(Answer false (Some (JsInt (nth 0 ship_cells 0))), PartyB); (Answer true None, PartyA)] ++
  concat (map (fun i => [(Shoot (JsInt (nth i ship_cells 0)), PartyB); (Answer true None, PartyA)]) (seq 1 16)) ++
  [(RevealBoard rows_board (bs_salt 3), PartyA); (RevealBoard twos_board (bs_salt 4), PartyB)].

Lemma cheat_facts :
  match run (BattleshipProtocol (C := toy_crypto) 100) (initialState 100 bs_ctx) cheat_moves with
  | Ok s => bool_decide (phase s = Over) && (winner s =? 2) && (hitsOnB s =? 0) &&
            bool_decide (map shot_cell (shotsAtB s) = List.filter (ship_at twos_board) all_cells) &&
            (balanceA s =? 200) && (balanceB s =? 300)
  | Throw _ => false
  end = true.
Proof. vm_compute. reflexivity. Qed.

(** A fair game: [A] shoots at every ship cell of [B], who answers "hit", and both
    reveal the boards they drew. *)
Definition fair_moves : list (BattleshipMove * Party) :=
  [(Commit (commit_of rows_board (bs_salt 3)), PartyA); (Commit (commit_of rows_board (bs_salt 4)), PartyB)] ++
  concat (map (fun c => [(Shoot (JsInt c), PartyA); (Answer true None, PartyB)]) ship_cells) ++
  [(RevealBoard rows_board (bs_salt 3), PartyA); (RevealBoard rows_board (bs_salt 4), PartyB)].

Lemma fair_facts :
  match run (BattleshipProtocol (C := toy_crypto) 100) (initialState 100 bs_ctx) fair_moves with
  | Ok s => bool_decide (phase s = Over) && (winner s =? 1) && (hitsOnB s =? 17)
  | Throw _ => false
  end = true.
Proof. vm_compute. reflexivity. Qed.

Lemma fair_last : exists q, last fair_moves = Some (RevealBoard rows_board (bs_salt 4), q).
Proof. exists PartyB. vm_compute. reflexivity. Qed.

Lemma battleship_verdict_witness :
  exists s, run (BattleshipProtocol (C := toy_crypto) 100) (initialState 100 bs_ctx) fair_moves = Ok s /\
    winner s = 1 /\ balanceA s = 300 + payout 1 (stake_of 100 bs_ctx) /\
    board_opened (C := toy_crypto) s PartyB /\ count_hits (shotsAtB s) = 17 /\
    winner s = verdict (hitsOnA s) (hitsOnB s).
Proof.
  pose proof fair_facts as F.
  destruct (run (BattleshipProtocol (C := toy_crypto) 100) (initialState 100 bs_ctx) fair_moves) as [s|] eqn:E;
    [|discriminate F].
  destruct (battleship_verdict (C := toy_crypto) 100 bs_ctx fair_moves s ltac:(lia)
    ltac:(unfold lockable, sum_of; simpl; rewrite U64_MAX_eq; lia) E) as (HA & _ & _ & Hend).
  clear E. bool_to_prop.
  match goal with H : winner s = 1 |- _ => rename H into Hw end.
  match goal with H : phase s = Over |- _ => rename H into Ho end.
  match goal with H : hitsOnB s = 17 |- _ => rename H into HB end.
  destruct (Hend Ho) as [(q & Hl & _)|[Hb Hv]].
  { destruct fair_last as [q' Hl']. rewrite Hl' in Hl. discriminate Hl. }
  destruct (Hb PartyB) as (Hopen & Hc & _). cbn [hitsOn shotsAt] in Hc. rewrite HB in Hc.
  exists s. split; [reflexivity|]. rewrite Hw in HA. split; [exact Hw|]. split; [exact HA|].
  split; [exact Hopen|]. split; [symmetry; exact Hc|exact Hv].
Defined.

(** The reveal does not catch a fleet whose ship cells are bytes other than
    1.  [isLegalBoard] takes every non-zero cell for a ship, while the check of
    the answers compares with 1: the party that committed such a board answers
    "miss" to shots at all seventeen of its ship cells, reveals, is accepted,
    and wins the stake unhit. *)
Theorem unsinkable_fleet_accepted :
  isLegalBoard twos_board = Ok true /\
  match run (BattleshipProtocol (C := toy_crypto) 100) (initialState 100 bs_ctx) cheat_moves with
  | Ok s => phase s = Over /\ winner s = 2 /\ hitsOnB s = 0 /\
            map shot_cell (shotsAtB s) = List.filter (ship_at twos_board) all_cells /\
            balanceA s = 200 /\ balanceB s = 300
  | Throw _ => False
  end.
Proof.
  split; [vm_compute; reflexivity|]. pose proof cheat_facts as F.
  destruct (run _ _ _) as [s|]; [|discriminate F]. bool_to_prop. split_and!; assumption.
Qed.
