(* ===== verification/QuantumPoker.v ===== *)
(** Quantum poker, heads-up poker on nine commit-reveal slots:
    [sui-tunnel-ts/src/protocol/quantumPoker.ts].

    The state of the source has its fields in pairs, [xA] and [xB]; here [x] is a
    field of the record [Seat] and the state has one seat per party.  [applyMove]
    works on a clone of the state, so an operation is a function that returns the
    new state or throws. *)
From stdpp Require Import sorting.
From S2P Require Import Prelude.
From S2P Require Import Bytes.
From S2P Require Import Wire.
From S2P Require Import Crypto.
From S2P Require Import Commitment.
From S2P Require Import Protocol.

(** [src protocol/quantumPoker.ts DOMAIN] *)
Definition DOMAIN : bytes := protocolDomain "quantum_poker.v2".
(** [src protocol/quantumPoker.ts ANTE] *)
Definition ANTE : Z := 50.
(** [src protocol/quantumPoker.ts DEFAULT_HAND_CAP] *)
Definition DEFAULT_HAND_CAP : Z := 1000.
(** [src protocol/quantumPoker.ts SLOT_COUNT] *)
Definition SLOT_COUNT : nat := 9.

(** [src protocol/quantumPoker.ts A_HOLE_SLOTS] *)
Definition A_HOLE_SLOTS : list Z := [0; 1].
(** [src protocol/quantumPoker.ts B_HOLE_SLOTS] *)
Definition B_HOLE_SLOTS : list Z := [2; 3].
(** [src protocol/quantumPoker.ts FLOP_SLOTS] *)
Definition FLOP_SLOTS : list Z := [4; 5; 6].
(** [src protocol/quantumPoker.ts TURN_SLOTS] *)
Definition TURN_SLOTS : list Z := [7].
(** [src protocol/quantumPoker.ts RIVER_SLOTS] *)
Definition RIVER_SLOTS : list Z := [8].

(** [src protocol/quantumPoker.ts:38-50 PokerPhase] *)
Inductive PokerPhase :=
  | CommitPhase | OpenPrivateHoles | PreflopBet | RevealFlop | FlopBet | RevealTurn | TurnBet
  | RevealRiver | RiverBet | Showdown | HandOver | Done.

#[export] Instance PokerPhase_eq_dec : EqDecision PokerPhase.
Proof. solve_decision. Defined.

(** [src protocol/quantumPoker.ts PokerWinner] *)
Inductive PokerWinner := WinBy (p : Party) | Tie.

(** [src protocol/quantumPoker.ts SlotReveal] *)
Record SlotReveal := { value : bytes; salt : bytes }.

Inductive Reason := ByShowdown | ByFold.

(** [src protocol/quantumPoker.ts PokerHandResult] *)
Record PokerHandResult := {
  r_winner : PokerWinner;
  reason : Reason;
  scoreA : option Z;
  scoreB : option Z;
  bestA : option (list Z);
  bestB : option (list Z);
  burnedA : list Z;
  burnedB : list Z
}.

(** [src protocol/quantumPoker.ts PokerState]: what each party has. *)
Record Seat := {
  commit : option (list bytes);
  reveals : list (option SlotReveal);
  localSecrets : option (list (option SlotReveal));
  hole : option (list Z);
  totalBet : Z;
  streetBet : Z;
  acted : bool;
  shown : bool;
  shownHole : option (list Z);
  balance : Z
}.

(** [src protocol/quantumPoker.ts PokerState] *)
Record PokerState := {
  phase : PokerPhase;
  handNo : Z;
  handCap : Z;
  seatA : Seat;
  seatB : Seat;
  board : list Z;
  boardSlots : list Z;
  boardCounters : list Z;
  toAct : Party;
  foldedBy : option Party;
  winner : option PokerWinner;
  lastResult : option PokerHandResult;
  total : Z
}.

(** [src protocol/quantumPoker.ts:117-133 PokerMove] *)
Inductive PokerMove :=
  | CommitSlots (commitments : list bytes) (secrets : option (list SlotReveal))
  | RevealSlots (slots : list jsnum) (rs : list SlotReveal)
  | BetMove (amount : Z)
  | Check_
  | Call_
  | Fold_
  | Forfeit
  | NextHand.

(** [src protocol/quantumPoker.ts PHASE_CODE] *)
Definition PHASE_CODE (p : PokerPhase) : Z :=
  match p with
  | CommitPhase => 0 | OpenPrivateHoles => 1 | PreflopBet => 2 | RevealFlop => 3 | FlopBet => 4
  | RevealTurn => 5 | TurnBet => 6 | RevealRiver => 7 | RiverBet => 8 | Showdown => 9
  | HandOver => 10 | Done => 11
  end.

(** * Access and update *)

Definition seat (s : PokerState) (p : Party) : Seat := match p with PartyA => seatA s | PartyB => seatB s end.

Definition set_seat (s : PokerState) (p : Party) (x : Seat) : PokerState :=
  {| phase := phase s; handNo := handNo s; handCap := handCap s;
     seatA := match p with PartyA => x | PartyB => seatA s end;
     seatB := match p with PartyB => x | PartyA => seatB s end;
     board := board s; boardSlots := boardSlots s; boardCounters := boardCounters s;
     toAct := toAct s; foldedBy := foldedBy s; winner := winner s; lastResult := lastResult s; total := total s |}.

Definition set_phase (s : PokerState) (ph : PokerPhase) : PokerState :=
  {| phase := ph; handNo := handNo s; handCap := handCap s; seatA := seatA s; seatB := seatB s;
     board := board s; boardSlots := boardSlots s; boardCounters := boardCounters s;
     toAct := toAct s; foldedBy := foldedBy s; winner := winner s; lastResult := lastResult s; total := total s |}.

Definition set_toAct (s : PokerState) (p : Party) : PokerState :=
  {| phase := phase s; handNo := handNo s; handCap := handCap s; seatA := seatA s; seatB := seatB s;
     board := board s; boardSlots := boardSlots s; boardCounters := boardCounters s;
     toAct := p; foldedBy := foldedBy s; winner := winner s; lastResult := lastResult s; total := total s |}.

Definition set_folded (s : PokerState) (p : Party) : PokerState :=
  {| phase := phase s; handNo := handNo s; handCap := handCap s; seatA := seatA s; seatB := seatB s;
     board := board s; boardSlots := boardSlots s; boardCounters := boardCounters s;
     toAct := toAct s; foldedBy := Some p; winner := winner s; lastResult := lastResult s; total := total s |}.

Definition set_board (s : PokerState) (b sl cs : list Z) : PokerState :=
  {| phase := phase s; handNo := handNo s; handCap := handCap s; seatA := seatA s; seatB := seatB s;
     board := b; boardSlots := sl; boardCounters := cs;
     toAct := toAct s; foldedBy := foldedBy s; winner := winner s; lastResult := lastResult s; total := total s |}.

Definition set_result (s : PokerState) (w : PokerWinner) (r : PokerHandResult) : PokerState :=
  {| phase := HandOver; handNo := handNo s; handCap := handCap s; seatA := seatA s; seatB := seatB s;
     board := board s; boardSlots := boardSlots s; boardCounters := boardCounters s;
     toAct := toAct s; foldedBy := foldedBy s; winner := Some w; lastResult := Some r; total := total s |}.

Definition with_commit (x : Seat) (c : list bytes) (sec : option (list (option SlotReveal))) : Seat :=
  {| commit := Some c; reveals := reveals x;
     localSecrets := match sec with Some l => Some l | None => localSecrets x end;
     hole := hole x; totalBet := totalBet x; streetBet := streetBet x; acted := acted x; shown := shown x;
     shownHole := shownHole x; balance := balance x |}.

Definition with_reveals (x : Seat) (rs : list (option SlotReveal)) : Seat :=
  {| commit := commit x; reveals := rs; localSecrets := localSecrets x; hole := hole x; totalBet := totalBet x;
     streetBet := streetBet x; acted := acted x; shown := shown x; shownHole := shownHole x; balance := balance x |}.

Definition with_hole (x : Seat) (h : option (list Z)) : Seat :=
  {| commit := commit x; reveals := reveals x; localSecrets := localSecrets x; hole := h; totalBet := totalBet x;
     streetBet := streetBet x; acted := acted x; shown := shown x; shownHole := shownHole x; balance := balance x |}.

Definition with_bets (x : Seat) (t st : Z) (a : bool) : Seat :=
  {| commit := commit x; reveals := reveals x; localSecrets := localSecrets x; hole := hole x; totalBet := t;
     streetBet := st; acted := a; shown := shown x; shownHole := shownHole x; balance := balance x |}.

Definition with_shown (x : Seat) (h : list Z) : Seat :=
  {| commit := commit x; reveals := reveals x; localSecrets := localSecrets x; hole := hole x; totalBet := totalBet x;
     streetBet := streetBet x; acted := acted x; shown := true; shownHole := Some h; balance := balance x |}.

Definition with_balance (x : Seat) (b : Z) : Seat :=
  {| commit := commit x; reveals := reveals x; localSecrets := localSecrets x; hole := hole x; totalBet := totalBet x;
     streetBet := streetBet x; acted := acted x; shown := shown x; shownHole := shownHole x; balance := b |}.

(** [src protocol/quantumPoker.ts emptyRevealSlots] *)
Definition emptyRevealSlots : list (option SlotReveal) := replicate SLOT_COUNT None.

(** [src protocol/quantumPoker.ts assertSlot] *)
Definition assertSlot (slot : jsnum) : result Z :=
  match slot with
  | JsNonInt => Throw (Error "invalid slot")
  | JsInt z =>
      throw_if (z <? 0) || (Z.of_nat SLOT_COUNT <=? z) with Error "invalid slot" ;
      Ok z
  end.

(** [src protocol/quantumPoker.ts sameNumberSet]: the second list holds integers;
    a number that is not one equals none of them. *)
Definition sameNumberSet (a : list jsnum) (b : list Z) : bool :=
  if negb (length a =? length b)%nat then false
  else
    match mapM (fun n => match n with JsInt z => Some z | JsNonInt => None end) a with
    | None => false
    | Some zs => bool_decide (merge_sort Z.le zs = merge_sort Z.le b)
    end.

(** [src protocol/quantumPoker.ts validateCommitments] *)
Definition validateCommitments (commitments : list bytes) : result (list bytes) :=
  throw_if negb (length commitments =? SLOT_COUNT)%nat with Error "expected 9 slot commitments" ;
  rmap (fun c => throw_if negb (length c =? 32)%nat with Error "commitment must be 32 bytes" ; Ok c) commitments.

(** [src protocol/quantumPoker.ts revealArrayFor] *)
Definition revealArrayFor (s : PokerState) (p : Party) : list (option SlotReveal) := reveals (seat s p).
(** [src protocol/quantumPoker.ts localSecretArrayFor] *)
Definition localSecretArrayFor (s : PokerState) (p : Party) : option (list (option SlotReveal)) :=
  localSecrets (seat s p).
(** [src protocol/quantumPoker.ts commitArrayFor] *)
Definition commitArrayFor (s : PokerState) (p : Party) : option (list bytes) := commit (seat s p).

(** [reveals[slot]]: a missing element is as falsy as [null]. *)
Definition reveal_at (rs : list (option SlotReveal)) (slot : Z) : option SlotReveal :=
  nth (Z.to_nat slot) rs None.

(** [src protocol/quantumPoker.ts hasRevealed] *)
Definition hasRevealed (s : PokerState) (p : Party) (slots : list Z) : bool :=
  forallb (fun slot => bool_decide (is_Some (reveal_at (revealArrayFor s p) slot))) slots.

Definition own_holes (p : Party) : list Z := match p with PartyA => A_HOLE_SLOTS | PartyB => B_HOLE_SLOTS end.

(** [src protocol/quantumPoker.ts expectedQuantumPokerRevealSlots] *)
Definition expectedQuantumPokerRevealSlots (s : PokerState) (by_ : Party) : result (list Z) :=
  let revealIfMissing (slots : list Z) :=
    List.filter (fun slot => negb (bool_decide (is_Some (reveal_at (revealArrayFor s by_) slot)))) slots in
  match phase s with
  | OpenPrivateHoles => Ok (revealIfMissing (own_holes (otherParty by_)))
  | RevealFlop => Ok (revealIfMissing FLOP_SLOTS)
  | RevealTurn => Ok (revealIfMissing TURN_SLOTS)
  | RevealRiver => Ok (revealIfMissing RIVER_SLOTS)
  | Showdown => Ok (revealIfMissing (own_holes by_))
  | _ => Throw (Error "no slot reveal legal in phase")
  end.

(** * Encoding *)

(** [src protocol/quantumPoker.ts encodeBytes] *)
Definition encodeBytes (b : option bytes) : result (list bytes) :=
  let b := default [] b in
  let! n := u64ToBeBytes (Z.of_nat (length b)) in
  Ok [n; b].

(** [src protocol/quantumPoker.ts encodeByteList] *)
Definition encodeByteList (items : option (list bytes)) : result (list bytes) :=
  let items := default [] items in
  let! n := u64ToBeBytes (Z.of_nat (length items)) in
  let! out := rmap (fun i => encodeBytes (Some i)) items in
  Ok (n :: concat out).

(** [src protocol/quantumPoker.ts encodeCards] *)
Definition encodeCards (cards : option (list Z)) : result (list bytes) :=
  encodeBytes (Some (match cards with Some cs => u8_from cs | None => [] end)).

(** [src protocol/quantumPoker.ts encodeNumbers] *)
Definition encodeNumbers (nums : list Z) : result (list bytes) :=
  let! n := u64ToBeBytes (Z.of_nat (length nums)) in
  let! out := rmap u64ToBeBytes nums in
  Ok (n :: out).

(** [src protocol/quantumPoker.ts encodeRevealSlots] *)
Definition encodeRevealSlots (slots : list (option SlotReveal)) : result (list bytes) :=
  let! n := u64ToBeBytes (Z.of_nat (length slots)) in
  let! out := rmap (fun r =>
    match r with
    | None => Ok [u8_from [0]]
    | Some r =>
        let! v := encodeBytes (Some (value r)) in
        let! st := encodeBytes (Some (salt r)) in
        Ok (u8_from [1] :: v ++ st)
    end) slots in
  Ok (n :: concat out).

(** [src protocol/quantumPoker.ts winnerCode] *)
Definition winnerCode (w : option PokerWinner) : Z :=
  match w with Some (WinBy PartyA) => 1 | Some (WinBy PartyB) => 2 | Some Tie => 3 | None => 0 end.

(** [src protocol/quantumPoker.ts scoreToU64] *)
Definition scoreToU64 (score : option Z) : result bytes := u64ToBeBytes (default 0 score).

(** * The evaluator *)

(** [src protocol/quantumPoker.ts BestHand] *)
Record BestHand := { score : Z; cards : list Z }.

(** [src protocol/quantumPoker.ts validateCards] *)
Definition validateCards (cs : list Z) : result unit :=
  throw_if existsb (fun c => (c <? 0) || (51 <? c)) cs with Error "card out of range 0..51" ;
  Ok tt.

(** The [k]-element sublists, in the order of nested loops over the indices. *)
Fixpoint choose {A} (k : nat) (xs : list A) : list (list A) :=
  match k, xs with
  | O, _ => [[]]
  | S _, [] => []
  | S k', x :: xs' => map (cons x) (choose k' xs') ++ choose k xs'
  end.

(** [src protocol/quantumPoker.ts combinations5] *)
Definition combinations5 (cs : list Z) : list (list Z) := choose 5 cs.

Definition count_of (r : Z) (ranks : list Z) : Z := Z.of_nat (length (filter (fun x => x = r) ranks)).

(** Order of the rank groups: larger counts first, then higher ranks. *)
Definition group_before (x y : Z * Z) : Prop :=
  fst y < fst x \/ (fst y = fst x /\ snd y <= snd x).

#[export] Instance group_before_dec : RelDecision group_before.
Proof. intros x y. unfold group_before. apply _. Defined.

Definition rank_groups (ranks : list Z) : list (Z * Z) :=
  merge_sort group_before (map (fun r => (count_of r ranks, r)) (remove_dups ranks)).

(** [src protocol/quantumPoker.ts:1175-1192 evaluate5]: the high card of a
    straight, if the ranks are one. *)
Definition straight_high (ranks : list Z) : option Z :=
  match merge_sort Z.ge (remove_dups ranks) with
  | [d0; d1; d2; d3; d4] =>
      if d0 - d4 =? 4 then Some d0
      else if (d0 =? 12) && (d1 =? 3) && (d2 =? 2) && (d3 =? 1) && (d4 =? 0) then Some 3
      else None
  | _ => None
  end.

(** [src protocol/quantumPoker.ts:1194-1204 evaluate5] *)
Definition hand_category (groups : list (Z * Z)) (straight flush : bool) : Z :=
  let g0 := fst (nth 0 groups (0, 0)) in
  let g1 := fst (nth 1 groups (0, 0)) in
  if g0 =? 5 then 9
  else if straight && flush then 8
  else if g0 =? 4 then 7
  else if (g0 =? 3) && (g1 =? 2) then 6
  else if flush then 5
  else if straight then 4
  else if g0 =? 3 then 3
  else if (g0 =? 2) && (g1 =? 2) then 2
  else if g0 =? 2 then 1
  else 0.

(** [src protocol/quantumPoker.ts evaluate5] *)
Definition evaluate5 (cs : list Z) : result Z :=
  throw_if negb (length cs =? 5)%nat with Error "evaluate5 needs exactly 5 cards" ;
  let! _ := validateCards cs in
  let ranks := merge_sort Z.ge (map (fun c => c mod 13) cs) in
  let suits := map (fun c => c / 13) cs in
  let flush := forallb (fun su => su =? nth 0 suits 0) suits in
  let groups := rank_groups ranks in
  let high := straight_high ranks in
  let category := hand_category groups (bool_decide (is_Some high)) flush in
  let tb := match high with Some h => [h] | None => map snd groups end in
  Ok (fold_left (fun sc i => sc * 13 + nth i tb 0) (seq 0 5) category).

(** [src protocol/quantumPoker.ts bestPokerHand] *)
Definition bestPokerHand (cs : list Z) : result BestHand :=
  throw_if (length cs <? 5)%nat with Error "bestPokerHand needs at least 5 cards" ;
  throw_if (7 <? length cs)%nat with Error "bestPokerHand supports at most 7 cards" ;
  let! _ := validateCards cs in
  let! best := rfold (fun best hand =>
    let! sc := evaluate5 hand in
    match best with
    | None => Ok (Some {| score := sc; cards := hand |})
    | Some b => if score b <? sc then Ok (Some {| score := sc; cards := hand |}) else Ok (Some b)
    end) None (combinations5 cs) in
  match best with
  | Some b => Ok b
  | None => Throw (TypeError "Cannot read properties of null")
  end.

(** * Betting *)

(** [src protocol/quantumPoker.ts QuantumPokerProtocol.contestedAmount] *)
Definition contestedAmount (s : PokerState) : Z :=
  if totalBet (seatA s) <? totalBet (seatB s) then totalBet (seatA s) else totalBet (seatB s).

(** [src protocol/quantumPoker.ts QuantumPokerProtocol.settle] *)
Definition settle (s : PokerState) (w : Party) (amount : Z) : PokerState :=
  let loserBal := balance (seat s (otherParty w)) in
  let moved := if amount <? loserBal then amount else loserBal in
  let s1 := set_seat s w (with_balance (seat s w) (balance (seat s w) + moved)) in
  set_seat s1 (otherParty w) (with_balance (seat s1 (otherParty w)) (balance (seat s1 (otherParty w)) - moved)).

(** [src protocol/quantumPoker.ts QuantumPokerProtocol.resolveFold]: [foldedBy!]
    is an assertion. *)
Definition resolveFold (s : PokerState) : result PokerState :=
  match foldedBy s with
  | None => Throw (TypeError "foldedBy is null")
  | Some f =>
      let w := otherParty f in
      let s1 := settle s w (contestedAmount s) in
      Ok (set_result s1 (WinBy w)
        {| r_winner := WinBy w; reason := ByFold; scoreA := None; scoreB := None;
           bestA := None; bestB := None; burnedA := []; burnedB := [] |})
  end.

(** [src protocol/quantumPoker.ts QuantumPokerProtocol.resolveShowdown] *)
Definition resolveShowdown (s : PokerState) : result PokerState :=
  match shownHole (seatA s), shownHole (seatB s) with
  | Some ha, Some hb =>
      let on_board (c : Z) := bool_decide (c ∈ board s) in
      let burned (h : list Z) := List.filter on_board h in
      let live (h : list Z) := List.filter (fun c => negb (on_board c)) h in
      let! ba := bestPokerHand (live ha ++ board s) in
      let! bb := bestPokerHand (live hb ++ board s) in
      let w := if score bb <? score ba then WinBy PartyA
               else if score ba <? score bb then WinBy PartyB else Tie in
      let s1 := match w with WinBy p => settle s p (contestedAmount s) | Tie => s end in
      Ok (set_result s1 w
        {| r_winner := w; reason := ByShowdown; scoreA := Some (score ba); scoreB := Some (score bb);
           bestA := Some (cards ba); bestB := Some (cards bb); burnedA := burned ha; burnedB := burned hb |})
  | _, _ => Throw (TypeError "Cannot read properties of null")
  end.

(** [src protocol/quantumPoker.ts QuantumPokerProtocol.beginStreet] *)
Definition beginStreet (s : PokerState) (ph : PokerPhase) : PokerState :=
  let a := seatA s in
  let b := seatB s in
  set_toAct (set_seat (set_seat (set_phase s ph) PartyA (with_bets a (totalBet a) 0 false))
                      PartyB (with_bets b (totalBet b) 0 false)) PartyA.

(** [src protocol/quantumPoker.ts QuantumPokerProtocol.availableFor] *)
Definition availableFor (s : PokerState) (by_ : Party) : Z :=
  let effectiveStack := if balance (seatA s) <? balance (seatB s) then balance (seatA s) else balance (seatB s) in
  let remaining := effectiveStack - totalBet (seat s by_) in
  if 0 <? remaining then remaining else 0.

(** [src protocol/quantumPoker.ts QuantumPokerProtocol.bettingClosed] *)
Definition bettingClosed (s : PokerState) : bool :=
  (availableFor s PartyA =? 0) || (availableFor s PartyB =? 0).

(** [src protocol/quantumPoker.ts QuantumPokerProtocol.advanceStreet] *)
Definition advanceStreet (s : PokerState) : result PokerState :=
  let next (ph : PokerPhase) := Ok (beginStreet s ph) in
  match phase s with
  | PreflopBet => next RevealFlop
  | FlopBet => next RevealTurn
  | TurnBet => next RevealRiver
  | RiverBet => next Showdown
  | _ => Throw (Error "cannot advance")
  end.

(** [src protocol/quantumPoker.ts QuantumPokerProtocol.afterBetAction] *)
Definition afterBetAction (s : PokerState) : result PokerState :=
  let equal := streetBet (seatA s) =? streetBet (seatB s) in
  if equal && acted (seatA s) && acted (seatB s) then advanceStreet s
  else Ok (set_toAct s (otherParty (toAct s))).

(** [src protocol/quantumPoker.ts QuantumPokerProtocol.markActed] *)
Definition markActed (s : PokerState) (by_ : Party) (a : bool) : PokerState :=
  let x := seat s by_ in set_seat s by_ (with_bets x (totalBet x) (streetBet x) a).

(** [src protocol/quantumPoker.ts:687-699 QuantumPokerProtocol] [setStreetBet] to
    [v] and [addTotalBet] of [amount] *)
Definition put_bet (s : PokerState) (by_ : Party) (v amount : Z) : PokerState :=
  let x := seat s by_ in set_seat s by_ (with_bets x (totalBet x + amount) v (acted x)).

(** [src protocol/quantumPoker.ts QuantumPokerProtocol.applyCheck] *)
Definition applyCheck (s : PokerState) (by_ : Party) : result PokerState :=
  let currentMax := if streetBet (seatB s) <? streetBet (seatA s) then streetBet (seatA s) else streetBet (seatB s) in
  throw_if negb (streetBet (seat s by_) =? currentMax) with Error "cannot check facing a bet" ;
  afterBetAction (markActed s by_ true).

(** [src protocol/quantumPoker.ts QuantumPokerProtocol.applyBetOrRaise] *)
Definition applyBetOrRaise (s : PokerState) (by_ : Party) (amount : Z) : result PokerState :=
  throw_if amount <=? 0 with Error "bet amount must be positive" ;
  let current := streetBet (seat s by_) in
  let other := streetBet (seat s (otherParty by_)) in
  let next := current + amount in
  throw_if next <=? other with Error "bet must raise above opponent" ;
  throw_if availableFor s by_ <? amount with Error "bet exceeds the effective stack" ;
  Ok (set_toAct (markActed (markActed (put_bet s by_ next amount) by_ true) (otherParty by_) false) (otherParty by_)).

(** [src protocol/quantumPoker.ts QuantumPokerProtocol.applyCall] *)
Definition applyCall (s : PokerState) (by_ : Party) : result PokerState :=
  let diff := streetBet (seat s (otherParty by_)) - streetBet (seat s by_) in
  throw_if diff <=? 0 with Error "nothing to call" ;
  throw_if availableFor s by_ <? diff with Error "call exceeds the effective stack" ;
  afterBetAction (markActed (put_bet s by_ (streetBet (seat s by_) + diff) diff) by_ true).

(** [src protocol/quantumPoker.ts QuantumPokerProtocol.applyBet] *)
Definition applyBet (s : PokerState) (move : PokerMove) (by_ : Party) : result PokerState :=
  throw_if negb (party_eqb (toAct s) by_) with Error "not your turn to act" ;
  match move with
  | Check_ => applyCheck s by_
  | BetMove amount => applyBetOrRaise s by_ amount
  | Call_ => applyCall s by_
  | Fold_ => resolveFold (set_folded s by_)
  | _ => Throw (Error "expected betting move")
  end.

(** [src protocol/quantumPoker.ts QuantumPokerProtocol.claimForfeit] *)
Definition claimForfeit (s : PokerState) (by_ : Party) : result PokerState :=
  let opp := otherParty by_ in
  match expectedQuantumPokerRevealSlots s by_, expectedQuantumPokerRevealSlots s opp with
  | Ok mineOwes, Ok oppOwes =>
      throw_if negb (length mineOwes =? 0)%nat with Error "forfeit not claimable: you still owe a reveal" ;
      throw_if (length oppOwes =? 0)%nat with Error "forfeit not claimable: opponent does not owe a reveal" ;
      resolveFold (set_folded s opp)
  | _, _ => Throw (Error "forfeit only valid during a pending reveal")
  end.

Definition fresh_seat (bal : Z) : Seat :=
  {| commit := None; reveals := emptyRevealSlots; localSecrets := None; hole := None; totalBet := 0; streetBet := 0;
     acted := false; shown := false; shownHole := None; balance := bal |}.

(** [src protocol/quantumPoker.ts QuantumPokerProtocol.resetHandFields] *)
Definition resetHandFields (s : PokerState) : PokerState :=
  {| phase := phase s; handNo := handNo s; handCap := handCap s;
     seatA := fresh_seat (balance (seatA s)); seatB := fresh_seat (balance (seatB s));
     board := []; boardSlots := []; boardCounters := []; toAct := PartyA; foldedBy := None;
     winner := None; lastResult := None; total := total s |}.

Definition set_handNo (s : PokerState) (n : Z) : PokerState :=
  {| phase := phase s; handNo := n; handCap := handCap s; seatA := seatA s; seatB := seatB s;
     board := board s; boardSlots := boardSlots s; boardCounters := boardCounters s;
     toAct := toAct s; foldedBy := foldedBy s; winner := winner s; lastResult := lastResult s; total := total s |}.

(** [src protocol/quantumPoker.ts QuantumPokerProtocol.balances] *)
Definition balances (s : PokerState) : Balances :=
  {| bal_a := balance (seatA s); bal_b := balance (seatB s) |}.

(** [src protocol/quantumPoker.ts QuantumPokerProtocol.isTerminal] *)
Definition isTerminal (s : PokerState) : bool := bool_decide (phase s = Done).

(** [src protocol/quantumPoker.ts QuantumPokerProtocol.encodeState] *)
Definition encodeState (s : PokerState) : result bytes :=
  let a := seatA s in
  let b := seatB s in
  let bit (x : bool) : Z := if x then 1 else 0 in
  let r := lastResult s in
  let flags := u8_from
    [match toAct s with PartyA => 0 | PartyB => 1 end; bit (acted a); bit (acted b);
     match foldedBy s with None => 0 | Some PartyA => 1 | Some PartyB => 2 end;
     bit (shown a); bit (shown b); winnerCode (winner s);
     match r with Some x => match reason x with ByFold => 1 | ByShowdown => 2 end | None => 0 end] in
  let! us := rmap u64ToBeBytes
    [handNo s; handCap s; balance a; balance b; totalBet a; totalBet b; streetBet a; streetBet b] in
  let! ca := encodeByteList (commit a) in
  let! cb := encodeByteList (commit b) in
  let! ra := encodeRevealSlots (reveals a) in
  let! rb := encodeRevealSlots (reveals b) in
  let! bd := encodeCards (Some (board s)) in
  let! bs := encodeNumbers (boardSlots s) in
  let! bc := encodeNumbers (boardCounters s) in
  let! sa := encodeCards (if shown a then shownHole a else None) in
  let! sb := encodeCards (if shown b then shownHole b else None) in
  let! xa := scoreToU64 (match r with Some x => scoreA x | None => None end) in
  let! xb := scoreToU64 (match r with Some x => scoreB x | None => None end) in
  let! ba := encodeCards (match r with Some x => bestA x | None => None end) in
  let! bb := encodeCards (match r with Some x => bestB x | None => None end) in
  let! ua := encodeCards (option_map burnedA r) in
  let! ub := encodeCards (option_map burnedB r) in
  concatBytes ([DOMAIN; u8_from [PHASE_CODE (phase s)]] ++ us ++ [flags] ++ ca ++ cb ++ ra ++ rb ++
               bd ++ bs ++ bc ++ sa ++ sb ++ [xa; xb] ++ ba ++ bb ++ ua ++ ub).

(** How often a board card is drawn again on a collision. *)
Definition BOARD_TRIES : nat := Z.to_nat 10000.

Section WithCrypto.
Context `{C : Crypto} (handCap0 ante : Z).

(** [src protocol/quantumPoker.ts QuantumPokerProtocol.initialState] *)
Definition initialState (ctx : ProtocolContext) : PokerState :=
  let a := bal_a (initialBalances ctx) in
  let b := bal_b (initialBalances ctx) in
  {| phase := if (ante <=? a) && (ante <=? b) then CommitPhase else Done;
     handNo := 0; handCap := handCap0; seatA := fresh_seat a; seatB := fresh_seat b;
     board := []; boardSlots := []; boardCounters := []; toAct := PartyA; foldedBy := None;
     winner := None; lastResult := None; total := a + b |}.

(** [src protocol/quantumPoker.ts commitSlotSecrets] *)
Definition commitSlotSecrets (secrets : list SlotReveal) : result (list bytes) :=
  throw_if negb (length secrets =? SLOT_COUNT)%nat with Error "expected 9 slot secrets" ;
  rmap (fun x => computeCommitment (value x) (salt x)) secrets.

(** [src protocol/quantumPoker.ts validateLocalSecretsForCommit] *)
Definition validateLocalSecretsForCommit (commitments : list bytes) (secrets : list SlotReveal)
  : result (list SlotReveal) :=
  throw_if negb (length secrets =? SLOT_COUNT)%nat with Error "expected 9 local slot secrets" ;
  let! expected := commitSlotSecrets secrets in
  throw_if negb (forallb (fun i => bytesEqual (nth i expected []) (nth i commitments [])) (seq 0 SLOT_COUNT))
    with Error "local secrets do not match commitments" ;
  Ok secrets.

(** [src protocol/quantumPoker.ts deriveQuantumCard] for an integer counter *)
Definition deriveQuantumCard (revealA revealB : SlotReveal) (counter : Z) : result Z :=
  throw_if counter <? 0 with Error "invalid card derivation counter" ;
  let! slotSeed := combineReveals (value revealA) (salt revealA) (value revealB) (salt revealB) in
  let! seedBytes :=
    if counter =? 0 then Ok slotSeed
    else let! n := u64ToBeBytes counter in
         let! d := concatBytes [slotSeed; n] in
         Ok (blake2b256 d) in
  Ok (fold_left (fun acc b => (acc * 256 + b) mod 52) seedBytes 0).

(** [src protocol/quantumPoker.ts QuantumPokerProtocol.revealForDerivation] *)
Definition revealForDerivation (s : PokerState) (p : Party) (slot : Z) (allowLocal : bool) : option SlotReveal :=
  match reveal_at (revealArrayFor s p) slot with
  | Some r => Some r
  | None => if allowLocal
            then match localSecretArrayFor s p with Some l => reveal_at l slot | None => None end
            else None
  end.

(** [src protocol/quantumPoker.ts QuantumPokerProtocol.deriveSlotCard]: [Ok None]
    is [null]. *)
Definition deriveSlotCard (s : PokerState) (slot counter : Z) (allowLocal : bool) : result (option Z) :=
  match revealForDerivation s PartyA slot allowLocal, revealForDerivation s PartyB slot allowLocal with
  | Some ra, Some rb => let! c := deriveQuantumCard ra rb counter in Ok (Some c)
  | _, _ => Ok None
  end.

(** [src protocol/quantumPoker.ts:633-637 QuantumPokerProtocol.deriveUniqueBoardCard]
    the loop; [n] tries are left. *)
Fixpoint unique_card (n : nat) (s : PokerState) (slot : Z) (used : list Z) (counter : Z) : result (Z * Z) :=
  match n with
  | O => Throw (Error "could not derive unique board card")
  | S n' =>
      let! card := deriveSlotCard s slot counter false in
      match card with
      | None => Throw (Error "board slot is not revealed")
      | Some c => if bool_decide (c ∈ used) then unique_card n' s slot used (counter + 1) else Ok (c, counter)
      end
  end.

(** [src protocol/quantumPoker.ts QuantumPokerProtocol.deriveUniqueBoardCard] *)
Definition deriveUniqueBoardCard (s : PokerState) (slot : Z) (used : list Z) : result (Z * Z) :=
  unique_card BOARD_TRIES s slot used 0.

(** [src protocol/quantumPoker.ts QuantumPokerProtocol.tryDeriveHoleCards]:
    [Ok None] is [null]. *)
Definition tryDeriveHoleCards (s : PokerState) (owner : Party) : result (option (list Z)) :=
  rfold (fun acc slot =>
    match acc with
    | None => Ok None
    | Some cs => let! card := deriveSlotCard s slot 0 true in
                 match card with None => Ok None | Some c => Ok (Some (cs ++ [c])) end
    end) (Some []) (own_holes owner).

(** [src protocol/quantumPoker.ts QuantumPokerProtocol.derivePublicHoleCards] *)
Definition derivePublicHoleCards (s : PokerState) (owner : Party) : result (list Z) :=
  rmap (fun slot =>
    let! card := deriveSlotCard s slot 0 false in
    match card with None => Throw (Error "hole slot not public") | Some c => Ok c end) (own_holes owner).

(** [src protocol/quantumPoker.ts QuantumPokerProtocol.postAntesAndBeginStreet] *)
Definition postAntesAndBeginStreet (s : PokerState) (ph : PokerPhase) : result PokerState :=
  throw_if (balance (seatA s) <? ante) || (balance (seatB s) <? ante) with Error "insufficient balance for ante" ;
  let post (x : Seat) := with_bets x ante (streetBet x) (acted x) in
  Ok (beginStreet (set_seat (set_seat s PartyA (post (seatA s))) PartyB (post (seatB s))) ph).

(** [src protocol/quantumPoker.ts:584-591 QuantumPokerProtocol.tryRevealBoardThenBet] the
    board cards of the slots; [used] is the board *)
Definition push_board (s : PokerState) (slots : list Z) : result PokerState :=
  rfold (fun s slot =>
    if bool_decide (slot ∈ boardSlots s) then Ok s
    else
      let! cc := deriveUniqueBoardCard s slot (board s) in
      Ok (set_board s (board s ++ [fst cc]) (boardSlots s ++ [slot]) (boardCounters s ++ [snd cc]))) s slots.

(** [src protocol/quantumPoker.ts QuantumPokerProtocol.tryRevealBoardThenBet] *)
Definition tryRevealBoardThenBet (s : PokerState) (slots : list Z) (nextPhase : PokerPhase) : result PokerState :=
  if negb (hasRevealed s PartyA slots) || negb (hasRevealed s PartyB slots) then Ok s
  else
    let! s1 := push_board s slots in
    if bettingClosed s1
    then Ok (set_phase s1 (match nextPhase with FlopBet => RevealTurn | TurnBet => RevealRiver | _ => Showdown end))
    else Ok (beginStreet s1 nextPhase).

(** [src protocol/quantumPoker.ts QuantumPokerProtocol.applyCommit] *)
Definition applyCommit (s : PokerState) (move : PokerMove) (by_ : Party) : result PokerState :=
  match move with
  | CommitSlots cs sec =>
      let! commitments := validateCommitments cs in
      let! secrets := match sec with
                      | Some l => let! l' := validateLocalSecretsForCommit commitments l in Ok (Some (map Some l'))
                      | None => Ok None
                      end in
      throw_if bool_decide (is_Some (commit (seat s by_))) with Error "already committed" ;
      let s1 := set_seat s by_ (with_commit (seat s by_) commitments secrets) in
      Ok (if bool_decide (is_Some (commit (seatA s1))) && bool_decide (is_Some (commit (seatB s1)))
          then set_phase s1 OpenPrivateHoles else s1)
  | _ => Throw (Error "expected commit_slots")
  end.

(** [src protocol/quantumPoker.ts:505-514 QuantumPokerProtocol.applyRevealSlots] one
    slot of the loop *)
Definition record_reveal (commits : list bytes) (target : list (option SlotReveal)) (sr : jsnum * SlotReveal)
  : result (list (option SlotReveal)) :=
  let! slot := assertSlot (fst sr) in
  throw_if bool_decide (is_Some (reveal_at target slot)) with Error "already revealed slot" ;
  let! ok := verifyCommitment (nth (Z.to_nat slot) commits []) (value (snd sr)) (salt (snd sr)) in
  throw_if negb ok with Error "slot reveal does not match commitment" ;
  Ok (<[Z.to_nat slot := Some (snd sr)]> target).

(** [src protocol/quantumPoker.ts:516-549 QuantumPokerProtocol.applyRevealSlots] after the
    reveals are recorded *)
Definition after_reveals (s : PokerState) : result PokerState :=
  match phase s with
  | OpenPrivateHoles =>
      if hasRevealed s PartyA B_HOLE_SLOTS && hasRevealed s PartyB A_HOLE_SLOTS then
        let! hA := tryDeriveHoleCards s PartyA in
        let s1 := set_seat s PartyA (with_hole (seatA s) hA) in
        let! hB := tryDeriveHoleCards s1 PartyB in
        let s2 := set_seat s1 PartyB (with_hole (seatB s1) hB) in
        postAntesAndBeginStreet s2 PreflopBet
      else Ok s
  | RevealFlop => tryRevealBoardThenBet s FLOP_SLOTS FlopBet
  | RevealTurn => tryRevealBoardThenBet s TURN_SLOTS TurnBet
  | RevealRiver => tryRevealBoardThenBet s RIVER_SLOTS RiverBet
  | Showdown =>
      if hasRevealed s PartyA A_HOLE_SLOTS && hasRevealed s PartyB B_HOLE_SLOTS then
        let! hA := derivePublicHoleCards s PartyA in
        let! hB := derivePublicHoleCards s PartyB in
        resolveShowdown (set_seat (set_seat s PartyA (with_shown (seatA s) hA)) PartyB (with_shown (seatB s) hB))
      else Ok s
  | _ => Ok s
  end.

(** [src protocol/quantumPoker.ts QuantumPokerProtocol.applyRevealSlots] *)
Definition applyRevealSlots (s : PokerState) (move : PokerMove) (by_ : Party) : result PokerState :=
  match move with
  | RevealSlots slots rs =>
      let! expected := expectedQuantumPokerRevealSlots s by_ in
      throw_if negb (sameNumberSet slots expected) with Error "expected other slots" ;
      throw_if negb (length rs =? length slots)%nat with Error "slots/reveals length mismatch" ;
      match commitArrayFor s by_ with
      | None => Throw (Error "has not committed")
      | Some commits =>
          let! target := rfold (record_reveal commits) (revealArrayFor s by_) (zip slots rs) in
          after_reveals (set_seat s by_ (with_reveals (seat s by_) target))
      end
  | _ => Throw (Error "expected reveal_slots")
  end.

(** [src protocol/quantumPoker.ts QuantumPokerProtocol.applyNextHand] *)
Definition applyNextHand (s : PokerState) (move : PokerMove) : result PokerState :=
  match move with
  | NextHand =>
      let s1 := set_handNo s (handNo s + 1) in
      let canContinue := (handNo s1 <? handCap s1) && (ante <=? balance (seatA s1)) && (ante <=? balance (seatB s1)) in
      Ok (set_phase (resetHandFields s1) (if canContinue then CommitPhase else Done))
  | _ => Throw (Error "expected next_hand")
  end.

(** [src protocol/quantumPoker.ts QuantumPokerProtocol.applyMove] *)
Definition applyMove (s : PokerState) (move : PokerMove) (by_ : Party) : result PokerState :=
  match move with
  | Forfeit => claimForfeit s by_
  | _ =>
      match phase s with
      | CommitPhase => applyCommit s move by_
      | OpenPrivateHoles | RevealFlop | RevealTurn | RevealRiver | Showdown => applyRevealSlots s move by_
      | PreflopBet | FlopBet | TurnBet | RiverBet => applyBet s move by_
      | HandOver => applyNextHand s move
      | Done => Throw (Error "no moves legal in phase")
      end
  end.

(** [src protocol/quantumPoker.ts:382-395 QuantumPokerProtocol] *)
Definition QuantumPokerProtocol : Protocol PokerState PokerMove :=
  {| movesCarrySecrets := true;
     Protocol.initialState := fun ctx => Ok (initialState ctx);
     Protocol.applyMove := applyMove;
     Protocol.encodeState := encodeState;
     Protocol.balances := balances;
     Protocol.isTerminal := isTerminal |}.

End WithCrypto.
