(* ===== verification/QuantumPokerEval.v ===== *)
(** The hand evaluator of quantum poker: the category of five cards is the
    highest description they meet, scores compare as category and tie-breaks do,
    and [bestPokerHand] finds the best five of up to seven cards. *)
From stdpp Require Import sorting fin_sets.
From S2P Require Import Prelude.
From S2P Require Import Bytes.
From S2P Require Import QuantumPoker.

Definition valid_card (c : Z) : Prop := 0 <= c <= 51.

Definition rank_of (c : Z) : Z := c mod 13.
Definition suit_of (c : Z) : Z := c / 13.

(** * What a hand is *)

(** [n] cards of one rank. *)
Definition of_kind (n : Z) (cs : list Z) : Prop := exists r, count_of r (map rank_of cs) = n.

Definition is_flush (cs : list Z) : Prop := exists su, Forall (fun c => suit_of c = su) cs.

(** Five ranks in a row up to [h]; the ace also counts below the deuce. *)
Definition is_straight (cs : list Z) (h : Z) : Prop :=
  map rank_of cs ≡ₚ [h; h - 1; h - 2; h - 3; h - 4] \/ (h = 3 /\ map rank_of cs ≡ₚ [12; 3; 2; 1; 0]).

(** The categories, and what five cards of each are. *)
Inductive describes (cs : list Z) : Z -> Prop :=
  | high_card : describes cs 0
  | one_pair : of_kind 2 cs -> describes cs 1
  | two_pair r1 r2 : r1 <> r2 -> count_of r1 (map rank_of cs) = 2 -> count_of r2 (map rank_of cs) = 2 -> describes cs 2
  | three_of_a_kind : of_kind 3 cs -> describes cs 3
  | straight h : is_straight cs h -> describes cs 4
  | flush : is_flush cs -> describes cs 5
  | full_house : of_kind 3 cs -> of_kind 2 cs -> describes cs 6
  | four_of_a_kind : of_kind 4 cs -> describes cs 7
  | straight_flush h : is_straight cs h -> is_flush cs -> describes cs 8
  | five_of_a_kind : of_kind 5 cs -> describes cs 9.

(** * The parts of the score *)

Definition ranks_of (cs : list Z) : list Z := merge_sort Z.ge (map rank_of cs).

Definition flush_of (cs : list Z) : bool :=
  let suits := map suit_of cs in forallb (fun su => su =? nth 0 suits 0) suits.

Definition category_of (cs : list Z) : Z :=
  hand_category (rank_groups (ranks_of cs)) (bool_decide (is_Some (straight_high (ranks_of cs)))) (flush_of cs).

Definition tie_breaks (cs : list Z) : list Z :=
  let tb := match straight_high (ranks_of cs) with Some h => [h] | None => map snd (rank_groups (ranks_of cs)) end in
  map (fun i => nth i tb 0) (seq 0 5).

Lemma validateCards_ok cs : Forall valid_card cs -> validateCards cs = Ok tt.
Proof.
  intros Hv. unfold validateCards. replace (existsb _ cs) with false; [done|].
  symmetry. apply not_true_iff_false. intros H. apply existsb_exists in H as (c & Hin & Hc). bool_to_prop.
  apply list_elem_of_In in Hin. rewrite Forall_forall in Hv. specialize (Hv c Hin). unfold valid_card in Hv. lia.
Qed.

Lemma evaluate5_parts cs :
  length cs = 5%nat -> Forall valid_card cs ->
  evaluate5 cs = Ok (fold_left (fun sc d => sc * 13 + d) (tie_breaks cs) (category_of cs)).
Proof.
  intros Hl Hv. unfold evaluate5. rewrite (proj2 (Nat.eqb_eq _ _) Hl). cbn [negb].
  by rewrite validateCards_ok.
Qed.

(** * Scores compare as category and tie-breaks *)

(** Lexicographic order. *)
Fixpoint lex_lt (xs ys : list Z) : Prop :=
  match xs, ys with
  | x :: xs', y :: ys' => x < y \/ (x = y /\ lex_lt xs' ys')
  | _, _ => False
  end.

Definition digit (d : Z) : Prop := 0 <= d < 13.

Lemma numeral_lex xs ys a b :
  length xs = length ys -> Forall digit xs -> Forall digit ys ->
  fold_left (fun sc d => sc * 13 + d) xs a < fold_left (fun sc d => sc * 13 + d) ys b <->
  a < b \/ (a = b /\ lex_lt xs ys).
Proof.
  revert ys a b. induction xs as [|x xs IH]; intros [|y ys] a b Hl Hx Hy; try done; cbn [fold_left lex_lt].
  - naive_solver lia.
  - apply Forall_cons in Hx as [Hx1 Hx], Hy as [Hy1 Hy]. rewrite IH by (try done; by injection Hl).
    unfold digit in *. split; [|naive_solver lia].
    intros [H|[H Hlex]]; [|right; split; [lia|right; split; [lia|done]]].
    destruct (decide (a < b)); [by left|]. right. split; lia.
Qed.

(** * Counting ranks *)

Lemma count_of_perm r xs ys : xs ≡ₚ ys -> count_of r xs = count_of r ys.
Proof. intros H. unfold count_of. by rewrite H. Qed.

Lemma count_of_cons r x xs : count_of r (x :: xs) = (if decide (x = r) then 1 else 0) + count_of r xs.
Proof. unfold count_of. rewrite filter_cons. destruct (decide (x = r)); cbn [length]; lia. Qed.

Lemma count_of_nonneg r xs : 0 <= count_of r xs.
Proof. unfold count_of. lia. Qed.

Lemma count_of_pos r xs : 0 < count_of r xs <-> r ∈ xs.
Proof.
  induction xs as [|x xs IH].
  - unfold count_of. cbn. split; [lia|by intros ?%not_elem_of_nil].
  - rewrite count_of_cons, elem_of_cons, <- IH. pose proof (count_of_nonneg r xs). case_decide; naive_solver lia.
Qed.

Lemma count_of_three r1 r2 r3 xs :
  r1 <> r2 -> r1 <> r3 -> r2 <> r3 -> count_of r1 xs + count_of r2 xs + count_of r3 xs <= Z.of_nat (length xs).
Proof.
  intros H1 H2 H3. induction xs as [|x xs IH]; [done|].
  rewrite !count_of_cons. cbn [length]. repeat case_decide; first [congruence|lia].
Qed.

Lemma count_of_two r1 r2 xs : r1 <> r2 -> count_of r1 xs + count_of r2 xs <= Z.of_nat (length xs).
Proof.
  intros H. set (r3 := Z.max r1 r2 + 1). pose proof (count_of_nonneg r3 xs).
  pose proof (count_of_three r1 r2 r3 xs H ltac:(lia) ltac:(lia)). lia.
Qed.

Lemma count_of_le r xs : count_of r xs <= Z.of_nat (length xs).
Proof. pose proof (count_of_two r (r + 1) xs ltac:(lia)). pose proof (count_of_nonneg (r + 1) xs). lia. Qed.

#[local] Instance group_before_trans : Transitive group_before.
Proof. intros [a b] [c d] [e f]. unfold group_before. cbn. lia. Qed.
#[local] Instance group_before_total : Total group_before.
Proof. intros [a b] [c d]. unfold group_before. cbn. lia. Qed.
#[local] Instance ge_total : Total Z.ge.
Proof. intros x y. lia. Qed.
#[local] Instance ge_trans : Transitive Z.ge.
Proof. intros x y z. lia. Qed.
#[local] Instance ge_antisymm : AntiSymm (=) Z.ge.
Proof. intros x y. lia. Qed.

Lemma rank_groups_perm xs : rank_groups xs ≡ₚ map (fun r => (count_of r xs, r)) (remove_dups xs).
Proof. apply merge_sort_Permutation. Qed.

Lemma rank_groups_elem xs n r : (n, r) ∈ rank_groups xs <-> r ∈ xs /\ n = count_of r xs.
Proof.
  rewrite rank_groups_perm, list_elem_of_fmap. setoid_rewrite elem_of_remove_dups. naive_solver.
Qed.

Lemma rank_groups_NoDup xs : NoDup (map snd (rank_groups xs)).
Proof.
  rewrite rank_groups_perm, map_map. cbn. rewrite map_id. apply NoDup_remove_dups.
Qed.

Definition top_count (xs : list Z) (i : nat) : Z := fst (nth i (rank_groups xs) (0, 0)).

(** The two largest counts of the ranks [xs]. *)
Record top_two (xs : list Z) (r0 g0 g1 : Z) : Prop := {
  t_first : count_of r0 xs = g0;
  t_others : forall r, r <> r0 -> count_of r xs <= g1;
  t_second : g1 = 0 \/ exists r1, r1 <> r0 /\ count_of r1 xs = g1;
  t_order : 0 <= g1 <= g0 /\ 1 <= g0
}.

Lemma top_counts xs : xs <> [] -> exists r0, top_two xs r0 (top_count xs 0) (top_count xs 1).
Proof.
  intros Hne. unfold top_count.
  pose proof (StronglySorted_merge_sort group_before (map (fun r => (count_of r xs, r)) (remove_dups xs))) as Hs.
  fold (rank_groups xs) in Hs. pose proof (rank_groups_elem xs) as Hel. pose proof (rank_groups_NoDup xs) as Hnd.
  destruct (rank_groups xs) as [|[n0 r0] gs] eqn:Eg.
  { destruct xs as [|x xs]; [done|]. destruct (Hel (count_of x (x :: xs)) x) as [_ H].
    exfalso. apply (not_elem_of_nil (count_of x (x :: xs), x)), H. split; [left|done]. }
  destruct (proj1 (Hel n0 r0) ltac:(left)) as [Hin0 ->]. apply count_of_pos in Hin0.
  apply StronglySorted_inv in Hs as [Hs Hall]. cbn in Hnd. apply NoDup_cons in Hnd as [Hn0 _].
  exists r0. cbn [nth fst].
  assert (Hin : forall r, r <> r0 -> r ∈ xs -> (count_of r xs, r) ∈ gs).
  { intros r Hr Hx. pose proof (proj2 (Hel (count_of r xs) r) (conj Hx eq_refl)) as [?|?]%elem_of_cons; [congruence|done]. }
  destruct gs as [|[n1 r1] gs].
  - split; cbn; [done| |by left|lia]. intros r Hr. destruct (decide (r ∈ xs)) as [Hx|Hx].
    + by apply Hin, not_elem_of_nil in Hx.
    + rewrite <- count_of_pos in Hx. lia.
  - destruct (proj1 (Hel n1 r1) ltac:(right; left)) as [Hin1 ->]. apply count_of_pos in Hin1.
    apply Forall_cons in Hall as [H01 _]. apply StronglySorted_inv in Hs as [_ Hall]. unfold group_before in *. cbn in *.
    split; [done| | |lia].
    + intros r Hr. destruct (decide (r ∈ xs)) as [Hx|Hx]; [|rewrite <- count_of_pos in Hx; lia].
      specialize (Hin r Hr Hx). apply elem_of_cons in Hin as [[= -> ->]|Hin]; [lia|].
      rewrite Forall_forall in Hall. specialize (Hall _ Hin). cbn in Hall. lia.
    + right. exists r1. split; [|done]. intros ->. apply Hn0. left.
Qed.

(** * Straights and flushes *)

Lemma ranks_of_perm cs : ranks_of cs ≡ₚ map rank_of cs.
Proof. apply merge_sort_Permutation. Qed.

Lemma sorted_desc (xs ys : list Z) : xs ≡ₚ ys -> StronglySorted Z.ge ys -> merge_sort Z.ge xs = ys.
Proof.
  intros Hp Hs. apply (StronglySorted_unique Z.ge); [exact (StronglySorted_merge_sort Z.ge xs)|done|].
  by rewrite merge_sort_Permutation.
Qed.

Lemma remove_dups_id (xs ys : list Z) : NoDup ys -> xs ≡ₚ ys -> remove_dups xs ≡ₚ ys.
Proof.
  intros Hn Hp. apply NoDup_Permutation; [apply NoDup_remove_dups|done|].
  intros x. by rewrite elem_of_remove_dups, Hp.
Qed.

Lemma remove_dups_length (xs : list Z) : length (remove_dups xs) = length xs -> remove_dups xs ≡ₚ xs.
Proof.
  intros Hl. apply submseteq_length_Permutation; [|lia].
  apply NoDup_submseteq; [apply NoDup_remove_dups|]. intros x. by rewrite elem_of_remove_dups.
Qed.

Ltac nodup_list :=
  repeat (apply NoDup_cons; split; [rewrite ?elem_of_cons, elem_of_nil; lia|]); apply NoDup_nil_2.

Lemma straight_high_spec cs h :
  length cs = 5%nat -> straight_high (ranks_of cs) = Some h <-> is_straight cs h.
Proof.
  intros Hl. pose proof (ranks_of_perm cs) as Hp. unfold straight_high, is_straight. split.
  - destruct (merge_sort Z.ge (remove_dups (ranks_of cs))) as [|d0 [|d1 [|d2 [|d3 [|d4 [|? ?]]]]]] eqn:Es; try done.
    pose proof (merge_sort_Permutation Z.ge (remove_dups (ranks_of cs))) as Hd. rewrite Es in Hd.
    pose proof (NoDup_remove_dups (ranks_of cs)) as Hn. rewrite <- Hd in Hn.
    pose proof (StronglySorted_merge_sort Z.ge (remove_dups (ranks_of cs))) as Hs. rewrite Es in Hs.
    rewrite remove_dups_length in Hd; [|rewrite <- Hd, Hp, length_map; cbn; lia].
    rewrite <- Hp, <- Hd.
    repeat match goal with
    | H : StronglySorted _ (_ :: _) |- _ => apply StronglySorted_inv in H as [? ?]
    | H : Forall _ (_ :: _) |- _ => apply Forall_cons in H as [? ?]
    | H : NoDup (_ :: _) |- _ => apply NoDup_cons in H as [? ?]
    | H : _ ∉ _ :: _ |- _ => apply not_elem_of_cons in H as [? ?]
    end.
    destruct (Z.eqb_spec (d0 - d4) 4).
    + intros [= <-]. left. replace d1 with (d0 - 1) by lia. replace d2 with (d0 - 2) by lia.
      replace d3 with (d0 - 3) by lia. by replace d4 with (d0 - 4) by lia.
    + destruct (_ && _) eqn:Ew; [|done]. intros [= <-]. right. bool_to_prop. by subst.
  - rewrite <- Hp. intros [H|[-> H]].
    + rewrite (sorted_desc _ [h; h - 1; h - 2; h - 3; h - 4]).
      * rewrite (proj2 (Z.eqb_eq _ _)); [done|lia].
      * apply remove_dups_id; [|done]. nodup_list.
      * repeat constructor; lia.
    + rewrite (sorted_desc _ [12; 3; 2; 1; 0]); [done| |repeat constructor; lia].
      apply remove_dups_id; [|done]. nodup_list.
Qed.

Lemma flush_of_spec cs : length cs = 5%nat -> flush_of cs = true <-> is_flush cs.
Proof.
  intros Hl. destruct cs as [|c cs]; [done|]. unfold flush_of, is_flush. cbn [map nth]. rewrite forallb_forall. split.
  - intros H. exists (suit_of c). apply Forall_forall. intros x Hx. apply Z.eqb_eq, H.
    apply list_elem_of_In in Hx. change (suit_of c :: map suit_of cs) with (map suit_of (c :: cs)). by apply in_map.
  - intros [su Hf] x Hx. change (suit_of c :: map suit_of cs) with (map suit_of (c :: cs)) in Hx.
    apply in_map_iff in Hx as (y & <- & Hy). apply list_elem_of_In in Hy.
    rewrite Forall_forall in Hf. apply Z.eqb_eq. rewrite !Hf; [done|left|done].
Qed.

(** * The category *)

(** The two largest counts decide the kinds. *)
Record kinds (cs : list Z) (g0 g1 : Z) : Prop := {
  kd_kind : forall n, of_kind n cs -> n = g0 \/ n <= g1 /\ n + g0 <= 5;
  kd_first : of_kind g0 cs;
  kd_second : g1 = 0 \/ of_kind g1 cs /\ g0 + g1 <= 5;
  kd_pairs : describes cs 2 <-> g0 = 2 /\ g1 = 2;
  kd_order : 0 <= g1 <= g0 /\ 1 <= g0 <= 5
}.

Lemma kinds_of cs :
  length cs = 5%nat -> kinds cs (top_count (ranks_of cs) 0) (top_count (ranks_of cs) 1).
Proof.
  intros Hl. pose proof (ranks_of_perm cs) as Hp.
  assert (Hc : forall r, count_of r (map rank_of cs) = count_of r (ranks_of cs)) by (intros r; by apply count_of_perm).
  assert (H5 : length (ranks_of cs) = 5%nat) by (by rewrite Hp, length_map).
  destruct (top_counts (ranks_of cs)) as [r0 [T0 T1 T2 T3]]; [by intros E; rewrite E in H5|].
  set (g0 := top_count (ranks_of cs) 0) in *. set (g1 := top_count (ranks_of cs) 1) in *. clearbody g0 g1.
  pose proof (count_of_le r0 (ranks_of cs)) as Hle. rewrite H5 in Hle.
  assert (Hkind : forall n, of_kind n cs -> n = g0 \/ n <= g1 /\ n + g0 <= 5).
  { intros n [r Hr]. rewrite Hc in Hr. destruct (decide (r = r0)) as [->|Hne]; [left; congruence|right].
    pose proof (T1 r Hne). pose proof (count_of_two r r0 (ranks_of cs) Hne). rewrite H5 in *. lia. }
  split; [done|exists r0; by rewrite Hc| | |lia].
  - destruct T2 as [?|(r1 & Hne & Hr1)]; [by left|right]. split; [exists r1; by rewrite Hc|].
    pose proof (count_of_two r1 r0 (ranks_of cs) Hne). rewrite H5 in *. lia.
  - split.
    + intros Hd. inversion Hd as [| |r1 r2 Hne E1 E2| | | | | | |].
      pose proof (Hkind 2 (ex_intro _ r1 E1)). rewrite Hc in E1, E2.
      destruct (decide (r1 = r0)) as [->|Hn1]; [pose proof (T1 r2 ltac:(congruence)); lia|].
      pose proof (T1 r1 Hn1). destruct (decide (r2 = r0)) as [->|Hn2]; [lia|].
      pose proof (count_of_three r1 r2 r0 (ranks_of cs) Hne Hn1 Hn2). rewrite H5 in *. lia.
    + intros [-> ->]. destruct T2 as [?|(r1 & Hne & Hr1)]; [done|]. apply (two_pair cs r1 r0); by rewrite ?Hc.
Qed.

Ltac split_eqb :=
  repeat match goal with
  | |- context [?a =? ?b] => destruct (Z.eqb_spec a b) as [->|]; cbn [andb]
  end.

(** From the counts and the two flags to the category. *)
Lemma hand_category_spec cs groups st fl :
  kinds cs (fst (nth 0 groups (0, 0))) (fst (nth 1 groups (0, 0))) ->
  (st = true <-> exists h, is_straight cs h) -> (fl = true <-> is_flush cs) ->
  describes cs (hand_category groups st fl) /\ (forall k, describes cs k -> k <= hand_category groups st fl).
Proof.
  unfold hand_category. set (g0 := fst (nth 0 groups (0, 0))). set (g1 := fst (nth 1 groups (0, 0))). clearbody g0 g1.
  intros [Hk H0 H1 H2 Ho] Hst Hfl.
  assert (Hdesc : forall k, describes cs k -> 0 <= k <= 9 /\ (k = 9 -> g0 = 5) /\ (k = 8 -> st = true /\ fl = true) /\
    (k = 7 -> g0 = 4) /\ (k = 6 -> g0 = 3 /\ g1 = 2) /\ (k = 5 -> fl = true) /\ (k = 4 -> st = true) /\
    (k = 3 -> g0 = 3) /\ (k = 2 -> g0 = 2 /\ g1 = 2) /\ (k = 1 -> g0 = 2 \/ g1 = 2)).
  { intros k Hd. pose proof Hd as Hd0. destruct Hd;
      repeat match goal with H : of_kind _ _ |- _ => apply Hk in H end; split_and!; intros; try lia; try naive_solver. }
  split.
  - destruct (Z.eqb_spec g0 5) as [->|]; [by apply five_of_a_kind|].
    destruct st, fl; cbn [andb];
      split_eqb;
      try (destruct (proj1 Hst eq_refl) as [h Hh]); try (pose proof (proj1 Hfl eq_refl));
      try (destruct H1 as [?|[H1 _]]; [lia|]); eauto using describes; by apply H2.
  - intros k Hd. destruct (Hdesc k Hd) as (Hr & K9 & K8 & K7 & K6 & K5 & K4 & K3 & K2 & K1).
    destruct st, fl; cbn [andb];
      split_eqb;
      destruct (decide (k <= 3)); try lia; naive_solver lia.
Qed.

Lemma category_spec cs :
  length cs = 5%nat -> describes cs (category_of cs) /\ (forall k, describes cs k -> k <= category_of cs).
Proof.
  intros Hl. apply hand_category_spec; [by apply kinds_of| |by apply flush_of_spec].
  rewrite bool_decide_eq_true. unfold is_Some. by setoid_rewrite straight_high_spec.
Qed.

(** * The score *)

Lemma rank_digit c : digit (rank_of c).
Proof. unfold digit, rank_of. by apply Z.mod_pos_bound. Qed.

Lemma ranks_digit cs r : r ∈ ranks_of cs -> digit r.
Proof. rewrite ranks_of_perm. intros (c & -> & _)%list_elem_of_fmap. apply rank_digit. Qed.

Lemma tie_breaks_digits cs : length cs = 5%nat -> Forall digit (tie_breaks cs) /\ length (tie_breaks cs) = 5%nat.
Proof.
  intros Hl. split; [|done]. unfold tie_breaks.
  set (tb := match straight_high (ranks_of cs) with Some h => [h] | None => map snd (rank_groups (ranks_of cs)) end).
  assert (Forall digit tb) as Htb.
  { unfold tb. destruct (straight_high (ranks_of cs)) as [h|] eqn:Eh.
    - apply straight_high_spec in Eh; [|done]. constructor; [|done]. destruct Eh as [Hp|[-> _]]; [|done].
      apply (ranks_digit cs). rewrite ranks_of_perm, Hp. left.
    - apply Forall_forall. intros r Hr. apply list_elem_of_fmap in Hr as ([n r'] & -> & Hin).
      apply rank_groups_elem in Hin as [Hin _]. by apply (ranks_digit cs). }
  clearbody tb. apply Forall_forall. intros d Hd. apply list_elem_of_fmap in Hd as (i & -> & _).
  rewrite nth_lookup. destruct (tb !! i) as [x|] eqn:Ex; [|done]. cbn.
  rewrite Forall_forall in Htb. apply Htb. by eapply list_elem_of_lookup_2.
Qed.

(** Category first, then the tie-breaks. *)
Definition hand_key (cs : list Z) : list Z := category_of cs :: tie_breaks cs.

Lemma evaluate5_order cs1 cs2 x1 x2 :
  length cs1 = 5%nat -> length cs2 = 5%nat -> Forall valid_card cs1 -> Forall valid_card cs2 ->
  evaluate5 cs1 = Ok x1 -> evaluate5 cs2 = Ok x2 -> x1 < x2 <-> lex_lt (hand_key cs1) (hand_key cs2).
Proof.
  intros L1 L2 V1 V2. rewrite !evaluate5_parts by done. intros E1 E2. apply Ok_inj in E1, E2. subst x1 x2.
  destruct (tie_breaks_digits cs1 L1) as [D1 T1]. destruct (tie_breaks_digits cs2 L2) as [D2 T2].
  rewrite numeral_lex; [done|congruence|done..].
Qed.

Lemma hand_key_perm cs1 cs2 :
  length cs1 = 5%nat -> cs1 ≡ₚ cs2 -> category_of cs1 = category_of cs2 /\ tie_breaks cs1 = tie_breaks cs2.
Proof.
  intros Hl Hp. assert (length cs2 = 5%nat) as Hl2 by (by rewrite <- Hp).
  assert (Er : ranks_of cs1 = ranks_of cs2).
  { apply sorted_desc; [|exact (StronglySorted_merge_sort Z.ge _)]. by rewrite ranks_of_perm, Hp. }
  assert (Ef : flush_of cs1 = flush_of cs2).
  { apply eq_true_iff_eq. rewrite !flush_of_spec by done. unfold is_flush. by setoid_rewrite Hp. }
  unfold category_of, tie_breaks. by rewrite Er, Ef.
Qed.

(** Five cards are ranked as poker ranks them.  Every five cards between 0
    and 51 have a score; its category is the highest of the descriptions (pair,
    two pairs, ..., straight flush, five of a kind) the cards meet; one score is
    below another exactly when the category is lower or, in one category, the
    tie-breaks are lexicographically lower; and the order in which the cards are
    listed is irrelevant. *)
Theorem hand_ranking cs1 cs2 :
  length cs1 = 5%nat -> length cs2 = 5%nat -> Forall valid_card cs1 -> Forall valid_card cs2 ->
  exists x1 x2, evaluate5 cs1 = Ok x1 /\ evaluate5 cs2 = Ok x2 /\
    describes cs1 (category_of cs1) /\ (forall k, describes cs1 k -> k <= category_of cs1) /\
    (x1 < x2 <-> lex_lt (category_of cs1 :: tie_breaks cs1) (category_of cs2 :: tie_breaks cs2)) /\
    (cs1 ≡ₚ cs2 -> x1 = x2).
Proof.
  intros L1 L2 V1 V2. eexists _, _. split; [by apply evaluate5_parts|]. split; [by apply evaluate5_parts|].
  destruct (category_spec cs1 L1) as [Hd Hmax]. split_and!; [done|done| |].
  - apply (evaluate5_order cs1 cs2); try done; by apply evaluate5_parts.
  - intros Hp. destruct (hand_key_perm cs1 cs2 L1 Hp) as [-> ->]. done.
Qed.

(** A flush of spades is below a full house. *)
Lemma hand_ranking_witness :
  exists x1 x2, evaluate5 [0; 2; 4; 6; 8] = Ok x1 /\ evaluate5 [0; 13; 26; 1; 14] = Ok x2 /\ x1 < x2 /\
    describes [0; 2; 4; 6; 8] 5.
Proof.
  destruct (hand_ranking [0; 2; 4; 6; 8] [0; 13; 26; 1; 14]) as (x1 & x2 & E1 & E2 & Hd & _ & Hlt & _);
    [done|done|repeat constructor; unfold valid_card; lia|repeat constructor; unfold valid_card; lia|].
  exists x1, x2. split; [exact E1|]. split; [exact E2|]. split; [|exact Hd].
  apply Hlt. left. vm_compute. reflexivity.
Defined.

(** * The best five of up to seven cards *)

Lemma elem_of_choose {A} k (xs h : list A) : h ∈ choose k xs <-> sublist h xs /\ length h = k.
Proof.
  revert k h. induction xs as [|x xs IH]; intros [|k] h; cbn [choose].
  - rewrite list_elem_of_singleton. split; [intros ->; split; [constructor|done]|intros [_ H]; by apply length_zero_iff_nil].
  - split; [by intros ?%not_elem_of_nil|]. intros [Hs Hl]. apply sublist_nil_r in Hs. by subst.
  - rewrite list_elem_of_singleton. split; [intros ->; split; [apply sublist_nil_l|done]|intros [_ H]; by apply length_zero_iff_nil].
  - rewrite elem_of_app, list_elem_of_fmap, IH. split.
    + intros [(h' & -> & Hh)|[Hs Hl]].
      * apply IH in Hh as [Hs Hl]. split; [by constructor|cbn; lia].
      * split; [by constructor|done].
    + intros [Hs Hl]. apply sublist_cons_r in Hs as [Hs|(h' & -> & Hs)]; [by right|].
      left. exists h'. split; [done|]. apply IH. split; [done|]. by injection Hl.
Qed.

Lemma sublist_Forall {A} (P : A -> Prop) (xs ys : list A) : sublist xs ys -> Forall P ys -> Forall P xs.
Proof. induction 1; rewrite ?Forall_cons; naive_solver. Qed.

Definition keep_best (best : option BestHand) (hand : list Z) : result (option BestHand) :=
  let! sc := evaluate5 hand in
  match best with
  | None => Ok (Some {| score := sc; cards := hand |})
  | Some b => if score b <? sc then Ok (Some {| score := sc; cards := hand |}) else Ok (Some b)
  end.

(** [b] is the best of [hs]. *)
Definition best_of (hs : list (list Z)) (b : BestHand) : Prop :=
  cards b ∈ hs /\ evaluate5 (cards b) = Ok (score b) /\ (forall h x, h ∈ hs -> evaluate5 h = Ok x -> x <= score b).

Lemma keep_best_all hs :
  hs <> [] -> (forall h, h ∈ hs -> is_ok (evaluate5 h) = true) ->
  exists b, rfold keep_best None hs = Ok (Some b) /\ best_of hs b.
Proof.
  induction hs as [|h hs IH] using rev_ind; [done|]. intros _ Hok.
  assert (exists x, evaluate5 h = Ok x) as [x Ex].
  { apply is_ok_exists, Hok, elem_of_app. right. left. }
  rewrite rfold_app. destruct (decide (hs = [])) as [->|Hne].
  - cbn. unfold keep_best. rewrite Ex. cbn. eexists. split; [done|]. split_and!; [left|done|].
    intros h' x' Hin. apply list_elem_of_singleton in Hin as ->. intros. cbn. assert (x = x') by congruence. lia.
  - destruct (IH Hne) as (b & E & Hin & Hb & Hmax); [intros h' Hh'; apply Hok, elem_of_app; by left|].
    rewrite E. cbn. unfold keep_best. rewrite Ex. cbn.
    destruct (Z.ltb_spec (score b) x); eexists; (split; [done|]); split_and!; cbn; try done.
    + apply elem_of_app. right. left.
    + intros h' x' [Hh'|Hh']%elem_of_app E'.
      * specialize (Hmax h' x' Hh' E'). lia.
      * apply list_elem_of_singleton in Hh' as ->. assert (x = x') by congruence. lia.
    + apply elem_of_app. by left.
    + intros h' x' [Hh'|Hh']%elem_of_app E'; [by apply (Hmax h')|].
      apply list_elem_of_singleton in Hh' as ->. assert (x = x') by congruence. lia.
Qed.

(** [bestPokerHand] is right on every five to seven cards: it returns five of
    them, with their score, and no other five of them rank higher. *)
Theorem best_poker_hand cs :
  (5 <= length cs <= 7)%nat -> Forall valid_card cs ->
  exists b, bestPokerHand cs = Ok b /\ sublist (cards b) cs /\ length (cards b) = 5%nat /\
    evaluate5 (cards b) = Ok (score b) /\
    forall h, sublist h cs -> length h = 5%nat ->
      exists x, evaluate5 h = Ok x /\ x <= score b /\ ~ lex_lt (hand_key (cards b)) (hand_key h).
Proof.
  intros Hl Hv.
  assert (Hsub : forall h, sublist h cs -> length h = 5%nat -> exists x, evaluate5 h = Ok x /\ Forall valid_card h).
  { intros h Hs H5. pose proof (sublist_Forall valid_card h cs Hs Hv) as Hh. eexists. split; [by apply evaluate5_parts|done]. }
  destruct (keep_best_all (combinations5 cs)) as (b & E & Hin & Hb & Hmax).
  - intros Hn. assert (take 5 cs ∈ combinations5 cs) as Ht.
    { apply elem_of_choose. split; [apply sublist_take|]. rewrite length_take. lia. }
    rewrite Hn in Ht. by apply not_elem_of_nil in Ht.
  - intros h [Hs H5]%elem_of_choose. destruct (Hsub h Hs H5) as (x & Ex & _). by rewrite Ex.
  - exists b. apply elem_of_choose in Hin as [Hs H5]. split_and!; try done.
    + unfold bestPokerHand. rewrite (proj2 (Nat.ltb_ge _ _)), (proj2 (Nat.ltb_ge _ _)) by lia.
      rewrite validateCards_ok by done. cbn [rbind]. unfold keep_best in E. by rewrite E.
    + intros h Hs' H5'. destruct (Hsub h Hs' H5') as (x & Ex & Hvh). exists x. split; [done|].
      assert (x <= score b) as Hle by (apply (Hmax h); [by apply elem_of_choose|done]). split; [done|].
      destruct (Hsub (cards b) Hs H5) as (y & Ey & Hvb). rewrite <- (evaluate5_order (cards b) h y x) by done.
      assert (y = score b) by congruence. lia.
Qed.

Lemma best_poker_hand_witness :
  exists b, bestPokerHand [0; 13; 26; 1; 14; 5; 50] = Ok b /\ evaluate5 (cards b) = Ok (score b).
Proof.
  destruct (best_poker_hand [0; 13; 26; 1; 14; 5; 50]) as (b & E & _ & _ & Hb & _);
    [cbn; lia|repeat constructor; unfold valid_card; lia|].
  exists b. split; [exact E|exact Hb].
Defined.
