(* ===== verification/QuantumPokerGame.v ===== *)
(** Quantum poker hands: bets stay within the shorter stack, a hand moves exactly
    the matched bet, the board is made of distinct cards opened from the
    commitments. *)
From stdpp Require Import sorting fin_sets.
From S2P Require Import Prelude.
From S2P Require Import Bytes.
From S2P Require Import Wire.
From S2P Require Import Crypto.
From S2P Require Import Commitment.
From S2P Require Import Protocol.
From S2P Require Import QuantumPoker.

(** * The invariant *)

Definition betting (ph : PokerPhase) : bool :=
  match ph with PreflopBet | FlopBet | TurnBet | RiverBet => true | _ => false end.

Definition finished (ph : PokerPhase) : bool :=
  match ph with HandOver | Done => true | _ => false end.

(** The shorter of the two stacks. *)
Definition stack (s : PokerState) : Z := Z.min (balance (seatA s)) (balance (seatB s)).

(** Bets of a hand in progress: within the shorter stack, and matched up to the
    current street, on which nothing is bet outside the betting phases. *)
Record bets_ok (s : PokerState) : Prop := {
  b_street : forall p, 0 <= streetBet (seat s p) <= totalBet (seat s p);
  b_stack : forall p, totalBet (seat s p) <= stack s;
  b_matched : totalBet (seatA s) - streetBet (seatA s) = totalBet (seatB s) - streetBet (seatB s);
  b_closed : betting (phase s) = false -> streetBet (seatA s) = 0 /\ streetBet (seatB s) = 0
}.

(** The slots whose cards lie on the board in a phase. *)
Definition slots_of (ph : PokerPhase) : list Z :=
  match ph with
  | FlopBet | RevealTurn => FLOP_SLOTS
  | TurnBet | RevealRiver => FLOP_SLOTS ++ TURN_SLOTS
  | RiverBet | Showdown => FLOP_SLOTS ++ TURN_SLOTS ++ RIVER_SLOTS
  | _ => []
  end.

Definition BOARD_SLOTS : list Z := FLOP_SLOTS ++ TURN_SLOTS ++ RIVER_SLOTS.

Lemma slots_prefix ph : slots_of ph `prefix_of` BOARD_SLOTS.
Proof. destruct ph; vm_compute; by eexists. Qed.

Definition card_ok (c : Z) : Prop := 0 <= c <= 51.

Section WithCrypto.
Context `{C : Crypto}.

(** [c] is the card of [slot] at the given counter, from both public reveals. *)
Definition card_of (s : PokerState) (slot c counter : Z) : Prop :=
  exists ra rb, reveal_at (revealArrayFor s PartyA) slot = Some ra /\
    reveal_at (revealArrayFor s PartyB) slot = Some rb /\ deriveQuantumCard ra rb counter = Ok c.

(** [c] is the first card of [slot] that is not among [used]. *)
Definition dealt (s : PokerState) (used : list Z) (slot c counter : Z) : Prop :=
  c ∉ used /\ 0 <= counter /\ card_of s slot c counter /\
  forall j, 0 <= j < counter -> exists c', card_of s slot c' j /\ c' ∈ used.

(** Distinct cards, one per slot, each the first new one of its slot. *)
Definition board_ok (s : PokerState) : Prop :=
  NoDup (board s) /\ Forall card_ok (board s) /\ length (board s) = length (boardSlots s) /\
  length (boardCounters s) = length (boardSlots s) /\
  (forall i slot c k, boardSlots s !! i = Some slot -> board s !! i = Some c -> boardCounters s !! i = Some k ->
     dealt s (take i (board s)) slot c k).

(** A public reveal opens the commitment of its slot. *)
Definition reveals_ok (s : PokerState) : Prop :=
  forall p slot r, reveal_at (revealArrayFor s p) slot = Some r ->
    exists commits, commitArrayFor s p = Some commits /\
      verifyCommitment (nth (Z.to_nat slot) commits []) (value r) (salt r) = Ok true.

Record poker_ok (t : Z) (s : PokerState) : Prop := {
  k_bal : forall p, 0 <= balance (seat s p);
  k_sum : balance (seatA s) + balance (seatB s) = t;
  k_total : total s = t;
  k_bets : finished (phase s) = false -> bets_ok s;
  k_slots : finished (phase s) = false -> boardSlots s = slots_of (phase s);
  k_prefix : boardSlots s `prefix_of` BOARD_SLOTS;
  k_board : board_ok s;
  k_reveals : reveals_ok s
}.

(** What winning [amount] does to the balances. *)
Definition pays (w : PokerWinner) (amount : Z) (s s' : PokerState) : Prop :=
  match w with
  | WinBy PartyA => balance (seatA s') = balance (seatA s) + amount /\ balance (seatB s') = balance (seatB s) - amount
  | WinBy PartyB => balance (seatA s') = balance (seatA s) - amount /\ balance (seatB s') = balance (seatB s) + amount
  | Tie => balance (seatA s') = balance (seatA s) /\ balance (seatB s') = balance (seatB s)
  end.

Lemma contested_min s : contestedAmount s = Z.min (totalBet (seatA s)) (totalBet (seatB s)).
Proof. unfold contestedAmount. destruct (Z.ltb_spec (totalBet (seatA s)) (totalBet (seatB s))); lia. Qed.

Lemma poker_settle_pays s w amount :
  amount <= stack s -> pays (WinBy w) amount s (settle s w amount).
Proof.
  unfold stack. intros H. unfold settle, pays.
  destruct w; cbn; (destruct (Z.ltb_spec amount (balance (seatB s))) || destruct (Z.ltb_spec amount (balance (seatA s))));
    cbn; try (destruct (Z.ltb_spec amount (balance (seatA s)))); cbn; lia.
Qed.

(** Settling changes nothing but the balances. *)
Lemma poker_settle_keeps s w amount :
  phase (settle s w amount) = phase s /\ board (settle s w amount) = board s /\
  boardSlots (settle s w amount) = boardSlots s /\ boardCounters (settle s w amount) = boardCounters s /\
  total (settle s w amount) = total s /\
  forall p, reveals (seat (settle s w amount) p) = reveals (seat s p) /\
    commit (seat (settle s w amount) p) = commit (seat s p) /\
    totalBet (seat (settle s w amount) p) = totalBet (seat s p).
Proof. split_and!; try done; intros []; by destruct w. Qed.

(** Reveals are only added. *)
Definition more_reveals (s s' : PokerState) : Prop :=
  forall p slot r, reveal_at (revealArrayFor s p) slot = Some r -> reveal_at (revealArrayFor s' p) slot = Some r.

Lemma card_of_mono s s' slot c k : more_reveals s s' -> card_of s slot c k -> card_of s' slot c k.
Proof. intros Hm (ra & rb & HA & HB & E). exists ra, rb. auto. Qed.

Lemma dealt_mono s s' used slot c k : more_reveals s s' -> dealt s used slot c k -> dealt s' used slot c k.
Proof.
  intros Hm (Hn & Hk & Hc & Hj). split_and!; [done..|by eapply card_of_mono|].
  intros j Hlt. destruct (Hj j Hlt) as (c' & Hc' & Hin). exists c'. split; [by eapply card_of_mono|done].
Qed.

Lemma board_ok_mono s s' :
  more_reveals s s' -> board s' = board s -> boardSlots s' = boardSlots s -> boardCounters s' = boardCounters s ->
  board_ok s -> board_ok s'.
Proof.
  unfold board_ok. intros Hm -> -> -> (H1 & H2 & H3 & H4 & Hc). split_and!; [done..|].
  intros i slot c k Hi Hcc Hk. eapply dealt_mono; [exact Hm|]. by apply (Hc i).
Qed.

(** The parts of the invariant that look at the cards only. *)
Definition same_cards (s s' : PokerState) : Prop :=
  board s' = board s /\ boardSlots s' = boardSlots s /\ boardCounters s' = boardCounters s /\
  forall p, reveals (seat s' p) = reveals (seat s p) /\ commit (seat s' p) = commit (seat s p).

Lemma same_cards_ok s s' : same_cards s s' -> board_ok s -> reveals_ok s -> board_ok s' /\ reveals_ok s'.
Proof.
  intros (Eb & Es & Ec & Hp) Hb Hr. split.
  - apply (board_ok_mono s); [|done..]. intros p slot r. unfold revealArrayFor. by rewrite (proj1 (Hp p)).
  - intros p slot r H. unfold revealArrayFor in H. rewrite (proj1 (Hp p)) in H.
    destruct (Hr p slot r H) as (cs & E & Hv). exists cs. unfold commitArrayFor in *. by rewrite (proj2 (Hp p)).
Qed.

Definition same_funds (s s' : PokerState) : Prop :=
  (forall p, balance (seat s' p) = balance (seat s p)) /\ total s' = total s.

Lemma same_funds_stack s s' : same_funds s s' -> stack s' = stack s.
Proof. intros [H _]. unfold stack. pose proof (H PartyA) as HA. pose proof (H PartyB) as HB. cbn in HA, HB. by rewrite HA, HB. Qed.

(** A step inside a hand. *)
Lemma poker_ok_step t s s' :
  poker_ok t s -> same_funds s s' -> board_ok s' -> reveals_ok s' ->
  finished (phase s') = false -> bets_ok s' /\ boardSlots s' = slots_of (phase s') -> poker_ok t s'.
Proof.
  intros [Hbal Hsum Htot _ _ _ _ _] [Hf Ht] Hb Hr Hfin [Hbets Hsl]. split; try done.
  - intros p. by rewrite Hf.
  - pose proof (Hf PartyA) as HA. pose proof (Hf PartyB) as HB. cbn in HA, HB. by rewrite HA, HB.
  - by rewrite Ht.
  - rewrite Hsl. apply slots_prefix.
Qed.

Lemma poker_ok_bets t s s' :
  poker_ok t s -> same_funds s s' -> same_cards s s' -> finished (phase s') = false ->
  bets_ok s' /\ slots_of (phase s') = slots_of (phase s) -> finished (phase s) = false -> poker_ok t s'.
Proof.
  intros H Hf Hc Hfin' [Hbets Hsl] Hfin. destruct (same_cards_ok s s' Hc (k_board _ _ H) (k_reveals _ _ H)) as [Hb Hr].
  apply (poker_ok_step t s); [done..|]. split; [done|].
  destruct Hc as (_ & -> & _). rewrite Hsl. by apply (k_slots _ _ H).
Qed.

(** The end of a hand. *)
Definition hand_end (t : Z) (s s' : PokerState) (w : PokerWinner) : Prop :=
  poker_ok t s' /\ phase s' = HandOver /\ winner s' = Some w /\ pays w (contestedAmount s) s s'.

Lemma contested_stack s : bets_ok s -> 0 <= contestedAmount s <= stack s.
Proof.
  intros H. rewrite contested_min. pose proof (b_street _ H PartyA) as H1. pose proof (b_street _ H PartyB) as H2.
  pose proof (b_stack _ H PartyA) as H3. cbn in *. lia.
Qed.

Lemma finish_hand t s w r :
  poker_ok t s -> finished (phase s) = false ->
  hand_end t s (set_result (match w with WinBy p => settle s p (contestedAmount s) | Tie => s end) w r) w.
Proof.
  intros H Hfin. pose proof (k_bets _ _ H Hfin) as Hb. pose proof (contested_stack s Hb) as Hc.
  set (s1 := match w with WinBy p => settle s p (contestedAmount s) | Tie => s end).
  assert (Hpay : pays w (contestedAmount s) s s1) by (destruct w; [apply poker_settle_pays; apply Hc|done]).
  assert (Hcards : same_cards s s1 /\ total s1 = total s).
  { destruct w as [p|]; [|done]. destruct (poker_settle_keeps s p (contestedAmount s)) as (_ & E1 & E2 & E3 & E4 & Hp).
    split; [|done]. split_and!; [done..|]. intros q. by destruct (Hp q) as (? & ? & _). }
  clearbody s1. destruct Hcards as [Hcards Ht]. destruct (same_cards_ok s s1 Hcards (k_board _ _ H) (k_reveals _ _ H)) as [Hbd Hrv].
  pose proof (k_bal _ _ H PartyA) as HA. pose proof (k_bal _ _ H PartyB) as HB. pose proof (k_sum _ _ H) as Hs.
  unfold stack in Hc. cbn in HA, HB. split; [|by split_and!].
  split; cbn; try done.
  - intros q. destruct w as [[]|], q; destruct Hpay as [E1 E2]; cbn; rewrite ?E1, ?E2; lia.
  - destruct w as [[]|]; destruct Hpay as [E1 E2]; rewrite E1, E2; lia.
  - rewrite Ht. by destruct H.
  - destruct Hcards as (_ & -> & _). exact (k_prefix _ _ H).
Qed.

Lemma resolveFold_end t s f s' :
  poker_ok t s -> finished (phase s) = false -> resolveFold (set_folded s f) = Ok s' ->
  hand_end t s s' (WinBy (otherParty f)).
Proof.
  intros H Hfin E. unfold resolveFold in E. cbn [foldedBy set_folded] in E. apply Ok_inj in E.
  assert (Hf : poker_ok t (set_folded s f)).
  { apply (poker_ok_bets t s); [done|split; done|by split_and!|done| |done]. split; [|done].
    by destruct (k_bets _ _ H Hfin). }
  pose proof (finish_hand t (set_folded s f) (WinBy (otherParty f))
    {| r_winner := WinBy (otherParty f); reason := ByFold; scoreA := None; scoreB := None;
       bestA := None; bestB := None; burnedA := []; burnedB := [] |} Hf Hfin) as He.
  cbv beta iota in He. rewrite E in He. exact He.
Qed.

(** * Betting *)

(** What a betting move that does not fold leaves alone. *)
Definition bet_move (s s' : PokerState) : Prop := same_funds s s' /\ same_cards s s'.

Lemma bet_move_trans s1 s2 s3 : bet_move s1 s2 -> bet_move s2 s3 -> bet_move s1 s3.
Proof.
  intros [[Hf Ht] (E1 & E2 & E3 & Hp)] [[Hf' Ht'] (E1' & E2' & E3' & Hp')]. split.
  - split; [|congruence]. intros p. by rewrite Hf', Hf.
  - split_and!; try congruence. intros p. destruct (Hp p), (Hp' p). split; congruence.
Qed.

Lemma bet_seat s p x :
  balance x = balance (seat s p) -> reveals x = reveals (seat s p) -> commit x = commit (seat s p) ->
  bet_move s (set_seat s p x).
Proof. intros H1 H2 H3. split; [split; [|done]|split_and!; try done]; intros q; destruct p, q; done. Qed.

Lemma beginStreet_bets s ph :
  totalBet (seatA s) = totalBet (seatB s) -> 0 <= totalBet (seatA s) <= stack s ->
  bets_ok (beginStreet s ph) /\ bet_move s (beginStreet s ph).
Proof.
  intros He Hst. split.
  - split; cbn.
    + intros []; cbn; lia.
    + unfold stack in *. intros []; cbn; lia.
    + lia.
    + done.
  - split; [split; [intros []; done|done]|split_and!; try done; intros []; done].
Qed.

(** The street is over or the other party is to act. *)
Lemma afterBetAction_ok t s s' :
  poker_ok t s -> betting (phase s) = true -> afterBetAction s = Ok s' -> poker_ok t s' /\ finished (phase s') = false.
Proof.
  intros H Hbet E. assert (finished (phase s) = false) as Hfin by (by destruct (phase s)).
  pose proof (k_bets _ _ H Hfin) as Hb. unfold afterBetAction in E.
  destruct (_ && _) eqn:Eq.
  - bool_to_prop. pose proof (b_matched _ Hb) as Hm.
    assert (He : totalBet (seatA s) = totalBet (seatB s)) by lia.
    pose proof (b_street _ Hb PartyA) as Hs1. pose proof (b_stack _ Hb PartyA) as Hs2. cbn in Hs1, Hs2.
    assert (Hgo : forall ph, slots_of ph = slots_of (phase s) -> finished ph = false ->
      poker_ok t (beginStreet s ph) /\ finished (phase (beginStreet s ph)) = false).
    { intros ph Hsl Hf. destruct (beginStreet_bets s ph He ltac:(lia)) as [Hbb [Hmf Hmc]]. split; [|exact Hf].
      by apply (poker_ok_bets t s). }
    unfold advanceStreet in E. destruct (phase s); try done; apply Ok_inj in E; subst s'; by apply Hgo.
  - apply Ok_inj in E. subst s'. split; [|exact Hfin].
    apply (poker_ok_bets t s); [done|split; done|by split_and!|done| |done]. split; [|done]. by destruct Hb.
Qed.

Lemma availableFor_le s p a : 0 < a -> a <= availableFor s p -> totalBet (seat s p) + a <= stack s.
Proof.
  unfold availableFor, stack. intros Ha.
  destruct (Z.ltb_spec (balance (seatA s)) (balance (seatB s)));
    case_match; bool_to_prop; lia.
Qed.

(** A bet of [a] by [p] that puts [v] on the street, within the stack. *)
Lemma put_bet_ok s p a :
  bets_ok s -> betting (phase s) = true -> 0 < a -> totalBet (seat s p) + a <= stack s ->
  bets_ok (put_bet s p (streetBet (seat s p) + a) a) /\ bet_move s (put_bet s p (streetBet (seat s p) + a) a).
Proof.
  intros [Hs Hst Hm Hc] Hb Ha Hle. split; [|by apply bet_seat]. split.
  - intros q. specialize (Hs q). destruct p, q; cbn in *; lia.
  - intros q. specialize (Hst q). unfold stack in *. destruct p, q; cbn in *; lia.
  - destruct p; cbn in *; lia.
  - cbn. by rewrite Hb.
Qed.

Lemma seat_bets s p x :
  balance x = balance (seat s p) -> totalBet x = totalBet (seat s p) -> streetBet x = streetBet (seat s p) ->
  bets_ok s -> bets_ok (set_seat s p x).
Proof.
  intros E1 E2 E3 [Hs Hst Hm Hc]. split.
  - intros q. specialize (Hs q). destruct p, q; cbn in *; congruence.
  - intros q. specialize (Hst q). unfold stack in *. destruct p, q; cbn in *; congruence.
  - destruct p; cbn in *; congruence.
  - intros Hb. destruct (Hc Hb). destruct p; cbn in *; split; congruence.
Qed.

Lemma markActed_ok s p a : bets_ok s -> bets_ok (markActed s p a) /\ bet_move s (markActed s p a).
Proof. intros H. split; [by apply seat_bets|by apply bet_seat]. Qed.

Lemma bet_move_ok t s s' :
  poker_ok t s -> finished (phase s) = false -> bet_move s s' -> bets_ok s' -> phase s' = phase s -> poker_ok t s'.
Proof.
  intros H Hfin [Hf Hc] Hb Hp. apply (poker_ok_bets t s); try done; by rewrite Hp.
Qed.

(** What a betting move other than a fold does: the hand goes on. *)
Lemma applyBet_ok t s m by_ s' :
  poker_ok t s -> betting (phase s) = true -> applyBet s m by_ = Ok s' ->
  (m = Fold_ /\ hand_end t s s' (WinBy (otherParty by_))) \/
  (m <> Fold_ /\ poker_ok t s' /\ finished (phase s') = false).
Proof.
  intros H Hbet E. assert (finished (phase s) = false) as Hfin by (by destruct (phase s)).
  pose proof (k_bets _ _ H Hfin) as Hb. unfold applyBet in E. inv_ok.
  destruct m; try done.
  - right. split; [done|]. unfold applyBetOrRaise in E. inv_ok. bool_to_prop.
    destruct (put_bet_ok s by_ amount Hb Hbet ltac:(lia)) as [Hb1 Hm1]; [apply availableFor_le; lia|].
    destruct (markActed_ok _ by_ true Hb1) as [Hb2 Hm2].
    destruct (markActed_ok _ (otherParty by_) false Hb2) as [Hb3 Hm3].
    split; [|cbn; exact Hfin].
    apply (bet_move_ok t s); [done|done| | |done].
    + exact (bet_move_trans _ _ _ Hm1 (bet_move_trans _ _ _ Hm2 Hm3)).
    + by destruct Hb3.
  - right. split; [done|]. unfold applyCheck in E. inv_ok.
    destruct (markActed_ok s by_ true Hb) as [Hb1 Hm1].
    apply (afterBetAction_ok t) in E; [done| |done]. by apply (bet_move_ok t s).
  - right. split; [done|]. unfold applyCall in E. inv_ok. bool_to_prop.
    set (d := streetBet (seat s (otherParty by_)) - streetBet (seat s by_)) in *.
    destruct (put_bet_ok s by_ d Hb Hbet ltac:(lia)) as [Hb1 Hm1]; [apply availableFor_le; lia|].
    destruct (markActed_ok _ by_ true Hb1) as [Hb2 Hm2].
    apply (afterBetAction_ok t) in E; [done| |done].
    apply (bet_move_ok t s); [done|done|by eapply bet_move_trans|done|done].
  - left. split; [done|]. by apply resolveFold_end.
Qed.

(** * Commitments and reveals *)

Lemma applyCommit_ok t s m by_ s' :
  poker_ok t s -> phase s = CommitPhase -> applyCommit s m by_ = Ok s' ->
  poker_ok t s' /\ finished (phase s') = false.
Proof.
  intros H Hp E. unfold applyCommit in E. destruct m; try done. inv_ok. bool_to_prop.
  match goal with H : ~ is_Some (commit (seat s by_)) |- _ => apply eq_None_not_Some in H as Hnone end.
  assert (Hfin : finished (phase s) = false) by (by rewrite Hp).
  pose proof (k_bets _ _ H Hfin) as Hb. pose proof (k_reveals _ _ H) as Hr.
  set (s1 := set_seat s by_ (with_commit (seat s by_) a a0)).
  assert (Hno : forall slot, reveal_at (revealArrayFor s by_) slot = None).
  { intros slot. destruct (reveal_at _ slot) as [r|] eqn:Er; [|done]. apply Hr in Er as (cs & Ec & _).
    unfold commitArrayFor in Ec. congruence. }
  assert (Hrev : forall q, revealArrayFor s1 q = revealArrayFor s q) by (intros q; by destruct by_, q).
  assert (Hr1 : reveals_ok s1).
  { intros q slot r Hq. rewrite Hrev in Hq. destruct (decide (q = by_)) as [->|Hne].
    - rewrite Hno in Hq. done.
    - destruct (Hr q slot r Hq) as (cs & Ec & Hv). exists cs. split; [|done]. by destruct by_, q. }
  assert (Hbd : board_ok s1).
  { apply (board_ok_mono s); [|done..|exact (k_board _ _ H)]. intros q slot r. by rewrite Hrev. }
  assert (Hgo : forall ph, slots_of ph = [] -> finished ph = false -> betting ph = false ->
    poker_ok t (set_phase s1 ph) /\ finished ph = false).
  { intros ph Hsl Hf Hnb. split; [|done]. apply (poker_ok_step t s); [done| |exact Hbd|exact Hr1|done|].
    - split; [|done]. intros q. by destruct by_, q.
    - split; [|cbn; rewrite Hsl, (k_slots _ _ H Hfin), Hp; done].
      destruct Hb as [Hb1 Hb2 Hb3 Hb4]. split.
      + intros q. specialize (Hb1 q). by destruct by_, q.
      + intros q. specialize (Hb2 q). unfold stack in *. by destruct by_, q.
      + by destruct by_.
      + intros _. rewrite Hp in Hb4. destruct (Hb4 eq_refl). by destruct by_. }
  destruct (_ && _).
  - by apply (Hgo OpenPrivateHoles).
  - replace s1 with (set_phase s1 CommitPhase) by (unfold s1, set_phase, set_seat; cbn; by rewrite Hp).
    by apply (Hgo CommitPhase).
Qed.

(** The reveals a move records: nothing is overwritten, everything new opens its
    commitment. *)
Lemma record_reveals_spec commits zs target target' :
  rfold (record_reveal commits) target zs = Ok target' ->
  (forall slot r, reveal_at target slot = Some r -> reveal_at target' slot = Some r) /\
  (forall slot r, reveal_at target' slot = Some r -> reveal_at target slot = Some r \/
     verifyCommitment (nth (Z.to_nat slot) commits []) (value r) (salt r) = Ok true).
Proof.
  revert target. induction zs as [|[sl rv] zs IH]; intros target E; cbn [rfold] in E.
  { apply Ok_inj in E. subst. auto. }
  apply rbind_ok in E as (t1 & E1 & E). apply IH in E as [Hk Hn]. clear IH.
  unfold record_reveal in E1. cbn [fst snd] in E1. inv_ok. destruct a0; [|done]. bool_to_prop.
  assert (Hins : forall slot r, reveal_at (<[Z.to_nat a := Some rv]> target) slot = Some r ->
    reveal_at target slot = Some r \/ (Z.to_nat slot = Z.to_nat a /\ r = rv)).
  { unfold reveal_at. intros slot r Hsl. rewrite nth_lookup in Hsl |- *.
    destruct (decide (Z.to_nat slot = Z.to_nat a)) as [Heq|Hne].
    - rewrite Heq in Hsl. destruct (decide (Z.to_nat a < length target)%nat).
      + rewrite list_lookup_insert_eq in Hsl by done. cbn in Hsl. simplify_eq. auto.
      + rewrite list_insert_ge in Hsl by lia. rewrite Heq. auto.
    - rewrite list_lookup_insert_ne in Hsl by done. auto. }
  split.
  - intros slot r Hsl. apply Hk. unfold reveal_at in *. rewrite nth_lookup in *.
    destruct (decide (Z.to_nat slot = Z.to_nat a)) as [Heq|Hne]; [|by rewrite list_lookup_insert_ne].
    rewrite Heq in Hsl.
    match goal with H : ~ is_Some _ |- _ => destruct H; rewrite Hsl; eauto end.
  - intros slot r [Hsl|Hsl]%Hn; [|by right]. destruct (Hins slot r Hsl) as [?|[Heq ->]]; [by left|right].
    by rewrite Heq.
Qed.

Lemma recorded_ok t s by_ commits zs target :
  poker_ok t s -> finished (phase s) = false -> commitArrayFor s by_ = Some commits ->
  rfold (record_reveal commits) (revealArrayFor s by_) zs = Ok target ->
  poker_ok t (set_seat s by_ (with_reveals (seat s by_) target)).
Proof.
  intros H Hfin Hc E. apply record_reveals_spec in E as [Hkeep Hnew].
  set (s1 := set_seat s by_ (with_reveals (seat s by_) target)).
  assert (Hrev : more_reveals s s1).
  { intros q slot r Hq. unfold s1. destruct by_, q; first [exact Hq|exact (Hkeep slot r Hq)]. }
  assert (Hcom : forall q, commitArrayFor s1 q = commitArrayFor s q) by (intros q; by destruct by_, q).
  apply (poker_ok_step t s); [done| | | |done|].
  - split; [|done]. intros q. by destruct by_, q.
  - apply (board_ok_mono s); [exact Hrev|done..|exact (k_board _ _ H)].
  - intros q slot r Hq. rewrite Hcom. destruct (decide (q = by_)) as [->|Hne].
    + assert (reveal_at target slot = Some r) as Ht by (by destruct by_).
      destruct (Hnew slot r Ht) as [Hold|Hv]; [by apply (k_reveals _ _ H)|eauto].
    + apply (k_reveals _ _ H). by destruct by_, q.
  - pose proof (k_bets _ _ H Hfin) as [Hb1 Hb2 Hb3 Hb4]. split; [|by apply (k_slots _ _ H)]. split.
    + intros q. specialize (Hb1 q). by destruct by_, q.
    + intros q. specialize (Hb2 q). unfold stack in *. by destruct by_, q.
    + by destruct by_.
    + intros Hnb. destruct (Hb4 Hnb). by destruct by_.
Qed.

(** * Cards *)

Lemma deriveQuantumCard_range ra rb k c : deriveQuantumCard ra rb k = Ok c -> card_ok c.
Proof.
  unfold deriveQuantumCard. intros E. inv_ok. unfold card_ok.
  match goal with |- context [fold_left _ ?l _] => generalize l end. intros l.
  assert (forall z, 0 <= z < 52 -> 0 <= fold_left (fun acc b => (acc * 256 + b) mod 52) l z < 52) as Hl.
  { induction l as [|b l IH]; intros z Hz; cbn; [done|]. apply IH. by apply Z.mod_pos_bound. }
  specialize (Hl 0 ltac:(lia)). lia.
Qed.

Lemma deriveSlotCard_public s slot k c : deriveSlotCard s slot k false = Ok (Some c) -> card_of s slot c k.
Proof.
  unfold deriveSlotCard, revealForDerivation. intros E.
  destruct (reveal_at (revealArrayFor s PartyA) slot) as [ra|] eqn:EA; [|done].
  destruct (reveal_at (revealArrayFor s PartyB) slot) as [rb|] eqn:EB; [|done].
  inv_ok. simplify_eq. by exists ra, rb.
Qed.

Lemma unique_card_spec n s slot used k c k' :
  0 <= k -> (forall j, 0 <= j < k -> exists c', card_of s slot c' j /\ c' ∈ used) ->
  unique_card n s slot used k = Ok (c, k') -> dealt s used slot c k'.
Proof.
  revert k. induction n as [|n IH]; intros k Hk Hj E; cbn [unique_card] in E; [done|].
  apply rbind_ok in E as ([x|] & Ec & E); [|done]. apply deriveSlotCard_public in Ec. case_bool_decide.
  - apply IH in E; [done|lia|]. intros j Hlt. destruct (decide (j = k)) as [->|]; [by exists x|]. apply Hj. lia.
  - apply Ok_inj in E. by simplify_eq.
Qed.

Lemma card_of_ok s slot c k : card_of s slot c k -> card_ok c.
Proof. intros (ra & rb & _ & _ & E). by eapply deriveQuantumCard_range. Qed.

(** Same reveals, same cards. *)
Lemma card_of_same s s' slot c k :
  (forall p, reveals (seat s' p) = reveals (seat s p)) -> card_of s slot c k -> card_of s' slot c k.
Proof. intros Hp (ra & rb & HA & HB & E). exists ra, rb. unfold revealArrayFor in *. by rewrite !Hp. Qed.

(** What dealing cards to the board leaves alone. *)
Definition only_board (s s' : PokerState) : Prop :=
  exists b sl cs, s' = set_board s b sl cs.

Lemma push_one s slot c k :
  board_ok s -> dealt s (board s) slot c k ->
  board_ok (set_board s (board s ++ [c]) (boardSlots s ++ [slot]) (boardCounters s ++ [k])).
Proof.
  intros (Hnd & Hall & Hl1 & Hl2 & Hcards) Hd. pose proof Hd as (Hnew & _ & Hc & _). split_and!; cbn.
  - apply NoDup_app. split_and!; [done| |apply NoDup_singleton]. set_solver.
  - apply Forall_app. split; [done|]. constructor; [|done]. by eapply card_of_ok.
  - rewrite !length_app. cbn. lia.
  - rewrite !length_app. cbn. lia.
  - intros i slot' c' k' Hi Hc' Hk'.
    destruct (decide (i < length (boardSlots s))%nat) as [Hlt|Hge].
    + rewrite lookup_app_l in Hi, Hc', Hk' by lia. rewrite take_app_le by lia. exact (Hcards i slot' c' k' Hi Hc' Hk').
    + rewrite lookup_app_r in Hi, Hc', Hk' by lia.
      rewrite list_lookup_singleton in Hi, Hc', Hk'.
      destruct (i - length (boardSlots s))%nat eqn:E1 in Hi; [|done].
      replace (i - length (board s))%nat with 0%nat in Hc' by lia.
      replace (i - length (boardCounters s))%nat with 0%nat in Hk' by lia.
      replace i with (length (board s)) by lia. rewrite take_app_length. cbn in *. by simplify_eq.
Qed.

Lemma push_board_spec slots s s' :
  push_board s slots = Ok s' -> board_ok s -> NoDup slots -> (forall x, x ∈ slots -> x ∉ boardSlots s) ->
  board_ok s' /\ only_board s s' /\ boardSlots s' = boardSlots s ++ slots.
Proof.
  unfold push_board. revert s. induction slots as [|slot slots IH]; intros s E Hb Hnd Hout; cbn [rfold] in E.
  { apply Ok_inj in E. subst s'. split_and!; [done| |by rewrite app_nil_r].
    exists (board s), (boardSlots s), (boardCounters s). by destruct s. }
  apply rbind_ok in E as (s1 & E1 & E). apply NoDup_cons in Hnd as [Hn Hnd].
  rewrite bool_decide_eq_false_2 in E1 by (apply Hout; left).
  apply rbind_ok in E1 as ([c k] & Ec & E1). apply Ok_inj in E1. cbn in E1.
  apply unique_card_spec in Ec; [|done|intros; lia]. pose proof (push_one s slot c k Hb Ec) as Hb1.
  rewrite E1 in Hb1. destruct (IH s1 E Hb1 Hnd) as (Hb' & (b & sl & cs & Hs) & Hsl).
  { subst s1. cbn. intros x Hx. pose proof (Hout x ltac:(by right)). set_solver. }
  split_and!; [done| |].
  - exists b, sl, cs. rewrite Hs, <- E1. done.
  - rewrite Hsl, <- E1. cbn. by rewrite <- app_assoc.
Qed.

(** Dealing the cards of [slots] and going on to [ph]. *)
Lemma deal_ok t s slots s1 :
  poker_ok t s -> finished (phase s) = false -> betting (phase s) = false ->
  push_board s slots = Ok s1 -> NoDup (boardSlots s ++ slots) ->
  forall ph, slots_of ph = boardSlots s ++ slots -> finished ph = false ->
  (betting ph = false -> poker_ok t (set_phase s1 ph)) /\ poker_ok t (beginStreet s1 ph).
Proof.
  intros H Hfin Hnb E Hnd ph Hsl Hf. apply NoDup_app in Hnd as (_ & Hdis & Hnd).
  destruct (push_board_spec slots s s1 E (k_board _ _ H) Hnd) as (Hb & (b & sl & cs & Hs) & Hslots).
  { intros x Hx Hx'. exact (Hdis x Hx' Hx). }
  pose proof (k_bets _ _ H Hfin) as Hbets. destruct (b_closed _ Hbets Hnb) as [H0A H0B].
  pose proof (b_matched _ Hbets) as Hm. pose proof (b_street _ Hbets PartyA) as Hst.
  pose proof (b_stack _ Hbets PartyA) as Hsk. cbn in Hst, Hsk.
  assert (Hrv : reveals_ok s1) by (subst s1; exact (k_reveals _ _ H)).
  assert (Hsame : same_funds s s1) by (by subst s1). split.
  - intros Hnb'. apply (poker_ok_step t s); [done..|].
    split; [|cbn; by rewrite Hsl]. subst s1. by destruct Hbets.
  - assert (Eb : bets_ok (beginStreet s1 ph) /\ bet_move s1 (beginStreet s1 ph)).
    { apply beginStreet_bets; subst s1; cbn in *; [lia|]. unfold stack in *. cbn. lia. }
    destruct Eb as [Eb [Hfu Hca]]. destruct (same_cards_ok _ _ Hca Hb Hrv) as [Hb' Hrv'].
    apply (poker_ok_step t s); [done| |done|done|done|].
    + destruct Hsame as [Hq Ht], Hfu as [Hq' Ht']. split; [|congruence]. intros q. by rewrite Hq', Hq.
    + split; [done|]. cbn. by rewrite Hslots, Hsl.
Qed.

Lemma tryRevealBoardThenBet_ok t s slots next s' :
  poker_ok t s -> finished (phase s) = false -> betting (phase s) = false ->
  NoDup (boardSlots s ++ slots) -> finished next = false ->
  slots_of next = boardSlots s ++ slots ->
  slots_of (match next with FlopBet => RevealTurn | TurnBet => RevealRiver | _ => Showdown end) = boardSlots s ++ slots ->
  tryRevealBoardThenBet s slots next = Ok s' -> poker_ok t s' /\ finished (phase s') = false.
Proof.
  intros H Hfin Hnb Hnd Hf Hn1 Hn2 E. unfold tryRevealBoardThenBet in E.
  destruct (_ || _); [apply Ok_inj in E; by subst|].
  apply rbind_ok in E as (s1 & E1 & E). pose proof (deal_ok t s slots s1 H Hfin Hnb E1 Hnd) as Hd.
  destruct (bettingClosed s1); apply Ok_inj in E; subst s'.
  - split; [|by destruct next]. apply Hd; [done|by destruct next|by destruct next].
  - split; [|done]. by apply Hd.
Qed.

(** Hole cards and antes. *)
Lemma hole_ok t s p h : poker_ok t s -> finished (phase s) = false -> poker_ok t (set_seat s p (with_hole (seat s p) h)).
Proof.
  intros H Hfin. apply (bet_move_ok t s); [done|done|by apply bet_seat| |done].
  by apply seat_bets, (k_bets _ _ H).
Qed.

Lemma antes_ok t s ante s' :
  0 <= ante -> poker_ok t s -> phase s = OpenPrivateHoles -> postAntesAndBeginStreet ante s PreflopBet = Ok s' ->
  poker_ok t s' /\ finished (phase s') = false.
Proof.
  intros Ha H Hp E. unfold postAntesAndBeginStreet in E. inv_ok. bool_to_prop. cbv zeta.
  set (x := fun y => with_bets y ante (streetBet y) (acted y)).
  assert (Hfin : finished (phase s) = false) by (by rewrite Hp).
  match goal with |- poker_ok t ?z /\ _ => set (s1 := z) end.
  destruct (beginStreet_bets (set_seat (set_seat s PartyA (x (seatA s))) PartyB (x (seatB s))) PreflopBet) as [Hb [Hf Hc]].
  { done. }
  { unfold stack. cbn. lia. }
  split; [|done]. apply (poker_ok_bets t s); [done| | |done|by rewrite Hp|done].
  - destruct Hf as [Hq Ht]. split; [|done]. intros q. specialize (Hq q). by destruct q.
  - destruct Hc as (E1 & E2 & E3 & Hq). split_and!; try done. intros q. specialize (Hq q). by destruct q.
Qed.

(** * The end of a hand *)

(** The hole cards of [p], from both parties' public reveals. *)
Definition holes (s : PokerState) (p : Party) (cs : list Z) : Prop :=
  Forall2 (fun slot c => card_of s slot c 0) (own_holes p) cs.

(** The hole cards that are not also on the board. *)
Definition live (s : PokerState) (h : list Z) : list Z :=
  List.filter (fun c => negb (bool_decide (c ∈ board s))) h.

(** The better of the two best hands wins. *)
Definition better (ba bb : BestHand) (w : PokerWinner) : Prop :=
  match w with
  | WinBy PartyA => score bb < score ba
  | WinBy PartyB => score ba < score bb
  | Tie => score ba = score bb
  end.

Definition showdown (s s' : PokerState) (w : PokerWinner) : Prop :=
  length (board s') = 5%nat /\ totalBet (seatA s) = totalBet (seatB s) /\
  exists ha hb ba bb, holes s' PartyA ha /\ holes s' PartyB hb /\
    bestPokerHand (live s' ha ++ board s') = Ok ba /\ bestPokerHand (live s' hb ++ board s') = Ok bb /\
    better ba bb w.

Lemma derivePublicHoleCards_ok s p cs : derivePublicHoleCards s p = Ok cs -> holes s p cs.
Proof.
  unfold derivePublicHoleCards, holes. revert cs. induction (own_holes p) as [|slot l IH]; intros cs E; cbn [rmap] in E.
  { apply Ok_inj in E. by subst. }
  apply rbind_ok in E as (c & Ec & E). apply rbind_ok in E as (cs' & Ecs & E). apply Ok_inj in E. subst cs.
  apply rbind_ok in Ec as ([x|] & Ex & Ec); [|done]. apply Ok_inj in Ec. subst x.
  constructor; [by apply deriveSlotCard_public|by apply IH].
Qed.

Lemma shown_ok t s p h : poker_ok t s -> finished (phase s) = false -> poker_ok t (set_seat s p (with_shown (seat s p) h)).
Proof.
  intros H Hfin. apply (bet_move_ok t s); [done|done|by apply bet_seat| |done].
  by apply seat_bets, (k_bets _ _ H).
Qed.

Lemma resolveShowdown_end t s s' ha hb :
  poker_ok t s -> phase s = Showdown -> shownHole (seatA s) = Some ha -> shownHole (seatB s) = Some hb ->
  holes s PartyA ha -> holes s PartyB hb -> resolveShowdown s = Ok s' ->
  exists w, hand_end t s s' w /\ showdown s s' w.
Proof.
  intros H Hp EA EB HA HB E. unfold resolveShowdown in E. rewrite EA, EB in E. cbv zeta in E.
  assert (Hfin : finished (phase s) = false) by (by rewrite Hp).
  apply rbind_ok in E as (ba & Ea & E). apply rbind_ok in E as (bb & Eb & E). apply Ok_inj in E.
  match type of E with set_result _ ?w ?r = _ => pose proof (finish_hand t s w r H Hfin) as He; set (w0 := w) in * end.
  assert (Hw : better ba bb w0).
  { unfold w0. destruct (Z.ltb_spec (score bb) (score ba)); [done|]. destruct (Z.ltb_spec (score ba) (score bb)); cbn; lia. }
  clearbody w0. rewrite E in He. exists w0. split; [done|].
  assert (Hsame : same_cards s s').
  { rewrite <- E. destruct w0 as [p|]; [|done]. destruct (poker_settle_keeps s p (contestedAmount s)) as (_ & E1 & E2 & E3 & E4 & Hq).
    split_and!; [done..|]. intros q. by destruct (Hq q) as (? & ? & _). }
  destruct Hsame as (E1 & E2 & E3 & Hq). pose proof (k_board _ _ H) as (_ & _ & Hl & _).
  pose proof (k_bets _ _ H Hfin) as Hb. pose proof (b_matched _ Hb). destruct (b_closed _ Hb) as [H0A H0B]; [by rewrite Hp|].
  unfold showdown, live. rewrite E1. split_and!.
  - by rewrite Hl, (k_slots _ _ H Hfin), Hp.
  - lia.
  - exists ha, hb, ba, bb. split_and!; try done.
    + eapply Forall2_impl; [exact HA|]. intros slot c. apply card_of_same. intros q. apply Hq.
    + eapply Forall2_impl; [exact HB|]. intros slot c. apply card_of_same. intros q. apply Hq.
Qed.

(** What the reveals of a phase lead to. *)
Lemma after_reveals_ok t ante s s' :
  0 <= ante -> poker_ok t s -> finished (phase s) = false -> betting (phase s) = false ->
  after_reveals ante s = Ok s' ->
  (poker_ok t s' /\ finished (phase s') = false) \/
  (phase s = Showdown /\ exists w, hand_end t s s' w /\ showdown s s' w).
Proof.
  intros Ha H Hfin Hnb E. pose proof (k_slots _ _ H Hfin) as Hsl. unfold after_reveals in E.
  destruct (phase s) eqn:Hp; try done; cbn [slots_of] in Hsl.
  - apply Ok_inj in E. subst. left. by rewrite Hp.
  - left. destruct (_ && _); [|apply Ok_inj in E; subst; by rewrite Hp].
    apply rbind_ok in E as (hA & _ & E). apply rbind_ok in E as (hB & _ & E). cbv zeta in E.
    apply (antes_ok t) in E; [done|done| |done].
    apply (hole_ok t (set_seat s PartyA (with_hole (seat s PartyA) hA)) PartyB hB); [|cbn; by rewrite Hp].
    apply hole_ok; [done|by rewrite Hp].
  - left. apply (tryRevealBoardThenBet_ok t) in E; rewrite ?Hsl, ?Hp; try done. by vm_compute; repeat constructor; set_solver.
  - left. apply (tryRevealBoardThenBet_ok t) in E; rewrite ?Hsl, ?Hp; try done. by vm_compute; repeat constructor; set_solver.
  - left. apply (tryRevealBoardThenBet_ok t) in E; rewrite ?Hsl, ?Hp; try done. by vm_compute; repeat constructor; set_solver.
  - destruct (_ && _); [|left; apply Ok_inj in E; subst; by rewrite Hp]. right. split; [done|].
    apply rbind_ok in E as (hA & EA & E). apply rbind_ok in E as (hB & EB & E).
    apply derivePublicHoleCards_ok in EA, EB.
    set (s1 := set_seat s PartyA (with_shown (seatA s) hA)) in *.
    assert (Hp1 : poker_ok t (set_seat s1 PartyB (with_shown (seatB s) hB))).
    { apply (shown_ok t s1 PartyB hB); [|cbn; by rewrite Hp]. apply (shown_ok t s PartyA hA); [done|by rewrite Hp]. }
    destruct (resolveShowdown_end t _ s' hA hB Hp1 Hp eq_refl eq_refl) as (w & Hw & Hs); [| |done|by exists w].
    + eapply Forall2_impl; [exact EA|]. intros slot c. apply card_of_same. by intros [].
    + eapply Forall2_impl; [exact EB|]. intros slot c. apply card_of_same. by intros [].
Qed.

Lemma applyRevealSlots_ok t ante s m by_ s' :
  0 <= ante -> poker_ok t s -> finished (phase s) = false -> betting (phase s) = false ->
  applyRevealSlots ante s m by_ = Ok s' ->
  (poker_ok t s' /\ finished (phase s') = false) \/
  (phase s = Showdown /\ exists w, hand_end t s s' w /\ showdown s s' w).
Proof.
  intros Ha H Hfin Hnb E. unfold applyRevealSlots in E. destruct m; try done. inv_ok.
  destruct (commitArrayFor s by_) as [commits|] eqn:Ec; [|done]. inv_ok.
  match goal with Hr : rfold _ _ _ = Ok ?x |- _ => pose proof (recorded_ok t s by_ commits _ x H Hfin Ec Hr) as H1 end.
  destruct (after_reveals_ok t ante _ s' Ha H1 Hfin Hnb E) as [?|(Hp & w & He & Hs)]; [by left|right].
  split; [done|]. exists w. unfold hand_end, showdown, pays, contestedAmount in *. by destruct by_, w as [[]|].
Qed.

(** How a hand that ends with the move [m] of [by_] is decided. *)
Inductive hand_won (s : PokerState) (m : PokerMove) (by_ : Party) (s' : PokerState) : PokerWinner -> Prop :=
  | won_by_fold :
      m = Fold_ -> betting (phase s) = true -> toAct s = by_ -> hand_won s m by_ s' (WinBy (otherParty by_))
  | won_by_forfeit owed :
      m = Forfeit -> expectedQuantumPokerRevealSlots s by_ = Ok [] ->
      expectedQuantumPokerRevealSlots s (otherParty by_) = Ok owed -> owed <> [] -> hand_won s m by_ s' (WinBy by_)
  | won_at_showdown w :
      phase s = Showdown -> showdown s s' w -> hand_won s m by_ s' w.

Lemma expected_open s p l : expectedQuantumPokerRevealSlots s p = Ok l -> finished (phase s) = false.
Proof. unfold expectedQuantumPokerRevealSlots. by destruct (phase s). Qed.

Lemma claimForfeit_ok t s by_ s' :
  poker_ok t s -> claimForfeit s by_ = Ok s' ->
  hand_end t s s' (WinBy by_) /\ hand_won s Forfeit by_ s' (WinBy by_) /\ finished (phase s) = false.
Proof.
  intros H E. unfold claimForfeit in E.
  destruct (expectedQuantumPokerRevealSlots s by_) as [mine|] eqn:E1; [|done].
  destruct (expectedQuantumPokerRevealSlots s (otherParty by_)) as [owed|] eqn:E2; [|done].
  pose proof (expected_open _ _ _ E1) as Hfin. inv_ok. destruct mine; [|done]. destruct owed; [done|].
  apply (resolveFold_end t) in E; [|done..]. rewrite otherParty_involutive in E. split_and!; [done| |done].
  by eapply won_by_forfeit.
Qed.

(** A hand that begins, or a game that is over. *)
Lemma fresh_hand t s a b :
  0 <= a -> 0 <= b -> a + b = t -> total s = t -> seatA s = fresh_seat a -> seatB s = fresh_seat b ->
  board s = [] -> boardSlots s = [] -> boardCounters s = [] -> phase s = CommitPhase \/ phase s = Done ->
  poker_ok t s.
Proof.
  intros Ha Hb Hsum Ht EA EB E1 E2 E3 Hp. split; try done.
  - intros []; cbn; rewrite ?EA, ?EB; done.
  - by rewrite EA, EB.
  - intros _. split; unfold stack; cbn; rewrite ?EA, ?EB; cbn; try done.
    + intros []; cbn; rewrite ?EA, ?EB; done.
    + intros []; cbn; rewrite ?EA, ?EB; cbn; lia.
  - rewrite E2. by destruct Hp as [-> | ->].
  - rewrite E2. apply prefix_nil.
  - unfold board_ok. rewrite E1, E2, E3. split_and!; try done. apply NoDup_nil_2.
  - intros q slot r Hq. unfold reveal_at, revealArrayFor in Hq.
    replace (reveals (seat s q)) with emptyRevealSlots in Hq by (destruct q; cbn; by rewrite ?EA, ?EB).
    unfold emptyRevealSlots in Hq. rewrite nth_lookup in Hq.
    destruct (decide (Z.to_nat slot < SLOT_COUNT)%nat);
      [rewrite lookup_replicate_2 in Hq by done|rewrite lookup_ge_None_2 in Hq by (rewrite length_replicate; lia)]; done.
Qed.

(** One move: it ends the hand or leaves the balances as they were. *)
Lemma applyMove_cases t ante s m by_ s' :
  0 <= ante -> poker_ok t s -> applyMove ante s m by_ = Ok s' ->
  (finished (phase s) = false /\ exists w, hand_end t s s' w /\ hand_won s m by_ s' w) \/
  (poker_ok t s' /\ phase s' <> HandOver).
Proof.
  intros Ha H E.
  assert (Hf : m = Forfeit \/ m <> Forfeit) by (destruct m; auto). destruct Hf as [->|Hm].
  { apply (claimForfeit_ok t) in E as (He & Hw & Hfin); [|done]. left. split; [done|]. by exists (WinBy by_). }
  assert (Hgo : poker_ok t s' /\ finished (phase s') = false -> poker_ok t s' /\ phase s' <> HandOver).
  { intros [H1 H2]. split; [done|]. intros Hp. by rewrite Hp in H2. }
  assert (Hrev : finished (phase s) = false -> betting (phase s) = false -> applyRevealSlots ante s m by_ = Ok s' ->
    (finished (phase s) = false /\ exists w, hand_end t s s' w /\ hand_won s m by_ s' w) \/
    (poker_ok t s' /\ phase s' <> HandOver)).
  { intros H1 H2 Er. apply (applyRevealSlots_ok t) in Er as [?|(Hp & w & He & Hs)]; [right; by apply Hgo| |done..].
    left. split; [done|]. exists w. split; [done|]. by apply won_at_showdown. }
  assert (Hbet : betting (phase s) = true -> applyBet s m by_ = Ok s' ->
    (finished (phase s) = false /\ exists w, hand_end t s s' w /\ hand_won s m by_ s' w) \/
    (poker_ok t s' /\ phase s' <> HandOver)).
  { intros Hb Eb. pose proof Eb as Eb0. apply (applyBet_ok t) in Eb as [[-> He]|[_ ?]]; [|right; by apply Hgo|done..].
    left. split; [by destruct (phase s)|]. exists (WinBy (otherParty by_)). split; [done|].
    apply won_by_fold; [done..|]. unfold applyBet in Eb0. inv_ok. bool_to_prop. by apply party_eqb_spec. }
  assert (Hcommit : phase s = CommitPhase -> applyCommit s m by_ = Ok s' -> poker_ok t s' /\ phase s' <> HandOver).
  { intros Hp Ec. apply Hgo. by apply (applyCommit_ok t s m by_). }
  assert (Hnext : phase s = HandOver -> applyNextHand ante s m = Ok s' -> poker_ok t s' /\ phase s' <> HandOver).
  { intros Hp En. unfold applyNextHand in En. destruct m; try done. apply Ok_inj in En. subst s'.
    pose proof (k_bal _ _ H PartyA). pose proof (k_bal _ _ H PartyB). split; [|cbn; by destruct (_ && _)].
    apply (fresh_hand _ _ (balance (seatA s)) (balance (seatB s))); try done.
    - apply (k_sum _ _ H).
    - apply (k_total _ _ H).
    - cbn. destruct (_ && _); auto. }
  unfold applyMove in E. destruct m; try done; destruct (phase s) eqn:Hp; auto; try done.
Qed.

(** * Moves that do not end a hand move no money *)

Lemma set_seat_balances s p x : balance x = balance (seat s p) -> balances (set_seat s p x) = balances s.
Proof. unfold balances. destruct p; cbn; by intros ->. Qed.

Lemma afterBetAction_balances s s' : afterBetAction s = Ok s' -> balances s' = balances s.
Proof.
  unfold afterBetAction, advanceStreet. destruct (_ && _); [destruct (phase s)|]; intros E; inv_ok; done.
Qed.

Lemma applyBet_balances s m by_ s' : applyBet s m by_ = Ok s' -> m <> Fold_ -> balances s' = balances s.
Proof.
  intros E Hm. unfold applyBet in E. inv_ok. destruct m; try done.
  - unfold applyBetOrRaise in E. inv_ok. by destruct by_.
  - unfold applyCheck in E. inv_ok. apply afterBetAction_balances in E. rewrite E. by destruct by_.
  - unfold applyCall in E. inv_ok. apply afterBetAction_balances in E. rewrite E. by destruct by_.
Qed.

Lemma push_board_balances slots s s' : push_board s slots = Ok s' -> balances s' = balances s.
Proof.
  unfold push_board. revert s. induction slots as [|slot slots IH]; intros s E; cbn [rfold] in E.
  { apply Ok_inj in E. by subst. }
  apply rbind_ok in E as (s1 & E1 & E). rewrite (IH s1 E). case_bool_decide; inv_ok; done.
Qed.

Lemma tryRevealBoardThenBet_balances s slots ph s' :
  tryRevealBoardThenBet s slots ph = Ok s' -> balances s' = balances s.
Proof.
  unfold tryRevealBoardThenBet. destruct (_ || _); intros E; [by apply Ok_inj in E; subst|].
  apply rbind_ok in E as (s1 & E1 & E). apply push_board_balances in E1.
  destruct (bettingClosed s1); apply Ok_inj in E; subst s'; exact E1.
Qed.

Lemma after_reveals_balances ante s s' :
  after_reveals ante s = Ok s' -> phase s' <> HandOver -> balances s' = balances s.
Proof.
  unfold after_reveals. intros E Hp. destruct (phase s);
    try (apply Ok_inj in E; by subst); try (by eapply tryRevealBoardThenBet_balances);
    (destruct (_ && _); [|apply Ok_inj in E; by subst]); inv_ok.
  - unfold postAntesAndBeginStreet in E. inv_ok. done.
  - unfold resolveShowdown in E. cbn in E. inv_ok. done.
Qed.

Lemma applyMove_balances ante s m by_ s' :
  applyMove ante s m by_ = Ok s' -> phase s' <> HandOver -> balances s' = balances s.
Proof.
  intros E Hp.
  assert (Hf : forall f x, resolveFold (set_folded s f) = Ok x -> phase x = HandOver).
  { intros f x Ex. unfold resolveFold in Ex. cbn in Ex. apply Ok_inj in Ex. by subst. }
  assert (Hbet : applyBet s m by_ = Ok s' -> balances s' = balances s).
  { intros Eb. destruct (match m with Fold_ => true | _ => false end) eqn:Em.
    - destruct m; try done. unfold applyBet in Eb. inv_ok. by apply Hf in Eb.
    - apply (applyBet_balances _ _ _ _ Eb). by destruct m. }
  assert (Hrev : applyRevealSlots ante s m by_ = Ok s' -> balances s' = balances s).
  { intros Er. unfold applyRevealSlots in Er. destruct m; try done. inv_ok.
    destruct (commitArrayFor s by_); [|done]. inv_ok. apply after_reveals_balances in Er; [|done].
    rewrite Er. by destruct by_. }
  assert (Hcom : applyCommit s m by_ = Ok s' -> balances s' = balances s).
  { intros Ec. unfold applyCommit in Ec. destruct m; try done. inv_ok. destruct (_ && _); by destruct by_. }
  assert (Hnext : applyNextHand ante s m = Ok s' -> balances s' = balances s).
  { intros En. unfold applyNextHand in En. destruct m; try done. apply Ok_inj in En. by subst. }
  unfold applyMove in E. destruct m; try (destruct (phase s); auto; done).
  unfold claimForfeit in E. destruct (expectedQuantumPokerRevealSlots s by_); [|done].
  destruct (expectedQuantumPokerRevealSlots s (otherParty by_)); [|done]. inv_ok. by apply Hf in E.
Qed.

Section Rules.
Context (cap ante : Z) (Hante : 0 <= ante).

Lemma poker_step t s m by_ s' : poker_ok t s -> applyMove ante s m by_ = Ok s' -> poker_ok t s'.
Proof.
  intros H E. apply (applyMove_cases t) in E as [(_ & w & He & _)|[? _]]; [by apply He|done|done|done].
Qed.

Lemma poker_initial ctx :
  lockable (initialBalances ctx) -> poker_ok (sum_of (initialBalances ctx)) (initialState cap ante ctx).
Proof.
  intros (Ha & Hb & _).
  apply (fresh_hand _ _ (bal_a (initialBalances ctx)) (bal_b (initialBalances ctx))); try done.
  cbn. destruct (_ && _); auto.
Qed.

#[export] Instance QuantumPokerLaws : ProtocolLaws (QuantumPokerProtocol cap ante) poker_ok (fun _ => True).
Proof.
  split.
  - intros ctx s _ Hl E. apply Ok_inj in E. subst s. split; [by apply poker_initial|].
    unfold Protocol.balances, QuantumPokerProtocol, balances. cbn. by destruct (initialBalances ctx).
  - intros t s m by_ s' H E. by apply (poker_step t s m by_).
  - intros t s H. pose proof (k_bal _ _ H PartyA) as HA. pose proof (k_bal _ _ H PartyB) as HB.
    split_and!; [exact HA|exact HB|exact (k_sum _ _ H)].
Qed.

Lemma poker_reachable ctx ms s :
  lockable (initialBalances ctx) -> run (QuantumPokerProtocol cap ante) (initialState cap ante ctx) ms = Ok s ->
  poker_ok (sum_of (initialBalances ctx)) s.
Proof.
  intros Hl H. by apply (run_from_initial (QuantumPokerProtocol cap ante) poker_ok (fun _ => True) ctx (initialState cap ante ctx) ms).
Qed.

(** C26: a poker hand moves exactly the matched bets.  Whatever moves both
    parties made, the next accepted move either leaves the balances alone, or
    ends the hand: then the amount both sides have at stake, never more than the
    shorter stack, goes to the opponent of the party that folded, to the party
    that claimed an owed reveal, or at the showdown to the better hand of live
    hole cards and the five cards of the board; a tie moves nothing. *)
Theorem poker_hand_pays ctx ms s m by_ s' :
  lockable (initialBalances ctx) -> run (QuantumPokerProtocol cap ante) (initialState cap ante ctx) ms = Ok s ->
  applyMove ante s m by_ = Ok s' ->
  0 <= balance (seatA s') /\ 0 <= balance (seatB s') /\
  balance (seatA s') + balance (seatB s') = sum_of (initialBalances ctx) /\
  ((phase s' <> HandOver /\ balances s' = balances s) \/
   (phase s' = HandOver /\ 0 <= contestedAmount s <= stack s /\
    exists w, winner s' = Some w /\ hand_won s m by_ s' w /\ pays w (contestedAmount s) s s')).
Proof.
  intros Hl Hrun E. pose proof (poker_reachable ctx ms s Hl Hrun) as H.
  pose proof (poker_step _ _ _ _ _ H E) as H'.
  split; [exact (k_bal _ _ H' PartyA)|]. split; [exact (k_bal _ _ H' PartyB)|]. split; [exact (k_sum _ _ H')|].
  pose proof E as E0. apply (applyMove_cases _ _ _ _ _ _ Hante H) in E as [(Hfin & w & (_ & Hp & Hw & Hpay) & Hwon)|[_ Hp]].
  - right. split; [done|]. split; [|by exists w]. apply contested_stack. by apply (k_bets _ _ H).
  - left. split; [done|]. by apply (applyMove_balances ante s m by_).
Qed.

(** * The board is fixed by the commitments *)

(** Two different openings with one digest. *)
Definition collide (r1 r2 : SlotReveal) : Prop :=
  exists p1 p2, commitment_preimage (value r1) (salt r1) = Ok p1 /\
    commitment_preimage (value r2) (salt r2) = Ok p2 /\ p1 <> p2 /\ blake2b256 p1 = blake2b256 p2.

Lemma openings_same h r1 r2 :
  verifyCommitment h (value r1) (salt r1) = Ok true -> verifyCommitment h (value r2) (salt r2) = Ok true ->
  r1 = r2 \/ collide r1 r2.
Proof.
  intros (p1 & E1 & H1)%verifyCommitment_true (p2 & E2 & H2)%verifyCommitment_true.
  destruct (decide (p1 = p2)) as [->|Hne].
  - left. destruct r1, r2. simpl in *. by destruct (commitment_preimage_inj _ _ _ _ _ E1 E2) as [-> ->].
  - right. exists p1, p2. by rewrite H1, H2.
Qed.

(** The two states show a collision of the hash in some slot. *)
Definition broken (s1 s2 : PokerState) : Prop :=
  exists p slot r1 r2, reveal_at (revealArrayFor s1 p) slot = Some r1 /\
    reveal_at (revealArrayFor s2 p) slot = Some r2 /\ collide r1 r2.

Definition same_commits (s1 s2 : PokerState) : Prop := forall p, commit (seat s1 p) = commit (seat s2 p).

Lemma reveals_same t1 t2 s1 s2 p slot r1 r2 :
  poker_ok t1 s1 -> poker_ok t2 s2 -> same_commits s1 s2 ->
  reveal_at (revealArrayFor s1 p) slot = Some r1 -> reveal_at (revealArrayFor s2 p) slot = Some r2 ->
  r1 = r2 \/ broken s1 s2.
Proof.
  intros H1 H2 Hc E1 E2. destruct (k_reveals _ _ H1 _ _ _ E1) as (c1 & C1 & V1).
  destruct (k_reveals _ _ H2 _ _ _ E2) as (c2 & C2 & V2). unfold commitArrayFor in *. rewrite Hc, C2 in C1. simplify_eq.
  destruct (openings_same _ r1 r2 V1 V2) as [?|?]; [by left|right]. by exists p, slot, r1, r2.
Qed.

Lemma card_of_agree t1 t2 s1 s2 slot c1 c2 k :
  poker_ok t1 s1 -> poker_ok t2 s2 -> same_commits s1 s2 ->
  card_of s1 slot c1 k -> card_of s2 slot c2 k -> c1 = c2 \/ broken s1 s2.
Proof.
  intros H1 H2 Hc (a1 & b1 & A1 & B1 & E1) (a2 & b2 & A2 & B2 & E2).
  destruct (reveals_same _ _ _ _ _ _ _ _ H1 H2 Hc A1 A2) as [->|?]; [|by right].
  destruct (reveals_same _ _ _ _ _ _ _ _ H1 H2 Hc B1 B2) as [->|?]; [|by right].
  left. congruence.
Qed.

Lemma dealt_agree t1 t2 s1 s2 used slot c1 c2 k1 k2 :
  poker_ok t1 s1 -> poker_ok t2 s2 -> same_commits s1 s2 ->
  dealt s1 used slot c1 k1 -> dealt s2 used slot c2 k2 -> c1 = c2 \/ broken s1 s2.
Proof.
  intros H1 H2 Hc (N1 & K1 & D1 & J1) (N2 & K2 & D2 & J2).
  destruct (Z.lt_trichotomy k1 k2) as [Hlt|[->|Hlt]].
  - destruct (J2 k1 ltac:(lia)) as (c & Hcc & Hin).
    destruct (card_of_agree _ _ _ _ _ _ _ _ H1 H2 Hc D1 Hcc) as [->|?]; [done|by right].
  - by eapply (card_of_agree t1 t2).
  - destruct (J1 k2 ltac:(lia)) as (c & Hcc & Hin).
    destruct (card_of_agree _ _ _ _ _ _ _ _ H1 H2 Hc Hcc D2) as [->|?]; [done|by right].
Qed.

Lemma board_lookup t s i c :
  poker_ok t s -> board s !! i = Some c ->
  exists slot k, BOARD_SLOTS !! i = Some slot /\ dealt s (take i (board s)) slot c k.
Proof.
  intros H Hi. destruct (k_board _ _ H) as (_ & _ & Hl1 & Hl2 & Hcards). pose proof (lookup_lt_Some _ _ _ Hi) as Hlt.
  destruct (lookup_lt_is_Some_2 (boardSlots s) i ltac:(lia)) as [slot Hs].
  destruct (lookup_lt_is_Some_2 (boardCounters s) i ltac:(lia)) as [k Hk].
  exists slot, k. split; [|by apply (Hcards i)]. destruct (k_prefix _ _ H) as [rest ->]. by apply lookup_app_l_Some.
Qed.

Lemma boards_agree t1 t2 s1 s2 n :
  poker_ok t1 s1 -> poker_ok t2 s2 -> same_commits s1 s2 ->
  (n <= length (board s1))%nat -> (n <= length (board s2))%nat ->
  take n (board s1) = take n (board s2) \/ broken s1 s2.
Proof.
  intros H1 H2 Hc. induction n as [|n IH]; intros L1 L2; [by left|].
  destruct (lookup_lt_is_Some_2 (board s1) n L1) as [c1 E1]. destruct (lookup_lt_is_Some_2 (board s2) n L2) as [c2 E2].
  destruct (IH ltac:(lia) ltac:(lia)) as [Heq|?]; [|by right].
  destruct (board_lookup _ _ _ _ H1 E1) as (sl1 & k1 & S1 & D1).
  destruct (board_lookup _ _ _ _ H2 E2) as (sl2 & k2 & S2 & D2).
  rewrite S1 in S2. simplify_eq. rewrite Heq in D1.
  destruct (dealt_agree _ _ _ _ _ _ _ _ _ _ H1 H2 Hc D1 D2) as [->|?]; [left|by right].
  by rewrite (take_S_r _ _ _ E1), (take_S_r _ _ _ E2), Heq.
Qed.

(** The board is decided by the commitments.  The cards on the table are
    distinct, between 0 and 51, one for each slot of the streets already opened,
    each the first card of its slot not yet on the board; and two hands played
    on the same commitments, whatever the parties bet and in whichever order
    they reveal, show the same cards as far as both get, unless a party opens
    one commitment in two ways. *)
Theorem poker_board_is_committed ctx1 ctx2 ms1 ms2 s1 s2 :
  lockable (initialBalances ctx1) -> lockable (initialBalances ctx2) ->
  run (QuantumPokerProtocol cap ante) (initialState cap ante ctx1) ms1 = Ok s1 ->
  run (QuantumPokerProtocol cap ante) (initialState cap ante ctx2) ms2 = Ok s2 -> same_commits s1 s2 ->
  NoDup (board s1) /\ Forall card_ok (board s1) /\ boardSlots s1 `prefix_of` BOARD_SLOTS /\
  (finished (phase s1) = false -> length (board s1) = length (slots_of (phase s1))) /\
  (board s1 `prefix_of` board s2 \/ board s2 `prefix_of` board s1 \/ broken s1 s2).
Proof.
  intros Hl1 Hl2 R1 R2 Hc. pose proof (poker_reachable ctx1 ms1 s1 Hl1 R1) as H1.
  pose proof (poker_reachable ctx2 ms2 s2 Hl2 R2) as H2. destruct (k_board _ _ H1) as (Hnd & Hall & Hlen & _).
  split_and!; [done|done|exact (k_prefix _ _ H1)| |].
  - intros Hf. by rewrite Hlen, (k_slots _ _ H1 Hf).
  - destruct (Nat.le_ge_cases (length (board s1)) (length (board s2))) as [Hle|Hle].
    + destruct (boards_agree _ _ s1 s2 (length (board s1)) H1 H2 Hc) as [E|?]; [lia|lia| |by auto].
      left. rewrite take_ge in E by lia. rewrite E. apply prefix_take.
    + destruct (boards_agree _ _ s1 s2 (length (board s2)) H1 H2 Hc) as [E|?]; [lia|lia| |by auto].
      right; left. rewrite (take_ge (board s2)) in E by lia. rewrite <- E. apply prefix_take.
Qed.

End Rules.
End WithCrypto.

(** * A played hand *)

Definition secret (p : Party) (slot : Z) : SlotReveal :=
  {| value := [match p with PartyA => 17 | PartyB => 90 end + 7 * slot * slot];
     salt := replicate 16 (match p with PartyA => 3 | PartyB => 5 end + slot) |}.

Definition commits_of (p : Party) : list bytes :=
  match commitSlotSecrets (C := toy_crypto) (map (secret p) (seqZ 0 9)) with Ok cs => cs | Throw _ => [] end.

Definition reveal_move (p : Party) (slots : list Z) : PokerMove * Party :=
  (RevealSlots (map JsInt slots) (map (secret p) slots), p).

Definition commit_moves : list (PokerMove * Party) :=
  [(CommitSlots (commits_of PartyA) None, PartyA); (CommitSlots (commits_of PartyB) None, PartyB)].

Definition open_moves (sa sb : list Z) : list (PokerMove * Party) := [reveal_move PartyA sa; reveal_move PartyB sb].

Definition hand_moves : list (PokerMove * Party) :=
  commit_moves ++ open_moves B_HOLE_SLOTS A_HOLE_SLOTS ++
  [(BetMove 20, PartyA); (Call_, PartyB)] ++
  open_moves FLOP_SLOTS FLOP_SLOTS ++ [(Check_, PartyA); (Check_, PartyB)] ++
  open_moves TURN_SLOTS TURN_SLOTS ++ [(Check_, PartyA); (Check_, PartyB)] ++
  open_moves RIVER_SLOTS RIVER_SLOTS ++ [(Check_, PartyA); (Check_, PartyB)] ++
  [reveal_move PartyA A_HOLE_SLOTS].

Definition poker_ctx : ProtocolContext :=
  {| ctx_tunnelId := "0xC1"; initialBalances := {| bal_a := 200; bal_b := 120 |} |}.

Notation toy_poker := (QuantumPokerProtocol (C := toy_crypto) 10 ANTE).
Notation toy_start := (QuantumPoker.initialState 10 ANTE poker_ctx).

Lemma poker_ctx_lockable : lockable (initialBalances poker_ctx).
Proof. unfold lockable, sum_of; simpl; rewrite U64_MAX_eq; lia. Qed.

Lemma hand_facts :
  match run toy_poker toy_start hand_moves with
  | Ok s =>
      match QuantumPoker.applyMove (C := toy_crypto) ANTE s (fst (reveal_move PartyB B_HOLE_SLOTS)) PartyB with
      | Ok s' => bool_decide (phase s' = HandOver) && (winnerCode (winner s') =? 2) && (contestedAmount s =? 70) &&
                 (balance (seatA s) =? 200) && (balance (seatB s) =? 120)
      | Throw _ => false
      end
  | Throw _ => false
  end = true.
Proof. vm_compute. reflexivity. Qed.

Lemma poker_hand_pays_witness :
  exists s s', run toy_poker toy_start hand_moves = Ok s /\
    QuantumPoker.applyMove (C := toy_crypto) ANTE s (fst (reveal_move PartyB B_HOLE_SLOTS)) PartyB = Ok s' /\
    balance (seatA s') = 130 /\ balance (seatB s') = 190.
Proof.
  pose proof hand_facts as F.
  destruct (run toy_poker toy_start hand_moves) as [s|] eqn:Hrun; [|discriminate F].
  destruct (QuantumPoker.applyMove ANTE s (fst (reveal_move PartyB B_HOLE_SLOTS)) PartyB) as [s'|] eqn:Hlast; [|discriminate F].
  destruct (poker_hand_pays 10 ANTE ltac:(unfold ANTE; lia) poker_ctx hand_moves s
    (fst (reveal_move PartyB B_HOLE_SLOTS)) PartyB s' poker_ctx_lockable Hrun Hlast) as (_ & _ & _ & Hr).
  exists s, s'. split; [reflexivity|]. split; [exact Hlast|]. clear Hrun Hlast. bool_to_prop.
  destruct Hr as [[Hp _]|(_ & _ & w & Hw & _ & Hpay)]; [by destruct Hp|].
  rewrite Hw in *. destruct w as [[]|]; cbn in *; lia.
Defined.

Lemma board_facts :
  match run toy_poker toy_start (take 8 hand_moves), run toy_poker toy_start (take 12 hand_moves) with
  | Ok s1, Ok s2 => bool_decide (commit (seatA s1) = commit (seatA s2)) && bool_decide (commit (seatB s1) = commit (seatB s2)) &&
                    (length (board s1) =? 3)%nat && (length (board s2) =? 4)%nat
  | _, _ => false
  end = true.
Proof. vm_compute. reflexivity. Qed.

Lemma poker_board_is_committed_witness :
  exists s1 s2, run toy_poker toy_start (take 8 hand_moves) = Ok s1 /\
    run toy_poker toy_start (take 12 hand_moves) = Ok s2 /\ length (board s1) = 3%nat /\ NoDup (board s1) /\
    (board s1 `prefix_of` board s2 \/ broken (C := toy_crypto) s1 s2).
Proof.
  pose proof board_facts as F.
  destruct (run toy_poker toy_start (take 8 hand_moves)) as [s1|] eqn:R1; [|discriminate F].
  destruct (run toy_poker toy_start (take 12 hand_moves)) as [s2|] eqn:R2; [|discriminate F].
  pose proof (poker_board_is_committed 10 ANTE ltac:(unfold ANTE; lia) poker_ctx poker_ctx (take 8 hand_moves) (take 12 hand_moves)
    s1 s2 poker_ctx_lockable poker_ctx_lockable R1 R2) as H.
  exists s1, s2. split; [reflexivity|]. split; [reflexivity|]. clear R1 R2. bool_to_prop.
  destruct H as (Hn & _ & _ & _ & Hp); [by intros []|]. split; [assumption|]. split; [exact Hn|].
  destruct Hp as [Hp|[Hp|Hp]]; [by left| |by right].
  apply prefix_length in Hp. lia.
Defined.
