(* ===== verification/Rng.v ===== *)
(** The seeded generator of the simulations, [sui-tunnel-ts/src/sim/rng.ts], which the
    real-time games carry a copy of: 32-bit
    integers with their wrap-around; a draw [k] stands for the number [k / 2^32].  *)
From S2P Require Import Prelude.

Definition W32 : Z := 2 ^ 32.
(** [x >>> 0] *)
Definition u32 (x : Z) : Z := x mod W32.
(** [Math.imul], as an unsigned number *)
Definition imul (x y : Z) : Z := u32 (x * y).

(** [src sim/rng.ts:18-22 mulberry32]: the next state and the draw.  The source
    keeps [a] and [t] signed; shifts here are of the unsigned value ([>>>]), and
    every other operation is the same modulo [2^32]. *)
Definition mulberry32_next (a : Z) : Z * Z :=
  let a' := u32 (a + 0x6d2b79f5) in
  let t := imul (Z.lxor a' (Z.shiftr a' 15)) (Z.lor 1 a') in
  let t' := Z.lxor (u32 (t + imul (Z.lxor t (Z.shiftr t 7)) (Z.lor 61 t))) t in
  (a', u32 (Z.lxor t' (Z.shiftr t' 14))).

(** [src sim/rng.ts mulberry32]: the generator's state after [n] calls. *)
Fixpoint mulberry32_state (seed : Z) (n : nat) : Z :=
  match n with O => u32 seed | S n' => fst (mulberry32_next (mulberry32_state seed n')) end.

(** [src sim/rng.ts mulberry32]: the [n]-th number, as a numerator over [2^32]. *)
Definition mulberry32 (seed : Z) (n : nat) : Z := snd (mulberry32_next (mulberry32_state seed n)).

(** [src sim/rng.ts deriveSeed], for a sum that a number holds exactly (below
    [2^53]) *)
Definition deriveSeed (seed index : Z) : Z :=
  let z := u32 (seed + index * 0x9e3779b9) in
  let z := imul (Z.lxor z (Z.shiftr z 16)) 0x21f0aaad in
  let z := imul (Z.lxor z (Z.shiftr z 15)) 0x735a2d97 in
  u32 (Z.lxor z (Z.shiftr z 15)).

(** [rng() < num / den] for a draw [k]: exact for the fractions of the code, whose
    doubles are closer to [num / den] than [1 / 2^32] times the distance of
    [num / den * 2^32] to an integer. *)
Definition draw_below (k num den : Z) : bool := k * den <? num * W32.

(** [Math.floor(rng() * n)] for a draw [k] and a small [n] *)
Definition draw_index (k n : Z) : Z := k * n / W32.

(** [src protocol/bombIt.ts seedFromTunnelId], and the same function in
    [protocol/cross.ts]: FNV-1a over the characters of the id, which are ASCII. *)
Fixpoint fnv1a (h : Z) (id : string) : Z :=
  match id with
  | EmptyString => h
  | String c id' => fnv1a (imul (Z.lxor h (Z.of_N (Ascii.N_of_ascii c))) 16777619) id'
  end.
Definition seedFromTunnelId (tunnelId : string) : Z := fnv1a 2166136261 tunnelId.

Lemma W32_pos : 0 < W32.
Proof. reflexivity. Qed.

Lemma u32_range x : 0 <= u32 x < W32.
Proof. apply Z.mod_pos_bound, W32_pos. Qed.

Lemma draw_index_range k n : 0 < n -> 0 <= k < W32 -> 0 <= draw_index k n < n.
Proof.
  intros Hn Hk. unfold draw_index. pose proof W32_pos. split; [apply Z.div_pos; nia|].
  apply Z.div_lt_upper_bound; nia.
Qed.

Lemma seedFromTunnelId_range id : 0 <= seedFromTunnelId id < W32.
Proof.
  unfold seedFromTunnelId. generalize 2166136261 as h, (eq_refl : (0 <=? 2166136261) && (2166136261 <? W32) = true).
  induction id as [|c id IH]; intros h Hh; cbn [fnv1a]; [lia|].
  apply IH. unfold imul. pose proof (u32_range (Z.lxor h (Z.of_N (Ascii.N_of_ascii c)) * 16777619)). lia.
Qed.

(** Every draw is a 32-bit numerator: the number is in [0, 1). *)
Lemma mulberry32_range seed n : 0 <= mulberry32 seed n < W32.
Proof. apply u32_range. Qed.

Lemma mulberry32_state_eq seed n :
  mulberry32_state seed n = u32 (seed + Z.of_nat n * 0x6d2b79f5).
Proof.
  induction n as [|n IH]; cbn [mulberry32_state].
  - f_equal. lia.
  - unfold mulberry32_next. cbn [fst]. rewrite IH. unfold u32.
    rewrite Zplus_mod_idemp_l. f_equal. lia.
Qed.

(** The generator does not return to a state before [2^32] calls. *)
Lemma mulberry32_period seed i j :
  Z.of_nat i < W32 -> Z.of_nat j < W32 -> mulberry32_state seed i = mulberry32_state seed j -> i = j.
Proof.
  intros Hi Hj. rewrite !mulberry32_state_eq. unfold u32. intros H.
  assert (Hd : (W32 | (Z.of_nat i - Z.of_nat j) * 0x6d2b79f5)).
  { apply Z.mod_divide; [done|].
    replace ((Z.of_nat i - Z.of_nat j) * 0x6d2b79f5)
      with ((seed + Z.of_nat i * 0x6d2b79f5) - (seed + Z.of_nat j * 0x6d2b79f5)) by lia.
    rewrite Zminus_mod, H, Z.sub_diag. done. }
  rewrite Z.mul_comm in Hd. apply Z.gauss in Hd; [|by vm_compute].
  destruct Hd as [k Hk]. assert (k = 0) as -> by (unfold W32 in *; nia). lia.
Qed.
