(* ===== verification/QuantumPokerDriver.v ===== *)
(** The seat driver of quantum poker, class [QuantumPokerSeatDriver] of
    [sui-tunnel-ts/src/protocol/quantumPoker.ts]: it commits to random secrets,
    keeps them per hand, reveals what a phase asks for and bets at random.

    [rng] is the stream of its numbers; as in [Rng], a draw [k] stands for
    [k / 2^32].  [secretsByHand] maps hand numbers to secrets. *)
From stdpp Require Import gmap fin_sets.
From S2P Require Import Prelude.
From S2P Require Import Bytes.
From S2P Require Import Wire.
From S2P Require Import Crypto.
From S2P Require Import Commitment.
From S2P Require Import Protocol.
From S2P Require Import QuantumPoker.
From S2P Require Import QuantumPokerGame.
From S2P Require Import Rng.

(** [src protocol/quantumPoker.ts:1027-1030 QuantumPokerSeatDriver] *)
Record SeatDriver := { party : Party; secretsByHand : gmap Z (list SlotReveal) }.

Definition remember (d : SeatDriver) (hand : Z) (secrets : list SlotReveal) : SeatDriver :=
  {| party := party d; secretsByHand := <[hand := secrets]> (secretsByHand d) |}.

(** [src protocol/quantumPoker.ts randomBytes]: bytes from the draws [k], [k+1], ... *)
Definition randomBytes (n k : nat) (rng : nat -> Z) : bytes :=
  map (fun i => (rng (k + i)%nat * 256) / W32) (seq 0 n).

(** [src protocol/quantumPoker.ts randomSlotSecrets] *)
Definition randomSlotSecrets (rng : nat -> Z) : list SlotReveal :=
  map (fun i => {| value := randomBytes 32 (48 * i) rng; salt := randomBytes 16 (48 * i + 32) rng |}) (seq 0 SLOT_COUNT).

(** [src protocol/quantumPoker.ts streetBetValue] *)
Definition streetBetValue (s : PokerState) (by_ : Party) : Z := streetBet (seat s by_).
(** [src protocol/quantumPoker.ts totalBetValue] *)
Definition totalBetValue (s : PokerState) (by_ : Party) : Z := totalBet (seat s by_).
(** [src protocol/quantumPoker.ts balanceValue] *)
Definition balanceValue (s : PokerState) (by_ : Party) : Z := balance (seat s by_).
(** [src protocol/quantumPoker.ts ownHoleSlots] *)
Definition ownHoleSlots (by_ : Party) : list Z := match by_ with PartyA => A_HOLE_SLOTS | PartyB => B_HOLE_SLOTS end.

Section WithCrypto.
Context `{C : Crypto}.

(** [src protocol/quantumPoker.ts QuantumPokerSeatDriver.secretsFor] *)
Definition secretsFor (d : SeatDriver) (s : PokerState) : SeatDriver * option (list SlotReveal) :=
  match secretsByHand d !! handNo s with
  | Some cached => (d, Some cached)
  | None =>
      match localSecretArrayFor s (party d) with
      | None => (d, None)
      | Some local =>
          match mapM id local with
          | None => (d, None)
          | Some secrets => (remember d (handNo s) secrets, Some secrets)
          end
      end
  end.

(** [src protocol/quantumPoker.ts QuantumPokerSeatDriver.makeCommitMove] *)
Definition makeCommitMove (d : SeatDriver) (s : PokerState) (rng : nat -> Z) : result (SeatDriver * option PokerMove) :=
  if negb (bool_decide (phase s = CommitPhase)) || bool_decide (is_Some (commit (seat s (party d)))) then Ok (d, None)
  else
    let secrets := randomSlotSecrets rng in
    let! commitments := commitSlotSecrets secrets in
    Ok (remember d (handNo s) secrets, Some (CommitSlots commitments (Some secrets))).

(** [src protocol/quantumPoker.ts QuantumPokerSeatDriver.makeRevealMove] *)
Definition makeRevealMove (d : SeatDriver) (s : PokerState) : result (SeatDriver * option PokerMove) :=
  let! slots := expectedQuantumPokerRevealSlots s (party d) in
  if (length slots =? 0)%nat then Ok (d, None)
  else
    let '(d', sec) := secretsFor d s in
    match sec with
    | None => Ok (d', None)
    | Some secrets =>
        let! rs := rmap (fun slot =>
          match secrets !! Z.to_nat slot with
          | None => Throw (Error "missing local secret for slot")
          | Some r => Ok r
          end) slots in
        Ok (d', Some (RevealSlots (map JsInt slots) rs))
    end.

Definition known_card (d : SeatDriver) (s : PokerState) (secrets : list SlotReveal) (slot : Z) : result (option Z) :=
  match secrets !! Z.to_nat slot, reveal_at (revealArrayFor s (otherParty (party d))) slot with
  | Some own, Some other =>
      let! c := match party d with
                | PartyA => deriveQuantumCard own other 0
                | PartyB => deriveQuantumCard other own 0
                end in
      Ok (Some c)
  | _, _ => Ok None
  end.

(** [src protocol/quantumPoker.ts QuantumPokerSeatDriver.knownHoleCards]: [Ok None]
    is [null]. *)
Definition knownHoleCards (d : SeatDriver) (s : PokerState) : result (SeatDriver * option (list Z)) :=
  let '(d', sec) := secretsFor d s in
  match sec with
  | None => Ok (d', None)
  | Some secrets =>
      let! cs := rfold (fun acc slot =>
        match acc with
        | None => Ok None
        | Some cs => let! card := known_card d s secrets slot in
                     match card with None => Ok None | Some c => Ok (Some (cs ++ [c])) end
        end) (Some []) (ownHoleSlots (party d)) in
      Ok (d', cs)
  end.

(** [src protocol/quantumPoker.ts:1085-1108 QuantumPokerSeatDriver.chooseMove] the
    betting phases *)
Definition chooseBet (d : SeatDriver) (s : PokerState) (rng : nat -> Z) : option PokerMove :=
  if negb (party_eqb (toAct s) (party d)) then None
  else
    let diff := streetBetValue s (otherParty (party d)) - streetBetValue s (party d) in
    if 0 <? diff then Some (if rng 0%nat * 100 <? 85 * W32 then Call_ else Fold_)
    else
      let available := balanceValue s (party d) - totalBetValue s (party d) in
      if (0 <? available) && (rng 0%nat * 100 <? 35 * W32)
      then let cap := if available <? 200 then available else 200 in
           Some (BetMove (1 + rng 1%nat * cap / W32))
      else Some Check_.

(** [src protocol/quantumPoker.ts QuantumPokerSeatDriver.chooseMove] *)
Definition chooseMove (d : SeatDriver) (s : PokerState) (rng : nat -> Z) : result (SeatDriver * option PokerMove) :=
  match phase s with
  | CommitPhase => makeCommitMove d s rng
  | OpenPrivateHoles | RevealFlop | RevealTurn | RevealRiver | Showdown => makeRevealMove d s
  | PreflopBet | FlopBet | TurnBet | RiverBet => Ok (d, chooseBet d s rng)
  | HandOver => Ok (d, match party d with PartyA => Some NextHand | PartyB => None end)
  | Done => Ok (d, None)
  end.

(** [src protocol/quantumPoker.ts QuantumPokerProtocol.randomMove]: one driver per
    party, made when it is first asked. *)
Definition randomMove (drivers : Party -> option SeatDriver) (s : PokerState) (by_ : Party) (rng : nat -> Z)
  : result ((Party -> option SeatDriver) * option PokerMove) :=
  let d := default {| party := by_; secretsByHand := ∅ |} (drivers by_) in
  let! r := chooseMove d s rng in
  Ok (fun q => if party_eqb q by_ then Some (fst r) else drivers q, snd r).


(** * The moves of a driver are accepted *)

Definition draws (rng : nat -> Z) : Prop := forall i, 0 <= rng i < W32.

Lemma rmap_all_ok {A B} (f : A -> result B) xs : Forall (fun x => is_ok (f x) = true) xs -> is_ok (rmap f xs) = true.
Proof.
  induction 1 as [|x xs Hx _ IH]; [done|]. cbn. destruct (f x); [|done]. cbn. by destruct (rmap f xs).
Qed.

Lemma computeCommitment_ok v s :
  (16 <= length s)%nat -> u64_range (Z.of_nat (length v)) -> u64_range (Z.of_nat (length s)) ->
  is_ok (computeCommitment v s) = true.
Proof.
  intros Hs Hv Hu. unfold computeCommitment, MIN_SALT_LEN. rewrite (proj2 (Nat.ltb_ge _ _)) by done.
  unfold hashCommitment, commitment_preimage.
  rewrite (proj2 (lengthPrefixed_ok v _) (conj Hv eq_refl)). cbn [rbind].
  rewrite (proj2 (lengthPrefixed_ok s _) (conj Hu eq_refl)). cbn [rbind]. by rewrite concatBytes_concat.
Qed.

Lemma randomSlotSecrets_commit rng : is_ok (commitSlotSecrets (randomSlotSecrets rng)) = true.
Proof.
  unfold commitSlotSecrets. replace (length (randomSlotSecrets rng)) with SLOT_COUNT by done.
  rewrite Nat.eqb_refl. cbn [negb]. apply rmap_all_ok, Forall_forall.
  intros x Hx. apply list_elem_of_fmap in Hx as (i & -> & _). cbn [value salt].
  apply computeCommitment_ok; rewrite ?length_map, ?length_seq; try done; unfold u64_range; rewrite ?U64_MAX_eq; lia.
Qed.

Lemma computeCommitment_length `{!CryptoLaws C} v s c : computeCommitment v s = Ok c -> length c = 32%nat.
Proof. intros H. unfold computeCommitment, hashCommitment in H. inv_ok. apply blake2b_length. Qed.

Lemma validateCommitments_ok cs :
  length cs = SLOT_COUNT -> Forall (fun c : bytes => length c = 32%nat) cs -> validateCommitments cs = Ok cs.
Proof.
  intros Hl Hc. unfold validateCommitments. rewrite Hl. cbn [Nat.eqb SLOT_COUNT negb]. clear Hl.
  induction Hc as [|c cs Hc _ IH]; [done|]. cbn [rmap]. rewrite Hc. cbn [Nat.eqb negb rbind]. by rewrite IH.
Qed.

Lemma own_commit_ok `{!CryptoLaws C} s p secrets cs :
  commit (seat s p) = None -> commitSlotSecrets secrets = Ok cs ->
  is_ok (applyCommit s (CommitSlots cs (Some secrets)) p) = true.
Proof.
  intros Hn E. pose proof E as E0. unfold commitSlotSecrets in E. inv_ok. bool_to_prop.
  pose proof (rmap_length _ _ _ E) as Hl.
  unfold applyCommit. rewrite validateCommitments_ok; [|congruence|].
  2:{ apply rmap_ok_Forall2 in E. clear E0 Hl Hn. revert E. generalize secrets. intros l E.
      induction E as [|x c xs cs' Hx _ IH]; constructor; [|by apply IH]. by eapply computeCommitment_length. }
  cbn [rbind]. unfold validateLocalSecretsForCommit. rewrite E0.
  match goal with H : length secrets = _ |- _ => rewrite H end. cbn [Nat.eqb SLOT_COUNT negb rbind].
  replace (forallb _ _) with true.
  2:{ symmetry. apply forallb_forall. intros i _. by apply bytesEqual_spec. }
  cbn [negb rbind]. rewrite Hn. done.
Qed.

Lemma afterBetAction_total s : betting (phase s) = true -> is_ok (afterBetAction s) = true.
Proof. unfold afterBetAction, advanceStreet. intros H. destruct (_ && _); [|done]. by destruct (phase s). Qed.

Lemma availableFor_ge s p a : 0 < a -> totalBet (seat s p) + a <= stack s -> a <= availableFor s p.
Proof.
  unfold availableFor, stack. intros Ha Hle.
  destruct (Z.ltb_spec (balance (seatA s)) (balance (seatB s)));
    (destruct (Z.ltb_spec 0 (balance (seatA s) - totalBet (seat s p))) ||
     destruct (Z.ltb_spec 0 (balance (seatB s) - totalBet (seat s p)))); try lia;
    case_match; bool_to_prop; lia.
Qed.

(** A betting decision of the shorter stack. *)
Lemma chooseBet_accepted t s d rng m :
  poker_ok t s -> betting (phase s) = true -> draws rng ->
  balance (seat s (party d)) <= balance (seat s (otherParty (party d))) ->
  chooseBet d s rng = Some m -> is_ok (applyBet s m (party d)) = true.
Proof.
  intros H Hb Hr Hle E. assert (finished (phase s) = false) as Hfin by (by destruct (phase s)).
  pose proof (k_bets _ _ H Hfin) as [_ Hst Hm _]. specialize (Hst (otherParty (party d))).
  unfold chooseBet, streetBetValue, totalBetValue, balanceValue in E.
  destruct (party_eqb (toAct s) (party d)) eqn:Et; [|done]. cbn [negb] in E. unfold applyBet. rewrite Et. cbn [negb].
  set (p := party d) in *. assert (Hstack : stack s = balance (seat s p)) by (unfold stack; destruct p; cbn in *; lia).
  assert (Hdiff : totalBet (seat s p) + (streetBet (seat s (otherParty p)) - streetBet (seat s p)) =
    totalBet (seat s (otherParty p))) by (destruct p; cbn in *; lia).
  destruct (Z.ltb_spec 0 (streetBet (seat s (otherParty p)) - streetBet (seat s p))) as [Hd|Hd].
  - destruct (_ <? _) in E; simplify_eq; [|done]. unfold applyCall.
    rewrite (proj2 (Z.leb_gt _ _)) by lia.
    pose proof (availableFor_ge s p _ Hd ltac:(lia)). rewrite (proj2 (Z.ltb_ge _ _)) by lia.
    by apply afterBetAction_total.
  - destruct (_ && _) eqn:Eb; simplify_eq.
    + bool_to_prop. unfold applyBetOrRaise. specialize (Hr 1%nat).
      match goal with |- context [rng 1%nat * ?c / W32] => set (cap := c) end.
      assert (0 < cap <= balance (seat s p) - totalBet (seat s p)) as Hcap.
      { unfold cap. destruct (Z.ltb_spec (balance (seat s p) - totalBet (seat s p)) 200); lia. }
      assert (0 <= rng 1%nat * cap / W32 < cap) as Ha.
      { split; [apply Z.div_pos; [nia|apply W32_pos]|apply Z.div_lt_upper_bound; [apply W32_pos|nia]]. }
      rewrite (proj2 (Z.leb_gt _ _)), (proj2 (Z.leb_gt _ _)) by lia.
      pose proof (availableFor_ge s p (1 + rng 1%nat * cap / W32) ltac:(lia) ltac:(lia)).
      by rewrite (proj2 (Z.ltb_ge _ _)) by lia.
    + unfold applyCheck. assert (streetBet (seat s (otherParty p)) <= streetBet (seat s p)) by lia.
      replace (_ =? _) with true; [by apply afterBetAction_total|]. symmetry. apply Z.eqb_eq.
      destruct p; cbn in *; case_match; bool_to_prop; lia.
Qed.

(** The commit and betting moves of a seat driver are legal.  In every
    reachable state of a commit or betting phase, a driver whose stack is not
    the longer one chooses without failing, and the protocol accepts what it
    chooses, for every outcome of its random draws. *)
Theorem driver_moves_accepted `{!CryptoLaws C} cap ante ctx ms s d rng :
  0 <= ante -> lockable (initialBalances ctx) ->
  run (QuantumPokerProtocol cap ante) (initialState cap ante ctx) ms = Ok s -> draws rng ->
  phase s = CommitPhase \/ betting (phase s) = true ->
  balance (seat s (party d)) <= balance (seat s (otherParty (party d))) ->
  exists d' om, chooseMove d s rng = Ok (d', om) /\ party d' = party d /\
    forall m, om = Some m -> is_ok (applyMove ante s m (party d)) = true.
Proof.
  intros Ha Hl Hrun Hr Hph Hle. pose proof (poker_reachable cap ante Ha ctx ms s Hl Hrun) as H.
  unfold chooseMove. destruct Hph as [Hp|Hb].
  - rewrite Hp. unfold makeCommitMove. rewrite Hp. cbn [negb bool_decide].
    destruct (commit (seat s (party d))) as [c|] eqn:Ec.
    { rewrite orb_true_r. by eexists _, _. }
    cbn [orb]. destruct (is_ok_exists (commitSlotSecrets (randomSlotSecrets rng))) as [He _].
    destruct (He (randomSlotSecrets_commit rng)) as [cs Ecs]. rewrite Ecs. cbn [rbind].
    eexists _, _. split; [done|]. split; [done|]. intros m [= <-]. unfold applyMove. rewrite Hp. by apply own_commit_ok.
  - assert (Hch : forall (x y z u : result (SeatDriver * option PokerMove)), match phase s with
      | CommitPhase => x | OpenPrivateHoles | RevealFlop | RevealTurn | RevealRiver | Showdown => y
      | PreflopBet | FlopBet | TurnBet | RiverBet => Ok (d, chooseBet d s rng) | HandOver => z | Done => u end =
      Ok (d, chooseBet d s rng)) by (intros; by destruct (phase s)).
    rewrite Hch. eexists _, _. split; [done|]. split; [done|]. intros m Em.
    pose proof (chooseBet_accepted _ s d rng m H Hb Hr Hle Em) as Hok.
    unfold applyMove. destruct m; try (destruct (phase s); done).
    unfold chooseBet in Em. repeat case_match; done.
Qed.

(** * What a driver knows of its hole cards *)

(** The driver's secrets of this hand are what its seat committed to. *)
Definition committed_secrets (d : SeatDriver) (s : PokerState) : Prop :=
  exists secrets cs, snd (secretsFor d s) = Some secrets /\ commitSlotSecrets secrets = Ok cs /\
    commit (seat s (party d)) = Some cs.

Lemma committed_opens secrets cs slot own :
  commitSlotSecrets secrets = Ok cs -> secrets !! Z.to_nat slot = Some own ->
  verifyCommitment (nth (Z.to_nat slot) cs []) (value own) (salt own) = Ok true.
Proof.
  intros E Hs. unfold commitSlotSecrets in E. inv_ok. apply rmap_ok_Forall2 in E.
  destruct (Forall2_lookup_l _ _ _ _ _ E Hs) as (c & Hc & Hcc). rewrite nth_lookup, Hc. cbn.
  unfold computeCommitment, hashCommitment in Hcc. inv_ok. apply verifyCommitment_true. eauto.
Qed.

(** Both reveals of a slot open the commitments the driver saw. *)
Lemma known_card_is_dealt t1 t2 s1 s2 d secrets cs slot own other c c' :
  poker_ok t1 s1 -> poker_ok t2 s2 -> same_commits s1 s2 ->
  commitSlotSecrets secrets = Ok cs -> commit (seat s1 (party d)) = Some cs ->
  secrets !! Z.to_nat slot = Some own -> reveal_at (revealArrayFor s1 (otherParty (party d))) slot = Some other ->
  match party d with PartyA => deriveQuantumCard own other 0 | PartyB => deriveQuantumCard other own 0 end = Ok c ->
  card_of s2 slot c' 0 -> c = c' \/ (exists r, collide own r) \/ broken s1 s2.
Proof.
  intros H1 H2 Hc Ecs Ec Eown Eoth Ed (ra & rb & RA & RB & Ed').
  assert (Hown : forall r, reveal_at (revealArrayFor s2 (party d)) slot = Some r -> own = r \/ collide own r).
  { intros r Hr. destruct (k_reveals _ _ H2 _ _ _ Hr) as (cs' & Ec' & Hv). unfold commitArrayFor in Ec'.
    rewrite <- Hc, Ec in Ec'. simplify_eq. apply (openings_same (nth (Z.to_nat slot) cs' [])); [|done].
    by eapply committed_opens. }
  assert (Hoth : forall r, reveal_at (revealArrayFor s2 (otherParty (party d))) slot = Some r -> other = r \/ broken s1 s2).
  { intros r Hr. by eapply (reveals_same t1 t2 s1 s2). }
  destruct (party d); cbn [otherParty] in *.
  - destruct (Hown ra RA) as [->|?]; [|by eauto]. destruct (Hoth rb RB) as [->|?]; [|by eauto]. left. congruence.
  - destruct (Hown rb RB) as [->|?]; [|by eauto]. destruct (Hoth ra RA) as [->|?]; [|by eauto]. left. congruence.
Qed.

Lemma known_cards_fold (f : Z -> result (option Z)) slots acc cs :
  rfold (fun acc slot =>
    match acc with
    | None => Ok None
    | Some cs => let! card := f slot in match card with None => Ok None | Some c => Ok (Some (cs ++ [c])) end
    end) acc slots = Ok (Some cs) ->
  exists pre l, acc = Some pre /\ cs = pre ++ l /\ Forall2 (fun slot c => f slot = Ok (Some c)) slots l.
Proof.
  revert acc. induction slots as [|slot slots IH]; intros acc E; cbn [rfold] in E.
  { apply Ok_inj in E. subst acc. exists cs, []. by rewrite app_nil_r. }
  apply rbind_ok in E as (acc1 & E1 & E). apply IH in E as (pre & l & -> & -> & Hl).
  destruct acc as [pre0|]; [|done]. apply rbind_ok in E1 as ([c|] & Ec & E1); [|done].
  apply Ok_inj in E1. injection E1 as <-. exists pre0, (c :: l). split_and!; [done|by rewrite <- app_assoc|by constructor].
Qed.

Lemma known_card_inv d s secrets slot c :
  known_card d s secrets slot = Ok (Some c) ->
  exists own other, secrets !! Z.to_nat slot = Some own /\
    reveal_at (revealArrayFor s (otherParty (party d))) slot = Some other /\
    match party d with PartyA => deriveQuantumCard own other 0 | PartyB => deriveQuantumCard other own 0 end = Ok c.
Proof.
  unfold known_card. destruct (secrets !! Z.to_nat slot) as [own|]; [|done].
  destruct (reveal_at _ slot) as [other|]; [|done]. intros E. inv_ok. simplify_eq. by exists own, other.
Qed.

(** A seat knows its own hole cards as soon as the opponent has opened them:
    what [knownHoleCards] computes from the driver's secrets in one state of a
    hand is what the showdown makes public in any other, unless somebody opens
    one commitment in two ways. *)
Theorem driver_knows_hole_cards cap ante ctx1 ctx2 ms1 ms2 s1 s2 d d' cs cs' :
  0 <= ante -> lockable (initialBalances ctx1) -> lockable (initialBalances ctx2) ->
  run (QuantumPokerProtocol cap ante) (initialState cap ante ctx1) ms1 = Ok s1 ->
  run (QuantumPokerProtocol cap ante) (initialState cap ante ctx2) ms2 = Ok s2 -> same_commits s1 s2 ->
  committed_secrets d s1 -> knownHoleCards d s1 = Ok (d', Some cs) ->
  derivePublicHoleCards s2 (party d) = Ok cs' ->
  cs = cs' \/ (exists own r, collide own r) \/ broken s1 s2.
Proof.
  intros Ha L1 L2 R1 R2 Hc (secrets & commits & Esec & Ecs & Ec) Ek Ep.
  pose proof (poker_reachable cap ante Ha ctx1 ms1 s1 L1 R1) as H1.
  pose proof (poker_reachable cap ante Ha ctx2 ms2 s2 L2 R2) as H2.
  apply derivePublicHoleCards_ok in Ep. unfold holes in Ep. unfold knownHoleCards in Ek.
  destruct (secretsFor d s1) as [d1 sec]. cbn in Esec. subst sec.
  apply rbind_ok in Ek as (r & Er & Ek). apply Ok_inj in Ek. injection Ek as -> ->.
  apply known_cards_fold in Er as (pre & l & [= <-] & -> & Er). rewrite app_nil_l.
  change (own_holes (party d)) with (ownHoleSlots (party d)) in Ep. revert Ep.
  generalize cs'. induction Er as [|slot c slots l Hk _ IH]; intros l' Ep;
    inversion Ep as [|? c2 ? l2 Hc2 Hl2]; subst; [by left|].
  apply known_card_inv in Hk as (own & other & Eo & Er' & Ed).
  destruct (IH l2 Hl2) as [->|Hbad]; [|by right].
  destruct (known_card_is_dealt _ _ s1 s2 d secrets commits slot own other c c2 H1 H2 Hc Ecs Ec Eo Er' Ed Hc2)
    as [->|[[? ?]|?]]; eauto.
Qed.
End WithCrypto.

(** * Samples *)

Definition zero_draws : nat -> Z := fun _ => 0.

Lemma zero_draws_ok : draws zero_draws.
Proof. intros i. split; [done|apply W32_pos]. Qed.

Definition driver_B : SeatDriver := {| party := PartyB; secretsByHand := ∅ |}.

Lemma driver_facts :
  match run toy_poker toy_start (take 5 hand_moves) with
  | Ok s => bool_decide (phase s = PreflopBet) && (balance (seatB s) <=? balance (seatA s)) &&
            match chooseMove (C := toy_crypto) driver_B s zero_draws with
            | Ok (_, Some Call_) => true
            | _ => false
            end
  | Throw _ => false
  end = true.
Proof. vm_compute. reflexivity. Qed.

Lemma driver_moves_accepted_witness :
  exists s, run toy_poker toy_start (take 5 hand_moves) = Ok s /\
    is_ok (QuantumPoker.applyMove (C := toy_crypto) ANTE s Call_ PartyB) = true.
Proof.
  pose proof driver_facts as F.
  destruct (run toy_poker toy_start (take 5 hand_moves)) as [s|] eqn:Hrun; [|discriminate F].
  apply andb_prop in F as [F Hm]. apply andb_prop in F as [Hp Hle]. apply bool_decide_eq_true in Hp.
  destruct (driver_moves_accepted (C := toy_crypto) 10 ANTE poker_ctx (take 5 hand_moves) s driver_B zero_draws
    ltac:(unfold ANTE; lia) poker_ctx_lockable Hrun zero_draws_ok) as (d' & om & E & _ & Hok).
  - right. rewrite Hp. reflexivity.
  - apply Z.leb_le. exact Hle.
  - exists s. split; [reflexivity|]. clear Hrun. rewrite E in Hm. destruct om as [[]|]; try discriminate Hm.
    exact (Hok Call_ eq_refl).
Defined.

Definition driver_A : SeatDriver := {| party := PartyA; secretsByHand := {[0 := map (secret PartyA) (seqZ 0 9)]} |}.

Definition full_hand : list (PokerMove * Party) := hand_moves ++ [reveal_move PartyB B_HOLE_SLOTS].

Lemma known_facts :
  match run toy_poker toy_start (take 4 hand_moves), run toy_poker toy_start full_hand with
  | Ok s1, Ok s2 =>
      bool_decide (commit (seatA s1) = commit (seatA s2)) && bool_decide (commit (seatB s1) = commit (seatB s2)) &&
      (handNo s1 =? 0) && bool_decide (commit (seatA s1) = Some (commits_of PartyA)) &&
      match knownHoleCards (C := toy_crypto) driver_A s1, derivePublicHoleCards (C := toy_crypto) s2 PartyA with
      | Ok (_, Some cs), Ok cs' => bool_decide (cs = cs')
      | _, _ => false
      end
  | _, _ => false
  end = true.
Proof. vm_compute. reflexivity. Qed.

Lemma commits_of_A : commitSlotSecrets (C := toy_crypto) (map (secret PartyA) (seqZ 0 9)) = Ok (commits_of PartyA).
Proof. vm_compute. reflexivity. Qed.

Lemma driver_knows_hole_cards_witness :
  exists s1 s2 d cs cs', run toy_poker toy_start (take 4 hand_moves) = Ok s1 /\ run toy_poker toy_start full_hand = Ok s2 /\
    knownHoleCards (C := toy_crypto) driver_A s1 = Ok (d, Some cs) /\
    derivePublicHoleCards (C := toy_crypto) s2 PartyA = Ok cs' /\
    (cs = cs' \/ (exists own r, collide (C := toy_crypto) own r) \/ broken (C := toy_crypto) s1 s2).
Proof.
  pose proof known_facts as F.
  destruct (run toy_poker toy_start (take 4 hand_moves)) as [s1|] eqn:R1; [|discriminate F].
  destruct (run toy_poker toy_start full_hand) as [s2|] eqn:R2; [|discriminate F].
  destruct (knownHoleCards driver_A s1) as [[d [cs|]]|] eqn:Ek;
    [|rewrite andb_false_r in F; discriminate F|rewrite andb_false_r in F; discriminate F].
  destruct (derivePublicHoleCards s2 PartyA) as [cs'|] eqn:Ep; [|rewrite andb_false_r in F; discriminate F].
  exists s1, s2, d, cs, cs'. split; [reflexivity|]. split; [reflexivity|]. split; [exact Ek|]. split; [exact Ep|].
  apply andb_prop in F as [F _]. bool_to_prop.
  eapply (driver_knows_hole_cards (C := toy_crypto) 10 ANTE poker_ctx poker_ctx (take 4 hand_moves) full_hand s1 s2 driver_A d cs cs'
    ltac:(unfold ANTE; lia) poker_ctx_lockable poker_ctx_lockable R1 R2); [by intros []| |exact Ek|exact Ep].
  clear R1 R2 Ek Ep. exists (map (secret PartyA) (seqZ 0 9)), (commits_of PartyA). split; [|split; [exact commits_of_A|done]].
  unfold secretsFor. match goal with H : handNo s1 = 0 |- _ => rewrite H end. reflexivity.
Defined.

(** * A driver with the longer stack can bet more than the protocol takes *)

Definition uneven_ctx : ProtocolContext :=
  {| ctx_tunnelId := "0xC2"; initialBalances := {| bal_a := 200; bal_b := 60 |} |}.

(** The second number is [1/2]. *)
Definition half_draws : nat -> Z := fun i => match i with 1%nat => 2 ^ 31 | _ => 0 end.

Theorem driver_overbets :
  exists s m, run toy_poker (QuantumPoker.initialState 10 ANTE uneven_ctx) (take 4 hand_moves) = Ok s /\
    chooseMove (C := toy_crypto) driver_A s half_draws = Ok (driver_A, Some m) /\
    QuantumPoker.applyMove (C := toy_crypto) ANTE s m PartyA = Throw (Error "bet exceeds the effective stack").
Proof.
  eexists _, (BetMove 76). split; [vm_compute; reflexivity|]. split; vm_compute; reflexivity.
Qed.
