(* ===== verification/Json.v ===== *)
(** JSON as the code uses it: [JSON.stringify] and [JSON.parse], the decimal
    [toString] of a bigint and the conversion [BigInt(v)].

    A text is a Rocq [string], the UTF-8 bytes of the JavaScript string; a JSON
    number is a [jsnum], exact for the integers a double holds exactly; all
    other numbers are one value, [JsNonInt], for which a fixed fraction is printed
    (JavaScript prints the digits, and [null] for NaN and the infinities).  The
    round trip [parse_stringify] is what the codecs rest on. *)
From S2P Require Import Prelude.
From S2P Require Import Bytes.

Inductive json :=
  | JNull
  | JBool (b : bool)
  | JNum (n : jsnum)
  | JStr (s : string)
  | JArr (l : list json)
  | JObj (m : list (string * json)).

Section Induction.
Context (P : json -> Prop).
Hypothesis (Hnull : P JNull) (Hbool : forall b, P (JBool b)) (Hnum : forall n, P (JNum n))
  (Hstr : forall s, P (JStr s)) (Harr : forall l, Forall P l -> P (JArr l))
  (Hobj : forall m, Forall (fun kv => P (snd kv)) m -> P (JObj m)).

Fixpoint json_nested_ind (v : json) : P v :=
  match v with
  | JNull => Hnull
  | JBool b => Hbool b
  | JNum n => Hnum n
  | JStr s => Hstr s
  | JArr l => Harr l ((fix go (l : list json) : Forall P l :=
      match l with [] => List.Forall_nil _ | x :: l' => List.Forall_cons _ _ _ (json_nested_ind x) (go l') end) l)
  | JObj m => Hobj m ((fix go (m : list (string * json)) : Forall (fun kv => P (snd kv)) m :=
      match m with [] => List.Forall_nil _ | kv :: m' => List.Forall_cons _ _ _ (json_nested_ind (snd kv)) (go m') end) m)
  end.
End Induction.

Definition code (c : Ascii.ascii) : Z := Z.of_N (Ascii.N_of_ascii c).
Definition chr (z : Z) : Ascii.ascii := Ascii.ascii_of_N (Z.to_N z).

(** * Decimal numerals *)

Definition is_digit (c : Ascii.ascii) : bool := (48 <=? code c) && (code c <=? 57).
Definition digit_val (c : Ascii.ascii) : Z := code c - 48.

(** The digits of [z], with [n] of them at most, before [acc]. *)
Fixpoint show_digits (n : nat) (z : Z) (acc : string) : string :=
  match n with
  | O => acc
  | S n' =>
      let acc' := String (chr (48 + z mod 10)) acc in
      if z / 10 =? 0 then acc' else show_digits n' (z / 10) acc'
  end.

(** [n.toString()] for a natural number *)
Definition show_nat (z : Z) : string := show_digits (S (Z.to_nat (Z.log2 z))) z EmptyString.

(** [n.toString()] *)
Definition toString (z : Z) : string :=
  if z <? 0 then String "-" (show_nat (- z)) else show_nat z.

(** The leading digits, with the value and the number of them. *)
Fixpoint take_digits (acc : Z) (n : nat) (s : string) : Z * nat * string :=
  match s with
  | String c s' => if is_digit c then take_digits (acc * 10 + digit_val c) (S n) s' else (acc, n, s)
  | EmptyString => (acc, n, s)
  end.

(** * Strings *)

(** The escapes of [JSON.stringify]. *)
Definition escape_char (c : Ascii.ascii) : string :=
  let z := code c in
  if z =? 34 then String "\" (String (chr 34) EmptyString)
  else if z =? 92 then "\\"
  else if z =? 8 then "\b"
  else if z =? 9 then "\t"
  else if z =? 10 then "\n"
  else if z =? 12 then "\f"
  else if z =? 13 then "\r"
  else if z <? 32 then ("\u00" ++ HEX z)%string
  else String c EmptyString.

Fixpoint escape (s : string) : string :=
  match s with
  | EmptyString => EmptyString
  | String c s' => (escape_char c ++ escape s')%string
  end.

Definition quote (s : string) : string :=
  (String (chr 34) (escape s ++ String (chr 34) EmptyString))%string.

(** The UTF-8 encoding of a code point. *)
Definition utf8 (z : Z) : string :=
  if z <? 0x80 then String (chr z) EmptyString
  else if z <? 0x800 then String (chr (0xC0 + z / 64)) (String (chr (0x80 + z mod 64)) EmptyString)
  else if z <? 0x10000 then
    String (chr (0xE0 + z / 4096)) (String (chr (0x80 + (z / 64) mod 64)) (String (chr (0x80 + z mod 64)) EmptyString))
  else
    String (chr (0xF0 + z / 262144)) (String (chr (0x80 + (z / 4096) mod 64))
      (String (chr (0x80 + (z / 64) mod 64)) (String (chr (0x80 + z mod 64)) EmptyString))).

Definition hex4 (a b c d : Ascii.ascii) : option Z :=
  match hex_val a, hex_val b, hex_val c, hex_val d with
  | Some a, Some b, Some c, Some d => Some (a * 4096 + b * 256 + c * 16 + d)
  | _, _, _, _ => None
  end.

(** The one-letter escapes of [JSON.parse]. *)
Definition unescape_char (e : Ascii.ascii) : option Ascii.ascii :=
  let z := code e in
  if (z =? 34) || (z =? 92) || (z =? 47) then Some e
  else if z =? 98 then Some (chr 8)
  else if z =? 102 then Some (chr 12)
  else if z =? 110 then Some (chr 10)
  else if z =? 114 then Some (chr 13)
  else if z =? 116 then Some (chr 9)
  else None.

Definition is_high (z : Z) : bool := (0xD800 <=? z) && (z <? 0xDC00).
Definition is_low (z : Z) : bool := (0xDC00 <=? z) && (z <? 0xE000).

(** The rest of a string literal, after its opening quote.  A lone surrogate
    becomes the replacement character, as when the string is encoded. *)
Fixpoint parse_string (s : string) : option (string * string) :=
  let cons (t : string) (r : option (string * string)) := option_map (fun p => ((t ++ fst p)%string, snd p)) r in
  match s with
  | EmptyString => None
  | String c s1 =>
      if code c =? 34 then Some (EmptyString, s1)
      else if code c <? 32 then None
      else if negb (code c =? 92) then cons (String c EmptyString) (parse_string s1)
      else
        match s1 with
        | EmptyString => None
        | String e s2 =>
            if negb (code e =? 117) then
              match unescape_char e with
              | Some x => cons (String x EmptyString) (parse_string s2)
              | None => None
              end
            else
              match s2 with
              | String a (String b (String c' (String d s3))) =>
                  match hex4 a b c' d with
                  | None => None
                  | Some z =>
                      if is_high z then
                        match s3 with
                        | String q (String u (String a2 (String b2 (String c2 (String d2 s4))))) =>
                            if (code q =? 92) && (code u =? 117) then
                              match hex4 a2 b2 c2 d2 with
                              | Some y =>
                                  if is_low y
                                  then cons (utf8 (0x10000 + (z - 0xD800) * 1024 + (y - 0xDC00))) (parse_string s4)
                                  else cons (utf8 0xFFFD) (parse_string s3)
                              | None => None
                              end
                            else cons (utf8 0xFFFD) (parse_string s3)
                        | _ => cons (utf8 0xFFFD) (parse_string s3)
                        end
                      else cons (utf8 (if is_low z then 0xFFFD else z)) (parse_string s3)
                  end
              | _ => None
              end
        end
  end.

(** * Values *)

(** [JSON.stringify]; a number that is not an integer has no digits here and
    stands for itself as one that reads back so. *)
Fixpoint stringify (v : json) : string :=
  match v with
  | JNull => "null"
  | JBool true => "true"
  | JBool false => "false"
  | JNum (JsInt z) => toString z
  | JNum JsNonInt => "0.5"
  | JStr s => quote s
  | JArr l => ("[" ++ String.concat "," (map stringify l) ++ "]")%string
  | JObj m => ("{" ++ String.concat "," (map (fun kv => (quote (fst kv) ++ ":" ++ stringify (snd kv))%string) m) ++ "}")%string
  end.

Definition is_ws (c : Ascii.ascii) : bool :=
  let z := code c in (z =? 32) || (z =? 9) || (z =? 10) || (z =? 13).

Fixpoint skip_ws (s : string) : string :=
  match s with
  | String c s' => if is_ws c then skip_ws s' else s
  | EmptyString => s
  end.

(** [m * 10 ^ e] as a JavaScript number. *)
Definition scaled (m e : Z) : jsnum :=
  if 0 <=? e then JsInt (m * 10 ^ e)
  else if m mod 10 ^ (- e) =? 0 then JsInt (m / 10 ^ (- e)) else JsNonInt.

(** The exponent, if there is one. *)
Definition parse_exp (s : string) : option (Z * string) :=
  match s with
  | String c s1 =>
      if (code c =? 101) || (code c =? 69) then
        let '(neg, s2) := match s1 with
                          | String g s2 => if code g =? 45 then (true, s2) else if code g =? 43 then (false, s2) else (false, s1)
                          | EmptyString => (false, s1)
                          end in
        match take_digits 0 0 s2 with
        | (_, O, _) => None
        | (e, _, s3) => Some ((if neg : bool then - e else e), s3)
        end
      else Some (0, s)
  | EmptyString => Some (0, s)
  end.

Definition is_char (z : Z) (s : string) : option string :=
  match s with String c s' => if code c =? z then Some s' else None | EmptyString => None end.

(** A number literal; [i < 10 ^ (n - 1)] says that its [n] digits begin with a
    superfluous zero. *)
Definition parse_number (s : string) : option (jsnum * string) :=
  let '(neg, s1) := match is_char 45 s with Some s1 => (true, s1) | None => (false, s) end in
  match take_digits 0 0 s1 with
  | (_, O, _) => None
  | (i, S n, s2) =>
      if negb (n =? 0)%nat && (i <? 10 ^ Z.of_nat n) then None
      else
        let sgn (m : Z) := if neg : bool then - m else m in
        match is_char 46 s2 with
        | None => option_map (fun es => (scaled (sgn i) (fst es), snd es)) (parse_exp s2)
        | Some s3 =>
            match take_digits i 0 s3 with
            | (_, O, _) => None
            | (m, k, s4) => option_map (fun es => (scaled (sgn m) (fst es - Z.of_nat k), snd es)) (parse_exp s4)
            end
        end
  end.

(** The elements of an array after the first bracket or comma; [f] reads one
    element and [close] ends them. *)
Fixpoint parse_list {A} (n : nat) (f : string -> option (A * string)) (close : Z) (s : string) : option (list A * string) :=
  match n with
  | O => None
  | S n' =>
      match f s with
      | None => None
      | Some (x, s1) =>
          let s2 := skip_ws s1 in
          match is_char close s2, is_char 44 s2 with
          | Some s3, _ => Some ([x], s3)
          | None, Some s3 => option_map (fun p => (x :: fst p, snd p)) (parse_list n' f close s3)
          | None, None => None
          end
      end
  end.

Definition parse_member (f : string -> option (json * string)) (s : string) : option ((string * json) * string) :=
  match is_char 34 (skip_ws s) with
  | None => None
  | Some s1 =>
      match parse_string s1 with
      | None => None
      | Some (k, s2) =>
          match is_char 58 (skip_ws s2) with
          | None => None
          | Some s3 => option_map (fun p => ((k, fst p), snd p)) (f s3)
          end
      end
  end.

Fixpoint strip_prefix (p s : string) : option string :=
  match p, s with
  | EmptyString, _ => Some s
  | String a p', String b s' => if Ascii.eqb a b then strip_prefix p' s' else None
  | _, _ => None
  end.

(** A value; [n] bounds the nesting. *)
Fixpoint parse_value (n : nat) (s : string) : option (json * string) :=
  match n with
  | O => None
  | S n' =>
      let s := skip_ws s in
      match s with
      | EmptyString => None
      | String c s1 =>
          if code c =? 34 then option_map (fun p => (JStr (fst p), snd p)) (parse_string s1)
          else if code c =? 91 then
            match is_char 93 (skip_ws s1) with
            | Some s2 => Some (JArr [], s2)
            | None => option_map (fun p => (JArr (fst p), snd p)) (parse_list (String.length s1) (parse_value n') 93 s1)
            end
          else if code c =? 123 then
            match is_char 125 (skip_ws s1) with
            | Some s2 => Some (JObj [], s2)
            | None => option_map (fun p => (JObj (fst p), snd p))
                        (parse_list (String.length s1) (parse_member (parse_value n')) 125 s1)
            end
          else if code c =? 110 then option_map (fun r => (JNull, r)) (strip_prefix "null" s)
          else if code c =? 116 then option_map (fun r => (JBool true, r)) (strip_prefix "true" s)
          else if code c =? 102 then option_map (fun r => (JBool false, r)) (strip_prefix "false" s)
          else option_map (fun p => (JNum (fst p), snd p)) (parse_number s)
      end
  end.

(** [JSON.parse]: nesting cannot exceed the length of the text. *)
Definition parse (s : string) : result json :=
  match parse_value (S (String.length s)) s with
  | Some (v, rest) => match skip_ws rest with
                      | EmptyString => Ok v
                      | String _ _ => Throw (SyntaxError "Unexpected non-whitespace character after JSON")
                      end
  | None => Throw (SyntaxError "Unexpected token in JSON")
  end.

(** The value of a member, the last of several with one name. *)
Fixpoint member (key : string) (m : list (string * json)) (found : option json) : option json :=
  match m with
  | [] => found
  | (k, v) :: m' => member key m' (if String.eqb k key then Some v else found)
  end.

(** [v.key], [None] being [undefined] *)
Definition jget (v : json) (key : string) : result (option json) :=
  match v with
  | JNull => Throw (TypeError "Cannot read properties of null")
  | JObj m => Ok (member key m None)
  | _ => Ok None
  end.

(** * [BigInt(v)] *)

Definition is_js_ws (c : Ascii.ascii) : bool := let z := code c in ((9 <=? z) && (z <=? 13)) || (z =? 32).

Fixpoint trim_left (s : string) : string :=
  match s with
  | String c s' => if is_js_ws c then trim_left s' else s
  | EmptyString => s
  end.

Fixpoint rev_string (s acc : string) : string :=
  match s with String c s' => rev_string s' (String c acc) | EmptyString => acc end.

Definition trim (s : string) : string :=
  rev_string (trim_left (rev_string (trim_left s) EmptyString)) EmptyString.

(** All of [s] as digits of the given base. *)
Fixpoint radix_value (base acc : Z) (s : string) : option Z :=
  match s with
  | EmptyString => Some acc
  | String c s' =>
      match hex_val c with
      | Some d => if d <? base then radix_value base (acc * base + d) s' else None
      | None => None
      end
  end.

Definition radix (base : Z) (s : string) : option Z :=
  match s with EmptyString => None | _ => radix_value base 0 s end.

(** A string as a bigint: decimal with a sign, or hexadecimal, octal or binary
    with a prefix; the empty string is zero. *)
Definition string_to_bigint (s : string) : option Z :=
  match trim s with
  | EmptyString => Some 0
  | String c s' as t =>
      if code c =? 45 then option_map Z.opp (radix 10 s')
      else if code c =? 43 then radix 10 s'
      else if code c =? 48 then
        match s' with
        | String p h =>
            if (code p =? 120) || (code p =? 88) then radix 16 h
            else if (code p =? 111) || (code p =? 79) then radix 8 h
            else if (code p =? 98) || (code p =? 66) then radix 2 h
            else radix 10 t
        | EmptyString => Some 0
        end
      else radix 10 t
  end.

(** The string an array or object turns into. *)
Fixpoint to_primitive (v : json) : string :=
  match v with
  | JNull => EmptyString
  | JBool b => if b then "true" else "false"
  | JNum (JsInt z) => toString z
  | JNum JsNonInt => "0.5"
  | JStr s => s
  | JArr l => String.concat "," (map to_primitive l)
  | JObj _ => "[object Object]"
  end.

(** [BigInt(v)], [None] being [undefined] *)
Definition BigInt (v : option json) : result Z :=
  let of_string (s : string) :=
    match string_to_bigint s with Some z => Ok z | None => Throw (SyntaxError "Cannot convert to a BigInt") end in
  match v with
  | None | Some JNull => Throw (TypeError "Cannot convert to a BigInt")
  | Some (JBool b) => Ok (if b then 1 else 0)
  | Some (JNum (JsInt z)) => Ok z
  | Some (JNum JsNonInt) => Throw (RangeError "not an integer")
  | Some (JStr s) => of_string s
  | Some x => of_string (to_primitive x)
  end.

(** * Round trips *)

#[local] Arguments String.append !_ _ : simpl nomatch.

Lemma string_app_assoc (a b c : string) : ((a ++ b) ++ c = a ++ b ++ c)%string.
Proof. induction a as [|x a IH]; [done|]. simpl. by rewrite IH. Qed.

Lemma string_app_nil (a : string) : (a ++ "" = a)%string.
Proof. induction a as [|x a IH]; [done|]. simpl. by rewrite IH. Qed.

Lemma string_length_app (a b : string) : String.length (a ++ b) = (String.length a + String.length b)%nat.
Proof. induction a as [|x a IH]; [done|]. simpl. by rewrite IH. Qed.

Lemma code_chr z : 0 <= z < 256 -> code (chr z) = z.
Proof. intros H. unfold code, chr. rewrite Ascii.N_ascii_embedding by lia. lia. Qed.

Lemma digit_chr d : 0 <= d < 10 -> is_digit (chr (48 + d)) = true /\ digit_val (chr (48 + d)) = d.
Proof.
  intros H. unfold is_digit, digit_val. rewrite code_chr by lia. split; [|lia]. apply andb_true_intro. split; lia.
Qed.

Lemma show_digits_spec n z acc :
  0 <= z < 10 ^ Z.of_nat n -> (1 <= n)%nat ->
  exists d, (1 <= d)%nat /\ (d = 1%nat \/ 10 ^ Z.of_nat (d - 1) <= z) /\
    forall a k, take_digits a k (show_digits n z acc) = take_digits (a * 10 ^ Z.of_nat d + z) (k + d) acc.
Proof.
  revert z acc. induction n as [|n IH]; intros z acc Hz Hn; [lia|]. cbn [show_digits].
  pose proof (Z.mod_pos_bound z 10 ltac:(lia)) as Hm. pose proof (Z.div_mod z 10 ltac:(lia)) as Hdm.
  destruct (digit_chr (z mod 10) Hm) as [Hd Hv].
  destruct (Z.eqb_spec (z / 10) 0) as [H0|H0].
  - exists 1%nat. split; [lia|]. split; [by left|]. intros a k. cbn [take_digits]. rewrite Hd, Hv. f_equal; lia.
  - assert (0 <= z / 10) by (apply Z.div_pos; lia).
    destruct n as [|n'].
    { change (10 ^ Z.of_nat 1) with 10 in Hz. exfalso. apply H0. apply Z.div_small. lia. }
    destruct (IH (z / 10) (String (chr (48 + z mod 10)) acc)) as (d & Hd1 & Hlow & Hall); [|lia|].
    { split; [lia|]. apply Z.div_lt_upper_bound; [lia|]. rewrite <- Z.pow_succ_r, <- Nat2Z.inj_succ by lia. lia. }
    exists (S d). split; [lia|]. split.
    + right. replace (S d - 1)%nat with d by lia. destruct Hlow as [->|Hlow].
      * change (10 ^ Z.of_nat 1) with 10. lia.
      * replace (Z.of_nat d) with (Z.succ (Z.of_nat (d - 1))) by lia. rewrite Z.pow_succ_r by lia. lia.
    + intros a k. rewrite Hall. cbn [take_digits]. rewrite Hd, Hv. f_equal; [|lia].
      rewrite Nat2Z.inj_succ, Z.pow_succ_r by lia. lia.
Qed.

Lemma show_nat_spec z rest :
  0 <= z -> exists d, (d = 0%nat \/ 10 ^ Z.of_nat d <= z) /\
    forall a k, take_digits a k (show_nat z ++ rest) = take_digits (a * 10 ^ Z.of_nat (S d) + z) (k + S d) rest.
Proof.
  intros Hz. unfold show_nat.
  assert (Hacc : forall n z acc, (show_digits n z acc ++ rest)%string = show_digits n z (acc ++ rest)).
  { induction n as [|n IH]; intros x acc; cbn [show_digits]; [done|]. destruct (x / 10 =? 0); [done|]. by rewrite IH. }
  rewrite Hacc. cbn [String.append].
  destruct (show_digits_spec (S (Z.to_nat (Z.log2 z))) z rest) as (d & Hd & Hlow & Hall); [|lia|].
  - split; [done|]. destruct (decide (z = 0)) as [->|]; [done|].
    pose proof (Z.log2_spec z ltac:(lia)) as [_ Hlt]. pose proof (Z.log2_nonneg z).
    apply (Z.lt_le_trans _ _ _ Hlt). rewrite Nat2Z.inj_succ, Z2Nat.id by done. apply Z.pow_le_mono_l. lia.
  - exists (d - 1)%nat. replace (S (d - 1)) with d by lia. split; [|done]. destruct Hlow as [->|?]; auto.
Qed.

(** What may follow a number: no digit, point or exponent. *)
Definition ends_number (s : string) : Prop :=
  match s with
  | EmptyString => True
  | String c _ => is_digit c = false /\ code c <> 46 /\ code c <> 101 /\ code c <> 69
  end.

Lemma take_digits_end a k s : ends_number s -> take_digits a k s = (a, k, s).
Proof. destruct s as [|c s]; [done|]. intros (H & _). cbn. by rewrite H. Qed.

Lemma parse_unsigned_int z rest :
  0 <= z -> ends_number rest -> exists n, take_digits 0 0 (show_nat z ++ rest) = (z, S n, rest) /\
    negb (n =? 0)%nat && (z <? 10 ^ Z.of_nat n) = false.
Proof.
  intros Hz Hr. destruct (show_nat_spec z rest Hz) as (d & Hlow & Hall). exists d.
  rewrite Hall, take_digits_end by done. split; [done|]. destruct Hlow as [->|Hlow]; [done|].
  destruct (Nat.eqb_spec d 0); [done|]. cbn. apply Z.ltb_ge. done.
Qed.

Lemma show_nat_head z : 0 <= z -> exists c s, show_nat z = String c s /\ is_digit c = true.
Proof.
  intros Hz. destruct (show_nat_spec z EmptyString Hz) as (d & _ & Hall). specialize (Hall 0 0%nat).
  rewrite string_app_nil in Hall. destruct (show_nat z) as [|c s]; [done|]. exists c, s. split; [done|].
  cbn in Hall. by destruct (is_digit c).
Qed.

Lemma digit_not c z : is_digit c = true -> z < 48 \/ 57 < z -> (code c =? z) = false.
Proof. unfold is_digit. intros H Hz. bool_to_prop. apply Z.eqb_neq. lia. Qed.

Lemma parse_number_int z rest : ends_number rest -> parse_number (toString z ++ rest) = Some (JsInt z, rest).
Proof.
  intros Hr. unfold parse_number, toString.
  assert (Hend : is_char 46 rest = None /\ parse_exp rest = Some (0, rest)).
  { destruct rest as [|c r]; [done|]. destruct Hr as (_ & H1 & H2 & H3). unfold is_char, parse_exp.
    rewrite !(proj2 (Z.eqb_neq _ _)) by done. done. }
  destruct Hend as [Hdot Hexp]. destruct (Z.ltb_spec z 0) as [Hz|Hz].
  - change (String "-" (show_nat (- z)) ++ rest)%string with (String "-" (show_nat (- z) ++ rest))%string.
    change (is_char 45 (String "-" (show_nat (- z) ++ rest))) with (Some (show_nat (- z) ++ rest)%string). cbn iota beta.
    destruct (parse_unsigned_int (- z) rest ltac:(lia) Hr) as (n & -> & ->). rewrite Hdot, Hexp. cbn.
    unfold scaled. cbn. do 3 f_equal. lia.
  - destruct (parse_unsigned_int z rest Hz Hr) as (n & E & Hn).
    destruct (show_nat_head z Hz) as (c & s & Es & Hc). rewrite Es in E |- *.
    cbn [String.append is_char]. rewrite (digit_not c 45 Hc) by lia. cbn [String.append] in E. rewrite E, Hn, Hdot, Hexp. cbn.
    unfold scaled. cbn. do 3 f_equal. lia.
Qed.

Lemma parse_string_char c t :
  parse_string (escape_char c ++ t) = option_map (fun p => (String c (fst p), snd p)) (parse_string t).
Proof. by destruct c as [[] [] [] [] [] [] [] []]. Qed.

Lemma parse_string_escape s rest :
  parse_string (escape s ++ String (chr 34) rest) = Some (s, rest).
Proof.
  induction s as [|c s IH]; [done|]. cbn [escape]. rewrite string_app_assoc, parse_string_char, IH. done.
Qed.

Lemma quote_app s rest : (quote s ++ rest = String (chr 34) (escape s ++ String (chr 34) rest))%string.
Proof. unfold quote. cbn [String.append]. by rewrite string_app_assoc. Qed.

(** What a value begins with. *)
Definition opens_value (s : string) : Prop :=
  exists c s', s = String c s' /\ is_ws c = false /\ code c <> 93 /\ code c <> 125 /\ code c <> 44.

Lemma opens_value_app s t : opens_value s -> opens_value (s ++ t).
Proof. intros (c & s' & -> & H). exists c, (s' ++ t)%string. done. Qed.

Lemma digit_opens c s : is_digit c = true -> opens_value (String c s).
Proof.
  unfold is_digit. intros H. bool_to_prop. exists c, s. unfold is_ws.
  rewrite !(proj2 (Z.eqb_neq _ _)) by lia. split_and!; [done..|lia|lia|lia].
Qed.

Lemma stringify_opens v : opens_value (stringify v).
Proof.
  destruct v as [|[]|[z|]|s|l|m]; try (by eexists _, _; split_and!).
  unfold stringify, toString. destruct (Z.ltb_spec z 0); [by eexists _, _; split_and!|].
  destruct (show_nat_head z) as (c & s & -> & Hc); [done|]. by apply digit_opens.
Qed.

Lemma skip_opens s : opens_value s -> skip_ws s = s.
Proof. intros (c & s' & -> & H & _). cbn. by rewrite H. Qed.

Lemma is_char_opens s z : opens_value s -> z = 93 \/ z = 125 -> is_char z s = None.
Proof.
  intros (c & s' & -> & _ & H1 & H2 & _) Hz. cbn. rewrite (proj2 (Z.eqb_neq _ _)); [done|]. naive_solver.
Qed.

(** Lists of printed items. *)
Lemma parse_list_print {A} (f : string -> option (A * string)) (pr : A -> string) close xs n rest :
  close = 93 \/ close = 125 -> xs <> [] -> (length xs <= n)%nat ->
  (forall x r, x ∈ xs -> ends_number r -> f (pr x ++ r)%string = Some (x, r)) ->
  parse_list n f close (String.concat "," (map pr xs) ++ String (chr close) rest) = Some (xs, rest).
Proof.
  intros Hcl Hne. revert n. induction xs as [|x xs IH]; intros n Hn Hf; [done|].
  destruct n as [|n]; [cbn in Hn; lia|]. cbn [parse_list].
  assert (Hc : code (chr close) = close) by (apply code_chr; naive_solver lia).
  destruct xs as [|y xs].
  - cbn [map String.concat]. rewrite Hf; [|left|].
    + cbn [skip_ws]. replace (is_ws (chr close)) with false by (destruct Hcl as [-> | ->]; reflexivity).
      cbn [is_char]. by rewrite Hc, Z.eqb_refl.
    + cbn. unfold is_digit. rewrite Hc. naive_solver lia.
  - change (String.concat "," (map pr (x :: y :: xs))) with (pr x ++ "," ++ String.concat "," (map pr (y :: xs)))%string.
    rewrite string_app_assoc. rewrite Hf; [|left|done].
    set (t := (String.concat "," (map pr (y :: xs)) ++ String (chr close) rest)%string).
    change (skip_ws (("," ++ String.concat "," (map pr (y :: xs))) ++ String (chr close) rest)) with (String "," t).
    replace (is_char close (String "," t)) with (@None string) by (destruct Hcl as [-> | ->]; reflexivity).
    change (is_char 44 (String "," t)) with (Some t). unfold t. rewrite IH; [done|done|cbn in *; lia|]. intros x' r Hx. apply Hf. by right.
Qed.

Lemma concat_length sep (l : list string) s : s ∈ l -> (String.length s <= String.length (String.concat sep l))%nat.
Proof.
  induction l as [|x l IH]; [by intros ?%not_elem_of_nil|]. intros Hs. destruct l as [|y l].
  - apply list_elem_of_singleton in Hs as ->. done.
  - change (String.concat sep (x :: y :: l)) with (x ++ sep ++ String.concat sep (y :: l))%string.
    rewrite !string_length_app. apply elem_of_cons in Hs as [->|Hs]; [lia|]. specialize (IH Hs). lia.
Qed.

Lemma concat_count sep (l : list string) :
  Forall (fun s => (1 <= String.length s)%nat) l -> (length l <= String.length (String.concat sep l))%nat.
Proof.
  induction 1 as [|x l Hx Hl IH]; [done|]. destruct l as [|y l]; [cbn in *; lia|].
  change (String.concat sep (x :: y :: l)) with (x ++ sep ++ String.concat sep (y :: l))%string.
  rewrite !string_length_app. cbn [length] in *. lia.
Qed.

Lemma parse_number_value n s : (exists c s', s = String c s' /\ (is_digit c = true \/ code c = 45)) ->
  parse_value (S n) s = option_map (fun p => (JNum (fst p), snd p)) (parse_number s).
Proof.
  intros (c & s' & -> & Hc). assert (Hz : 48 <= code c <= 57 \/ code c = 45).
  { destruct Hc as [H|H]; [|by right]. unfold is_digit in H. bool_to_prop. lia. }
  cbn [parse_value skip_ws]. unfold is_ws. rewrite !(proj2 (Z.eqb_neq _ _)) by lia. cbn [orb].
  by rewrite !(proj2 (Z.eqb_neq _ _)) by lia.
Qed.

Lemma parse_number_half rest : ends_number rest -> parse_number ("0.5" ++ rest) = Some (JsNonInt, rest).
Proof.
  destruct rest as [|c r]; [done|]. intros (Hd & H1 & H2 & H3).
  change (parse_number ("0.5" ++ String c r)) with
    (match take_digits 5 1 (String c r) with
     | (_, O, _) => None
     | (m, k, s4) => option_map (fun es => (scaled m (fst es - Z.of_nat k), snd es)) (parse_exp s4)
     end).
  rewrite take_digits_end by done. unfold parse_exp. by rewrite !(proj2 (Z.eqb_neq _ _)) by done.
Qed.

Lemma parse_value_quote n s :
  parse_value (S n) (String (chr 34) s) = option_map (fun p => (JStr (fst p), snd p)) (parse_string s).
Proof. reflexivity. Qed.

Lemma parse_value_arr n s :
  opens_value s -> parse_value (S n) (String "[" s) =
    option_map (fun p => (JArr (fst p), snd p)) (parse_list (String.length s) (parse_value n) 93 s).
Proof.
  intros Hs. transitivity (match is_char 93 (skip_ws s) with
    | Some s2 => Some (JArr [], s2)
    | None => option_map (fun p => (JArr (fst p), snd p)) (parse_list (String.length s) (parse_value n) 93 s)
    end); [reflexivity|]. rewrite skip_opens, is_char_opens by auto. done.
Qed.

Lemma parse_value_obj n s :
  opens_value s -> parse_value (S n) (String "{" s) =
    option_map (fun p => (JObj (fst p), snd p)) (parse_list (String.length s) (parse_member (parse_value n)) 125 s).
Proof.
  intros Hs. transitivity (match is_char 125 (skip_ws s) with
    | Some s2 => Some (JObj [], s2)
    | None => option_map (fun p => (JObj (fst p), snd p)) (parse_list (String.length s) (parse_member (parse_value n)) 125 s)
    end); [reflexivity|]. rewrite skip_opens, is_char_opens by auto. done.
Qed.

Lemma parse_member_print f k s :
  parse_member f (quote k ++ ":" ++ s) = option_map (fun p => ((k, fst p), snd p)) (f s).
Proof.
  rewrite quote_app. transitivity (match parse_string (escape k ++ String (chr 34) (":" ++ s)) with
    | None => None
    | Some (k, s2) => match is_char 58 (skip_ws s2) with
                      | None => None
                      | Some s3 => option_map (fun p => ((k, fst p), snd p)) (f s3)
                      end
    end); [reflexivity|]. by rewrite parse_string_escape.
Qed.

Lemma opens_length s : opens_value s -> (1 <= String.length s)%nat.
Proof. intros (c & t & -> & _). cbn. lia. Qed.

Lemma concat_opens {A} (pr : A -> string) x l :
  opens_value (pr x) -> opens_value (String.concat "," (map pr (x :: l))).
Proof.
  intros H. destruct l as [|y l]; [done|].
  change (String.concat "," (map pr (x :: y :: l))) with (pr x ++ "," ++ String.concat "," (map pr (y :: l)))%string.
  by apply opens_value_app.
Qed.

Lemma parse_value_stringify v n rest :
  ends_number rest -> (String.length (stringify v) <= n)%nat -> parse_value n (stringify v ++ rest) = Some (v, rest).
Proof.
  revert n rest. induction v as [|b|z|s|l IH|m IH] using json_nested_ind; intros [|n] rest Hr Hn;
    try (exfalso; match goal with Hn : (String.length (stringify ?v) <= 0)%nat |- _ =>
      destruct (stringify_opens v) as (c & t & E & _); rewrite E in Hn; cbn in Hn; lia end).
  - done.
  - by destruct b.
  - destruct z as [z|].
    + rewrite parse_number_value; [cbn [stringify]; by rewrite parse_number_int|].
      cbn [stringify]. unfold toString. destruct (Z.ltb_spec z 0); [by eexists _, _; split; [|right]|].
      destruct (show_nat_head z) as (c & t & -> & Hc); [done|]. eexists _, _. split; [done|by left].
    + rewrite parse_number_value; [|by eexists _, _; split; [|left]]. cbn [stringify]. by rewrite parse_number_half.
  - cbn [stringify]. by rewrite quote_app, parse_value_quote, parse_string_escape.
  - destruct l as [|x l]; [done|]. set (xs := x :: l) in *. cbn [stringify] in Hn |- *.
    rewrite !string_length_app in Hn. cbn [String.length] in Hn.
    rewrite !string_app_assoc. change ("[" ++ ?t)%string with (String "[" t).
    change ("]" ++ rest)%string with (String (chr 93) rest). rewrite parse_value_arr.
    + rewrite parse_list_print; [done|by left|done| |].
      * rewrite string_length_app. etrans; [|apply Nat.le_add_r]. rewrite <- (length_map stringify).
        apply concat_count. apply Forall_map, Forall_true. intros v. apply opens_length, stringify_opens.
      * intros v r Hv Hr'. rewrite Forall_forall in IH. apply (IH v Hv); [done|].
        pose proof (concat_length "," (map stringify xs) (stringify v) ltac:(by apply list_elem_of_fmap_2)). lia.
    + apply opens_value_app, concat_opens. apply stringify_opens.
  - destruct m as [|x m]; [done|]. set (xs := x :: m) in *. cbn [stringify] in Hn |- *.
    rewrite !string_length_app in Hn. cbn [String.length] in Hn.
    rewrite !string_app_assoc. change ("{" ++ ?t)%string with (String "{" t).
    set (pr := fun kv : string * json => (quote kv.1 ++ ":" ++ stringify kv.2)%string) in *.
    assert (Hpr : forall kv, opens_value (pr kv)) by (intros kv; by eexists _, _; split_and!).
    change ("}" ++ rest)%string with (String (chr 125) rest). rewrite parse_value_obj.
    + rewrite parse_list_print; [done|by right|done| |].
      * rewrite string_length_app. etrans; [|apply Nat.le_add_r]. rewrite <- (length_map pr).
        apply concat_count. apply Forall_map, Forall_true. intros v. apply opens_length, Hpr.
      * intros kv r Hv Hr'. rewrite Forall_forall in IH.
        pose proof (concat_length "," (map pr xs) (pr kv) ltac:(by apply list_elem_of_fmap_2)) as Hlen.
        assert (String.length (pr kv) = S (S (String.length (escape kv.1) + S (String.length (stringify kv.2)))))%nat as El.
        { unfold pr, quote. cbn [String.append String.length]. rewrite !string_length_app. cbn. lia. }
        unfold pr. rewrite !string_app_assoc, parse_member_print, (IH kv Hv); [by destruct kv|done|lia].
    + apply opens_value_app, concat_opens, Hpr.
Qed.

(** [JSON.parse(JSON.stringify(v))] is [v]. *)
Lemma parse_stringify v : parse (stringify v) = Ok v.
Proof.
  unfold parse. rewrite <- (string_app_nil (stringify v)) at 2.
  rewrite parse_value_stringify; [done|done|lia].
Qed.

(** * Decimal strings read back *)

Fixpoint str_all (p : Ascii.ascii -> bool) (s : string) : bool :=
  match s with EmptyString => true | String c s' => p c && str_all p s' end.

Lemma take_digits_all a k s v m :
  take_digits a k s = (v, m, EmptyString) -> str_all is_digit s = true /\ radix_value 10 a s = Some v.
Proof.
  revert a k. induction s as [|c s IH]; intros a k E; cbn in E |- *; [by simplify_eq|].
  destruct (is_digit c) eqn:Hc; [|done]. apply IH in E as [-> E]. split; [done|].
  unfold is_digit in Hc. unfold hex_val, digit_val in *. fold (code c). rewrite Hc. bool_to_prop.
  by rewrite (proj2 (Z.ltb_lt _ _)) by lia.
Qed.

Lemma rev_string_app s a : rev_string (rev_string s a) EmptyString = rev_string a s.
Proof. revert a. induction s as [|c s IH]; intros a; [by destruct a|]. cbn. by rewrite IH. Qed.

Lemma str_all_rev p s a : str_all p (rev_string s a) = str_all p s && str_all p a.
Proof.
  revert a. induction s as [|c s IH]; intros a; [done|]. cbn. rewrite IH. cbn. by destruct (p c), (str_all p s).
Qed.

Lemma trim_left_id s : str_all (fun c => negb (is_js_ws c)) s = true -> trim_left s = s.
Proof. destruct s as [|c s]; [done|]. cbn. by destruct (is_js_ws c). Qed.

Lemma trim_id s : str_all (fun c => negb (is_js_ws c)) s = true -> trim s = s.
Proof.
  intros H. unfold trim. rewrite (trim_left_id s) by done.
  rewrite trim_left_id by (rewrite str_all_rev, H; done). by rewrite rev_string_app.
Qed.

Lemma str_all_impl (p q : Ascii.ascii -> bool) s :
  (forall c, p c = true -> q c = true) -> str_all p s = true -> str_all q s = true.
Proof.
  intros H. induction s as [|c s IH]; [done|]. cbn. intros Hs. apply andb_prop in Hs as [H1 H2].
  by rewrite (H c H1), (IH H2).
Qed.

Lemma digit_not_ws c : is_digit c = true -> negb (is_js_ws c) = true.
Proof.
  unfold is_digit, is_js_ws. intros H. bool_to_prop.
  rewrite (proj2 (Z.leb_gt (code c) 13)), andb_false_r, (proj2 (Z.eqb_neq (code c) 32)) by lia. done.
Qed.

Lemma show_nat_digits z : 0 <= z -> str_all is_digit (show_nat z) = true /\ radix 10 (show_nat z) = Some z.
Proof.
  intros Hz. destruct (parse_unsigned_int z EmptyString Hz I) as (n & E & _). rewrite string_app_nil in E.
  apply take_digits_all in E as [Hall E]. split; [done|].
  destruct (show_nat_head z Hz) as (c & t & Es & _). rewrite Es in E |- *. exact E.
Qed.

Lemma string_to_bigint_show z : 0 <= z -> string_to_bigint (show_nat z) = Some z.
Proof.
  intros Hz. destruct (show_nat_digits z Hz) as [Hall Hr]. unfold string_to_bigint.
  rewrite trim_id by (eapply str_all_impl; [apply digit_not_ws|done]).
  destruct (show_nat z) as [|c s]; [done|]. cbn in Hall. apply andb_prop in Hall as [Hc Hs].
  rewrite (digit_not c 45 Hc), (digit_not c 43 Hc) by lia.
  destruct (code c =? 48) eqn:E0; [|done]. destruct s as [|p h].
  - cbn in Hr. unfold hex_val in Hr. fold (code c) in Hr. bool_to_prop.
    match goal with H : code c = 48 |- _ => rewrite H in Hr end. done.
  - cbn in Hs. apply andb_prop in Hs as [Hp _].
    rewrite !(digit_not p) by (done || lia). done.
Qed.

(** [BigInt(z.toString())] is [z]. *)
Lemma BigInt_toString z : BigInt (Some (JStr (toString z))) = Ok z.
Proof.
  unfold BigInt, toString. destruct (Z.ltb_spec z 0) as [Hz|Hz]; [|by rewrite string_to_bigint_show].
  destruct (show_nat_digits (- z) ltac:(lia)) as [Hall Hr].
  replace (string_to_bigint (String "-" (show_nat (- z)))) with (Some z); [done|].
  unfold string_to_bigint. rewrite trim_id.
  - change (code "-" =? 45) with true. cbn iota. rewrite Hr. cbn. f_equal. lia.
  - cbn [str_all]. rewrite (str_all_impl is_digit) by (try done; apply digit_not_ws). done.
Qed.
