(* ===== verification/DistributedFrame.v ===== *)
(** Frames as bytes: [sui-tunnel-ts/src/core/distributedFrame.ts].

    A frame is JSON text; [Json] has the parser and the printer.  A move goes
    through a codec, whose decoder may be given anything: [R] is what it returns
    before the types of its members are known, and [typed] the move that is, if
    they are the declared ones.  [decodeFrame] does not look at [by] either.

    [TextDecoder.decode] is the inverse of [TextEncoder.encode]; bytes that are not
    well-formed UTF-8 are outside this model. *)
From S2P Require Import Prelude.
From S2P Require Import Bytes.
From S2P Require Import Protocol.
From S2P Require Import DistributedTunnel.
From S2P Require Import Json.

(** [new TextDecoder().decode(b)] *)
Fixpoint text_decode (b : bytes) : string :=
  match b with [] => EmptyString | x :: b' => String (chr x) (text_decode b') end.

(** [src core/distributedFrame.ts MoveCodec] *)
Record MoveCodec (M R : Type) := {
  encode : M -> json;
  decode : option json -> result R;
  typed : R -> option M
}.
Arguments encode {M R}.
Arguments decode {M R}.
Arguments typed {M R}.

(** [src core/distributedFrame.ts identityMoveCodec], for moves that are JSON
    values; a missing move is [undefined]. *)
Definition identityMoveCodec : MoveCodec json (option json) :=
  {| encode := fun m => m; decode := fun j => Ok j; typed := fun j => j |}.

(** What a codec promises: [strip m] arrives where the valid move [m] is sent, and
    what is sent depends on [strip m] only. *)
Class CodecLaws {M R} (codec : MoveCodec M R) (valid : M -> Prop) (strip : M -> M) : Prop := {
  codec_arrives : forall m, valid m ->
    exists r, decode codec (Some (encode codec m)) = Ok r /\ typed codec r = Some (strip m);
  codec_hides : forall m, encode codec m = encode codec (strip m)
}.

#[export] Instance identity_codec_laws : CodecLaws identityMoveCodec (fun _ => True) (fun m => m).
Proof. split; [|done]. intros m _. by exists (Some m). Qed.

Definition party_json (p : Party) : json := JStr (match p with PartyA => "A" | PartyB => "B" end).

(** [fromHex(v)]: whatever is not a string has no [startsWith]. *)
Definition fromHexJs (v : option json) : result bytes :=
  match v with
  | Some (JStr s) => fromHex s
  | _ => Throw (TypeError "hex.startsWith is not a function")
  end.

(** [src core/distributedFrame.ts MoveFrame] as it is decoded *)
Record JsMoveFrame (R : Type) := {
  jf_nonce : Z;
  jf_by : option json;
  jf_move : R;
  jf_timestamp : Z;
  jf_stateHash : bytes;
  jf_partyABalance : Z;
  jf_partyBBalance : Z;
  jf_sigProposer : bytes
}.
Arguments jf_nonce {R}.
Arguments jf_by {R}.
Arguments jf_move {R}.
Arguments jf_timestamp {R}.
Arguments jf_stateHash {R}.
Arguments jf_partyABalance {R}.
Arguments jf_partyBBalance {R}.
Arguments jf_sigProposer {R}.

Inductive JsFrame (R : Type) :=
  | JMove (f : JsMoveFrame R)
  | JAck (f : AckFrame).
Arguments JMove {R}.
Arguments JAck {R}.

(** [src core/distributedFrame.ts wrapInnerFrameJson]: a [kind] that is
    [undefined] is left out. *)
Definition wrapInnerFrameJson (innerJson : string) : result string :=
  let! o := parse innerJson in
  let! kind := jget o "kind" in
  Ok (stringify (JObj ([("t", JStr "frame")] ++ match kind with Some k => [("kind", k)] | None => [] end ++
                       [("data", JStr innerJson)]))).

(** [src core/distributedFrame.ts innerFrameJsonFromRawBytes] *)
Definition innerFrameJsonFromRawBytes (b : bytes) : option bytes :=
  match (let! o := parse (text_decode b) in
         let! t := jget o "t" in
         let! data := jget o "data" in
         Ok (t, data)) with
  | Ok (Some (JStr t), Some (JStr data)) => if String.eqb t "frame" then Some (text_encode data) else None
  | _ => None
  end.

Section Codec.
Context {M R : Type} (codec : MoveCodec M R).

(** [src core/distributedFrame.ts:84-103 encodeFrame] the object *)
Definition frame_json (f : Frame M) : json :=
  match f with
  | FMove f => JObj
      [("kind", JStr "move"); ("nonce", JStr (toString (mf_nonce f))); ("by", party_json (mf_by f));
       ("move", encode codec (mf_move f)); ("timestamp", JStr (toString (mf_timestamp f)));
       ("stateHash", JStr (toHex (mf_stateHash f)));
       ("partyABalance", JStr (toString (mf_partyABalance f)));
       ("partyBBalance", JStr (toString (mf_partyBBalance f)));
       ("sigProposer", JStr (toHex (sigProposer f)))]
  | FAck f => JObj
      [("kind", JStr "ack"); ("nonce", JStr (toString (af_nonce f))); ("sigResponder", JStr (toHex (sigResponder f)))]
  end.

(** [src core/distributedFrame.ts encodeFrame] *)
Definition encodeFrame (f : Frame M) : bytes := text_encode (stringify (frame_json f)).

(** [src core/distributedFrame.ts encodeRelayEnvelope] *)
Definition encodeRelayEnvelope (f : Frame M) : result string := wrapInnerFrameJson (text_decode (encodeFrame f)).

(** [src core/distributedFrame.ts decodeFrame] *)
Definition decodeFrame (b : bytes) : result (JsFrame R) :=
  let! o := parse (text_decode b) in
  let big (k : string) := let! v := jget o k in BigInt v in
  let hex (k : string) := let! v := jget o k in fromHexJs v in
  let! kind := jget o "kind" in
  let kind_is (s : string) := match kind with Some (JStr k) => String.eqb k s | _ => false end in
  if kind_is "move" then
    let! nonce := big "nonce" in
    let! by_ := jget o "by" in
    let! mv := jget o "move" in
    let! move := decode codec mv in
    let! timestamp := big "timestamp" in
    let! stateHash := hex "stateHash" in
    let! a := big "partyABalance" in
    let! b := big "partyBBalance" in
    let! sig := hex "sigProposer" in
    Ok (JMove {| jf_nonce := nonce; jf_by := by_; jf_move := move; jf_timestamp := timestamp;
                 jf_stateHash := stateHash; jf_partyABalance := a; jf_partyBBalance := b; jf_sigProposer := sig |})
  else if kind_is "ack" then
    let! nonce := big "nonce" in
    let! sig := hex "sigResponder" in
    Ok (JAck {| af_nonce := nonce; sigResponder := sig |})
  else Throw (Error "unknown frame kind").

(** The frame of the engine, if its members have the declared types. *)
Definition as_party (v : option json) : option Party :=
  match v with
  | Some (JStr s) => if String.eqb s "A" then Some PartyA else if String.eqb s "B" then Some PartyB else None
  | _ => None
  end.

Definition as_frame (f : JsFrame R) : option (Frame M) :=
  match f with
  | JAck f => Some (FAck f)
  | JMove f =>
      match as_party (jf_by f), typed codec (jf_move f) with
      | Some p, Some m => Some (FMove
          {| mf_nonce := jf_nonce f; mf_by := p; mf_move := m; mf_timestamp := jf_timestamp f;
             mf_stateHash := jf_stateHash f; mf_partyABalance := jf_partyABalance f;
             mf_partyBBalance := jf_partyBBalance f; sigProposer := jf_sigProposer f |})
      | _, _ => None
      end
  end.

(** * Frames survive the relay *)

(** The frame with its move stripped. *)
Definition stripped (strip : M -> M) (f : Frame M) : Frame M :=
  match f with
  | FAck f => FAck f
  | FMove f => FMove
      {| mf_nonce := mf_nonce f; mf_by := mf_by f; mf_move := strip (mf_move f); mf_timestamp := mf_timestamp f;
         mf_stateHash := mf_stateHash f; mf_partyABalance := mf_partyABalance f;
         mf_partyBBalance := mf_partyBBalance f; sigProposer := sigProposer f |}
  end.

Definition frame_ok (valid : M -> Prop) (f : Frame M) : Prop :=
  match f with
  | FAck f => bytes_ok (sigResponder f)
  | FMove f => valid (mf_move f) /\ bytes_ok (mf_stateHash f) /\ bytes_ok (sigProposer f)
  end.

Lemma text_decode_encode s : text_decode (text_encode s) = s.
Proof.
  induction s as [|c s IH]; cbn; [done|]. rewrite IH. unfold chr. by rewrite N2Z.id, Ascii.ascii_N_embedding.
Qed.

Context (valid : M -> Prop) (strip : M -> M) `{!CodecLaws codec valid strip}.

Lemma decode_move f :
  frame_ok valid (FMove f) ->
  exists d, decodeFrame (encodeFrame (FMove f)) = Ok d /\ as_frame d = Some (stripped strip (FMove f)).
Proof.
  intros (Hm & Hh & Hs). destruct (codec_arrives (mf_move f) Hm) as (r & Er & Et).
  unfold decodeFrame, encodeFrame. rewrite text_decode_encode, parse_stringify.
  cbn -[BigInt toString fromHexJs party_json]. rewrite !BigInt_toString, Er. cbn -[party_json].
  rewrite !fromHex_toHex by done. cbn -[party_json]. eexists. split; [done|]. cbn -[party_json]. rewrite Et.
  by destruct (mf_by f).
Qed.

Lemma decode_ack f :
  frame_ok valid (FAck f) ->
  exists d, decodeFrame (encodeFrame (FAck f)) = Ok d /\ as_frame d = Some (stripped strip (FAck f)).
Proof.
  intros Hs. cbn in Hs. unfold decodeFrame, encodeFrame. rewrite text_decode_encode, parse_stringify.
  cbn -[BigInt toString fromHexJs]. rewrite !BigInt_toString. cbn. rewrite fromHex_toHex by done. cbn.
  eexists. split; [done|]. by destruct f.
Qed.

(** Frames cross the relay unharmed and give nothing away.  For any codec that
    keeps its promise: the opponent decodes the frame that was sent, its move
    stripped of what is local; the relay's envelope carries the very bytes of
    the frame; and those bytes are the same whatever secrets the move had. *)
Theorem frames_cross_the_relay f :
  frame_ok valid f ->
  (exists d, decodeFrame (encodeFrame f) = Ok d /\ as_frame d = Some (stripped strip f)) /\
  (exists e, encodeRelayEnvelope f = Ok e /\ innerFrameJsonFromRawBytes (text_encode e) = Some (encodeFrame f)) /\
  encodeFrame f = encodeFrame (stripped strip f).
Proof.
  intros Hf. split; [destruct f; [by apply decode_move|by apply decode_ack]|]. split.
  - unfold encodeRelayEnvelope, wrapInnerFrameJson, innerFrameJsonFromRawBytes, encodeFrame.
    rewrite text_decode_encode, parse_stringify.
    destruct f as [f|f]; cbn -[stringify frame_json]; eexists; (split; [done|]);
      rewrite text_decode_encode, parse_stringify; done.
  - unfold encodeFrame. destruct f as [f|f]; [|done]. cbn [frame_json stripped mf_nonce mf_by mf_move mf_timestamp
      mf_stateHash mf_partyABalance mf_partyBBalance sigProposer]. by rewrite <- codec_hides.
Qed.

End Codec.
