(* ===== verification/MoveCodecs.v ===== *)
(** What the move codecs of the relay share: the checks [quantumPokerCodec.ts],
    [blackjackCodec.ts] and [paymentsCodec.ts] of [sui-tunnel-ts/src/protocol/] each
    repeat, with the same bodies.  Each codec has a file of its own and is an
    instance of the interface the frames rely on ([DistributedFrame.CodecLaws]):
    what arrives is the move without its local secrets, and the secrets are not
    in what is sent. *)

From S2P Require Import Prelude.
From S2P Require Import Bytes.
From S2P Require Import Protocol.
From S2P Require Import Json.
From S2P Require Import DistributedTunnel.
From S2P Require Import DistributedFrame.

(** [src protocol/quantumPokerCodec.ts expectRecord] *)
Definition expectRecord (v : option json) : result json :=
  match v with
  | Some (JObj m) => Ok (JObj m)
  | _ => Throw (Error "must be an object")
  end.

(** [src protocol/quantumPokerCodec.ts expectString] *)
Definition expectString (v : option json) : result string :=
  match v with
  | Some (JStr s) => Ok s
  | _ => Throw (Error "must be a string")
  end.

(** [src protocol/quantumPokerCodec.ts expectInteger] *)
Definition expectInteger (v : json) : result jsnum :=
  match v with
  | JNum (JsInt z) => Ok (JsInt z)
  | _ => Throw (Error "must be an integer")
  end.

(** [src protocol/quantumPokerCodec.ts expectArray] *)
Definition expectArray (v : option json) : result (list json) :=
  match v with
  | Some (JArr l) => Ok l
  | _ => Throw (Error "must be an array")
  end.

(** [src protocol/quantumPokerCodec.ts bytesFromHex] *)
Definition bytesFromHex (v : option json) (len : option nat) : result bytes :=
  let! s := expectString v in
  let! b := fromHex s in
  throw_if match len with Some n => negb (length b =? n)%nat | None => false end with Error "must be n bytes" ;
  Ok b.

(** [src protocol/quantumPokerCodec.ts hex] *)
Definition hex (b : bytes) : string := ("0x" ++ toHex b)%string.

(** An object with a [kind] and nothing else. *)
Definition kind_only (k : string) : json := JObj [("kind", JStr k)].

Lemma bytesFromHex_hex b len :
  bytes_ok b -> match len with Some n => length b = n | None => True end ->
  bytesFromHex (Some (JStr (hex b))) len = Ok b.
Proof.
  intros Hb Hl. unfold bytesFromHex, hex. cbn [expectString rbind]. rewrite fromHex_0x_toHex by done. cbn [rbind].
  destruct len as [n|]; [|done]. by rewrite (proj2 (Nat.eqb_eq _ _) Hl).
Qed.

(** The payments codec, [sui-tunnel-ts/src/protocol/paymentsCodec.ts]. *)
From S2P Require Import Payments.

(** [src protocol/paymentsCodec.ts paymentMoveToJson] *)
Definition paymentMoveToJson (move : PaymentMove) : json :=
  JObj [("from", party_json (from move)); ("amount", JStr (toString (amount move)))].

(** [src protocol/paymentsCodec.ts expectParty] *)
Definition expectParty (v : option json) : result Party :=
  match as_party v with
  | Some p => Ok p
  | None => Throw (Error "must be A or B")
  end.

(** [src protocol/paymentsCodec.ts expectAmountString] *)
Definition expectAmountString (v : option json) : result string := expectString v.

(** [src protocol/paymentsCodec.ts paymentMoveFromJson] *)
Definition paymentMoveFromJson (v : option json) : result PaymentMove :=
  let! move := expectRecord v in
  let! f := jget move "from" in
  let! p := expectParty f in
  let! a := jget move "amount" in
  let! s := expectAmountString a in
  let! n := BigInt (Some (JStr s)) in
  Ok {| from := p; amount := n |}.

(** [src protocol/paymentsCodec.ts paymentsMoveCodec] *)
Definition paymentsMoveCodec : MoveCodec PaymentMove PaymentMove :=
  {| encode := paymentMoveToJson; decode := paymentMoveFromJson; typed := Some |}.

#[export] Instance paymentsCodecLaws : CodecLaws paymentsMoveCodec (fun _ => True) (fun m => m).
Proof.
  split; [|done]. intros [p a] _. exists {| from := p; amount := a |}. split; [|done].
  unfold decode, paymentsMoveCodec, paymentMoveFromJson, encode, paymentMoveToJson.
  destruct p; cbn -[BigInt toString]; rewrite BigInt_toString; done.
Qed.

(* The blackjack codec, [sui-tunnel-ts/src/protocol/blackjackCodec.ts]: the secret
    of a commitment stays with its seat. *)
From S2P Require Import Blackjack.

(** [src protocol/blackjackCodec.ts revealToJson] *)
Definition revealToJson (r : BlackjackSlotReveal) : json :=
  JObj [("value", JStr (hex (sr_value r))); ("salt", JStr (hex (sr_salt r)))].

(** [src protocol/blackjackCodec.ts revealFromJson] *)
Definition revealFromJson (v : option json) : result BlackjackSlotReveal :=
  let! reveal := expectRecord v in
  let! a := jget reveal "value" in
  let! val := bytesFromHex a None in
  let! b := jget reveal "salt" in
  let! sal := bytesFromHex b None in
  Ok {| sr_value := val; sr_salt := sal |}.

(** [src protocol/blackjackCodec.ts blackjackMoveToJson] *)
Definition blackjackMoveToJson (move : BlackjackMove) : json :=
  match move with
  | Bet amount => JObj [("kind", JStr "bet"); ("amount", JStr (toString amount))]
  | Commit commitment _ => JObj [("kind", JStr "commit"); ("commitment", JStr (hex commitment))]
  | Reveal r => JObj [("kind", JStr "reveal"); ("reveal", revealToJson r)]
  | Hit => kind_only "hit"
  | Stand => kind_only "stand"
  | Forfeit => kind_only "forfeit"
  end.

(** [src protocol/blackjackCodec.ts blackjackMoveFromJson] *)
Definition blackjackMoveFromJson (v : option json) : result BlackjackMove :=
  let! move := expectRecord v in
  let! k := jget move "kind" in
  let! kind := expectString k in
  if String.eqb kind "bet" then
    let! a := jget move "amount" in
    let! s := expectString a in
    let! n := BigInt (Some (JStr s)) in
    Ok (Bet n)
  else if String.eqb kind "commit" then
    let! c := jget move "commitment" in
    let! b := bytesFromHex c (Some 32%nat) in
    Ok (Commit b None)
  else if String.eqb kind "reveal" then
    let! r := jget move "reveal" in
    let! reveal := revealFromJson r in
    Ok (Reveal reveal)
  else if String.eqb kind "hit" then Ok Hit
  else if String.eqb kind "stand" then Ok Stand
  else if String.eqb kind "forfeit" then Ok Forfeit
  else Throw (Error "unsupported blackjack move kind").

(** [src protocol/blackjackCodec.ts blackjackMoveCodec] *)
Definition blackjackMoveCodec : MoveCodec BlackjackMove BlackjackMove :=
  {| encode := blackjackMoveToJson; decode := blackjackMoveFromJson; typed := Some |}.

(** The move without the secret that stays with its seat. *)
Definition public_move (m : BlackjackMove) : BlackjackMove :=
  match m with Commit c _ => Commit c None | _ => m end.

Definition move_ok (m : BlackjackMove) : Prop :=
  match m with
  | Commit c _ => bytes_ok c /\ length c = 32%nat
  | Reveal r => bytes_ok (sr_value r) /\ bytes_ok (sr_salt r)
  | _ => True
  end.

#[export] Instance blackjackCodecLaws : CodecLaws blackjackMoveCodec move_ok public_move.
Proof.
  split; [|by intros []]. intros m Hm. exists (public_move m). split; [|done].
  unfold decode, blackjackMoveCodec, blackjackMoveFromJson, encode, blackjackMoveToJson.
  destruct m as [a|c sec|r| | |]; try done; cbn -[BigInt toString bytesFromHex hex revealFromJson revealToJson].
  - by rewrite BigInt_toString.
  - destruct Hm. by rewrite bytesFromHex_hex.
  - destruct Hm. unfold revealFromJson, revealToJson. cbn -[bytesFromHex hex].
    rewrite !bytesFromHex_hex by done. by destruct r.
Qed.

(* The battleship codec, [sui-tunnel-ts/src/protocol/battleshipCodec.ts].  The
    decoder takes [cell], [isHit] and [next] as they come: [BattleshipMoveJs] is the
    move before their types are known. *)
From S2P Require Import Battleship.

(** [src protocol/battleshipCodec.ts hex] *)
Definition battleship_hex (b : bytes) : string := ("0x" ++ toHex b)%string.

(** [src protocol/battleshipCodec.ts battleshipMoveToJson] *)
Definition battleshipMoveToJson (move : BattleshipMove) : json :=
  match move with
  | Commit commitment => JObj [("kind", JStr "commit"); ("commitment", JStr (battleship_hex commitment))]
  | Shoot cell => JObj [("kind", JStr "shoot"); ("cell", JNum cell)]
  | Answer hit None => JObj [("kind", JStr "answer"); ("isHit", JBool hit)]
  | Answer hit (Some next) => JObj [("kind", JStr "answer"); ("isHit", JBool hit); ("next", JNum next)]
  | RevealBoard board salt =>
      JObj [("kind", JStr "reveal_board"); ("board", JStr (battleship_hex board)); ("salt", JStr (battleship_hex salt))]
  | Resign => kind_only "resign"
  end.

Inductive BattleshipMoveJs :=
  | JsCommit (commitment : bytes)
  | JsShoot (cell : option json)
  | JsAnswer (isHit : option json) (next : option json)
  | JsRevealBoard (board salt : bytes)
  | JsResign.

(** [src protocol/battleshipCodec.ts battleshipMoveFromJson] *)
Definition battleshipMoveFromJson (v : option json) : result BattleshipMoveJs :=
  match v with
  | None => Throw (TypeError "Cannot read properties of undefined")
  | Some o =>
      let! kind := jget o "kind" in
      let kind_is (s : string) := match kind with Some (JStr k) => String.eqb k s | _ => false end in
      if kind_is "commit" then
        let! c := jget o "commitment" in
        let! b := fromHexJs c in
        Ok (JsCommit b)
      else if kind_is "shoot" then
        let! c := jget o "cell" in
        Ok (JsShoot c)
      else if kind_is "answer" then
        let! next := jget o "next" in
        let! hit := jget o "isHit" in
        Ok (JsAnswer hit next)
      else if kind_is "reveal_board" then
        let! bj := jget o "board" in
        let! board := fromHexJs bj in
        let! sj := jget o "salt" in
        let! salt := fromHexJs sj in
        Ok (JsRevealBoard board salt)
      else if kind_is "resign" then Ok JsResign
      else Throw (Error "unknown battleship move kind")
  end.

(** The move, if its members have the declared types. *)
Definition typed_move (m : BattleshipMoveJs) : option BattleshipMove :=
  match m with
  | JsCommit c => Some (Commit c)
  | JsShoot (Some (JNum n)) => Some (Shoot n)
  | JsAnswer (Some (JBool h)) None => Some (Answer h None)
  | JsAnswer (Some (JBool h)) (Some (JNum n)) => Some (Answer h (Some n))
  | JsRevealBoard b s => Some (RevealBoard b s)
  | JsResign => Some Resign
  | _ => None
  end.

(** [src protocol/battleshipCodec.ts battleshipMoveCodec] *)
Definition battleshipMoveCodec : MoveCodec BattleshipMove BattleshipMoveJs :=
  {| encode := battleshipMoveToJson; decode := battleshipMoveFromJson; typed := typed_move |}.

Definition move_bytes_ok (m : BattleshipMove) : Prop :=
  match m with
  | Commit c => bytes_ok c
  | RevealBoard b s => bytes_ok b /\ bytes_ok s
  | _ => True
  end.

#[export] Instance battleshipCodecLaws : CodecLaws battleshipMoveCodec move_bytes_ok (fun m => m).
Proof.
  split; [|done]. intros m Hm.
  unfold decode, battleshipMoveCodec, battleshipMoveFromJson, encode, battleshipMoveToJson, typed.
  destruct m as [c|cell|hit [next|]|b sl|]; cbn -[fromHexJs battleship_hex]; try (by eexists).
  - unfold fromHexJs, battleship_hex. rewrite fromHex_0x_toHex by done. by eexists.
  - unfold fromHexJs, battleship_hex. destruct Hm. rewrite !fromHex_0x_toHex by done. by eexists.
Qed.

(* A MOVE frame names its author in [by], and neither [decodeFrame] nor [onMove]
    checks that this is A or B: [onMove] only refuses a frame attributed to the
    receiver itself.  What a value that is neither does to a battleship game. *)
From S2P Require Import Crypto.

(** [v === "A"] or [v === "B"] *)
Definition is_party (v : option json) (p : Party) : bool := bool_decide (as_party v = Some p).

(** [src core/distributedTunnel.ts:284-285 DistributedTunnel.onMove]: the attribution
    guard, for whatever value [by] has *)
Definition attribution_guard (selfParty : Party) (by_ : option json) : result unit :=
  throw_if is_party by_ selfParty with Error "received a MOVE attributed to self" ;
  Ok tt.

(** [src protocol/battleship.ts:150-163 BattleshipProtocol.applyMove]: a resignation,
    for whatever value [by] has *)
Definition resign_by (s : BattleshipState) (by_ : option json) : result BattleshipState :=
  throw_if bool_decide (phase s = Over) || negb (winner s =? 0) with Error "game already over" ;
  Ok (settle s (if is_party by_ PartyA then 2 else 1)).

Section WithCrypto.
Context `{C : Crypto}.

(** For A and B this is the protocol's resignation. *)
Lemma resign_by_party s p : resign_by s (Some (party_json p)) = applyMove s Resign p.
Proof. unfold resign_by, applyMove. by destruct p. Qed.

(** A frame of player A with a resignation and a [by] that is no party. *)
Definition foreign_frame (nonce timestamp a b : Z) (stateHash sig : bytes) : bytes :=
  text_encode (stringify (JObj
    [("kind", JStr "move"); ("nonce", JStr (toString nonce)); ("by", JStr "X"); ("move", kind_only "resign");
     ("timestamp", JStr (toString timestamp)); ("stateHash", JStr (toHex stateHash));
     ("partyABalance", JStr (toString a)); ("partyBBalance", JStr (toString b)); ("sigProposer", JStr (toHex sig))])).

(** A player can make its opponent resign.  Whatever nonce, balances, state
    hash and signature it fills in, player A can send a frame that B decodes, that
    passes B's attribution guard, and whose move has on every battleship game
    exactly the effect of B's own resignation. *)
Theorem foreign_party_resigns_for_b s nonce timestamp a b stateHash sig :
  bytes_ok stateHash -> bytes_ok sig ->
  exists f, decodeFrame battleshipMoveCodec (foreign_frame nonce timestamp a b stateHash sig) = Ok (JMove f) /\
    jf_nonce f = nonce /\ jf_stateHash f = stateHash /\ jf_partyABalance f = a /\ jf_partyBBalance f = b /\
    jf_sigProposer f = sig /\ jf_move f = JsResign /\
    attribution_guard PartyB (jf_by f) = Ok tt /\ resign_by s (jf_by f) = applyMove s Resign PartyB.
Proof.
  intros Hh Hs. unfold decodeFrame, foreign_frame. rewrite text_decode_encode, parse_stringify.
  cbn -[BigInt toString fromHexJs]. rewrite !BigInt_toString. cbn. rewrite !fromHex_toHex by done. cbn.
  eexists. split; [reflexivity|]. cbn. split_and!; try done.
Qed.

End WithCrypto.

Lemma foreign_party_resigns_for_b_witness :
  exists f, decodeFrame battleshipMoveCodec (foreign_frame 1 0 2 0 [7; 8] [9]) = Ok (JMove f) /\
    attribution_guard PartyB (jf_by f) = Ok tt.
Proof.
  destruct (foreign_party_resigns_for_b (C := toy_crypto)
    (initialState 1 {| ctx_tunnelId := "0xB0"; initialBalances := {| bal_a := 1; bal_b := 1 |} |}) 1 0 2 0 [7; 8] [9])
    as (f & E & _ & _ & _ & _ & _ & _ & Hg & _); [repeat constructor; unfold is_byte; lia..|].
  exists f. split; [exact E|exact Hg].
Defined.
