(* ===== verification/QuantumPokerViews.v ===== *)
(** The two seats of a poker game do not hold the same state: each keeps its own
    secrets and the hole cards it can derive, and gets the opponent's moves
    stripped of theirs.  Both views have the same public part, so the hash and
    the balances a move is signed with are re-derived by the opponent. *)

From stdpp Require Import sorting fin_sets.
From S2P Require Import Prelude.
From S2P Require Import Bytes.
From S2P Require Import Protocol.
From S2P Require Import Json.
From S2P Require Import DistributedTunnel.
From S2P Require Import DistributedFrame.
From S2P Require Import MoveCodecs.
From S2P Require Import QuantumPoker.
From S2P Require Import Wire.
From S2P Require Import Crypto.
From S2P Require Import Commitment.
From S2P Require Import QuantumPokerGame.

(* The poker codec, [sui-tunnel-ts/src/protocol/quantumPokerCodec.ts]: the secrets
    of the nine slots stay with their seat. *)

(** [src protocol/quantumPokerCodec.ts revealToJson] *)
Definition revealToJson (r : SlotReveal) : json :=
  JObj [("value", JStr (hex (value r))); ("salt", JStr (hex (salt r)))].

(** [src protocol/quantumPokerCodec.ts revealFromJson] *)
Definition revealFromJson (v : json) : result SlotReveal :=
  let! reveal := expectRecord (Some v) in
  let! a := jget reveal "value" in
  let! val := bytesFromHex a (Some 32%nat) in
  let! b := jget reveal "salt" in
  let! sal := bytesFromHex b (Some 16%nat) in
  Ok {| value := val; salt := sal |}.

(** [src protocol/quantumPokerCodec.ts pokerMoveToJson] *)
Definition pokerMoveToJson (move : PokerMove) : json :=
  match move with
  | CommitSlots commitments _ =>
      JObj [("kind", JStr "commit_slots"); ("commitments", JArr (map (fun c => JStr (hex c)) commitments))]
  | RevealSlots slots rs =>
      JObj [("kind", JStr "reveal_slots"); ("slots", JArr (map JNum slots)); ("reveals", JArr (map revealToJson rs))]
  | BetMove amount => JObj [("kind", JStr "bet"); ("amount", JStr (toString amount))]
  | Check_ => kind_only "check"
  | Call_ => kind_only "call"
  | Fold_ => kind_only "fold"
  | Forfeit => kind_only "forfeit"
  | NextHand => kind_only "next_hand"
  end.

(** [src protocol/quantumPokerCodec.ts pokerMoveFromJson] *)
Definition pokerMoveFromJson (v : option json) : result PokerMove :=
  let! move := expectRecord v in
  let! k := jget move "kind" in
  let! kind := expectString k in
  if String.eqb kind "commit_slots" then
    let! c := jget move "commitments" in
    let! l := expectArray c in
    let! commitments := rmap (fun c => bytesFromHex (Some c) (Some 32%nat)) l in
    Ok (CommitSlots commitments None)
  else if String.eqb kind "reveal_slots" then
    let! sl := jget move "slots" in
    let! l := expectArray sl in
    let! slots := rmap expectInteger l in
    let! rj := jget move "reveals" in
    let! rl := expectArray rj in
    let! rs := rmap revealFromJson rl in
    Ok (RevealSlots slots rs)
  else if String.eqb kind "bet" then
    let! a := jget move "amount" in
    let! s := expectString a in
    let! n := BigInt (Some (JStr s)) in
    Ok (BetMove n)
  else if String.eqb kind "check" then Ok Check_
  else if String.eqb kind "call" then Ok Call_
  else if String.eqb kind "fold" then Ok Fold_
  else if String.eqb kind "forfeit" then Ok Forfeit
  else if String.eqb kind "next_hand" then Ok NextHand
  else Throw (Error "unsupported poker move kind").

(** [src protocol/quantumPokerCodec.ts pokerMoveCodec] *)
Definition pokerMoveCodec : MoveCodec PokerMove PokerMove :=
  {| encode := pokerMoveToJson; decode := pokerMoveFromJson; typed := Some |}.

(** The move without the secrets of its seat. *)
Definition public_move (m : PokerMove) : PokerMove :=
  match m with CommitSlots cs _ => CommitSlots cs None | _ => m end.

Definition reveal_sized (r : SlotReveal) : Prop :=
  bytes_ok (value r) /\ length (value r) = 32%nat /\ bytes_ok (salt r) /\ length (salt r) = 16%nat.

Definition move_sized (m : PokerMove) : Prop :=
  match m with
  | CommitSlots cs _ => Forall (fun c => bytes_ok c /\ length c = 32%nat) cs
  | RevealSlots slots rs => Forall (fun n => isInteger n = true) slots /\ Forall reveal_sized rs
  | _ => True
  end.

Lemma rmap_map_ok {A B} (f : B -> result A) (g : A -> B) xs :
  Forall (fun x => f (g x) = Ok x) xs -> rmap f (map g xs) = Ok xs.
Proof. induction 1 as [|x xs Hx _ IH]; [done|]. cbn. by rewrite Hx, IH. Qed.

Lemma revealFromJson_toJson r : reveal_sized r -> revealFromJson (revealToJson r) = Ok r.
Proof.
  intros (H1 & H2 & H3 & H4). unfold revealFromJson, revealToJson. cbn -[bytesFromHex hex].
  rewrite !bytesFromHex_hex by done. by destruct r.
Qed.

#[export] Instance pokerCodecLaws : CodecLaws pokerMoveCodec move_sized public_move.
Proof.
  split; [|by intros []]. intros m Hm. exists (public_move m). split; [|done].
  unfold decode, pokerMoveCodec, pokerMoveFromJson, encode, pokerMoveToJson.
  destruct m as [cs sec|slots rs|a| | | | |]; try done; cbn -[BigInt toString bytesFromHex hex rmap].
  - rewrite (rmap_map_ok _ (fun c => JStr (hex c))); [done|].
    eapply Forall_impl; [exact Hm|]. intros c [H1 H2]. by apply bytesFromHex_hex.
  - destruct Hm as [Hs Hr]. rewrite (rmap_map_ok _ JNum); [|eapply Forall_impl; [exact Hs|]; by intros []].
    cbn -[rmap]. rewrite (rmap_map_ok _ revealToJson); [done|].
    eapply Forall_impl; [exact Hr|]. apply revealFromJson_toJson.
  - by rewrite BigInt_toString.
Qed.

(** * A sample frame *)

Definition sample_secret : SlotReveal := {| value := replicate 32 7; salt := replicate 16 9 |}.

Definition commit_frame (secrets : option (list SlotReveal)) : Frame PokerMove :=
  FMove {| mf_nonce := 3; mf_by := PartyB; mf_move := CommitSlots (replicate 9 (replicate 32 255)) secrets;
           mf_timestamp := 1700000000000; mf_stateHash := replicate 32 1; mf_partyABalance := 70; mf_partyBBalance := 30;
           sigProposer := replicate 64 200 |}.

Lemma replicate_bytes n b : is_byte b -> bytes_ok (replicate n b).
Proof. apply Forall_replicate. Qed.

(** The secrets of a commitment are not in its frame. *)
Lemma frames_cross_the_relay_witness :
  (exists d, decodeFrame pokerMoveCodec (encodeFrame pokerMoveCodec (commit_frame (Some (replicate 9 sample_secret)))) = Ok d /\
     as_frame pokerMoveCodec d = Some (commit_frame None)) /\
  encodeFrame pokerMoveCodec (commit_frame (Some (replicate 9 sample_secret))) =
    encodeFrame pokerMoveCodec (commit_frame None).
Proof.
  destruct (frames_cross_the_relay pokerMoveCodec move_sized public_move (commit_frame (Some (replicate 9 sample_secret))))
    as (Hd & _ & He).
  - split; [|split; apply replicate_bytes; unfold is_byte; lia].
    apply Forall_replicate. split; [apply replicate_bytes; unfold is_byte; lia|reflexivity].
  - split; [exact Hd|exact He].
Defined.

(** * The public part *)

Definition public_seat (x : Seat) : Seat :=
  {| commit := commit x; reveals := reveals x; localSecrets := None; hole := None; totalBet := totalBet x;
     streetBet := streetBet x; acted := acted x; shown := shown x; shownHole := shownHole x; balance := balance x |}.

Definition public (s : PokerState) : PokerState :=
  {| phase := phase s; handNo := handNo s; handCap := handCap s; seatA := public_seat (seatA s);
     seatB := public_seat (seatB s); board := board s; boardSlots := boardSlots s; boardCounters := boardCounters s;
     toAct := toAct s; foldedBy := foldedBy s; winner := winner s; lastResult := lastResult s; total := total s |}.

Definition rpublic (r : result PokerState) : result PokerState := let! s := r in Ok (public s).

Lemma encodeState_public s : encodeState (public s) = encodeState s.
Proof. reflexivity. Qed.

Lemma balances_public s : balances (public s) = balances s.
Proof. reflexivity. Qed.

(** * Operations that see the public part only *)

Lemma afterBetAction_public s : afterBetAction (public s) = rpublic (afterBetAction s).
Proof.
  unfold afterBetAction, advanceStreet. cbn. destruct (_ && _ && _); [|reflexivity]. by destruct (phase s).
Qed.

Lemma resolveFold_public s : resolveFold (public s) = rpublic (resolveFold s).
Proof. unfold resolveFold. cbn. destruct (foldedBy s) as [[]|]; reflexivity. Qed.

Lemma applyBet_public s m by_ : applyBet (public s) m by_ = rpublic (applyBet s m by_).
Proof.
  unfold applyBet. cbn. destruct (negb _); [done|]. destruct m; try done.
  - unfold applyBetOrRaise, availableFor. destruct by_; cbn;
      repeat (match goal with |- context [if ?b then _ else _] => destruct b end; try reflexivity).
  - unfold applyCheck. destruct by_; cbn; destruct (negb _); try reflexivity;
      [exact (afterBetAction_public (markActed s PartyA true))|exact (afterBetAction_public (markActed s PartyB true))].
  - unfold applyCall, availableFor. destruct by_; cbn;
      repeat (match goal with |- context [if ?b then Throw _ else _] => destruct b end; try reflexivity).
    + exact (afterBetAction_public (markActed (put_bet s PartyA (streetBet (seatA s) + _) _) PartyA true)).
    + exact (afterBetAction_public (markActed (put_bet s PartyB (streetBet (seatB s) + _) _) PartyB true)).
  - by destruct by_; apply (resolveFold_public (set_folded s _)).
Qed.

Lemma expected_public s p : expectedQuantumPokerRevealSlots (public s) p = expectedQuantumPokerRevealSlots s p.
Proof. by destruct p. Qed.

Lemma claimForfeit_public s by_ : claimForfeit (public s) by_ = rpublic (claimForfeit s by_).
Proof.
  unfold claimForfeit. rewrite !expected_public.
  destruct (expectedQuantumPokerRevealSlots s by_); [|done].
  destruct (expectedQuantumPokerRevealSlots s (otherParty by_)); [|done].
  destruct (negb _); [done|]. destruct (_ =? _)%nat; [done|]. by destruct by_; apply (resolveFold_public (set_folded s _)).
Qed.

Section WithCrypto.
Context `{C : Crypto} (ante : Z).

Lemma applyNextHand_public s m : applyNextHand ante (public s) m = rpublic (applyNextHand ante s m).
Proof. by destruct m. Qed.

Lemma deriveSlotCard_view s slot k : deriveSlotCard (public s) slot k false = deriveSlotCard s slot k false.
Proof. reflexivity. Qed.

Lemma unique_card_public n s slot used k : unique_card n (public s) slot used k = unique_card n s slot used k.
Proof.
  revert k. induction n as [|n IH]; intros k; [done|]. cbn [unique_card]. rewrite deriveSlotCard_view.
  destruct (deriveSlotCard s slot k false) as [[c|]|]; try done. cbn. case_bool_decide; [apply IH|done].
Qed.

Lemma push_board_public slots s : push_board (public s) slots = rpublic (push_board s slots).
Proof.
  unfold push_board. revert s. induction slots as [|slot slots IH]; intros s; [done|]. cbn [rfold].
  change (boardSlots (public s)) with (boardSlots s). change (board (public s)) with (board s).
  case_bool_decide; cbn [rbind]; [apply IH|].
  unfold deriveUniqueBoardCard. rewrite unique_card_public.
  destruct (unique_card BOARD_TRIES s slot (board s) 0) as [[c k]|]; [|done]. cbn [rbind fst snd].
  apply (IH (set_board s (board s ++ [c]) (boardSlots s ++ [slot]) (boardCounters s ++ [k]))).
Qed.

Lemma hasRevealed_public s p slots : hasRevealed (public s) p slots = hasRevealed s p slots.
Proof. by destruct p. Qed.

Lemma tryRevealBoardThenBet_public s slots ph :
  tryRevealBoardThenBet (public s) slots ph = rpublic (tryRevealBoardThenBet s slots ph).
Proof.
  unfold tryRevealBoardThenBet. rewrite !hasRevealed_public.
  destruct (_ || _); [done|]. rewrite push_board_public. destruct (push_board s slots) as [s1|]; [|done]. cbn [rbind rpublic].
  change (bettingClosed (public s1)) with (bettingClosed s1). by destruct (bettingClosed s1).
Qed.

Lemma resolveShowdown_public s : resolveShowdown (public s) = rpublic (resolveShowdown s).
Proof.
  unfold resolveShowdown. cbn -[bestPokerHand]. destruct (shownHole (seatA s)) as [ha|]; [|done].
  destruct (shownHole (seatB s)) as [hb|]; [|done].
  destruct (bestPokerHand _) as [ba|]; [|done]. cbn [rbind].
  destruct (bestPokerHand _) as [bb|]; [|done]. cbn [rbind].
  destruct (score bb <? score ba); [reflexivity|]. by destruct (score ba <? score bb).
Qed.

Lemma postAntes_public s ph : postAntesAndBeginStreet ante (public s) ph = rpublic (postAntesAndBeginStreet ante s ph).
Proof. unfold postAntesAndBeginStreet. cbn. by destruct (_ || _). Qed.

Lemma derivePublicHoleCards_view s p : derivePublicHoleCards (public s) p = derivePublicHoleCards s p.
Proof. reflexivity. Qed.

Lemma after_reveals_public s :
  phase s <> OpenPrivateHoles -> after_reveals ante (public s) = rpublic (after_reveals ante s).
Proof.
  intros Hp. unfold after_reveals. change (phase (public s)) with (phase s). destruct (phase s); try done.
  - apply tryRevealBoardThenBet_public.
  - apply tryRevealBoardThenBet_public.
  - apply tryRevealBoardThenBet_public.
  - rewrite !hasRevealed_public, !derivePublicHoleCards_view. destruct (_ && _); [|done].
    destruct (derivePublicHoleCards s PartyA) as [hA|]; [|done]. cbn [rbind].
    destruct (derivePublicHoleCards s PartyB) as [hB|]; [|done]. cbn [rbind].
    exact (resolveShowdown_public (set_seat (set_seat s PartyA (with_shown (seatA s) hA)) PartyB (with_shown (seatB s) hB))).
Qed.

(** * Two views of one game *)

Lemma rpublic_ok r s : rpublic r = Ok s -> exists s', r = Ok s' /\ public s' = s.
Proof. unfold rpublic. intros E. apply rbind_ok in E as (s' & -> & E). apply Ok_inj in E. eauto. Qed.

(** An operation that sees the public part only takes equal views to equal views. *)
Lemma view_step (F : PokerState -> result PokerState) s1 s2 s1' :
  F (public s1) = rpublic (F s1) -> F (public s2) = rpublic (F s2) -> public s1 = public s2 ->
  F s1 = Ok s1' -> exists s2', F s2 = Ok s2' /\ public s1' = public s2'.
Proof.
  intros H1 H2 He E. rewrite He, H2, E in H1. apply rpublic_ok in H1 as (s2' & E2 & Hs). by exists s2'.
Qed.

(** Equal views agree on what is public. *)
Lemma view_seats s1 s2 p :
  public s1 = public s2 -> commit (seat s1 p) = commit (seat s2 p) /\ reveals (seat s1 p) = reveals (seat s2 p) /\
    phase s1 = phase s2.
Proof.
  intros He. pose proof (f_equal seatA He) as HA. pose proof (f_equal seatB He) as HB. pose proof (f_equal phase He).
  cbn in HA, HB. split_and!; [| |done].
  - destruct p; [exact (f_equal commit HA)|exact (f_equal commit HB)].
  - destruct p; [exact (f_equal reveals HA)|exact (f_equal reveals HB)].
Qed.

Definition fits (r : SlotReveal) : Prop :=
  u64_range (Z.of_nat (length (value r))) /\ u64_range (Z.of_nat (length (salt r))).

(** Local secrets whose lengths are 64-bit numbers. *)
Definition secrets_fit (s : PokerState) : Prop :=
  forall p l slot r, localSecretArrayFor s p = Some l -> reveal_at l slot = Some r -> fits r.

Lemma lengthPrefixed_total x : u64_range (Z.of_nat (length x)) -> exists p, lengthPrefixed x = Ok p.
Proof. intros H. eexists. by apply lengthPrefixed_ok. Qed.

Lemma deriveQuantumCard_total ra rb : fits ra -> fits rb -> exists c, deriveQuantumCard ra rb 0 = Ok c.
Proof.
  intros [Ha1 Ha2] [Hb1 Hb2]. unfold deriveQuantumCard, combineReveals, reveals_preimage.
  destruct (lengthPrefixed_total _ Ha1) as [p1 ->]. destruct (lengthPrefixed_total _ Ha2) as [p2 ->].
  destruct (lengthPrefixed_total _ Hb1) as [p3 ->]. destruct (lengthPrefixed_total _ Hb2) as [p4 ->].
  cbn [rbind Z.ltb Z.compare]. rewrite concatBytes_concat. cbn [rbind Z.eqb]. by eexists.
Qed.

Lemma opens_fits c r : verifyCommitment c (value r) (salt r) = Ok true -> fits r.
Proof. intros (p & Hp & _)%verifyCommitment_true. apply commitment_preimage_ok in Hp as (? & ? & _). done. Qed.

Lemma tryDeriveHoleCards_total t s owner :
  poker_ok t s -> secrets_fit s -> exists h, tryDeriveHoleCards s owner = Ok h.
Proof.
  intros H Hs. unfold tryDeriveHoleCards. generalize (Some (@nil Z)).
  induction (own_holes owner) as [|slot slots IH]; intros acc; cbn [rfold]; [by eexists|].
  assert (Hfit : forall p r, revealForDerivation s p slot true = Some r -> fits r).
  { intros p r Hr. unfold revealForDerivation in Hr. destruct (reveal_at (revealArrayFor s p) slot) as [x|] eqn:Ex.
    - simplify_eq. apply (k_reveals _ _ H) in Ex as (cs & _ & Hv). by eapply opens_fits.
    - destruct (localSecretArrayFor s p) as [l|] eqn:El; [|done]. by eapply Hs. }
  destruct acc as [cs|]; [|apply IH].
  unfold deriveSlotCard. destruct (revealForDerivation s PartyA slot true) as [ra|] eqn:EA; [|apply IH].
  destruct (revealForDerivation s PartyB slot true) as [rb|] eqn:EB; [|apply IH].
  destruct (deriveQuantumCard_total ra rb) as [c ->]; [by eapply Hfit|by eapply Hfit|]. apply IH.
Qed.

(** The branch of [after_reveals] that deals the hole cards. *)
Lemma deal_holes_step s1 s2 s1' t :
  public s1 = public s2 -> phase s1 = OpenPrivateHoles -> after_reveals ante s1 = Ok s1' ->
  poker_ok t s2 -> finished (phase s2) = false -> secrets_fit s2 ->
  exists s2', after_reveals ante s2 = Ok s2' /\ public s1' = public s2'.
Proof.
  intros He Hp E H Hfin Hs. destruct (view_seats s1 s2 PartyA He) as (_ & _ & Hp2). rewrite Hp in Hp2.
  unfold after_reveals in *. rewrite Hp in E. rewrite <- Hp2.
  rewrite <- !(hasRevealed_public s1), He, !hasRevealed_public in E.
  destruct (_ && _); [|apply Ok_inj in E; subst; by exists s2].
  apply rbind_ok in E as (hA & _ & E). apply rbind_ok in E as (hB & _ & E). cbv zeta in E.
  destruct (tryDeriveHoleCards_total t s2 PartyA H Hs) as [kA ->]. cbn [rbind].
  set (s2a := set_seat s2 PartyA (with_hole (seatA s2) kA)).
  destruct (tryDeriveHoleCards_total t s2a PartyB) as [kB ->]; [exact (hole_ok t s2 PartyA kA H Hfin)| |].
  { intros p l slot r. specialize (Hs p l slot r). by destruct p. }
  cbn [rbind]. eapply (view_step (fun s => postAntesAndBeginStreet ante s PreflopBet));
    [apply postAntes_public|apply postAntes_public| |exact E]. exact He.
Qed.

Lemma record_view s1 s2 p rs :
  public s1 = public s2 ->
  public (set_seat s1 p (with_reveals (seat s1 p) rs)) = public (set_seat s2 p (with_reveals (seat s2 p) rs)).
Proof.
  assert (Hpub : forall s, public (set_seat s p (with_reveals (seat s p) rs)) =
    set_seat (public s) p (with_reveals (seat (public s) p) rs)) by (intros s; by destruct p).
  intros He. by rewrite !Hpub, He.
Qed.

(** Reveals: the recording, then what the reveals lead to. *)
Lemma reveal_slots_inv s m by_ s' :
  applyRevealSlots ante s m by_ = Ok s' ->
  exists slots rs commits target, m = RevealSlots slots rs /\ commitArrayFor s by_ = Some commits /\
    rfold (record_reveal commits) (revealArrayFor s by_) (zip slots rs) = Ok target /\
    after_reveals ante (set_seat s by_ (with_reveals (seat s by_) target)) = Ok s'.
Proof.
  intros E. unfold applyRevealSlots in E. destruct m; try done. inv_ok.
  destruct (commitArrayFor s by_) as [commits|] eqn:Ec; [|done]. inv_ok. eauto 10.
Qed.

Lemma reveal_view s1 s2 m by_ s1' :
  public s1 = public s2 -> applyRevealSlots ante s1 m by_ = Ok s1' ->
  exists r1 r2, public r1 = public r2 /\ after_reveals ante r1 = Ok s1' /\ phase r1 = phase s1 /\ phase r2 = phase s2 /\
    applyRevealSlots ante s2 m by_ = after_reveals ante r2 /\
    (forall t, poker_ok t s2 -> finished (phase s2) = false -> poker_ok t r2) /\ (secrets_fit s2 -> secrets_fit r2).
Proof.
  intros He E. destruct (reveal_slots_inv _ _ _ _ E) as (slots & rs & commits & target & -> & Ec & Er & Ea).
  destruct (view_seats s1 s2 by_ He) as (Hc & Hr & _).
  exists (set_seat s1 by_ (with_reveals (seat s1 by_) target)), (set_seat s2 by_ (with_reveals (seat s2 by_) target)).
  unfold commitArrayFor in Ec. unfold revealArrayFor in Er. rewrite Hc in Ec. rewrite Hr in Er.
  split_and!; [by apply record_view|done|done|done| | |].
  - unfold applyRevealSlots in *. rewrite <- expected_public, He, expected_public in E.
    destruct (expectedQuantumPokerRevealSlots s2 by_); [|done]. cbn [rbind] in *.
    destruct (negb (sameNumberSet slots a)); [done|]. destruct (negb _); [done|].
    unfold commitArrayFor, revealArrayFor. rewrite Ec, Er. done.
  - intros t H Hfin. by eapply recorded_ok.
  - intros Hs p l slot r. specialize (Hs p l slot r). by destruct by_, p.
Qed.

Definition after_open (s : PokerState) : result PokerState :=
  if hasRevealed s PartyA B_HOLE_SLOTS && hasRevealed s PartyB A_HOLE_SLOTS
  then postAntesAndBeginStreet ante s PreflopBet else Ok s.

Lemma deal_holes_view s s' :
  phase s = OpenPrivateHoles -> after_reveals ante s = Ok s' -> after_open (public s) = Ok (public s').
Proof.
  intros Hp E. unfold after_reveals in E. rewrite Hp in E. unfold after_open. rewrite !hasRevealed_public.
  destruct (_ && _); [|apply Ok_inj in E; by subst].
  apply rbind_ok in E as (hA & _ & E). apply rbind_ok in E as (hB & _ & E). cbv zeta in E.
  match type of E with postAntesAndBeginStreet _ ?x _ = _ => pose proof (postAntes_public x PreflopBet) as Hx end.
  rewrite E in Hx. exact Hx.
Qed.

Lemma commit_strip s cs sec by_ s' :
  applyCommit s (CommitSlots cs sec) by_ = Ok s' ->
  exists t, applyCommit s (CommitSlots cs None) by_ = Ok t /\ public t = public s'.
Proof.
  intros E. unfold applyCommit in E |- *. apply rbind_ok in E as (c & -> & E). cbn [rbind].
  apply rbind_ok in E as (sec' & _ & E). destruct (bool_decide _); [done|]. apply Ok_inj in E. subst s'.
  eexists. split; [reflexivity|]. destruct by_; cbn; by repeat case_match.
Qed.

Lemma commit_public s cs by_ : applyCommit (public s) (CommitSlots cs None) by_ = rpublic (applyCommit s (CommitSlots cs None) by_).
Proof.
  unfold applyCommit. destruct (validateCommitments cs) as [c|]; [|done]. cbn [rbind].
  destruct by_; cbn; by repeat case_match.
Qed.

Lemma strip_step s m by_ s' :
  applyMove ante s m by_ = Ok s' -> exists t, applyMove ante s (public_move m) by_ = Ok t /\ public t = public s'.
Proof.
  intros E. destruct m as [cs sec| | | | | | |]; try (exists s'; split; [exact E|reflexivity]). cbn [public_move].
  unfold applyMove in *. destruct (phase s); try done; [by eapply commit_strip|..];
    (unfold applyBet in E; by destruct (negb _)).
Qed.

(** The reveal that deals the hole cards, on two views. *)
Definition deals (s2 : PokerState) (s1' : PokerState) (r : result PokerState) : Prop :=
  exists r1 r2 t1, public r1 = public r2 /\ phase r1 = OpenPrivateHoles /\ phase r2 = phase s2 /\
    after_reveals ante r1 = Ok t1 /\ public t1 = public s1' /\ r = after_reveals ante r2 /\
    (forall t, poker_ok t s2 -> finished (phase s2) = false -> poker_ok t r2) /\ (secrets_fit s2 -> secrets_fit r2).

(** One move on two equal views of a game. *)
Lemma step_view_cases s1 s2 m by_ s1' :
  public s1 = public s2 -> applyMove ante s1 m by_ = Ok s1' ->
  (exists s2', applyMove ante s2 (public_move m) by_ = Ok s2' /\ public s1' = public s2') \/
  deals s2 s1' (applyMove ante s2 (public_move m) by_).
Proof.
  intros He E. apply strip_step in E as (t1 & E & Ht). destruct (view_seats s1 s2 by_ He) as (_ & _ & Hp).
  destruct (match m with Forfeit => true | _ => false end) eqn:Em.
  { destruct m; try done. left. rewrite <- Ht. eapply (view_step (fun s => claimForfeit s by_)); eauto using claimForfeit_public. }
  assert (Hgo : forall s, applyMove ante s (public_move m) by_ =
    match phase s with
    | CommitPhase => applyCommit s (public_move m) by_
    | OpenPrivateHoles | RevealFlop | RevealTurn | RevealRiver | Showdown => applyRevealSlots ante s (public_move m) by_
    | PreflopBet | FlopBet | TurnBet | RiverBet => applyBet s (public_move m) by_
    | HandOver => applyNextHand ante s (public_move m)
    | Done => Throw (Error "no moves legal in phase")
    end) by (intros s; by destruct m).
  rewrite Hgo in E |- *. rewrite <- Hp. clear Hgo.
  assert (Hrev : applyRevealSlots ante s1 (public_move m) by_ = Ok t1 ->
    (exists s2', applyRevealSlots ante s2 (public_move m) by_ = Ok s2' /\ public s1' = public s2') \/
    deals s2 s1' (applyRevealSlots ante s2 (public_move m) by_)).
  { intros Er. destruct (reveal_view _ _ _ _ _ He Er) as (r1 & r2 & Her & Ea & P1 & P2 & -> & Hok & Hfit).
    destruct (decide (phase s1 = OpenPrivateHoles)) as [Ho|Ho].
    - right. exists r1, r2, t1. split_and!; try done. congruence.
    - left. rewrite <- Ht. eapply (view_step (after_reveals ante) r1 r2); [apply after_reveals_public; congruence..|done|done]. }
  destruct (phase s1) eqn:P1; try (by apply Hrev); try done; left; rewrite <- Ht.
  - destruct m as [cs sec| | | | | | |]; try done. cbn [public_move] in *.
    eapply (view_step (fun s => applyCommit s (CommitSlots cs None) by_)); eauto using commit_public.
  - eapply (view_step (fun s => applyBet s (public_move m) by_)); eauto using applyBet_public.
  - eapply (view_step (fun s => applyBet s (public_move m) by_)); eauto using applyBet_public.
  - eapply (view_step (fun s => applyBet s (public_move m) by_)); eauto using applyBet_public.
  - eapply (view_step (fun s => applyBet s (public_move m) by_)); eauto using applyBet_public.
  - eapply (view_step (fun s => applyNextHand ante s (public_move m))); eauto using applyNextHand_public.
Qed.

(** Both views stay equal when both take the move, and the view of a seat that is
    not told the secrets does take it. *)
Lemma step_both s1 s2 m1 m2 by_ s1' s2' :
  public s1 = public s2 -> public_move m1 = public_move m2 ->
  applyMove ante s1 m1 by_ = Ok s1' -> applyMove ante s2 m2 by_ = Ok s2' -> public s1' = public s2'.
Proof.
  intros He Hm E1 E2. apply strip_step in E2 as (t2 & E2 & <-). rewrite <- Hm in E2.
  destruct (step_view_cases _ _ _ _ _ He E1) as [(u2 & E & Hs)|(r1 & r2 & t1 & Her & P1 & P2 & Ea & <- & Er & _)].
  - rewrite E in E2. apply Ok_inj in E2. congruence.
  - rewrite Er in E2. pose proof (f_equal phase Her) as Hp. cbn in Hp.
    apply deal_holes_view in Ea; [|done]. apply deal_holes_view in E2; [|congruence].
    rewrite Her, E2 in Ea. by apply Ok_inj in Ea.
Qed.

Lemma step_accepted s1 s2 m by_ s1' t :
  public s1 = public s2 -> poker_ok t s2 -> secrets_fit s2 -> applyMove ante s1 m by_ = Ok s1' ->
  exists s2', applyMove ante s2 (public_move m) by_ = Ok s2' /\ public s1' = public s2'.
Proof.
  intros He H Hs E.
  destruct (step_view_cases _ _ _ _ _ He E) as [?|(r1 & r2 & t1 & Her & P1 & P2 & Ea & <- & -> & Hok & Hfit)]; [done|].
  pose proof (f_equal phase Her) as Hp. cbn in Hp.
  assert (Hfin : finished (phase s2) = false) by (by rewrite <- P2, <- Hp, P1).
  eapply (deal_holes_step r1 r2); [done..|by apply Hok|by rewrite <- Hp, P1|by apply Hfit].
Qed.

(** Two histories of a game that differ in secrets only. *)
Definition same_move (x y : PokerMove * Party) : Prop := public_move x.1 = public_move y.1 /\ x.2 = y.2.

Lemma run_views cap ms1 ms2 s1 s2 s1' s2' :
  Forall2 same_move ms1 ms2 -> public s1 = public s2 ->
  run (QuantumPokerProtocol cap ante) s1 ms1 = Ok s1' -> run (QuantumPokerProtocol cap ante) s2 ms2 = Ok s2' ->
  public s1' = public s2'.
Proof.
  intros Hf. revert s1 s2. induction Hf as [|[m1 p1] [m2 p2] ms1 ms2 [Hm Hp] _ IH]; intros s1 s2 He R1 R2.
  - apply Ok_inj in R1, R2. congruence.
  - cbn in Hm, Hp. subst p2. unfold run in *. cbn [rfold] in R1, R2.
    apply rbind_ok in R1 as (t1 & E1 & R1). apply rbind_ok in R2 as (t2 & E2 & R2).
    eapply (IH t1 t2); [|done..]. by eapply (step_both s1 s2 m1 m2 p1).
Qed.

(** The opponent re-derives what the mover signed.  Take the two seats' views of
    one poker game, after histories that differ in the secrets the commitments
    carried only.  Whatever move one seat's view accepts, the other's accepts
    without its secrets, and both then encode to the same bytes, pay the same
    balances and agree on whether the game is over: the state hash and balances
    of the frame check out. *)
Theorem poker_opponent_follows cap ctx ms1 ms2 s1 s2 m by_ s1' :
  0 <= ante -> lockable (initialBalances ctx) -> Forall2 same_move ms1 ms2 ->
  run (QuantumPokerProtocol cap ante) (initialState cap ante ctx) ms1 = Ok s1 ->
  run (QuantumPokerProtocol cap ante) (initialState cap ante ctx) ms2 = Ok s2 -> secrets_fit s2 ->
  applyMove ante s1 m by_ = Ok s1' ->
  exists s2', applyMove ante s2 (public_move m) by_ = Ok s2' /\
    encodeState s2' = encodeState s1' /\ balances s2' = balances s1' /\ isTerminal s2' = isTerminal s1'.
Proof.
  intros Ha Hl Hf R1 R2 Hs E. pose proof (poker_reachable cap ante Ha ctx ms2 s2 Hl R2) as H2.
  pose proof (run_views cap ms1 ms2 _ _ s1 s2 Hf eq_refl R1 R2) as He.
  destruct (step_accepted s1 s2 m by_ s1' _ He H2 Hs E) as (s2' & E2 & Hp). exists s2'. split; [done|].
  rewrite <- (encodeState_public s2'), <- (balances_public s2'), <- (encodeState_public s1'), <- (balances_public s1').
  rewrite Hp. split; [done|]. split; [done|]. pose proof (f_equal phase Hp) as Hph. cbn in Hph.
  unfold isTerminal. by rewrite Hph.
Qed.

End WithCrypto.

(** * The two views when the hole cards are dealt *)

Definition secrets_of (p : Party) : list SlotReveal := map (secret p) (seqZ 0 9).

(** The moves until A opens B's hole slots, as the seat of [me] has them. *)
Definition view_moves (me : Party) : list (PokerMove * Party) :=
  let own (p : Party) := if party_eqb p me then Some (secrets_of p) else None in
  [(CommitSlots (commits_of PartyA) (own PartyA), PartyA); (CommitSlots (commits_of PartyB) (own PartyB), PartyB);
   reveal_move PartyB A_HOLE_SLOTS].

Definition fits_b (r : SlotReveal) : bool :=
  (length (value r) <? 1000)%nat && (length (salt r) <? 1000)%nat.

Definition secrets_small (x : Seat) : bool :=
  match localSecrets x with
  | None => true
  | Some l => forallb (fun o => match o with Some r => fits_b r | None => true end) l
  end.

Lemma fits_small r : fits_b r = true -> fits r.
Proof.
  unfold fits_b, fits, u64_range. rewrite U64_MAX_eq. intros H. apply andb_prop in H as [H1 H2].
  apply Nat.ltb_lt in H1, H2. lia.
Qed.

Lemma secrets_small_fit s : secrets_small (seatA s) = true -> secrets_small (seatB s) = true -> secrets_fit s.
Proof.
  intros HA HB p l slot r Hl Hr.
  assert (secrets_small (seat s p) = true) as Hp by (by destruct p). unfold secrets_small in Hp.
  unfold localSecretArrayFor in Hl. rewrite Hl in Hp. rewrite forallb_forall in Hp.
  apply fits_small. unfold reveal_at in Hr. rewrite nth_lookup in Hr.
  destruct (l !! Z.to_nat slot) as [o|] eqn:E; [|done]. cbn in Hr. subst o.
  specialize (Hp (Some r)). apply Hp, list_elem_of_In. by eapply list_elem_of_lookup_2.
Qed.

Lemma view_facts :
  match run toy_poker toy_start (view_moves PartyA), run toy_poker toy_start (view_moves PartyB) with
  | Ok s1, Ok s2 =>
      secrets_small (seatA s2) && secrets_small (seatB s2) &&
      match QuantumPoker.applyMove (C := toy_crypto) ANTE s1 (fst (reveal_move PartyA B_HOLE_SLOTS)) PartyA with
      | Ok s1' => bool_decide (phase s1' = PreflopBet) && bool_decide (is_Some (hole (seatA s1'))) &&
                  negb (bool_decide (is_Some (hole (seatB s1'))))
      | Throw _ => false
      end
  | _, _ => false
  end = true.
Proof. vm_compute. reflexivity. Qed.

Lemma poker_opponent_follows_witness :
  exists s1 s2 s1' s2', run toy_poker toy_start (view_moves PartyA) = Ok s1 /\
    run toy_poker toy_start (view_moves PartyB) = Ok s2 /\
    QuantumPoker.applyMove (C := toy_crypto) ANTE s1 (fst (reveal_move PartyA B_HOLE_SLOTS)) PartyA = Ok s1' /\
    QuantumPoker.applyMove (C := toy_crypto) ANTE s2 (fst (reveal_move PartyA B_HOLE_SLOTS)) PartyA = Ok s2' /\
    encodeState s2' = encodeState s1'.
Proof.
  pose proof view_facts as F.
  destruct (run toy_poker toy_start (view_moves PartyA)) as [s1|] eqn:R1; [|discriminate F].
  destruct (run toy_poker toy_start (view_moves PartyB)) as [s2|] eqn:R2; [|discriminate F].
  destruct (QuantumPoker.applyMove ANTE s1 (fst (reveal_move PartyA B_HOLE_SLOTS)) PartyA) as [s1'|] eqn:E1;
    [|rewrite andb_false_r in F; discriminate F].
  apply andb_prop in F as [F _]. apply andb_prop in F as [FA FB].
  destruct (poker_opponent_follows (C := toy_crypto) ANTE 10 poker_ctx (view_moves PartyA) (view_moves PartyB) s1 s2
    (fst (reveal_move PartyA B_HOLE_SLOTS)) PartyA s1' ltac:(unfold ANTE; lia) poker_ctx_lockable) as (s2' & E2 & He & _).
  - repeat constructor.
  - exact R1.
  - exact R2.
  - exact (secrets_small_fit s2 FA FB).
  - exact E1.
  - exists s1, s2, s1', s2'. split; [reflexivity|]. split; [reflexivity|]. split; [exact E1|]. split; [exact E2|exact He].
Defined.
