(* ===== verification/ChatDriver.v ===== *)
(** The chat driver [chatProtocol()] of [sui-tunnel-ts/src/protocol/chat.ts]: it keeps
    the messages beside the protocol's state, sends JSON envelopes and skips
    those it has already applied.  The envelope's members are used as they come;
    [by] is compared with A and B only. *)
From stdpp Require Import gmap.
From S2P Require Import Prelude.
From S2P Require Import Bytes.
From S2P Require Import Wire.
From S2P Require Import Crypto.
From S2P Require Import Protocol.
From S2P Require Import Json.
From S2P Require Import DistributedFrame.
From S2P Require Import Chat.

(** [src protocol/chat.ts ChatMessage], the text as it came *)
Record ChatMessage := { sender : string; m_text : option json }.

(** [src protocol/chat.ts ChatState] *)
Inductive ChatState := Ready | AwaitingPeer | Settled.

(** [src protocol/chat.ts:189-199 chatProtocol] the variables the methods close over.
    [last] is [data.lastSender] as it came; [data] counts whatever is not A as B,
    as [partyByte] does.  [settled] is never assigned. *)
Record ChatDriver := {
  our : Party;
  data : ChatStateData;
  last : option json;
  messages : list ChatMessage;
  applied : gset string
}.

Definition settled : bool := false.

(** [src protocol/chat.ts:188-198 chatProtocol] *)
Definition chatProtocol (ourParty : Party) : ChatDriver :=
  {| our := ourParty;
     data := initialState {| ctx_tunnelId := "0x0"; initialBalances := {| bal_a := 100; bal_b := 100 |} |};
     last := Some JNull; messages := []; applied := ∅ |}.

(** [src protocol/chat.ts:200-200 chatProtocol] *)
Definition nameOf (p : Party) : string := match p with PartyA => "A" | PartyB => "B" end.

(** [by === "A" ? ... : ...] *)
Definition party_or_b (by_ : option json) : Party :=
  match as_party by_ with Some PartyA => PartyA | _ => PartyB end.

(** [String(v)], as [TextEncoder.encode] converts its argument; [undefined] is the
    empty string. *)
Definition js_text (v : option json) : string :=
  match v with
  | None => EmptyString
  | Some JNull => "null"
  | Some v => to_primitive v
  end.

(** [src protocol/chat.ts MoveEnvelope] as [createMove] writes it *)
Definition envelope (text : string) (by_ : Party) : bytes :=
  text_encode (stringify (JObj [("kind", JStr "msg"); ("text", JStr text); ("by", party_json by_)])).

Definition remember_key (key : string) (d : ChatDriver) : ChatDriver :=
  {| our := our d; data := data d; last := last d; messages := messages d; applied := {[key]} ∪ applied d |}.

Definition record (s : ChatStateData) (text by_ : option json) (d : ChatDriver) : ChatDriver :=
  {| our := our d; data := s; last := by_;
     messages := messages d ++ [{| sender := nameOf (party_or_b by_); m_text := text |}]; applied := applied d |}.

(** [src protocol/chat.ts:205-205 chatProtocol] *)
Definition driver_state (d : ChatDriver) : ChatState := if settled then Settled else Ready.

(** [src protocol/chat.ts:209-214 chatProtocol] *)
Definition ourTurn (d : ChatDriver) : bool :=
  if settled then false
  else match last d with
       | Some JNull => party_eqb (our d) PartyA
       | v => negb (bool_decide (as_party v = Some (our d)))
       end.

Section WithCrypto.
Context `{C : Crypto}.

(** One message, applied and recorded. *)
Definition take_message (text by_ : option json) : eff ChatDriver unit :=
  do! d <- eget ;
  do! s <- elift (applyMove (data d) {| kind := "msg"; text := js_text text; tip := None |} (party_or_b by_)) ;
  emodify (record s text by_).

Definition key_of (b : bytes) : string := toHex (blake2b256 b).

(** [src protocol/chat.ts:218-229 chatProtocol] *)
Definition createMove (text : string) : eff ChatDriver bytes :=
  do! d <- eget ;
  let b := envelope text (our d) in
  let key := key_of b in
  if bool_decide (key ∈ applied d) then eret b
  else
    do! _ <- emodify (remember_key key) ;
    do! _ <- take_message (Some (JStr text)) (Some (party_json (our d))) ;
    eret b.

(** [src protocol/chat.ts:231-243 chatProtocol] *)
Definition driver_applyMove (b : bytes) : eff ChatDriver unit :=
  do! d <- eget ;
  let key := key_of b in
  if bool_decide (key ∈ applied d) then eret tt
  else
    do! _ <- emodify (remember_key key) ;
    do! o <- elift (parse (text_decode b)) ;
    do! k <- elift (jget o "kind") ;
    if negb (match k with Some (JStr s) => String.eqb s "msg" | _ => false end) then ethrow (Error "unknown chat envelope kind") else
    do! by_ <- elift (jget o "by") ;
    do! t <- elift (jget o "text") ;
    take_message t by_.


(** * Two drivers *)

(** What the drivers of the two parties share. *)
Definition in_sync (d e : ChatDriver) : Prop :=
  data d = data e /\ last d = last e /\ messages d = messages e /\ applied d = applied e.

Definition sayable (text : string) : Prop :=
  text <> EmptyString /\ u64_range (Z.of_nat (length (text_encode text))).

(** [d] says [text] and [e] gets the bytes. *)
Definition say (d e : ChatDriver) (text : string) : result (ChatDriver * ChatDriver) :=
  match createMove text d with
  | (d', Ok b) => match driver_applyMove b e with (e', Ok _) => Ok (d', e') | (_, Throw x) => Throw x end
  | (_, Throw x) => Throw x
  end.

Lemma chat_applies s text p :
  sayable text -> exists s', applyMove s {| kind := "msg"; text := text; tip := None |} p = Ok s'.
Proof.
  intros [Hne Hr]. unfold applyMove. cbn [kind Chat.text tip]. change (negb (String.eqb "msg" "msg")) with false.
  replace (length (text_encode text) =? 0)%nat with false by (by destruct text). cbv iota.
  rewrite (proj2 (u64ToBeBytes_ok _ _) (conj Hr eq_refl)). cbn [rbind]. rewrite concatBytes_concat. cbn [rbind].
  unfold rollingDigest. rewrite concatBytes_concat. cbn [rbind shift_tip]. by eexists.
Qed.

Lemma party_or_b_json p : party_or_b (Some (party_json p)) = p.
Proof. by destruct p. Qed.

(** What [createMove] does to a driver. *)
Lemma createMove_spec d text :
  sayable text -> exists d', createMove text d = (d', Ok (envelope text (our d))) /\ our d' = our d /\
    if bool_decide (key_of (envelope text (our d)) ∈ applied d) then d' = d
    else applied d' = {[key_of (envelope text (our d))]} ∪ applied d /\
      last d' = Some (party_json (our d)) /\
      messages d' = messages d ++ [{| sender := nameOf (our d); m_text := Some (JStr text) |}] /\
      applyMove (data d) {| kind := "msg"; text := text; tip := None |} (our d) = Ok (data d').
Proof.
  intros Ht. unfold createMove, ebind, eget. case_bool_decide as Hin; [by exists d|].
  destruct (chat_applies (data d) text (our d) Ht) as [s' Es].
  unfold take_message, ebind, emodify, eget, elift, eret. rewrite party_or_b_json. cbn [js_text to_primitive data remember_key].
  rewrite Es. eexists. split; [reflexivity|]. cbn. by rewrite party_or_b_json.
Qed.

(** What applying an envelope does. *)
Lemma driver_applyMove_spec e text p :
  sayable text -> exists e', driver_applyMove (envelope text p) e = (e', Ok tt) /\ our e' = our e /\
    if bool_decide (key_of (envelope text p) ∈ applied e) then e' = e
    else applied e' = {[key_of (envelope text p)]} ∪ applied e /\
      last e' = Some (party_json p) /\
      messages e' = messages e ++ [{| sender := nameOf p; m_text := Some (JStr text) |}] /\
      applyMove (data e) {| kind := "msg"; text := text; tip := None |} p = Ok (data e').
Proof.
  intros Ht. unfold driver_applyMove, ebind, eget. case_bool_decide as Hin; [by exists e|].
  destruct (chat_applies (data e) text p Ht) as [s' Es].
  unfold emodify, elift, envelope. rewrite text_decode_encode, parse_stringify. cbn -[applyMove].
  unfold take_message, ebind, emodify, eget, elift, eret. rewrite party_or_b_json. cbn [js_text to_primitive data remember_key].
  rewrite Es. eexists. split; [reflexivity|]. cbn. by rewrite party_or_b_json.
Qed.

(** The two drivers of a chat stay in step: after any conversation both have the
    same messages and the same signed state. *)
Theorem say_keeps_sync d e text :
  sayable text -> in_sync d e ->
  exists d' e', say d e text = Ok (d', e') /\ in_sync d' e' /\ our d' = our d /\ our e' = our e.
Proof.
  intros Ht (S1 & S2 & S3 & S4). unfold say.
  destruct (createMove_spec d text Ht) as (d' & -> & Od & Hd).
  destruct (driver_applyMove_spec e text (our d) Ht) as (e' & -> & Oe & He).
  exists d', e'. split; [done|]. split; [|done]. rewrite <- S4 in He.
  destruct (bool_decide _); [by subst|]. destruct Hd as (A1 & A2 & A3 & A4), He as (B1 & B2 & B3 & B4).
  rewrite S1, B4 in A4. apply Ok_inj in A4. split_and!; congruence.
Qed.

(** Saying the same text a second time leaves no trace: the bytes are those of the
    first envelope, which counts as applied, here and at the peer. *)
Theorem repeat_is_dropped d e text d1 e1 :
  sayable text -> in_sync d e -> say d e text = Ok (d1, e1) -> say d1 e1 text = Ok (d1, e1).
Proof.
  intros Ht (_ & _ & _ & S4) H. unfold say in *.
  destruct (createMove_spec d text Ht) as (d' & E & Od & Hd). rewrite E in H.
  destruct (driver_applyMove_spec e text (our d) Ht) as (e' & E' & Oe & He). rewrite E' in H.
  apply Ok_inj in H. injection H as <- <-.
  destruct (createMove_spec d' text Ht) as (d2 & -> & _ & Hd2). rewrite Od in *.
  destruct (driver_applyMove_spec e' text (our d) Ht) as (e2 & -> & _ & He2).
  rewrite <- S4 in He. set (key := key_of (envelope text (our d))) in *.
  assert (Hk : key ∈ applied d' /\ key ∈ applied e').
  { clear Hd2 He2. destruct (bool_decide (key ∈ applied d)) eqn:Ek.
    - apply bool_decide_eq_true in Ek. rewrite Hd, He. by rewrite <- S4.
    - destruct Hd as (-> & _), He as (-> & _). set_solver. }
  destruct Hk. rewrite bool_decide_eq_true_2 in Hd2, He2 by done. by subst.
Qed.

End WithCrypto.
