(* ===== verification/WorldCanvas.v ===== *)
(** The world canvas, an endless stream of paints folded into one digest:
    [sui-tunnel-ts/src/protocol/worldCanvas.ts].  [rng] is a stream of draws, the
    draw [k] standing for [k / 2^32] as in [Rng]. *)
From S2P Require Import Prelude.
From S2P Require Import Bytes.
From S2P Require Import Wire.
From S2P Require Import Crypto.
From S2P Require Import Protocol.
From S2P Require Import RollingDigest.
From S2P Require Import Rng.

(** [src protocol/worldCanvas.ts DEFAULT_CHUNK_SIZE] *)
Definition DEFAULT_CHUNK_SIZE : Z := 256.
(** [src protocol/worldCanvas.ts DEFAULT_NUM_COLORS] *)
Definition DEFAULT_NUM_COLORS : Z := 16.
(** [src protocol/worldCanvas.ts DEFAULT_CAP] *)
Definition DEFAULT_CAP : Z := 1000000000000.
(** [src protocol/worldCanvas.ts COORD_MIN] *)
Definition COORD_MIN : Z := - Z.shiftl 1 63.
(** [src protocol/worldCanvas.ts COORD_MAX] *)
Definition COORD_MAX : Z := Z.shiftl 1 63 - 1.

(** [src protocol/worldCanvas.ts WorldCanvasConfig] *)
Record WorldCanvasConfig := { cfg_chunkSize : option jsnum; cfg_numColors : option jsnum; cfg_cap : option Z }.

(** [src protocol/worldCanvas.ts WorldCanvasState] *)
Record WorldCanvasState := {
  rollingDigest_ : bytes;
  count : Z;
  lastPainter : option Party;
  balanceA : Z;
  balanceB : Z;
  total : Z
}.

(** [src protocol/worldCanvas.ts WorldCanvasMove] *)
Record WorldCanvasMove := { cx : Z; cy : Z; x : jsnum; y : jsnum; color : jsnum }.

(** [src protocol/worldCanvas.ts ZERO32] *)
Definition ZERO32 : bytes := u8_new 32.

(** [src protocol/worldCanvas.ts painterByte] *)
Definition painterByte (p : Party) : Z := match p with PartyA => 1 | PartyB => 2 end.

(** [src protocol/worldCanvas.ts zigzag64] *)
Definition zigzag64 (n : Z) : Z := Z.lxor (Z.shiftl n 1) (Z.shiftr n 63).

(** [u64ToBeBytes(n)] and [Uint8Array.of(n)] of a number *)
Definition num_be (n : jsnum) : result bytes :=
  match n with JsInt z => u64ToBeBytes z | JsNonInt => Throw (RangeError "not an integer") end.
Definition num_z (n : jsnum) : Z := match n with JsInt z => z | JsNonInt => 0 end.

(** [src protocol/worldCanvas.ts encodeWorldCanvasMove]; the color is an integer
    wherever this is called. *)
Definition encodeWorldCanvasMove (move : WorldCanvasMove) (by_ : Party) : result bytes :=
  let! bcx := u64ToBeBytes (zigzag64 (cx move)) in
  let! bcy := u64ToBeBytes (zigzag64 (cy move)) in
  let! bx := num_be (x move) in
  let! by8 := num_be (y move) in
  concatBytes [u8_from [painterByte by_]; bcx; bcy; bx; by8; u8_from [num_z (color move)]].

(** [Number.isInteger(n) && 0 <= n && n < bound], negated *)
Definition off_grid (n : jsnum) (bound : Z) : bool :=
  match n with JsInt z => (z <? 0) || (bound <=? z) | JsNonInt => true end.

Definition positive (n : jsnum) : result Z :=
  match n with
  | JsInt z => throw_if z <=? 0 with Error "must be a positive integer" ; Ok z
  | JsNonInt => Throw (Error "must be a positive integer")
  end.

(** [src protocol/worldCanvas.ts:133-136 WorldCanvasProtocol] *)
Record Canvas := { chunkSize : Z; numColors : Z; cap : Z }.

(** [src protocol/worldCanvas.ts WorldCanvasProtocol.constructor] *)
Definition newCanvas (cfg : WorldCanvasConfig) : result Canvas :=
  let! size := positive (default (JsInt DEFAULT_CHUNK_SIZE) (cfg_chunkSize cfg)) in
  let! colors := positive (default (JsInt DEFAULT_NUM_COLORS) (cfg_numColors cfg)) in
  let cp := default DEFAULT_CAP (cfg_cap cfg) in
  throw_if cp <=? 0 with Error "cap must be positive" ;
  Ok {| chunkSize := size; numColors := colors; cap := cp |}.

(** [src protocol/worldCanvas.ts WorldCanvasProtocol.initialState] *)
Definition initialState (ctx : ProtocolContext) : WorldCanvasState :=
  {| rollingDigest_ := ZERO32; count := 0; lastPainter := None;
     balanceA := bal_a (initialBalances ctx); balanceB := bal_b (initialBalances ctx);
     total := bal_a (initialBalances ctx) + bal_b (initialBalances ctx) |}.

(** [src protocol/worldCanvas.ts WorldCanvasProtocol.encodeState] *)
Definition encodeState (s : WorldCanvasState) : result bytes :=
  let! c := u64ToBeBytes (count s) in
  let! a := u64ToBeBytes (balanceA s) in
  let! b := u64ToBeBytes (balanceB s) in
  concatBytes [protocolDomain "world_canvas.v1"; rollingDigest_ s; c; a; b].

(** [src protocol/worldCanvas.ts WorldCanvasProtocol.balances] *)
Definition balances (s : WorldCanvasState) : Balances := {| bal_a := balanceA s; bal_b := balanceB s |}.

Section WithCanvas.
Context `{C : Crypto} (k : Canvas).

(** [src protocol/worldCanvas.ts WorldCanvasProtocol.applyMove] *)
Definition applyMove (s : WorldCanvasState) (move : WorldCanvasMove) (by_ : Party) : result WorldCanvasState :=
  throw_if cap k <=? count s with Error "canvas paint cap reached" ;
  throw_if (cx move <? COORD_MIN) || (COORD_MAX <? cx move) with Error "chunk cx out of signed-64 range" ;
  throw_if (cy move <? COORD_MIN) || (COORD_MAX <? cy move) with Error "chunk cy out of signed-64 range" ;
  throw_if off_grid (x move) (chunkSize k) with Error "x out of range" ;
  throw_if off_grid (y move) (chunkSize k) with Error "y out of range" ;
  throw_if off_grid (color move) (numColors k) with Error "color out of range" ;
  let! delta := encodeWorldCanvasMove move by_ in
  let! nextDigest := rollingDigest blake2b256 (rollingDigest_ s) delta in
  Ok {| rollingDigest_ := nextDigest; count := count s + 1; lastPainter := Some by_;
        balanceA := balanceA s; balanceB := balanceB s; total := total s |}.

(** [src protocol/worldCanvas.ts WorldCanvasProtocol.isTerminal] *)
Definition isTerminal (s : WorldCanvasState) : bool := cap k <=? count s.

(** [src protocol/worldCanvas.ts WorldCanvasProtocol.randomMove] *)
Definition randomMove (s : WorldCanvasState) (rng : nat -> Z) (spread : Z) : option WorldCanvasMove :=
  if cap k <=? count s then None
  else
    let pick (i : nat) (n : Z) := Z.min (n - 1) (rng i * n / W32) in
    Some {| cx := pick 0%nat (2 * spread + 1) - spread; cy := pick 1%nat (2 * spread + 1) - spread;
            x := JsInt (pick 2%nat (chunkSize k)); y := JsInt (pick 3%nat (chunkSize k));
            color := JsInt (pick 4%nat (numColors k)) |}.

(** [src protocol/worldCanvas.ts:128-131 WorldCanvasProtocol] *)
Definition WorldCanvasProtocol : Protocol WorldCanvasState WorldCanvasMove :=
  {| movesCarrySecrets := false;
     Protocol.initialState := fun ctx => Ok (initialState ctx);
     Protocol.applyMove := applyMove;
     Protocol.encodeState := encodeState;
     Protocol.balances := balances;
     Protocol.isTerminal := isTerminal |}.

End WithCanvas.

(** * Zigzag *)

Lemma zigzag64_spec n : COORD_MIN <= n <= COORD_MAX -> zigzag64 n = if 0 <=? n then 2 * n else - 2 * n - 1.
Proof.
  intros [H1 H2]. unfold zigzag64, COORD_MIN, COORD_MAX in *. rewrite Z.shiftl_1_l in *.
  rewrite Z.shiftl_mul_pow2, Z.shiftr_div_pow2 by lia. change (2 ^ 1) with 2.
  destruct (Z.leb_spec 0 n).
  - rewrite (Z.div_small n) by lia. rewrite Z.lxor_0_r. lia.
  - replace (n / 2 ^ 63) with (-1) by (apply (Z.div_unique n (2 ^ 63) (-1) (n + 2 ^ 63)); lia).
    rewrite Z.lxor_m1_r. unfold Z.lnot. lia.
Qed.

Lemma zigzag64_inj n m :
  COORD_MIN <= n <= COORD_MAX -> COORD_MIN <= m <= COORD_MAX -> zigzag64 n = zigzag64 m -> n = m.
Proof. intros Hn Hm. rewrite !zigzag64_spec by done. destruct (Z.leb_spec 0 n), (Z.leb_spec 0 m); lia. Qed.

(** * The canvas commits to its paints *)

(** The bytes of one paint. *)
Definition paint_bytes (m : WorldCanvasMove) (p : Party) : bytes :=
  [painterByte p] ++ be_bytes 8 (zigzag64 (cx m)) ++ be_bytes 8 (zigzag64 (cy m)) ++
  be_bytes 8 (num_z (x m)) ++ be_bytes 8 (num_z (y m)) ++ [to_u8 (num_z (color m))].

Definition on_grid (n : jsnum) (bound : Z) : Prop := exists z, n = JsInt z /\ 0 <= z < bound.

Record legal_paint (k : Canvas) (m : WorldCanvasMove) : Prop := {
  lp_cx : COORD_MIN <= cx m <= COORD_MAX;
  lp_cy : COORD_MIN <= cy m <= COORD_MAX;
  lp_x : on_grid (x m) (chunkSize k) /\ u64_range (num_z (x m));
  lp_y : on_grid (y m) (chunkSize k) /\ u64_range (num_z (y m));
  lp_color : on_grid (color m) (numColors k)
}.

Lemma off_grid_false n bound : off_grid n bound = false <-> on_grid n bound.
Proof.
  unfold off_grid, on_grid. destruct n as [z|]; [|naive_solver].
  rewrite orb_false_iff, Z.ltb_ge, Z.leb_gt. naive_solver lia.
Qed.

Section Theory.
Context `{C : Crypto} (k : Canvas).

Lemma canvas_apply_inv s m p s' :
  applyMove k s m p = Ok s' ->
  legal_paint k m /\
  s' = {| rollingDigest_ := blake2b256 (rollingDigest_ s ++ paint_bytes m p); count := count s + 1;
          lastPainter := Some p; balanceA := balanceA s; balanceB := balanceB s; total := total s |}.
Proof.
  unfold applyMove, encodeWorldCanvasMove, rollingDigest. intros H. inv_ok.
  repeat match goal with H : off_grid _ _ = false |- _ => apply off_grid_false in H as (? & ? & ?) end.
  destruct m as [mcx mcy mx my mc]. cbn [cx cy x y color num_be num_z] in *. subst.
  unfold num_be in *.
  repeat match goal with H : u64ToBeBytes _ = Ok _ |- _ => apply u64ToBeBytes_ok in H as [? ->] end.
  rewrite concatBytes_concat in *.
  repeat match goal with H : Ok _ = Ok _ |- _ => apply Ok_inj in H as <- end.
  bool_to_prop. split.
  - split; cbn; unfold on_grid; try lia; eauto.
  - unfold paint_bytes. cbn [concat u8_from map cx cy x y color num_z]. rewrite !app_nil_r.
    replace (to_u8 (painterByte p)) with (painterByte p) by (by destruct p). done.
Qed.

Definition canvas_inv (t : Z) (s : WorldCanvasState) : Prop :=
  0 <= balanceA s /\ 0 <= balanceB s /\ balanceA s + balanceB s = t.

#[export] Instance WorldCanvasLaws : ProtocolLaws (WorldCanvasProtocol k) canvas_inv (fun _ => True).
Proof.
  split.
  - intros ctx s _ (Ha & Hb & _) E. apply Ok_inj in E. subst s. split; [by split_and!|]. by destruct ctx as [? []].
  - intros t s m p s' H E. by apply canvas_apply_inv in E as [_ ->].
  - intros t s (Ha & Hb & Ht). by split_and!.
Qed.

Lemma paint_bytes_inj m m' p p' :
  numColors k <= 256 -> legal_paint k m -> legal_paint k m' -> paint_bytes m p = paint_bytes m' p' -> m = m' /\ p = p'.
Proof.
  intros Hc [H1 H2 [(zx & Ex & Hx) Rx] [(zy & Ey & Hy) Ry] (zc & Ec & Hcol)]
    [H1' H2' [(zx' & Ex' & Hx') Rx'] [(zy' & Ey' & Hy') Ry'] (zc' & Ec' & Hcol')] H.
  assert (Hz : forall n, COORD_MIN <= n <= COORD_MAX -> u64_range (zigzag64 n)).
  { intros n Hn. unfold u64_range. rewrite U64_MAX_eq, zigzag64_spec by done. unfold COORD_MIN, COORD_MAX in Hn.
    rewrite Z.shiftl_1_l in Hn. destruct (Z.leb_spec 0 n); lia. }
  unfold paint_bytes in H. rewrite Ex, Ey, Ec, Ex', Ey', Ec' in *. cbn [num_z] in *.
  apply app_inj_length in H as [Hp H]; [|done].
  apply app_inj_length in H as [Hcx H]; [|by rewrite !length_be_bytes].
  apply app_inj_length in H as [Hcy H]; [|by rewrite !length_be_bytes].
  apply app_inj_length in H as [Hbx H]; [|by rewrite !length_be_bytes].
  apply app_inj_length in H as [Hby H]; [|by rewrite !length_be_bytes].
  apply be_bytes_inj in Hcx, Hcy, Hbx, Hby; auto. apply zigzag64_inj in Hcx, Hcy; [|done..].
  injection H as H. unfold to_u8 in H. rewrite !Z.mod_small in H by lia.
  split; [|by destruct p, p']. destruct m, m'. cbn in *. congruence.
Qed.

(** A canvas is a chain of paints. *)
Definition paint (mp : WorldCanvasMove * Party) : bytes := paint_bytes mp.1 mp.2.

Lemma canvas_run ms s0 s :
  run (WorldCanvasProtocol k) s0 ms = Ok s ->
  rollingDigest_ s = chain paint (rollingDigest_ s0) ms /\ count s = count s0 + Z.of_nat (length ms) /\
  Forall (fun mp => legal_paint k (fst mp)) ms.
Proof.
  unfold run. revert s0; induction ms as [|[m p] ms IH]; intros s0 H; cbn [rfold] in H.
  { apply Ok_inj in H. subst. split_and!; [done|cbn; lia|constructor]. }
  apply rbind_ok in H as (s1 & E & H). apply canvas_apply_inv in E as [Hm ->]. apply IH in H as (-> & -> & Hs).
  cbn [rollingDigest_ count length]. split_and!; [done|lia|by constructor].
Qed.

(** The signed state, whose size does not grow, fixes the canvas: two canvases of at
    most 256 colors whose states have one encoding were painted with the same
    paints, by the same painters, in the same order, unless the hash collides on
    the inputs hashed along the two. *)
Theorem canvas_commits_to_paints `{!CryptoLaws C} ctx1 ctx2 ms1 ms2 s1 s2 b :
  numColors k <= 256 ->
  run (WorldCanvasProtocol k) (initialState ctx1) ms1 = Ok s1 ->
  run (WorldCanvasProtocol k) (initialState ctx2) ms2 = Ok s2 ->
  encodeState s1 = Ok b -> encodeState s2 = Ok b ->
  ms1 = ms2 \/ collision (chain_inputs paint ZERO32 ms1) (chain_inputs paint ZERO32 ms2).
Proof.
  intros Hc R1 R2 E1 E2. apply canvas_run in R1 as (D1 & C1 & L1), R2 as (D2 & C2 & L2).
  unfold encodeState in E1, E2. inv_ok. rewrite !concatBytes_concat in *.
  repeat match goal with H : u64ToBeBytes _ = Ok _ |- _ => apply u64ToBeBytes_ok in H as [? ->] end.
  apply Ok_inj in E1 as <-. apply Ok_inj in E2. cbn [concat foldr] in E2. apply app_inv_head in E2.
  cbn [initialState rollingDigest_ count] in *. assert (length ZERO32 = 32%nat) as H32 by done.
  apply app_inj_length in E2 as [Hd E2]; [|rewrite D1, D2; by rewrite !length_chain].
  apply app_inj_length in E2 as [Hn _]; [|by rewrite !length_be_bytes]. apply be_bytes_inj in Hn; [|done..].
  destruct (collision_or (chain_inputs paint ZERO32 ms1) (chain_inputs paint ZERO32 ms2)) as [Hx|HD]; [by right|left].
  rewrite <- (map_id ms1), <- (map_id ms2). rewrite Forall_forall in L1, L2.
  apply (chain_inj paint (fun x => x) ZERO32); [done|done| |lia|congruence].
  intros [m p] [m' p'] Hm Hm' Heq. apply paint_bytes_inj in Heq as [Em Ep]; [|done|exact (L1 _ Hm)|exact (L2 _ Hm')]. cbn in Em, Ep. by subst.
Qed.

(** A random paint is legal: the protocol takes it until the cap. *)
Theorem random_paint_accepted s rng spread p m :
  0 < chunkSize k <= U64_MAX -> 0 < numColors k -> 0 <= spread < 2 ^ 62 -> (forall i, 0 <= rng i < W32) ->
  randomMove k s rng spread = Some m -> is_ok (applyMove k s m p) = true.
Proof.
  intros Hs Hc Hsp Hr. unfold randomMove. destruct (cap k <=? count s) eqn:Ecap; [done|]. intros [= <-].
  assert (Hpick : forall i n, 0 < n -> 0 <= Z.min (n - 1) (rng i * n / W32) < n).
  { intros i n Hn. specialize (Hr i). pose proof (Z.div_pos (rng i * n) W32 ltac:(nia) W32_pos). lia. }
  pose proof (Hpick 0%nat (2 * spread + 1) ltac:(lia)) as P0. pose proof (Hpick 1%nat (2 * spread + 1) ltac:(lia)) as P1.
  pose proof (Hpick 2%nat (chunkSize k) ltac:(lia)) as P2. pose proof (Hpick 3%nat (chunkSize k) ltac:(lia)) as P3.
  pose proof (Hpick 4%nat (numColors k) ltac:(lia)) as P4.
  set (a := Z.min _ (rng 0%nat * _ / _)) in *. set (b := Z.min _ (rng 1%nat * _ / _)) in *.
  set (c := Z.min _ (rng 2%nat * _ / _)) in *. set (d := Z.min _ (rng 3%nat * _ / _)) in *.
  set (e := Z.min _ (rng 4%nat * _ / _)) in *. clearbody a b c d e.
  assert (Hco : forall z, 0 <= z < 2 * spread + 1 -> COORD_MIN <= z - spread <= COORD_MAX).
  { intros z Hz. unfold COORD_MIN, COORD_MAX. rewrite Z.shiftl_1_l. lia. }
  assert (Hz : forall n, COORD_MIN <= n <= COORD_MAX -> exists y, u64ToBeBytes (zigzag64 n) = Ok y).
  { intros n Hn. eexists. apply u64ToBeBytes_ok. split; [|reflexivity]. unfold u64_range.
    rewrite U64_MAX_eq, zigzag64_spec by done. unfold COORD_MIN, COORD_MAX in Hn.
    rewrite Z.shiftl_1_l in Hn. destruct (Z.leb_spec 0 n); lia. }
  assert (Hg : forall z bound, 0 <= z < bound -> off_grid (JsInt z) bound = false) by (intros; apply off_grid_false; eexists; eauto).
  pose proof (Hco a P0) as Ha. pose proof (Hco b P1) as Hb.
  unfold applyMove. rewrite Ecap. cbn [cx cy x y color]. rewrite !Hg by done.
  rewrite !(proj2 (Z.ltb_ge _ _)) by lia. cbn [orb]. unfold encodeWorldCanvasMove. cbn [cx cy x y color num_be num_z].
  destruct (Hz _ Ha) as [? ->]. destruct (Hz _ Hb) as [? ->]. cbn [rbind].
  rewrite (proj2 (u64ToBeBytes_ok c _)) by (split; [unfold u64_range; lia|reflexivity]). cbn [rbind].
  rewrite (proj2 (u64ToBeBytes_ok d _)) by (split; [unfold u64_range; lia|reflexivity]). cbn [rbind].
  rewrite concatBytes_concat. cbn [rbind]. unfold rollingDigest. by rewrite concatBytes_concat.
Qed.

End Theory.
