(* ===== verification/BombIt.v ===== *)
(** The bomb-it duel, [sui-tunnel-ts/src/protocol/bombIt.ts]: two players on a walled
    grid, bombs with fuses, blasts that set off other bombs.  A [Set] is a list
    without repetitions in insertion order; cells are their indices in the grid. *)
From S2P Require Import Prelude.
From S2P Require Import Bytes.
From S2P Require Import Wire.
From S2P Require Import Crypto.
From S2P Require Import Protocol.
From S2P Require Import Rng.

(** [src protocol/bombIt.ts GRID_W] *)
Definition GRID_W : Z := 21.
(** [src protocol/bombIt.ts GRID_H] *)
Definition GRID_H : Z := 21.
(** [src protocol/bombIt.ts CELL_COUNT] *)
Definition CELL_COUNT : Z := GRID_W * GRID_H.
(** [src protocol/bombIt.ts CELL_FLOOR] *)
Definition CELL_FLOOR : Z := 0.
(** [src protocol/bombIt.ts CELL_WALL] *)
Definition CELL_WALL : Z := 1.
(** [src protocol/bombIt.ts CELL_CRATE] *)
Definition CELL_CRATE : Z := 2.
(** [src protocol/bombIt.ts FUSE_TICKS] *)
Definition FUSE_TICKS : Z := 8.
(** [src protocol/bombIt.ts BLAST_RADIUS] *)
Definition BLAST_RADIUS : nat := 2.
(** [src protocol/bombIt.ts MAX_BOMBS_PER_PLAYER] *)
Definition MAX_BOMBS_PER_PLAYER : nat := 1.
(** [src protocol/bombIt.ts BOMB_IT_TICK_CAP] *)
Definition BOMB_IT_TICK_CAP : Z := 5400.
(** [src protocol/bombIt.ts BOMB_IT_MIN_STAKE] *)
Definition BOMB_IT_MIN_STAKE : Z := 1.

(** A cell of the grid, by row and column. *)
Notation pos := (Z * Z)%type.

(** [src protocol/bombIt.ts SPAWN_A] *)
Definition SPAWN_A : pos := (1, 1).
(** [src protocol/bombIt.ts SPAWN_B] *)
Definition SPAWN_B : pos := (GRID_H - 2, GRID_W - 2).

(** [src protocol/bombIt.ts BombItAction] *)
Inductive BombItAction := north | south | east | west | bomb | stay.
#[export] Instance BombItAction_eq_dec : EqDecision BombItAction.
Proof. solve_decision. Defined.

(** [src protocol/bombIt.ts BombItPlayer] *)
Record BombItPlayer := { p_pos : pos; alive : bool }.
(** [src protocol/bombIt.ts BombItBomb] *)
Record BombItBomb := { b_pos : pos; fuse : Z; owner : Party }.

(** [Party | "draw"] *)
Inductive BombItWinner := Won (p : Party) | Drawn.

(** [src protocol/bombIt.ts BombItState]; [players] are A and B. *)
Record BombItState := {
  tick : Z;
  seed : Z;
  grid : bytes;
  players : BombItPlayer * BombItPlayer;
  bombs : list BombItBomb;
  winner : option BombItWinner;
  balanceA : Z;
  balanceB : Z;
  total : Z
}.

(** [src protocol/bombIt.ts BombItMove] *)
Record BombItMove := { act_a : option BombItAction; act_b : option BombItAction }.

(** [src protocol/bombIt.ts DOMAIN] *)
Definition DOMAIN : bytes := protocolDomain "bomb_it.v1".

(** [src protocol/bombIt.ts idx] *)
Definition idx (c : pos) : Z := c.1 * GRID_W + c.2.

(** [src protocol/bombIt.ts isBorder] *)
Definition isBorder (c : pos) : bool :=
  (c.1 =? 0) || (c.1 =? GRID_H - 1) || (c.2 =? 0) || (c.2 =? GRID_W - 1).

(** [src protocol/bombIt.ts isPillar] *)
Definition isPillar (c : pos) : bool := (c.1 mod 2 =? 0) && (c.2 mod 2 =? 0).

Definition pos_eqb (c d : pos) : bool := (c.1 =? d.1) && (c.2 =? d.2).

(** [src protocol/bombIt.ts inSpawnSafe] *)
Definition inSpawnSafe (c : pos) : bool :=
  let br := GRID_H - 2 in
  let bc := GRID_W - 2 in
  let a := pos_eqb c (1, 1) || pos_eqb c (1, 2) || pos_eqb c (2, 1) in
  let b := pos_eqb c (br, bc) || pos_eqb c (br, bc - 1) || pos_eqb c (br - 1, bc) in
  a || b.

(** [nr < 0 || nr >= GRID_H || nc < 0 || nc >= GRID_W], negated *)
Definition on_board (c : pos) : bool := (0 <=? c.1) && (c.1 <? GRID_H) && (0 <=? c.2) && (c.2 <? GRID_W).

(** [grid[i]]; -1 stands for [undefined]. *)
Definition cell (g : bytes) (i : Z) : Z := if i <? 0 then -1 else default (-1) (g !! Z.to_nat i).
(** [grid[i] = v] *)
Definition set_cell (i v : Z) (g : bytes) : bytes := if i <? 0 then g else <[Z.to_nat i := v]> g.

(** The two nested loops over rows and columns. *)
Definition all_cells : list pos :=
  concat (map (fun r => map (fun c => (r, c)) (seqZ 0 GRID_W)) (seqZ 0 GRID_H)).

(** The cell opposite under a half turn of the board. *)
Definition mirror (c : pos) : pos := (GRID_H - 1 - c.1, GRID_W - 1 - c.2).

(** [src protocol/bombIt.ts:151-156 buildGrid] *)
Definition walls : bytes :=
  fold_left (fun g c => if isBorder c || isPillar c then set_cell (idx c) CELL_WALL g else g)
    all_cells (u8_new (Z.to_nat CELL_COUNT)).

(** [src protocol/bombIt.ts:160-170 buildGrid] one round of the loop over the grid and the generator. *)
Definition roll_crate (ga : bytes * Z) (c : pos) : bytes * Z :=
  let '(g, a) := ga in
  let i := idx c in
  let mi := idx (mirror c) in
  if mi <=? i then (g, a)
  else if negb (cell g i =? CELL_FLOOR) then (g, a)
  else if inSpawnSafe c || inSpawnSafe (mirror c) then (g, a)
  else
    let '(a, k) := mulberry32_next a in
    if draw_below k 35 100 then (set_cell mi CELL_CRATE (set_cell i CELL_CRATE g), a) else (g, a).

(** [src protocol/bombIt.ts buildGrid] *)
Definition buildGrid (seed : Z) : bytes :=
  fst (fold_left roll_crate all_cells (walls, u32 (Z.land seed 0xffffffff))).

(** [src protocol/bombIt.ts dest] *)
Definition dest (c : pos) (action : BombItAction) : pos :=
  match action with
  | north => (c.1 - 1, c.2)
  | south => (c.1 + 1, c.2)
  | east => (c.1, c.2 + 1)
  | west => (c.1, c.2 - 1)
  | bomb | stay => c
  end.

(** [src protocol/bombIt.ts canMoveTo] *)
Definition canMoveTo (g : bytes) (bs : list BombItBomb) (other : BombItPlayer) (n : pos) : bool :=
  if negb (on_board n) then false
  else
    let k := cell g (idx n) in
    if (k =? CELL_WALL) || (k =? CELL_CRATE) then false
    else if existsb (fun b => pos_eqb (b_pos b) n) bs then false
    else if alive other && pos_eqb (p_pos other) n then false
    else true.

(** [src protocol/bombIt.ts:209-214 blastCellsFor] *)
Definition blast_dirs : list pos := [(-1, 0); (1, 0); (0, 1); (0, -1)].

(** [src protocol/bombIt.ts:216-224 blastCellsFor] one arm of the blast: the cells from
    [step] on, at most [n] of them. *)
Fixpoint blast_arm (g : bytes) (from d : pos) (step : Z) (n : nat) : list Z :=
  match n with
  | O => []
  | S n' =>
    let c := (from.1 + d.1 * step, from.2 + d.2 * step) in
    if negb (on_board c) then []
    else
      let k := cell g (idx c) in
      if k =? CELL_WALL then []
      else idx c :: (if k =? CELL_CRATE then [] else blast_arm g from d (step + 1) n')
  end.

(** [src protocol/bombIt.ts blastCellsFor] *)
Definition blastCellsFor (g : bytes) (from : pos) : list Z :=
  idx from :: concat (map (fun d => blast_arm g from d 1 BLAST_RADIUS) blast_dirs).

(** [set.has(x)] and [set.add(x)] *)
Definition set_has {A} `{EqDecision A} (s : list A) (x : A) : bool := bool_decide (x ∈ s).
Definition set_add {A} `{EqDecision A} (s : list A) (x : A) : list A := if set_has s x then s else s ++ [x].

(** [src protocol/bombIt.ts:247-249 resolveExplosions] *)
Definition blast_union (g : bytes) (bs : list BombItBomb) (detonating : list nat) : list Z :=
  fold_left (fun cells di =>
    fold_left set_add (match bs !! di with Some b => blastCellsFor g (b_pos b) | None => [] end) cells)
    detonating [].

(** [src protocol/bombIt.ts:250-255 resolveExplosions] *)
Definition set_off (bs : list BombItBomb) (cells : list Z) (dc : list nat * bool) (i : nat) : list nat * bool :=
  let '(detonating, changed) := dc in
  match bs !! i with
  | Some b =>
    if negb (set_has detonating i) && set_has cells (idx (b_pos b))
    then (set_add detonating i, true) else (detonating, changed)
  | None => (detonating, changed)
  end.

(** [src protocol/bombIt.ts:243-256 resolveExplosions] the [while] loop; [fuel] bounds
    its rounds and [explode_terminates] shows that one round more than there are
    bombs is enough. *)
Fixpoint explode (fuel : nat) (g : bytes) (bs : list BombItBomb) (detonating : list nat)
    : result (list nat * list Z) :=
  match fuel with
  | O => Throw OutOfFuel
  | S fuel' =>
    let cells := blast_union g bs detonating in
    let '(detonating', changed) := fold_left (set_off bs cells) (seq 0 (length bs)) (detonating, false) in
    if changed then explode fuel' g bs detonating' else Ok (detonating', cells)
  end.

(** [src protocol/bombIt.ts:239-241 resolveExplosions] *)
Definition burnt_out (bs : list BombItBomb) : list nat :=
  fold_left (fun s i => match bs !! i with
                        | Some b => if fuse b <=? 0 then set_add s i else s
                        | None => s
                        end) (seq 0 (length bs)) [].

(** [bombs.filter((_, i) => !detonating.has(i))] *)
Definition survivors (bs : list BombItBomb) (detonating : list nat) : list BombItBomb :=
  omap (fun i => if set_has detonating i then None else bs !! i) (seq 0 (length bs)).

(** [src protocol/bombIt.ts resolveExplosions]: the grid it leaves, the blast cells and
    the surviving bombs. *)
Definition resolveExplosions (g : bytes) (bs : list BombItBomb) : result (bytes * list Z * list BombItBomb) :=
  let! '(detonating, cells) := explode (S (length bs)) g bs (burnt_out bs) in
  let g' := fold_left (fun g ci => if cell g ci =? CELL_CRATE then set_cell ci CELL_FLOOR g else g) cells g in
  Ok (g', cells, survivors bs detonating).

(** [players[i]] and its assignment *)
Definition player (ps : BombItPlayer * BombItPlayer) (i : Party) : BombItPlayer :=
  match i with PartyA => ps.1 | PartyB => ps.2 end.
Definition set_player (ps : BombItPlayer * BombItPlayer) (i : Party) (p : BombItPlayer) : BombItPlayer * BombItPlayer :=
  match i with PartyA => (p, ps.2) | PartyB => (ps.1, p) end.

(** [src protocol/bombIt.ts applyAction] *)
Definition applyAction (g : bytes) (ps : BombItPlayer * BombItPlayer) (bs : list BombItBomb)
    (i : Party) (action : BombItAction) : (BombItPlayer * BombItPlayer) * list BombItBomb :=
  let p := player ps i in
  if negb (alive p) || bool_decide (action = stay) then (ps, bs)
  else if bool_decide (action = bomb) then
    let live := length (List.filter (fun b => party_eqb (owner b) i) bs) in
    let here := existsb (fun b => pos_eqb (b_pos b) (p_pos p)) bs in
    if (live <? MAX_BOMBS_PER_PLAYER)%nat && negb here
    then (ps, bs ++ [{| b_pos := p_pos p; fuse := FUSE_TICKS; owner := i |}])
    else (ps, bs)
  else
    let n := dest (p_pos p) action in
    if canMoveTo g bs (player ps (otherParty i)) n
    then (set_player ps i {| p_pos := n; alive := alive p |}, bs)
    else (ps, bs).

(** [src protocol/bombIt.ts spawn] *)
Definition spawn (c : pos) : BombItPlayer := {| p_pos := c; alive := true |}.

(** [src protocol/bombIt.ts BombItProtocol.initialState] *)
Definition initialState (ctx : ProtocolContext) : BombItState :=
  let seed := seedFromTunnelId (ctx_tunnelId ctx) in
  {| tick := 0; seed := seed; grid := buildGrid seed; players := (spawn SPAWN_A, spawn SPAWN_B);
     bombs := []; winner := None;
     balanceA := bal_a (initialBalances ctx); balanceB := bal_b (initialBalances ctx);
     total := bal_a (initialBalances ctx) + bal_b (initialBalances ctx) |}.

(** [src protocol/bombIt.ts BombItProtocol.isTerminal] *)
Definition isTerminal (s : BombItState) : bool := match winner s with Some _ => true | None => false end.

(** [src protocol/bombIt.ts:550-550 BombItProtocol.applyMove] *)
Definition burn (b : BombItBomb) : BombItBomb := {| b_pos := b_pos b; fuse := fuse b - 1; owner := owner b |}.

(** [src protocol/bombIt.ts:553-555 BombItProtocol.applyMove] *)
Definition hurt (cells : list Z) (p : BombItPlayer) : BombItPlayer :=
  if alive p && set_has cells (idx (p_pos p)) then {| p_pos := p_pos p; alive := false |} else p.

(** [src protocol/bombIt.ts:558-564 BombItProtocol.applyMove] *)
Definition verdict (aAlive bAlive : bool) (tick : Z) : option BombItWinner :=
  if negb aAlive && negb bAlive then Some Drawn
  else if negb bAlive then Some (Won PartyA)
  else if negb aAlive then Some (Won PartyB)
  else if BOMB_IT_TICK_CAP <=? tick then Some Drawn
  else None.

Definition own_action (a : option BombItAction) : BombItAction := default stay a.

(** [src protocol/bombIt.ts BombItProtocol.applyMove] *)
Definition applyMove (state : BombItState) (move : BombItMove) (by_ : Party) : result BombItState :=
  throw_if isTerminal state with Error "game over: bomb-it is already decided" ;
  throw_if party_eqb by_ PartyA && bool_decide (is_Some (act_b move)) with Error "A cannot submit B's action" ;
  throw_if party_eqb by_ PartyB && bool_decide (is_Some (act_a move)) with Error "B cannot submit A's action" ;
  let '(ps, bs) := applyAction (grid state) (players state) (bombs state) PartyA (own_action (act_a move)) in
  let '(ps, bs) := applyAction (grid state) ps bs PartyB (own_action (act_b move)) in
  let bs := map burn bs in
  let! '(g, cells, bs) := resolveExplosions (grid state) bs in
  let ps := (hurt cells ps.1, hurt cells ps.2) in
  let tick := tick state + 1 in
  let w := verdict (alive ps.1) (alive ps.2) tick in
  let '(a, b) := match w with
                 | Some (Won PartyA) => (total state, 0)
                 | Some (Won PartyB) => (0, total state)
                 | _ => (balanceA state, balanceB state)
                 end in
  Ok {| tick := tick; seed := seed state; grid := g; players := ps; bombs := bs; winner := w;
        balanceA := a; balanceB := b; total := total state |}.

(** [src protocol/bombIt.ts:598-604 BombItProtocol.encodeState] *)
Definition encode_player (p : BombItPlayer) : result (list bytes) :=
  let! r := u64ToBeBytes (p_pos p).1 in
  let! c := u64ToBeBytes (p_pos p).2 in
  Ok [r; c; u8_from [if alive p then 1 else 0]].

(** [src protocol/bombIt.ts:606-617 BombItProtocol.encodeState] the slot of one owner *)
Definition encode_slot (bs : list BombItBomb) (slot : Party) : result (list bytes) :=
  let b := List.find (fun x => party_eqb (owner x) slot) bs in
  let! r := u64ToBeBytes (match b with Some b => (b_pos b).1 | None => 0 end) in
  let! c := u64ToBeBytes (match b with Some b => (b_pos b).2 | None => 0 end) in
  let! f := u64ToBeBytes (match b with Some b => fuse b | None => 0 end) in
  Ok [u8_from [match b with Some _ => 1 | None => 0 end]; r; c; f;
      u8_from [match slot with PartyA => 0 | PartyB => 1 end]].

(** [src protocol/bombIt.ts BombItProtocol.encodeState] *)
Definition encodeState (s : BombItState) : result bytes :=
  let! t := u64ToBeBytes (tick s) in
  let! sd := u64ToBeBytes (seed s) in
  let! a := u64ToBeBytes (balanceA s) in
  let! b := u64ToBeBytes (balanceB s) in
  let! pa := encode_player (players s).1 in
  let! pb := encode_player (players s).2 in
  let! s0 := encode_slot (bombs s) PartyA in
  let! s1 := encode_slot (bombs s) PartyB in
  let w := match winner s with
           | Some (Won PartyA) => 1
           | Some (Won PartyB) => 2
           | Some Drawn => 3
           | None => 0
           end in
  concatBytes ([DOMAIN; t; sd; a; b; grid s] ++ pa ++ pb ++ s0 ++ s1 ++ [u8_from [w]]).

(** [src protocol/bombIt.ts BombItProtocol.balances] *)
Definition balances (s : BombItState) : Balances := {| bal_a := balanceA s; bal_b := balanceB s |}.

(** [src protocol/bombIt.ts:509-510 BombItProtocol] *)
Definition BombItProtocol : Protocol BombItState BombItMove :=
  {| movesCarrySecrets := false;
     Protocol.initialState := fun ctx => Ok (initialState ctx);
     Protocol.applyMove := applyMove;
     Protocol.encodeState := encodeState;
     Protocol.balances := balances;
     Protocol.isTerminal := isTerminal |}.
