(* ===== verification/BombItBoard.v ===== *)
(** The board of bomb-it and its explosions: what [buildGrid] builds, which cells a
    blast covers, and the chain reaction that [resolveExplosions] computes. *)

From stdpp Require Import sets.
From S2P Require Import Prelude.
From S2P Require Import Bytes.
From S2P Require Import Rng.
From S2P Require Import Protocol.
From S2P Require Import BombIt.

Lemma CELL_COUNT_eq : CELL_COUNT = 441.
Proof. reflexivity. Qed.

(** * Cells *)

Lemma on_board_iff c : on_board c = true <-> 0 <= c.1 < 21 /\ 0 <= c.2 < 21.
Proof. unfold on_board, GRID_H, GRID_W. rewrite !andb_true_iff, !Z.leb_le, !Z.ltb_lt. lia. Qed.

Lemma on_board_false c : on_board c = false <-> ~ (0 <= c.1 < 21 /\ 0 <= c.2 < 21).
Proof. by rewrite <- on_board_iff, not_true_iff_false. Qed.

Lemma idx_range c : on_board c = true -> 0 <= idx c < CELL_COUNT.
Proof. rewrite on_board_iff, CELL_COUNT_eq. unfold idx, GRID_W. lia. Qed.

Lemma idx_inj c d : on_board c = true -> on_board d = true -> idx c = idx d -> c = d.
Proof.
  rewrite !on_board_iff. unfold idx, GRID_W. destruct c as [r k], d as [r' k']. cbn. intros Hc Hd H.
  assert (r = r') as -> by lia. f_equal. lia.
Qed.

Lemma idx_mirror c : idx (mirror c) = CELL_COUNT - 1 - idx c.
Proof. rewrite CELL_COUNT_eq. unfold idx, mirror, GRID_W, GRID_H. cbn. lia. Qed.

Lemma mirror_mirror c : mirror (mirror c) = c.
Proof. destruct c. unfold mirror, GRID_W, GRID_H. cbn. f_equal; lia. Qed.

Lemma on_board_mirror c : on_board (mirror c) = on_board c.
Proof.
  apply eq_bool_prop_intro. rewrite !Is_true_true, !on_board_iff.
  unfold mirror, GRID_W, GRID_H. cbn. lia.
Qed.

Lemma pos_eqb_spec c d : pos_eqb c d = true <-> c = d.
Proof.
  unfold pos_eqb. rewrite andb_true_iff, !Z.eqb_eq. destruct c, d. cbn. naive_solver.
Qed.

Lemma elem_of_grid_cells c : c ∈ all_cells <-> on_board c = true.
Proof.
  unfold all_cells. rewrite on_board_iff, list_elem_of_In, in_concat. destruct c as [r k]. cbn. split.
  - intros (l & (r' & <- & Hr)%in_map_iff & (k' & [= -> ->] & Hk)%in_map_iff).
    apply list_elem_of_In, elem_of_seqZ in Hr, Hk. unfold GRID_W, GRID_H in *. lia.
  - intros [Hr Hk]. exists (map (fun c => (r, c)) (seqZ 0 GRID_W)).
    split; apply in_map_iff; eexists; (split; [reflexivity|]); apply list_elem_of_In, elem_of_seqZ; unfold GRID_W, GRID_H; lia.
Qed.

Lemma cell_lookup g i : 0 <= i -> cell g i = default (-1) (g !! Z.to_nat i).
Proof. intros Hi. unfold cell. by rewrite (proj2 (Z.ltb_ge i 0)). Qed.

Lemma length_set_cell i v g : length (set_cell i v g) = length g.
Proof. unfold set_cell. destruct (i <? 0); [done|]. apply length_insert. Qed.

Lemma cell_set_cell i j v g :
  0 <= i < Z.of_nat (length g) -> cell (set_cell i v g) j = if i =? j then v else cell g j.
Proof.
  intros Hi. unfold set_cell, cell. rewrite (proj2 (Z.ltb_ge i 0)) by lia.
  destruct (Z.eqb_spec i j) as [->|Hij]; destruct (Z.ltb_spec j 0); try lia.
  - rewrite list_lookup_insert_eq by lia. done.
  - rewrite list_lookup_insert_ne by lia. done.
Qed.

Lemma cell_ext g g' :
  length g = length g' -> (forall i, 0 <= i < Z.of_nat (length g) -> cell g i = cell g' i) -> g = g'.
Proof.
  intros Hl H. apply list_eq. intros n. destruct (decide (n < length g)%nat) as [Hn|Hn].
  - specialize (H (Z.of_nat n) ltac:(lia)). rewrite !cell_lookup, !Nat2Z.id in H by lia.
    destruct (lookup_lt_is_Some_2 g n Hn) as [x Hx], (lookup_lt_is_Some_2 g' n ltac:(lia)) as [y Hy].
    rewrite Hx, Hy in *. cbn in H. by subst.
  - rewrite !lookup_ge_None_2 by lia. done.
Qed.

Lemma cell_reverse g i : 0 <= i < Z.of_nat (length g) -> cell (reverse g) i = cell g (Z.of_nat (length g) - 1 - i).
Proof.
  intros Hi. rewrite !cell_lookup by lia. rewrite reverse_lookup by lia. do 2 f_equal. lia.
Qed.

(** * The board *)

(** The walls are where they were built, and the other cells are floor or crates. *)
Record grid_shape (g : bytes) : Prop := {
  gs_length : Z.of_nat (length g) = CELL_COUNT;
  gs_walls : forall c, on_board c = true ->
    if isBorder c || isPillar c then cell g (idx c) = CELL_WALL
    else cell g (idx c) = CELL_FLOOR \/ cell g (idx c) = CELL_CRATE
}.

(** The half turn maps the board to itself. *)
Definition symmetric (g : bytes) : Prop :=
  forall c, on_board c = true -> cell g (idx (mirror c)) = cell g (idx c).

Record fair_board (g : bytes) : Prop := {
  fb_shape : grid_shape g;
  fb_symmetric : symmetric g;
  fb_spawn : forall c, on_board c = true -> inSpawnSafe c = true -> cell g (idx c) = CELL_FLOOR
}.

Lemma grid_shape_set g c v :
  grid_shape g -> on_board c = true -> isBorder c || isPillar c = false ->
  v = CELL_FLOOR \/ v = CELL_CRATE -> grid_shape (set_cell (idx c) v g).
Proof.
  intros [Hl Hw] Hc Hp Hv. split; [by rewrite length_set_cell|]. intros d Hd.
  rewrite cell_set_cell by (rewrite Hl; by apply idx_range). destruct (Z.eqb_spec (idx c) (idx d)) as [E|E].
  - apply idx_inj in E as <-; [|done..]. by rewrite Hp.
  - by apply Hw.
Qed.

Lemma not_wall g c :
  grid_shape g -> on_board c = true -> cell g (idx c) <> CELL_WALL -> isBorder c || isPillar c = false.
Proof. intros [_ Hw] Hc Hn. specialize (Hw c Hc). destruct (_ || _); [done|reflexivity]. Qed.

(** The half turn maps the walls to themselves and the spawn corners to each other. *)
Lemma board_checks :
  forallb (fun c => Bool.eqb (isBorder (mirror c) || isPillar (mirror c)) (isBorder c || isPillar c) &&
                    Bool.eqb (inSpawnSafe (mirror c)) (inSpawnSafe c)) all_cells = true.
Proof. vm_compute. reflexivity. Qed.

Lemma mirror_wall c : on_board c = true -> isBorder (mirror c) || isPillar (mirror c) = isBorder c || isPillar c.
Proof.
  intros Hc%elem_of_grid_cells. pose proof board_checks as H. rewrite forallb_forall in H.
  apply list_elem_of_In in Hc. apply H, andb_true_iff in Hc as [Hc _]. by apply eqb_prop.
Qed.

Lemma walls_fair : fair_board walls.
Proof.
  assert (H : forallb (fun c =>
    (if isBorder c || isPillar c then cell walls (idx c) =? CELL_WALL else cell walls (idx c) =? CELL_FLOOR) &&
    (cell walls (idx (mirror c)) =? cell walls (idx c)) &&
    (negb (inSpawnSafe c) || (cell walls (idx c) =? CELL_FLOOR))) all_cells = true) by (vm_compute; reflexivity).
  rewrite forallb_forall in H.
  assert (Hc : forall c, on_board c = true -> (if isBorder c || isPillar c then cell walls (idx c) = CELL_WALL
    else cell walls (idx c) = CELL_FLOOR) /\ cell walls (idx (mirror c)) = cell walls (idx c) /\
    (inSpawnSafe c = true -> cell walls (idx c) = CELL_FLOOR)).
  { intros c Hc%elem_of_grid_cells%list_elem_of_In. apply H in Hc. rewrite !andb_true_iff, orb_true_iff in Hc.
    destruct Hc as [[Hw Hm%Z.eqb_eq] Hs]. split_and!; [|done|].
    - destruct (_ || _); by apply Z.eqb_eq.
    - intros E. rewrite E in Hs. destruct Hs as [?|?%Z.eqb_eq]; [done|congruence]. }
  split; [split|..].
  - vm_compute. reflexivity.
  - intros c Hb. destruct (Hc c Hb) as [Hw _]. destruct (_ || _); auto.
  - intros c Hb. apply (Hc c Hb).
  - intros c Hb. apply (Hc c Hb).
Qed.

Lemma roll_crate_fair g a c g' a' :
  fair_board g -> on_board c = true -> roll_crate (g, a) c = (g', a') -> fair_board g'.
Proof.
  intros Hg Hc. pose proof Hg as [Hshape Hsym Hspawn]. pose proof (gs_length g Hshape) as Hl. unfold roll_crate.
  destruct (idx (mirror c) <=? idx c) eqn:Emi; [by intros [= <- <-]|].
  destruct (cell g (idx c) =? CELL_FLOOR) eqn:Ef; cbn [negb]; [|by intros [= <- <-]].
  destruct (_ || _) eqn:Es; [by intros [= <- <-]|]. destruct (mulberry32_next a) as [a1 k].
  destruct (draw_below _ _ _); [|by intros [= <- <-]]. intros [= <- <-].
  apply Z.leb_gt in Emi. apply Z.eqb_eq in Ef. apply orb_false_iff in Es as [Es Es'].
  pose proof (on_board_mirror c) as Hm. rewrite Hc in Hm.
  assert (Hn : isBorder c || isPillar c = false) by (apply (not_wall g); [done..|by rewrite Ef]).
  pose proof (idx_range c Hc) as Hi. pose proof (idx_range _ Hm) as Hi'.
  assert (Hset : forall d, on_board d = true ->
    cell (set_cell (idx (mirror c)) CELL_CRATE (set_cell (idx c) CELL_CRATE g)) (idx d) =
    if (idx d =? idx c) || (idx d =? idx (mirror c)) then CELL_CRATE else cell g (idx d)).
  { intros d Hd. rewrite !cell_set_cell by (rewrite ?length_set_cell, Hl; done).
    rewrite (Z.eqb_sym (idx d) (idx c)), (Z.eqb_sym (idx d) (idx (mirror c))).
    destruct (idx c =? idx d), (idx (mirror c) =? idx d); done. }
  split.
  - apply grid_shape_set; [|done|by rewrite mirror_wall|by right]. apply grid_shape_set; auto.
  - intros d Hd. rewrite !Hset by (by rewrite ?on_board_mirror). rewrite Hsym by done. rewrite !idx_mirror.
    replace (CELL_COUNT - 1 - idx d =? idx c) with (idx d =? CELL_COUNT - 1 - idx c) by lia.
    replace (CELL_COUNT - 1 - idx d =? CELL_COUNT - 1 - idx c) with (idx d =? idx c) by lia.
    by rewrite orb_comm.
  - intros d Hd Hsd. rewrite Hset by done.
    destruct (Z.eqb_spec (idx d) (idx c)) as [E|_]; [apply idx_inj in E as ->; [congruence|done..]|].
    destruct (Z.eqb_spec (idx d) (idx (mirror c))) as [E|_]; [apply idx_inj in E as ->; [congruence|done..]|].
    by apply Hspawn.
Qed.

(** Whatever the seed, the board is the same for both seats: it has its walls, the half
    turn maps it to itself, and the cells around the two spawn corners are free. *)
Lemma buildGrid_fair seed : fair_board (buildGrid seed).
Proof.
  unfold buildGrid. generalize (u32 (Z.land seed 0xffffffff)) as a, walls_fair. generalize walls.
  assert (H : Forall (fun c => on_board c = true) all_cells).
  { apply Forall_forall. intros c. apply elem_of_grid_cells. }
  induction H as [|c cs Hc _ IH]; intros g a Hg; [done|]. cbn [fold_left].
  destruct (roll_crate (g, a) c) as [g' a'] eqn:E. apply IH. by apply (roll_crate_fair g a c g' a').
Qed.

(* The explosions of bomb-it: the cells a blast covers and the chain reaction that
    [resolveExplosions] computes. *)

(** * Sets as lists *)

Section Sets.
Context {A : Type} `{EqDecision A}.

Lemma set_has_spec (s : list A) x : set_has s x = true <-> x ∈ s.
Proof. unfold set_has. apply bool_decide_eq_true. Qed.

Lemma set_has_false (s : list A) x : set_has s x = false <-> x ∉ s.
Proof. unfold set_has. apply bool_decide_eq_false. Qed.

Lemma set_has_ext (s t : list A) x y : (x ∈ s <-> y ∈ t) -> set_has s x = set_has t y.
Proof. intros H. unfold set_has. by apply bool_decide_ext. Qed.

Lemma elem_set_add (s : list A) x y : y ∈ set_add s x <-> y ∈ s \/ y = x.
Proof.
  unfold set_add. destruct (set_has s x) eqn:E.
  - apply set_has_spec in E. split; [by left|]. intros [?| ->]; done.
  - by rewrite elem_of_app, list_elem_of_singleton.
Qed.

Lemma NoDup_set_add (s : list A) x : NoDup s -> NoDup (set_add s x).
Proof.
  intros Hs. unfold set_add. destruct (set_has s x) eqn:E; [done|]. apply set_has_false in E.
  apply NoDup_app. split_and!; [done| |apply NoDup_singleton]. intros y Hy ->%list_elem_of_singleton. done.
Qed.

Lemma elem_fold_set_add (xs s : list A) y : y ∈ fold_left set_add xs s <-> y ∈ s \/ y ∈ xs.
Proof.
  revert s; induction xs as [|x xs IH]; intros s; cbn [fold_left]; [set_solver|].
  rewrite IH, elem_set_add. set_solver.
Qed.

End Sets.

(** * Blasts *)

(** The cell at [step] steps from [from] in direction [d]. *)
Definition along (from d : pos) (step : Z) : pos := (from.1 + d.1 * step, from.2 + d.2 * step).

(** The arm in direction [d] reaches its [n]-th cell: no wall up to it, no crate before it. *)
Record reaches (g : bytes) (from d : pos) (n : Z) : Prop := {
  r_open : forall j, 1 <= j <= n -> on_board (along from d j) = true /\ cell g (idx (along from d j)) <> CELL_WALL;
  r_crates : forall j, 1 <= j < n -> cell g (idx (along from d j)) <> CELL_CRATE
}.

Lemma elem_blast_arm g from d ci n step :
  (forall j, 1 <= j < step -> on_board (along from d j) = true /\ cell g (idx (along from d j)) <> CELL_WALL /\
    cell g (idx (along from d j)) <> CELL_CRATE) ->
  1 <= step ->
  ci ∈ blast_arm g from d step n <->
  exists k, step <= k < step + Z.of_nat n /\ reaches g from d k /\ ci = idx (along from d k).
Proof.
  revert step; induction n as [|n IH]; intros step Hb Hs; cbn [blast_arm].
  { split; [by intros ?%elem_of_nil|]. intros (k & Hk & _). lia. }
  change (from.1 + d.1 * step, from.2 + d.2 * step) with (along from d step).
  destruct (on_board (along from d step)) eqn:Eo; cbn [negb].
  2: { split; [by intros ?%elem_of_nil|]. intros (k & Hk & [Ho _] & _).
       destruct (Ho step ltac:(lia)). congruence. }
  destruct (Z.eqb_spec (cell g (idx (along from d step))) CELL_WALL) as [Ew|Ew].
  { split; [by intros ?%elem_of_nil|]. intros (k & Hk & [Ho _] & _). destruct (Ho step ltac:(lia)). congruence. }
  assert (Hr : reaches g from d step).
  { split; intros j Hj; [|apply Hb; lia]. destruct (decide (j = step)) as [->|]; [done|].
    destruct (Hb j ltac:(lia)) as (? & ? & _). done. }
  rewrite elem_of_cons.
  destruct (Z.eqb_spec (cell g (idx (along from d step))) CELL_CRATE) as [Ec|Ec].
  - split.
    + intros [->|?%elem_of_nil]; [|done]. exists step. split_and!; [lia|lia|done..].
    + intros (k & Hk & [Ho Hc] & ->). destruct (decide (k = step)) as [->|]; [by left|].
      destruct (Hc step ltac:(lia)). done.
  - rewrite IH; [|intros j Hj; destruct (decide (j = step)) as [->|]; [done|apply Hb; lia]|lia]. split.
    + intros [->|(k & Hk & H)]; [exists step|exists k]; (split; [lia|done]).
    + intros (k & Hk & Hk' & ->). destruct (decide (k = step)) as [->|]; [by left|].
      right. exists k. split; [lia|done].
Qed.

(** A blast covers the bomb's cell and, in each direction, the cells within the radius
    up to the first wall, the first crate included. *)
Lemma elem_blastCellsFor g from ci :
  ci ∈ blastCellsFor g from <->
  ci = idx from \/ exists d k, d ∈ blast_dirs /\ 1 <= k <= Z.of_nat BLAST_RADIUS /\
    reaches g from d k /\ ci = idx (along from d k).
Proof.
  unfold blastCellsFor. rewrite elem_of_cons. apply or_iff_compat_l.
  rewrite list_elem_of_In, in_concat. setoid_rewrite in_map_iff. split.
  - intros (l & (d & <- & Hd) & Hci). apply list_elem_of_In in Hci, Hd.
    apply elem_blast_arm in Hci as (k & Hk & Hr & ->); [|lia|lia]. exists d, k. split_and!; [done|lia|lia|done..].
  - intros (d & k & Hd & Hk & Hr & ->). eexists. split; [exists d; split; [done|by apply list_elem_of_In]|].
    apply list_elem_of_In, elem_blast_arm; [lia|lia|]. exists k. split; [lia|done].
Qed.

(** A blast stays on the board. *)
Lemma blast_on_board g from ci :
  on_board from = true -> ci ∈ blastCellsFor g from -> exists c, on_board c = true /\ ci = idx c.
Proof.
  intros Hf [->|(d & k & _ & Hk & [Ho _] & ->)]%elem_blastCellsFor; [by exists from|].
  exists (along from d k). split; [|done]. by apply (Ho k); lia.
Qed.

#[local] Opaque blastCellsFor.

(** * The chain reaction *)

(** A bomb goes off when its fuse has burnt down or when it lies in the blast of a bomb
    that goes off. *)
Inductive detonates (g : bytes) (bs : list BombItBomb) : nat -> Prop :=
  | detonates_fuse i b : bs !! i = Some b -> fuse b <= 0 -> detonates g bs i
  | detonates_chain i b j c : detonates g bs i -> bs !! i = Some b -> bs !! j = Some c ->
      idx (b_pos c) ∈ blastCellsFor g (b_pos b) -> detonates g bs j.

(** The cells the chain reaction burns. *)
Definition burning (g : bytes) (bs : list BombItBomb) (ci : Z) : Prop :=
  exists i b, detonates g bs i /\ bs !! i = Some b /\ ci ∈ blastCellsFor g (b_pos b).

Lemma elem_blast_union g bs det ci :
  ci ∈ blast_union g bs det <-> exists i b, i ∈ det /\ bs !! i = Some b /\ ci ∈ blastCellsFor g (b_pos b).
Proof.
  unfold blast_union. match goal with |- context [fold_left ?f det []] => set (F := f) end.
  assert (H : forall acc, ci ∈ fold_left F det acc <->
    ci ∈ acc \/ exists i b, i ∈ det /\ bs !! i = Some b /\ ci ∈ blastCellsFor g (b_pos b)).
  2: { rewrite H. split; [by intros [?%elem_of_nil|]|by right]. }
  induction det as [|i det IH]; intros acc; cbn [fold_left].
  { split; [by left|]. intros [?|(i & b & ?%elem_of_nil & _)]; done. }
  rewrite IH. unfold F at 1. setoid_rewrite elem_of_cons. destruct (bs !! i) as [b|] eqn:E.
  - rewrite elem_fold_set_add. naive_solver.
  - cbn [fold_left]. naive_solver.
Qed.

Lemma burnt_out_spec bs i : i ∈ burnt_out bs <-> exists b, bs !! i = Some b /\ fuse b <= 0.
Proof.
  unfold burnt_out. transitivity (i ∈ (@nil nat) \/ i ∈ seq 0 (length bs) /\ exists b, bs !! i = Some b /\ fuse b <= 0).
  - generalize (@nil nat) as acc. induction (seq 0 (length bs)) as [|j js IH]; intros acc; cbn [fold_left].
    { split; [by left|]. intros [?|[?%elem_of_nil _]]; done. }
    rewrite IH, elem_of_cons. destruct (bs !! j) as [b|] eqn:E; [|naive_solver].
    destruct (Z.leb_spec (fuse b) 0); [rewrite elem_set_add|]; naive_solver lia.
  - rewrite elem_of_nil. split; [naive_solver|]. intros (b & Hb & Hf). right. split; [|eauto].
    apply elem_of_seq. apply lookup_lt_Some in Hb. lia.
Qed.

Lemma NoDup_burnt_out bs : NoDup (burnt_out bs).
Proof.
  unfold burnt_out. assert (H : NoDup (@nil nat)) by constructor. revert H. generalize (@nil nat) as acc.
  induction (seq 0 (length bs)) as [|j js IH]; intros acc Hacc; cbn [fold_left]; [done|].
  apply IH. destruct (bs !! j) as [b|]; [|done]. destruct (_ <=? _); [by apply NoDup_set_add|done].
Qed.

(** One pass of the inner loop adds the bombs that lie in the cells. *)
Lemma set_off_spec bs cells js det ch det' ch' :
  NoDup det -> fold_left (set_off bs cells) js (det, ch) = (det', ch') ->
  NoDup det' /\
  (forall i, i ∈ det' <-> i ∈ det \/ i ∈ js /\ exists b, bs !! i = Some b /\ idx (b_pos b) ∈ cells) /\
  (if ch' then (if ch then (length det <= length det')%nat else (length det < length det')%nat)
   else ch = false /\ det' = det).
Proof.
  revert det ch; induction js as [|i js IH]; intros det ch Hd H; cbn [fold_left] in H.
  { injection H as <- <-. split_and!; [done| |by destruct ch]. intros i. rewrite elem_of_nil. naive_solver. }
  destruct (bs !! i) as [b|] eqn:E; unfold set_off at 2 in H; rewrite E in H.
  2: { apply IH in H as (Hn & He & Hc); [|done]. split_and!; [done| |done]. intros j. rewrite He, elem_of_cons. naive_solver. }
  destruct (set_has det i) eqn:Ei; cbn [negb andb] in H.
  { apply set_has_spec in Ei. apply IH in H as (Hn & He & Hc); [|done]. split_and!; [done| |done].
    intros j. rewrite He, elem_of_cons. naive_solver. }
  destruct (set_has cells (idx (b_pos b))) eqn:Ec.
  - apply set_has_spec in Ec. apply IH in H as (Hn & He & Hc); [|by apply NoDup_set_add].
    assert (Hl : length (set_add det i) = S (length det)) by (unfold set_add; rewrite Ei, length_app; simpl; lia).
    split_and!; [done| |].
    + intros j. rewrite He, elem_set_add, elem_of_cons. naive_solver.
    + destruct ch'; [|destruct Hc; done]. rewrite Hl in Hc. destruct ch; lia.
  - apply set_has_false in Ec. apply IH in H as (Hn & He & Hc); [|done]. split_and!; [done| |done].
    intros j. rewrite He, elem_of_cons. naive_solver.
Qed.

(** The loop stops, after at most one round more than there are bombs, with the bombs
    that detonate. *)
Lemma explode_terminates g bs fuel det :
  NoDup det -> (length bs < fuel + length det)%nat ->
  (forall i, i ∈ det -> detonates g bs i) -> (forall i b, bs !! i = Some b -> fuse b <= 0 -> i ∈ det) ->
  exists det', explode fuel g bs det = Ok (det', blast_union g bs det') /\ forall i, i ∈ det' <-> detonates g bs i.
Proof.
  assert (Hbound : forall det, NoDup det -> (forall i, i ∈ det -> detonates g bs i) -> (length det <= length bs)%nat).
  { intros d Hd Hdet. rewrite <- (length_seq (length bs) 0). apply submseteq_length, NoDup_submseteq; [done|].
    intros i Hi%Hdet. apply elem_of_seq.
    assert (is_Some (bs !! i)) as Hs%lookup_lt_is_Some by (destruct Hi; eauto). lia. }
  revert det; induction fuel as [|fuel IH]; intros det Hd Hf Hdet Hfuse; [pose proof (Hbound det Hd Hdet); lia|].
  cbn [explode]. destruct (fold_left _ _ _) as [det' ch] eqn:E. apply set_off_spec in E as (Hd' & He & Hc); [|done].
  assert (Hsub : forall i, i ∈ det' -> detonates g bs i).
  { intros i [Hi|(_ & b & Hb & (j & c & Hj & Hjc & Hin)%elem_blast_union)]%He; [by apply Hdet|].
    eapply detonates_chain; eauto. }
  destruct ch.
  - apply IH; [done|lia|done|]. intros i b Hb Hbf. apply He. left. eauto.
  - destruct Hc as [_ ->]. exists det. split; [done|]. intros i. split; [apply Hdet|].
    induction 1 as [i b Hb Hbf|i b j c _ IHi Hb Hjc Hin]; [eauto|]. apply He. right. split.
    + apply elem_of_seq. apply lookup_lt_Some in Hjc. lia.
    + exists c. split; [done|]. apply elem_blast_union. eauto.
Qed.

Lemma elem_survivors bs det b : b ∈ survivors bs det <-> exists i, bs !! i = Some b /\ i ∉ det.
Proof.
  unfold survivors. rewrite list_elem_of_omap. split.
  - intros (i & _ & H). exists i. destruct (set_has det i) eqn:E; [done|]. by apply set_has_false in E.
  - intros (i & Hb & Hi). exists i. split; [apply elem_of_seq; apply lookup_lt_Some in Hb; lia|].
    apply set_has_false in Hi. by rewrite Hi.
Qed.

(** Clearing the crates of some cells. *)
Definition clear_crates (cells : list Z) (g : bytes) : bytes :=
  fold_left (fun g ci => if cell g ci =? CELL_CRATE then set_cell ci CELL_FLOOR g else g) cells g.

Lemma clear_crates_spec cells g :
  (forall ci, ci ∈ cells -> 0 <= ci < Z.of_nat (length g)) ->
  length (clear_crates cells g) = length g /\
  forall i, cell (clear_crates cells g) i =
    if set_has cells i && (cell g i =? CELL_CRATE) then CELL_FLOOR else cell g i.
Proof.
  unfold clear_crates. revert g; induction cells as [|c cs IH]; intros g Hr; cbn [fold_left].
  { split; [done|]. intros i. by replace (set_has [] i) with false by (symmetry; apply set_has_false, not_elem_of_nil). }
  assert (Hc : 0 <= c < Z.of_nat (length g)) by (apply Hr; by left).
  set (g1 := if cell g c =? CELL_CRATE then set_cell c CELL_FLOOR g else g). assert (Hl : length g1 = length g) by (unfold g1; destruct (_ =? _); by rewrite ?length_set_cell).
  assert (H1 : forall i, cell g1 i = if (c =? i) && (cell g i =? CELL_CRATE) then CELL_FLOOR else cell g i).
  { intros i. unfold g1. destruct (Z.eqb_spec (cell g c) CELL_CRATE) as [E|E].
    - rewrite cell_set_cell by done. destruct (Z.eqb_spec c i) as [->|]; cbn [andb]; [by rewrite E|done].
    - destruct (Z.eqb_spec c i) as [->|]; cbn [andb]; [|done]. by rewrite (proj2 (Z.eqb_neq _ _) E). }
  destruct (IH g1) as [Hl' Hi]; [intros ci Hci; rewrite Hl; apply Hr; by right|].
  split; [by rewrite Hl', Hl|]. intros i. rewrite Hi, H1.
  assert (Hs : set_has (c :: cs) i = (c =? i) || set_has cs i).
  { apply eq_bool_prop_intro. rewrite !Is_true_true, orb_true_iff, !set_has_spec, elem_of_cons, Z.eqb_eq. naive_solver. }
  rewrite Hs. destruct (c =? i), (set_has cs i), (Z.eqb_spec (cell g i) CELL_CRATE) as [E|E]; cbn [andb orb]; try done;
    rewrite ?E; try done; destruct (Z.eqb_spec (cell g i) CELL_CRATE); done.
Qed.

(** What [resolveExplosions] returns: the blast cells are those of the chain reaction,
    the bombs that did not take part stay, in their order, and exactly the crates of
    the blast cells are gone. *)
Lemma resolve_spec g bs :
  (forall b, b ∈ bs -> on_board (b_pos b) = true) -> Z.of_nat (length g) = CELL_COUNT ->
  exists det cells g', resolveExplosions g bs = Ok (g', cells, survivors bs det) /\
    (forall i, i ∈ det <-> detonates g bs i) /\ (forall ci, ci ∈ cells <-> burning g bs ci) /\
    length g' = length g /\
    (forall i, cell g' i = if set_has cells i && (cell g i =? CELL_CRATE) then CELL_FLOOR else cell g i) /\
    (forall ci, ci ∈ cells -> exists c, on_board c = true /\ ci = idx c).
Proof.
  intros Hb Hl. destruct (explode_terminates g bs (S (length bs)) (burnt_out bs)) as (det & E & Hdet).
  - apply NoDup_burnt_out.
  - lia.
  - intros i (b & Hbi & Hf)%burnt_out_spec. by eapply detonates_fuse.
  - intros i b Hbi Hf. apply burnt_out_spec. eauto.
  - assert (Hcells : forall ci, ci ∈ blast_union g bs det <-> burning g bs ci).
    { intros ci. rewrite elem_blast_union. unfold burning. setoid_rewrite Hdet. naive_solver. }
    assert (Hon : forall ci, ci ∈ blast_union g bs det -> exists c, on_board c = true /\ ci = idx c).
    { intros ci (i & b & _ & Hbi & Hin)%elem_blast_union. eapply blast_on_board; [|exact Hin].
      apply Hb, list_elem_of_lookup_2 with i, Hbi. }
    destruct (clear_crates_spec (blast_union g bs det) g) as [Hl' Hg'].
    { intros ci (c & Hc & ->)%Hon. rewrite Hl. by apply idx_range. }
    exists det, (blast_union g bs det), (clear_crates (blast_union g bs det) g).
    split_and!; try done. unfold resolveExplosions. by rewrite E.
Qed.
