(* ===== verification/BombItGame.v ===== *)
(** The duel of bomb-it: its invariant, the laws of the protocol interface, what a tick
    does, and that a duel ends. *)
From stdpp Require Import sets.
From S2P Require Import Prelude.
From S2P Require Import Bytes.
From S2P Require Import Wire.
From S2P Require Import Protocol.
From S2P Require Import Rng.
From S2P Require Import BombIt.
From S2P Require Import BombItBoard.

(** A cell one can stand on. *)
Definition floor_at (g : bytes) (c : pos) : Prop := on_board c = true /\ cell g (idx c) = CELL_FLOOR.

(** The players and bombs on the grid: everything lies on floor, a seat has one bomb
    at most, no two bombs share a cell, no two living players do. *)
Record arena_ok (g : bytes) (ps : BombItPlayer * BombItPlayer) (bs : list BombItBomb) : Prop := {
  ar_shape : grid_shape g;
  ar_players : forall i, floor_at g (p_pos (player ps i));
  ar_bombs : forall b, b ∈ bs -> floor_at g (b_pos b) /\ 1 <= fuse b <= FUSE_TICKS;
  ar_owners : NoDup (map owner bs);
  ar_apart : NoDup (map b_pos bs);
  ar_alive : alive ps.1 = true -> alive ps.2 = true -> p_pos ps.1 <> p_pos ps.2
}.

(** The invariant of the duel, in a tunnel that locked [t]. *)
Record duel_ok (t : Z) (s : BombItState) : Prop := {
  du_arena : arena_ok (grid s) (players s) (bombs s);
  du_tick : 0 <= tick s <= BOMB_IT_TICK_CAP;
  du_seed : 0 <= seed s < W32;
  du_winner : winner s = verdict (alive (players s).1) (alive (players s).2) (tick s);
  du_total : total s = t;
  du_balances : 0 <= balanceA s /\ 0 <= balanceB s /\ balanceA s + balanceB s = t;
  du_paid : match winner s with
            | Some (Won PartyA) => balanceA s = t
            | Some (Won PartyB) => balanceB s = t
            | _ => True
            end
}.

Lemma duel_fresh ctx :
  0 <= bal_a (initialBalances ctx) -> 0 <= bal_b (initialBalances ctx) ->
  duel_ok (sum_of (initialBalances ctx)) (initialState ctx).
Proof.
  intros Ha Hb. pose proof (buildGrid_fair (seedFromTunnelId (ctx_tunnelId ctx))) as [Hs Hsym Hsp].
  split; cbn [initialState grid players bombs tick seed winner total balanceA balanceB]; try done.
  - split; cbn [map]; [done|intros []; cbn; (split; [done|apply Hsp; reflexivity])|by intros b ?%elem_of_nil|constructor..|done].
  - apply seedFromTunnelId_range.
Qed.

Lemma duel_initial ctx :
  lockable (initialBalances ctx) -> duel_ok (sum_of (initialBalances ctx)) (initialState ctx).
Proof. intros (? & ? & _). by apply duel_fresh. Qed.

(** * One action *)

Lemma canMoveTo_spec g bs other n :
  canMoveTo g bs other n = true ->
  on_board n = true /\ cell g (idx n) <> CELL_WALL /\ cell g (idx n) <> CELL_CRATE /\
  (forall b, b ∈ bs -> b_pos b <> n) /\ (alive other = true -> p_pos other <> n).
Proof.
  unfold canMoveTo. destruct (on_board n); cbn [negb]; [|done]. destruct (_ || _) eqn:Ek; [done|].
  destruct (existsb _ _) eqn:Eb; [done|]. destruct (_ && _) eqn:Eo; [done|]. intros _.
  apply orb_false_iff in Ek as [?%Z.eqb_neq ?%Z.eqb_neq]. split_and!; [done..| |].
  - intros b Hb Hn. rewrite <- not_true_iff_false, existsb_exists in Eb. apply Eb. exists b.
    split; [by apply list_elem_of_In|by apply pos_eqb_spec].
  - intros Ha Hn. rewrite Ha in Eo. cbn in Eo. by apply pos_eqb_spec in Hn; rewrite Hn in Eo.
Qed.

Lemma shape_floor g c :
  grid_shape g -> on_board c = true -> cell g (idx c) <> CELL_WALL -> cell g (idx c) <> CELL_CRATE ->
  cell g (idx c) = CELL_FLOOR.
Proof. intros [_ H] Hc Hw Hk. specialize (H c Hc). destruct (_ || _); naive_solver. Qed.

Lemma player_set ps i p j : player (set_player ps i p) j = if party_eqb i j then p else player ps j.
Proof. by destruct i, j. Qed.

(** An action moves the seat's player to a free neighbour, or lays a bomb under it. *)
Lemma applyAction_cases g ps bs i a ps' bs' :
  applyAction g ps bs i a = (ps', bs') ->
  (ps' = ps /\ bs' = bs) \/
  (bs' = bs /\ ps' = set_player ps i {| p_pos := dest (p_pos (player ps i)) a; alive := alive (player ps i) |} /\
   alive (player ps i) = true /\ a <> bomb /\
   canMoveTo g bs (player ps (otherParty i)) (dest (p_pos (player ps i)) a) = true) \/
  (ps' = ps /\ bs' = bs ++ [{| b_pos := p_pos (player ps i); fuse := FUSE_TICKS; owner := i |}] /\
   (forall b, b ∈ bs -> owner b <> i /\ b_pos b <> p_pos (player ps i))).
Proof.
  unfold applyAction. destruct (alive (player ps i)) eqn:Eal; cbn [negb orb]; [|intros [= <- <-]; by left].
  destruct (bool_decide (a = stay)); [intros [= <- <-]; by left|].
  destruct (bool_decide (a = bomb)) eqn:Eb.
  - destruct (_ && _) eqn:Ec; intros [= <- <-]; [|by left]. right; right. split_and!; [done..|].
    apply andb_true_iff in Ec as [El Eh]. apply Nat.ltb_lt in El. unfold MAX_BOMBS_PER_PLAYER in El.
    apply negb_true_iff in Eh. rewrite <- not_true_iff_false, existsb_exists in Eh.
    intros b Hb. apply list_elem_of_In in Hb. split; intros Ho.
    + destruct (List.filter (fun b => party_eqb (owner b) i) bs) eqn:Ef; [|simpl in El; lia].
      assert (In b []) as []. rewrite <- Ef. apply filter_In. split; [done|]. by apply party_eqb_spec.
    + apply Eh. exists b. split; [done|]. by apply pos_eqb_spec.
  - destruct (canMoveTo _ _ _ _) eqn:Em; intros [= <- <-]; [|by left]. right; left.
    apply bool_decide_eq_false in Eb. done.
Qed.

Lemma applyAction_ok g ps bs i a ps' bs' :
  arena_ok g ps bs -> applyAction g ps bs i a = (ps', bs') -> arena_ok g ps' bs'.
Proof.
  intros H E. pose proof H as [Hsh Hp Hb Ho Hn Hal].
  apply applyAction_cases in E as [[-> ->]|[(-> & -> & Hli & Ha & Hm)|(-> & -> & Hnew)]]; [done|..].
  - apply canMoveTo_spec in Hm as (Hon & Hw & Hc & _ & Hot). split; try done.
    + intros j. rewrite player_set. destruct (party_eqb i j); [|apply Hp]. split; [done|]. by apply shape_floor.
    + destruct i; cbn in *; intros H1 H2 H3; [by apply (Hot H2)|by apply (Hot H1)].
  - split; try done.
    + intros b [Hin| ->%list_elem_of_singleton]%elem_of_app; [by apply Hb|]. split; [apply Hp|].
      cbn. unfold FUSE_TICKS. lia.
    + rewrite map_app. apply NoDup_app. split_and!; [done| |apply NoDup_singleton].
      intros p (b & -> & Hin)%list_elem_of_fmap ?%list_elem_of_singleton. by destruct (Hnew b Hin).
    + rewrite map_app. apply NoDup_app. split_and!; [done| |apply NoDup_singleton].
      intros p (b & -> & Hin)%list_elem_of_fmap ?%list_elem_of_singleton. by destruct (Hnew b Hin).
Qed.

(** * One tick *)

(** What a tick does to the arena once the seats have acted: the fuses burn, the chain
    reaction takes its bombs, the crates in its cells and the players in its cells. *)
Record tick_of (g : bytes) (ps : BombItPlayer * BombItPlayer) (bs : list BombItBomb)
    (g' : bytes) (ps' : BombItPlayer * BombItPlayer) (bs' : list BombItBomb) : Prop := {
  t_length : length g' = length g;
  t_crates : forall ci, burning g (map burn bs) ci -> cell g ci = CELL_CRATE -> cell g' ci = CELL_FLOOR;
  t_cells : forall ci, cell g' ci = cell g ci \/ cell g ci = CELL_CRATE /\ cell g' ci = CELL_FLOOR;
  t_other : forall ci, ~ burning g (map burn bs) ci \/ cell g ci <> CELL_CRATE -> cell g' ci = cell g ci;
  t_bombs : exists det, bs' = survivors (map burn bs) det /\ forall i, i ∈ det <-> detonates g (map burn bs) i;
  t_players : forall i, p_pos (player ps' i) = p_pos (player ps i) /\
    (alive (player ps' i) = true <->
     alive (player ps i) = true /\ ~ burning g (map burn bs) (idx (p_pos (player ps i))))
}.

Lemma survivors_sublist bs det : survivors bs det `sublist_of` bs.
Proof.
  unfold survivors. assert (H : forall pre l, omap (fun i => if set_has det i then @None BombItBomb else (pre ++ l) !! i)
    (seq (length pre) (length l)) `sublist_of` l); [|apply (H [] bs)].
  intros pre l. revert pre. induction l as [|b l IH]; intros pre; cbn [length seq omap list_omap]; [constructor|].
  specialize (IH (pre ++ [b])). rewrite length_app, <- app_assoc, Nat.add_1_r in IH. cbn [app] in IH.
  destruct (set_has det (length pre)); [by constructor|].
  rewrite list_lookup_middle by done. by constructor.
Qed.

Lemma floor_kept g g' cells c :
  (forall i, cell g' i = if set_has cells i && (cell g i =? CELL_CRATE) then CELL_FLOOR else cell g i) ->
  floor_at g c -> floor_at g' c.
Proof. intros H [Hc Hf]. split; [done|]. rewrite H, Hf. by rewrite andb_false_r. Qed.

Lemma shape_kept g g' cells :
  length g' = length g ->
  (forall i, cell g' i = if set_has cells i && (cell g i =? CELL_CRATE) then CELL_FLOOR else cell g i) ->
  grid_shape g -> grid_shape g'.
Proof.
  intros Hl H [Hgl Hw]. split; [by rewrite Hl|]. intros c Hc. specialize (Hw c Hc). rewrite H.
  destruct (isBorder c || isPillar c).
  - rewrite Hw. by rewrite andb_false_r.
  - destruct (_ && _); [by left|done].
Qed.

Lemma hurt_spec cells p :
  p_pos (hurt cells p) = p_pos p /\
  (alive (hurt cells p) = true <-> alive p = true /\ idx (p_pos p) ∉ cells).
Proof.
  unfold hurt. destruct (alive p) eqn:Ea; cbn [andb].
  - destruct (set_has cells (idx (p_pos p))) eqn:Eh; cbn.
    + apply set_has_spec in Eh. split; [done|]. naive_solver.
    + apply set_has_false in Eh. naive_solver.
  - split; [done|]. rewrite Ea. naive_solver.
Qed.

Lemma player_hurt cells ps i : player (hurt cells ps.1, hurt cells ps.2) i = hurt cells (player ps i).
Proof. by destruct i. Qed.

Lemma map_burn (A : Type) (f : BombItBomb -> A) bs : (forall b, f (burn b) = f b) -> map f (map burn bs) = map f bs.
Proof. intros H. rewrite map_map. by apply map_ext. Qed.

Lemma tick_arena g ps bs :
  arena_ok g ps bs ->
  exists g' cells bs', resolveExplosions g (map burn bs) = Ok (g', cells, bs') /\
    tick_of g ps bs g' (hurt cells ps.1, hurt cells ps.2) bs' /\
    arena_ok g' (hurt cells ps.1, hurt cells ps.2) bs'.
Proof.
  intros [Hsh Hp Hb Ho Hn Hal].
  destruct (resolve_spec g (map burn bs)) as (det & cells & g' & E & Hdet & Hcells & Hl & Hg' & _).
  - intros b (b0 & -> & Hin)%list_elem_of_fmap. by destruct (Hb b0 Hin) as [[? _] _].
  - apply gs_length, Hsh.
  - exists g', cells, (survivors (map burn bs) det). split; [done|]. split; [split|split].
    + done.
    + intros ci Hci%Hcells Hc. apply set_has_spec in Hci. by rewrite Hg', Hci, Hc.
    + intros ci. rewrite Hg'. destruct (set_has cells ci), (Z.eqb_spec (cell g ci) CELL_CRATE); cbn [andb]; auto.
    + intros ci Hci. rewrite Hg'. destruct (set_has cells ci) eqn:Eh; [|done].
      apply set_has_spec, Hcells in Eh. destruct Hci as [?|Hne]; [done|]. by rewrite (proj2 (Z.eqb_neq _ _) Hne).
    + eauto.
    + intros i. rewrite player_hurt. destruct (hurt_spec cells (player ps i)) as [-> ->]. by rewrite Hcells.
    + by eapply shape_kept.
    + intros i. rewrite player_hurt. destruct (hurt_spec cells (player ps i)) as [-> _]. by eapply floor_kept.
    + intros b (i & Hi & Hid)%elem_survivors. assert (Hin : b ∈ map burn bs) by by eapply list_elem_of_lookup_2.
      apply list_elem_of_fmap in Hin as (b0 & Hbb & Hin). destruct (Hb b0 Hin) as [Hf Hr].
      split; [rewrite Hbb; by eapply floor_kept|].
      assert (0 < fuse b); [|subst b; cbn in *; lia].
      destruct (Z.lt_ge_cases 0 (fuse b)); [done|]. destruct Hid. apply Hdet. by eapply detonates_fuse.
    + apply (sublist_NoDup _ (map owner (map burn bs))); [by rewrite map_burn|apply (fmap_sublist owner), survivors_sublist].
    + apply (sublist_NoDup _ (map b_pos (map burn bs))); [by rewrite map_burn|apply (fmap_sublist b_pos), survivors_sublist].
    + cbn. destruct (hurt_spec cells ps.1) as [-> H1], (hurt_spec cells ps.2) as [-> H2].
      intros [? _]%H1 [? _]%H2. auto.
Qed.

Definition action_of (m : BombItMove) (i : Party) : BombItAction :=
  own_action (match i with PartyA => act_a m | PartyB => act_b m end).

(** A move that carries no action of the other seat. *)
Definition own_move (m : BombItMove) (i : Party) : Prop :=
  match i with PartyA => act_b m = None | PartyB => act_a m = None end.

Lemma applyAction_stay g ps bs i : applyAction g ps bs i stay = (ps, bs).
Proof. unfold applyAction. by rewrite orb_true_r. Qed.

(** A move is accepted exactly while the duel is undecided and when it carries the
    mover's action alone; then only the mover acts, and the tick follows. *)
Lemma duel_apply_spec t s m i :
  duel_ok t s -> own_move m i -> isTerminal s = false ->
  exists ps bs s', applyAction (grid s) (players s) (bombs s) i (action_of m i) = (ps, bs) /\
    applyMove s m i = Ok s' /\ arena_ok (grid s) ps bs /\
    tick_of (grid s) ps bs (grid s') (players s') (bombs s') /\
    arena_ok (grid s') (players s') (bombs s') /\
    tick s' = tick s + 1 /\ seed s' = seed s /\ total s' = total s /\
    winner s' = verdict (alive (players s').1) (alive (players s').2) (tick s') /\
    (balanceA s', balanceB s') = match winner s' with
      | Some (Won PartyA) => (total s, 0)
      | Some (Won PartyB) => (0, total s)
      | _ => (balanceA s, balanceB s)
      end.
Proof.
  intros Hok Hown Hterm. destruct (applyAction (grid s) (players s) (bombs s) i (action_of m i)) as [ps bs] eqn:E.
  pose proof (applyAction_ok _ _ _ _ _ _ _ (du_arena t s Hok) E) as Har.
  destruct (tick_arena _ _ _ Har) as (g' & cells & bs' & Er & Ht & Har').
  exists ps, bs. unfold applyMove. rewrite Hterm.
  assert (Hact : exists ps1 bs1,
    applyAction (grid s) (players s) (bombs s) PartyA (own_action (act_a m)) = (ps1, bs1) /\
    applyAction (grid s) ps1 bs1 PartyB (own_action (act_b m)) = (ps, bs)).
  { destruct i; cbn in Hown; unfold action_of in E; rewrite Hown.
    - exists ps, bs. split; [done|apply applyAction_stay].
    - exists (players s), (bombs s). split; [apply applyAction_stay|done]. }
  destruct Hact as (ps1 & bs1 & E1 & E2).
  assert (Hg1 : party_eqb i PartyA && bool_decide (is_Some (act_b m)) = false).
  { destruct i; [|done]. cbn in Hown. by rewrite Hown. }
  assert (Hg2 : party_eqb i PartyB && bool_decide (is_Some (act_a m)) = false).
  { destruct i; [done|]. cbn in Hown. by rewrite Hown. }
  rewrite Hg1, Hg2, E1, E2, Er. cbn [rbind].
  destruct (match verdict _ _ _ with Some _ => _ | None => _ end) as [a b] eqn:Ev.
  eexists. split_and!; [done|reflexivity|done|exact Ht|exact Har'|done..|].
  cbn [balanceA balanceB winner]. rewrite <- Ev. reflexivity.
Qed.

Lemma duel_apply_inv s m i s' : applyMove s m i = Ok s' -> isTerminal s = false /\ own_move m i.
Proof.
  unfold applyMove. intros H. inv_ok. split; [done|].
  destruct m as [[x|] [y|]], i; cbn in *; try done.
Qed.

Lemma undecided t s : duel_ok t s -> isTerminal s = false ->
  alive (players s).1 = true /\ alive (players s).2 = true /\ tick s < BOMB_IT_TICK_CAP.
Proof.
  intros Hok Ht. unfold isTerminal in Ht. pose proof (du_winner t s Hok) as Hw. rewrite Hw in Ht.
  unfold verdict in Ht. destruct (alive (players s).1), (alive (players s).2); cbn in Ht; try done.
  destruct (Z.leb_spec BOMB_IT_TICK_CAP (tick s)); [done|]. split_and!; [done|done|lia].
Qed.

Lemma duel_step t s m i s' : duel_ok t s -> applyMove s m i = Ok s' -> duel_ok t s' /\ tick s' = tick s + 1.
Proof.
  intros Hok H. destruct (duel_apply_inv _ _ _ _ H) as [Hterm Hown].
  destruct (duel_apply_spec t s m i Hok Hown Hterm) as (ps & bs & s1 & _ & E & _ & _ & Har & Ht & Hs & Htot & Hw & Hb).
  rewrite H in E. apply Ok_inj in E as <-. destruct (undecided t s Hok Hterm) as (_ & _ & Hlt).
  pose proof Hok as [_ Htick Hseed _ Htt (Ha0 & Hb0 & Hab) _]. split; [|done].
  destruct (winner s') as [[[]|]|] eqn:Ew; injection Hb as Ha' Hb'; split; try done; try rewrite Ew; try lia; congruence.
Qed.

#[export] Instance BombItLaws : ProtocolLaws BombItProtocol duel_ok (fun _ => True).
Proof.
  split.
  - intros ctx s _ Hl [= <-]. split; [by apply duel_initial|]. by destruct ctx as [? []].
  - intros t s m i s' Hok H. by apply (duel_step t s m i).
  - intros t s Hok. destruct (du_balances t s Hok) as (? & ? & ?). by split_and!.
Qed.

Lemma run_ticks t s ms s' :
  duel_ok t s -> run BombItProtocol s ms = Ok s' -> duel_ok t s' /\ tick s' = tick s + Z.of_nat (length ms).
Proof.
  unfold run. revert s; induction ms as [|[m i] ms IH]; intros s Hok H; cbn [rfold] in H.
  { apply Ok_inj in H. subst. split; [done|cbn; lia]. }
  apply rbind_ok in H as (s1 & E & H). apply (duel_step t) in E as [Hok1 Ht1]; [|done].
  apply IH in H as [Hok' Ht']; [|done]. split; [done|]. cbn [length]. lia.
Qed.

(** Until a seat has won, the balances are those it started with. *)
Lemma unpaid_until_won t s0 ms s :
  duel_ok t s0 -> winner s0 = None -> run BombItProtocol s0 ms = Ok s ->
  (forall p, winner s <> Some (Won p)) -> balances s = balances s0.
Proof.
  intros Hok0 Hw0 H.
  assert (Hinv : duel_ok t s /\ ((forall p, winner s <> Some (Won p)) -> balances s = balances s0)); [|apply Hinv].
  unfold run in H. eapply (rfold_invariant _ (fun s => duel_ok t s /\ ((forall p, winner s <> Some (Won p)) ->
    balances s = balances s0))); [|split; [exact Hok0|done]|exact H].
  intros s1 [m i] s2 [Hok1 Hb1] E. change (applyMove s1 m i = Ok s2) in E. split; [by apply (duel_step t s1 m i)|]. intros Hnw.
  destruct (duel_apply_inv _ _ _ _ E) as [Hterm Hown].
  destruct (duel_apply_spec t s1 m i Hok1 Hown Hterm) as (? & ? & s3 & _ & E3 & _ & _ & _ & _ & _ & _ & _ & Hb).
  rewrite E in E3. apply Ok_inj in E3 as <-.
  assert (winner s1 = None) as Hw1 by (unfold isTerminal in Hterm; by destruct (winner s1)).
  rewrite <- Hb1 by (intros p; by rewrite Hw1). unfold balances.
  destruct (winner s2) as [[p|]|]; [by destruct (Hnw p)|..]; by injection Hb as -> ->.
Qed.

(** What a tick does: the mover acts and nobody else; then every fuse burns, the bombs
    that are burnt down and those a blast reaches go off together, the crates and
    the living players in the blast cells are taken, and the duel is decided when a
    player is dead or the cap is reached. *)
Theorem bomb_it_tick t s m i s' :
  duel_ok t s -> applyMove s m i = Ok s' ->
  exists ps bs, applyAction (grid s) (players s) (bombs s) i (action_of m i) = (ps, bs) /\
    tick_of (grid s) ps bs (grid s') (players s') (bombs s') /\
    winner s' = verdict (alive (players s').1) (alive (players s').2) (tick s + 1).
Proof.
  intros Hok H. destruct (duel_apply_inv _ _ _ _ H) as [Hterm Hown].
  destruct (duel_apply_spec t s m i Hok Hown Hterm) as (ps & bs & s1 & Ea & E & _ & Ht & _ & Htick & _ & _ & Hw & _).
  rewrite H in E. apply Ok_inj in E as <-. rewrite Htick in Hw. eauto 10.
Qed.

(** C28: Every duel ends: its tick counts its moves and never passes the cap; until it is
    decided every move of a seat's own action is accepted, and it is decided by the
    cap at the latest.  The winner is alive, the loser dead, and the pot is the
    winner's; after a draw each seat has what it had. *)
Theorem bomb_it_ends ctx ms s :
  lockable (initialBalances ctx) -> run BombItProtocol (initialState ctx) ms = Ok s ->
  tick s = Z.of_nat (length ms) /\ (length ms <= Z.to_nat BOMB_IT_TICK_CAP)%nat /\
  (isTerminal s = false -> forall m i, own_move m i -> exists s', applyMove s m i = Ok s') /\
  (isTerminal s = false -> tick s < BOMB_IT_TICK_CAP) /\
  (forall p, winner s = Some (Won p) -> alive (player (players s) p) = true /\
     alive (player (players s) (otherParty p)) = false /\
     balances s = match p with
                  | PartyA => {| bal_a := sum_of (initialBalances ctx); bal_b := 0 |}
                  | PartyB => {| bal_a := 0; bal_b := sum_of (initialBalances ctx) |}
                  end) /\
  ((forall p, winner s <> Some (Won p)) -> balances s = initialBalances ctx).
Proof.
  intros Hl H. pose proof (unpaid_until_won _ _ _ _ (duel_initial ctx Hl) eq_refl H) as Hun. apply (run_ticks (sum_of (initialBalances ctx))) in H as [Hok Ht]; [|by apply duel_initial].
  cbn [initialState tick] in Ht. pose proof (du_tick _ _ Hok) as Hc. split_and!; [done|lia|..|by destruct ctx as [? []]].
  - intros Hterm m i Hown. destruct (duel_apply_spec _ s m i Hok Hown Hterm) as (? & ? & s' & _ & E & _). eauto.
  - intros Hterm. by destruct (undecided _ s Hok Hterm) as (_ & _ & ?).
  - intros p Hp. pose proof (du_paid _ _ Hok) as Hpaid. destruct (du_balances _ _ Hok) as (Ha & Hb & Hab).
    pose proof (du_winner _ _ Hok) as Hw. rewrite Hp in *. unfold verdict in Hw. unfold balances.
    destruct (alive (players s).1) eqn:E1, (alive (players s).2) eqn:E2; cbn in Hw; try destruct (_ <=? _);
      try done; injection Hw as ->; cbn; rewrite E1, E2; split_and!; try done; f_equal; lia.
Qed.

Lemma run_cells t s0 ms s :
  duel_ok t s0 -> run BombItProtocol s0 ms = Ok s ->
  forall ci, cell (grid s) ci = cell (grid s0) ci \/ cell (grid s0) ci = CELL_CRATE /\ cell (grid s) ci = CELL_FLOOR.
Proof.
  unfold run. revert s0; induction ms as [|[m i] ms IH]; intros s0 Hok H ci; cbn [rfold] in H.
  { apply Ok_inj in H. subst. by left. }
  apply rbind_ok in H as (s1 & E & H). change (applyMove s0 m i = Ok s1) in E.
  destruct (duel_step t s0 m i s1 Hok E) as [Hok1 _]. destruct (duel_apply_inv _ _ _ _ E) as [Hterm Hown].
  destruct (duel_apply_spec t s0 m i Hok Hown Hterm) as (ps & bs & s2 & _ & E2 & _ & Ht & _).
  rewrite E in E2. apply Ok_inj in E2 as <-. pose proof (t_cells _ _ _ _ _ _ Ht ci) as H1. pose proof (IH s1 Hok1 H ci) as H2.
  unfold CELL_CRATE, CELL_FLOOR in *. lia.
Qed.

(** C29: The states of a duel are well formed.  The board it starts on is fair whatever the
    seed: its walls are the border and the pillars, the half turn maps it to itself,
    and the cells around the spawn corners are free.  From then on crates only
    disappear; every player and every bomb stands on floor, a seat has one bomb at
    most, with a fuse from 1 to 8, no two bombs share a cell and no two living
    players do. *)
Theorem bomb_it_well_formed ctx ms s :
  lockable (initialBalances ctx) -> run BombItProtocol (initialState ctx) ms = Ok s ->
  fair_board (grid (initialState ctx)) /\
  (forall ci, cell (grid s) ci = cell (grid (initialState ctx)) ci \/
     cell (grid (initialState ctx)) ci = CELL_CRATE /\ cell (grid s) ci = CELL_FLOOR) /\
  arena_ok (grid s) (players s) (bombs s).
Proof.
  intros Hl H. pose proof (duel_initial ctx Hl) as Hok. split_and!.
  - apply buildGrid_fair.
  - by apply (run_cells _ _ ms s Hok).
  - apply (run_ticks _ _ ms s) in Hok as [Hok' _]; [|done]. apply (du_arena _ _ Hok').
Qed.
