(* ===== verification/BombItFair.v ===== *)
(** The duel of bomb-it is fair: the half turn of the board that exchanges the two seats
    takes games to games. *)
From stdpp Require Import sets.
From S2P Require Import Prelude.
From S2P Require Import Bytes.
From S2P Require Import Wire.
From S2P Require Import Protocol.
From S2P Require Import Rng.
From S2P Require Import BombIt.
From S2P Require Import BombItBoard.
From S2P Require Import BombItGame.

(** * The half turn *)

Definition turn_action (a : BombItAction) : BombItAction :=
  match a with north => south | south => north | east => west | west => east | a => a end.

Definition turn_move (m : BombItMove) : BombItMove :=
  {| act_a := option_map turn_action (act_b m); act_b := option_map turn_action (act_a m) |}.

Definition turn_player (p : BombItPlayer) : BombItPlayer := {| p_pos := mirror (p_pos p); alive := alive p |}.

Definition turn_players (ps : BombItPlayer * BombItPlayer) : BombItPlayer * BombItPlayer :=
  (turn_player ps.2, turn_player ps.1).

Definition turn_bomb (b : BombItBomb) : BombItBomb :=
  {| b_pos := mirror (b_pos b); fuse := fuse b; owner := otherParty (owner b) |}.

Definition turn_winner (w : BombItWinner) : BombItWinner :=
  match w with Won p => Won (otherParty p) | Drawn => Drawn end.

(** The duel as the other seat sees it. *)
Definition half_turn (s : BombItState) : BombItState :=
  {| tick := tick s; seed := seed s; grid := reverse (grid s); players := turn_players (players s);
     bombs := map turn_bomb (bombs s); winner := option_map turn_winner (winner s);
     balanceA := balanceB s; balanceB := balanceA s; total := total s |}.

Lemma player_turn ps i : player (turn_players ps) (otherParty i) = turn_player (player ps i).
Proof. by destruct i. Qed.

Lemma set_player_turn ps i p : set_player (turn_players ps) (otherParty i) (turn_player p) = turn_players (set_player ps i p).
Proof. by destruct i. Qed.

Lemma mirror_inj c d : mirror c = mirror d -> c = d.
Proof. intros H. by rewrite <- (mirror_mirror c), H, mirror_mirror. Qed.

Lemma pos_eqb_mirror c d : pos_eqb (mirror c) (mirror d) = pos_eqb c d.
Proof.
  apply eq_bool_prop_intro. rewrite !Is_true_true, !pos_eqb_spec. split; [apply mirror_inj|by intros ->].
Qed.

Lemma dest_mirror c a : dest (mirror c) (turn_action a) = mirror (dest c a).
Proof. destruct c, a; unfold mirror, GRID_H, GRID_W; cbn; f_equal; lia. Qed.

Lemma existsb_map {A B} (f : A -> B) (p : B -> bool) xs : existsb p (map f xs) = existsb (fun x => p (f x)) xs.
Proof. induction xs as [|x xs IH]; cbn; [done|]. by rewrite IH. Qed.

Lemma length_filter_turn bs i :
  length (List.filter (fun b => party_eqb (owner b) (otherParty i)) (map turn_bomb bs)) =
  length (List.filter (fun b => party_eqb (owner b) i) bs).
Proof.
  induction bs as [|b bs IH]; [done|]. cbn [map List.filter turn_bomb owner].
  replace (party_eqb (otherParty (owner b)) (otherParty i)) with (party_eqb (owner b) i) by (by destruct (owner b), i).
  destruct (party_eqb (owner b) i); cbn [length]; by rewrite IH.
Qed.

Section Grid.
Context (g : bytes) (Hlen : Z.of_nat (length g) = CELL_COUNT).

Lemma cell_turn i : 0 <= i < CELL_COUNT -> cell (reverse g) (CELL_COUNT - 1 - i) = cell g i.
Proof. intros Hi. rewrite cell_reverse, Hlen by lia. f_equal. lia. Qed.

Lemma cell_mirror c : on_board c = true -> cell (reverse g) (idx (mirror c)) = cell g (idx c).
Proof. intros Hc. rewrite idx_mirror. apply cell_turn. by apply idx_range. Qed.

Lemma canMoveTo_turn bs other n :
  canMoveTo (reverse g) (map turn_bomb bs) (turn_player other) (mirror n) = canMoveTo g bs other n.
Proof.
  unfold canMoveTo. rewrite on_board_mirror. destruct (on_board n) eqn:En; cbn [negb]; [|done].
  rewrite cell_mirror by done. rewrite existsb_map. cbn [turn_bomb turn_player b_pos p_pos alive].
  rewrite pos_eqb_mirror. destruct (_ || _); [done|].
  replace (existsb (fun x => pos_eqb (mirror (b_pos x)) (mirror n)) bs) with (existsb (fun b => pos_eqb (b_pos b) n) bs); [done|].
  induction bs as [|b bs' IH]; [done|]. cbn [existsb]. by rewrite pos_eqb_mirror, IH.
Qed.

Lemma applyAction_turn ps bs i a :
  applyAction (reverse g) (turn_players ps) (map turn_bomb bs) (otherParty i) (turn_action a) =
  (turn_players (applyAction g ps bs i a).1, map turn_bomb (applyAction g ps bs i a).2).
Proof.
  unfold applyAction. rewrite player_turn. rewrite (otherParty_involutive i). cbn [turn_player alive p_pos].
  replace (bool_decide (turn_action a = stay)) with (bool_decide (a = stay)) by (by destruct a).
  replace (bool_decide (turn_action a = bomb)) with (bool_decide (a = bomb)) by (by destruct a).
  destruct (_ || _); [done|]. destruct (bool_decide (a = bomb)).
  - rewrite length_filter_turn, existsb_map. cbn [turn_bomb b_pos].
    replace (existsb (fun x => pos_eqb (mirror (b_pos x)) (mirror (p_pos (player ps i)))) bs)
      with (existsb (fun b => pos_eqb (b_pos b) (p_pos (player ps i))) bs).
    2: { induction bs as [|b bs' IH]; [done|]. cbn [existsb]. by rewrite pos_eqb_mirror, IH. }
    destruct (_ && _); [|done]. cbn [fst snd]. rewrite map_app. done.
  - rewrite dest_mirror.
    replace (player (turn_players ps) i) with (turn_player (player ps (otherParty i))) by (by destruct i).
    rewrite canMoveTo_turn. destruct (canMoveTo _ _ _ _); [|done]. cbn [fst snd]. by rewrite <- set_player_turn.
Qed.

Definition opposite (d : pos) : pos := (- d.1, - d.2).

Lemma along_mirror from d j : along (mirror from) (opposite d) j = mirror (along from d j).
Proof. destruct from, d. unfold along, mirror, opposite, GRID_H, GRID_W. cbn. f_equal; lia. Qed.

Lemma opposite_dirs d : d ∈ blast_dirs -> opposite d ∈ blast_dirs.
Proof.
  unfold blast_dirs. rewrite !elem_of_cons, !elem_of_nil.
  intros [->|[->|[->|[->|[]]]]]; cbn; auto 10.
Qed.

Lemma reaches_turn from d k : reaches g from d k -> reaches (reverse g) (mirror from) (opposite d) k.
Proof.
  intros [Ho Hc]. split; intros j Hj; rewrite along_mirror.
  - destruct (Ho j Hj) as [Hb Hw]. rewrite on_board_mirror, cell_mirror; done.
  - destruct (Ho j ltac:(lia)) as [Hb _]. rewrite cell_mirror by done. by apply Hc.
Qed.

Lemma blast_turn from ci :
  ci ∈ blastCellsFor g from -> CELL_COUNT - 1 - ci ∈ blastCellsFor (reverse g) (mirror from).
Proof.
  rewrite !elem_blastCellsFor. intros [->|(d & k & Hd & Hk & Hr & ->)]; [left; by rewrite idx_mirror|].
  right. exists (opposite d), k. split_and!; [by apply opposite_dirs|lia|lia|by apply reaches_turn|].
  by rewrite along_mirror, idx_mirror.
Qed.

End Grid.

(** * Explosions under the half turn *)

(** Two sets of cells that the half turn takes to each other. *)
Definition turned (cells cells' : list Z) : Prop := forall ci, ci ∈ cells' <-> CELL_COUNT - 1 - ci ∈ cells.

Lemma turned_sym cells cells' : turned cells cells' -> turned cells' cells.
Proof. intros H ci. rewrite (H _). by replace (CELL_COUNT - 1 - (CELL_COUNT - 1 - ci)) with ci by lia. Qed.

Lemma lookup_turn (bs : list BombItBomb) (i : nat) : map turn_bomb bs !! i = option_map turn_bomb (bs !! i).
Proof. apply list_lookup_fmap. Qed.

Section Explosions.
Context (g : bytes) (Hlen : Z.of_nat (length g) = CELL_COUNT).

Lemma blast_union_turn bs det : turned (blast_union g bs det) (blast_union (reverse g) (map turn_bomb bs) det).
Proof.
  intros ci. rewrite !elem_blast_union. setoid_rewrite lookup_turn. split.
  - intros (i & b & Hi & Hb & Hin). destruct (bs !! i) as [b0|] eqn:E; [|done]. injection Hb as <-.
    exists i, b0. split_and!; [done..|]. apply blast_turn in Hin; [|by rewrite length_reverse].
    cbn [turn_bomb b_pos] in Hin. by rewrite reverse_involutive, mirror_mirror in Hin.
  - intros (i & b & Hi & Hb & Hin). exists i, (turn_bomb b). rewrite Hb. split_and!; [done..|].
    apply (blast_turn g Hlen) in Hin. by replace (CELL_COUNT - 1 - (CELL_COUNT - 1 - ci)) with ci in Hin by lia.
Qed.

Lemma set_off_turn bs cells cells' dc i :
  turned cells cells' -> set_off (map turn_bomb bs) cells' dc i = set_off bs cells dc i.
Proof.
  intros H. unfold set_off. destruct dc as [det ch]. rewrite lookup_turn.
  destruct (bs !! i) as [b|]; cbn [option_map]; [|done].
  replace (set_has cells' (idx (b_pos (turn_bomb b)))) with (set_has cells (idx (b_pos b))); [done|].
  apply set_has_ext. rewrite (H (idx (b_pos (turn_bomb b)))). cbn [turn_bomb b_pos]. rewrite idx_mirror.
  by replace (CELL_COUNT - 1 - (CELL_COUNT - 1 - idx (b_pos b))) with (idx (b_pos b)) by lia.
Qed.

Lemma explode_turn bs fuel det det' cells :
  explode fuel g bs det = Ok (det', cells) ->
  exists cells', explode fuel (reverse g) (map turn_bomb bs) det = Ok (det', cells') /\ turned cells cells'.
Proof.
  revert det; induction fuel as [|fuel IH]; intros det; cbn [explode]; [done|]. rewrite length_map.
  replace (fold_left (set_off (map turn_bomb bs) (blast_union (reverse g) (map turn_bomb bs) det)) (seq 0 (length bs)) (det, false))
    with (fold_left (set_off bs (blast_union g bs det)) (seq 0 (length bs)) (det, false)).
  2: { generalize (det, false). induction (seq 0 (length bs)) as [|i js IHj]; intros dc; [done|]. cbn [fold_left].
       rewrite IHj. f_equal. symmetry. apply set_off_turn, blast_union_turn. }
  destruct (fold_left _ _ _) as [det1 []]; [apply IH|]. intros H. apply Ok_inj in H as [= -> <-].
  eexists. split; [reflexivity|]. apply blast_union_turn.
Qed.

Lemma burnt_out_turn bs : burnt_out (map turn_bomb bs) = burnt_out bs.
Proof.
  unfold burnt_out. rewrite length_map. generalize (@nil nat) as acc.
  induction (seq 0 (length bs)) as [|i js IH]; intros acc; [done|]. cbn [fold_left]. rewrite lookup_turn.
  destruct (bs !! i); cbn [option_map turn_bomb fuse]; apply IH.
Qed.

Lemma survivors_turn bs det : survivors (map turn_bomb bs) det = map turn_bomb (survivors bs det).
Proof.
  unfold survivors. rewrite length_map. induction (seq 0 (length bs)) as [|i js IH]; [done|].
  cbn [omap list_omap]. rewrite lookup_turn, IH.
  destruct (set_has det i); [done|]. by destruct (bs !! i).
Qed.

Lemma clear_crates_turn cells cells' :
  turned cells cells' -> (forall ci, ci ∈ cells -> 0 <= ci < CELL_COUNT) ->
  clear_crates cells' (reverse g) = reverse (clear_crates cells g).
Proof.
  intros Ht Hr. destruct (clear_crates_spec cells g) as [L1 C1]; [by rewrite Hlen|].
  destruct (clear_crates_spec cells' (reverse g)) as [L2 C2].
  { intros ci Hci%Ht%Hr. rewrite length_reverse, Hlen. lia. }
  apply cell_ext; [by rewrite L2, !length_reverse, L1|]. intros i Hi. rewrite L2, length_reverse, Hlen in Hi.
  rewrite C2, (cell_reverse (clear_crates cells g)) by (rewrite L1, Hlen; lia).
  rewrite C1, L1, Hlen, cell_reverse, Hlen by (rewrite Hlen; lia).
  by rewrite (set_has_ext cells' cells i (CELL_COUNT - 1 - i)) by apply Ht.
Qed.

Lemma hurt_turn cells cells' p : turned cells cells' -> hurt cells' (turn_player p) = turn_player (hurt cells p).
Proof.
  intros Ht. unfold hurt. cbn [turn_player alive p_pos].
  rewrite (set_has_ext cells' cells (idx (mirror (p_pos p))) (idx (p_pos p))).
  - by destruct (alive p && _).
  - rewrite (Ht (idx (mirror (p_pos p)))), idx_mirror.
    by replace (CELL_COUNT - 1 - (CELL_COUNT - 1 - idx (p_pos p))) with (idx (p_pos p)) by lia.
Qed.

Lemma resolve_turn bs g' cells bs' :
  (forall b, b ∈ bs -> on_board (b_pos b) = true) -> resolveExplosions g bs = Ok (g', cells, bs') ->
  exists cells', resolveExplosions (reverse g) (map turn_bomb bs) = Ok (reverse g', cells', map turn_bomb bs') /\
    turned cells cells'.
Proof.
  intros Hb H. destruct (resolve_spec g bs Hb Hlen) as (det & cells1 & g1 & E & _ & _ & _ & _ & Hon).
  rewrite H in E. apply Ok_inj in E as [= <- <- _].
  unfold resolveExplosions in *. rewrite length_map, burnt_out_turn.
  apply rbind_ok in H as ([det1 cells1] & E & H). apply Ok_inj in H as [= <- <- <-].
  destruct (explode_turn _ _ _ _ _ E) as (cells' & -> & Ht). cbn [rbind]. exists cells'.
  split; [|done]. fold (clear_crates cells1 g) (clear_crates cells' (reverse g)).
  rewrite survivors_turn, (clear_crates_turn cells1) by (done || (intros ci (c & Hc & ->)%Hon; by apply idx_range)). done.
Qed.

End Explosions.

(** * Games under the half turn *)

Lemma half_turn_involutive s : half_turn (half_turn s) = s.
Proof.
  destruct s as [t sd g [pa pb] bs w a b tot]. unfold half_turn, turn_players. cbn [tick seed grid players bombs winner balanceA balanceB total fst snd].
  rewrite reverse_involutive, map_map.
  replace (turn_player (turn_player pa)) with pa by (destruct pa; unfold turn_player; cbn; by rewrite mirror_mirror).
  replace (turn_player (turn_player pb)) with pb by (destruct pb; unfold turn_player; cbn; by rewrite mirror_mirror).
  f_equal.
  - erewrite map_ext; [apply map_id|]. intros []. unfold turn_bomb. cbn. by rewrite mirror_mirror, otherParty_involutive.
  - destruct w as [[]|]; cbn; [by rewrite otherParty_involutive|done..].
Qed.

Lemma verdict_turn a b t : verdict b a t = option_map turn_winner (verdict a b t).
Proof. unfold verdict. destruct a, b; cbn; try done. by destruct (_ <=? _). Qed.

Lemma action_of_turn m i : action_of (turn_move m) (otherParty i) = turn_action (action_of m i).
Proof. destruct m as [[] []], i; done. Qed.

Lemma own_move_turn m i : own_move m i -> own_move (turn_move m) (otherParty i).
Proof. destruct m as [[] []], i; done. Qed.

Lemma apply_turn t s m i s' :
  duel_ok t s -> applyMove s m i = Ok s' ->
  applyMove (half_turn s) (turn_move m) (otherParty i) = Ok (half_turn s').
Proof.
  intros Hok H. destruct (duel_apply_inv _ _ _ _ H) as [Hterm Hown].
  pose proof (du_arena t s Hok) as Har. pose proof (gs_length _ (ar_shape _ _ _ Har)) as Hlen.
  assert (Hact : exists ps bs, arena_ok (grid s) ps bs /\
    (let '(ps1, bs1) := applyAction (grid s) (players s) (bombs s) PartyA (own_action (act_a m)) in
     applyAction (grid s) ps1 bs1 PartyB (own_action (act_b m))) = (ps, bs) /\
    (let '(ps1, bs1) := applyAction (reverse (grid s)) (turn_players (players s)) (map turn_bomb (bombs s)) PartyA
       (own_action (act_a (turn_move m))) in
     applyAction (reverse (grid s)) ps1 bs1 PartyB (own_action (act_b (turn_move m)))) = (turn_players ps, map turn_bomb bs)).
  { destruct (applyAction (grid s) (players s) (bombs s) i (action_of m i)) as [ps bs] eqn:E. exists ps, bs.
    split; [by eapply applyAction_ok|].
    pose proof (applyAction_turn (grid s) Hlen (players s) (bombs s) i (action_of m i)) as Et.
    rewrite E, <- action_of_turn in Et. cbn [fst snd] in Et.
    destruct i; cbn in Hown; unfold action_of in E, Et; cbn [otherParty] in Et;
      cbn [turn_move act_a act_b] in *; rewrite Hown; cbn [option_map own_action default];
      rewrite ?applyAction_stay, ?E, ?Et; split; done || apply applyAction_stay. }
  destruct Hact as (ps & bs & Har' & E1 & E2). pose proof (duel_apply_inv _ _ _ _ H) as _. unfold applyMove in *.
  rewrite Hterm in H.
  replace (isTerminal (half_turn s)) with false by (unfold isTerminal, half_turn in *; cbn; by destruct (winner s)).
  replace (party_eqb i PartyA && bool_decide (is_Some (act_b m))) with false in H
    by (destruct i, m as [? []]; cbn in *; done).
  replace (party_eqb i PartyB && bool_decide (is_Some (act_a m))) with false in H
    by (destruct i, m as [[] ?]; cbn in *; done).
  replace (party_eqb (otherParty i) PartyA && bool_decide (is_Some (act_b (turn_move m)))) with false
    by (destruct i, m as [[] ?]; cbn in *; done).
  replace (party_eqb (otherParty i) PartyB && bool_decide (is_Some (act_a (turn_move m)))) with false
    by (destruct i, m as [? []]; cbn in *; done).
  cbn [half_turn grid players bombs].
  destruct (applyAction (grid s) (players s) _ _ _) as [ps1 bs1], (applyAction (reverse _) (turn_players (players s)) _ _ _) as [ps2 bs2].
  rewrite E1 in H. rewrite E2. apply rbind_ok in H as ([[g' cells] bs'] & Er & H).
  replace (map burn (map turn_bomb bs)) with (map turn_bomb (map burn bs)) by (rewrite !map_map; done).
  apply resolve_turn in Er as (cells' & -> & Ht); [|done|].
  2: { intros b (b0 & -> & Hin)%list_elem_of_fmap. by destruct (ar_bombs _ _ _ Har' b0 Hin) as [[? _] _]. }
  cbn [rbind turn_players fst snd] in *. rewrite !(hurt_turn (grid s) cells cells') by done. cbn [turn_player alive tick half_turn] in *.
  rewrite verdict_turn.
  destruct (verdict (alive (hurt cells ps.1)) (alive (hurt cells ps.2)) (tick s + 1)) as [[[]|]|]; cbn [option_map turn_winner otherParty];
    apply Ok_inj in H as <-; done.
Qed.

Lemma reverse_symmetric g : Z.of_nat (length g) = CELL_COUNT -> symmetric g -> reverse g = g.
Proof.
  intros Hl Hs. apply cell_ext; [apply length_reverse|]. intros i Hi. rewrite length_reverse in Hi.
  rewrite cell_reverse, Hl by done. rewrite Hl, CELL_COUNT_eq in Hi.
  assert (Hc : on_board (i / 21, i mod 21) = true) by (apply on_board_iff; cbn; zdiv_lia).
  assert (Hidx : idx (i / 21, i mod 21) = i) by (unfold idx, GRID_W; cbn; zdiv_lia).
  specialize (Hs _ Hc). by rewrite idx_mirror, Hidx in Hs.
Qed.

Lemma half_turn_initial ctx :
  bal_a (initialBalances ctx) = bal_b (initialBalances ctx) -> half_turn (initialState ctx) = initialState ctx.
Proof.
  intros Hb. pose proof (buildGrid_fair (seedFromTunnelId (ctx_tunnelId ctx))) as [Hsh Hsym _].
  unfold half_turn, initialState. cbn [tick seed grid players bombs winner balanceA balanceB total map option_map].
  rewrite reverse_symmetric by (done || apply gs_length, Hsh). by rewrite Hb.
Qed.

Lemma run_turn t s ms s' :
  duel_ok t s -> run BombItProtocol s ms = Ok s' ->
  run BombItProtocol (half_turn s) (map (fun mp => (turn_move mp.1, otherParty mp.2)) ms) = Ok (half_turn s').
Proof.
  unfold run. revert s; induction ms as [|[m i] ms IH]; intros s Hok H; cbn [rfold map] in *.
  { apply Ok_inj in H. by subst. }
  apply rbind_ok in H as (s1 & E & H). change (applyMove s m i = Ok s1) in E. cbn [fst snd].
  change (Protocol.applyMove BombItProtocol) with applyMove. rewrite (apply_turn t s m i s1 Hok E). cbn [rbind].
  apply IH; [|done]. by apply (duel_step t s m i).
Qed.

(** C27: Neither seat is favoured: with equal stakes, whatever the seed, exchanging the two
    seats and turning the board by half a turn takes every game to a game -- the moves
    turned and attributed to the other seat are accepted, and lead to the turned
    state, with the other winner. *)
Theorem bomb_it_fair ctx ms s :
  lockable (initialBalances ctx) -> bal_a (initialBalances ctx) = bal_b (initialBalances ctx) ->
  run BombItProtocol (initialState ctx) ms = Ok s ->
  run BombItProtocol (initialState ctx) (map (fun mp => (turn_move mp.1, otherParty mp.2)) ms) = Ok (half_turn s) /\
  winner (half_turn s) = option_map turn_winner (winner s) /\
  balances (half_turn s) = {| bal_a := bal_b (balances s); bal_b := bal_a (balances s) |}.
Proof.
  intros Hl Hb H. split_and!; [|done|done]. rewrite <- (half_turn_initial ctx Hb) at 1.
  by apply (run_turn (sum_of (initialBalances ctx))); [apply duel_initial|].
Qed.

Definition duel_ctx : ProtocolContext :=
  {| ctx_tunnelId := "0xabc"; initialBalances := {| bal_a := 5; bal_b := 5 |} |}.
Definition a_acts (a : BombItAction) : BombItMove * Party := ({| act_a := Some a; act_b := None |}, PartyA).
Definition b_acts (a : BombItAction) : BombItMove * Party := ({| act_a := None; act_b := Some a |}, PartyB).

(** A lays a bomb and does not get away. *)
Definition duel_moves : list (BombItMove * Party) :=
  [a_acts bomb; b_acts west; a_acts east; b_acts east; a_acts stay; b_acts bomb; a_acts stay; b_acts west].

Lemma duel_facts : exists s, run BombItProtocol (initialState duel_ctx) duel_moves = Ok s /\ winner s = Some (Won PartyB).
Proof.
  assert (H : match run BombItProtocol (initialState duel_ctx) duel_moves with
              | Ok s => match winner s with Some (Won PartyB) => true | _ => false end
              | Throw _ => false
              end = true) by (vm_compute; reflexivity).
  destruct (run BombItProtocol (initialState duel_ctx) duel_moves) as [s|e]; [|discriminate H].
  exists s. split; [reflexivity|]. destruct (winner s) as [[[]|]|]; done.
Qed.

Lemma duel_lockable : lockable (initialBalances duel_ctx).
Proof. unfold lockable, sum_of. simpl. rewrite U64_MAX_eq. lia. Qed.

Lemma bomb_it_fair_witness :
  exists s, run BombItProtocol (initialState duel_ctx) (map (fun mp => (turn_move mp.1, otherParty mp.2)) duel_moves) = Ok s /\
    winner s = Some (Won PartyA).
Proof.
  destruct duel_facts as (s & E & W).
  destruct (bomb_it_fair duel_ctx duel_moves s duel_lockable eq_refl E) as (Hr & Hw & _).
  exists (half_turn s). split; [exact Hr|]. rewrite Hw, W. reflexivity.
Defined.

Lemma bomb_it_ends_witness :
  exists s, run BombItProtocol (initialState duel_ctx) duel_moves = Ok s /\ tick s = 8 /\
    balances s = {| bal_a := 0; bal_b := 10 |}.
Proof.
  destruct duel_facts as (s & E & W).
  destruct (bomb_it_ends duel_ctx duel_moves s duel_lockable E) as (Ht & _ & _ & _ & Hw & _).
  exists s. split_and!; [exact E|exact Ht|]. destruct (Hw PartyB W) as (_ & _ & Hb). exact Hb.
Defined.

Lemma bomb_it_tick_witness :
  exists s s' ps bs, run BombItProtocol (initialState duel_ctx) [a_acts bomb] = Ok s /\
    applyMove s (a_acts east).1 PartyA = Ok s' /\
    applyAction (grid s) (players s) (bombs s) PartyA east = (ps, bs) /\
    tick_of (grid s) ps bs (grid s') (players s') (bombs s').
Proof.
  destruct (run BombItProtocol (initialState duel_ctx) [a_acts bomb]) as [s|e] eqn:E.
  2: { exfalso. apply (f_equal is_ok) in E. vm_compute in E. discriminate E. }
  destruct (run_ticks _ _ _ _ (duel_initial duel_ctx duel_lockable) E) as [Hok _].
  assert (Hterm : isTerminal s = false).
  { apply (f_equal (fun r => match r with Ok s => isTerminal s | Throw _ => true end)) in E.
    transitivity (match run BombItProtocol (initialState duel_ctx) [a_acts bomb] with Ok s => isTerminal s | Throw _ => true end);
      [symmetry; exact E|vm_compute; reflexivity]. }
  destruct (duel_apply_spec _ s (a_acts east).1 PartyA Hok eq_refl Hterm) as (_ & _ & s' & _ & Es & _).
  destruct (bomb_it_tick _ s (a_acts east).1 PartyA s' Hok Es) as (ps & bs & Ea & Ht & _).
  exists s, s', ps, bs. split_and!; [reflexivity|exact Es|exact Ea|exact Ht].
Defined.

Lemma bomb_it_well_formed_witness :
  exists s, run BombItProtocol (initialState duel_ctx) duel_moves = Ok s /\ arena_ok (grid s) (players s) (bombs s).
Proof.
  destruct duel_facts as (s & E & _). exists s. split; [exact E|].
  exact (proj2 (proj2 (bomb_it_well_formed duel_ctx duel_moves s duel_lockable E))).
Defined.
