(* ===== verification/BombItReplay.v ===== *)
(** Replaying bomb-it from the signed encodings: the encoding fixes the state but for the
    order of the bombs, and the order of the bombs does not matter. *)
From stdpp Require Import sets.
From S2P Require Import Prelude.
From S2P Require Import Bytes.
From S2P Require Import Wire.
From S2P Require Import Crypto.
From S2P Require Import Protocol.
From S2P Require Import Rng.
From S2P Require Import BombIt.
From S2P Require Import BombItBoard.
From S2P Require Import BombItGame.
From S2P Require Import BombItFair.

(** * States up to the order of the bombs *)

Record same_duel (s s' : BombItState) : Prop := {
  sd_tick : tick s = tick s';
  sd_seed : seed s = seed s';
  sd_grid : grid s = grid s';
  sd_players : players s = players s';
  sd_bombs : bombs s ≡ₚ bombs s';
  sd_winner : winner s = winner s';
  sd_a : balanceA s = balanceA s';
  sd_b : balanceB s = balanceB s';
  sd_total : total s = total s'
}.

#[export] Instance same_duel_equiv : Equivalence same_duel.
Proof.
  split.
  - by intros s.
  - intros s s' []. by split.
  - intros s1 s2 s3 [] []. split; etrans; eassumption.
Qed.

(** Results: both fail alike, or both succeed in related values. *)
Inductive same_result {A} (R : relation A) : relation (result A) :=
  | same_ok a b : R a b -> same_result R (Ok a) (Ok b)
  | same_throw e : same_result R (Throw e) (Throw e).

(** * The order of the bombs does not matter *)

#[export] Instance existsb_proper {A} (p : A -> bool) : Proper ((≡ₚ) ==> eq) (existsb p).
Proof.
  intros xs ys H. induction H as [|x xs ys _ IH|x y xs|xs ys zs _ IH1 _ IH2]; cbn; [done|by rewrite IH| |congruence].
  by rewrite !orb_assoc, (orb_comm (p y)).
Qed.

Lemma length_filter_perm {A} (p : A -> bool) xs ys :
  xs ≡ₚ ys -> length (List.filter p xs) = length (List.filter p ys).
Proof.
  induction 1 as [|x xs ys _ IH|x y xs|xs ys zs _ IH1 _ IH2]; cbn; [done| | |congruence].
  - destruct (p x); cbn; by rewrite ?IH.
  - by destruct (p x), (p y).
Qed.

#[export] Instance canMoveTo_proper g : Proper ((≡ₚ) ==> eq ==> eq ==> eq) (canMoveTo g).
Proof. intros bs bs' H o _ <- n _ <-. unfold canMoveTo. by rewrite H. Qed.

Lemma applyAction_proper g ps bs bs' i a :
  bs ≡ₚ bs' ->
  (applyAction g ps bs i a).1 = (applyAction g ps bs' i a).1 /\
  (applyAction g ps bs i a).2 ≡ₚ (applyAction g ps bs' i a).2.
Proof.
  intros H. unfold applyAction. destruct (_ || _); [done|]. destruct (bool_decide (a = bomb)).
  - rewrite (length_filter_perm _ _ _ H), H. destruct (_ && _); cbn; by rewrite ?H.
  - rewrite H. by destruct (canMoveTo _ _ _ _).
Qed.

Lemma detonates_perm g bs bs' i :
  bs ≡ₚ bs' -> detonates g bs i -> forall b j, bs !! i = Some b -> bs' !! j = Some b -> detonates g bs' j.
Proof.
  intros Hp. induction 1 as [i b0 Hb Hf|i b0 j0 c Hdet IH Hb Hc Hin]; intros b j Hi Hj.
  - rewrite Hi in Hb. injection Hb as ->. by eapply detonates_fuse.
  - rewrite Hi in Hc. injection Hc as ->.
    assert (Hb0 : b0 ∈ bs') by (rewrite <- Hp; by eapply list_elem_of_lookup_2).
    apply list_elem_of_lookup_1 in Hb0 as [k Hk]. eapply (detonates_chain g bs' k b0); eauto.
Qed.

Lemma burning_perm g bs bs' ci : bs ≡ₚ bs' -> burning g bs ci -> burning g bs' ci.
Proof.
  intros Hp (i & b & Hd & Hb & Hin). assert (Hb' : b ∈ bs') by (rewrite <- Hp; by eapply list_elem_of_lookup_2).
  apply list_elem_of_lookup_1 in Hb' as [k Hk]. exists k, b. split_and!; [|done..]. by eapply detonates_perm.
Qed.

Lemma survivors_perm g bs bs' det det' :
  bs ≡ₚ bs' -> NoDup (map b_pos bs) ->
  (forall i, i ∈ det <-> detonates g bs i) -> (forall i, i ∈ det' <-> detonates g bs' i) ->
  survivors bs det ≡ₚ survivors bs' det'.
Proof.
  intros Hp Hn Hd Hd'. assert (Hnd : NoDup bs) by by eapply NoDup_fmap_1.
  apply NoDup_Permutation.
  - by eapply sublist_NoDup, survivors_sublist.
  - eapply sublist_NoDup, survivors_sublist. by rewrite <- Hp.
  - intros b. rewrite !elem_survivors. setoid_rewrite Hd. setoid_rewrite Hd'. split; intros (i & Hb & Hnot).
    + assert (Hb' : b ∈ bs') by (rewrite <- Hp; by eapply list_elem_of_lookup_2).
      apply list_elem_of_lookup_1 in Hb' as [k Hk]. exists k. split; [done|]. intros Hdet. apply Hnot.
      by eapply (detonates_perm g bs' bs).
    + assert (Hb' : b ∈ bs) by (rewrite Hp; by eapply list_elem_of_lookup_2).
      apply list_elem_of_lookup_1 in Hb' as [k Hk]. exists k. split; [done|]. intros Hdet. apply Hnot.
      by eapply (detonates_perm g bs bs').
Qed.

Lemma resolve_perm g bs bs' g1 cells1 bs1 :
  bs ≡ₚ bs' -> NoDup (map b_pos bs) -> (forall b, b ∈ bs -> on_board (b_pos b) = true) ->
  Z.of_nat (length g) = CELL_COUNT -> resolveExplosions g bs = Ok (g1, cells1, bs1) ->
  exists cells2 bs2, resolveExplosions g bs' = Ok (g1, cells2, bs2) /\ bs1 ≡ₚ bs2 /\
    forall ci, ci ∈ cells1 <-> ci ∈ cells2.
Proof.
  intros Hp Hn Hb Hl H.
  destruct (resolve_spec g bs Hb Hl) as (det & cells & g' & E & Hdet & Hcells & Hlen & Hg' & _).
  destruct (resolve_spec g bs') as (det2 & cells2 & g2 & E2 & Hdet2 & Hcells2 & Hlen2 & Hg2 & _); [|done|].
  { intros b Hin. apply Hb. by rewrite Hp. }
  rewrite H in E. apply Ok_inj in E as [= -> -> ->].
  assert (Hc : forall ci, ci ∈ cells <-> ci ∈ cells2).
  { intros ci. rewrite Hcells, Hcells2. split; by apply burning_perm. }
  exists cells2, (survivors bs' det2). split_and!; [|by eapply survivors_perm|done].
  rewrite E2. do 3 f_equal. apply cell_ext; [congruence|]. intros i _. rewrite Hg', Hg2.
  by rewrite (set_has_ext cells2 cells i i) by (symmetry; apply Hc).
Qed.

Lemma hurt_ext cells cells' p : (forall ci, ci ∈ cells <-> ci ∈ cells') -> hurt cells p = hurt cells' p.
Proof. intros H. unfold hurt. by rewrite (set_has_ext cells cells' (idx (p_pos p)) (idx (p_pos p))) by apply H. Qed.

Lemma same_terminal s s' : same_duel s s' -> isTerminal s = isTerminal s'.
Proof. intros H. unfold isTerminal. by rewrite (sd_winner _ _ H). Qed.

Lemma arena_perm g ps bs bs' : bs ≡ₚ bs' -> arena_ok g ps bs -> arena_ok g ps bs'.
Proof.
  intros Hp [Hsh Hpl Hb Ho Hn Hal]. split; try done.
  - intros b Hin. apply Hb. by rewrite Hp.
  - by rewrite <- (fmap_Permutation owner _ _ Hp).
  - by rewrite <- (fmap_Permutation b_pos _ _ Hp).
Qed.

Lemma duel_same t s s' : same_duel s s' -> duel_ok t s -> duel_ok t s'.
Proof.
  destruct s, s'. intros [] []. cbn in *. subst. split; cbn; try done. by eapply arena_perm.
Qed.

(** Moves do not see the order of the bombs. *)
Lemma apply_same t s s' m i :
  duel_ok t s -> same_duel s s' -> same_result same_duel (applyMove s m i) (applyMove s' m i).
Proof.
  intros Hok Hs. pose proof (du_arena t s Hok) as Har. unfold applyMove. rewrite (same_terminal _ _ Hs).
  destruct Hs as [Ht Hsd Hg Hps Hbs Hw Ha Hb Htot]. rewrite <- Hg, <- Hps.
  destruct (isTerminal s'); [constructor|]. do 2 (destruct (party_eqb _ _ && _); [constructor|]).
  destruct (applyAction_proper (grid s) (players s) _ _ PartyA (own_action (act_a m)) Hbs) as [P1 B1].
  destruct (applyAction (grid s) (players s) (bombs s) PartyA _) as [ps1 bs1] eqn:E1.
  destruct (applyAction (grid s) (players s) (bombs s') PartyA _) as [ps1' bs1']. cbn in P1, B1. subst ps1'.
  apply applyAction_ok in E1; [|done].
  destruct (applyAction_proper (grid s) ps1 _ _ PartyB (own_action (act_b m)) B1) as [P2 B2].
  destruct (applyAction (grid s) ps1 bs1 PartyB _) as [ps2 bs2] eqn:E2.
  destruct (applyAction (grid s) ps1 bs1' PartyB _) as [ps2' bs2']. cbn in P2, B2. subst ps2'.
  apply applyAction_ok in E2; [|done].
  destruct (tick_arena _ _ _ E2) as (g' & cells & bs3 & Er & _). rewrite Er.
  destruct (resolve_perm (grid s) (map burn bs2) (map burn bs2') g' cells bs3) as (cells' & bs3' & -> & Hp & Hc).
  - by apply (fmap_Permutation burn).
  - rewrite map_burn by done. apply (ar_apart _ _ _ E2).
  - intros b (b0 & -> & Hin)%list_elem_of_fmap. by destruct (ar_bombs _ _ _ E2 b0 Hin) as [[? _] _].
  - apply gs_length, (ar_shape _ _ _ E2).
  - done.
  - cbn [rbind]. rewrite <- !(hurt_ext cells cells' _ Hc), Ht, Hsd, Ha, Hb, Htot.
    destruct (match verdict _ _ _ with Some _ => _ | None => _ end) as [a b]. constructor. by split.
Qed.

(** * The encoding *)

Definition player_bytes (p : BombItPlayer) : bytes :=
  be_bytes 8 (p_pos p).1 ++ be_bytes 8 (p_pos p).2 ++ [if alive p then 1 else 0].

Definition slot_bytes (b : option BombItBomb) (slot : Party) : bytes :=
  [match b with Some _ => 1 | None => 0 end] ++
  be_bytes 8 (match b with Some b => (b_pos b).1 | None => 0 end) ++
  be_bytes 8 (match b with Some b => (b_pos b).2 | None => 0 end) ++
  be_bytes 8 (match b with Some b => fuse b | None => 0 end) ++
  [match slot with PartyA => 0 | PartyB => 1 end].

Definition bomb_of (bs : list BombItBomb) (p : Party) : option BombItBomb :=
  List.find (fun x => party_eqb (owner x) p) bs.

Definition winner_byte (w : option BombItWinner) : Z :=
  match w with Some (Won PartyA) => 1 | Some (Won PartyB) => 2 | Some Drawn => 3 | None => 0 end.

Definition duel_bytes (s : BombItState) : bytes :=
  DOMAIN ++ be_bytes 8 (tick s) ++ be_bytes 8 (seed s) ++ be_bytes 8 (balanceA s) ++ be_bytes 8 (balanceB s) ++
  grid s ++ player_bytes (players s).1 ++ player_bytes (players s).2 ++
  slot_bytes (bomb_of (bombs s) PartyA) PartyA ++ slot_bytes (bomb_of (bombs s) PartyB) PartyB ++
  [winner_byte (winner s)].

Lemma bomb_of_spec bs p b : NoDup (map owner bs) -> bomb_of bs p = Some b <-> b ∈ bs /\ owner b = p.
Proof.
  intros Hn. unfold bomb_of. split.
  - intros [Hin Ho]%find_some. split; [by apply list_elem_of_In|by apply party_eqb_spec].
  - intros [Hin <-]. induction bs as [|c bs IH]; [by apply elem_of_nil in Hin|]. cbn [map List.find] in *.
    apply NoDup_cons in Hn as [Hni Hn]. destruct (party_eqb (owner c) (owner b)) eqn:E.
    + apply party_eqb_spec in E. apply elem_of_cons in Hin as [->|Hin]; [done|].
      destruct Hni. rewrite E. by apply (list_elem_of_fmap_2 owner).
    + apply IH; [done|]. apply elem_of_cons in Hin as [->|Hin]; [|done]. by rewrite party_eqb_refl in E.
Qed.

Lemma pos_u64 c : on_board c = true -> u64_range c.1 /\ u64_range c.2.
Proof. rewrite on_board_iff. unfold u64_range. rewrite U64_MAX_eq. lia. Qed.

Lemma encode_player_eq p : on_board (p_pos p) = true ->
  encode_player p = Ok [be_bytes 8 (p_pos p).1; be_bytes 8 (p_pos p).2; [if alive p then 1 else 0]].
Proof.
  intros [H1 H2]%pos_u64. unfold encode_player. rewrite !u64ToBeBytes_total by done. cbn [rbind].
  by destruct (alive p).
Qed.

Lemma encode_slot_eq bs p :
  NoDup (map owner bs) -> (forall b, b ∈ bs -> on_board (b_pos b) = true /\ 1 <= fuse b <= FUSE_TICKS) ->
  exists parts, encode_slot bs p = Ok parts /\ concat parts = slot_bytes (bomb_of bs p) p.
Proof.
  intros Hn Hb. unfold encode_slot. fold (bomb_of bs p). destruct (bomb_of bs p) as [b|] eqn:E.
  - apply bomb_of_spec in E as [Hin _]; [|done]. destruct (Hb b Hin) as [[H1 H2]%pos_u64 Hf].
    rewrite !u64ToBeBytes_total by (done || (unfold u64_range, FUSE_TICKS in *; rewrite U64_MAX_eq; lia)).
    eexists. split; [reflexivity|]. by destruct p.
  - rewrite !u64ToBeBytes_total by (unfold u64_range; rewrite U64_MAX_eq; lia).
    eexists. split; [reflexivity|]. by destruct p.
Qed.

Lemma encode_duel t s : t <= U64_MAX -> duel_ok t s -> encodeState s = Ok (duel_bytes s).
Proof.
  intros Ht [[_ Hp Hb Ho _ _] Htick Hseed _ _ (Ha & Hb0 & Hab) _]. unfold encodeState.
  destruct (encode_slot_eq (bombs s) PartyA Ho) as (p0 & -> & E0); [intros b Hin; destruct (Hb b Hin) as [[? _] ?]; done|].
  destruct (encode_slot_eq (bombs s) PartyB Ho) as (p1 & -> & E1); [intros b Hin; destruct (Hb b Hin) as [[? _] ?]; done|].
  rewrite (encode_player_eq (players s).1) by apply (Hp PartyA). rewrite (encode_player_eq (players s).2) by apply (Hp PartyB).
  rewrite U64_MAX_eq in Ht. unfold BOMB_IT_TICK_CAP, W32 in *.
  rewrite !u64ToBeBytes_total by (unfold u64_range; rewrite U64_MAX_eq; lia). cbn [rbind].
  rewrite concatBytes_concat, !concat_app, E0, E1. unfold duel_bytes, player_bytes. cbn [concat]. rewrite !app_nil_r, <- !app_assoc.
  replace (u8_from [match winner s with Some (Won PartyA) => 1 | Some (Won PartyB) => 2 | Some Drawn => 3 | None => 0 end])
    with [winner_byte (winner s)] by (by destruct (winner s) as [[[]|]|]).
  done.
Qed.

Lemma player_bytes_inj p q : on_board (p_pos p) = true -> on_board (p_pos q) = true ->
  player_bytes p = player_bytes q -> p = q.
Proof.
  intros [P1 P2]%pos_u64 [Q1 Q2]%pos_u64 H. unfold player_bytes in H.
  apply app_inj_length in H as [H1 H]; [|by rewrite !length_be_bytes].
  apply app_inj_length in H as [H2 H]; [|by rewrite !length_be_bytes].
  apply be_bytes_inj in H1, H2; [|done..]. destruct p as [[] []], q as [[] []]; cbn in *; simplify_eq; done.
Qed.

Lemma slot_bytes_inj (b c : option BombItBomb) p :
  (forall x, b = Some x \/ c = Some x -> on_board (b_pos x) = true /\ 1 <= fuse x <= FUSE_TICKS /\ owner x = p) ->
  slot_bytes b p = slot_bytes c p -> b = c.
Proof.
  intros Hx H. unfold slot_bytes in H. apply app_inj_length in H as [H0 H]; [|done].
  destruct b as [b|], c as [c|]; try done.
  destruct (Hx b (or_introl eq_refl)) as ([B1 B2]%pos_u64 & Bf & Bo).
  destruct (Hx c (or_intror eq_refl)) as ([C1 C2]%pos_u64 & Cf & Co).
  assert (Hf : forall f, 1 <= f <= FUSE_TICKS -> u64_range f) by (unfold u64_range, FUSE_TICKS; rewrite U64_MAX_eq; lia).
  apply app_inj_length in H as [H1 H]; [|by rewrite !length_be_bytes].
  apply app_inj_length in H as [H2 H]; [|by rewrite !length_be_bytes].
  apply app_inj_length in H as [H3 _]; [|by rewrite !length_be_bytes].
  apply be_bytes_inj in H1, H2, H3; auto. destruct b as [[] f o], c as [[] f' o']; cbn in *. by simplify_eq.
Qed.

Lemma length_slot_bytes b p : length (slot_bytes b p) = 26%nat.
Proof. unfold slot_bytes. by rewrite !length_app, !length_be_bytes. Qed.

Lemma length_player_bytes p : length (player_bytes p) = 17%nat.
Proof. unfold player_bytes. by rewrite !length_app, !length_be_bytes. Qed.

Lemma bombs_perm bs bs' :
  NoDup (map owner bs) -> NoDup (map owner bs') -> (forall p, bomb_of bs p = bomb_of bs' p) -> bs ≡ₚ bs'.
Proof.
  intros H H' He. apply NoDup_Permutation; [by eapply NoDup_fmap_1|by eapply NoDup_fmap_1|].
  intros b. pose proof (bomb_of_spec bs (owner b) b H). pose proof (bomb_of_spec bs' (owner b) b H').
  specialize (He (owner b)). rewrite He in *. naive_solver.
Qed.

Lemma duel_bytes_inj t s t' s' :
  t <= U64_MAX -> t' <= U64_MAX -> duel_ok t s -> duel_ok t' s' -> duel_bytes s = duel_bytes s' -> same_duel s s'.
Proof.
  rewrite U64_MAX_eq. intros Hu Hu' [[Sh Pl Bo Ow Ap _] Ti Se _ To (A1 & B1 & AB1) _] [[Sh' Pl' Bo' Ow' Ap' _] Ti' Se' _ To' (A2 & B2 & AB2) _] H.
  unfold duel_bytes in H. apply app_inj_length in H as [_ H]; [|done].
  do 4 (apply app_inj_length in H as [?H H]; [|by rewrite !length_be_bytes]).
  unfold BOMB_IT_TICK_CAP, W32 in *.
  repeat match goal with E : be_bytes 8 _ = be_bytes 8 _ |- _ =>
    apply be_bytes_inj in E; [|unfold u64_range; rewrite U64_MAX_eq; lia..] end.
  apply app_inj_length in H as [Hg H]; [|pose proof (gs_length _ Sh); pose proof (gs_length _ Sh'); lia].
  apply app_inj_length in H as [Hp1 H]; [|by rewrite !length_player_bytes].
  apply app_inj_length in H as [Hp2 H]; [|by rewrite !length_player_bytes].
  apply app_inj_length in H as [Hs1 H]; [|by rewrite !length_slot_bytes].
  apply app_inj_length in H as [Hs2 H]; [|by rewrite !length_slot_bytes].
  apply player_bytes_inj in Hp1; [|exact (proj1 (Pl PartyA))|exact (proj1 (Pl' PartyA))].
  apply player_bytes_inj in Hp2; [|exact (proj1 (Pl PartyB))|exact (proj1 (Pl' PartyB))].
  assert (Hs : forall p x, bomb_of (bombs s) p = Some x \/ bomb_of (bombs s') p = Some x ->
    on_board (b_pos x) = true /\ 1 <= fuse x <= FUSE_TICKS /\ owner x = p).
  { intros p x [[Hin <-]%bomb_of_spec|[Hin <-]%bomb_of_spec]; try done.
    - by destruct (Bo x Hin) as [[? _] ?].
    - by destruct (Bo' x Hin) as [[? _] ?]. }
  apply slot_bytes_inj in Hs1, Hs2; [|exact (Hs _)..].
  injection H as H. split; try done; try lia.
  - destruct (players s), (players s'); cbn in *; congruence.
  - apply bombs_perm; [done..|]. by intros [].
  - destruct (winner s) as [[[]|]|], (winner s') as [[[]|]|]; done.
Qed.

Lemma duel_bytes_same t s s' : duel_ok t s -> same_duel s s' -> duel_bytes s = duel_bytes s'.
Proof.
  intros Hok Hs. pose proof (ar_owners _ _ _ (du_arena _ _ Hok)) as Ho.
  pose proof (ar_owners _ _ _ (du_arena _ _ (duel_same _ _ _ Hs Hok))) as Ho'.
  destruct Hs as [Ht Hsd Hg Hps Hb Hw Ha Hbb _]. unfold duel_bytes. rewrite Ht, Hsd, Hg, Hps, Hw, Ha, Hbb.
  assert (He : forall p, bomb_of (bombs s) p = bomb_of (bombs s') p); [|by rewrite !He].
  intros p. apply option_eq. intros x. rewrite !bomb_of_spec by done. by rewrite Hb.
Qed.

(** The signed state is enough to go on: two states of duels with one encoding differ at
    most in the order in which the bombs are listed, take the same moves, and the
    states that follow have one encoding again. *)
Theorem bomb_it_replays t s t' s' b :
  t <= U64_MAX -> t' <= U64_MAX -> duel_ok t s -> duel_ok t' s' ->
  encodeState s = Ok b -> encodeState s' = Ok b ->
  same_duel s s' /\
  forall ms, match run BombItProtocol s ms, run BombItProtocol s' ms with
             | Ok s1, Ok s1' => same_duel s1 s1' /\ exists b1, encodeState s1 = Ok b1 /\ encodeState s1' = Ok b1
             | Throw e, Throw e' => e = e'
             | _, _ => False
             end.
Proof.
  intros Ht Ht' Hok Hok' E E'. rewrite (encode_duel t s) in E by done. rewrite (encode_duel t' s') in E' by done.
  apply Ok_inj in E, E'. assert (Hs : same_duel s s') by (eapply (duel_bytes_inj t s t' s'); congruence).
  split; [done|]. intros ms. clear E E' Hok'. revert s s' Hok Hs.
  induction ms as [|[m i] ms IH]; intros s s' Hok Hs; unfold run; cbn [rfold].
  - split; [done|]. exists (duel_bytes s). rewrite (encode_duel t s), (encode_duel t s') by (done || by eapply duel_same).
    split; [done|]. f_equal. symmetry. by eapply duel_bytes_same.
  - change (Protocol.applyMove BombItProtocol) with applyMove.
    destruct (applyMove s m i) as [s1|e] eqn:E1; pose proof (apply_same t s s' m i Hok Hs) as Ha; rewrite E1 in Ha;
      inversion Ha as [x s1' H1 E0 E2|x E0 E2]; subst; cbn [rbind]; [|done].
    apply IH; [|done]. by apply (duel_step t s m i).
Qed.

(** Two states that list the same two bombs in different orders. *)
Lemma replay_facts : exists s, run BombItProtocol (initialState duel_ctx) [a_acts bomb; b_acts bomb] = Ok s /\
  length (bombs s) = 2%nat.
Proof.
  assert (H : match run BombItProtocol (initialState duel_ctx) [a_acts bomb; b_acts bomb] with
              | Ok s => Nat.eqb (length (bombs s)) 2
              | Throw _ => false
              end = true) by (vm_compute; reflexivity).
  destruct (run BombItProtocol (initialState duel_ctx) [a_acts bomb; b_acts bomb]) as [s|e]; [|discriminate H].
  exists s. split; [done|]. by apply Nat.eqb_eq.
Qed.

Definition relisted (s : BombItState) : BombItState :=
  {| tick := tick s; seed := seed s; grid := grid s; players := players s; bombs := reverse (bombs s);
     winner := winner s; balanceA := balanceA s; balanceB := balanceB s; total := total s |}.

Lemma bomb_it_replays_witness :
  exists s b, run BombItProtocol (initialState duel_ctx) [a_acts bomb; b_acts bomb] = Ok s /\ length (bombs s) = 2%nat /\
    encodeState s = Ok b /\ encodeState (relisted s) = Ok b /\ same_duel s (relisted s).
Proof.
  destruct replay_facts as (s & E & Hl).
  destruct (run_ticks _ _ _ _ (duel_initial duel_ctx duel_lockable) E) as [Hok _].
  assert (Hs : same_duel s (relisted s)) by (split; try reflexivity; symmetry; apply reverse_Permutation).
  pose proof (duel_same _ _ _ Hs Hok) as Hok'.
  pose proof (proj2 (proj2 duel_lockable)) as Ht.
  pose proof (encode_duel _ _ Ht Hok) as E1. pose proof (encode_duel _ _ Ht Hok') as E2.
  rewrite <- (duel_bytes_same _ _ _ Hok Hs) in E2. exists s, (duel_bytes s).
  split_and!; [exact E|exact Hl|exact E1|exact E2|].
  exact (proj1 (bomb_it_replays _ s _ (relisted s) _ Ht Ht Hok Hok' E1 E2)).
Defined.
