(* ===== verification/BombItBot.v ===== *)
(** The self-play policy of bomb-it, [hunterAction] in
    [sui-tunnel-ts/src/protocol/bombIt.ts], with its two breadth-first searches.
    [rng] is the stream of draws, a draw [k] standing for [k / 2^32]. *)
From stdpp Require Import sets.
From S2P Require Import Prelude.
From S2P Require Import Bytes.
From S2P Require Import Protocol.
From S2P Require Import Rng.
From S2P Require Import BombIt.
From S2P Require Import BombItBoard.
From S2P Require Import BombItGame.
From S2P Require Import BombItFair.

(** [src protocol/bombIt.ts dangerCells] *)
Definition dangerCells (g : bytes) (bs : list BombItBomb) : list Z :=
  fold_left (fun d b => fold_left set_add (blastCellsFor g (b_pos b)) d) bs [].

Definition dirs : list BombItAction := [north; south; east; west].

(** [src protocol/bombIt.ts adjacentDanger] *)
Definition adjacentDanger (danger : list Z) : list Z :=
  fold_left (fun adj ci =>
    let c := (ci / GRID_W, ci mod GRID_W) in
    fold_left (fun adj d => let n := dest c d in if on_board n then set_add adj (idx n) else adj) dirs adj)
    danger [].

(** [src protocol/bombIt.ts manhattan] *)
Definition manhattan (a b : pos) : Z := Z.abs (a.1 - b.1) + Z.abs (a.2 - b.2).

Section Search.
Context {L : Type} (g : bytes) (bs : list BombItBomb) (other : BombItPlayer) (goal : Z -> bool).

(** The body of the searches' inner loop, for the cell [n] reached under the label
    [first]: the search is over with [inl], or goes on with the cells seen and the
    next frontier. *)
Definition visit (st : list Z * list (pos * L)) (n : pos) (first : L) : L + (list Z * list (pos * L)) :=
  let '(seen, next) := st in
  if set_has seen (idx n) || negb (canMoveTo g bs other n) then inr st
  else if goal (idx n) then inl first
  else inr (set_add seen (idx n), next ++ [(n, first)]).

(** A loop that may return from within. *)
Fixpoint visit_all (xs : list (pos * L)) (st : list Z * list (pos * L)) : L + (list Z * list (pos * L)) :=
  match xs with
  | [] => inr st
  | (n, first) :: xs' => match visit st n first with inl r => inl r | inr st' => visit_all xs' st' end
  end.

(** The neighbours of a frontier, in the order of the two nested loops. *)
Definition neighbours (frontier : list (pos * L)) : list (pos * L) :=
  concat (map (fun cl => map (fun d => (dest cl.1 d, cl.2)) dirs) frontier).

(** [for (let step = 0; step < n && frontier.length > 0; step++)]: level after level. *)
Fixpoint search (n : nat) (seen : list Z) (frontier : list (pos * L)) : option L :=
  match n, frontier with
  | O, _ | _, [] => None
  | S n', _ =>
    match visit_all (neighbours frontier) (seen, []) with
    | inl r => Some r
    | inr (seen', next) => search n' seen' next
    end
  end.

End Search.

(** [src protocol/bombIt.ts fleeStep]: the first loop is a level whose labels are the
    directions themselves. *)
Definition fleeStep (g : bytes) (bs : list BombItBomb) (self : pos) (other : BombItPlayer) (avoid : list Z)
    : option BombItAction :=
  if negb (set_has avoid (idx self)) then None
  else
    let goal ci := negb (set_has avoid ci) in
    match visit_all g bs other goal (map (fun d => (dest self d, d)) dirs) ([idx self], []) with
    | inl d => Some d
    | inr (seen, frontier) => search g bs other goal (Z.to_nat FUSE_TICKS) seen frontier
    end.

(** [src protocol/bombIt.ts canEscapeOwnBomb] *)
Definition canEscapeOwnBomb (g : bytes) (bs : list BombItBomb) (self : pos) (other : BombItPlayer)
    (danger : list Z) : bool :=
  let own := fold_left set_add (blastCellsFor g self) [] in
  let lethal ci := set_has own ci || set_has danger ci in
  let budget := Z.to_nat (Z.max 1 (FUSE_TICKS / 2 - 1)) in
  bool_decide (is_Some (search g bs other (fun ci => negb (lethal ci)) budget [idx self] [(self, tt)])).

(** [xs[Math.floor(rng() * xs.length)]] *)
Definition pick (k : Z) (xs : list BombItAction) : BombItAction :=
  nth (Z.to_nat (draw_index k (Z.of_nat (length xs)))) xs stay.

Definition nonempty {A} (xs : list A) : bool := match xs with [] => false | _ => true end.

(** [src protocol/bombIt.ts:463-472 hunterAction] *)
Definition crateInDir (g : bytes) (c : pos) (d : BombItAction) : bool :=
  let n := dest c d in on_board n && (cell g (idx n) =? CELL_CRATE).

(** [src protocol/bombIt.ts hunterAction]; [rng i] is the [i]-th draw of this call. *)
Definition hunterAction (s : BombItState) (by_ : Party) (rng : nat -> Z) : BombItAction :=
  let p := player (players s) by_ in
  let other := player (players s) (otherParty by_) in
  if negb (alive p) then stay
  else
    let c := p_pos p in
    let danger := dangerCells (grid s) (bombs s) in
    let near := adjacentDanger danger in
    let moves := List.filter (fun d => canMoveTo (grid s) (bombs s) other (dest c d)) dirs in
    let safe := List.filter (fun d => negb (set_has danger (idx (dest c d)))) moves in
    let safer := List.filter (fun d => negb (set_has near (idx (dest c d)))) safe in
    let here := idx c in
    if set_has danger here then
      match fleeStep (grid s) (bombs s) c other danger with
      | Some step => step
      | None =>
        if nonempty safer then pick (rng 0%nat) safer
        else if nonempty safe then pick (rng 0%nat) safe
        else if nonempty moves then pick (rng 0%nat) moves
        else stay
      end
    else if set_has near here && nonempty safer then pick (rng 0%nat) safer
    else
      let liveOwn := length (List.filter (fun b => party_eqb (owner b) by_) (bombs s)) in
      let hereBomb := existsb (fun b => pos_eqb (b_pos b) c) (bombs s) in
      let canBomb := (liveOwn <? MAX_BOMBS_PER_PLAYER)%nat && negb hereBomb in
      let escapes := canEscapeOwnBomb (grid s) (bombs s) c other danger in
      let dist := manhattan c (p_pos other) in
      let toward := List.filter (fun d => manhattan (dest c d) (p_pos other) <? dist) dirs in
      let towardSafe := List.filter (fun d => bool_decide (d ∈ safe)) toward in
      let inLine := alive other && ((c.1 =? (p_pos other).1) || (c.2 =? (p_pos other).2)) &&
                    (dist <=? Z.of_nat BLAST_RADIUS) in
      let attack := canBomb && inLine && escapes in
      let n1 := if attack then 1%nat else 0%nat in
      if attack && draw_below (rng 0%nat) 10 100 then bomb
      else
        let n2 := if nonempty towardSafe then S n1 else n1 in
        if nonempty towardSafe && draw_below (rng n1) 55 100 then pick (rng n2) towardSafe
        else
          let open := canBomb && negb (nonempty towardSafe) && existsb (crateInDir (grid s) c) toward && escapes in
          let n3 := if open then S n2 else n2 in
          if open && draw_below (rng n2) 14 100 then bomb
          else if nonempty safer then pick (rng n3) safer
          else if nonempty safe then pick (rng n3) safe
          else stay.

(** [src protocol/bombIt.ts BombItProtocol.randomMove] *)
Definition randomMove (s : BombItState) (by_ : Party) (rng : nat -> Z) : option BombItMove :=
  if isTerminal s then None
  else
    let action := hunterAction s by_ rng in
    Some (match by_ with
          | PartyA => {| act_a := Some action; act_b := None |}
          | PartyB => {| act_a := None; act_b := Some action |}
          end).

(** * The searches are breadth-first *)

Section SearchTheory.
Context {L : Type} (g : bytes) (bs : list BombItBomb) (other : BombItPlayer) (goal : Z -> bool).

Notation enter := (canMoveTo g bs other).

(** A walk of [n] steps over cells that can be entered. *)
Inductive walk (from : pos) : nat -> pos -> Prop :=
  | walk_here : walk from 0 from
  | walk_step n c d : walk from n c -> d ∈ dirs -> enter (dest c d) = true -> walk from (S n) (dest c d).

Lemma enter_on_board c : enter c = true -> on_board c = true.
Proof. intros H. by apply canMoveTo_spec in H as [H _]. Qed.

Lemma walk_on_board from n c : on_board from = true -> walk from n c -> on_board c = true.
Proof. intros Hf [|]; [done|by apply enter_on_board]. Qed.

(** One level. *)
Lemma visit_all_spec (xs : list (pos * L)) seen next :
  match visit_all g bs other goal xs (seen, next) with
  | inl l => exists n, (n, l) ∈ xs /\ enter n = true /\ idx n ∉ seen /\ goal (idx n) = true
  | inr (seen', next') =>
    (forall n l, (n, l) ∈ xs -> enter n = true -> idx n ∈ seen' /\ (idx n ∈ seen \/ goal (idx n) = false)) /\
    (forall x, x ∈ seen' -> x ∈ seen \/ exists n l, (n, l) ∈ next' /\ idx n = x /\ (n, l) ∈ xs /\ enter n = true) /\
    (forall x, x ∈ seen -> x ∈ seen') /\
    (forall nl, nl ∈ next' -> nl ∈ next \/ nl ∈ xs /\ enter nl.1 = true /\ idx nl.1 ∉ seen /\ goal (idx nl.1) = false) /\
    (forall nl, nl ∈ next -> nl ∈ next')
  end.
Proof.
  revert seen next; induction xs as [|[n l] xs IH]; intros seen next; cbn [visit_all].
  { split_and!; [by intros n l ?%elem_of_nil|by left|done|by left|done]. }
  unfold visit. destruct (set_has seen (idx n)) eqn:Es; cbn [orb].
  { apply set_has_spec in Es. specialize (IH seen next). destruct (visit_all _ _ _ _ xs _) as [l'|[seen' next']].
    - destruct IH as (n' & Hin & H). exists n'. split; [by right|done].
    - destruct IH as (H1 & H2 & H3 & H4 & H5). split_and!; [| |done| |done].
      + intros n' l' [[= -> ->]|Hin]%elem_of_cons He; [auto|by eapply H1].
      + intros x Hx. destruct (H2 x Hx) as [?|(n' & l' & ? & ? & ? & ?)]; [by left|]. right. exists n', l'.
        split_and!; try done. by right.
      + intros nl Hnl. destruct (H4 nl Hnl) as [?|[? ?]]; [by left|]. right. split; [by right|done]. }
  apply set_has_false in Es. destruct (enter n) eqn:Een; cbn [negb].
  2: { specialize (IH seen next). destruct (visit_all _ _ _ _ xs _) as [l'|[seen' next']].
    - destruct IH as (n' & Hin & H). exists n'. split; [by right|done].
    - destruct IH as (H1 & H2 & H3 & H4 & H5). split_and!; [| |done| |done].
      + intros n' l' [[= -> ->]|Hin]%elem_of_cons He; [congruence|by eapply H1].
      + intros x Hx. destruct (H2 x Hx) as [?|(n' & l' & ? & ? & ? & ?)]; [by left|]. right. exists n', l'.
        split_and!; try done. by right.
      + intros nl Hnl. destruct (H4 nl Hnl) as [?|[? ?]]; [by left|]. right. split; [by right|done]. }
  destruct (goal (idx n)) eqn:Eg.
  { exists n. split_and!; [by left|done..]. }
  specialize (IH (set_add seen (idx n)) (next ++ [(n, l)])). destruct (visit_all _ _ _ _ xs _) as [l'|[seen' next']].
  - destruct IH as (n' & Hin & He & Hs & Hg). exists n'. rewrite elem_set_add in Hs. split_and!; [by right|done|naive_solver|done].
  - destruct IH as (H1 & H2 & H3 & H4 & H5). setoid_rewrite elem_set_add in H1. setoid_rewrite elem_set_add in H2.
    setoid_rewrite elem_set_add in H3. setoid_rewrite elem_set_add in H4. setoid_rewrite elem_of_app in H4.
    setoid_rewrite elem_of_app in H5. setoid_rewrite list_elem_of_singleton in H4. setoid_rewrite list_elem_of_singleton in H5.
    split_and!.
    + intros n' l' [[= -> ->]|Hin]%elem_of_cons He; [split; [apply H3; by right|by right]|].
      destruct (H1 n' l' Hin He) as [? [[?| ->]|?]]; auto.
    + intros x Hx. destruct (H2 x Hx) as [[?| ->]|(n' & l' & ? & ? & ? & ?)]; [by left|right; exists n, l|right; exists n', l'].
      * split_and!; [apply H5; by right|done|by left|done].
      * split_and!; try done. by right.
    + intros x Hx. apply H3. by left.
    + intros nl Hnl. destruct (H4 nl Hnl) as [[?| ->]|(? & ? & ? & ?)]; [by left|right; split_and!; [by left|done..]|].
      right. split_and!; [by right|done|naive_solver|done].
    + intros nl Hnl. apply H5. by left.
Qed.

Context (from : pos) (Hfrom : on_board from = true) (P : pos -> L -> nat -> Prop).
Hypothesis P_step : forall c l n d, P c l n -> d ∈ dirs -> enter (dest c d) = true -> P (dest c d) l (S n).

(** Before level [k]: the cells seen are those within [k] steps, the frontier are those
    at [k] steps and no fewer, and no cell within [k] steps is a goal. *)
Record level (k : nat) (seen : list Z) (frontier : list (pos * L)) : Prop := {
  lv_seen : forall c, on_board c = true -> idx c ∈ seen <-> exists j, (j <= k)%nat /\ walk from j c;
  lv_frontier : forall c l, (c, l) ∈ frontier -> walk from k c /\ P c l k;
  lv_all : forall c, walk from k c -> (forall j, (j < k)%nat -> ~ walk from j c) -> exists l, (c, l) ∈ frontier;
  lv_goal : forall j c, (j <= k)%nat -> walk from j c -> goal (idx c) = false
}.

(** A cell first reached in [S k] steps has a neighbour first reached in [k]. *)
Lemma first_reached k c :
  walk from (S k) c -> (forall j, (j < S k)%nat -> ~ walk from j c) ->
  exists c' d, c = dest c' d /\ d ∈ dirs /\ enter c = true /\ walk from k c' /\ forall j, (j < k)%nat -> ~ walk from j c'.
Proof.
  intros Hw Hf. inversion Hw as [|n c' d Hw' Hd He]; subst. exists c', d. split_and!; try done.
  intros j Hj Hw2. apply (Hf (S j)); [lia|]. by constructor.
Qed.

Lemma elem_neighbours frontier n (l : L) :
  (n, l) ∈ neighbours frontier <-> exists c d, (c, l) ∈ frontier /\ d ∈ dirs /\ n = dest c d.
Proof.
  unfold neighbours. rewrite list_elem_of_In, in_concat. split.
  - intros (ys & ([c l'] & <- & Hc)%in_map_iff & (d & [= <- <-] & Hd)%in_map_iff). cbn. exists c, d.
    split_and!; [by apply list_elem_of_In..|done].
  - intros (c & d & Hc & Hd & ->). eexists. split; [apply in_map_iff; exists (c, l); split; [reflexivity|by apply list_elem_of_In]|].
    apply in_map_iff. exists d. split; [done|by apply list_elem_of_In].
Qed.

(** The cells seen are those within [k] steps, and none of them is a goal. *)
Definition explored (k : nat) (seen : list Z) : Prop :=
  (forall c, on_board c = true -> idx c ∈ seen <-> exists j, (j <= k)%nat /\ walk from j c) /\
  (forall j c, (j <= k)%nat -> walk from j c -> goal (idx c) = false).

(** The candidates of the next level: all the neighbours of the cells at [k] steps. *)
Definition candidates (k : nat) (xs : list (pos * L)) : Prop :=
  (forall n l, (n, l) ∈ xs -> enter n = true -> walk from (S k) n /\ P n l (S k)) /\
  (forall c d, walk from k c -> (forall j, (j < k)%nat -> ~ walk from j c) -> d ∈ dirs -> exists l, (dest c d, l) ∈ xs).

Lemma next_level k seen xs seen' next :
  explored k seen -> candidates k xs -> visit_all g bs other goal xs (seen, []) = inr (seen', next) ->
  level (S k) seen' next.
Proof.
  intros [Ls Lg] [Xw Xa] E. pose proof (visit_all_spec xs seen []) as H. rewrite E in H.
  destruct H as (H1 & H2 & H3 & H4 & _).
  assert (Hnew : forall c, walk from (S k) c -> (forall j, (j < S k)%nat -> ~ walk from j c) ->
    enter c = true /\ exists l, (c, l) ∈ xs).
  { intros c Hw Hf. destruct (first_reached k c Hw Hf) as (c' & d & -> & Hd & He & Hw' & Hf'). eauto. }
  assert (Hdec : forall c, on_board c = true -> {exists j, (j <= k)%nat /\ walk from j c} + {forall j, (j < S k)%nat -> ~ walk from j c}).
  { intros c Hc. destruct (decide (idx c ∈ seen)) as [Hin|Hin].
    - left. by apply Ls.
    - right. intros j Hj Hw. apply Hin, Ls; [done|]. exists j. split; [lia|done]. }
  assert (Hlast : forall j c, (j <= S k)%nat -> walk from j c -> (forall j, (j < S k)%nat -> ~ walk from j c) -> j = S k).
  { intros j c Hj Hw Hk. destruct (decide (j = S k)); [done|]. exfalso. apply (Hk j); [lia|done]. }
  split.
  - intros c Hc. split.
    + intros Hx. destruct (H2 _ Hx) as [Hs|(n & l & _ & Hi & Hin & He)].
      * apply Ls in Hs as (j & Hj & Hw); [|done]. exists j. split; [lia|done].
      * apply idx_inj in Hi as <-; [|by apply enter_on_board|done]. exists (S k). split; [lia|]. by eapply Xw.
    + intros (j & Hj & Hw). destruct (Hdec c Hc) as [Hk|Hk]; [apply H3, Ls; done|].
      pose proof (Hlast j c Hj Hw Hk) as ->. destruct (Hnew c Hw Hk) as [He [l Hl]]. by eapply H1.
  - intros c l Hin. destruct (H4 _ Hin) as [?%elem_of_nil|(Hn & He & _ & _)]; [done|]. by apply Xw.
  - intros c Hw Hf. destruct (Hnew c Hw Hf) as [He [l Hl]]. destruct (H1 c l Hl He) as [Hs _].
    assert (Hc : on_board c = true) by by apply enter_on_board.
    destruct (H2 _ Hs) as [Hs'|(n & l' & Hin & Hi & _ & He')].
    + apply Ls in Hs' as (j & Hj & Hw'); [|done]. destruct (Hf j); [lia|done].
    + apply idx_inj in Hi as ->; [|by apply enter_on_board|done]. by exists l'.
  - intros j c Hj Hw. assert (Hc : on_board c = true) by by eapply walk_on_board.
    destruct (Hdec c Hc) as [(j' & Hj' & Hw')|Hk]; [by apply (Lg j')|].
    pose proof (Hlast j c Hj Hw Hk) as ->. destruct (Hnew c Hw Hk) as [He [l Hl]].
    destruct (H1 c l Hl He) as [_ [Hs|?]]; [|done]. apply Ls in Hs as (j' & Hj' & Hw'); [|done]. by apply (Lg j').
Qed.

Lemma level_explored k seen frontier : level k seen frontier -> explored k seen.
Proof. by intros []. Qed.

Lemma level_candidates k seen frontier : level k seen frontier -> candidates k (neighbours frontier).
Proof.
  intros [_ Lf La _]. split.
  - intros n l (c & d & Hc & Hd & ->)%elem_neighbours He. destruct (Lf c l Hc) as [Hw HP].
    split; [by constructor|by apply P_step].
  - intros c d Hw Hf Hd. destruct (La c Hw Hf) as [l Hl]. exists l. apply elem_neighbours. eauto 10.
Qed.

(** With an empty frontier nothing new can be reached. *)
Lemma exhausted k seen : level k seen [] -> forall j c, walk from j c -> exists i, (i <= k)%nat /\ walk from i c.
Proof.
  intros Hk. pose proof (next_level k seen (neighbours []) seen [] (level_explored _ _ _ Hk) (level_candidates _ _ _ Hk) eq_refl) as Hk'. intros j. induction j as [|j IH]; intros c Hw.
  { exists 0%nat. split; [lia|done]. }
  inversion Hw as [|n c' d Hw' Hd He]; subst. destruct (IH c' Hw') as (i & Hi & Hwi).
  assert (Hc : on_board (dest c' d) = true) by by apply enter_on_board.
  apply (lv_seen _ _ _ Hk _ Hc), (lv_seen _ _ _ Hk' _ Hc). exists (S i). split; [lia|by constructor].
Qed.

(** A level that returns found the nearest goals. *)
Lemma found_level k seen xs l :
  candidates k xs -> visit_all g bs other goal xs (seen, []) = inl l ->
  exists c, walk from (S k) c /\ P c l (S k) /\ goal (idx c) = true.
Proof.
  intros [Xw _] E. pose proof (visit_all_spec xs seen []) as H. rewrite E in H.
  destruct H as (n & Hn & He & _ & Hg). destruct (Xw n l Hn He). eauto.
Qed.

(** The search returns the label of a nearest goal, or there is none within its levels. *)
Lemma search_spec n k seen frontier :
  level k seen frontier ->
  match search g bs other goal n seen frontier with
  | Some l => exists m c, (k < m <= k + n)%nat /\ walk from m c /\ P c l m /\ goal (idx c) = true /\
      forall j c', (j < m)%nat -> walk from j c' -> goal (idx c') = false
  | None => forall j c, (j <= k + n)%nat -> walk from j c -> goal (idx c) = false
  end.
Proof.
  revert k seen frontier; induction n as [|n IH]; intros k seen frontier Hk; cbn [search].
  { intros j c Hj. apply (lv_goal _ _ _ Hk). lia. }
  destruct frontier as [|cl frontier].
  { intros j c _ Hw. destruct (exhausted k seen Hk j c Hw) as (i & Hi & Hw'). by apply (lv_goal _ _ _ Hk i). }
  destruct (visit_all _ _ _ _ _ _) as [l|[seen' next]] eqn:E.
  - destruct (found_level k seen _ l (level_candidates _ _ _ Hk) E) as (c & Hw & HP & Hg). exists (S k), c. split_and!; try done; try lia.
    intros j c' Hj. apply (lv_goal _ _ _ Hk). lia.
  - pose proof (next_level k seen _ _ _ (level_explored _ _ _ Hk) (level_candidates _ _ _ Hk) E) as Hk'. specialize (IH (S k) seen' next Hk').
    destruct (search _ _ _ _ _ _ _) as [l|].
    + destruct IH as (m & c & Hm & H). exists m, c. split; [lia|done].
    + intros j c Hj. apply IH. lia.
Qed.

End SearchTheory.

(** Before the first level: the start alone. *)
Lemma level_zero {L} g bs other goal from (P : pos -> L -> nat -> Prop) l :
  on_board from = true -> goal (idx from) = false -> P from l 0%nat ->
  level g bs other goal from P 0 [idx from] [(from, l)].
Proof.
  intros Hf Hg HP. split.
  - intros c Hc. rewrite list_elem_of_singleton. split.
    + intros H%idx_inj; [|done..]. subst. exists 0%nat. split; [lia|constructor].
    + intros (j & Hj & Hw). assert (j = 0%nat) as -> by lia. by inversion Hw.
  - intros c l' [= -> ->]%list_elem_of_singleton. split; [constructor|done].
  - intros c Hw _. inversion Hw; subst. exists l. by left.
  - intros j c Hj Hw. assert (j = 0%nat) as -> by lia. by inversion Hw; subst.
Qed.

(** * The escape check *)

Lemma canEscape_spec g bs self other danger :
  on_board self = true ->
  canEscapeOwnBomb g bs self other danger = true <->
  exists m c, (m <= 3)%nat /\ walk g bs other self m c /\ idx c ∉ blastCellsFor g self /\ idx c ∉ danger.
Proof.
  intros Hs. unfold canEscapeOwnBomb. rewrite bool_decide_eq_true.
  set (goal := fun ci => negb (set_has (fold_left set_add (blastCellsFor g self) []) ci || set_has danger ci)).
  assert (Hgoal : forall ci, goal ci = true <-> ci ∉ blastCellsFor g self /\ ci ∉ danger).
  { intros ci. unfold goal. rewrite negb_true_iff, orb_false_iff, !set_has_false, elem_fold_set_add, elem_of_nil. naive_solver. }
  assert (Hself : goal (idx self) = false).
  { apply not_true_iff_false. rewrite Hgoal. intros [H _]. apply H. unfold blastCellsFor. by left. }
  pose proof (search_spec g bs other goal self Hs (fun _ (_ : unit) _ => True) (fun _ _ _ _ _ _ _ => I) 3 0 _ _
    (level_zero g bs other goal self (fun _ _ _ => True) tt Hs Hself I)) as H.
  change (Z.to_nat (Z.max 1 (FUSE_TICKS / 2 - 1))) with 3%nat.
  destruct (search g bs other goal 3 [idx self] [(self, tt)]) as [[]|].
  - split; [intros _|by eauto]. destruct H as (m & c & Hm & Hw & _ & Hg & _). apply Hgoal in Hg as [? ?].
    exists m, c. split_and!; try done. lia.
  - split; [by intros [? ?]|]. intros (m & c & Hm & Hw & Hnot). apply Hgoal in Hnot.
    rewrite (H m c) in Hnot; [done|lia|done].
Qed.

(** * The flight *)

(** The walk goes through the neighbour in direction [d] first. *)
Definition through (g : bytes) (bs : list BombItBomb) (other : BombItPlayer) (self : pos)
    (c : pos) (d : BombItAction) (n : nat) : Prop :=
  d ∈ dirs /\ canMoveTo g bs other (dest self d) = true /\ exists m, n = S m /\ walk g bs other (dest self d) m c.

Lemma walk_prepend g bs other self d m c :
  d ∈ dirs -> canMoveTo g bs other (dest self d) = true -> walk g bs other (dest self d) m c -> walk g bs other self (S m) c.
Proof.
  intros Hd He Hw. induction Hw as [|m c d' Hw IH Hd' He'].
  - constructor; [constructor|done|done].
  - by constructor.
Qed.

(** A fleeing player takes the first step of a shortest walk out of the cells to avoid,
    among the walks of at most nine steps. *)
Lemma fleeStep_spec g bs self other avoid :
  on_board self = true -> idx self ∈ avoid ->
  match fleeStep g bs self other avoid with
  | Some d => exists m c, (0 < m <= 9)%nat /\ through g bs other self c d m /\ idx c ∉ avoid /\
      forall j c', (j < m)%nat -> walk g bs other self j c' -> idx c' ∈ avoid
  | None => forall j c, (j <= 9)%nat -> walk g bs other self j c -> idx c ∈ avoid
  end.
Proof.
  intros Hs Hav. unfold fleeStep. rewrite (proj2 (set_has_spec avoid (idx self)) Hav). cbn [negb].
  set (goal := fun ci => negb (set_has avoid ci)).
  assert (Hgoal : forall ci, goal ci = true <-> ci ∉ avoid) by (intros ci; unfold goal; by rewrite negb_true_iff, set_has_false).
  assert (Hgoal' : forall ci, goal ci = false <-> ci ∈ avoid) by (intros ci; unfold goal; by rewrite negb_false_iff, set_has_spec).
  assert (Hself : goal (idx self) = false) by by apply Hgoal'.
  assert (Hstep : forall c (l : BombItAction) n d, through g bs other self c l n -> d ∈ dirs -> canMoveTo g bs other (dest c d) = true ->
    through g bs other self (dest c d) l (S n)).
  { intros c l n d (Hl & He & m & -> & Hw) Hd He'. split_and!; [done..|]. exists (S m). split; [done|]. by constructor. }
  assert (Hex : explored g bs other goal self 0 [idx self]).
  { apply (level_explored g bs other goal self (fun _ (_ : unit) _ => True) 0 _ [(self, tt)]). by apply level_zero. }
  assert (Hca : candidates g bs other self (through g bs other self) 0 (map (fun d => (dest self d, d)) dirs)).
  { split.
    - intros n l (d & [= -> ->] & Hd)%list_elem_of_fmap He. split; [by constructor; [constructor|..]|].
      split_and!; [done..|]. exists 0%nat. split; [done|constructor].
    - intros c d Hw _ Hd. inversion Hw; subst. exists d. apply list_elem_of_fmap. eauto. }
  destruct (visit_all _ _ _ _ _ _) as [d|[seen frontier]] eqn:E.
  - destruct (found_level g bs other goal self _ 0 _ _ d Hca E) as (c & Hw & HP & Hg). exists 1%nat, c.
    split_and!; [lia|lia|done|by apply Hgoal|]. intros j c' Hj Hw'. assert (j = 0%nat) as -> by lia. by inversion Hw'; subst.
  - pose proof (next_level g bs other goal self Hs _ 0 _ _ _ _ Hex Hca E) as Hl1.
    pose proof (search_spec g bs other goal self Hs _ Hstep 8 1 seen frontier Hl1) as H.
    change (Z.to_nat FUSE_TICKS) with 8%nat. destruct (search _ _ _ _ _ _ _) as [d|].
    + destruct H as (m & c & Hm & Hw & HP & Hg & Hno). exists m, c. split_and!; [lia|lia|done|by apply Hgoal|].
      intros j c' Hj Hw'. apply Hgoal'. by eapply Hno.
    + intros j c Hj Hw. apply Hgoal'. by apply (H j).
Qed.

(** * The policy *)

Lemma elem_dangerCells g bs ci : ci ∈ dangerCells g bs <-> exists b, b ∈ bs /\ ci ∈ blastCellsFor g (b_pos b).
Proof.
  unfold dangerCells. transitivity (ci ∈ (@nil Z) \/ exists b, b ∈ bs /\ ci ∈ blastCellsFor g (b_pos b)).
  - generalize (@nil Z) as acc. induction bs as [|b bs IH]; intros acc; cbn [fold_left].
    + split; [by left|]. intros [?|(b & ?%elem_of_nil & _)]; done.
    + rewrite IH, elem_fold_set_add. split.
      * intros [[?|?]|(b' & ? & ?)]; [by left|right; exists b; split; [by left|done]|right; exists b'; split; [by right|done]].
      * intros [?|(b' & [->|?]%elem_of_cons & ?)]; [by left; left|by left; right|right; eauto].
  - split; [by intros [?%elem_of_nil|]|by right].
Qed.

Lemma elem_filter {A} (p : A -> bool) xs x : x ∈ List.filter p xs <-> x ∈ xs /\ p x = true.
Proof. rewrite !list_elem_of_In. apply filter_In. Qed.

Lemma pick_elem k xs : 0 <= k < W32 -> nonempty xs = true -> pick k xs ∈ xs.
Proof.
  intros Hk Hx. destruct xs as [|x xs]; [done|]. apply list_elem_of_In. unfold pick. apply nth_In.
  pose proof (draw_index_range k (Z.of_nat (length (x :: xs))) ltac:(simpl; lia) Hk). lia.
Qed.

(** What the policy may do, as a relation between the situation and the action. *)
Inductive careful (s : BombItState) (i : Party) : BombItAction -> Prop :=
  | careful_stay : careful s i stay
  | careful_move d :
      d ∈ dirs -> canMoveTo (grid s) (bombs s) (player (players s) (otherParty i)) (dest (p_pos (player (players s) i)) d) = true ->
      (idx (p_pos (player (players s) i)) ∉ dangerCells (grid s) (bombs s) ->
       idx (dest (p_pos (player (players s) i)) d) ∉ dangerCells (grid s) (bombs s)) ->
      careful s i d
  | careful_bomb :
      idx (p_pos (player (players s) i)) ∉ dangerCells (grid s) (bombs s) ->
      (forall b, b ∈ bombs s -> owner b <> i) ->
      (exists m c, (m <= 3)%nat /\
        walk (grid s) (bombs s) (player (players s) (otherParty i)) (p_pos (player (players s) i)) m c /\
        idx c ∉ blastCellsFor (grid s) (p_pos (player (players s) i)) /\ idx c ∉ dangerCells (grid s) (bombs s)) ->
      careful s i bomb.

Section Policy.
Context (t : Z) (s : BombItState) (i : Party) (rng : nat -> Z).
Context (Hok : duel_ok t s) (Hrng : forall n, 0 <= rng n < W32).

Let p := p_pos (player (players s) i).
Let other := player (players s) (otherParty i).
Let danger := dangerCells (grid s) (bombs s).
Let moves := List.filter (fun d => canMoveTo (grid s) (bombs s) other (dest p d)) dirs.
Let safe := List.filter (fun d => negb (set_has danger (idx (dest p d)))) moves.

Lemma moves_spec d : d ∈ moves -> d ∈ dirs /\ canMoveTo (grid s) (bombs s) other (dest p d) = true.
Proof. intros H. by apply elem_filter in H. Qed.

Lemma careful_safe d : d ∈ safe -> careful s i d.
Proof.
  intros [[Hd Hm]%moves_spec Hs%negb_true_iff%set_has_false]%elem_filter. by apply careful_move.
Qed.

Lemma careful_pick k xs : 0 <= k < W32 -> nonempty xs = true -> (forall d, d ∈ xs -> d ∈ safe) -> careful s i (pick k xs).
Proof. intros Hk Hx H. by apply careful_safe, H, pick_elem. Qed.

Lemma p_on_board : on_board p = true.
Proof. exact (proj1 (ar_players _ _ _ (du_arena _ _ Hok) i)). Qed.

Lemma careful_flee d :
  idx p ∈ danger -> fleeStep (grid s) (bombs s) p other danger = Some d -> careful s i d.
Proof.
  intros Hin E. pose proof (fleeStep_spec (grid s) (bombs s) p other danger p_on_board Hin) as H. rewrite E in H.
  destruct H as (m & c & _ & (Hd & He & _) & _). by apply careful_move.
Qed.

Lemma careful_bombs :
  idx p ∉ danger ->
  (length (List.filter (fun b => party_eqb (owner b) i) (bombs s)) <? MAX_BOMBS_PER_PLAYER)%nat = true ->
  canEscapeOwnBomb (grid s) (bombs s) p other danger = true -> careful s i bomb.
Proof.
  intros Hin Hl He. apply canEscape_spec in He; [|exact p_on_board]. apply careful_bomb; [done| |done].
  intros b Hb Ho. apply Nat.ltb_lt in Hl. unfold MAX_BOMBS_PER_PLAYER in Hl.
  set (mine := List.filter (fun b => party_eqb (owner b) i) (bombs s)) in Hl.
  assert (Hin' : b ∈ mine) by (apply elem_filter; split; [done|by apply party_eqb_spec]).
  destruct mine; [by apply elem_of_nil in Hin'|simpl in Hl; lia].
Qed.

Lemma hunter_careful : careful s i (hunterAction s i rng).
Proof.
  unfold hunterAction. fold other p. destruct (alive _); cbn [negb]; [|constructor].
  fold danger. set (near := adjacentDanger danger). fold moves. fold safe.
  set (safer := List.filter _ safe).
  assert (Hsafer : forall d, d ∈ safer -> d ∈ safe) by (intros d Hd; by apply elem_filter in Hd as [? _]).
  destruct (set_has danger (idx p)) eqn:Ed.
  { apply set_has_spec in Ed. destruct (fleeStep _ _ _ _ _) as [d|] eqn:Ef; [by apply careful_flee|].
    destruct (nonempty safer) eqn:E1; [by apply careful_pick|].
    destruct (nonempty safe) eqn:E2; [by apply careful_pick|].
    destruct (nonempty moves) eqn:E3; [|constructor].
    destruct (moves_spec _ (pick_elem (rng 0) moves (Hrng _) E3)) as [? ?]. by apply careful_move. }
  apply set_has_false in Ed. destruct (set_has near (idx p) && nonempty safer) eqn:En.
  { apply andb_true_iff in En as [_ En]. by apply careful_pick. }
  set (toward := List.filter _ dirs). set (towardSafe := List.filter _ toward).
  assert (Hts : forall d, d ∈ towardSafe -> d ∈ safe) by (intros d Hd; apply elem_filter in Hd as [_ Hd]; by apply bool_decide_eq_true in Hd).
  destruct (_ && draw_below (rng 0%nat) 10 100) eqn:E1.
  { rewrite !andb_true_iff in E1. destruct E1 as [[[[El _] _] Ee] _]. by apply careful_bombs. }
  destruct (nonempty towardSafe && _) eqn:E2.
  { apply andb_true_iff in E2 as [E2 _]. by apply careful_pick. }
  destruct (_ && draw_below _ 14 100) eqn:E3.
  { rewrite !andb_true_iff in E3. destruct E3 as [[[[[El _] _] _] Ee] _]. by apply careful_bombs. }
  destruct (nonempty safer) eqn:E4; [by apply careful_pick|].
  destruct (nonempty safe) eqn:E5; [by apply careful_pick|constructor].
Qed.

End Policy.

Lemma hunter_flees t s i rng d :
  duel_ok t s -> isTerminal s = false -> idx (p_pos (player (players s) i)) ∈ dangerCells (grid s) (bombs s) ->
  fleeStep (grid s) (bombs s) (p_pos (player (players s) i)) (player (players s) (otherParty i))
    (dangerCells (grid s) (bombs s)) = Some d -> hunterAction s i rng = d.
Proof.
  intros Hok Hterm Hin Hf. unfold hunterAction. destruct (undecided t s Hok Hterm) as (Ha & Hb & _).
  replace (alive (player (players s) i)) with true by (by destruct i). cbn [negb].
  by rewrite (proj2 (set_has_spec _ _) Hin), Hf.
Qed.

(** The self-play policy, whatever its draws: in an undecided duel it has a move, which
    the protocol accepts.  It walks only over cells it can enter, never from a cell
    out of danger into one in danger; it lays a bomb only when out of danger, with no
    other bomb of its own, and with a walk of at most three steps to a cell that
    neither its bomb nor another will burn; and in danger it takes the first step of
    a shortest walk out of danger if nine steps are enough. *)
Theorem bomb_it_policy t s i rng :
  duel_ok t s -> isTerminal s = false -> (forall n, 0 <= rng n < W32) ->
  exists m s', randomMove s i rng = Some m /\ applyMove s m i = Ok s' /\ careful s i (action_of m i) /\
    (idx (p_pos (player (players s) i)) ∈ dangerCells (grid s) (bombs s) ->
     (exists n c, (n <= 9)%nat /\
        walk (grid s) (bombs s) (player (players s) (otherParty i)) (p_pos (player (players s) i)) n c /\
        idx c ∉ dangerCells (grid s) (bombs s)) ->
     exists n c, (n <= 9)%nat /\
       through (grid s) (bombs s) (player (players s) (otherParty i)) (p_pos (player (players s) i)) c (action_of m i) n /\
       idx c ∉ dangerCells (grid s) (bombs s) /\
       forall j c', (j < n)%nat ->
         walk (grid s) (bombs s) (player (players s) (otherParty i)) (p_pos (player (players s) i)) j c' ->
         idx c' ∈ dangerCells (grid s) (bombs s)).
Proof.
  intros Hok Hterm Hrng. unfold randomMove. rewrite Hterm.
  set (m := match i with PartyA => _ | PartyB => _ end).
  assert (Hown : own_move m i) by (by destruct i). assert (Hact : action_of m i = hunterAction s i rng) by (by destruct i).
  destruct (duel_apply_spec t s m i Hok Hown Hterm) as (_ & _ & s' & _ & E & _). exists m, s'. rewrite Hact.
  split_and!; [done|done|by eapply hunter_careful|]. intros Hin (n & c & Hn & Hw & Hc).
  pose proof (fleeStep_spec (grid s) (bombs s) (p_pos (player (players s) i)) (player (players s) (otherParty i))
    (dangerCells (grid s) (bombs s)) (p_on_board t s i Hok) Hin) as H.
  destruct (fleeStep _ _ _ _ _) as [d|] eqn:Ef; [|by destruct Hc; apply (H n c)].
  rewrite (hunter_flees t s i rng d Hok Hterm Hin Ef). destruct H as (n' & c' & Hn' & Ht & Hnc & Hmin).
  exists n', c'. split_and!; [lia|done..].
Qed.

(** A player on its own bomb walks away. *)
Lemma bot_facts : exists s, run BombItProtocol (initialState duel_ctx) [a_acts bomb] = Ok s /\
  isTerminal s = false /\ hunterAction s PartyA (fun _ => 0) = east.
Proof.
  assert (H : match run BombItProtocol (initialState duel_ctx) [a_acts bomb] with
              | Ok s => negb (isTerminal s) && bool_decide (hunterAction s PartyA (fun _ => 0) = east)
              | Throw _ => false
              end = true) by (vm_compute; reflexivity).
  destruct (run BombItProtocol (initialState duel_ctx) [a_acts bomb]) as [s|e]; [|discriminate H].
  apply andb_true_iff in H as [H1 H2]. apply negb_true_iff in H1. apply bool_decide_eq_true in H2. eauto.
Qed.

Lemma bomb_it_policy_witness :
  exists s m s', run BombItProtocol (initialState duel_ctx) [a_acts bomb] = Ok s /\
    randomMove s PartyA (fun _ => 0) = Some m /\ applyMove s m PartyA = Ok s'.
Proof.
  destruct bot_facts as (s & E & Hterm & _).
  destruct (run_ticks _ _ _ _ (duel_initial duel_ctx duel_lockable) E) as [Hok _].
  destruct (bomb_it_policy _ s PartyA (fun _ => 0) Hok Hterm (fun _ => conj (Z.le_refl 0) W32_pos)) as (m & s' & Em & Es & _).
  exists s, m, s'. split_and!; [exact E|exact Em|exact Es].
Defined.
