(* ===== verification/Float.v ===== *)
(** The JavaScript numbers that are not used as integers: IEEE 754 binary64, as the
    Standard Library specifies its operations, with the remainder [%] added. *)
From Stdlib Require Export SpecFloat.
From S2P Require Import Prelude.
From S2P Require Import Rng.

Definition number : Type := spec_float.

Definition f64_prec : Z := 53.
Definition f64_emax : Z := 1024.

(** [m * 2 ^ e], rounded to nearest, ties to even *)
Definition f_scaled (m e : Z) : number := binary_normalize f64_prec f64_emax m e false.
(** An integer as a number. *)
Definition f_int (z : Z) : number := f_scaled z 0.

Definition f_add : number -> number -> number := SFadd f64_prec f64_emax.
Definition f_sub : number -> number -> number := SFsub f64_prec f64_emax.
Definition f_mul : number -> number -> number := SFmul f64_prec f64_emax.
(** [x < y] and [x > y]; false when one of them is [NaN] *)
Definition f_lt : number -> number -> bool := SFltb.
Definition f_gt (x y : number) : bool := SFltb y x.

(** The literal [num / den]: the number nearest to the fraction. *)
Definition f_lit (num den : Z) : number := SFdiv f64_prec f64_emax (f_int num) (f_int den).

(** [rng()] for a draw [k]: [k / 2^32], exactly *)
Definition f_draw (k : Z) : number := f_scaled k (-32).

(** [x % y]: the exact remainder of the truncated division, with the sign of [x]. *)
Definition f_rem (x y : number) : number :=
  match x, y with
  | S754_nan, _ | _, S754_nan | S754_infinity _, _ | _, S754_zero _ => S754_nan
  | S754_zero _, _ | _, S754_infinity _ => x
  | S754_finite sx mx ex, S754_finite _ my ey =>
    let e := Z.min ex ey in
    let r := Z.shiftl (Zpos mx) (ex - e) mod Z.shiftl (Zpos my) (ey - e) in
    if r =? 0 then S754_zero sx else f_scaled (if sx then - r else r) e
  end.

(** Some values, computed by JavaScript: 0.1 + 0.2, -7.5 % 9, 5.25 % 0.1 *)
Example f_add_ex : f_add (f_lit 1 10) (f_lit 2 10) = f_scaled 5404319552844596 (-54).
Proof. vm_compute. reflexivity. Qed.

Example f_rem_ex : f_rem (f_lit (-15) 2) (f_int 9) = f_lit (-15) 2.
Proof. vm_compute. reflexivity. Qed.

Example f_rem_tenth : f_lt (f_rem (f_lit 21 4) (f_lit 1 10)) (f_lit 1 10) = true.
Proof. vm_compute. reflexivity. Qed.
