(* ===== verification/Cross.v ===== *)
(** The chicken-cross race, [sui-tunnel-ts/src/protocol/cross.ts]: two chickens hop over
    lanes of moving hazards; the pot is split by progress until one of them crosses. *)
From S2P Require Import Prelude.
From S2P Require Import Bytes.
From S2P Require Import Wire.
From S2P Require Import Crypto.
From S2P Require Import Protocol.
From S2P Require Import Rng.
From S2P Require Import Float.

(** [src protocol/cross.ts COLUMN_COUNT] *)
Definition COLUMN_COUNT : Z := 9.
(** [src protocol/cross.ts SPAWN_COL] *)
Definition SPAWN_COL : Z := 4.
(** [src protocol/cross.ts WIN_LANE] *)
Definition WIN_LANE : Z := 600.
(** [src protocol/cross.ts TICK_CAP] *)
Definition TICK_CAP : Z := 5400.
(** [src protocol/cross.ts RESPAWN_INVULN] *)
Definition RESPAWN_INVULN : Z := 3.
(** [src protocol/cross.ts MIN_STAKE] *)
Definition MIN_STAKE : Z := 1.

(** [src protocol/cross.ts CrossDir] *)
Inductive CrossDir := north | south | east | west.
(** [src protocol/cross.ts CrossLaneKind] *)
Inductive CrossLaneKind := grass | road | water | rails.
(** [src protocol/cross.ts HazardSpan] *)
Record HazardSpan := { center : number; half : number }.

(** [src protocol/cross.ts mod] *)
Definition f_mod (x m : number) : number := f_rem (f_add (f_rem x m) m) m.

(** [src protocol/cross.ts laneKind] *)
Definition laneKind (lane : Z) : CrossLaneKind :=
  if lane <? 2 then grass
  else
    let k := (lane - 2) mod 6 in
    if (k =? 0) || (k =? 1) then road
    else if k =? 2 then water
    else if k =? 3 then rails
    else grass.

(** [src protocol/cross.ts laneRng]: the stream of draws *)
Definition laneRng (seed lane : Z) : nat -> Z :=
  mulberry32 (Z.land (Z.lxor seed (lane * 0x9e3779b1)) 0xffffffff).

(** [src protocol/cross.ts:120-126 hazardsAt] one span: its speed is [base + rng() * spread],
    its phase is shifted by [shift]; the draws are those from [n] on. *)
Definition hazard (rng : nat -> Z) (n : nat) (base spread : number) (shift : Z) (half : number) (t : Z) : HazardSpan :=
  let speed := f_add base (f_mul (f_draw (rng n)) spread) in
  let dir := if draw_below (rng (S n)) 1 2 then f_int 1 else f_int (-1) in
  let phase := f_add (f_mul (f_draw (rng (S (S n)))) (f_int COLUMN_COUNT)) (f_int shift) in
  {| center := f_mod (f_add phase (f_mul (f_mul dir speed) (f_int t))) (f_int COLUMN_COUNT); half := half |}.

(** [src protocol/cross.ts hazardsAt] *)
Definition hazardsAt (seed lane tick : Z) : list HazardSpan :=
  let rng := laneRng seed lane in
  let t := Z.rem tick 1048576 in
  let count := if draw_below (rng 0%nat) 1 2 then 2%nat else 1%nat in
  match laneKind lane with
  | grass => []
  | road => map (fun i => hazard rng (1 + 3 * i) (f_lit 1 10) (f_lit 1 10) 0 (f_lit 9 10) t) (seq 0 count)
  | water => map (fun i => hazard rng (1 + 3 * i) (f_lit 6 100) (f_lit 5 100) (Z.of_nat i * 3) (f_lit 14 10) t) (seq 0 count)
  | rails => [hazard rng 0 (f_lit 2 10) (f_lit 15 100) 0 (f_int 3) t]
  end.

(** [src protocol/cross.ts spanCoversCol] *)
Definition spanCoversCol (span : HazardSpan) (col : Z) : bool :=
  let c := f_add (f_int col) (f_lit 1 2) in
  existsb (fun cc => f_gt cc (f_sub (center span) (half span)) && f_lt cc (f_add (center span) (half span)))
    [c; f_sub c (f_int COLUMN_COUNT); f_add c (f_int COLUMN_COUNT)].

(** [src protocol/cross.ts isLethal] *)
Definition isLethal (seed col lane tick : Z) : bool :=
  if lane <? 0 then true
  else
    let onHazard := existsb (fun s => spanCoversCol s col) (hazardsAt seed lane tick) in
    match laneKind lane with
    | grass => false
    | water => negb onHazard
    | road | rails => onHazard
    end.

(** [src protocol/cross.ts destOf] *)
Definition destOf (lane col : Z) (dir : CrossDir) : Z * Z :=
  match dir with
  | north => (lane + 1, col)
  | south => (Z.max 0 (lane - 1), col)
  | east => (lane, Z.min (COLUMN_COUNT - 1) (col + 1))
  | west => (lane, Z.max 0 (col - 1))
  end.

(** [src protocol/cross.ts CrossPlayer] *)
Record CrossPlayer := { lane : Z; col : Z; score : Z; invulnTicks : Z }.

(** [src protocol/cross.ts CrossState]; [players] are A and B. *)
Record CrossState := {
  tick : Z;
  seed : Z;
  players : CrossPlayer * CrossPlayer;
  winner : option Party;
  balanceA : Z;
  balanceB : Z;
  total : Z
}.

(** [src protocol/cross.ts CrossMove] *)
Record CrossMove := { dirA : option CrossDir; dirB : option CrossDir }.

(** [src protocol/cross.ts DOMAIN] *)
Definition DOMAIN : bytes := protocolDomain "cross.v1".

(** [src protocol/cross.ts spawnPlayer] *)
Definition spawnPlayer : CrossPlayer := {| lane := 0; col := SPAWN_COL; score := 0; invulnTicks := 0 |}.

(** [src protocol/cross.ts stepPlayer] *)
Definition stepPlayer (seed : Z) (p : CrossPlayer) (dir : option CrossDir) (tick : Z) : CrossPlayer :=
  if 0 <? invulnTicks p
  then {| lane := lane p; col := col p; score := score p; invulnTicks := invulnTicks p - 1 |}
  else
    let '(ln, cl) :=
      match dir with
      | Some d => let '(nl, nc) := destOf (lane p) (col p) d in
                  if negb (isLethal seed nc nl tick) then (nl, nc) else (lane p, col p)
      | None => (lane p, col p)
      end in
    let sc := Z.max (score p) ln in
    if isLethal seed cl ln tick
    then {| lane := 0; col := SPAWN_COL; score := sc; invulnTicks := RESPAWN_INVULN |}
    else {| lane := ln; col := cl; score := sc; invulnTicks := 0 |}.

Definition player (ps : CrossPlayer * CrossPlayer) (i : Party) : CrossPlayer :=
  match i with PartyA => ps.1 | PartyB => ps.2 end.

(** [src protocol/cross.ts greedyDir]; [k] is the draw of [rng()]. *)
Definition greedyDir (s : CrossState) (i : Party) (k : Z) : option CrossDir :=
  let p := player (players s) i in
  if 0 <? invulnTicks p then None
  else
    let tick := tick s + 1 in
    let near := match i with PartyA => east | PartyB => west end in
    let far := match i with PartyA => west | PartyB => east end in
    let order := if draw_below k 8 10 then [north; near; far] else [north; far; near] in
    let survives d := let '(nl, nc) := destOf (lane p) (col p) d in negb (isLethal (seed s) nc nl tick) in
    match List.find survives order with
    | Some d => Some d
    | None => if survives south then Some south else None
    end.

(** [src protocol/cross.ts settleShare] *)
Definition settleShare (total scoreA scoreB distance : Z) : Z :=
  let lead := Z.max (- distance) (Z.min distance (scoreA - scoreB)) in
  Z.quot (total * (distance + lead)) (2 * distance).

(** [src protocol/cross.ts CrossProtocol.initialState] *)
Definition initialState (ctx : ProtocolContext) : CrossState :=
  {| tick := 0; seed := seedFromTunnelId (ctx_tunnelId ctx); players := (spawnPlayer, spawnPlayer); winner := None;
     balanceA := bal_a (initialBalances ctx); balanceB := bal_b (initialBalances ctx);
     total := bal_a (initialBalances ctx) + bal_b (initialBalances ctx) |}.

(** [src protocol/cross.ts CrossProtocol.isTerminal] *)
Definition isTerminal (s : CrossState) : bool :=
  match winner s with Some _ => true | None => TICK_CAP <=? tick s end.

(** [src protocol/cross.ts:374-376 CrossProtocol.applyMove] the higher score, if any *)
Definition leader (ps : CrossPlayer * CrossPlayer) : option Party :=
  if score ps.2 <? score ps.1 then Some PartyA
  else if score ps.1 <? score ps.2 then Some PartyB
  else None.

(** [src protocol/cross.ts:361-377 CrossProtocol.applyMove] *)
Definition raceWinner (ps : CrossPlayer * CrossPlayer) (tick : Z) : option Party :=
  let aWon := WIN_LANE <=? lane ps.1 in
  let bWon := WIN_LANE <=? lane ps.2 in
  if aWon && bWon then leader ps
  else if aWon then Some PartyA
  else if bWon then Some PartyB
  else if TICK_CAP <=? tick then leader ps
  else None.

(** [src protocol/cross.ts CrossProtocol.applyMove] *)
Definition applyMove (state : CrossState) (move : CrossMove) (by_ : Party) : result CrossState :=
  throw_if isTerminal state with Error "game over: the race is already decided" ;
  throw_if party_eqb by_ PartyA && bool_decide (is_Some (dirB move)) with Error "A cannot submit B's direction" ;
  throw_if party_eqb by_ PartyB && bool_decide (is_Some (dirA move)) with Error "B cannot submit A's direction" ;
  let tick := tick state + 1 in
  let ps := (stepPlayer (seed state) (players state).1 (dirA move) tick,
             stepPlayer (seed state) (players state).2 (dirB move) tick) in
  let w := raceWinner ps tick in
  let '(a, b) := match w with
                 | Some PartyA => (total state, 0)
                 | Some PartyB => (0, total state)
                 | None => let a := settleShare (total state) (score ps.1) (score ps.2) WIN_LANE in (a, total state - a)
                 end in
  Ok {| tick := tick; seed := seed state; players := ps; winner := w; balanceA := a; balanceB := b; total := total state |}.

(** [src protocol/cross.ts:405-412 CrossProtocol.encodeState] *)
Definition encode_player (p : CrossPlayer) : result (list bytes) :=
  let! l := u64ToBeBytes (lane p) in
  let! c := u64ToBeBytes (col p) in
  let! s := u64ToBeBytes (score p) in
  let! i := u64ToBeBytes (invulnTicks p) in
  Ok [l; c; s; i].

(** [src protocol/cross.ts CrossProtocol.encodeState] *)
Definition encodeState (s : CrossState) : result bytes :=
  let! t := u64ToBeBytes (tick s) in
  let! sd := u64ToBeBytes (seed s) in
  let! a := u64ToBeBytes (balanceA s) in
  let! b := u64ToBeBytes (balanceB s) in
  let! pa := encode_player (players s).1 in
  let! pb := encode_player (players s).2 in
  let w := match winner s with Some PartyA => 1 | Some PartyB => 2 | None => 0 end in
  concatBytes ([DOMAIN; t; sd; a; b] ++ pa ++ pb ++ [u8_from [w]]).

(** [src protocol/cross.ts CrossProtocol.balances] *)
Definition balances (s : CrossState) : Balances := {| bal_a := balanceA s; bal_b := balanceB s |}.

(** [src protocol/cross.ts CrossProtocol.randomMove] *)
Definition randomMove (s : CrossState) (by_ : Party) (k : Z) : option CrossMove :=
  if isTerminal s then None
  else Some (match by_ with
             | PartyA => {| dirA := greedyDir s PartyA k; dirB := None |}
             | PartyB => {| dirA := None; dirB := greedyDir s PartyB k |}
             end).

(** [src protocol/cross.ts:331-332 CrossProtocol] *)
Definition CrossProtocol : Protocol CrossState CrossMove :=
  {| movesCarrySecrets := false;
     Protocol.initialState := fun ctx => Ok (initialState ctx);
     Protocol.applyMove := applyMove;
     Protocol.encodeState := encodeState;
     Protocol.balances := balances;
     Protocol.isTerminal := isTerminal |}.
