(* ===== verification/CrossGame.v ===== *)
(** The chicken-cross race: its invariant and the laws of the protocol interface, the
    settlement by progress, the seat's bot, and the encoding. *)
From S2P Require Import Prelude.
From S2P Require Import Bytes.
From S2P Require Import Wire.
From S2P Require Import Crypto.
From S2P Require Import Protocol.
From S2P Require Import Rng.
From S2P Require Import Cross.

(** * The settlement by progress *)

Lemma settleShare_div t a b : 0 <= t ->
  settleShare t a b WIN_LANE = t * (WIN_LANE + Z.max (- WIN_LANE) (Z.min WIN_LANE (a - b))) / (2 * WIN_LANE).
Proof. intros Ht. unfold settleShare, WIN_LANE. apply Z.quot_div_nonneg; nia. Qed.

Lemma share_range t a b : 0 <= t -> 0 <= settleShare t a b WIN_LANE <= t.
Proof.
  intros Ht. rewrite settleShare_div by done. unfold WIN_LANE. split.
  - apply Z.div_pos; nia.
  - apply Z.div_le_upper_bound; nia.
Qed.

Lemma share_mono t a b a' b' : 0 <= t -> a <= a' -> b' <= b ->
  settleShare t a b WIN_LANE <= settleShare t a' b' WIN_LANE.
Proof. intros Ht Ha Hb. rewrite !settleShare_div by done. unfold WIN_LANE. apply Z.div_le_mono; nia. Qed.

(** The share of a pot: it lies within the pot, a chicken's share grows with its own
    progress and shrinks with the other's, level chickens halve the pot, a lead of
    the whole race takes it, and exchanging the chickens exchanges the shares up to
    the one unit that is rounded in B's favour. *)
Theorem settle_share_fair t :
  0 <= t ->
  (forall a b, 0 <= settleShare t a b WIN_LANE <= t) /\
  (forall a a' b b', a <= a' -> b' <= b -> settleShare t a b WIN_LANE <= settleShare t a' b' WIN_LANE) /\
  (forall a, settleShare t a a WIN_LANE = t / 2) /\
  (forall a b, WIN_LANE <= a - b -> settleShare t a b WIN_LANE = t /\ settleShare t b a WIN_LANE = 0) /\
  (forall a b, t - 1 <= settleShare t a b WIN_LANE + settleShare t b a WIN_LANE <= t).
Proof.
  intros Ht. split_and!.
  - intros a b. by apply share_range.
  - intros a a' b b' Ha Hb. by apply share_mono.
  - intros a. rewrite settleShare_div, Z.sub_diag by done. unfold WIN_LANE.
    rewrite Z.min_r, Z.max_r by lia. by rewrite <- (Z.div_mul_cancel_r t 2 600) by lia.
  - intros a b Hab. rewrite !settleShare_div by done. unfold WIN_LANE in *. split.
    + rewrite Z.min_l, Z.max_r by lia. by rewrite Z.div_mul by lia.
    + rewrite Z.min_r, Z.max_l by lia. by rewrite Z.mul_0_r.
  - intros a b. rewrite !settleShare_div by done. unfold WIN_LANE.
    change (- (600)) with (-600). change (2 * 600) with 1200. set (l := Z.max (-600) (Z.min 600 (a - b))).
    replace (Z.max (-600) (Z.min 600 (b - a))) with (- l) by lia.
    replace (t * (600 + l)) with (600 * t + t * l) by lia. replace (t * (600 + - l)) with (600 * t - t * l) by lia.
    generalize (t * l) as m. intros m. zdiv_lia.
Qed.

(** * The invariant *)

Record chicken_ok (seed tick : Z) (p : CrossPlayer) : Prop := {
  ch_lane : 0 <= lane p <= score p;
  ch_score : score p <= WIN_LANE;
  ch_col : 0 <= col p < COLUMN_COUNT;
  ch_invuln : 0 <= invulnTicks p <= RESPAWN_INVULN;
  ch_spawned : 0 < invulnTicks p -> lane p = 0 /\ col p = SPAWN_COL;
  ch_alive : isLethal seed (col p) (lane p) tick = false
}.

Record race_ok (t : Z) (s : CrossState) : Prop := {
  ra_players : forall i, chicken_ok (seed s) (tick s) (player (players s) i);
  ra_tick : 0 <= tick s <= TICK_CAP;
  ra_seed : 0 <= seed s < W32;
  ra_total : total s = t;
  ra_balances : 0 <= balanceA s /\ 0 <= balanceB s /\ balanceA s + balanceB s = t;
  ra_running : winner s = None -> score (players s).1 < WIN_LANE /\ score (players s).2 < WIN_LANE;
  ra_paid : match winner s with
            | Some p => score (player (players s) (otherParty p)) < score (player (players s) p) /\
                balances s = match p with PartyA => {| bal_a := t; bal_b := 0 |} | PartyB => {| bal_a := 0; bal_b := t |} end
            | None => 0 < tick s -> balanceA s = settleShare t (score (players s).1) (score (players s).2) WIN_LANE
            end
}.

Lemma spawn_safe sd t : isLethal sd SPAWN_COL 0 t = false.
Proof. reflexivity. Qed.

Lemma race_fresh ctx :
  0 <= bal_a (initialBalances ctx) -> 0 <= bal_b (initialBalances ctx) ->
  race_ok (sum_of (initialBalances ctx)) (initialState ctx).
Proof.
  intros Ha Hb. split; cbn [initialState players tick seed winner balanceA balanceB total fst snd]; try done.
  - intros []; cbn [player fst snd]; by split.
  - apply seedFromTunnelId_range.
Qed.

Lemma race_initial ctx :
  lockable (initialBalances ctx) -> race_ok (sum_of (initialBalances ctx)) (initialState ctx).
Proof. intros (? & ? & _). by apply race_fresh. Qed.

Lemma destOf_col ln cl d : 0 <= cl < COLUMN_COUNT -> 0 <= (destOf ln cl d).2 < COLUMN_COUNT.
Proof. unfold COLUMN_COUNT. destruct d; cbn; unfold COLUMN_COUNT; lia. Qed.

Lemma destOf_lane ln cl d : 0 <= ln -> 0 <= (destOf ln cl d).1 <= ln + 1.
Proof. destruct d; cbn; lia. Qed.

(** One chicken, one tick: it ends on a cell that does not kill it, at most a lane
    further, and its score keeps the furthest lane. *)
Lemma stepPlayer_ok sd p d t :
  chicken_ok sd t p -> score p < WIN_LANE ->
  let p' := stepPlayer sd p d (t + 1) in
  chicken_ok sd (t + 1) p' /\ score p' = Z.max (score p) (lane p') /\ (d = None -> lane p' <= lane p).
Proof.
  intros [Hl _ Hc Hi Hsp _] Hw. unfold stepPlayer, WIN_LANE in *. destruct (Z.ltb_spec 0 (invulnTicks p)) as [Hp|Hp].
  - destruct (Hsp Hp) as [El Ec]. split; [split|]; cbn; rewrite ?El, ?Ec; unfold WIN_LANE; try lia; done.
  - set (q := match d with Some _ => _ | None => _ end).
    assert (Hq : 0 <= q.1 <= lane p + 1 /\ 0 <= q.2 < COLUMN_COUNT /\ (d = None -> q = (lane p, col p)) /\
      (q = (lane p, col p) \/ isLethal sd q.2 q.1 (t + 1) = false)).
    { unfold q. destruct d as [d|]; [|split_and!; cbn; try lia; auto].
      destruct (destOf (lane p) (col p) d) as [nl nc] eqn:E.
      pose proof (destOf_lane (lane p) (col p) d ltac:(lia)) as H1. pose proof (destOf_col (lane p) (col p) d Hc) as H2.
      rewrite E in H1, H2. cbn in H1, H2. destruct (isLethal _ _ _ _) eqn:El; cbn; split_and!; try lia; auto; done. }
    destruct q as [ln cl]. cbn [fst snd] in Hq. destruct Hq as (H1 & H2 & H3 & H4).
    destruct (isLethal sd cl ln (t + 1)) eqn:El.
    + destruct H4 as [[= -> ->]|?]; [|done]. split; [split|]; cbn;
        unfold WIN_LANE, COLUMN_COUNT, SPAWN_COL, RESPAWN_INVULN; try lia; done.
    + split; [split|]; cbn; unfold WIN_LANE; try lia; try done.
      split; [done|]. intros H. apply H3 in H. injection H as -> ->. lia.
Qed.

Lemma race_apply_inv s m i s' :
  applyMove s m i = Ok s' ->
  isTerminal s = false /\ (match i with PartyA => dirB m | PartyB => dirA m end) = None /\
  tick s' = tick s + 1 /\ seed s' = seed s /\ total s' = total s /\
  players s' = (stepPlayer (seed s) (players s).1 (dirA m) (tick s + 1), stepPlayer (seed s) (players s).2 (dirB m) (tick s + 1)) /\
  winner s' = raceWinner (players s') (tick s') /\
  (balanceA s', balanceB s') = match winner s' with
    | Some PartyA => (total s, 0)
    | Some PartyB => (0, total s)
    | None => let a := settleShare (total s) (score (players s').1) (score (players s').2) WIN_LANE in (a, total s - a)
    end.
Proof.
  unfold applyMove. destruct (isTerminal s); [done|]. destruct (_ && _) eqn:E1; [done|]. destruct (party_eqb i PartyB && _) eqn:E2; [done|].
  destruct (raceWinner _ _) as [[]|] eqn:Ew; intros H; apply Ok_inj in H as <-; cbn [tick seed total players winner balanceA balanceB];
    rewrite Ew; split_and!; try done; destruct i, m as [[] []]; done.
Qed.

(** Both chickens after an accepted move. *)
Lemma apply_players t s m i s' :
  race_ok t s -> applyMove s m i = Ok s' ->
  (forall j, chicken_ok (seed s') (tick s') (player (players s') j) /\
     score (player (players s') j) = Z.max (score (player (players s) j)) (lane (player (players s') j))) /\
  score (player (players s') (otherParty i)) = score (player (players s) (otherParty i)) /\
  score (player (players s) i) < WIN_LANE /\ score (player (players s) (otherParty i)) < WIN_LANE.
Proof.
  intros Hok H. apply race_apply_inv in H as (Hterm & Hd & Ht & Hsd & _ & Hps & _).
  assert (Hw : winner s = None) by (unfold isTerminal in Hterm; by destruct (winner s)).
  destruct (ra_running _ _ Hok Hw) as [H1 H2]. pose proof (ra_players _ _ Hok) as Hp.
  destruct (stepPlayer_ok _ _ (dirA m) _ (Hp PartyA) H1) as (Ca & Sa & Na).
  destruct (stepPlayer_ok _ _ (dirB m) _ (Hp PartyB) H2) as (Cb & Sb & Nb).
  pose proof (ch_lane _ _ _ (Hp PartyA)). pose proof (ch_lane _ _ _ (Hp PartyB)).
  rewrite Hps, Ht, Hsd. cbn [player fst snd] in *. split_and!; [by intros []|..];
    destruct i; cbn [otherParty player fst snd] in *; try done; [specialize (Nb Hd)|specialize (Na Hd)]; lia.
Qed.

(** Only the seat that moves can reach the finish: the tie-break for two chickens that
    arrive together is never used. *)
Lemma one_arrival t s m i s' :
  race_ok t s -> applyMove s m i = Ok s' -> lane (player (players s') (otherParty i)) < WIN_LANE.
Proof.
  intros Hok H. destruct (apply_players t s m i s' Hok H) as (Hp & Hs & _ & Hlt).
  destruct (Hp (otherParty i)) as [[Hl _ _ _ _ _] _]. lia.
Qed.

(** The winner of a race is ahead; while there is none nobody has arrived. *)
Lemma winner_ahead t s m i s' :
  race_ok t s -> applyMove s m i = Ok s' ->
  match winner s' with
  | Some p => score (player (players s') (otherParty p)) < score (player (players s') p)
  | None => score (players s').1 < WIN_LANE /\ score (players s').2 < WIN_LANE
  end.
Proof.
  intros Hok H. pose proof (one_arrival t s m i s' Hok H) as H1. destruct (apply_players t s m i s' Hok H) as (Hp & Hs & Hi & Ho).
  apply race_apply_inv in H as (_ & _ & _ & _ & _ & _ & Hw & _). destruct (Hp PartyA) as [Ca Ea], (Hp PartyB) as [Cb Eb].
  pose proof (ch_lane _ _ _ Ca). pose proof (ch_lane _ _ _ Cb). cbn [player] in *.
  rewrite Hw. unfold raceWinner, leader.
  destruct i; cbn [otherParty player] in *;
    destruct (Z.leb_spec WIN_LANE (lane (players s').1)), (Z.leb_spec WIN_LANE (lane (players s').2)); cbn [andb]; try lia;
    cbn [otherParty player]; try lia; destruct (_ <=? _);
    repeat match goal with |- context [Z.ltb ?a ?b] => destruct (Z.ltb_spec a b) end; cbn [otherParty player]; lia.
Qed.

Lemma race_step t s m i s' :
  0 <= t -> race_ok t s -> applyMove s m i = Ok s' -> race_ok t s' /\ tick s' = tick s + 1.
Proof.
  intros H0 Hok H. pose proof (winner_ahead t s m i s' Hok H) as Hahead.
  destruct (apply_players t s m i s' Hok H) as (Hp & _).
  apply race_apply_inv in H as (Hterm & _ & Ht & Hsd & Htot & _ & _ & Hb). split; [|done].
  pose proof Hok as [_ Htick Hseed Htt _ _ _].
  assert (Hcap : tick s < TICK_CAP) by (unfold isTerminal in Hterm; destruct (winner s); [done|by apply Z.leb_gt]).
  pose proof (share_range t (score (players s').1) (score (players s').2) H0) as Hsh. rewrite Htt in Hb.
  destruct (winner s') as [[]|] eqn:Ew; cbn zeta in Hb; injection Hb as Ha Hb; split; rewrite ?Ew;
    unfold balances; rewrite ?Ha, ?Hb; try done; try lia; try (by intros j; apply Hp); try congruence.
Qed.

#[export] Instance CrossLaws : ProtocolLaws CrossProtocol (fun t s => 0 <= t /\ race_ok t s) (fun _ => True).
Proof.
  split.
  - intros ctx s _ Hl [= <-]. pose proof Hl as (? & ? & _). split; [|by destruct ctx as [? []]].
    split; [unfold sum_of; lia|by apply race_initial].
  - intros t s m i s' [H0 Hok] H. split; [done|]. by apply (race_step t s m i).
  - intros t s [_ Hok]. destruct (ra_balances t s Hok) as (? & ? & ?). by split_and!.
Qed.

Lemma run_race t s ms s' :
  0 <= t -> race_ok t s -> run CrossProtocol s ms = Ok s' -> race_ok t s' /\ tick s' = tick s + Z.of_nat (length ms).
Proof.
  intros H0. unfold run. revert s; induction ms as [|[m i] ms IH]; intros s Hok H; cbn [rfold] in H.
  { apply Ok_inj in H. subst. split; [done|cbn; lia]. }
  apply rbind_ok in H as (s1 & E & H). apply (race_step t) in E as [Hok1 Ht1]; [|done|done].
  apply IH in H as [Hok' Ht']; [|done]. split; [done|]. cbn [length]. lia.
Qed.

Lemma terminal_accepts s m i :
  isTerminal s = false -> (match i with PartyA => dirB m | PartyB => dirA m end) = None -> exists s', applyMove s m i = Ok s'.
Proof.
  intros Ht Hd. unfold applyMove. rewrite Ht.
  destruct i, m as [[] []]; cbn in Hd; try done; cbn; destruct (raceWinner _ _) as [[]|]; cbn; eauto.
Qed.

(** C30: A race: it ends at the cap at the latest, until then every hop of a seat for itself
    is accepted, no chicken ever stands on a cell that is lethal at that tick, the
    winner is ahead and takes the pot, and while there is no winner the pot is split
    by progress -- after the first tick, however the stakes were. *)
Theorem cross_race ctx ms s :
  lockable (initialBalances ctx) -> run CrossProtocol (initialState ctx) ms = Ok s ->
  tick s = Z.of_nat (length ms) /\ (length ms <= Z.to_nat TICK_CAP)%nat /\
  (isTerminal s = false -> forall m i, (match i with PartyA => dirB m | PartyB => dirA m end) = None ->
     exists s', applyMove s m i = Ok s') /\
  (forall i, isLethal (seed s) (col (player (players s) i)) (lane (player (players s) i)) (tick s) = false) /\
  match winner s with
  | Some p => score (player (players s) (otherParty p)) < score (player (players s) p) /\
      balances s = match p with
                   | PartyA => {| bal_a := sum_of (initialBalances ctx); bal_b := 0 |}
                   | PartyB => {| bal_a := 0; bal_b := sum_of (initialBalances ctx) |}
                   end
  | None => (0 < length ms)%nat ->
      let a := settleShare (sum_of (initialBalances ctx)) (score (players s).1) (score (players s).2) WIN_LANE in
      balances s = {| bal_a := a; bal_b := sum_of (initialBalances ctx) - a |}
  end.
Proof.
  intros Hl H. pose proof Hl as (Ha & Hb & _). assert (H0 : 0 <= sum_of (initialBalances ctx)) by (unfold sum_of; lia).
  apply (run_race _ _ _ _ H0 (race_initial ctx Hl)) in H as [Hok Ht]. cbn [initialState tick] in Ht.
  pose proof (ra_tick _ _ Hok) as Hc. split_and!; [lia|lia|..].
  - intros Hterm m i. by apply terminal_accepts.
  - intros i. apply (ra_players _ _ Hok i).
  - pose proof (ra_paid _ _ Hok) as Hp. destruct (ra_balances _ _ Hok) as (_ & _ & Hsum).
    destruct (winner s) as [p|]; [done|]. intros Hn a. unfold balances. f_equal; [apply Hp; lia|].
    unfold a. rewrite <- Hp by lia. lia.
Qed.

(** * Stalling *)

Lemma mover_share t s m i s' :
  0 <= t -> race_ok t s -> 0 < tick s -> applyMove s m i = Ok s' -> tick s' < TICK_CAP ->
  match i with PartyA => balanceB s' <= balanceB s | PartyB => balanceA s' <= balanceA s end.
Proof.
  intros H0 Hok Htk H Hcap. destruct (race_step t s m i s' H0 Hok H) as [Hok' Ht'].
  destruct (apply_players t s m i s' Hok H) as (Hp & Hs & _ & Hlt).
  destruct (race_apply_inv _ _ _ _ H) as (Hterm & _ & _ & _ & _ & _ & Hw & _).
  destruct (ra_balances _ _ Hok) as (Ha & Hb & Hab), (ra_balances _ _ Hok') as (Ha' & Hb' & Hab').
  assert (Hw0 : winner s = None) by (unfold isTerminal in Hterm; by destruct (winner s)).
  pose proof (ra_paid _ _ Hok) as Hpd. rewrite Hw0 in Hpd. specialize (Hpd Htk).
  destruct (Hp (otherParty i)) as [Co Eo], (Hp i) as [Ci Ei]. pose proof (ch_lane _ _ _ Co) as Hlo.
  assert (Hnw : winner s' <> Some (otherParty i)).
  { rewrite Hw. unfold raceWinner. rewrite (proj2 (Z.leb_gt TICK_CAP (tick s')) Hcap).
    pose proof (one_arrival t s m i s' Hok H) as Hn.
    destruct i; cbn [otherParty player] in Hn; rewrite (proj2 (Z.leb_gt WIN_LANE _) Hn), ?andb_false_r;
      cbn [andb]; by destruct (_ <=? _). }
  pose proof (ra_paid _ _ Hok') as Hpd'. destruct (winner s') as [w|].
  - destruct Hpd' as [_ Hbal]. assert (w = i) as -> by (destruct w, i; done || by destruct Hnw).
    unfold balances in Hbal. destruct i; injection Hbal as ? ?; lia.
  - specialize (Hpd' ltac:(lia)).
    destruct i; cbn [otherParty player] in *.
    + pose proof (share_mono t (score (players s).1) (score (players s).2) (score (players s').1) (score (players s').2) H0). lia.
    + pose proof (share_mono t (score (players s').1) (score (players s').2) (score (players s).1) (score (players s).2) H0). lia.
Qed.

(** Stalling does not pay: in a race under way, while one seat alone hops, whatever it
    does and wherever its chicken dies, the balance of the seat that does not hop
    never rises before the cap. *)
Theorem stalling_does_not_pay t s ms s' i :
  0 <= t -> race_ok t s -> 0 < tick s -> Forall (fun mp => mp.2 = i) ms ->
  run CrossProtocol s ms = Ok s' -> tick s' < TICK_CAP ->
  match i with PartyA => balanceB s' <= balanceB s | PartyB => balanceA s' <= balanceA s end.
Proof.
  intros H0. revert s. induction ms as [|[m j] ms IH]; intros s Hok Htk Hall H Hcap; unfold run in H; cbn [rfold] in H.
  { apply Ok_inj in H. subst. by destruct i. }
  apply Forall_cons in Hall as [Hj Hall]. cbn in Hj. subst j. apply rbind_ok in H as (s1 & E & H). change (applyMove s m i = Ok s1) in E.
  destruct (race_step t s m i s1 H0 Hok E) as [Hok1 Ht1].
  destruct (run_race t s1 ms s' H0 Hok1 H) as [_ Ht'].
  pose proof (IH s1 Hok1 ltac:(lia) Hall H Hcap) as H1.
  pose proof (mover_share t s m i s1 H0 Hok Htk E ltac:(lia)) as H2. destruct i; lia.
Qed.

(** * The bot *)

(** The bot's hop is safe: the protocol accepts its move; when it hops, its chicken lands
    where it hopped and survives the tick; when it stays although it may move, every
    neighbouring cell is lethal. *)
Theorem greedy_bot_survives t s i k :
  race_ok t s -> isTerminal s = false ->
  exists m s', randomMove s i k = Some m /\ applyMove s m i = Ok s' /\
    let p := player (players s) i in
    let p' := player (players s') i in
    match greedyDir s i k with
    | Some d => (lane p', col p') = destOf (lane p) (col p) d /\ invulnTicks p' = 0
    | None => 0 < invulnTicks p \/
        forall d, let '(nl, nc) := destOf (lane p) (col p) d in isLethal (seed s) nc nl (tick s + 1) = true
    end.
Proof.
  intros Hok Hterm. unfold randomMove. rewrite Hterm.
  set (m := match i with PartyA => _ | PartyB => _ end).
  destruct (terminal_accepts s m i Hterm) as [s' E]; [by destruct i|]. exists m, s'. split_and!; [done|done|].
  apply race_apply_inv in E as (_ & _ & _ & _ & _ & Hps & _).
  assert (Hp' : player (players s') i = stepPlayer (seed s) (player (players s) i) (greedyDir s i k) (tick s + 1)).
  { rewrite Hps. by destruct i. }
  cbn zeta. rewrite Hp'. clear Hp' Hps m. set (p := player (players s) i). unfold greedyDir. fold p.
  destruct (Z.ltb_spec 0 (invulnTicks p)) as [Hi|Hi]; [by left|].
  set (survives := fun d => let '(nl, nc) := destOf (lane p) (col p) d in negb (isLethal (seed s) nc nl (tick s + 1))).
  assert (Hland : forall d, survives d = true ->
    (lane (stepPlayer (seed s) p (Some d) (tick s + 1)), col (stepPlayer (seed s) p (Some d) (tick s + 1))) = destOf (lane p) (col p) d /\
    invulnTicks (stepPlayer (seed s) p (Some d) (tick s + 1)) = 0).
  { intros d Hd. unfold survives in Hd. unfold stepPlayer. rewrite (proj2 (Z.ltb_ge 0 _) Hi).
    destruct (destOf (lane p) (col p) d) as [nl nc]. rewrite Hd. apply negb_true_iff in Hd. by rewrite Hd. }
  destruct (List.find survives _) as [d|] eqn:Ef; [apply find_some in Ef as [_ Hd]; by apply Hland|].
  change (let '(nl, nc) := destOf (lane p) (col p) south in negb (isLethal (seed s) nc nl (tick s + 1))) with (survives south).
  destruct (survives south) eqn:Es; [by apply Hland|]. right.
  assert (Hall : forall d, survives d = false).
  { pose proof (find_none _ _ Ef) as Hn. intros d. destruct d; [| done | |]; apply Hn;
      destruct (draw_below k 8 10), i; simpl; auto. }
  intros d. specialize (Hall d). unfold survives in Hall. destruct (destOf _ _ _). by apply negb_false_iff.
Qed.

(** * The encoding *)

Definition chicken_bytes (p : CrossPlayer) : bytes :=
  be_bytes 8 (lane p) ++ be_bytes 8 (col p) ++ be_bytes 8 (score p) ++ be_bytes 8 (invulnTicks p).

Definition winner_byte (w : option Party) : Z := match w with Some PartyA => 1 | Some PartyB => 2 | None => 0 end.

Definition race_bytes (s : CrossState) : bytes :=
  DOMAIN ++ be_bytes 8 (tick s) ++ be_bytes 8 (seed s) ++ be_bytes 8 (balanceA s) ++ be_bytes 8 (balanceB s) ++
  chicken_bytes (players s).1 ++ chicken_bytes (players s).2 ++ [winner_byte (winner s)].

Lemma chicken_u64 sd tk p : chicken_ok sd tk p ->
  u64_range (lane p) /\ u64_range (col p) /\ u64_range (score p) /\ u64_range (invulnTicks p).
Proof.
  intros [Hl Hs Hc Hi _ _]. unfold WIN_LANE, COLUMN_COUNT, RESPAWN_INVULN in *.
  unfold u64_range. rewrite U64_MAX_eq. lia.
Qed.

Lemma encode_chicken sd tk p : chicken_ok sd tk p ->
  exists parts, encode_player p = Ok parts /\ concat parts = chicken_bytes p.
Proof.
  intros (H1 & H2 & H3 & H4)%chicken_u64. unfold encode_player. rewrite !u64ToBeBytes_total by done.
  eexists. split; [reflexivity|]. unfold chicken_bytes. cbn [concat]. by rewrite app_nil_r.
Qed.

Lemma encode_race t s : t <= U64_MAX -> race_ok t s -> encodeState s = Ok (race_bytes s).
Proof.
  intros Ht [Hp Htick Hseed _ (Ha & Hb & Hab) _ _]. unfold encodeState.
  destruct (encode_chicken _ _ _ (Hp PartyA)) as (pa & Ea & Ca). destruct (encode_chicken _ _ _ (Hp PartyB)) as (pb & Eb & Cb).
  cbn [player] in *. rewrite U64_MAX_eq in Ht. unfold TICK_CAP, W32 in *.
  rewrite !u64ToBeBytes_total by (unfold u64_range; rewrite U64_MAX_eq; lia). rewrite Ea, Eb. cbn [rbind].
  rewrite concatBytes_concat, !concat_app, Ca, Cb. unfold race_bytes. cbn [concat]. rewrite !app_nil_r, <- !app_assoc.
  by destruct (winner s) as [[]|].
Qed.

Lemma length_chicken_bytes p : length (chicken_bytes p) = 32%nat.
Proof. unfold chicken_bytes. by rewrite !length_app, !length_be_bytes. Qed.

Lemma chicken_bytes_inj sd tk sd' tk' p q :
  chicken_ok sd tk p -> chicken_ok sd' tk' q -> chicken_bytes p = chicken_bytes q -> p = q.
Proof.
  intros (P1 & P2 & P3 & P4)%chicken_u64 (Q1 & Q2 & Q3 & Q4)%chicken_u64 H. unfold chicken_bytes in H.
  do 3 (apply app_inj_length in H as [?H H]; [|by rewrite !length_be_bytes]).
  repeat match goal with E : be_bytes 8 _ = be_bytes 8 _ |- _ => apply be_bytes_inj in E; [|done..] end.
  destruct p, q; cbn in *; congruence.
Qed.

(** The signed encoding of a race is the whole state: two states of races with one
    encoding are equal, so a replay from it cannot go another way. *)
Theorem cross_encoding_is_the_state t s t' s' b :
  t <= U64_MAX -> t' <= U64_MAX -> race_ok t s -> race_ok t' s' ->
  encodeState s = Ok b -> encodeState s' = Ok b -> s = s'.
Proof.
  intros Hu Hu' Hok Hok' E E'. rewrite (encode_race t s Hu Hok) in E. rewrite (encode_race t' s' Hu' Hok') in E'.
  apply Ok_inj in E as <-. apply Ok_inj in E'. rewrite U64_MAX_eq in Hu, Hu'.
  destruct Hok as [Hp Ht Hs Htot (Ha & Hb & Hab) _ _], Hok' as [Hp' Ht' Hs' Htot' (Ha' & Hb' & Hab') _ _].
  unfold race_bytes in E'. apply app_inv_head in E'. unfold TICK_CAP, W32 in *.
  do 4 (apply app_inj_length in E' as [?H E']; [|by rewrite !length_be_bytes]).
  repeat match goal with E : be_bytes 8 _ = be_bytes 8 _ |- _ =>
    apply be_bytes_inj in E; [|unfold u64_range; rewrite U64_MAX_eq; lia..] end.
  apply app_inj_length in E' as [Hc1 E']; [|by rewrite !length_chicken_bytes].
  apply app_inj_length in E' as [Hc2 E']; [|by rewrite !length_chicken_bytes].
  apply (chicken_bytes_inj _ _ _ _ _ _ (Hp' PartyA) (Hp PartyA)) in Hc1.
  apply (chicken_bytes_inj _ _ _ _ _ _ (Hp' PartyB) (Hp PartyB)) in Hc2. injection E' as Hw.
  assert (winner s' = winner s) by (destruct (winner s) as [[]|], (winner s') as [[]|]; done).
  destruct s as [? ? [? ?] ? ? ? ?], s' as [? ? [? ?] ? ? ? ?]; cbn in *. f_equal; try congruence.
Qed.

(** * A race *)

Definition race_ctx : ProtocolContext :=
  {| ctx_tunnelId := "0xabc"; initialBalances := {| bal_a := 500; bal_b := 500 |} |}.
Definition a_hops (d : CrossDir) : CrossMove * Party := ({| dirA := Some d; dirB := None |}, PartyA).
Definition b_hops (d : CrossDir) : CrossMove * Party := ({| dirA := None; dirB := Some d |}, PartyB).

Definition race_moves : list (CrossMove * Party) := [a_hops north; b_hops north; a_hops north; a_hops north].

Lemma race_facts : exists s, run CrossProtocol (initialState race_ctx) race_moves = Ok s /\
  winner s = None /\ score (players s).1 = 3 /\ score (players s).2 = 1.
Proof.
  assert (H : match run CrossProtocol (initialState race_ctx) race_moves with
              | Ok s => bool_decide (winner s = None) && (score (players s).1 =? 3) && (score (players s).2 =? 1)
              | Throw _ => false
              end = true) by (vm_compute; reflexivity).
  destruct (run CrossProtocol (initialState race_ctx) race_moves) as [s|e]; [|discriminate H].
  rewrite !andb_true_iff, bool_decide_eq_true, !Z.eqb_eq in H. exists s. tauto.
Qed.

Lemma race_lockable : lockable (initialBalances race_ctx).
Proof. unfold lockable, sum_of. simpl. rewrite U64_MAX_eq. lia. Qed.

Lemma cross_race_witness :
  exists s, run CrossProtocol (initialState race_ctx) race_moves = Ok s /\ balances s = {| bal_a := 501; bal_b := 499 |}.
Proof.
  destruct race_facts as (s & E & Hw & H1 & H2). exists s. split; [exact E|].
  destruct (cross_race race_ctx race_moves s race_lockable E) as (_ & _ & _ & _ & Hb). rewrite Hw, H1, H2 in Hb.
  apply Hb. unfold race_moves. cbn. lia.
Defined.

Lemma settle_share_fair_witness :
  0 <= 1001 /\ settleShare 1001 3 1 WIN_LANE = 502 /\ settleShare 1001 1 3 WIN_LANE = 498 /\ settleShare 1001 7 7 WIN_LANE = 500.
Proof.
  split; [lia|]. split_and!; [reflexivity|reflexivity|].
  destruct (settle_share_fair 1001 ltac:(lia)) as (_ & _ & Hlevel & _). exact (Hlevel 7).
Defined.

(** The race goes on for a while with A alone. *)
Lemma stall_facts : exists s s', run CrossProtocol (initialState race_ctx) race_moves = Ok s /\
  run CrossProtocol s [a_hops east; a_hops north] = Ok s' /\ tick s = 4 /\ tick s' = 6.
Proof.
  assert (H : match run CrossProtocol (initialState race_ctx) race_moves with
              | Ok s => match run CrossProtocol s [a_hops east; a_hops north] with
                        | Ok s' => (tick s =? 4) && (tick s' =? 6)
                        | Throw _ => false
                        end
              | Throw _ => false
              end = true) by (vm_compute; reflexivity).
  destruct (run CrossProtocol (initialState race_ctx) race_moves) as [s|e] eqn:E; [|discriminate H].
  destruct (run CrossProtocol s [a_hops east; a_hops north]) as [s'|e] eqn:E'; [|discriminate H].
  rewrite !andb_true_iff, !Z.eqb_eq in H. exists s, s'. tauto.
Qed.

Lemma race_pot : 0 <= sum_of (initialBalances race_ctx) <= U64_MAX.
Proof. destruct race_lockable as (? & ? & ?). unfold sum_of in *. lia. Qed.

Lemma stalling_does_not_pay_witness :
  exists s s', run CrossProtocol (initialState race_ctx) race_moves = Ok s /\
    run CrossProtocol s [a_hops east; a_hops north] = Ok s' /\ balanceB s' <= balanceB s.
Proof.
  destruct stall_facts as (s & s' & E & E' & Ht & Ht'). pose proof (proj1 race_pot) as H0.
  destruct (run_race _ _ _ _ H0 (race_initial race_ctx race_lockable) E) as [Hok _].
  exists s, s'. split; [exact E|]. split; [exact E'|].
  apply (stalling_does_not_pay _ s [a_hops east; a_hops north] s' PartyA H0 Hok); [lia|repeat constructor|exact E'|unfold TICK_CAP; lia].
Defined.

Lemma greedy_bot_survives_witness :
  exists s m s', run CrossProtocol (initialState race_ctx) race_moves = Ok s /\
    randomMove s PartyA 0 = Some m /\ applyMove s m PartyA = Ok s'.
Proof.
  destruct race_facts as (s & E & Hw & _).
  destruct (run_race _ _ _ _ (proj1 race_pot) (race_initial race_ctx race_lockable) E) as [Hok Ht].
  assert (Hterm : isTerminal s = false) by (unfold isTerminal; rewrite Hw, Ht; reflexivity).
  destruct (greedy_bot_survives _ s PartyA 0 Hok Hterm) as (m & s' & Hm & Hs & _).
  exists s, m, s'. split_and!; [exact E|exact Hm|exact Hs].
Defined.

Lemma cross_encoding_is_the_state_witness :
  exists s b, run CrossProtocol (initialState race_ctx) race_moves = Ok s /\ encodeState s = Ok b /\
    forall s', race_ok (sum_of (initialBalances race_ctx)) s' -> encodeState s' = Ok b -> s' = s.
Proof.
  destruct race_facts as (s & E & _).
  destruct (run_race _ _ _ _ (proj1 race_pot) (race_initial race_ctx race_lockable) E) as [Hok _].
  pose proof (encode_race _ _ (proj2 race_pot) Hok) as Eb. exists s, (race_bytes s). split_and!; [exact E|exact Eb|].
  intros s' Hok' E'. exact (cross_encoding_is_the_state _ s' _ s _ (proj2 race_pot) (proj2 race_pot) Hok' Hok E' Eb).
Defined.
