(* ===== verification/MultiGame.v ===== *)
(** Many games in one tunnel, [sui-tunnel-ts/src/protocol/multiGameCross.ts] and its mirror
    [multiGameBombIt.ts]: a session owns the balances and moves a fixed stake from the
    loser to the winner of each game of an inner protocol. *)
From stdpp Require Import sets.
From S2P Require Import Prelude.
From S2P Require Import Bytes.
From S2P Require Import Wire.
From S2P Require Import Crypto.
From S2P Require Import Protocol.
From S2P Require Import Json.

(** [src protocol/multiGameCross.ts MultiGameCrossState], and [MultiGameBombItState] *)
Record MultiGameState (S : Type) := { inner : S; gamesPlayed : Z; balanceA : Z; balanceB : Z }.
Arguments inner {S}.
Arguments gamesPlayed {S}.
Arguments balanceA {S}.
Arguments balanceB {S}.

Lemma four_inj {A} (a b c d a' b' c' d' : A) : [a; b; c; d] = [a'; b'; c'; d'] -> a = a' /\ b = b' /\ c = c' /\ d = d'.
Proof. by intros [= -> -> -> ->]. Qed.

Section MultiGame.
(** The inner protocol, the winner it crowns ([None] for a push or a draw), and what the
    constructor is given. *)
Context {S M : Type} (game : Protocol S M) (winner : S -> option Party) (name : string).
Context (tunnelId : string) (stakePerGame : Z).

(** [src protocol/multiGameCross.ts MultiGameCrossProtocol.gameCtx] *)
Definition gameCtx (gameNumber : Z) : ProtocolContext :=
  {| ctx_tunnelId := tunnelId ++ ":g" ++ toString gameNumber;
     initialBalances := {| bal_a := stakePerGame; bal_b := stakePerGame |} |}.

(** [src protocol/multiGameCross.ts MultiGameCrossProtocol.initialState] *)
Definition initialState (ctx : ProtocolContext) : result (MultiGameState S) :=
  let! i := Protocol.initialState game (gameCtx 1) in
  Ok {| inner := i; gamesPlayed := 0; balanceA := bal_a (initialBalances ctx); balanceB := bal_b (initialBalances ctx) |}.

(** [src protocol/multiGameCross.ts MultiGameCrossProtocol.isGameOver] *)
Definition isGameOver (s : MultiGameState S) : bool := Protocol.isTerminal game (inner s).

(** [src protocol/multiGameCross.ts MultiGameCrossProtocol.canFundNextGame] *)
Definition canFundNextGame (s : MultiGameState S) : bool :=
  if stakePerGame =? 0 then true else (stakePerGame <=? balanceA s) && (stakePerGame <=? balanceB s).

(** [src protocol/multiGameCross.ts MultiGameCrossProtocol.isTerminal] *)
Definition isTerminal (s : MultiGameState S) : bool :=
  if negb (Protocol.isTerminal game (inner s)) then false else negb (canFundNextGame s).

(** [src protocol/multiGameCross.ts MultiGameCrossProtocol.swap] *)
Definition swap (a b : Z) (w : option Party) : Balances :=
  match w with
  | Some PartyA => {| bal_a := a + stakePerGame; bal_b := b - stakePerGame |}
  | Some PartyB => {| bal_a := a - stakePerGame; bal_b := b + stakePerGame |}
  | None => {| bal_a := a; bal_b := b |}
  end.

(** [src protocol/multiGameCross.ts MultiGameCrossProtocol.applyMove] *)
Definition applyMove (s : MultiGameState S) (move : M) (by_ : Party) : result (MultiGameState S) :=
  if negb (Protocol.isTerminal game (inner s)) then
    let! next := Protocol.applyMove game (inner s) move by_ in
    if Protocol.isTerminal game next then
      let swapped := swap (balanceA s) (balanceB s) (winner next) in
      Ok {| inner := next; gamesPlayed := gamesPlayed s; balanceA := bal_a swapped; balanceB := bal_b swapped |}
    else Ok {| inner := next; gamesPlayed := gamesPlayed s; balanceA := balanceA s; balanceB := balanceB s |}
  else
    throw_if isTerminal s with Error "session over: insufficient balance for another game" ;
    let! fresh := Protocol.initialState game (gameCtx (gamesPlayed s + 2)) in
    let! next := Protocol.applyMove game fresh move by_ in
    Ok {| inner := next; gamesPlayed := gamesPlayed s + 1; balanceA := balanceA s; balanceB := balanceB s |}.

(** [src protocol/multiGameCross.ts MultiGameCrossProtocol.encodeState] *)
Definition encodeState (s : MultiGameState S) : result bytes :=
  let! i := Protocol.encodeState game (inner s) in
  let! n := u64ToBeBytes (gamesPlayed s) in
  let! a := u64ToBeBytes (balanceA s) in
  let! b := u64ToBeBytes (balanceB s) in
  let! body := lengthPrefixedConcat [i; n; a; b] in
  concatBytes [protocolDomain name; body].

(** [src protocol/multiGameCross.ts MultiGameCrossProtocol.balances] *)
Definition balances (s : MultiGameState S) : Balances := {| bal_a := balanceA s; bal_b := balanceB s |}.

(** [src protocol/multiGameCross.ts MultiGameCrossProtocol.randomMove], for the bot of the
    inner protocol *)
Definition randomMove (bot : S -> Party -> option M) (s : MultiGameState S) (by_ : Party) : option M :=
  if negb (Protocol.isTerminal game (inner s)) then bot (inner s) by_ else None.

(** [src protocol/multiGameCross.ts:47-52 MultiGameCrossProtocol] *)
Definition MultiGameProtocol : Protocol (MultiGameState S) M :=
  {| movesCarrySecrets := false;
     Protocol.initialState := initialState;
     Protocol.applyMove := applyMove;
     Protocol.encodeState := encodeState;
     Protocol.balances := balances;
     Protocol.isTerminal := isTerminal |}.

(** * Balances *)

(** While a game runs, both seats can pay its stake. *)
Record session_ok (t : Z) (s : MultiGameState S) : Prop := {
  se_a : 0 <= balanceA s;
  se_b : 0 <= balanceB s;
  se_sum : balanceA s + balanceB s = t;
  se_funded : Protocol.isTerminal game (inner s) = false -> stakePerGame <= balanceA s /\ stakePerGame <= balanceB s
}.

(** A session that can pay the stake of its first game. *)
Definition first_funded (ctx : ProtocolContext) : Prop :=
  stakePerGame <= bal_a (initialBalances ctx) /\ stakePerGame <= bal_b (initialBalances ctx).

(** How an accepted move changes the balances. *)
Lemma apply_cases s m i s' :
  applyMove s m i = Ok s' ->
  (Protocol.isTerminal game (inner s) = false /\ Protocol.applyMove game (inner s) m i = Ok (inner s') /\
   gamesPlayed s' = gamesPlayed s /\
   balances s' = (if Protocol.isTerminal game (inner s') then swap (balanceA s) (balanceB s) (winner (inner s'))
                  else balances s)) \/
  (Protocol.isTerminal game (inner s) = true /\ canFundNextGame s = true /\
   gamesPlayed s' = gamesPlayed s + 1 /\ balances s' = balances s /\
   exists fresh, Protocol.initialState game (gameCtx (gamesPlayed s + 2)) = Ok fresh /\
     Protocol.applyMove game fresh m i = Ok (inner s')).
Proof.
  unfold applyMove, isTerminal. destruct (Protocol.isTerminal game (inner s)) eqn:Et; cbn [negb].
  - destruct (canFundNextGame s) eqn:Ef; cbn [negb]; [|done]. intros H.
    apply rbind_ok in H as (fresh & E1 & H). apply rbind_ok in H as (next & E2 & H). apply Ok_inj in H as <-.
    right. split_and!; try done. eauto.
  - intros H. apply rbind_ok in H as (next & E & H). left.
    destruct (Protocol.isTerminal game next) eqn:En; apply Ok_inj in H as <-; cbn; rewrite En; split_and!; try done.
    by destruct (swap _ _ _).
Qed.

Lemma swap_sum a b w : bal_a (swap a b w) + bal_b (swap a b w) = a + b.
Proof. destruct w as [[]|]; cbn; lia. Qed.

Lemma session_step t s m i s' : 0 <= stakePerGame -> session_ok t s -> applyMove s m i = Ok s' -> session_ok t s'.
Proof.
  intros H0 [Ha Hb Hs Hf] H. apply apply_cases in H as [(Et & _ & _ & Hbal)|(Et & Hc & _ & Hbal & _)].
  - destruct (Hf Et) as [Fa Fb]. pose proof (swap_sum (balanceA s) (balanceB s) (winner (inner s'))) as Hsum.
    destruct (Protocol.isTerminal game (inner s')) eqn:Et'.
    + destruct (winner (inner s')) as [[]|]; cbn in Hbal; injection Hbal as Ea Eb; split; rewrite ?Ea, ?Eb; try lia; congruence.
    + injection Hbal as Ea Eb. split; rewrite ?Ea, ?Eb; lia.
  - injection Hbal as Ea Eb. split; rewrite ?Ea, ?Eb; try lia. intros _. unfold canFundNextGame in Hc.
    destruct (Z.eqb_spec stakePerGame 0); [lia|]. rewrite andb_true_iff, !Z.leb_le in Hc. lia.
Qed.

Lemma MultiGameLaws_gen : 0 <= stakePerGame -> ProtocolLaws MultiGameProtocol session_ok first_funded.
Proof.
  intros H0. split.
  - intros ctx s [Fa Fb] (Ha & Hb & _) H. apply rbind_ok in H as (i & Ei & H). apply Ok_inj in H as <-.
    split; [|by destruct ctx as [? []]]. by split; cbn.
  - intros t s m i s' Hok H. by eapply session_step.
  - intros t s [Ha Hb Hs Hf]. by split_and!.
Qed.

(** * The ledger *)

(** The number of games a seat won. *)
Definition wins (p : Party) (ws : list (option Party)) : Z :=
  Z.of_nat (length (List.filter (fun w => match w with Some q => party_eqb q p | None => false end) ws)).

(** The games alone, without the session and its balances: the current one, and the
    winner each of the finished ones crowned.  A move of a finished game begins the
    next. *)
Definition games_step (st : S * list (option Party)) (mv : M * Party) : result (S * list (option Party)) :=
  let '(g, ws) := st in
  let! g := if Protocol.isTerminal game g
            then Protocol.initialState game (gameCtx (Z.of_nat (length ws) + 1)) else Ok g in
  let! next := Protocol.applyMove game g (fst mv) (snd mv) in
  Ok (next, if Protocol.isTerminal game next then ws ++ [winner next] else ws).

Definition games (ms : list (M * Party)) : result (S * list (option Party)) :=
  let! first := Protocol.initialState game (gameCtx 1) in
  rfold games_step (first, []) ms.

(** The balances of a session in which the finished games had these winners. *)
Record ledger (a0 b0 : Z) (s : MultiGameState S) (ws : list (option Party)) : Prop := {
  le_games : Z.of_nat (length ws) = gamesPlayed s + if Protocol.isTerminal game (inner s) then 1 else 0;
  le_a : balanceA s = a0 + stakePerGame * (wins PartyA ws - wins PartyB ws);
  le_b : balanceB s = b0 + stakePerGame * (wins PartyB ws - wins PartyA ws)
}.

(** A fresh game is not over, and its first move does not decide it. *)
Definition takes_two : Prop :=
  forall n fresh, Protocol.initialState game (gameCtx n) = Ok fresh ->
    Protocol.isTerminal game fresh = false /\
    forall m i next, Protocol.applyMove game fresh m i = Ok next -> Protocol.isTerminal game next = false.

Lemma wins_snoc p ws w : wins p (ws ++ [w]) = wins p ws + match w with Some q => if party_eqb q p then 1 else 0 | None => 0 end.
Proof.
  unfold wins. rewrite List.filter_app, length_app. destruct w as [q|]; cbn; [destruct (party_eqb q p)|]; cbn; lia.
Qed.

Lemma ledger_step a0 b0 s ws m i s' :
  takes_two -> ledger a0 b0 s ws -> applyMove s m i = Ok s' ->
  exists ws', games_step (inner s, ws) (m, i) = Ok (inner s', ws') /\ ledger a0 b0 s' ws'.
Proof.
  intros Htwo [Hg Ha Hb] H. unfold games_step. cbn [fst snd].
  apply apply_cases in H as [(Et & Em & Hn & Hbal)|(Et & _ & Hn & Hbal & fresh & Ef & Em)].
  - rewrite Et in *. cbn [rbind]. rewrite Em. cbn [rbind]. eexists. split; [reflexivity|].
    destruct (Protocol.isTerminal game (inner s')) eqn:Et'.
    + split; rewrite ?Et', ?length_app, ?wins_snoc.
      * cbn [length]. lia.
      * destruct (winner (inner s')) as [[]|]; cbn in Hbal |- *; injection Hbal as -> _; lia.
      * destruct (winner (inner s')) as [[]|]; cbn in Hbal |- *; injection Hbal as _ ->; lia.
    + injection Hbal as Ea Eb. split; rewrite ?Et', ?Ea, ?Eb; lia.
  - rewrite Et in *. injection Hbal as Ea Eb. destruct (Htwo _ _ Ef) as [_ Hnext].
    replace (Z.of_nat (length ws) + 1) with (gamesPlayed s + 2) by lia. rewrite Ef. cbn [rbind].
    rewrite Em. cbn [rbind]. rewrite (Hnext _ _ _ Em). eexists. split; [reflexivity|].
    split; rewrite ?(Hnext _ _ _ Em), ?Ea, ?Eb; lia.
Qed.

Lemma session_run a0 b0 ms : forall s0 ws0 s,
  takes_two -> ledger a0 b0 s0 ws0 -> run MultiGameProtocol s0 ms = Ok s ->
  exists ws, rfold games_step (inner s0, ws0) ms = Ok (inner s, ws) /\ ledger a0 b0 s ws.
Proof.
  induction ms as [|[m i] ms IH]; intros s0 ws0 s Htwo Hl H; unfold run in H; cbn [rfold] in H |- *.
  { apply Ok_inj in H as <-. by exists ws0. }
  apply rbind_ok in H as (s1 & E & H). cbn [fst snd Protocol.applyMove MultiGameProtocol] in E.
  destruct (ledger_step a0 b0 s0 ws0 m i s1 Htwo Hl E) as (ws1 & E1 & Hl1).
  rewrite E1. cbn [rbind]. by eapply IH.
Qed.

Lemma session_ledger ctx s0 ms s :
  takes_two -> initialState ctx = Ok s0 -> run MultiGameProtocol s0 ms = Ok s ->
  exists ws, games ms = Ok (inner s, ws) /\
    ledger (bal_a (initialBalances ctx)) (bal_b (initialBalances ctx)) s ws.
Proof.
  intros Htwo H0 H. unfold games.
  apply rbind_ok in H0 as (i & Ei & H0). apply Ok_inj in H0 as <-. rewrite Ei. cbn [rbind].
  destruct (Htwo _ _ Ei) as [Ht _]. refine (session_run _ _ ms _ [] s Htwo _ H).
  split; cbn; rewrite ?Ht; unfold wins; cbn; lia.
Qed.

(** * The encoding *)

Lemma multi_encoding s b :
  encodeState s = Ok b ->
  exists i, Protocol.encodeState game (inner s) = Ok i /\ u64_range (gamesPlayed s) /\
    u64_range (balanceA s) /\ u64_range (balanceB s) /\
    lengthPrefixedConcat [i; be_bytes 8 (gamesPlayed s); be_bytes 8 (balanceA s); be_bytes 8 (balanceB s)] =
      Ok (drop (length (protocolDomain name)) b).
Proof.
  unfold encodeState. intros H. apply rbind_ok in H as (i & Ei & H).
  apply rbind_ok in H as (n & En & H). apply rbind_ok in H as (a & Ea & H). apply rbind_ok in H as (c & Ec & H).
  apply u64ToBeBytes_ok in En as [Rn ->], Ea as [Ra ->], Ec as [Rc ->].
  apply rbind_ok in H as (body & Eb & H). rewrite concatBytes_concat in H. apply Ok_inj in H as <-.
  exists i. split_and!; [done..|]. rewrite Eb. f_equal. cbn [concat]. by rewrite app_nil_r, drop_app_exact.
Qed.

(** The encoding of a session fixes the encoding of its game, the number of games played
    and the balances. *)
Lemma multi_encoding_inj s s' b :
  encodeState s = Ok b -> encodeState s' = Ok b ->
  Protocol.encodeState game (inner s) = Protocol.encodeState game (inner s') /\
  gamesPlayed s = gamesPlayed s' /\ balances s = balances s'.
Proof.
  intros (i & Ei & Rn & Ra & Rb & E)%multi_encoding (i' & Ei' & Rn' & Ra' & Rb' & E')%multi_encoding.
  apply lengthPrefixedConcat_ok in E as [F E], E' as [F' E']. rewrite E in E'.
  apply lp_concat_inj in E'; [|done..]. apply four_inj in E' as (-> & Hn & Ha & Hb).
  apply be_bytes_inj in Hn, Ha, Hb; try done. rewrite Ei, Ei'. unfold balances. by rewrite Ha, Hb.
Qed.

(** A game lost by a seat that could not pay its stake leaves a state that cannot be
    encoded, so it can be neither signed nor settled. *)
Lemma unpayable_unencodable s m i s' p :
  Protocol.isTerminal game (inner s) = false -> applyMove s m i = Ok s' ->
  Protocol.isTerminal game (inner s') = true -> winner (inner s') = Some p ->
  (match p with PartyA => balanceB s | PartyB => balanceA s end) < stakePerGame -> is_ok (encodeState s') = false.
Proof.
  intros Et H Et' Hw Hlt. apply apply_cases in H as [(_ & _ & _ & Hbal)|(Et2 & _)]; [|congruence].
  rewrite Et', Hw in Hbal. apply not_true_iff_false. intros [b Hb]%is_ok_exists.
  apply multi_encoding in Hb as (_ & _ & _ & [Ra _] & [Rb _] & _).
  destruct p; cbn in Hbal; injection Hbal as Ea Eb; lia.
Qed.

End MultiGame.

(** What a session needs of its game: it takes at least two moves. *)
Class Rematch {S M} (game : Protocol S M) : Prop :=
  rematch_takes_two : forall tunnelId stake, 0 <= stake -> takes_two game tunnelId stake.

(** C31: A session: from a state that can pay the first stake, the balances stay non-negative
    and sum to the locked total, and a game that is running can be paid by both seats.
    Play the same moves as games of the inner protocol, one after the other, without any
    balances: that succeeds, ends in the session's game, and gives the list of those who
    won; the session counts these games, and its balances are the initial ones plus a
    stake for every game the seat is in that list for and less one for every game the
    other is. *)
Theorem session_pays {S M} (game : Protocol S M) (winner : S -> option Party) (name tunnelId : string) `{!Rematch game} stake ctx ms s0 s :
  0 <= stake -> first_funded stake ctx -> lockable (initialBalances ctx) ->
  initialState game tunnelId stake ctx = Ok s0 ->
  run (MultiGameProtocol game winner name tunnelId stake) s0 ms = Ok s ->
  session_ok game stake (sum_of (initialBalances ctx)) s /\
  exists ws, games game winner tunnelId stake ms = Ok (inner s, ws) /\
    ledger game stake (bal_a (initialBalances ctx)) (bal_b (initialBalances ctx)) s ws.
Proof.
  intros H0 Hf Hl E R. split.
  - pose proof (MultiGameLaws_gen game winner name tunnelId stake H0) as Hlaws.
    by apply (run_from_initial (MultiGameProtocol game winner name tunnelId stake) (session_ok game stake) (first_funded stake) ctx s0 ms).
  - eapply session_ledger; [by apply rematch_takes_two|exact E|exact R].
Qed.

(** The two sessions of the repository, over the race and over the duel. *)
From S2P Require Import Rng.
From S2P Require Import Cross.
From S2P Require Import CrossGame.
From S2P Require Import BombIt.
From S2P Require Import BombItBoard.
From S2P Require Import BombItGame.
From S2P Require Import BombItFair.

(** [src protocol/multiGameCross.ts:44-50 MultiGameCrossProtocol] *)
Definition MultiGameCrossProtocol (tunnelId : string) (stakePerGame : Z) :
    Protocol (MultiGameState CrossState) CrossMove :=
  MultiGameProtocol CrossProtocol Cross.winner "cross.multi.v1" tunnelId stakePerGame.

(** [src protocol/multiGameBombIt.ts:107-117 MultiGameBombItProtocol.swap]: "draw" and
    [null] swap nothing. *)
Definition decided (s : BombItState) : option Party :=
  match BombIt.winner s with Some (Won p) => Some p | _ => None end.

(** [src protocol/multiGameBombIt.ts:39-50 MultiGameBombItProtocol] *)
Definition MultiGameBombItProtocol (tunnelId : string) (stakePerGame : Z) :
    Protocol (MultiGameState BombItState) BombItMove :=
  MultiGameProtocol BombItProtocol decided "bomb_it.multi.v1" tunnelId stakePerGame.

Lemma first_hop sd d t : lane (stepPlayer sd spawnPlayer d t) <= 1.
Proof.
  unfold stepPlayer. cbn [spawnPlayer invulnTicks lane col score Z.ltb Z.compare].
  destruct d as [[]|]; cbn [destOf]; repeat (destruct (isLethal _ _ _ _); cbn [negb lane]; try lia).
Qed.

#[export] Instance CrossRematch : Rematch CrossProtocol.
Proof.
  intros tunnelId stake H0 n fresh E. apply Ok_inj in E as <-. split; [done|]. intros m i next E.
  apply CrossGame.race_apply_inv in E as (_ & _ & Ht & _ & _ & Hps & Hw & _). change (Cross.isTerminal next = false).
  unfold Cross.isTerminal. rewrite Hw. unfold raceWinner. rewrite Hps. cbn [fst snd Cross.initialState Cross.players Cross.seed].
  pose proof (first_hop (seedFromTunnelId (ctx_tunnelId (gameCtx tunnelId stake n))) (dirA m) (0 + 1)) as La.
  pose proof (first_hop (seedFromTunnelId (ctx_tunnelId (gameCtx tunnelId stake n))) (dirB m) (0 + 1)) as Lb.
  unfold WIN_LANE. set (pa := stepPlayer _ spawnPlayer (dirA m) _) in *. set (pb := stepPlayer _ spawnPlayer (dirB m) _) in *.
  rewrite (proj2 (Z.leb_gt 600 (lane pa))), (proj2 (Z.leb_gt 600 (lane pb))) by lia.
  cbn [andb]. rewrite Ht. reflexivity.
Qed.

(** With no bomb on the board nobody dies in the next tick. *)
Lemma first_tick t s m i s' :
  duel_ok t s -> bombs s = [] -> tick s + 1 < BOMB_IT_TICK_CAP -> BombIt.applyMove s m i = Ok s' -> BombIt.isTerminal s' = false.
Proof.
  intros Hok Hb Ht E. destruct (BombItGame.duel_apply_inv _ _ _ _ E) as [Hterm _].
  destruct (undecided t s Hok Hterm) as (Ha1 & Ha2 & _).
  destruct (bomb_it_tick _ _ _ _ _ Hok E) as (ps & bs & Ea & [_ _ _ _ _ Hpl] & Hw). rewrite Hb in Ea.
  assert (Hbs : (forall j, alive (BombIt.player ps j) = true) /\ forall b, b ∈ bs -> fuse b = FUSE_TICKS).
  { apply applyAction_cases in Ea as [[-> ->]|[(-> & -> & Hal & _)|(-> & -> & _)]].
    - split; [by intros []|by intros b ?%elem_of_nil].
    - split; [|by intros b ?%elem_of_nil]. intros j. rewrite player_set. cbn [alive]. rewrite Hal. by destruct (party_eqb i j), j.
    - split; [by intros []|]. intros b [?%elem_of_nil| ->%list_elem_of_singleton]%elem_of_app; done. }
  destruct Hbs as [Hal Hf].
  assert (Hno : forall k, ~ detonates (grid s) (map burn bs) k).
  { induction 1 as [k b Hk Hfb|]; [|done]. apply list_elem_of_lookup_2, list_elem_of_fmap in Hk as (b0 & -> & Hin).
    cbn [burn fuse] in Hfb. rewrite (Hf b0 Hin) in Hfb. unfold FUSE_TICKS in Hfb. lia. }
  assert (Hnb : forall ci, ~ burning (grid s) (map burn bs) ci) by (intros ci (k & b & Hd & _); by destruct (Hno k)).
  pose proof (proj2 (proj2 (Hpl PartyA)) (conj (Hal PartyA) (Hnb _))) as HA.
  pose proof (proj2 (proj2 (Hpl PartyB)) (conj (Hal PartyB) (Hnb _))) as HB. cbn [BombIt.player] in HA, HB.
  unfold BombIt.isTerminal. rewrite Hw, HA, HB. unfold verdict. cbn [negb andb].
  by rewrite (proj2 (Z.leb_gt _ _) Ht).
Qed.

#[export] Instance BombItRematch : Rematch BombItProtocol.
Proof.
  intros tunnelId stake H0 n fresh E. apply Ok_inj in E as <-. split; [done|]. intros m i next E.
  by apply (first_tick _ _ _ _ _ (duel_fresh (gameCtx tunnelId stake n) H0 H0)) in E.
Qed.

(** * Two sessions *)

(** Two duels: B wins the first, the second is under way. *)
Definition session_moves : list (BombItMove * Party) := duel_moves ++ [a_acts bomb; b_acts west].

Definition session_ctx (a b : Z) : ProtocolContext :=
  {| ctx_tunnelId := "0xabc"; initialBalances := {| bal_a := a; bal_b := b |} |}.

Definition session_start (a b : Z) : MultiGameState BombItState :=
  {| inner := BombIt.initialState (gameCtx "0xabc" 1 1); gamesPlayed := 0; MultiGame.balanceA := a; MultiGame.balanceB := b |}.

Lemma session_facts : exists s,
  run (MultiGameBombItProtocol "0xabc" 1) (session_start 3 3) session_moves = Ok s /\
  gamesPlayed s = 1 /\ MultiGame.balances s = {| bal_a := 2; bal_b := 4 |}.
Proof.
  assert (H : match run (MultiGameBombItProtocol "0xabc" 1) (session_start 3 3) session_moves with
              | Ok s => (gamesPlayed s =? 1) && (MultiGame.balanceA s =? 2) && (MultiGame.balanceB s =? 4)
              | Throw _ => false
              end = true) by (vm_compute; reflexivity).
  destruct (run (MultiGameBombItProtocol "0xabc" 1) (session_start 3 3) session_moves) as [s|e]; [|discriminate H].
  rewrite !andb_true_iff, !Z.eqb_eq in H. destruct H as [[Hg Ha] Hb]. exists s. split_and!; [done..|].
  unfold MultiGame.balances. by rewrite Ha, Hb.
Qed.

Lemma session_lockable a b : 0 <= a <= 10 -> 0 <= b <= 10 -> lockable (initialBalances (session_ctx a b)).
Proof. unfold lockable, sum_of. simpl. rewrite U64_MAX_eq. lia. Qed.

Lemma session_winners :
  match games BombItProtocol decided "0xabc" 1 session_moves with
  | Ok (_, ws) => Some ws
  | Throw _ => None
  end = Some [Some PartyB].
Proof. vm_compute. reflexivity. Qed.

Lemma session_pays_witness : exists s,
  run (MultiGameBombItProtocol "0xabc" 1) (session_start 3 3) session_moves = Ok s /\
  MultiGame.balances s = {| bal_a := 2; bal_b := 4 |} /\ session_ok BombItProtocol 1 6 s /\
  ledger BombItProtocol 1 3 3 s [Some PartyB].
Proof.
  destruct session_facts as (s & E & _ & Hb). exists s. split; [exact E|]. split; [exact Hb|].
  destruct (session_pays BombItProtocol decided "bomb_it.multi.v1" "0xabc" 1 (session_ctx 3 3) session_moves (session_start 3 3) s)
    as (Hok & ws & Hws & Hl).
  - lia.
  - split; cbn; lia.
  - apply session_lockable; lia.
  - reflexivity.
  - exact E.
  - split; [exact Hok|]. pose proof session_winners as F. rewrite Hws in F. cbn in F. injection F as ->. exact Hl.
Defined.

(** The first game is played whatever the deposits: A, who put nothing in, loses it, and
    the session is stuck in a state that cannot be encoded. *)
Lemma broke_facts : exists s s',
  run (MultiGameBombItProtocol "0xabc" 1) (session_start 0 5) (removelast duel_moves) = Ok s /\
  MultiGame.applyMove BombItProtocol decided "0xabc" 1 s (b_acts west).1 PartyB = Ok s' /\
  BombIt.isTerminal (inner s) = false /\ BombIt.isTerminal (inner s') = true /\ decided (inner s') = Some PartyB /\
  MultiGame.balanceA s = 0.
Proof.
  assert (H : match run (MultiGameBombItProtocol "0xabc" 1) (session_start 0 5) (removelast duel_moves) with
              | Ok s => match MultiGame.applyMove BombItProtocol decided "0xabc" 1 s (b_acts west).1 PartyB with
                        | Ok s' => negb (BombIt.isTerminal (inner s)) && BombIt.isTerminal (inner s') &&
                                   bool_decide (decided (inner s') = Some PartyB) && (MultiGame.balanceA s =? 0)
                        | Throw _ => false
                        end
              | Throw _ => false
              end = true) by (vm_compute; reflexivity).
  destruct (run (MultiGameBombItProtocol "0xabc" 1) (session_start 0 5) (removelast duel_moves)) as [s|e]; [|discriminate H].
  destruct (MultiGame.applyMove BombItProtocol decided "0xabc" 1 s (b_acts west).1 PartyB) as [s'|e] eqn:E; [|discriminate H].
  rewrite !andb_true_iff, negb_true_iff, bool_decide_eq_true, Z.eqb_eq in H. exists s, s'. tauto.
Qed.

Lemma unpayable_unencodable_witness : exists s s',
  MultiGame.initialState BombItProtocol "0xabc" 1 (session_ctx 0 5) = Ok (session_start 0 5) /\
  run (MultiGameBombItProtocol "0xabc" 1) (session_start 0 5) (removelast duel_moves) = Ok s /\
  MultiGame.applyMove BombItProtocol decided "0xabc" 1 s (b_acts west).1 PartyB = Ok s' /\
  is_ok (MultiGame.encodeState BombItProtocol "bomb_it.multi.v1" s') = false.
Proof.
  destruct broke_facts as (s & s' & E & E' & Ht & Ht' & Hd & Ha). exists s, s'.
  split; [reflexivity|]. split; [exact E|]. split; [exact E'|].
  apply (unpayable_unencodable BombItProtocol decided "bomb_it.multi.v1" "0xabc" 1 s (b_acts west).1 PartyB s' PartyB Ht E' Ht' Hd).
  cbn. rewrite Ha. lia.
Defined.
