(* ===== verification/WorldCanvasPvp.v ===== *)
(** The world canvas of two players, [sui-tunnel-ts/src/protocol/worldCanvasPvp.ts]:
    batches of painted cells, folded into a rolling digest once for each sequence
    number of a seat.  Chunk indices, coordinates and sequence numbers are the safe
    integers the interface documents. *)
From S2P Require Import Prelude.
From S2P Require Import Bytes.
From S2P Require Import Wire.
From S2P Require Import Crypto.
From S2P Require Import Protocol.
From S2P Require Import RollingDigest.
From S2P Require Import Rng.
From S2P Require Import Json.

(** [src protocol/worldCanvasPvp.ts NAME] *)
Definition NAME : string := "world_canvas.stroke.v1".
(** [src protocol/worldCanvasPvp.ts NUM_COLORS] *)
Definition NUM_COLORS : Z := 16.
(** [src protocol/worldCanvasPvp.ts CHUNK_SIZE] *)
Definition CHUNK_SIZE : Z := 256.
(** [src protocol/worldCanvasPvp.ts MAX_RENDER_CELLS] *)
Definition MAX_RENDER_CELLS : nat := Z.to_nat 8000.
(** [src protocol/worldCanvasPvp.ts MAX_BATCH_CELLS] *)
Definition MAX_BATCH_CELLS : nat := Z.to_nat 128.
(** [src protocol/worldCanvasPvp.ts BOT_RUN] *)
Definition BOT_RUN : nat := 8.
(** [src protocol/worldCanvasPvp.ts WORLD_CANVAS_UPDATE_CAP] *)
Definition WORLD_CANVAS_UPDATE_CAP : Z := 100000.

(** [src protocol/worldCanvasPvp.ts PvpCellMove], its members as they came *)
Record PvpCellMove := { cx : jsnum; cy : jsnum; x : jsnum; y : jsnum; color : jsnum; seq : jsnum }.

(** [src protocol/worldCanvasPvp.ts PvpPaintMove]; [None] when [cells] is no array. *)
Record PvpPaintMove := { m_cells : option (list PvpCellMove) }.

(** [src protocol/worldCanvasPvp.ts PvpCell] *)
Record PvpCell := { gx : Z; gy : Z; c_color : Z; c_by : Party; c_seq : Z; pseq : Z }.

(** [src protocol/worldCanvasPvp.ts PvpCanvasState]; [winner] is always [null]. *)
Record PvpCanvasState := {
  digest : bytes;
  cells : list PvpCell;
  paintCount : Z;
  updates : Z;
  appliedSeqA : Z;
  appliedSeqB : Z;
  balanceA : Z;
  balanceB : Z;
  total : Z
}.

(** A cell whose members are integers. *)
Record IntCell := { i_cx : Z; i_cy : Z; i_x : Z; i_y : Z; i_color : Z; i_seq : Z }.

(** [Number.isInteger(n) && n >= 0 && n < bound] *)
Definition below (n bound : Z) : bool := (0 <=? n) && (n <? bound).

(** [src protocol/worldCanvasPvp.ts isLegalCell]: the cell's integers when it is legal. *)
Definition isLegalCell (c : PvpCellMove) : option IntCell :=
  match cx c, cy c, x c, y c, color c, seq c with
  | JsInt vcx, JsInt vcy, JsInt vx, JsInt vy, JsInt vc, JsInt vs =>
    if below vx CHUNK_SIZE && below vy CHUNK_SIZE && below vc NUM_COLORS && (0 <=? vs)
    then Some {| i_cx := vcx; i_cy := vcy; i_x := vx; i_y := vy; i_color := vc; i_seq := vs |}
    else None
  | _, _, _, _, _, _ => None
  end.

Definition party_text (p : Party) : string := match p with PartyA => "A" | PartyB => "B" end.

(** The text of [cellDelta] *)
Definition cell_text (c : IntCell) (by_ : Party) : string :=
  party_text by_ ++ "|" ++ toString (i_cx c) ++ "," ++ toString (i_cy c) ++ "|" ++
  toString (i_x c) ++ "," ++ toString (i_y c) ++ "|" ++ toString (i_color c).

(** [src protocol/worldCanvasPvp.ts cellDelta] *)
Definition cellDelta (c : IntCell) (by_ : Party) : bytes := text_encode (cell_text c by_).

(** [src protocol/worldCanvasPvp.ts recentCellsBy] *)
Definition recentCellsBy (cs : list PvpCell) (by_ : Party) : list PvpCell :=
  take 2 (List.filter (fun c => party_eqb (c_by c) by_) (reverse cs)).

(** [src protocol/worldCanvasPvp.ts clampStep] *)
Definition clampStep (d : Z) : Z := Z.max (-2) (Z.min 2 d).

(** [src protocol/worldCanvasPvp.ts toCellMove] *)
Definition toCellMove (gx gy color seq : Z) : PvpCellMove :=
  let vcx := gx / CHUNK_SIZE in
  let vcy := gy / CHUNK_SIZE in
  {| cx := JsInt vcx; cy := JsInt vcy; x := JsInt (gx - vcx * CHUNK_SIZE); y := JsInt (gy - vcy * CHUNK_SIZE);
     color := JsInt color; seq := JsInt seq |}.

(** [by === "A" ? appliedSeqA : appliedSeqB] *)
Definition applied (s : PvpCanvasState) (by_ : Party) : Z :=
  match by_ with PartyA => appliedSeqA s | PartyB => appliedSeqB s end.

(** [src protocol/worldCanvasPvp.ts WorldCanvasPvpProtocol.encodeState] *)
Definition encodeState (s : PvpCanvasState) : result bytes := Ok (digest s).

(** [src protocol/worldCanvasPvp.ts WorldCanvasPvpProtocol.balances] *)
Definition balances (s : PvpCanvasState) : Balances := {| bal_a := balanceA s; bal_b := balanceB s |}.

(** [src protocol/worldCanvasPvp.ts WorldCanvasPvpProtocol.isTerminal] *)
Definition isTerminal (s : PvpCanvasState) : bool := WORLD_CANVAS_UPDATE_CAP <=? updates s.

Section WithCrypto.
Context `{C : Crypto}.

(** [src protocol/worldCanvasPvp.ts WorldCanvasPvpProtocol.initialState] *)
Definition initialState (ctx : ProtocolContext) : PvpCanvasState :=
  {| digest := blake2b256 (protocolDomain NAME); cells := []; paintCount := 0; updates := 0; appliedSeqA := 0;
     appliedSeqB := 0; balanceA := bal_a (initialBalances ctx); balanceB := bal_b (initialBalances ctx);
     total := bal_a (initialBalances ctx) + bal_b (initialBalances ctx) |}.

(** [src protocol/worldCanvasPvp.ts:217-235 WorldCanvasPvpProtocol.applyMove] one round of
    the loop *)
Definition fold_cell (by_ : Party) (s : PvpCanvasState) (c : PvpCellMove) : result PvpCanvasState :=
  match isLegalCell c with
  | None => Throw (Error "world-canvas-pvp: illegal paint")
  | Some i =>
    if i_seq i <=? applied s by_ then Ok s
    else
      let! d := rollingDigest blake2b256 (digest s) (cellDelta i by_) in
      Ok {| digest := d;
            cells := cells s ++ [{| gx := i_cx i * CHUNK_SIZE + i_x i; gy := i_cy i * CHUNK_SIZE + i_y i;
                                    c_color := i_color i; c_by := by_; c_seq := paintCount s + 1; pseq := i_seq i |}];
            paintCount := paintCount s + 1; updates := updates s;
            appliedSeqA := match by_ with PartyA => i_seq i | PartyB => appliedSeqA s end;
            appliedSeqB := match by_ with PartyA => appliedSeqB s | PartyB => i_seq i end;
            balanceA := balanceA s; balanceB := balanceB s; total := total s |}
  end.

(** [src protocol/worldCanvasPvp.ts WorldCanvasPvpProtocol.applyMove] *)
Definition applyMove (s : PvpCanvasState) (move : PvpPaintMove) (by_ : Party) : result PvpCanvasState :=
  match m_cells move with
  | None => Throw (Error "world-canvas-pvp: illegal batch")
  | Some cs =>
    throw_if (MAX_BATCH_CELLS <? length cs)%nat with Error "world-canvas-pvp: illegal batch" ;
    let! s' := rfold (fold_cell by_) s cs in
    let capped := if (MAX_RENDER_CELLS <? length (cells s'))%nat
                  then drop (length (cells s') - MAX_RENDER_CELLS) (cells s') else cells s' in
    Ok {| digest := digest s'; cells := capped; paintCount := paintCount s';
          updates := if paintCount s <? paintCount s' then updates s + 1 else updates s;
          appliedSeqA := appliedSeqA s'; appliedSeqB := appliedSeqB s';
          balanceA := balanceA s; balanceB := balanceB s; total := total s |}
  end.

(** [src protocol/worldCanvasPvp.ts:182-186 WorldCanvasPvpProtocol] *)
Definition WorldCanvasPvpProtocol : Protocol PvpCanvasState PvpPaintMove :=
  {| movesCarrySecrets := false;
     Protocol.initialState := fun ctx => Ok (initialState ctx);
     Protocol.applyMove := applyMove;
     Protocol.encodeState := encodeState;
     Protocol.balances := balances;
     Protocol.isTerminal := isTerminal |}.

End WithCrypto.

(** [Math.floor(rng() * 3) - 1] *)
Definition turn (k : Z) : Z := draw_index k 3 - 1.

(** [src protocol/worldCanvasPvp.ts:304-317 WorldCanvasPvpProtocol.randomMove] the loop;
    [i] counts the draws. *)
Fixpoint wander (n : nat) (rng : nat -> Z) (i : nat) (color vgx vgy dx dy vseq : Z) : list PvpCellMove :=
  match n with
  | O => []
  | S n' =>
    let turned := draw_below (rng i) 35 100 in
    let dx := if turned then dx + turn (rng (S i)) else dx in
    let dy := if turned then dy + turn (rng (S (S i))) else dy in
    let i := if turned then (i + 3)%nat else S i in
    let dx := clampStep dx in
    let dy := clampStep dy in
    let dx := if (dx =? 0) && (dy =? 0) then 1 else dx in
    toCellMove (vgx + dx) (vgy + dy) color (vseq + 1) ::
      wander n' rng i color (vgx + dx) (vgy + dy) dx dy (vseq + 1)
  end.

(** [src protocol/worldCanvasPvp.ts WorldCanvasPvpProtocol.randomMove]; [hint] is
    [botColorHint.current]. *)
Definition randomMove (s : PvpCanvasState) (by_ : Party) (hint : Z) (rng : nat -> Z) : PvpPaintMove :=
  let start :=
    match recentCellsBy (cells s) by_ with
    | [] => (((match by_ with PartyA => 0 | PartyB => 70 end) + draw_index (rng 0%nat) 60, draw_index (rng 1%nat) 90), (1, 0), 2%nat)
    | [c] => ((gx c, gy c), (turn (rng 0%nat), turn (rng 1%nat)), 2%nat)
    | c :: c' :: _ => ((gx c, gy c), (clampStep (gx c - gx c'), clampStep (gy c - gy c')), 0%nat)
    end in
  let '((vgx, vgy), (dx, dy), i) := start in
  {| m_cells := Some (wander BOT_RUN rng i hint vgx vgy dx dy (applied s by_)) |}.

(** * The batches *)

(** The cells of a batch that are new: those whose sequence number passes the cursor. *)
Fixpoint fresh (cur : Z) (cs : list IntCell) : list IntCell :=
  match cs with
  | [] => []
  | c :: cs' => if i_seq c <=? cur then fresh cur cs' else c :: fresh (i_seq c) cs'
  end.

(** The cursor after a batch. *)
Definition cursor (cur : Z) (cs : list IntCell) : Z := fold_left (fun cur c => Z.max cur (i_seq c)) cs cur.

Definition stroke (cp : IntCell * Party) : bytes := cellDelta cp.1 cp.2.

(** The cells for rendering, numbered from [n] on. *)
Fixpoint rendered (n : Z) (by_ : Party) (cs : list IntCell) : list PvpCell :=
  match cs with
  | [] => []
  | i :: cs' => {| gx := i_cx i * CHUNK_SIZE + i_x i; gy := i_cy i * CHUNK_SIZE + i_y i; c_color := i_color i;
                   c_by := by_; c_seq := n + 1; pseq := i_seq i |} :: rendered (n + 1) by_ cs'
  end.

(** The last cells, as many as are rendered. *)
Definition latest (cs : list PvpCell) : list PvpCell := drop (length cs - MAX_RENDER_CELLS) cs.

Section Theory.
Context `{C : Crypto}.

Lemma cursor_ge cur cs : cur <= cursor cur cs.
Proof.
  unfold cursor. revert cur; induction cs as [|c cs IH]; intros cur; cbn [fold_left]; [lia|].
  specialize (IH (Z.max cur (i_seq c))). lia.
Qed.

Lemma cursor_covers cur cs c : c ∈ cs -> i_seq c <= cursor cur cs.
Proof.
  unfold cursor. revert cur; induction cs as [|c' cs IH]; intros cur Hin; cbn [fold_left]; [by apply elem_of_nil in Hin|].
  apply elem_of_cons in Hin as [->|Hin]; [|by apply IH].
  pose proof (cursor_ge (Z.max cur (i_seq c')) cs). unfold cursor in *. lia.
Qed.

Lemma fresh_none cur cs : (forall c, c ∈ cs -> i_seq c <= cur) -> fresh cur cs = [].
Proof.
  induction cs as [|c cs IH]; intros H; [done|]. cbn [fresh].
  rewrite (proj2 (Z.leb_le _ _) (H c ltac:(left))). apply IH. intros c' Hc. apply H. by right.
Qed.

(** What the loop over a batch computes. *)
Lemma fold_batch by_ s cs s' :
  rfold (fold_cell by_) s cs = Ok s' <->
  exists ys, mapM isLegalCell cs = Some ys /\
    s' = {| digest := chain stroke (digest s) (map (fun c => (c, by_)) (fresh (applied s by_) ys));
            cells := cells s ++ rendered (paintCount s) by_ (fresh (applied s by_) ys);
            paintCount := paintCount s + Z.of_nat (length (fresh (applied s by_) ys)); updates := updates s;
            appliedSeqA := match by_ with PartyA => cursor (appliedSeqA s) ys | PartyB => appliedSeqA s end;
            appliedSeqB := match by_ with PartyA => appliedSeqB s | PartyB => cursor (appliedSeqB s) ys end;
            balanceA := balanceA s; balanceB := balanceB s; total := total s |}.
Proof.
  revert s; induction cs as [|c cs IH]; intros s; cbn [rfold].
  { split.
    - intros H. apply Ok_inj in H as <-. exists []. split; [done|]. cbn. rewrite app_nil_r, Z.add_0_r. by destruct s, by_.
    - intros (ys & [= <-] & ->). cbn. rewrite app_nil_r, Z.add_0_r. by destruct s, by_. }
  unfold fold_cell at 1. destruct (isLegalCell c) as [i|] eqn:Ec; cbn [rbind].
  2: { split; [done|]. intros (ys & Hm & _). cbn in Hm. by rewrite Ec in Hm. }
  assert (Hmap : forall Q : list IntCell -> Prop,
    (exists ys, mapM isLegalCell (c :: cs) = Some ys /\ Q ys) <-> exists ys, mapM isLegalCell cs = Some ys /\ Q (i :: ys)).
  { intros Q. assert (Hc : mapM isLegalCell (c :: cs) = option_map (cons i) (mapM isLegalCell cs)).
    { cbn. rewrite Ec. cbn. by destruct (mapM isLegalCell cs). }
    rewrite Hc. destruct (mapM isLegalCell cs) as [ys|]; cbn [option_map].
    - split; [intros (? & [= <-] & ?); eauto|intros (? & [= <-] & ?); eauto].
    - split; by intros (? & [=] & _). }
  rewrite Hmap. destruct (Z.leb_spec (i_seq i) (applied s by_)) as [Hs|Hs]; cbn [rbind].
  - rewrite IH. apply exist_proper. intros ys. apply and_iff_compat_l. cbn [fresh].
    rewrite (proj2 (Z.leb_le _ _) Hs). unfold cursor. cbn [fold_left].
    destruct by_; cbn [applied] in *; by rewrite Z.max_l by lia.
  - unfold rollingDigest. rewrite concatBytes_concat. cbn [rbind]. rewrite IH.
    apply exist_proper. intros ys. apply and_iff_compat_l. cbn [fresh].
    rewrite (proj2 (Z.leb_gt _ _) Hs). cbn [concat foldr digest cells paintCount updates appliedSeqA appliedSeqB balanceA balanceB total].
    rewrite app_nil_r. unfold cursor. cbn [fold_left map length rendered chain].
    destruct by_; cbn [applied appliedSeqA appliedSeqB] in *; rewrite Z.max_r by lia; rewrite <- app_assoc;
      unfold chain, fold_digest; cbn [fold_left app];
      replace (paintCount s + 1 + Z.of_nat (length (fresh (i_seq i) ys))) with (paintCount s + Z.of_nat (S (length (fresh (i_seq i) ys)))) by lia;
      done.
Qed.

Lemma latest_eq cs :
  (if (MAX_RENDER_CELLS <? length cs)%nat then drop (length cs - MAX_RENDER_CELLS) cs else cs) = latest cs.
Proof.
  unfold latest. destruct (Nat.ltb_spec MAX_RENDER_CELLS (length cs)); [done|].
  by replace (length cs - MAX_RENDER_CELLS)%nat with 0%nat by lia.
Qed.

Lemma length_latest cs : (length (latest cs) <= MAX_RENDER_CELLS)%nat.
Proof. unfold latest. rewrite length_drop. lia. Qed.

Lemma latest_short cs : (length cs <= MAX_RENDER_CELLS)%nat -> latest cs = cs.
Proof. intros H. unfold latest. by replace (length cs - MAX_RENDER_CELLS)%nat with 0%nat by lia. Qed.

(** What an accepted batch does. *)
Lemma canvas_apply_spec s m by_ s' :
  applyMove s m by_ = Ok s' <->
  exists cs ys, m_cells m = Some cs /\ (length cs <= MAX_BATCH_CELLS)%nat /\ mapM isLegalCell cs = Some ys /\
    s' = {| digest := chain stroke (digest s) (map (fun c => (c, by_)) (fresh (applied s by_) ys));
            cells := latest (cells s ++ rendered (paintCount s) by_ (fresh (applied s by_) ys));
            paintCount := paintCount s + Z.of_nat (length (fresh (applied s by_) ys));
            updates := match fresh (applied s by_) ys with [] => updates s | _ => updates s + 1 end;
            appliedSeqA := match by_ with PartyA => cursor (appliedSeqA s) ys | PartyB => appliedSeqA s end;
            appliedSeqB := match by_ with PartyA => appliedSeqB s | PartyB => cursor (appliedSeqB s) ys end;
            balanceA := balanceA s; balanceB := balanceB s; total := total s |}.
Proof.
  unfold applyMove. destruct (m_cells m) as [cs|]; [|split; [done|intros (cs & ys & [=] & _)]].
  destruct (Nat.ltb_spec MAX_BATCH_CELLS (length cs)) as [Hl|Hl].
  { split; [done|]. intros (cs' & ys & [= <-] & Hl' & _). lia. }
  assert (Hup : forall ys : list IntCell, (if paintCount s <? paintCount s + Z.of_nat (length (fresh (applied s by_) ys))
    then updates s + 1 else updates s) = match fresh (applied s by_) ys with [] => updates s | _ => updates s + 1 end).
  { intros ys. destruct (fresh (applied s by_) ys); cbn [length]; [by rewrite (proj2 (Z.ltb_ge _ _)) by lia|].
    by rewrite (proj2 (Z.ltb_lt _ _)) by lia. }
  split.
  - intros H. apply rbind_ok in H as (s1 & E & H). apply fold_batch in E as (ys & Hm & ->). apply Ok_inj in H as <-.
    exists cs, ys. split_and!; [done|done|done|].
    cbn [digest cells paintCount updates appliedSeqA appliedSeqB balanceA balanceB total]. by rewrite latest_eq, Hup.
  - intros (cs' & ys & [= <-] & _ & Hm & ->).
    destruct (rfold (fold_cell by_) s cs) as [s1|e] eqn:E.
    + apply fold_batch in E as (ys' & Hm' & ->). rewrite Hm in Hm'. injection Hm' as <-. cbn [rbind].
      cbn [digest cells paintCount updates appliedSeqA appliedSeqB balanceA balanceB total]. by rewrite latest_eq, Hup.
    + exfalso. assert (H : exists s1, rfold (fold_cell by_) s cs = Ok s1) by (eexists; apply fold_batch; eauto).
      destruct H as [s1 H]. congruence.
Qed.

(** * Re-sent batches *)

Lemma applied_after s m by_ s' : applyMove s m by_ = Ok s' -> forall p, applied s p <= applied s' p.
Proof.
  intros (cs & ys & _ & _ & _ & ->)%canvas_apply_spec p.
  pose proof (cursor_ge (appliedSeqA s) ys). pose proof (cursor_ge (appliedSeqB s) ys).
  destruct by_, p; cbn; lia.
Qed.

Lemma run_applied s ms s' : run WorldCanvasPvpProtocol s ms = Ok s' -> forall p, applied s p <= applied s' p.
Proof.
  unfold run. revert s; induction ms as [|[m i] ms IH]; intros s H p; cbn [rfold] in H.
  { apply Ok_inj in H. subst. lia. }
  apply rbind_ok in H as (s1 & E & H). pose proof (applied_after s m i s1 E p). specialize (IH s1 H p). lia.
Qed.

Lemma run_rendered s ms s' : run WorldCanvasPvpProtocol s ms = Ok s' ->
  (length (cells s) <= MAX_RENDER_CELLS)%nat -> (length (cells s') <= MAX_RENDER_CELLS)%nat.
Proof.
  intros H Hs. unfold run in H. eapply (rfold_invariant _ (fun s => (length (cells s) <= MAX_RENDER_CELLS)%nat)); [|exact Hs|exact H].
  intros s1 [m i] s2 _ (cs & ys & _ & _ & _ & ->)%canvas_apply_spec. apply length_latest.
Qed.

(** Delivery at least once is delivery once: a batch the protocol has taken, sent again by
    its seat at once or after any other batches of either seat, is taken again and
    changes nothing at all. *)
Theorem resent_batch_is_noop s m i s1 ms s2 :
  applyMove s m i = Ok s1 -> run WorldCanvasPvpProtocol s1 ms = Ok s2 -> applyMove s2 m i = Ok s2.
Proof.
  intros H R. pose proof (run_applied s1 ms s2 R i) as Hge.
  apply canvas_apply_spec in H as (cs & ys & Hc & Hl & Hm & Hs1).
  assert (Hr : (length (cells s2) <= MAX_RENDER_CELLS)%nat) by (apply (run_rendered s1 ms s2 R); rewrite Hs1; apply length_latest).
  assert (Hcov : forall c, c ∈ ys -> i_seq c <= applied s2 i).
  { intros c Hin. assert (i_seq c <= applied s1 i); [|lia]. rewrite Hs1. destruct i; cbn; by apply cursor_covers. }
  apply canvas_apply_spec. exists cs, ys. split_and!; [done..|]. rewrite (fresh_none _ _ Hcov).
  assert (Hcur : forall p, (forall c, c ∈ ys -> i_seq c <= p) -> cursor p ys = p).
  { clear. intros p. unfold cursor. induction ys as [|c ys IH]; intros H; [done|]. cbn [fold_left].
    rewrite Z.max_l by (apply H; by left). apply IH. intros c' Hc'. apply H. by right. }
  cbn [map rendered length chain]. rewrite app_nil_r, Z.add_0_r, latest_short by done.
  destruct i; cbn [applied] in Hcov; rewrite (Hcur _ Hcov); by destruct s2.
Qed.

(** * The digest commits to the strokes *)

(** The cells painted by some batches, in order. *)
Fixpoint history (s : PvpCanvasState) (ms : list (PvpPaintMove * Party)) : list (IntCell * Party) :=
  match ms with
  | [] => []
  | (m, i) :: ms' =>
    match m_cells m ≫= mapM isLegalCell, applyMove s m i with
    | Some ys, Ok s' => map (fun c => (c, i)) (fresh (applied s i) ys) ++ history s' ms'
    | _, _ => []
    end
  end.

(** What is painted: everything but the sequence number. *)
Definition place (cp : IntCell * Party) : Z * Z * Z * Z * Z * Party :=
  (i_cx cp.1, i_cy cp.1, i_x cp.1, i_y cp.1, i_color cp.1, cp.2).

Lemma run_history s ms s' :
  run WorldCanvasPvpProtocol s ms = Ok s' ->
  digest s' = chain stroke (digest s) (history s ms) /\ paintCount s' = paintCount s + Z.of_nat (length (history s ms)).
Proof.
  unfold run. revert s; induction ms as [|[m i] ms IH]; intros s H; cbn [rfold history] in *.
  { apply Ok_inj in H as <-. split; [done|cbn; lia]. }
  apply rbind_ok in H as (s1 & E & H). change (applyMove s m i = Ok s1) in E. rewrite E. apply IH in H as [-> ->].
  apply canvas_apply_spec in E as (cs & ys & Hc & _ & Hm & ->). rewrite Hc. cbn [option_bind mbind]. rewrite Hm.
  cbn [digest paintCount]. rewrite length_app, length_map. split; [|lia]. unfold chain, fold_digest. by rewrite fold_left_app.
Qed.

Lemma toString_app_inj a b r r' :
  ends_number r -> ends_number r' -> (toString a ++ r)%string = (toString b ++ r')%string -> a = b /\ r = r'.
Proof.
  intros Hr Hr' H. pose proof (parse_number_int a r Hr) as P. rewrite H, (parse_number_int b r' Hr') in P.
  by injection P as -> ->.
Qed.

Lemma append_nil_r s : (s ++ EmptyString)%string = s.
Proof. induction s as [|c s IH]; [done|]. change (String c (s ++ EmptyString) = String c s). by rewrite IH. Qed.

Lemma sep_inj c t t' : (String c EmptyString ++ t)%string = (String c EmptyString ++ t')%string -> t = t'.
Proof. intros H. by injection H as H. Qed.

Lemma sep_ends c t : is_digit c = false -> code c <> 46 -> code c <> 101 -> code c <> 69 ->
  ends_number (String c EmptyString ++ t).
Proof. by repeat split. Qed.

Lemma cellDelta_inj c p c' p' : cellDelta c p = cellDelta c' p' -> place (c, p) = place (c', p').
Proof.
  intros H%text_encode_inj. unfold cell_text in H.
  assert (Hp : p = p' /\ forall t t', (party_text p ++ t)%string = (party_text p' ++ t')%string -> t = t').
  { destruct p, p'; try discriminate H; (split; [done|]); intros t t'; apply sep_inj. }
  destruct Hp as [-> Ht]. apply Ht in H.
  do 4 (apply sep_inj in H; apply toString_app_inj in H as [?E H]; [|by apply sep_ends..]). apply sep_inj in H.
  pose proof (toString_app_inj (i_color c) (i_color c') EmptyString EmptyString I I) as Hc.
  rewrite !append_nil_r in Hc. apply Hc in H as [E4 _]. unfold place. cbn. congruence.
Qed.

Lemma toString_nonempty z : (1 <= length (text_encode (toString z)))%nat.
Proof.
  unfold toString. destruct (z <? 0) eqn:E; [cbn; lia|]. apply Z.ltb_ge in E.
  destruct (show_nat_head z E) as (c & r & -> & _). cbn. lia.
Qed.

(** No delta is appended to a digest to give the bytes the first digest is of. *)
Lemma stroke_not_root d cp : length d = 32%nat -> d ++ stroke cp <> protocolDomain NAME.
Proof.
  intros Hd H. apply (f_equal length) in H. rewrite length_app, Hd in H.
  unfold stroke, cellDelta, cell_text in H. rewrite !text_encode_app, !length_app in H.
  pose proof (toString_nonempty (i_cx cp.1)). pose proof (toString_nonempty (i_cy cp.1)). pose proof (toString_nonempty (i_x cp.1)).
  pose proof (toString_nonempty (i_y cp.1)). pose proof (toString_nonempty (i_color cp.1)).
  change (length (protocolDomain NAME)) with 41%nat in H. change (length (text_encode "|")) with 1%nat in H.
  change (length (text_encode ",")) with 1%nat in H.
  assert (length (text_encode (party_text cp.2)) = 1%nat) by (by destruct cp.2). lia.
Qed.

(** The signed digest, of 32 bytes whatever is painted, fixes the drawing: two canvases
    whose states have one encoding show the same cells, painted by the same seats in
    the same order, however the cells were cut into batches and re-sent, unless the
    hash collides on the inputs hashed along the two. *)
Theorem strokes_are_committed `{!CryptoLaws C} ctx1 ctx2 ms1 ms2 s1 s2 b :
  run WorldCanvasPvpProtocol (initialState ctx1) ms1 = Ok s1 ->
  run WorldCanvasPvpProtocol (initialState ctx2) ms2 = Ok s2 ->
  encodeState s1 = Ok b -> encodeState s2 = Ok b ->
  map place (history (initialState ctx1) ms1) = map place (history (initialState ctx2) ms2) \/
  let root := protocolDomain NAME in
  collision (root :: chain_inputs stroke (blake2b256 root) (history (initialState ctx1) ms1))
            (root :: chain_inputs stroke (blake2b256 root) (history (initialState ctx2) ms2)).
Proof.
  intros R1 R2 E1 E2. apply run_history in R1 as [D1 _], R2 as [D2 _]. apply Ok_inj in E1, E2. cbn [initialState digest] in D1, D2.
  cbn zeta. destruct (collision_or (protocolDomain NAME :: chain_inputs stroke (blake2b256 (protocolDomain NAME)) (history (initialState ctx1) ms1))
    (protocolDomain NAME :: chain_inputs stroke (blake2b256 (protocolDomain NAME)) (history (initialState ctx2) ms2))) as [Hx|HD]; [by right|left].
  apply (chain_inj_root stroke place (protocolDomain NAME)); [apply stroke_not_root|exact HD| |congruence].
  intros [c p] [c' p'] _ _. apply cellDelta_inj.
Qed.

(** * The protocol and its bot *)

Definition pvp_inv (t : Z) (s : PvpCanvasState) : Prop :=
  0 <= balanceA s /\ 0 <= balanceB s /\ balanceA s + balanceB s = t.

#[export] Instance WorldCanvasPvpLaws : ProtocolLaws WorldCanvasPvpProtocol pvp_inv (fun _ => True).
Proof.
  split.
  - intros ctx s _ (Ha & Hb & _) E. apply Ok_inj in E. subst s. split; [by split_and!|]. by destruct ctx as [? []].
  - intros t s m p s' H (cs & ys & _ & _ & _ & ->)%canvas_apply_spec. done.
  - intros t s (Ha & Hb & Ht). by split_and!.
Qed.

(** The global position of a cell. *)
Definition global (c : IntCell) : Z * Z := (i_cx c * CHUNK_SIZE + i_x c, i_cy c * CHUNK_SIZE + i_y c).

(** A line drawn without a gap wider than two cells, which never stays in place. *)
Fixpoint connected (from : Z * Z) (cs : list IntCell) : Prop :=
  match cs with
  | [] => True
  | c :: cs' => global c <> from /\ Z.abs ((global c).1 - from.1) <= 2 /\ Z.abs ((global c).2 - from.2) <= 2 /\
                connected (global c) cs'
  end.

Lemma toCellMove_legal vgx vgy vc vs : 0 <= vc < NUM_COLORS -> 0 <= vs ->
  exists c, isLegalCell (toCellMove vgx vgy vc vs) = Some c /\ global c = (vgx, vgy) /\ i_color c = vc /\ i_seq c = vs.
Proof.
  intros Hc Hs. unfold isLegalCell, toCellMove. cbn [cx cy x y color seq].
  assert (Hb : forall g, below (g - g / CHUNK_SIZE * CHUNK_SIZE) CHUNK_SIZE = true).
  { intros g. unfold below, CHUNK_SIZE. apply andb_true_iff. rewrite Z.leb_le, Z.ltb_lt. zdiv_lia. }
  rewrite !Hb. replace (below vc NUM_COLORS) with true by (symmetry; unfold below; apply andb_true_iff; rewrite Z.leb_le, Z.ltb_lt; lia).
  rewrite (proj2 (Z.leb_le 0 vs) Hs). cbn [andb]. eexists. split; [reflexivity|]. unfold global. cbn.
  split_and!; [f_equal; lia|done..].
Qed.

Lemma wander_spec n rng i vc vgx vgy dx dy vs :
  0 <= vc < NUM_COLORS -> 0 <= vs ->
  exists ys, mapM isLegalCell (wander n rng i vc vgx vgy dx dy vs) = Some ys /\ length ys = n /\
    connected (vgx, vgy) ys /\ fresh vs ys = ys /\ cursor vs ys = vs + Z.of_nat n /\ Forall (fun c => i_color c = vc) ys.
Proof.
  intros Hc. revert i vgx vgy dx dy vs; induction n as [|n IH]; intros i vgx vgy dx dy vs Hs.
  { exists []. cbn. split_and!; try done. lia. }
  cbn [wander]. set (dx1 := if draw_below (rng i) 35 100 then dx + turn _ else dx).
  set (dy1 := if draw_below (rng i) 35 100 then dy + turn _ else dy). set (i1 := if draw_below (rng i) 35 100 then _ else S i).
  set (dx2 := if (clampStep dx1 =? 0) && (clampStep dy1 =? 0) then 1 else clampStep dx1). set (dy2 := clampStep dy1).
  destruct (toCellMove_legal (vgx + dx2) (vgy + dy2) vc (vs + 1) Hc ltac:(lia)) as (c & Ec & Hg & Hcol & Hseq).
  destruct (IH i1 (vgx + dx2) (vgy + dy2) dx2 dy2 (vs + 1) ltac:(lia)) as (ys & Ey & Hl & Hcon & Hf & Hcur & Hall).
  exists (c :: ys). assert (Hm : mapM isLegalCell (toCellMove (vgx + dx2) (vgy + dy2) vc (vs + 1) :: wander n rng i1 vc (vgx + dx2) (vgy + dy2) dx2 dy2 (vs + 1)) = Some (c :: ys)).
  { change (mapM isLegalCell (?a :: ?l)) with (y ← isLegalCell a; k ← mapM isLegalCell l; mret (y :: k)). by rewrite Ec, Ey. }
  split_and!; [exact Hm|cbn; lia| | | |by constructor].
  - cbn [connected]. rewrite Hg. cbn [fst snd].
    assert (Hd : -2 <= dx2 <= 2 /\ -2 <= dy2 <= 2 /\ (dx2 <> 0 \/ dy2 <> 0)).
    { unfold dx2, dy2, clampStep. destruct (Z.eqb_spec (Z.max (-2) (Z.min 2 dx1)) 0), (Z.eqb_spec (Z.max (-2) (Z.min 2 dy1)) 0); cbn [andb]; lia. }
    split_and!; [intros [= ? ?]; lia|lia|lia|done].
  - cbn [fresh]. rewrite Hseq, (proj2 (Z.leb_gt _ _)) by lia. by rewrite Hf.
  - unfold cursor in *. cbn [fold_left]. rewrite Hseq, Z.max_r, Hcur by lia. lia.
Qed.

(** The autopilot always paints: whatever its draws, its batch is accepted, every one of
    its eight cells is new, in the color asked for, and the cells form one line that
    never stays in place nor leaves a gap wider than two cells. *)
Theorem autopilot_paints s i hint rng :
  0 <= hint < NUM_COLORS -> 0 <= applied s i ->
  exists s' ys from, applyMove s (randomMove s i hint rng) i = Ok s' /\
    m_cells (randomMove s i hint rng) ≫= mapM isLegalCell = Some ys /\ length ys = BOT_RUN /\
    paintCount s' = paintCount s + 8 /\ updates s' = updates s + 1 /\ applied s' i = applied s i + 8 /\
    connected from ys /\ Forall (fun c => i_color c = hint) ys.
Proof.
  intros Hh Hs. unfold randomMove.
  destruct (match recentCellsBy (cells s) i with [] => _ | c :: l => _ end) as [[[vgx vgy] [dx dy]] n].
  destruct (wander_spec BOT_RUN rng n hint vgx vgy dx dy (applied s i) Hh Hs) as (ys & Ey & Hl & Hcon & Hf & Hcur & Hall).
  assert (Hw : length (wander BOT_RUN rng n hint vgx vgy dx dy (applied s i)) = BOT_RUN).
  { apply mapM_Some_1, Forall2_length in Ey. congruence. }
  set (cs := wander BOT_RUN rng n hint vgx vgy dx dy (applied s i)) in *.
  destruct (applyMove s {| m_cells := Some cs |} i) as [s'|e] eqn:E.
  - exists s', ys, (vgx, vgy). split; [done|]. split; [exact Ey|].
    apply canvas_apply_spec in E as (cs' & ys' & [= <-] & _ & Ey' & ->). rewrite Ey in Ey'. injection Ey' as <-.
    cbn [paintCount updates]. rewrite Hf, Hl. split_and!; [done|done| | |done|done].
    + destruct ys; [done|]. reflexivity.
    + destruct i; cbn [applied appliedSeqA appliedSeqB] in *; exact Hcur.
  - exfalso. assert (H : exists s', applyMove s {| m_cells := Some cs |} i = Ok s').
    { eexists. apply canvas_apply_spec. exists cs, ys. split_and!; [done| |done|reflexivity]. rewrite Hw. by apply Nat.leb_le. }
    destruct H as [s' H]. congruence.
Qed.

End Theory.

(** * A canvas *)

Definition canvas_ctx : ProtocolContext :=
  {| ctx_tunnelId := "0xA1"; initialBalances := {| bal_a := 1; bal_b := 1 |} |}.

(** A stroke of two cells across a chunk's edge, and one that re-sends its second cell. *)
Definition stroke1 : PvpPaintMove := {| m_cells := Some [toCellMove 255 0 3 1; toCellMove 256 (-1) 3 2] |}.
Definition stroke2 : PvpPaintMove := {| m_cells := Some [toCellMove 256 (-1) 3 2; toCellMove 257 (-2) 3 3] |}.

Lemma canvas_facts : exists s1 s2 : PvpCanvasState,
  @applyMove toy_crypto (@initialState toy_crypto canvas_ctx) stroke1 PartyA = Ok s1 /\
  run (@WorldCanvasPvpProtocol toy_crypto) s1 [(stroke2, PartyA); (stroke1, PartyB)] = Ok s2 /\ paintCount s2 = 5.
Proof.
  assert (H : match @applyMove toy_crypto (@initialState toy_crypto canvas_ctx) stroke1 PartyA with
              | Ok s1 => match run (@WorldCanvasPvpProtocol toy_crypto) s1 [(stroke2, PartyA); (stroke1, PartyB)] with
                         | Ok s2 => paintCount s2 =? 5
                         | Throw _ => false
                         end
              | Throw _ => false
              end = true) by (vm_compute; reflexivity).
  destruct (applyMove _ stroke1 PartyA) as [s1|e]; [|discriminate H]. destruct (run _ s1 _) as [s2|e] eqn:E; [|discriminate H].
  exists s1, s2. split_and!; [done|done|by apply Z.eqb_eq].
Qed.

Lemma resent_batch_is_noop_witness : exists s2 : PvpCanvasState,
  paintCount s2 = 5 /\ @applyMove toy_crypto s2 stroke1 PartyA = Ok s2.
Proof.
  destruct canvas_facts as (s1 & s2 & E1 & E2 & Hp). exists s2. split; [exact Hp|].
  exact (resent_batch_is_noop _ stroke1 PartyA s1 _ s2 E1 E2).
Defined.

(** The two cells of the first stroke in two batches, the first of them sent twice. *)
Definition in_two : list (PvpPaintMove * Party) :=
  [({| m_cells := Some [toCellMove 255 0 3 7] |}, PartyA); ({| m_cells := Some [toCellMove 255 0 3 7] |}, PartyA);
   ({| m_cells := Some [toCellMove 256 (-1) 3 9] |}, PartyA)].

Lemma cut_facts : exists s1 s2 : PvpCanvasState,
  run (@WorldCanvasPvpProtocol toy_crypto) (@initialState toy_crypto canvas_ctx) [(stroke1, PartyA)] = Ok s1 /\
  run (@WorldCanvasPvpProtocol toy_crypto) (@initialState toy_crypto canvas_ctx) in_two = Ok s2 /\ digest s1 = digest s2.
Proof.
  assert (H : match run (@WorldCanvasPvpProtocol toy_crypto) (@initialState toy_crypto canvas_ctx) [(stroke1, PartyA)],
                    run (@WorldCanvasPvpProtocol toy_crypto) (@initialState toy_crypto canvas_ctx) in_two with
              | Ok s1, Ok s2 => bytesEqual (digest s1) (digest s2)
              | _, _ => false
              end = true) by (vm_compute; reflexivity).
  destruct (run _ _ [(stroke1, PartyA)]) as [s1|e]; [|discriminate H]. destruct (run _ _ in_two) as [s2|e]; [|discriminate H].
  exists s1, s2. split_and!; [done|done|by apply bytesEqual_spec].
Qed.

Lemma strokes_are_committed_witness :
  let h1 := @history toy_crypto (@initialState toy_crypto canvas_ctx) [(stroke1, PartyA)] in
  let h2 := @history toy_crypto (@initialState toy_crypto canvas_ctx) in_two in
  map place h1 = map place h2 \/
  @collision toy_crypto (protocolDomain NAME :: chain_inputs stroke (@blake2b256 toy_crypto (protocolDomain NAME)) h1)
    (protocolDomain NAME :: chain_inputs stroke (@blake2b256 toy_crypto (protocolDomain NAME)) h2).
Proof.
  destruct cut_facts as (s1 & s2 & R1 & R2 & Hd).
  exact (strokes_are_committed canvas_ctx canvas_ctx _ _ s1 s2 (digest s1) R1 R2 eq_refl (f_equal Ok (eq_sym Hd))).
Defined.

Lemma autopilot_paints_witness : exists s' : PvpCanvasState,
  @applyMove toy_crypto (@initialState toy_crypto canvas_ctx) (randomMove (@initialState toy_crypto canvas_ctx) PartyB 13 (fun n => Z.of_nat n)) PartyB = Ok s' /\
  paintCount s' = 8.
Proof.
  assert (Hh : 0 <= 13 < NUM_COLORS) by (unfold NUM_COLORS; lia).
  assert (Hs : 0 <= applied (@initialState toy_crypto canvas_ctx) PartyB) by (cbn; lia).
  destruct (@autopilot_paints toy_crypto (@initialState toy_crypto canvas_ctx) PartyB 13 (fun n => Z.of_nat n) Hh Hs) as (s' & ys & from & E & _ & _ & Hp & _).
  exists s'. split; [exact E|exact Hp].
Defined.
