(* ===== verification/BoardMerkle.v ===== *)
(** Boards committed cell by cell, [frontend/src/games/battleship/engine/merkle.ts]: a
    Merkle tree over 100 salted cells, padded to 128 leaves, with a proof per cell. *)
From S2P Require Import Prelude.
From S2P Require Import Bytes.
From S2P Require Import Crypto.
From S2P Require Import RollingDigest.
From S2P Require Import BattleshipFleet.

(** [src frontend/src/games/battleship/engine/fleet.ts CELL_COUNT]: the file is the one
    [BattleshipFleet] models, with this name for [BATTLESHIP_CELL_COUNT]. *)
Definition CELL_COUNT : Z := BATTLESHIP_CELL_COUNT.
(** [src frontend/src/games/battleship/engine/merkle.ts SALT_BYTES] *)
Definition SALT_BYTES : nat := 32.
(** [src frontend/src/games/battleship/engine/merkle.ts TREE_LEAVES] *)
Definition TREE_LEAVES : nat := 128.
(** [src frontend/src/games/battleship/engine/merkle.ts LEAF_TAG] *)
Definition LEAF_TAG : bytes := [0].
(** [src frontend/src/games/battleship/engine/merkle.ts NODE_TAG] *)
Definition NODE_TAG : bytes := [1].

(** [board[cell] === 1] *)
Definition is_one (board : bytes) (cell : Z) : bool := at_cell board cell =? 1.
(** [salts[cell]], for a cell of the board *)
Definition salt_at (salts : list bytes) (cell : Z) : bytes := salts !!! Z.to_nat cell.

Definition leaf_preimage (cell : Z) (isShip : bool) (salt : bytes) : bytes :=
  LEAF_TAG ++ u8_from [cell; if isShip then 1 else 0] ++ salt.
Definition node_preimage (l r : bytes) : bytes := NODE_TAG ++ l ++ r.
Definition pad_preimage : bytes := [2].

Section Tree.
Context `{C : Crypto}.

(** [src frontend/src/games/battleship/engine/merkle.ts PAD_LEAF] *)
Definition PAD_LEAF : bytes := blake2b256 pad_preimage.

(** [src frontend/src/games/battleship/engine/merkle.ts leafHash] *)
Definition leafHash (cell : Z) (isShip : bool) (salt : bytes) : result bytes :=
  throw_if negb (length salt =? SALT_BYTES)%nat with Error "salt must be 32 bytes" ;
  let! d := concatBytes [LEAF_TAG; u8_from [cell; if isShip then 1 else 0]; salt] in
  Ok (blake2b256 d).

(** [src frontend/src/games/battleship/engine/merkle.ts nodeHash] *)
Definition nodeHash (left right : bytes) : result bytes :=
  let! d := concatBytes [NODE_TAG; left; right] in
  Ok (blake2b256 d).

(** [src frontend/src/games/battleship/engine/merkle.ts BoardCommitment] *)
Record BoardCommitment := { root : bytes; layers : list (list bytes) }.

(** [src frontend/src/games/battleship/engine/merkle.ts:69-72 commitBoard] one pass over a
    layer; an array of odd length has no half. *)
Fixpoint next_layer (cur : list bytes) : result (list bytes) :=
  match cur with
  | [] => Ok []
  | [_] => Throw (RangeError "Invalid array length")
  | l :: r :: cur' =>
      let! h := nodeHash l r in
      let! next := next_layer cur' in
      Ok (h :: next)
  end.

(** [src frontend/src/games/battleship/engine/merkle.ts:66-75 commitBoard] the layers from
    [cur] up; every pass halves the layer, so its length is fuel enough. *)
Fixpoint build_layers (fuel : nat) (cur : list bytes) : result (list (list bytes)) :=
  match fuel with
  | O => Throw OutOfFuel
  | S fuel' =>
      if (length cur <=? 1)%nat then Ok [cur]
      else
        let! next := next_layer cur in
        let! up := build_layers fuel' next in
        Ok (cur :: up)
  end.

(** [src frontend/src/games/battleship/engine/merkle.ts commitBoard] *)
Definition commitBoard (board : bytes) (salts : list bytes) : result BoardCommitment :=
  throw_if negb (Z.of_nat (length board) =? CELL_COUNT) with Error "board must be 100 cells" ;
  throw_if negb (Z.of_nat (length salts) =? CELL_COUNT) with Error "need 100 salts" ;
  let! cells := rmap (fun cell => leafHash cell (is_one board cell) (salt_at salts cell)) all_cells in
  let leaves := cells ++ replicate (TREE_LEAVES - length all_cells) PAD_LEAF in
  let! ls := build_layers TREE_LEAVES leaves in
  Ok {| root := default [] (last ls) !!! 0%nat; layers := ls |}.

(** [src frontend/src/games/battleship/engine/merkle.ts:87-92 proveCell] the loop over all
    layers but the last; [layers[level][sibling]] is there for a cell of the board. *)
Fixpoint siblings (ls : list (list bytes)) (idx : Z) : list bytes :=
  match ls with
  | layer :: (_ :: _) as up => layer !!! Z.to_nat (Z.lxor idx 1) :: siblings up (Z.shiftr idx 1)
  | _ => []
  end.

(** [src frontend/src/games/battleship/engine/merkle.ts proveCell] *)
Definition proveCell (c : BoardCommitment) (cell : Z) : result (list bytes) :=
  throw_if (cell <? 0) || (CELL_COUNT <=? cell) with Error "cell out of range" ;
  Ok (siblings (layers c) cell).

(** [src frontend/src/games/battleship/engine/merkle.ts:113-116 verifyCell] *)
Fixpoint climb (h : bytes) (idx : Z) (proof : list bytes) : result bytes :=
  match proof with
  | [] => Ok h
  | sibling :: proof' =>
      let! h' := if idx mod 2 =? 0 then nodeHash h sibling else nodeHash sibling h in
      climb h' (Z.shiftr idx 1) proof'
  end.

(** [src frontend/src/games/battleship/engine/merkle.ts verifyCell] *)
Definition verifyCell (root : bytes) (cell : Z) (isShip : bool) (salt : bytes) (proof : list bytes) : result bool :=
  if (cell <? 0) || (CELL_COUNT <=? cell) then Ok false
  else if negb (length salt =? SALT_BYTES)%nat then Ok false
  else
    let! h0 := leafHash cell isShip salt in
    let! h := climb h0 cell proof in
    Ok (bytesEqual h root).

(** [src frontend/src/games/battleship/engine/merkle.ts randomSalts]: [random i j] is byte
    [j] of the [i]-th call of [getRandomValues]. *)
Definition randomSalts (random : nat -> nat -> Z) : list bytes :=
  map (fun i => u8_from (map (random i) (seq 0 SALT_BYTES))) (seq 0 (Z.to_nat CELL_COUNT)).

(** * The hash functions are total *)

Lemma nodeHash_eq l r : nodeHash l r = Ok (blake2b256 (node_preimage l r)).
Proof. unfold nodeHash. rewrite concatBytes_concat. cbn. by rewrite app_nil_r. Qed.

Lemma leafHash_eq cell b salt :
  length salt = SALT_BYTES -> leafHash cell b salt = Ok (blake2b256 (leaf_preimage cell b salt)).
Proof.
  intros Hs. unfold leafHash. rewrite Hs, Nat.eqb_refl. cbn [negb]. rewrite concatBytes_concat. cbn.
  by rewrite app_nil_r.
Qed.

Lemma leafHash_ok cell b salt h :
  leafHash cell b salt = Ok h -> length salt = SALT_BYTES /\ h = blake2b256 (leaf_preimage cell b salt).
Proof.
  intros H. assert (Hs : length salt = SALT_BYTES). { unfold leafHash in H. inv_ok. by bool_to_prop. }
  rewrite leafHash_eq in H by done. by inv_ok.
Qed.

(** One step up a path: the node over [h] and its sibling, [h] on the left when the
    index is even. *)
Definition step_preimage (idx : Z) (h sibling : bytes) : bytes :=
  if idx mod 2 =? 0 then node_preimage h sibling else node_preimage sibling h.

Lemma climb_cons h idx s proof :
  climb h idx (s :: proof) = climb (blake2b256 (step_preimage idx h s)) (Z.shiftr idx 1) proof.
Proof. unfold step_preimage. cbn [climb]. by destruct (idx mod 2 =? 0); rewrite nodeHash_eq. Qed.

Lemma climb_total h idx proof : exists r, climb h idx proof = Ok r.
Proof.
  revert h idx; induction proof as [|s proof IH]; intros h idx; [by exists h|]. rewrite climb_cons. apply IH.
Qed.

(** * The layers of a tree *)

(** The inputs hashed over a layer. *)
Fixpoint layer_inputs (cur : list bytes) : list bytes :=
  match cur with
  | l :: r :: cur' => node_preimage l r :: layer_inputs cur'
  | _ => []
  end.

Lemma pairs_ind (P : list bytes -> Prop) :
  P [] -> (forall x, P [x]) -> (forall l r cur, P cur -> P (l :: r :: cur)) -> forall cur, P cur.
Proof.
  intros H0 H1 H2 cur. enough (P cur /\ forall x, P (x :: cur)) by tauto.
  induction cur as [|y cur [IH1 IH2]]; [by auto|]. split; [apply IH2|]. intros x. by apply H2.
Qed.

Lemma next_layer_ok cur next :
  next_layer cur = Ok next -> length cur = (2 * length next)%nat /\ next = map blake2b256 (layer_inputs cur).
Proof.
  revert next; induction cur as [|x|l r cur IH] using pairs_ind; intros next H; [by injection H as <-|done|].
  cbn [next_layer] in H. rewrite nodeHash_eq in H. cbn [rbind] in H.
  apply rbind_ok in H as (next' & E & [= <-]). apply IH in E as [Hl Hn]. simpl. rewrite Hl, Hn. split; [lia|done].
Qed.

Lemma next_layer_even cur n :
  length cur = (2 * n)%nat -> next_layer cur = Ok (map blake2b256 (layer_inputs cur)) /\ length (layer_inputs cur) = n.
Proof.
  revert n; induction cur as [|x|l r cur IH] using pairs_ind; intros n Hn; simpl in Hn; [by destruct n|lia|].
  destruct (IH (n - 1)%nat) as [E Hl]; [lia|]. cbn [next_layer]. rewrite nodeHash_eq. cbn [rbind]. rewrite E. simpl. split; [done|lia].
Qed.

Lemma layer_inputs_lookup cur i :
  (2 * i + 1 < length cur)%nat -> layer_inputs cur !! i = Some (node_preimage (cur !!! (2 * i)%nat) (cur !!! (2 * i + 1)%nat)).
Proof.
  revert i; induction cur as [|x|l r cur IH] using pairs_ind; intros i Hi; simpl in Hi; [lia..|].
  destruct i as [|i]; [done|]. replace (2 * S i)%nat with (S (S (2 * i))) by lia.
  cbn [layer_inputs Init.Nat.add]. rewrite lookup_cons_ne_0, Nat.pred_succ by lia. apply IH. lia.
Qed.

(** [ls] are the layers over a bottom layer of [2 ^ k] entries. *)
Inductive layered : nat -> list (list bytes) -> Prop :=
  | layered_top r : layered 0 [[r]]
  | layered_over k cur next up :
      length cur = (2 * length next)%nat -> next = map blake2b256 (layer_inputs cur) ->
      layered k (next :: up) -> layered (S k) (cur :: next :: up).

Lemma build_layered k fuel cur :
  length cur = (2 ^ k)%nat -> (k < fuel)%nat ->
  exists up, build_layers fuel cur = Ok (cur :: up) /\ layered k (cur :: up).
Proof.
  revert fuel cur; induction k as [|k IH]; intros [|fuel] cur Hc Hf; [lia| |lia|]; cbn [build_layers]; rewrite Hc.
  - simpl. destruct cur as [|r [|]]; try discriminate Hc. exists []. split; [done|]. constructor.
  - pose proof (Nat.pow_nonzero 2 k ltac:(lia)) as Hp. rewrite (proj2 (Nat.leb_gt _ _)) by (simpl; lia).
    destruct (next_layer_even cur (2 ^ k)) as [-> Hl]; [simpl in Hc; lia|]. cbn [rbind].
    destruct (IH fuel (map blake2b256 (layer_inputs cur))) as (up & -> & Hup); [by rewrite length_map|lia|].
    eexists. split; [reflexivity|]. apply layered_over; [rewrite length_map; simpl in Hc; lia|done|done].
Qed.

Lemma layered_length k ls : layered k ls -> length ls = S k.
Proof. induction 1; simpl in *; lia. Qed.

(** Between two layers: the entry above hashes the two below. *)
Lemma layered_step k ls j cur next i :
  layered k ls -> ls !! j = Some cur -> ls !! S j = Some next -> (i < length next)%nat ->
  (2 * i + 1 < length cur)%nat /\
  node_preimage (cur !!! (2 * i)%nat) (cur !!! (2 * i + 1)%nat) ∈ layer_inputs cur /\
  next !!! i = blake2b256 (node_preimage (cur !!! (2 * i)%nat) (cur !!! (2 * i + 1)%nat)).
Proof.
  intros H; revert j; induction H as [r|k c n up Hl Hn H IH]; intros j Hc Hj Hi; [by destruct j|].
  destruct j as [|j]; [|exact (IH j Hc Hj Hi)]. injection Hc as <-. injection Hj as <-.
  assert (Hlt : (2 * i + 1 < length c)%nat) by lia. pose proof (layer_inputs_lookup c i Hlt) as Hlk.
  split_and!; [done|by eapply list_elem_of_lookup_2|]. apply list_lookup_total_correct. subst n. by rewrite list_lookup_fmap, Hlk.
Qed.

Lemma layered_sizes k ls j cur : layered k ls -> ls !! j = Some cur -> length cur = (2 ^ (k - j))%nat.
Proof.
  intros H; revert j cur; induction H as [r|k c n up Hl Hn H IH]; intros j cur Hj.
  - destruct j; [by injection Hj as <-|done].
  - destruct j as [|j]; [|exact (IH j _ Hj)]. injection Hj as <-. rewrite Hl, (IH 0%nat _ eq_refl), !Nat.sub_0_r. simpl. lia.
Qed.

(** * Paths *)

(** The inputs hashed while climbing. *)
Fixpoint path_inputs (h : bytes) (idx : Z) (proof : list bytes) : list bytes :=
  match proof with
  | [] => []
  | s :: proof' =>
      step_preimage idx h s :: path_inputs (blake2b256 (step_preimage idx h s)) (Z.shiftr idx 1) proof'
  end.

Lemma climb_snoc h idx proof s top :
  climb h idx (proof ++ [s]) = Ok top ->
  exists h', climb h idx proof = Ok h' /\
    let d := step_preimage (Z.shiftr idx (Z.of_nat (length proof))) h' s in
    top = blake2b256 d /\ path_inputs h idx (proof ++ [s]) = path_inputs h idx proof ++ [d].
Proof.
  revert h idx; induction proof as [|s' proof IH]; intros h idx H.
  - cbn [app] in *. rewrite climb_cons in H. injection H as <-. exists h. by rewrite Z.shiftr_0_r.
  - cbn [app] in *. rewrite climb_cons in *. destruct (IH _ _ H) as (h' & E & -> & Ep). exists h'. split; [done|].
    rewrite Z.shiftr_shiftr in * by lia. replace (Z.of_nat (length (s' :: proof))) with (1 + Z.of_nat (length proof)) by (simpl; lia).
    cbn zeta in *. split; [done|]. cbn [path_inputs app]. by rewrite Ep.
Qed.

Lemma step_preimage_inj idx h s l r :
  length h = 32%nat -> length l = 32%nat -> length r = 32%nat -> step_preimage idx h s = node_preimage l r ->
  h = if idx mod 2 =? 0 then l else r.
Proof.
  intros Hh Hl Hr. unfold step_preimage, node_preimage. destruct (idx mod 2 =? 0); intros [= E].
  - by apply app_inj_length in E as [-> _]; [|rewrite Hh].
  - by apply app_inj_2 in E as [_ ->]; [|rewrite Hh].
Qed.

Lemma step_tag idx h s : exists d, step_preimage idx h s = 1 :: d.
Proof. unfold step_preimage, node_preimage. destruct (idx mod 2 =? 0); eexists; reflexivity. Qed.

Context `{!CryptoLaws C}.

Lemma climb_length h idx proof top : length h = 32%nat -> climb h idx proof = Ok top -> length top = 32%nat.
Proof.
  revert h idx; induction proof as [|s proof IH]; intros h idx Hh H; [by injection H as <-|].
  rewrite climb_cons in H. apply IH in H; [done|]. apply blake2b_length.
Qed.

Section Binding.
(** A tree, its bottom layer of hashes of inputs that are no nodes. *)
Context (K : nat) (ls : list (list bytes)) (bottom : list bytes).
Context (Hls : layered K ls) (Hbottom : ls !! 0%nat = Some (map blake2b256 bottom)).
Context (Htag : forall d, 1 :: d ∉ bottom).

Definition tree_inputs : list bytes := bottom ++ concat (map layer_inputs ls).

Lemma layer_entry j L i : ls !! j = Some L -> (i < length L)%nat ->
  exists d, d ∈ tree_inputs /\ L !!! i = blake2b256 d /\ length (L !!! i) = 32%nat /\
    match j with O => bottom !! i = Some d | S j' => exists cur, ls !! j' = Some cur /\ (2 * i + 1 < length cur)%nat /\
      d = node_preimage (cur !!! (2 * i)%nat) (cur !!! (2 * i + 1)%nat) end.
Proof.
  intros Hj Hi. destruct j as [|j].
  - rewrite Hbottom in Hj. injection Hj as <-. rewrite length_map in Hi.
    destruct (lookup_lt_is_Some_2 _ _ Hi) as [d Hd]. exists d.
    assert (He : map blake2b256 bottom !!! i = blake2b256 d).
    { apply list_lookup_total_correct. by rewrite list_lookup_fmap, Hd. }
    rewrite He. split_and!; [|done|apply blake2b_length|done]. apply elem_of_app. left. by eapply list_elem_of_lookup_2.
  - assert (Hlen := lookup_lt_Some _ _ _ Hj). destruct (lookup_lt_is_Some_2 ls j) as [cur Hc]; [lia|].
    destruct (layered_step K ls j cur L i Hls Hc Hj Hi) as (Hlt & Hin & He). eexists. rewrite He.
    split_and!; [|reflexivity|apply blake2b_length|by exists cur].
    apply elem_of_app. right. apply list_elem_of_In, in_concat. exists (layer_inputs cur).
    split; [|by apply list_elem_of_In]. apply in_map, list_elem_of_In. by eapply list_elem_of_lookup_2.
Qed.

(** A path that ends in an entry of the tree runs through the tree. *)
Lemma path_in_tree h idx proof j L i :
  length h = 32%nat -> 0 <= idx -> no_collision tree_inputs (path_inputs h idx proof) ->
  ls !! j = Some L -> (i < length L)%nat -> climb h idx proof = Ok (L !!! i) ->
  (length proof <= j)%nat /\
  exists L', ls !! (j - length proof)%nat = Some L' /\
    let i' := (i * 2 ^ length proof + Z.to_nat (idx mod 2 ^ Z.of_nat (length proof)))%nat in
    (i' < length L')%nat /\ h = L' !!! i'.
Proof.
  intros Hh Hidx. revert j L i; induction proof as [|s proof IH] using rev_ind; intros j L i HD Hj Hi H.
  { injection H as ->. split; [simpl; lia|]. exists L. rewrite Nat.sub_0_r. simpl. rewrite Z.mod_1_r.
    replace (i * 1 + Z.to_nat 0)%nat with i by lia. done. }
  apply climb_snoc in H as (h' & E & Htop & Hp). rewrite Hp in HD. rewrite length_app. cbn [length].
  destruct (layer_entry j L i Hj Hi) as (d & Hd & He & _ & Hcase). rewrite He in Htop.
  apply HD in Htop; [|done|apply elem_of_app; right; left].
  destruct j as [|j].
  { destruct (step_tag (Z.shiftr idx (Z.of_nat (length proof))) h' s) as [d' Hd']. rewrite Hd' in Htop. subst d.
    by destruct (Htag d'); eapply list_elem_of_lookup_2. }
  destruct Hcase as (cur & Hc & Hlt & ->). symmetry in Htop.
  destruct (layer_entry j cur (2 * i) Hc ltac:(lia)) as (_ & _ & _ & H0 & _).
  destruct (layer_entry j cur (2 * i + 1) Hc ltac:(lia)) as (_ & _ & _ & H1 & _).
  apply step_preimage_inj in Htop; [|exact (climb_length _ _ _ _ Hh E)|done..].
  set (b := Z.shiftr idx (Z.of_nat (length proof)) mod 2) in *. assert (Hb : b = 0 \/ b = 1) by (subst b; zdiv_lia).
  assert (Hh' : h' = cur !!! (2 * i + Z.to_nat b)%nat).
  { rewrite Htop. destruct Hb as [->| ->]; cbn; f_equal; lia. }
  rewrite Hh' in E. destruct (IH j cur (2 * i + Z.to_nat b)%nat) as (Hle & L' & HL & Hi' & Hfin); [|done|lia|done|].
  { eapply no_collision_sub; [exact HD|done|]. intros p Hp'. apply elem_of_app. by left. }
  split; [lia|]. exists L'. replace (S j - (length proof + 1))%nat with (j - length proof)%nat by lia. split; [done|].
  cbn zeta in *.
  replace (i * 2 ^ (length proof + 1) + _)%nat with ((2 * i + Z.to_nat b) * 2 ^ length proof + Z.to_nat (idx mod 2 ^ Z.of_nat (length proof)))%nat; [done|].
  assert (Hbv : b = idx / 2 ^ Z.of_nat (length proof) mod 2) by (subst b; by rewrite Z.shiftr_div_pow2 by lia).
  clearbody b. set (n := Z.of_nat (length proof)) in *.
  replace (Z.of_nat (length proof + 1)) with (n + 1) by lia. rewrite Nat.pow_add_r, Z.pow_add_r by lia.
  rewrite (Z.rem_mul_r idx (2 ^ n) (2 ^ 1)) by lia.
  assert (Hpos : 0 < 2 ^ n) by (apply Z.pow_pos_nonneg; lia). pose proof (Z.mod_pos_bound idx (2 ^ n) Hpos).
  change (2 ^ 1) with 2. rewrite <- Hbv. rewrite Z2Nat.inj_add, Z2Nat.inj_mul by lia.
  replace (Z.to_nat (2 ^ n)) with (2 ^ length proof)%nat by (subst n; rewrite <- (Nat2Z.id (2 ^ length proof)), Nat2Z.inj_pow; done).
  simpl. lia.
Qed.
End Binding.
End Tree.

Section Commitments.
Context `{C : Crypto} `{!CryptoLaws C}.

(** The inputs of the leaves of a committed board. *)
Definition board_leaves (board : bytes) (salts : list bytes) : list bytes :=
  map (fun cell => leaf_preimage cell (is_one board cell) (salt_at salts cell)) all_cells ++
  replicate (TREE_LEAVES - length all_cells) pad_preimage.

Definition HEIGHT : nat := 7.

Lemma length_board_leaves board salts : length (board_leaves board salts) = TREE_LEAVES.
Proof. unfold board_leaves. rewrite length_app, length_map, length_replicate. reflexivity. Qed.

Lemma all_cells_lookup cell : 0 <= cell < CELL_COUNT -> all_cells !! Z.to_nat cell = Some cell.
Proof.
  intros Hc. unfold all_cells. rewrite list_lookup_fmap, lookup_seq_lt by (unfold CELL_COUNT in Hc; lia).
  simpl. f_equal. lia.
Qed.

Lemma all_cells_bound cell : cell ∈ all_cells -> 0 <= cell < CELL_COUNT.
Proof.
  unfold all_cells. intros (n & -> & Hn)%list_elem_of_fmap. apply elem_of_seq in Hn.
  unfold CELL_COUNT, BATTLESHIP_CELL_COUNT, BOARD_SIZE in *. lia.
Qed.

Lemma board_leaves_lookup board salts cell : 0 <= cell < CELL_COUNT ->
  board_leaves board salts !! Z.to_nat cell = Some (leaf_preimage cell (is_one board cell) (salt_at salts cell)).
Proof.
  intros Hc. unfold board_leaves. rewrite lookup_app_l.
  - by rewrite list_lookup_fmap, all_cells_lookup.
  - rewrite length_map. eapply lookup_lt_Some, all_cells_lookup, Hc.
Qed.

Lemma board_leaves_tag board salts d : 1 :: d ∉ board_leaves board salts.
Proof.
  unfold board_leaves. intros [(x & E & _)%list_elem_of_fmap|[E _]%elem_of_replicate]%elem_of_app; discriminate E.
Qed.

Definition salts_ok (salts : list bytes) : Prop :=
  Z.of_nat (length salts) = CELL_COUNT /\ Forall (fun s => length s = SALT_BYTES) salts.

Lemma salt_at_length salts cell : salts_ok salts -> 0 <= cell < CELL_COUNT -> length (salt_at salts cell) = SALT_BYTES.
Proof.
  intros [Hl Hs] Hc. destruct (lookup_lt_is_Some_2 salts (Z.to_nat cell)) as [s Es]; [lia|].
  unfold salt_at. rewrite (list_lookup_total_correct _ _ _ Es). by eapply Forall_lookup_1 in Hs.
Qed.

Lemma leaves_total board salts : salts_ok salts ->
  rmap (fun cell => leafHash cell (is_one board cell) (salt_at salts cell)) all_cells =
  Ok (map (fun cell => blake2b256 (leaf_preimage cell (is_one board cell) (salt_at salts cell))) all_cells).
Proof.
  intros Hs. apply rmap_ok_Forall2, Forall2_fmap_r, Forall_Forall2_diag, Forall_forall.
  intros cell Hc%all_cells_bound. by apply leafHash_eq, salt_at_length.
Qed.

(** Committing is total on a board and salts of the right size, and the layers are the
    tree over the salted cells. *)
Lemma commitBoard_ok board salts :
  Z.of_nat (length board) = CELL_COUNT -> salts_ok salts ->
  exists c, commitBoard board salts = Ok c /\ layered HEIGHT (layers c) /\
    layers c !! 0%nat = Some (map blake2b256 (board_leaves board salts)) /\ layers c !! HEIGHT = Some [root c].
Proof.
  intros Hb Hs. unfold commitBoard. rewrite Hb, (proj1 Hs), !Z.eqb_refl. cbn [negb].
  rewrite leaves_total by done. cbn [rbind].
  set (leaves := map _ all_cells ++ replicate _ PAD_LEAF).
  assert (El : leaves = map blake2b256 (board_leaves board salts)).
  { unfold leaves, board_leaves. by rewrite map_app, map_map. }
  destruct (build_layered HEIGHT TREE_LEAVES leaves) as (up & -> & Hl).
  { rewrite El, length_map, length_board_leaves. reflexivity. }
  { unfold HEIGHT, TREE_LEAVES. lia. }
  cbn [rbind]. eexists. split; [reflexivity|]. cbn [layers root]. split_and!; [done|by rewrite <- El|].
  pose proof (layered_length _ _ Hl) as Hlen. rewrite last_lookup, Hlen. cbn [Nat.pred].
  destruct (lookup_lt_is_Some_2 (leaves :: up) HEIGHT) as [L HL]; [rewrite Hlen; unfold HEIGHT; lia|]. rewrite HL.
  pose proof (layered_sizes _ _ _ _ Hl HL) as HsL. rewrite Nat.sub_diag in HsL. simpl. by destruct L as [|r [|]].
Qed.

Lemma commitBoard_sizes board salts c :
  commitBoard board salts = Ok c -> Z.of_nat (length board) = CELL_COUNT /\ salts_ok salts.
Proof.
  unfold commitBoard. intros H. apply (f_equal is_ok) in H. cbn in H.
  destruct (Z.of_nat (length board) =? CELL_COUNT) eqn:Hb; [|discriminate H].
  destruct (Z.of_nat (length salts) =? CELL_COUNT) eqn:Hs; [|discriminate H]. bool_to_prop. cbn [negb] in H.
  split; [done|]. split; [done|]. destruct (rmap _ all_cells) as [cells|] eqn:E; [|discriminate H].
  apply rmap_ok_Forall2 in E. apply Forall_lookup. intros i s Hi.
  assert (Hlt := lookup_lt_Some _ _ _ Hi).
  destruct (Forall2_lookup_l _ _ _ i (Z.of_nat i) E) as (h & _ & Hh).
  { rewrite <- (Nat2Z.id i) at 1. apply all_cells_lookup. lia. }
  apply leafHash_ok in Hh as [Hh _]. unfold salt_at in Hh. rewrite Nat2Z.id in Hh. by rewrite (list_lookup_total_correct _ _ _ Hi) in Hh.
Qed.

(** * Proofs verify *)

Lemma lxor_one i : 0 <= i -> Z.lxor i 1 = if i mod 2 =? 0 then i + 1 else i - 1.
Proof.
  intros Hi. destruct (Z.eq_dec (i mod 2) 0) as [E|E].
  - rewrite E. cbn. rewrite <- Z.add_nocarry_lxor; [done|]. apply Z.bits_inj'. intros n Hn.
    rewrite Z.land_spec, Z.bits_0. destruct (Z.eq_dec n 0) as [->|]; [|by rewrite (Z.bits_above_log2 1), andb_false_r by (simpl; lia)].
    rewrite Z.bit0_odd, Zodd_mod. by rewrite E.
  - rewrite (proj2 (Z.eqb_neq _ _)) by done. replace i with (Z.lxor (i - 1) 1) at 1; [by rewrite Z.lxor_assoc, Z.lxor_nilpotent, Z.lxor_0_r|].
    rewrite <- Z.add_nocarry_lxor; [lia|]. apply Z.bits_inj'. intros n Hn.
    rewrite Z.land_spec, Z.bits_0. destruct (Z.eq_dec n 0) as [->|]; [|by rewrite (Z.bits_above_log2 1), andb_false_r by (simpl; lia)].
    rewrite Z.bit0_odd, Zodd_mod. replace ((i - 1) mod 2) with 0 by zdiv_lia. done.
Qed.

Lemma climb_siblings k ls i top :
  layered k ls -> 0 <= i < 2 ^ Z.of_nat k -> ls !! k = Some [top] ->
  climb (default [] (ls !! 0%nat) !!! Z.to_nat i) i (siblings ls i) = Ok top.
Proof.
  intros H; revert i; induction H as [r|k cur next up Hl Hn H IH]; intros i Hi Htop.
  - injection Htop as ->. simpl in Hi. by replace i with 0 by lia.
  - cbn [siblings]. rewrite climb_cons, Z.shiftr_div_pow2 by lia. change (2 ^ 1) with 2.
    rewrite Nat2Z.inj_succ, Z.pow_succ_r in Hi by lia.
    rewrite <- (IH (i / 2)); [|zdiv_lia|done]. f_equal.
    pose proof (layered_sizes _ _ 0%nat _ H eq_refl) as Hsz. rewrite Nat.sub_0_r in Hsz.
    assert (Hi2 : (Z.to_nat (i / 2) < length next)%nat).
    { rewrite Hsz. apply Nat2Z.inj_lt. rewrite Nat2Z.inj_pow, Z2Nat.id by zdiv_lia. simpl (Z.of_nat 2). zdiv_lia. }
    destruct (layered_step (S k) (cur :: next :: up) 0 cur next _ (layered_over _ _ _ _ Hl Hn H) eq_refl eq_refl Hi2) as (_ & _ & E).
    simpl. rewrite E. f_equal. unfold step_preimage. rewrite lxor_one by lia.
    destruct (i mod 2 =? 0) eqn:Em; bool_to_prop; f_equal; f_equal; zdiv_lia.
Qed.

(** * What a proof shows *)

(** The inputs hashed to check an opening. *)
Definition opening_inputs (cell : Z) (isShip : bool) (salt : bytes) (proof : list bytes) : list bytes :=
  leaf_preimage cell isShip salt :: path_inputs (blake2b256 (leaf_preimage cell isShip salt)) cell proof.

(** The inputs hashed to commit a board. *)
Definition commit_inputs (board : bytes) (salts : list bytes) (c : BoardCommitment) : list bytes :=
  tree_inputs (layers c) (board_leaves board salts).

Lemma verifyCell_true r cell b salt proof : verifyCell r cell b salt proof = Ok true <->
  0 <= cell < CELL_COUNT /\ length salt = SALT_BYTES /\
  climb (blake2b256 (leaf_preimage cell b salt)) cell proof = Ok r.
Proof.
  unfold verifyCell. destruct ((cell <? 0) || (CELL_COUNT <=? cell)) eqn:Ec.
  { bool_to_prop. destruct Ec; bool_to_prop; split; [done| |done|]; lia. }
  destruct (length salt =? SALT_BYTES)%nat eqn:Es; bool_to_prop; cbn [negb]; [|by split; [|tauto]].
  rewrite leafHash_eq by done. cbn [rbind].
  destruct (climb_total (blake2b256 (leaf_preimage cell b salt)) cell proof) as [h ->]. cbn [rbind]. split.
  - intros [= ->%bytesEqual_spec]. done.
  - intros (_ & _ & [= ->]). f_equal. by apply bytesEqual_spec.
Qed.

Lemma leaf_preimage_inj cell b s b' s' : leaf_preimage cell b s = leaf_preimage cell b' s' -> b = b' /\ s = s'.
Proof. unfold leaf_preimage. cbn. intros [= E ->]. split; [|done]. by destruct b, b'. Qed.

Lemma cell_in_tree cell : 0 <= cell < CELL_COUNT -> 0 <= cell < 2 ^ Z.of_nat HEIGHT.
Proof. change CELL_COUNT with 100. change (2 ^ Z.of_nat HEIGHT) with 128. lia. Qed.

Lemma honest_opening board salts c cell :
  commitBoard board salts = Ok c -> 0 <= cell < CELL_COUNT ->
  verifyCell (root c) cell (is_one board cell) (salt_at salts cell) (siblings (layers c) cell) = Ok true.
Proof.
  intros Hc Hcell. destruct (commitBoard_sizes _ _ _ Hc) as [Hb Hs].
  destruct (commitBoard_ok _ _ Hb Hs) as (c' & E & Hl & H0 & Htop). rewrite Hc in E. injection E as <-.
  apply verifyCell_true. split_and!; [lia..|by apply salt_at_length|].
  rewrite <- (climb_siblings HEIGHT (layers c) cell (root c) Hl); [|apply cell_in_tree; lia|done].
  rewrite H0. cbn [default id]. f_equal. symmetry. apply list_lookup_total_correct.
  by rewrite list_lookup_fmap, board_leaves_lookup.
Qed.

Lemma binding board salts c cell b salt proof :
  commitBoard board salts = Ok c -> verifyCell (root c) cell b salt proof = Ok true ->
  no_collision (commit_inputs board salts c) (opening_inputs cell b salt proof) ->
  b = is_one board cell /\ salt = salt_at salts cell /\ length proof = HEIGHT.
Proof.
  intros Hc (Hcell & Hsalt & Hclimb)%verifyCell_true HD. destruct (commitBoard_sizes _ _ _ Hc) as [Hb Hs].
  destruct (commitBoard_ok _ _ Hb Hs) as (c' & E & Hl & H0 & Htop). rewrite Hc in E. injection E as <-.
  destruct (path_in_tree HEIGHT (layers c) _ Hl H0 (board_leaves_tag board salts)
              (blake2b256 (leaf_preimage cell b salt)) cell proof HEIGHT [root c] 0) as (Hle & L & HL & Hi & Hh);
    [apply blake2b_length|lia| |done|simpl; lia|done|].
  { eapply no_collision_sub; [exact HD|done|]. intros p Hp. by right. }
  cbn zeta in *. destruct (layer_entry HEIGHT (layers c) _ Hl H0 _ _ _ HL Hi) as (d & Hd & He & _ & Hcase).
  rewrite He in Hh. symmetry in Hh. apply HD in Hh; [|done|left].
  destruct (HEIGHT - length proof)%nat as [|j] eqn:Ej; [|by destruct Hcase as (cur & _ & _ & ->)].
  assert (Hlen : length proof = HEIGHT) by lia. rewrite Hlen in Hcase. subst d.
  rewrite Z.mod_small in Hcase by (apply cell_in_tree; lia).
  cbn [Nat.mul Nat.add] in Hcase. rewrite board_leaves_lookup in Hcase by done. apply (inj Some) in Hcase.
  by apply leaf_preimage_inj in Hcase as [-> ->].
Qed.

Lemma binding_or board salts c cell b salt proof :
  commitBoard board salts = Ok c -> verifyCell (root c) cell b salt proof = Ok true ->
  b = is_one board cell /\ salt = salt_at salts cell /\ length proof = HEIGHT \/
  collision (commit_inputs board salts c) (opening_inputs cell b salt proof).
Proof.
  intros Hc Hv. destruct (collision_or (commit_inputs board salts c) (opening_inputs cell b salt proof)) as [|HD]; [by right|].
  left. by eapply binding.
Qed.

(** C21: A board is fixed by its root.  Every cell of a committed board has a proof that
    verifies; and whatever proof verifies against the root -- of whatever length, with
    siblings of whatever length -- it has seven siblings, shows what the board has in that
    cell and carries the salt of that cell, unless the hash collides between the inputs of
    the tree and those of the proof.  [verifyCell] never throws. *)
Theorem board_proofs_bind board salts c cell isShip salt proof :
  commitBoard board salts = Ok c ->
  (0 <= cell < CELL_COUNT -> exists p, proveCell c cell = Ok p /\
     verifyCell (root c) cell (is_one board cell) (salt_at salts cell) p = Ok true) /\
  (exists r, verifyCell (root c) cell isShip salt proof = Ok r) /\
  (verifyCell (root c) cell isShip salt proof = Ok true ->
   isShip = is_one board cell /\ salt = salt_at salts cell /\ length proof = HEIGHT \/
   collision (commit_inputs board salts c) (opening_inputs cell isShip salt proof)).
Proof.
  intros Hc. split_and!.
  - intros Hcell. exists (siblings (layers c) cell). split; [|by apply honest_opening]. unfold proveCell.
    rewrite (proj2 (Z.ltb_ge _ _)), (proj2 (Z.leb_gt _ _)) by lia. done.
  - unfold verifyCell. destruct (_ || _); [by eexists|]. destruct (length salt =? SALT_BYTES)%nat eqn:Es; [|by eexists].
    bool_to_prop. rewrite leafHash_eq by done. cbn [rbind negb].
    destruct (climb_total (blake2b256 (leaf_preimage cell isShip salt)) cell proof) as [h ->]. by eexists.
  - by apply binding_or.
Qed.

(** Nothing bounds the length of a proof: a root that is no board's can have a cell that
    opens both ways, by a short and by a longer proof. *)
Definition two_faced (z s1 s2 : bytes) : bytes :=
  blake2b256 (node_preimage (blake2b256 (node_preimage z (blake2b256 (leaf_preimage 1 false s2))))
                            (blake2b256 (leaf_preimage 1 true s1))).

Lemma two_faced_root z s1 s2 :
  length s1 = SALT_BYTES -> length s2 = SALT_BYTES ->
  verifyCell (two_faced z s1 s2) 1 true s1 [blake2b256 (node_preimage z (blake2b256 (leaf_preimage 1 false s2)))] = Ok true /\
  verifyCell (two_faced z s1 s2) 1 false s2 [z; blake2b256 (leaf_preimage 1 true s1)] = Ok true.
Proof.
  intros H1 H2. split; apply verifyCell_true; (split; [unfold CELL_COUNT, BATTLESHIP_CELL_COUNT, BOARD_SIZE; lia|]); (split; [done|]);
    rewrite !climb_cons; reflexivity.
Qed.
End Commitments.

(** A board with one ship cell, and its salts. *)
Definition sample_board : bytes := <[3%nat := 1]> (replicate 100 0).
Definition sample_salts : list bytes := map (fun i => replicate 32 (Z.of_nat i)) (seq 0 100).

Lemma board_proofs_bind_witness : exists c p,
  @commitBoard toy_crypto sample_board sample_salts = Ok c /\ proveCell c 3 = Ok p /\
  verifyCell (root c) 3 true (replicate 32 3) p = Ok true /\
  (verifyCell (root c) 3 false (replicate 32 3) p = Ok true ->
   collision (commit_inputs sample_board sample_salts c) (opening_inputs 3 false (replicate 32 3) p)).
Proof.
  destruct (@commitBoard_ok toy_crypto sample_board sample_salts) as (c & Hc & _).
  { reflexivity. }
  { split; [reflexivity|]. apply (bool_decide_unpack _). vm_compute. exact I. }
  destruct (board_proofs_bind sample_board sample_salts c 3 true (replicate 32 3) [] Hc) as [Hp _].
  destruct Hp as (p & Hp & Hv); [change CELL_COUNT with 100; lia|].
  exists c, p. split; [exact Hc|]. split; [exact Hp|]. split; [exact Hv|].
  intros H. destruct (board_proofs_bind sample_board sample_salts c 3 false (replicate 32 3) p Hc) as (_ & _ & Hb).
  destruct (Hb H) as [(E & _)|Hx]; [discriminate E|exact Hx].
Defined.
