(* ===== verification/BattleshipPvp.v ===== *)
(** Battleship with a proof per shot, [frontend/src/games/battleship/protocol/battleship.ts]:
    each seat commits the root of a tree over its board ([BoardMerkle]), every answer
    carries a proof, and the seat that sank the other fleet shows its own board before it
    is paid.  Also the move codec of that file and the seat driver [engine/pvpDriver.ts]. *)
From S2P Require Import Prelude.
From S2P Require Import Bytes.
From S2P Require Import Wire.
From S2P Require Import Crypto.
From S2P Require Import Protocol.
From S2P Require Import BattleshipFleet.
From S2P Require Import BoardMerkle.

(** [src frontend/src/games/battleship/protocol/battleship.ts Winner] *)
Definition Winner : Type := Z.

(** [src frontend/src/games/battleship/protocol/battleship.ts:41-45 Phase] *)
Inductive Phase := awaitingCommits | playing | awaitingBoardReveal | over.

#[export] Instance Phase_eq_dec : EqDecision Phase.
Proof. solve_decision. Defined.

(** [src frontend/src/games/battleship/protocol/battleship.ts ShotResult] *)
Record ShotResult := { shot_cell : Z; isHit : bool }.

(** [src frontend/src/games/battleship/protocol/battleship.ts:57-57 pendingShot] *)
Record PendingShot := { shot_by : Party; target : Z }.

(** [src frontend/src/games/battleship/protocol/battleship.ts BattleshipState] *)
Record BattleshipState := {
  phase : Phase;
  turn : Party;
  pendingShot : option PendingShot;
  commitA : option bytes;
  commitB : option bytes;
  shotsAtA : list ShotResult;
  shotsAtB : list ShotResult;
  hitsOnA : Z;
  hitsOnB : Z;
  winner : Winner;
  balanceA : Z;
  balanceB : Z;
  total : Z;
  stake : Z
}.

(** [src frontend/src/games/battleship/protocol/battleship.ts:75-87 BattleshipMove] *)
Inductive BattleshipMove :=
  | Commit (root : bytes)
  | Shoot (cell : jsnum)
  | Reveal (cell : jsnum) (isShip : bool) (salt : bytes) (proof : list bytes)
  | RevealBoard (cells : bytes) (salts : list bytes).

(** [src frontend/src/games/battleship/protocol/battleship.ts DOMAIN] *)
Definition DOMAIN : bytes := protocolDomain "battleship.v1".
(** [src frontend/src/games/battleship/protocol/battleship.ts COMMIT_BYTES] *)
Definition COMMIT_BYTES : nat := 32.

(** [src frontend/src/games/battleship/protocol/battleship.ts PHASE_CODE] *)
Definition PHASE_CODE (p : Phase) : Z :=
  match p with awaitingCommits => 0 | playing => 1 | over => 2 | awaitingBoardReveal => 3 end.

(** [src frontend/src/games/battleship/protocol/battleship.ts commitFor] *)
Definition commitFor (s : BattleshipState) (p : Party) : option bytes :=
  match p with PartyA => commitA s | PartyB => commitB s end.

(** [src frontend/src/games/battleship/protocol/battleship.ts pendingBoardReveal] *)
Definition pendingBoardReveal (s : BattleshipState) : option Party :=
  if negb (bool_decide (phase s = awaitingBoardReveal)) then None
  else if hitsOnB s =? FLEET_CELLS then Some PartyA
  else if hitsOnA s =? FLEET_CELLS then Some PartyB
  else None.

(** [src frontend/src/games/battleship/protocol/battleship.ts shiftStake] *)
Definition shiftStake (s : BattleshipState) (w : Winner) : Z * Z :=
  if w =? 0 then (balanceA s, balanceB s)
  else
    let loserBal := if w =? 1 then balanceB s else balanceA s in
    let shift := if stake s <? loserBal then stake s else loserBal in
    if w =? 1 then (balanceA s + shift, balanceB s - shift)
    else (balanceA s - shift, balanceB s + shift).

(** [src frontend/src/games/battleship/protocol/battleship.ts shotsAt] *)
Definition shotsAt (s : BattleshipState) (defender : Party) : list ShotResult :=
  match defender with PartyA => shotsAtA s | PartyB => shotsAtB s end.

(** [shots.some((s) => s.cell === cell)] *)
Definition fired_at (shots : list ShotResult) (cell : Z) : bool :=
  existsb (fun x => shot_cell x =? cell) shots.

(** [src frontend/src/games/battleship/protocol/battleship.ts BattleshipProtocol.constructor] *)
Definition newBattleship (stake : Z) : result Z :=
  throw_if (stake <? 0) with Error "stake must be non-negative" ;
  Ok stake.

(** [src frontend/src/games/battleship/protocol/battleship.ts BattleshipProtocol.initialState] *)
Definition initialState (defaultStake : Z) (ctx : ProtocolContext) : BattleshipState :=
  let a := bal_a (initialBalances ctx) in
  let b := bal_b (initialBalances ctx) in
  let cap := if a <? b then a else b in
  {| phase := awaitingCommits; turn := PartyA; pendingShot := None; commitA := None; commitB := None;
     shotsAtA := []; shotsAtB := []; hitsOnA := 0; hitsOnB := 0; winner := 0; balanceA := a; balanceB := b;
     total := a + b; stake := if defaultStake <? cap then defaultStake else cap |}.

(** [src frontend/src/games/battleship/protocol/battleship.ts BattleshipProtocol.applyCommit] *)
Definition applyCommit (s : BattleshipState) (root : bytes) (by_ : Party) : result BattleshipState :=
  throw_if negb (bool_decide (phase s = awaitingCommits)) with Error "commits are closed" ;
  throw_if negb (length root =? COMMIT_BYTES)%nat with Error "commitment must be 32 bytes" ;
  let! _ := match commitA s, commitB s with
            | None, _ => throw_if negb (party_eqb by_ PartyA) with Error "A commits first" ; Ok tt
            | _, None => throw_if negb (party_eqb by_ PartyB) with Error "B commits second" ; Ok tt
            | _, _ => Throw (Error "both fleets already committed")
            end in
  let cA := match by_ with PartyA => Some root | PartyB => commitA s end in
  let cB := match by_ with PartyB => Some root | PartyA => commitB s end in
  let both := match cA, cB with Some _, Some _ => true | _, _ => false end in
  Ok {| phase := if both then playing else phase s; turn := if both then PartyA else turn s;
        pendingShot := pendingShot s; commitA := cA; commitB := cB;
        shotsAtA := shotsAtA s; shotsAtB := shotsAtB s; hitsOnA := hitsOnA s; hitsOnB := hitsOnB s;
        winner := winner s; balanceA := balanceA s; balanceB := balanceB s; total := total s; stake := stake s |}.

(** [src frontend/src/games/battleship/protocol/battleship.ts BattleshipProtocol.applyShoot] *)
Definition applyShoot (s : BattleshipState) (cell : jsnum) (by_ : Party) : result BattleshipState :=
  throw_if negb (bool_decide (phase s = playing)) with Error "not in the firing phase" ;
  throw_if bool_decide (is_Some (pendingShot s)) with Error "awaiting the previous shot's reveal" ;
  throw_if negb (party_eqb by_ (turn s)) with Error "not your turn" ;
  match cell with
  | JsNonInt => Throw (Error "cell out of range")
  | JsInt c =>
      throw_if (c <? 0) || (CELL_COUNT <=? c) with Error "cell out of range" ;
      throw_if fired_at (shotsAt s (otherParty by_)) c with Error "already fired at cell" ;
      Ok {| phase := phase s; turn := turn s; pendingShot := Some {| shot_by := by_; target := c |};
            commitA := commitA s; commitB := commitB s; shotsAtA := shotsAtA s; shotsAtB := shotsAtB s;
            hitsOnA := hitsOnA s; hitsOnB := hitsOnB s; winner := winner s;
            balanceA := balanceA s; balanceB := balanceB s; total := total s; stake := stake s |}
  end.

Section WithCrypto.
Context `{C : Crypto}.

(** [src frontend/src/games/battleship/protocol/battleship.ts BattleshipProtocol.applyReveal] *)
Definition applyReveal (s : BattleshipState) (cell : jsnum) (isShip : bool) (salt : bytes) (proof : list bytes)
    (by_ : Party) : result BattleshipState :=
  match pendingShot s with
  | None => Throw (Error "no shot to reveal")
  | Some pending =>
      throw_if negb (bool_decide (phase s = playing)) with Error "no shot to reveal" ;
      throw_if negb (party_eqb by_ (otherParty (shot_by pending))) with Error "only the defender reveals" ;
      throw_if negb (bool_decide (cell = JsInt (target pending))) with Error "reveal must answer the pending shot" ;
      throw_if negb (length salt =? SALT_BYTES)%nat with Error "bad salt length" ;
      match commitFor s by_ with
      | None => Throw (Error "defender has not committed")
      | Some commit =>
          let! ok := verifyCell commit (target pending) isShip salt proof in
          throw_if negb ok with Error "reveal proof does not match the committed board" ;
          let r := {| shot_cell := target pending; isHit := isShip |} in
          let hA := if party_eqb by_ PartyA && isShip then hitsOnA s + 1 else hitsOnA s in
          let hB := if party_eqb by_ PartyB && isShip then hitsOnB s + 1 else hitsOnB s in
          let fleetDestroyed := (hB =? FLEET_CELLS) || (hA =? FLEET_CELLS) in
          Ok {| phase := if fleetDestroyed then awaitingBoardReveal else playing;
                turn := if fleetDestroyed then otherParty by_ else by_;
                pendingShot := None; commitA := commitA s; commitB := commitB s;
                shotsAtA := match by_ with PartyA => shotsAtA s ++ [r] | PartyB => shotsAtA s end;
                shotsAtB := match by_ with PartyB => shotsAtB s ++ [r] | PartyA => shotsAtB s end;
                hitsOnA := hA; hitsOnB := hB; winner := winner s;
                balanceA := balanceA s; balanceB := balanceB s; total := total s; stake := stake s |}
      end
  end.

(** [src frontend/src/games/battleship/protocol/battleship.ts BattleshipProtocol.applyRevealBoard] *)
Definition applyRevealBoard (s : BattleshipState) (cells : bytes) (salts : list bytes) (by_ : Party)
  : result BattleshipState :=
  match pendingBoardReveal s with
  | None => Throw (Error "no board reveal is due")
  | Some winnerSeat =>
      throw_if negb (party_eqb by_ winnerSeat) with Error "only the prospective winner reveals its board" ;
      throw_if negb (Z.of_nat (length cells) =? CELL_COUNT) with Error "board must be 100 cells" ;
      throw_if negb (Z.of_nat (length salts) =? CELL_COUNT) with Error "need 100 salts" ;
      let! c := commitBoard cells salts in
      let! same := match commitFor s by_ with
                   | None => Throw (TypeError "Cannot read properties of null")
                   | Some commit => Ok (bytesEqual (root c) commit)
                   end in
      throw_if negb same with Error "revealed board does not match the commitment" ;
      let! legal := isLegalBoard cells in
      let seat (p : Party) : Z := match p with PartyA => 1 | PartyB => 2 end in
      let w := if legal then seat winnerSeat else seat (otherParty winnerSeat) in
      let '(a, b) := shiftStake s w in
      Ok {| phase := over; turn := turn s; pendingShot := pendingShot s; commitA := commitA s; commitB := commitB s;
            shotsAtA := shotsAtA s; shotsAtB := shotsAtB s; hitsOnA := hitsOnA s; hitsOnB := hitsOnB s;
            winner := w; balanceA := a; balanceB := b; total := total s; stake := stake s |}
  end.

(** [src frontend/src/games/battleship/protocol/battleship.ts BattleshipProtocol.applyMove] *)
Definition applyMove (s : BattleshipState) (move : BattleshipMove) (by_ : Party) : result BattleshipState :=
  throw_if bool_decide (phase s = over) || negb (winner s =? 0) with Error "game already over" ;
  match move with
  | Commit root => applyCommit s root by_
  | Shoot cell => applyShoot s cell by_
  | Reveal cell isShip salt proof => applyReveal s cell isShip salt proof by_
  | RevealBoard cells salts => applyRevealBoard s cells salts by_
  end.

(** [src frontend/src/games/battleship/protocol/battleship.ts:343-350 shotBytes] *)
Definition shotBytes (shots : list ShotResult) : bytes :=
  u8_from (concat (map (fun x => [shot_cell x; if isHit x then 1 else 0]) shots)).

(** [src frontend/src/games/battleship/protocol/battleship.ts BattleshipProtocol.encodeState] *)
Definition encodeState (s : BattleshipState) : result bytes :=
  let pend := pendingShot s in
  let seat (p : Party) : Z := match p with PartyA => 0 | PartyB => 1 end in
  let fixed := u8_from
    [PHASE_CODE (phase s); seat (turn s);
     match pend with Some _ => 1 | None => 0 end;
     match pend with Some p => seat (shot_by p) | None => 0 end;
     match pend with Some p => target p | None => 0 end;
     hitsOnA s; hitsOnB s; winner s] in
  let! shots := lengthPrefixedConcat
    [default [] (commitA s); default [] (commitB s); shotBytes (shotsAtA s); shotBytes (shotsAtB s)] in
  let! a := u64ToBeBytes (balanceA s) in
  let! b := u64ToBeBytes (balanceB s) in
  let! st := u64ToBeBytes (stake s) in
  concatBytes [DOMAIN; fixed; shots; a; b; st].

(** [src frontend/src/games/battleship/protocol/battleship.ts BattleshipProtocol.balances] *)
Definition balances (s : BattleshipState) : Balances := {| bal_a := balanceA s; bal_b := balanceB s |}.

(** [src frontend/src/games/battleship/protocol/battleship.ts BattleshipProtocol.isTerminal] *)
Definition isTerminal (s : BattleshipState) : bool := negb (winner s =? 0).

(** The cells nobody fired at, in order. *)
Definition open_list (shots : list ShotResult) : list Z :=
  List.filter (fun cell => negb (fired_at shots cell)) all_cells.

(** [src frontend/src/games/battleship/protocol/battleship.ts BattleshipProtocol.randomMove]:
    [draw n] is [Math.floor(rng() * n)]. *)
Definition randomMove (s : BattleshipState) (by_ : Party) (draw : nat -> nat) : option BattleshipMove :=
  if negb (bool_decide (phase s = playing)) || bool_decide (is_Some (pendingShot s)) ||
     negb (party_eqb by_ (turn s)) then None
  else
    let open := open_list (shotsAt s (otherParty by_)) in
    if (length open =? 0)%nat then None
    else Some (Shoot (JsInt (nth (Nat.min (length open - 1) (draw (length open))) open 0))).

(** [src frontend/src/games/battleship/protocol/battleship.ts:139-145 BattleshipProtocol] *)
Definition BattleshipProtocol (defaultStake : Z) : Protocol BattleshipState BattleshipMove :=
  {| movesCarrySecrets := false;
     Protocol.initialState := fun ctx => Ok (initialState defaultStake ctx);
     Protocol.applyMove := applyMove;
     Protocol.encodeState := encodeState;
     Protocol.balances := balances;
     Protocol.isTerminal := isTerminal |}.
End WithCrypto.

(** The move codec of [frontend/src/games/battleship/protocol/battleship.ts], an instance of
    the interface of the frames: every move arrives as it was sent. *)
From S2P Require Import Json.
From S2P Require Import DistributedFrame.

(** [src frontend/src/games/battleship/protocol/battleship.ts:406-422 battleshipMoveCodec.encode] *)
Definition pvp_encode (m : BattleshipMove) : json :=
  match m with
  | Commit root => JObj [("type", JStr "commit"); ("root", JStr (toHex root))]
  | Shoot cell => JObj [("type", JStr "shoot"); ("cell", JNum cell)]
  | RevealBoard cells salts =>
      JObj [("type", JStr "reveal_board"); ("cells", JStr (toHex cells));
            ("salts", JArr (map (fun s => JStr (toHex s)) salts))]
  | Reveal cell isShip salt proof =>
      JObj [("type", JStr "reveal"); ("cell", JNum cell); ("isShip", JBool isShip);
            ("salt", JStr (toHex salt)); ("proof", JArr (map (fun s => JStr (toHex s)) proof))]
  end.

(** A decoded move, its numbers and flags as they came. *)
Inductive PvpMoveJs :=
  | JsCommit (root : bytes)
  | JsShoot (cell : option json)
  | JsReveal (cell isShip : option json) (salt : bytes) (proof : list bytes)
  | JsRevealBoard (cells : bytes) (salts : list bytes).

(** [(v ?? []).map(fromHex)]: only an array has [map]. *)
Definition hex_list (v : option json) : result (list bytes) :=
  match v with
  | None | Some JNull => Ok []
  | Some (JArr l) => rmap (fun x => fromHexJs (Some x)) l
  | Some _ => Throw (TypeError "map is not a function")
  end.

(** [src frontend/src/games/battleship/protocol/battleship.ts:423-451 battleshipMoveCodec.decode] *)
Definition pvp_decode (v : option json) : result PvpMoveJs :=
  match v with
  | None => Throw (TypeError "Cannot read properties of undefined")
  | Some o =>
      let! type := jget o "type" in
      let type_is (s : string) := match type with Some (JStr k) => String.eqb k s | _ => false end in
      if type_is "commit" then
        let! r := jget o "root" in
        let! root := fromHexJs r in
        Ok (JsCommit root)
      else if type_is "shoot" then
        let! cell := jget o "cell" in
        Ok (JsShoot cell)
      else if type_is "reveal" then
        let! cell := jget o "cell" in
        let! isShip := jget o "isShip" in
        let! sj := jget o "salt" in
        let! salt := fromHexJs sj in
        let! pj := jget o "proof" in
        let! proof := hex_list pj in
        Ok (JsReveal cell isShip salt proof)
      else if type_is "reveal_board" then
        let! cj := jget o "cells" in
        let! cells := fromHexJs (match cj with None | Some JNull => Some (JStr "") | _ => cj end) in
        let! sj := jget o "salts" in
        let! salts := hex_list sj in
        Ok (JsRevealBoard cells salts)
      else Throw (Error "unknown battleship move")
  end.

(** The move, if its members have the declared types. *)
Definition pvp_typed (m : PvpMoveJs) : option BattleshipMove :=
  match m with
  | JsCommit r => Some (Commit r)
  | JsShoot (Some (JNum n)) => Some (Shoot n)
  | JsReveal (Some (JNum n)) (Some (JBool b)) salt proof => Some (Reveal n b salt proof)
  | JsRevealBoard cells salts => Some (RevealBoard cells salts)
  | _ => None
  end.

(** [src frontend/src/games/battleship/protocol/battleship.ts:405-405 battleshipMoveCodec] *)
Definition battleshipMoveCodec : MoveCodec BattleshipMove PvpMoveJs :=
  {| encode := pvp_encode; decode := pvp_decode; typed := pvp_typed |}.

Definition pvp_move_ok (m : BattleshipMove) : Prop :=
  match m with
  | Commit r => bytes_ok r
  | Shoot _ => True
  | Reveal _ _ salt proof => bytes_ok salt /\ Forall bytes_ok proof
  | RevealBoard cells salts => bytes_ok cells /\ Forall bytes_ok salts
  end.

Lemma hex_list_ok l : Forall bytes_ok l -> hex_list (Some (JArr (map (fun s => JStr (toHex s)) l))) = Ok l.
Proof.
  intros H. cbn [hex_list]. apply rmap_ok_Forall2, Forall2_fmap_l, Forall_Forall2_diag.
  eapply Forall_impl; [exact H|]. intros x Hx. by apply fromHex_toHex.
Qed.

#[export] Instance pvpCodecLaws : CodecLaws battleshipMoveCodec pvp_move_ok (fun m => m).
Proof.
  split; [|done]. intros m Hm. unfold decode, battleshipMoveCodec, pvp_decode, encode, typed.
  destruct m as [r|c|c b s p|cs ss]; cbn -[fromHexJs hex_list toHex] in *; unfold fromHexJs; cbn -[hex_list toHex fromHex].
  - rewrite fromHex_toHex by done. by eexists.
  - by eexists.
  - destruct Hm. rewrite fromHex_toHex, hex_list_ok by done. by eexists.
  - destruct Hm. rewrite fromHex_toHex, hex_list_ok by done. by eexists.
Qed.
