(* ===== verification/BattleshipBot.v ===== *)
(** The battleship opponent, [frontend/src/games/battleship/engine/bot.ts]: which cell to
    fire at.  A [Set] of cells is the list of its members in insertion order; [rng] is
    asked once per shot, and [draw n] is [Math.floor(rng() * n)]. *)
From stdpp Require Import sorting.
From S2P Require Import Prelude.
From S2P Require Import Protocol.
From S2P Require Import BattleshipFleet.
From S2P Require Import BoardMerkle.
From S2P Require Import BattleshipPvp.

(** [src frontend/src/games/battleship/engine/bot.ts BotDifficulty] *)
Inductive BotDifficulty := easy | normal | hard.
(** [src frontend/src/games/battleship/engine/bot.ts HuntStrategy] *)
Inductive HuntStrategy := random | parity | density.
(** [src frontend/src/games/battleship/engine/bot.ts DEFAULT_BOT_DIFFICULTY] *)
Definition DEFAULT_BOT_DIFFICULTY : BotDifficulty := normal.

(** [src frontend/src/games/battleship/engine/bot.ts BotConfig] *)
Record BotConfig := { difficulty : BotDifficulty; chaseHits : bool; followLine : bool; hunt : HuntStrategy }.

(** [src frontend/src/games/battleship/engine/bot.ts BOT_CONFIGS] *)
Definition BOT_CONFIGS (d : BotDifficulty) : BotConfig :=
  match d with
  | easy => {| difficulty := easy; chaseHits := true; followLine := false; hunt := random |}
  | normal => {| difficulty := normal; chaseHits := true; followLine := true; hunt := parity |}
  | hard => {| difficulty := hard; chaseHits := true; followLine := true; hunt := density |}
  end.

(** [src frontend/src/games/battleship/engine/bot.ts ORTHO] *)
Definition ORTHO : list (Z * Z) := [(-1, 0); (1, 0); (0, -1); (0, 1)].

(** [src frontend/src/games/battleship/engine/bot.ts FLEET_SIZES] *)
Definition FLEET_SIZES : list Z := map ship_size FLEET.

(** [set.has(cell)] and [set.add(cell)] *)
Definition has (set : list Z) (cell : Z) : bool := existsb (Z.eqb cell) set.
Definition add (set : list Z) (cell : Z) : list Z := if has set cell then set else set ++ [cell].

(** [src frontend/src/games/battleship/engine/bot.ts orthoNeighbors]: the loop of
    [fleet.ts] again. *)
Definition bot_orthoNeighbors (cell : Z) : list Z := neighbors ORTHO cell.

(** [src frontend/src/games/battleship/engine/bot.ts neighbors8] *)
Definition neighbors8 (cell : Z) : list Z :=
  neighbors [(-1, -1); (-1, 0); (-1, 1); (0, -1); (0, 1); (1, -1); (1, 0); (1, 1)] cell.

(** [src frontend/src/games/battleship/engine/bot.ts openCells] *)
Definition openCells (fired : list Z) : list Z := List.filter (fun cell => negb (has fired cell)) all_cells.

(** [src frontend/src/games/battleship/engine/bot.ts pickFrom]; [None] is the [undefined] of an
    empty pool. *)
Definition pickFrom (pool : list Z) (draw : nat -> nat) : option Z :=
  pool !! Nat.min (length pool - 1) (draw (length pool)).

(** [src frontend/src/games/battleship/engine/bot.ts placementRun] *)
Definition placementRun (cell size : Z) (horizontal : bool) : option (list Z) :=
  run_cells (if horizontal then Hor else Ver) (rowOf cell) (colOf cell) 0 (Z.to_nat size).

(** [src frontend/src/games/battleship/engine/bot.ts:184-187 lineExtensions] the walk to the end of
    a run of hits; a board has ten rows, so ten steps are enough. *)
Fixpoint run_end (fuel : nat) (hits : list Z) (dr dc er ec : Z) : Z * Z :=
  match fuel with
  | O => (er, ec)
  | S fuel' =>
      if inBounds (er + dr) (ec + dc) && has hits (cellAt (er + dr) (ec + dc))
      then run_end fuel' hits dr dc (er + dr) (ec + dc)
      else (er, ec)
  end.

(** [src frontend/src/games/battleship/engine/bot.ts lineExtensions] *)
Definition lineExtensions (hits fired : list Z) : list Z :=
  concat (map (fun h =>
    let r := rowOf h in
    let c := colOf h in
    concat (map (fun '(dr, dc) =>
      if negb (inBounds (r + dr) (c + dc)) || negb (has hits (cellAt (r + dr) (c + dc))) then []
      else
        let '(er, ec) := run_end 10 hits dr dc (r + dr) (c + dc) in
        if inBounds (er + dr) (ec + dc) && negb (has fired (cellAt (er + dr) (ec + dc)))
        then [cellAt (er + dr) (ec + dc)] else []) ORTHO)) hits).

(** [src frontend/src/games/battleship/engine/bot.ts HitGroups] *)
Record HitGroups := { active : list Z; sunk : list Z; sunkSizes : list Z }.

(** [src frontend/src/games/battleship/engine/bot.ts:227-231 groupHits] *)
Definition spread (hits : list Z) (ns : list Z) (seen stack : list Z) : list Z * list Z :=
  fold_left (fun '(seen, stack) n =>
    if has hits n && negb (has seen n) then (add seen n, n :: stack) else (seen, stack)) ns (seen, stack).

(** [src frontend/src/games/battleship/engine/bot.ts:221-232 groupHits] the flood fill of a run of
    hits; the top of the stack is its head, and every hit is pushed once. *)
Fixpoint hit_run (fuel : nat) (hits seen stack run : list Z) : list Z * list Z :=
  match fuel with
  | O => (seen, run)
  | S fuel' =>
      match stack with
      | [] => (seen, run)
      | cur :: stack' =>
          let '(seen', stack'') := spread hits (bot_orthoNeighbors cur) seen stack' in
          hit_run fuel' hits seen' stack'' (run ++ [cur])
      end
  end.

(** [src frontend/src/games/battleship/engine/bot.ts:236-261 groupHits] *)
Definition canGrow (fired run : list Z) : bool :=
  match run with
  | [h] => existsb (fun n => negb (has fired n)) (bot_orthoNeighbors h)
  | _ =>
      let horizontal := (length (remove_dups (map rowOf run)) =? 1)%nat in
      let sorted := merge_sort Z.le run in
      let lo := default 0 (head sorted) in
      let hi := default 0 (last sorted) in
      let before := if horizontal then (if 0 <? colOf lo then Some (lo - 1) else None)
                    else (if 0 <? rowOf lo then Some (lo - BOARD_SIZE) else None) in
      let after := if horizontal then (if colOf hi <? BOARD_SIZE - 1 then Some (hi + 1) else None)
                   else (if rowOf hi <? BOARD_SIZE - 1 then Some (hi + BOARD_SIZE) else None) in
      let free (o : option Z) := match o with Some c => negb (has fired c) | None => false end in
      free before || free after
  end.

(** [src frontend/src/games/battleship/engine/bot.ts:218-268 groupHits] one run, from [start] *)
Definition group_start (hits fired : list Z) (gs : HitGroups * list Z) (start : Z) : HitGroups * list Z :=
  let '(g, seen) := gs in
  if has seen start then (g, seen)
  else
    let '(seen', run) := hit_run (S (length hits)) hits (add seen start) [start] [] in
    if canGrow fired run
    then ({| active := fold_left add run (active g); sunk := sunk g; sunkSizes := sunkSizes g |}, seen')
    else ({| active := active g; sunk := fold_left add run (sunk g);
             sunkSizes := sunkSizes g ++ [Z.of_nat (length run)] |}, seen').

(** [src frontend/src/games/battleship/engine/bot.ts groupHits] *)
Definition groupHits (hits fired : list Z) : HitGroups :=
  fst (fold_left (group_start hits fired) hits ({| active := []; sunk := []; sunkSizes := [] |}, [])).

(** [sizes.indexOf(sunk)] and [sizes.splice(i, 1)] *)
Fixpoint splice (sizes : list Z) (n : Z) : list Z :=
  match sizes with
  | [] => []
  | x :: sizes' => if x =? n then sizes' else x :: splice sizes' n
  end.

(** [src frontend/src/games/battleship/engine/bot.ts remainingSizes] *)
Definition remainingSizes (sunkSizes : list Z) : list Z := fold_left splice sunkSizes FLEET_SIZES.

(** [src frontend/src/games/battleship/engine/bot.ts:297-302 densityShot] *)
Definition blocked_cells (fired hits sunk : list Z) : list Z :=
  fold_left (fun b c => fold_left add (neighbors8 c) (add b c)) sunk
    (fold_left add (List.filter (fun c => negb (has hits c)) fired) []).

(** [src frontend/src/games/battleship/engine/bot.ts:305-305 HIT_WEIGHT] *)
Definition HIT_WEIGHT : Z := 1000.

(** [src frontend/src/games/battleship/engine/bot.ts:312-315 densityShot] the weight of a placement *)
Definition placement_weight (blocked active : list Z) (cells : option (list Z)) : Z :=
  match cells with
  | None => 0
  | Some cells =>
      if existsb (has blocked) cells then 0
      else
        let overlap := Z.of_nat (length (List.filter (has active) cells)) in
        if 0 <? overlap then HIT_WEIGHT * overlap else 1
  end.

(** [src frontend/src/games/battleship/engine/bot.ts:306-319 densityShot] the score of a cell: the
    weights of the placements that cover it.  The sums stay far below 2^53, where doubles
    are exact. *)
Definition density_score (fired blocked active sizes : list Z) (c : Z) : Z :=
  if has fired c then 0
  else
    fold_left (fun n size =>
      fold_left (fun n horizontal =>
        fold_left (fun n anchor =>
          let cells := placementRun anchor size horizontal in
          if has (default [] cells) c then n + placement_weight blocked active cells else n)
        all_cells n) [true; false] n) sizes 0.

(** [src frontend/src/games/battleship/engine/bot.ts:321-330 densityShot] the cells with the best score *)
Definition best_cells (fired : list Z) (score : Z -> Z) : list Z :=
  snd (fold_left (fun '(best, tied) c =>
    if has fired c || (score c =? 0) then (best, tied)
    else if best <? score c then (score c, [c])
    else if score c =? best then (best, tied ++ [c])
    else (best, tied)) all_cells (0, [])).

(** [src frontend/src/games/battleship/engine/bot.ts densityShot] *)
Definition densityShot (fired hits : list Z) (draw : nat -> nat) : option Z :=
  let g := groupHits hits fired in
  let blocked := blocked_cells fired hits (sunk g) in
  let sizes := remainingSizes (sunkSizes g) in
  let tied := best_cells fired (density_score fired blocked (active g) sizes) in
  if (0 <? length tied)%nat then pickFrom tied draw else pickFrom (openCells fired) draw.

(** [src frontend/src/games/battleship/engine/bot.ts shotsAtBoard] *)
Definition shotsAtBoard (s : BattleshipState) (defender : Party) : list ShotResult :=
  match defender with PartyA => shotsAtA s | PartyB => shotsAtB s end.

(** [src frontend/src/games/battleship/engine/bot.ts pickShot] *)
Definition pickShot (s : BattleshipState) (shooter : Party) (draw : nat -> nat) (config : BotConfig) : option Z :=
  let shots := shotsAtBoard s (otherParty shooter) in
  let fired := fold_left add (map shot_cell shots) [] in
  let hits := fold_left add (map shot_cell (List.filter isHit shots)) [] in
  match hunt config with
  | density => densityShot fired hits draw
  | h =>
      let lines := if followLine config then lineExtensions hits fired else [] in
      let targets := if (0 <? length lines)%nat then lines
                     else concat (map (fun h => List.filter (fun n => negb (has fired n)) (bot_orthoNeighbors h)) hits) in
      if chaseHits config && (0 <? length hits)%nat && (0 <? length targets)%nat then pickFrom targets draw
      else
        let open := openCells fired in
        let par := List.filter (fun cell => Z.rem (rowOf cell + colOf cell) 2 =? 0) open in
        match h with
        | parity => if (0 <? length par)%nat then pickFrom par draw else pickFrom open draw
        | _ => pickFrom open draw
        end
  end.
