(* ===== verification/BattleshipPvpGame.v ===== *)
(** Games of battleship with proofs: the invariant of a game, what decides it, what an
    honest board guarantees, and that self-play finishes at every difficulty. *)

From S2P Require Import Prelude.
From S2P Require Import Bytes.
From S2P Require Import Crypto.
From S2P Require Import Protocol.
From S2P Require Import DistributedTunnel.
From S2P Require Import BattleshipFleet.
From S2P Require Import BoardMerkle.
From S2P Require Import BattleshipPvp.
From S2P Require Import BattleshipBot.
From S2P Require Import Wire.
From S2P Require Import RollingDigest.
From S2P Require Import BattleshipLegal.

(* Who plays battleship with proofs: the self-play driver that knows both fleets,
    [frontend/src/games/battleship/engine/selfPlay.ts], and the driver of one seat on its
    tunnel, [engine/pvpDriver.ts]. *)

Section WithCrypto.
Context `{C : Crypto}.

(** [src frontend/src/games/battleship/engine/selfPlay.ts FleetSecret] *)
Record FleetSecret := { fs_board : bytes; fs_salts : list bytes; fs_commitment : BoardCommitment }.

(** [src frontend/src/games/battleship/engine/selfPlay.ts makeFleetSecret] *)
Definition makeFleetSecret (board : bytes) (salts : list bytes) : result FleetSecret :=
  let! c := commitBoard board salts in
  Ok {| fs_board := board; fs_salts := salts; fs_commitment := c |}.

(** [src frontend/src/games/battleship/engine/selfPlay.ts randomFleetSecret]: the draws of the
    placement, then [saltOf i j], [Math.floor(rng() * 256)] for byte [j] of salt [i]. *)
Definition randomFleetSecret (coin : nat -> bool) (cellOf : nat -> Z) (saltOf : nat -> nat -> Z) : result FleetSecret :=
  let! ps := placeFleetRandom coin cellOf in
  let! board := placementsToBoard ps in
  makeFleetSecret board (map (fun i => u8_from (map (saltOf i) (seq 0 SALT_BYTES))) (seq 0 (Z.to_nat CELL_COUNT))).

(** [src frontend/src/games/battleship/engine/selfPlay.ts DrivenMove] *)
Record DrivenMove := { dm_move : BattleshipMove; dm_by : Party }.

Definition secret_of (secrets : FleetSecret * FleetSecret) (p : Party) : FleetSecret :=
  match p with PartyA => fst secrets | PartyB => snd secrets end.

(** [src frontend/src/games/battleship/engine/pvpDriver.ts revealMove] *)
Definition revealMove (secret : FleetSecret) (cell : Z) : result BattleshipMove :=
  let! proof := proveCell (fs_commitment secret) cell in
  Ok (Reveal (JsInt cell) (is_one (fs_board secret) cell) (salt_at (fs_salts secret) cell) proof).

(** A shot at [undefined] is a shot at no integer. *)
Definition shot_number (c : option Z) : jsnum := match c with Some c => JsInt c | None => JsNonInt end.

(** [src frontend/src/games/battleship/engine/selfPlay.ts nextMove]; it spells [revealMove] out. *)
Definition nextMove (s : BattleshipState) (secrets : FleetSecret * FleetSecret) (draw : nat -> nat)
    (d : BotDifficulty) : result (option DrivenMove) :=
  if negb (winner s =? 0) || bool_decide (phase s = over) then Ok None
  else
    match phase s with
    | awaitingCommits =>
        match commitA s, commitB s with
        | None, _ => Ok (Some {| dm_by := PartyA; dm_move := Commit (root (fs_commitment (fst secrets))) |})
        | _, None => Ok (Some {| dm_by := PartyB; dm_move := Commit (root (fs_commitment (snd secrets))) |})
        | _, _ => Ok None
        end
    | awaitingBoardReveal =>
        match pendingBoardReveal s with
        | None => Ok None
        | Some w =>
            let secret := secret_of secrets w in
            Ok (Some {| dm_by := w; dm_move := RevealBoard (fs_board secret) (fs_salts secret) |})
        end
    | _ =>
        match pendingShot s with
        | Some pending =>
            let defender := otherParty (shot_by pending) in
            let! m := revealMove (secret_of secrets defender) (target pending) in
            Ok (Some {| dm_by := defender; dm_move := m |})
        | None =>
            Ok (Some {| dm_by := turn s;
                        dm_move := Shoot (shot_number (pickShot s (turn s) draw (BOT_CONFIGS d))) |})
        end
    end.

(** [src frontend/src/games/battleship/engine/selfPlay.ts playToCompletion]: [rng i] is the draw
    of the [i]-th move from the end. *)
Fixpoint playToCompletion (maxMoves : nat) (s : BattleshipState) (secrets : FleetSecret * FleetSecret)
    (rng : nat -> nat -> nat) (d : BotDifficulty) : result BattleshipState :=
  match maxMoves with
  | O => Throw (Error "game did not terminate within maxMoves")
  | S n =>
      let! driven := nextMove s secrets (rng n) d in
      match driven with
      | None => Ok s
      | Some m =>
          let! s' := applyMove s (dm_move m) (dm_by m) in
          playToCompletion n s' secrets rng d
      end
  end.

(** [src frontend/src/games/battleship/engine/pvpDriver.ts canFireShot] *)
Definition canFireShot (s : BattleshipState) (role : Party) (cell : Z) (hasPending : bool) : bool :=
  if hasPending then false
  else if negb (bool_decide (phase s = playing)) || bool_decide (is_Some (pendingShot s)) ||
          negb (party_eqb (turn s) role) || negb (winner s =? 0) then false
  else negb (fired_at (match role with PartyA => shotsAtB s | PartyB => shotsAtA s end) cell).

(** [src frontend/src/games/battleship/engine/pvpDriver.ts:66-95 proposeDue] the move this seat owes *)
Definition due_move (s : BattleshipState) (role : Party) (secret : FleetSecret) : result (option BattleshipMove) :=
  if negb (winner s =? 0) then Ok None
  else
    match phase s with
    | awaitingBoardReveal =>
        if bool_decide (pendingBoardReveal s = Some role)
        then Ok (Some (RevealBoard (fs_board secret) (fs_salts secret))) else Ok None
    | awaitingCommits =>
        let myCommit := match role with PartyA => commitA s | PartyB => commitB s end in
        let myTurnToCommit := match role with
                              | PartyA => negb (bool_decide (is_Some (commitA s)))
                              | PartyB => bool_decide (is_Some (commitA s))
                              end in
        if bool_decide (is_Some myCommit) || negb myTurnToCommit then Ok None
        else Ok (Some (Commit (root (fs_commitment secret))))
    | playing =>
        match pendingShot s with
        | Some q => if party_eqb (shot_by q) role then Ok None
                    else let! m := revealMove secret (target q) in Ok (Some m)
        | None => Ok None
        end
    | over => Ok None
    end.

(** [src frontend/src/games/battleship/engine/pvpDriver.ts proposeDue] *)
Definition proposeDue (stake : Z) (role : Party) (secret : FleetSecret)
  : eff (DistributedTunnel BattleshipState BattleshipMove) bool :=
  do! dt <- eget;
  do! m <- elift (due_move (d_state dt) role secret);
  match m with
  | None => eret false
  | Some m => do! _ <- propose (BattleshipProtocol stake) m 0; eret true
  end.

End WithCrypto.

(** * Shots *)

Definition cells_of (shots : list ShotResult) : list Z := map shot_cell shots.
Definition hits_of (shots : list ShotResult) : list ShotResult := filter (fun x => isHit x = true) shots.

(** Distinct cells of the board, with the number of hits among them. *)
Definition shots_ok (shots : list ShotResult) (hits : Z) : Prop :=
  NoDup (cells_of shots) /\ Forall cell_ok (cells_of shots) /\ hits = Z.of_nat (length (hits_of shots)).

(** Every answer is what the board says. *)
Definition truthful (board : bytes) (shots : list ShotResult) : Prop :=
  Forall (fun x => isHit x = is_one board (shot_cell x)) shots.

Lemma fired_at_iff shots c : fired_at shots c = true <-> c ∈ cells_of shots.
Proof.
  unfold fired_at, cells_of. rewrite existsb_exists, list_elem_of_fmap. setoid_rewrite Z.eqb_eq.
  setoid_rewrite <- list_elem_of_In. naive_solver.
Qed.

Lemma shots_snoc shots hits c hit :
  shots_ok shots hits -> cell_ok c -> fired_at shots c = false ->
  shots_ok (shots ++ [{| shot_cell := c; isHit := hit |}]) (if hit then hits + 1 else hits).
Proof.
  intros (Hnd & Hok & ->) Hc Hf.
  assert (Hn : c ∉ cells_of shots) by (rewrite <- fired_at_iff; congruence).
  unfold shots_ok, cells_of, hits_of in *. rewrite map_app, filter_app, length_app. split_and!.
  - apply NoDup_app. split_and!; [done| |apply NoDup_singleton]. intros d Hd ->%list_elem_of_singleton. done.
  - apply Forall_app. split; [done|]. by constructor.
  - rewrite filter_cons, filter_nil. destruct hit; simpl; lia.
Qed.

Lemma shots_at_most shots hits : shots_ok shots hits -> (length shots <= 100)%nat.
Proof.
  intros (Hnd & Hok & _). rewrite <- length_all_cells. unfold cells_of in *. rewrite <- (length_map shot_cell).
  apply NoDup_incl_length; [by apply NoDup_ListNoDup|].
  intros c Hc%list_elem_of_In. apply list_elem_of_In, elem_of_all_cells. rewrite Forall_forall in Hok. auto.
Qed.

Definition hitsOn (s : BattleshipState) (p : Party) : Z :=
  match p with PartyA => hitsOnA s | PartyB => hitsOnB s end.
Definition seat_code (p : Party) : Z := match p with PartyA => 1 | PartyB => 2 end.
(** What a result does to the deposits. *)
Definition shift_of (w st : Z) : Z := if w =? 1 then st else if w =? 2 then - st else 0.

Section WithCrypto.
Context `{C : Crypto}.

(** An answer was checked against the commitment of the seat that gave it. *)
Definition answered (commit : option bytes) (x : ShotResult) : Prop :=
  exists h salt proof, commit = Some h /\ verifyCell h (shot_cell x) (isHit x) salt proof = Ok true.

(** [p] sank the other fleet, and is not sunk. *)
Definition sank (s : BattleshipState) (p : Party) : Prop :=
  hitsOn s (otherParty p) = FLEET_CELLS /\ hitsOn s p < FLEET_CELLS.

(** The board [p] showed, and who is paid for it. *)
Definition decided (s : BattleshipState) (p : Party) : Prop :=
  exists board salts c legal, commitBoard board salts = Ok c /\ commitFor s p = Some (root c) /\
    isLegalBoard board = Ok legal /\ winner s = seat_code (if legal : bool then p else otherParty p).

Definition phase_ok (s : BattleshipState) : Prop :=
  match phase s with
  | awaitingCommits => commitB s = None /\ pendingShot s = None /\ shotsAtA s = [] /\ shotsAtB s = [] /\ winner s = 0
  | playing =>
      is_Some (commitA s) /\ is_Some (commitB s) /\ winner s = 0 /\ (forall p, hitsOn s p < FLEET_CELLS) /\
      match pendingShot s with
      | None => True
      | Some q => shot_by q = turn s /\ cell_ok (target q) /\ fired_at (shotsAt s (otherParty (turn s))) (target q) = false
      end
  | awaitingBoardReveal =>
      is_Some (commitA s) /\ is_Some (commitB s) /\ winner s = 0 /\ pendingShot s = None /\ sank s (turn s)
  | over => exists p, sank s p /\ decided s p
  end.

Record game_ok (a0 b0 st : Z) (s : BattleshipState) : Prop := {
  g_stake : stake s = st;
  g_total : total s = a0 + b0;
  g_balA : balanceA s = a0 + shift_of (winner s) st;
  g_balB : balanceB s = b0 - shift_of (winner s) st;
  g_shots : forall p, shots_ok (shotsAt s p) (hitsOn s p);
  g_answers : forall p, Forall (answered (commitFor s p)) (shotsAt s p);
  g_phase : phase_ok s
}.

Section Step.
Context (a0 b0 st : Z) (Hst : 0 <= st <= Z.min a0 b0).
Notation inv := (game_ok a0 b0 st).

Lemma pvp_commit_inv s r by_ s' : inv s -> applyCommit s r by_ = Ok s' -> inv s'.
Proof.
  intros [H1 H2 H3 H4 H5 H6 H7] E. unfold applyCommit in E. inv_ok. bool_to_prop. unfold phase_ok in H7. rewrite E0 in H7.
  destruct H7 as (HB & Hp & HsA & HsB & Hw).
  assert (Hby : by_ = match commitA s with None => PartyA | Some _ => PartyB end).
  { destruct (commitA s); [rewrite HB in E2|]; inv_ok; bool_to_prop; by party_cases. }
  split; cbn; try done.
  - intros p. destruct p; cbn; [rewrite HsA|rewrite HsB]; constructor.
  - unfold phase_ok. cbn. rewrite HB, E0, Hw, Hp, HsA, HsB. destruct (commitA s); subst by_; cbn; [|done].
    split_and!; try done. intros []; cbn; pose proof (H5 PartyA) as (_ & _ & EA); pose proof (H5 PartyB) as (_ & _ & EB); cbn in *;
      rewrite HsA in EA; rewrite HsB in EB; [rewrite EA|rewrite EB]; reflexivity.
Qed.

Lemma pvp_shoot_inv s n by_ s' : inv s -> applyShoot s n by_ = Ok s' -> inv s'.
Proof.
  intros [H1 H2 H3 H4 H5 H6 H7] E. unfold applyShoot in E. inv_ok. destruct n as [c|]; [|done]. inv_ok. bool_to_prop.
  party_cases. unfold phase_ok in H7. rewrite E0 in H7. split; cbn; try done; try by intros [].
  unfold phase_ok. cbn. rewrite E0. destruct H7 as (? & ? & ? & Hh & _). split_and!; try done; try by intros [].
Qed.

Lemma reveal_facts s n b salt proof by_ s' :
  applyReveal s n b salt proof by_ = Ok s' ->
  exists q h, phase s = playing /\ pendingShot s = Some q /\ by_ = otherParty (shot_by q) /\ n = JsInt (target q) /\
    commitFor s by_ = Some h /\ verifyCell h (target q) b salt proof = Ok true /\
    (forall p, commitFor s' p = commitFor s p) /\ winner s' = winner s /\ stake s' = stake s /\ total s' = total s /\
    balanceA s' = balanceA s /\ balanceB s' = balanceB s /\ pendingShot s' = None /\
    (forall p, shotsAt s' p = if party_eqb p by_ then shotsAt s p ++ [{| shot_cell := target q; isHit := b |}] else shotsAt s p) /\
    (forall p, hitsOn s' p = if party_eqb p by_ && b then hitsOn s p + 1 else hitsOn s p) /\
    let destroyed := (hitsOn s' PartyB =? FLEET_CELLS) || (hitsOn s' PartyA =? FLEET_CELLS) in
    phase s' = (if destroyed then awaitingBoardReveal else playing) /\
    turn s' = (if destroyed then otherParty by_ else by_).
Proof.
  intros E. unfold applyReveal in E. destruct (pendingShot s) as [q|] eqn:Eq; [|done]. inv_ok. bool_to_prop. party_cases.
  destruct (commitFor s (otherParty (shot_by q))) as [h|] eqn:Eh; [|done]. inv_ok. bool_to_prop. subst. exists q, h.
  split_and!; try done; cbn; try (by intros []); intros p; destruct p, (shot_by q); done.
Qed.

Lemma pvp_reveal_inv s n b salt proof by_ s' : inv s -> applyReveal s n b salt proof by_ = Ok s' -> inv s'.
Proof.
  intros [H1 H2 H3 H4 H5 H6 H7] E.
  destruct (reveal_facts _ _ _ _ _ _ _ E) as (q & h & Hph & Hq & Hby & _ & Hh & Hv & Hcf & Ew & Est & Etot & EA & EB & Hp & Hs & Hhit & Hph' & Ht').
  unfold phase_ok in H7. rewrite Hph, Hq in H7. destruct H7 as (HA & HB & Hw & Hlow & Hqt & Hqc & Hqf).
  assert (Hts : by_ = otherParty (turn s)) by congruence. rewrite <- Hts in Hqf.
  split; rewrite ?Ew, ?Est, ?Etot, ?EA, ?EB; try done.
  - intros p. rewrite Hs, Hhit. destruct (party_eqb p by_) eqn:Ep; party_cases; cbn [andb]; [|apply H5].
    apply shots_snoc; [apply H5|done|done].
  - intros p. rewrite Hs, Hcf. destruct (party_eqb p by_) eqn:Ep; party_cases; [|apply H6].
    apply Forall_app. split; [apply H6|]. constructor; [|constructor]. exists h, salt, proof. done.
  - unfold phase_ok. rewrite Hph', Ht'. cbn zeta in *.
    assert (Hc : is_Some (commitA s') /\ is_Some (commitB s')) by (rewrite (Hcf PartyA : commitA s' = _), (Hcf PartyB : commitB s' = _); done).
    destruct Hc as [HcA HcB]. rewrite Ew, Hp.
    destruct ((hitsOn s' PartyB =? FLEET_CELLS) || (hitsOn s' PartyA =? FLEET_CELLS)) eqn:Ed; split_and!; try done.
    + unfold sank. rewrite otherParty_involutive, !Hhit in *. pose proof (Hlow PartyA). pose proof (Hlow PartyB).
      destruct by_, b; cbn [party_eqb otherParty andb] in *; bool_to_prop; destruct Ed; bool_to_prop; lia.
    + intros p. rewrite !Hhit in Ed. rewrite Hhit. pose proof (Hlow p). bool_to_prop.
      destruct p, by_, b; cbn [party_eqb andb] in *; lia.
Qed.

Lemma shiftStake_eq a b s w :
  balanceA s = a -> balanceB s = b -> 0 <= stake s <= Z.min a b -> w = 1 \/ w = 2 ->
  shiftStake s w = (a + shift_of w (stake s), b - shift_of w (stake s)).
Proof.
  intros <- <- Hs Hw. unfold shiftStake, shift_of.
  destruct Hw as [->| ->]; cbn; case_match; bool_to_prop; apply pair_equal_spec; split; lia.
Qed.

Lemma pending_reveal s p : inv s -> pendingBoardReveal s = Some p -> phase s = awaitingBoardReveal /\ p = turn s /\ sank s p.
Proof.
  intros [_ _ _ _ _ _ H7] E. unfold pendingBoardReveal in E. destruct (bool_decide (phase s = awaitingBoardReveal)) eqn:Ep; [|done].
  bool_to_prop. unfold phase_ok in H7. rewrite Ep in H7. destruct H7 as (_ & _ & _ & _ & Hs). split; [done|].
  assert (p = turn s) as ->; [|done]. unfold sank in Hs.
  destruct (hitsOnB s =? FLEET_CELLS) eqn:EB; [|destruct (hitsOnA s =? FLEET_CELLS) eqn:EA; [|done]]; cbn [negb] in E; simplify_eq; bool_to_prop;
    destruct (turn s); cbn [hitsOn otherParty] in Hs; first [done|exfalso; lia].
Qed.

Lemma board_inv s cells salts by_ s' : inv s -> applyRevealBoard s cells salts by_ = Ok s' ->
  inv s' /\ phase s' = over /\ exists c legal, sank s' by_ /\ commitBoard cells salts = Ok c /\ commitFor s' by_ = Some (root c) /\
    isLegalBoard cells = Ok legal /\ winner s' = seat_code (if legal : bool then by_ else otherParty by_).
Proof.
  intros H E. unfold applyRevealBoard in E. destruct (pendingBoardReveal s) as [w|] eqn:Ew; [|done].
  destruct (pending_reveal s w H Ew) as (Hph & _ & Hs). destruct H as [H1 H2 H3 H4 H5 H6 H7].
  unfold phase_ok in H7. rewrite Hph in H7. destruct H7 as (HA & HB & Hw & _). inv_ok. bool_to_prop. party_cases.
  destruct (commitFor s w) as [h|] eqn:Eh; [|done]. injection E4 as E4. apply bytesEqual_spec in E4. subst h.
  rename a2 into legal, E6 into El.
  match type of E with (let '(_, _) := shiftStake s ?x in _) = _ => set (wc := x) in E end.
  assert (Hwc : wc = seat_code (if legal then w else otherParty w)) by (subst wc; by destruct legal, w).
  unfold shift_of in H3, H4. rewrite Hw in H3, H4. cbn in H3, H4.
  assert (Hsh : shiftStake s wc = (a0 + shift_of wc (stake s), b0 - shift_of wc (stake s))).
  { apply shiftStake_eq; [lia|lia|lia|]. rewrite Hwc. destruct legal, w; cbn; auto. }
  rewrite Hsh in E. injection E as <-. split.
  - split; cbn; try done; try (by intros []). unfold phase_ok. cbn. exists w. split; [done|]. by exists cells, salts, a, legal.
  - split; [done|]. by exists a, legal.
Qed.

Lemma pvp_applyMove_inv s m by_ s' : inv s -> applyMove s m by_ = Ok s' -> inv s'.
Proof.
  intros H E. unfold applyMove in E. inv_ok. destruct m.
  - by eapply pvp_commit_inv.
  - by eapply pvp_shoot_inv.
  - by eapply pvp_reveal_inv.
  - by eapply board_inv.
Qed.

(** Only a board reveal ends a game. *)
Lemma phase_over s m by_ s' : inv s -> applyMove s m by_ = Ok s' -> phase s' = over ->
  exists cells salts, m = RevealBoard cells salts /\ applyRevealBoard s cells salts by_ = Ok s'.
Proof.
  intros _ E Hover. unfold applyMove in E. inv_ok. bool_to_prop. destruct m as [r|n|n b salt proof|cells salts]; [..|by eauto]; exfalso.
  - unfold applyCommit in E. inv_ok. cbn in Hover. repeat case_match; congruence.
  - unfold applyShoot in E. inv_ok. case_match; inv_ok. cbn in Hover. congruence.
  - destruct (reveal_facts _ _ _ _ _ _ _ E) as (q & h & _ & _ & _ & _ & _ & _ & _ & _ & _ & _ & _ & _ & _ & _ & _ & Hph & _).
    cbn zeta in Hph. case_match; congruence.
Qed.

Lemma open_winner s : inv s -> phase s <> over -> winner s = 0.
Proof. intros H Hp. pose proof (g_phase _ _ _ _ H) as Hph. unfold phase_ok in Hph. destruct (phase s); naive_solver. Qed.
End Step.

Definition stake_of (defaultStake : Z) (ctx : ProtocolContext) : Z :=
  Z.min defaultStake (Z.min (bal_a (initialBalances ctx)) (bal_b (initialBalances ctx))).

Definition game_of (defaultStake : Z) (ctx : ProtocolContext) : BattleshipState -> Prop :=
  game_ok (bal_a (initialBalances ctx)) (bal_b (initialBalances ctx)) (stake_of defaultStake ctx).

Lemma pvp_stake_of_range ds ctx :
  0 <= ds -> lockable (initialBalances ctx) ->
  0 <= stake_of ds ctx <= Z.min (bal_a (initialBalances ctx)) (bal_b (initialBalances ctx)).
Proof. intros Hd (HA & HB & _). unfold stake_of. lia. Qed.

Lemma pvp_initial_game ds ctx : 0 <= ds -> lockable (initialBalances ctx) -> game_of ds ctx (initialState ds ctx).
Proof.
  intros Hd (HA & HB & _). unfold game_of, stake_of, initialState. split; cbn -[shots_ok shift_of].
  - destruct (Z.ltb_spec (bal_a (initialBalances ctx)) (bal_b (initialBalances ctx))); case_match; bool_to_prop; lia.
  - done.
  - unfold shift_of; simpl; lia.
  - unfold shift_of; simpl; lia.
  - intros []; split_and!; cbn; try done; apply NoDup_nil_2.
  - intros []; constructor.
  - unfold phase_ok. cbn. done.
Qed.

Lemma pvp_run_game ds ctx ms s s' :
  0 <= ds -> lockable (initialBalances ctx) -> game_of ds ctx s ->
  run (BattleshipProtocol ds) s ms = Ok s' -> game_of ds ctx s'.
Proof.
  intros Hd Hl H Hrun. eapply rfold_invariant; [|exact H|exact Hrun].
  intros s1 [m by_] s2 H1 E. exact (pvp_applyMove_inv _ _ _ (pvp_stake_of_range ds ctx Hd Hl) s1 m by_ s2 H1 E).
Qed.

(** * What the commitments show *)

(** The answers of a seat that committed a board are those of the board. *)
Lemma answers_truthful `{!CryptoLaws C} board salts c shots :
  commitBoard board salts = Ok c -> Forall (answered (Some (root c))) shots ->
  truthful board shots \/
  exists cell b salt proof, verifyCell (root c) cell b salt proof = Ok true /\
    collision (commit_inputs board salts c) (opening_inputs cell b salt proof).
Proof.
  intros Hc. induction 1 as [|x shots (h & salt & proof & [= <-] & Hv) _ [IH|IH]]; [left; constructor| |by right].
  destruct (binding_or board salts c (shot_cell x) (isHit x) salt proof Hc Hv) as [(E & _)|Hx].
  - left. by constructor.
  - right. by exists (shot_cell x), (isHit x), salt, proof.
Qed.

(** A legal board is sunk only when all its ship cells were shot at. *)
Lemma sunk_board board shots hits :
  isLegalBoard board = Ok true -> shots_ok shots hits -> truthful board shots -> hits = FLEET_CELLS ->
  forall cell, ship_at board cell = true -> fired_at shots cell = true.
Proof.
  intros Hlegal (Hnd & _ & Hh) Ht Hf cell Hcell.
  assert (Hlen : length board = 100%nat).
  { unfold isLegalBoard in Hlegal. destruct (Z.eqb_spec (Z.of_nat (length board)) BATTLESHIP_CELL_COUNT) as [E|]; [|done].
    change BATTLESHIP_CELL_COUNT with 100 in E. lia. }
  apply accepted_fleet in Hlegal as (_ & css & Hruns & _ & Hcov); [|done].
  assert (Hn : Z.of_nat (length (concat css)) = FLEET_CELLS).
  { rewrite sum_lens, (run_lens fleet_sizes css); [done| |done]. by apply Forall_forall. }
  apply fired_at_iff. enough (cell ∈ cells_of (hits_of shots)) as Hin.
  { unfold cells_of in *. apply list_elem_of_fmap in Hin as (x & -> & (_ & Hx)%list_elem_of_filter).
    apply list_elem_of_fmap. by exists x. }
  apply list_elem_of_In. eapply (NoDup_length_incl (l' := concat css)).
  - apply NoDup_ListNoDup. eapply sublist_NoDup; [exact Hnd|]. apply fmap_sublist, sublist_filter.
  - unfold cells_of. rewrite length_map. lia.
  - intros d Hd%list_elem_of_In. apply list_elem_of_fmap in Hd as (x & -> & (Hx1 & Hx2)%list_elem_of_filter).
    unfold truthful in Ht. rewrite Forall_forall in Ht. rewrite (Ht x Hx2) in Hx1.
    apply list_elem_of_In, Hcov. unfold is_one in Hx1. unfold ship_at. apply Z.eqb_eq in Hx1. by rewrite Hx1.
  - apply list_elem_of_In. by apply Hcov.
Qed.

(** C20: What a finished game with proofs guarantees.  Whatever was played, the deposits are
    shifted by exactly the stake to the winner, and not at all before the end.  The game
    ends only by a reveal of the board of the seat that sank the other fleet: the board
    hashes to the root that seat committed, and it wins if the board is a legal fleet and
    loses if it is not.  And a seat that committed a board gave only the answers of that
    board, and is sunk only once every ship cell of it was shot at, if it is a legal fleet
    -- unless the hash collides between the tree and a proof that was accepted. *)
Theorem proven_shots_verdict `{!CryptoLaws C} ds ctx ms s :
  0 <= ds -> lockable (initialBalances ctx) ->
  run (BattleshipProtocol ds) (initialState ds ctx) ms = Ok s ->
  balanceA s = bal_a (initialBalances ctx) + shift_of (winner s) (stake_of ds ctx) /\
  balanceB s = bal_b (initialBalances ctx) - shift_of (winner s) (stake_of ds ctx) /\
  (phase s <> over -> winner s = 0) /\
  (phase s = over -> exists p cells salts c legal, last ms = Some (RevealBoard cells salts, p) /\ sank s p /\
     commitBoard cells salts = Ok c /\ commitFor s p = Some (root c) /\ isLegalBoard cells = Ok legal /\
     winner s = seat_code (if legal : bool then p else otherParty p)) /\
  (forall p board salts c, commitBoard board salts = Ok c -> commitFor s p = Some (root c) ->
     (truthful board (shotsAt s p) /\
      (hitsOn s p = FLEET_CELLS -> isLegalBoard board = Ok true ->
       forall cell, ship_at board cell = true -> fired_at (shotsAt s p) cell = true)) \/
     exists cell b salt proof, verifyCell (root c) cell b salt proof = Ok true /\
       collision (commit_inputs board salts c) (opening_inputs cell b salt proof)).
Proof.
  intros Hd Hl Hrun. pose proof (pvp_initial_game ds ctx Hd Hl) as H0. pose proof (pvp_stake_of_range ds ctx Hd Hl) as Hst.
  pose proof (pvp_run_game ds ctx ms _ s Hd Hl H0 Hrun) as H.
  split; [apply H|]. split; [apply H|]. split; [intros Hp; by apply (open_winner _ _ _ Hst s H)|]. split.
  - intros Hover. destruct ms as [|[m p] ms' _] using rev_ind; [by injection Hrun as <-|].
    unfold run in Hrun. rewrite rfold_app in Hrun. apply rbind_ok in Hrun as (s1 & Hrun & E).
    cbn [rfold] in E. apply rbind_ok in E as (s2 & E & [= <-]).
    pose proof (pvp_run_game ds ctx ms' _ s1 Hd Hl H0 Hrun) as H1. rewrite last_snoc.
    destruct (phase_over _ _ _ _ _ _ _ H1 E Hover) as (cells & salts & -> & E').
    destruct (board_inv _ _ _ Hst _ _ _ _ _ H1 E') as (_ & _ & c & legal & Hs & Hc & Hcf & Hleg & Hw).
    by exists p, cells, salts, c, legal.
  - intros p board salts c Hc Hcf. pose proof (g_answers _ _ _ _ H p) as Ha. rewrite Hcf in Ha.
    destruct (answers_truthful board salts c _ Hc Ha) as [Ht|Hx]; [left|by right]. split; [done|].
    intros Hf Hleg. by apply (sunk_board board _ (hitsOn s p) Hleg (g_shots _ _ _ _ H p) Ht).
Qed.
End WithCrypto.

(** Concrete games of battleship with proofs: a game that is played out, and an empty board
    that wins. *)

(** The fleet along the left edge, the ship cells marked [v]. *)
Definition fleet_cells : list Z := [0; 1; 2; 3; 4; 20; 21; 22; 23; 40; 41; 42; 60; 61; 62; 80; 81].
Definition drawn_board (v : Z) : bytes := fold_left (fun b c => <[Z.to_nat c := v]> b) fleet_cells (replicate 100 0).

Definition duel_ctx : ProtocolContext :=
  {| ctx_tunnelId := "0x01"; initialBalances := {| bal_a := 500; bal_b := 500 |} |}.

Definition the {A} (d : A) (r : result A) : A := match r with Ok a => a | Throw _ => d end.

Definition no_commitment : BoardCommitment := {| root := []; layers := [] |}.
Definition secret_for (board : bytes) : FleetSecret :=
  {| fs_board := board; fs_salts := sample_salts; fs_commitment := the no_commitment (@commitBoard toy_crypto board sample_salts) |}.

(** One shot of [p], and the answer of the other seat. *)
Definition shot_moves (secrets : FleetSecret * FleetSecret) (p : Party) (cell : Z) : list (BattleshipMove * Party) :=
  [(Shoot (JsInt cell), p); (the (Commit []) (revealMove (secret_of secrets (otherParty p)) cell), otherParty p)].

(** Both seats shoot at the cells of [fleet_cells] in turn, A first, until A is done. *)
Definition duel_moves (secrets : FleetSecret * FleetSecret) : list (BattleshipMove * Party) :=
  [(Commit (root (fs_commitment (fst secrets))), PartyA); (Commit (root (fs_commitment (snd secrets))), PartyB)] ++
  concat (map (fun c => shot_moves secrets PartyA c ++ shot_moves secrets PartyB c) (take 16 fleet_cells)) ++
  shot_moves secrets PartyA 81 ++
  [(RevealBoard (fs_board (fst secrets)) (fs_salts (fst secrets)), PartyA)].

Lemma nth_repeat_zero n k : nth k (replicate n 0) 0 = 0.
Proof. revert k; induction n as [|n IH]; intros [|k]; try done. apply IH. Qed.

Lemma rmap_ext {A B} (f g : A -> result B) xs : (forall x, f x = g x) -> rmap f xs = rmap g xs.
Proof. intros H. induction xs as [|x xs IH]; [done|]. cbn [rmap]. by rewrite H, IH. Qed.

Lemma twos_no_ones cell : is_one (drawn_board 2) cell = false.
Proof.
  unfold is_one, at_cell. destruct (cell <? 0); [done|]. generalize (Z.to_nat cell). intros k.
  assert (H : Forall (fun x => x <> 1) (drawn_board 2)) by (apply (bool_decide_unpack _); vm_compute; exact I).
  apply Z.eqb_neq. destruct (nth_in_or_default k (drawn_board 2) 0) as [Hin| ->]; [|done].
  rewrite Forall_forall in H. by apply H, list_elem_of_In.
Qed.

(** A board whose ship cells are not 1 commits like the empty board. *)
Lemma twos_commit_as_water `{C : Crypto} board salts :
  Z.of_nat (length board) = CELL_COUNT -> (forall cell, is_one board cell = false) ->
  commitBoard board salts = commitBoard (replicate 100 0) salts.
Proof.
  intros Hl H1. unfold commitBoard. rewrite Hl. change (Z.of_nat (length (replicate 100 0))) with CELL_COUNT.
  assert (H0 : forall cell, is_one (replicate 100 0) cell = false).
  { intros cell. unfold is_one, at_cell. destruct (cell <? 0); [done|]. by rewrite nth_repeat_zero. }
  rewrite (rmap_ext _ (fun cell => leafHash cell (is_one (replicate 100 0) cell) (salt_at salts cell))); [done|].
  intros cell. by rewrite H0, H1.
Qed.

(** What is checked of the game below, by evaluation. *)
Definition water_check (rc : result BoardCommitment) (rs : result BattleshipState) : bool :=
  match rc, rs with
  | Ok c, Ok s =>
      bool_decide (commitA s = Some (root c)) &&
      forallb (fun x => negb (isHit x) && ship_at (drawn_board 2) (shot_cell x)) (shotsAtA s) &&
      (length (shotsAtA s) =? 16)%nat && (winner s =? 1) && (balanceA s =? 600)
  | _, _ => false
  end.

Lemma water_check_spec rc rs : water_check rc rs = true ->
  exists c s, rc = Ok c /\ rs = Ok s /\ commitA s = Some (root c) /\ length (shotsAtA s) = 16%nat /\
    Forall (fun x => isHit x = false /\ ship_at (drawn_board 2) (shot_cell x) = true) (shotsAtA s) /\
    winner s = seat_code PartyA /\ balanceA s = 600.
Proof.
  destruct rc as [c|]; [|done]. destruct rs as [s|]; [|done]. cbn [water_check]. rewrite !andb_true_iff.
  intros [[[[Hcom Hsh] Hlen] Hw] Hb]. exists c, s. split; [done|]. split; [done|].
  split; [by apply bool_decide_eq_true in Hcom|]. split; [by apply Nat.eqb_eq|]. split; [|split; by apply Z.eqb_eq].
  apply Forall_forall. intros x Hx. rewrite forallb_forall in Hsh. apply list_elem_of_In in Hx. apply Hsh in Hx.
  apply andb_true_iff in Hx as [Hx1 Hx2]. by apply negb_true_iff in Hx1.
Qed.

Definition water_moves : list (BattleshipMove * Party) :=
  duel_moves (secret_for (drawn_board 2), secret_for (drawn_board 1)).

Lemma water_checked : water_check (@commitBoard toy_crypto (drawn_board 2) sample_salts)
  (run (@BattleshipProtocol toy_crypto 100) (initialState 100 duel_ctx) water_moves) = true.
Proof. vm_compute. reflexivity. Qed.

(** An empty board wins.  [commitBoard] takes a cell for a ship when it is 1, [isLegalBoard]
    when it is not 0: a seat that draws its fleet with twos commits the root of the empty
    board, answers every shot at its ships with a verified miss, and is paid when it shows
    the drawing. *)
Theorem empty_board_wins : exists ms s c,
  commitBoard (drawn_board 2) sample_salts = Ok c /\ commitBoard (replicate 100 0) sample_salts = Ok c /\
  run (BattleshipProtocol 100) (initialState 100 duel_ctx) ms = Ok s /\ commitA s = Some (root c) /\
  length (shotsAtA s) = 16%nat /\
  Forall (fun x => isHit x = false /\ ship_at (drawn_board 2) (shot_cell x) = true) (shotsAtA s) /\
  winner s = seat_code PartyA /\ balanceA s = 600.
Proof.
  destruct (water_check_spec _ _ water_checked) as (c & s & Hc & Hrun & H).
  exists water_moves, s, c. split; [exact Hc|].
  rewrite <- (twos_commit_as_water (C := toy_crypto) (drawn_board 2) sample_salts eq_refl twos_no_ones).
  split; [exact Hc|]. split; [exact Hrun|exact H].
Qed.

(** A game between two honest seats, with the same fleet. *)
Definition honest_moves : list (BattleshipMove * Party) :=
  duel_moves (secret_for (drawn_board 1), secret_for (drawn_board 1)).

Definition honest_check (rc : result BoardCommitment) (rs : result BattleshipState) : bool :=
  match rc, rs with
  | Ok c, Ok s => bool_decide (phase s = over) && bool_decide (commitB s = Some (root c)) && (winner s =? 1)
  | _, _ => false
  end.

Lemma honest_checked : honest_check (@commitBoard toy_crypto (drawn_board 1) sample_salts)
  (run (@BattleshipProtocol toy_crypto 100) (initialState 100 duel_ctx) honest_moves) = true.
Proof. vm_compute. reflexivity. Qed.

Lemma honest_check_spec rc rs : honest_check rc rs = true ->
  exists c s, rc = Ok c /\ rs = Ok s /\ phase s = over /\ commitB s = Some (root c) /\ winner s = 1.
Proof.
  destruct rc as [c|]; [|done]. destruct rs as [s|]; [|done]. cbn [honest_check]. rewrite !andb_true_iff, !bool_decide_eq_true, Z.eqb_eq.
  intros [[? ?] ?]. by exists c, s.
Qed.

Lemma pvp_duel_lockable : lockable (initialBalances duel_ctx).
Proof. apply (bool_decide_unpack _). vm_compute. exact I. Qed.

Lemma drawn_legal : isLegalBoard (drawn_board 1) = Ok true.
Proof. vm_compute. reflexivity. Qed.

Lemma proven_shots_verdict_witness : exists c s,
  commitBoard (drawn_board 1) sample_salts = Ok c /\
  run (BattleshipProtocol 100) (initialState 100 duel_ctx) honest_moves = Ok s /\ winner s = 1 /\
  (truthful (drawn_board 1) (shotsAtB s) \/
   exists cell b salt proof, verifyCell (root c) cell b salt proof = Ok true /\
     collision (commit_inputs (drawn_board 1) sample_salts c) (opening_inputs cell b salt proof)).
Proof.
  destruct (honest_check_spec _ _ honest_checked) as (c & s & Hc & Hrun & Hover & Hcf & Hw).
  exists c, s. split; [exact Hc|]. split; [exact Hrun|]. split; [exact Hw|].
  destruct (proven_shots_verdict 100 duel_ctx honest_moves s ltac:(lia) pvp_duel_lockable Hrun) as (_ & _ & _ & _ & H).
  destruct (H PartyB (drawn_board 1) sample_salts c Hc Hcf) as [[Ht _]|Hx]; [left; exact Ht|right; exact Hx].
Defined.
