(* ===== verification/BattleshipPvpPlay.v ===== *)
(** Self-play of battleship with proofs: the bot always finds a cell to shoot at, every move
    of the driver is accepted, and the game ends. *)
From S2P Require Import Prelude.
From S2P Require Import Bytes.
From S2P Require Import Crypto.
From S2P Require Import Protocol.
From S2P Require Import BattleshipFleet.
From S2P Require Import BattleshipLegal.
From S2P Require Import BoardMerkle.
From S2P Require Import BattleshipPvp.
From S2P Require Import BattleshipBot.
From S2P Require Import BattleshipPvpGame.

(** * Sets of cells *)

Lemma has_spec set c : has set c = true <-> c ∈ set.
Proof.
  unfold has. rewrite existsb_exists. setoid_rewrite <- list_elem_of_In. split.
  - intros (x & Hx & ->%Z.eqb_eq). done.
  - intros H. exists c. by rewrite Z.eqb_refl.
Qed.

Lemma has_false set c : has set c = false <-> c ∉ set.
Proof. rewrite <- has_spec. by destruct (has set c). Qed.

Lemma elem_of_add set c d : d ∈ add set c <-> d ∈ set \/ d = c.
Proof.
  unfold add. destruct (has set c) eqn:E.
  - apply has_spec in E. naive_solver.
  - rewrite elem_of_app, list_elem_of_singleton. done.
Qed.

Lemma elem_of_add_all cs set d : d ∈ fold_left add cs set <-> d ∈ set \/ d ∈ cs.
Proof.
  revert set; induction cs as [|c cs IH]; intros set; cbn [fold_left].
  - split; [by left|]. by intros [|?%elem_of_nil].
  - rewrite IH, elem_of_add, elem_of_cons. tauto.
Qed.

Lemma cellAt_ok r c : inBounds r c = true -> cell_ok (cellAt r c).
Proof. unfold inBounds, cellAt, cell_ok, BATTLESHIP_CELL_COUNT, BOARD_SIZE. rewrite !andb_true_iff. lia. Qed.

Lemma neighbors_ok steps cell n : n ∈ neighbors steps cell -> cell_ok n.
Proof.
  unfold neighbors. cbv zeta.
  enough (H : forall out, Forall cell_ok out -> Forall cell_ok (fold_left (fun out '(dr, dc) =>
    if inBounds (rowOf cell + dr) (colOf cell + dc) then out ++ [cellAt (rowOf cell + dr) (colOf cell + dc)] else out) steps out)).
  { intros Hn. eapply Forall_forall; [apply (H []); constructor|exact Hn]. }
  induction steps as [|[dr dc] steps IH]; intros out Hout; cbn [fold_left]; [done|]. apply IH. case_match; [|done].
  apply Forall_app. split; [done|]. constructor; [by apply cellAt_ok|constructor].
Qed.

(** * The bot *)

Lemma pickFrom_some pool draw : pool <> [] -> exists c, pickFrom pool draw = Some c /\ c ∈ pool.
Proof.
  intros Hp. unfold pickFrom. destruct (lookup_lt_is_Some_2 pool (Nat.min (length pool - 1) (draw (length pool)))) as [c Hc].
  { destruct pool; [done|simpl; lia]. }
  exists c. split; [done|]. by eapply list_elem_of_lookup_2.
Qed.

(** A cell that may be fired at, the cells in [fired] not being open. *)
Definition free (fired : list Z) (c : Z) : Prop := cell_ok c /\ c ∉ fired.

Lemma pick_free fired pool draw :
  pool <> [] -> Forall (free fired) pool -> exists c, pickFrom pool draw = Some c /\ free fired c.
Proof.
  intros Hp Hf. destruct (pickFrom_some pool draw Hp) as (c & E & Hc). exists c. split; [done|].
  rewrite Forall_forall in Hf. by apply Hf.
Qed.

Lemma openCells_free fired : Forall (free fired) (openCells fired).
Proof.
  apply Forall_forall. intros c [Hc Hf]%list_elem_of_In%List.filter_In. split; [by apply elem_of_all_cells, list_elem_of_In|].
  by apply has_false, negb_true_iff.
Qed.

Lemma openCells_some fired c : free fired c -> openCells fired <> [].
Proof.
  intros [Hc Hf] E. assert (In c (openCells fired)) as Hin; [|by rewrite E in Hin].
  apply List.filter_In. split; [by apply list_elem_of_In, elem_of_all_cells|]. by apply negb_true_iff, has_false.
Qed.

Lemma neighbors_free fired steps h : Forall (free fired) (List.filter (fun n => negb (has fired n)) (neighbors steps h)).
Proof.
  apply Forall_forall. intros n [Hn Hf]%list_elem_of_In%List.filter_In. split; [by eapply neighbors_ok, list_elem_of_In|].
  by apply has_false, negb_true_iff.
Qed.

Lemma concat_free {A} (f : A -> list Z) fired xs : (forall x, Forall (free fired) (f x)) -> Forall (free fired) (concat (map f xs)).
Proof. intros H. apply Forall_concat, Forall_map, Forall_forall. intros x _. apply H. Qed.

Lemma lines_free hits fired : Forall (free fired) (lineExtensions hits fired).
Proof.
  apply concat_free. intros h. apply concat_free. intros [dr dc]. case_match; [constructor|]. destruct (run_end _ _ _ _ _ _) as [er ec].
  case_match; [|constructor]. bool_to_prop. constructor; [|constructor]. split; [by apply cellAt_ok|by apply has_false].
Qed.

Lemma best_free fired score : Forall (free fired) (best_cells fired score).
Proof.
  unfold best_cells.
  assert (H : forall cs bt, Forall cell_ok cs -> Forall (free fired) (snd bt) -> Forall (free fired)
    (snd (fold_left (fun '(best, tied) c =>
      if has fired c || (score c =? 0) then (best, tied)
      else if best <? score c then (score c, [c])
      else if score c =? best then (best, tied ++ [c]) else (best, tied)) cs bt))).
  { induction cs as [|c cs IH]; intros [best tied] Hcs Hb; [done|]. apply Forall_cons in Hcs as [Hc Hcs].
    cbn [fold_left]. apply IH; [done|]. destruct (has fired c || (score c =? 0)) eqn:E; [done|]. bool_to_prop.
    assert (Hf : free fired c) by (split; [done|by apply has_false]).
    destruct (best <? score c); [constructor; [done|constructor]|]. destruct (score c =? best); [|done].
    apply Forall_app. split; [done|]. constructor; [done|constructor]. }
  apply H; [|constructor]. apply Forall_forall. intros c. by apply elem_of_all_cells.
Qed.

Lemma nonempty_lt {A} (l : list A) : (0 < length l)%nat -> l <> [].
Proof. destruct l; [simpl; lia|done]. Qed.

Lemma nonempty_ltb {A} (l : list A) : (0 <? length l)%nat = true -> l <> [].
Proof. destruct l; [done|]. by intros _. Qed.

Ltac shot_case :=
  match goal with |- exists c', (if ?b then _ else _) = _ /\ _ => let E := fresh "Eb" in destruct b eqn:E end.

(** While a cell is open, the bot shoots at an open cell, whatever its difficulty. *)
Lemma pickShot_free s p draw d c :
  free (cells_of (shotsAt s (otherParty p))) c ->
  exists c', pickShot s p draw (BOT_CONFIGS d) = Some c' /\ free (cells_of (shotsAt s (otherParty p))) c'.
Proof.
  intros Hopen. change (shotsAt s (otherParty p)) with (shotsAtBoard s (otherParty p)) in *.
  unfold pickShot. set (shots := shotsAtBoard s (otherParty p)) in *.
  set (fired := fold_left add (map shot_cell shots) []). set (hits := fold_left add (map shot_cell (List.filter isHit shots)) []).
  assert (Hf : forall c, free (cells_of shots) c <-> free fired c).
  { intros c'. unfold free, fired. rewrite elem_of_add_all, elem_of_nil. unfold cells_of. tauto. }
  assert (Ho : openCells fired <> []) by (eapply openCells_some; by apply Hf).
  enough (exists c', pickShot s p draw (BOT_CONFIGS d) = Some c' /\ free fired c') as (c' & E & Hc').
  { exists c'. split; [exact E|]. by apply Hf. }
  unfold pickShot. fold shots. fold fired. fold hits.
  destruct (hunt (BOT_CONFIGS d)) eqn:Eh.
  1,2: shot_case; [bool_to_prop; apply pick_free; [by apply nonempty_lt|];
         match goal with |- Forall _ (if ?b then _ else _) => destruct b end;
           [destruct (followLine _); [apply lines_free|constructor]|apply concat_free; intros h; apply neighbors_free]|].
  - apply pick_free; [done|apply openCells_free].
  - shot_case; [|apply pick_free; [done|apply openCells_free]]. apply pick_free; [by apply nonempty_ltb|].
    apply Forall_forall. intros c' [Hc' _]%list_elem_of_In%List.filter_In. pose proof (openCells_free fired) as Hall.
    rewrite Forall_forall in Hall. by apply Hall, list_elem_of_In.
  - unfold densityShot. cbv zeta. shot_case; [apply pick_free; [by apply nonempty_ltb|apply best_free]|].
    apply pick_free; [done|apply openCells_free].
Qed.

(** * The driver *)

Section Driver.
Context `{C : Crypto} `{!CryptoLaws C}.

(** A committed legal fleet, drawn with zeros and ones. *)
Definition secret_ok (f : FleetSecret) : Prop :=
  commitBoard (fs_board f) (fs_salts f) = Ok (fs_commitment f) /\ isLegalBoard (fs_board f) = Ok true /\
  forall cell, ship_at (fs_board f) cell = is_one (fs_board f) cell.

Lemma legal_count board : isLegalBoard board = Ok true -> length board = 100%nat /\ shipCellCount board = FLEET_CELLS.
Proof.
  unfold isLegalBoard. destruct (Z.eqb_spec (Z.of_nat (length board)) BATTLESHIP_CELL_COUNT) as [E|]; [|done].
  destruct (Z.eqb_spec (shipCellCount board) FLEET_CELLS); [|done]. change BATTLESHIP_CELL_COUNT with 100 in E. split; [lia|done].
Qed.

(** A fleet that is not sunk has an open cell. *)
Lemma unsunk_open f shots hits :
  secret_ok f -> shots_ok shots hits -> truthful (fs_board f) shots -> hits < FLEET_CELLS ->
  exists c, free (cells_of shots) c.
Proof.
  intros (_ & Hlegal & H01) (Hnd & _ & Hh) Ht Hlt. destruct (legal_count _ Hlegal) as [Hlen Hcount].
  destruct (decide (Forall (fun c => c ∈ cells_of shots) all_cells)) as [Hall|Hn].
  - exfalso. rewrite shipCellCount_filter in Hcount by done.
    assert (length (filter (fun c => ship_at (fs_board f) c = true) all_cells) <= length (hits_of shots))%nat; [|lia].
    rewrite <- (length_map shot_cell (hits_of shots)). apply NoDup_incl_length.
    { apply NoDup_ListNoDup, NoDup_filter, NoDup_all_cells. }
    intros c [Hc Hin]%list_elem_of_In%list_elem_of_filter. rewrite Forall_forall in Hall. pose proof (Hall c Hin) as Hf.
    unfold cells_of in Hf. apply list_elem_of_fmap in Hf as (x & -> & Hx). apply list_elem_of_In, list_elem_of_fmap.
    exists x. split; [done|]. apply list_elem_of_filter. split; [|done].
    unfold truthful in Ht. rewrite Forall_forall in Ht. by rewrite (Ht x Hx), <- H01.
  - apply not_Forall_Exists in Hn; [|apply _]. apply Exists_exists in Hn as (c & Hc & Hn). exists c.
    split; [by apply elem_of_all_cells|done].
Qed.

Context (a0 b0 st : Z) (Hst : 0 <= st <= Z.min a0 b0) (secrets : FleetSecret * FleetSecret).
Context (Hsecrets : forall p, secret_ok (secret_of secrets p)).
Notation inv := (game_ok a0 b0 st).

(** The game was played with these fleets. *)
Definition driven (s : BattleshipState) : Prop :=
  forall p, (forall h, commitFor s p = Some h -> h = root (fs_commitment (secret_of secrets p))) /\
    truthful (fs_board (secret_of secrets p)) (shotsAt s p).

(** A bound on the moves to come. *)
Definition moves_left (s : BattleshipState) : nat :=
  match phase s with
  | awaitingCommits => 401 + (if commitA s then 0 else 1) + (if commitB s then 0 else 1)
  | playing => 2 * (200 - length (shotsAtA s) - length (shotsAtB s)) + (if pendingShot s then 0 else 1)
  | awaitingBoardReveal => 1
  | over => 0
  end.

(** The seat that sank the other fleet is the winner. *)
Definition paid (s : BattleshipState) : Prop := phase s = over -> exists p, sank s p /\ winner s = seat_code p.

Definition advances (s : BattleshipState) (m : DrivenMove) : Prop :=
  exists s', applyMove s (dm_move m) (dm_by m) = Ok s' /\ driven s' /\ (moves_left s' < moves_left s)%nat.

Lemma root_length p : length (root (fs_commitment (secret_of secrets p))) = COMMIT_BYTES.
Proof.
  destruct (Hsecrets p) as (Hc & _ & _). destruct (commitBoard_sizes _ _ _ Hc) as [Hb Hs].
  destruct (commitBoard_ok _ _ Hb Hs) as (c' & E & Hl & H0 & Htop). rewrite Hc in E. injection E as <-.
  destruct (layer_entry HEIGHT _ _ Hl H0 HEIGHT _ 0 Htop ltac:(simpl; lia)) as (_ & _ & _ & Hlen & _). exact Hlen.
Qed.

Lemma running s : inv s -> phase s <> over -> bool_decide (phase s = over) || negb (winner s =? 0) = false.
Proof.
  intros H Hp. rewrite (open_winner _ _ _ Hst s H Hp), bool_decide_eq_false_2 by done. done.
Qed.

Lemma pvp_drive_commit s draw d : inv s -> driven s -> phase s = awaitingCommits ->
  exists m, nextMove s secrets draw d = Ok (Some m) /\ advances s m.
Proof.
  intros H Hd Hp. pose proof (g_phase _ _ _ _ H) as Hph. unfold phase_ok in Hph. rewrite Hp in Hph.
  destruct Hph as (HB & Hpend & HsA & HsB & Hw). unfold nextMove. rewrite Hw, Hp, HB. cbn -[applyMove].
  destruct (commitA s) as [hA|] eqn:HA; eexists; (split; [reflexivity|]); unfold advances; cbn -[applyMove];
    unfold applyMove; rewrite (running s H) by congruence; unfold applyCommit; rewrite Hp, HA, ?HB; cbn -[length moves_left];
    [rewrite (root_length PartyB : length (root (fs_commitment (snd secrets))) = _)
    |rewrite (root_length PartyA : length (root (fs_commitment (fst secrets))) = _)];
    (eexists; split; [reflexivity|]); (split; [|unfold moves_left; cbn; rewrite Hp, HA, ?HB, ?HsA, ?HsB, ?Hpend; cbn; lia]);
    intros p; (split; [|destruct p; cbn; rewrite ?HsA, ?HsB; constructor]); destruct p; cbn; intros h; rewrite ?HB; intros E;
    simplify_eq; try done; by apply (proj1 (Hd PartyA)).
Qed.

Lemma pvp_drive_shoot s draw d : inv s -> driven s -> phase s = playing -> pendingShot s = None ->
  exists m, nextMove s secrets draw d = Ok (Some m) /\ advances s m.
Proof.
  intros H Hd Hp Hpend. pose proof (g_phase _ _ _ _ H) as Hph. unfold phase_ok in Hph. rewrite Hp, Hpend in Hph.
  destruct Hph as (_ & _ & Hw & Hlow & _).
  destruct (unsunk_open _ _ _ (Hsecrets (otherParty (turn s))) (g_shots _ _ _ _ H _) (proj2 (Hd _)) (Hlow _)) as (c0 & Hc0).
  destruct (pickShot_free s (turn s) draw d c0 Hc0) as (c & Ec & Hc & Hcf).
  unfold nextMove. rewrite Hw, Hp, Hpend. cbn -[applyMove pickShot]. rewrite Ec. cbn -[applyMove]. eexists. split; [reflexivity|].
  unfold advances. cbn -[applyMove]. unfold applyMove. rewrite (running s H) by congruence. unfold applyShoot.
  rewrite Hp, Hpend, party_eqb_refl. cbn -[fired_at moves_left]. unfold cell_ok in Hc. change CELL_COUNT with BATTLESHIP_CELL_COUNT.
  rewrite (proj2 (Z.ltb_ge _ _)), (proj2 (Z.leb_gt _ _)) by lia. cbn -[fired_at moves_left].
  destruct (fired_at (shotsAt s (otherParty (turn s))) c) eqn:Ef; [by apply fired_at_iff in Ef|].
  eexists. split; [reflexivity|]. split; [by intros []; apply (Hd PartyA) || apply (Hd PartyB)|].
  unfold moves_left. cbn. rewrite Hp, Hpend. cbn. lia.
Qed.

Lemma cell_range c : cell_ok c -> 0 <= c < CELL_COUNT.
Proof. done. Qed.

Lemma pvp_drive_answer s draw d q : inv s -> driven s -> phase s = playing -> pendingShot s = Some q ->
  exists m, nextMove s secrets draw d = Ok (Some m) /\ advances s m.
Proof.
  intros H Hd Hp Hpend. pose proof (g_phase _ _ _ _ H) as Hph. unfold phase_ok in Hph. rewrite Hp, Hpend in Hph.
  destruct Hph as (HA & HB & Hw & Hlow & Hqt & Hqc & Hqf). set (p := otherParty (shot_by q)).
  destruct (Hsecrets p) as (Hc & _ & _). pose proof (cell_range _ Hqc) as Hr.
  assert (Hcf : commitFor s p = Some (root (fs_commitment (secret_of secrets p)))).
  { assert (is_Some (commitFor s p)) as [h Eh] by (by destruct p). by rewrite Eh, (proj1 (Hd p) h Eh). }
  assert (Hsalt : length (salt_at (fs_salts (secret_of secrets p)) (target q)) = SALT_BYTES).
  { apply salt_at_length; [|done]. by eapply commitBoard_sizes. }
  unfold nextMove, revealMove, proveCell. rewrite Hw, Hp, Hpend. cbn -[applyMove].
  rewrite (proj2 (Z.ltb_ge _ _)), (proj2 (Z.leb_gt _ _)) by lia. cbn -[applyMove]. eexists. split; [reflexivity|].
  unfold advances. cbn -[applyMove]. fold p.
  assert (exists s', applyMove s (Reveal (JsInt (target q)) (is_one (fs_board (secret_of secrets p)) (target q))
    (salt_at (fs_salts (secret_of secrets p)) (target q)) (siblings (layers (fs_commitment (secret_of secrets p))) (target q))) p = Ok s') as [s' E].
  { unfold applyMove. rewrite (running s H) by congruence. unfold applyReveal. rewrite Hpend, Hp. fold p.
    rewrite party_eqb_refl, Hsalt, Hcf, bool_decide_eq_true_2, (bool_decide_eq_true_2 (_ = _)) by done. cbn -[verifyCell].
    rewrite (honest_opening _ _ _ _ Hc Hr). cbn. by eexists. }
  exists s'. split; [exact E|]. unfold applyMove in E. rewrite (running s H) in E by congruence.
  destruct (reveal_facts _ _ _ _ _ _ _ E) as (q' & h & _ & Hq' & _ & _ & _ & _ & Hcf' & _ & _ & _ & _ & _ & Hp' & Hs' & _ & Hph' & _).
  rewrite Hpend in Hq'. injection Hq' as <-. split.
  - intros p'. split; [rewrite Hcf'; apply Hd|]. rewrite Hs'. destruct (party_eqb p' p) eqn:Ep; party_cases; [|apply Hd].
    apply Forall_app. split; [apply Hd|]. constructor; [done|constructor].
  - assert (length (shotsAtA s') + length (shotsAtB s') = S (length (shotsAtA s) + length (shotsAtB s)))%nat as Hl.
    { change (shotsAtA ?x) with (shotsAt x PartyA). change (shotsAtB ?x) with (shotsAt x PartyB). rewrite !Hs'.
      destruct p; cbn [party_eqb]; rewrite length_app; cbn [length]; lia. }
    assert (Hok : forall r, (length (shotsAt s' r) <= 100)%nat).
    { intros r. apply (shots_at_most _ (hitsOn s' r)). eapply g_shots, (pvp_reveal_inv _ _ _ Hst s); [exact H|exact E]. }
    pose proof (Hok PartyA). pose proof (Hok PartyB). cbn [shotsAt] in *.
    unfold moves_left. rewrite Hph', Hp', Hp, Hpend. cbn zeta. case_match; cbn; lia.
Qed.

Lemma drive_board s draw d : inv s -> driven s -> phase s = awaitingBoardReveal ->
  exists m, nextMove s secrets draw d = Ok (Some m) /\ advances s m.
Proof.
  intros H Hd Hp. pose proof (g_phase _ _ _ _ H) as Hph. unfold phase_ok in Hph. rewrite Hp in Hph.
  destruct Hph as (HA & HB & Hw & Hpend & Hs). set (p := turn s) in *.
  destruct (Hsecrets p) as (Hc & Hlegal & _). destruct (commitBoard_sizes _ _ _ Hc) as [Hlb [Hls _]].
  assert (Hcf : commitFor s p = Some (root (fs_commitment (secret_of secrets p)))).
  { assert (is_Some (commitFor s p)) as [h Eh] by (by destruct p). by rewrite Eh, (proj1 (Hd p) h Eh). }
  assert (Hpr : pendingBoardReveal s = Some p).
  { unfold pendingBoardReveal. rewrite Hp, bool_decide_eq_true_2 by done. cbn [negb]. unfold sank in Hs. clearbody p.
    destruct p; cbn [hitsOn otherParty] in Hs; destruct Hs as [E1 E2].
    - by rewrite E1, Z.eqb_refl.
    - rewrite (proj2 (Z.eqb_neq _ _)) by lia. by rewrite E1, Z.eqb_refl. }
  unfold nextMove. rewrite Hw, Hp, Hpr. cbn -[applyMove]. eexists. split; [reflexivity|]. unfold advances. cbn -[applyMove].
  unfold applyMove. rewrite (running s H) by congruence. unfold applyRevealBoard. rewrite Hpr, party_eqb_refl, Hlb, Hls, !Z.eqb_refl. cbn [negb].
  rewrite Hc. cbn [rbind]. rewrite Hcf. cbn [rbind]. rewrite (proj2 (bytesEqual_spec _ _) eq_refl). cbn [negb]. rewrite Hlegal. cbn [rbind].
  destruct (shiftStake s _) as [a b]. eexists. split; [reflexivity|]. split; [by intros []; apply (Hd PartyA) || apply (Hd PartyB)|].
  unfold moves_left. cbn. rewrite Hp. lia.
Qed.

Lemma pvp_drive_turn s draw d : inv s -> driven s ->
  phase s = over /\ nextMove s secrets draw d = Ok None \/
  exists m, nextMove s secrets draw d = Ok (Some m) /\ advances s m.
Proof.
  intros H Hd. destruct (phase s) eqn:Hp.
  - right. by apply pvp_drive_commit.
  - right. destruct (pendingShot s) as [q|] eqn:Hq; [by eapply pvp_drive_answer|by apply pvp_drive_shoot].
  - right. by apply drive_board.
  - left. split; [done|]. unfold nextMove. rewrite Hp. by rewrite bool_decide_eq_true_2, orb_true_r by done.
Qed.

(** The driver shows a legal board, so the seat that sank the other is paid. *)
Lemma drive_pays s draw d m s' :
  inv s -> nextMove s secrets draw d = Ok (Some m) -> applyMove s (dm_move m) (dm_by m) = Ok s' -> paid s'.
Proof.
  intros H Em E Hover. destruct (phase_over _ _ _ _ _ _ _ H E Hover) as (cells & salts & Hm & E').
  destruct (board_inv _ _ _ Hst _ _ _ _ _ H E') as (_ & _ & c & legal & Hs & _ & _ & Hleg & Hw). exists (dm_by m). split; [done|].
  assert (Hcells : cells = fs_board (secret_of secrets (dm_by m))).
  { unfold nextMove, revealMove in Em. repeat case_match; inv_ok; simplify_eq/=; try done. }
  subst cells. rewrite (proj1 (proj2 (Hsecrets (dm_by m)))) in Hleg. by injection Hleg as <-.
Qed.

Lemma pvp_play_completes n s rng d : inv s -> driven s -> paid s -> (moves_left s < n)%nat ->
  exists s', playToCompletion n s secrets rng d = Ok s' /\ inv s' /\ driven s' /\ phase s' = over /\ paid s'.
Proof.
  revert s. induction n as [|n IH]; intros s Hi Hd Hpd Hn; [lia|]. cbn [playToCompletion].
  destruct (pvp_drive_turn s (rng n) d Hi Hd) as [[Ep ->]|(m & Em & s' & E & Hd' & Hlt)]; cbn [rbind]; [by eauto 10|].
  rewrite Em. cbn [rbind]. rewrite E. cbn [rbind]. apply IH; [|done| |lia]; [exact (pvp_applyMove_inv _ _ _ Hst s _ _ s' Hi E)|].
  by eapply drive_pays.
Qed.
End Driver.

(** Self-play with proofs always finishes, at every difficulty.  Between two committed
    legal fleets, whatever cells the bots pick, every move of the driver is accepted and
    [playToCompletion] returns within 404 moves a game that is over: every recorded answer
    is what the boards say, one fleet is sunk and the other is not, and the seat whose
    fleet is afloat has won the stake. *)
Theorem proven_play_completes `{C : Crypto} `{!CryptoLaws C} ds ctx secrets rng d n :
  0 <= ds -> lockable (initialBalances ctx) -> (forall p, secret_ok (secret_of secrets p)) -> (404 <= n)%nat ->
  exists s p, playToCompletion n (initialState ds ctx) secrets rng d = Ok s /\ phase s = over /\
    (forall q, truthful (fs_board (secret_of secrets q)) (shotsAt s q)) /\
    sank s p /\ winner s = seat_code p /\
    balanceA s = bal_a (initialBalances ctx) + shift_of (winner s) (stake_of ds ctx) /\
    balanceB s = bal_b (initialBalances ctx) - shift_of (winner s) (stake_of ds ctx).
Proof.
  intros Hd Hl Hsec Hn. pose proof (pvp_initial_game ds ctx Hd Hl) as H0.
  destruct (pvp_play_completes _ _ _ (pvp_stake_of_range ds ctx Hd Hl) secrets Hsec n (initialState ds ctx) rng d)
    as (s & E & Hi & Hdr & Ho & Hp); [done|intros []; (split; [done|constructor])|done|cbn; lia|].
  destruct (Hp Ho) as (p & Hs & Hw). exists s, p. split; [done|]. split; [done|]. split; [intros q; apply Hdr|].
  split; [done|]. split; [done|]. split; apply Hi.
Qed.

Lemma drawn_secret_ok : secret_ok (secret_for (drawn_board 1)).
Proof.
  split; [|split].
  - destruct (honest_check_spec _ _ honest_checked) as (c & s & Hc & _). unfold secret_for. cbn [fs_board fs_salts fs_commitment].
    rewrite Hc. reflexivity.
  - exact drawn_legal.
  - intros cell. cbn [secret_for fs_board]. unfold ship_at, is_one, at_cell. destruct (cell <? 0); [reflexivity|].
    assert (H : Forall (fun x => x = 0 \/ x = 1) (drawn_board 1)) by (apply (bool_decide_unpack _); vm_compute; exact I).
    destruct (nth_in_or_default (Z.to_nat cell) (drawn_board 1) 0) as [Hin| ->]; [|reflexivity].
    rewrite Forall_forall in H. apply list_elem_of_In, H in Hin as [->| ->]; reflexivity.
Qed.

Lemma proven_play_completes_witness : exists s p,
  playToCompletion 2000 (initialState 100 duel_ctx) (secret_for (drawn_board 1), secret_for (drawn_board 1))
    (fun k n => (k * 7) mod (S n))%nat hard = Ok s /\ phase s = over /\ winner s = seat_code p.
Proof.
  destruct (proven_play_completes 100 duel_ctx (secret_for (drawn_board 1), secret_for (drawn_board 1))
    (fun k n => (k * 7) mod (S n))%nat hard 2000) as (s & p & E & Ho & _ & _ & Hw & _).
  - lia.
  - exact pvp_duel_lockable.
  - intros []; exact drawn_secret_ok.
  - apply Nat.leb_le. vm_compute. reflexivity.
  - exists s, p. split; [exact E|]. split; [exact Ho|exact Hw].
Defined.
