(* ===== verification/Caro.v ===== *)
(** Caro (five in a row), [frontend/src/games/ticTacToe/packages/shared/src/caro/]:
    [board.ts], the protocol and the move codec of [protocol.ts].  A board has [size * size]
    cells; a read outside it, which none of the callers makes, gives 0. *)
From S2P Require Import Prelude.
From S2P Require Import Bytes.
From S2P Require Import Wire.
From S2P Require Import Crypto.
From S2P Require Import Commitment.
From S2P Require Import Protocol.

(** [type CaroBoard = number[]] *)
Notation CaroBoard := (list Z).

(** [src frontend/src/games/ticTacToe/packages/shared/src/caro/board.ts DIRS] *)
Definition DIRS : list (Z * Z) := [(0, 1); (1, 0); (1, 1); (1, -1)].

(** [src frontend/src/games/ticTacToe/packages/shared/src/caro/board.ts inBounds] *)
Definition inBounds (size r c : Z) : bool := (0 <=? r) && (r <? size) && (0 <=? c) && (c <? size).

(** [board[i]] *)
Definition cell_at (board : CaroBoard) (i : Z) : Z := if i <? 0 then 0 else nth (Z.to_nat i) board 0.

(** [src frontend/src/games/ticTacToe/packages/shared/src/caro/board.ts applyMark] *)
Definition applyMark (board : CaroBoard) (idx mark : Z) : CaroBoard := <[Z.to_nat idx := mark]> board.

(** [src frontend/src/games/ticTacToe/packages/shared/src/caro/board.ts isFull] *)
Definition isFull (board : CaroBoard) : bool := forallb (fun v => negb (v =? 0)) board.

(** [inBounds(size, r, c) && board[r * size + c] === mark] *)
Definition holds (board : CaroBoard) (size mark r c : Z) : bool :=
  inBounds size r c && (cell_at board (r * size + c) =? mark).

(** [inBounds(size, r, c) && board[r * size + c] !== 0] *)
Definition occupied (board : CaroBoard) (size r c : Z) : bool :=
  inBounds size r c && negb (cell_at board (r * size + c) =? 0).

(** [src frontend/src/games/ticTacToe/packages/shared/src/caro/board.ts:59-63 winnerAround] one of the
    two walks along an axis: the count and the cell where it stops.  No walk is longer
    than the board is wide. *)
Fixpoint walk (fuel : nat) (board : CaroBoard) (size mark dr dc count r c : Z) : Z * (Z * Z) :=
  match fuel with
  | O => (count, (r, c))
  | S fuel' =>
      if holds board size mark r c
      then walk fuel' board size mark dr dc (count + 1) (r + dr) (c + dc)
      else (count, (r, c))
  end.

(** [src frontend/src/games/ticTacToe/packages/shared/src/caro/board.ts:56-74 winnerAround] the two
    walks of one axis: the count, and whether the forward and the backward end are blocked *)
Definition axis (board : CaroBoard) (size mark r0 c0 : Z) (d : Z * Z) : Z * bool * bool :=
  let '(dr, dc) := d in
  let '(n, (r, c)) := walk (Z.to_nat size) board size mark dr dc 1 (r0 + dr) (c0 + dc) in
  let forwardBlocked := occupied board size r c in
  let '(count, (r', c')) := walk (Z.to_nat size) board size mark (- dr) (- dc) n (r0 - dr) (c0 - dc) in
  let backwardBlocked := occupied board size r' c' in
  (count, forwardBlocked, backwardBlocked).

(** [count === 5 && !(forwardBlocked && backwardBlocked)] *)
Definition wins (a : Z * bool * bool) : bool :=
  let '(count, forward, backward) := a in (count =? 5) && negb (forward && backward).

(** [src frontend/src/games/ticTacToe/packages/shared/src/caro/board.ts winnerAround] *)
Definition winnerAround (board : CaroBoard) (size idx : Z) : Z :=
  if (idx <? 0) || (size * size <=? idx) then 0
  else
    let mark := cell_at board idx in
    if mark =? 0 then 0
    else if existsb (fun d => wins (axis board size mark (idx / size) (Z.rem idx size) d)) DIRS then mark
    else 0.

(** [src frontend/src/games/ticTacToe/packages/shared/src/caro/board.ts:99-103 winningLine] the cells of
    one walk *)
Fixpoint walk_cells (fuel : nat) (board : CaroBoard) (size mark dr dc r c : Z) : list Z :=
  match fuel with
  | O => []
  | S fuel' =>
      if holds board size mark r c
      then r * size + c :: walk_cells fuel' board size mark dr dc (r + dr) (c + dc)
      else []
  end.

(** [src frontend/src/games/ticTacToe/packages/shared/src/caro/board.ts:96-112 winningLine] *)
Definition axis_line (board : CaroBoard) (size mark idx : Z) (d : Z * Z) : list Z :=
  let r0 := idx / size in
  let c0 := Z.rem idx size in
  idx :: walk_cells (Z.to_nat size) board size mark (fst d) (snd d) (r0 + fst d) (c0 + snd d) ++
         walk_cells (Z.to_nat size) board size mark (- fst d) (- snd d) (r0 - fst d) (c0 - snd d).

(** [src frontend/src/games/ticTacToe/packages/shared/src/caro/board.ts winningLine] *)
Definition winningLine (board : CaroBoard) (size idx : Z) : list Z :=
  if (idx <? 0) || (size * size <=? idx) then []
  else
    let mark := cell_at board idx in
    if mark =? 0 then []
    else
      match List.find (fun d =>
        let '(_, forward, backward) := axis board size mark (idx / size) (Z.rem idx size) d in
        (length (axis_line board size mark idx d) =? 5)%nat && negb (forward && backward)) DIRS with
      | Some d => axis_line board size mark idx d
      | None => []
      end.

(** * The protocol *)

(** [src frontend/src/games/ticTacToe/packages/shared/src/caro/protocol.ts CaroState] *)
Record CaroState := {
  board : CaroBoard;
  size : Z;
  turn : Party;
  winner : Z;
  lastMove : Z;
  movesCount : Z;
  balanceA : Z;
  balanceB : Z;
  total : Z;
  stake : Z;
  moveAccumulator : bytes
}.

(** [src frontend/src/games/ticTacToe/packages/shared/src/caro/protocol.ts CaroMove] *)
Record CaroMove := { cell : jsnum; salt : option bytes }.

(** [src frontend/src/games/ticTacToe/packages/shared/src/caro/protocol.ts DOMAIN] *)
Definition DOMAIN : bytes := protocolDomain "caro.v2".
(** [src frontend/src/games/ticTacToe/packages/shared/src/caro/protocol.ts MIN_SALT_LEN] *)
Definition MIN_SALT_LEN : nat := 16.

(** [src frontend/src/games/ticTacToe/packages/shared/src/caro/protocol.ts lp] *)
Definition lp_chunks (x : bytes) : result (list bytes) :=
  let! n := u64ToBeBytes (Z.of_nat (length x)) in
  Ok [n; x].

(** [src frontend/src/games/ticTacToe/packages/shared/src/caro/protocol.ts CaroProtocol.constructor] *)
Definition newCaro (boardSize : jsnum) (stake : Z) : result (Z * Z) :=
  match boardSize with
  | JsNonInt => Throw (Error "caro board size must be an integer >= 3")
  | JsInt n =>
      throw_if (n <? 3) with Error "caro board size must be an integer >= 3" ;
      throw_if (stake <? 0) with Error "stake must be non-negative" ;
      Ok (n, stake)
  end.

(** [src frontend/src/games/ticTacToe/packages/shared/src/caro/protocol.ts CaroProtocol.balances] *)
Definition balances (s : CaroState) : Balances := {| bal_a := balanceA s; bal_b := balanceB s |}.

(** [src frontend/src/games/ticTacToe/packages/shared/src/caro/protocol.ts CaroProtocol.isTerminal] *)
Definition isTerminal (s : CaroState) : bool := negb (winner s =? 0).

(** [src frontend/src/games/ticTacToe/packages/shared/src/caro/protocol.ts CaroProtocol.encodeState] *)
Definition encodeState (s : CaroState) : result bytes :=
  let! n := u64ToBeBytes (size s) in
  let! a := u64ToBeBytes (balanceA s) in
  let! b := u64ToBeBytes (balanceB s) in
  let! st := u64ToBeBytes (stake s) in
  let! parts := lengthPrefixedConcat
    [n; u8_from (board s); u8_from [match turn s with PartyA => 0 | PartyB => 1 end; winner s]; a; b; st] in
  concatBytes [DOMAIN; parts; moveAccumulator s].

(** [src frontend/src/games/ticTacToe/packages/shared/src/caro/protocol.ts:154-167 applyMove] the loser
    pays the stake, clamped to what it has *)
Definition payout (w : Z) (s : CaroState) : Z * Z :=
  if (w =? 1) || (w =? 2) then
    let loserBal := if w =? 1 then balanceB s else balanceA s in
    let shift := if stake s <? loserBal then stake s else loserBal in
    if w =? 1 then (balanceA s + shift, balanceB s - shift)
    else (balanceA s - shift, balanceB s + shift)
  else (balanceA s, balanceB s).

Section WithCrypto.
Context `{C : Crypto}.

(** [src frontend/src/games/ticTacToe/packages/shared/src/caro/protocol.ts initialAccumulator] *)
Definition initialAccumulator : result bytes :=
  let! d := lp_chunks DOMAIN in
  let! p := concatBytes (DOMAIN_COMMIT_REVEAL :: d) in
  Ok (blake2b256 p).

(** [src frontend/src/games/ticTacToe/packages/shared/src/caro/protocol.ts advanceAccumulator] *)
Definition advanceAccumulator (prevAcc commitment : bytes) : result bytes :=
  let! a := lp_chunks prevAcc in
  let! c := lp_chunks commitment in
  let! p := concatBytes (DOMAIN_COMMIT_REVEAL :: a ++ c) in
  Ok (blake2b256 p).

(** [src frontend/src/games/ticTacToe/packages/shared/src/caro/protocol.ts CaroProtocol.initialState] *)
Definition initialState (boardSize defaultStake : Z) (ctx : ProtocolContext) : result CaroState :=
  let a := bal_a (initialBalances ctx) in
  let b := bal_b (initialBalances ctx) in
  let cap := if a <? b then a else b in
  let! acc := initialAccumulator in
  Ok {| board := replicate (Z.to_nat (boardSize * boardSize)) 0; size := boardSize; turn := PartyA; winner := 0;
        lastMove := -1; movesCount := 0; balanceA := a; balanceB := b; total := a + b;
        stake := if defaultStake <? cap then defaultStake else cap; moveAccumulator := acc |}.

(** [src frontend/src/games/ticTacToe/packages/shared/src/caro/protocol.ts CaroProtocol.applyMove] *)
Definition applyMove (s : CaroState) (move : CaroMove) (by_ : Party) : result CaroState :=
  throw_if negb (winner s =? 0) with Error "caro: game already over" ;
  throw_if negb (party_eqb by_ (turn s)) with Error "caro: not this party's turn" ;
  match cell move with
  | JsNonInt => Throw (Error "caro: cell out of range")
  | JsInt c =>
      throw_if (c <? 0) || (size s * size s <=? c) with Error "caro: cell out of range" ;
      throw_if negb (cell_at (board s) c =? 0) with Error "caro: cell occupied" ;
      match salt move with
      | None => Throw (Error "caro: salt must be >= 16 bytes")
      | Some slt =>
          throw_if (length slt <? MIN_SALT_LEN)%nat with Error "caro: salt must be >= 16 bytes" ;
          let mark := match by_ with PartyA => 1 | PartyB => 2 end in
          let b := applyMark (board s) c mark in
          let mc := movesCount s + 1 in
          let w0 := winnerAround b (size s) c in
          let w := if (w0 =? 0) && (mc =? size s * size s) then 3 else w0 in
          let pay := payout w s in
          let! mcb := u64ToBeBytes mc in
          let! cb := u64ToBeBytes c in
          let! value := concatBytes [u8_from [match by_ with PartyA => 1 | PartyB => 2 end]; mcb; cb] in
          let! commitment := computeCommitment value slt in
          let! acc := advanceAccumulator (moveAccumulator s) commitment in
          Ok {| board := b; size := size s; turn := match by_ with PartyA => PartyB | PartyB => PartyA end;
                winner := w; lastMove := c; movesCount := mc; balanceA := fst pay; balanceB := snd pay;
                total := total s; stake := stake s; moveAccumulator := acc |}
      end
  end.

(** [src frontend/src/games/ticTacToe/packages/shared/src/caro/protocol.ts:89-93 CaroProtocol] *)
Definition CaroProtocol (boardSize defaultStake : Z) : Protocol CaroState CaroMove :=
  {| movesCarrySecrets := false;
     Protocol.initialState := initialState boardSize defaultStake;
     Protocol.applyMove := applyMove;
     Protocol.encodeState := encodeState;
     Protocol.balances := balances;
     Protocol.isTerminal := isTerminal |}.
End WithCrypto.

(** The rules of caro: looking around the last stone finds exactly the wins of the whole
    board, what a game pays, and that it ends. *)

(** * Five in a row, on the whole board *)

(** A run of exactly five stones of [v], from [(r, c)] in direction [d], with a free end:
    the cells before and after it do not continue it, and are not both occupied. *)
Definition five (b : CaroBoard) (n v : Z) (d : Z * Z) (r c : Z) : Prop :=
  let on j := holds b n v (r + j * d.1) (c + j * d.2) in
  let full j := occupied b n (r + j * d.1) (c + j * d.2) in
  (forall j, 0 <= j <= 4 -> on j = true) /\ on (-1) = false /\ on 5 = false /\ full (-1) && full 5 = false.

Definition has_five (b : CaroBoard) (n v : Z) : Prop := exists d r c, d ∈ DIRS /\ five b n v d r c.

(** * The walks *)

Definition unit_step (d : Z * Z) : Prop := -1 <= d.1 <= 1 /\ -1 <= d.2 <= 1 /\ (d.1 <> 0 \/ d.2 <> 0).

Lemma dirs_unit d : d ∈ DIRS -> unit_step d /\ unit_step (- d.1, - d.2).
Proof. unfold DIRS. rewrite !elem_of_cons, elem_of_nil. intros H. decompose [or] H; subst; try done; unfold unit_step; cbn; lia. Qed.

Lemma holds_bounds b n v r c : holds b n v r c = true -> 0 <= r < n /\ 0 <= c < n.
Proof. unfold holds, inBounds. rewrite !andb_true_iff. lia. Qed.

Lemma walk_spec fuel b n v dr dc count r c :
  exists k, (k <= fuel)%nat /\
    walk fuel b n v dr dc count r c = (count + Z.of_nat k, (r + Z.of_nat k * dr, c + Z.of_nat k * dc)) /\
    (forall j, 0 <= j < Z.of_nat k -> holds b n v (r + j * dr) (c + j * dc) = true) /\
    (k = fuel \/ holds b n v (r + Z.of_nat k * dr) (c + Z.of_nat k * dc) = false).
Proof.
  revert count r c; induction fuel as [|fuel IH]; intros count r c; cbn [walk].
  - exists 0%nat. split_and!; [lia| |lia|by left]. f_equal; [lia|]. f_equal; lia.
  - destruct (holds b n v r c) eqn:E.
    + destruct (IH (count + 1) (r + dr) (c + dc)) as (k & Hk & -> & Hj & Hend). exists (S k). split_and!; [lia| | |].
      * f_equal; [lia|]. f_equal; lia.
      * intros j Hj'. destruct (Z.eq_dec j 0) as [->|]; [by rewrite !Z.mul_0_l, !Z.add_0_r|].
        rewrite <- (Hj (j - 1)) by lia. f_equal; lia.
      * destruct Hend as [->|Hend]; [by left|right]. rewrite <- Hend. f_equal; lia.
    + exists 0%nat. split_and!; [lia| |lia|right]; [f_equal; [lia|]; f_equal; lia|]. by rewrite !Z.mul_0_l, !Z.add_0_r.
Qed.

(** From a cell of the board, a walk ends within [size] steps. *)
Lemma walk_ends b n v d r0 c0 count :
  unit_step d -> 0 <= r0 < n -> 0 <= c0 < n ->
  exists k, 0 <= k /\
    walk (Z.to_nat n) b n v d.1 d.2 count (r0 + d.1) (c0 + d.2) =
      (count + k, (r0 + (k + 1) * d.1, c0 + (k + 1) * d.2)) /\
    (forall j, 1 <= j <= k -> holds b n v (r0 + j * d.1) (c0 + j * d.2) = true) /\
    holds b n v (r0 + (k + 1) * d.1) (c0 + (k + 1) * d.2) = false.
Proof.
  intros (H1 & H2 & H3) Hr Hc.
  destruct (walk_spec (Z.to_nat n) b n v d.1 d.2 count (r0 + d.1) (c0 + d.2)) as (k & Hk & E & Hj & Hend).
  assert (Hj' : forall j, 1 <= j <= Z.of_nat k -> holds b n v (r0 + j * d.1) (c0 + j * d.2) = true).
  { intros j Hjk. rewrite <- (Hj (j - 1)) by lia. f_equal; lia. }
  exists (Z.of_nat k). split; [lia|]. split; [rewrite E; f_equal; f_equal; lia|]. split; [done|].
  destruct Hend as [->|Hend]; [exfalso|rewrite <- Hend; f_equal; lia].
  pose proof (holds_bounds _ _ _ _ _ (Hj' n ltac:(lia))) as [Hb1 Hb2]. nia.
Qed.

(** One axis, with the stone it is looked at from: the run through it and its ends. *)
Lemma axis_spec b n v d r0 c0 :
  d ∈ DIRS -> holds b n v r0 c0 = true ->
  exists k1 k2, 0 <= k1 /\ 0 <= k2 /\
    axis b n v r0 c0 d = (1 + k1 + k2, occupied b n (r0 + (k1 + 1) * d.1) (c0 + (k1 + 1) * d.2),
                          occupied b n (r0 - (k2 + 1) * d.1) (c0 - (k2 + 1) * d.2)) /\
    (forall j, - k2 <= j <= k1 -> holds b n v (r0 + j * d.1) (c0 + j * d.2) = true) /\
    holds b n v (r0 + (k1 + 1) * d.1) (c0 + (k1 + 1) * d.2) = false /\
    holds b n v (r0 - (k2 + 1) * d.1) (c0 - (k2 + 1) * d.2) = false.
Proof.
  intros Hd H0. destruct (holds_bounds _ _ _ _ _ H0) as [Hr Hc]. destruct (dirs_unit d Hd) as [Hu Hu'].
  destruct d as [dr dc]. cbn [fst snd] in *.
  destruct (walk_ends b n v (dr, dc) r0 c0 1 Hu Hr Hc) as (k1 & Hk1 & E1 & Hj1 & He1).
  destruct (walk_ends b n v (- dr, - dc) r0 c0 (1 + k1) Hu' Hr Hc) as (k2 & Hk2 & E2 & Hj2 & He2). cbn [fst snd] in *.
  assert (Hneg : forall k x y, x + k * - y = x - k * y) by (intros; lia). rewrite !Hneg in *.
  exists k1, k2. split; [done|]. split; [done|]. split_and!; [|intros j Hj|done|done].
  - unfold axis. rewrite E1. change (r0 - dr) with (r0 + - dr). change (c0 - dc) with (c0 + - dc). by rewrite E2.
  - destruct (Z.eq_dec j 0) as [->|]; [by rewrite !Z.mul_0_l, !Z.add_0_r|].
    destruct (Z.lt_ge_cases 0 j) as [Hp|Hp]; [apply Hj1; lia|]. rewrite <- (Hj2 (- j)) by lia. f_equal; lia.
Qed.

(** An axis wins exactly when a run of five with a free end goes through the stone. *)
Lemma axis_wins b n v d r0 c0 :
  d ∈ DIRS -> holds b n v r0 c0 = true ->
  wins (axis b n v r0 c0 d) = true <-> exists k, 0 <= k <= 4 /\ five b n v d (r0 - k * d.1) (c0 - k * d.2).
Proof.
  intros Hd H0. destruct (axis_spec b n v d r0 c0 Hd H0) as (k1 & k2 & Hk1 & Hk2 & -> & Hj & He1 & He2).
  assert (Hsh : forall k j, r0 - k * d.1 + j * d.1 = r0 + (j - k) * d.1 /\ c0 - k * d.2 + j * d.2 = c0 + (j - k) * d.2) by (intros; lia).
  cbn [wins]. rewrite andb_true_iff, Z.eqb_eq, negb_true_iff. split.
  - intros [Hc Hb]. exists k2. split; [lia|]. unfold five. split_and!.
    + intros j Hj'. destruct (Hsh k2 j) as [-> ->]. apply Hj. lia.
    + destruct (Hsh k2 (-1)) as [-> ->]. rewrite <- He2. f_equal; lia.
    + destruct (Hsh k2 5) as [-> ->]. rewrite <- He1. f_equal; f_equal; f_equal; lia.
    + destruct (Hsh k2 (-1)) as [-> ->], (Hsh k2 5) as [-> ->]. rewrite andb_comm, <- Hb.
      f_equal; f_equal; first [lia|f_equal; f_equal; lia].
  - intros (k & Hk & Hon & Hm & Hp & Hfl).
    assert (Hall : forall j, - k <= j <= 4 - k -> holds b n v (r0 + j * d.1) (c0 + j * d.2) = true).
    { intros j Hj'. rewrite <- (Hon (j + k)) by lia. destruct (Hsh k (j + k)) as [-> ->]. f_equal; f_equal; f_equal; lia. }
    destruct (Hsh k (-1)) as [Er1 Ec1], (Hsh k 5) as [Er5 Ec5]. rewrite Er1, Ec1 in *. rewrite Er5, Ec5 in *.
    assert (k2 = k) as ->.
    { destruct (Z.lt_trichotomy k2 k) as [Hlt|[|Hlt]]; [|done|].
      - pose proof (Hall (- (k2 + 1)) ltac:(lia)) as E.
        replace (r0 + - (k2 + 1) * d.1) with (r0 - (k2 + 1) * d.1) in E by lia.
        replace (c0 + - (k2 + 1) * d.2) with (c0 - (k2 + 1) * d.2) in E by lia. congruence.
      - rewrite Hj in Hm by lia. done. }
    assert (k1 = 4 - k) as ->.
    { destruct (Z.lt_trichotomy k1 (4 - k)) as [Hlt|[|Hlt]]; [|done|].
      - rewrite Hall in He1 by lia. done.
      - rewrite Hj in Hp by lia. done. }
    split; [lia|]. rewrite andb_comm in Hfl. rewrite <- Hfl. f_equal; f_equal; first [lia|f_equal; f_equal; lia].
Qed.

(** * Placing a stone *)

Lemma cell_index n idx : 0 < n -> 0 <= idx < n * n ->
  0 <= idx / n < n /\ 0 <= Z.rem idx n < n /\ idx / n * n + Z.rem idx n = idx.
Proof.
  intros Hn Hi. rewrite Z.rem_mod_nonneg by lia. pose proof (Z.div_mod idx n ltac:(lia)). pose proof (Z.mod_pos_bound idx n Hn).
  split_and!; try lia; [apply Z.div_pos; lia|apply Z.div_lt_upper_bound; lia].
Qed.

Lemma cell_unique n r c r' c' : 0 <= c < n -> 0 <= c' < n -> r * n + c = r' * n + c' -> r = r' /\ c = c'.
Proof. intros Hc Hc' E. assert (r = r') by nia. lia. Qed.

Section Place.
Context (b : CaroBoard) (n idx m : Z).
Context (Hn : 0 < n) (Hlen : length b = Z.to_nat (n * n)) (Hidx : 0 <= idx < n * n) (Hm : m <> 0).
Context (Hempty : cell_at b idx = 0).
Notation b' := (applyMark b idx m).

Lemma cell_mark i : cell_at b' i = if i =? idx then m else cell_at b i.
Proof.
  unfold cell_at, applyMark. destruct (Z.ltb_spec i 0); [destruct (Z.eqb_spec i idx); [lia|done]|].
  rewrite !nth_lookup. destruct (Z.eqb_spec i idx) as [->|Hne].
  - rewrite list_lookup_insert_eq by lia. done.
  - rewrite list_lookup_insert_ne by lia. done.
Qed.

Lemma holds_mark v r c : holds b' n v r c = if inBounds n r c && (r * n + c =? idx) then m =? v else holds b n v r c.
Proof.
  unfold holds. rewrite cell_mark. destruct (inBounds n r c); cbn [andb]; [|done]. by destruct (r * n + c =? idx).
Qed.

(** A stone never frees an end and never shortens a run. *)
Lemma holds_keeps v r c : v <> 0 -> holds b n v r c = true -> holds b' n v r c = true.
Proof.
  intros Hv H. rewrite holds_mark. destruct (inBounds n r c && (r * n + c =? idx)) eqn:E; [|done]. bool_to_prop.
  unfold holds in H. bool_to_prop. congruence.
Qed.

Lemma occupied_keeps r c : occupied b n r c = true -> occupied b' n r c = true.
Proof.
  unfold occupied. rewrite cell_mark. intros H. bool_to_prop. rewrite H. destruct (r * n + c =? idx); cbn; apply negb_true_iff, Z.eqb_neq; done.
Qed.

(** A five of the new board is one of the old board, or goes through the new stone. *)
Lemma new_five v d r c :
  v <> 0 -> five b' n v d r c ->
  five b n v d r c \/
  v = m /\ exists k, 0 <= k <= 4 /\ r = idx / n - k * d.1 /\ c = Z.rem idx n - k * d.2.
Proof.
  intros Hv (Hon & Hm1 & H5 & Hfl).
  assert (Hend : forall j, holds b' n v (r + j * d.1) (c + j * d.2) = false -> holds b n v (r + j * d.1) (c + j * d.2) = false).
  { intros j Hj. destruct (holds b n v _ _) eqn:E; [|done]. apply holds_keeps in E; [congruence|done]. }
  destruct (existsb (fun j => inBounds n (r + j * d.1) (c + j * d.2) && ((r + j * d.1) * n + (c + j * d.2) =? idx)) [0; 1; 2; 3; 4]) eqn:Ex.
  - right. apply existsb_exists in Ex as (k & Hk & E). assert (Hk4 : 0 <= k <= 4) by (cbn in Hk; lia).
    pose proof (Hon k Hk4) as Hv'. rewrite holds_mark, E in Hv'. bool_to_prop. split; [done|]. exists k. split; [done|].
    destruct (cell_index n idx Hn Hidx) as (H1 & H2 & H3). unfold inBounds in *. bool_to_prop.
    destruct (cell_unique n (r + k * d.1) (c + k * d.2) (idx / n) (Z.rem idx n)) as [? ?]; lia.
  - left. unfold five. split_and!; [|by apply Hend..|].
    + intros j Hj. pose proof (Hon j Hj) as H. rewrite holds_mark in H.
      destruct (inBounds n (r + j * d.1) (c + j * d.2) && _) eqn:E; [|done]. exfalso.
      assert (existsb (fun j => inBounds n (r + j * d.1) (c + j * d.2) && ((r + j * d.1) * n + (c + j * d.2) =? idx)) [0; 1; 2; 3; 4] = true); [|congruence].
      apply existsb_exists. exists j. split; [|done]. cbn. lia.
    + destruct (occupied b n (r + -1 * d.1) _ && occupied b n (r + 5 * d.1) _) eqn:E; [|done]. bool_to_prop.
      destruct Hfl as [Hf|Hf]; [rewrite occupied_keeps in Hf by done|rewrite (occupied_keeps (r + 5 * d.1)) in Hf by done]; done.
Qed.

(** What looking around the new stone finds. *)
Lemma winnerAround_spec :
  winnerAround b' n idx = m /\ has_five b' n m \/
  winnerAround b' n idx = 0 /\
    forall d k, d ∈ DIRS -> 0 <= k <= 4 -> ~ five b' n m d (idx / n - k * d.1) (Z.rem idx n - k * d.2).
Proof.
  unfold winnerAround. rewrite (proj2 (Z.ltb_ge _ _)), (proj2 (Z.leb_gt _ _)) by lia. cbn [orb].
  rewrite cell_mark, Z.eqb_refl, (proj2 (Z.eqb_neq _ _)) by done.
  destruct (cell_index n idx Hn Hidx) as (H1 & H2 & H3).
  assert (H0 : holds b' n m (idx / n) (Z.rem idx n) = true).
  { rewrite holds_mark. unfold inBounds. rewrite !(proj2 (Z.leb_le _ _)), !(proj2 (Z.ltb_lt _ _)), (proj2 (Z.eqb_eq _ _)) by lia.
    apply Z.eqb_refl. }
  destruct (existsb _ DIRS) eqn:Ex.
  - left. split; [done|]. apply existsb_exists in Ex as (d & Hd & Hw). apply list_elem_of_In in Hd.
    apply axis_wins in Hw as (k & _ & Hf); [|done..]. by exists d, (idx / n - k * d.1), (Z.rem idx n - k * d.2).
  - right. split; [done|]. intros d k Hd Hk Hf.
    assert (existsb (fun d => wins (axis b' n m (idx / n) (Z.rem idx n) d)) DIRS = true) as E; [|congruence].
    apply existsb_exists. exists d. split; [by apply list_elem_of_In|]. apply axis_wins; [done..|]. by exists k.
Qed.

(** On a board without a five, the look around decides whether there is one now. *)
Lemma placed_winner :
  (forall v, v <> 0 -> ~ has_five b n v) ->
  (winnerAround b' n idx = m \/ winnerAround b' n idx = 0) /\
  forall v, v <> 0 -> has_five b' n v <-> winnerAround b' n idx = v.
Proof.
  intros Hno. assert (Hold : forall v, v <> 0 -> has_five b' n v -> v = m /\ exists d k, d ∈ DIRS /\ 0 <= k <= 4 /\
    five b' n m d (idx / n - k * d.1) (Z.rem idx n - k * d.2)).
  { intros v Hv (d & r & c & Hd & Hf). destruct (new_five v d r c Hv Hf) as [Hf'|(-> & k & Hk & -> & ->)].
    - destruct (Hno v Hv). by exists d, r, c.
    - split; [done|]. by exists d, k. }
  destruct winnerAround_spec as [[-> Hf]|[-> Hnf]]; (split; [auto|]); intros v Hv; split.
  - intros H. by destruct (Hold v Hv H) as [-> _].
  - by intros <-.
  - intros H. destruct (Hold v Hv H) as (_ & d & k & Hd & Hk & Hf). by destruct (Hnf d k Hd Hk).
  - intros <-. done.
Qed.
End Place.

(** * The line that is shown *)

Lemma walk_counts fuel b n v dr dc count r c :
  (walk fuel b n v dr dc count r c).1 = count + Z.of_nat (length (walk_cells fuel b n v dr dc r c)).
Proof.
  revert count r c; induction fuel as [|fuel IH]; intros count r c; cbn [walk walk_cells]; [cbn; lia|].
  destruct (holds b n v r c); cbn [fst length]; [rewrite IH; lia|lia].
Qed.

Lemma walk_cells_hold fuel b n v dr dc r c : Forall (fun i => cell_at b i = v) (walk_cells fuel b n v dr dc r c).
Proof.
  revert r c; induction fuel as [|fuel IH]; intros r c; cbn [walk_cells]; [constructor|].
  destruct (holds b n v r c) eqn:E; constructor; [|apply IH]. unfold holds in E. bool_to_prop. done.
Qed.

Lemma axis_counts b n v idx d :
  (axis b n v (idx / n) (Z.rem idx n) d).1.1 = Z.of_nat (length (axis_line b n v idx d)).
Proof.
  destruct d as [dr dc]. unfold axis, axis_line. cbn [fst snd].
  destruct (walk _ b n v dr dc 1 _ _) as [k [r c]] eqn:E1. destruct (walk _ b n v (- dr) (- dc) k _ _) as [k' [r' c']] eqn:E2.
  cbn [fst snd length]. rewrite length_app.
  pose proof (walk_counts (Z.to_nat n) b n v dr dc 1 (idx / n + dr) (Z.rem idx n + dc)) as H1.
  pose proof (walk_counts (Z.to_nat n) b n v (- dr) (- dc) k (idx / n - dr) (Z.rem idx n - dc)) as H2.
  rewrite E1 in H1. rewrite E2 in H2. cbn [fst] in *. lia.
Qed.

(** The highlighted line: five cells of the winner with the last stone among them when the
    look around it finds a winner, and none otherwise. *)
Lemma winningLine_spec b n idx :
  (winnerAround b n idx = 0 /\ winningLine b n idx = []) \/
  (winnerAround b n idx <> 0 /\ length (winningLine b n idx) = 5%nat /\ idx ∈ winningLine b n idx /\
   Forall (fun i => cell_at b i = winnerAround b n idx) (winningLine b n idx)).
Proof.
  unfold winnerAround, winningLine. destruct ((idx <? 0) || (n * n <=? idx)); [by left|]. set (v := cell_at b idx).
  destruct (v =? 0) eqn:Ev; [by left|]. set (P := fun d => wins (axis b n v (idx / n) (Z.rem idx n) d)).
  assert (HP : forall d, (let '(_, forward, backward) := axis b n v (idx / n) (Z.rem idx n) d in
    (length (axis_line b n v idx d) =? 5)%nat && negb (forward && backward)) = P d).
  { intros d. unfold P. pose proof (axis_counts b n v idx d) as H. destruct (axis _ _ _ _ _ d) as [[k f] g]. cbn [fst snd wins] in *. f_equal.
    subst k. by destruct (Nat.eqb_spec (length (axis_line b n v idx d)) 5), (Z.eqb_spec (Z.of_nat (length (axis_line b n v idx d))) 5); try lia. }
  destruct (List.find _ DIRS) as [d|] eqn:Ef.
  - apply find_some in Ef as [Hin Hd]. rewrite HP in Hd. right. rewrite (proj2 (existsb_exists _ _) (ex_intro _ d (conj Hin Hd))).
    bool_to_prop. split; [done|]. split; [|split; [by left|]].
    + pose proof (axis_counts b n v idx d) as H. unfold P in Hd. destruct (axis _ _ _ _ _ d) as [[k f] g]. cbn [fst snd wins] in H, Hd. bool_to_prop. lia.
    + unfold axis_line. constructor; [done|]. apply Forall_app. split; apply walk_cells_hold.
  - left. split; [|done]. destruct (existsb P DIRS) eqn:Ex; [|done]. apply existsb_exists in Ex as (d & Hin & Hd).
    pose proof (find_none _ _ Ef d Hin) as Hn. cbv beta in Hn. rewrite HP in Hn. congruence.
Qed.
