(* ===== verification/CaroGame.v ===== *)
(** Games of caro: the invariant of a game, its wins, its payments and its length, the
    history it signs, and the line that is shown for a win. *)

From S2P Require Import Prelude.
From S2P Require Import Bytes.
From S2P Require Import Wire.
From S2P Require Import Crypto.
From S2P Require Import Commitment.
From S2P Require Import Protocol.
From S2P Require Import RollingDigest.

(* The move accumulator of tic-tac-toe and caro: every move folds a salted commitment to
    its mover, number and cell into 32 bytes.  The last value fixes the whole play. *)

(** A move as it is committed to: its number, mover, cell and salt. *)
Record entry := { e_number : Z; e_by : Party; e_cell : Z; e_salt : bytes }.

Definition entry_ok (e : entry) : Prop :=
  u64_range (e_number e) /\ u64_range (e_cell e) /\ u64_range (Z.of_nat (length (e_salt e))).

Definition entry_value (e : entry) : bytes :=
  u8_from [match e_by e with PartyA => 1 | PartyB => 2 end] ++ be_bytes 8 (e_number e) ++ be_bytes 8 (e_cell e).

(** Two length-prefixed fields under the domain of commitments. *)
Definition fields (x y : bytes) : bytes := DOMAIN_COMMIT_REVEAL ++ lp x ++ lp y.

Definition entry_input (e : entry) : bytes := fields (entry_value e) (e_salt e).

Lemma fields_inj x y x' y' :
  lp_range x -> lp_range y -> lp_range x' -> lp_range y' -> fields x y = fields x' y' -> x = x' /\ y = y'.
Proof.
  unfold fields, lp, lp_range. intros Hx Hy Hx' Hy' E. apply app_inv_head in E. rewrite <- !app_assoc in E.
  apply lp_inj in E as [-> E]; [|done..]. rewrite <- (app_nil_r y), <- (app_nil_r y') in E.
  rewrite !length_app, !Nat.add_0_r in E. by apply lp_inj in E as [-> _].
Qed.

Lemma length_entry_value e : length (entry_value e) = 17%nat.
Proof. unfold entry_value. by rewrite !length_app, !length_be_bytes. Qed.

Lemma value_range e : lp_range (entry_value e).
Proof. unfold lp_range. rewrite length_entry_value. apply (bool_decide_unpack _). vm_compute. exact I. Qed.

Lemma digest_range d : length d = 32%nat -> lp_range d.
Proof. unfold lp_range. intros ->. apply (bool_decide_unpack _). vm_compute. exact I. Qed.

Lemma entry_value_inj e e' : entry_ok e -> entry_ok e' -> entry_value e = entry_value e' ->
  e_number e = e_number e' /\ e_by e = e_by e' /\ e_cell e = e_cell e'.
Proof.
  intros (H1 & H2 & _) (H1' & H2' & _) E. unfold entry_value in E. apply app_inj_length in E as [Eb E]; [|done].
  apply app_inj_length in E as [En Ec]; [|by rewrite !length_be_bytes].
  apply be_bytes_inj in En, Ec; [|done..]. split; [done|]. split; [|done]. by destruct (e_by e), (e_by e').
Qed.

Lemma entry_input_inj e e' : entry_ok e -> entry_ok e' -> entry_input e = entry_input e' -> e = e'.
Proof.
  intros He He' E. unfold entry_input in E.
  apply fields_inj in E as [Ev Es]; [|apply value_range|apply He|apply value_range|apply He'].
  apply entry_value_inj in Ev as (En & Eb & Ec); [|done..]. destruct e, e'. cbn in *. by subst.
Qed.

Section WithCrypto.
Context `{C : Crypto}.

(** The commitment to a move, and the accumulator that takes it in. *)
Definition commit_of (e : entry) : bytes := blake2b256 (entry_input e).
Definition acc_input (acc : bytes) (e : entry) : bytes := fields acc (commit_of e).
Definition accumulate (acc : bytes) (es : list entry) : bytes := fold_digest acc_input acc es.

(** All that is hashed for a play. *)
Definition history_inputs (acc : bytes) (es : list entry) : list bytes :=
  map entry_input es ++ fold_inputs acc_input acc es.

Lemma accumulate_snoc acc es e : accumulate acc (es ++ [e]) = blake2b256 (acc_input (accumulate acc es) e).
Proof. exact (fold_digest_snoc acc_input acc es e). Qed.

(** The code computes exactly this. *)
Lemma fields_eq (pre : bytes -> result (list bytes)) x y :
  (forall z ps, pre z = Ok ps <-> lp_range z /\ ps = [be_bytes 8 (Z.of_nat (length z)); z]) -> forall r,
  (let! a := pre x in let! c := pre y in let! p := concatBytes (DOMAIN_COMMIT_REVEAL :: a ++ c) in Ok (blake2b256 p)) = Ok r ->
  lp_range x /\ lp_range y /\ r = blake2b256 (fields x y).
Proof.
  intros Hpre r H. inv_ok. rewrite concatBytes_concat in *. inv_ok.
  repeat match goal with H : pre _ = Ok _ |- _ => apply Hpre in H as [? ->] end.
  split; [done|]. split; [done|]. f_equal. unfold fields, lp. cbn. by rewrite <- !app_assoc, app_nil_r.
Qed.

Lemma computeCommitment_entry e cb nb slt c :
  u64ToBeBytes (e_number e) = Ok nb -> u64ToBeBytes (e_cell e) = Ok cb -> e_salt e = slt ->
  computeCommitment (u8_from [match e_by e with PartyA => 1 | PartyB => 2 end] ++ nb ++ cb) slt = Ok c ->
  entry_ok e /\ c = commit_of e.
Proof.
  intros [Hn ->]%u64ToBeBytes_ok [Hc ->]%u64ToBeBytes_ok <- H. unfold computeCommitment, hashCommitment, commitment_preimage in H.
  destruct (_ <? MIN_SALT_LEN)%nat; [done|].
  assert (H' : (let! a := lengthPrefixed (entry_value e) in let! c := lengthPrefixed (e_salt e) in
    let! p := concatBytes (DOMAIN_COMMIT_REVEAL :: a ++ c) in Ok (blake2b256 p)) = Ok c).
  { rewrite <- H. unfold entry_value. destruct (lengthPrefixed _); [|done]. cbn [rbind]. by destruct (lengthPrefixed _). }
  apply fields_eq in H' as (_ & Hs & ->); [|intros; apply lengthPrefixed_ok]. done.
Qed.

Context `{!CryptoLaws C}.

Lemma acc_shows xs ys : shows acc_input commit_of xs ys.
Proof.
  intros d d' x y Hd Hd' _ _ E. unfold acc_input, commit_of in *.
  apply fields_inj in E as [-> E]; [done|apply digest_range; first [done|apply blake2b_length]..].
Qed.

(** Equal accumulators after equally many moves: the moves are the same. *)
Lemma history_inj acc xs ys :
  length acc = 32%nat -> Forall entry_ok xs -> Forall entry_ok ys ->
  no_collision (history_inputs acc xs) (history_inputs acc ys) ->
  length xs = length ys -> accumulate acc xs = accumulate acc ys -> xs = ys.
Proof.
  intros Ha Hx Hy HD Hl H.
  assert (Hc : map commit_of xs = map commit_of ys).
  { apply (fold_inj acc_input commit_of acc); [done| |apply acc_shows|done|exact H].
    eapply no_collision_sub; [exact HD|..]; intros p Hp; apply elem_of_app; by right. }
  assert (HE : forall x y, x ∈ xs -> y ∈ ys -> commit_of x = commit_of y -> x = y).
  { intros x y Hxs Hys E. rewrite Forall_forall in Hx, Hy. apply entry_input_inj; [by apply Hx|by apply Hy|].
    apply HD; [apply elem_of_app; left; by apply list_elem_of_fmap_2..|exact E]. }
  clear -Hc HE Hl. revert ys Hc HE Hl; induction xs as [|x xs IH]; intros [|y ys] Hc HE Hl; try done.
  injection Hc as Hxy Hc. injection Hl as Hl. f_equal; [apply HE; [left|left|done]|].
  apply IH; [done| |done]. intros x' y' Hx Hy. apply HE; by right.
Qed.
End WithCrypto.

From S2P Require Import Caro.

Definition mark_of (p : Party) : Z := match p with PartyA => 1 | PartyB => 2 end.
Definition stones (b : CaroBoard) : Z := Z.of_nat (length (filter (fun v => v <> 0) b)).
(** What a decided game owes, relative to the balances at the start. *)
Definition shift_of (w st : Z) : Z := if w =? 1 then st else if w =? 2 then - st else 0.

(** The winner is the owner of the only kind of five there is; a draw is a full board. *)
Definition winner_ok (b : CaroBoard) (n w : Z) : Prop :=
  (w = 0 /\ stones b < n * n \/ w = 1 \/ w = 2 \/ w = 3 /\ stones b = n * n) /\
  forall v, v = 1 \/ v = 2 -> has_five b n v <-> w = v.

Record caro_ok (n : Z) (first : Party) (a0 b0 st : Z) (s : CaroState) : Prop := {
  c_size : size s = n;
  c_board : length (board s) = Z.to_nat (n * n);
  c_cells : Forall (fun v => v = 0 \/ v = 1 \/ v = 2) (board s);
  c_count : movesCount s = stones (board s);
  c_turn : turn s = if Z.even (movesCount s) then first else otherParty first;
  c_winner : winner_ok (board s) n (winner s);
  c_stake : stake s = st;
  c_balA : balanceA s = a0 + shift_of (winner s) st;
  c_balB : balanceB s = b0 - shift_of (winner s) st;
  c_total : total s = a0 + b0;
  c_acc : length (moveAccumulator s) = 32%nat;
  c_last : winnerAround (board s) n (lastMove s) = if winner s =? 3 then 0 else winner s
}.

Lemma stones_bound b : 0 <= stones b <= Z.of_nat (length b).
Proof. unfold stones. pose proof (length_filter (fun v => v <> 0) b). lia. Qed.

Lemma stones_place b i m : (i < length b)%nat -> nth i b 0 = 0 -> m <> 0 -> stones (<[i := m]> b) = stones b + 1.
Proof.
  intros Hi H0 Hm. destruct (lookup_lt_is_Some_2 b i Hi) as [x Hx]. rewrite nth_lookup, Hx in H0. cbn in H0. subst x.
  unfold stones. rewrite insert_take_drop by done. rewrite <- (take_drop_middle b i 0 Hx) at 3.
  rewrite !filter_app, !length_app, !filter_cons. repeat case_decide; cbn [length]; lia.
Qed.

Lemma full_stones b : isFull b = true <-> stones b = Z.of_nat (length b).
Proof.
  unfold isFull, stones. induction b as [|v b IH]; [done|]. cbn [forallb length]. rewrite andb_true_iff, IH, filter_cons.
  pose proof (length_filter (fun v => v <> 0) b). rewrite negb_true_iff, Z.eqb_neq. case_decide; cbn [length]; lia.
Qed.

(** No other value than 0, 1 and 2 makes a five. *)
Lemma five_cell b n v : Forall (fun v => v = 0 \/ v = 1 \/ v = 2) b -> v <> 0 -> has_five b n v -> v = 1 \/ v = 2.
Proof.
  intros Hc Hv (d & r & c & _ & Hon & _). specialize (Hon 0 ltac:(lia)). unfold holds, cell_at in Hon. bool_to_prop.
  case_match; [done|]. destruct (nth_in_or_default (Z.to_nat ((r + 0 * d.1) * n + (c + 0 * d.2))) b 0) as [Hin|]; [|congruence].
  rewrite Forall_forall in Hc. apply list_elem_of_In, Hc in Hin. lia.
Qed.

Section WithCrypto.
Context `{C : Crypto} `{!CryptoLaws C}.

(** An accepted move, and what it does. *)
Lemma caro_apply_inv s m by_ s' :
  applyMove s m by_ = Ok s' ->
  exists c slt, cell m = JsInt c /\ salt m = Some slt /\ 0 <= c < size s * size s /\ cell_at (board s) c = 0 /\
    winner s = 0 /\ by_ = turn s /\ (16 <= length slt)%nat /\
    let b := applyMark (board s) c (mark_of by_) in
    let w0 := winnerAround b (size s) c in
    let w := if (w0 =? 0) && (movesCount s + 1 =? size s * size s) then 3 else w0 in
    let e := {| e_number := movesCount s + 1; e_by := by_; e_cell := c; e_salt := slt |} in
    entry_ok e /\
    s' = {| board := b; size := size s; turn := otherParty by_; winner := w; lastMove := c; movesCount := movesCount s + 1;
            balanceA := fst (payout w s); balanceB := snd (payout w s); total := total s; stake := stake s;
            moveAccumulator := blake2b256 (acc_input (moveAccumulator s) e) |}.
Proof.
  unfold applyMove. intros H. destruct (negb (winner s =? 0)) eqn:Ew; [done|]. destruct (negb (party_eqb by_ (turn s))) eqn:Ep; [done|].
  destruct (cell m) as [c|] eqn:Hc; [|done]. destruct ((c <? 0) || (size s * size s <=? c)) eqn:Ec; [done|].
  destruct (negb (cell_at (board s) c =? 0)) eqn:E0; [done|]. destruct (salt m) as [slt|] eqn:Hs; [|done].
  destruct (length slt <? MIN_SALT_LEN)%nat eqn:El; [done|]. cbv zeta in H.
  apply rbind_ok in H as (mcb & E1 & H). apply rbind_ok in H as (cb & E2 & H). apply rbind_ok in H as (value & E3 & H).
  apply rbind_ok in H as (commitment & E4 & H). apply rbind_ok in H as (acc & E5 & H). injection H as <-.
  rewrite concatBytes_concat in E3. injection E3 as <-. cbn [concat] in E4. rewrite app_nil_r in E4. bool_to_prop. party_cases.
  set (e := {| e_number := movesCount s + 1; e_by := turn s; e_cell := c; e_salt := slt |}).
  destruct (computeCommitment_entry e cb mcb slt commitment E1 E2 eq_refl E4) as [He ->].
  unfold advanceAccumulator in E5. apply fields_eq in E5 as (_ & _ & ->); [|intros; apply lengthPrefixed_ok].
  exists c, slt. unfold MIN_SALT_LEN in El. split_and!; try done; try lia; by destruct (turn s).
Qed.

Context (n : Z) (Hn : 0 < n) (first : Party) (a0 b0 st : Z) (Hst : 0 <= st <= Z.min a0 b0).
Notation inv := (caro_ok n first a0 b0 st).

Lemma even_turn k : (if Z.even (k + 1) then first else otherParty first) = otherParty (if Z.even k then first else otherParty first).
Proof. rewrite Z.even_add. destruct (Z.even k); cbn; [done|]. by rewrite otherParty_involutive. Qed.

Lemma payout_shift w s : stake s = st -> balanceA s = a0 -> balanceB s = b0 ->
  payout w s = (a0 + shift_of w st, b0 - shift_of w st).
Proof.
  unfold payout, shift_of. intros -> -> ->. destruct (w =? 1) eqn:E1; cbn [orb]; [|destruct (w =? 2)];
    try (case_match; bool_to_prop); apply pair_equal_spec; split; lia.
Qed.

Lemma caro_step s m by_ s' : inv s -> applyMove s m by_ = Ok s' -> inv s'.
Proof.
  intros [H1 H2 H3 H4 H5 H6 H7 H8 H9 H10 H11 H12] E.
  apply caro_apply_inv in E as (c & slt & _ & _ & Hc & H0 & Hw & Hby & _ & _ & ->).
  rewrite H1 in *. destruct H6 as [Hcase Hfive]. rewrite Hw in Hfive, H8, H9. unfold shift_of in H8, H9. cbn in H8, H9.
  assert (Hm : mark_of by_ <> 0) by (by destruct by_).
  assert (Hno : forall v, v <> 0 -> ~ has_five (board s) n v).
  { intros v Hv Hf. pose proof (five_cell _ _ _ H3 Hv Hf) as Hv'. apply Hfive in Hf; [|done]. congruence. }
  destruct (placed_winner (board s) n c (mark_of by_) Hn H2 Hc Hm H0 Hno) as [Hw' Hf'].
  set (b' := applyMark (board s) c (mark_of by_)) in *. set (w0 := winnerAround b' n c) in *.
  set (w := if (w0 =? 0) && (movesCount s + 1 =? n * n) then 3 else w0).
  assert (Hst' : stones b' = movesCount s + 1).
  { unfold b', applyMark. rewrite stones_place; [lia|lia| |done]. unfold cell_at in H0. by rewrite (proj2 (Z.ltb_ge _ _)) in H0 by lia. }
  assert (Hle : stones b' <= n * n). { pose proof (stones_bound b'). unfold b', applyMark in *. rewrite length_insert in *. lia. }
  assert (Hm12 : mark_of by_ = 1 \/ mark_of by_ = 2) by (destruct by_; auto).
  split; cbn -[shift_of]; try done.
  - unfold b', applyMark. by rewrite length_insert.
  - apply Forall_insert; [done|]. lia.
  - rewrite Hby, H5. symmetry. apply even_turn.
  - split.
    + subst w. destruct (w0 =? 0) eqn:E0; bool_to_prop; cbn [andb]; [|lia]. destruct (movesCount s + 1 =? n * n) eqn:E1; bool_to_prop; lia.
    + intros v Hv. rewrite (Hf' v) by lia. subst w. destruct (w0 =? 0) eqn:E0; bool_to_prop; cbn [andb]; [|done]. destruct (movesCount s + 1 =? n * n); lia.
  - rewrite (payout_shift w s) by (done || lia). done.
  - rewrite (payout_shift w s) by (done || lia). done.
  - apply blake2b_length.
  - fold w0. subst w. destruct (w0 =? 0) eqn:E0; bool_to_prop; cbn [andb].
    + rewrite E0. by destruct (movesCount s + 1 =? n * n).
    + destruct (Z.eqb_spec w0 3); lia.
Qed.

Lemma caro_run s ms s' : inv s -> run (CaroProtocol n st) s ms = Ok s' ->
  inv s' /\ movesCount s' = movesCount s + Z.of_nat (length ms).
Proof.
  unfold run. revert s; induction ms as [|[m p] ms IH]; intros s Hi H.
  { injection H as <-. split; [done|simpl; lia]. }
  cbn [rfold] in H. apply rbind_ok in H as (s1 & E & H). change (applyMove s m p = Ok s1) in E.
  destruct (IH s1 (caro_step s m p s1 Hi E) H) as [Hi' Hc]. split; [done|]. rewrite Hc.
  apply caro_apply_inv in E as (c & slt & _ & _ & _ & _ & _ & _ & _ & _ & ->). cbn [movesCount length]. lia.
Qed.

(** Every empty cell may be played. *)
Lemma caro_accepts s c slt :
  inv s -> n * n <= U64_MAX -> winner s = 0 -> 0 <= c < n * n -> cell_at (board s) c = 0 ->
  16 <= Z.of_nat (length slt) <= U64_MAX ->
  exists s', applyMove s {| cell := JsInt c; salt := Some slt |} (turn s) = Ok s'.
Proof.
  intros [H1 H2 H3 H4 H5 H6 H7 H8 H9 H10 H11 H12] Hu Hw Hc H0 Hsl. unfold applyMove. rewrite Hw, party_eqb_refl, H1. cbn [negb cell salt].
  rewrite (proj2 (Z.ltb_ge _ _)), (proj2 (Z.leb_gt _ _)), H0 by lia. cbn [orb negb Z.eqb].
  unfold MIN_SALT_LEN. rewrite (proj2 (Nat.ltb_ge _ _)) by lia. cbv zeta. pose proof (stones_bound (board s)) as Hb.
  destruct H6 as [[[_ Hlt]|Hcase] _]; [|lia].
  assert (Hmc : u64_range (movesCount s + 1)) by (unfold u64_range; lia). assert (Hcr : u64_range c) by (unfold u64_range; lia).
  rewrite (proj2 (u64ToBeBytes_ok _ _) (conj Hmc eq_refl)), (proj2 (u64ToBeBytes_ok _ _) (conj Hcr eq_refl)). cbn [rbind].
  rewrite concatBytes_concat. cbn [rbind concat].
  set (v := u8_from _ ++ _). assert (Hv : lp_range v). { unfold lp_range, v. rewrite !length_app, !length_be_bytes. apply (bool_decide_unpack _). vm_compute. exact I. }
  unfold computeCommitment, hashCommitment, commitment_preimage. change (Commitment.MIN_SALT_LEN) with 16%nat. rewrite (proj2 (Nat.ltb_ge _ _)) by lia.
  rewrite (proj2 (lengthPrefixed_ok _ _) (conj Hv eq_refl)). cbn [rbind].
  assert (Hs : u64_range (Z.of_nat (length slt))) by (unfold u64_range; lia).
  rewrite (proj2 (lengthPrefixed_ok _ _) (conj Hs eq_refl)). cbn [rbind]. rewrite concatBytes_concat. cbn [rbind].
  unfold advanceAccumulator. change lp_chunks with lengthPrefixed.
  rewrite (proj2 (lengthPrefixed_ok _ _) (conj (digest_range _ H11) eq_refl)). cbn [rbind].
  rewrite (proj2 (lengthPrefixed_ok _ _) (conj (digest_range _ (blake2b_length _)) eq_refl)). cbn [rbind].
  rewrite concatBytes_concat. cbn [rbind]. by eexists.
Qed.
End WithCrypto.

Definition stake_of (ds : Z) (ctx : ProtocolContext) : Z :=
  Z.min ds (Z.min (bal_a (initialBalances ctx)) (bal_b (initialBalances ctx))).

Lemma no_five_empty k n v : v <> 0 -> ~ has_five (replicate k 0) n v.
Proof.
  intros Hv (d & r & c & _ & Hon & _). specialize (Hon 0 ltac:(lia)). unfold holds, cell_at in Hon. bool_to_prop.
  case_match; [done|]. rewrite nth_lookup in *. destruct (replicate k 0 !! _) as [x|] eqn:E; cbn in *; [|done].
  apply lookup_replicate in E as [-> _]. done.
Qed.

Lemma stones_empty k : stones (replicate k 0) = 0.
Proof. unfold stones. induction k as [|k IH]; [done|]. cbn [replicate]. rewrite filter_cons_False by lia. done. Qed.

Lemma caro_initial `{C : Crypto} `{!CryptoLaws C} n ds ctx s :
  0 < n -> 0 <= ds -> lockable (initialBalances ctx) -> initialState n ds ctx = Ok s ->
  caro_ok n PartyA (bal_a (initialBalances ctx)) (bal_b (initialBalances ctx)) (stake_of ds ctx) s /\ movesCount s = 0.
Proof.
  intros Hn Hd (HA & HB & _) H. unfold initialState, initialAccumulator in H. inv_ok. split; [|done].
  split; cbn -[shift_of]; try done.
  - by rewrite length_replicate.
  - apply Forall_replicate. by left.
  - by rewrite stones_empty.
  - split; [left; split; [done|rewrite stones_empty; nia]|]. intros v Hv. split; [|lia]. intros Hf. exfalso. revert Hf. apply no_five_empty. lia.
  - unfold stake_of. destruct (Z.ltb_spec (bal_a (initialBalances ctx)) (bal_b (initialBalances ctx))); case_match; bool_to_prop; lia.
  - unfold shift_of. cbn. lia.
  - unfold shift_of. cbn. lia.
  - apply blake2b_length.
Qed.

Lemma caro_initial_total `{C : Crypto} n ds ctx : exists s, initialState n ds ctx = Ok s.
Proof.
  unfold initialState, initialAccumulator. change lp_chunks with lengthPrefixed.
  assert (Hd : u64_range (Z.of_nat (length DOMAIN))) by (apply (bool_decide_unpack _); vm_compute; exact I).
  rewrite (proj2 (lengthPrefixed_ok DOMAIN _) (conj Hd eq_refl)). cbn [rbind]. rewrite concatBytes_concat. by eexists.
Qed.

Lemma caro_stake_range ds ctx : 0 <= ds -> lockable (initialBalances ctx) ->
  0 <= stake_of ds ctx <= Z.min (bal_a (initialBalances ctx)) (bal_b (initialBalances ctx)).
Proof. intros Hd (HA & HB & _). unfold stake_of. lia. Qed.

Lemma caro_play `{C : Crypto} `{!CryptoLaws C} n ds ctx s0 ms s :
  newCaro (JsInt n) ds = Ok (n, ds) -> lockable (initialBalances ctx) ->
  initialState n ds ctx = Ok s0 -> run (CaroProtocol n ds) s0 ms = Ok s ->
  caro_ok n PartyA (bal_a (initialBalances ctx)) (bal_b (initialBalances ctx)) (stake_of ds ctx) s /\
  movesCount s = Z.of_nat (length ms).
Proof.
  intros Hnew Hl H0 Hrun. cbn in Hnew. inv_ok. bool_to_prop.
  destruct (caro_initial n ds ctx s0 ltac:(lia) ltac:(lia) Hl H0) as [Hi0 Hc0].
  destruct (caro_run n ltac:(lia) PartyA _ _ _ (caro_stake_range ds ctx ltac:(lia) Hl) s0 ms s Hi0 Hrun) as [Hi Hc].
  split; [exact Hi|lia].
Qed.

(** C32: The look around the last stone decides the game as the whole board does.  In every
    game of caro a seat has won exactly when somewhere on the board it has a run of exactly
    five stones that is not flanked on both ends, and the game is drawn exactly when the
    board is full without one; the winner has the stake of the loser, and nobody pays
    otherwise.  The line shown for the last stone is five stones of the winner, and empty
    when there is none.  A game has as many moves as stones, at most one per cell, and while it is
    open the seat to move may play on every empty cell. *)
Theorem caro_five_wins `{C : Crypto} `{!CryptoLaws C} n ds ctx s0 ms s :
  newCaro (JsInt n) ds = Ok (n, ds) -> n * n <= U64_MAX -> lockable (initialBalances ctx) ->
  initialState n ds ctx = Ok s0 -> run (CaroProtocol n ds) s0 ms = Ok s ->
  (forall p, winner s = mark_of p <-> has_five (board s) n (mark_of p)) /\
  (winner s = 3 <-> isFull (board s) = true /\ forall p, ~ has_five (board s) n (mark_of p)) /\
  balanceA s = bal_a (initialBalances ctx) + shift_of (winner s) (stake_of ds ctx) /\
  balanceB s = bal_b (initialBalances ctx) - shift_of (winner s) (stake_of ds ctx) /\
  (let line := winningLine (board s) n (lastMove s) in
   (forall p, winner s = mark_of p -> length line = 5%nat /\ Forall (fun i => cell_at (board s) i = mark_of p) line) /\
   (winner s = 0 \/ winner s = 3 -> line = [])) /\
  stones (board s) = Z.of_nat (length ms) /\ Z.of_nat (length ms) <= n * n /\
  (winner s = 0 -> isFull (board s) = false /\
     forall c slt, 0 <= c < n * n -> cell_at (board s) c = 0 -> 16 <= Z.of_nat (length slt) <= U64_MAX ->
     exists s', applyMove s {| cell := JsInt c; salt := Some slt |} (turn s) = Ok s').
Proof.
  intros Hnew Hu Hl H0 Hrun. destruct (caro_play n ds ctx s0 ms s Hnew Hl H0 Hrun) as [Hi Hc]. clear Hnew.
  pose proof (Z.square_nonneg n) as Hsq.
  pose proof Hi as [H1 H2 H3 H4 H5 [H6 H6'] H7 H8 H9 H10 H11 H12].
  pose proof (stones_bound (board s)) as Hb. assert (Hfull := full_stones (board s)).
  assert (Hmark : forall p, mark_of p = 1 \/ mark_of p = 2) by (intros []; auto).
  split; [intros p; symmetry; by apply H6'|]. split; [|split; [done|]; split; [done|]; split; [|split; [lia|]; split; [lia|]]].
  - split.
    + intros Hw. split; [apply Hfull; lia|]. intros p Hf. apply H6' in Hf; [|done]. rewrite Hw in Hf. by destruct p.
    + intros [Hf Hno]. apply Hfull in Hf. destruct H6 as [[Hw Hlt]|[Hw|[Hw|[Hw _]]]]; [lia| | |done].
      * destruct (Hno PartyA). by apply H6'; [left|].
      * destruct (Hno PartyB). by apply H6'; [right|].
  - cbv zeta. destruct (winningLine_spec (board s) n (lastMove s)) as [[Hl0 ->]|(Hl0 & Hl5 & _ & Hlc)]; rewrite H12 in *.
    + split; [|done]. intros p Hw. rewrite Hw in Hl0. by destruct p.
    + split; [|intros [Hw|Hw]; by rewrite Hw in Hl0]. intros p Hw. rewrite Hw in Hlc. by destruct p.
  - intros Hw. split.
    + apply not_true_is_false. intros Ef. apply Hfull in Ef. destruct H6 as [[_ Hlt]|Hcase]; lia.
    + intros c slt. exact (fun Hc => caro_accepts n PartyA _ _ _ s c slt Hi Hu Hw Hc).
Qed.

(** * The history *)

(** The moves of a play as they are committed to, the first with number [k + 1]. *)
Fixpoint entries (k : Z) (ms : list (CaroMove * Party)) : list entry :=
  match ms with
  | [] => []
  | (m, p) :: ms' =>
      {| e_number := k + 1; e_by := p; e_cell := match cell m with JsInt c => c | JsNonInt => 0 end;
         e_salt := default [] (salt m) |} :: entries (k + 1) ms'
  end.

(** A move an entry can stand for. *)
Definition explicit (mp : CaroMove * Party) : Prop := exists c slt, mp.1 = {| cell := JsInt c; salt := Some slt |}.

Lemma length_entries k ms : length (entries k ms) = length ms.
Proof. revert k; induction ms as [|[m p] ms IH]; intros k; [done|]. cbn. by rewrite IH. Qed.

Lemma entries_inj k ms ms' : Forall explicit ms -> Forall explicit ms' -> entries k ms = entries k ms' -> ms = ms'.
Proof.
  intros H. revert k ms'. induction H as [|[m p] ms (c & slt & Hm) H IH]; intros k [|[m' p'] ms'] H' E; try done.
  apply Forall_cons in H' as [(c' & slt' & Hm') H']. cbn in Hm, Hm'. subst. cbn in E. injection E as -> -> -> E. f_equal. by eapply IH.
Qed.

Lemma caro_accumulates `{C : Crypto} n ds s ms s' :
  run (CaroProtocol n ds) s ms = Ok s' ->
  let es := entries (movesCount s) ms in
  Forall explicit ms /\ Forall entry_ok es /\ moveAccumulator s' = accumulate (moveAccumulator s) es /\
  lastMove s' = fold_left (fun _ e => e_cell e) es (lastMove s).
Proof.
  unfold run. revert s; induction ms as [|[m p] ms IH]; intros s H; [by injection H as <-|].
  cbn [rfold] in H. apply rbind_ok in H as (s1 & E & H). change (applyMove s m p = Ok s1) in E. apply IH in H as (Hx & Hes & Ha & Hlast).
  apply caro_apply_inv in E as (c & slt & Hc & Hs & _ & _ & _ & _ & _ & He & ->). cbn [movesCount moveAccumulator lastMove] in *.
  cbn [entries]. rewrite Hc, Hs. split; [constructor; [|done]|split; [by constructor|split; [exact Ha|exact Hlast]]].
  exists c, slt. destruct m. cbn in *. congruence.
Qed.

Lemma six_inj {A} (a b c d e f a' b' c' d' e' f' : A) : [a; b; c; d; e; f] = [a'; b'; c'; d'; e'; f'] ->
  a = a' /\ b = b' /\ c = c' /\ d = d' /\ e = e' /\ f = f'.
Proof. by intros [= -> -> -> -> -> ->]. Qed.

Lemma caro_encoding s b :
  encodeState s = Ok b ->
  let parts := [be_bytes 8 (size s); u8_from (board s); u8_from [match turn s with PartyA => 0 | PartyB => 1 end; winner s];
                be_bytes 8 (balanceA s); be_bytes 8 (balanceB s); be_bytes 8 (stake s)] in
  Forall u64_range [size s; balanceA s; balanceB s; stake s] /\ Forall lp_range parts /\
  b = DOMAIN ++ concat (map lp parts) ++ moveAccumulator s.
Proof.
  unfold encodeState. intros H. apply rbind_ok in H as (n & [Rn ->]%u64ToBeBytes_ok & H).
  apply rbind_ok in H as (a & [Ra ->]%u64ToBeBytes_ok & H). apply rbind_ok in H as (c & [Rb ->]%u64ToBeBytes_ok & H).
  apply rbind_ok in H as (st & [Rs ->]%u64ToBeBytes_ok & H). apply rbind_ok in H as (ps & [Hps ->]%lengthPrefixedConcat_ok & H).
  rewrite concatBytes_concat in H. apply Ok_inj in H as <-. split; [rewrite !Forall_cons; by split_and!|]. split; [done|].
  cbn [concat]. by rewrite app_nil_r.
Qed.

(** The encoding shows all but the number of moves, which the stones show, the cell of the
    last move and the total. *)
Lemma caro_encoding_inj n n' f f' a0 a0' b0 b0' st st' s s' b :
  caro_ok n f a0 b0 st s -> caro_ok n' f' a0' b0' st' s' ->
  encodeState s = Ok b -> encodeState s' = Ok b ->
  size s = size s' /\ board s = board s' /\ turn s = turn s' /\ winner s = winner s' /\ balanceA s = balanceA s' /\
  balanceB s = balanceB s' /\ stake s = stake s' /\ moveAccumulator s = moveAccumulator s'.
Proof.
  assert (Hb : forall n f a0 b0 st s, caro_ok n f a0 b0 st s -> bytes_ok (board s) /\
    bytes_ok [match turn s with PartyA => 0 | PartyB => 1 end; winner s] /\ length (moveAccumulator s) = 32%nat).
  { intros ?????? [_ _ Hc _ _ [Hw _] _ _ _ _ Ha _]. split; [|split; [|done]].
    - eapply Forall_impl; [exact Hc|]. unfold is_byte. lia.
    - unfold bytes_ok, is_byte. rewrite !Forall_cons. split; [case_match; lia|]. split; [lia|done]. }
  intros (Hc & Hw & Ha)%Hb (Hc' & Hw' & Ha')%Hb (R & P & ->)%caro_encoding (R' & P' & E)%caro_encoding.
  apply app_inv_head in E. apply app_inj_2 in E as [E Eacc]; [|congruence].
  apply lp_concat_inj in E; [|done..]. rewrite !u8_from_id in E by done.
  apply six_inj in E as (En & Eb & Etw & Ea & Eb' & Es). injection Etw as Et Ew. apply Forall_cons in R as [R1 R], R' as [R1' R'].
  repeat (apply Forall_cons in R as [? R]; apply Forall_cons in R' as [? R']).
  apply be_bytes_inj in En, Ea, Eb', Es; try done. split_and!; try done. by destruct (turn s), (turn s').
Qed.

(** What is hashed for a play from the start. *)
Definition hashed `{C : Crypto} (ms : list (CaroMove * Party)) : list bytes :=
  history_inputs (blake2b256 (DOMAIN_COMMIT_REVEAL ++ lp DOMAIN)) (entries 0 ms).

Lemma caro_start `{C : Crypto} n ds ctx s0 : initialState n ds ctx = Ok s0 ->
  moveAccumulator s0 = blake2b256 (DOMAIN_COMMIT_REVEAL ++ lp DOMAIN) /\ movesCount s0 = 0 /\ lastMove s0 = -1.
Proof.
  unfold initialState, initialAccumulator. intros H. apply rbind_ok in H as (acc & E & H). apply Ok_inj in H as <-.
  apply rbind_ok in E as (d & Ed & E). apply (lengthPrefixed_ok DOMAIN d) in Ed as [_ ->]. rewrite concatBytes_concat in E. apply Ok_inj in E as <-.
  cbn [moveAccumulator movesCount lastMove concat]. by rewrite app_nil_r.
Qed.

(** The signed bytes of a game of caro fix the whole play.  If two games, whatever their
    boards, stakes and deposits, reach states of equal encodings, then they are in the same
    state and every move of them was the same, with its mover, its cell and its salt,
    although the encoding carries no move, not the number of moves and not the last
    cell; or the hash collides on two inputs that were hashed in them. *)
Theorem caro_history `{C : Crypto} `{!CryptoLaws C} n ds ctx s0 ms s n' ds' ctx' s0' ms' s' b :
  newCaro (JsInt n) ds = Ok (n, ds) -> newCaro (JsInt n') ds' = Ok (n', ds') ->
  lockable (initialBalances ctx) -> lockable (initialBalances ctx') ->
  initialState n ds ctx = Ok s0 -> initialState n' ds' ctx' = Ok s0' ->
  run (CaroProtocol n ds) s0 ms = Ok s -> run (CaroProtocol n' ds') s0' ms' = Ok s' ->
  encodeState s = Ok b -> encodeState s' = Ok b ->
  (ms = ms' /\ s = s') \/ collision (hashed ms) (hashed ms').
Proof.
  intros Hnew Hnew' Hl Hl' H0 H0' Hrun Hrun' E E'.
  destruct (caro_play n ds ctx s0 ms s) as [Hi Hc]; [done..|].
  destruct (caro_play n' ds' ctx' s0' ms' s') as [Hi' Hc']; [done..|].
  destruct (caro_encoding_inj _ _ _ _ _ _ _ _ _ _ _ _ _ Hi Hi' E E') as (Es & Eb & Et & Ew & Ea & Ebb & Est & Eacc).
  pose proof (c_count _ _ _ _ _ _ Hi) as Hst. pose proof (c_count _ _ _ _ _ _ Hi') as Hst'.
  assert (Elen : length ms = length ms') by (rewrite Eb in Hst; lia).
  destruct (collision_or (hashed ms) (hashed ms')) as [|Hnc]; [by right|]. left.
  apply caro_start in H0 as (A0 & C0 & L0), H0' as (A0' & C0' & L0').
  apply caro_accumulates in Hrun as (Hx & Hes & Hacc & Hlast), Hrun' as (Hx' & Hes' & Hacc' & Hlast').
  rewrite C0, A0, L0 in *. rewrite C0', A0', L0' in *. rewrite Hacc, Hacc' in Eacc.
  assert (Hms : ms = ms').
  { apply (entries_inj 0); [done|done|].
    apply (history_inj _ _ _ (blake2b_length _) Hes Hes' Hnc); [by rewrite !length_entries|exact Eacc]. }
  split; [done|]. subst ms'. destruct Hi, Hi', s, s'. cbn in *. by f_equal; try congruence; lia.
Qed.

(** * A game on five by five *)

Definition small_ctx : ProtocolContext :=
  {| ctx_tunnelId := "0x01"; initialBalances := {| bal_a := 50; bal_b := 30 |} |}.
Definition small_move (c : Z) : CaroMove := {| cell := JsInt c; salt := Some (replicate 16 c) |}.
(** A fills the first row, B the second but for its last cell. *)
Definition row_moves : list (CaroMove * Party) :=
  concat (map (fun c => [(small_move c, PartyA); (small_move (c + 5), PartyB)]) [0; 1; 2; 3]) ++ [(small_move 4, PartyA)].

(** What is evaluated of it. *)
Definition won_check (r0 : result CaroState) (play : CaroState -> result CaroState) : bool :=
  match rbind r0 play with Ok s => (winner s =? 1) && is_ok (encodeState s) | Throw _ => false end.

Lemma won_check_spec r0 play : won_check r0 play = true ->
  exists s0 s b, r0 = Ok s0 /\ play s0 = Ok s /\ winner s = 1 /\ encodeState s = Ok b.
Proof.
  unfold won_check. destruct r0 as [s0|]; [|done]. cbn [rbind]. destruct (play s0) as [s|] eqn:E; [|done].
  intros [Hw [b Hb]%is_ok_exists]%andb_true_iff. exists s0, s, b. split_and!; [done|exact E|by apply Z.eqb_eq|exact Hb].
Qed.

Lemma row_won : won_check (@initialState toy_crypto 5 40 small_ctx) (fun s0 => run (@CaroProtocol toy_crypto 5 40) s0 row_moves) = true.
Proof. vm_compute. reflexivity. Qed.

Lemma small_lockable : lockable (initialBalances small_ctx).
Proof. apply (bool_decide_unpack _). vm_compute. exact I. Qed.

Lemma caro_five_wins_witness : exists s0 s,
  initialState 5 40 small_ctx = Ok s0 /\ run (CaroProtocol 5 40) s0 row_moves = Ok s /\
  has_five (board s) 5 1 /\ balanceA s = 80 /\ balanceB s = 0.
Proof.
  destruct (won_check_spec _ _ row_won) as (s0 & s & _ & E0 & E & Hw & _). exists s0, s. split; [exact E0|]. split; [exact E|].
  destruct (caro_five_wins 5 40 small_ctx s0 row_moves s eq_refl ltac:(by vm_compute) small_lockable E0 E) as (H1 & _ & H2 & H3 & _).
  split; [by apply (H1 PartyA)|]. rewrite H2, H3, Hw. split; vm_compute; reflexivity.
Defined.

Lemma caro_history_witness : exists s0 s b,
  initialState 5 40 small_ctx = Ok s0 /\ run (CaroProtocol 5 40) s0 row_moves = Ok s /\ encodeState s = Ok b /\
  ((row_moves = row_moves /\ s = s) \/ collision (hashed row_moves) (hashed row_moves)).
Proof.
  destruct (won_check_spec _ _ row_won) as (s0 & s & b & E0 & E & _ & Hb). exists s0, s, b. split; [exact E0|]. split; [exact E|]. split; [exact Hb|].
  exact (caro_history 5 40 small_ctx s0 row_moves s 5 40 small_ctx s0 row_moves s b eq_refl eq_refl
    small_lockable small_lockable E0 E0 E E Hb Hb).
Defined.
