(* ===== verification/Series.v ===== *)
(** A fixed number of games in one tunnel, the front-end's
    [frontend/src/games/ticTacToe/packages/shared/src/ttt/multiGameProtocol.ts] and the
    series of [caro/protocol.ts], which is the same class over another game.  The game
    itself keeps the balances; between two games any move opens the next one, with the
    balances carried over, the stake capped again and the other seat to begin. *)
From S2P Require Import Prelude.
From S2P Require Import Bytes.
From S2P Require Import Wire.
From S2P Require Import Commitment.
From S2P Require Import Protocol.

(** [src frontend/src/games/ticTacToe/packages/shared/src/ttt/multiGameProtocol.ts MultiGameTicTacToeState],
    and [MultiGameCaroState] *)
Record SeriesState (S : Type) := { inner : S; gamesPlayed : Z; maxGames : Z }.
Arguments inner {S}.
Arguments gamesPlayed {S}.
Arguments maxGames {S}.

(** [src frontend/src/games/ticTacToe/packages/shared/src/ttt/multiGameProtocol.ts seriesOpener] *)
Definition seriesOpener (gameIndex : Z) : Party := if Z.rem gameIndex 2 =? 0 then PartyA else PartyB.

(** [src frontend/src/games/ticTacToe/packages/shared/src/ttt/multiGameProtocol.ts:116-118 MultiGameTicTacToeProtocol.constructor] *)
Definition check_maxGames (maxGames : jsnum) : result Z :=
  match maxGames with
  | JsNonInt => Throw (Error "maxGames must be a positive integer")
  | JsInt n => throw_if (n <? 1) with Error "maxGames must be a positive integer" ; Ok n
  end.

(** A game that can be played in a series: its state has a stake, a
    count of the moves played, and a turn that can be set. *)
Record Staked (S M : Type) := {
  game :> Protocol S M;
  stake : S -> Z;
  placed : S -> Z;
  turn : S -> Party;
  with_turn : S -> Party -> S
}.
Arguments game {S M}.
Arguments stake {S M}.
Arguments placed {S M}.
Arguments turn {S M}.
Arguments with_turn {S M}.

Section Series.
Context {S M : Type} (G : Staked S M) (name : string) (over : string) (limit : Z).

(** [src frontend/src/games/ticTacToe/packages/shared/src/ttt/multiGameProtocol.ts MultiGameTicTacToeProtocol.initialState] *)
Definition initialState (ctx : ProtocolContext) : result (SeriesState S) :=
  let! i := Protocol.initialState G ctx in
  Ok {| inner := with_turn G i (seriesOpener 0); gamesPlayed := 0; maxGames := limit |}.

(** [src frontend/src/games/ticTacToe/packages/shared/src/ttt/multiGameProtocol.ts MultiGameTicTacToeProtocol.canFundNextGame] *)
Definition canFundNextGame (i : S) : bool :=
  if stake G i =? 0 then true
  else (stake G i <=? bal_a (Protocol.balances G i)) && (stake G i <=? bal_b (Protocol.balances G i)).

(** [src frontend/src/games/ticTacToe/packages/shared/src/ttt/multiGameProtocol.ts MultiGameTicTacToeProtocol.isTerminal] *)
Definition isTerminal (s : SeriesState S) : bool :=
  if negb (Protocol.isTerminal G (inner s)) then false
  else if maxGames s <=? gamesPlayed s + 1 then true
  else negb (canFundNextGame (inner s)).

(** [src frontend/src/games/ticTacToe/packages/shared/src/ttt/multiGameProtocol.ts MultiGameTicTacToeProtocol.applyMove] *)
Definition applyMove (s : SeriesState S) (move : M) (by_ : Party) : result (SeriesState S) :=
  if negb (Protocol.isTerminal G (inner s)) then
    let! i := Protocol.applyMove G (inner s) move by_ in
    Ok {| inner := i; gamesPlayed := gamesPlayed s; maxGames := maxGames s |}
  else
    throw_if isTerminal s with Error over ;
    let nextGame := gamesPlayed s + 1 in
    let! carried := Protocol.initialState G {| ctx_tunnelId := ""; initialBalances := Protocol.balances G (inner s) |} in
    Ok {| inner := with_turn G carried (seriesOpener nextGame); gamesPlayed := nextGame; maxGames := maxGames s |}.

(** [src frontend/src/games/ticTacToe/packages/shared/src/ttt/multiGameProtocol.ts MultiGameTicTacToeProtocol.encodeState] *)
Definition encodeState (s : SeriesState S) : result bytes :=
  let! i := Protocol.encodeState G (inner s) in
  let! n := u64ToBeBytes (gamesPlayed s) in
  let! body := lengthPrefixedConcat [i; n] in
  concatBytes [protocolDomain name; body].

(** [src frontend/src/games/ticTacToe/packages/shared/src/ttt/multiGameProtocol.ts MultiGameTicTacToeProtocol.balances] *)
Definition balances (s : SeriesState S) : Balances := Protocol.balances G (inner s).

(** [src frontend/src/games/ticTacToe/packages/shared/src/ttt/multiGameProtocol.ts MultiGameTicTacToeProtocol.randomMove]:
    [advance] is the move that nominates cell 0, [bot] the choice within a game *)
Definition randomMove (advance : M) (bot : S -> Party -> option M) (s : SeriesState S) (by_ : Party) : option M :=
  if isTerminal s then None
  else if Protocol.isTerminal G (inner s) then match by_ with PartyA => Some advance | PartyB => None end
  else bot (inner s) by_.

(** [src frontend/src/games/ticTacToe/packages/shared/src/ttt/multiGameProtocol.ts:98-110 MultiGameTicTacToeProtocol] *)
Definition SeriesProtocol : Protocol (SeriesState S) M :=
  {| movesCarrySecrets := false;
     Protocol.initialState := initialState;
     Protocol.applyMove := applyMove;
     Protocol.encodeState := encodeState;
     Protocol.balances := balances;
     Protocol.isTerminal := isTerminal |}.
End Series.

(** * The encoding *)

Section Encoding.
Context {S M : Type} (G : Staked S M) (name : string).

Lemma series_encoding s b :
  encodeState G name s = Ok b <->
  exists i, Protocol.encodeState G (inner s) = Ok i /\ lp_range i /\ u64_range (gamesPlayed s) /\
    b = protocolDomain name ++ lp i ++ lp (be_bytes 8 (gamesPlayed s)).
Proof.
  unfold encodeState. split.
  - intros H. apply rbind_ok in H as (i & Ei & H). apply rbind_ok in H as (n & [Rn ->]%u64ToBeBytes_ok & H).
    apply rbind_ok in H as (body & [F ->]%lengthPrefixedConcat_ok & H). rewrite concatBytes_concat in H. apply Ok_inj in H as <-.
    apply Forall_cons in F as [Fi _]. exists i. split_and!; try done. cbn [map concat]. by rewrite !app_nil_r.
  - intros (i & -> & Hi & Hg & ->). cbn [rbind]. rewrite (proj2 (u64ToBeBytes_ok _ _) (conj Hg eq_refl)). cbn [rbind].
    rewrite lengthPrefixedConcat_total.
    + cbn [rbind]. rewrite concatBytes_concat. cbn [map concat]. by rewrite !app_nil_r.
    + rewrite !Forall_cons. split; [done|]. split; [|done]. unfold lp_range. by rewrite length_be_bytes.
Qed.

(** The encoding of a series fixes that of its game and the number of games played. *)
Lemma series_encoding_inj s s' b i i' :
  encodeState G name s = Ok b -> encodeState G name s' = Ok b ->
  Protocol.encodeState G (inner s) = Ok i -> Protocol.encodeState G (inner s') = Ok i' -> i = i' /\ gamesPlayed s = gamesPlayed s'.
Proof.
  intros (j & Ej & Rj & Rg & ->)%series_encoding (j' & Ej' & Rj' & Rg' & E)%series_encoding Ei Ei'.
  rewrite Ei in Ej. rewrite Ei' in Ej'. apply Ok_inj in Ej as <-. apply Ok_inj in Ej' as <-. apply app_inv_head in E. unfold lp in E.
  rewrite <- !app_assoc in E. apply lp_inj in E as [-> E]; [|done..]. split; [done|]. rewrite !length_be_bytes in E. apply app_inv_head in E.
  by apply be_bytes_inj in E.
Qed.
End Encoding.

(** * What a series needs of its game *)

(** [ok first a b st k s]: the game opened by [first] with balances [a] and [b] and the stake
    [st] is in state [s] after [k] moves. *)
Class StakedLaws {S M} (G : Staked S M) (default cells : Z) (ok : Party -> Z -> Z -> Z -> Z -> S -> Prop) : Prop := {
  sg_opens : forall ctx, exists s, Protocol.initialState G ctx = Ok s;
  sg_open : forall ctx first s, lockable (initialBalances ctx) -> Protocol.initialState G ctx = Ok s ->
    let a := bal_a (initialBalances ctx) in
    let b := bal_b (initialBalances ctx) in
    ok first a b (Z.min default (Z.min a b)) 0 (with_turn G s first);
  sg_step : forall first a b st k s m p s', 0 <= st <= Z.min a b -> ok first a b st k s ->
    Protocol.applyMove G s m p = Ok s' -> ok first a b st (k + 1) s';
  sg_moves : forall first a b st k s, ok first a b st k s -> placed G s = k /\ 0 <= k <= cells;
  sg_stake : forall first a b st k s, ok first a b st k s -> stake G s = st;
  sg_turn : forall first a b st k s, ok first a b st k s -> turn G s = if Z.even k then first else otherParty first;
  sg_pays : forall first a b st k s, ok first a b st k s ->
    exists x, bal_a (Protocol.balances G s) = a + x /\ bal_b (Protocol.balances G s) = b - x /\
      (x = 0 \/ Protocol.isTerminal G s = true /\ (x = st \/ x = - st));
  sg_live : forall first a b st k s, ok first a b st k s -> Protocol.isTerminal G s = false ->
    exists m s', Protocol.applyMove G s m (turn G s) = Ok s';
  sg_alone : forall s m p s', Protocol.applyMove G s m p = Ok s' -> p = turn G s
}.

Section Bounds.
Context {S M : Type} (G : Staked S M) (default cells : Z) (ok : Party -> Z -> Z -> Z -> Z -> S -> Prop).
Context `{!StakedLaws G default cells ok} (name over : string) (limit : Z).
Context (Hd : 0 <= default) (Hlim : 1 <= limit).
Context (a0 b0 : Z).

(** After [n] moves of the series: the balances [a] and [b] the current game began with. *)
Record series_at (n : Z) (s : SeriesState S) (a b k : Z) : Prop := {
  sr_max : maxGames s = limit;
  sr_games : 0 <= gamesPlayed s < limit;
  sr_game : ok (seriesOpener (gamesPlayed s)) a b (Z.min default (Z.min a b)) k (inner s);
  sr_a : 0 <= a;
  sr_b : 0 <= b;
  sr_sum : a + b = a0 + b0;
  sr_drift : - (default * gamesPlayed s) <= a - a0 <= default * gamesPlayed s;
  sr_moves : n <= gamesPlayed s * (cells + 1) + k
}.

Definition series_ok (n : Z) (s : SeriesState S) : Prop := exists a b k, series_at n s a b k.

Lemma series_stake n s a b k : series_at n s a b k -> 0 <= Z.min default (Z.min a b) <= Z.min a b.
Proof. intros [_ _ _ Ha Hb _ _ _]. lia. Qed.

(** The balances of the series, against those the game began with. *)
Lemma series_balances n s a b k : series_at n s a b k ->
  exists x, bal_a (balances G s) = a + x /\ bal_b (balances G s) = b - x /\
    - default <= x <= default /\ - a <= x <= b /\ (x = 0 \/ Protocol.isTerminal G (inner s) = true).
Proof.
  intros H. pose proof (series_stake _ _ _ _ _ H) as Hst. destruct H as [_ _ Hok Ha Hb _ _ _].
  destruct (sg_pays _ _ _ _ _ _ Hok) as (x & Ex & Ey & Hx). exists x. unfold balances.
  split; [done|]. split; [done|]. destruct Hx as [->|[Ht [->| ->]]]; split_and!; (lia || auto).
Qed.

(** A move goes on with the game, or opens the next one with the balances as they are. *)
Lemma series_step_at n s a b k m p s' :
  lockable {| bal_a := a0; bal_b := b0 |} -> series_at n s a b k -> applyMove G over s m p = Ok s' ->
  (Protocol.isTerminal G (inner s) = false /\ Protocol.applyMove G (inner s) m p = Ok (inner s') /\
   gamesPlayed s' = gamesPlayed s /\ series_at (n + 1) s' a b (k + 1)) \/
  (Protocol.isTerminal G (inner s) = true /\ gamesPlayed s' = gamesPlayed s + 1 /\
   series_at (n + 1) s' (bal_a (balances G s)) (bal_b (balances G s)) 0 /\
   exists ctx i, Protocol.initialState G ctx = Ok i /\ inner s' = with_turn G i (seriesOpener (gamesPlayed s'))).
Proof.
  intros Hlock H E. pose proof (series_stake _ _ _ _ _ H) as Hst.
  destruct (series_balances _ _ _ _ _ H) as (x & Ea & Eb & Hx1 & Hx2 & Hx3). pose proof H as [H1 H2 H3 Ha Hb Hs Hdr Hm].
  destruct (sg_moves _ _ _ _ _ _ H3) as [_ Hk]. unfold applyMove in E. destruct (Protocol.isTerminal G (inner s)) eqn:Et; cbn [negb] in E.
  - right. destruct (isTerminal G s) eqn:Es; [done|]. apply rbind_ok in E as (i & Ei & E). apply Ok_inj in E as <-.
    unfold isTerminal in Es. rewrite Et in Es. cbn [negb] in Es. destruct (Z.leb_spec (maxGames s) (gamesPlayed s + 1)); [done|].
    split; [done|]. split; [done|]. split; [|by eexists _, i].
    assert (Hl : lockable (Protocol.balances G (inner s))).
    { unfold lockable, sum_of, balances in *. cbn [bal_a bal_b] in Hlock. rewrite Ea, Eb. lia. }
    pose proof (sg_open (G := G) {| ctx_tunnelId := ""; initialBalances := Protocol.balances G (inner s) |} (seriesOpener (gamesPlayed s + 1)) _ Hl Ei) as Hopen.
    split; cbn [maxGames gamesPlayed inner]; try lia. exact Hopen.
  - left. apply rbind_ok in E as (i & Ei & E). apply Ok_inj in E as <-. split_and!; try done.
    split; cbn [maxGames gamesPlayed inner]; try lia; try done. by eapply sg_step.
Qed.

Lemma series_step n s m p s' : lockable {| bal_a := a0; bal_b := b0 |} -> series_ok n s -> applyMove G over s m p = Ok s' -> series_ok (n + 1) s'.
Proof.
  intros Hlock (a & b & k & H) E. destruct (series_step_at n s a b k m p s' Hlock H E) as [(_ & _ & _ & H')|(_ & _ & H' & _)];
    unfold series_ok; eauto.
Qed.

Lemma series_initial ctx s : lockable (initialBalances ctx) -> a0 = bal_a (initialBalances ctx) -> b0 = bal_b (initialBalances ctx) ->
  initialState G limit ctx = Ok s -> series_at 0 s a0 b0 0.
Proof.
  intros Hl Ea Eb E. unfold initialState in E. apply rbind_ok in E as (i & Ei & E). apply Ok_inj in E as <-.
  destruct (Hl) as (HA & HB & _). pose proof (sg_open (G := G) _ (seriesOpener 0) _ Hl Ei) as Hopen. cbv zeta in Hopen.
  rewrite <- Ea, <- Eb in *. split; cbn [maxGames gamesPlayed inner]; try lia. done.
Qed.

Lemma series_run n s ms s' : lockable {| bal_a := a0; bal_b := b0 |} -> series_ok n s ->
  run (SeriesProtocol G name over limit) s ms = Ok s' -> series_ok (n + Z.of_nat (length ms)) s'.
Proof.
  intros Hl. unfold run. revert n s; induction ms as [|[m p] ms IH]; intros n s Hs H.
  { injection H as <-. by rewrite Z.add_0_r. }
  cbn [rfold] in H. apply rbind_ok in H as (s1 & E & H). change (applyMove G over s m p = Ok s1) in E.
  cbn [length]. replace (n + Z.of_nat (Datatypes.S (length ms))) with (n + 1 + Z.of_nat (length ms)) by lia.
  apply (IH _ s1); [|exact H]. by eapply series_step.
Qed.

(** While the series goes on somebody can move: the seat whose turn it is within a game,
    and either seat, with any move, between two games. *)
Lemma series_live n s : series_ok n s -> isTerminal G s = false ->
  if Protocol.isTerminal G (inner s) then forall m p, is_ok (applyMove G over s m p) = true
  else (exists m s', applyMove G over s m (turn G (inner s)) = Ok s') /\
       forall m p s', applyMove G over s m p = Ok s' -> p = turn G (inner s).
Proof.
  intros (a & b & k & H) Ht. unfold applyMove. destruct (Protocol.isTerminal G (inner s)) eqn:Et; cbn [negb].
  - intros m p. rewrite Ht. destruct (sg_opens (G := G) {| ctx_tunnelId := ""; initialBalances := Protocol.balances G (inner s) |}) as [i ->]. done.
  - split.
    + destruct (sg_live _ _ _ _ _ _ (sr_game _ _ _ _ _ H) Et) as (m & i & Ei). exists m. rewrite Ei. cbn [rbind]. by eexists.
    + intros m p s' E. apply rbind_ok in E as (i & Ei & _). by eapply sg_alone.
Qed.
End Bounds.

(** A series stays within its bounds, whatever game it is played with.  It has fewer
    games behind it than its limit and at most one move per cell of each game and one
    between two games; the balances are never negative, keep their sum, and have moved by
    at most the stake per game; a running game can be paid by both seats.  The seats open
    the games in turn and move in turn, and until the series is over somebody can move,
    so that it is over when its moves are used up. *)
Theorem series_bounds {S M} (G : Staked S M) default cells ok `{!StakedLaws G default cells ok} name over limit ctx s0 ms s :
  0 <= default -> 1 <= limit -> lockable (initialBalances ctx) ->
  initialState G limit ctx = Ok s0 -> run (SeriesProtocol G name over limit) s0 ms = Ok s ->
  let bal := balances G s in
  0 <= gamesPlayed s < limit /\ Z.of_nat (length ms) < limit * (cells + 1) /\
  0 <= bal_a bal /\ 0 <= bal_b bal /\ sum_of bal = sum_of (initialBalances ctx) /\
  Z.abs (bal_a bal - bal_a (initialBalances ctx)) <= default * (gamesPlayed s + 1) /\
  (Protocol.isTerminal G (inner s) = false -> stake G (inner s) <= bal_a bal /\ stake G (inner s) <= bal_b bal) /\
  turn G (inner s) = (if Z.even (gamesPlayed s + placed G (inner s)) then PartyA else PartyB) /\
  (isTerminal G s = false ->
   if Protocol.isTerminal G (inner s) then forall m p, is_ok (applyMove G over s m p) = true
   else (exists m s', applyMove G over s m (turn G (inner s)) = Ok s') /\
        forall m p s', applyMove G over s m p = Ok s' -> p = turn G (inner s)).
Proof.
  intros Hd Hlim Hl H0 Hrun. cbv zeta. set (a0 := bal_a (initialBalances ctx)). set (b0 := bal_b (initialBalances ctx)).
  assert (Hl0 : lockable {| bal_a := a0; bal_b := b0 |}) by (by destruct ctx as [? []]).
  assert (Hs0 : series_ok default cells ok limit a0 b0 0 s0) by (exists a0, b0, 0; by eapply series_initial).
  pose proof (series_run G default cells ok name over limit Hd a0 b0 0 s0 ms s Hl0 Hs0 Hrun) as Hs.
  pose proof (series_live G default cells ok over limit a0 b0 _ _ Hs) as Hlive. destruct Hs as (a & b & k & H).
  destruct (series_balances G default cells ok limit Hd a0 b0 _ _ _ _ _ H) as (x & Ea & Eb & Hx1 & Hx2 & Hx3).
  destruct H as [_ H2 H3 Ha Hb Hsum Hdr Hm]. destruct (sg_moves _ _ _ _ _ _ H3) as [Hk Hk2].
  rewrite Ea, Eb. unfold sum_of. fold a0 b0. split_and!; try nia; try done.
  - intros Ht. destruct Hx3 as [->|]; [|congruence]. rewrite (sg_stake _ _ _ _ _ _ H3). lia.
  - rewrite (sg_turn _ _ _ _ _ _ H3), Hk, Z.even_add. unfold seriesOpener. rewrite Z.rem_mod_nonneg, Zmod_even by lia.
    by destruct (Z.even (gamesPlayed s)), (Z.even k).
Qed.
