(* ===== verification/GameSeries.v ===== *)
(** The two series of the tic-tac-toe window: their games as instances of the interface of a
    series, the move codecs, and the random players. *)
From S2P Require Import Prelude.
From S2P Require Import Bytes.
From S2P Require Import Wire.
From S2P Require Import Crypto.
From S2P Require Import Commitment.
From S2P Require Import Protocol.
From S2P Require Import Rng.
From S2P Require Import Float.
From S2P Require Import Json.
From S2P Require Import DistributedFrame.
From S2P Require Import TicTacToe.
From S2P Require Import Caro.
From S2P Require Import CaroGame.
From S2P Require Import Series.

(** * Salts of the random players *)

(** The bits of a number in the interchange format of binary64, as [setFloat64] stores it. *)
Definition f64_bits (x : number) : Z :=
  let sign (s : bool) := if s then 2 ^ 63 else 0 in
  match x with
  | S754_zero s => sign s
  | S754_infinity s => sign s + 2047 * 2 ^ 52
  | S754_nan => 2047 * 2 ^ 52 + 2 ^ 51
  | S754_finite s m e => sign s + (if Zpos m <? 2 ^ 52 then Zpos m else (e + 1075) * 2 ^ 52 + (Zpos m - 2 ^ 52))
  end.

(** 1/2, 1/3 and 0 as JavaScript stores them. *)
Example f64_bits_ex : map f64_bits [f_lit 1 2; f_lit 1 3; f_lit 0 1] = [0x3fe0000000000000; 0x3fd5555555555555; 0].
Proof. vm_compute. reflexivity. Qed.

(** [src protocol/ticTacToe.ts:258-261 TicTacToeProtocol.randomMove] the salt of
    two draws *)
Definition drawn_salt (k1 k2 : Z) : bytes := be_bytes 8 (f64_bits (f_draw k1)) ++ be_bytes 8 (f64_bits (f_draw k2)).

Lemma drawn_salt_length k1 k2 : length (drawn_salt k1 k2) = 16%nat.
Proof. unfold drawn_salt. by rewrite length_app, !length_be_bytes. Qed.

Lemma drawn_salt_range k1 k2 : u64_range (Z.of_nat (length (drawn_salt k1 k2))).
Proof. rewrite drawn_salt_length. apply (bool_decide_unpack _). vm_compute. exact I. Qed.

(** * The move codecs *)

(** [src frontend/src/games/ticTacToe/packages/shared/src/ttt/multiGameProtocol.ts:70-73 tttMoveCodec.decode],
    and of [caroMoveCodec]: whatever is not a string has no [startsWith]. *)
Definition salted_decode (v : option json) : result (option json * bytes) :=
  match v with
  | None => Throw (TypeError "Cannot read properties of undefined")
  | Some o =>
      let! c := jget o "cell" in
      let! s := jget o "salt" in
      match s with
      | Some (JStr h) => Ok (c, hexToBytes h)
      | _ => Throw (TypeError "hex.startsWith is not a function")
      end
  end.

Lemma salted_decode_ok c slt : bytes_ok slt ->
  salted_decode (Some (JObj [("cell", JNum c); ("salt", JStr (bytesToHex slt))])) = Ok (Some (JNum c), slt).
Proof. intros H. cbn -[hexToBytes bytesToHex]. by rewrite hexToBytes_bytesToHex. Qed.

(** * Tic-tac-toe *)

Module Ttt.

(** [src protocol/ticTacToe.ts:247-252 TicTacToeProtocol.randomMove] *)
Definition empties (b : list Z) : list Z := List.filter (fun i => b !!! Z.to_nat i =? EMPTY) (seqZ 0 9).

(** [src protocol/ticTacToe.ts TicTacToeProtocol.randomMove] *)
Definition randomMove (s : TicTacToeState) (by_ : Party) (rng : nat -> Z) : option TicTacToeMove :=
  if negb (TicTacToe.winner s =? 0) || negb (party_eqb by_ (TicTacToe.turn s)) then None
  else
    let free := empties (TicTacToe.board s) in
    let n := Z.of_nat (length free) in
    if n =? 0 then None
    else
      let idx := draw_index (rng 0%nat) n in
      Some {| TicTacToe.cell := JsInt (nth (Z.to_nat (if idx <? n then idx else n - 1)) free 0);
              TicTacToe.salt := Some (drawn_salt (rng 1%nat) (rng 2%nat)) |}.

(** [src frontend/src/games/ticTacToe/packages/shared/src/ttt/multiGameProtocol.ts:69-69 tttMoveCodec.encode]:
    a move that is sent has its salt *)
Definition ttt_encode (m : TicTacToeMove) : json :=
  JObj [("cell", JNum (TicTacToe.cell m)); ("salt", JStr (bytesToHex (default [] (TicTacToe.salt m))))].

Definition ttt_typed (r : option json * bytes) : option TicTacToeMove :=
  match fst r with Some (JNum c) => Some {| TicTacToe.cell := c; TicTacToe.salt := Some (snd r) |} | _ => None end.

(** [src frontend/src/games/ticTacToe/packages/shared/src/ttt/multiGameProtocol.ts tttMoveCodec] *)
Definition tttMoveCodec : MoveCodec TicTacToeMove (option json * bytes) :=
  {| encode := ttt_encode; decode := salted_decode; typed := ttt_typed |}.

#[export] Instance tttCodecLaws : CodecLaws tttMoveCodec (fun m => exists slt, TicTacToe.salt m = Some slt /\ bytes_ok slt) (fun m => m).
Proof.
  split; [|done]. intros [c sl] (slt & E & Hs). cbn in E. subst sl. eexists. split; [by apply salted_decode_ok|done].
Qed.

Section WithCrypto.
Context `{C : Crypto} (defaultStake limit : Z).

Definition staked : Staked TicTacToeState TicTacToeMove :=
  {| game := TicTacToeProtocol defaultStake; Series.stake := TicTacToe.stake; placed := TicTacToe.movesCount;
     Series.turn := TicTacToe.turn; Series.with_turn := TicTacToe.with_turn |}.

(** [src frontend/src/games/ticTacToe/packages/shared/src/ttt/multiGameProtocol.ts:98-110 MultiGameTicTacToeProtocol] *)
Definition MultiGameTicTacToeProtocol : Protocol (SeriesState TicTacToeState) TicTacToeMove :=
  SeriesProtocol staked "tic_tac_toe.series.v2" "session over: no more games can be played" limit.

(** [src frontend/src/games/ticTacToe/packages/shared/src/ttt/multiGameProtocol.ts:187-205 MultiGameTicTacToeProtocol.randomMove]:
    the salt of the advance is drawn first in any case *)
Definition seriesMove (s : SeriesState TicTacToeState) (by_ : Party) (rng : nat -> Z) : option TicTacToeMove :=
  Series.randomMove staked {| TicTacToe.cell := JsInt 0; TicTacToe.salt := Some (drawn_salt (rng 0%nat) (rng 1%nat)) |}
    (fun i p => randomMove i p (fun n => rng (2 + n)%nat)) s by_.

Definition ok (first : Party) (a b st k : Z) (s : TicTacToeState) : Prop := TicTacToe.wf first a b st s /\ TicTacToe.movesCount s = k.

Lemma empties_elem b c : c ∈ empties b <-> 0 <= c <= 8 /\ b !!! Z.to_nat c = 0.
Proof. unfold empties. rewrite list_elem_of_In, filter_In, <- list_elem_of_In, elem_of_seqZ, Z.eqb_eq. unfold EMPTY. lia. Qed.

Context `{!CryptoLaws C}.

(** The random player moves when it is its turn, and its move is accepted. *)
Lemma random_move_accepted first a b st k s rng : ok first a b st k s -> TicTacToe.winner s = 0 -> (forall n, 0 <= rng n < W32) ->
  exists m, randomMove s (TicTacToe.turn s) rng = Some m /\ is_ok (TicTacToe.applyMove s m (TicTacToe.turn s)) = true.
Proof.
  intros [Hwf Hk] Hw Hrng. unfold randomMove. rewrite Hw, party_eqb_refl. cbn [negb orb Z.eqb].
  set (free := empties (TicTacToe.board s)).
  assert (Hf : free <> []).
  { pose proof (wf_winner _ _ _ _ _ Hwf) as Hcw. rewrite Hw in Hcw. destruct (checkWinner_0_none _ _ (eq_sym Hcw)) as [_ Hm].
    pose proof (wf_count _ _ _ _ _ Hwf) as Hc.
    pose proof (wf_full _ _ _ _ _ Hwf) as Hfull.
    destruct (empty_cell (TicTacToe.board s) (wf_board _ _ _ _ _ Hwf) ltac:(lia)) as (c & Hc1 & Hc2).
    intros E. apply (not_elem_of_nil c). rewrite <- E. by apply empties_elem. }
  set (n := Z.of_nat (length free)). assert (Hn : 0 < n) by (destruct (nil_or_length_pos free); [done|lia]).
  destruct (Z.eqb_spec n 0); [lia|]. pose proof (draw_index_range (rng 0%nat) n Hn (Hrng _)) as Hidx.
  rewrite (proj2 (Z.ltb_lt _ _)) by lia. eexists. split; [done|].
  assert (Hin : nth (Z.to_nat (draw_index (rng 0%nat) n)) free 0 ∈ free) by (apply list_elem_of_In, nth_In; lia).
  apply empties_elem in Hin as [Hc1 Hc2]. eapply ttt_accepts; try done; by rewrite drawn_salt_length.
Qed.

Lemma ttt_staked : 0 <= defaultStake -> StakedLaws staked defaultStake 9 ok.
Proof.
  intros Hd. split.
  - intros ctx. apply ttt_initial_total.
  - intros ctx first s Hl E. split; [exact (ttt_wf_initial first defaultStake ctx s Hd Hl E)|]. cbn in E. unfold TicTacToe.initialState in E.
    by apply rbind_ok in E as (acc & _ & [= <-]).
  - intros first a b st k s m p s' _ [Hwf Hk] E. split; [exact (ttt_wf_step _ _ _ _ _ _ _ _ Hwf E)|].
    apply ttt_apply_inv in E as (? & ? & ? & _ & _ & _ & _ & _ & _ & _ & ->). cbn. lia.
  - intros first a b st k s [Hwf Hk]. split; [done|]. pose proof (wf_full _ _ _ _ _ Hwf). lia.
  - intros first a b st k s [Hwf _]. apply (wf_stake _ _ _ _ _ Hwf).
  - intros first a b st k s [Hwf <-]. apply (wf_turn _ _ _ _ _ Hwf).
  - intros first a b st k s [Hwf _]. exists (TicTacToe.shift_of (TicTacToe.winner s) st).
    split; [apply (wf_balA _ _ _ _ _ Hwf)|]. split; [apply (wf_balB _ _ _ _ _ Hwf)|]. cbn. unfold TicTacToe.isTerminal, TicTacToe.shift_of.
    destruct (Z.eqb_spec (TicTacToe.winner s) 1) as [->|]; [auto|]. destruct (Z.eqb_spec (TicTacToe.winner s) 2) as [->|]; auto.
  - intros first a b st k s Hok Ht. cbn in Ht. unfold TicTacToe.isTerminal in Ht. bool_to_prop.
    destruct (random_move_accepted _ _ _ _ _ _ (fun _ => 0) Hok Ht ltac:(done)) as (m & _ & [s' E]%is_ok_exists). by exists m, s'.
  - intros s m p s' E. by apply ttt_apply_inv in E as (? & ? & ? & _ & _ & _ & _ & _ & -> & _).
Qed.
End WithCrypto.
End Ttt.

(** * Caro *)

Module Car.

(** [src frontend/src/games/ticTacToe/packages/shared/src/caro/protocol.ts:52-52 caroMoveCodec.encode] *)
Definition caro_encode (m : CaroMove) : json :=
  JObj [("cell", JNum (cell m)); ("salt", JStr (bytesToHex (default [] (salt m))))].

Definition caro_typed (r : option json * bytes) : option CaroMove :=
  match fst r with Some (JNum c) => Some {| cell := c; salt := Some (snd r) |} | _ => None end.

(** [src frontend/src/games/ticTacToe/packages/shared/src/caro/protocol.ts caroMoveCodec] *)
Definition caroMoveCodec : MoveCodec CaroMove (option json * bytes) :=
  {| encode := caro_encode; decode := salted_decode; typed := caro_typed |}.

#[export] Instance caroCodecLaws : CodecLaws caroMoveCodec (fun m => exists slt, salt m = Some slt /\ bytes_ok slt) (fun m => m).
Proof.
  split; [|done]. intros [c sl] (slt & E & Hs). cbn in E. subst sl. eexists. split; [by apply salted_decode_ok|done].
Qed.

(** [{ ...s, turn: p }] *)
Definition with_turn (s : CaroState) (p : Party) : CaroState :=
  {| board := board s; size := size s; Caro.turn := p; winner := winner s; lastMove := lastMove s; movesCount := movesCount s;
     balanceA := balanceA s; balanceB := balanceB s; total := total s; Caro.stake := Caro.stake s; moveAccumulator := moveAccumulator s |}.

(** [board.findIndex((c) => c === 0)]; -1 when there is none *)
Fixpoint findEmpty (i : Z) (b : CaroBoard) : Z :=
  match b with
  | [] => -1
  | v :: b' => if v =? 0 then i else findEmpty (i + 1) b'
  end.

Lemma findEmpty_spec i b :
  (findEmpty i b = -1 /\ isFull b = true) \/
  (i <= findEmpty i b < i + Z.of_nat (length b) /\ nth (Z.to_nat (findEmpty i b - i)) b 0 = 0).
Proof.
  revert i; induction b as [|v b IH]; intros i; [by left|]. cbn [findEmpty length isFull forallb].
  destruct (Z.eqb_spec v 0) as [->|Hv].
  - right. split; [lia|]. by rewrite Z.sub_diag.
  - destruct (IH (i + 1)) as [[-> Hf]|[Hr Hn]]; [left; split; [done|exact Hf]|]. right. split; [lia|].
    replace (Z.to_nat (findEmpty (i + 1) b - i)) with (S (Z.to_nat (findEmpty (i + 1) b - (i + 1)))) by lia. exact Hn.
Qed.

Section WithCrypto.
Context `{C : Crypto} (boardSize defaultStake limit : Z).

Definition staked : Staked CaroState CaroMove :=
  {| game := CaroProtocol boardSize defaultStake; Series.stake := Caro.stake; placed := movesCount;
     Series.turn := Caro.turn; Series.with_turn := with_turn |}.

(** [src frontend/src/games/ticTacToe/packages/shared/src/caro/protocol.ts:249-340 MultiGameCaroProtocol] *)
Definition MultiGameCaroProtocol : Protocol (SeriesState CaroState) CaroMove :=
  SeriesProtocol staked "caro.series.v2" "caro session over: no more games can be played" limit.

(** [src frontend/src/games/ticTacToe/packages/shared/src/caro/protocol.ts MultiGameCaroProtocol.randomMove]:
    the first empty cell, whoever's turn it is *)
Definition seriesMove (s : SeriesState CaroState) (by_ : Party) (rng : nat -> Z) : option CaroMove :=
  let slt := drawn_salt (rng 0%nat) (rng 1%nat) in
  Series.randomMove staked {| cell := JsInt 0; salt := Some slt |}
    (fun i _ => let c := findEmpty 0 (board i) in if 0 <=? c then Some {| cell := JsInt c; salt := Some slt |} else None) s by_.

Definition ok (first : Party) (a b st k : Z) (s : CaroState) : Prop := caro_ok boardSize first a b st s /\ movesCount s = k.

Context `{!CryptoLaws C} (Hn : 3 <= boardSize) (Hu : boardSize * boardSize <= U64_MAX).

Lemma first_empty first a b st s : caro_ok boardSize first a b st s -> winner s = 0 ->
  0 <= findEmpty 0 (board s) < boardSize * boardSize /\ cell_at (board s) (findEmpty 0 (board s)) = 0.
Proof.
  intros Hok Hw. destruct Hok as [_ Hlen _ _ _ [Hcase _] _ _ _ _ _ _]. destruct (findEmpty_spec 0 (board s)) as [[_ Hf]|[Hr Hz]].
  - apply full_stones in Hf. lia.
  - split; [lia|]. unfold cell_at. rewrite (proj2 (Z.ltb_ge _ _)) by lia. by rewrite Z.sub_0_r in Hz.
Qed.

Lemma caro_staked : 0 <= defaultStake -> StakedLaws staked defaultStake (boardSize * boardSize) ok.
Proof.
  intros Hd. split.
  - intros ctx. apply caro_initial_total.
  - intros ctx first s Hl E. destruct (caro_initial boardSize defaultStake ctx s ltac:(lia) Hd Hl E) as [Hok H0].
    split; [|done]. destruct Hok. split; cbn -[CaroGame.shift_of]; try done. by rewrite H0.
  - intros first a b st k s m p s' Hst [Hok Hk] E. split; [exact (caro_step boardSize ltac:(lia) first a b st Hst s m p s' Hok E)|].
    apply caro_apply_inv in E as (? & ? & _ & _ & _ & _ & _ & _ & _ & _ & ->). cbn. lia.
  - intros first a b st k s [Hok Hk]. split; [done|]. pose proof (stones_bound (board s)). destruct Hok. nia.
  - intros first a b st k s [Hok _]. apply (c_stake _ _ _ _ _ _ Hok).
  - intros first a b st k s [Hok <-]. apply (c_turn _ _ _ _ _ _ Hok).
  - intros first a b st k s [Hok _]. exists (CaroGame.shift_of (winner s) st).
    split; [apply (c_balA _ _ _ _ _ _ Hok)|]. split; [apply (c_balB _ _ _ _ _ _ Hok)|]. cbn. unfold Caro.isTerminal, CaroGame.shift_of.
    destruct (Z.eqb_spec (winner s) 1) as [->|]; [auto|]. destruct (Z.eqb_spec (winner s) 2) as [->|]; auto.
  - intros first a b st k s [Hok _] Ht. cbn in Ht. unfold Caro.isTerminal in Ht. bool_to_prop. destruct (first_empty _ _ _ _ _ Hok Ht) as [Hc H0].
    destruct (caro_accepts boardSize first a b st s (findEmpty 0 (board s)) (replicate 16 0)) as [s' E]; try done. eexists _, s'. exact E.
  - intros s m p s' E. by apply caro_apply_inv in E as (? & ? & _ & _ & _ & _ & _ & -> & _).
Qed.
End WithCrypto.
End Car.

(** * Two games of tic-tac-toe *)

Definition pair_ctx : ProtocolContext :=
  {| ctx_tunnelId := "0xA1"; initialBalances := {| bal_a := 100; bal_b := 50 |} |}.
(** The opener takes the first row; B opens the second game with a move that is no move. *)
Definition pair_moves : list (TicTacToeMove * Party) :=
  let mv c p := ({| TicTacToe.cell := JsInt c; TicTacToe.salt := Some (replicate 16 7) |}, p) in
  let won p q := [mv 0 p; mv 3 q; mv 1 p; mv 4 q; mv 2 p] in
  won PartyA PartyB ++ [({| TicTacToe.cell := JsNonInt; TicTacToe.salt := None |}, PartyB)] ++ won PartyB PartyA.

Definition pair_check (r0 : result (SeriesState TicTacToeState)) (play : SeriesState TicTacToeState -> result (SeriesState TicTacToeState)) : bool :=
  match rbind r0 play with Ok s => (gamesPlayed s =? 1) && negb (TicTacToe.winner (inner s) =? 0) | Throw _ => false end.

Lemma pair_check_spec r0 play : pair_check r0 play = true ->
  exists s0 s, r0 = Ok s0 /\ play s0 = Ok s /\ gamesPlayed s = 1 /\ TicTacToe.winner (inner s) <> 0.
Proof.
  unfold pair_check. destruct r0 as [s0|]; [|done]. cbn [rbind]. destruct (play s0) as [s|] eqn:E; [|done].
  intros [Hg Hw]%andb_true_iff. exists s0, s. apply Z.eqb_eq in Hg. apply negb_true_iff, Z.eqb_neq in Hw. by split_and!.
Qed.

Lemma pair_played : pair_check (initialState (@Ttt.staked toy_crypto 10) 2 pair_ctx)
  (fun s0 => run (@Ttt.MultiGameTicTacToeProtocol toy_crypto 10 2) s0 pair_moves) = true.
Proof. vm_compute. reflexivity. Qed.

Lemma pair_lockable : lockable (initialBalances pair_ctx).
Proof. apply (bool_decide_unpack _). vm_compute. exact I. Qed.

Lemma series_bounds_witness : exists s0 s,
  initialState (Ttt.staked 10) 2 pair_ctx = Ok s0 /\ run (Ttt.MultiGameTicTacToeProtocol 10 2) s0 pair_moves = Ok s /\
  gamesPlayed s = 1 /\ Z.of_nat (length pair_moves) < 20 /\
  sum_of (balances (Ttt.staked 10) s) = 150 /\ Z.abs (bal_a (balances (Ttt.staked 10) s) - 100) <= 20.
Proof.
  destruct (pair_check_spec _ _ pair_played) as (s0 & s & E0 & E & Hg & Hw). exists s0, s.
  split; [exact E0|]. split; [exact E|]. split; [exact Hg|].
  destruct (series_bounds (Ttt.staked 10) 10 9 Ttt.ok (StakedLaws0 := Ttt.ttt_staked 10 ltac:(lia)) _ _ 2 pair_ctx s0 pair_moves s
    ltac:(lia) ltac:(lia) pair_lockable E0 E) as (_ & Hl & _ & _ & Hs & Ha & _).
  split; [exact Hl|]. split; [exact Hs|]. rewrite Hg in Ha. exact Ha.
Defined.
