(* ===== verification/Minimax.v ===== *)
(** The perfect player of tic-tac-toe, [frontend/src/games/ticTacToe/packages/shared/src/]:
    [constants.ts], [ttt/board.ts], [ttt/minimax.ts] and [ttt/fairness.ts]. *)
From S2P Require Import Prelude.
From S2P Require Import Bytes.
From S2P Require Import Crypto.

(** [src frontend/src/games/ticTacToe/packages/shared/src/constants.ts CELL_EMPTY] *)
Definition CELL_EMPTY : Z := 0.
(** [src frontend/src/games/ticTacToe/packages/shared/src/constants.ts CELL_PLAYER] *)
Definition CELL_PLAYER : Z := 1.
(** [src frontend/src/games/ticTacToe/packages/shared/src/constants.ts CELL_SERVER] *)
Definition CELL_SERVER : Z := 2.

(** [type Board = number[]]: nine cells *)
Notation Board := (list Z).

(** [src frontend/src/games/ticTacToe/packages/shared/src/constants.ts:8-11 STATUS_ONGOING] *)
Inductive Status := STATUS_ONGOING | STATUS_PLAYER_WIN | STATUS_SERVER_WIN | STATUS_DRAW.

(** [src frontend/src/games/ticTacToe/packages/shared/src/ttt/board.ts WIN_LINES] *)
Definition WIN_LINES : list (nat * nat * nat) :=
  [(0, 1, 2); (3, 4, 5); (6, 7, 8); (0, 3, 6); (1, 4, 7); (2, 5, 8); (0, 4, 8); (2, 4, 6)]%nat.

(** [src frontend/src/games/ticTacToe/packages/shared/src/ttt/board.ts legalMoves] *)
Definition legalMoves (board : Board) : list nat := List.filter (fun i => nth i board (-1) =? CELL_EMPTY) (seq 0 9).

(** [src frontend/src/games/ticTacToe/packages/shared/src/ttt/board.ts:32-37 winner] *)
Definition line_of (board : Board) (l : nat * nat * nat) : bool :=
  let '(a, b, c) := l in
  negb (nth a board (-1) =? CELL_EMPTY) && (nth a board (-1) =? nth b board (-1)) && (nth b board (-1) =? nth c board (-1)).

(** [src frontend/src/games/ticTacToe/packages/shared/src/ttt/board.ts winner] *)
Definition winner (board : Board) : Z :=
  match List.find (line_of board) WIN_LINES with
  | Some (a, _, _) => nth a board (-1)
  | None => 0
  end.

(** [src frontend/src/games/ticTacToe/packages/shared/src/ttt/board.ts checkStatus] *)
Definition checkStatus (board : Board) : Status :=
  let w := winner board in
  if w =? CELL_PLAYER then STATUS_PLAYER_WIN
  else if w =? CELL_SERVER then STATUS_SERVER_WIN
  else if (length (legalMoves board) =? 0)%nat then STATUS_DRAW
  else STATUS_ONGOING.

(** [src frontend/src/games/ticTacToe/packages/shared/src/ttt/board.ts applyMove] *)
Definition applyMove (board : Board) (cell : nat) (value : Z) : Board := <[cell := value]> board.

(** [src frontend/src/games/ticTacToe/packages/shared/src/ttt/minimax.ts other] *)
Definition other (p : Z) : Z := if p =? CELL_PLAYER then CELL_SERVER else CELL_PLAYER.

(** [Math.max(best, x)] and [Math.min(worst, x)]; [None] is the infinity the loops begin with *)
Definition max_from (best : option Z) (x : Z) : option Z := Some (match best with Some b => Z.max b x | None => x end).
Definition min_from (worst : option Z) (x : Z) : option Z := Some (match worst with Some w => Z.min w x | None => x end).

(** [src frontend/src/games/ticTacToe/packages/shared/src/ttt/minimax.ts minimaxScore]: a position with
    [fuel] empty cells needs no more levels *)
Fixpoint minimaxScore (fuel : nat) (board : Board) (me toMove depth : Z) : Z :=
  let w := winner board in
  if w =? me then 10 - depth
  else if negb (w =? 0) then depth - 10
  else
    let moves := legalMoves board in
    match fuel, moves with
    | _, [] | O, _ => 0
    | S fuel', _ =>
        let scores := map (fun m => minimaxScore fuel' (<[m := toMove]> board) me (other toMove) (depth + 1)) moves in
        default 0 (if toMove =? me then fold_left max_from scores None else fold_left min_from scores None)
    end.

(** [src frontend/src/games/ticTacToe/packages/shared/src/ttt/minimax.ts minimaxScore], with its levels *)
Definition minimax (board : Board) (me toMove depth : Z) : Z := minimaxScore (length (legalMoves board)) board me toMove depth.

(** [src frontend/src/games/ticTacToe/packages/shared/src/ttt/minimax.ts:40-48 optimalMoves] *)
Definition scored (board : Board) (player : Z) : list (nat * Z) :=
  map (fun m => (m, minimax (<[m := player]> board) player (other player) 1)) (legalMoves board).

(** [src frontend/src/games/ticTacToe/packages/shared/src/ttt/minimax.ts:46-46 optimalMoves] *)
Definition best_of (l : list (nat * Z)) (best : option Z) : option Z :=
  fold_left (fun best s => match best with Some b => if b <? snd s then Some (snd s) else best | None => Some (snd s) end) l best.

(** [src frontend/src/games/ticTacToe/packages/shared/src/ttt/minimax.ts optimalMoves] *)
Definition optimalMoves (board : Board) (player : Z) : list nat :=
  let best := best_of (scored board player) None in
  map fst (List.filter (fun s => match best with Some b => snd s =? b | None => false end) (scored board player)).

(** [src frontend/src/games/ticTacToe/packages/shared/src/ttt/fairness.ts deriveServerMove], for a seed that
    is decoded: the four first bytes of the hash, unsigned *)
Definition deriveServerMove `{C : Crypto} (optimalCells : list nat) (seed : bytes) : result nat :=
  throw_if (length optimalCells =? 0)%nat with Error "deriveServerMove: empty optimalCells" ;
  let hash := blake2b256 seed in
  let at_ i := nth i hash 0 in
  let n := Z.lor (Z.lor (Z.lor (Z.shiftl (at_ 0%nat) 24) (Z.shiftl (at_ 1%nat) 16)) (Z.shiftl (at_ 2%nat) 8)) (at_ 3%nat) in
  Ok (nth (Z.to_nat (n mod Z.of_nat (length optimalCells))) optimalCells 0%nat).

(** * The sign of the score *)

(** [existsb] and [forallb], which stop at the first answer when they are evaluated. *)
Fixpoint some_of {A} (f : A -> bool) (l : list A) : bool :=
  match l with [] => false | x :: l' => if f x then true else some_of f l' end.
Fixpoint all_of {A} (f : A -> bool) (l : list A) : bool :=
  match l with [] => true | x :: l' => if f x then all_of f l' else false end.

Lemma some_of_map {A B} (f : B -> bool) (g : A -> B) (h : A -> bool) l : (forall x, f (g x) = h x) -> existsb f (map g l) = some_of h l.
Proof. intros H. induction l as [|x l IH]; [done|]. cbn. rewrite H, IH. by destruct (h x). Qed.

Lemma all_of_map {A B} (f : B -> bool) (g : A -> B) (h : A -> bool) l : (forall x, f (g x) = h x) -> forallb f (map g l) = all_of h l.
Proof. intros H. induction l as [|x l IH]; [done|]. cbn. rewrite H, IH. by destruct (h x). Qed.

(** Whether [me] can avoid to lose. *)
Fixpoint safe (fuel : nat) (board : Board) (me toMove : Z) : bool :=
  let w := winner board in
  if w =? me then true
  else if negb (w =? 0) then false
  else
    match fuel with
    | O => true
    | S fuel' =>
        let next m := safe fuel' (<[m := toMove]> board) me (other toMove) in
        let ms := legalMoves board in
        if (length ms =? 0)%nat then true else if toMove =? me then some_of next ms else all_of next ms
    end.

Lemma max_nonneg scores : scores <> [] ->
  (0 <=? default 0 (fold_left max_from scores None)) = existsb (Z.leb 0) scores.
Proof.
  assert (H : forall l b, fold_left max_from l (Some b) = Some (foldr Z.max b l)).
  { induction l as [|x l IH]; intros b; [done|]. change (fold_left max_from (x :: l) (Some b)) with (fold_left max_from l (Some (Z.max b x))). rewrite IH. cbn [foldr]. f_equal. clear. induction l as [|y l IH]; cbn; lia. }
  destruct scores as [|x l]; [done|]. intros _. cbn [existsb]. change (fold_left max_from (x :: l) None) with (fold_left max_from l (Some x)). rewrite H. cbn [from_option id].
  induction l as [|y l IH]; cbn [foldr existsb]; [by rewrite orb_false_r|].
  assert (Hm : forall a b, (0 <=? Z.max a b) = (0 <=? a) || (0 <=? b)) by lia. rewrite Hm, IH. by destruct (0 <=? x), (0 <=? y).
Qed.

Lemma min_nonneg scores : scores <> [] ->
  (0 <=? default 0 (fold_left min_from scores None)) = forallb (Z.leb 0) scores.
Proof.
  assert (H : forall l b, fold_left min_from l (Some b) = Some (foldr Z.min b l)).
  { induction l as [|x l IH]; intros b; [done|]. change (fold_left min_from (x :: l) (Some b)) with (fold_left min_from l (Some (Z.min b x))). rewrite IH. cbn [foldr]. f_equal. clear. induction l as [|y l IH]; cbn; lia. }
  destruct scores as [|x l]; [done|]. intros _. cbn [forallb]. change (fold_left min_from (x :: l) None) with (fold_left min_from l (Some x)). rewrite H. cbn [from_option id].
  induction l as [|y l IH]; cbn [foldr forallb]; [by rewrite andb_true_r|].
  assert (Hm : forall a b, (0 <=? Z.min a b) = (0 <=? a) && (0 <=? b)) by lia. rewrite Hm, IH. by destruct (0 <=? x), (0 <=? y).
Qed.

(** The depth only ranks the winning and the losing moves among themselves. *)
Lemma score_sign fuel board me toMove depth :
  0 <= depth -> depth + Z.of_nat fuel <= 9 ->
  (0 <=? minimaxScore fuel board me toMove depth) = safe fuel board me toMove.
Proof.
  revert board toMove depth; induction fuel as [|fuel IH]; intros board toMove depth H0 H9; cbn [minimaxScore safe];
    (destruct (winner board =? me); [apply Z.leb_le; lia|]); (destruct (negb (winner board =? 0)); [apply Z.leb_gt; lia|]).
  { by destruct (legalMoves board). }
  set (score m := minimaxScore fuel (<[m := toMove]> board) me (other toMove) (depth + 1)).
  assert (Hs : forall m, (0 <=? score m) = safe fuel (<[m := toMove]> board) me (other toMove)) by (intros m; apply IH; lia).
  destruct (legalMoves board) as [|m0 ms]; [done|]. cbn [length Nat.eqb]. destruct (toMove =? me).
  - rewrite max_nonneg by done. by apply some_of_map.
  - rewrite min_nonneg by done. by apply all_of_map.
Qed.

Definition EMPTY_BOARD : Board := replicate 9 0.

Lemma empty_safe : forallb (fun p => safe 9 EMPTY_BOARD (fst p) (snd p)) [(1, 1); (1, 2); (2, 1); (2, 2)] = true.
Proof. vm_compute. reflexivity. Qed.

Lemma some_of_spec {A} (f : A -> bool) l : some_of f l = true <-> exists x, x ∈ l /\ f x = true.
Proof.
  induction l as [|x l IH]; cbn; [split; [done|]; intros (x & ?%elem_of_nil & _); done|].
  destruct (f x) eqn:E; [split; [intros _; exists x; split; [left|done]|done]|]. rewrite IH. split.
  - intros (y & Hy & Hf). exists y. split; [by right|done].
  - intros (y & [->|Hy]%elem_of_cons & Hf); [congruence|eauto].
Qed.

Lemma all_of_spec {A} (f : A -> bool) l : all_of f l = true <-> forall x, x ∈ l -> f x = true.
Proof.
  induction l as [|x l IH]; cbn; [split; [by intros _ x ?%elem_of_nil|done]|].
  destruct (f x) eqn:E; [rewrite IH|].
  - split; intros H y; [intros [->|Hy]%elem_of_cons; auto|intros Hy; apply H; by right].
  - split; [done|]. intros H. rewrite <- E. apply H. left.
Qed.

(** * Legal and optimal moves *)

Lemma legal_elem b m : m ∈ legalMoves b <-> (m < 9)%nat /\ nth m b (-1) = 0.
Proof. unfold legalMoves. rewrite list_elem_of_In, filter_In, in_seq, Z.eqb_eq. unfold CELL_EMPTY. lia. Qed.

Lemma filter_but {A} `{EqDecision A} (f g : A -> bool) l m :
  NoDup l -> m ∈ l -> f m = true -> g m = false -> (forall x, x <> m -> g x = f x) ->
  length (List.filter f l) = S (length (List.filter g l)).
Proof.
  intros Hnd Hm Hf Hg Hfg. induction Hnd as [|x l Hx Hnd IH]; [by apply elem_of_nil in Hm|]. cbn [List.filter].
  apply elem_of_cons in Hm as [<-|Hm].
  - rewrite Hf, Hg. cbn [length]. f_equal. f_equal. apply filter_ext_in. intros y Hy. symmetry. apply Hfg. intros ->. by apply Hx, list_elem_of_In.
  - rewrite (Hfg x) by (intros ->; done). destruct (f x); cbn [length]; by rewrite IH.
Qed.

Lemma legal_after b m v : length b = 9%nat -> m ∈ legalMoves b -> v <> 0 ->
  length (legalMoves b) = S (length (legalMoves (<[m := v]> b))).
Proof.
  intros Hl [Hm H0]%legal_elem Hv. apply (filter_but _ _ _ m).
  - apply NoDup_seq.
  - apply elem_of_seq. lia.
  - by apply Z.eqb_eq.
  - apply Z.eqb_neq. rewrite nth_lookup, list_lookup_insert_eq by lia. done.
  - intros x Hx. by rewrite !nth_lookup, list_lookup_insert_ne by done.
Qed.

Lemma best_of_spec l b : exists v, best_of l (Some b) = Some v /\ b <= v /\ (v = b \/ v ∈ map snd l) /\ forall s, s ∈ l -> snd s <= v.
Proof.
  unfold best_of. revert b; induction l as [|s l IH]; intros b.
  { exists b. split; [done|]. split; [lia|]. split; [auto|]. by intros s ?%elem_of_nil. }
  cbn [fold_left map]. destruct (Z.ltb_spec b (snd s)) as [H|H].
  - destruct (IH (snd s)) as (v & -> & Hv & Hin & Hall). exists v. split; [done|]. split; [lia|]. split.
    + right. rewrite elem_of_cons. destruct Hin; auto.
    + intros s' [->|Hs]%elem_of_cons; [lia|by apply Hall].
  - destruct (IH b) as (v & -> & Hv & Hin & Hall). exists v. split; [done|]. split; [lia|]. split.
    + rewrite elem_of_cons. destruct Hin; auto.
    + intros s' [->|Hs]%elem_of_cons; [lia|by apply Hall].
Qed.

(** The optimal moves are the legal moves of the greatest score; there is one when there is
    a legal move. *)
Lemma optimal_spec b p m : m ∈ optimalMoves b p <->
  m ∈ legalMoves b /\ forall m', m' ∈ legalMoves b -> minimax (<[m' := p]> b) p (other p) 1 <= minimax (<[m := p]> b) p (other p) 1.
Proof.
  unfold optimalMoves, scored. cbv zeta.
  set (f m := minimax (<[m := p]> b) p (other p) 1). change (fun m => (m, minimax (<[m := p]> b) p (other p) 1)) with (fun m => (m, f m)).
  destruct (legalMoves b) as [|m0 ms].
  { cbn. split; [by intros ?%elem_of_nil|]. by intros [?%elem_of_nil _]. }
  set (l := m0 :: ms). change (best_of (map (fun m => (m, f m)) l) None) with (best_of (map (fun m => (m, f m)) ms) (Some (f m0))).
  destruct (best_of_spec (map (fun m => (m, f m)) ms) (f m0)) as (v & -> & Hv & Hin & Hall).
  assert (Hmax : forall m', m' ∈ l -> f m' <= v).
  { intros m' [->|Hm]%elem_of_cons; [done|]. apply (Hall (m', f m')). by apply list_elem_of_fmap_2'  with m'. }
  assert (Hex : exists m', m' ∈ l /\ f m' = v).
  { destruct Hin as [->|(s & -> & (m' & -> & Hm')%list_elem_of_fmap)%list_elem_of_fmap]; [exists m0; split; [left|done]|].
    exists m'. split; [by right|done]. }
  rewrite list_elem_of_In, in_map_iff. split.
  - intros ([m' s] & <- & [(m'' & [= <- <-] & Hm)%in_map_iff Hs]%filter_In). cbn [fst snd] in Hs |- *. apply Z.eqb_eq in Hs.
    rewrite list_elem_of_In. split; [done|]. intros m1 Hm1. change (f m1 <= f m''). rewrite Hs. by apply Hmax.
  - intros [Hm Hge]. exists (m, f m). split; [done|]. apply filter_In. split; [apply in_map_iff; exists m; split; [done|by apply list_elem_of_In]|].
    apply Z.eqb_eq. cbn [snd]. destruct Hex as (m' & Hm' & <-). apply Z.le_antisymm; [by apply Hmax|by apply Hge].
Qed.

Lemma optimal_nonempty b p : legalMoves b <> [] -> optimalMoves b p <> [].
Proof.
  intros Hne E. set (f m := minimax (<[m := p]> b) p (other p) 1).
  assert (Hmax : exists m, m ∈ legalMoves b /\ forall m', m' ∈ legalMoves b -> f m' <= f m).
  { clear E. induction (legalMoves b) as [|m l IH]; [done|]. destruct l as [|m1 l].
    - exists m. split; [left|]. by intros m' ->%list_elem_of_singleton.
    - destruct IH as (x & Hx & Hall); [done|]. destruct (Z.le_gt_cases (f m) (f x)).
      + exists x. split; [by right|]. intros m' [->|Hm]%elem_of_cons; auto.
      + exists m. split; [left|]. intros m' [->|Hm]%elem_of_cons; [done|]. apply Hall in Hm. lia. }
  destruct Hmax as (m & Hm & Hall). apply (not_elem_of_nil m). rewrite <- E. by apply optimal_spec.
Qed.

(** * Perfect play *)

(** The boards of a game in which [me] plays optimal moves and the other side any legal
    moves, with the side to move. *)
Inductive perfect_play (me : Z) : Board -> Z -> Prop :=
  | pp_start t : t = me \/ t = other me -> perfect_play me EMPTY_BOARD t
  | pp_me b m : perfect_play me b me -> winner b = 0 -> m ∈ optimalMoves b me -> perfect_play me (applyMove b m me) (other me)
  | pp_other b m : perfect_play me b (other me) -> winner b = 0 -> m ∈ legalMoves b -> perfect_play me (applyMove b m (other me)) me.

Definition side (p : Z) : Prop := p = CELL_PLAYER \/ p = CELL_SERVER.

Lemma side_other p : side p -> side (other p) /\ other (other p) = p /\ other p <> p /\ p <> 0.
Proof. intros [->| ->]; cbn; unfold side, CELL_PLAYER, CELL_SERVER; auto with lia. Qed.

Lemma legal_bound b : (length (legalMoves b) <= 9)%nat.
Proof. unfold legalMoves. etransitivity; [apply filter_length_le|]. by rewrite length_seq. Qed.

(** A perfect player keeps a board it cannot lose. *)
Lemma perfect_safe me b t : side me -> perfect_play me b t -> length b = 9%nat /\ safe (length (legalMoves b)) b me t = true.
Proof.
  intros Hme. destruct (side_other me Hme) as (Hs & Hoo & Hne & Hme0). assert (Ho0 : other me <> 0) by apply (side_other _ Hs).
  induction 1 as [t Ht|b m Hp [Hl IH] Hw Hm|b m Hp [Hl IH] Hw Hm].
  - split; [done|]. change (length (legalMoves EMPTY_BOARD)) with 9%nat. pose proof empty_safe as He. rewrite forallb_forall in He.
    apply (He (me, t)). destruct Hme as [->| ->], Ht as [->| ->]; cbn; auto.
  - split; [by unfold applyMove; rewrite length_insert|]. pose proof Hm as [Hleg Hmax]%optimal_spec.
    pose proof (legal_after b m me Hl Hleg Hme0) as Hn. rewrite Hn in IH. cbn [safe] in IH. rewrite Hw in IH.
    rewrite (proj2 (Z.eqb_neq 0 me)) in IH by congruence. cbn [negb Z.eqb] in IH. rewrite Hn in IH. cbn [Nat.eqb] in IH. rewrite Z.eqb_refl in IH.
    apply some_of_spec in IH as (m' & Hm' & Hsafe).
    assert (Hbound : forall m1, m1 ∈ legalMoves b -> 1 + Z.of_nat (length (legalMoves (<[m1 := me]> b))) <= 9).
    { intros m1 H1. pose proof (legal_after b m1 me Hl H1 Hme0). pose proof (legal_bound b). lia. }
    unfold applyMove. rewrite <- (score_sign _ _ _ _ 1) by (lia || by apply Hbound). apply Z.leb_le.
    etransitivity; [|apply (Hmax m' Hm')]. apply Z.leb_le. unfold minimax. rewrite score_sign by (lia || by apply Hbound).
    pose proof (legal_after b m' me Hl Hm' Hme0) as Hn'. rewrite Hn in Hn'. injection Hn' as <-. exact Hsafe.
  - split; [by unfold applyMove; rewrite length_insert|].
    pose proof (legal_after b m (other me) Hl Hm Ho0) as Hn. rewrite Hn in IH. cbn [safe] in IH. rewrite Hw in IH.
    rewrite (proj2 (Z.eqb_neq 0 me)) in IH by congruence. cbn [negb Z.eqb] in IH. rewrite Hn in IH. cbn [Nat.eqb] in IH.
    rewrite (proj2 (Z.eqb_neq _ _) Hne) in IH. rewrite all_of_spec in IH. specialize (IH m Hm). by rewrite Hoo in IH.
Qed.

(** A perfect player is never beaten. *)
Lemma perfect_never_loses me b t : side me -> perfect_play me b t -> winner b <> other me.
Proof.
  intros Hme Hp Hw. destruct (perfect_safe me b t Hme Hp) as [_ Hs]. destruct (side_other me Hme) as (Hs' & _ & Hne & _).
  assert (Ho0 : other me <> 0) by apply (side_other _ Hs').
  destruct (length (legalMoves b)); cbn [safe] in Hs; rewrite Hw, (proj2 (Z.eqb_neq _ _) Hne), (proj2 (Z.eqb_neq _ _) Ho0) in Hs; done.
Qed.

(** The move derived from a seed is one of the optimal ones. *)
Lemma derived_optimal `{C : Crypto} cells seed m : deriveServerMove cells seed = Ok m -> m ∈ cells.
Proof.
  unfold deriveServerMove. destruct (Nat.eqb_spec (length cells) 0) as [|Hn]; [done|]. cbv zeta. intros H. apply Ok_inj in H as <-.
  apply list_elem_of_In, nth_In. set (n := Z.lor _ _). pose proof (Z.mod_pos_bound n (Z.of_nat (length cells)) ltac:(lia)). lia.
Qed.
