(* ===== verification/BotKit.v ===== *)
(** The bots of the arena, [frontend/src/agent/]: the interface of [gameKit.ts], the state
    hash of [stateHash.ts], and the loop of [testHarness.ts] that lets two bots play a game
    to its end. *)
From S2P Require Import Prelude.
From S2P Require Import Bytes.
From S2P Require Import Protocol.

(** [src frontend/src/agent/gameKit.ts GameBot]: a bot keeps a memory [B] and draws from its
    own stream; [rng n] is the n-th number drawn in a call.  [Ok None] is [null]. *)
Record GameBot (B S M : Type) := {
  plan : B -> (nat -> Z) -> S -> result (B * option M);
  confirm : B -> S -> M -> B
}.
Arguments plan {B S M}.
Arguments confirm {B S M}.

(** [src frontend/src/agent/gameKit.ts GameKit] *)
Record GameKit (B S M : Type) := {
  kit_id : string;
  kit_protocol : Protocol S M;
  stateHash : S -> result string;
  kit_bot : Party -> GameBot B S M
}.
Arguments kit_id {B S M}.
Arguments kit_protocol {B S M}.
Arguments stateHash {B S M}.
Arguments kit_bot {B S M}.

(** [src frontend/src/agent/stateHash.ts:7-14 bytesToHex] *)
Fixpoint nibblesToHex (bs : bytes) : string :=
  match bs with
  | [] => EmptyString
  | b :: bs' => String (hex_digit (Z.shiftr b 4)) (String (hex_digit (Z.land b 15)) (nibblesToHex bs'))
  end.

(** [src frontend/src/agent/stateHash.ts defaultStateHash] *)
Definition defaultStateHash {S M} (protocol : Protocol S M) (state : S) : result string :=
  let! b := Protocol.encodeState protocol state in
  Ok (nibblesToHex b).

Lemma nibblesToHex_toHex bs : nibblesToHex bs = toHex bs.
Proof.
  induction bs as [|b bs IH]; [done|]. cbn [nibblesToHex]. rewrite toHex_cons, IH, Z.shiftr_div_pow2 by lia.
  change 15 with (Z.ones 4). by rewrite Z.land_ones by lia.
Qed.

Lemma nibbles_inj b b' : bytes_ok b -> bytes_ok b' -> nibblesToHex b = nibblesToHex b' -> b = b'.
Proof. rewrite !nibblesToHex_toHex. intros H H' E. by rewrite <- (hex_pairs_toHex b), <- (hex_pairs_toHex b'), E. Qed.

Section Drive.
Context {B S M : Type} (kit : GameKit B S M).

(** What the loop keeps. *)
Record Drive := {
  d_state : S;
  d_botA : B;
  d_botB : B;
  d_lastA : option string;
  d_lastB : option string;
  d_moves : list (M * Party)
}.

Definition bot_of (d : Drive) (p : Party) : B := match p with PartyA => d_botA d | PartyB => d_botB d end.
Definition last_of (d : Drive) (p : Party) : option string := match p with PartyA => d_lastA d | PartyB => d_lastB d end.
Definition set_bot (d : Drive) (p : Party) (b : B) : Drive :=
  {| d_state := d_state d; d_botA := match p with PartyA => b | PartyB => d_botA d end;
     d_botB := match p with PartyA => d_botB d | PartyB => b end;
     d_lastA := d_lastA d; d_lastB := d_lastB d; d_moves := d_moves d |}.

(** [src frontend/src/agent/testHarness.ts:28-57 driveToTerminal] one bot's part of a round:
    whether it moved, and what is kept *)
Definition act (rng : nat -> Z) (actor : Party) (d : Drive) : result (bool * Drive) :=
  let! h := stateHash kit (d_state d) in
  if bool_decide (last_of d actor = Some h) then Ok (false, d)
  else
    let bot := kit_bot kit actor in
    let! r := plan bot (bot_of d actor) rng (d_state d) in
    match snd r with
    | None => Ok (false, set_bot d actor (fst r))
    | Some move =>
        match Protocol.applyMove (kit_protocol kit) (d_state d) move actor with
        | Throw _ => Throw (Error "Rejected move")
        | Ok next =>
            let! nextHash := stateHash kit next in
            throw_if bool_decide (nextHash = h) with Error "Move produced an identical state hash; possible no-op loop." ;
            let d' := set_bot d actor (confirm bot (fst r) (d_state d) move) in
            Ok (true, {| d_state := next; d_botA := d_botA d'; d_botB := d_botB d';
                         d_lastA := match actor with PartyA => Some h | PartyB => None end;
                         d_lastB := match actor with PartyA => None | PartyB => Some h end;
                         d_moves := d_moves d ++ [(move, actor)] |})
        end
    end.

(** [src frontend/src/agent/testHarness.ts:24-64 driveToTerminal] the rounds; [draws p n] are
    the numbers seat [p] draws in round [n] *)
Fixpoint rounds (draws : Party -> nat -> nat -> Z) (fuel : nat) (round : nat) (d : Drive) : result Drive :=
  match fuel with
  | O => Ok d
  | Datatypes.S fuel' =>
      if Protocol.isTerminal (kit_protocol kit) (d_state d) then Ok d
      else
        let! a := act (draws PartyA round) PartyA d in
        let! b := act (draws PartyB round) PartyB (snd a) in
        throw_if negb (fst a || fst b) with Error "No progress; game is not terminal." ;
        rounds draws fuel' (Datatypes.S round) (snd b)
  end.

(** [src frontend/src/agent/testHarness.ts:22-22 driveToTerminal] *)
Definition maxRounds : nat := Z.to_nat 10000.

(** [src frontend/src/agent/testHarness.ts driveToTerminal] *)
Definition driveToTerminal (draws : Party -> nat -> nat -> Z) (botA botB : B) (ctx : ProtocolContext) : result Drive :=
  let! s0 := Protocol.initialState (kit_protocol kit) ctx in
  let! d := rounds draws maxRounds 0 {| d_state := s0; d_botA := botA; d_botB := botB; d_lastA := None; d_lastB := None; d_moves := [] |} in
  throw_if negb (Protocol.isTerminal (kit_protocol kit) (d_state d)) with Error "did not reach a terminal state" ;
  Ok d.
End Drive.
Arguments d_state {B S M}.
Arguments d_botA {B S M}.
Arguments d_botB {B S M}.
Arguments d_moves {B S M}.

(** * What a kit promises *)

(** [ok s a b]: [s] is a state of a game between the bots with memories [a] and [b].  Every
    move a bot plans is accepted and changes the hash; while the game is open one of the two
    plans a move. *)
Class KitLaws {B S M} (kit : GameKit B S M) (good : (nat -> Z) -> Prop) (ok : S -> B -> B -> Prop) : Prop := {
  kit_hash : forall s a b, ok s a b -> exists h, stateHash kit s = Ok h;
  kit_plans : forall s a b p rng, good rng -> ok s a b ->
    let mine (x : B) := match p with PartyA => (x, b) | PartyB => (a, x) end in
    exists x mo, plan (kit_bot kit p) (match p with PartyA => a | PartyB => b end) rng s = Ok (x, mo) /\
      match mo with
      | None => ok s (fst (mine x)) (snd (mine x))
      | Some m =>
          let x' := confirm (kit_bot kit p) x s m in
          exists s', Protocol.applyMove (kit_protocol kit) s m p = Ok s' /\ ok s' (fst (mine x')) (snd (mine x')) /\
            stateHash kit s' <> stateHash kit s
      end;
  kit_alive : forall s a b, ok s a b -> Protocol.isTerminal (kit_protocol kit) s = false ->
    exists p, forall a b rng x, good rng -> ok s a b ->
      plan (kit_bot kit p) (match p with PartyA => a | PartyB => b end) rng s <> Ok (x, None)
}.

(** Games that end: every planned move uses up some of [left]. *)
Class KitEnds {B S M} (kit : GameKit B S M) (good : (nat -> Z) -> Prop) (ok : S -> B -> B -> Prop) (left : S -> nat) : Prop :=
  kit_left : forall s a b p rng x m s', good rng -> ok s a b ->
    plan (kit_bot kit p) (match p with PartyA => a | PartyB => b end) rng s = Ok (x, Some m) ->
    Protocol.applyMove (kit_protocol kit) s m p = Ok s' -> (left s' < left s)%nat.

Section Laws.
Context {B S M : Type} (kit : GameKit B S M) (good : (nat -> Z) -> Prop) (ok : S -> B -> B -> Prop).
Context `{!KitLaws kit good ok}.
Context (draws : Party -> nat -> nat -> Z) (Hdraws : forall p n, good (draws p n)).

(** A seat is never held back by its last hash. *)
Definition fresh (d : @Drive B S M) : Prop :=
  forall h, stateHash kit (d_state d) = Ok h -> last_of d PartyA <> Some h /\ last_of d PartyB <> Some h.

Record drive_ok (s0 : S) (d : @Drive B S M) : Prop := {
  do_ok : ok (d_state d) (d_botA d) (d_botB d);
  do_fresh : fresh d;
  do_run : run (kit_protocol kit) s0 (d_moves d) = Ok (d_state d)
}.

(** [p] moved from [d] in round [n]. *)
Definition moved_to (p : Party) (n : nat) (d d' : @Drive B S M) : Prop :=
  exists x m, plan (kit_bot kit p) (match p with PartyA => d_botA d | PartyB => d_botB d end) (draws p n) (d_state d) = Ok (x, Some m) /\
    Protocol.applyMove (kit_protocol kit) (d_state d) m p = Ok (d_state d') /\ d_moves d' = d_moves d ++ [(m, p)].

Lemma act_spec s0 p n d : drive_ok s0 d ->
  exists moved d', act kit (draws p n) p d = Ok (moved, d') /\ drive_ok s0 d' /\
    (if moved then moved_to p n d d'
     else d_moves d' = d_moves d /\ d_state d' = d_state d /\ exists x, plan (kit_bot kit p) (bot_of d p) (draws p n) (d_state d) = Ok (x, None)).
Proof.
  intros [Hok Hfr Hrun]. destruct (kit_hash _ _ _ Hok) as [h Hh]. unfold act. rewrite Hh. cbn [rbind].
  destruct (Hfr h Hh) as [HfA HfB]. rewrite bool_decide_false by (by destruct p).
  destruct (kit_plans _ _ _ p (draws p n) (Hdraws p n) Hok) as (x & mo & Hp & Hmo). cbv zeta.
  assert (Hb : bot_of d p = match p with PartyA => d_botA d | PartyB => d_botB d end) by (by destruct p).
  rewrite Hb, Hp. cbn [rbind fst snd]. destruct mo as [m|].
  - destruct Hmo as (s' & E & Hok' & Hne). rewrite E. destruct (kit_hash _ _ _ Hok') as [h' Hh']. rewrite Hh'. cbn [rbind].
    rewrite bool_decide_false by congruence. eexists true, _. split; [done|]. split; [|by exists x, m]. split; cbn [d_state d_botA d_botB d_moves].
    + by destruct p.
    + intros h1 E1. cbn [d_state] in E1. destruct p; cbn; split; try done; congruence.
    + unfold run in *. rewrite rfold_app, Hrun. cbn [rbind rfold]. by rewrite E.
  - eexists false, _. split; [done|]. split; [|by eauto]. split; cbn [d_state d_moves set_bot]; try done.
    by destruct p.
Qed.

(** A round makes a move, and keeps the promises. *)
Lemma round_spec s0 n d : drive_ok s0 d -> Protocol.isTerminal (kit_protocol kit) (d_state d) = false ->
  exists ma mb da db, act kit (draws PartyA n) PartyA d = Ok (ma, da) /\ act kit (draws PartyB n) PartyB da = Ok (mb, db) /\
    ma || mb = true /\ drive_ok s0 da /\ drive_ok s0 db /\
    (if ma then moved_to PartyA n d da else d_state da = d_state d) /\
    (if mb then moved_to PartyB n da db else d_state db = d_state da) /\
    length (d_moves db) = (length (d_moves d) + (if ma then 1 else 0) + (if mb then 1 else 0))%nat.
Proof.
  intros Hd Et. destruct (act_spec s0 PartyA n d Hd) as (ma & da & Ea & Ha & Hma). destruct (act_spec s0 PartyB n da Ha) as (mb & db & Eb & Hb & Hmb).
  exists ma, mb, da, db. split; [done|]. split; [done|].
  assert (Hlen : length (d_moves db) = (length (d_moves d) + (if ma then 1 else 0) + (if mb then 1 else 0))%nat).
  { destruct mb; [destruct Hmb as (x & m & _ & _ & ->)|destruct Hmb as [-> _]]; (destruct ma; [destruct Hma as (x' & m' & _ & _ & ->)|destruct Hma as [-> _]]);
      rewrite ?length_app; cbn [length]; lia. }
  split.
  - destruct ma; [done|]. destruct mb; [done|]. exfalso. destruct Hma as (_ & Es & x & Hx). destruct Hmb as (_ & _ & y & Hy).
    destruct (kit_alive _ _ _ (do_ok _ _ Hd) Et) as [[] Hp].
    + exact (Hp _ _ _ _ (Hdraws PartyA n) (do_ok _ _ Hd) Hx).
    + rewrite Es in Hy. refine (Hp (d_botA da) (d_botB da) _ _ (Hdraws PartyB n) _ Hy). rewrite <- Es. apply (do_ok _ _ Ha).
  - split_and!; try done; [destruct ma|destruct mb]; [done|by destruct Hma as (_ & ? & _)|done|by destruct Hmb as (_ & ? & _)].
Qed.

(** The rounds never fail. *)
Lemma rounds_legal s0 fuel n d : drive_ok s0 d -> exists d', rounds kit draws fuel n d = Ok d' /\ drive_ok s0 d' /\
  (Protocol.isTerminal (kit_protocol kit) (d_state d') = true \/ (length (d_moves d) + fuel <= length (d_moves d'))%nat).
Proof.
  revert n d; induction fuel as [|fuel IH]; intros n d Hd; [exists d; split; [done|]; split; [done|]; right; lia|].
  cbn [rounds]. destruct (Protocol.isTerminal (kit_protocol kit) (d_state d)) eqn:Et; [exists d; auto|].
  destruct (round_spec s0 n d Hd Et) as (ma & mb & da & db & -> & Eb & Hm & _ & Hb & _ & _ & Hlen). cbn [rbind snd fst]. rewrite Eb. cbn [rbind snd fst].
  rewrite Hm. cbn [negb]. destruct (IH (Datatypes.S n) db Hb) as (d' & -> & Hd' & Hx). exists d'. split; [done|]. split; [done|].
  destruct Hx as [Hx|Hx]; [by left|right]. destruct ma, mb; cbn in Hm; (discriminate || lia).
Qed.

(** Two bots of a kit play their game to its end, or for ten thousand rounds: the harness
    never finds a rejected move, a move without effect, or a round without a move. *)
Lemma drive_legal a b ctx s0 :
  Protocol.initialState (kit_protocol kit) ctx = Ok s0 -> ok s0 a b ->
  (exists d, driveToTerminal kit draws a b ctx = Ok d /\ Protocol.isTerminal (kit_protocol kit) (d_state d) = true /\
    run (kit_protocol kit) s0 (d_moves d) = Ok (d_state d) /\ ok (d_state d) (d_botA d) (d_botB d)) \/
  (driveToTerminal kit draws a b ctx = Throw (Error "did not reach a terminal state") /\
   exists ms s, run (kit_protocol kit) s0 ms = Ok s /\ (maxRounds <= length ms)%nat).
Proof.
  intros E Hok. unfold driveToTerminal. rewrite E. cbn [rbind]. set (d0 := {| d_state := s0 |}).
  assert (H0 : drive_ok s0 d0) by (split; [exact Hok|by intros h _; split|done]).
  destruct (rounds_legal s0 maxRounds 0 d0 H0) as (d & -> & [H1 H2 H3] & Ht). cbn [rbind].
  destruct (Protocol.isTerminal (kit_protocol kit) (d_state d)) eqn:Et; cbn [negb]; [left; exists d; by split_and!|].
  right. split; [done|]. destruct Ht as [|Ht]; [done|]. exists (d_moves d), (d_state d). split; [done|exact Ht].
Qed.

Context (left : S -> nat) `{!KitEnds kit good ok left}.

Lemma run_left s0 d : drive_ok s0 d -> Protocol.isTerminal (kit_protocol kit) (d_state d) = false -> forall n,
  exists ma mb da db, act kit (draws PartyA n) PartyA d = Ok (ma, da) /\ act kit (draws PartyB n) PartyB da = Ok (mb, db) /\
    ma || mb = true /\ drive_ok s0 db /\ (length (d_moves db) + left (d_state db) <= length (d_moves d) + left (d_state d))%nat /\
    (left (d_state db) < left (d_state d))%nat.
Proof.
  intros Hd Et n. destruct (round_spec s0 n d Hd Et) as (ma & mb & da & db & Ea & Eb & Hm & Ha & Hb & Hsa & Hsb & Hlen).
  assert (HA : if ma then (left (d_state da) < left (d_state d))%nat else left (d_state da) = left (d_state d)).
  { destruct ma; [destruct Hsa as (x & m & Hx & E & _); exact (kit_left _ _ _ PartyA _ _ _ _ (Hdraws _ _) (do_ok _ _ Hd) Hx E)|by rewrite Hsa]. }
  assert (HB : if mb then (left (d_state db) < left (d_state da))%nat else left (d_state db) = left (d_state da)).
  { destruct mb; [destruct Hsb as (x & m & Hx & E & _); exact (kit_left _ _ _ PartyB _ _ _ _ (Hdraws _ _) (do_ok _ _ Ha) Hx E)|by rewrite Hsb]. }
  exists ma, mb, da, db. split_and!; try done; destruct ma, mb; cbn in Hm; (discriminate || lia).
Qed.

Lemma rounds_complete s0 fuel n d : drive_ok s0 d -> (left (d_state d) < fuel)%nat ->
  exists d', rounds kit draws fuel n d = Ok d' /\ drive_ok s0 d' /\ Protocol.isTerminal (kit_protocol kit) (d_state d') = true /\
    (length (d_moves d') <= length (d_moves d) + left (d_state d))%nat.
Proof.
  revert n d; induction fuel as [|fuel IH]; intros n d Hd Hl; [lia|].
  cbn [rounds]. destruct (Protocol.isTerminal (kit_protocol kit) (d_state d)) eqn:Et; [exists d; split_and!; try done; lia|].
  destruct (run_left s0 d Hd Et n) as (ma & mb & da & db & -> & Eb & Hm & Hb & Hlen & Hlt). cbn [rbind snd fst]. rewrite Eb. cbn [rbind snd fst].
  rewrite Hm. cbn [negb]. destruct (IH (Datatypes.S n) db Hb ltac:(lia)) as (d' & -> & Hd' & Ht & Hlen'). exists d'. split_and!; try done. lia.
Qed.

(** Two bots of a kit play their game to its end, when it is short enough. *)
Lemma drive_completes a b ctx s0 :
  Protocol.initialState (kit_protocol kit) ctx = Ok s0 -> ok s0 a b -> (left s0 < maxRounds)%nat ->
  exists d, driveToTerminal kit draws a b ctx = Ok d /\ Protocol.isTerminal (kit_protocol kit) (d_state d) = true /\
    run (kit_protocol kit) s0 (d_moves d) = Ok (d_state d) /\ ok (d_state d) (d_botA d) (d_botB d) /\ (length (d_moves d) <= left s0)%nat.
Proof.
  intros E Hok Hl. unfold driveToTerminal. rewrite E. cbn [rbind]. set (d0 := {| d_state := s0 |}).
  assert (H0 : drive_ok s0 d0) by (split; [exact Hok|by intros h _; split|done]).
  destruct (rounds_complete s0 maxRounds 0 d0 H0 Hl) as (d & -> & [H1 H2 H3] & Ht & Hlen). cbn [rbind]. rewrite Ht. cbn [negb].
  exists d. by split_and!.
Qed.
End Laws.
