(* ===== verification/TicTacToeKit.v ===== *)
(** The tic-tac-toe bot of the arena, [frontend/src/agent/games/ticTacToe/kit.ts]. *)
From S2P Require Import Prelude.
From S2P Require Import Bytes.
From S2P Require Import Wire.
From S2P Require Import Crypto.
From S2P Require Import Commitment.
From S2P Require Import Protocol.
From S2P Require Import Rng.
From S2P Require Import TicTacToe.
From S2P Require Import Series.
From S2P Require Import GameSeries.
From S2P Require Import Minimax.
From S2P Require Import BotKit.

(** [src frontend/src/agent/games/ticTacToe/kit.ts TicTacToeDifficulty] *)
Inductive TicTacToeDifficulty := perfect | even | uneven | fast.

(** [src frontend/src/agent/games/ticTacToe/kit.ts:17-26 LINES] *)
Definition KIT_LINES : list (list Z) := [[0; 1; 2]; [3; 4; 5]; [6; 7; 8]; [0; 3; 6]; [1; 4; 7]; [2; 5; 8]; [0; 4; 8]; [2; 4; 6]].

(** [board[i]] *)
Definition at_ (board : list Z) (i : Z) : Z := nth (Z.to_nat i) board (-1).

(** [src frontend/src/agent/games/ticTacToe/kit.ts:39-46 findFinish]: [None] is -1 *)
Definition findFinish (board : list Z) (who : Z) : option Z :=
  let finish line :=
    match List.find (fun i => at_ board i =? 0) line with
    | Some e => if Nat.eqb (length (List.filter (fun i => at_ board i =? who) line)) 2 then Some e else None
    | None => None
    end in
  head (omap finish KIT_LINES).

(** [src frontend/src/agent/games/ticTacToe/kit.ts fastIndex] *)
Definition fastIndex (seed : Z) (bs : bytes) (n : Z) : Z :=
  fold_left (fun h b => imul (Z.lxor h b) 0x01000193) bs (u32 (Z.lxor seed 0x811c9dc5)) mod n.

(** [src frontend/src/agent/games/ticTacToe/kit.ts deterministicSalt] *)
Definition deterministicSalt (seed : Z) (stateBytes : bytes) : bytes :=
  let fold start := fold_left (fun h b => imul (Z.lxor h b) 0x01000193) stateBytes (u32 (Z.lxor seed start)) in
  let lo := fold 0x811c9dc5 in
  let hi := fold 0xdeadbeef in
  be_bytes 4 lo ++ be_bytes 4 hi ++ be_bytes 4 (u32 (Z.lxor lo (Z.shiftl hi 7))) ++ be_bytes 4 (u32 (Z.lxor hi (Z.shiftr lo 3))).

(** [src frontend/src/agent/games/ticTacToe/kit.ts:101-103 pickCell] *)
Definition kit_empties (board : list Z) : list Z := List.filter (fun i => at_ board i =? 0) (seqZ 0 (Z.of_nat (length board))).

(** [src frontend/src/agent/games/ticTacToe/kit.ts heuristicCell] *)
Definition heuristicCell (state : TicTacToeState) (mark : Z) (empties : list Z) (fastSeed : Z) : result Z :=
  let opp := if mark =? 1 then 2 else 1 in
  match findFinish (TicTacToe.board state) mark, findFinish (TicTacToe.board state) opp with
  | Some win, _ => Ok win
  | None, Some block => Ok block
  | None, None =>
      let! e := TicTacToe.encodeState state in
      Ok (nth (Z.to_nat (fastIndex fastSeed e (Z.of_nat (length empties)))) empties 0)
  end.

(** [src frontend/src/agent/games/ticTacToe/kit.ts:119-121 pickCell] *)
Definition relabel (mark : Z) (board : list Z) : Minimax.Board :=
  map (fun v => if v =? 0 then CELL_EMPTY else if v =? mark then CELL_SERVER else CELL_PLAYER) board.

(** [src frontend/src/agent/games/ticTacToe/kit.ts:114-115 pickCell] *)
Definition plays_perfect (difficulty : TicTacToeDifficulty) (seat : Party) : bool :=
  match difficulty, seat with perfect, _ | uneven, PartyA => true | _, _ => false end.

(** [src frontend/src/agent/games/ticTacToe/kit.ts pickCell] *)
Definition pickCell (state : TicTacToeState) (seat : Party) (difficulty : TicTacToeDifficulty) (fastSeed : Z) : result Z :=
  let empties := kit_empties (TicTacToe.board state) in
  if (length empties =? 0)%nat then Ok (-1)
  else
    match difficulty with
    | fast =>
        let! e := TicTacToe.encodeState state in
        Ok (nth (Z.to_nat (fastIndex fastSeed e (Z.of_nat (length empties)))) empties 0)
    | _ =>
        let mark := match seat with PartyA => 1 | PartyB => 2 end in
        if negb (plays_perfect difficulty seat) then heuristicCell state mark empties fastSeed
        else
          match optimalMoves (relabel mark (TicTacToe.board state)) CELL_SERVER with
          | m :: _ => Ok (Z.of_nat m)
          | [] => Ok (nth 0 empties 0)
          end
    end.

Section WithCrypto.
Context `{C : Crypto} (maxGames stake : Z) (difficulty : TicTacToeDifficulty).

(** [src frontend/src/agent/games/ticTacToe/kit.ts TicTacToeBot.plan]: the memory of the bot is its
    [fastSeed], drawn when it is made *)
Definition ttt_plan (seat : Party) (fastSeed : Z) (state : SeriesState TicTacToeState) : result (option TicTacToeMove) :=
  let i := inner state in
  let! e := Protocol.encodeState (Ttt.MultiGameTicTacToeProtocol stake maxGames) state in
  let slt := Some (deterministicSalt fastSeed e) in
  if TicTacToe.isTerminal i then
    if negb (Series.isTerminal (Ttt.staked stake) state) && party_eqb seat PartyA
    then Ok (Some {| TicTacToe.cell := JsInt 0; TicTacToe.salt := slt |}) else Ok None
  else if negb (party_eqb (TicTacToe.turn i) seat) then Ok None
  else
    let! c := pickCell i seat difficulty fastSeed in
    Ok (Some {| TicTacToe.cell := JsInt c; TicTacToe.salt := slt |}).

(** [src frontend/src/agent/games/ticTacToe/kit.ts TicTacToeBot] *)
Definition TicTacToeBot (seat : Party) : GameBot Z (SeriesState TicTacToeState) TicTacToeMove :=
  {| plan := fun fastSeed _ state => let! m := ttt_plan seat fastSeed state in Ok (fastSeed, m);
     confirm := fun fastSeed _ _ => fastSeed |}.

(** [src frontend/src/agent/games/ticTacToe/kit.ts createTicTacToeKit] *)
Definition createTicTacToeKit : GameKit Z (SeriesState TicTacToeState) TicTacToeMove :=
  let protocol := Ttt.MultiGameTicTacToeProtocol stake maxGames in
  {| kit_id := "tictactoe"; kit_protocol := protocol; stateHash := defaultStateHash protocol; kit_bot := TicTacToeBot |}.
End WithCrypto.

(** * The cells it picks *)

Lemma kit_empties_elem b c : length b = 9%nat -> c ∈ kit_empties b <-> 0 <= c <= 8 /\ b !!! Z.to_nat c = 0.
Proof.
  intros Hl. unfold kit_empties, at_. rewrite list_elem_of_In, filter_In, <- list_elem_of_In, elem_of_seqZ, Z.eqb_eq, Hl.
  rewrite nth_lookup. split.
  - intros [Hc H]. split; [lia|]. destruct (lookup_lt_is_Some_2 b (Z.to_nat c) ltac:(lia)) as [x Hx]. rewrite Hx in H. cbn in H.
    by rewrite (list_lookup_total_correct _ _ _ Hx).
  - intros [Hc H]. split; [lia|]. destruct (lookup_lt_is_Some_2 b (Z.to_nat c) ltac:(lia)) as [x Hx]. rewrite Hx. cbn.
    by rewrite (list_lookup_total_correct _ _ _ Hx) in H.
Qed.

Lemma at_total b c : length b = 9%nat -> 0 <= c <= 8 -> at_ b c = b !!! Z.to_nat c.
Proof.
  intros Hl Hc. unfold at_. rewrite nth_lookup. destruct (lookup_lt_is_Some_2 b (Z.to_nat c) ltac:(lia)) as [x Hx]. rewrite Hx. cbn.
  by rewrite (list_lookup_total_correct _ _ _ Hx).
Qed.

Lemma findFinish_empty b who c : length b = 9%nat -> findFinish b who = Some c -> c ∈ kit_empties b.
Proof.
  intros Hl H. unfold findFinish in H. apply head_Some_elem_of, list_elem_of_omap in H as (line & Hline & H).
  destruct (List.find _ line) as [e|] eqn:Ef; [|done]. case_match; [|done]. injection H as <-.
  apply List.find_some in Ef as [Hin He]. apply Z.eqb_eq in He.
  assert (Hr : 0 <= e <= 8).
  { assert (Hall : Forall (Forall (fun i => 0 <= i <= 8)) KIT_LINES) by (apply (bool_decide_unpack _); vm_compute; exact I).
    rewrite Forall_forall in Hall. specialize (Hall _ Hline). rewrite Forall_forall in Hall. by apply Hall, list_elem_of_In. }
  apply kit_empties_elem; [done|]. split; [done|]. by rewrite <- at_total.
Qed.

Lemma nth_empties b k : kit_empties b <> [] -> 0 <= k < Z.of_nat (length (kit_empties b)) -> nth (Z.to_nat k) (kit_empties b) 0 ∈ kit_empties b.
Proof. intros _ Hk. apply list_elem_of_In, nth_In. lia. Qed.

Lemma fastIndex_range seed bs n : 0 < n -> 0 <= fastIndex seed bs n < n.
Proof. intros Hn. apply Z.mod_pos_bound, Hn. Qed.

Lemma relabel_lookup mark b m : length b = 9%nat -> mark <> 0 -> (m < 9)%nat ->
  nth m (relabel mark b) (-1) = 0 <-> b !!! m = 0.
Proof.
  intros Hl Hm Hlt. unfold relabel. rewrite nth_lookup, list_lookup_fmap. destruct (lookup_lt_is_Some_2 b m ltac:(lia)) as [x Hx].
  rewrite Hx, (list_lookup_total_correct _ _ _ Hx). cbn. unfold CELL_EMPTY, CELL_SERVER, CELL_PLAYER.
  destruct (Z.eqb_spec x 0) as [->|]; [done|]. destruct (x =? mark); lia.
Qed.

Lemma relabel_legal mark b m : length b = 9%nat -> mark <> 0 -> m ∈ legalMoves (relabel mark b) <-> Z.of_nat m ∈ kit_empties b.
Proof.
  intros Hl Hm. rewrite legal_elem, kit_empties_elem, Nat2Z.id by done. split; intros [H1 H2].
  - split; [lia|]. by apply (relabel_lookup mark).
  - split; [lia|]. apply relabel_lookup; try done; lia.
Qed.

Definition is_optimal (mark : Z) (b : list Z) (c : Z) : Prop := Z.to_nat c ∈ optimalMoves (relabel mark b) CELL_SERVER.

(** The picked cell is empty, and optimal for a seat that plays perfectly. *)
Lemma pickCell_empty s p diff seed :
  length (TicTacToe.board s) = 9%nat -> kit_empties (TicTacToe.board s) <> [] -> (exists e, TicTacToe.encodeState s = Ok e) ->
  exists c, pickCell s p diff seed = Ok c /\ c ∈ kit_empties (TicTacToe.board s) /\
    (plays_perfect diff p = true -> is_optimal (TicTacToe.mark_of p) (TicTacToe.board s) c).
Proof.
  intros Hl Hne [e He]. unfold pickCell, heuristicCell. cbv zeta. set (free := kit_empties (TicTacToe.board s)) in *.
  assert (Hlen : 0 < Z.of_nat (length free)) by (destruct (nil_or_length_pos free); [done|lia]).
  rewrite (proj2 (Nat.eqb_neq _ _)) by lia. rewrite He. cbn [rbind].
  pose proof (nth_empties _ _ Hne (fastIndex_range seed e _ Hlen)) as Hfast.
  set (mark := match p with PartyA => 1 | PartyB => 2 end). assert (Hmark : mark = TicTacToe.mark_of p) by (by destruct p).
  assert (Hheur : exists c, (match findFinish (TicTacToe.board s) mark, findFinish (TicTacToe.board s) (if mark =? 1 then 2 else 1) with
    | Some win, _ => Ok win | None, Some block => Ok block
    | None, None => Ok (nth (Z.to_nat (fastIndex seed e (Z.of_nat (length free)))) free 0) end) = Ok c /\ c ∈ free).
  { destruct (findFinish _ mark) as [w|] eqn:E1; [exists w; split; [done|]; by eapply findFinish_empty|].
    destruct (findFinish _ (if mark =? 1 then 2 else 1)) as [w|] eqn:E2; [exists w; split; [done|]; by eapply findFinish_empty|]. eauto. }
  assert (Hperf : exists c, (match optimalMoves (relabel mark (TicTacToe.board s)) CELL_SERVER with
    | m :: _ => Ok (Z.of_nat m) | [] => Ok (nth 0 free 0) end) = Ok c /\ c ∈ free /\ is_optimal mark (TicTacToe.board s) c).
  { assert (Hm0 : mark <> 0) by (by destruct p). assert (Hleg : legalMoves (relabel mark (TicTacToe.board s)) <> []).
    { destruct free as [|c l] eqn:Ef; [done|]. intros E. apply (not_elem_of_nil (Z.to_nat c)). rewrite <- E. apply relabel_legal; [done..|].
      assert (Hc : c ∈ kit_empties (TicTacToe.board s)) by (fold free; rewrite Ef; left). pose proof (proj1 (kit_empties_elem _ _ Hl) Hc). by rewrite Z2Nat.id by lia. }
    apply optimal_nonempty with (p := CELL_SERVER) in Hleg. unfold is_optimal.
    destruct (optimalMoves (relabel mark (TicTacToe.board s)) CELL_SERVER) as [|m l] eqn:Eo; [done|]. exists (Z.of_nat m). split; [done|].
    rewrite Nat2Z.id. split; [|left]. apply (relabel_legal mark); [done..|].
    assert (Hin : m ∈ optimalMoves (relabel mark (TicTacToe.board s)) CELL_SERVER) by (rewrite Eo; left). by apply optimal_spec in Hin as [? _]. }
  rewrite <- Hmark. clearbody mark. destruct diff, p; cbn [plays_perfect negb];
    first [destruct Hperf as (c & -> & ? & ?); exists c; by split_and! | destruct Hheur as (c & -> & ?); exists c; by split_and!
          | eexists; split_and!; [done|exact Hfast|done]].
Qed.

(** * The encoding of a game *)

Section Encoding.
Context `{C : Crypto} `{!CryptoLaws C}.

Lemma ttt_encoding first a b st s :
  0 <= a -> 0 <= b -> a + b <= U64_MAX -> TicTacToe.wf first a b st s ->
  exists rest, TicTacToe.encodeState s = Ok (TicTacToe.DOMAIN ++ TicTacToe.board s ++ TicTacToe.movesCount s :: rest) /\
    bytes_ok (TicTacToe.DOMAIN ++ TicTacToe.board s ++ TicTacToe.movesCount s :: rest) /\ length rest = 58%nat.
Proof.
  intros Ha Hb Hab Hwf. pose proof (wf_full _ _ _ _ _ Hwf) as Hmc. destruct Hwf as [Hl Hc _ _ _ _ Hw (Hst & Hs1 & Hs2) HA HB _ [pre Hacc]].
  assert (Hw3 : 0 <= TicTacToe.winner s <= 3).
  { rewrite Hw. destruct (checkWinner_find (TicTacToe.board s) (TicTacToe.movesCount s) _ eq_refl) as [[_ ->]|(x & y & z & Hin & _ & -> & _)]; [case_match; lia|].
    rewrite Forall_forall in Hc. assert (Hx : (x < 9)%nat).
    { assert (Hall : Forall (fun l : nat * nat * nat => (l.1.1 < 9)%nat) LINES) by (apply (bool_decide_unpack _); vm_compute; exact I).
      rewrite Forall_forall in Hall. apply (Hall (x, y, z)). by apply list_elem_of_In. }
    destruct (lookup_lt_is_Some_2 (TicTacToe.board s) x ltac:(lia)) as [v Hv]. rewrite (list_lookup_total_correct _ _ _ Hv).
    apply list_elem_of_lookup_2, Hc in Hv. lia. }
  assert (Hok : bytes_ok [TicTacToe.movesCount s; TicTacToe.winner s; match TicTacToe.turn s with PartyA => 0 | PartyB => 1 end]).
  { unfold bytes_ok. rewrite !Forall_cons. unfold is_byte. split_and!; try lia; [case_match; lia|case_match; lia|constructor]. }
  assert (Hcell : bytes_ok (TicTacToe.board s)) by (eapply Forall_impl; [exact Hc|]; unfold is_byte; lia).
  assert (Hsh : - st <= TicTacToe.shift_of (TicTacToe.winner s) st <= st) by (unfold TicTacToe.shift_of; repeat case_match; lia).
  unfold TicTacToe.encodeState. rewrite !u8_from_id by done. rewrite HA, HB, Hst.
  rewrite !u64ToBeBytes_total by (unfold u64_range; lia). cbn [rbind]. rewrite concatBytes_concat. cbn [concat].
  eexists. split; [reflexivity|]. rewrite app_nil_r. split.
  - rewrite !bytes_ok_app. split; [apply protocolDomain_ok|]. split; [done|]. change (?x :: ?y :: ?z :: ?l) with ([x; y; z] ++ l).
    rewrite !bytes_ok_app. split; [done|]. rewrite Hacc. split_and!; try apply be_bytes_ok. apply blake2b_bytes.
  - cbn [app length]. rewrite !length_app, !length_be_bytes, Hacc, blake2b_length. done.
Qed.

Lemma ttt_encoding_moves first first' a b a' b' st st' s s' e :
  0 <= a -> 0 <= b -> a + b <= U64_MAX -> 0 <= a' -> 0 <= b' -> a' + b' <= U64_MAX ->
  TicTacToe.wf first a b st s -> TicTacToe.wf first' a' b' st' s' ->
  TicTacToe.encodeState s = Ok e -> TicTacToe.encodeState s' = Ok e -> TicTacToe.movesCount s = TicTacToe.movesCount s'.
Proof.
  intros H1 H2 H3 H1' H2' H3' Hwf Hwf' E E'.
  destruct (ttt_encoding _ _ _ _ _ H1 H2 H3 Hwf) as (r & Er & _ & _). destruct (ttt_encoding _ _ _ _ _ H1' H2' H3' Hwf') as (r' & Er' & _ & _).
  rewrite Er in E. rewrite Er' in E'. apply Ok_inj in E as <-. apply Ok_inj in E' as E. apply app_inv_head in E.
  apply app_inj_length in E as [_ E]; [by injection E|]. by rewrite (wf_board _ _ _ _ _ Hwf), (wf_board _ _ _ _ _ Hwf').
Qed.
End Encoding.

(** * The board as the perfect player sees it *)

Lemma find_ext {A} (f g : A -> bool) l : (forall x, In x l -> f x = g x) -> List.find f l = List.find g l.
Proof. intros H. induction l as [|x l IH]; [done|]. cbn. rewrite (H x) by (by left). destruct (g x); [done|]. apply IH. intros y Hy. apply H. by right. Qed.

Definition seen (mark v : Z) : Z := if v =? 0 then CELL_EMPTY else if v =? mark then CELL_SERVER else CELL_PLAYER.

Lemma relabel_nth mark b i : length b = 9%nat -> (i < 9)%nat -> nth i (relabel mark b) (-1) = seen mark (b !!! i).
Proof.
  intros Hl Hi. unfold relabel. rewrite nth_lookup, list_lookup_fmap. destruct (lookup_lt_is_Some_2 b i ltac:(lia)) as [x Hx].
  by rewrite Hx, (list_lookup_total_correct _ _ _ Hx).
Qed.

Lemma relabel_insert mark b i v : relabel mark (<[i := v]> b) = <[i := seen mark v]> (relabel mark b).
Proof. unfold relabel. apply list_fmap_insert. Qed.

Section Seen.
Context (p : Party) (b : list Z) (Hl : length b = 9%nat) (Hc : Forall (fun v => v = 0 \/ v = 1 \/ v = 2) b).
Notation mark := (TicTacToe.mark_of p).

Lemma cell_value i : (i < 9)%nat -> b !!! i = 0 \/ b !!! i = 1 \/ b !!! i = 2.
Proof using Hl Hc.
  intros Hi. destruct (lookup_lt_is_Some_2 b i ltac:(lia)) as [x Hx]. rewrite (list_lookup_total_correct _ _ _ Hx).
  rewrite Forall_forall in Hc. by eapply Hc, list_elem_of_lookup_2.
Qed.

Lemma seen_line l : In l LINES -> line_of (relabel mark b) l = line_won b l.
Proof using Hl Hc.
  intros Hin. assert (Hlt : (l.1.1 < 9)%nat /\ (l.1.2 < 9)%nat /\ (l.2 < 9)%nat).
  { assert (Hall : Forall (fun l : nat * nat * nat => (l.1.1 < 9)%nat /\ (l.1.2 < 9)%nat /\ (l.2 < 9)%nat) LINES) by (apply (bool_decide_unpack _); vm_compute; exact I).
    rewrite Forall_forall in Hall. by apply Hall, list_elem_of_In. }
  destruct l as [[x y] z]. cbn [fst snd] in Hlt. destruct Hlt as (Hx & Hy & Hz). unfold line_of, line_won. rewrite !relabel_nth by done.
  destruct (cell_value x Hx) as [->|[->| ->]], (cell_value y Hy) as [->|[->| ->]], (cell_value z Hz) as [->|[->| ->]]; by destruct p.
Qed.

Lemma seen_winner : winner (relabel mark b) = match List.find (line_won b) LINES with Some (x, _, _) => seen mark (b !!! x) | None => 0 end.
Proof using Hl Hc.
  unfold winner. change WIN_LINES with LINES. rewrite (find_ext _ (line_won b)) by apply seen_line.
  destruct (List.find (line_won b) LINES) as [[[x y] z]|] eqn:E; [|done]. apply relabel_nth; [done|].
  apply List.find_some in E as [Hin _].
  assert (Hall : Forall (fun l : nat * nat * nat => (l.1.1 < 9)%nat) LINES) by (apply (bool_decide_unpack _); vm_compute; exact I).
  rewrite Forall_forall in Hall. apply (Hall (x, y, z)). by apply list_elem_of_In.
Qed.

Lemma seen_open mc : checkWinner b mc = 0 -> winner (relabel mark b) = 0.
Proof using Hl Hc. intros [H _]%checkWinner_0_none. by rewrite seen_winner, H. Qed.

Lemma seen_lost mc : checkWinner b mc = TicTacToe.mark_of (otherParty p) -> winner (relabel mark b) = CELL_PLAYER.
Proof using Hl Hc.
  unfold checkWinner. rewrite seen_winner. destruct (List.find (line_won b) LINES) as [[[x y] z]|]; intros E.
  - rewrite E. by destruct p.
  - exfalso. destruct (mc =? 9), p; discriminate E.
Qed.
End Seen.

(** The side of the board [p] sees to move. *)
Definition who (p t : Party) : Z := if party_eqb t p then CELL_SERVER else CELL_PLAYER.

(** One more move, in the eyes of a perfect player [p]. *)
Lemma perfect_step p t b mc c : length b = 9%nat -> Forall (fun v => v = 0 \/ v = 1 \/ v = 2) b -> checkWinner b mc = 0 ->
  c ∈ kit_empties b -> (p = t -> is_optimal (TicTacToe.mark_of p) b c) ->
  perfect_play CELL_SERVER (relabel (TicTacToe.mark_of p) b) (who p t) ->
  perfect_play CELL_SERVER (relabel (TicTacToe.mark_of p) (<[Z.to_nat c := TicTacToe.mark_of t]> b)) (who p (otherParty t)).
Proof.
  intros Hl Hc Hw Hin Hopt Hp. rewrite relabel_insert. pose proof (seen_open p b Hl Hc mc Hw) as Hw0.
  assert (Hleg : Z.to_nat c ∈ legalMoves (relabel (TicTacToe.mark_of p) b)).
  { apply relabel_legal; [done|by destruct p|]. pose proof (proj1 (kit_empties_elem _ _ Hl) Hin). by rewrite Z2Nat.id by lia. }
  destruct p, t; cbn [who party_eqb otherParty] in *.
  - by apply (pp_me CELL_SERVER), Hopt.
  - by apply (pp_other CELL_SERVER).
  - by apply (pp_other CELL_SERVER).
  - by apply (pp_me CELL_SERVER), Hopt.
Qed.

(** * The kit *)

Section Kit.
Context `{C : Crypto} `{!CryptoLaws C} (limit stk : Z) (diff : TicTacToeDifficulty) (bal0 : Balances).
Context (Hlim : 1 <= limit <= U64_MAX) (Hstk : 0 <= stk) (Hlock : lockable bal0).
Notation a0 := (bal_a bal0).
Notation b0 := (bal_b bal0).
Notation kit := (createTicTacToeKit limit stk diff).
#[local] Instance ttt_is_staked : StakedLaws (Ttt.staked stk) stk 9 Ttt.ok := Ttt.ttt_staked stk Hstk.

(** A seat that plays perfectly has lost nothing, and its board is one of perfect play. *)
Definition unbeaten (s : SeriesState TicTacToeState) (a b : Z) (p : Party) : Prop :=
  match p with PartyA => a0 <= a | PartyB => b0 <= b end /\
  perfect_play CELL_SERVER (relabel (TicTacToe.mark_of p) (TicTacToe.board (inner s))) (who p (TicTacToe.turn (inner s))).

Definition kit_ok (s : SeriesState TicTacToeState) (_ _ : Z) : Prop :=
  exists n a b k, series_at stk 9 Ttt.ok limit a0 b0 n s a b k /\ forall p, plays_perfect diff p = true -> unbeaten s a b p.

(** The moves that are left: ten for each game that is not begun. *)
Definition moves_left (s : SeriesState TicTacToeState) : nat := Z.to_nat ((limit - gamesPlayed s) * 10 - TicTacToe.movesCount (inner s)).

Lemma sums_locked n s a b k : series_at stk 9 Ttt.ok limit a0 b0 n s a b k -> 0 <= a /\ 0 <= b /\ a + b <= U64_MAX.
Proof using Hlock. intros [_ _ _ Ha Hb Hs _ _]. destruct Hlock as (_ & _ & H). unfold sum_of in H. lia. Qed.

Lemma series_encodes n s a b k : series_at stk 9 Ttt.ok limit a0 b0 n s a b k ->
  exists i e, TicTacToe.encodeState (inner s) = Ok i /\ Protocol.encodeState (Ttt.MultiGameTicTacToeProtocol stk limit) s = Ok e /\ bytes_ok e.
Proof using All.
  intros Hs. destruct (sums_locked _ _ _ _ _ Hs) as (Ha & Hb & Hab). destruct Hs as [_ Hg [Hwf _] _ _ _ _ _].
  destruct (ttt_encoding _ _ _ _ _ Ha Hb Hab Hwf) as (rest & Ei & Hi & Hr). set (i := TicTacToe.DOMAIN ++ _) in *.
  assert (Hlen : length i = (length TicTacToe.DOMAIN + 68)%nat).
  { unfold i. rewrite !length_app, (wf_board _ _ _ _ _ Hwf). cbn [length]. lia. }
  assert (Hri : lp_range i) by (unfold lp_range; rewrite Hlen; apply (bool_decide_unpack _); vm_compute; exact I).
  exists i. eexists. split; [done|]. split.
  - apply series_encoding. exists i. split_and!; [exact Ei|done| |reflexivity]. unfold u64_range. lia.
  - unfold lp. rewrite !bytes_ok_app. split_and!; try done; try apply be_bytes_ok. apply protocolDomain_ok.
Qed.

Lemma same_hash s s' e e' :
  Protocol.encodeState (Ttt.MultiGameTicTacToeProtocol stk limit) s = Ok e -> bytes_ok e ->
  Protocol.encodeState (Ttt.MultiGameTicTacToeProtocol stk limit) s' = Ok e' -> bytes_ok e' ->
  stateHash kit s' = stateHash kit s -> e = e'.
Proof using Type.
  intros E He E' He' H. cbn [stateHash createTicTacToeKit] in H. unfold defaultStateHash in H. rewrite E, E' in H. cbn [rbind] in H.
  apply Ok_inj in H. by apply nibbles_inj.
Qed.

(** A kept promise: the state after a planned move. *)
Definition advances (s s' : SeriesState TicTacToeState) : Prop :=
  kit_ok s' 0 0 /\ stateHash kit s' <> stateHash kit s.

Lemma not_lost n s a b k p : series_at stk 9 Ttt.ok limit a0 b0 n s a b k -> unbeaten s a b p ->
  match p with PartyA => a0 <= TicTacToe.balanceA (inner s) | PartyB => b0 <= TicTacToe.balanceB (inner s) end.
Proof using Type.
  intros Hs [Hge Hp]. destruct Hs as [_ _ [Hwf _] _ _ _ _ _].
  assert (Hw : TicTacToe.winner (inner s) <> TicTacToe.mark_of (otherParty p)).
  { intros E. rewrite (wf_winner _ _ _ _ _ Hwf) in E. apply (seen_lost p _ (wf_board _ _ _ _ _ Hwf) (wf_cells _ _ _ _ _ Hwf)) in E.
    by apply (perfect_never_loses CELL_SERVER _ _ (or_intror eq_refl) Hp). }
  destruct (wf_stake _ _ _ _ _ Hwf) as (_ & Hst & _). pose proof (wf_balA _ _ _ _ _ Hwf) as HA. pose proof (wf_balB _ _ _ _ _ Hwf) as HB.
  unfold TicTacToe.shift_of in *. destruct p; cbn in Hw; unfold MARK_A, MARK_B in Hw; rewrite ?HA, ?HB; repeat case_match; lia.
Qed.

(** A move within a game. *)
Lemma game_advances n s a b k p c slt :
  series_at stk 9 Ttt.ok limit a0 b0 n s a b k -> (forall q, plays_perfect diff q = true -> unbeaten s a b q) ->
  TicTacToe.isTerminal (inner s) = false -> p = TicTacToe.turn (inner s) -> c ∈ kit_empties (TicTacToe.board (inner s)) ->
  (plays_perfect diff p = true -> is_optimal (TicTacToe.mark_of p) (TicTacToe.board (inner s)) c) ->
  length slt = 16%nat ->
  exists s', Protocol.applyMove (Ttt.MultiGameTicTacToeProtocol stk limit) s {| TicTacToe.cell := JsInt c; TicTacToe.salt := Some slt |} p = Ok s' /\
    advances s s'.
Proof using All.
  intros Hs Hun Ht Hp Hin Hopt Hslt. pose proof Hs as [_ Hg [Hwf Hk] _ _ _ _ _].
  pose proof (wf_board _ _ _ _ _ Hwf) as Hl. destruct (proj1 (kit_empties_elem _ _ Hl) Hin) as [Hc H0].
  assert (Hw : TicTacToe.winner (inner s) = 0) by (unfold TicTacToe.isTerminal in Ht; by bool_to_prop).
  assert (Hacc : is_ok (TicTacToe.applyMove (inner s) {| TicTacToe.cell := JsInt c; TicTacToe.salt := Some slt |} p) = true).
  { subst p. eapply ttt_accepts; try done; rewrite Hslt; [unfold MIN_SALT_LEN; lia|apply (bool_decide_unpack _); vm_compute; exact I]. }
  apply is_ok_exists in Hacc as [i Ei]. set (s' := {| inner := i; gamesPlayed := gamesPlayed s; Series.maxGames := Series.maxGames s |}).
  assert (E : Protocol.applyMove (Ttt.MultiGameTicTacToeProtocol stk limit) s {| TicTacToe.cell := JsInt c; TicTacToe.salt := Some slt |} p = Ok s').
  { cbn -[TicTacToe.applyMove]. unfold Series.applyMove. cbn -[TicTacToe.applyMove]. rewrite Ht. cbn [negb]. by rewrite Ei. }
  exists s'. split; [exact E|]. assert (Hl0 : lockable {| bal_a := a0; bal_b := b0 |}) by (by destruct bal0).
  destruct (series_step_at (Ttt.staked stk) stk 9 Ttt.ok _ limit Hstk a0 b0 n s a b k _ p s' Hl0 Hs E) as [(_ & _ & _ & Hs')|(Ht' & _)]; [|cbn in Ht'; congruence].
  apply ttt_apply_inv in Ei as (c' & slt' & pre & [= <-] & _ & _ & _ & _ & _ & _ & Ei).
  assert (Hmc : TicTacToe.movesCount i = TicTacToe.movesCount (inner s) + 1) by (by rewrite Ei).
  pose proof Hs' as [_ _ [Hwf' _] _ _ _ _ _]. split.
  - exists (n + 1), a, b, (k + 1). split; [done|]. intros q Hq. destruct (Hun q Hq) as [Hge Hpp]. split; [done|].
    cbn [inner s']. rewrite Ei. cbn [TicTacToe.board TicTacToe.turn]. eapply (perfect_step q p _ (TicTacToe.movesCount (inner s))); try done.
    + apply (wf_cells _ _ _ _ _ Hwf).
    + rewrite <- (wf_winner _ _ _ _ _ Hwf). done.
    + intros ->. by apply Hopt.
    + by rewrite Hp.
  - destruct (series_encodes _ _ _ _ _ Hs) as (x & e & Ex & Ee & He). destruct (series_encodes _ _ _ _ _ Hs') as (x' & e' & Ex' & Ee' & He').
    intros H. pose proof (same_hash _ _ _ _ Ee He Ee' He' H) as <-.
    destruct (series_encoding_inj _ _ _ _ _ _ _ Ee Ee' Ex Ex') as [<- _].
    destruct (sums_locked _ _ _ _ _ Hs) as (Ha & Hb & Hab).
    pose proof (ttt_encoding_moves _ _ _ _ _ _ _ _ _ _ _ Ha Hb Hab Ha Hb Hab Hwf Hwf' Ex Ex') as Hm. cbn [inner s'] in Hm. lia.
Qed.

(** The move that opens the next game. *)
Lemma next_advances n s a b k m p :
  series_at stk 9 Ttt.ok limit a0 b0 n s a b k -> (forall q, plays_perfect diff q = true -> unbeaten s a b q) ->
  TicTacToe.isTerminal (inner s) = true -> Series.isTerminal (Ttt.staked stk) s = false ->
  exists s', Protocol.applyMove (Ttt.MultiGameTicTacToeProtocol stk limit) s m p = Ok s' /\ advances s s'.
Proof using All.
  intros Hs Hun Ht Hter. assert (Hl0 : lockable {| bal_a := a0; bal_b := b0 |}) by (by destruct bal0).
  pose proof (series_live (Ttt.staked stk) stk 9 Ttt.ok "session over: no more games can be played" limit a0 b0 n s (ex_intro _ a (ex_intro _ b (ex_intro _ k Hs))) Hter) as Hlive.
  change (Protocol.isTerminal (Ttt.staked stk) (inner s)) with (TicTacToe.isTerminal (inner s)) in Hlive. rewrite Ht in Hlive.
  destruct (proj1 (is_ok_exists _) (Hlive m p)) as [s' E]. exists s'. split; [exact E|].
  destruct (series_step_at (Ttt.staked stk) stk 9 Ttt.ok _ limit Hstk a0 b0 n s a b k m p s' Hl0 Hs E) as [(Ht' & _)|(_ & Hg & Hs' & ctx & i & Ei & Hi)]; [cbn in Ht'; congruence|].
  split.
  - exists (n + 1), (bal_a (Series.balances (Ttt.staked stk) s)), (bal_b (Series.balances (Ttt.staked stk) s)), 0. split; [done|]. intros q Hq. split.
    + pose proof (not_lost _ _ _ _ _ q Hs (Hun q Hq)). by destruct q.
    + rewrite Hi. cbn in Ei. unfold TicTacToe.initialState in Ei. apply rbind_ok in Ei as (acc & _ & Ei). apply Ok_inj in Ei as <-.
      cbn [Series.with_turn Ttt.staked TicTacToe.with_turn TicTacToe.board TicTacToe.turn]. apply (pp_start CELL_SERVER).
      unfold who. destruct (party_eqb _ _); [by left|by right].
  - destruct (series_encodes _ _ _ _ _ Hs) as (x & e & Ex & Ee & He). destruct (series_encodes _ _ _ _ _ Hs') as (x' & e' & Ex' & Ee' & He').
    intros H. pose proof (same_hash _ _ _ _ Ee He Ee' He' H) as <-.
    destruct (series_encoding_inj _ _ _ _ _ _ _ Ee Ee' Ex Ex') as [_ Hgp]. lia.
Qed.

Lemma salt_length seed bs : length (deterministicSalt seed bs) = 16%nat.
Proof. unfold deterministicSalt. by rewrite !length_app, !length_be_bytes. Qed.

(** What a bot plans: a move that is kept, or nothing when it is the other's turn. *)
Lemma ttt_plan_spec s x y p seed : kit_ok s x y ->
  exists mo, ttt_plan limit stk diff p seed s = Ok mo /\
    match mo with
    | Some m => exists s', Protocol.applyMove (Ttt.MultiGameTicTacToeProtocol stk limit) s m p = Ok s' /\ advances s s'
    | None => if TicTacToe.isTerminal (inner s) then Series.isTerminal (Ttt.staked stk) s = true \/ p = PartyB
              else p <> TicTacToe.turn (inner s)
    end.
Proof using All.
  intros (n & a & b & k & Hs & Hun). destruct (series_encodes _ _ _ _ _ Hs) as (i & e & Ei & Ee & _).
  unfold ttt_plan. rewrite Ee. cbn [rbind]. destruct (TicTacToe.isTerminal (inner s)) eqn:Et.
  - destruct (Series.isTerminal (Ttt.staked stk) s) eqn:Es; cbn [negb andb]; [eexists; split; [done|]; by left|].
    destruct (party_eqb p PartyA) eqn:Ep; eexists; (split; [done|]).
    + by eapply next_advances.
    + right. by destruct p.
  - destruct (party_eqb (TicTacToe.turn (inner s)) p) eqn:Ep; cbn [negb]; [|eexists; split; [done|]; intros ->; by rewrite party_eqb_refl in Ep].
    apply party_eqb_spec in Ep. pose proof Hs as [_ _ [Hwf _] _ _ _ _ _].
    assert (Hne : kit_empties (TicTacToe.board (inner s)) <> []).
    { assert (Hw : TicTacToe.winner (inner s) = 0) by (unfold TicTacToe.isTerminal in Et; by bool_to_prop).
      pose proof (wf_winner _ _ _ _ _ Hwf) as Hcw. rewrite Hw in Hcw. destruct (checkWinner_0_none _ _ (eq_sym Hcw)) as [_ Hm].
      pose proof (wf_count _ _ _ _ _ Hwf) as Hc. pose proof (wf_full _ _ _ _ _ Hwf) as Hfull.
      destruct (empty_cell (TicTacToe.board (inner s)) (wf_board _ _ _ _ _ Hwf) ltac:(lia)) as (c & Hc1 & Hc2).
      intros E. apply (not_elem_of_nil c). rewrite <- E. apply kit_empties_elem; [apply (wf_board _ _ _ _ _ Hwf)|done]. }
    destruct (pickCell_empty (inner s) p diff seed (wf_board _ _ _ _ _ Hwf) Hne (ex_intro _ i Ei)) as (c & -> & Hin & Hopt). cbn [rbind].
    eexists. split; [done|]. eapply game_advances; try done.
Qed.

Lemma ttt_kit_laws : KitLaws kit (fun _ => True) kit_ok.
Proof using All.
  split.
  - intros s x y (n & a & b & k & Hs & _). destruct (series_encodes _ _ _ _ _ Hs) as (i & e & _ & Ee & _).
    cbn [stateHash createTicTacToeKit]. unfold defaultStateHash. rewrite Ee. by eexists.
  - intros s x y p rng _ Hok. destruct (ttt_plan_spec s x y p (match p with PartyA => x | PartyB => y end) Hok) as (mo & Hp & Hmo).
    exists (match p with PartyA => x | PartyB => y end), mo. cbn [kit_bot createTicTacToeKit TicTacToeBot plan confirm kit_protocol].
    rewrite Hp. cbn [rbind]. split; [done|]. destruct mo as [m|]; [|by destruct p].
    destruct Hmo as (s' & E & Hok' & Hne). exists s'. split_and!; try done.
  - intros s x y Hok Ht. cbn [kit_protocol createTicTacToeKit] in Ht. change (Series.isTerminal (Ttt.staked stk) s = false) in Ht.
    exists (if TicTacToe.isTerminal (inner s) then PartyA else TicTacToe.turn (inner s)). intros x' y' rng z _ Hok'.
    set (p := if TicTacToe.isTerminal (inner s) then PartyA else TicTacToe.turn (inner s)).
    destruct (ttt_plan_spec s x' y' p (match p with PartyA => x' | PartyB => y' end) Hok') as (mo & Hp & Hmo).
    cbn [kit_bot createTicTacToeKit TicTacToeBot plan]. rewrite Hp. cbn [rbind]. destruct mo as [m|]; [done|].
    unfold p in Hmo. destruct (TicTacToe.isTerminal (inner s)); [destruct Hmo; congruence|done].
Qed.

Lemma ttt_kit_ends : KitEnds kit (fun _ => True) kit_ok moves_left.
Proof using All.
  intros s x y p rng z m s' _ (n & a & b & k & Hs & _) _ E. assert (Hl0 : lockable {| bal_a := a0; bal_b := b0 |}) by (by destruct bal0).
  pose proof Hs as [_ Hg [Hwf Hk] _ _ _ _ _]. pose proof (wf_full _ _ _ _ _ Hwf) as Hfull. unfold moves_left.
  destruct (series_step_at (Ttt.staked stk) stk 9 Ttt.ok _ limit Hstk a0 b0 n s a b k m p s' Hl0 Hs E) as [(_ & _ & -> & Hs')|(_ & -> & Hs' & _)];
    destruct Hs' as [_ Hg' [Hwf' Hk'] _ _ _ _ _]; pose proof (wf_full _ _ _ _ _ Hwf'); lia.
Qed.
End Kit.

(** The bots of the arena play a series to its end, and the perfect ones lose nothing.
    Whatever the difficulty, the seeds and the deposits, the harness that lets two bots of the
    kit play never finds a rejected move, a move without effect or a round without a
    move: it returns a series that is over, after at most ten moves per game.  A seat that
    plays by minimax has at least its deposit then, so that two of them keep their deposits. *)
Theorem ttt_bots_complete `{C : Crypto} `{!CryptoLaws C} limit stk diff ctx draws seedA seedB :
  1 <= limit <= 999 -> 0 <= stk -> lockable (initialBalances ctx) ->
  exists d, driveToTerminal (createTicTacToeKit limit stk diff) draws seedA seedB ctx = Ok d /\
    let s := d_state d in
    Series.isTerminal (Ttt.staked stk) s = true /\
    (exists s0, Series.initialState (Ttt.staked stk) limit ctx = Ok s0 /\
       run (Ttt.MultiGameTicTacToeProtocol stk limit) s0 (d_moves d) = Ok s) /\
    Z.of_nat (length (d_moves d)) <= 10 * limit /\
    (plays_perfect diff PartyA = true -> bal_a (initialBalances ctx) <= TicTacToe.balanceA (inner s)) /\
    (plays_perfect diff PartyB = true -> bal_b (initialBalances ctx) <= TicTacToe.balanceB (inner s)) /\
    (diff = perfect -> Series.balances (Ttt.staked stk) s = initialBalances ctx).
Proof.
  intros Hlim Hstk Hlock. assert (Hlim' : 1 <= limit <= U64_MAX) by (rewrite U64_MAX_eq; lia).
  pose proof (Ttt.ttt_staked stk Hstk) as Hlaws. destruct (sg_opens (G := Ttt.staked stk) ctx) as [i Ei].
  assert (E0 : Series.initialState (Ttt.staked stk) limit ctx = Ok {| inner := with_turn (Ttt.staked stk) i (seriesOpener 0); gamesPlayed := 0; Series.maxGames := limit |}).
  { unfold Series.initialState. by rewrite Ei. }
  set (s0 := {| inner := _ |}) in E0.
  pose proof (series_initial (Ttt.staked stk) stk 9 Ttt.ok limit ltac:(lia) _ _ ctx s0 Hlock eq_refl eq_refl E0) as Hs0.
  assert (Hok : kit_ok limit stk diff (initialBalances ctx) s0 seedA seedB).
  { do 4 eexists. split; [exact Hs0|]. intros p _. split; [by destruct p|]. cbn in Ei. unfold TicTacToe.initialState in Ei.
    apply rbind_ok in Ei as (acc & _ & Ei). apply Ok_inj in Ei as <-. cbn -[relabel]. apply (pp_start CELL_SERVER). by destruct p; [left|right]. }
  assert (Hm0 : TicTacToe.movesCount (inner s0) = 0) by apply (sr_game _ _ _ _ _ _ _ _ _ _ _ Hs0).
  assert (Hleft : moves_left limit s0 = Z.to_nat (limit * 10)) by (unfold moves_left; rewrite Hm0; cbn [gamesPlayed s0]; f_equal; lia).
  pose proof (ttt_kit_laws limit stk diff (initialBalances ctx) Hlim' Hstk Hlock) as Hkit. pose proof (ttt_kit_ends limit stk diff (initialBalances ctx) Hlim' Hstk Hlock) as Hends.
  destruct (drive_completes (createTicTacToeKit limit stk diff) (fun _ => True) (kit_ok limit stk diff (initialBalances ctx)) draws ltac:(done)
    (moves_left limit) seedA seedB ctx s0 E0 Hok) as (d & Hd & Ht & Hrun & Hok' & Hlen).
  { rewrite Hleft. unfold maxRounds. lia. }
  exists d. split; [exact Hd|]. cbv zeta. destruct Hok' as (n & a & b & k & Hs & Hun).
  pose proof (fun p H => not_lost limit stk (initialBalances ctx) n (d_state d) a b k p Hs (Hun p H)) as Hnl.
  assert (HA := Hnl PartyA). assert (HB := Hnl PartyB). split; [exact Ht|]. split; [by exists s0|]. split; [rewrite Hleft in Hlen; lia|].
  split; [exact HA|]. split; [exact HB|]. intros ->. specialize (HA eq_refl). specialize (HB eq_refl).
  destruct (series_balances (Ttt.staked stk) stk 9 Ttt.ok limit Hstk _ _ _ _ _ _ _ Hs) as (z & Ea & Eb & _).
  pose proof (sr_sum _ _ _ _ _ _ _ _ _ _ _ Hs) as Hsum. cbn in Ea, Eb, HA, HB |- *. destruct ctx as [t [u v]]. cbn in *. unfold TicTacToe.balances. f_equal; lia.
Qed.

Lemma ttt_bots_complete_witness : exists d,
  driveToTerminal (createTicTacToeKit 10 10 perfect) (fun _ _ _ => 0) 1 2 pair_ctx = Ok d /\
  Series.isTerminal (Ttt.staked 10) (d_state d) = true /\
  Series.balances (Ttt.staked 10) (d_state d) = {| bal_a := 100; bal_b := 50 |}.
Proof.
  destruct (ttt_bots_complete 10 10 perfect pair_ctx (fun _ _ _ => 0) 1 2 ltac:(lia) ltac:(lia) pair_lockable) as (d & Hd & Ht & _ & _ & _ & _ & Hb).
  exists d. split; [exact Hd|]. split; [exact Ht|]. exact (Hb eq_refl).
Defined.
