(* ===== verification/BattleshipKit.v ===== *)
(** The battleship bot of the arena, [frontend/src/agent/games/battleship/kit.ts]. *)
From S2P Require Import Prelude.
From S2P Require Import Bytes.
From S2P Require Import Wire.
From S2P Require Import Crypto.
From S2P Require Import Protocol.
From S2P Require Import Rng.
From S2P Require Import BattleshipFleet.
From S2P Require Import BoardMerkle.
From S2P Require Import BattleshipPvp.
From S2P Require Import BattleshipBot.
From S2P Require Import BattleshipPvpGame.
From S2P Require Import BattleshipPvpPlay.
From S2P Require Import BotKit.

(** [Math.floor(rng() * n)], of the one number a shot draws *)
Definition drawn (rng : nat -> Z) (n : nat) : nat := Z.to_nat (draw_index (rng 0%nat) (Z.of_nat n)).

Section WithCrypto.
Context `{C : Crypto} (stk : Z) (d : BotDifficulty).

(** [src frontend/src/agent/games/battleship/kit.ts BattleshipBot.plan]: the memory of the bot is
    its fleet *)
Definition bs_plan (seat : Party) (secret : FleetSecret) (rng : nat -> Z) (s : BattleshipState) : result (option BattleshipMove) :=
  if bool_decide (phase s = over) || negb (winner s =? 0) then Ok None
  else
    match phase s with
    | awaitingCommits =>
        let committed p := bool_decide (is_Some (commitFor s p)) in
        if negb (committed PartyA) && negb (party_eqb seat PartyA) then Ok None
        else if committed PartyA && negb (committed PartyB) && negb (party_eqb seat PartyB) then Ok None
        else if committed seat then Ok None
        else Ok (Some (Commit (root (fs_commitment secret))))
    | awaitingBoardReveal =>
        if negb (bool_decide (pendingBoardReveal s = Some seat)) then Ok None
        else Ok (Some (RevealBoard (fs_board secret) (fs_salts secret)))
    | _ =>
        match pendingShot s with
        | Some pending =>
            if negb (party_eqb (otherParty (shot_by pending)) seat) then Ok None
            else
              let! proof := proveCell (fs_commitment secret) (target pending) in
              Ok (Some (Reveal (JsInt (target pending)) (is_one (fs_board secret) (target pending)) (salt_at (fs_salts secret) (target pending)) proof))
        | None =>
            if negb (party_eqb (turn s) seat) then Ok None
            else Ok (Some (Shoot (shot_number (pickShot s seat (drawn rng) (BOT_CONFIGS d)))))
        end
    end.

(** [src frontend/src/agent/games/battleship/kit.ts BattleshipBot] *)
Definition BattleshipBot (seat : Party) : GameBot FleetSecret BattleshipState BattleshipMove :=
  {| plan := fun secret rng s => let! m := bs_plan seat secret rng s in Ok (secret, m);
     confirm := fun secret _ _ => secret |}.

(** [src frontend/src/agent/games/battleship/kit.ts createBattleshipKit] *)
Definition createBattleshipKit : GameKit FleetSecret BattleshipState BattleshipMove :=
  let protocol := BattleshipProtocol stk in
  {| kit_id := "battleship"; kit_protocol := protocol; stateHash := defaultStateHash protocol; kit_bot := BattleshipBot |}.

(** The bots of the two seats are the self-play driver, cut in two. *)
Lemma bs_plan_nextMove secrets seat rng s mo :
  nextMove s secrets (drawn rng) d = Ok mo ->
  bs_plan seat (secret_of secrets seat) rng s =
    Ok (match mo with Some m => if party_eqb (dm_by m) seat then Some (dm_move m) else None | None => None end).
Proof.
  unfold nextMove, bs_plan. rewrite orb_comm. destruct (_ || _); [by intros [= <-]|]. destruct (phase s).
  - unfold commitFor. destruct (commitA s), (commitB s); intros [= <-]; by destruct seat.
  - destruct (pendingShot s) as [q|].
    + unfold revealMove. intros H. apply rbind_ok in H as (m & H & [= <-]). apply rbind_ok in H as (pf & Hpf & [= <-]). cbn [dm_by dm_move].
      destruct (party_eqb (otherParty (shot_by q)) seat) eqn:E; cbn [negb]; [|done]. apply party_eqb_spec in E. subst seat. by rewrite Hpf.
    + intros [= <-]. cbn [dm_by dm_move]. destruct (party_eqb (turn s) seat) eqn:E; cbn [negb]; [|done]. by apply party_eqb_spec in E as ->.
  - destruct (pendingBoardReveal s) as [w|]; intros [= <-]; cbn [dm_by dm_move].
    + destruct (party_eqb w seat) eqn:E; [apply party_eqb_spec in E as ->; by rewrite bool_decide_true by done|].
      apply party_eqb_neq in E. by rewrite bool_decide_false by congruence.
    + done.
  - destruct (pendingShot s) as [q|].
    + unfold revealMove. intros H. apply rbind_ok in H as (m & H & [= <-]). apply rbind_ok in H as (pf & Hpf & [= <-]). cbn [dm_by dm_move].
      destruct (party_eqb (otherParty (shot_by q)) seat) eqn:E; cbn [negb]; [|done]. apply party_eqb_spec in E. subst seat. by rewrite Hpf.
    + intros [= <-]. cbn [dm_by dm_move]. destruct (party_eqb (turn s) seat) eqn:E; cbn [negb]; [|done]. by apply party_eqb_spec in E as ->.
Qed.
End WithCrypto.

(** * The encoding *)

Section Encoding.
Context `{C : Crypto} `{!CryptoLaws C}.

Lemma root_bytes f : secret_ok f -> bytes_ok (root (fs_commitment f)).
Proof.
  intros (Hc & _ & _). destruct (commitBoard_sizes _ _ _ Hc) as [Hb Hs].
  destruct (commitBoard_ok _ _ Hb Hs) as (c' & E & Hl & H0 & Htop). rewrite Hc in E. injection E as <-.
  destruct (layer_entry HEIGHT _ _ Hl H0 HEIGHT _ 0 Htop ltac:(simpl; lia)) as (x & _ & Hx & _). cbn in Hx. rewrite Hx. apply blake2b_bytes.
Qed.

Context (a0 b0 st : Z) (Hst : 0 <= st <= Z.min a0 b0) (Hab : a0 + b0 <= U64_MAX) (secrets : FleetSecret * FleetSecret).
Context (Hsecrets : forall p, secret_ok (secret_of secrets p)).

Definition fixed_bytes (s : BattleshipState) : bytes :=
  let pend := pendingShot s in
  let seat (p : Party) : Z := match p with PartyA => 0 | PartyB => 1 end in
  u8_from [PHASE_CODE (phase s); seat (turn s); match pend with Some _ => 1 | None => 0 end;
     match pend with Some p => seat (shot_by p) | None => 0 end; match pend with Some p => target p | None => 0 end;
     hitsOnA s; hitsOnB s; winner s].

Definition record_parts (s : BattleshipState) : list bytes :=
  [default [] (commitA s); default [] (commitB s); shotBytes (shotsAtA s); shotBytes (shotsAtB s)].

Lemma shotBytes_length shots : length (shotBytes shots) = (2 * length shots)%nat.
Proof. unfold shotBytes, u8_from. rewrite length_map. induction shots as [|x shots IH]; [done|]. cbn [map concat app length]. rewrite IH. lia. Qed.

Lemma commit_bytes s p : driven secrets s -> bytes_ok (default [] (commitFor s p)) /\
  length (default [] (commitFor s p)) = (if commitFor s p then 32 else 0)%nat.
Proof using All.
  intros Hd. destruct (commitFor s p) as [h|] eqn:E; [|split; [constructor|done]]. cbn. rewrite (proj1 (Hd p) h E).
  split; [by apply root_bytes|]. by eapply root_length.
Qed.

Lemma bs_encoding s : game_ok a0 b0 st s -> driven secrets s ->
  Forall lp_range (record_parts s) /\ exists tail, length tail = 24%nat /\
    encodeState s = Ok (DOMAIN ++ fixed_bytes s ++ concat (map lp (record_parts s)) ++ tail) /\
    bytes_ok (DOMAIN ++ fixed_bytes s ++ concat (map lp (record_parts s)) ++ tail).
Proof using All.
  intros H Hd. destruct (commit_bytes s PartyA Hd) as [HA LA]. destruct (commit_bytes s PartyB Hd) as [HB LB]. cbn [commitFor] in *.
  assert (Hp : Forall lp_range (record_parts s)).
  { unfold record_parts. rewrite !Forall_cons. unfold lp_range. rewrite !shotBytes_length, LA, LB.
    pose proof (shots_at_most _ _ (g_shots _ _ _ _ H PartyA)). pose proof (shots_at_most _ _ (g_shots _ _ _ _ H PartyB)). cbn [shotsAt] in *.
    unfold u64_range. rewrite U64_MAX_eq. split_and!; [destruct (commitA s)|destruct (commitA s)|destruct (commitB s)|destruct (commitB s)|..]; try lia. constructor. }
  split; [done|]. assert (Hsh : - st <= shift_of (winner s) st <= st) by (unfold shift_of; repeat case_match; lia).
  eexists. split; [shelve|]. split.
  - unfold encodeState. fold (record_parts s). rewrite lengthPrefixedConcat_total by done. cbn [rbind].
    rewrite (g_balA _ _ _ _ H), (g_balB _ _ _ _ H), (g_stake _ _ _ _ H).
    rewrite !u64ToBeBytes_total by (unfold u64_range; lia). cbn [rbind]. rewrite concatBytes_concat. cbn [concat]. by rewrite app_nil_r.
  - rewrite !bytes_ok_app. split; [apply protocolDomain_ok|]. split; [apply u8_from_ok|]. split.
    + unfold record_parts. cbn [map concat]. unfold lp. rewrite !bytes_ok_app. split_and!; try apply be_bytes_ok; try done; try apply u8_from_ok. constructor.
    + split_and!; apply be_bytes_ok.
  Unshelve. by rewrite !length_app, !length_be_bytes.
Qed.

(** The encoding shows how many moves are left. *)
Lemma bs_encoding_left s s' e :
  game_ok a0 b0 st s -> driven secrets s -> game_ok a0 b0 st s' -> driven secrets s' ->
  encodeState s = Ok e -> encodeState s' = Ok e -> moves_left s = moves_left s'.
Proof using All.
  intros H Hd H' Hd' E E'. destruct (bs_encoding s H Hd) as (P & t & Lt & Et & _). destruct (bs_encoding s' H' Hd') as (P' & t' & Lt' & Et' & _).
  rewrite Et in E. rewrite Et' in E'. apply Ok_inj in E as <-. apply Ok_inj in E' as E. apply app_inv_head in E.
  apply app_inj_length in E as [Ef E]; [|done]. apply app_inj_2 in E as [E _]; [|congruence]. apply lp_concat_inj in E; [|done..].
  unfold record_parts in E. injection E as EA EB ESA ESB. apply (f_equal length) in EA, EB, ESA, ESB. rewrite !shotBytes_length in ESA, ESB.
  destruct (commit_bytes s PartyA Hd) as [_ LA]. destruct (commit_bytes s PartyB Hd) as [_ LB].
  destruct (commit_bytes s' PartyA Hd') as [_ LA']. destruct (commit_bytes s' PartyB Hd') as [_ LB']. cbn [commitFor] in *.
  rewrite LA, LA' in EA. rewrite LB, LB' in EB. unfold fixed_bytes, u8_from in Ef. cbn [map] in Ef. injection Ef as Eph _ Epend _.
  assert (Hph : phase s = phase s') by (destruct (phase s), (phase s'); done).
  assert (Hlen : length (shotsAtA s) = length (shotsAtA s') /\ length (shotsAtB s) = length (shotsAtB s')) by lia.
  destruct Hlen as [HlA HlB]. unfold moves_left. rewrite Hph, HlA, HlB.
  assert (HcA : (if commitA s then 0 else 1)%nat = (if commitA s' then 0 else 1)%nat) by (destruct (commitA s), (commitA s'); done).
  assert (HcB : (if commitB s then 0 else 1)%nat = (if commitB s' then 0 else 1)%nat) by (destruct (commitB s), (commitB s'); done).
  rewrite HcA, HcB. destruct (phase s'); try done. by destruct (pendingShot s), (pendingShot s').
Qed.
End Encoding.

(** * The kit *)

Section Kit.
Context `{C : Crypto} `{!CryptoLaws C} (stk : Z) (d : BotDifficulty) (a0 b0 st : Z).
Context (Hst : 0 <= st <= Z.min a0 b0) (Hab : a0 + b0 <= U64_MAX).
Notation kit := (createBattleshipKit stk d).

Definition bs_ok (s : BattleshipState) (a b : FleetSecret) : Prop :=
  (forall p, secret_ok (secret_of (a, b) p)) /\ game_ok a0 b0 st s /\ driven (a, b) s /\ paid s.

(** The seat that owes the next move. *)
Definition owner (s : BattleshipState) : option Party :=
  match phase s with
  | awaitingCommits => Some (if commitA s then PartyB else PartyA)
  | awaitingBoardReveal => pendingBoardReveal s
  | _ => Some (match pendingShot s with Some q => otherParty (shot_by q) | None => turn s end)
  end.

Lemma nextMove_owner s secrets draw m : nextMove s secrets draw d = Ok (Some m) -> owner s = Some (dm_by m).
Proof using Type.
  unfold nextMove, owner. destruct (_ || _); [done|]. destruct (phase s).
  - destruct (commitA s), (commitB s); intros [= <-]; done.
  - destruct (pendingShot s); [|by intros [= <-]]. intros H. by apply rbind_ok in H as (x & _ & [= <-]).
  - destruct (pendingBoardReveal s); [|done]. by intros [= <-].
  - destruct (pendingShot s); [|by intros [= <-]]. intros H. by apply rbind_ok in H as (x & _ & [= <-]).
Qed.

Lemma drive_owner s a b p rng : bs_ok s a b ->
  exists mo, bs_plan d p (secret_of (a, b) p) rng s = Ok mo /\
    match mo with
    | Some m => exists s', applyMove s m p = Ok s' /\ bs_ok s' a b /\ (moves_left s' < moves_left s)%nat
    | None => phase s = over \/ owner s <> Some p
    end.
Proof using All.
  intros (Hsec & Hi & Hd & Hp). destruct (pvp_drive_turn a0 b0 st Hst (a, b) Hsec s (drawn rng) d Hi Hd) as [[Ho Em]|(m & Em & s' & E & Hd' & Hlt)];
    pose proof (bs_plan_nextMove d (a, b) p rng s _ Em) as Hplan; eexists; (split; [exact Hplan|]); [by left|].
  destruct (party_eqb (dm_by m) p) eqn:Ep.
  - apply party_eqb_spec in Ep as <-. exists s'. split; [done|]. split; [|done]. split; [done|].
    split; [exact (pvp_applyMove_inv _ _ _ Hst s _ _ s' Hi E)|]. split; [done|]. exact (drive_pays a0 b0 st Hst (a, b) Hsec s (drawn rng) d m s' Hi Em E).
  - right. rewrite (nextMove_owner _ _ _ _ Em). intros [= <-]. by rewrite party_eqb_refl in Ep.
Qed.

Lemma bs_kit_laws : KitLaws kit (fun _ => True) bs_ok.
Proof using All.
  split.
  - intros s a b (Hsec & Hi & Hd & _). destruct (bs_encoding a0 b0 st Hst Hab (a, b) Hsec s Hi Hd) as (_ & t & _ & E & _).
    cbn [stateHash createBattleshipKit]. unfold defaultStateHash. cbn [Protocol.encodeState BattleshipProtocol]. rewrite E. by eexists.
  - intros s a b p rng _ Hok. destruct (drive_owner s a b p rng Hok) as (mo & Hp & Hmo).
    exists (secret_of (a, b) p), mo. cbn [kit_bot createBattleshipKit BattleshipBot plan confirm kit_protocol].
    assert (Hb : match p with PartyA => a | PartyB => b end = secret_of (a, b) p) by (by destruct p). rewrite Hb, Hp. cbn [rbind]. split; [done|].
    destruct mo as [m|]; [|by destruct p]. destruct Hmo as (s' & E & Hok' & Hlt). exists s'. split; [exact E|]. split; [by destruct p|].
    destruct Hok as (Hsec & Hi & Hd & _). destruct Hok' as (_ & Hi' & Hd' & _). intros H. cbn [stateHash createBattleshipKit] in H. unfold defaultStateHash in H.
    cbn [Protocol.encodeState BattleshipProtocol] in H. destruct (bs_encoding a0 b0 st Hst Hab (a, b) Hsec s Hi Hd) as (_ & t & _ & Ee & He).
    destruct (bs_encoding a0 b0 st Hst Hab (a, b) Hsec s' Hi' Hd') as (_ & t' & _ & Ee' & He'). rewrite Ee, Ee' in H. cbn [rbind] in H. apply Ok_inj in H.
    apply nibbles_inj in H; [|done..]. rewrite <- H in Ee. pose proof (bs_encoding_left a0 b0 st Hst Hab (a, b) Hsec s s' _ Hi Hd Hi' Hd' Ee Ee'). lia.
  - intros s a b Hok Ht.
    assert (Hno : phase s <> over).
    { intros Ho. destruct Hok as (_ & _ & _ & Hpaid). destruct (Hpaid Ho) as (q & _ & Hw). cbn in Ht. unfold isTerminal in Ht. rewrite Hw in Ht. by destruct q. }
    assert (Hex : exists p, owner s = Some p).
    { destruct Hok as (Hsec & Hi & Hd & _). destruct (pvp_drive_turn a0 b0 st Hst (a, b) Hsec s (drawn (fun _ => 0)) d Hi Hd) as [[Ho _]|(m & Em & _)]; [done|].
      exists (dm_by m). by eapply nextMove_owner. }
    destruct Hex as [p Hp]. exists p. intros a' b' rng x _ Hok'. destruct (drive_owner s a' b' p rng Hok') as (mo & Hplan & Hmo).
    cbn [kit_bot createBattleshipKit BattleshipBot plan].
    assert (Hb : match p with PartyA => a' | PartyB => b' end = secret_of (a', b') p) by (by destruct p). rewrite Hb, Hplan. cbn [rbind].
    destruct mo; [done|]. by destruct Hmo.
Qed.

Lemma bs_kit_ends : KitEnds kit (fun _ => True) bs_ok moves_left.
Proof using All.
  intros s a b p rng x m s' _ Hok Hp E. destruct (drive_owner s a b p rng Hok) as (mo & Hplan & Hmo).
  cbn [kit_bot createBattleshipKit BattleshipBot plan] in Hp.
  assert (Hb : match p with PartyA => a | PartyB => b end = secret_of (a, b) p) by (by destruct p). rewrite Hb, Hplan in Hp. cbn [rbind] in Hp.
  injection Hp as <- ->. destruct Hmo as (s1 & E1 & _ & Hlt). cbn [kit_protocol createBattleshipKit] in E. change (applyMove s m p = Ok s') in E.
  rewrite E in E1. by injection E1 as ->.
Qed.
End Kit.

(** Two bots of the kit, each with a committed legal fleet, play a game to its end: the harness
    never stops early, and the seat that sank the other fleet has the stake. *)
Theorem battleship_bots_complete `{C : Crypto} `{!CryptoLaws C} stk d ctx draws fa fb :
  0 <= stk -> lockable (initialBalances ctx) -> secret_ok fa -> secret_ok fb ->
  exists r p, driveToTerminal (createBattleshipKit stk d) draws fa fb ctx = Ok r /\
    let s := d_state r in
    phase s = over /\ sank s p /\ winner s = seat_code p /\ (length (d_moves r) <= 403)%nat /\
    balanceA s = bal_a (initialBalances ctx) + shift_of (winner s) (stake_of stk ctx) /\
    balanceB s = bal_b (initialBalances ctx) - shift_of (winner s) (stake_of stk ctx).
Proof.
  intros Hs Hl Ha Hb. pose proof (pvp_initial_game stk ctx Hs Hl) as H0. pose proof (pvp_stake_of_range stk ctx Hs Hl) as Hst.
  assert (Hab : bal_a (initialBalances ctx) + bal_b (initialBalances ctx) <= U64_MAX) by apply Hl.
  pose proof (bs_kit_laws stk d _ _ _ Hst Hab) as Hkit. pose proof (bs_kit_ends stk d _ _ _ Hst Hab) as Hends.
  destruct (drive_completes (createBattleshipKit stk d) (fun _ => True) _ draws ltac:(done) moves_left fa fb ctx (initialState stk ctx) eq_refl) as (r & Hr & Ht & _ & Hok & Hlen).
  - split; [by intros []|]. split; [done|]. split; [intros []; (split; [done|constructor])|done].
  - apply Nat.ltb_lt. vm_compute. reflexivity.
  - destruct Hok as (_ & Hi & _ & Hp). assert (Ho : phase (d_state r) = over).
    { cbn in Ht. unfold isTerminal in Ht. pose proof (g_phase _ _ _ _ Hi) as Hph. unfold phase_ok in Hph.
      destruct (phase (d_state r)); [destruct Hph as (_ & _ & _ & _ & Hw)|destruct Hph as (_ & _ & Hw & _)|destruct Hph as (_ & _ & Hw & _)|done];
        by rewrite Hw in Ht. }
    destruct (Hp Ho) as (p & Hsank & Hw). exists r, p. cbv zeta. split_and!; try done; [apply Hi|apply Hi].
Qed.
