(* ===== verification/JsValue.v ===== *)
(** The values a resume record carries and their text:
    [stringifyWithBigint] and [parseWithBigint] of
    [frontend/src/pvp/resume.ts].

    A bigint is not JSON: the replacer writes it as an object with the one
    member [BIGINT_TAG], and the reviver turns such an object back.  A member
    that is [undefined] is not written at all; [strip] is what is left of a
    value, and the round trip is stated against it. *)
From S2P Require Import Prelude.
From S2P Require Import Bytes.
From S2P Require Import Json.

(** The values of type [unknown] in a record. *)
Inductive jv :=
  | VUndef
  | VNull
  | VBool (b : bool)
  | VNum (n : jsnum)
  | VStr (s : string)
  | VBig (z : Z)
  | VArr (l : list jv)
  | VObj (m : list (string * jv)).

Section Induction.
Context (P : jv -> Prop).
Hypothesis (Hundef : P VUndef) (Hnull : P VNull) (Hbool : forall b, P (VBool b))
  (Hnum : forall n, P (VNum n)) (Hstr : forall s, P (VStr s)) (Hbig : forall z, P (VBig z))
  (Harr : forall l, Forall P l -> P (VArr l))
  (Hobj : forall m, Forall (fun kv => P (snd kv)) m -> P (VObj m)).

Fixpoint jv_nested_ind (v : jv) : P v :=
  match v with
  | VUndef => Hundef
  | VNull => Hnull
  | VBool b => Hbool b
  | VNum n => Hnum n
  | VStr s => Hstr s
  | VBig z => Hbig z
  | VArr l => Harr l ((fix go (l : list jv) : Forall P l :=
      match l with [] => List.Forall_nil _ | x :: l' => List.Forall_cons _ _ _ (jv_nested_ind x) (go l') end) l)
  | VObj m => Hobj m ((fix go (m : list (string * jv)) : Forall (fun kv => P (snd kv)) m :=
      match m with [] => List.Forall_nil _ | kv :: m' => List.Forall_cons _ _ _ (jv_nested_ind (snd kv)) (go m') end) m)
  end.
End Induction.

Definition is_undef (v : jv) : bool := match v with VUndef => true | _ => false end.

(** The member [k], [undefined] when there is none. *)
Fixpoint vmember (k : string) (m : list (string * jv)) : jv :=
  match m with
  | [] => VUndef
  | (k', v) :: m' => if String.eqb k' k then v else vmember k m'
  end.

(** [v[k]] *)
Definition vget (v : jv) (k : string) : result jv :=
  match v with
  | VUndef => Throw (TypeError "Cannot read properties of undefined")
  | VNull => Throw (TypeError "Cannot read properties of null")
  | VObj m => Ok (vmember k m)
  | _ => Ok VUndef
  end.

(** [src frontend/src/pvp/resume.ts BIGINT_TAG] *)
Definition BIGINT_TAG : string := "__bigint__".

(** What the replacer of [stringifyWithBigint] leaves for [JSON.stringify]:
    tagged bigints; the members that are [undefined] are skipped, and an
    [undefined] element is written [null]. *)
Fixpoint tagged (v : jv) : json :=
  match v with
  | VUndef => JNull
  | VNull => JNull
  | VBool b => JBool b
  | VNum n => JNum n
  | VStr s => JStr s
  | VBig z => JObj [(BIGINT_TAG, JStr (toString z))]
  | VArr l => JArr (map tagged l)
  | VObj m => JObj (flat_map (fun kv => if is_undef (snd kv) then [] else [(fst kv, tagged (snd kv))]) m)
  end.

(** [src frontend/src/pvp/resume.ts stringifyWithBigint] *)
Definition stringifyWithBigint (v : jv) : string := stringify (tagged v).

(** The members of an object literal: a repeated name keeps its first place and
    its last value. *)
Fixpoint latest {A} (m : list (string * A)) : list (string * A) :=
  match m with
  | [] => []
  | (k, v) :: m' =>
      let r := latest m' in
      match find (fun kv => String.eqb (fst kv) k) r with
      | Some (_, v') => (k, v') :: List.filter (fun kv => negb (String.eqb (fst kv) k)) r
      | None => (k, v) :: r
      end
  end.

(** The reviver, from the leaves up. *)
Fixpoint revived (j : json) : result jv :=
  match j with
  | JNull => Ok VNull
  | JBool b => Ok (VBool b)
  | JNum n => Ok (VNum n)
  | JStr s => Ok (VStr s)
  | JArr l => let! l' := rmap id (map revived l) in Ok (VArr l')
  | JObj m =>
      let! m' := rmap (fun kv => let! v := snd kv in Ok (fst kv, v))
                   (latest (map (fun kv => (fst kv, revived (snd kv))) m)) in
      match vmember BIGINT_TAG m' with
      | VStr s => let! z := BigInt (Some (JStr s)) in Ok (VBig z)
      | _ => Ok (VObj m')
      end
  end.

(** [src frontend/src/pvp/resume.ts parseWithBigint] *)
Definition parseWithBigint (s : string) : result jv :=
  let! j := parse s in revived j.

(** ** The round trip *)

(** The value that is read back. *)
Fixpoint strip (v : jv) : jv :=
  match v with
  | VUndef => VNull
  | VArr l => VArr (map strip l)
  | VObj m => VObj (flat_map (fun kv => if is_undef (snd kv) then [] else [(fst kv, strip (snd kv))]) m)
  | _ => v
  end.

Definition is_str (v : jv) : bool := match v with VStr _ => true | _ => false end.

(** A value the code can hold: member names are distinct, and no object looks
    like a tagged bigint. *)
Fixpoint js_value (v : jv) : bool :=
  match v with
  | VArr l => forallb js_value l
  | VObj m =>
      bool_decide (NoDup (map fst m)) && negb (is_str (vmember BIGINT_TAG m)) &&
      forallb (fun kv => js_value (snd kv)) m
  | _ => true
  end.

(** The members of an object that are written. *)
Definition defined {B} (f : jv -> B) (m : list (string * jv)) : list (string * B) :=
  flat_map (fun kv => if is_undef (snd kv) then [] else [(fst kv, f (snd kv))]) m.

Lemma defined_names {B} (f : jv -> B) m k : k ∈ map fst (defined f m) -> k ∈ map fst m.
Proof.
  induction m as [|[k' v] m IH]; simpl; [done|]. rewrite map_app, elem_of_app, elem_of_cons.
  intros [H|H]; [|by right; apply IH]. left. destruct (is_undef v); simpl in H; [by apply elem_of_nil in H|].
  by apply list_elem_of_singleton in H.
Qed.

Lemma defined_nodup {B} (f : jv -> B) m : NoDup (map fst m) -> NoDup (map fst (defined f m)).
Proof.
  induction m as [|[k v] m IH]; simpl; intros H; [constructor|]. apply NoDup_cons in H as [Hk H].
  destruct (is_undef v); simpl; [by apply IH|]. apply NoDup_cons. split; [|by apply IH].
  intros Hin. by apply Hk, (defined_names f).
Qed.

Lemma latest_nodup {A} (m : list (string * A)) : NoDup (map fst m) -> latest m = m.
Proof.
  induction m as [|[k v] m IH]; [done|]. cbn [map fst]. intros [Hk H]%NoDup_cons.
  cbn [latest]. rewrite IH by done.
  destruct (find _ m) as [[k' v']|] eqn:E; [|done]. apply find_some in E as [Hin He].
  simpl in He. apply String.eqb_eq in He as ->. destruct Hk.
  apply list_elem_of_In. by apply (in_map fst) in Hin.
Qed.

(** What the record's reader sees of a value: absent stays absent. *)
Definition seen (v : jv) : jv := if is_undef v then VUndef else strip v.

Lemma vmember_absent k m : k ∉ map fst m -> vmember k m = VUndef.
Proof.
  induction m as [|[k' v] m IH]; [done|]. cbn [map fst vmember]. rewrite not_elem_of_cons. intros [Hk Hm].
  destruct (String.eqb_spec k' k) as [->|]; [done|]. by apply IH.
Qed.

Lemma vmember_strip k m : NoDup (map fst m) -> vmember k (defined strip m) = seen (vmember k m).
Proof.
  induction m as [|[k' v] m IH]; [done|]. cbn [map fst]. intros [Hk H]%NoDup_cons.
  unfold defined. cbn [flat_map fst snd vmember]. fold (defined strip m). unfold seen at 1.
  destruct (is_undef v) eqn:Eu; cbn [app vmember].
  - rewrite IH by done. destruct (String.eqb_spec k' k) as [->|]; [|done].
    rewrite vmember_absent by done. unfold seen. by rewrite Eu.
  - destruct (String.eqb_spec k' k) as [->|]; [unfold seen; by rewrite Eu|by apply IH].
Qed.

Lemma strip_str v : is_str (strip v) = is_str v.
Proof. by destruct v. Qed.

Lemma revived_members m :
  Forall (fun kv => js_value (snd kv) = true -> revived (tagged (snd kv)) = Ok (strip (snd kv))) m ->
  forallb (fun kv => js_value (snd kv)) m = true ->
  rmap (fun kv => let! v := snd kv in Ok (fst kv, v))
    (map (fun kv => (fst kv, revived (snd kv))) (defined tagged m)) = Ok (defined strip m).
Proof.
  induction 1 as [|[k x] m Hx _ IHm]; intros Hall; [done|]. cbn [forallb snd] in Hall. bool_to_prop.
  cbn [snd] in Hx. unfold defined. cbn [flat_map fst snd]. fold (defined tagged m). fold (defined strip m).
  destruct (is_undef x); cbn [app map rmap fst snd]; [by apply IHm|].
  rewrite Hx by done. cbn [rbind]. by rewrite IHm.
Qed.

(** The reviver undoes the replacer. *)
Lemma revived_tagged v : js_value v = true -> revived (tagged v) = Ok (strip v).
Proof.
  induction v as [| | | | |z|l IH|m IH] using jv_nested_ind; intros Hv; try done.
  - cbn [tagged revived map latest find rmap rbind fst snd vmember id].
    change (revived (JStr (toString z))) with (@Ok jv (VStr (toString z))). cbn [rbind vmember].
    rewrite String.eqb_refl, BigInt_toString. done.
  - cbn [js_value] in Hv. cbn [tagged revived strip]. rewrite map_map.
    enough (rmap id (map (fun x => revived (tagged x)) l) = Ok (map strip l)) as -> by done.
    induction IH as [|x l Hx _ IHl]; [done|]. cbn [forallb] in Hv. bool_to_prop.
    cbn [map rmap]. unfold id at 1. rewrite Hx by done. cbn [rbind]. by rewrite IHl.
  - cbn [js_value] in Hv. bool_to_prop. cbn [tagged revived strip].
    fold (defined tagged m). fold (defined strip m).
    rewrite latest_nodup.
    2:{ rewrite map_map. cbn [fst]. by apply defined_nodup. }
    rewrite revived_members by done. cbn [rbind].
    assert (is_str (vmember BIGINT_TAG (defined strip m)) = false) as Hs.
    { rewrite vmember_strip by done. unfold seen. destruct (is_undef _); [done|]. by rewrite strip_str. }
    by destruct (vmember BIGINT_TAG (defined strip m)).
Qed.

Lemma parse_stringify_bigint v : js_value v = true -> parseWithBigint (stringifyWithBigint v) = Ok (strip v).
Proof.
  intros Hv. unfold parseWithBigint, stringifyWithBigint. rewrite parse_stringify. cbn [rbind].
  by apply revived_tagged.
Qed.
