(* ===== verification/Resume.v ===== *)
(** The store a page reload reads back: [frontend/src/pvp/resume.ts].

    A record is written to [dirty], the newest for each tunnel, and a queued
    callback flushes [dirty] to the browser's storage with an index of the
    tunnels that have a record.  [page] is the module's state with the storage
    (absent when the browser refuses it) and the callbacks that are queued;
    [fits] is whether the storage still takes an item, the exception of
    [setItem] otherwise.  The texts are those of [JsValue.v]. *)
From stdpp Require Import gmap strings.
From S2P Require Import Prelude.
From S2P Require Import Bytes.
From S2P Require Import Wire.
From S2P Require Import Protocol.
From S2P Require Import Tunnel.
From S2P Require Import Json.
From S2P Require Import JsValue.

(** [src frontend/src/pvp/resume.ts KEY_PREFIX] *)
Definition KEY_PREFIX : string := "mp_resume.v1:".
(** [src frontend/src/pvp/resume.ts INDEX_KEY] *)
Definition INDEX_KEY : string := "mp_resume.v1.index".
(** [src frontend/src/pvp/resume.ts DEFAULT_TTL_MS] *)
Definition DEFAULT_TTL_MS : Z := 6 * 3600000.

(** [src frontend/src/pvp/resume.ts WireStateUpdate] *)
Record WireStateUpdate := {
  w_tunnelId : string;
  w_stateHash : string;
  w_nonce : string;
  w_timestamp : string;
  w_partyABalance : string;
  w_partyBBalance : string
}.
(** [src frontend/src/pvp/resume.ts WireCoSigned] *)
Record WireCoSigned := { w_update : WireStateUpdate; w_sigA : string; w_sigB : string }.

(** [src frontend/src/pvp/resume.ts ResumeRecord]: an absent [secret] is
    [VUndef]. *)
Record ResumeRecord := {
  matchId : string;
  rr_tunnelId : string;
  role : Party;
  game : string;
  opponentWallet : string;
  opponentPubkeyHex : string;
  selfEphemeralSecretHex : option string;
  latestCoSigned : WireCoSigned;
  latestState : jv;
  rr_pending : option (jv * string);
  secret : jv;
  terminal : option bool;
  updatedAt : Z
}.

(** [src frontend/src/pvp/resume.ts toWireCoSigned] *)
Definition toWireCoSigned (u : CoSignedUpdate) : WireCoSigned :=
  {| w_update :=
       {| w_tunnelId := tunnelId (update u);
          w_stateHash := toHex (stateHash (update u));
          w_nonce := toString (nonce (update u));
          w_timestamp := toString (timestamp (update u));
          w_partyABalance := toString (partyABalance (update u));
          w_partyBBalance := toString (partyBBalance (update u)) |};
     w_sigA := toHex (sigA u);
     w_sigB := toHex (sigB u) |}.

Definition bigint_of (s : string) : result Z := BigInt (Some (JStr s)).

(** [src frontend/src/pvp/resume.ts fromWireCoSigned] *)
Definition fromWireCoSigned (w : WireCoSigned) : result CoSignedUpdate :=
  let! h := fromHex (w_stateHash (w_update w)) in
  let! n := bigint_of (w_nonce (w_update w)) in
  let! t := bigint_of (w_timestamp (w_update w)) in
  let! a := bigint_of (w_partyABalance (w_update w)) in
  let! b := bigint_of (w_partyBBalance (w_update w)) in
  let upd := {| tunnelId := w_tunnelId (w_update w); stateHash := h; nonce := n; timestamp := t;
                partyABalance := a; partyBBalance := b |} in
  let! sa := fromHex (w_sigA w) in
  let! sb := fromHex (w_sigB w) in
  Ok {| update := upd; sigA := sa; sigB := sb |}.

(** ** The record as a value *)

Definition opt_value {A} (f : A -> jv) (o : option A) : jv :=
  match o with Some a => f a | None => VUndef end.

Definition value_of_update (u : WireStateUpdate) : jv :=
  VObj [("tunnelId", VStr (w_tunnelId u)); ("stateHash", VStr (w_stateHash u));
        ("nonce", VStr (w_nonce u)); ("timestamp", VStr (w_timestamp u));
        ("partyABalance", VStr (w_partyABalance u)); ("partyBBalance", VStr (w_partyBBalance u))].

Definition value_of_cosigned (c : WireCoSigned) : jv :=
  VObj [("update", value_of_update (w_update c)); ("sigA", VStr (w_sigA c)); ("sigB", VStr (w_sigB c))].

Definition value_of_record (r : ResumeRecord) : jv :=
  VObj [("matchId", VStr (matchId r)); ("tunnelId", VStr (rr_tunnelId r));
        ("role", VStr match role r with PartyA => "A" | PartyB => "B" end);
        ("game", VStr (game r)); ("opponentWallet", VStr (opponentWallet r));
        ("opponentPubkeyHex", VStr (opponentPubkeyHex r));
        ("selfEphemeralSecretHex", opt_value VStr (selfEphemeralSecretHex r));
        ("latestCoSigned", value_of_cosigned (latestCoSigned r));
        ("latestState", latestState r);
        ("pending", opt_value (fun p => VObj [("move", fst p); ("timestamp", VStr (snd p))]) (rr_pending r));
        ("secret", secret r); ("terminal", opt_value VBool (terminal r));
        ("updatedAt", VNum (JsInt (updatedAt r)))].

(** Reading a field at its type; the code's own use of it throws otherwise. *)
Definition get_str (v : jv) (k : string) : result string :=
  let! x := vget v k in
  match x with VStr s => Ok s | _ => Throw (TypeError "not a string") end.

Definition get_opt {A} (f : jv -> result A) (v : jv) (k : string) : result (option A) :=
  let! x := vget v k in
  match x with VUndef => Ok None | _ => let! a := f x in Ok (Some a) end.

Definition update_of_value (v : jv) : result WireStateUpdate :=
  let! t := get_str v "tunnelId" in
  let! h := get_str v "stateHash" in
  let! n := get_str v "nonce" in
  let! ts := get_str v "timestamp" in
  let! a := get_str v "partyABalance" in
  let! b := get_str v "partyBBalance" in
  Ok {| w_tunnelId := t; w_stateHash := h; w_nonce := n; w_timestamp := ts;
        w_partyABalance := a; w_partyBBalance := b |}.

Definition cosigned_of_value (v : jv) : result WireCoSigned :=
  let! u := (let! x := vget v "update" in update_of_value x) in
  let! a := get_str v "sigA" in
  let! b := get_str v "sigB" in
  Ok {| w_update := u; w_sigA := a; w_sigB := b |}.

(** [v as ResumeRecord] *)
Definition as_record (v : jv) : result ResumeRecord :=
  let! m := get_str v "matchId" in
  let! t := get_str v "tunnelId" in
  let! ro := get_str v "role" in
  let! g := get_str v "game" in
  let! ow := get_str v "opponentWallet" in
  let! ok := get_str v "opponentPubkeyHex" in
  let! sk := get_opt (fun x => match x with VStr s => Ok s | _ => Throw (TypeError "not a string") end)
               v "selfEphemeralSecretHex" in
  let! co := (let! x := vget v "latestCoSigned" in cosigned_of_value x) in
  let! st := vget v "latestState" in
  let! p := get_opt (fun x => let! mv := vget x "move" in
                              let! ts := get_str x "timestamp" in Ok (mv, ts)) v "pending" in
  let! sec := vget v "secret" in
  let! te := get_opt (fun x => match x with VBool b => Ok b | _ => Throw (TypeError "not a boolean") end)
               v "terminal" in
  let! at_ := vget v "updatedAt" in
  match at_ with
  | VNum (JsInt z) =>
      Ok {| matchId := m; rr_tunnelId := t; role := if String.eqb ro "A" then PartyA else PartyB;
            game := g; opponentWallet := ow; opponentPubkeyHex := ok; selfEphemeralSecretHex := sk;
            latestCoSigned := co; latestState := st; rr_pending := p; secret := sec; terminal := te;
            updatedAt := z |}
  | _ => Throw (TypeError "not a number")
  end.

(** ** The store *)

(** [src frontend/src/pvp/resume.ts:131-132 dirty] *)
Record page := {
  storage : option (gmap string string);
  dirty : list (string * ResumeRecord);
  scheduled : bool;
  callbacks : nat;
  installed : bool
}.

(** A page that has just loaded over a storage. *)
Definition loaded (st : option (gmap string string)) : page :=
  {| storage := st; dirty := []; scheduled := false; callbacks := 0; installed := false |}.

Definition with_storage (st : option (gmap string string)) (p : page) : page :=
  {| storage := st; dirty := dirty p; scheduled := scheduled p; callbacks := callbacks p;
     installed := installed p |}.
Definition with_dirty (d : list (string * ResumeRecord)) (p : page) : page :=
  {| storage := storage p; dirty := d; scheduled := scheduled p; callbacks := callbacks p;
     installed := installed p |}.
Definition with_queue (b : bool) (n : nat) (p : page) : page :=
  {| storage := storage p; dirty := dirty p; scheduled := b; callbacks := n;
     installed := installed p |}.
Definition with_installed (b : bool) (p : page) : page :=
  {| storage := storage p; dirty := dirty p; scheduled := scheduled p; callbacks := callbacks p;
     installed := b |}.

(** [dirty.set(k, r)]: a key that is there keeps its place. *)
Fixpoint dirty_set (k : string) (r : ResumeRecord) (d : list (string * ResumeRecord))
  : list (string * ResumeRecord) :=
  match d with
  | [] => [(k, r)]
  | (k', r') :: d' => if String.eqb k' k then (k, r) :: d' else (k', r') :: dirty_set k r d'
  end.

(** [dirty.delete(k)] *)
Definition dirty_delete (k : string) (d : list (string * ResumeRecord)) : list (string * ResumeRecord) :=
  List.filter (fun kr => negb (String.eqb (fst kr) k)) d.

(** [[...new Set(ids)]] *)
Fixpoint distinct (ids : list string) : list string :=
  match ids with
  | [] => []
  | x :: ids' => x :: List.filter (fun y => negb (String.eqb y x)) (distinct ids')
  end.

Definition includes (ids : list string) (id : string) : bool := existsb (String.eqb id) ids.

Section Store.
Variable fits : gmap string string -> bool.

(** [ls()?.getItem(k)], [None] being [null] or [undefined] *)
Definition getItem (p : page) (k : string) : option string :=
  match storage p with Some m => m !! k | None => None end.

(** [ls()?.setItem(k, v)] *)
Definition setItem (k v : string) : eff page unit :=
  do! p <- eget;
  match storage p with
  | None => eret tt
  | Some m =>
      if fits (<[k := v]> m) then emodify (with_storage (Some (<[k := v]> m)))
      else ethrow (Error "QuotaExceededError")
  end.

(** [ls()?.removeItem(k)] *)
Definition removeItem (k : string) : eff page unit :=
  emodify (fun p => with_storage (delete k <$> storage p) p).

(** [src frontend/src/pvp/resume.ts readIndex]: only [writeIndex] writes this
    key; a text that is JSON but not a list of strings makes the callers throw. *)
Definition readIndex (p : page) : result (list string) :=
  match getItem p INDEX_KEY with
  | None | Some EmptyString => Ok []
  | Some raw =>
      match parse raw with
      | Throw _ => Ok []
      | Ok (JArr l) => rmap (fun j => match j with JStr s => Ok s | _ => Throw (TypeError "not a string") end) l
      | Ok _ => Throw (TypeError "not an array")
      end
  end.

(** [src frontend/src/pvp/resume.ts writeIndex] *)
Definition writeIndex (ids : list string) : eff page unit :=
  setItem INDEX_KEY (stringify (JArr (map JStr (distinct ids)))).

Definition record_text (r : ResumeRecord) : string := stringifyWithBigint (value_of_record r).

(** The loop of [flushResumeWrites]. *)
Fixpoint save_all (d : list (string * ResumeRecord)) (ids : list string) : eff page (list string) :=
  match d with
  | [] => eret ids
  | (id, rec) :: d' =>
      do! _ <- setItem (KEY_PREFIX ++ id) (record_text rec);
      save_all d' (if includes ids id then ids else ids ++ [id])
  end.

(** [src frontend/src/pvp/resume.ts flushResumeWrites] *)
Definition flushResumeWrites : eff page unit :=
  do! p <- eget;
  match storage p with
  | None => emodify (with_dirty [])
  | Some _ =>
      match dirty p with
      | [] => eret tt
      | d =>
          do! ids <- elift (readIndex p);
          do! ids' <- save_all d ids;
          do! _ <- writeIndex ids';
          emodify (with_dirty [])
      end
  end.

(** [src frontend/src/pvp/resume.ts writeResumeRecord] *)
Definition writeResumeRecord (r : ResumeRecord) : eff page unit :=
  do! _ <- emodify (fun p => with_dirty (dirty_set (rr_tunnelId r) r (dirty p)) p);
  do! p <- eget;
  if scheduled p then eret tt else emodify (with_queue true (S (callbacks p))).

(** [src frontend/src/pvp/resume.ts:138-141 flush]: the queued callback. *)
Definition flush : eff page unit :=
  do! _ <- emodify (fun p => with_queue false (callbacks p) p);
  flushResumeWrites.

(** [src frontend/src/pvp/resume.ts readResumeRecord] *)
Definition readResumeRecord (id : string) (p : page) : option jv :=
  match getItem p (KEY_PREFIX ++ id) with
  | None | Some EmptyString => None
  | Some raw => match parseWithBigint raw with Ok v => Some v | Throw _ => None end
  end.

(** [src frontend/src/pvp/resume.ts clearResumeRecord] *)
Definition clearResumeRecord (id : string) : eff page unit :=
  do! _ <- emodify (fun p => with_dirty (dirty_delete id (dirty p)) p);
  do! _ <- removeItem (KEY_PREFIX ++ id);
  do! p <- eget;
  do! ids <- elift (readIndex p);
  writeIndex (List.filter (fun x => negb (String.eqb x id)) ids).

(** [src frontend/src/pvp/resume.ts listActiveTunnels] *)
Definition listActiveTunnels (p : page) : result (list string) :=
  let! ids := readIndex p in
  Ok (List.filter (fun id => match getItem p (KEY_PREFIX ++ id) with Some _ => true | None => false end) ids).

(** [readResumeRecord(id)?.game === game] *)
Definition has_game (g : string) (rec : option jv) : bool :=
  match rec with
  | Some (VObj m) => match vmember "game" m with VStr s => String.eqb s g | _ => false end
  | _ => false
  end.

(** [src frontend/src/pvp/resume.ts hasResumableMatch] *)
Definition hasResumableMatch (g : string) (p : page) : result bool :=
  let! ids := listActiveTunnels p in
  Ok (existsb (fun id => has_game g (readResumeRecord id p)) ids).

(** [!rec] *)
Definition falsy (v : jv) : bool :=
  match v with
  | VUndef | VNull | VBool false | VNum (JsInt 0) | VStr EmptyString | VBig 0 => true
  | _ => false
  end.

(** [!rec || now - rec.updatedAt >= maxAgeMs]; a record without a number there
    compares as [NaN]. *)
Definition expired (now maxAgeMs : Z) (rec : option jv) : bool :=
  match rec with
  | None => true
  | Some v =>
      falsy v ||
      match v with
      | VObj m => match vmember "updatedAt" m with VNum (JsInt t) => maxAgeMs <=? now - t | _ => false end
      | _ => false
      end
  end.

(** The loop of [evictExpiredRecords]. *)
Fixpoint evict_each (now maxAgeMs : Z) (ids : list string) : eff page unit :=
  match ids with
  | [] => eret tt
  | id :: ids' =>
      do! p <- eget;
      do! _ <- (if expired now maxAgeMs (readResumeRecord id p) then clearResumeRecord id else eret tt);
      evict_each now maxAgeMs ids'
  end.

(** [src frontend/src/pvp/resume.ts evictExpiredRecords]: [now] is [Date.now()]. *)
Definition evictExpiredRecords (now maxAgeMs : Z) : eff page unit :=
  do! p <- eget;
  do! ids <- elift (readIndex p);
  evict_each now maxAgeMs ids.

(** [src frontend/src/pvp/resume.ts installResumePersistence]:
    [hasWindow] is whether there is a window to listen on. *)
Definition installResumePersistence (hasWindow : bool) : eff page unit :=
  emodify (fun p => if installed p then p else if hasWindow then with_installed true p else p).

(** What happens to the page: the calls of the module, the queued callback, the
    two events the page listens to, and a reload. *)
Inductive page_event :=
  | EvWrite (r : ResumeRecord)
  | EvCallback
  | EvFlush
  | EvClear (id : string)
  | EvEvict (now maxAgeMs : Z)
  | EvInstall (hasWindow : bool)
  | EvPagehide
  | EvVisibility (hidden : bool)
  | EvReload.

Definition on_event (e : page_event) : eff page unit :=
  match e with
  | EvWrite r => writeResumeRecord r
  | EvCallback =>
      do! p <- eget;
      match callbacks p with
      | O => eret tt
      | S n => do! _ <- emodify (with_queue (scheduled p) n); flush
      end
  | EvFlush => flushResumeWrites
  | EvClear id => clearResumeRecord id
  | EvEvict now maxAgeMs => evictExpiredRecords now maxAgeMs
  | EvInstall w => installResumePersistence w
  | EvPagehide => do! p <- eget; if installed p then flushResumeWrites else eret tt
  | EvVisibility hidden => do! p <- eget; if installed p && hidden then flushResumeWrites else eret tt
  | EvReload => emodify (fun p => loaded (storage p))
  end.

(** The page after some events, whatever they threw. *)
Definition after (es : list page_event) (p : page) : page :=
  fold_left (fun p e => fst (on_event e p)) es p.

End Store.
