(* ===== verification/ResumeStore.v ===== *)
(** What the resume store promises: [resume.ts] refines a pair of finite maps,
    the records that survive a reload and the ones still to be written.

    The abstract [ledger] has no keys, texts, index or callback; the simulation
    [holds] relates it to a [page], and every event of the page preserves it as
    long as the browser's storage has room. *)
From stdpp Require Import gmap strings.
From S2P Require Import Prelude.
From S2P Require Import Bytes.
From S2P Require Import Protocol.
From S2P Require Import Wire.
From S2P Require Import Tunnel.
From S2P Require Import Json.
From S2P Require Import JsValue.
From S2P Require Import Resume.

(** ** Records and their texts *)

(** The byte fields of an update are [Uint8Array]s. *)
Definition cosigned_bytes (u : CoSignedUpdate) : Prop :=
  bytes_ok (stateHash (update u)) /\ bytes_ok (sigA u) /\ bytes_ok (sigB u).

Lemma wire_cosigned_roundtrip u : cosigned_bytes u -> fromWireCoSigned (toWireCoSigned u) = Ok u.
Proof.
  intros (H1 & H2 & H3). unfold fromWireCoSigned, toWireCoSigned, bigint_of.
  cbn [w_update w_stateHash w_nonce w_timestamp w_partyABalance w_partyBBalance w_sigA w_sigB w_tunnelId].
  rewrite !fromHex_toHex, !BigInt_toString by done. cbn [rbind]. by destruct u as [[] ? ?].
Qed.

(** The record that is read back: its free values without what JSON drops. *)
Definition seen_record (r : ResumeRecord) : ResumeRecord :=
  {| matchId := matchId r; rr_tunnelId := rr_tunnelId r; role := role r; game := game r;
     opponentWallet := opponentWallet r; opponentPubkeyHex := opponentPubkeyHex r;
     selfEphemeralSecretHex := selfEphemeralSecretHex r; latestCoSigned := latestCoSigned r;
     latestState := seen (latestState r);
     rr_pending := option_map (fun p => (seen (fst p), snd p)) (rr_pending r);
     secret := seen (secret r); terminal := terminal r; updatedAt := updatedAt r |}.

(** The game's values in the record are values the code can hold. *)
Definition record_ok (r : ResumeRecord) : bool :=
  js_value (latestState r) && js_value (secret r) &&
  match rr_pending r with Some p => js_value (fst p) | None => true end.

Lemma record_value_ok r : record_ok r = true -> js_value (value_of_record r) = true.
Proof.
  unfold record_ok. intros H. bool_to_prop. cbn [js_value value_of_record forallb snd].
  repeat (apply andb_true_intro; split); try done.
  - by destruct (selfEphemeralSecretHex r).
  - destruct (rr_pending r) as [[mv ts]|]; [|done]. cbn [opt_value js_value forallb fst snd] in *.
    by match goal with H : js_value mv = true |- _ => rewrite H end.
  - by destruct (terminal r).
Qed.

Lemma vget_strip m k : NoDup (map fst m) -> vget (strip (VObj m)) k = Ok (seen (vmember k m)).
Proof. intros H. cbn [strip vget]. f_equal. by apply vmember_strip. Qed.

Lemma get_str_strip m k : NoDup (map fst m) ->
  get_str (strip (VObj m)) k = match vmember k m with VStr s => Ok s | _ => Throw (TypeError "not a string") end.
Proof. intros H. unfold get_str. rewrite vget_strip by done. cbn [rbind]. by destruct (vmember k m). Qed.

Ltac distinct_names := apply (bool_decide_eq_true_1 (NoDup _)); reflexivity.

Lemma cosigned_roundtrip c : cosigned_of_value (strip (value_of_cosigned c)) = Ok c.
Proof.
  unfold cosigned_of_value, value_of_cosigned. rewrite !get_str_strip, vget_strip by distinct_names.
  change (seen (vmember _ _)) with (strip (value_of_update (w_update c))). cbn [rbind].
  unfold update_of_value, value_of_update. rewrite !get_str_strip by distinct_names. by destruct c as [[] ? ?].
Qed.

Lemma get_opt_strip {A} (f : jv -> result A) m k : NoDup (map fst m) ->
  get_opt f (strip (VObj m)) k =
    if is_undef (vmember k m) then Ok None else let! a := f (strip (vmember k m)) in Ok (Some a).
Proof.
  intros H. unfold get_opt. rewrite vget_strip by done. cbn [rbind]. unfold seen.
  destruct (is_undef (vmember k m)) eqn:E; [done|]. by destruct (vmember k m).
Qed.

Definition pending_value (p : jv * string) : jv := VObj [("move", fst p); ("timestamp", VStr (snd p))].

Lemma pending_roundtrip p :
  (let! mv := vget (strip (pending_value p)) "move" in
   let! ts := get_str (strip (pending_value p)) "timestamp" in Ok (mv, ts)) = Ok (seen (fst p), snd p).
Proof. unfold pending_value. rewrite get_str_strip, vget_strip by distinct_names. done. Qed.

Lemma record_roundtrip r : as_record (strip (value_of_record r)) = Ok (seen_record r).
Proof.
  unfold as_record, value_of_record. rewrite !get_str_strip, !get_opt_strip, !vget_strip by distinct_names.
  simpl vmember. cbn [rbind]. change (seen (value_of_cosigned ?c)) with (strip (value_of_cosigned c)).
  rewrite cosigned_roundtrip. cbn [rbind]. unfold seen_record.
  destruct (selfEphemeralSecretHex r), (terminal r), (rr_pending r) as [p|];
    cbn [opt_value is_undef rbind option_map]; try fold (pending_value p); try rewrite pending_roundtrip;
    cbn [rbind]; by destruct (role r).
Qed.

Lemma record_state r : vget (strip (value_of_record r)) "latestState" = Ok (seen (latestState r)).
Proof. unfold value_of_record. rewrite vget_strip by distinct_names. done. Qed.

Lemma stringify_nonempty v : stringify v <> EmptyString.
Proof. by destruct (stringify_opens v) as (c & s & -> & _). Qed.

(** ** The abstract store *)

Record ledger := {
  saved : gmap string ResumeRecord;    (** what a reload finds *)
  unsaved : gmap string ResumeRecord;  (** the newest records, not yet in the storage *)
  hooked : bool                        (** whether hiding the page flushes *)
}.

Definition empty_ledger : ledger := {| saved := ∅; unsaved := ∅; hooked := false |}.

Definition settle_writes (l : ledger) : ledger :=
  {| saved := unsaved l ∪ saved l; unsaved := ∅; hooked := hooked l |}.

Definition forget (id : string) (l : ledger) : ledger :=
  {| saved := delete id (saved l); unsaved := delete id (unsaved l); hooked := hooked l |}.

(** The saved record of the tunnel is too old. *)
Definition stale (now maxAgeMs : Z) (l : ledger) (id : string) : bool :=
  match saved l !! id with Some r => maxAgeMs <=? now - updatedAt r | None => false end.

Definition ledger_event (l : ledger) (e : page_event) : ledger :=
  match e with
  | EvWrite r => {| saved := saved l; unsaved := <[rr_tunnelId r := r]> (unsaved l); hooked := hooked l |}
  | EvCallback | EvFlush => settle_writes l
  | EvClear id => forget id l
  | EvEvict now maxAgeMs =>
      {| saved := filter (fun kr => stale now maxAgeMs l (fst kr) = false) (saved l);
         unsaved := filter (fun kr => stale now maxAgeMs l (fst kr) = false) (unsaved l);
         hooked := hooked l |}
  | EvInstall w => {| saved := saved l; unsaved := unsaved l; hooked := hooked l || w |}
  | EvPagehide => if hooked l then settle_writes l else l
  | EvVisibility hidden => if hooked l && hidden then settle_writes l else l
  | EvReload => {| saved := saved l; unsaved := ∅; hooked := false |}
  end.

Definition ledger_after (es : list page_event) (l : ledger) : ledger := fold_left ledger_event es l.

(** ** Lists, keys and texts *)

Lemma dirty_set_map k r d :
  list_to_map (dirty_set k r d) = <[k := r]> (list_to_map d : gmap string ResumeRecord).
Proof.
  induction d as [|[k' r'] d IH]; [done|]. simpl. destruct (String.eqb_spec k' k) as [->|].
  - simpl. by rewrite insert_insert_eq.
  - simpl. by rewrite IH, insert_insert_ne.
Qed.

Lemma dirty_set_names k r d x : x ∈ (dirty_set k r d).*1 -> x = k \/ x ∈ d.*1.
Proof.
  induction d as [|[k' r'] d IH]; simpl; [set_solver|]. destruct (String.eqb_spec k' k) as [->|]; simpl; set_solver.
Qed.

Lemma dirty_set_nodup k r d : NoDup d.*1 -> NoDup (dirty_set k r d).*1.
Proof.
  induction d as [|[k' r'] d IH]; simpl; intros H; [apply NoDup_singleton|]. apply NoDup_cons in H as [H1 H2].
  destruct (String.eqb_spec k' k) as [->|]; simpl; apply NoDup_cons; [done|]. split; [|by apply IH].
  intros [->|]%dirty_set_names; done.
Qed.

Lemma dirty_delete_map k d :
  list_to_map (dirty_delete k d) = delete k (list_to_map d : gmap string ResumeRecord).
Proof.
  induction d as [|[k' r'] d IH]; simpl; [by rewrite delete_empty|].
  destruct (String.eqb_spec k' k) as [->|]; simpl.
  - by rewrite delete_insert_eq.
  - by rewrite IH, delete_insert_ne.
Qed.

Lemma dirty_delete_nodup k d : NoDup d.*1 -> NoDup (dirty_delete k d).*1.
Proof.
  induction d as [|[k' r'] d IH]; simpl; intros H; [done|]. apply NoDup_cons in H as [H1 H2].
  destruct (String.eqb k' k); simpl; [by apply IH|]. apply NoDup_cons. split; [|by apply IH].
  intros (kr & -> & Hin)%list_elem_of_fmap. apply H1, list_elem_of_fmap. exists kr. split; [done|].
  apply list_elem_of_In, filter_In in Hin as [Hin _]. by apply list_elem_of_In.
Qed.

Lemma elem_of_bfilter {A} (f : A -> bool) l x : x ∈ List.filter f l <-> x ∈ l /\ f x = true.
Proof. rewrite !list_elem_of_In. apply filter_In. Qed.

Lemma bfilter_nodup {A} (f : A -> bool) l : NoDup l -> NoDup (List.filter f l).
Proof. rewrite !NoDup_ListNoDup. apply List.NoDup_filter. Qed.

Lemma not_eqb_true (x y : string) : negb (String.eqb x y) = true <-> x <> y.
Proof. rewrite negb_true_iff. apply String.eqb_neq. Qed.

Lemma elem_of_distinct ids x : x ∈ distinct ids <-> x ∈ ids.
Proof.
  induction ids as [|y ids IH]; [done|]. simpl. rewrite !elem_of_cons, elem_of_bfilter, IH, not_eqb_true.
  destruct (String.eq_dec x y); tauto.
Qed.

Lemma nodup_distinct ids : NoDup (distinct ids).
Proof.
  induction ids as [|y ids IH]; simpl; [constructor|]. apply NoDup_cons. split; [|by apply bfilter_nodup].
  rewrite elem_of_bfilter, not_eqb_true. tauto.
Qed.

Lemma includes_spec ids id : includes ids id = true <-> id ∈ ids.
Proof.
  unfold includes. rewrite existsb_exists. split.
  - intros (x & Hx & ->%String.eqb_eq). by apply list_elem_of_In.
  - intros H. exists id. split; [by apply list_elem_of_In|apply String.eqb_refl].
Qed.

Lemma key_inj id id' : (KEY_PREFIX ++ id)%string = (KEY_PREFIX ++ id')%string -> id = id'.
Proof. unfold KEY_PREFIX. simpl. intros H. by injection H. Qed.

Lemma key_index id : (KEY_PREFIX ++ id)%string <> INDEX_KEY.
Proof. unfold KEY_PREFIX, INDEX_KEY. simpl. discriminate. Qed.

Definition resume_key (k : string) : Prop := k = INDEX_KEY \/ exists id, k = (KEY_PREFIX ++ id)%string.

(** ** The simulation *)

Section Simulation.
Variable fits : gmap string string -> bool.
(** The storage has room. *)
Hypothesis room : forall m, fits m = true.
(** What the storage held before the first record. *)
Variable m0 : gmap string string.

Record holds (p : page) (l : ledger) : Prop := {
  h_store : exists m, storage p = Some m /\
    (forall id, m !! (KEY_PREFIX ++ id)%string = record_text <$> saved l !! id) /\
    (forall k, ~ resume_key k -> m !! k = m0 !! k);
  h_index : exists ids, readIndex p = Ok ids /\ NoDup ids /\ forall id, id ∈ ids <-> is_Some (saved l !! id);
  h_dirty : NoDup (dirty p).*1 /\ list_to_map (dirty p) = unsaved l;
  h_queue : (dirty p <> [] -> scheduled p = true) /\ (scheduled p = true -> callbacks p <> 0%nat);
  h_hook : installed p = hooked l;
  h_ok : map_Forall (fun _ r => record_ok r = true) (saved l) /\
         map_Forall (fun _ r => record_ok r = true) (unsaved l)
}.

Lemma setItem_room k v p m : storage p = Some m ->
  setItem fits k v p = (with_storage (Some (<[k := v]> m)) p, Ok tt).
Proof. intros E. unfold setItem, ebind, eget. by rewrite E, room. Qed.

Lemma readIndex_get p p' : getItem p INDEX_KEY = getItem p' INDEX_KEY -> readIndex p = readIndex p'.
Proof. intros E. unfold readIndex. by rewrite E. Qed.

Lemma read_strings ids :
  rmap (fun j => match j with JStr s => Ok s | _ => Throw (TypeError "not a string") end) (map JStr ids) = Ok ids.
Proof. induction ids as [|x ids IH]; [done|]. cbn [map rmap rbind]. by rewrite IH. Qed.

Lemma writeIndex_spec ids p m : storage p = Some m ->
  exists m', writeIndex fits ids p = (with_storage (Some m') p, Ok tt) /\
    readIndex (with_storage (Some m') p) = Ok (distinct ids) /\
    forall k, k <> INDEX_KEY -> m' !! k = m !! k.
Proof.
  intros E. unfold writeIndex. rewrite (setItem_room _ _ _ m E). eexists. split; [done|]. split.
  - unfold readIndex, getItem. cbn [storage with_storage]. rewrite lookup_insert_eq.
    rewrite parse_stringify. pose proof (stringify_nonempty (JArr (map JStr (distinct ids)))) as Hne.
    destruct (stringify _); [done|]. apply read_strings.
  - intros k Hk. by rewrite lookup_insert_ne.
Qed.

(** The flush loop writes the records of [d] and nothing else. *)
Lemma save_all_spec d ids p m : storage p = Some m -> NoDup d.*1 ->
  exists m' ids', save_all fits d ids p = (with_storage (Some m') p, Ok ids') /\
    (forall id, m' !! (KEY_PREFIX ++ id)%string =
       match (list_to_map d : gmap string ResumeRecord) !! id with
       | Some r => Some (record_text r) | None => m !! (KEY_PREFIX ++ id)%string end) /\
    (forall k, (forall id, k <> (KEY_PREFIX ++ id)%string) -> m' !! k = m !! k) /\
    (forall id, id ∈ ids' <-> id ∈ ids \/ is_Some ((list_to_map d : gmap string ResumeRecord) !! id)).
Proof.
  revert ids p m. induction d as [|[k r] d IH]; intros ids p m E Hnd.
  { exists m, ids. split_and!; try done.
    - unfold save_all, eret. f_equal. destruct p; cbn in *. by rewrite E.
    - intros id. simpl. rewrite lookup_empty. split; [by left|]. intros [?|[? ?]]; done. }
  cbn [fmap list_fmap fst] in Hnd. apply NoDup_cons in Hnd as [Hk Hnd].
  cbn [save_all]. unfold ebind. rewrite (setItem_room _ _ _ m E).
  destruct (IH (if includes ids k then ids else ids ++ [k])
    (with_storage (Some (<[(KEY_PREFIX ++ k)%string := record_text r]> m)) p)
    (<[(KEY_PREFIX ++ k)%string := record_text r]> m) eq_refl Hnd) as (m' & ids' & E' & H1 & H2 & H3).
  exists m', ids'. rewrite E'. split_and!; [done|..].
  - intros id. rewrite H1. simpl. destruct (decide (k = id)) as [->|Hne].
    + rewrite lookup_insert_eq, lookup_insert_eq, not_elem_of_list_to_map_1 by done. done.
    + rewrite (lookup_insert_ne _ k) by done. destruct (list_to_map d !! id); [done|].
      apply lookup_insert_ne. by intros ->%key_inj.
  - intros x Hx. rewrite H2 by done. apply lookup_insert_ne. by apply not_eq_sym.
  - intros id. rewrite H3. simpl. destruct (decide (k = id)) as [->|Hne].
    + rewrite lookup_insert_eq. split; [intros _; right; by eexists|intros _; left].
      destruct (includes ids id) eqn:Ei; [by apply includes_spec|set_solver].
    + rewrite lookup_insert_ne by done. destruct (includes ids k); [done|]. set_solver.
Qed.

Lemma settle_nothing l : unsaved l = ∅ -> settle_writes l = l.
Proof. intros E. destruct l as [s u h]. cbn in E. subst u. unfold settle_writes. cbn. by rewrite (left_id_L ∅ _). Qed.

(** A flush needs nothing of the queue. *)
Lemma holds_flush b n p l :
  holds (with_queue b n p) l -> (scheduled p = true -> callbacks p <> 0%nat) ->
  exists p', flushResumeWrites fits p = (p', Ok tt) /\ holds p' (settle_writes l).
Proof.
  intros [(m & Em & Hrec & Hoth) (ids & Eids & Hnd & Hids) [Hd Hu] _ Hh [Hok1 Hok2]] Hq.
  cbn [storage with_queue dirty installed] in *. change (readIndex (with_queue b n p)) with (readIndex p) in Eids.
  unfold flushResumeWrites, ebind at 1, eget. rewrite Em. destruct (dirty p) as [|kr d'] eqn:Ed.
  { exists p. split; [done|]. rewrite settle_nothing by (by rewrite <- Hu).
    split; rewrite ?Ed; try done; eauto. }
  set (d := kr :: d') in *. unfold ebind at 1, elift. rewrite Eids.
  destruct (save_all_spec d ids p m Em Hd) as (m1 & ids1 & E1 & S1 & S2 & S3). unfold ebind. rewrite E1.
  destruct (writeIndex_spec ids1 (with_storage (Some m1) p) m1 eq_refl) as (m2 & E2 & I1 & I2). rewrite E2.
  eexists. split; [done|].
  rewrite Hu in S1, S3. split; cbn [saved unsaved hooked settle_writes dirty with_dirty with_storage installed scheduled callbacks storage].
  - exists m2. split_and!; [done|..].
    + intros id. rewrite I2 by apply key_index. rewrite S1, Hrec, lookup_union.
      by destruct (unsaved l !! id), (saved l !! id).
    + intros k Hk. rewrite I2, S2, Hoth; [done|done|..].
      * intros id ->. apply Hk. right. by exists id.
      * intros ->. apply Hk. by left.
  - exists (distinct ids1). split_and!; [|apply nodup_distinct|].
    + rewrite <- I1. by apply readIndex_get.
    + intros id. rewrite elem_of_distinct, S3, Hids, lookup_union.
      destruct (unsaved l !! id), (saved l !! id); cbn; rewrite <- ?not_eq_None_Some; naive_solver.
  - by split; [constructor|].
  - by split.
  - done.
  - split; [|apply map_Forall_empty]. by apply map_Forall_union_2.
Qed.

Lemma holds_write r p l : holds p l -> record_ok r = true ->
  exists p', writeResumeRecord r p = (p', Ok tt) /\ holds p' (ledger_event l (EvWrite r)).
Proof.
  intros [Hst Hix [Hd Hu] [Hq1 Hq2] Hh [Hok1 Hok2]] Hr. unfold writeResumeRecord, ebind, emodify, eget.
  cbn [scheduled with_dirty callbacks].
  assert (map_Forall (fun _ r => record_ok r = true) (<[rr_tunnelId r := r]> (unsaved l)))
    by (by apply map_Forall_insert_2).
  assert (list_to_map (dirty_set (rr_tunnelId r) r (dirty p)) = <[rr_tunnelId r := r]> (unsaved l))
    by (by rewrite dirty_set_map, Hu).
  destruct (scheduled p) eqn:Es; (eexists; split; [done|split; try done]); cbn; auto using dirty_set_nodup.
Qed.

Lemma holds_clear id p l : holds p l ->
  exists p', clearResumeRecord fits id p = (p', Ok tt) /\ holds p' (forget id l).
Proof.
  intros [(m & Em & Hrec & Hoth) (ids & Eids & Hnd & Hids) [Hd Hu] [Hq1 Hq2] Hh [Hok1 Hok2]].
  unfold clearResumeRecord, removeItem, ebind, emodify, eget, elift.
  set (p1 := with_storage _ _).
  assert (storage p1 = Some (delete (KEY_PREFIX ++ id)%string m)) as E1 by (unfold p1; cbn; by rewrite Em).
  assert (readIndex p1 = Ok ids) as ->.
  { rewrite <- Eids. apply readIndex_get. unfold getItem. rewrite E1, Em.
    apply lookup_delete_ne, key_index. }
  destruct (writeIndex_spec (List.filter (fun x => negb (String.eqb x id)) ids) p1 _ E1) as (m2 & E2 & I1 & I2).
  rewrite E2. eexists. split; [done|].
  split; cbn [saved unsaved hooked forget dirty with_dirty with_storage installed scheduled callbacks storage p1].
  - exists m2. split_and!; [done|..].
    + intros x. rewrite I2 by apply key_index. destruct (decide (id = x)) as [->|Hne].
      * by rewrite !lookup_delete_eq.
      * rewrite !lookup_delete_ne; [done..|]. by intros ->%key_inj.
    + intros k Hk. rewrite I2, lookup_delete_ne, Hoth; [done|done|..].
      * intros <-. apply Hk. right. by exists id.
      * intros ->. apply Hk. by left.
  - exists (distinct (List.filter (fun x => negb (String.eqb x id)) ids)).
    split_and!; [done|apply nodup_distinct|]. intros x.
    rewrite elem_of_distinct, elem_of_bfilter, not_eqb_true, Hids. destruct (decide (id = x)) as [->|Hne].
    + rewrite lookup_delete_eq. split; [naive_solver|by intros [? ?]].
    + rewrite lookup_delete_ne by done. naive_solver.
  - split; [by apply dirty_delete_nodup|]. by rewrite dirty_delete_map, Hu.
  - split; [|done]. intros Hne. apply Hq1. intros E. by rewrite E in Hne.
  - done.
  - split; by apply map_Forall_delete.
Qed.

Lemma holds_read p l id : holds p l ->
  readResumeRecord id p = (fun r => strip (value_of_record r)) <$> saved l !! id.
Proof.
  intros [(m & Em & Hrec & _) _ _ _ _ [Hok _]]. unfold readResumeRecord, getItem. rewrite Em, Hrec.
  destruct (saved l !! id) as [r|] eqn:Er; [|done]. cbn [fmap option_fmap option_map].
  unfold record_text. rewrite parse_stringify_bigint by (apply record_value_ok; by apply (Hok id)).
  unfold stringifyWithBigint. by destruct (stringify _) eqn:E; [apply stringify_nonempty in E|].
Qed.

Lemma strip_object m : strip (VObj m) = VObj (defined strip m).
Proof. done. Qed.

Lemma expired_record now age r :
  expired now age (Some (strip (value_of_record r))) = (age <=? now - updatedAt r).
Proof.
  unfold value_of_record. rewrite strip_object. unfold expired. cbn [falsy orb].
  rewrite vmember_strip by distinct_names. done.
Qed.

Lemma game_record g r : has_game g (Some (strip (value_of_record r))) = String.eqb (game r) g.
Proof.
  unfold value_of_record. rewrite strip_object. unfold has_game.
  rewrite vmember_strip by distinct_names. done.
Qed.

(** The eviction loop, one tunnel after the other. *)
Definition evict_ids (now age : Z) (ids : list string) (l : ledger) : ledger :=
  fold_left (fun l id => if expired now age ((fun r => strip (value_of_record r)) <$> saved l !! id)
                         then forget id l else l) ids l.

Lemma evict_ids_cons now age id ids l :
  evict_ids now age (id :: ids) l =
    evict_ids now age ids (if expired now age ((fun r => strip (value_of_record r)) <$> saved l !! id)
                           then forget id l else l).
Proof. done. Qed.

Lemma holds_evict_each now age ids p l : holds p l ->
  exists p', evict_each fits now age ids p = (p', Ok tt) /\ holds p' (evict_ids now age ids l).
Proof.
  revert p l. induction ids as [|id ids IH]; intros p l Hp; [by exists p|].
  rewrite evict_ids_cons. cbn [evict_each]. unfold ebind, eget. rewrite (holds_read p l id Hp).
  destruct (expired _ _ _); [|by apply IH].
  destruct (holds_clear id p l Hp) as (p1 & -> & H1). by apply IH.
Qed.

Lemma evict_ids_lookup now age ids l k :
  (forall id, id ∈ ids -> is_Some (saved l !! id)) -> NoDup ids ->
  let gone := bool_decide (k ∈ ids) && stale now age l k in
  saved (evict_ids now age ids l) !! k = (if gone then None else saved l !! k) /\
  unsaved (evict_ids now age ids l) !! k = (if gone then None else unsaved l !! k) /\
  hooked (evict_ids now age ids l) = hooked l.
Proof.
  revert l. induction ids as [|id ids IH]; intros l Hs Hnd; [done|]. apply NoDup_cons in Hnd as [Hid Hnd].
  rewrite evict_ids_cons.
  destruct (Hs id ltac:(set_solver)) as [r Er]. rewrite Er. cbn [fmap option_fmap option_map]. rewrite expired_record.
  assert (forall x, x ∈ ids -> is_Some (saved l !! x)) as Hs' by set_solver.
  assert (k ∈ id :: ids <-> k = id \/ k ∈ ids) as Hin by apply elem_of_cons.
  destruct (age <=? now - updatedAt r) eqn:Eo.
  - destruct (IH (forget id l)) as (H1 & H2 & H3); [|done|].
    { intros x Hx. cbn. rewrite lookup_delete_ne by (intros ->; done). by apply Hs'. }
    rewrite H1, H2, H3. unfold stale. cbn [saved unsaved hooked forget].
    destruct (decide (id = k)) as [->|Hne].
    + rewrite !lookup_delete_eq, andb_false_r, Er, Eo, bool_decide_eq_true_2 by set_solver. done.
    + rewrite !lookup_delete_ne, (bool_decide_ext (k ∈ id :: ids) (k ∈ ids)) by (done || naive_solver). done.
  - destruct (IH l Hs' Hnd) as (H1 & H2 & H3). rewrite H1, H2, H3.
    destruct (decide (id = k)) as [->|Hne].
    + unfold stale. rewrite Er, Eo, !andb_false_r. done.
    + rewrite (bool_decide_ext (k ∈ id :: ids) (k ∈ ids)) by naive_solver. done.
Qed.

Lemma lookup_fresh {A} (m : gmap string A) (f : string -> bool) k :
  filter (fun kr => f (fst kr) = false) m !! k = if f k then None else m !! k.
Proof.
  rewrite map_lookup_filter. destruct (m !! k) as [a|]; [|by destruct (f k)]. cbn.
  destruct (f k); [by rewrite option_guard_False|by rewrite option_guard_True].
Qed.

Lemma holds_evict now age p l : holds p l ->
  exists p', evictExpiredRecords fits now age p = (p', Ok tt) /\ holds p' (ledger_event l (EvEvict now age)).
Proof.
  intros Hp. destruct (h_index _ _ Hp) as (ids & Eids & Hnd & Hids).
  unfold evictExpiredRecords, ebind, eget, elift. rewrite Eids.
  destruct (holds_evict_each now age ids p l Hp) as (p' & E & H). exists p'. split; [done|].
  enough (ledger_event l (EvEvict now age) = evict_ids now age ids l) as -> by done. clear E H.
  assert (forall k, bool_decide (k ∈ ids) && stale now age l k = stale now age l k) as Hg.
  { intros k. destruct (bool_decide_reflect (k ∈ ids)) as [|Hk]; [done|]. cbn. unfold stale.
    destruct (saved l !! k) eqn:Ek; [|done]. destruct Hk. apply Hids. by rewrite Ek. }
  pose proof (fun k => evict_ids_lookup now age ids l k (fun id Hin => proj1 (Hids id) Hin) Hnd) as Hl.
  cbv zeta in Hl. destruct (evict_ids now age ids l) as [s u h]. cbn [saved unsaved hooked] in Hl. cbn [ledger_event].
  f_equal.
  - apply map_eq. intros k. destruct (Hl k) as (-> & _). rewrite lookup_fresh. by rewrite Hg.
  - apply map_eq. intros k. destruct (Hl k) as (_ & -> & _). rewrite lookup_fresh. by rewrite Hg.
  - by destruct (Hl "") as (_ & _ & ->).
Qed.

Lemma holds_queue b n p l :
  holds p l -> (dirty p <> [] -> b = true) -> (b = true -> n <> 0%nat) -> holds (with_queue b n p) l.
Proof. intros [H1 H2 H3 _ H5 H6] Hb Hn. by split. Qed.


Lemma queue_same p : with_queue (scheduled p) (callbacks p) p = p.
Proof. by destruct p. Qed.

Lemma holds_flush_now p l : holds p l ->
  exists p', flushResumeWrites fits p = (p', Ok tt) /\ holds p' (settle_writes l).
Proof.
  intros Hp. apply (holds_flush (scheduled p) (callbacks p)); [by rewrite queue_same|].
  apply (h_queue _ _ Hp).
Qed.

Lemma holds_callback p l : holds p l ->
  exists p', on_event fits EvCallback p = (p', Ok tt) /\ holds p' (settle_writes l).
Proof.
  intros Hp. unfold on_event, ebind at 1, eget. destruct (callbacks p) as [|n] eqn:Ec.
  - destruct (h_queue _ _ Hp) as [Hq1 Hq2]. destruct (scheduled p); [by destruct (Hq2 eq_refl)|].
    destruct (h_dirty _ _ Hp) as [_ Hu]. destruct (dirty p) as [|x d]; [|by specialize (Hq1 ltac:(done))].
    exists p. split; [done|]. by rewrite settle_nothing.
  - apply (holds_flush (scheduled p) (callbacks p)); [|done].
    change (with_queue _ _ _) with (with_queue (scheduled p) (callbacks p) p). by rewrite queue_same.
Qed.

Lemma holds_reload p l : holds p l -> holds (loaded (storage p)) (ledger_event l EvReload).
Proof.
  intros [Hst (ids & Ei & Hi) _ _ _ [Hok _]]. split; cbn; try done.
  - exists ids. split; [|done]. by rewrite <- Ei.
  - by split; [constructor|].
Qed.

Definition event_ok (e : page_event) : bool :=
  match e with EvWrite r => record_ok r | _ => true end.

Lemma holds_event e p l : holds p l -> event_ok e = true ->
  exists p', on_event fits e p = (p', Ok tt) /\ holds p' (ledger_event l e).
Proof.
  intros Hp He. pose proof (h_hook _ _ Hp) as Hh. destruct e as [r| | |id|now age|w| |hid|]; cbn [ledger_event].
  - by apply holds_write.
  - by apply holds_callback.
  - by apply holds_flush_now.
  - by apply holds_clear.
  - by apply holds_evict.
  - eexists. split; [reflexivity|]. destruct Hp as [H1 H2 H3 H4 _ H6].
    destruct (installed p) eqn:Ei; [|destruct w]; split; cbn; try done; by rewrite <- Hh, ?Ei.
  - unfold on_event, ebind, eget. rewrite Hh. destruct (hooked l); [by apply holds_flush_now|by exists p].
  - unfold on_event, ebind, eget. rewrite Hh. destruct (hooked l && hid); [by apply holds_flush_now|by exists p].
  - eexists. split; [reflexivity|]. by apply holds_reload.
Qed.

Lemma holds_after es p l : holds p l -> forallb event_ok es = true ->
  holds (after fits es p) (ledger_after es l).
Proof.
  revert p l. induction es as [|e es IH]; intros p l Hp Hes; [done|]. cbn [forallb] in Hes. bool_to_prop.
  cbn [after ledger_after fold_left]. destruct (holds_event e p l Hp ltac:(done)) as (p' & E & H').
  rewrite E. by apply IH.
Qed.

Lemma holds_loaded : (forall k, resume_key k -> m0 !! k = None) -> holds (loaded (Some m0)) empty_ledger.
Proof.
  intros H0. split; cbn; try done.
  - exists m0. split_and!; [done| |done]. intros id. rewrite H0 by (right; by eexists). by rewrite lookup_empty.
  - exists []. split_and!; [|constructor|].
    + unfold readIndex, getItem. cbn. by rewrite H0 by (by left).
    + intros id. rewrite lookup_empty. split; [by intros ?%elem_of_nil|by intros [? ?]].
  - by split; [constructor|].
Qed.

Lemma holds_list p l : holds p l ->
  exists ids, listActiveTunnels p = Ok ids /\ NoDup ids /\ forall id, id ∈ ids <-> is_Some (saved l !! id).
Proof.
  intros [(m & Em & Hrec & _) (ids & Ei & Hnd & Hi) _ _ _ _]. unfold listActiveTunnels. rewrite Ei. cbn [rbind].
  eexists. split; [done|]. split; [by apply bfilter_nodup|]. intros id. rewrite elem_of_bfilter, Hi.
  unfold getItem. rewrite Em, Hrec. destruct (saved l !! id); cbn; [naive_solver|].
  split; [naive_solver|by intros [? ?]].
Qed.

Lemma holds_game g p l : holds p l ->
  exists b, hasResumableMatch g p = Ok b /\ (b = true <-> exists id r, saved l !! id = Some r /\ game r = g).
Proof.
  intros Hp. destruct (holds_list p l Hp) as (ids & Ei & _ & Hi). unfold hasResumableMatch. rewrite Ei. cbn [rbind].
  eexists. split; [done|]. rewrite existsb_exists. split.
  - intros (id & Hin & Hg). rewrite (holds_read p l id Hp) in Hg.
    destruct (saved l !! id) as [r|] eqn:Er; [|done]. cbn [fmap option_fmap option_map] in Hg.
    rewrite game_record in Hg. apply String.eqb_eq in Hg. by exists id, r.
  - intros (id & r & Er & <-). exists id. split; [apply list_elem_of_In, Hi; by rewrite Er|].
    rewrite (holds_read p l id Hp), Er. cbn [fmap option_fmap option_map]. rewrite game_record. apply String.eqb_refl.
Qed.

End Simulation.

(** C7: the resume store is a pair of maps.  Whatever the page does (writes of
    records, the queued callback, explicit and page-hide flushes, clears,
    evictions and reloads, in any order), as long as the browser's storage has
    room no call throws, and what can be read is the abstract ledger: for each
    tunnel the last record saved and not cleared or expired since, exactly as
    written up to the members JSON drops; the index lists those tunnels once
    each; a game counts as resumable when one of them is of that game; a record
    that is not saved yet has a callback queued that will save it; and no other
    key of the storage changes. *)
Theorem resume_store_refines fits m0 es :
  (forall m, fits m = true) -> (forall k, resume_key k -> m0 !! k = None) -> forallb event_ok es = true ->
  let p := after fits es (loaded (Some m0)) in
  let l := ledger_after es empty_ledger in
  (forall id, as_record <$> readResumeRecord id p = (fun r => Ok (seen_record r)) <$> saved l !! id) /\
  (exists ids, listActiveTunnels p = Ok ids /\ NoDup ids /\ forall id, id ∈ ids <-> is_Some (saved l !! id)) /\
  (forall g, exists b, hasResumableMatch g p = Ok b /\
     (b = true <-> exists id r, saved l !! id = Some r /\ game r = g)) /\
  (unsaved l <> ∅ -> callbacks p <> 0%nat) /\
  (exists m, storage p = Some m /\ forall k, ~ resume_key k -> m !! k = m0 !! k) /\
  (forall e, event_ok e = true -> snd (on_event fits e p) = Ok tt).
Proof.
  intros Hroom H0 Hes p l.
  assert (holds m0 p l) as Hp by (apply holds_after; [done|by apply holds_loaded|done]).
  split_and!.
  - intros id. rewrite (holds_read m0 p l id Hp). destruct (saved l !! id); [|done].
    cbn [fmap option_fmap option_map]. by rewrite record_roundtrip.
  - by apply (holds_list m0).
  - intros g. by apply (holds_game m0).
  - intros Hu. destruct (h_queue _ _ _ Hp) as [Hq1 Hq2]. apply Hq2, Hq1. intros Ed. apply Hu.
    destruct (h_dirty _ _ _ Hp) as [_ <-]. by rewrite Ed.
  - destruct (h_store _ _ _ Hp) as (m & Em & _ & Hm). by exists m.
  - intros e He. by destruct (holds_event fits Hroom m0 e p l Hp He) as (p' & -> & _).
Qed.

(** ** A sample *)

Definition sample_record (id : string) (n t : Z) : ResumeRecord :=
  {| matchId := "m-" ++ id; rr_tunnelId := id; role := PartyB; game := "chicken-cross";
     opponentWallet := "0xa11ce"; opponentPubkeyHex := "00ff"; selfEphemeralSecretHex := Some "0102";
     latestCoSigned := toWireCoSigned
       {| update := {| tunnelId := id; stateHash := [1; 2; 255]; nonce := n; timestamp := t;
                       partyABalance := 40; partyBBalance := 60 |};
          sigA := [3]; sigB := [4; 5] |};
     latestState := VObj [("score", VBig n); ("log", VArr [VStr "a"; VNull])];
     rr_pending := Some (VObj [("dir", VStr "north")], toString t);
     secret := VUndef; terminal := Some false; updatedAt := t |}.

Definition sample_events : list page_event :=
  [EvInstall true; EvWrite (sample_record "t1" 1 1000); EvWrite (sample_record "t2" 1 1500);
   EvCallback; EvWrite (sample_record "t1" 2 2000); EvVisibility true; EvEvict 3000 1500; EvReload].

(** After the second visit only the newer record of [t1] is there. *)
Lemma resume_store_refines_witness :
  let p := after (fun _ => true) sample_events (loaded (Some ∅)) in
  as_record <$> readResumeRecord "t1" p = Some (Ok (sample_record "t1" 2 2000)) /\
  as_record <$> readResumeRecord "t2" p = None /\
  snd (on_event (fun _ => true) EvFlush p) = Ok tt.
Proof.
  destruct (resume_store_refines (fun _ => true) ∅ sample_events (fun _ => eq_refl)
    (fun k _ => lookup_empty k) eq_refl) as (Hr & _ & _ & _ & _ & Hok).
  split; [|split].
  - rewrite (Hr "t1"). vm_compute. reflexivity.
  - rewrite (Hr "t2"). vm_compute. reflexivity.
  - by apply Hok.
Defined.

(** The storage itself: the two keys and their texts. *)
Example sample_storage :
  let p := after (fun _ => true) sample_events (loaded (Some ∅)) in
  listActiveTunnels p = Ok ["t1"] /\ dirty p = [] /\
  readResumeRecord "t1" p = Some (strip (value_of_record (sample_record "t1" 2 2000))).
Proof. vm_compute. done. Qed.
