(* ===== verification/ResumeSession.v ===== *)
(** Resuming a match after a reload: [frontend/src/pvp/resumeSession.ts].

    A game supplies an adapter between its states and moves and the values of a
    record; what the adapter must satisfy is the class [AdapterLaws], and every
    theorem is proved against it.  [Hidden] is the game's own cell behind
    [captureSecret] and [restoreSecret].  The seats are those of
    [DistributedTunnel.v], the store that of [Resume.v]; the relay client shows
    only in the resync messages a session has sent. *)
From stdpp Require Import gmap strings.
From S2P Require Import Prelude.
From S2P Require Import Bytes.
From S2P Require Import Wire.
From S2P Require Import Crypto.
From S2P Require Import Protocol.
From S2P Require Import Tunnel.
From S2P Require Import DistributedTunnel.
From S2P Require Import Json.
From S2P Require Import JsValue.
From S2P Require Import Resume.

(** [src frontend/src/pvp/resumeSession.ts ResumeAdapter]: an omitted move
    method is the identity, given here by the game as such. *)
Record ResumeAdapter (State Move Hidden : Type) := {
  serializeState : State -> jv;
  deserializeState : jv -> result State;
  serializeMove : Move -> jv;
  deserializeMove : jv -> result Move;
  captureSecret : option (Hidden -> jv);
  restoreSecret : option (jv -> result Hidden)
}.
Arguments serializeState {State Move Hidden}.
Arguments deserializeState {State Move Hidden}.
Arguments serializeMove {State Move Hidden}.
Arguments deserializeMove {State Move Hidden}.
Arguments captureSecret {State Move Hidden}.
Arguments restoreSecret {State Move Hidden}.

(** What the driver relies on: the values survive the store and the relay. *)
Class AdapterLaws {State Move Hidden} (A : ResumeAdapter State Move Hidden)
    (state_ok : State -> Prop) (move_ok : Move -> Prop) : Prop := {
  state_value : forall s, state_ok s -> js_value (serializeState A s) = true;
  state_defined : forall s, state_ok s -> serializeState A s <> VUndef;
  state_back : forall s, state_ok s -> deserializeState A (seen (serializeState A s)) = Ok s;
  move_value : forall m, move_ok m -> js_value (serializeMove A m) = true;
  move_back : forall m, move_ok m -> deserializeMove A (seen (serializeMove A m)) = Ok m;
  secret_value : forall f h, captureSecret A = Some f -> js_value (f h) = true /\ f h <> VUndef;
  secret_back : forall f, captureSecret A = Some f ->
    exists g, restoreSecret A = Some g /\ forall h, g (seen (f h)) = Ok h /\ g (f h) = Ok h
}.

(** [src frontend/src/pvp/resumeSession.ts ResumeIdentity] *)
Record ResumeIdentity := {
  id_matchId : string;
  id_tunnelId : string;
  id_role : Party;
  id_game : string;
  id_opponentWallet : string;
  id_opponentPubkeyHex : string;
  id_selfEphemeralSecretHex : string
}.

Section WithCrypto.
Context `{C : Crypto} (bk : CryptoBackend).
Context {State Move Hidden : Type} (P : Protocol State Move) (A : ResumeAdapter State Move Hidden).
Notation seat := (DistributedTunnel State Move).

(** [src frontend/src/pvp/resume.ts keypairFromSecretHex] *)
Definition keypairFromSecretHex (secretHex : string) : result KeyPair :=
  let! sk := fromHex secretHex in keyPairFromSecret sk.

(** [src frontend/src/pvp/resumeSession.ts buildRecord]: [now] is [Date.now()]. *)
Definition buildRecord (now : Z) (tunnel : seat) (hidden : Hidden) (identity : ResumeIdentity)
  : option ResumeRecord :=
  let '(st, _, latest, pend) := snapshot tunnel in
  match latest with
  | None => None
  | Some co => Some
      {| matchId := id_matchId identity; rr_tunnelId := id_tunnelId identity; role := id_role identity;
         game := id_game identity; opponentWallet := id_opponentWallet identity;
         opponentPubkeyHex := id_opponentPubkeyHex identity;
         selfEphemeralSecretHex := Some (id_selfEphemeralSecretHex identity);
         latestCoSigned := toWireCoSigned co;
         latestState := serializeState A st;
         rr_pending := option_map (fun mt => (serializeMove A (fst mt), toString (snd mt))) pend;
         secret := match captureSecret A with Some f => f hidden | None => VUndef end;
         terminal := Some (isTerminal P st);
         updatedAt := now |}
  end.

Definition on_fst {S T X} (m : eff S X) : eff (S * T) X :=
  fun st => let '(s', r) := m (fst st) in ((s', snd st), r).

(** [src frontend/src/pvp/resumeSession.ts restoreInto] *)
Definition restoreInto (record : ResumeRecord) : eff (seat * Hidden) unit :=
  do! st <- elift (deserializeState A (latestState record));
  do! co <- elift (fromWireCoSigned (latestCoSigned record));
  do! _ <- on_fst (adoptCheckpoint P st co);
  do! _ <- match is_undef (secret record), restoreSecret A with
           | false, Some g => do! h <- elift (g (secret record)); emodify (fun dh => (fst dh, h))
           | _, _ => eret tt
           end;
  match rr_pending record with
  | None => eret tt
  | Some (mv, ts) =>
      do! m <- elift (deserializeMove A mv);
      do! t <- elift (bigint_of ts);
      on_fst (seatPending P m t)
  end.

(** [src frontend/src/pvp/resumeSession.ts balancesFromCheckpoint] *)
Definition balancesFromCheckpoint (record : ResumeRecord) : result Balances :=
  let! a := bigint_of (w_partyABalance (w_update (latestCoSigned record))) in
  let! b := bigint_of (w_partyBBalance (w_update (latestCoSigned record))) in
  Ok {| bal_a := a; bal_b := b |}.

(** [src frontend/src/pvp/resumeSession.ts RebuildSpec]: what a game gives
    besides its protocol and adapter. *)
Record RebuildSpec := {
  hasCodec : bool;
  balancesFromRecord : option (ResumeRecord -> result Balances)
}.

(** [src frontend/src/pvp/resumeSession.ts rebuildTunnel]; [mp.channel] and
    [mp.markActive] only tell the relay client. *)
Definition rebuildTunnel (record : ResumeRecord) (spec : RebuildSpec) (selfWallet : string)
  : eff Hidden seat :=
  match selfEphemeralSecretHex record with
  | None | Some EmptyString => ethrow (Error "rebuildTunnel: record has no per-match signing key")
  | Some secretHex =>
      do! keypair <- elift (keypairFromSecretHex secretHex);
      let slf := makeEndpoint bk selfWallet (publicKey keypair) (scheme keypair) (Some (secretKey keypair)) true in
      do! pk <- elift (fromHex (opponentPubkeyHex record));
      let opp := makeEndpoint bk (opponentWallet record) pk (scheme keypair) None false in
      do! bal <- elift (match balancesFromRecord spec with
                        | Some f => f record | None => balancesFromCheckpoint record end);
      do! tunnel <- elift (newDistributedTunnel P (rr_tunnelId record) slf opp (role record) (hasCodec spec) bal);
      fun h =>
        match restoreInto record (tunnel, h) with
        | ((d, h'), Ok _) => (h', Ok d)
        | ((_, h'), Throw e) => (h', Throw e)
        end
  end.

Section WithStore.
Variable fits : gmap string string -> bool.

Definition on_page {X} (m : eff page X) : eff (page * Hidden) X := on_fst m.

(** One record of [resumeActiveTunnels]: the [try] block and its [catch]. *)
Definition resume_one (spec : RebuildSpec) (selfWallet tid : string) (record : jv)
  : eff (page * Hidden) (list seat) :=
  fun ph =>
    let attempt : eff (page * Hidden) (list seat) :=
      do! st <- elift (let! x := vget record "latestState" in deserializeState A x);
      if isTerminal P st then do! _ <- on_page (clearResumeRecord fits tid); eret []
      else
        do! rec <- elift (as_record record);
        do! d <- (fun ph => let '(h, r) := rebuildTunnel rec spec selfWallet (snd ph) in ((fst ph, h), r));
        eret [d] in
    match attempt ph with
    | (ph', Ok out) => (ph', Ok out)
    | (ph', Throw _) => (do! _ <- on_page (clearResumeRecord fits tid); eret []) ph'
    end.

(** The loop of [resumeActiveTunnels]. *)
Fixpoint resume_each (gameId : string) (spec : RebuildSpec) (selfWallet : string) (ids : list string)
  : eff (page * Hidden) (list seat) :=
  match ids with
  | [] => eret []
  | tid :: ids' =>
      do! ph <- eget;
      do! out <- match readResumeRecord tid (fst ph) with
                 | Some v => if has_game gameId (Some v) then resume_one spec selfWallet tid v else eret []
                 | None => eret []
                 end;
      do! outs <- resume_each gameId spec selfWallet ids';
      eret (out ++ outs)
  end.

(** [src frontend/src/pvp/resumeSession.ts resumeActiveTunnels] *)
Definition resumeActiveTunnels (now : Z) (gameId : string) (spec : RebuildSpec) (selfWallet : string)
  : eff (page * Hidden) (list seat) :=
  do! _ <- on_page (evictExpiredRecords fits now DEFAULT_TTL_MS);
  do! ph <- eget;
  do! ids <- elift (listActiveTunnels (fst ph));
  resume_each gameId spec selfWallet ids.

End WithStore.

(** ** The resync handshake *)

(** [src frontend/src/pvp/mpClient.ts:91-97 PeerMessage], the resync message *)
Record resync := {
  rs_nonce : string;
  rs_hasPending : bool;
  rs_checkpoint : option WireCoSigned;
  rs_fullState : jv
}.

(** A session: the tunnel, the game's secret cell, the resyncs sent and the
    outcomes told to the game. *)
Record session := {
  s_seat : seat;
  s_hidden : Hidden;
  s_sent : list resync;
  s_outcomes : list ReconcileAction
}.

Definition with_seat (d : seat) (s : session) : session :=
  {| s_seat := d; s_hidden := s_hidden s; s_sent := s_sent s; s_outcomes := s_outcomes s |}.
Definition with_hidden (h : Hidden) (s : session) : session :=
  {| s_seat := s_seat s; s_hidden := h; s_sent := s_sent s; s_outcomes := s_outcomes s |}.
Definition with_sent (m : resync) (s : session) : session :=
  {| s_seat := s_seat s; s_hidden := s_hidden s; s_sent := s_sent s ++ [m]; s_outcomes := s_outcomes s |}.

(** [adapter.onReconciled(tunnel, outcome)] *)
Definition onReconciled (a : ReconcileAction) : eff session unit :=
  emodify (fun s => {| s_seat := s_seat s; s_hidden := s_hidden s; s_sent := s_sent s;
                       s_outcomes := s_outcomes s ++ [a] |}).

Definition on_seat {X} (m : eff seat X) : eff session X :=
  fun s => let '(d, r) := m (s_seat s) in (with_seat d s, r).

Definition resync_of (d : seat) : resync :=
  {| rs_nonce := toString (d_nonce d);
     rs_hasPending := match pending d with Some _ => true | None => false end;
     rs_checkpoint := option_map toWireCoSigned (d_latest d);
     rs_fullState := serializeState A (d_state d) |}.

Definition value_of_resync (m : resync) : jv :=
  VObj [("t", VStr "resync"); ("nonce", VStr (rs_nonce m)); ("hasPending", VBool (rs_hasPending m));
        ("checkpoint", opt_value value_of_cosigned (rs_checkpoint m)); ("fullState", rs_fullState m)].

(** The message at its type. *)
Definition resync_value (v : jv) : result resync :=
  let! n := get_str v "nonce" in
  let! hp := (let! x := vget v "hasPending" in
              match x with VBool b => Ok b | _ => Throw (TypeError "not a boolean") end) in
  let! co := get_opt cosigned_of_value v "checkpoint" in
  let! st := vget v "fullState" in
  Ok {| rs_nonce := n; rs_hasPending := hp; rs_checkpoint := co; rs_fullState := st |}.

(** [src frontend/src/pvp/mpClient.ts:366-379 channel]: what the peer's
    handlers get of a message sent through the relay. *)
Definition relayed (m : resync) : result resync :=
  let! v := parseWithBigint (stringifyWithBigint (value_of_resync m)) in
  resync_value v.

(** [src frontend/src/pvp/resumeSession.ts sendResync] *)
Definition sendResync : eff session unit :=
  do! s <- eget;
  emodify (with_sent (resync_of (s_seat s))).

(** The [adopt] branch of [onResync]. *)
Definition adopt_resync (co : CoSignedUpdate) (msg : resync) : eff session unit :=
  do! s <- eget;
  let captured := match captureSecret A with Some f => f (s_hidden s) | None => VUndef end in
  do! st <- elift (deserializeState A (rs_fullState msg));
  do! _ <- on_seat (adoptCheckpoint P st co);
  do! _ <- match is_undef captured, restoreSecret A with
           | false, Some g => do! h <- elift (g captured); emodify (with_hidden h)
           | _, _ => eret tt
           end;
  if rs_hasPending msg then sendResync else eret tt.

(** [src frontend/src/pvp/resumeSession.ts onResync] *)
Definition onResync (msg : resync) : eff session unit :=
  do! s <- eget;
  let d := s_seat s in
  let slf := {| rv_nonce := d_nonce d;
                hasPending := match pending d with Some _ => true | None => false end;
                checkpoint := d_latest d |} in
  do! peerCp <- elift (match rs_checkpoint msg with
                       | Some w => let! co := fromWireCoSigned w in Ok (Some co)
                       | None => Ok None
                       end);
  do! n <- elift (bigint_of (rs_nonce msg));
  let peer := {| rv_nonce := n; hasPending := rs_hasPending msg; checkpoint := peerCp |} in
  let action := decideReconcile slf peer in
  let attempt : eff session unit :=
    do! _ <- match action, peerCp, is_undef (rs_fullState msg) with
             | Adopt, Some co, false => adopt_resync co msg
             | RePropose, _, _ => on_seat resendPending
             | _, _, _ => eret tt
             end;
    onReconciled action in
  fun s => match attempt s with
           | (s', Ok tt) => (s', Ok tt)
           | (s', Throw _) => onReconciled Settle s'
           end.

(** [src frontend/src/pvp/resumeSession.ts:348-351 resumeKick] *)
Definition resumeKick : eff session unit :=
  do! _ <- sendResync;
  on_seat resendPending.

(** ** Persisting on every hook call *)

(** [src frontend/src/pvp/resumeSession.ts:315-332 onConfirmed], and
    [onProposed]: the record of the seat as the hook finds it. *)
Definition persist (now : Z) (identity : ResumeIdentity) (tunnel : seat) (hidden : Hidden) : eff page unit :=
  match buildRecord now tunnel hidden identity with
  | Some rec => writeResumeRecord rec
  | None => eret tt
  end.

Definition is_hook (e : effect Move) : bool :=
  match e with OnConfirmed _ | OnProposed => true | _ => false end.

(** A call of an attached seat: a handler calls one of the two hooks last, if
    at all, so the record is that of the seat it leaves. *)
Definition attached_call (now : Z) (identity : ResumeIdentity) (hidden : Hidden) (c : seat -> seat)
    (dp : seat * page) : seat * page :=
  let d' := c (fst dp) in
  if existsb is_hook (drop (length (effects (fst dp))) (effects d'))
  then (d', fst (persist now identity d' hidden (snd dp)))
  else (d', snd dp).

(** ** The events of an attached session *)

(** What [attachResume] keeps besides the session: the grace timer it holds, the
    timers that are armed, and the updates its expiry has reported. *)
Record attached := {
  at_session : session;
  graceHandle : option Z;
  timers : list Z;
  next_timer : Z;
  expiries : list (option CoSignedUpdate)
}.

Definition with_session (s : session) (a : attached) : attached :=
  {| at_session := s; graceHandle := graceHandle a; timers := timers a; next_timer := next_timer a;
     expiries := expiries a |}.

(** [src frontend/src/pvp/resumeSession.ts:366-371 cancelGrace] *)
Definition cancelGrace (a : attached) : attached :=
  match graceHandle a with
  | None => a
  | Some h => {| at_session := at_session a; graceHandle := None;
                 timers := List.filter (fun x => negb (x =? h)) (timers a); next_timer := next_timer a;
                 expiries := expiries a |}
  end.

Definition on_session (m : eff session unit) (a : attached) : attached :=
  with_session (fst (m (at_session a))) a.

(** What the relay client, the peer and the clock tell the session. *)
Inductive relay_event :=
  | ResumeOk (match_id : string) (peerOnline : bool)
  | PeerResumed (match_id : string)
  | PeerDropped (match_id : string)
  | PeerResync (m : resync)
  | TimerFires (h : Z).

(** [src frontend/src/pvp/resumeSession.ts attachResume]: its listeners, in the
    order they were registered. *)
Definition attachResume (mid : string) (e : relay_event) (a : attached) : attached :=
  match e with
  | ResumeOk m peerOnline =>
      if String.eqb m mid then
        let a' := on_session resumeKick a in if peerOnline : bool then cancelGrace a' else a'
      else a
  | PeerResumed m => if String.eqb m mid then cancelGrace (on_session resumeKick a) else a
  | PeerDropped m =>
      if String.eqb m mid then
        let a' := cancelGrace a in
        {| at_session := at_session a'; graceHandle := Some (next_timer a');
           timers := timers a' ++ [next_timer a']; next_timer := next_timer a' + 1; expiries := expiries a' |}
      else a
  | PeerResync m => on_session (onResync m) a
  | TimerFires h =>
      if existsb (Z.eqb h) (timers a) then
        {| at_session := at_session a; graceHandle := None;
           timers := List.filter (fun x => negb (x =? h)) (timers a); next_timer := next_timer a;
           expiries := expiries a ++ [d_latest (s_seat (at_session a))] |}
      else a
  end.

End WithCrypto.
