(* ===== verification/ResumeReload.v ===== *)
(** A reload loses nothing: the seat that [resumeActiveTunnels] rebuilds from
    the store is the seat that was playing, and the resync handshake brings the
    two ends of a tunnel together again. *)
From stdpp Require Import gmap strings.
From S2P Require Import Prelude.
From S2P Require Import Bytes.
From S2P Require Import Wire.
From S2P Require Import Crypto.
From S2P Require Import Protocol.
From S2P Require Import Tunnel.
From S2P Require Import DistributedTunnel.
From S2P Require Import SeatSafety.
From S2P Require Import Agreement.
From S2P Require Import Json.
From S2P Require Import JsValue.
From S2P Require Import Resume.
From S2P Require Import ResumeStore.
From S2P Require Import ResumeSession.

Section Reload.
Context `{C : Crypto} `{!CryptoLaws C} (bk : CryptoBackend) `{!BackendLaws bk}.
Context {State Move Hidden : Type} (P : Protocol State Move) (A : ResumeAdapter State Move Hidden).
Context (state_ok : State -> Prop) (move_ok : Move -> Prop) `{!AdapterLaws A state_ok move_ok}.
Notation seat := (DistributedTunnel State Move).

(** ** Pending proposals *)

(** The pending proposal is what seating its move on the present state gives. *)
Definition seated (d : seat) : Prop :=
  forall p, pending d = Some p ->
    exists enc f, admits P d (p_move p) (selfParty d) (p_next p) enc (p_update p) (p_msg p) /\
      timestamp (p_update p) = p_timestamp p /\ ep_sign (self d) = Some f /\ p_sigSelf p = f (p_msg p).

(** The calls of a match that is being played. *)
Definition live_call (c : seat_call (State := State) (Move := Move)) : bool :=
  match c with
  | CallPropose _ _ | CallResend | CallFrame _ | CallSettle _ _ | CallSettleRoot _ _ _ => true
  | CallSeat _ _ | CallAdopt _ _ => false
  end.

(** Two seats that differ in their effects only. *)
Definition same_position (d d' : seat) : Prop :=
  same_static d d' /\ d_state d' = d_state d /\ d_nonce d' = d_nonce d /\ d_latest d' = d_latest d /\
  pending d' = pending d.

Lemma seated_same d d' : same_position d d' -> seated d -> seated d'.
Proof.
  intros ((E1 & E2 & E3 & E4 & E5) & Es & En & El & Ep) H p Hp. rewrite Ep in Hp.
  destruct (H p Hp) as (enc & f & (H1 & H2 & H3 & H4 & H5) & H6 & H7 & H8). exists enc, f.
  unfold admits, update_to in *. rewrite Es, En, E1, E2, E3, E5. by split_and!.
Qed.

Lemma seatPending_admits (d : seat) m next enc u msg f :
  pending d = None -> admits P d m (selfParty d) next enc u msg -> ep_sign (self d) = Some f ->
  seatPending P m (timestamp u) d =
    (with_pending (Some {| p_next := next; p_update := u; p_msg := msg; p_sigSelf := f msg;
       p_move := m; p_timestamp := timestamp u |}) (emit (Signed msg) d), Ok tt).
Proof.
  intros Hn (E1 & Es & E2 & Hu & E3) Hf. unfold seatPending, ebind, eget, elift. rewrite Hn, E1.
  rewrite (proj2 (Z.eqb_eq _ _) Es). cbn [negb]. rewrite E2. fold (update_to P d next enc (d_nonce d + 1) (timestamp u)).
  rewrite <- Hu, E3. unfold sign_self, ebind, eget. by rewrite Hf.
Qed.

(** The call has told one of the two hooks. *)
Definition told (d d' : seat) : Prop :=
  existsb is_hook (drop (length (effects d)) (effects d')) = true.

(** What a live call does: nothing but effects, a new proposal, or a confirmed
    move; the last two tell a hook. *)
Lemma live_cases c d : live_call c = true -> seat_safe bk P d -> seated d ->
  let d' := do_call P c d in
  same_position d d' \/
  (exists m ts p enc f, c = CallPropose m ts /\ told d d' /\ d_state d' = d_state d /\ d_latest d' = d_latest d /\
     pending d' = Some p /\ p_move p = m /\
     admits P d' (p_move p) (selfParty d') (p_next p) enc (p_update p) (p_msg p) /\
     timestamp (p_update p) = p_timestamp p /\ ep_sign (self d') = Some f /\ p_sigSelf p = f (p_msg p)) \/
  (exists m by_ co, told d d' /\ applyMove P (d_state d) m by_ = Ok (d_state d') /\
     d_latest d' = Some co /\ pending d' = None).
Proof.
  intros Hc Hs Hse. cbv zeta. assert (same_position d d) as Same by done. unfold told.
  destruct c as [m ts|m ts| |[f|f]|s co|ts n|ts root n]; try discriminate Hc; cbn [do_call onFrame].
  - destruct (propose P m ts d) as [d1 [[]|e]] eqn:E.
    + apply propose_ok in E as (next & enc & u & msg & f & Hn & Had & Hts & Hf & ->). cbn [fst].
      right; left. exists m, ts. eexists. exists enc, f. cbn [effects emit with_pending].
      rewrite <- !app_assoc, drop_app_length. by split_and!.
    + unfold propose, ebind in E. destruct (seatPending_cases P m ts d) as
        [(e' & E')|(? & ? & ? & ? & ? & _ & _ & _ & _ & E')]; rewrite E' in E.
      * injection E as <- _. by left.
      * unfold resendPending, ebind, eget, emodify in E. discriminate E.
  - left. unfold resendPending, ebind, eget, emodify, eret. by destruct (pending d).
  - destruct (onMove_cases P f d) as [(r & ->)|[(? & ? & ? & _ & _ & _ & _ & _ & ->)|
      (next & enc & u & msg & g & _ & Hn & (Hap & _) & _ & _ & _ & _ & _ & _ & ->)]]; [by left..|].
    right; right. exists (mf_move f), (mf_by f). eexists. cbn [effects emit with_confirmed fst pending d_state d_latest].
    rewrite <- !app_assoc, drop_app_length. split_and!; try done.
    destruct (keep_pending _ _) as [p|] eqn:Ek; [|done].
    apply (keep_pending_next bk P) in Ek as [_ ?]; [lia|done|lia].
  - destruct (onAck_cases f d) as [(r & ->)|(p & Hp & _ & _ & _ & ->)]; [by left|].
    destruct (Hse p Hp) as (enc & f' & (Hap & _) & _).
    right; right. exists (p_move p), (selfParty d). eexists. cbn [effects emit with_confirmed fst pending d_state d_latest].
    rewrite drop_app_length. by split_and!.
  - left. unfold buildSettlementHalf, sign_self, ebind, eget, elift, emodify, eret, ethrow.
    destruct (serializeSettlement _); [|done]. by destruct (ep_sign (self d)).
  - left. unfold buildSettlementHalfWithRoot, sign_self, ebind, eget, elift, emodify, eret, ethrow.
    destruct (negb _); [done|]. destruct (serializeSettlementWithRoot _); [|done]. by destruct (ep_sign (self d)).
Qed.

Lemma live_seated c d : live_call c = true -> seat_safe bk P d -> seated d -> seated (do_call P c d).
Proof.
  intros Hc Hs Hse. destruct (live_cases c d Hc Hs Hse) as
    [H|[(m & ts & p & enc & f & _ & _ & _ & _ & Hp & _ & H)|(m & by_ & co & _ & _ & _ & Hp)]].
  - by apply (seated_same d).
  - intros p'. rewrite Hp. intros [= <-]. by exists enc, f.
  - intros p'. by rewrite Hp.
Qed.

(** ** Rebuilding *)

Section Match.
(** A seat of one match: the keys and names its identity carries. *)
Context (mid tid g wallet ow : string) (party : Party) (sk opk : bytes) (codec : bool).

Definition match_identity : ResumeIdentity :=
  {| id_matchId := mid; id_tunnelId := tid; id_role := party; id_game := g; id_opponentWallet := ow;
     id_opponentPubkeyHex := toHex opk; id_selfEphemeralSecretHex := toHex sk |}.

Definition own_end : PartyEndpoint :=
  makeEndpoint bk wallet (ed25519_getPublicKey sk) SCHEME_ED25519 (Some sk) true.
Definition opp_end : PartyEndpoint := makeEndpoint bk ow opk SCHEME_ED25519 None false.

Hypothesis (Hsk : length sk = 32%nat) (Hskb : bytes_ok sk) (Hopk : bytes_ok opk).
Hypothesis (Hcodec : movesCarrySecrets P && negb codec = false).

(** [d] is this seat, in a position the adapter can write down. *)
Record playing (d : seat) : Prop := {
  pl_safe : seat_safe bk P d;
  pl_seated : seated d;
  pl_self : self d = own_end;
  pl_opp : opponent d = opp_end;
  pl_party : selfParty d = party;
  pl_tid : d_tunnelId d = tid;
  pl_nonce : 0 <= d_nonce d
}.

Definition writable (d : seat) : Prop :=
  state_ok (d_state d) /\ (forall p, pending d = Some p -> move_ok (p_move p)) /\
  (forall co, d_latest d = Some co -> cosigned_bytes co).

(** The protocol opens on the checkpoint's split, as [balancesFromCheckpoint] asks. *)
Definition reopens (d : seat) : Prop :=
  forall co, d_latest d = Some co ->
    let b := {| bal_a := partyABalance (update co); bal_b := partyBBalance (update co) |} in
    exists s0, initialState P {| ctx_tunnelId := tid; initialBalances := b |} = Ok s0 /\ balances P s0 = b.

Definition resume_spec : RebuildSpec := {| hasCodec := codec; balancesFromRecord := None |}.

Definition resumed_hidden (h h0 : Hidden) : Hidden :=
  match captureSecret A with Some _ => h | None => h0 end.

Lemma restore_secret (d d2 : seat) now h h0 r :
  buildRecord P A now d h match_identity = Some r ->
  (match is_undef (seen (secret r)), restoreSecret A with
   | false, Some f => do! h <- elift (f (seen (secret r))); emodify (fun dh => (fst dh, h))
   | _, _ => eret tt
   end) (d2, h0) = ((d2, resumed_hidden h h0), Ok tt).
Proof.
  unfold buildRecord, snapshot. destruct (d_latest d); [|done]. intros [= <-]. cbn [secret]. unfold resumed_hidden.
  destruct (captureSecret A) as [f|] eqn:Ef; [|done].
  destruct (secret_back f Ef) as (f' & -> & Hb). destruct (secret_value f h Ef) as [_ Hn].
  assert (is_undef (seen (f h)) = false) as ->.
  { unfold seen. destruct (f h); done. }
  unfold ebind, elift. by rewrite (proj1 (Hb h)).
Qed.

Lemma reopened d co : playing d -> reopens d -> d_latest d = Some co ->
  exists d1, newDistributedTunnel P tid own_end opp_end party codec
      {| bal_a := partyABalance (update co); bal_b := partyBBalance (update co) |} = Ok d1 /\
    seat_safe bk P d1 /\ same_static d d1 /\ d_nonce d1 = 0 /\ pending d1 = None.
Proof.
  intros Hp Hr Hl. destruct (Hr co Hl) as (s0 & Hi & Hb). destruct Hp as [Hs _ E1 E2 E3 E4 _].
  destruct (ss_latest _ _ _ Hs co Hl) as ((_ & _ & Hsum) & _).
  assert (own_endpoint bk own_end) as Ho by (by exists wallet, sk).
  assert (opp_endpoint bk opp_end) as Hoo by (by exists ow, opk).
  unfold newDistributedTunnel at 1. cbn [own_end makeEndpoint ep_sign option_map]. rewrite Hcodec, Hi. cbn [rbind].
  rewrite Hb. cbn [bal_a bal_b]. rewrite Z.eqb_refl. cbn [negb]. eexists. split; [done|].
  split; [|cbn; unfold same_static; cbn; by split_and!].
  split; cbn; try done; by constructor.
Qed.

(** Rebuilding opens the tunnel the record names and restores the record into it. *)
Lemma rebuild_opens d now h h0 r d1 co :
  buildRecord P A now d h match_identity = Some r -> d_latest d = Some co ->
  newDistributedTunnel P tid own_end opp_end party codec
    {| bal_a := partyABalance (update co); bal_b := partyBBalance (update co) |} = Ok d1 ->
  rebuildTunnel bk P A (seen_record r) resume_spec wallet h0 =
    match restoreInto P A (seen_record r) (d1, h0) with
    | ((d, h'), Ok _) => (h', Ok d) | ((_, h'), Throw e) => (h', Throw e) end.
Proof.
  unfold buildRecord, snapshot. intros Hb El Hnew. rewrite El in Hb. injection Hb as Hr.
  assert (latestCoSigned (seen_record r) = toWireCoSigned co) as Eco by (by rewrite <- Hr).
  unfold rebuildTunnel, resume_spec, balancesFromCheckpoint, bigint_of. cbn [balancesFromRecord hasCodec]. rewrite Eco.
  set (restored := restoreInto P A (seen_record r)). clearbody restored. rewrite <- Hr.
  cbn [seen_record selfEphemeralSecretHex match_identity id_selfEphemeralSecretHex opponentPubkeyHex id_opponentPubkeyHex
    opponentWallet id_opponentWallet role id_role rr_tunnelId id_tunnelId].
  destruct (toHex sk) as [|c0 hx] eqn:Ehx.
  { pose proof (length_toHex sk) as Hl. rewrite Ehx, Hsk in Hl. done. }
  rewrite <- Ehx. unfold ebind, elift, keypairFromSecretHex.
  rewrite !fromHex_toHex by done. cbn [rbind]. unfold keyPairFromSecret. rewrite Hsk. cbn [Nat.eqb negb].
  cbn [toWireCoSigned w_update w_partyABalance w_partyBBalance]. rewrite !BigInt_toString.
  cbn [rbind publicKey secretKey scheme]. fold own_end opp_end. rewrite Hnew. done.
Qed.

Lemma same_keys d d1 : same_static d d1 -> @pkA State Move d1 = pkA d /\ @pkB State Move d1 = pkB d.
Proof. intros (_ & _ & E1 & E2 & E3). unfold pkA, pkB, selfIsA. by rewrite E1, E2, E3. Qed.

Lemma record_fields d now h r co :
  buildRecord P A now d h match_identity = Some r -> d_latest d = Some co ->
  latestState r = serializeState A (d_state d) /\ latestCoSigned r = toWireCoSigned co /\
  rr_pending r = option_map (fun p => (serializeMove A (p_move p), toString (p_timestamp p))) (pending d) /\
  game r = g /\ updatedAt r = now /\ rr_tunnelId r = tid /\
  secret r = match captureSecret A with Some f => f h | None => VUndef end.
Proof.
  unfold buildRecord, snapshot. intros Hb El. rewrite El in Hb. injection Hb as <-. split_and!; try done. cbn.
  by destruct (pending d).
Qed.

(** The record of a seat, read back, rebuilds the seat. *)
Lemma rebuild_seat d now h h0 r co :
  playing d -> writable d -> reopens d -> d_latest d = Some co ->
  buildRecord P A now d h match_identity = Some r ->
  exists d', rebuildTunnel bk P A (seen_record r) resume_spec wallet h0 = (resumed_hidden h h0, Ok d') /\
    same_position d d'.
Proof.
  intros Hp (Hso & Hmo & Hco) Hro El Hb.
  destruct (record_fields d now h r co Hb El) as (F1 & F2 & F3 & _).
  destruct (reopened d co Hp Hro El) as (d1 & Hnew & Hs1 & Hst & Hn1 & Hp1).
  rewrite (rebuild_opens d now h h0 r d1 co) by done.
  destruct Hp as [Hs Hse E1 E2 E3 E4 Hn]. destruct (same_keys d d1 Hst) as [KA KB].
  pose proof Hst as (T1 & T2 & T3 & T4 & T5).
  pose proof (adopt_known bk P d1 d co Hs1 Hs T1 T2 KA KB ltac:(lia) El) as Had.
  rewrite Hp1 in Had. cbn [keep_pending] in Had.
  set (d2 := with_confirmed (d_state d) (d_nonce d) co None d1) in Had.
  pose proof (restore_secret d d2 now h h0 r Hb) as Hsec.
  unfold restoreInto, ebind, elift. cbn [seen_record latestState latestCoSigned secret rr_pending].
  rewrite F1, (state_back (A := A)), F2, wire_cosigned_roundtrip by auto.
  unfold on_fst at 1. cbn [fst snd]. rewrite Had. unfold ebind, elift in Hsec. rewrite Hsec, F3.
  destruct (pending d) as [pp|] eqn:Epp; cbn [option_map fst snd].
  2:{ exists d2. split; [done|]. split; [|by split_and!]. done. }
  rewrite (move_back (A := A)) by auto. unfold bigint_of. rewrite BigInt_toString.
  destruct (Hse pp Epp) as (enc & f & Hadm & Hts & Hf & Hsig).
  rewrite <- Hts. unfold on_fst. cbn [fst snd].
  assert (admits P d2 (p_move pp) (selfParty d2) (p_next pp) enc (p_update pp) (p_msg pp)) as Hadm2.
  { destruct Hadm as (A1 & A2 & A3 & A4 & A5). unfold admits, update_to in *. cbn. rewrite T1, T2, T5. by split_and!. }
  rewrite (seatPending_admits d2 _ _ _ _ _ f eq_refl Hadm2) by (cbn; by rewrite T3).
  eexists. split; [done|]. split; [done|]. split_and!; try done. cbn. rewrite Epp, Hts. by destruct pp; cbn in *; subst.
Qed.

(** ** The store while the match is played *)

Hypothesis state_step : forall s m by_ s', state_ok s -> applyMove P s m by_ = Ok s' -> state_ok s'.

(** What happens to the seat and the page while the match is played. *)
Inductive match_event :=
  | EvCall (now : Z) (c : seat_call (State := State) (Move := Move))
  | EvPage (e : page_event).

(** The events of the page that take no record away. *)
Definition keeps (e : page_event) : bool :=
  match e with EvCallback | EvFlush | EvInstall _ | EvPagehide | EvVisibility _ => true | _ => false end.

(** Proposed moves are moves the adapter can write; [now] is the time at which
    the page will be back. *)
Definition match_event_ok (now : Z) (ev : match_event) : Prop :=
  match ev with
  | EvCall t c => live_call c = true /\ now - t < DEFAULT_TTL_MS /\
      match c with CallPropose m _ => move_ok m | _ => True end
  | EvPage e => keeps e = true
  end.

Section Playing.
Variable fits : gmap string string -> bool.
Hypothesis room : forall m, fits m = true.
Variable m0 : gmap string string.
Variable h : Hidden.
Variable now : Z.

Definition on_match_event (ev : match_event) (dp : seat * page) : seat * page :=
  match ev with
  | EvCall t c => attached_call P A t match_identity h (do_call P c) dp
  | EvPage e => (fst dp, fst (on_event fits e (snd dp)))
  end.

Definition play_match (evs : list match_event) (dp : seat * page) : seat * page :=
  fold_left (fun dp ev => on_match_event ev dp) evs dp.

Definition newest (l : ledger) : gmap string ResumeRecord := unsaved l ∪ saved l.

(** The position can be written down. *)
Definition position_ok (d : seat) : Prop :=
  state_ok (d_state d) /\ forall p, pending d = Some p -> move_ok (p_move p).

(** The newest record is that of the seat, and the only one. *)
Record recorded (d : seat) (p : page) : Prop := {
  rc_playing : playing d;
  rc_position : position_ok d;
  rc_ledger : exists l t, holds m0 p l /\ now - t < DEFAULT_TTL_MS /\
    newest l = from_option (fun r => {[ tid := r ]}) ∅ (buildRecord P A t d h match_identity)
}.

Lemma position_step c d : live_call c = true -> playing d -> position_ok d ->
  match c with CallPropose m _ => move_ok m | _ => True end -> position_ok (do_call P c d).
Proof.
  intros Hc [Hs Hse _ _ _ _ _] [Hst Hmv] Hm. unfold position_ok. destruct (live_cases c d Hc Hs Hse) as
    [(_ & -> & _ & _ & ->)|[(m & ts & p & enc & f & -> & _ & -> & _ & -> & Hp & _)|(m & by_ & co & _ & Hap & _ & ->)]].
  - done.
  - split; [done|]. intros p' [= <-]. by rewrite Hp.
  - split; [by apply (state_step _ _ _ _ Hst Hap)|done].
Qed.

Lemma playing_step c d : live_call c = true -> playing d -> playing (do_call P c d).
Proof.
  intros Hc [Hs Hse E1 E2 E3 E4 Hn]. destruct (call_frame bk P c d Hs) as [(F1 & F2 & F3 & F4 & F5) Hle].
  split; try congruence; [by apply safe_call|by apply live_seated|lia].
Qed.

Lemma buildRecord_same t d d' : same_position d d' ->
  buildRecord P A t d' h match_identity = buildRecord P A t d h match_identity.
Proof. intros (_ & Es & En & El & Ep). unfold buildRecord, snapshot. by rewrite Es, El, Ep. Qed.

Lemma buildRecord_some t d : is_Some (buildRecord P A t d h match_identity) <-> d_latest d <> None.
Proof.
  unfold buildRecord, snapshot. destruct (d_latest d); split; try done; by intros [? ?].
Qed.

Lemma built_ok t d r : position_ok d -> buildRecord P A t d h match_identity = Some r ->
  record_ok r = true /\ rr_tunnelId r = tid.
Proof.
  intros [Hs Hm] Hb. destruct (d_latest d) as [co|] eqn:El.
  2:{ assert (is_Some (buildRecord P A t d h match_identity)) as H by (by rewrite Hb).
      by apply buildRecord_some in H. }
  destruct (record_fields d t h r co Hb El) as (F1 & _ & F3 & _ & _ & F6 & F7). split; [|done].
  unfold record_ok. rewrite F1, F3, F7, (state_value (A := A)) by done. cbn [andb].
  destruct (captureSecret A) as [f|] eqn:Ef; [destruct (secret_value f h Ef) as [-> _]|]; cbn [js_value andb];
    (destruct (pending d) as [p|]; [cbn; apply (move_value (A := A)); by apply Hm|done]).
Qed.

Lemma newest_write l r : newest (ledger_event l (EvWrite r)) = <[rr_tunnelId r := r]> (newest l).
Proof. unfold newest. cbn. by rewrite insert_union_l. Qed.

Lemma newest_keeps l e : keeps e = true -> newest (ledger_event l e) = newest l.
Proof.
  intros He. assert (newest (settle_writes l) = newest l) as Hs.
  { unfold newest. cbn. by rewrite (left_id_L ∅ _). }
  destruct e; try discriminate He; cbn [ledger_event]; try done; by case_match.
Qed.

Lemma recorded_step ev d p : recorded d p -> match_event_ok now ev ->
  let '(d', p') := on_match_event ev (d, p) in recorded d' p'.
Proof.
  intros [Hpl Hpo (l & t & Hh & Ht & Hn)] Hev. destruct ev as [t' c|e]; cbn [on_match_event fst snd].
  - destruct Hev as (Hc & Ht' & Hm). unfold attached_call. cbn [fst snd].
    pose proof (playing_step c d Hc Hpl) as Hpl'. pose proof (position_step c d Hc Hpl Hpo Hm) as Hpo'.
    pose proof (live_cases c d Hc (pl_safe _ Hpl) (pl_seated _ Hpl)) as Hcases. cbv zeta in Hcases.
    set (d' := do_call P c d) in *. destruct (existsb is_hook _) eqn:Et.
    + unfold persist. destruct (buildRecord P A t' d' h match_identity) as [r|] eqn:Eb.
      * destruct (built_ok t' d' r Hpo' Eb) as [Hr Htid].
        destruct (holds_write m0 r p l Hh Hr) as (p' & -> & Hh'). split; [done..|].
        exists (ledger_event l (EvWrite r)), t'. split_and!; [done..|].
        rewrite newest_write, Hn, Htid, Eb.
        destruct (buildRecord P A t d h match_identity); cbn [from_option].
        -- by rewrite insert_singleton_eq.
        -- by rewrite insert_empty.
      * split; [done..|]. exists l, t. split_and!; [done..|]. rewrite Hn.
        assert (d_latest d' = None) as El'.
        { destruct (d_latest d') eqn:E; [|done]. destruct (proj2 (buildRecord_some t' d')) as [? ?]; congruence. }
        assert (d_latest d = None) as El.
        { destruct Hcases as [(_ & _ & _ & E & _)|[(? & ? & ? & ? & ? & _ & _ & _ & E & _)|(? & ? & ? & _ & _ & E & _)]];
            congruence. }
        unfold buildRecord, snapshot. by rewrite El, El'.
    + split; [done..|]. exists l, t. split_and!; [done..|]. rewrite Hn. f_equal. symmetry. apply buildRecord_same.
      destruct Hcases as [H|[(? & ? & ? & ? & ? & _ & H & _)|(? & ? & ? & H & _)]]; [done|unfold told in H; congruence..].
  - destruct (holds_event fits room m0 e p l Hh) as (p' & -> & Hh'); [by destruct e|].
    split; [done..|]. exists (ledger_event l e), t. split_and!; [done..|]. by rewrite newest_keeps.
Qed.

Lemma recorded_play evs d p : recorded d p -> Forall (match_event_ok now) evs ->
  let '(d', p') := play_match evs (d, p) in recorded d' p'.
Proof.
  intros Hr Hevs. revert d p Hr. induction Hevs as [|ev evs Hev _ IH]; intros d p Hr; [done|].
  cbn [play_match fold_left]. pose proof (recorded_step ev d p Hr Hev) as H1.
  destruct (on_match_event ev (d, p)) as [d1 p1]. by apply IH.
Qed.

Lemma recorded_open initial d : (forall k, resume_key k -> m0 !! k = None) -> state_ok (d_state d) ->
  newDistributedTunnel P tid own_end opp_end party codec initial = Ok d -> recorded d (loaded (Some m0)).
Proof.
  intros H0 Hst Hd. assert (own_endpoint bk own_end) as Ho by (by exists wallet, sk).
  assert (opp_endpoint bk opp_end) as Hoo by (by exists ow, opk).
  destruct (opened_safe bk P _ _ _ _ _ _ _ Ho Hoo Hd) as (Hs & E1 & _ & E2 & E3 & E4).
  unfold newDistributedTunnel in Hd. inv_ok. split.
  - by split.
  - by split.
  - exists empty_ledger, now. split_and!; [by apply holds_loaded|unfold DEFAULT_TTL_MS; lia|].
    unfold newest, buildRecord, snapshot. cbn. by rewrite (left_id_L ∅ _).
Qed.

Lemma singleton_index (ids : list string) (m : gmap string ResumeRecord) r :
  m = {[ tid := r ]} -> NoDup ids -> (forall id, id ∈ ids <-> is_Some (m !! id)) -> ids = [tid].
Proof.
  intros -> Hnd Hi. apply Permutation_singleton_r, NoDup_Permutation; [done|apply NoDup_singleton|].
  intros id. rewrite Hi, lookup_singleton_is_Some, list_elem_of_singleton. naive_solver.
Qed.

(** One saved record that is not too old is found and rebuilt. *)
Lemma resume_found d p l t r co h0 :
  playing d -> writable d -> reopens d -> d_latest d = Some co -> isTerminal P (d_state d) = false ->
  holds m0 p l -> saved l = {[ tid := r ]} -> now - t < DEFAULT_TTL_MS ->
  buildRecord P A t d h match_identity = Some r ->
  exists p' d', resumeActiveTunnels bk P A fits now g resume_spec wallet (p, h0) =
    ((p', resumed_hidden h h0), Ok [d']) /\ same_position d d'.
Proof.
  intros Hpl Hw Hro El Hte Hh Hsv Ht Hb. destruct (record_fields d t h r co Hb El) as (F1 & _ & _ & F4 & F5 & _).
  destruct (holds_evict fits room m0 now DEFAULT_TTL_MS p l Hh) as (p1 & Ee & Hh1).
  assert (saved (ledger_event l (EvEvict now DEFAULT_TTL_MS)) = {[ tid := r ]}) as Hsv1.
  { rewrite <- Hsv. cbn. apply map_eq. intros k. rewrite lookup_fresh. unfold stale. rewrite Hsv.
    destruct (decide (tid = k)) as [<-|Hne]; [|by rewrite lookup_singleton_ne].
    rewrite lookup_singleton_eq, F5. rewrite (proj2 (Z.leb_gt _ _)) by done. done. }
  destruct (holds_list m0 p1 _ Hh1) as (ids & Ei & Hnd & Hids).
  apply (singleton_index ids _ r) in Hids; [|done..]. subst ids.
  pose proof (holds_read m0 p1 _ tid Hh1) as Hread. rewrite Hsv1, lookup_singleton_eq in Hread. cbn [fmap option_fmap option_map] in Hread.
  destruct (rebuild_seat d t h h0 r co Hpl Hw Hro El Hb) as (d' & Hre & Hsame).
  exists p1, d'. split; [|done].
  unfold resumeActiveTunnels, on_page, ebind at 1, on_fst. cbn [fst snd]. rewrite Ee.
  unfold ebind, eget, elift, eret. cbn [fst snd]. rewrite Ei. cbn [resume_each]. unfold ebind, eget. cbn [fst snd].
  rewrite Hread, game_record, F4, String.eqb_refl. unfold resume_one, ebind, elift, eret.
  rewrite record_state. cbn [rbind]. rewrite F1, (state_back (A := A)), Hte by (apply Hw).
  rewrite record_roundtrip. cbn [fst snd]. by rewrite Hre.
Qed.

End Playing.

(** C6: a reload loses nothing.  A seat whose match is played in any way, its
    moves, the opponent's frames, resends and settlement halves interleaved
    with the store's callback, flushes and page events, is rebuilt by
    [resumeActiveTunnels] after a flush and a reload: exactly one session comes
    back, at the same state, nonce, co-signed update and pending proposal
    (signed again to the same bytes), under the same keys, and with the secret
    the game had captured; provided the match has a co-signed update, is not
    over, the record has not expired, the browser has room and the protocol
    opens on the checkpoint's split of the total. *)
Theorem reload_resumes fits m0 initial d0 evs now h h0 :
  (forall m, fits m = true) -> (forall k, resume_key k -> m0 !! k = None) ->
  newDistributedTunnel P tid own_end opp_end party codec initial = Ok d0 -> state_ok (d_state d0) ->
  Forall (match_event_ok now) evs ->
  let '(d, p) := play_match fits h evs (d0, loaded (Some m0)) in
  d_latest d <> None -> (forall co, d_latest d = Some co -> cosigned_bytes co) ->
  reopens d -> isTerminal P (d_state d) = false ->
  exists p' d',
    resumeActiveTunnels bk P A fits now g resume_spec wallet (after fits [EvFlush; EvReload] p, h0) =
      ((p', resumed_hidden h h0), Ok [d']) /\
    same_position d d'.
Proof.
  intros Hroom H0 Hnew Hst Hevs.
  pose proof (recorded_open m0 h now initial d0 H0 Hst Hnew) as Hr0.
  pose proof (recorded_play fits Hroom m0 h now evs d0 _ Hr0 Hevs) as Hr.
  destruct (play_match fits h evs _) as [d p]. intros Hl Hco Hro Hte.
  destruct Hr as [Hpl [Hs Hm] (l & t & Hh & Ht & Hn)]. destruct (d_latest d) as [co|] eqn:El; [|done].
  destruct (proj2 (buildRecord_some h t d)) as [r Hb]; [by rewrite El|]. rewrite Hb in Hn. cbn [from_option] in Hn.
  apply (resume_found fits Hroom m0 h now d _ (ledger_after [EvFlush; EvReload] l) t r co); try done.
  - split_and!; [done|done|]. intros co'. rewrite El. apply Hco.
  - by apply holds_after.
Qed.

End Match.

End Reload.

(** ** The grace period *)

Section Grace.
Context `{C : Crypto} {State Move Hidden : Type} (P : Protocol State Move) (A : ResumeAdapter State Move Hidden).

(** The only timer armed is the one held, and its number is used up. *)
Definition one_timer (a : attached (State := State) (Move := Move) (Hidden := Hidden)) : Prop :=
  timers a = option_list (graceHandle a) /\ forall h, graceHandle a = Some h -> h < next_timer a.

Lemma cancelled a : one_timer a -> one_timer (cancelGrace a) /\ graceHandle (cancelGrace a) = None.
Proof.
  intros [Ht Hn]. unfold cancelGrace, one_timer. destruct (graceHandle a) as [h|] eqn:E; [|by rewrite E].
  cbn. rewrite Ht. cbn. rewrite Z.eqb_refl. done.
Qed.

(** Whatever the relay and the clock do, one grace timer at most is armed, the
    one the session holds; so once the peer is back nothing expires until it
    drops again. *)
Lemma one_timer_event mid e a : one_timer a -> one_timer (attachResume P A mid e a).
Proof.
  intros H. assert (forall m, one_timer (on_session m a)) as Hs by done. destruct e as [m b|m|m|m|h]; cbn [attachResume].
  - destruct (String.eqb m mid); [|done]. destruct b; [by apply cancelled|done].
  - destruct (String.eqb m mid); [|done]. by apply cancelled.
  - destruct (String.eqb m mid); [|done]. destruct (cancelled a H) as [[Ht _] Hg]. split; cbn.
    + by rewrite Ht, Hg.
    + intros h [= <-]. lia.
  - done.
  - destruct (existsb _ _) eqn:Ee; [|done]. destruct H as [Ht Hn]. rewrite Ht in Ee.
    destruct (graceHandle a) as [h'|]; [|done]. cbn in Ee. rewrite orb_false_r in Ee. apply Z.eqb_eq in Ee as ->.
    split; cbn; [|done]. rewrite Ht. cbn. by rewrite Z.eqb_refl.
Qed.

End Grace.

(** The resync handshake of two sessions: [onResync] and [sendResync] of
    [frontend/src/pvp/resumeSession.ts] over two seats of [Agreement.v]. *)

(** The message as the relay delivers it. *)
Definition seen_resync (m : resync) : resync :=
  {| rs_nonce := rs_nonce m; rs_hasPending := rs_hasPending m; rs_checkpoint := rs_checkpoint m;
     rs_fullState := seen (rs_fullState m) |}.

Lemma relayed_message m : js_value (rs_fullState m) = true -> relayed m = Ok (seen_resync m).
Proof.
  intros Hm. unfold relayed. rewrite parse_stringify_bigint.
  2:{ unfold value_of_resync. cbn [js_value forallb snd]. repeat (apply andb_true_intro; split); try done.
      by destruct (rs_checkpoint m). }
  cbn [rbind]. unfold resync_value, value_of_resync.
  rewrite get_str_strip, get_opt_strip, !vget_strip by distinct_names. simpl vmember. cbn [rbind seen is_undef strip].
  unfold seen_resync. destruct (rs_checkpoint m) as [co|]; cbn [opt_value is_undef rbind].
  - by rewrite cosigned_roundtrip.
  - done.
Qed.

Section Handshake.
Context `{C : Crypto} `{!CryptoLaws C} (bk : CryptoBackend) `{!BackendLaws bk}.
Context {State Move Hidden : Type} (P : Protocol State Move) (A : ResumeAdapter State Move Hidden).
Context (state_ok : State -> Prop) (move_ok : Move -> Prop) `{!AdapterLaws A state_ok move_ok}.
Notation seat := (DistributedTunnel State Move).
Notation session := (session (State := State) (Move := Move) (Hidden := Hidden)).

Definition outcome (a : ReconcileAction) (s : session) : session := fst (onReconciled a s).

(** A peer's resync, once its checkpoint is decoded. *)
Lemma onResync_view (dY : seat) (s : session) :
  (forall co, d_latest dY = Some co -> cosigned_bytes co) -> state_ok (d_state dY) ->
  let m := seen_resync (resync_of A dY) in
  onResync P A m s =
    match (do! _ <- match decideReconcile (view_of (s_seat s)) (view_of dY), d_latest dY with
                    | Adopt, Some co => adopt_resync P A co m
                    | RePropose, _ => on_seat resendPending
                    | _, _ => eret tt
                    end;
           onReconciled (decideReconcile (view_of (s_seat s)) (view_of dY))) s with
    | (s', Ok _) => (s', Ok tt)
    | (s', Throw _) => (outcome Settle s', Ok tt)
    end.
Proof.
  intros Hco Hst m. pose proof (state_defined (A := A) _ Hst) as Hdef. unfold onResync, ebind at 1 2 3, eget, elift.
  assert (is_undef (rs_fullState m) = false) as Hu.
  { cbn. unfold seen. by destruct (serializeState A (d_state dY)). }
  cbn [m seen_resync resync_of rs_checkpoint rs_nonce rs_hasPending] in *. unfold bigint_of. rewrite BigInt_toString.
  assert ((match option_map toWireCoSigned (d_latest dY) with
           | Some w => let! co := fromWireCoSigned w in Ok (Some co) | None => Ok None end) = Ok (d_latest dY)) as ->.
  { destruct (d_latest dY) as [co|]; [|done]. cbn [option_map]. by rewrite wire_cosigned_roundtrip by auto. }
  fold (view_of (s_seat s)). fold (view_of dY). fold m. rewrite Hu.
  set (a := decideReconcile _ _). unfold ebind.
  destruct a, (d_latest dY); try done; cbn [eret];
    repeat match goal with |- context [match ?x s with _ => _ end] => destruct (x s) as [s' [[]|e]] end; done.
Qed.

(** The peer is behind: wait. *)
Lemma resync_ahead (dY : seat) (s : session) :
  (forall co, d_latest dY = Some co -> cosigned_bytes co) -> state_ok (d_state dY) ->
  d_nonce dY < d_nonce (s_seat s) ->
  onResync P A (seen_resync (resync_of A dY)) s = (outcome Wait s, Ok tt).
Proof.
  intros Hco Hst Hlt. rewrite onResync_view by done. unfold decideReconcile. cbn [rv_nonce view_of].
  rewrite (proj2 (Z.ltb_ge _ _)), (proj2 (Z.ltb_lt _ _)) by lia. done.
Qed.

(** Level: re-send a pending proposal. *)
Lemma resync_level (dY : seat) (s : session) :
  (forall co, d_latest dY = Some co -> cosigned_bytes co) -> state_ok (d_state dY) ->
  d_nonce dY = d_nonce (s_seat s) ->
  option_map update (d_latest (s_seat s)) = option_map update (d_latest dY) ->
  onResync P A (seen_resync (resync_of A dY)) s =
    (match pending (s_seat s) with
     | Some p => outcome RePropose (with_seat (emit (Sent (FMove (pendingMoveFrame (s_seat s) p))) (s_seat s)) s)
     | None => outcome Noop s
     end, Ok tt).
Proof.
  intros Hco Hst Hn Hl. rewrite onResync_view by done. unfold decideReconcile. cbn [rv_nonce view_of checkpoint hasPending].
  rewrite !(proj2 (Z.ltb_ge _ _)) by lia.
  assert (match d_latest (s_seat s), d_latest dY with
          | Some cs, Some cp => negb (bytesEqual (stateHash (update cs)) (stateHash (update cp)))
          | _, _ => false end = false) as ->.
  { destruct (d_latest (s_seat s)) as [cs|], (d_latest dY) as [cp|]; try done. injection Hl as ->.
    by rewrite (proj2 (bytesEqual_spec _ _) eq_refl). }
  destruct (pending (s_seat s)) as [p|] eqn:Ep; [|by destruct (d_latest dY)].
  unfold ebind, on_seat, resendPending, ebind, eget, emodify. rewrite Ep. by destruct (d_latest dY).
Qed.

(** The peer is ahead: take its checkpoint, keep the secret, and ask again if
    the peer has a proposal beyond it. *)
Lemma resync_behind (dY : seat) (s : session) co :
  facing bk P (s_seat s) dY -> cosigned_bytes co -> state_ok (d_state dY) ->
  d_nonce (s_seat s) < d_nonce dY -> d_latest dY = Some co ->
  let s1 := with_seat (with_confirmed (d_state dY) (d_nonce dY) co None (s_seat s)) s in
  onResync P A (seen_resync (resync_of A dY)) s =
    (outcome Adopt (match pending dY with Some _ => with_sent (resync_of A (s_seat s1)) s1 | None => s1 end), Ok tt).
Proof.
  intros Hf Hco Hst Hlt Hl s1. rewrite onResync_view, Hl; [|by rewrite Hl; intros ? [= <-]|done].
  assert (decideReconcile (view_of (s_seat s)) (view_of dY) = Adopt) as -> by (by apply decideReconcile_adopt).
  unfold adopt_resync, ebind, eget, elift, on_seat. cbn [rs_fullState seen_resync resync_of].
  rewrite (state_back (A := A)), (adopt_peer bk P _ _ co Hf ltac:(lia) Hl) by done.
  assert (keep_pending (pending (s_seat s)) (d_nonce dY) = None) as ->.
  { destruct (keep_pending _ _) as [p|] eqn:Ek; [|done].
    apply (keep_pending_next bk P) in Ek as [_ ?]; [lia|apply Hf|lia]. }
  fold s1. cbn [rs_hasPending seen_resync resync_of].
  destruct (captureSecret A) as [f|] eqn:Ef; [|by destruct (pending dY)].
  destruct (secret_back f Ef) as (g & -> & Hg).
  destruct (is_undef (f (s_hidden s))); [by destruct (pending dY)|]. rewrite (proj2 (Hg (s_hidden s))).
  by destruct (pending dY).
Qed.

Section TwoSessions.
Context (inv : Z -> State -> Prop) (ctx_ok : ProtocolContext -> Prop).
Context `{!ProtocolLaws P inv ctx_ok}.
Context (tid : string) (pk : Party -> bytes) (deposits : Balances) (mover : Z -> State -> Party -> Prop).

(** C5: the resync handshake brings two sessions together, when at most one party may
    propose at a nonce and in a state -- by the rules of the protocol or because the
    callers take turns ([exclusive]; without it seats can fork beyond repair,
    [simultaneous_proposals_fork]).  It is further supposed that no two well-formed
    states have the same hash ([hash_binding]), that the deposits can be locked,
    that the adapter can send every well-formed state ([state_ok]), and that the
    fields of the co-signed updates held are bytes.  Take any system two honest
    seats can then reach, frames lost, repeated or reordered, and let each session
    handle the resync the other sent, as the relay delivers it: both calls return,
    both seats then hold the same state at the same nonce, the larger of the two,
    the outcome is to settle for neither, no secret is lost, and a proposal that is
    still pending has been sent again or asked for again by a second resync of the
    peer. *)
Theorem resync_converges sg X (sX sY : session) :
  exclusive inv deposits mover -> hash_binding P inv deposits ->
  ctx_ok {| ctx_tunnelId := tid; initialBalances := deposits |} -> lockable deposits ->
  reachable bk P inv tid pk deposits mover sg ->
  (forall s, inv (sum_of deposits) s -> state_ok s) ->
  (forall Y co, d_latest (sg Y) = Some co -> cosigned_bytes co) ->
  s_seat sX = sg X -> s_seat sY = sg (otherParty X) ->
  exists mX mY sX' sY' a b,
    relayed (resync_of A (s_seat sX)) = Ok mX /\ relayed (resync_of A (s_seat sY)) = Ok mY /\
    onResync P A mY sX = (sX', Ok tt) /\ onResync P A mX sY = (sY', Ok tt) /\
    d_state (s_seat sX') = d_state (s_seat sY') /\ d_nonce (s_seat sX') = d_nonce (s_seat sY') /\
    d_nonce (s_seat sX') = Z.max (d_nonce (s_seat sX)) (d_nonce (s_seat sY)) /\
    s_outcomes sX' = s_outcomes sX ++ [a] /\ s_outcomes sY' = s_outcomes sY ++ [b] /\ a <> Settle /\ b <> Settle /\
    s_hidden sX' = s_hidden sX /\ s_hidden sY' = s_hidden sY /\
    forall p, pending (s_seat sX') = Some p ->
      effects (s_seat sX') = effects (s_seat sX) ++ [Sent (FMove (pendingMoveFrame (s_seat sX) p))] \/
      s_sent sY' = s_sent sY ++ [resync_of A (s_seat sY')].
Proof.
  intros Hex Hb Hctx Hlock Hr Hok Hcb EX EY.
  destruct (reachable_facts bk P inv ctx_ok tid pk deposits mover sg Hex Hb Hctx Hlock Hr) as [Hone Heq].
  pose proof (reachable_facing bk P inv ctx_ok tid pk deposits mover sg X Hex Hb Hctx Hlock Hr) as HfX.
  pose proof (reachable_facing bk P inv ctx_ok tid pk deposits mover sg (otherParty X) Hex Hb Hctx Hlock Hr) as HfY.
  rewrite otherParty_involutive in HfY. specialize (Heq X (otherParty X)).
  destruct (Hone X) as (HiX & HnX & HlX). destruct (Hone (otherParty X)) as (HiY & HnY & HlY).
  pose proof (Hcb X) as HcX. pose proof (Hcb (otherParty X)) as HcY.
  rewrite <- EX, <- EY in HfX, HfY, Heq. rewrite <- EX in HiX, HnX, HlX, HcX. rewrite <- EY in HiY, HnY, HlY, HcY.
  apply Hok in HiX, HiY.
  exists (seen_resync (resync_of A (s_seat sX))), (seen_resync (resync_of A (s_seat sY))).
  rewrite !relayed_message by (by apply (state_value (A := A))).
  destruct (Z.lt_trichotomy (d_nonce (s_seat sX)) (d_nonce (s_seat sY))) as [Hlt|[Hn|Hgt]].
  - destruct HlY as [co Hco]; [lia|].
    pose proof (resync_behind (s_seat sY) sX co HfX (HcY co Hco) HiY Hlt Hco) as E1.
    pose proof (resync_ahead (s_seat sX) sY HcX HiX Hlt) as E2. cbv zeta in E1.
    do 2 eexists. exists Adopt, Wait. split; [done|]. split; [done|]. split; [exact E1|]. split; [exact E2|].
    destruct (pending (s_seat sY)); split_and!; try done; cbn; lia.
  - destruct (Heq Hn) as [Est Eup].
    pose proof (resync_level (s_seat sY) sX HcY HiY (eq_sym Hn) Eup) as E1.
    pose proof (resync_level (s_seat sX) sY HcX HiX Hn (eq_sym Eup)) as E2.
    do 2 eexists. exists (if pending (s_seat sX) then RePropose else Noop), (if pending (s_seat sY) then RePropose else Noop).
    split; [done|]. split; [done|]. split; [exact E1|]. split; [exact E2|].
    destruct (pending (s_seat sX)) as [p|] eqn:Ep, (pending (s_seat sY)) eqn:Ep'; split_and!; try done; cbn; try lia;
      intros p'; rewrite Ep; intros [= <-]; by left.
  - destruct HlX as [co Hco]; [lia|].
    pose proof (resync_behind (s_seat sX) sY co HfY (HcX co Hco) HiX Hgt Hco) as E2.
    pose proof (resync_ahead (s_seat sY) sX HcY HiY Hgt) as E1. cbv zeta in E2.
    do 2 eexists. exists Wait, Adopt. split; [done|]. split; [done|]. split; [exact E1|]. split; [exact E2|].
    destruct (pending (s_seat sX)) eqn:Ep; split_and!; try done; cbn; try lia; intros p'; rewrite Ep; [by right|done].
Qed.

End TwoSessions.

End Handshake.
