(* ===== verification/ResumeAdapters.v ===== *)
(** The resume adapters of the two public games:
    [frontend/src/games/chickenCross/crossResumeAdapter.ts] and
    [frontend/src/games/bombIt/bombItResumeAdapter.ts], and that they are what
    the resume driver asks of an adapter.

    Both write the bigints of a state as decimal strings and leave the moves as
    they are; a cast in the code is a reading at the type here. *)

From stdpp Require Import gmap strings.
From S2P Require Import Prelude.
From S2P Require Import Bytes.
From S2P Require Import Protocol.
From S2P Require Import Json.
From S2P Require Import JsValue.
From S2P Require Import Resume.
From S2P Require Import ResumeStore.
From S2P Require Import ResumeSession.
From S2P Require Import BombIt.
From S2P Require Import Cross.

(** ** Reading values *)

(** [BigInt(v)] *)
Definition bigint_value (v : jv) : result Z :=
  match v with
  | VBig z => Ok z
  | VUndef => BigInt None
  | _ => BigInt (Some (tagged v))
  end.

Definition big_field (v : jv) (k : string) : result Z := let! x := vget v k in bigint_value x.

Definition int_value (v : jv) : result Z :=
  match v with VNum (JsInt z) => Ok z | _ => Throw (TypeError "not a number") end.

Definition int_field (v : jv) (k : string) : result Z := let! x := vget v k in int_value x.

Definition array_value (v : jv) : result (list jv) :=
  match v with VArr l => Ok l | _ => Throw (TypeError "not an array") end.

Definition party_name (p : Party) : string := match p with PartyA => "A" | PartyB => "B" end.

Definition party_value (v : jv) : result Party :=
  match v with
  | VStr s => if String.eqb s "A" then Ok PartyA else if String.eqb s "B" then Ok PartyB
              else Throw (TypeError "not a party")
  | _ => Throw (TypeError "not a party")
  end.

(** A pair of values in an array. *)
Definition pair_value {A} (f : jv -> result A) (v : jv) : result (A * A) :=
  let! l := array_value v in
  match l with
  | [x; y] => let! a := f x in let! b := f y in Ok (a, b)
  | _ => Throw (TypeError "not a pair")
  end.

Lemma big_value z : bigint_value (VStr (toString z)) = Ok z.
Proof. apply BigInt_toString. Qed.

Lemma party_named p : party_value (VStr (party_name p)) = Ok p.
Proof. by destruct p. Qed.

(** Evaluate the reading of an object written with distinct names. *)
Ltac read_object :=
  unfold big_field, int_field, get_opt;
  rewrite ?vget_strip by distinct_names;
  simpl vmember; cbn [seen is_undef strip rbind]; rewrite ?big_value; cbn [rbind int_value array_value map].

(** ** Chicken cross *)

Module CrossAdapter.

Definition dir_name (d : CrossDir) : string :=
  match d with Cross.north => "north" | Cross.south => "south" | Cross.east => "east" | Cross.west => "west" end.

Definition dir_value (v : jv) : result CrossDir :=
  match v with
  | VStr s =>
      if String.eqb s "north" then Ok Cross.north else if String.eqb s "south" then Ok Cross.south
      else if String.eqb s "east" then Ok Cross.east else if String.eqb s "west" then Ok Cross.west
      else Throw (TypeError "not a direction")
  | _ => Throw (TypeError "not a direction")
  end.

Definition value_of_player (p : CrossPlayer) : jv :=
  VObj [("lane", VNum (JsInt (lane p))); ("col", VNum (JsInt (col p)));
        ("score", VNum (JsInt (score p))); ("invulnTicks", VNum (JsInt (invulnTicks p)))].

Definition player_value (v : jv) : result CrossPlayer :=
  let! l := int_field v "lane" in
  let! c := int_field v "col" in
  let! s := int_field v "score" in
  let! i := int_field v "invulnTicks" in
  Ok {| lane := l; col := c; score := s; invulnTicks := i |}.

(** [src frontend/src/games/chickenCross/crossResumeAdapter.ts:15-24 serializeState] *)
Definition serializeState (s : CrossState) : jv :=
  VObj [("tick", VStr (toString (Cross.tick s))); ("seed", VStr (toString (Cross.seed s)));
        ("players", VArr [value_of_player (Cross.players s).1; value_of_player (Cross.players s).2]);
        ("winner", match Cross.winner s with Some p => VStr (party_name p) | None => VNull end);
        ("balanceA", VStr (toString (Cross.balanceA s))); ("balanceB", VStr (toString (Cross.balanceB s)));
        ("total", VStr (toString (Cross.total s)))].

Definition winner_value (v : jv) : result (option Party) :=
  match v with VNull => Ok None | _ => let! p := party_value v in Ok (Some p) end.

(** [src frontend/src/games/chickenCross/crossResumeAdapter.ts:25-36 deserializeState] *)
Definition deserializeState (j : jv) : result CrossState :=
  let! t := big_field j "tick" in
  let! sd := big_field j "seed" in
  let! ps := (let! x := vget j "players" in pair_value player_value x) in
  let! w := (let! x := vget j "winner" in winner_value x) in
  let! a := big_field j "balanceA" in
  let! b := big_field j "balanceB" in
  let! tot := big_field j "total" in
  Ok {| Cross.tick := t; Cross.seed := sd; Cross.players := ps; Cross.winner := w;
        Cross.balanceA := a; Cross.balanceB := b; Cross.total := tot |}.

(** A move is JSON as it is. *)
Definition value_of_move (m : CrossMove) : jv :=
  VObj [("dirA", opt_value (fun d => VStr (dir_name d)) (dirA m));
        ("dirB", opt_value (fun d => VStr (dir_name d)) (dirB m))].

Definition move_of_value (j : jv) : result CrossMove :=
  let! a := get_opt dir_value j "dirA" in
  let! b := get_opt dir_value j "dirB" in
  Ok {| dirA := a; dirB := b |}.

(** [src frontend/src/games/chickenCross/crossResumeAdapter.ts makeCrossResumeAdapter] *)
Definition makeCrossResumeAdapter : ResumeAdapter CrossState CrossMove unit :=
  {| ResumeSession.serializeState := serializeState;
     ResumeSession.deserializeState := deserializeState;
     ResumeSession.serializeMove := value_of_move;
     ResumeSession.deserializeMove := move_of_value;
     ResumeSession.captureSecret := None;
     ResumeSession.restoreSecret := None |}.

Lemma player_back p : player_value (strip (value_of_player p)) = Ok p.
Proof. unfold player_value, value_of_player. read_object. by destruct p. Qed.

Lemma dir_named d : dir_value (VStr (dir_name d)) = Ok d.
Proof. by destruct d. Qed.

#[export] Instance cross_adapter_laws : AdapterLaws makeCrossResumeAdapter (fun _ => True) (fun _ => True).
Proof.
  split; cbn [ResumeSession.serializeState ResumeSession.deserializeState ResumeSession.serializeMove
    ResumeSession.deserializeMove captureSecret makeCrossResumeAdapter]; try done.
  - intros s _. unfold serializeState. by destruct (Cross.winner s).
  - intros s _. unfold deserializeState, serializeState, seen. cbn [is_undef]. read_object.
    unfold pair_value. cbn [array_value rbind map]. rewrite !player_back. cbn [rbind].
    destruct s as [tk sd [p q] w a b tot]. cbn [Cross.winner]. by destruct w as [[]|].
  - intros m _. unfold value_of_move. destruct m as [[a|] [b|]]; cbn [dirA dirB opt_value]; done.
  - intros m _. unfold move_of_value, value_of_move, seen. cbn [is_undef]. read_object.
    destruct m as [[a|] [b|]]; cbn [dirA dirB opt_value seen is_undef strip rbind];
      rewrite ?dir_named; done.
Qed.

End CrossAdapter.

(** ** Bomb It *)

Module BombItAdapter.

Definition action_name (a : BombItAction) : string :=
  match a with
  | BombIt.north => "north" | BombIt.south => "south" | BombIt.east => "east" | BombIt.west => "west"
  | bomb => "bomb" | stay => "stay"
  end.

Definition action_value (v : jv) : result BombItAction :=
  match v with
  | VStr s =>
      if String.eqb s "north" then Ok BombIt.north else if String.eqb s "south" then Ok BombIt.south
      else if String.eqb s "east" then Ok BombIt.east else if String.eqb s "west" then Ok BombIt.west
      else if String.eqb s "bomb" then Ok bomb else if String.eqb s "stay" then Ok stay
      else Throw (TypeError "not an action")
  | _ => Throw (TypeError "not an action")
  end.

Definition bool_field (v : jv) (k : string) : result bool :=
  let! x := vget v k in match x with VBool b => Ok b | _ => Throw (TypeError "not a boolean") end.

Definition value_of_player (p : BombItPlayer) : jv :=
  VObj [("row", VNum (JsInt (p_pos p).1)); ("col", VNum (JsInt (p_pos p).2)); ("alive", VBool (alive p))].

Definition player_value (v : jv) : result BombItPlayer :=
  let! r := int_field v "row" in
  let! c := int_field v "col" in
  let! a := bool_field v "alive" in
  Ok {| p_pos := (r, c); alive := a |}.

Definition value_of_bomb (b : BombItBomb) : jv :=
  VObj [("row", VNum (JsInt (b_pos b).1)); ("col", VNum (JsInt (b_pos b).2));
        ("fuse", VNum (JsInt (fuse b))); ("owner", VStr (party_name (owner b)))].

Definition bomb_value (v : jv) : result BombItBomb :=
  let! r := int_field v "row" in
  let! c := int_field v "col" in
  let! f := int_field v "fuse" in
  let! o := (let! x := vget v "owner" in party_value x) in
  Ok {| b_pos := (r, c); fuse := f; owner := o |}.

Definition value_of_winner (w : option BombItWinner) : jv :=
  match w with None => VNull | Some Drawn => VStr "draw" | Some (Won p) => VStr (party_name p) end.

Definition winner_value (v : jv) : result (option BombItWinner) :=
  match v with
  | VNull => Ok None
  | VStr s => if String.eqb s "draw" then Ok (Some Drawn) else let! p := party_value v in Ok (Some (Won p))
  | _ => Throw (TypeError "not a winner")
  end.

(** [Uint8Array.from(numbers)]: each number modulo 256. *)
Definition uint8_from (v : jv) : result bytes :=
  let! l := array_value v in
  rmap (fun x => let! z := int_value x in Ok (z mod 256)) l.

(** [src frontend/src/games/bombIt/bombItResumeAdapter.ts:15-26 serializeState] *)
Definition serializeState (s : BombItState) : jv :=
  VObj [("tick", VStr (toString (BombIt.tick s))); ("seed", VStr (toString (BombIt.seed s)));
        ("grid", VArr (map (fun z => VNum (JsInt z)) (grid s)));
        ("players", VArr [value_of_player (BombIt.players s).1; value_of_player (BombIt.players s).2]);
        ("bombs", VArr (map value_of_bomb (bombs s)));
        ("winner", value_of_winner (BombIt.winner s));
        ("balanceA", VStr (toString (BombIt.balanceA s))); ("balanceB", VStr (toString (BombIt.balanceB s)));
        ("total", VStr (toString (BombIt.total s)))].

(** [src frontend/src/games/bombIt/bombItResumeAdapter.ts:27-40 deserializeState] *)
Definition deserializeState (j : jv) : result BombItState :=
  let! t := big_field j "tick" in
  let! sd := big_field j "seed" in
  let! gr := (let! x := vget j "grid" in uint8_from x) in
  let! ps := (let! x := vget j "players" in pair_value player_value x) in
  let! bs := (let! x := vget j "bombs" in let! l := array_value x in rmap bomb_value l) in
  let! w := (let! x := vget j "winner" in winner_value x) in
  let! a := big_field j "balanceA" in
  let! b := big_field j "balanceB" in
  let! tot := big_field j "total" in
  Ok {| BombIt.tick := t; BombIt.seed := sd; grid := gr; BombIt.players := ps; bombs := bs;
        BombIt.winner := w; BombIt.balanceA := a; BombIt.balanceB := b; BombIt.total := tot |}.

(** A move is JSON as it is. *)
Definition value_of_move (m : BombItMove) : jv :=
  VObj [("a", opt_value (fun d => VStr (action_name d)) (act_a m));
        ("b", opt_value (fun d => VStr (action_name d)) (act_b m))].

Definition move_of_value (j : jv) : result BombItMove :=
  let! a := get_opt action_value j "a" in
  let! b := get_opt action_value j "b" in
  Ok {| act_a := a; act_b := b |}.

(** [src frontend/src/games/bombIt/bombItResumeAdapter.ts makeBombItResumeAdapter] *)
Definition makeBombItResumeAdapter : ResumeAdapter BombItState BombItMove unit :=
  {| ResumeSession.serializeState := serializeState;
     ResumeSession.deserializeState := deserializeState;
     ResumeSession.serializeMove := value_of_move;
     ResumeSession.deserializeMove := move_of_value;
     ResumeSession.captureSecret := None;
     ResumeSession.restoreSecret := None |}.

Lemma bomber_back p : player_value (strip (value_of_player p)) = Ok p.
Proof. unfold player_value, value_of_player, bool_field. read_object. by destruct p as [[] ?]. Qed.

Lemma bomb_back b : bomb_value (strip (value_of_bomb b)) = Ok b.
Proof.
  unfold bomb_value, value_of_bomb. read_object. destruct b as [[r c] f o]. cbn [owner]. by rewrite party_named.
Qed.

Lemma bombs_back bs : rmap bomb_value (map strip (map value_of_bomb bs)) = Ok bs.
Proof. induction bs as [|b bs IH]; [done|]. cbn [map rmap]. by rewrite bomb_back, IH. Qed.

Lemma grid_back gr : bytes_ok gr -> uint8_from (VArr (map strip (map (fun z => VNum (JsInt z)) gr))) = Ok gr.
Proof.
  intros H. unfold uint8_from. cbn [array_value rbind]. rewrite map_map.
  induction H as [|z gr Hz _ IH]; [done|]. cbn [map rmap]. rewrite IH. cbn [strip int_value rbind].
  by rewrite Z.mod_small.
Qed.

Lemma action_named a : action_value (VStr (action_name a)) = Ok a.
Proof. by destruct a. Qed.

Lemma winner_named w : winner_value (seen (value_of_winner w)) = Ok w.
Proof. by destruct w as [[[]|]|]. Qed.

#[export] Instance bombit_adapter_laws :
  AdapterLaws makeBombItResumeAdapter (fun s => bytes_ok (grid s)) (fun _ => True).
Proof.
  split; cbn [ResumeSession.serializeState ResumeSession.deserializeState ResumeSession.serializeMove
    ResumeSession.deserializeMove captureSecret makeBombItResumeAdapter]; try done.
  - intros s _. unfold serializeState. cbn [js_value forallb snd].
    repeat (apply andb_true_intro; split); try done.
    + apply forallb_forall. intros x Hx. by apply in_map_iff in Hx as (z & <- & _).
    + apply forallb_forall. intros x Hx. by apply in_map_iff in Hx as (b & <- & _).
    + by destruct (BombIt.winner s) as [[[]|]|].
  - intros s Hg. unfold serializeState. change (seen (VObj ?m)) with (strip (VObj m)). unfold deserializeState. read_object.
    rewrite grid_back by done.
    unfold pair_value. cbn [array_value rbind map strip]. rewrite !bomber_back, bombs_back. cbn [rbind].
    rewrite winner_named. by destruct s as [? ? ? [] ? ? ? ? ?].
  - intros m _. unfold value_of_move. destruct m as [[a|] [b|]]; cbn [act_a act_b opt_value]; done.
  - intros m _. unfold move_of_value, value_of_move, seen. cbn [is_undef]. read_object.
    destruct m as [[a|] [b|]]; cbn [act_a act_b opt_value seen is_undef strip rbind];
      rewrite ?action_named; done.
Qed.

End BombItAdapter.

(* A chicken-cross match that is reloaded: the resume theorems applied to a
    concrete seat, with the cross adapter. *)
From S2P Require Import Wire.
From S2P Require Import Crypto.
From S2P Require Import Tunnel.
From S2P Require Import DistributedTunnel.
From S2P Require Import SeatSafety.
From S2P Require Import Agreement.
From S2P Require Import AgreementSamples.
From S2P Require Import ResumeReload.

#[local] Existing Instance ideal_crypto.
#[local] Existing Instance ideal_crypto_laws.
#[local] Existing Instance CrossAdapter.cross_adapter_laws.
#[local] Existing Instance baton_laws.

Definition hen_key (X : Party) : bytes := replicate 32 (match X with PartyA => 3 | PartyB => 4 end).
Definition hen_wallet (X : Party) : string := match X with PartyA => "0xa" | PartyB => "0xb" end.
Definition hen_stakes : Balances := {| bal_a := 500; bal_b := 500 |}.
Definition hen_step : CrossMove := {| dirA := Some north; dirB := None |}.

Definition hen_seat (X : Party) : result (DistributedTunnel CrossState CrossMove) :=
  newDistributedTunnel CrossProtocol "0xabc" (own_end nobleBackend (hen_wallet X) (hen_key X))
    (opp_end nobleBackend (hen_wallet (otherParty X)) (hen_key (otherParty X))) X false hen_stakes.

(** The acknowledgement B gives to A's first hop. *)
Definition hen_ack : result AckFrame :=
  let! a := hen_seat PartyA in
  let! b := hen_seat PartyB in
  let a1 := fst (propose CrossProtocol hen_step 5 a) in
  match pending a1 with
  | None => Throw (Error "no proposal")
  | Some p =>
      match last (effects (fst (onMove CrossProtocol (pendingMoveFrame a1 p) b))) with
      | Some (OnConfirmed u) => Ok {| af_nonce := 1; sigResponder := sigB u |}
      | _ => Throw (Error "no acknowledgement")
      end
  end.

(** A hops, B confirms, the callback runs, and A hops again before the reload. *)
Definition hen_events (ack : AckFrame) : list (match_event (State := CrossState) (Move := CrossMove)) :=
  [EvPage (EvInstall true); EvCall 1000 (CallPropose hen_step 5); EvCall 1001 (CallFrame (FAck ack));
   EvPage EvCallback; EvCall 1002 CallResend; EvCall 1003 (CallPropose hen_step 6)].

Definition hen_match (d : DistributedTunnel CrossState CrossMove) (ack : AckFrame)
  : DistributedTunnel CrossState CrossMove * page :=
  play_match CrossProtocol CrossAdapter.makeCrossResumeAdapter "m1" "0xabc" "cross" (hen_wallet PartyB)
    PartyA (hen_key PartyA) (hen_key PartyB) (fun _ => true) tt (hen_events ack) (d, loaded (Some ∅)).

(** The seat has one confirmed hop and one on its way. *)
Definition hen_check (r : result (DistributedTunnel CrossState CrossMove)) (ack : result AckFrame) : bool :=
  match r, ack with
  | Ok d0, Ok k =>
      let d := fst (hen_match d0 k) in
      match d_latest d, pending d with
      | Some co, Some p =>
          (d_nonce d =? 1) && (nonce (p_update p) =? 2) && negb (isTerminal (d_state d)) &&
          bool_decide (bytes_ok (stateHash (update co))) && bool_decide (bytes_ok (sigA co)) &&
          bool_decide (bytes_ok (sigB co))
      | _, _ => false
      end
  | _, _ => false
  end.

Lemma hen_checked : hen_check (hen_seat PartyA) hen_ack = true.
Proof. vm_compute. reflexivity. Qed.

Lemma hen_check_spec r ack : hen_check r ack = true ->
  exists d0 k co, r = Ok d0 /\ ack = Ok k /\ d_latest (hen_match d0 k).1 = Some co /\ cosigned_bytes co /\
    d_nonce (hen_match d0 k).1 = 1 /\ pending (hen_match d0 k).1 <> None /\
    isTerminal (d_state (hen_match d0 k).1) = false.
Proof.
  unfold hen_check. destruct r as [d0|], ack as [k|]; try discriminate. intros H. exists d0, k.
  destruct (d_latest _) as [co|]; [|discriminate]. destruct (pending _) as [p|]; [|discriminate].
  bool_to_prop. exists co. by split_and!.
Qed.

Lemma hen_events_ok k : Forall (match_event_ok (fun _ => True) 2000) (hen_events k).
Proof. unfold hen_events. repeat constructor; unfold DEFAULT_TTL_MS; lia. Qed.

Lemma reload_resumes_witness :
  exists d p p' d', d_nonce d = 1 /\ pending d <> None /\
    resumeActiveTunnels nobleBackend CrossProtocol CrossAdapter.makeCrossResumeAdapter (fun _ => true) 2000 "cross"
      (resume_spec false) "0xa" (after (fun _ => true) [EvFlush; EvReload] p, tt) = ((p', tt), Ok [d']) /\
    same_position d d'.
Proof.
  destruct (hen_check_spec _ _ hen_checked) as (d0 & k & co & E0 & _ & El & Hb & Hn & Hp & Ht).
  pose proof (reload_resumes nobleBackend CrossProtocol CrossAdapter.makeCrossResumeAdapter (fun _ => True) (fun _ => True)
    "m1" "0xabc" "cross" "0xa" (hen_wallet PartyB) PartyA (hen_key PartyA) (hen_key PartyB) false
    eq_refl ltac:(apply (bool_decide_eq_true_1 _); vm_compute; reflexivity)
    ltac:(apply (bool_decide_eq_true_1 _); vm_compute; reflexivity) eq_refl
    (fun _ _ _ _ _ _ => I) (fun _ => true) ∅ hen_stakes d0 (hen_events k) 2000 tt tt
    (fun _ => eq_refl) (fun x _ => lookup_empty x) E0 I (hen_events_ok k)) as H.
  fold (hen_match d0 k) in H. destruct (hen_match d0 k) as [d p] eqn:Em. cbn [fst] in *.
  destruct H as (p' & d' & Hr & Hs); [by rewrite El| |by intros co' _; eexists|done|].
  - intros co'. rewrite El. by intros [= <-].
  - by exists d, p, p', d'.
Defined.

(** ** The handshake, with a secret on each side *)

Definition baton_of_value (j : jv) : result Baton :=
  let! n := big_field j "passes" in
  let! a := big_field j "a" in
  let! b := big_field j "b" in
  Ok {| passes := n; left_a := a; left_b := b |}.

Definition baton_adapter : ResumeAdapter Baton unit Z :=
  {| serializeState := fun s => VObj [("passes", VBig (passes s)); ("a", VBig (left_a s)); ("b", VBig (left_b s))];
     deserializeState := baton_of_value;
     serializeMove := fun _ => VNull;
     deserializeMove := fun _ => Ok tt;
     captureSecret := Some VBig;
     restoreSecret := Some bigint_value |}.

#[local] Instance baton_adapter_laws : AdapterLaws baton_adapter (fun _ => True) (fun _ => True).
Proof.
  split; cbn; try done.
  - intros s _. unfold baton_of_value. by destruct s.
  - by intros [] _.
  - by intros f h [= <-].
  - intros f [= <-]. by exists bigint_value.
Qed.

Definition baton_session (d : DistributedTunnel Baton unit) (secret : Z) : session :=
  {| s_seat := d; s_hidden := secret; s_sent := []; s_outcomes := [] |}.

Definition bytes_latest (d : DistributedTunnel Baton unit) : bool :=
  match d_latest d with
  | Some co => bool_decide (bytes_ok (stateHash (update co))) && bool_decide (bytes_ok (sigA co)) &&
               bool_decide (bytes_ok (sigB co))
  | None => true
  end.

Lemma bytes_latest_spec d co : bytes_latest d = true -> d_latest d = Some co -> cosigned_bytes co.
Proof. unfold bytes_latest. intros H E. rewrite E in H. bool_to_prop. by split_and!. Qed.

Lemma half_way_bytes :
  match half_way with Ok sg => bytes_latest (sg PartyA) && bytes_latest (sg PartyB) | Throw _ => false end = true.
Proof. vm_compute. reflexivity. Qed.

(** A is one move behind: it adopts B's state and keeps its secret. *)
Lemma resync_converges_witness :
  exists sg m sA', half_way = Ok sg /\ relayed (resync_of baton_adapter (sg PartyB)) = Ok m /\
    onResync BatonProtocol baton_adapter m (baton_session (sg PartyA) 7) = (sA', Ok tt) /\
    d_nonce (s_seat sA') = 1 /\ s_hidden sA' = 7.
Proof.
  pose proof half_way_facts as F. pose proof half_way_bytes as B.
  destruct half_way as [sg|] eqn:E; [|discriminate F]. bool_to_prop.
  destruct (resync_converges nobleBackend BatonProtocol baton_adapter (fun _ => True) (fun _ => True)
    baton_inv baton_ctx "0xA1" sk deposits (accepts BatonProtocol) sg PartyA (baton_session (sg PartyA) 7) (baton_session (sg PartyB) 8)
    baton_exclusive baton_binding eq_refl deposits_ok (half_way_reachable sg E) (fun _ _ => I))
    as (mX & mY & sX' & sY' & a & b & _ & HmY & HX & _ & _ & _ & Hn & _ & _ & _ & _ & Hh & _).
  - intros [] co; by apply bytes_latest_spec.
  - done.
  - done.
  - exists sg, mY, sX'. split_and!; try done. rewrite Hn. cbn. lia.
Defined.
