(* ===== verification/PvpClose.v ===== *)
(** The close of an arena match and the pacing of its seats:
    [frontend/src/pvp/settleClose.ts], [proposePlan.ts], [resumeWatchdog.ts] and
    [autoPreference.ts]. *)
From stdpp Require Import gmap strings.
From S2P Require Import Prelude.
From S2P Require Import Bytes.
From S2P Require Import Wire.
From S2P Require Import Crypto.
From S2P Require Import Protocol.
From S2P Require Import Tunnel.
From S2P Require Import DistributedTunnel.
From S2P Require Import SeatSafety.

(** ** When to propose *)

(** [src frontend/src/pvp/proposePlan.ts ProposeInputs] *)
Record ProposeInputs := {
  myRole : Party;
  turnRole : Party;
  terminal : bool;
  hasPending : bool;
  auto : bool;
  hasInput : bool;
  stepMs : Z
}.

(** [src frontend/src/pvp/proposePlan.ts proposePlan]: [None] is no proposal now. *)
Definition proposePlan (i : ProposeInputs) : option Z :=
  if terminal i || negb (party_eqb (turnRole i) (myRole i)) || hasPending i then None
  else Some (if negb (auto i) && hasInput i then 0 else stepMs i).

(** [src frontend/src/pvp/resumeWatchdog.ts resumeWatchdogShouldArm] *)
Definition resumeWatchdogShouldArm (hasPendingMove isPeersTurn : bool) : bool :=
  hasPendingMove || isPeersTurn.

(** [src frontend/src/pvp/autoPreference.ts defaultAuto] *)
Definition defaultAuto (autoByGame : gmap string bool) (game : string) : bool :=
  default false (autoByGame !! game).

(** [src frontend/src/pvp/autoPreference.ts rememberAuto] *)
Definition rememberAuto (game : string) (on : bool) (autoByGame : gmap string bool) : gmap string bool :=
  <[game := on]> autoByGame.

(** Of two seats that see the same turn, at most one proposes; and a resumed
    seat that does not propose, in a match that goes on, watches its peer. *)
Lemma one_proposer i j :
  turnRole i = turnRole j -> myRole j = otherParty (myRole i) ->
  proposePlan i <> None -> proposePlan j = None.
Proof.
  intros Et Em. unfold proposePlan. rewrite Et, Em. destruct (terminal i), (hasPending i); try done.
  - by rewrite orb_true_r.
  - destruct (myRole i), (turnRole j); cbn; try done; by rewrite orb_true_r.
Qed.

Lemma idle_seat_watches i :
  terminal i = false -> proposePlan i = None ->
  resumeWatchdogShouldArm (hasPending i) (party_eqb (turnRole i) (otherParty (myRole i))) = true.
Proof.
  unfold proposePlan, resumeWatchdogShouldArm. intros ->. destruct (hasPending i); [done|].
  destruct (turnRole i), (myRole i); done.
Qed.

(** ** The close *)

Section Close.
Context `{C : Crypto} `{!CryptoLaws C} (bk : CryptoBackend) `{!BackendLaws bk}.
Context {State Move : Type} (P : Protocol State Move).
Notation seat := (DistributedTunnel State Move).

(** [src frontend/src/pvp/settleClose.ts coSignCloseFromPeerRoot] *)
Definition coSignCloseFromPeerRoot (createdAt : Z) (peerRoot peerSig : bytes)
  : eff seat CoSignedSettlementWithRoot :=
  do! half <- buildSettlementHalfWithRoot P createdAt peerRoot 0;
  do! d <- eget;
  elift (combineSettlementWithRoot d (fst half) (snd half) peerSig).

(** The settlement of a seat's state over a root. *)
Definition close_over (d : seat) (createdAt : Z) (root : bytes) : SettlementWithRoot :=
  {| r_settlement :=
       {| s_tunnelId := d_tunnelId d; s_partyABalance := bal_a (balances P (d_state d));
          s_partyBBalance := bal_b (balances P (d_state d)); s_finalNonce := 1; s_timestamp := createdAt |};
     r_transcriptRoot := root |}.

Lemma half_cases (d : seat) createdAt root :
  (exists e, buildSettlementHalfWithRoot P createdAt root 0 d = (d, Throw e)) \/
  (exists msg f, length root = 32%nat /\ serializeSettlementWithRoot (close_over d createdAt root) = Ok msg /\
     ep_sign (self d) = Some f /\
     buildSettlementHalfWithRoot P createdAt root 0 d =
       (emit (Signed msg) d, Ok (close_over d createdAt root, f msg))).
Proof.
  unfold buildSettlementHalfWithRoot, sign_self, ebind, eget, elift, emodify, eret, ethrow. cbv zeta.
  destruct (Nat.eqb_spec (length root) 32) as [Hl|]; [|by left; eexists]. cbn [negb].
  change (0 + 1) with 1. fold (close_over d createdAt root).
  destruct (serializeSettlementWithRoot _) as [msg|e] eqn:Em; [|by left; eexists].
  destruct (ep_sign (self d)) as [f|] eqn:Ef; [|by left; eexists].
  right. by exists msg, f.
Qed.

(** The two signatures of a close, in the order of the parties, verify. *)
Definition close_signed (d : seat) (c : CoSignedSettlementWithRoot) : Prop :=
  exists msg, serializeSettlementWithRoot (csr_settlement c) = Ok msg /\
    verify (csr_sigA c) msg (pkA d) = true /\ verify (csr_sigB c) msg (pkB d) = true.

Lemma close_ok d createdAt root sig d' c :
  seat_safe bk P d -> coSignCloseFromPeerRoot createdAt root sig d = (d', Ok c) ->
  csr_settlement c = close_over d createdAt root /\ close_signed d c /\
  d_state d' = d_state d /\ d_nonce d' = d_nonce d.
Proof.
  intros Hs. unfold coSignCloseFromPeerRoot, ebind.
  destruct (half_cases d createdAt root) as [(e & ->)|(msg & f & Hl & Em & Ef & ->)]; [done|].
  unfold eget, elift, combineSettlementWithRoot. cbn [fst snd]. rewrite Em. cbn [rbind opponent emit].
  rewrite (opp_accepts bk P) by done. destruct (verify sig msg _) eqn:Ev; [|done]. cbn [negb]. intros [= <- <-].
  pose proof (own_sign bk P d f msg Hs Ef) as Hv. unfold close_signed, pkA, pkB.
  change (selfIsA (emit (Signed msg) d)) with (selfIsA d). destruct (selfIsA d); split_and!; eauto.
Qed.

(** The close of an arena match.  Whatever root and signature the peer sends, a
    close that comes out pays the balances of this seat's own state, carries
    that root, and has both signatures over its bytes; and when the peer is the
    other end of the tunnel in the same state, its half is accepted and both
    sides hold the same settlement. *)
Theorem close_from_peer_root dX dY createdAt root :
  facing bk P dX dY -> d_state dX = d_state dY ->
  (forall sig d' c, coSignCloseFromPeerRoot createdAt root sig dX = (d', Ok c) ->
     csr_settlement c = close_over dX createdAt root /\ close_signed dX c /\ d_state d' = d_state dX) /\
  (forall dY' s sig, buildSettlementHalfWithRoot P createdAt root 0 dY = (dY', Ok (s, sig)) ->
     exists d' c, coSignCloseFromPeerRoot createdAt root sig dX = (d', Ok c) /\ csr_settlement c = s).
Proof.
  intros (HsX & HsY & Et & Etot & Ep & Ek1 & Ek2) Es. split.
  - intros sig d' c H. apply close_ok in H; tauto.
  - intros dY' s sig H. assert (close_over dX createdAt root = close_over dY createdAt root) as Ec
      by (unfold close_over; by rewrite Et, Es).
    destruct (half_cases dY createdAt root) as [(e & E)|(msg & g & Hl & Em & Eg & E)]; rewrite E in H; [done|].
    injection H as _ <- <-. destruct (own_endpoint_signs bk _ msg (ss_self _ _ _ HsX)) as (f & Hf & _).
    unfold coSignCloseFromPeerRoot, ebind.
    destruct (half_cases dX createdAt root) as [(e & E')|(msg' & f' & _ & Em' & Ef' & ->)].
    { unfold buildSettlementHalfWithRoot, sign_self, ebind, eget, elift, emodify, eret, ethrow in E'. cbv zeta in E'.
      rewrite Hl in E'. cbn [Nat.eqb negb] in E'. change (0 + 1) with 1 in E'. fold (close_over dX createdAt root) in E'.
      rewrite Ec, Em, Hf in E'. done. }
    rewrite Ec, Em in Em'. injection Em' as <-.
    unfold eget, elift, combineSettlementWithRoot. cbn [fst snd]. rewrite Ec, Em. cbn [rbind opponent emit].
    rewrite (opp_accepts bk P), Ek2, (own_sign bk P dY g msg HsY Eg) by done. cbn [negb].
    do 2 eexists. split; [reflexivity|]. by destruct (selfIsA _).
Qed.

End Close.
