(* ===== verification/MoveTunnel.v ===== *)
(** The tunnel contract, [sui_tunnel/sources/tunnel.move]: what the chain does
    with the messages the engines co-sign.

    A tunnel is a record; its dynamic fields are two maps and an option.  A
    function takes the sender and the clock and returns the tunnel with the
    coins it sends, or aborts.  Events are not kept: they repeat fields. *)

From stdpp Require Import gmap.
From S2P Require Import Prelude.
From S2P Require Import Bytes.
From S2P Require Import Wire.
From S2P Require Import Crypto.

(* What the Move contracts of [sui_tunnel/sources/] use of their language --
    aborts, checked 64-bit arithmetic, balances -- and the module [signature]
    they verify with. *)

(** * Aborts

    An aborted call undoes everything it did, so a call is a function that
    returns the new state or a code.  [ArithmeticError] is the virtual machine's
    own code; [ENotEnough] is the one of [sui::balance::split].  The last four are
    the ways a programmable transaction fails outside the functions it calls. *)
Inductive abort_code :=
  | ENotAuthorized | EInvalidState | EInvalidParameter | EAlreadyExists | ENotFound
  | ENotSupported | EInvalidHash | EInvalidSignature | EInvalidPublicKey
  | EUnsupportedSignatureType | ETunnelClosed | EInvalidParties | EInvalidNonce
  | EInvalidVersion | EStaleState | EInvalidTranscriptRoot | ENoActiveDispute
  | ETimeoutNotReached | ERefereeNotAuthorized | EInvalidTimeout | EInvalidPreimage
  | EHtlcExpired | EHtlcNotExpired | EOutstandingHtlc | EInsufficientBalance
  | EBalanceSumMismatch | EMinimumDepositNotMet | ECannotExtendDuringDispute
  | EInvalidPartyASignature | EInvalidPartyBSignature | ETimeoutExtensionTooLarge
  | ETimeoutTooLong | ENotAnUpgrade | EInvalidDepositAmount | ETimeoutReached
  | ESpendCapExceeded | ENotYetVested | EStaleAuthorization
  | ArithmeticError | ENotEnough
  | FunctionNotFound | CommandArgumentError | TypeMismatch | UnusedValueWithoutDrop.

#[export] Instance abort_code_eq_dec : EqDecision abort_code.
Proof. solve_decision. Defined.

Inductive move (A : Type) : Type :=
  | Done (a : A)
  | Abort (e : abort_code).
Arguments Done {A} a.
Arguments Abort {A} e.

#[export] Instance move_eq_dec {A} `{EqDecision A} : EqDecision (move A).
Proof. solve_decision. Defined.

Definition move_bind {A B} (m : move A) (k : A -> move B) : move B :=
  match m with
  | Done a => k a
  | Abort e => Abort e
  end.

Declare Scope move_scope.
Delimit Scope move_scope with move.
#[global] Open Scope move_scope.

Notation "'let*' x := e 'in' k" := (move_bind e (fun x => k))
  (at level 200, x binder, e at level 200, k at level 200,
   format "'[v' 'let*'  x  :=  e  'in' '/' k ']'") : move_scope.
Notation "'assert!' b 'else' e ; k" := (if b then k else Abort e)
  (at level 200, b at level 100, e at level 100, k at level 200,
   format "'[v' 'assert!'  b  'else'  e ; '/' k ']'") : move_scope.

Lemma Done_inj {A} (a b : A) : Done a = Done b -> a = b.
Proof. congruence. Qed.

(** Follow a call that did not abort. *)
Ltac inv_done :=
  repeat match goal with
  | H : move_bind ?e _ = Done _ |- _ =>
      let E := fresh "E" in destruct e eqn:E; cbn [move_bind] in H; [|discriminate H]
  | H : (if ?b then _ else Abort _) = Done _ |- _ =>
      let E := fresh "E" in destruct b eqn:E; [|discriminate H]
  | H : (if ?b then Abort _ else _) = Done _ |- _ =>
      let E := fresh "E" in destruct b eqn:E; [discriminate H|]
  | H : Abort _ = Done _ |- _ => discriminate H
  | H : Done _ = Done _ |- _ => apply Done_inj in H; try subst
  end.

(** * Integers and balances *)

(** [a + b] and [a - b] on [u64]. *)
Definition u64_add (a b : Z) : move Z :=
  assert! a + b <=? U64_MAX else ArithmeticError ; Done (a + b).

Definition u64_sub (a b : Z) : move Z :=
  assert! b <=? a else ArithmeticError ; Done (a - b).

(** [balance.split(amount)]: what is left in the balance. *)
Definition balance_split (value amount : Z) : move Z :=
  assert! amount <=? value else ENotEnough ; Done (value - amount).

Lemma u64_add_ok a b c : u64_add a b = Done c <-> c = a + b /\ a + b <= U64_MAX.
Proof. unfold u64_add. destruct (Z.leb_spec (a + b) U64_MAX); naive_solver lia. Qed.

Lemma u64_sub_ok a b c : u64_sub a b = Done c <-> c = a - b /\ b <= a.
Proof. unfold u64_sub. destruct (Z.leb_spec b a); naive_solver lia. Qed.

Lemma balance_split_ok v a c : balance_split v a = Done c <-> c = v - a /\ a <= v.
Proof. unfold balance_split. destruct (Z.leb_spec a v); naive_solver lia. Qed.

(** The same facts, as a step of {!inv_done}. *)
Ltac inv_u64 :=
  repeat match goal with
  | H : u64_add _ _ = Done _ |- _ => apply u64_add_ok in H as [-> ?]
  | H : u64_sub _ _ = Done _ |- _ => apply u64_sub_ok in H as [-> ?]
  | H : balance_split _ _ = Done _ |- _ => apply balance_split_ok in H as [-> ?]
  end.

(** * The module [signature] *)

(** The natives of the Sui framework the contracts call. *)
Class Natives : Type := {
  native_ed25519_verify : bytes -> bytes -> bytes -> bool;
  native_bls12381_min_sig_verify : bytes -> bytes -> bytes -> bool;
  native_bls12381_min_pk_verify : bytes -> bytes -> bytes -> bool;
  native_secp256k1_verify : bytes -> bytes -> bytes -> Z -> bool;
  native_blake2b256 : bytes -> bytes
}.

(** The chain and the client run the same ed25519 and the same blake2b: what the
    client signs, the native accepts; keys have 32 bytes. *)
Class NativeLaws (C : Crypto) (N : Natives) : Prop := {
  native_verify_sign : forall m sk, length sk = 32%nat ->
    native_ed25519_verify (ed25519_sign m sk) (ed25519_getPublicKey sk) m = true;
  native_blake : forall d, native_blake2b256 d = blake2b d;
  getPublicKey_length : forall sk, length sk = 32%nat ->
    length (ed25519_getPublicKey sk) = 32%nat
}.

(** [src sui_tunnel/sources/signature.move SIG_TYPE_ED25519] *)
Definition SIG_TYPE_ED25519 : Z := 0.
(** [src sui_tunnel/sources/signature.move SIG_TYPE_BLS12381_MIN_SIG] *)
Definition SIG_TYPE_BLS12381_MIN_SIG : Z := 1.
(** [src sui_tunnel/sources/signature.move SIG_TYPE_BLS12381_MIN_PK] *)
Definition SIG_TYPE_BLS12381_MIN_PK : Z := 2.
(** [src sui_tunnel/sources/signature.move SIG_TYPE_SECP256K1] *)
Definition SIG_TYPE_SECP256K1 : Z := 3.

(** [src sui_tunnel/sources/signature.move is_valid_signature_type] *)
Definition is_valid_signature_type (sig_type : Z) : bool :=
  (sig_type =? SIG_TYPE_ED25519) || (sig_type =? SIG_TYPE_BLS12381_MIN_SIG) ||
  (sig_type =? SIG_TYPE_BLS12381_MIN_PK) || (sig_type =? SIG_TYPE_SECP256K1).

(** [src sui_tunnel/sources/signature.move is_valid_public_key_length] *)
Definition is_valid_public_key_length (sig_type : Z) (public_key : bytes) : bool :=
  let pk_len := length public_key in
  if sig_type =? SIG_TYPE_ED25519 then (pk_len =? 32)%nat
  else if sig_type =? SIG_TYPE_BLS12381_MIN_SIG then (pk_len =? 96)%nat
  else if sig_type =? SIG_TYPE_BLS12381_MIN_PK then (pk_len =? 48)%nat
  else if sig_type =? SIG_TYPE_SECP256K1 then (pk_len =? 33)%nat || (pk_len =? 65)%nat
  else false.

(** [src sui_tunnel/sources/signature.move is_valid_signature_length] *)
Definition is_valid_signature_length (sig_type : Z) (sig : bytes) : bool :=
  let sig_len := length sig in
  if sig_type =? SIG_TYPE_ED25519 then (sig_len =? 64)%nat
  else if sig_type =? SIG_TYPE_BLS12381_MIN_SIG then (sig_len =? 48)%nat
  else if sig_type =? SIG_TYPE_BLS12381_MIN_PK then (sig_len =? 96)%nat
  else if sig_type =? SIG_TYPE_SECP256K1 then (sig_len =? 64)%nat
  else false.

(** [src sui_tunnel/sources/signature.move HASH_SHA256] *)
Definition HASH_SHA256 : Z := 1.

Section Signature.
Context `{N : Natives}.

(** [src sui_tunnel/sources/signature.move verify] *)
Definition signature_verify (sig_type : Z) (public_key message sig : bytes) : move bool :=
  assert! is_valid_signature_type sig_type else EUnsupportedSignatureType ;
  assert! is_valid_public_key_length sig_type public_key else EInvalidPublicKey ;
  assert! is_valid_signature_length sig_type sig else EInvalidSignature ;
  Done (if sig_type =? SIG_TYPE_ED25519 then native_ed25519_verify sig public_key message
        else if sig_type =? SIG_TYPE_BLS12381_MIN_SIG
        then native_bls12381_min_sig_verify sig public_key message
        else if sig_type =? SIG_TYPE_BLS12381_MIN_PK
        then native_bls12381_min_pk_verify sig public_key message
        else if sig_type =? SIG_TYPE_SECP256K1
        then native_secp256k1_verify sig public_key message HASH_SHA256
        else false).

(** What the client signs with an ed25519 key, the contract accepts. *)
Lemma signature_verify_client `{C : Crypto, !NativeLaws C N, !SignatureLaws C} m sk :
  length sk = 32%nat ->
  signature_verify SIG_TYPE_ED25519 (ed25519_getPublicKey sk) m (ed25519_sign m sk) = Done true.
Proof.
  intros Hl. unfold signature_verify. cbn [is_valid_signature_type Z.eqb orb].
  unfold is_valid_public_key_length, is_valid_signature_length. simpl.
  by rewrite getPublicKey_length, sign_length, native_verify_sign.
Qed.

End Signature.

(** [src sui_tunnel/sources/signature.move u64_to_be_bytes] *)
Definition u64_to_be_bytes (value : Z) : bytes :=
  [Z.land (Z.shiftr value 56) 255; Z.land (Z.shiftr value 48) 255;
   Z.land (Z.shiftr value 40) 255; Z.land (Z.shiftr value 32) 255;
   Z.land (Z.shiftr value 24) 255; Z.land (Z.shiftr value 16) 255;
   Z.land (Z.shiftr value 8) 255; Z.land value 255].

(** The contract and the client write a [u64] alike. *)
Lemma u64_to_be_bytes_eq v : u64_to_be_bytes v = be_bytes 8 v.
Proof. unfold u64_to_be_bytes. reflexivity. Qed.

(** The natives of the evaluated instances. *)
#[export] Instance toy_natives : Natives := {|
  native_ed25519_verify := fun sig pk m => bytesEqual sig (toy_sign m pk);
  native_bls12381_min_sig_verify := fun _ _ _ => false;
  native_bls12381_min_pk_verify := fun _ _ _ => false;
  native_secp256k1_verify := fun _ _ _ _ => false;
  native_blake2b256 := toy_digest
|}.

#[export] Instance toy_native_laws : NativeLaws toy_crypto toy_natives.
Proof.
  split; [|done|done]. intros m sk _. simpl. by apply bytesEqual_spec.
Qed.

Module Move.

(** A 32-byte address or object id, as [to_bytes] gives it. *)
Definition addr : Type := bytes.

(** [src sui_tunnel/sources/tunnel.move CURRENT_VERSION] *)
Definition CURRENT_VERSION : Z := 1.
(** [src sui_tunnel/sources/tunnel.move STATUS_CREATED] *)
Definition STATUS_CREATED : Z := 0.
(** [src sui_tunnel/sources/tunnel.move STATUS_ACTIVE] *)
Definition STATUS_ACTIVE : Z := 1.
(** [src sui_tunnel/sources/tunnel.move STATUS_CLOSED] *)
Definition STATUS_CLOSED : Z := 2.
(** [src sui_tunnel/sources/tunnel.move STATUS_DISPUTED] *)
Definition STATUS_DISPUTED : Z := 3.
(** [src sui_tunnel/sources/tunnel.move STATUS_DESTROYED] *)
Definition STATUS_DESTROYED : Z := 4.
(** [src sui_tunnel/sources/tunnel.move MIN_DEPOSIT] *)
Definition MIN_DEPOSIT : Z := 1.
(** [src sui_tunnel/sources/tunnel.move MAX_TIMEOUT_EXTENSION_MS] *)
Definition MAX_TIMEOUT_EXTENSION_MS : Z := 604800000.
(** [src sui_tunnel/sources/tunnel.move MAX_TOTAL_TIMEOUT_MS] *)
Definition MAX_TOTAL_TIMEOUT_MS : Z := 2592000000.

(** [src sui_tunnel/sources/tunnel.move PartyConfig] *)
Record PartyConfig := {
  address : addr;
  public_key : bytes;
  signature_type : Z
}.

(** [src sui_tunnel/sources/tunnel.move StateCommitment] *)
Record StateCommitment := {
  state_hash : bytes;
  nonce : Z;
  timestamp : Z;
  party_a_balance : Z;
  party_b_balance : Z
}.

(** [src sui_tunnel/sources/tunnel.move TunnelHTLC] *)
Record TunnelHTLC := {
  htlc_payment_hash : bytes;
  htlc_amount : Z;
  htlc_sender : addr;
  htlc_receiver : addr;
  htlc_expiry_ms : Z;
  htlc_balance : Z
}.

(** [src sui_tunnel/sources/tunnel.move HTLCPartyCounter] *)
Record HTLCPartyCounter := { count : Z; total_locked : Z }.

(** [src sui_tunnel/sources/tunnel.move Tunnel]: the last three fields are the
    dynamic fields under [HTLCKey], [HTLCPartyCounterKey] and [RefereeKey]. *)
Record Tunnel := {
  id : addr;
  version : Z;
  party_a : PartyConfig;
  party_b : PartyConfig;
  balance : Z;
  party_a_deposit : Z;
  party_b_deposit : Z;
  status : Z;
  state : StateCommitment;
  created_at : Z;
  last_activity : Z;
  timeout_ms : Z;
  penalty_amount : Z;
  dispute_raiser : option addr;
  last_disputed_nonce : Z;
  htlcs : gmap bytes TunnelHTLC;
  htlc_counters : gmap addr HTLCPartyCounter;
  referee : option addr
}.

(** Coins sent by [transfer::public_transfer], or returned to the sender. *)
Definition payment : Type := addr * Z.

(** * Assignments to fields *)

Definition with_status (s : Z) (now : Z) (t : Tunnel) : Tunnel :=
  {| id := id t; version := version t; party_a := party_a t; party_b := party_b t;
     balance := balance t; party_a_deposit := party_a_deposit t;
     party_b_deposit := party_b_deposit t; status := s; state := state t;
     created_at := created_at t; last_activity := now; timeout_ms := timeout_ms t;
     penalty_amount := penalty_amount t; dispute_raiser := dispute_raiser t;
     last_disputed_nonce := last_disputed_nonce t; htlcs := htlcs t;
     htlc_counters := htlc_counters t; referee := referee t |}.

Definition with_balance (b : Z) (t : Tunnel) : Tunnel :=
  {| id := id t; version := version t; party_a := party_a t; party_b := party_b t;
     balance := b; party_a_deposit := party_a_deposit t;
     party_b_deposit := party_b_deposit t; status := status t; state := state t;
     created_at := created_at t; last_activity := last_activity t; timeout_ms := timeout_ms t;
     penalty_amount := penalty_amount t; dispute_raiser := dispute_raiser t;
     last_disputed_nonce := last_disputed_nonce t; htlcs := htlcs t;
     htlc_counters := htlc_counters t; referee := referee t |}.

Definition with_deposits (a b : Z) (t : Tunnel) : Tunnel :=
  {| id := id t; version := version t; party_a := party_a t; party_b := party_b t;
     balance := balance t; party_a_deposit := a; party_b_deposit := b; status := status t;
     state := state t; created_at := created_at t; last_activity := last_activity t;
     timeout_ms := timeout_ms t; penalty_amount := penalty_amount t;
     dispute_raiser := dispute_raiser t; last_disputed_nonce := last_disputed_nonce t;
     htlcs := htlcs t; htlc_counters := htlc_counters t; referee := referee t |}.

Definition with_state (s : StateCommitment) (t : Tunnel) : Tunnel :=
  {| id := id t; version := version t; party_a := party_a t; party_b := party_b t;
     balance := balance t; party_a_deposit := party_a_deposit t;
     party_b_deposit := party_b_deposit t; status := status t; state := s;
     created_at := created_at t; last_activity := last_activity t; timeout_ms := timeout_ms t;
     penalty_amount := penalty_amount t; dispute_raiser := dispute_raiser t;
     last_disputed_nonce := last_disputed_nonce t; htlcs := htlcs t;
     htlc_counters := htlc_counters t; referee := referee t |}.

Definition with_dispute (raiser : option addr) (ldn : Z) (t : Tunnel) : Tunnel :=
  {| id := id t; version := version t; party_a := party_a t; party_b := party_b t;
     balance := balance t; party_a_deposit := party_a_deposit t;
     party_b_deposit := party_b_deposit t; status := status t; state := state t;
     created_at := created_at t; last_activity := last_activity t; timeout_ms := timeout_ms t;
     penalty_amount := penalty_amount t; dispute_raiser := raiser;
     last_disputed_nonce := ldn; htlcs := htlcs t;
     htlc_counters := htlc_counters t; referee := referee t |}.

Definition with_htlcs (h : gmap bytes TunnelHTLC) (c : gmap addr HTLCPartyCounter) (t : Tunnel)
  : Tunnel :=
  {| id := id t; version := version t; party_a := party_a t; party_b := party_b t;
     balance := balance t; party_a_deposit := party_a_deposit t;
     party_b_deposit := party_b_deposit t; status := status t; state := state t;
     created_at := created_at t; last_activity := last_activity t; timeout_ms := timeout_ms t;
     penalty_amount := penalty_amount t; dispute_raiser := dispute_raiser t;
     last_disputed_nonce := last_disputed_nonce t; htlcs := h; htlc_counters := c;
     referee := referee t |}.

Definition with_config (v tmo : Z) (r : option addr) (t : Tunnel) : Tunnel :=
  {| id := id t; version := v; party_a := party_a t; party_b := party_b t;
     balance := balance t; party_a_deposit := party_a_deposit t;
     party_b_deposit := party_b_deposit t; status := status t; state := state t;
     created_at := created_at t; last_activity := last_activity t; timeout_ms := tmo;
     penalty_amount := penalty_amount t; dispute_raiser := dispute_raiser t;
     last_disputed_nonce := last_disputed_nonce t; htlcs := htlcs t;
     htlc_counters := htlc_counters t; referee := r |}.

(** [tunnel.last_activity = now] *)
Definition touch (now : Z) (t : Tunnel) : Tunnel := with_status (status t) now t.

Definition is_party (a : addr) (t : Tunnel) : bool :=
  bool_decide (a = address (party_a t)) || bool_decide (a = address (party_b t)).

(** * Construction *)

(** [src sui_tunnel/sources/tunnel.move validate_create_params] *)
Definition validate_create_params (a b : PartyConfig) : move unit :=
  assert! negb (bool_decide (address a = address b)) else EInvalidParties ;
  assert! is_valid_signature_type (signature_type a) else EUnsupportedSignatureType ;
  assert! is_valid_signature_type (signature_type b) else EUnsupportedSignatureType ;
  assert! is_valid_public_key_length (signature_type a) (public_key a) else EInvalidPublicKey ;
  assert! is_valid_public_key_length (signature_type b) (public_key b) else EInvalidPublicKey ;
  Done tt.

(** [src sui_tunnel/sources/tunnel.move build_tunnel]: [tunnel_id] is the fresh
    id of [object::new]. *)
Definition build_tunnel (tunnel_id : addr) (a b : PartyConfig) (timeout penalty now : Z)
  : move Tunnel :=
  let* _ := validate_create_params a b in
  assert! 0 <? timeout else EInvalidTimeout ;
  assert! timeout <=? MAX_TOTAL_TIMEOUT_MS else ETimeoutTooLong ;
  Done {| id := tunnel_id; version := CURRENT_VERSION; party_a := a; party_b := b; balance := 0;
          party_a_deposit := 0; party_b_deposit := 0; status := STATUS_CREATED;
          state := {| state_hash := []; nonce := 0; timestamp := now;
                      party_a_balance := 0; party_b_balance := 0 |};
          created_at := now; last_activity := now; timeout_ms := timeout;
          penalty_amount := penalty; dispute_raiser := None; last_disputed_nonce := 0;
          htlcs := ∅; htlc_counters := ∅; referee := None |}.

(** * Deposits *)

(** [src sui_tunnel/sources/tunnel.move maybe_activate] *)
Definition maybe_activate (t : Tunnel) : Tunnel :=
  if (status t =? STATUS_CREATED) && (0 <? party_a_deposit t) && (0 <? party_b_deposit t) then
    with_state {| state_hash := state_hash (state t); nonce := nonce (state t);
                  timestamp := timestamp (state t); party_a_balance := party_a_deposit t;
                  party_b_balance := party_b_deposit t |}
      (with_status STATUS_ACTIVE (last_activity t) t)
  else t.

(** [src sui_tunnel/sources/tunnel.move deposit_internal] *)
Definition deposit_internal (t : Tunnel) (amount : Z) (is_party_a : bool) (now : Z)
  : move Tunnel :=
  assert! version t =? CURRENT_VERSION else EInvalidVersion ;
  assert! status t =? STATUS_CREATED else ETunnelClosed ;
  assert! MIN_DEPOSIT <=? amount else EMinimumDepositNotMet ;
  let* a := if is_party_a then u64_add (party_a_deposit t) amount
            else Done (party_a_deposit t) in
  let* b := if is_party_a then Done (party_b_deposit t)
            else u64_add (party_b_deposit t) amount in
  let* bal := u64_add (balance t) amount in
  Done (maybe_activate (touch now (with_balance bal (with_deposits a b t)))).

(** [src sui_tunnel/sources/tunnel.move deposit] *)
Definition deposit (t : Tunnel) (amount : Z) (sender : addr) (now : Z) : move Tunnel :=
  if bool_decide (sender = address (party_a t)) then deposit_internal t amount true now
  else if bool_decide (sender = address (party_b t)) then deposit_internal t amount false now
  else Abort ENotAuthorized.

(** [src sui_tunnel/sources/tunnel.move deposit_party_a] *)
Definition deposit_party_a (t : Tunnel) (amount : Z) (sender : addr) (now : Z) : move Tunnel :=
  assert! bool_decide (sender = address (party_a t)) else ENotAuthorized ;
  deposit_internal t amount true now.

(** [src sui_tunnel/sources/tunnel.move deposit_party_b] *)
Definition deposit_party_b (t : Tunnel) (amount : Z) (sender : addr) (now : Z) : move Tunnel :=
  assert! bool_decide (sender = address (party_b t)) else ENotAuthorized ;
  deposit_internal t amount false now.

(** [src sui_tunnel/sources/tunnel.move create_and_fund_with_id]: anyone funds both. *)
Definition create_and_fund_with_id (tunnel_id : addr) (a b : PartyConfig)
    (coin_a coin_b timeout penalty now : Z) : move Tunnel :=
  let* t := build_tunnel tunnel_id a b timeout penalty now in
  let* t := deposit_internal t coin_a true now in
  deposit_internal t coin_b false now.

(** * Settlement *)

(** [src sui_tunnel/sources/tunnel.move assert_balance_split] *)
Definition assert_balance_split (a b total : Z) : move unit :=
  assert! a <=? total else EBalanceSumMismatch ;
  assert! b =? total - a else EBalanceSumMismatch ;
  Done tt.

(** Both coins go out, as every closing function ends. *)
Definition distribute (t : Tunnel) (a b now : Z) : move (Tunnel * list payment) :=
  let* bal := balance_split (balance t) a in
  let* bal := balance_split bal b in
  Done (with_balance bal (with_status STATUS_CLOSED now t),
        [(address (party_a t), a); (address (party_b t), b)]).

(** [src sui_tunnel/sources/tunnel.move serialize_state_update] *)
Definition serialize_state_update (tid hash : bytes) (n ts a b : Z) : bytes :=
  text_encode "sui_tunnel::state_update" ++ tid ++ hash ++ u64_to_be_bytes n ++
  u64_to_be_bytes ts ++ u64_to_be_bytes a ++ u64_to_be_bytes b.

(** [src sui_tunnel/sources/tunnel.move serialize_settlement] *)
Definition serialize_settlement (tid : bytes) (a b final_nonce ts : Z) : bytes :=
  text_encode "sui_tunnel::settlement" ++ tid ++ u64_to_be_bytes a ++ u64_to_be_bytes b ++
  u64_to_be_bytes final_nonce ++ u64_to_be_bytes ts.

(** [src sui_tunnel/sources/tunnel.move serialize_settlement_with_root] *)
Definition serialize_settlement_with_root (tid : bytes) (a b final_nonce ts : Z) (root : bytes)
  : bytes :=
  text_encode "sui_tunnel::settlement_v2" ++ tid ++ u64_to_be_bytes a ++ u64_to_be_bytes b ++
  u64_to_be_bytes final_nonce ++ u64_to_be_bytes ts ++ root.

(** [src sui_tunnel/sources/tunnel.move serialize_htlc_lock] *)
Definition serialize_htlc_lock (tid hash : bytes) (amount : Z) (sender receiver : addr)
    (expiry : Z) : bytes :=
  text_encode "sui_tunnel::htlc_lock" ++ tid ++ hash ++ u64_to_be_bytes amount ++ sender ++
  receiver ++ u64_to_be_bytes expiry.

(** [src sui_tunnel/sources/tunnel.move serialize_referee_assignment] *)
Definition serialize_referee_assignment (tid referee : bytes) : bytes :=
  text_encode "sui_tunnel::referee_assignment" ++ tid ++ referee.

Section Contract.
Context `{N : Natives}.

(** [assert!(signature::verify(party.., &message, &sig), EInvalidSignature)] *)
Definition check_sig (p : PartyConfig) (message sig : bytes) (e : abort_code) : move unit :=
  let* ok := signature_verify (signature_type p) (public_key p) message sig in
  assert! ok else e ;
  Done tt.

(** [src sui_tunnel/sources/tunnel.move update_state] *)
Definition update_state (t : Tunnel) (hash : bytes) (n a b ts : Z) (sig_a sig_b : bytes)
    (now : Z) : move Tunnel :=
  assert! version t =? CURRENT_VERSION else EInvalidVersion ;
  assert! status t =? STATUS_ACTIVE else EInvalidState ;
  assert! (length hash =? 32)%nat else EInvalidHash ;
  assert! nonce (state t) <? n else EInvalidNonce ;
  assert! n <? U64_MAX else EInvalidNonce ;
  let* _ := assert_balance_split a b (balance t) in
  assert! ts <=? now else EInvalidParameter ;
  assert! created_at t <=? ts else EInvalidParameter ;
  let message := serialize_state_update (id t) hash n ts a b in
  let* _ := check_sig (party_a t) message sig_a EInvalidSignature in
  let* _ := check_sig (party_b t) message sig_b EInvalidSignature in
  Done (touch now (with_state {| state_hash := hash; nonce := n; timestamp := now;
                                 party_a_balance := a; party_b_balance := b |} t)).

(** [src sui_tunnel/sources/tunnel.move close_cooperative] *)
Definition close_cooperative (t : Tunnel) (a b : Z) (sig_a sig_b : bytes) (ts now : Z)
  : move (Tunnel * list payment) :=
  assert! version t =? CURRENT_VERSION else EInvalidVersion ;
  assert! (status t =? STATUS_ACTIVE) || (status t =? STATUS_CREATED) else ETunnelClosed ;
  let* _ := assert_balance_split a b (balance t) in
  assert! negb (length sig_a =? 0)%nat && negb (length sig_b =? 0)%nat else EInvalidSignature ;
  let* final_nonce := u64_add (nonce (state t)) 1 in
  assert! ts <=? now else EInvalidParameter ;
  assert! created_at t <=? ts else EInvalidParameter ;
  let message := serialize_settlement (id t) a b final_nonce ts in
  let* _ := check_sig (party_a t) message sig_a EInvalidSignature in
  let* _ := check_sig (party_b t) message sig_b EInvalidSignature in
  distribute t a b now.

(** [src sui_tunnel/sources/tunnel.move close_cooperative_with_root] *)
Definition close_cooperative_with_root (t : Tunnel) (a b : Z) (sig_a sig_b : bytes) (ts : Z)
    (root : bytes) (now : Z) : move (Tunnel * list payment) :=
  assert! version t =? CURRENT_VERSION else EInvalidVersion ;
  assert! (status t =? STATUS_ACTIVE) || (status t =? STATUS_CREATED) else ETunnelClosed ;
  assert! (length root =? 32)%nat else EInvalidTranscriptRoot ;
  let* _ := assert_balance_split a b (balance t) in
  assert! negb (length sig_a =? 0)%nat && negb (length sig_b =? 0)%nat else EInvalidSignature ;
  let* final_nonce := u64_add (nonce (state t)) 1 in
  assert! ts <=? now else EInvalidParameter ;
  assert! created_at t <=? ts else EInvalidParameter ;
  let message := serialize_settlement_with_root (id t) a b final_nonce ts root in
  let* _ := check_sig (party_a t) message sig_a EInvalidSignature in
  let* _ := check_sig (party_b t) message sig_b EInvalidSignature in
  distribute t a b now.

(** * Disputes *)

(** [src sui_tunnel/sources/tunnel.move raise_dispute] *)
Definition raise_dispute (t : Tunnel) (hash : bytes) (n a b ts : Z) (other_party_sig : bytes)
    (sender : addr) (now : Z) : move Tunnel :=
  assert! version t =? CURRENT_VERSION else EInvalidVersion ;
  assert! status t =? STATUS_ACTIVE else EInvalidState ;
  assert! (length hash =? 32)%nat else EInvalidHash ;
  let* _ := assert_balance_split a b (balance t) in
  let* other := if bool_decide (sender = address (party_a t)) then Done (party_b t)
                else if bool_decide (sender = address (party_b t)) then Done (party_a t)
                else Abort ENotAuthorized in
  assert! nonce (state t) <? n else EStaleState ;
  assert! n <? U64_MAX else EInvalidNonce ;
  assert! last_disputed_nonce t <=? n else EStaleState ;
  assert! ts <=? now else EInvalidParameter ;
  assert! created_at t <=? ts else EInvalidParameter ;
  let message := serialize_state_update (id t) hash n ts a b in
  let* _ := check_sig other message other_party_sig EInvalidSignature in
  let* ldn := u64_add n 1 in
  Done (with_state {| state_hash := hash; nonce := n; timestamp := now;
                      party_a_balance := a; party_b_balance := b |}
         (with_dispute (Some sender) ldn (with_status STATUS_DISPUTED now t))).

(** [src sui_tunnel/sources/tunnel.move resolve_dispute] *)
Definition resolve_dispute (t : Tunnel) (hash : bytes) (n a b ts : Z) (sig_a sig_b : bytes)
    (now : Z) : move Tunnel :=
  assert! version t =? CURRENT_VERSION else EInvalidVersion ;
  assert! status t =? STATUS_DISPUTED else ENoActiveDispute ;
  assert! (length hash =? 32)%nat else EInvalidHash ;
  assert! nonce (state t) <? n else EStaleState ;
  assert! n <? U64_MAX else EInvalidNonce ;
  let* _ := assert_balance_split a b (balance t) in
  assert! ts <=? now else EInvalidParameter ;
  assert! created_at t <=? ts else EInvalidParameter ;
  let message := serialize_state_update (id t) hash n ts a b in
  let* _ := check_sig (party_a t) message sig_a EInvalidSignature in
  let* _ := check_sig (party_b t) message sig_b EInvalidSignature in
  Done (with_state {| state_hash := hash; nonce := n; timestamp := now;
                      party_a_balance := a; party_b_balance := b |}
         (with_dispute None (last_disputed_nonce t) (with_status STATUS_ACTIVE now t))).

(** [src sui_tunnel/sources/tunnel.move raise_dispute_current_state] *)
Definition raise_dispute_current_state (t : Tunnel) (sender : addr) (now : Z) : move Tunnel :=
  assert! version t =? CURRENT_VERSION else EInvalidVersion ;
  assert! status t =? STATUS_ACTIVE else EInvalidState ;
  assert! 0 <? timeout_ms t else ENotSupported ;
  assert! is_party sender t else ENotAuthorized ;
  assert! last_disputed_nonce t <=? nonce (state t) else EStaleState ;
  let* ldn := u64_add (nonce (state t)) 1 in
  Done (with_state {| state_hash := state_hash (state t); nonce := nonce (state t);
                      timestamp := now; party_a_balance := party_a_balance (state t);
                      party_b_balance := party_b_balance (state t) |}
         (with_dispute (Some sender) ldn (with_status STATUS_DISPUTED now t))).

(** [src sui_tunnel/sources/tunnel.move:1560-1571 force_close_after_timeout] the
    balances after the penalty *)
Definition apply_penalty (t : Tunnel) (raiser : addr) : move (Z * Z) :=
  let a := party_a_balance (state t) in
  let b := party_b_balance (state t) in
  if 0 <? penalty_amount t then
    if bool_decide (raiser = address (party_a t)) then
      let p := Z.min (penalty_amount t) b in
      let* b := u64_sub b p in
      let* a := u64_add a p in
      Done (a, b)
    else
      let p := Z.min (penalty_amount t) a in
      let* a := u64_sub a p in
      let* b := u64_add b p in
      Done (a, b)
  else Done (a, b).

(** [src sui_tunnel/sources/tunnel.move force_close_after_timeout] *)
Definition force_close_after_timeout (t : Tunnel) (sender : addr) (now : Z)
  : move (Tunnel * list payment) :=
  assert! version t =? CURRENT_VERSION else EInvalidVersion ;
  assert! status t =? STATUS_DISPUTED else ENoActiveDispute ;
  assert! 0 <? timeout_ms t else ENotSupported ;
  match dispute_raiser t with
  | None => Abort ENotAuthorized
  | Some raiser =>
      assert! bool_decide (sender = raiser) else ENotAuthorized ;
      let* deadline := u64_add (timestamp (state t)) (timeout_ms t) in
      assert! deadline <=? now else ETimeoutNotReached ;
      let* ab := apply_penalty t raiser in
      let* _ := assert_balance_split (fst ab) (snd ab) (balance t) in
      distribute t (fst ab) (snd ab) now
  end.

(** [src sui_tunnel/sources/tunnel.move agree_to_dispute] *)
Definition agree_to_dispute (t : Tunnel) (sender : addr) (now : Z)
  : move (Tunnel * list payment) :=
  assert! version t =? CURRENT_VERSION else EInvalidVersion ;
  assert! status t =? STATUS_DISPUTED else ENoActiveDispute ;
  match dispute_raiser t with
  | None => Abort ENotAuthorized
  | Some raiser =>
      assert! negb (bool_decide (sender = raiser)) else ENotAuthorized ;
      assert! is_party sender t else ENotAuthorized ;
      let a := party_a_balance (state t) in
      let b := party_b_balance (state t) in
      let* _ := assert_balance_split a b (balance t) in
      distribute t a b now
  end.

(** [src sui_tunnel/sources/tunnel.move can_extend_timeout] *)
Definition can_extend_timeout (t : Tunnel) : bool := status t =? STATUS_ACTIVE.

(** [src sui_tunnel/sources/tunnel.move can_extend_timeout_by] *)
Definition can_extend_timeout_by (t : Tunnel) (additional : Z) : bool :=
  can_extend_timeout t && (0 <? additional) && (additional <=? MAX_TIMEOUT_EXTENSION_MS) &&
  (timeout_ms t <=? MAX_TOTAL_TIMEOUT_MS - additional).

(** [src sui_tunnel/sources/tunnel.move extend_timeout] *)
Definition extend_timeout (t : Tunnel) (additional : Z) (sender : addr) (now : Z)
  : move Tunnel :=
  assert! version t =? CURRENT_VERSION else EInvalidVersion ;
  assert! negb (status t =? STATUS_DISPUTED) else ECannotExtendDuringDispute ;
  assert! can_extend_timeout t else EInvalidState ;
  assert! 0 <? additional else EInvalidParameter ;
  assert! additional <=? MAX_TIMEOUT_EXTENSION_MS else ETimeoutExtensionTooLarge ;
  assert! timeout_ms t <=? MAX_TOTAL_TIMEOUT_MS - additional else ETimeoutTooLong ;
  assert! is_party sender t else ENotAuthorized ;
  let* tmo := u64_add (timeout_ms t) additional in
  Done (touch now (with_config (version t) tmo (referee t) t)).

(** * Hashed time locks *)

(** [src sui_tunnel/sources/tunnel.move party_htlc_locked_internal] *)
Definition party_htlc_locked_internal (t : Tunnel) (p : addr) : Z :=
  match htlc_counters t !! p with Some c => total_locked c | None => 0 end.

(** [src sui_tunnel/sources/tunnel.move update_party_htlc_counter] *)
Definition update_party_htlc_counter (m : gmap addr HTLCPartyCounter) (p : addr)
    (adding : bool) (amount : Z) : move (gmap addr HTLCPartyCounter) :=
  let c := default {| count := 0; total_locked := 0 |} (m !! p) in
  if adding then
    let* n := u64_add (count c) 1 in
    let* l := u64_add (total_locked c) amount in
    Done (<[p := {| count := n; total_locked := l |}]> m)
  else
    let* n := u64_sub (count c) 1 in
    let* l := u64_sub (total_locked c) amount in
    Done (<[p := {| count := n; total_locked := l |}]> m).

(** [src sui_tunnel/sources/tunnel.move lock_htlc_internal] *)
Definition lock_htlc_internal (t : Tunnel) (hash : bytes) (amount : Z) (sender receiver : addr)
    (expiry : Z) (is_party_a : bool) (now : Z) : move Tunnel :=
  let sender_balance :=
    if is_party_a then party_a_balance (state t) else party_b_balance (state t) in
  assert! amount <=? sender_balance else EInsufficientBalance ;
  assert! negb (bool_decide (is_Some (htlcs t !! hash))) else EAlreadyExists ;
  let* bal := balance_split (balance t) amount in
  let h := {| htlc_payment_hash := hash; htlc_amount := amount; htlc_sender := sender;
              htlc_receiver := receiver; htlc_expiry_ms := expiry; htlc_balance := amount |} in
  let* counters := update_party_htlc_counter (htlc_counters t) sender true amount in
  let* a := if is_party_a then u64_sub (party_a_balance (state t)) amount
            else Done (party_a_balance (state t)) in
  let* b := if is_party_a then Done (party_b_balance (state t))
            else u64_sub (party_b_balance (state t)) amount in
  Done (touch now
         (with_state {| state_hash := state_hash (state t); nonce := nonce (state t);
                        timestamp := timestamp (state t); party_a_balance := a;
                        party_b_balance := b |}
           (with_htlcs (<[hash := h]> (htlcs t)) counters (with_balance bal t)))).

(** [src sui_tunnel/sources/tunnel.move lock_htlc] *)
Definition lock_htlc (t : Tunnel) (hash : bytes) (amount : Z) (receiver : addr) (expiry : Z)
    (counterparty_sig : bytes) (sender : addr) (now : Z) : move Tunnel :=
  assert! version t =? CURRENT_VERSION else EInvalidVersion ;
  assert! status t =? STATUS_ACTIVE else EInvalidState ;
  assert! 0 <? amount else EInvalidParameter ;
  assert! (length hash =? 32)%nat else EInvalidHash ;
  assert! now <? expiry else EInvalidTimeout ;
  let* who := if bool_decide (sender = address (party_a t)) then Done (true, party_b t)
              else if bool_decide (sender = address (party_b t)) then Done (false, party_a t)
              else Abort ENotAuthorized in
  let message := serialize_htlc_lock (id t) hash amount sender receiver expiry in
  let* _ := check_sig (snd who) message counterparty_sig EInvalidSignature in
  lock_htlc_internal t hash amount sender receiver expiry (fst who) now.

(** [src sui_tunnel/sources/tunnel.move claim_htlc_in_tunnel] *)
Definition claim_htlc_in_tunnel (t : Tunnel) (hash preimage : bytes) (sender : addr) (now : Z)
  : move (Tunnel * list payment) :=
  assert! version t =? CURRENT_VERSION else EInvalidVersion ;
  assert! negb (status t =? STATUS_DESTROYED) else EInvalidState ;
  match htlcs t !! hash with
  | None => Abort ENotFound
  | Some h =>
      assert! bool_decide (sender = htlc_receiver h) else ENotAuthorized ;
      assert! bool_decide (native_blake2b256 preimage = htlc_payment_hash h)
        else EInvalidPreimage ;
      assert! now <? htlc_expiry_ms h else EHtlcExpired ;
      let* counters :=
        update_party_htlc_counter (htlc_counters t) (htlc_sender h) false (htlc_amount h) in
      Done (touch now (with_htlcs (delete hash (htlcs t)) counters t),
            [(htlc_receiver h, htlc_balance h)])
  end.

(** [src sui_tunnel/sources/tunnel.move expire_htlc_in_tunnel] *)
Definition expire_htlc_in_tunnel (t : Tunnel) (hash : bytes) (sender : addr) (now : Z)
  : move (Tunnel * list payment) :=
  assert! version t =? CURRENT_VERSION else EInvalidVersion ;
  assert! negb (status t =? STATUS_DESTROYED) else EInvalidState ;
  match htlcs t !! hash with
  | None => Abort ENotFound
  | Some h =>
      assert! htlc_expiry_ms h <=? now else EHtlcNotExpired ;
      assert! bool_decide (sender = htlc_sender h) else ENotAuthorized ;
      let* counters :=
        update_party_htlc_counter (htlc_counters t) (htlc_sender h) false (htlc_amount h) in
      Done (touch now (with_htlcs (delete hash (htlcs t)) counters t),
            [(htlc_sender h, htlc_balance h)])
  end.

(** * Referees *)

(** [src sui_tunnel/sources/tunnel.move set_referee_cosigned] *)
Definition set_referee_cosigned (t : Tunnel) (ref : addr) (sig_a sig_b : bytes) : move Tunnel :=
  assert! version t =? CURRENT_VERSION else EInvalidVersion ;
  assert! status t =? STATUS_CREATED else EInvalidState ;
  assert! (party_a_deposit t =? 0) && (party_b_deposit t =? 0) else EInvalidState ;
  assert! negb (length sig_a =? 0)%nat && negb (length sig_b =? 0)%nat else EInvalidSignature ;
  let message := serialize_referee_assignment (id t) ref in
  let* _ := check_sig (party_a t) message sig_a EInvalidPartyASignature in
  let* _ := check_sig (party_b t) message sig_b EInvalidPartyBSignature in
  Done (with_config (version t) (timeout_ms t) (Some ref) t).

(** [src sui_tunnel/sources/tunnel.move set_referee]: for modules of the package. *)
Definition set_referee (t : Tunnel) (ref sender : addr) : move Tunnel :=
  assert! version t =? CURRENT_VERSION else EInvalidVersion ;
  assert! status t =? STATUS_CREATED else EInvalidState ;
  assert! (party_a_deposit t =? 0) && (party_b_deposit t =? 0) else EInvalidState ;
  assert! is_party sender t else ENotAuthorized ;
  Done (with_config (version t) (timeout_ms t) (Some ref) t).

(** [src sui_tunnel/sources/tunnel.move resolve_dispute_verified]: for modules of
    the package, once they have checked a proof. *)
Definition resolve_dispute_verified (t : Tunnel) (a b now : Z) : move (Tunnel * list payment) :=
  assert! version t =? CURRENT_VERSION else EInvalidVersion ;
  assert! status t =? STATUS_DISPUTED else ENoActiveDispute ;
  assert! 0 <? timeout_ms t else ENotSupported ;
  let* deadline := u64_add (timestamp (state t)) (timeout_ms t) in
  assert! deadline <=? now else ETimeoutNotReached ;
  let* _ := assert_balance_split a b (balance t) in
  distribute t a b now.

(** [src sui_tunnel/sources/tunnel.move resolve_dispute_external] *)
Definition resolve_dispute_external (t : Tunnel) (a b : Z) (sender : addr) (now : Z)
  : move (Tunnel * list payment) :=
  assert! version t =? CURRENT_VERSION else EInvalidVersion ;
  assert! status t =? STATUS_DISPUTED else ENoActiveDispute ;
  match referee t with
  | None => Abort ENotSupported
  | Some r =>
      assert! bool_decide (sender = r) else ERefereeNotAuthorized ;
      let* _ := assert_balance_split a b (balance t) in
      distribute t a b now
  end.

(** * Withdrawals *)

(** [src sui_tunnel/sources/tunnel.move:2218-2234 withdraw_before_active] the rest
    of both withdrawals: the deposit goes back *)
Definition withdraw_deposit (t : Tunnel) (is_party_a : bool) (sender : addr) (now : Z)
  : move (Tunnel * list payment) :=
  let amount := if is_party_a then party_a_deposit t else party_b_deposit t in
  let* bal := balance_split (balance t) amount in
  let t := with_deposits (if is_party_a then 0 else party_a_deposit t)
             (if is_party_a then party_b_deposit t else 0) t in
  let t := touch now (with_balance bal t) in
  Done (if bal =? 0 then with_status STATUS_CLOSED now t else t, [(sender, amount)]).

(** [src sui_tunnel/sources/tunnel.move withdraw_before_active] *)
Definition withdraw_before_active (t : Tunnel) (sender : addr) (now : Z)
  : move (Tunnel * list payment) :=
  assert! version t =? CURRENT_VERSION else EInvalidVersion ;
  assert! status t =? STATUS_CREATED else EInvalidState ;
  let* w := if bool_decide (sender = address (party_a t))
            then Done (party_a_deposit t, party_b_deposit t, true)
            else if bool_decide (sender = address (party_b t))
            then Done (party_b_deposit t, party_a_deposit t, false)
            else Abort ENotAuthorized in
  let '(mine, other, is_party_a) := w in
  assert! 0 <? mine else EInsufficientBalance ;
  assert! other =? 0 else EInvalidState ;
  withdraw_deposit t is_party_a sender now.

(** [src sui_tunnel/sources/tunnel.move withdraw_timeout] *)
Definition withdraw_timeout (t : Tunnel) (sender : addr) (now : Z)
  : move (Tunnel * list payment) :=
  assert! version t =? CURRENT_VERSION else EInvalidVersion ;
  assert! status t =? STATUS_CREATED else EInvalidState ;
  assert! 0 <? timeout_ms t else ENotSupported ;
  let* deadline := u64_add (created_at t) (timeout_ms t) in
  assert! deadline <=? now else ETimeoutNotReached ;
  let* w := if bool_decide (sender = address (party_a t)) then Done (party_a_deposit t, true)
            else if bool_decide (sender = address (party_b t))
            then Done (party_b_deposit t, false)
            else Abort ENotAuthorized in
  let '(mine, is_party_a) := w in
  assert! 0 <? mine else EInsufficientBalance ;
  withdraw_deposit t is_party_a sender now.

(** [src sui_tunnel/sources/tunnel.move destroy_tunnel] *)
Definition destroy_tunnel (t : Tunnel) (sender : addr) (now : Z) : move Tunnel :=
  assert! version t =? CURRENT_VERSION else EInvalidVersion ;
  assert! status t =? STATUS_CLOSED else EInvalidState ;
  assert! balance t =? 0 else EInsufficientBalance ;
  assert! (party_htlc_locked_internal t (address (party_a t)) =? 0) &&
          (party_htlc_locked_internal t (address (party_b t)) =? 0) else EOutstandingHtlc ;
  assert! is_party sender t else ENotAuthorized ;
  Done (with_status STATUS_DESTROYED (last_activity t) t).

(** [src sui_tunnel/sources/tunnel.move migrate] *)
Definition migrate (t : Tunnel) (sender : addr) : move Tunnel :=
  assert! is_party sender t else ENotAuthorized ;
  assert! version t <? CURRENT_VERSION else ENotAnUpgrade ;
  Done (with_config CURRENT_VERSION (timeout_ms t) (referee t) t).

End Contract.
End Move.
