(* ===== verification/TunnelContract.v ===== *)
(** The contract as a state machine: the calls anyone may make, the invariant
    they keep, and what that gives the two parties -- their funds are accounted
    for, and either of them can leave without the other. *)

From stdpp Require Import gmap.
From S2P Require Import Prelude.
From S2P Require Import Bytes.
From S2P Require Import Wire.
From S2P Require Import Crypto.
From S2P Require Import MoveTunnel.
Import Move.

(** * Calls

    The functions that change a shared tunnel: those a transaction can call, and the
    two that are for the modules of the package -- [set_referee], and
    [resolve_dispute_verified], which [quantum_poker_referee.move] calls once it has
    checked a proof; the proof is not modelled, so here they may be called at any
    time. *)
Inductive call :=
  | CDeposit (amount : Z)
  | CUpdateState (hash : bytes) (n a b ts : Z) (sig_a sig_b : bytes)
  | CClose (a b : Z) (sig_a sig_b : bytes) (ts : Z)
  | CCloseWithRoot (a b : Z) (sig_a sig_b : bytes) (ts : Z) (root : bytes)
  | CRaiseDispute (hash : bytes) (n a b ts : Z) (other_sig : bytes)
  | CResolveDispute (hash : bytes) (n a b ts : Z) (sig_a sig_b : bytes)
  | CRaiseDisputeCurrent
  | CForceClose
  | CAgree
  | CExtendTimeout (additional : Z)
  | CLockHtlc (hash : bytes) (amount : Z) (receiver : addr) (expiry : Z) (sig : bytes)
  | CClaimHtlc (hash preimage : bytes)
  | CExpireHtlc (hash : bytes)
  | CSetReferee (ref : addr) (sig_a sig_b : bytes)
  | CPackageReferee (ref : addr)
  | CResolveExternal (a b : Z)
  | CResolveVerified (a b : Z)
  | CWithdrawBeforeActive
  | CWithdrawTimeout
  | CDestroy
  | CMigrate.

(** The integer arguments are [u64]s. *)
Definition call_ok (c : call) : Prop :=
  match c with
  | CDeposit x => u64_range x
  | CUpdateState _ n a b ts _ _ | CRaiseDispute _ n a b ts _ | CResolveDispute _ n a b ts _ _ =>
      u64_range n /\ u64_range a /\ u64_range b /\ u64_range ts
  | CClose a b _ _ ts | CCloseWithRoot a b _ _ ts _ =>
      u64_range a /\ u64_range b /\ u64_range ts
  | CResolveExternal a b | CResolveVerified a b => u64_range a /\ u64_range b
  | CExtendTimeout x => u64_range x
  | CLockHtlc _ x _ e _ => u64_range x /\ u64_range e
  | _ => True
  end.

Definition no_payment (m : move Tunnel) : move (Tunnel * list payment) :=
  let* t := m in Done (t, []).

Section Calls.
Context `{N : Natives}.

Definition exec (c : call) (sender : addr) (now : Z) (t : Tunnel)
  : move (Tunnel * list payment) :=
  match c with
  | CDeposit x => no_payment (deposit t x sender now)
  | CUpdateState h n a b ts sa sb => no_payment (update_state t h n a b ts sa sb now)
  | CClose a b sa sb ts => close_cooperative t a b sa sb ts now
  | CCloseWithRoot a b sa sb ts root => close_cooperative_with_root t a b sa sb ts root now
  | CRaiseDispute h n a b ts s => no_payment (raise_dispute t h n a b ts s sender now)
  | CResolveDispute h n a b ts sa sb => no_payment (resolve_dispute t h n a b ts sa sb now)
  | CRaiseDisputeCurrent => no_payment (raise_dispute_current_state t sender now)
  | CForceClose => force_close_after_timeout t sender now
  | CAgree => agree_to_dispute t sender now
  | CExtendTimeout x => no_payment (extend_timeout t x sender now)
  | CLockHtlc h x r e s => no_payment (lock_htlc t h x r e s sender now)
  | CClaimHtlc h p => claim_htlc_in_tunnel t h p sender now
  | CExpireHtlc h => expire_htlc_in_tunnel t h sender now
  | CSetReferee r sa sb => no_payment (set_referee_cosigned t r sa sb)
  | CPackageReferee r => no_payment (set_referee t r sender)
  | CResolveExternal a b => resolve_dispute_external t a b sender now
  | CResolveVerified a b => resolve_dispute_verified t a b now
  | CWithdrawBeforeActive => withdraw_before_active t sender now
  | CWithdrawTimeout => withdraw_timeout t sender now
  | CDestroy => no_payment (destroy_tunnel t sender now)
  | CMigrate => no_payment (migrate t sender)
  end.

(** * Accounting *)

(** A sum over the open locks. *)
Definition htlc_sum (f : TunnelHTLC -> Z) (m : gmap bytes TunnelHTLC) : Z :=
  map_fold (fun _ h acc => f h + acc) 0 m.

Definition locked (t : Tunnel) : Z := htlc_sum htlc_balance (htlcs t).

(** What the tunnel holds for its parties and its locks. *)
Definition held (t : Tunnel) : Z := balance t + locked t.

Definition paid (ps : list payment) : Z := fold_right (fun p acc => snd p + acc) 0 ps.

Definition paid_to (a : addr) (ps : list payment) : Z :=
  paid (filter (fun p => fst p = a) ps).

Definition paid_in (c : call) : Z := match c with CDeposit x => x | _ => 0 end.

Definition from_party (p : addr) (f : TunnelHTLC -> Z) (h : TunnelHTLC) : Z :=
  if bool_decide (htlc_sender h = p) then f h else 0.

(** The counter of a party agrees with its open locks. *)
Definition counter_ok (t : Tunnel) (p : addr) : Prop :=
  let c := default {| count := 0; total_locked := 0 |} (htlc_counters t !! p) in
  count c = htlc_sum (from_party p (fun _ => 1)) (htlcs t) /\
  total_locked c = htlc_sum (from_party p htlc_amount) (htlcs t).

Definition htlc_ok (t : Tunnel) (hash : bytes) (h : TunnelHTLC) : Prop :=
  htlc_payment_hash h = hash /\ htlc_balance h = htlc_amount h /\ 0 < htlc_amount h /\
  is_party (htlc_sender h) t = true.

(** What each status says about the funds. *)
Definition status_ok (t : Tunnel) : Prop :=
  let s := state t in
  let split_ok := 0 <= party_a_balance s /\ 0 <= party_b_balance s /\
                  party_a_balance s + party_b_balance s = balance t in
  (status t = STATUS_CREATED /\ 0 <= party_a_deposit t /\ 0 <= party_b_deposit t /\
     balance t = party_a_deposit t + party_b_deposit t /\
     (party_a_deposit t = 0 \/ party_b_deposit t = 0) /\
     htlcs t = ∅ /\ nonce s = 0 /\ last_disputed_nonce t = 0) \/
  (status t = STATUS_ACTIVE /\ split_ok /\ last_disputed_nonce t <= nonce s) \/
  (status t = STATUS_DISPUTED /\ split_ok /\ last_disputed_nonce t = nonce s + 1 /\
     exists p, dispute_raiser t = Some p /\ is_party p t = true) \/
  (status t = STATUS_CLOSED /\ balance t = 0) \/
  (status t = STATUS_DESTROYED /\ balance t = 0 /\ locked t = 0).

Record wf (t : Tunnel) : Prop := {
  wf_version : version t = CURRENT_VERSION;
  wf_parties : address (party_a t) <> address (party_b t);
  wf_timeout : 0 < timeout_ms t <= MAX_TOTAL_TIMEOUT_MS;
  wf_nonce : 0 <= nonce (state t) < U64_MAX;
  wf_penalty : 0 <= penalty_amount t;
  wf_htlcs : map_Forall (htlc_ok t) (htlcs t);
  wf_counters : forall p, counter_ok t p;
  wf_held : 0 <= balance t /\ held t <= U64_MAX;
  wf_status : status_ok t
}.

(** * Sums over the locks *)

Lemma htlc_sum_empty f : htlc_sum f ∅ = 0.
Proof. apply map_fold_empty. Qed.

Lemma htlc_sum_insert f k h m :
  m !! k = None -> htlc_sum f (<[k := h]> m) = f h + htlc_sum f m.
Proof. intros Hk. apply (map_fold_insert_L (fun _ h acc => f h + acc)); [intros; lia|done]. Qed.

Lemma htlc_sum_delete f k h m :
  m !! k = Some h -> htlc_sum f m = f h + htlc_sum f (delete k m).
Proof. intros Hk. apply (map_fold_delete_L (fun _ h acc => f h + acc)); [intros; lia|done]. Qed.

Lemma htlc_sum_rel (R : Z -> Z -> Prop) f g m :
  R 0 0 -> (forall h x y, R x y -> (exists k, m !! k = Some h) -> R (f h + x) (g h + y)) ->
  R (htlc_sum f m) (htlc_sum g m).
Proof.
  intros H0. induction m as [|k h m Hk IH] using map_ind; intros Hs.
  { by rewrite !htlc_sum_empty. }
  rewrite !htlc_sum_insert by done. apply Hs; [|exists k; by rewrite lookup_insert_eq].
  apply IH. intros h' x y HR (k' & Hk'). apply Hs; [done|]. exists k'.
  rewrite lookup_insert_ne; [done|]. by intros ->; rewrite Hk in Hk'.
Qed.

Lemma htlc_sum_le f g m :
  (forall k h, m !! k = Some h -> f h <= g h) -> htlc_sum f m <= htlc_sum g m.
Proof.
  intros Hle. apply (htlc_sum_rel Z.le); [done|]. intros h x y ? (k & Hk).
  specialize (Hle k h Hk). lia.
Qed.

Lemma htlc_sum_nonneg f m : (forall k h, m !! k = Some h -> 0 <= f h) -> 0 <= htlc_sum f m.
Proof.
  intros Hle. apply (htlc_sum_rel (fun x _ => 0 <= x) f f); [done|].
  intros h x y ? (k & Hk). specialize (Hle k h Hk). lia.
Qed.

Lemma htlc_sum_ext f g m :
  (forall k h, m !! k = Some h -> f h = g h) -> htlc_sum f m = htlc_sum g m.
Proof.
  intros He. apply (htlc_sum_rel eq); [done|]. intros h x y -> (k & Hk).
  by rewrite (He k h Hk).
Qed.

Lemma htlc_sum_add f g m : htlc_sum (fun h => f h + g h) m = htlc_sum f m + htlc_sum g m.
Proof.
  induction m as [|k h m Hk IH] using map_ind; [by rewrite !htlc_sum_empty|].
  rewrite !htlc_sum_insert by done. lia.
Qed.

(** * The invariant is kept *)

Lemma wf_frame t t' :
  wf t ->
  version t' = version t -> party_a t' = party_a t -> party_b t' = party_b t ->
  penalty_amount t' = penalty_amount t -> htlcs t' = htlcs t ->
  htlc_counters t' = htlc_counters t ->
  0 < timeout_ms t' <= MAX_TOTAL_TIMEOUT_MS -> 0 <= nonce (state t') < U64_MAX ->
  0 <= balance t' -> held t' <= U64_MAX -> status_ok t' -> wf t'.
Proof.
  intros [Hv Hp Ht Hn Hpen Hh Hc Hheld Hs] Ev Ea Eb Ep Eh Ec Ht' Hn' Hb' Hheld' Hs'.
  split; [congruence..|done|done|lia| | |done|done].
  - rewrite Eh. intros k h Hk. specialize (Hh k h Hk). unfold htlc_ok, is_party in *.
    by rewrite Ea, Eb.
  - intros p. specialize (Hc p). unfold counter_ok in *. by rewrite Ec, Eh.
Qed.

(** The disjuncts of {!status_ok} that a status excludes. *)
Ltac status_cases Hs :=
  destruct Hs as [Hs|[Hs|[Hs|[Hs|Hs]]]]; destruct Hs as [? Hs];
  try (exfalso; unfold STATUS_CREATED, STATUS_ACTIVE, STATUS_CLOSED, STATUS_DISPUTED,
         STATUS_DESTROYED in *; congruence).

Lemma status_created t : wf t -> status t = STATUS_CREATED ->
  0 <= party_a_deposit t /\ 0 <= party_b_deposit t /\
  balance t = party_a_deposit t + party_b_deposit t /\
  (party_a_deposit t = 0 \/ party_b_deposit t = 0) /\
  htlcs t = ∅ /\ nonce (state t) = 0 /\ last_disputed_nonce t = 0.
Proof. intros [_ _ _ _ _ _ _ _ Hs] E. status_cases Hs. tauto. Qed.

Lemma status_active t : wf t -> status t = STATUS_ACTIVE ->
  0 <= party_a_balance (state t) /\ 0 <= party_b_balance (state t) /\
  party_a_balance (state t) + party_b_balance (state t) = balance t /\
  last_disputed_nonce t <= nonce (state t).
Proof. intros [_ _ _ _ _ _ _ _ Hs] E. status_cases Hs. tauto. Qed.

Lemma status_disputed t : wf t -> status t = STATUS_DISPUTED ->
  0 <= party_a_balance (state t) /\ 0 <= party_b_balance (state t) /\
  party_a_balance (state t) + party_b_balance (state t) = balance t /\
  last_disputed_nonce t = nonce (state t) + 1 /\
  exists p, dispute_raiser t = Some p /\ is_party p t = true.
Proof. intros [_ _ _ _ _ _ _ _ Hs] E. status_cases Hs. tauto. Qed.

Lemma status_destroyed t : wf t -> status t = STATUS_DESTROYED -> held t = 0.
Proof. intros [_ _ _ _ _ _ _ _ Hs] E. status_cases Hs. unfold held. lia. Qed.

Lemma locked_nonneg t : wf t -> 0 <= locked t.
Proof.
  intros [_ _ _ _ _ Hh _ _ _]. apply htlc_sum_nonneg. intros k h Hk.
  destruct (Hh k h Hk) as (_ & ? & ? & _). lia.
Qed.

Lemma split_done a b total : assert_balance_split a b total = Done tt <-> a <= total /\ b = total - a.
Proof.
  unfold assert_balance_split. destruct (Z.leb_spec a total); [|naive_solver lia].
  destruct (Z.eqb_spec b (total - a)); naive_solver.
Qed.

Lemma distribute_done t a b now :
  wf t -> 0 <= a -> 0 <= b -> a + b = balance t ->
  exists t', distribute t a b now =
    Done (t', [(address (party_a t), a); (address (party_b t), b)]) /\
    wf t' /\ status t' = STATUS_CLOSED /\ locked t' = locked t /\ balance t' = 0.
Proof.
  intros Hw Ha Hb Hsum. pose proof Hw as [Hv Hp Ht Hn Hpen Hh Hc [Hb0 Hheld] Hs].
  unfold distribute, balance_split.
  rewrite (proj2 (Z.leb_le a (balance t))) by lia. cbn [move_bind].
  rewrite (proj2 (Z.leb_le b (balance t - a))) by lia. cbn [move_bind].
  eexists. split; [done|]. pose proof (locked_nonneg t Hw). unfold held in *.
  split_and!; [|done|done|simpl; lia]. apply (wf_frame t); try done; simpl; try lia.
  - change (locked _) with (locked t). unfold held, locked in *. simpl. lia.
  - right; right; right; left. simpl. split; [done|lia].
Qed.

(** A call keeps the invariant and the accounts. *)
Definition keeps (t : Tunnel) (inn : Z) (r : move (Tunnel * list payment)) : Prop :=
  forall t' ps, r = Done (t', ps) -> wf t' /\ held t' + paid ps = held t + inn.

Lemma keeps_distribute t a b now :
  wf t -> 0 <= a -> 0 <= b ->
  keeps t 0 (let* _ := assert_balance_split a b (balance t) in distribute t a b now).
Proof.
  intros Hw Ha Hb t' ps H. inv_done. destruct a0. apply split_done in E as [? ->].
  destruct (distribute_done t a (balance t - a) now) as (t'' & E & Hw' & _ & Hl & Hb');
    [done|lia..|]. rewrite E in H. simplify_eq. split; [done|].
  unfold held. simpl. lia.
Qed.

(** Read off what a call that did not abort has checked. *)
Ltac read_checks :=
  inv_done; inv_u64; bool_to_prop;
  repeat match goal with
  | u : unit |- _ => destruct u
  | H : assert_balance_split _ _ _ = Done tt |- _ => apply split_done in H as [? ?]
  end; simplify_eq.

Lemma keeps_no_payment t inn (m : move Tunnel) :
  (forall t', m = Done t' -> wf t' /\ held t' = held t + inn) ->
  keeps t inn (no_payment m).
Proof.
  intros H t' ps E. unfold no_payment in E. inv_done. simplify_eq.
  destruct (H _ eq_refl). simpl. split; [done|lia].
Qed.

Lemma wf_funded t a b now :
  wf t -> status t = STATUS_CREATED -> 0 <= a -> 0 <= b -> a + b <= U64_MAX ->
  let t' := maybe_activate (touch now (with_balance (a + b) (with_deposits a b t))) in
  wf t' /\ held t' = a + b.
Proof.
  intros Hw Est Ha Hb Hsum t'. pose proof Hw as [_ _ Ht Hn _ _ _ _ _].
  destruct (status_created t Hw Est) as (_ & _ & _ & _ & He & Hn0 & Hl0).
  assert (locked t = 0) as Hlk by (unfold locked; by rewrite He, htlc_sum_empty).
  assert (held t' = a + b) as Hheld.
  { unfold held, locked, t', maybe_activate. fold (locked t) in *. unfold locked in Hlk.
    case_match; simpl; lia. }
  split; [|done].
  unfold t', maybe_activate in *. simpl in *. rewrite Est in *. simpl in *.
  destruct (Z.ltb_spec 0 a), (Z.ltb_spec 0 b); cbn [andb] in *;
    (apply (wf_frame t); try done; [simpl; lia|lia|]); unfold status_ok; simpl; rewrite ?Est.
  1: right; left; split_and!; [done|lia..].
  all: left; split_and!; [done|lia|lia|lia|lia|done..].
Qed.

Lemma keeps_deposit_internal t x pa now t' :
  wf t -> u64_range x -> deposit_internal t x pa now = Done t' ->
  wf t' /\ held t' = held t + x.
Proof.
  intros Hw [Hx _] H. unfold deposit_internal in H.
  assert (status t = STATUS_CREATED) as Est by (inv_done; by bool_to_prop).
  destruct (status_created t Hw Est) as (Ha0 & Hb0 & Hsum & _ & He & _).
  assert (locked t = 0) as Hlk by (unfold locked; by rewrite He, htlc_sum_empty).
  destruct pa; read_checks.
  - replace (balance t + x) with (party_a_deposit t + x + party_b_deposit t) by lia.
    destruct (wf_funded t (party_a_deposit t + x) (party_b_deposit t) now) as [? ->];
      [done..|lia|lia|lia|]. unfold held. split; [done|lia].
  - replace (balance t + x) with (party_a_deposit t + (party_b_deposit t + x)) by lia.
    destruct (wf_funded t (party_a_deposit t) (party_b_deposit t + x) now) as [? ->];
      [done..|lia|lia|lia|]. unfold held. split; [done|lia].
Qed.

Lemma keeps_update_state t h n a b ts sa sb now t' :
  wf t -> u64_range n -> u64_range a -> u64_range b ->
  update_state t h n a b ts sa sb now = Done t' -> wf t' /\ held t' = held t + 0.
Proof.
  intros Hw [Hn0 _] [Ha _] [Hb _] H. unfold update_state in H. read_checks.
  pose proof (status_active t Hw ltac:(done)) as (_ & _ & _ & Hl).
  pose proof Hw as [_ _ Ht Hn _ _ _ [Hb0 Hheld] _].
  split; [|unfold held, locked; simpl; lia]. apply (wf_frame t); try done; simpl.
  right; left. simpl. split_and!; [done|lia..].
Qed.

Lemma keeps_raise_dispute t h n a b ts s sender now t' :
  wf t -> u64_range n -> u64_range a -> u64_range b ->
  raise_dispute t h n a b ts s sender now = Done t' -> wf t' /\ held t' = held t + 0.
Proof.
  intros Hw [Hn0 _] [Ha _] [Hb _] H. unfold raise_dispute in H. read_checks.
  pose proof Hw as [_ _ Ht Hn _ _ _ [Hb0 Hheld] _].
  split; [|unfold held, locked; simpl; lia]. apply (wf_frame t); try done; simpl.
  right; right; left. simpl. split_and!; [done|lia..|]. exists sender. split; [done|].
  unfold is_party; simpl. repeat case_bool_decide; simpl; congruence.
Qed.

Lemma keeps_resolve_dispute t h n a b ts sa sb now t' :
  wf t -> u64_range n -> u64_range a -> u64_range b ->
  resolve_dispute t h n a b ts sa sb now = Done t' -> wf t' /\ held t' = held t + 0.
Proof.
  intros Hw [Hn0 _] [Ha _] [Hb _] H. unfold resolve_dispute in H. read_checks.
  pose proof (status_disputed t Hw ltac:(done)) as (_ & _ & _ & Hl & _).
  pose proof Hw as [_ _ Ht Hn _ _ _ [Hb0 Hheld] _].
  split; [|unfold held, locked; simpl; lia]. apply (wf_frame t); try done; simpl.
  right; left. simpl. split_and!; [done|lia..].
Qed.

Lemma keeps_raise_current t sender now t' :
  wf t -> raise_dispute_current_state t sender now = Done t' -> wf t' /\ held t' = held t + 0.
Proof.
  intros Hw H. unfold raise_dispute_current_state in H. read_checks.
  pose proof (status_active t Hw ltac:(done)) as (? & ? & ? & Hl).
  pose proof Hw as [_ _ Ht Hn _ _ _ [Hb0 Hheld] _].
  split; [|unfold held, locked; simpl; lia]. apply (wf_frame t); try done; simpl.
  right; right; left. simpl. split_and!; [done|lia..|]. by exists sender.
Qed.

Lemma keeps_extend_timeout t x sender now t' :
  wf t -> extend_timeout t x sender now = Done t' -> wf t' /\ held t' = held t + 0.
Proof.
  intros Hw H. unfold extend_timeout in H. read_checks.
  unfold can_extend_timeout in *. bool_to_prop.
  pose proof (status_active t Hw ltac:(done)) as (? & ? & ? & Hl).
  pose proof Hw as [_ _ Ht Hn _ _ _ [Hb0 Hheld] _].
  split; [|unfold held, locked; simpl; lia]. apply (wf_frame t); try done; simpl; try lia.
  right; left. simpl. split_and!; [done|lia..].
Qed.

Lemma keeps_set_referee t r sa sb t' :
  wf t -> set_referee_cosigned t r sa sb = Done t' -> wf t' /\ held t' = held t + 0.
Proof.
  intros Hw H. unfold set_referee_cosigned in H. read_checks.
  pose proof Hw as [_ _ Ht Hn _ _ _ [Hb0 Hheld] Hs].
  split; [|unfold held, locked; simpl; lia]. by apply (wf_frame t).
Qed.

Lemma keeps_package_referee t r sender t' :
  wf t -> set_referee t r sender = Done t' -> wf t' /\ held t' = held t + 0.
Proof.
  intros Hw H. unfold set_referee in H. read_checks.
  pose proof Hw as [_ _ Ht Hn _ _ _ [Hb0 Hheld] Hs].
  split; [|unfold held, locked; simpl; lia]. by apply (wf_frame t).
Qed.

(** ** Locks *)

Lemma counter_bounds t p : wf t ->
  let c := default {| count := 0; total_locked := 0 |} (htlc_counters t !! p) in
  0 <= count c <= total_locked c /\ total_locked c <= locked t.
Proof.
  intros Hw c. pose proof Hw as [_ _ _ _ _ Hh Hc _ _].
  destruct (Hc p) as [E1 E2]. fold c in E1, E2. rewrite E1, E2. unfold locked.
  assert (forall k h, htlcs t !! k = Some h -> 0 <= from_party p (fun _ => 1) h /\
    from_party p (fun _ => 1) h <= from_party p htlc_amount h /\
    from_party p htlc_amount h <= htlc_balance h) as Hb.
  { intros k h Hk. destruct (Hh k h Hk) as (_ & ? & ? & _). unfold from_party.
    case_bool_decide; lia. }
  split_and!; [apply htlc_sum_nonneg|apply htlc_sum_le..]; intros k h Hk;
    destruct (Hb k h Hk) as (? & ? & ?); lia.
Qed.

(** Setting both maps, when they agree again. *)
Lemma wf_relock t t' :
  wf t ->
  version t' = version t -> party_a t' = party_a t -> party_b t' = party_b t ->
  penalty_amount t' = penalty_amount t -> timeout_ms t' = timeout_ms t ->
  nonce (state t') = nonce (state t) ->
  map_Forall (htlc_ok t) (htlcs t') -> (forall p, counter_ok t' p) ->
  0 <= balance t' -> held t' <= U64_MAX -> status_ok t' -> wf t'.
Proof.
  intros [Hv Hp Ht Hn Hpen Hh Hc Hheld Hs] Ev Ea Eb Ep Et En Hh' Hc' Hb' Hheld' Hs'.
  split; [congruence..| | |lia| |done|done|done]; rewrite ?Et, ?En; [done..|].
  intros k h Hk. specialize (Hh' k h Hk). unfold htlc_ok, is_party in *. by rewrite Ea, Eb.
Qed.

Lemma keeps_lock t h x r e s sender now t' :
  wf t -> lock_htlc t h x r e s sender now = Done t' -> wf t' /\ held t' = held t + 0.
Proof.
  intros Hw H. unfold lock_htlc in H.
  assert (exists pa, is_party sender t = true /\ status t = STATUS_ACTIVE /\ 0 < x /\
    lock_htlc_internal t h x sender r e pa now = Done t') as (pa & Hsp & Est & Hx & H').
  { inv_done. bool_to_prop. eexists (fst _). split_and!; [|done..].
    unfold is_party. repeat case_bool_decide; simpl in *; congruence. }
  clear H. unfold lock_htlc_internal, update_party_htlc_counter in H'.
  destruct (status_active t Hw Est) as (Hsa & Hsb & Hsum & Hl).
  pose proof Hw as [_ _ _ _ _ Hh Hc [Hb0 Hheld] _].
  cbn zeta in H'.
  assert (htlcs t !! h = None) as Hfresh.
  { inv_done. bool_to_prop. destruct (htlcs t !! h) eqn:Eh; [|done]. exfalso. eauto. }
  set (c := default {| count := 0; total_locked := 0 |} (htlc_counters t !! sender)) in *.
  set (hl := {| htlc_payment_hash := h; htlc_amount := x; htlc_sender := sender;
                htlc_receiver := r; htlc_expiry_ms := e; htlc_balance := x |}) in *.
  assert (locked t = htlc_sum htlc_balance (htlcs t)) as Hlk by done.
  destruct pa; read_checks.
  all: split; [|unfold held, locked; simpl; rewrite htlc_sum_insert by done; simpl; lia].
  all: apply (wf_relock t); try done; simpl; try lia.
  all: try (apply map_Forall_insert_2; done).
  all: try (unfold held, locked in *; simpl; rewrite htlc_sum_insert by done; simpl; lia).
  all: try (right; left; simpl; split_and!; [done|lia..]).
  all: intros p; destruct (Hc p) as [E1 E2]; unfold counter_ok; simpl;
       rewrite !htlc_sum_insert by done; unfold from_party at 1 3; simpl;
       case_bool_decide; subst; rewrite ?lookup_insert_eq, ?lookup_insert_ne by done;
       simpl; unfold c in *; lia.
Qed.

(** A lock is released: by a claim or by expiry. *)
Lemma keeps_release t hash h now counters :
  wf t -> status t <> STATUS_DESTROYED -> htlcs t !! hash = Some h ->
  update_party_htlc_counter (htlc_counters t) (htlc_sender h) false (htlc_amount h)
    = Done counters ->
  let t' := touch now (with_htlcs (delete hash (htlcs t)) counters t) in
  wf t' /\ held t' + htlc_balance h = held t.
Proof.
  intros Hw Hnd Hk Hc t'. unfold update_party_htlc_counter in Hc.
  pose proof Hw as [_ _ _ _ _ Hh Hcs [Hb0 Hheld] Hs].
  destruct (Hh _ _ Hk) as (_ & Eb & Hpos & _).
  assert (held t' + htlc_balance h = held t) as Hacc.
  { unfold held, locked. simpl. rewrite (htlc_sum_delete _ _ _ _ Hk). lia. }
  split; [|done]. apply (wf_relock t); try done; try lia.
  - simpl. by apply map_Forall_delete.
  - intros p. destruct (Hcs p) as [E1 E2]. unfold counter_ok. simpl.
    rewrite (htlc_sum_delete _ _ _ _ Hk) in E1. rewrite (htlc_sum_delete _ _ _ _ Hk) in E2.
    unfold from_party in E1 at 1, E2 at 1.
    case_bool_decide as Hp.
    + subst p. read_checks. rewrite lookup_insert_eq. simpl. lia.
    + read_checks. rewrite lookup_insert_ne by done. lia.
  - unfold status_ok in *. simpl.
    destruct Hs as [(E & ? & ? & ? & ? & He & ?)|[Hs|[Hs|[Hs|(E & _)]]]].
    + by rewrite He, lookup_empty in Hk.
    + right; left. tauto.
    + right; right; left. tauto.
    + right; right; right; left. tauto.
    + done.
Qed.

(** ** Withdrawals *)

Lemma keeps_withdraw t (pa : bool) sender now :
  wf t -> status t = STATUS_CREATED ->
  0 < (if pa then party_a_deposit t else party_b_deposit t) ->
  keeps t 0 (withdraw_deposit t pa sender now).
Proof.
  intros Hw Est Hpos t' ps H. unfold withdraw_deposit in H.
  destruct (status_created t Hw Est) as (Ha0 & Hb0 & Hsum & Hone & He & Hn0 & Hl0).
  pose proof Hw as [_ _ Ht Hn _ _ _ _ _].
  assert (locked t = 0) as Hlk by (unfold locked; by rewrite He, htlc_sum_empty).
  assert (balance t = if pa then party_a_deposit t else party_b_deposit t) as Eb
    by (destruct pa; lia).
  rewrite <- Eb in H. unfold balance_split in H. rewrite Z.leb_refl in H. cbn in H.
  rewrite Z.sub_diag in H. cbn in H. apply Done_inj in H. simplify_eq.
  assert (forall s, held (with_status STATUS_CLOSED now
    (touch now (with_balance 0 (with_deposits s (if pa then party_b_deposit t else 0) t)))) = 0)
    as Hh0 by (intros s; unfold held, locked in *; simpl; lia).
  rewrite Hh0. simpl. split; [|unfold held; lia].
  apply (wf_frame t); try done; [by rewrite Hh0|].
  right; right; right; left. done.
Qed.

Lemma keeps_destroy t sender now t' :
  wf t -> destroy_tunnel t sender now = Done t' -> wf t' /\ held t' = held t + 0.
Proof.
  intros Hw H. unfold destroy_tunnel in H. read_checks.
  pose proof Hw as [_ Hp Ht Hn _ Hh Hc [Hb0 Hheld] Hs].
  split; [|unfold held, locked; simpl; lia]. apply (wf_frame t); try done.
  right; right; right; right. simpl. split_and!; [done|done|].
  change (locked t = 0). unfold locked.
  rewrite (htlc_sum_ext _ (fun h => from_party (address (party_a t)) htlc_amount h +
                                    from_party (address (party_b t)) htlc_amount h)).
  2:{ intros k h Hk. destruct (Hh k h Hk) as (_ & -> & _ & Hsp). unfold is_party in Hsp.
      unfold from_party. repeat case_bool_decide; simpl in *; try lia; congruence. }
  rewrite htlc_sum_add. unfold party_htlc_locked_internal in *.
  destruct (Hc (address (party_a t))) as [_ <-], (Hc (address (party_b t))) as [_ <-].
  repeat case_match; simpl; lia.
Qed.

(** * Every call *)

Lemma apply_penalty_ok t raiser :
  wf t -> status t = STATUS_DISPUTED ->
  exists a b, apply_penalty t raiser = Done (a, b) /\ 0 <= a /\ 0 <= b /\
    a + b = balance t /\
    let p := Z.min (penalty_amount t)
               (if bool_decide (raiser = address (party_a t))
                then party_b_balance (state t) else party_a_balance (state t)) in
    if bool_decide (raiser = address (party_a t))
    then a = party_a_balance (state t) + p else b = party_b_balance (state t) + p.
Proof.
  intros Hw Est. destruct (status_disputed t Hw Est) as (Ha & Hb & Hsum & _).
  pose proof Hw as [_ _ _ _ Hpen _ _ [_ Hheld] _].
  pose proof (locked_nonneg t Hw). unfold held in Hheld.
  unfold apply_penalty, u64_sub, u64_add.
  destruct (Z.ltb_spec 0 (penalty_amount t)).
  2:{ eexists _, _. split_and!; [done..|lia|]. case_bool_decide; simpl; lia. }
  case_bool_decide.
  - rewrite (proj2 (Z.leb_le _ _)) by lia. cbn [move_bind].
    rewrite (proj2 (Z.leb_le _ _)) by lia. cbn [move_bind].
    eexists _, _. split_and!; [done|lia..].
  - rewrite (proj2 (Z.leb_le _ _)) by lia. cbn [move_bind].
    rewrite (proj2 (Z.leb_le _ _)) by lia. cbn [move_bind].
    eexists _, _. split_and!; [done|lia..].
Qed.

Lemma keeps_exec c sender now t :
  wf t -> call_ok c -> keeps t (paid_in c) (exec c sender now t).
Proof.
  intros Hw Hc. destruct c; simpl in *; try (apply keeps_no_payment; intros t' H).
  - unfold deposit in H.
    destruct (bool_decide _); [by eapply keeps_deposit_internal|].
    destruct (bool_decide _); [by eapply keeps_deposit_internal|done].
  - destruct Hc as (? & ? & ? & ?). eapply keeps_update_state; [..|exact H]; done.
  - destruct Hc as ([Ha _] & [Hb _] & _). intros t' ps H. unfold close_cooperative in H.
    inv_done. eapply (keeps_distribute t a b now); [done..|]. by rewrite E1.
  - destruct Hc as ([Ha _] & [Hb _] & _). intros t' ps H. unfold close_cooperative_with_root in H.
    inv_done. eapply (keeps_distribute t a b now); [done..|]. by rewrite E2.
  - destruct Hc as (? & ? & ? & ?). eapply keeps_raise_dispute; [..|exact H]; done.
  - destruct Hc as (? & ? & ? & ?). eapply keeps_resolve_dispute; [..|exact H]; done.
  - eapply keeps_raise_current; [..|exact H]; done.
  - intros t' ps H. unfold force_close_after_timeout in H.
    assert (status t = STATUS_DISPUTED) as Est by (inv_done; by bool_to_prop).
    inv_done. case_match; [|done]. destruct (apply_penalty_ok t a Hw Est) as
      (x & y & Ep & Hx & Hy & _). rewrite Ep in H. inv_done. cbn [fst snd] in *.
    eapply (keeps_distribute t x y now); [done..|]. by rewrite E5.
  - intros t' ps H. unfold agree_to_dispute in H.
    assert (status t = STATUS_DISPUTED) as Est by (inv_done; by bool_to_prop).
    destruct (status_disputed t Hw Est) as (Ha & Hb & _).
    inv_done. case_match; [|done]. inv_done.
    eapply (keeps_distribute t _ _ now); [done|exact Ha|exact Hb|]. by rewrite E3.
  - eapply keeps_extend_timeout; [..|exact H]; done.
  - eapply keeps_lock; [..|exact H]; done.
  - intros t' ps H. unfold claim_htlc_in_tunnel in H. inv_done. bool_to_prop.
    destruct (htlcs t !! hash) as [h|] eqn:Hk; [|done]. inv_done. simplify_eq.
    destruct (keeps_release t hash h now a Hw E0 Hk E4). simpl. split; [done|lia].
  - intros t' ps H. unfold expire_htlc_in_tunnel in H. inv_done. bool_to_prop.
    destruct (htlcs t !! hash) as [h|] eqn:Hk; [|done]. inv_done. simplify_eq.
    destruct (keeps_release t hash h now a Hw E0 Hk E3). simpl. split; [done|lia].
  - eapply keeps_set_referee; [..|exact H]; done.
  - eapply keeps_package_referee; [..|exact H]; done.
  - destruct Hc as ([Ha _] & [Hb _]). intros t' ps H. unfold resolve_dispute_external in H.
    inv_done. case_match; [|done]. inv_done.
    eapply (keeps_distribute t a b now); [done..|]. by rewrite E2.
  - destruct Hc as ([Ha _] & [Hb _]). intros t' ps H. unfold resolve_dispute_verified in H.
    inv_done. eapply (keeps_distribute t a b now); [done..|]. by rewrite E4.
  - intros t' ps H. unfold withdraw_before_active in H. inv_done. bool_to_prop.
    destruct a as [[m o] pa]. inv_done. bool_to_prop.
    eapply (keeps_withdraw t pa sender now); [done..| |exact H].
    repeat case_match; simplify_eq; lia.
  - intros t' ps H. unfold withdraw_timeout in H. inv_done. bool_to_prop.
    destruct a0 as [m pa]. inv_done. bool_to_prop.
    eapply (keeps_withdraw t pa sender now); [done..| |exact H].
    repeat case_match; simplify_eq; lia.
  - eapply keeps_destroy; [..|exact H]; done.
  - unfold migrate in H. inv_done. bool_to_prop. pose proof Hw as [Hv _ _ _ _ _ _ _ _]. lia.
Qed.

(** * Histories *)

Record tx := { tx_call : call; tx_sender : addr; tx_now : Z }.

(** A transaction that aborts changes nothing.  The second and third components
    are the coins sent so far and the sum of the coins taken. *)
Definition submit (s : Tunnel * list payment * Z) (x : tx) : Tunnel * list payment * Z :=
  let '(t, outs, ins) := s in
  match exec (tx_call x) (tx_sender x) (tx_now x) t with
  | Done (t', ps) => (t', outs ++ ps, ins + paid_in (tx_call x))
  | Abort _ => s
  end.

Definition history (t : Tunnel) (txs : list tx) : Tunnel * list payment * Z :=
  fold_left submit txs (t, [], 0).

Lemma paid_app ps qs : paid (ps ++ qs) = paid ps + paid qs.
Proof. induction ps as [|p ps IH]; simpl; lia. Qed.

Lemma build_tunnel_wf tid a b tmo pen now t :
  0 <= pen -> build_tunnel tid a b tmo pen now = Done t ->
  wf t /\ held t = 0 /\ status t = STATUS_CREATED.
Proof.
  intros Hpen H. unfold build_tunnel, validate_create_params in H.
  inv_done. bool_to_prop. split; [|done]. split; simpl; try done.
  left. simpl. split_and!; try done. by left.
Qed.

Lemma history_ok txs s :
  Forall (fun x => call_ok (tx_call x)) txs -> wf (fst (fst s)) ->
  let s' := fold_left submit txs s in
  wf (fst (fst s')) /\
  held (fst (fst s')) + paid (snd (fst s')) - snd s'
    = held (fst (fst s)) + paid (snd (fst s)) - snd s.
Proof.
  intros Htx. revert s; induction Htx as [|x txs Hx _ IH]; intros [[t outs] ins] Hw; [done|].
  simpl. destruct (exec (tx_call x) (tx_sender x) (tx_now x) t) as [[t' ps]|e] eqn:E.
  2:{ by apply (IH (t, outs, ins)). }
  destruct (keeps_exec (tx_call x) (tx_sender x) (tx_now x) t Hw Hx t' ps E) as [Hw' Hacc].
  destruct (IH (t', outs ++ ps, ins + paid_in (tx_call x)) Hw') as [? Hacc'].
  split; [done|]. rewrite Hacc'. simpl. rewrite paid_app. lia.
Qed.

(** Opening and funding in one call: the tunnel is active and holds both stakes. *)
Lemma create_and_fund_ok tid a b x y tmo pen now t :
  create_and_fund_with_id tid a b x y tmo pen now = Done t ->
  u64_range x -> u64_range y -> 0 <= pen ->
  wf t /\ status t = STATUS_ACTIVE /\ id t = tid /\ party_a t = a /\ party_b t = b /\
  balance t = x + y /\ party_a_deposit t = x /\ party_b_deposit t = y /\
  party_a_balance (state t) = x /\ party_b_balance (state t) = y /\
  nonce (state t) = 0 /\ created_at t = now /\ timeout_ms t = tmo /\ penalty_amount t = pen /\
  htlcs t = ∅ /\ timestamp (state t) = now.
Proof.
  intros H Hx Hy Hpen. unfold create_and_fund_with_id in H.
  destruct (build_tunnel tid a b tmo pen now) as [t0|] eqn:E0; [|done]. cbn [move_bind] in H.
  destruct (deposit_internal t0 x true now) as [t1|] eqn:E1; [|done]. cbn [move_bind] in H.
  destruct (build_tunnel_wf _ _ _ _ _ _ _ Hpen E0) as (Hw0 & _).
  destruct (keeps_deposit_internal _ _ _ _ _ Hw0 Hx E1) as (Hw1 & _).
  destruct (keeps_deposit_internal _ _ _ _ _ Hw1 Hy H) as (Hw2 & _).
  split; [done|]. clear Hw0 Hw1 Hw2. unfold build_tunnel in E0. inv_done.
  unfold deposit_internal in E1. cbn in E1. inv_done. inv_u64. unfold maybe_activate in *.
  cbn in H. rewrite andb_false_r in H. unfold deposit_internal in H. cbn in H.
  inv_done. inv_u64. unfold maybe_activate, MIN_DEPOSIT in *. bool_to_prop. cbn.
  rewrite (proj2 (Z.ltb_lt 0 (0 + x))), (proj2 (Z.ltb_lt 0 (0 + y))) by lia. cbn.
  split_and!; first [done|lia].
Qed.

(** It cannot fail when its arguments are good. *)
Lemma create_and_fund_total tid a b x y tmo pen now :
  validate_create_params a b = Done tt -> 0 < tmo <= MAX_TOTAL_TIMEOUT_MS ->
  0 < x -> 0 < y -> x + y <= U64_MAX ->
  exists t, create_and_fund_with_id tid a b x y tmo pen now = Done t.
Proof.
  intros Hv [Ht1 Ht2] Hx Hy Hsum. unfold create_and_fund_with_id, build_tunnel.
  rewrite Hv. cbn [move_bind]. rewrite (proj2 (Z.ltb_lt 0 tmo)), (proj2 (Z.leb_le tmo _)) by done.
  cbn [move_bind]. unfold deposit_internal at 1. cbn -[u64_add U64_MAX].
  unfold MIN_DEPOSIT. rewrite (proj2 (Z.leb_le 1 x)) by lia.
  rewrite !(proj2 (u64_add_ok 0 x x)) by lia. cbn [move_bind].
  unfold maybe_activate at 1. cbn -[u64_add U64_MAX]. rewrite andb_false_r.
  unfold deposit_internal. cbn -[u64_add U64_MAX].
  unfold MIN_DEPOSIT. rewrite (proj2 (Z.leb_le 1 y)) by lia.
  rewrite (proj2 (u64_add_ok 0 y y)) by lia. cbn [move_bind].
  rewrite (proj2 (u64_add_ok x y _)) by (split; [reflexivity|lia]). cbn [move_bind]. eauto.
Qed.

(** C10: the contract is solvent.  Whoever calls what, in whatever order, on a
    tunnel from its creation on, the tunnel holds -- as its balance and in its
    open locks -- exactly what was deposited and not yet paid out; once it is
    closed only open locks are left, and once destroyed nothing is.  While it is
    active or disputed the two balances of the committed state are a split of what
    can be paid, so no closing call can fail for want of funds. *)
Theorem contract_solvent tid a b tmo pen now t0 txs :
  build_tunnel tid a b tmo pen now = Done t0 -> u64_range pen ->
  Forall (fun x => call_ok (tx_call x)) txs ->
  let '(t, outs, ins) := history t0 txs in
  ins = held t + paid outs /\ 0 <= balance t /\ 0 <= locked t /\
  (status t = STATUS_ACTIVE \/ status t = STATUS_DISPUTED ->
     0 <= party_a_balance (state t) /\ 0 <= party_b_balance (state t) /\
     party_a_balance (state t) + party_b_balance (state t) = balance t) /\
  (status t = STATUS_CLOSED -> ins = locked t + paid outs) /\
  (status t = STATUS_DESTROYED -> ins = paid outs).
Proof.
  intros Hb [Hpen _] Htx. destruct (build_tunnel_wf _ _ _ _ _ _ _ Hpen Hb) as (Hw0 & Hh0 & _).
  pose proof (history_ok txs (t0, [], 0) Htx Hw0) as [Hw Hacc].
  unfold history. destruct (fold_left submit txs (t0, [], 0)) as [[t outs] ins].
  simpl in *. pose proof (locked_nonneg t Hw) as Hl.
  pose proof Hw as [_ _ _ _ _ _ _ [Hbal _] Hs].
  split_and!; [lia|done|done| | |].
  - intros [E|E]; [destruct (status_active t Hw E) as (? & ? & ? & _)
                  |destruct (status_disputed t Hw E) as (? & ? & ? & _)]; done.
  - intros E. unfold held in *. status_cases Hs. lia.
  - intros E. pose proof (status_destroyed t Hw E). lia.
Qed.

(** * Leaving alone *)

(** Transactions that leave the tunnel disputed all along. *)
Fixpoint disputed_run (t : Tunnel) (txs : list tx) (t' : Tunnel) : Prop :=
  status t = STATUS_DISPUTED /\
  match txs with
  | [] => t' = t
  | x :: txs => disputed_run (fst (fst (submit (t, [], 0) x))) txs t'
  end.

(** What a dispute fixes. *)
Definition same_dispute (t t' : Tunnel) : Prop :=
  state t' = state t /\ timeout_ms t' = timeout_ms t /\ dispute_raiser t' = dispute_raiser t /\
  balance t' = balance t /\ party_a t' = party_a t /\ party_b t' = party_b t /\
  penalty_amount t' = penalty_amount t.

Lemma exec_disputed c sender now t t' ps :
  exec c sender now t = Done (t', ps) -> status t = STATUS_DISPUTED ->
  status t' = STATUS_DISPUTED -> same_dispute t t'.
Proof.
  intros H E E'. unfold same_dispute.
  destruct c; simpl in H; unfold no_payment, deposit, deposit_internal, update_state,
    close_cooperative, close_cooperative_with_root, raise_dispute, resolve_dispute,
    raise_dispute_current_state, force_close_after_timeout, agree_to_dispute, extend_timeout,
    lock_htlc, claim_htlc_in_tunnel, expire_htlc_in_tunnel, set_referee_cosigned, set_referee, resolve_dispute_verified,
    resolve_dispute_external, withdraw_before_active, withdraw_timeout, destroy_tunnel, migrate,
    distribute in H; repeat case_match; try discriminate H; inv_done;
    try (rewrite E in *; discriminate); repeat case_match; inv_done; simplify_eq; simpl in *;
    try discriminate; try done.
Qed.

Lemma disputed_run_same t txs t' :
  wf t -> Forall (fun x => call_ok (tx_call x)) txs -> disputed_run t txs t' ->
  wf t' /\ status t' = STATUS_DISPUTED /\ same_dispute t t'.
Proof.
  revert t; induction txs as [|x txs IH]; intros t Hw Htx [E Hrun].
  { subst. done. }
  inversion Htx as [|? ? Hx Htx']; subst. simpl in Hrun.
  destruct (exec (tx_call x) (tx_sender x) (tx_now x) t) as [[t1 ps]|] eqn:Ex; [|by apply IH].
  simpl in Hrun. destruct (keeps_exec _ _ _ _ Hw Hx _ _ Ex) as [Hw1 _].
  assert (status t1 = STATUS_DISPUTED) as E1 by (destruct txs; apply Hrun).
  destruct (exec_disputed _ _ _ _ _ _ Ex E E1) as (? & ? & ? & ? & ? & ? & ?).
  destruct (IH t1 Hw1 Htx' Hrun) as (? & ? & ? & ? & ? & ? & ? & ? & ?).
  unfold same_dispute. split_and!; congruence.
Qed.

(** The raiser of a dispute can close once the deadline has passed. *)
Lemma force_close_succeeds t p now :
  wf t -> status t = STATUS_DISPUTED -> dispute_raiser t = Some p -> is_party p t = true ->
  0 <= timestamp (state t) -> timestamp (state t) + timeout_ms t <= now <= U64_MAX ->
  exists t' a b, exec CForceClose p now t =
      Done (t', [(address (party_a t), a); (address (party_b t), b)]) /\
    status t' = STATUS_CLOSED /\ a + b = balance t /\ 0 <= a /\ 0 <= b /\
    (p = address (party_a t) -> party_a_balance (state t) <= a /\
       party_b_balance (state t) - penalty_amount t <= b) /\
    (p = address (party_b t) -> party_b_balance (state t) <= b /\
       party_a_balance (state t) - penalty_amount t <= a).
Proof.
  intros Hw Est Er Hp Hts [Hd Hmax]. pose proof Hw as [Hv Hpa [Ht _] _ Hpen _ _ _ _].
  destruct (apply_penalty_ok t p Hw Est) as (a & b & Ep & Ha & Hb & Hsum & Hpay).
  destruct (distribute_done t a b now Hw Ha Hb Hsum) as (t' & Ed & _ & Ecl & _).
  exists t', a, b. simpl. unfold force_close_after_timeout.
  rewrite Hv, Est, (proj2 (Z.ltb_lt _ _) Ht), Er. simpl.
  rewrite bool_decide_eq_true_2 by done. unfold u64_add.
  rewrite (proj2 (Z.leb_le _ U64_MAX)) by lia. cbn [move_bind].
  rewrite (proj2 (Z.leb_le _ now)) by lia. rewrite Ep. cbn [move_bind fst snd].
  rewrite (proj2 (split_done a b (balance t))) by lia. cbn [move_bind]. rewrite Ed.
  destruct (status_disputed t Hw Est) as (Hsa & Hsb & Hss & _).
  split_and!; [done|done|lia|lia|lia|intros ->..]; cbn zeta in Hpay.
  - rewrite bool_decide_eq_true_2 in Hpay by done. lia.
  - rewrite bool_decide_eq_false_2 in Hpay by congruence. lia.
Qed.

(** C11: a party can always leave alone.  A party of an active tunnel can dispute
    the state on chain without anybody's signature; whatever others do meanwhile,
    as long as nobody answers or settles the dispute, the deadline does not move, and after
    it the party closes the tunnel and is paid at least its balance, the other at
    least its own less the agreed penalty. *)
Theorem unilateral_exit t p now later :
  wf t -> status t = STATUS_ACTIVE -> is_party p t = true -> 0 <= now ->
  now + timeout_ms t <= later <= U64_MAX ->
  exists t1, exec CRaiseDisputeCurrent p now t = Done (t1, []) /\
    forall txs t2, Forall (fun x => call_ok (tx_call x)) txs -> disputed_run t1 txs t2 ->
    exists t3 a b, exec CForceClose p later t2 =
        Done (t3, [(address (party_a t), a); (address (party_b t), b)]) /\
      status t3 = STATUS_CLOSED /\ a + b = balance t /\
      (p = address (party_a t) -> party_a_balance (state t) <= a /\
         party_b_balance (state t) - penalty_amount t <= b) /\
      (p = address (party_b t) -> party_b_balance (state t) <= b /\
         party_a_balance (state t) - penalty_amount t <= a).
Proof.
  intros Hw Est Hp Hnow Hlater. destruct (status_active t Hw Est) as (Hsa & Hsb & Hsum & Hl).
  pose proof Hw as [Hv Hpa [Ht _] Hn _ _ _ _ _].
  eassert (exec CRaiseDisputeCurrent p now t = Done (_, [])) as E1.
  { simpl. unfold raise_dispute_current_state, no_payment.
    rewrite Hv, Est, (proj2 (Z.ltb_lt _ _) Ht), Hp. simpl.
    rewrite (proj2 (Z.leb_le _ _) Hl). unfold u64_add.
    rewrite (proj2 (Z.leb_le _ U64_MAX)) by lia. reflexivity. }
  destruct (keeps_exec CRaiseDisputeCurrent p now t Hw I _ _ E1) as [Hw1 _].
  eexists. split; [exact E1|]. intros txs t2 Htx Hrun.
  destruct (disputed_run_same _ _ _ Hw1 Htx Hrun) as
    (Hw2 & E2 & Es & Etm & Er & Eb & Ea & Ebb & Epen). simpl in *.
  destruct (force_close_succeeds t2 p later) as
    (t3 & a & b & Ex & Ecl & Hab & _ & _ & HA & HB); [done..| | | |].
  - unfold is_party. by rewrite Ea, Ebb.
  - by rewrite Es.
  - rewrite Es, Etm. done.
  - exists t3, a, b. rewrite Ea, Ebb, Eb, Es, Epen in *. simpl in *. done.
Qed.

End Calls.

(** * Samples *)

Definition sample_a : PartyConfig :=
  {| address := replicate 32 1; public_key := replicate 32 3; signature_type := 0 |}.
Definition sample_b : PartyConfig :=
  {| address := replicate 32 2; public_key := replicate 32 4; signature_type := 0 |}.
Definition sample_id : addr := replicate 31 0 ++ [161].

(** Both deposit, A disputes, B tries to move the deadline, A closes. *)
Definition sample_txs : list tx :=
  [{| tx_call := CDeposit 100; tx_sender := address sample_a; tx_now := 11 |};
   {| tx_call := CDeposit 50; tx_sender := address sample_b; tx_now := 12 |};
   {| tx_call := CRaiseDisputeCurrent; tx_sender := address sample_a; tx_now := 20 |};
   {| tx_call := CExtendTimeout 500; tx_sender := address sample_b; tx_now := 25 |};
   {| tx_call := CForceClose; tx_sender := address sample_a; tx_now := 1019 |};
   {| tx_call := CForceClose; tx_sender := address sample_a; tx_now := 1020 |}].

Lemma sample_txs_ok : Forall (fun x => call_ok (tx_call x)) sample_txs.
Proof. repeat constructor; by vm_compute. Qed.

Lemma contract_solvent_witness :
  exists t0, build_tunnel sample_id sample_a sample_b 1000 7 10 = Done t0 /\
    let '(t, outs, ins) := history t0 sample_txs in
    ins = 150 /\ outs = [(address sample_a, 107); (address sample_b, 43)] /\
    ins = held t + paid outs.
Proof.
  eexists. split; [reflexivity|].
  pose proof (contract_solvent sample_id sample_a sample_b 1000 7 10 _ sample_txs eq_refl
    ltac:(by vm_compute) sample_txs_ok) as H.
  match goal with |- context [history ?t sample_txs] =>
    assert (snd (history t sample_txs) = 150 /\
      snd (fst (history t sample_txs)) = [(address sample_a, 107); (address sample_b, 43)]) as F
      by (vm_compute; split; reflexivity);
    destruct (history t sample_txs) as [[t' outs] ins] end.
  destruct F as [F1 F2]. split; [exact F1|]. split; [exact F2|]. exact (proj1 H).
Defined.

Lemma unilateral_exit_witness :
  exists t t1 t3 a b,
    create_and_fund_with_id sample_id sample_a sample_b 100 50 1000 7 10 = Done t /\
    exec CRaiseDisputeCurrent (address sample_a) 20 t = Done (t1, []) /\
    exec CForceClose (address sample_a) 1020 t1 =
      Done (t3, [(address (party_a t), a); (address (party_b t), b)]) /\
    party_a_balance (state t) <= a.
Proof.
  destruct (create_and_fund_with_id sample_id sample_a sample_b 100 50 1000 7 10) as [t|] eqn:E;
    [|discriminate E].
  destruct (create_and_fund_ok _ _ _ _ _ _ _ _ _ E) as
    (Hw & Hst & _ & Ea & _ & _ & _ & _ & _ & _ & _ & _ & Et & _);
    [by vm_compute|by vm_compute|lia|].
  destruct (unilateral_exit t (address sample_a) 20 1020 Hw Hst) as (t1 & H1 & H2).
  - unfold is_party. rewrite Ea. reflexivity.
  - lia.
  - rewrite Et. by vm_compute.
  - destruct (H2 [] t1) as (t3 & a & b & H3 & _ & _ & H4 & _); [constructor| |].
    + split; [|reflexivity]. unfold exec, no_payment, raise_dispute_current_state in H1.
      inv_done. simplify_eq. reflexivity.
    + exists t, t1, t3, a, b. rewrite Ea in H4. destruct (H4 eq_refl) as [H5 _].
      split; [reflexivity|]. split; [exact H1|]. split; [exact H3|exact H5].
Defined.
