(* ===== verification/TxBuilders.v ===== *)
(** The transactions the clients build: [onchain/txbuilders.ts],
    [onchain/createAndFund.ts], [onchain/gas.ts] and [buildTarget] of [config.ts]
    in the SDK, and the stake sources of [frontend/src/onchain/tunnelTx.ts].

    A [Transaction] of [@mysten/sui] collects commands; a builder appends to it.
    It is modelled by the list of the commands appended, with the arguments the
    code passes; the result of command number [i] is referred to as [Res i], its
    [j]th component as [NestedRes i j]. *)

From S2P Require Import Prelude.
From S2P Require Import Bytes.
From S2P Require Import Wire.
From S2P Require Import Crypto.
From S2P Require Import Protocol.
From S2P Require Import Tunnel.

Inductive tx_arg :=
  | PureAddress (s : string)
  | PureId (s : string)
  | PureU8 (v : Z)
  | PureU64 (v : Z)
  | PureVecU8 (bs : bytes)
  | PureOptAddress (s : option string)
  | Obj (s : string)
  | GasCoin
  | Withdrawal (amount : Z) (type : string)
  | Res (i : nat)
  | NestedRes (i j : nat).

Inductive command :=
  | MoveCall (target : string) (typeArguments : list string) (arguments : list tx_arg)
  | SplitCoins (source : tx_arg) (amounts : list tx_arg)
  | TransferObjects (objects : list tx_arg) (recipient : tx_arg).

Definition Transaction : Type := list command.

#[export] Instance tx_arg_eq_dec : EqDecision tx_arg.
Proof. solve_decision. Defined.

(** [SUI_CLOCK_OBJECT_ID] and [SUI_TYPE_ARG] of [@mysten/sui/utils]. *)
Definition CLOCK : tx_arg := Obj "0x6".
Definition SUI_COIN_TYPE : string := "0x2::sui::SUI".

(** [src config.ts RANDOM_ID] *)
Definition RANDOM_ID : string := "0x8".

(** [src onchain/txbuilders.ts PartyArgs] *)
Record PartyArgs := {
  pa_address : string;
  pa_publicKey : bytes;
  pa_signatureType : Z
}.

Definition coin_or_sui (coinType : option string) : string := default SUI_COIN_TYPE coinType.

Section Builders.
(** [PACKAGE_ID], from the environment. *)
Context (package : string).

(** [src config.ts buildTarget] *)
Definition buildTarget (module func : string) : result string :=
  throw_if String.eqb package "" with Error "PACKAGE_ID not set" ;
  Ok (package ++ "::" ++ module ++ "::" ++ func)%string.

(** [tx.moveCall] of a function of the tunnel module. *)
Definition call_tunnel (tx : Transaction) (func : string) (coinType : option string)
    (args : list tx_arg) : result Transaction :=
  let! target := buildTarget "tunnel" func in
  Ok (tx ++ [MoveCall target [coin_or_sui coinType] args]).

(** The two parties, as every constructor takes them. *)
Definition party_arguments (a b : PartyArgs) : list tx_arg :=
  [PureAddress (pa_address a); PureVecU8 (pa_publicKey a); PureU8 (pa_signatureType a);
   PureAddress (pa_address b); PureVecU8 (pa_publicKey b); PureU8 (pa_signatureType b)].

(** [src onchain/txbuilders.ts buildCreateAndShare] *)
Definition buildCreateAndShare (tx : Transaction) (a b : PartyArgs) (timeoutMs penalty : Z)
    (coinType : option string) : result Transaction :=
  call_tunnel tx "entry_create_and_share" coinType
    (party_arguments a b ++ [PureU64 timeoutMs; PureU64 penalty; CLOCK]).

(** [src onchain/txbuilders.ts buildDeposit] *)
Definition buildDeposit (tx : Transaction) (tunnelId : string) (coin : tx_arg)
    (coinType : option string) : result Transaction :=
  call_tunnel tx "entry_deposit" coinType [Obj tunnelId; coin; CLOCK].

(** [src onchain/txbuilders.ts buildDepositFromGas] *)
Definition buildDepositFromGas (tx : Transaction) (tunnelId : string) (amount : Z)
  : result Transaction :=
  let k := length tx in
  buildDeposit (tx ++ [SplitCoins GasCoin [PureU64 amount]]) tunnelId (NestedRes k 0) None.

(** [src onchain/txbuilders.ts tunnelIdArg]: an id as text, or of an earlier command. *)
Definition tunnelIdArg (tid : string + tx_arg) : tx_arg :=
  match tid with inl s => PureId s | inr r => r end.

(** [src onchain/txbuilders.ts buildEmitQuantumPokerRandomnessSeed] *)
Definition buildEmitQuantumPokerRandomnessSeed (tx : Transaction) (tid : string + tx_arg)
    (sessionNonce : Z) (context : option bytes) (randomObjectId : option string)
  : result Transaction :=
  let! target := buildTarget "sui_randomness" "entry_emit_quantum_poker_seed" in
  Ok (tx ++ [MoveCall target []
        [Obj (default RANDOM_ID randomObjectId); tunnelIdArg tid; PureU64 sessionNonce;
         PureVecU8 (default [] context)]]).

(** [src onchain/txbuilders.ts buildCloseCooperative] *)
Definition buildCloseCooperative (tx : Transaction) (tunnelId : string) (a b : Z)
    (sA sB : bytes) (ts : Z) (coinType : option string) : result Transaction :=
  call_tunnel tx "entry_close_cooperative" coinType
    [Obj tunnelId; PureU64 a; PureU64 b; PureVecU8 sA; PureVecU8 sB; PureU64 ts; CLOCK].

(** [src onchain/txbuilders.ts buildCloseFromSettlement] *)
Definition buildCloseFromSettlement (tx : Transaction) (tunnelId : string)
    (s : CoSignedSettlement) (coinType : option string) : result Transaction :=
  buildCloseCooperative tx tunnelId (s_partyABalance (cs_settlement s))
    (s_partyBBalance (cs_settlement s)) (cs_sigA s) (cs_sigB s)
    (s_timestamp (cs_settlement s)) coinType.

(** [src onchain/txbuilders.ts buildCloseCooperativeWithRoot] *)
Definition buildCloseCooperativeWithRoot (tx : Transaction) (tunnelId : string) (a b : Z)
    (sA sB : bytes) (ts : Z) (root : bytes) (coinType : option string) : result Transaction :=
  call_tunnel tx "entry_close_cooperative_with_root" coinType
    [Obj tunnelId; PureU64 a; PureU64 b; PureVecU8 sA; PureVecU8 sB; PureU64 ts;
     PureVecU8 root; CLOCK].

(** [src onchain/txbuilders.ts buildCloseWithRootFromSettlement] *)
Definition buildCloseWithRootFromSettlement (tx : Transaction) (tunnelId : string)
    (s : CoSignedSettlementWithRoot) (coinType : option string) : result Transaction :=
  let st := r_settlement (csr_settlement s) in
  buildCloseCooperativeWithRoot tx tunnelId (s_partyABalance st) (s_partyBBalance st)
    (csr_sigA s) (csr_sigB s) (s_timestamp st) (r_transcriptRoot (csr_settlement s)) coinType.

(** [src onchain/txbuilders.ts buildBatchClose] *)
Definition buildBatchClose (tx : Transaction) (closes : list (string * CoSignedSettlement))
    (coinType : option string) : result (Transaction * nat) :=
  let! tx := rfold (fun tx c => buildCloseFromSettlement tx (fst c) (snd c) coinType) tx closes in
  Ok (tx, length closes).

(** [src onchain/txbuilders.ts buildRaiseDispute] *)
Definition buildRaiseDispute (tx : Transaction) (tunnelId : string) (hash : bytes)
    (n a b ts : Z) (otherPartySig : bytes) (coinType : option string) : result Transaction :=
  call_tunnel tx "entry_raise_dispute" coinType
    [Obj tunnelId; PureVecU8 hash; PureU64 n; PureU64 a; PureU64 b; PureU64 ts;
     PureVecU8 otherPartySig; CLOCK].

(** [src onchain/txbuilders.ts buildRaiseDisputeFromUpdate] *)
Definition buildRaiseDisputeFromUpdate (tx : Transaction) (tunnelId : string)
    (u : CoSignedUpdate) (raiser : Party) (coinType : option string) : result Transaction :=
  buildRaiseDispute tx tunnelId (stateHash (update u)) (nonce (update u))
    (partyABalance (update u)) (partyBBalance (update u)) (timestamp (update u))
    (match raiser with PartyA => sigB u | PartyB => sigA u end) coinType.

(** [src onchain/txbuilders.ts buildRaiseDisputeCurrentState] *)
Definition buildRaiseDisputeCurrentState (tx : Transaction) (tunnelId : string)
    (coinType : option string) : result Transaction :=
  call_tunnel tx "entry_raise_dispute_current_state" coinType [Obj tunnelId; CLOCK].

(** [src onchain/txbuilders.ts buildResolveDispute] *)
Definition buildResolveDispute (tx : Transaction) (tunnelId : string) (u : CoSignedUpdate)
    (coinType : option string) : result Transaction :=
  call_tunnel tx "entry_resolve_dispute" coinType
    [Obj tunnelId; PureVecU8 (stateHash (update u)); PureU64 (nonce (update u));
     PureU64 (partyABalance (update u)); PureU64 (partyBBalance (update u));
     PureU64 (timestamp (update u)); PureVecU8 (sigA u); PureVecU8 (sigB u); CLOCK].

(** [src onchain/txbuilders.ts buildForceClose] *)
Definition buildForceClose (tx : Transaction) (tunnelId : string) (coinType : option string)
  : result Transaction :=
  call_tunnel tx "entry_force_close" coinType [Obj tunnelId; CLOCK].

(** [src onchain/txbuilders.ts buildAgreeToDispute] *)
Definition buildAgreeToDispute (tx : Transaction) (tunnelId : string)
    (coinType : option string) : result Transaction :=
  call_tunnel tx "entry_agree_to_dispute" coinType [Obj tunnelId; CLOCK].

(** [src onchain/txbuilders.ts buildUpdateState] *)
Definition buildUpdateState (tx : Transaction) (tunnelId : string) (hash : bytes)
    (n a b ts : Z) (sA sB : bytes) (coinType : option string) : result Transaction :=
  call_tunnel tx "entry_update_state" coinType
    [Obj tunnelId; PureVecU8 hash; PureU64 n; PureU64 a; PureU64 b; PureU64 ts;
     PureVecU8 sA; PureVecU8 sB; CLOCK].

(** [src onchain/txbuilders.ts buildWithdrawBeforeActive] *)
Definition buildWithdrawBeforeActive (tx : Transaction) (tunnelId recipient : string)
    (coinType : option string) : result Transaction :=
  let k := length tx in
  let! tx := call_tunnel tx "withdraw_before_active" coinType [Obj tunnelId; CLOCK] in
  Ok (tx ++ [TransferObjects [Res k] (PureAddress recipient)]).

(** [src onchain/txbuilders.ts buildWithdrawTimeout] *)
Definition buildWithdrawTimeout (tx : Transaction) (tunnelId recipient : string)
    (coinType : option string) : result Transaction :=
  let k := length tx in
  let! tx := call_tunnel tx "withdraw_timeout" coinType [Obj tunnelId; CLOCK] in
  Ok (tx ++ [TransferObjects [Res k] (PureAddress recipient)]).

(** [src onchain/txbuilders.ts buildSetReferee] *)
Definition buildSetReferee (tx : Transaction) (tunnelId referee : string) (sA sB : bytes)
    (coinType : option string) : result Transaction :=
  call_tunnel tx "entry_set_referee" coinType
    [Obj tunnelId; PureAddress referee; PureVecU8 sA; PureVecU8 sB].

(** [src onchain/txbuilders.ts buildResolveDisputeExternal] *)
Definition buildResolveDisputeExternal (tx : Transaction) (tunnelId : string) (a b : Z)
    (coinType : option string) : result Transaction :=
  call_tunnel tx "entry_resolve_dispute_external" coinType
    [Obj tunnelId; PureU64 a; PureU64 b; CLOCK].

(** [src onchain/txbuilders.ts buildExtendTimeout] *)
Definition buildExtendTimeout (tx : Transaction) (tunnelId : string) (additionalMs : Z)
    (coinType : option string) : result Transaction :=
  call_tunnel tx "entry_extend_timeout" coinType [Obj tunnelId; PureU64 additionalMs; CLOCK].

(** [src onchain/txbuilders.ts buildLockHtlc] *)
Definition buildLockHtlc (tx : Transaction) (tunnelId : string) (paymentHash : bytes)
    (amount : Z) (receiver : string) (expiryMs : Z) (counterpartySig : bytes)
    (coinType : option string) : result Transaction :=
  call_tunnel tx "entry_lock_htlc" coinType
    [Obj tunnelId; PureVecU8 paymentHash; PureU64 amount; PureAddress receiver;
     PureU64 expiryMs; PureVecU8 counterpartySig; CLOCK].

(** [src onchain/txbuilders.ts buildClaimHtlc] *)
Definition buildClaimHtlc (tx : Transaction) (tunnelId : string) (paymentHash preimage : bytes)
    (coinType : option string) : result Transaction :=
  call_tunnel tx "entry_claim_htlc" coinType
    [Obj tunnelId; PureVecU8 paymentHash; PureVecU8 preimage; CLOCK].

(** [src onchain/txbuilders.ts buildExpireHtlc] *)
Definition buildExpireHtlc (tx : Transaction) (tunnelId : string) (paymentHash : bytes)
    (coinType : option string) : result Transaction :=
  call_tunnel tx "entry_expire_htlc" coinType [Obj tunnelId; PureVecU8 paymentHash; CLOCK].

(** * Opening and funding *)

(** [src onchain/createAndFund.ts buildCreateAndFund] *)
Definition buildCreateAndFund (tx : Transaction) (a b : PartyArgs) (coinA coinB : tx_arg)
    (timeoutMs : Z) (penalty : option Z) (withId : option bool) (coinType : option string)
  : result (Transaction * tx_arg) :=
  let k := length tx in
  let! tx := call_tunnel tx
    (match withId with Some false => "create_and_fund" | _ => "create_and_fund_with_id" end)
    coinType
    (party_arguments a b ++
     [coinA; coinB; PureU64 timeoutMs; PureU64 (default 0 penalty); CLOCK]) in
  Ok (tx, Res k).

(** [src onchain/createAndFund.ts buildOpenAndFundSeatA] *)
Definition buildOpenAndFundSeatA (tx : Transaction) (a b : PartyArgs) (aAmount timeoutMs : Z)
    (penalty : option Z) (stakeCoin : option tx_arg) (coinType : option string)
  : result Transaction :=
  let ty := coin_or_sui coinType in
  let k := length tx in
  let! tx := call_tunnel tx "create" coinType
    (party_arguments a b ++ [PureU64 timeoutMs; PureU64 (default 0 penalty); CLOCK]) in
  let tx := tx ++ [SplitCoins (default GasCoin stakeCoin) [PureU64 aAmount]] in
  let! tx := call_tunnel tx "deposit_party_a" coinType [Res k; NestedRes (S k) 0; CLOCK] in
  let! tty := buildTarget "tunnel" "Tunnel" in
  Ok (tx ++ [MoveCall "0x2::transfer::public_share_object"
               [(tty ++ "<" ++ ty ++ ">")%string] [Res k]]).

(** [src onchain/createAndFund.ts TunnelOpenSpec] *)
Record TunnelOpenSpec := {
  os_partyA : PartyArgs;
  os_partyB : PartyArgs;
  os_aAmount : Z;
  os_bAmount : Z;
  os_timeoutMs : Z;
  os_penaltyAmount : option Z
}.

(** [src onchain/createAndFund.ts BatchFundOptions] *)
Record BatchFundOptions := {
  bf_coinType : option string;
  bf_sourceCoin : option tx_arg
}.

(** [src onchain/createAndFund.ts:148-154 buildOpenAndFundMany] the guard all three
    batch builders begin with *)
Definition check_source (opts : BatchFundOptions) : result unit :=
  throw_if negb (String.eqb (coin_or_sui (bf_coinType opts)) SUI_COIN_TYPE) &&
           bool_decide (bf_sourceCoin opts = None)
    with Error "coinType is not SUI, so opts.sourceCoin is required" ;
  Ok tt.

(** [src onchain/createAndFund.ts:161-175 buildOpenAndFundMany] the loop over the
    specs; [k] is the split, [i] the index *)
Fixpoint open_specs (tx : Transaction) (ty : string) (k i : nat) (specs : list TunnelOpenSpec)
  : result (Transaction * list tx_arg) :=
  match specs with
  | [] => Ok (tx, [])
  | s :: specs =>
      let! r := buildCreateAndFund tx (os_partyA s) (os_partyB s)
        (NestedRes k (2 * i)) (NestedRes k (2 * i + 1)) (os_timeoutMs s) (os_penaltyAmount s)
        (Some false) (Some ty) in
      let! rs := open_specs (fst r) ty k (S i) specs in
      Ok (fst rs, snd r :: snd rs)
  end.

(** [src onchain/createAndFund.ts buildOpenAndFundMany] *)
Definition buildOpenAndFundMany (tx : Transaction) (specs : list TunnelOpenSpec)
    (opts : BatchFundOptions) : result (Transaction * list tx_arg) :=
  let! _ := check_source opts in
  let source := default GasCoin (bf_sourceCoin opts) in
  let amounts := concat (map (fun s => [os_aAmount s; os_bAmount s]) specs) in
  let k := length tx in
  open_specs (tx ++ [SplitCoins source (map PureU64 amounts)])
    (coin_or_sui (bf_coinType opts)) k 0 specs.

(** [src onchain/createAndFund.ts buildOpenAndFundOneReturnless] *)
Definition buildOpenAndFundOneReturnless (tx : Transaction) (s : TunnelOpenSpec)
    (opts : BatchFundOptions) : result Transaction :=
  let! _ := check_source opts in
  let source := default GasCoin (bf_sourceCoin opts) in
  let k := length tx in
  let! r := buildCreateAndFund
    (tx ++ [SplitCoins source [PureU64 (os_aAmount s); PureU64 (os_bAmount s)]])
    (os_partyA s) (os_partyB s) (NestedRes k 0) (NestedRes k 1) (os_timeoutMs s)
    (os_penaltyAmount s) (Some false) (Some (coin_or_sui (bf_coinType opts))) in
  Ok (fst r).

(** [src onchain/createAndFund.ts BatchDepositSpec] *)
Record BatchDepositSpec := { bd_tunnelId : string; bd_amount : Z }.

(** [src onchain/createAndFund.ts:256-258 buildDepositMany] the loop over the specs *)
Fixpoint deposit_specs (tx : Transaction) (ty : string) (k i : nat)
    (specs : list BatchDepositSpec) : result Transaction :=
  match specs with
  | [] => Ok tx
  | s :: specs =>
      let! tx := buildDeposit tx (bd_tunnelId s) (NestedRes k i) (Some ty) in
      deposit_specs tx ty k (S i) specs
  end.

(** [src onchain/createAndFund.ts buildDepositMany] *)
Definition buildDepositMany (tx : Transaction) (specs : list BatchDepositSpec)
    (opts : BatchFundOptions) : result Transaction :=
  let! _ := check_source opts in
  let source := default GasCoin (bf_sourceCoin opts) in
  let k := length tx in
  deposit_specs (tx ++ [SplitCoins source (map (fun s => PureU64 (bd_amount s)) specs)])
    (coin_or_sui (bf_coinType opts)) k 0 specs.

End Builders.

(** * Gas *)

(** [src onchain/gas.ts planGasShards]: [Array.from] with a count that is no
    integer does not arise, [BigInt(count)] would have thrown. *)
Definition planGasShards (total count : Z) : result (list Z) :=
  throw_if count <=? 0 with Error "count must be > 0" ;
  let base := total ÷ count in
  let rem := total - base * count in
  Ok (map (fun i => base + (if Z.of_nat i <? rem then 1 else 0)) (seq 0 (Z.to_nat count))).

(** [src onchain/gas.ts buildFundAccounts] *)
Definition buildFundAccounts (tx : Transaction) (recipients : list (string * Z)) : Transaction :=
  match recipients with
  | [] => tx
  | _ =>
      let k := length tx in
      tx ++ [SplitCoins GasCoin (map (fun r => PureU64 (snd r)) recipients)] ++
      imap (fun i r => TransferObjects [NestedRes k i] (PureAddress (fst r))) recipients
  end.

(** [src onchain/gas.ts:45-47 SignerPool] *)
Record SignerPool (Signer : Type) := { signers : list Signer; cursor : nat }.
Arguments signers {Signer}.
Arguments cursor {Signer}.

Section Pool.
Context {Signer : Type}.

(** [src onchain/gas.ts SignerPool.constructor] *)
Definition newSignerPool (ss : list Signer) : result (SignerPool Signer) :=
  throw_if (length ss =? 0)%nat with Error "SignerPool needs >= 1 signer" ;
  Ok {| signers := ss; cursor := 0 |}.

(** [src onchain/gas.ts SignerPool.next] *)
Definition next (p : SignerPool Signer) : SignerPool Signer * option Signer :=
  ({| signers := signers p; cursor := (cursor p + 1) `mod` length (signers p) |},
   signers p !! cursor p).

(** [src onchain/gas.ts SignerPool.at] *)
Definition at_ (p : SignerPool Signer) (i : Z) : option Signer :=
  let n := Z.of_nat (length (signers p)) in
  signers p !! Z.to_nat (Z.rem (Z.rem i n + n) n).

End Pool.

(** * Stake sources, [frontend/src/onchain/tunnelTx.ts] *)

(** [src frontend/src/onchain/tunnelTx.ts StakeFromBalance] *)
Record StakeFromBalance := { sb_amount : Z; sb_coinType : string }.

Record StakeOpts := {
  so_stakeFromBalance : option StakeFromBalance;
  so_stakeCoinId : option string
}.

(** [src frontend/src/onchain/tunnelTx.ts redeemStakeFromBalance] *)
Definition redeemStakeFromBalance (tx : Transaction) (stake : StakeFromBalance)
  : Transaction * tx_arg :=
  let k := length tx in
  (tx ++ [MoveCall "0x2::coin::redeem_funds" [sb_coinType stake]
            [Withdrawal (sb_amount stake) (sb_coinType stake)]], NestedRes k 0).

(** [src frontend/src/onchain/tunnelTx.ts stakeCoinArg]: an empty id is no id. *)
Definition stakeCoinArg (tx : Transaction) (opts : StakeOpts) : Transaction * option tx_arg :=
  match so_stakeFromBalance opts with
  | Some sb => let (tx, c) := redeemStakeFromBalance tx sb in (tx, Some c)
  | None =>
      match so_stakeCoinId opts with
      | Some c => if String.eqb c "" then (tx, None) else (tx, Some (Obj c))
      | None => (tx, None)
      end
  end.

(** [src frontend/src/onchain/tunnelTx.ts consumeStakeRemainder] *)
Definition consumeStakeRemainder (tx : Transaction) (opts : StakeOpts) (source : option tx_arg)
  : Transaction :=
  match so_stakeFromBalance opts, source with
  | Some sb, Some c => tx ++ [MoveCall "0x2::coin::destroy_zero" [sb_coinType sb] [c]]
  | _, _ => tx
  end.
