(* ===== verification/Chain.v ===== *)
(** Programmable transactions against the tunnel contract: what the commands the
    clients build do on chain.

    A transaction is atomic: it runs all its commands or changes nothing.  The
    world is what the contract and the sender own; [fresh i] is the id of the
    [i]th object ever created.  Gas fees are left out. *)

From stdpp Require Import gmap.
From S2P Require Import Prelude.
From S2P Require Import Bytes.
From S2P Require Import Wire.
From S2P Require Import Crypto.
From S2P Require Import Protocol.
From S2P Require Import Tunnel.
From S2P Require Import MoveTunnel.
From S2P Require Import TunnelContract.
From S2P Require Import TxBuilders.

(** What a command returns. *)
Inductive value :=
  | VCoin (ty : string) (amount : Z)
  | VTunnel (ty : string) (t : Move.Tunnel)
  | VId
  | VGone. (** taken by a later command *)

(** The shared tunnels with their coin type, and the sender's own coin objects,
    gas coin and address balance per coin type. *)
Record World := {
  w_tunnels : gmap Move.addr (string * Move.Tunnel);
  w_coins : gmap string (string * Z);
  w_gas : Z;
  w_funds : gmap string Z;
  w_sent : list Move.payment;
  w_created : nat
}.

Definition frame : Type := World * list (list value).

Definition set_tunnel (w : World) (tid : Move.addr) (ty : string) (t : Move.Tunnel) : World :=
  {| w_tunnels := <[tid := (ty, t)]> (w_tunnels w); w_coins := w_coins w; w_gas := w_gas w;
     w_funds := w_funds w; w_sent := w_sent w; w_created := w_created w |}.

Definition send (w : World) (ps : list Move.payment) : World :=
  {| w_tunnels := w_tunnels w; w_coins := w_coins w; w_gas := w_gas w;
     w_funds := w_funds w; w_sent := w_sent w ++ ps; w_created := w_created w |}.

Definition set_purse (w : World) (coins : gmap string (string * Z)) (gas : Z)
    (funds : gmap string Z) : World :=
  {| w_tunnels := w_tunnels w; w_coins := coins; w_gas := gas;
     w_funds := funds; w_sent := w_sent w; w_created := w_created w |}.

Definition count_created (w : World) : World :=
  {| w_tunnels := w_tunnels w; w_coins := w_coins w; w_gas := w_gas w;
     w_funds := w_funds w; w_sent := w_sent w; w_created := S (w_created w) |}.

Fixpoint strip_prefix (p s : string) : option string :=
  match p, s with
  | EmptyString, _ => Some s
  | String a p, String b s => if Ascii.eqb a b then strip_prefix p s else None
  | _, _ => None
  end.

Lemma strip_prefix_app p s : strip_prefix p (p ++ s) = Some s.
Proof.
  induction p as [|c p IH]; [done|]. change (String c p ++ s)%string with (String c (p ++ s)).
  cbn [strip_prefix]. by rewrite Ascii.eqb_refl.
Qed.

Lemma str_app_assoc (a b c : string) : (a ++ b ++ c)%string = ((a ++ b) ++ c)%string.
Proof.
  induction a as [|x a IH]; [done|].
  change (String x (a ++ b ++ c) = String x ((a ++ b) ++ c))%string. by rewrite IH.
Qed.

Section Chain.
Context `{N : Natives}.
(** [tx.pure.address] and [tx.object] of [@mysten/sui]: the bytes of an address. *)
Context (decode_address : string -> option bytes).
Context (package : string) (fresh : nat -> Move.addr).
(** Who signs, and the clock. *)
Context (sender : Move.addr) (now : Z).

Definition need {A} (o : option A) (e : abort_code) : move A :=
  match o with Some a => Done a | None => Abort e end.

(** * Arguments *)

Definition arg_u64 (a : tx_arg) : option Z :=
  match a with PureU64 v => if bool_decide (u64_range v) then Some v else None | _ => None end.
Definition arg_bytes (a : tx_arg) : option bytes :=
  match a with PureVecU8 b => if bool_decide (bytes_ok b) then Some b else None | _ => None end.
Definition arg_address (a : tx_arg) : option bytes :=
  match a with PureAddress s => decode_address s | _ => None end.
Definition arg_u8 (a : tx_arg) : option Z :=
  match a with PureU8 v => if bool_decide (is_byte v) then Some v else None | _ => None end.
Definition arg_tunnel (a : tx_arg) : option Move.addr :=
  match a with Obj s => decode_address s | _ => None end.
Definition arg_clock (a : tx_arg) : option unit :=
  if bool_decide (a = CLOCK) then Some tt else None.

(** The place of a result. *)
Definition arg_slot (a : tx_arg) : option (nat * nat) :=
  match a with Res i => Some (i, 0%nat) | NestedRes i j => Some (i, j) | _ => None end.

Definition get_slot (rs : list (list value)) (ij : nat * nat) : option value :=
  (rs !! ij.1) ≫= (fun vs => vs !! ij.2).

Definition set_slot (rs : list (list value)) (ij : nat * nat) (v : value)
  : list (list value) :=
  alter (fun vs => <[ij.2 := v]> vs) ij.1 rs.

(** A coin passed by value. *)
Definition take_coin (rs : list (list value)) (a : tx_arg)
  : move (string * Z * list (list value)) :=
  let* ij := need (arg_slot a) CommandArgumentError in
  match get_slot rs ij with
  | Some (VCoin ty x) => Done (ty, x, set_slot rs ij VGone)
  | _ => Abort CommandArgumentError
  end.

(** * Splitting coins *)

(** Take [total] off a coin that stays where it is. *)
Definition draw (f : frame) (source : tx_arg) (total : Z) : move (string * frame) :=
  let '(w, rs) := f in
  match source with
  | GasCoin =>
      let* g := balance_split (w_gas w) total in
      Done (SUI_COIN_TYPE, (set_purse w (w_coins w) g (w_funds w), rs))
  | Obj s =>
      let* c := need (w_coins w !! s) CommandArgumentError in
      let* v := balance_split (snd c) total in
      Done (fst c, (set_purse w (<[s := (fst c, v)]> (w_coins w)) (w_gas w) (w_funds w), rs))
  | _ =>
      let* ij := need (arg_slot source) CommandArgumentError in
      match get_slot rs ij with
      | Some (VCoin ty x) =>
          let* v := balance_split x total in
          Done (ty, (w, set_slot rs ij (VCoin ty v)))
      | _ => Abort CommandArgumentError
      end
  end.

Definition sum (xs : list Z) : Z := fold_right Z.add 0 xs.

Definition split_coins (f : frame) (source : tx_arg) (amounts : list tx_arg) : move frame :=
  let* xs := need (mapM arg_u64 amounts) CommandArgumentError in
  let* r := draw f source (sum xs) in
  let '(ty, (w, rs)) := r in
  Done (w, rs ++ [map (VCoin ty) xs]).

(** * Calls *)

Definition arg_party (a pk st : tx_arg) : option Move.PartyConfig :=
  a ← arg_address a; pk ← arg_bytes pk; st ← arg_u8 st;
  Some {| Move.address := a; Move.public_key := pk; Move.signature_type := st |}.

(** How a call on a shared tunnel uses its result and its coin. *)
Inductive shared_call :=
  | Plain (c : call)
  | TakesCoin (coin : tx_arg)
  | ReturnsCoin (c : call).

(** The entry points on a shared tunnel, by their Move signatures; the tunnel is
    always the first argument. *)
Definition decode_shared (fn : string) (args : list tx_arg) : option shared_call :=
  if String.eqb fn "entry_deposit" then
    match args with [c; k] => _ ← arg_clock k; Some (TakesCoin c) | _ => None end
  else if String.eqb fn "entry_close_cooperative" then
    match args with
    | [a; b; sa; sb; ts; k] =>
        a ← arg_u64 a; b ← arg_u64 b; sa ← arg_bytes sa; sb ← arg_bytes sb; ts ← arg_u64 ts;
        _ ← arg_clock k; Some (Plain (CClose a b sa sb ts))
    | _ => None
    end
  else if String.eqb fn "entry_close_cooperative_with_root" then
    match args with
    | [a; b; sa; sb; ts; root; k] =>
        a ← arg_u64 a; b ← arg_u64 b; sa ← arg_bytes sa; sb ← arg_bytes sb; ts ← arg_u64 ts;
        root ← arg_bytes root; _ ← arg_clock k; Some (Plain (CCloseWithRoot a b sa sb ts root))
    | _ => None
    end
  else if String.eqb fn "entry_raise_dispute" then
    match args with
    | [h; n; a; b; ts; s; k] =>
        h ← arg_bytes h; n ← arg_u64 n; a ← arg_u64 a; b ← arg_u64 b; ts ← arg_u64 ts;
        s ← arg_bytes s; _ ← arg_clock k; Some (Plain (CRaiseDispute h n a b ts s))
    | _ => None
    end
  else if String.eqb fn "entry_resolve_dispute" then
    match args with
    | [h; n; a; b; ts; sa; sb; k] =>
        h ← arg_bytes h; n ← arg_u64 n; a ← arg_u64 a; b ← arg_u64 b; ts ← arg_u64 ts;
        sa ← arg_bytes sa; sb ← arg_bytes sb; _ ← arg_clock k;
        Some (Plain (CResolveDispute h n a b ts sa sb))
    | _ => None
    end
  else if String.eqb fn "entry_update_state" then
    match args with
    | [h; n; a; b; ts; sa; sb; k] =>
        h ← arg_bytes h; n ← arg_u64 n; a ← arg_u64 a; b ← arg_u64 b; ts ← arg_u64 ts;
        sa ← arg_bytes sa; sb ← arg_bytes sb; _ ← arg_clock k;
        Some (Plain (CUpdateState h n a b ts sa sb))
    | _ => None
    end
  else if String.eqb fn "entry_raise_dispute_current_state" then
    match args with [k] => _ ← arg_clock k; Some (Plain CRaiseDisputeCurrent) | _ => None end
  else if String.eqb fn "entry_force_close" then
    match args with [k] => _ ← arg_clock k; Some (Plain CForceClose) | _ => None end
  else if String.eqb fn "entry_agree_to_dispute" then
    match args with [k] => _ ← arg_clock k; Some (Plain CAgree) | _ => None end
  else if String.eqb fn "entry_extend_timeout" then
    match args with
    | [x; k] => x ← arg_u64 x; _ ← arg_clock k; Some (Plain (CExtendTimeout x))
    | _ => None
    end
  else if String.eqb fn "entry_lock_htlc" then
    match args with
    | [h; x; r; e; s; k] =>
        h ← arg_bytes h; x ← arg_u64 x; r ← arg_address r; e ← arg_u64 e; s ← arg_bytes s;
        _ ← arg_clock k; Some (Plain (CLockHtlc h x r e s))
    | _ => None
    end
  else if String.eqb fn "entry_claim_htlc" then
    match args with
    | [h; p; k] =>
        h ← arg_bytes h; p ← arg_bytes p; _ ← arg_clock k; Some (Plain (CClaimHtlc h p))
    | _ => None
    end
  else if String.eqb fn "entry_expire_htlc" then
    match args with
    | [h; k] => h ← arg_bytes h; _ ← arg_clock k; Some (Plain (CExpireHtlc h))
    | _ => None
    end
  else if String.eqb fn "entry_set_referee" then
    match args with
    | [r; sa; sb] =>
        r ← arg_address r; sa ← arg_bytes sa; sb ← arg_bytes sb;
        Some (Plain (CSetReferee r sa sb))
    | _ => None
    end
  else if String.eqb fn "entry_resolve_dispute_external" then
    match args with
    | [a; b; k] =>
        a ← arg_u64 a; b ← arg_u64 b; _ ← arg_clock k; Some (Plain (CResolveExternal a b))
    | _ => None
    end
  else if String.eqb fn "withdraw_before_active" then
    match args with [k] => _ ← arg_clock k; Some (ReturnsCoin CWithdrawBeforeActive) | _ => None end
  else if String.eqb fn "withdraw_timeout" then
    match args with [k] => _ ← arg_clock k; Some (ReturnsCoin CWithdrawTimeout) | _ => None end
  else None.

(** A call on a shared tunnel: its coin type must be the type argument. *)
Definition run_shared (f : frame) (fn ty : string) (args : list tx_arg) : move frame :=
  let '(w, rs) := f in
  match args with
  | [] => Abort CommandArgumentError
  | tun :: args =>
      let* tid := need (arg_tunnel tun) CommandArgumentError in
      let* ob := need (w_tunnels w !! tid) CommandArgumentError in
      assert! String.eqb (fst ob) ty else TypeMismatch ;
      let* sc := need (decode_shared fn args) CommandArgumentError in
      match sc with
      | Plain c =>
          let* r := exec c sender now (snd ob) in
          Done (send (set_tunnel w tid ty (fst r)) (snd r), rs ++ [[]])
      | TakesCoin a =>
          let* tc := take_coin rs a in
          let '(cty, x, rs) := tc in
          assert! String.eqb cty ty else TypeMismatch ;
          let* r := exec (CDeposit x) sender now (snd ob) in
          Done (set_tunnel w tid ty (fst r), rs ++ [[]])
      | ReturnsCoin c =>
          let* r := exec c sender now (snd ob) in
          Done (set_tunnel w tid ty (fst r), rs ++ [map (fun p => VCoin ty (snd p)) (snd r)])
      end
  end.

Definition share (w : World) (ty : string) (t : Move.Tunnel) : World :=
  set_tunnel w (Move.id t) ty t.

(** The constructors; a new object has the next fresh id. *)
Definition run_create (f : frame) (fn ty : string) (args : list tx_arg) : move frame :=
  let '(w, rs) := f in
  let tid := fresh (w_created w) in
  match args with
  | aa :: ap :: at_ :: ba :: bp :: bt :: args =>
      let* a := need (arg_party aa ap at_) CommandArgumentError in
      let* b := need (arg_party ba bp bt) CommandArgumentError in
      match args with
      | [tmo; pen; k] =>
          let* tmo := need (arg_u64 tmo) CommandArgumentError in
          let* pen := need (arg_u64 pen) CommandArgumentError in
          let* _ := need (arg_clock k) CommandArgumentError in
          let* t := Move.build_tunnel tid a b tmo pen now in
          if String.eqb fn "entry_create_and_share" then
            Done (share (count_created w) ty t, rs ++ [[]])
          else if String.eqb fn "create" then Done (count_created w, rs ++ [[VTunnel ty t]])
          else Abort CommandArgumentError
      | [ca; cb; tmo; pen; k] =>
          let* tc := take_coin rs ca in
          let '(tya, xa, rs) := tc in
          let* tc := take_coin rs cb in
          let '(tyb, xb, rs) := tc in
          assert! String.eqb tya ty && String.eqb tyb ty else TypeMismatch ;
          let* tmo := need (arg_u64 tmo) CommandArgumentError in
          let* pen := need (arg_u64 pen) CommandArgumentError in
          let* _ := need (arg_clock k) CommandArgumentError in
          let* t := Move.create_and_fund_with_id tid a b xa xb tmo pen now in
          if String.eqb fn "create_and_fund" then
            Done (share (count_created w) ty t, rs ++ [[]])
          else if String.eqb fn "create_and_fund_with_id" then
            Done (share (count_created w) ty t, rs ++ [[VId]])
          else Abort CommandArgumentError
      | _ => Abort CommandArgumentError
      end
  | _ => Abort CommandArgumentError
  end.

Definition is_constructor (fn : string) : bool :=
  String.eqb fn "entry_create_and_share" || String.eqb fn "create" ||
  String.eqb fn "create_and_fund" || String.eqb fn "create_and_fund_with_id".

(** [deposit_party_a] on a tunnel that an earlier command returned. *)
Definition run_deposit_owned (f : frame) (ty : string) (args : list tx_arg) : move frame :=
  let '(w, rs) := f in
  match args with
  | [tun; c; k] =>
      let* ij := need (arg_slot tun) CommandArgumentError in
      let* _ := need (arg_clock k) CommandArgumentError in
      let* tc := take_coin rs c in
      let '(cty, x, rs) := tc in
      match get_slot rs ij with
      | Some (VTunnel tty t) =>
          assert! String.eqb cty ty && String.eqb tty ty else TypeMismatch ;
          let* t := Move.deposit_party_a t x sender now in
          Done (w, set_slot rs ij (VTunnel tty t) ++ [[]])
      | _ => Abort CommandArgumentError
      end
  | _ => Abort CommandArgumentError
  end.

(** The framework functions the stake sources call. *)
Definition run_framework (f : frame) (target ty : string) (args : list tx_arg) : move frame :=
  let '(w, rs) := f in
  if String.eqb target "0x2::coin::redeem_funds" then
    match args with
    | [Withdrawal x wty] =>
        assert! String.eqb wty ty else TypeMismatch ;
        let* v := balance_split (default 0 (w_funds w !! ty)) x in
        Done (set_purse w (w_coins w) (w_gas w) (<[ty := v]> (w_funds w)), rs ++ [[VCoin ty x]])
    | _ => Abort CommandArgumentError
    end
  else if String.eqb target "0x2::coin::destroy_zero" then
    match args with
    | [c] =>
        let* tc := take_coin rs c in
        let '(cty, x, rs) := tc in
        assert! String.eqb cty ty else TypeMismatch ;
        assert! x =? 0 else ENotEnough ;
        Done (w, rs ++ [[]])
    | _ => Abort CommandArgumentError
    end
  else if String.eqb target "0x2::transfer::public_share_object" then
    match args with
    | [a] =>
        let* ij := need (arg_slot a) CommandArgumentError in
        match get_slot rs ij with
        | Some (VTunnel tty t) =>
            assert! String.eqb ty (package ++ "::tunnel::Tunnel<" ++ tty ++ ">") else TypeMismatch ;
            Done (share w tty t, set_slot rs ij VGone ++ [[]])
        | _ => Abort CommandArgumentError
        end
    | _ => Abort CommandArgumentError
    end
  else Abort FunctionNotFound.

Definition run_move_call (f : frame) (target : string) (tys : list string)
    (args : list tx_arg) : move frame :=
  let* ty := need (tys !! 0%nat) TypeMismatch in
  match strip_prefix (package ++ "::tunnel::") target with
  | Some fn =>
      if is_constructor fn then run_create f fn ty args
      else if String.eqb fn "deposit_party_a" then run_deposit_owned f ty args
      else run_shared f fn ty args
  | None => run_framework f target ty args
  end.

Fixpoint transfer_all (f : frame) (objects : list tx_arg) (to : Move.addr) : move frame :=
  match objects with
  | [] => Done f
  | o :: objects =>
      let '(w, rs) := f in
      let* tc := take_coin rs o in
      let '(_, x, rs) := tc in
      transfer_all (send w [(to, x)], rs) objects to
  end.

Definition run_command (f : frame) (c : command) : move frame :=
  match c with
  | MoveCall target tys args => run_move_call f target tys args
  | SplitCoins source amounts => split_coins f source amounts
  | TransferObjects objects to =>
      let* to := need (arg_address to) CommandArgumentError in
      let* f := transfer_all f objects to in
      Done (fst f, snd f ++ [[]])
  end.

Fixpoint run_commands (f : frame) (tx : Transaction) : move frame :=
  match tx with
  | [] => Done f
  | c :: tx => let* f := run_command f c in run_commands f tx
  end.

Definition droppable (v : value) : bool :=
  match v with VId | VGone => true | VCoin _ _ | VTunnel _ _ => false end.

(** A transaction: no coin may be left over. *)
Definition run_tx (w : World) (tx : Transaction) : move World :=
  let* f := run_commands (w, []) tx in
  assert! forallb (forallb droppable) (snd f) else UnusedValueWithoutDrop ;
  Done (fst f).

(** * One call *)

Lemma run_move_call_tunnel f fn ty args :
  run_move_call f (package ++ "::tunnel::" ++ fn) [ty] args =
  if is_constructor fn then run_create f fn ty args
  else if String.eqb fn "deposit_party_a" then run_deposit_owned f ty args
  else run_shared f fn ty args.
Proof.
  unfold run_move_call. cbn [lookup list_lookup need move_bind].
  by rewrite str_app_assoc, strip_prefix_app.
Qed.

Lemma run_shared_plain w rs fn ty tids args (tid : Move.addr) t c t' ps :
  decode_address tids = Some tid -> w_tunnels w !! tid = Some (ty, t) ->
  decode_shared fn args = Some (Plain c) -> exec c sender now t = Done (t', ps) ->
  run_shared (w, rs) fn ty (Obj tids :: args)
  = Done (send (set_tunnel w tid ty t') ps, rs ++ [[]]).
Proof.
  intros Hd Ht Hdec Hx. cbv beta iota delta [run_shared arg_tunnel].
  rewrite Hd. cbv beta iota delta [need move_bind].
  rewrite Ht. cbv beta iota delta [fst snd]. by rewrite String.eqb_refl, Hdec, Hx.
Qed.

(** A transaction of one call on a shared tunnel. *)
Lemma run_single_plain w fn ct tids args (tid : Move.addr) t c t' ps tx :
  call_tunnel package [] fn ct (Obj tids :: args) = Ok tx ->
  is_constructor fn = false -> String.eqb fn "deposit_party_a" = false ->
  decode_address tids = Some tid -> w_tunnels w !! tid = Some (coin_or_sui ct, t) ->
  decode_shared fn args = Some (Plain c) -> exec c sender now t = Done (t', ps) ->
  run_tx w tx = Done (send (set_tunnel w tid (coin_or_sui ct) t') ps).
Proof.
  intros Htx Hc Hd Ha Ht Hdec Hx. unfold call_tunnel, buildTarget in Htx. inv_ok.
  change (package ++ "::" ++ "tunnel" ++ "::" ++ fn)%string
    with (package ++ "::tunnel::" ++ fn)%string.
  unfold run_tx. cbn [app run_commands run_command].
  rewrite run_move_call_tunnel, Hc, Hd.
  by erewrite run_shared_plain by done.
Qed.

(** A call that aborts takes its transaction with it. *)
Lemma run_single_aborts w fn ct tids args (tid : Move.addr) t c e tx :
  call_tunnel package [] fn ct (Obj tids :: args) = Ok tx ->
  is_constructor fn = false -> String.eqb fn "deposit_party_a" = false ->
  decode_address tids = Some tid -> w_tunnels w !! tid = Some (coin_or_sui ct, t) ->
  decode_shared fn args = Some (Plain c) -> exec c sender now t = Abort e ->
  run_tx w tx = Abort e.
Proof.
  intros Htx Hc Hd Ha Ht Hdec Hx. unfold call_tunnel, buildTarget in Htx. inv_ok.
  change (package ++ "::" ++ "tunnel" ++ "::" ++ fn)%string
    with (package ++ "::tunnel::" ++ fn)%string.
  unfold run_tx. cbn [app run_commands run_command].
  rewrite run_move_call_tunnel, Hc, Hd. unfold run_shared, arg_tunnel.
  rewrite Ha. cbn [need move_bind]. rewrite Ht. cbn [need move_bind fst snd].
  rewrite String.eqb_refl, Hdec. cbn [need move_bind]. by rewrite Hx.
Qed.

Lemma arg_u64_ok v : u64_range v -> arg_u64 (PureU64 v) = Some v.
Proof. intros H. unfold arg_u64. by rewrite bool_decide_eq_true_2. Qed.

Lemma arg_bytes_ok b : bytes_ok b -> arg_bytes (PureVecU8 b) = Some b.
Proof. intros H. unfold arg_bytes. by rewrite bool_decide_eq_true_2. Qed.

End Chain.
