(* ===== verification/OnchainPlay.v ===== *)
(** Play reaches the chain: the contract rebuilds the messages the client signs,
    byte for byte; a settlement the engine signs closes the tunnel on chain and
    pays the balances of its state; the transactions of the watchtower's executor
    ([onchain/lifecycle.ts]) do what it decided. *)

From stdpp Require Import gmap.
From S2P Require Import Prelude.
From S2P Require Import Bytes.
From S2P Require Import Wire.
From S2P Require Import Crypto.
From S2P Require Import Protocol.
From S2P Require Import Tunnel.
From S2P Require Import Watchtower.
From S2P Require Import MoveTunnel.
From S2P Require Import TunnelContract.
From S2P Require Import TxBuilders.
From S2P Require Import Chain.

(** * The two sides write the same bytes *)

Lemma state_update_bytes u id m :
  addressToBytes32 (tunnelId u) = Ok id -> serializeStateUpdate u = Ok m ->
  Move.serialize_state_update id (stateHash u) (nonce u) (timestamp u)
    (partyABalance u) (partyBBalance u) = m.
Proof.
  intros Hid Hm. destruct (serializeStateUpdate_inv u m Hm) as (id' & E & _ & _ & _ & _ & ->).
  rewrite Hid in E. apply Ok_inj in E as <-.
  unfold Move.serialize_state_update. by rewrite !u64_to_be_bytes_eq.
Qed.

Lemma settlement_bytes s id m :
  addressToBytes32 (s_tunnelId s) = Ok id -> serializeSettlement s = Ok m ->
  Move.serialize_settlement id (s_partyABalance s) (s_partyBBalance s) (s_finalNonce s)
    (s_timestamp s) = m /\
  u64_range (s_partyABalance s) /\ u64_range (s_partyBBalance s) /\ u64_range (s_timestamp s).
Proof.
  intros Hid Hm. unfold serializeSettlement in Hm. rewrite Hid in Hm. cbn [rbind] in Hm.
  serialize_inv. split_and!; [|done..].
  unfold Move.serialize_settlement. rewrite !u64_to_be_bytes_eq. cbn [concat]. by rewrite app_nil_r.
Qed.

Lemma settlement_with_root_bytes s id m :
  addressToBytes32 (s_tunnelId (r_settlement s)) = Ok id ->
  serializeSettlementWithRoot s = Ok m ->
  Move.serialize_settlement_with_root id (s_partyABalance (r_settlement s))
    (s_partyBBalance (r_settlement s)) (s_finalNonce (r_settlement s))
    (s_timestamp (r_settlement s)) (r_transcriptRoot s) = m /\
  length (r_transcriptRoot s) = 32%nat /\
  u64_range (s_partyABalance (r_settlement s)) /\ u64_range (s_partyBBalance (r_settlement s)) /\
  u64_range (s_timestamp (r_settlement s)).
Proof.
  intros Hid Hm. unfold serializeSettlementWithRoot in Hm.
  destruct (negb _) eqn:Hl; [done|]. bool_to_prop. rewrite Hid in Hm. cbn [rbind] in Hm.
  serialize_inv. split_and!; [|done..].
  unfold Move.serialize_settlement_with_root. rewrite !u64_to_be_bytes_eq. cbn [concat].
  by rewrite app_nil_r.
Qed.

(** The contract and the client agree on every signed message.  Whenever the
    client serializes a state update, a settlement with or without a root, a lock
    or a referee assignment, the contract, given the same fields and the 32 bytes
    of the ids, verifies exactly those bytes. *)
Theorem wire_matches_contract :
  (forall u id m, addressToBytes32 (tunnelId u) = Ok id -> serializeStateUpdate u = Ok m ->
     Move.serialize_state_update id (stateHash u) (nonce u) (timestamp u)
       (partyABalance u) (partyBBalance u) = m) /\
  (forall s id m, addressToBytes32 (s_tunnelId s) = Ok id -> serializeSettlement s = Ok m ->
     Move.serialize_settlement id (s_partyABalance s) (s_partyBBalance s) (s_finalNonce s)
       (s_timestamp s) = m) /\
  (forall s id m, addressToBytes32 (s_tunnelId (r_settlement s)) = Ok id ->
     serializeSettlementWithRoot s = Ok m ->
     Move.serialize_settlement_with_root id (s_partyABalance (r_settlement s))
       (s_partyBBalance (r_settlement s)) (s_finalNonce (r_settlement s))
       (s_timestamp (r_settlement s)) (r_transcriptRoot s) = m) /\
  (forall h id sender receiver m, addressToBytes32 (h_tunnelId h) = Ok id ->
     addressToBytes32 (h_sender h) = Ok sender -> addressToBytes32 (h_receiver h) = Ok receiver ->
     serializeHtlcLock h = Ok m ->
     Move.serialize_htlc_lock id (h_paymentHash h) (h_amount h) sender receiver (h_expiryMs h) = m) /\
  (forall tid ref id r m, addressToBytes32 tid = Ok id -> addressToBytes32 ref = Ok r ->
     serializeRefereeAssignment tid ref = Ok m -> Move.serialize_referee_assignment id r = m).
Proof.
  split_and!.
  - apply state_update_bytes.
  - intros s id m Hid Hm. apply (settlement_bytes s id m Hid Hm).
  - intros s id m Hid Hm. apply (settlement_with_root_bytes s id m Hid Hm).
  - intros h id snd rcv m Hid Hs Hr Hm. unfold serializeHtlcLock in Hm.
    rewrite Hid, Hs, Hr in Hm. cbn [rbind] in Hm. serialize_inv.
    unfold Move.serialize_htlc_lock. rewrite !u64_to_be_bytes_eq. cbn [concat].
    by rewrite app_nil_r.
  - intros tid ref id r m Hid Hr Hm. unfold serializeRefereeAssignment in Hm.
    rewrite Hid, Hr in Hm. cbn [rbind] in Hm. serialize_inv.
    unfold Move.serialize_referee_assignment. cbn [concat]. by rewrite app_nil_r.
Qed.

Section OnChain.
Context `{C : Crypto, N : Natives, !CryptoLaws C, !SignatureLaws C, !NativeLaws C N}.
Context (decode_address : string -> option bytes).
(** [@mysten/sui] reads a 0x-address as the client's own [addressToBytes32] does. *)
Context (decode_address_ok : forall s b, addressToBytes32 s = Ok b -> decode_address s = Some b).
Context (package : string) (fresh : nat -> Move.addr).

Definition on_chain (sender : Move.addr) (now : Z) : World -> Transaction -> move World :=
  run_tx decode_address package fresh sender now.

Section Play.
Context (bk : CryptoBackend) `{!BackendLaws bk}.
Context {State Mv : Type} (P : Protocol State Mv).
Context (inv : Z -> State -> Prop) (ctx_ok : ProtocolContext -> Prop).
Context `{!ProtocolLaws P inv ctx_ok}.

(** The object on chain is the one this engine plays over: same id, keys and
    locked total. *)
Record matches (t : OffchainTunnel State) (c : Move.Tunnel) : Prop := {
  m_id : addressToBytes32 (t_tunnelId t) = Ok (Move.id c);
  m_key_a : Move.public_key (Move.party_a c) = ep_publicKey (partyA t);
  m_key_b : Move.public_key (Move.party_b c) = ep_publicKey (partyB t);
  m_type_a : Move.signature_type (Move.party_a c) = ep_scheme (partyA t);
  m_type_b : Move.signature_type (Move.party_b c) = ep_scheme (partyB t);
  m_total : Move.balance c = t_total t
}.

(** The contract accepts what an endpoint of this process signs. *)
Definition signs_for (p : Move.PartyConfig) (f : bytes -> bytes) : Prop :=
  forall m err, Move.check_sig p m (f m) err = Done tt /\ bytes_ok (f m) /\
    length (f m) = 64%nat.

Lemma own_signs_for e p :
  own_endpoint bk e -> Move.public_key p = ep_publicKey e ->
  Move.signature_type p = ep_scheme e -> exists f, ep_sign e = Some f /\ signs_for p f.
Proof.
  intros (addr & sk & Hl & ->) Hk Ht. simpl in *. eexists. split; [done|]. intros m err.
  rewrite backend_sign. unfold sign. split_and!; [|apply sign_bytes|apply sign_length].
  unfold Move.check_sig. rewrite Hk, Ht.
  by rewrite (signature_verify_client (C := C) m sk Hl).
Qed.

(** What every cooperative close needs: both keys sign for the object, and its
    balance splits into the balances in play. *)
Lemma close_setup t c now :
  tunnel_ok bk inv t -> wf c -> matches t c ->
  let a := bal_a (balances P (_state t)) in
  let b := bal_b (balances P (_state t)) in
  exists fA fB c', ep_sign (partyA t) = Some fA /\ ep_sign (partyB t) = Some fB /\
    signs_for (Move.party_a c) fA /\ signs_for (Move.party_b c) fB /\
    u64_range a /\ u64_range b /\ Move.assert_balance_split a b (Move.balance c) = Done tt /\
    Move.distribute c a b now =
      Done (c', [(Move.address (Move.party_a c), a); (Move.address (Move.party_b c), b)]) /\
    Move.status c' = Move.STATUS_CLOSED /\ Move.balance c' = 0.
Proof.
  intros Hok Hw [_ HkA HkB HtA HtB Htot] a b. pose proof Hok as [HA HB _ Hst Hle _ _ _ _].
  destruct (inv_u64 P inv ctx_ok _ _ Hst Hle) as [Hra Hrb].
  destruct (laws_balances _ _ Hst) as (Ha0 & Hb0 & Hsum). unfold sum_of in Hsum.
  destruct (own_signs_for _ _ HA HkA HtA) as (fA & EA & SA).
  destruct (own_signs_for _ _ HB HkB HtB) as (fB & EB & SB).
  destruct (distribute_done c a b now Hw Ha0 Hb0 ltac:(lia)) as (c' & Hd & _ & Ecl & _ & Ebal).
  exists fA, fB, c'. split_and!; try done. apply split_done. lia.
Qed.

(** The guards of both closes, passed. *)
Ltac pass_close :=
  cbn [exec]; unfold Move.close_cooperative, Move.close_cooperative_with_root;
  repeat match goal with
  | H : Move.version _ = _ |- _ => rewrite H
  | H : Move.status _ = _ |- _ => rewrite H
  | H : length _ = _ |- _ => rewrite H
  | H : Move.assert_balance_split _ _ _ = _ |- _ => rewrite H
  end;
  cbn [Z.eqb Pos.eqb Nat.eqb negb andb orb Move.CURRENT_VERSION Move.STATUS_ACTIVE move_bind];
  rewrite (proj2 (u64_add_ok _ 1 _)) by (split; [reflexivity|lia]); cbn [move_bind];
  rewrite !(proj2 (Z.leb_le _ _)) by assumption.

(** C9: a settlement closes the tunnel on chain.  For a tunnel in play and the
    active object it was opened on, never checkpointed past [onchainNonce], the
    settlement the engine signs makes a transaction that anyone can submit, at any
    time from the settlement's timestamp on; it closes the tunnel and sends party
    A and party B exactly the balances of the state in play, which are all the
    tunnel holds outside its locks. *)
Theorem settlement_closes_on_chain t c w ct sender now ts n :
  tunnel_ok bk inv t -> wf c -> matches t c ->
  Move.status c = Move.STATUS_ACTIVE -> Move.nonce (Move.state c) = n ->
  w_tunnels w !! Move.id c = Some (coin_or_sui ct, c) ->
  package <> ""%string -> u64_range ts -> Move.created_at c <= ts -> ts <= now ->
  exists s tx c', buildSettlement P t ts n = Ok s /\
    buildCloseFromSettlement package [] (t_tunnelId t) s ct = Ok tx /\
    on_chain sender now w tx =
      Done (send (set_tunnel w (Move.id c) (coin_or_sui ct) c')
        [(Move.address (Move.party_a c), bal_a (balances P (_state t)));
         (Move.address (Move.party_b c), bal_b (balances P (_state t)))]) /\
    Move.status c' = Move.STATUS_CLOSED /\ Move.balance c' = 0.
Proof.
  intros Hok Hw Hm Est Hn Hlook Hpkg Hts Hcr Hnow. pose proof Hm as [Hid _ _ _ _ _].
  destruct (close_setup t c now Hok Hw Hm) as
    (fA & fB & c' & EA & EB & SA & SB & Hra & Hrb & Hsp & Hd & Ecl & Ebal).
  pose proof Hw as [Hv _ _ Hnn _ _ _ _ _].
  set (st := {| s_tunnelId := t_tunnelId t; s_partyABalance := bal_a (balances P (_state t));
                s_partyBBalance := bal_b (balances P (_state t)); s_finalNonce := n + 1;
                s_timestamp := ts |}).
  assert (u64_range (n + 1)) as Hrn by (unfold u64_range; lia).
  assert (exists m, serializeSettlement st = Ok m) as [m Hser].
  { unfold serializeSettlement, st. simpl. rewrite Hid. cbn [rbind].
    rewrite !u64ToBeBytes_total by done. eexists. apply concatBytes_concat. }
  destruct (settlement_bytes st _ m Hid Hser) as (Hmsg & _). simpl in Hmsg.
  destruct (SA m EInvalidSignature) as (CA & BA & LA), (SB m EInvalidSignature) as (CB & BB & LB).
  exists {| cs_settlement := st; cs_sigA := fA m; cs_sigB := fB m |}.
  eexists. exists c'. split_and!; [| | |done|done].
  - unfold buildSettlement. rewrite EA, EB. fold st. by rewrite Hser.
  - unfold buildCloseFromSettlement, buildCloseCooperative, call_tunnel, buildTarget.
    by rewrite (proj2 (String.eqb_neq package "") Hpkg).
  - unfold on_chain. eapply run_single_plain; [| | |by apply decode_address_ok|exact Hlook| |].
    + unfold call_tunnel, buildTarget. by rewrite (proj2 (String.eqb_neq package "") Hpkg).
    + done.
    + done.
    + unfold decode_shared. cbn [String.eqb Ascii.eqb Bool.eqb].
      by rewrite !arg_u64_ok, !arg_bytes_ok by done.
    + cbn [cs_settlement cs_sigA cs_sigB st s_partyABalance s_partyBBalance s_timestamp].
      pass_close. rewrite Hn, Hmsg, CA, CB. exact Hd.
Qed.

(** The same for a settlement that anchors a transcript root. *)
Theorem root_settlement_closes_on_chain t c w ct sender now ts n root :
  tunnel_ok bk inv t -> wf c -> matches t c ->
  Move.status c = Move.STATUS_ACTIVE -> Move.nonce (Move.state c) = n ->
  w_tunnels w !! Move.id c = Some (coin_or_sui ct, c) ->
  package <> ""%string -> u64_range ts -> Move.created_at c <= ts -> ts <= now ->
  length root = 32%nat -> bytes_ok root ->
  exists s tx c', buildSettlementWithRoot P t ts root n = Ok s /\
    buildCloseWithRootFromSettlement package [] (t_tunnelId t) s ct = Ok tx /\
    on_chain sender now w tx =
      Done (send (set_tunnel w (Move.id c) (coin_or_sui ct) c')
        [(Move.address (Move.party_a c), bal_a (balances P (_state t)));
         (Move.address (Move.party_b c), bal_b (balances P (_state t)))]) /\
    Move.status c' = Move.STATUS_CLOSED /\ Move.balance c' = 0.
Proof.
  intros Hok Hw Hm Est Hn Hlook Hpkg Hts Hcr Hnow Hrl Hrok. pose proof Hm as [Hid _ _ _ _ _].
  destruct (close_setup t c now Hok Hw Hm) as
    (fA & fB & c' & EA & EB & SA & SB & Hra & Hrb & Hsp & Hd & Ecl & Ebal).
  pose proof Hw as [Hv _ _ Hnn _ _ _ _ _].
  set (st := {| r_settlement :=
                  {| s_tunnelId := t_tunnelId t;
                     s_partyABalance := bal_a (balances P (_state t));
                     s_partyBBalance := bal_b (balances P (_state t)); s_finalNonce := n + 1;
                     s_timestamp := ts |};
                r_transcriptRoot := root |}).
  assert (u64_range (n + 1)) as Hrn by (unfold u64_range; lia).
  assert (exists m, serializeSettlementWithRoot st = Ok m) as [m Hser].
  { unfold serializeSettlementWithRoot, st. simpl. rewrite Hrl, Hid. cbn [rbind Nat.eqb negb].
    rewrite !u64ToBeBytes_total by done. eexists. apply concatBytes_concat. }
  destruct (settlement_with_root_bytes st _ m Hid Hser) as (Hmsg & _). simpl in Hmsg.
  destruct (SA m EInvalidSignature) as (CA & BA & LA), (SB m EInvalidSignature) as (CB & BB & LB).
  exists {| csr_settlement := st; csr_sigA := fA m; csr_sigB := fB m |}.
  eexists. exists c'. split_and!; [| | |done|done].
  - unfold buildSettlementWithRoot. rewrite EA, EB, Hrl. cbn [Nat.eqb negb]. fold st. by rewrite Hser.
  - unfold buildCloseWithRootFromSettlement, buildCloseCooperativeWithRoot, call_tunnel,
      buildTarget. by rewrite (proj2 (String.eqb_neq package "") Hpkg).
  - unfold on_chain. eapply run_single_plain; [| | |by apply decode_address_ok|exact Hlook| |].
    + unfold call_tunnel, buildTarget. by rewrite (proj2 (String.eqb_neq package "") Hpkg).
    + done.
    + done.
    + unfold decode_shared. cbn [String.eqb Ascii.eqb Bool.eqb].
      by rewrite !arg_u64_ok, !arg_bytes_ok by done.
    + cbn [csr_settlement csr_sigA csr_sigB st s_partyABalance s_partyBBalance s_timestamp
           r_settlement r_transcriptRoot].
      pass_close. rewrite Hn, Hmsg, CA, CB. exact Hd.
Qed.

End Play.

(** * The executor of the watchtower, [onchain/lifecycle.ts] *)

(** [src onchain/lifecycle.ts:203-209 makeRecoveryExecutor] what the caller supplies *)
Record RecoveryContext := {
  signerFor : string -> Move.addr;
  latestUpdate : string -> option CoSignedUpdate;
  partyFor : string -> Party;
  recipientFor : string -> string;
  rc_coinType : option string
}.

(** [src onchain/lifecycle.ts:211-261 makeRecoveryExecutor] the transaction *)
Definition recovery_tx (ctx : RecoveryContext) (tunnelId : string) (a : RecoveryAction)
  : result Transaction :=
  match a with
  | NoAction => Ok []
  | RaiseDispute =>
      match latestUpdate ctx tunnelId with
      | None => Throw (Error "raise_dispute requires the latest co-signed update")
      | Some u => buildRaiseDisputeFromUpdate package [] tunnelId u (partyFor ctx tunnelId)
                    (rc_coinType ctx)
      end
  | ResolveDispute =>
      match latestUpdate ctx tunnelId with
      | None => Throw (Error "resolve_dispute requires the latest co-signed update")
      | Some u => buildResolveDispute package [] tunnelId u (rc_coinType ctx)
      end
  | RaiseDisputeCurrentState =>
      buildRaiseDisputeCurrentState package [] tunnelId (rc_coinType ctx)
  | ForceClose => buildForceClose package [] tunnelId (rc_coinType ctx)
  | WithdrawTimeout =>
      buildWithdrawTimeout package [] tunnelId (recipientFor ctx tunnelId) (rc_coinType ctx)
  end.

(** [src onchain/lifecycle.ts execute]: the client submits, the chain runs; a
    transaction that aborted comes back with the status "failure". *)
Definition execute (signer : Move.addr) (now : Z) (tx : Transaction) : eff World unit :=
  fun w => match on_chain signer now w tx with
           | Done w' => (w', Ok tt)
           | Abort _ => (w, Throw (Error "transaction failed on-chain"))
           end.

(** [src onchain/lifecycle.ts makeRecoveryExecutor] *)
Definition makeRecoveryExecutor (ctx : RecoveryContext) (now : Z) (tunnelId : string)
    (a : RecoveryAction) : eff World unit :=
  do! tx <- elift (recovery_tx ctx tunnelId a);
  execute (signerFor ctx tunnelId) now tx.

(** [src onchain/lifecycle.ts closeCooperative] *)
Definition closeCooperative (signer : Move.addr) (now : Z) (tunnelId : string)
    (s : CoSignedSettlement) (coinType : option string) : eff World unit :=
  do! tx <- elift (buildCloseFromSettlement package [] tunnelId s coinType);
  execute signer now tx.

(** [src onchain/lifecycle.ts depositAs] *)
Definition depositAs (signer : Move.addr) (now : Z) (tunnelId : string) (amount : Z)
  : eff World unit :=
  do! tx <- elift (buildDepositFromGas package [] tunnelId amount);
  execute signer now tx.

(** * The executor does what the watchtower decided *)

Section Recovery.
Context (bk : CryptoBackend) `{!BackendLaws bk}.
Context {State Mv : Type} (P : Protocol State Mv).
Context (inv : Z -> State -> Prop) (ctx_ok : ProtocolContext -> Prop).
Context `{!ProtocolLaws P inv ctx_ok}.

Definition party_of (p : Party) (c : Move.Tunnel) : Move.PartyConfig :=
  match p with PartyA => Move.party_a c | PartyB => Move.party_b c end.

Definition deposit_of (p : Party) (c : Move.Tunnel) : Z :=
  match p with PartyA => Move.party_a_deposit c | PartyB => Move.party_b_deposit c end.

Definition balance_of (p : Party) (c : Move.Tunnel) : Z :=
  match p with
  | PartyA => Move.party_a_balance (Move.state c)
  | PartyB => Move.party_b_balance (Move.state c)
  end.

(** The liveness the tower was given is the one of the object. *)
Record reflects (lv : TunnelLiveness) (c : Move.Tunnel) (me : Party) (now : Z)
    (latest : option CoSignedUpdate) : Prop := {
  r_status : status lv = Move.status c;
  r_raiser : iAmDisputeRaiser lv =
    bool_decide (Move.dispute_raiser c = Some (Move.address (party_of me c)));
  r_newer : hasCounterpartySignedNewerState lv =
    match latest with
    | Some u => Move.nonce (Move.state c) <? nonce (update u)
    | None => false
    end;
  r_created : createdAtMs lv = Move.created_at c;
  r_timeout : timeoutMs lv = Move.timeout_ms c;
  r_now : nowMs lv = now;
  r_start : disputeStartMs lv = Some (Move.timestamp (Move.state c))
}.

(** The latest update is one the chain can take at [now]. *)
Definition submittable (c : Move.Tunnel) (now : Z) (u : CoSignedUpdate) : Prop :=
  Move.created_at c <= timestamp (update u) /\ timestamp (update u) <= now /\
  nonce (update u) < U64_MAX /\ bytes_ok (stateHash (update u)).

(** The object holds the state of the update. *)
Definition committed (c : Move.Tunnel) (u : CoSignedUpdate) : Prop :=
  Move.nonce (Move.state c) = nonce (update u) /\
  Move.state_hash (Move.state c) = stateHash (update u) /\
  Move.party_a_balance (Move.state c) = partyABalance (update u) /\
  Move.party_b_balance (Move.state c) = partyBBalance (update u).

(** What each action achieves. *)
Definition achieved (a : RecoveryAction) (me : Party) (recipient : Move.addr)
    (latest : option CoSignedUpdate) (c c' : Move.Tunnel) (ps : list Move.payment) : Prop :=
  match a with
  | NoAction => False
  | WithdrawTimeout =>
      Move.status c' = Move.STATUS_CLOSED /\ ps = [(recipient, deposit_of me c)]
  | RaiseDispute =>
      ps = [] /\ Move.status c' = Move.STATUS_DISPUTED /\
      Move.dispute_raiser c' = Some (Move.address (party_of me c)) /\
      exists u, latest = Some u /\ committed c' u
  | RaiseDisputeCurrentState =>
      ps = [] /\ Move.status c' = Move.STATUS_DISPUTED /\
      Move.dispute_raiser c' = Some (Move.address (party_of me c)) /\
      balance_of me c' = balance_of me c
  | ResolveDispute =>
      ps = [] /\ Move.status c' = Move.STATUS_ACTIVE /\
      exists u, latest = Some u /\ committed c' u
  | ForceClose =>
      Move.status c' = Move.STATUS_CLOSED /\
      balance_of me c <= paid_to (Move.address (party_of me c)) ps
  end.

(** An update of the engine passes the guards of both dispute calls. *)
Lemma update_accepted t c u :
  tunnel_ok bk inv t -> matches t c -> _latest t = Some u ->
  let v := update u in
  u64_range (nonce v) /\ u64_range (timestamp v) /\ u64_range (partyABalance v) /\
  u64_range (partyBBalance v) /\ length (stateHash v) = 32%nat /\
  Move.assert_balance_split (partyABalance v) (partyBBalance v) (Move.balance c) = Done tt /\
  exists m, Move.serialize_state_update (Move.id c) (stateHash v) (nonce v) (timestamp v)
              (partyABalance v) (partyBBalance v) = m /\
    Move.check_sig (Move.party_a c) m (sigA u) EInvalidSignature = Done tt /\
    Move.check_sig (Move.party_b c) m (sigB u) EInvalidSignature = Done tt /\
    bytes_ok (sigA u) /\ bytes_ok (sigB u).
Proof.
  intros Hok [Hid HkA HkB HtA HtB Htot] Hu v. subst v. pose proof Hok as [HA HB _ _ _ _ Hl _ _].
  destruct (Hl u Hu) as ((_ & Etid & Hsum & Hlen & m & Hser & Esig) & _ & _).
  destruct (serializeStateUpdate_inv _ _ Hser) as (id' & _ & Hn & Hts & Ha & Hb & _).
  rewrite <- Etid in Hid. pose proof (state_update_bytes _ _ _ Hid Hser) as Hm.
  destruct (own_signs_for bk _ _ HA HkA HtA) as (fA & EA & SA).
  destruct (own_signs_for bk _ _ HB HkB HtB) as (fB & EB & SB).
  destruct (SA m EInvalidSignature) as (CA & BA & _), (SB m EInvalidSignature) as (CB & BB & _).
  assert (sigA u = fA m /\ sigB u = fB m) as [-> ->].
  { rewrite Esig. simpl. unfold sign_or_empty. by rewrite EA, EB. }
  split_and!; try done.
  - apply split_done. unfold u64_range in *. lia.
  - by exists m.
Qed.

Lemma raise_accepted t c now u me :
  tunnel_ok bk inv t -> wf c -> matches t c -> _latest t = Some u -> submittable c now u ->
  Move.status c = Move.STATUS_ACTIVE -> Move.nonce (Move.state c) < nonce (update u) ->
  let v := update u in
  exists c', exec (CRaiseDispute (stateHash v) (nonce v) (partyABalance v) (partyBBalance v)
      (timestamp v) (match me with PartyA => sigB u | PartyB => sigA u end))
      (Move.address (party_of me c)) now c = Done (c', []) /\
    Move.status c' = Move.STATUS_DISPUTED /\
    Move.dispute_raiser c' = Some (Move.address (party_of me c)) /\ committed c' u.
Proof.
  intros Hok Hw Hm Hu Hsub Est Hnew v. pose proof Hsub as (Hcr & Hnow & Hmax & _).
  destruct (update_accepted t c u Hok Hm Hu) as
    (Hn & Hts & Ha & Hb & Hlen & Hsp & m & Hmsg & CA & CB & _).
  destruct (status_active c Hw Est) as (_ & _ & _ & Hl).
  pose proof Hw as [Hv Hpa _ Hnn _ _ _ _ _]. subst v.
  eexists. cbn [exec]. unfold Move.raise_dispute, no_payment.
  rewrite Hv, Est, Hlen, Hsp. cbn [Z.eqb Pos.eqb Nat.eqb Move.CURRENT_VERSION Move.STATUS_ACTIVE move_bind].
  assert (forall k : Move.PartyConfig -> move Move.Tunnel,
    (let* o := if bool_decide (Move.address (party_of me c) = Move.address (Move.party_a c))
               then Done (Move.party_b c)
               else if bool_decide (Move.address (party_of me c) = Move.address (Move.party_b c))
               then Done (Move.party_a c) else Abort ENotAuthorized in k o)
    = k (match me with PartyA => Move.party_b c | PartyB => Move.party_a c end)) as ->.
  { intros k. destruct me; simpl; [by rewrite bool_decide_eq_true_2|].
    by rewrite bool_decide_eq_false_2, bool_decide_eq_true_2 by done. }
  rewrite (proj2 (Z.ltb_lt (Move.nonce (Move.state c)) _) Hnew), (proj2 (Z.ltb_lt _ U64_MAX) Hmax).
  rewrite !(proj2 (Z.leb_le _ _)) by (done || lia). rewrite Hmsg.
  assert (Move.check_sig (match me with PartyA => Move.party_b c | PartyB => Move.party_a c end)
    m (match me with PartyA => sigB u | PartyB => sigA u end) EInvalidSignature = Done tt) as ->
    by (by destruct me).
  cbn [move_bind]. rewrite (proj2 (u64_add_ok _ 1 _)) by (split; [reflexivity|lia]).
  cbn [move_bind]. split; [reflexivity|done].
Qed.

Lemma resolve_accepted t c now u sender :
  tunnel_ok bk inv t -> wf c -> matches t c -> _latest t = Some u -> submittable c now u ->
  Move.status c = Move.STATUS_DISPUTED -> Move.nonce (Move.state c) < nonce (update u) ->
  let v := update u in
  exists c', exec (CResolveDispute (stateHash v) (nonce v) (partyABalance v) (partyBBalance v)
      (timestamp v) (sigA u) (sigB u)) sender now c = Done (c', []) /\
    Move.status c' = Move.STATUS_ACTIVE /\ committed c' u.
Proof.
  intros Hok Hw Hm Hu Hsub Est Hnew v. pose proof Hsub as (Hcr & Hnow & Hmax & _).
  destruct (update_accepted t c u Hok Hm Hu) as
    (Hn & Hts & Ha & Hb & Hlen & Hsp & m & Hmsg & CA & CB & _).
  pose proof Hw as [Hv _ _ _ _ _ _ _ _]. subst v.
  eexists. cbn [exec]. unfold Move.resolve_dispute, no_payment.
  rewrite Hv, Est, Hlen. cbn [Z.eqb Pos.eqb Nat.eqb Move.CURRENT_VERSION Move.STATUS_DISPUTED].
  rewrite (proj2 (Z.ltb_lt (Move.nonce (Move.state c)) _) Hnew), (proj2 (Z.ltb_lt _ U64_MAX) Hmax).
  rewrite Hsp. cbn [move_bind]. rewrite !(proj2 (Z.leb_le _ _)) by done.
  rewrite Hmsg, CA, CB. cbn [move_bind]. split; [reflexivity|done].
Qed.

Lemma current_accepted c now me :
  wf c -> Move.status c = Move.STATUS_ACTIVE ->
  exists c', exec CRaiseDisputeCurrent (Move.address (party_of me c)) now c = Done (c', []) /\
    Move.status c' = Move.STATUS_DISPUTED /\
    Move.dispute_raiser c' = Some (Move.address (party_of me c)) /\
    balance_of me c' = balance_of me c.
Proof.
  intros Hw Est. destruct (status_active c Hw Est) as (_ & _ & _ & Hl).
  pose proof Hw as [Hv _ [Ht _] Hnn _ _ _ _ _].
  eexists. cbn [exec]. unfold Move.raise_dispute_current_state, no_payment.
  assert (Move.is_party (Move.address (party_of me c)) c = true) as ->.
  { unfold Move.is_party. destruct me; simpl.
    - by rewrite bool_decide_eq_true_2.
    - rewrite (bool_decide_eq_true_2 (_ = Move.address (Move.party_b c))) by done.
      apply orb_true_r. }
  rewrite Hv, Est, (proj2 (Z.ltb_lt _ _) Ht), (proj2 (Z.leb_le _ _) Hl).
  cbn [Z.eqb Pos.eqb Move.CURRENT_VERSION Move.STATUS_ACTIVE].
  rewrite (proj2 (u64_add_ok _ 1 _)) by (split; [reflexivity|lia]). cbn [move_bind].
  split; [reflexivity|]. split_and!; [done|done|by destruct me].
Qed.

Lemma force_accepted c now me :
  wf c -> Move.status c = Move.STATUS_DISPUTED ->
  Move.dispute_raiser c = Some (Move.address (party_of me c)) ->
  0 <= Move.timestamp (Move.state c) ->
  Move.timestamp (Move.state c) + Move.timeout_ms c <= now <= U64_MAX ->
  exists c' ps, exec CForceClose (Move.address (party_of me c)) now c = Done (c', ps) /\
    Move.status c' = Move.STATUS_CLOSED /\
    balance_of me c <= paid_to (Move.address (party_of me c)) ps.
Proof.
  intros Hw Est Er Hts Hd. pose proof Hw as [_ Hpa _ _ _ _ _ _ _].
  destruct (force_close_succeeds c (Move.address (party_of me c)) now) as
    (c' & a & b & Ex & Ecl & _ & Ha & Hb & HA & HB); [done..| |done|done|].
  { destruct (status_disputed c Hw Est) as (_ & _ & _ & _ & p & Ep & Hp).
    rewrite Er in Ep. by injection Ep as <-. }
  exists c', [(Move.address (Move.party_a c), a); (Move.address (Move.party_b c), b)].
  split_and!; [done|done|]. unfold paid_to. rewrite !filter_cons, filter_nil.
  destruct me; cbn [party_of balance_of fst] in *.
  - destruct (HA eq_refl). rewrite decide_True by done. case_decide; [congruence|]. simpl. lia.
  - destruct (HB eq_refl). rewrite decide_False by done. rewrite decide_True by done. simpl. lia.
Qed.

Lemma withdraw_accepted c now me :
  wf c -> Move.status c = Move.STATUS_CREATED -> 0 < deposit_of me c ->
  0 <= Move.created_at c -> Move.created_at c + Move.timeout_ms c <= now <= U64_MAX ->
  exists c', exec CWithdrawTimeout (Move.address (party_of me c)) now c =
      Done (c', [(Move.address (party_of me c), deposit_of me c)]) /\
    Move.status c' = Move.STATUS_CLOSED.
Proof.
  intros Hw Est Hdep Hcr Hd. pose proof Hw as [Hv Hpa [Ht _] _ _ _ _ _ _].
  destruct (status_created c Hw Est) as (_ & _ & Hsum & Hone & _).
  cbn [exec]. unfold Move.withdraw_timeout.
  rewrite Hv, Est, (proj2 (Z.ltb_lt _ _) Ht). cbn [Z.eqb Pos.eqb Move.CURRENT_VERSION Move.STATUS_CREATED].
  rewrite (proj2 (u64_add_ok _ _ _)) by (split; [reflexivity|lia]). cbn [move_bind].
  rewrite (proj2 (Z.leb_le _ now)) by lia.
  destruct me; cbn [party_of deposit_of] in *;
    rewrite ?bool_decide_eq_true_2 by done; rewrite ?bool_decide_eq_false_2 by done;
    rewrite ?bool_decide_eq_true_2 by done;
    cbn [move_bind]; rewrite (proj2 (Z.ltb_lt _ _) Hdep); unfold Move.withdraw_deposit;
    rewrite (proj2 (balance_split_ok _ _ _)) by (split; [reflexivity|lia]);
    cbn [move_bind]; rewrite (proj2 (Z.eqb_eq _ 0)) by lia; eexists; done.
Qed.

Lemma run_withdraw w tids rcp ct c me now tx c' r amt sender :
  buildWithdrawTimeout package [] tids rcp ct = Ok tx ->
  addressToBytes32 tids = Ok (Move.id c) -> addressToBytes32 rcp = Ok r ->
  w_tunnels w !! Move.id c = Some (coin_or_sui ct, c) ->
  exec CWithdrawTimeout sender now c = Done (c', [(me, amt)]) ->
  on_chain sender now w tx =
    Done (send (set_tunnel w (Move.id c) (coin_or_sui ct) c') [(r, amt)]).
Proof.
  intros Htx Hid Hr Hlook Hx. unfold buildWithdrawTimeout, call_tunnel, buildTarget in Htx. inv_ok.
  change (package ++ "::" ++ "tunnel" ++ "::" ++ "withdraw_timeout")%string
    with (package ++ "::tunnel::" ++ "withdraw_timeout")%string.
  unfold on_chain, run_tx. cbn [app run_commands run_command].
  rewrite run_move_call_tunnel. cbn [is_constructor String.eqb Ascii.eqb Bool.eqb orb].
  cbv beta iota delta [run_shared arg_tunnel].
  rewrite (decode_address_ok _ _ Hid). cbv beta iota delta [need move_bind].
  rewrite Hlook. cbv beta iota delta [fst snd]. rewrite String.eqb_refl.
  cbn [decode_shared String.eqb Ascii.eqb Bool.eqb].
  replace (arg_clock CLOCK) with (Some tt) by done. cbn [mbind option_bind].
  rewrite Hx. unfold arg_address. rewrite (decode_address_ok _ _ Hr).
  reflexivity.
Qed.

Lemma executor_runs ctx now tids a w tx w' sender :
  signerFor ctx tids = sender -> recovery_tx ctx tids a = Ok tx ->
  on_chain sender now w tx = Done w' -> makeRecoveryExecutor ctx now tids a w = (w', Ok tt).
Proof.
  intros Hs Ht Hx. unfold makeRecoveryExecutor, ebind, elift, execute. rewrite Ht, Hs. by rewrite Hx.
Qed.

(** An action that is one call. *)
Lemma executor_plain ctx now tids a w fn args cl c c' ps sender :
  package <> ""%string -> signerFor ctx tids = sender ->
  addressToBytes32 tids = Ok (Move.id c) ->
  w_tunnels w !! Move.id c = Some (coin_or_sui (rc_coinType ctx), c) ->
  recovery_tx ctx tids a = call_tunnel package [] fn (rc_coinType ctx) (Obj tids :: args) ->
  is_constructor fn = false -> String.eqb fn "deposit_party_a" = false ->
  decode_shared decode_address fn args = Some (Plain cl) ->
  exec cl sender now c = Done (c', ps) ->
  makeRecoveryExecutor ctx now tids a w =
    (send (set_tunnel w (Move.id c) (coin_or_sui (rc_coinType ctx)) c') ps, Ok tt).
Proof.
  intros Hpkg Hs Hid Hlook Ht Hf1 Hf2 Hdec Hx.
  assert (exists tx, call_tunnel package [] fn (rc_coinType ctx) (Obj tids :: args) = Ok tx)
    as [tx Htx].
  { unfold call_tunnel, buildTarget. rewrite (proj2 (String.eqb_neq package "") Hpkg). eauto. }
  eapply executor_runs; [done|by rewrite Ht|].
  eapply run_single_plain; [done..|by apply decode_address_ok|done|done|done].
Qed.

Lemma not_done {A} (x : move A) : (forall v, x = Done v -> False) -> exists e, x = Abort e.
Proof. destruct x as [v|e]; [intros H; by destruct (H v)|by exists e]. Qed.

(** The same for a call that aborts: nothing changes and the executor raises. *)
Lemma executor_refused ctx now tids a w fn args cl c sender :
  package <> ""%string -> signerFor ctx tids = sender ->
  addressToBytes32 tids = Ok (Move.id c) ->
  w_tunnels w !! Move.id c = Some (coin_or_sui (rc_coinType ctx), c) ->
  recovery_tx ctx tids a = call_tunnel package [] fn (rc_coinType ctx) (Obj tids :: args) ->
  is_constructor fn = false -> String.eqb fn "deposit_party_a" = false ->
  decode_shared decode_address fn args = Some (Plain cl) ->
  (exists e, exec cl sender now c = Abort e) ->
  makeRecoveryExecutor ctx now tids a w = (w, Throw (Error "transaction failed on-chain")).
Proof.
  intros Hpkg Hs Hid Hlook Ht Hf1 Hf2 Hdec [e Hx].
  assert (exists tx, call_tunnel package [] fn (rc_coinType ctx) (Obj tids :: args) = Ok tx)
    as [tx Htx].
  { unfold call_tunnel, buildTarget. rewrite (proj2 (String.eqb_neq package "") Hpkg). eauto. }
  assert (on_chain sender now w tx = Abort e) as Hab
    by (eapply run_single_aborts; [done..|by apply decode_address_ok|done|done|done]).
  unfold makeRecoveryExecutor, ebind, elift, execute. by rewrite Ht, Htx, Hs, Hab.
Qed.

Lemma live_is_active c :
  wf c -> Move.status c <> TunnelStatus.CLOSED -> Move.status c < 4 ->
  Move.status c <> TunnelStatus.DISPUTED -> Move.status c <> TunnelStatus.CREATED ->
  Move.status c = Move.STATUS_ACTIVE.
Proof.
  intros [_ _ _ _ _ _ _ _ Hs] H1 H2 H3 H4.
  destruct Hs as [[E _]|[[E _]|[[E _]|[[E _]|[E _]]]]]; rewrite E in *; done.
Qed.

(** C12: recovery lands.  Whatever the watchtower decides to do about a tunnel,
    given the liveness of the object on chain and the latest update the engine
    co-signed, the transaction its executor builds is accepted by the contract and
    achieves it: the latest update is the one disputed or resolved with, a forced
    close pays at least the balance of the disputed state, a withdrawal returns
    the deposit.  Two decisions have a side condition.  For a withdrawal the party
    must have deposited.  For a dispute or its resolution with the latest update,
    that update must be one the contract admits: signed with a time between the
    creation of the tunnel and now, its nonce below the largest; with the time 0,
    which the engine signs unless it is told another, the contract of a tunnel
    created later refuses it ([untimed_update_fails]). *)
Theorem recovery_lands t c w ctx me now lv rcp :
  tunnel_ok bk inv t -> wf c -> matches t c ->
  w_tunnels w !! Move.id c = Some (coin_or_sui (rc_coinType ctx), c) ->
  package <> ""%string ->
  signerFor ctx (t_tunnelId t) = Move.address (party_of me c) ->
  partyFor ctx (t_tunnelId t) = me ->
  addressToBytes32 (recipientFor ctx (t_tunnelId t)) = Ok rcp ->
  latestUpdate ctx (t_tunnelId t) = _latest t ->
  (decideRecovery lv = RaiseDispute \/ decideRecovery lv = ResolveDispute ->
   forall u, _latest t = Some u -> submittable c now u) ->
  reflects lv c me now (_latest t) ->
  0 <= Move.created_at c -> 0 <= Move.timestamp (Move.state c) -> now <= U64_MAX ->
  decideRecovery lv <> NoAction ->
  (decideRecovery lv = WithdrawTimeout -> 0 < deposit_of me c) ->
  exists c' ps,
    makeRecoveryExecutor ctx now (t_tunnelId t) (decideRecovery lv) w =
      (send (set_tunnel w (Move.id c) (coin_or_sui (rc_coinType ctx)) c') ps, Ok tt) /\
    achieved (decideRecovery lv) me rcp (_latest t) c c' ps.
Proof.
  intros Hok Hw Hm Hlook Hpkg Hsig Hpar Hrcp Hlat Hsub [Rst Rra Rnew Rcr Rto Rnow Rsd] Hcr Hts Hmax
    Hact Hdep.
  pose proof Hm as [Hid _ _ _ _ _].
  unfold decideRecovery in *. rewrite Rst, Rra, Rnew, Rcr, Rto, Rnow, Rsd in *.
  repeat match goal with
  | H : context [if ?b then _ else _] |- _ => destruct b eqn:?
  end; try done; bool_to_prop.
  - destruct (_latest t) as [u|] eqn:Hu; [|done]. bool_to_prop.
    destruct (update_accepted t c u Hok Hm Hu) as
      (Hn & Ht & Ha & Hb & Hlen & _ & m & _ & _ & _ & BA & BB).
    destruct (Hsub (or_intror eq_refl) u eq_refl) as (_ & _ & _ & Bh).
    destruct (resolve_accepted t c now u (Move.address (party_of me c)) Hok Hw Hm Hu
      (Hsub (or_intror eq_refl) u eq_refl)) as (c' & Hx & ? & ?); [done..|].
    exists c', []. split; [|simpl; eauto 10].
    eapply executor_plain; [done..| | | | |exact Hx]; [cbn; by rewrite Hlat|done|done|].
    unfold decode_shared. cbn [String.eqb Ascii.eqb Bool.eqb].
    by rewrite !arg_u64_ok, !arg_bytes_ok by done.
  - destruct (force_accepted c now me) as (c' & ps & Hx & ? & ?); [done..|].
    exists c', ps. split; [|done].
    by eapply executor_plain; [done..| | | | |exact Hx].
  - destruct (withdraw_accepted c now me) as (c' & Hx & ?); [by auto..|].
    exists c', [(rcp, deposit_of me c)]. split; [|done].
    assert (exists tx, recovery_tx ctx (t_tunnelId t) WithdrawTimeout = Ok tx) as [tx Htx].
    { simpl. unfold buildWithdrawTimeout, call_tunnel, buildTarget.
      rewrite (proj2 (String.eqb_neq package "") Hpkg). simpl. eauto. }
    eapply executor_runs; [done|exact Htx|]. by eapply run_withdraw.
  - destruct (_latest t) as [u|] eqn:Hu; [|done]. bool_to_prop.
    destruct (update_accepted t c u Hok Hm Hu) as
      (Hn & Ht & Ha & Hb & Hlen & _ & m & _ & _ & _ & BA & BB).
    destruct (Hsub (or_introl eq_refl) u eq_refl) as (_ & _ & _ & Bh).
    destruct (raise_accepted t c now u me Hok Hw Hm Hu (Hsub (or_introl eq_refl) u eq_refl)) as
      (c' & Hx & ? & ? & ?); [by apply live_is_active|done|].
    exists c', []. split; [|simpl; eauto 10].
    eapply executor_plain; [done..| | | | |exact Hx];
      [cbn; rewrite Hlat, Hpar; reflexivity|done|done|].
    unfold decode_shared. cbn [String.eqb Ascii.eqb Bool.eqb].
    rewrite !arg_u64_ok by done. rewrite (arg_bytes_ok (stateHash _)) by done.
    rewrite arg_bytes_ok by (by destruct me). done.
  - destruct (current_accepted c now me Hw) as (c' & Hx & ? & ? & ?); [by apply live_is_active|].
    exists c', []. split; [|done].
    by eapply executor_plain; [done..| | | | |exact Hx].
Qed.

(** An update that was signed with a time before the tunnel was created -- the time 0
    of an engine that is not given one, [core/tunnel.ts] -- or with one that is
    still to come: the tower decides to dispute with it, the contract refuses, and
    nothing changes. *)
Theorem untimed_update_fails t c w ctx me now lv u :
  tunnel_ok bk inv t -> wf c -> matches t c ->
  w_tunnels w !! Move.id c = Some (coin_or_sui (rc_coinType ctx), c) ->
  package <> ""%string -> signerFor ctx (t_tunnelId t) = Move.address (party_of me c) ->
  latestUpdate ctx (t_tunnelId t) = _latest t -> _latest t = Some u ->
  bytes_ok (stateHash (update u)) ->
  timestamp (update u) < Move.created_at c \/ now < timestamp (update u) ->
  decideRecovery lv = RaiseDispute \/ decideRecovery lv = ResolveDispute ->
  makeRecoveryExecutor ctx now (t_tunnelId t) (decideRecovery lv) w =
    (w, Throw (Error "transaction failed on-chain")).
Proof.
  intros Hok Hw Hm Hlook Hpkg Hsig Hlat Hu Bh Hts Hd. pose proof Hm as [Hid _ _ _ _ _].
  destruct (update_accepted t c u Hok Hm Hu) as (Hn & Ht & Ha & Hb & Hlen & _ & m & _ & _ & _ & BA & BB).
  destruct Hd as [-> | ->].
  - eapply executor_refused; [done..| | | | |].
    + cbn. rewrite Hlat, Hu. reflexivity.
    + done.
    + done.
    + unfold decode_shared. cbn [String.eqb Ascii.eqb Bool.eqb].
      rewrite !arg_u64_ok by done. rewrite (arg_bytes_ok (stateHash _)) by done.
      rewrite arg_bytes_ok by (by destruct (partyFor ctx (t_tunnelId t))). done.
    + apply not_done. cbn [exec]. unfold Move.raise_dispute, no_payment. intros v E.
      inv_done. bool_to_prop. lia.
  - eapply executor_refused; [done..| | | | |].
    + cbn. rewrite Hlat, Hu. reflexivity.
    + done.
    + done.
    + unfold decode_shared. cbn [String.eqb Ascii.eqb Bool.eqb].
      by rewrite !arg_u64_ok, !arg_bytes_ok by done.
    + apply not_done. cbn [exec]. unfold Move.resolve_dispute, no_payment. intros v E.
      inv_done. bool_to_prop. lia.
Qed.

(** A party that has not deposited itself: the tower still decides to withdraw
    once the deadline is over, the contract refuses, and nothing changes, so the
    tower tries again at every tick. *)
Theorem withdraw_without_deposit_fails c w ctx me now lv tids :
  wf c -> Move.status c = Move.STATUS_CREATED -> deposit_of me c = 0 ->
  w_tunnels w !! Move.id c = Some (coin_or_sui (rc_coinType ctx), c) ->
  package <> ""%string -> addressToBytes32 tids = Ok (Move.id c) ->
  signerFor ctx tids = Move.address (party_of me c) ->
  status lv = Move.status c -> counterpartyDeposited lv = false ->
  createdAtMs lv = Move.created_at c -> timeoutMs lv = Move.timeout_ms c -> nowMs lv = now ->
  0 <= Move.created_at c -> Move.created_at c + Move.timeout_ms c <= now <= U64_MAX ->
  decideRecovery lv = WithdrawTimeout /\
  makeRecoveryExecutor ctx now tids (decideRecovery lv) w =
    (w, Throw (Error "transaction failed on-chain")).
Proof.
  intros Hw Est Hdep Hlook Hpkg Hid Hsig Hst Hcd Hcr Hto Hnow Hc0 Hd.
  assert (decideRecovery lv = WithdrawTimeout) as ->.
  { unfold decideRecovery. rewrite Hst, Est, Hcd, Hcr, Hto, Hnow, (proj2 (Z.leb_le _ now)) by lia.
    done. }
  split; [done|].
  assert (exec CWithdrawTimeout (Move.address (party_of me c)) now c = Abort EInsufficientBalance)
    as Hx.
  { pose proof Hw as [Hv Hpa [Ht _] _ _ _ _ _ _]. cbn [exec]. unfold Move.withdraw_timeout.
    rewrite Hv, Est, (proj2 (Z.ltb_lt _ _) Ht).
    cbn [Z.eqb Pos.eqb Move.CURRENT_VERSION Move.STATUS_CREATED].
    rewrite (proj2 (u64_add_ok _ _ _)) by (split; [reflexivity|lia]). cbn [move_bind].
    rewrite (proj2 (Z.leb_le _ now)) by lia.
    destruct me; cbn [party_of deposit_of] in *;
      rewrite ?bool_decide_eq_true_2 by done; rewrite ?bool_decide_eq_false_2 by done;
      rewrite ?bool_decide_eq_true_2 by done; cbn [move_bind]; by rewrite Hdep. }
  unfold makeRecoveryExecutor, ebind, elift, recovery_tx, buildWithdrawTimeout, call_tunnel, buildTarget.
  rewrite (proj2 (String.eqb_neq package "") Hpkg). cbn [rbind length app]. unfold execute.
  rewrite Hsig. unfold on_chain, run_tx. cbn [run_commands run_command].
  change (package ++ "::" ++ "tunnel" ++ "::" ++ "withdraw_timeout")%string
    with (package ++ "::tunnel::" ++ "withdraw_timeout")%string.
  rewrite run_move_call_tunnel. cbn [is_constructor String.eqb Ascii.eqb Bool.eqb orb].
  cbv beta iota delta [run_shared arg_tunnel]. rewrite (decode_address_ok _ _ Hid).
  cbv beta iota delta [need move_bind]. rewrite Hlook. cbv beta iota delta [fst snd].
  rewrite String.eqb_refl.
  replace (decode_shared decode_address "withdraw_timeout" [CLOCK])
    with (Some (ReturnsCoin CWithdrawTimeout)) by done.
  cbv beta iota. by rewrite Hx.
Qed.

End Recovery.
End OnChain.

(** * Samples: the payments tunnel between two concrete keys, on chain *)
From S2P Require Import Payments.

Definition decode_hex (s : string) : option bytes :=
  match addressToBytes32 s with Ok b => Some b | Throw _ => None end.

Lemma decode_hex_ok s b : addressToBytes32 s = Ok b -> decode_hex s = Some b.
Proof. intros H. unfold decode_hex. by rewrite H. Qed.

Definition sample_fresh (i : nat) : Move.addr := be_bytes 32 (Z.of_nat i).

(** A world that holds one tunnel. *)
Definition sample_world (c : Move.Tunnel) : World :=
  {| w_tunnels := {[ Move.id c := (SUI_COIN_TYPE, c) ]}; w_coins := ∅; w_gas := 0;
     w_funds := ∅; w_sent := []; w_created := 1 |}.

Definition sample_object : move Move.Tunnel :=
  Move.create_and_fund_with_id sample_id sample_a sample_b 100 50 1000 7 3.

(** Nonce, timestamp, well-formed hash of the latest update; balances of the state. *)
Definition latest_facts (t : OffchainTunnel PaymentsState) : option (Z * Z * bool * Z * Z) :=
  option_map (fun u => (nonce (update u), timestamp (update u),
    bool_decide (bytes_ok (stateHash (update u))),
    bal_a (Protocol.balances PaymentsProtocol (_state t)),
    bal_b (Protocol.balances PaymentsProtocol (_state t)))) (_latest t).

(** The tunnel of the payments script and the object it was opened on. *)
Lemma sample_play :
  exists t0 c, opened = Ok t0 /\ sample_object = Done c /\
    let t := attempts PaymentsProtocol t0 script in
    tunnel_ok nobleBackend Payments.inv t /\ wf c /\ matches t c /\
    Move.status c = Move.STATUS_ACTIVE /\ Move.nonce (Move.state c) = 0 /\
    Move.created_at c = 3 /\ Move.timestamp (Move.state c) = 3 /\ t_tunnelId t = "0xA1"%string /\
    Move.id c = sample_id /\ Move.party_a c = sample_a /\ Move.dispute_raiser c = None /\
    Move.timeout_ms c = 1000 /\
    latest_facts t = Some (2, 7, true, 75, 75).
Proof.
  assert (match opened with
          | Ok t0 => latest_facts (attempts PaymentsProtocol t0 script)
          | Throw _ => None end = Some (2, 7, true, 75, 75)) as F by (vm_compute; reflexivity).
  destruct opened as [t0|] eqn:E; [|discriminate F].
  destruct sample_object as [c|] eqn:Ec; [|discriminate Ec].
  exists t0, c. split; [done|]. split; [done|]. unfold sample_object in Ec.
  assert (Move.dispute_raiser c = None) as Hr.
  { vm_compute in Ec. apply Done_inj in Ec. by subst c. }
  destruct (create_and_fund_ok _ _ _ _ _ _ _ _ _ Ec) as
    (Hw & Hst & Hid & Ea & Eb & Ebal & _ & _ & _ & _ & En & Ecr & Etm & _ & _ & Ets);
    [by vm_compute|by vm_compute|lia|].
  assert (keyPairFromSecret skA = Ok kA /\ keyPairFromSecret skB = Ok kB) as [KA KB]
    by (split; vm_compute; reflexivity).
  destruct (selfPlay_ok nobleBackend PaymentsProtocol Payments.inv (fun _ => True)
    "0xA1" skA skB kA kB "0xA" "0xB" deposits true t0 KA KB I deposits_lockable E) as
    (Hok0 & Htot0 & Htid0 & _ & _ & _).
  destruct (attempts_ok nobleBackend PaymentsProtocol Payments.inv (fun _ => True) script t0 Hok0)
    as (Hok & Htid & Htot & _ & HA & HB).
  cbv zeta. split_and!; try done.
  - unfold opened, selfPlay, newOffchainTunnel in E. inv_ok.
    split; rewrite ?Htid, ?HA, ?HB, ?Htot, ?Ea, ?Eb, ?Hid, ?Ebal; reflexivity.
  - by rewrite Htid.
Qed.

Lemma settlement_closes_on_chain_witness :
  exists t c s tx c', opened = Ok t /\ sample_object = Done c /\
    buildSettlement PaymentsProtocol (attempts PaymentsProtocol t script) 11 0 = Ok s /\
    buildCloseFromSettlement "0x42" [] "0xA1" s None = Ok tx /\
    on_chain decode_hex "0x42" sample_fresh (replicate 32 5) 12 (sample_world c) tx =
      Done (send (set_tunnel (sample_world c) sample_id SUI_COIN_TYPE c')
        [(Move.address (Move.party_a c), 75); (Move.address (Move.party_b c), 75)]) /\
    Move.balance c' = 0.
Proof.
  destruct sample_play as (t & c & E & Ec & Hok & Hw & Hm & Hst & Hn & Hcr & _ & Htid & Hid & _ &
    _ & _ & Hf).
  destruct (settlement_closes_on_chain decode_hex decode_hex_ok "0x42" sample_fresh nobleBackend
    PaymentsProtocol Payments.inv (fun _ => True) _ c (sample_world c) None (replicate 32 5) 12 11 0
    Hok Hw Hm Hst Hn) as (s & tx & c' & H1 & H2 & H3 & _ & H5).
  - apply lookup_singleton_eq.
  - done.
  - by vm_compute.
  - lia.
  - lia.
  - exists t, c, s, tx, c'. rewrite Htid in H2. rewrite Hid in H3.
    unfold latest_facts in Hf. destruct (_latest _); [|discriminate Hf].
    cbn [option_map] in Hf.
    apply (inj Some) in Hf. apply pair_equal_spec in Hf as [Hf Bb].
    apply pair_equal_spec in Hf as [_ Ba]. rewrite Ba, Bb in H3.
    repeat split; assumption.
Defined.

Definition sample_tower (t : OffchainTunnel PaymentsState) : RecoveryContext :=
  {| signerFor := fun _ => Move.address sample_a; latestUpdate := fun _ => _latest t;
     partyFor := fun _ => PartyA; recipientFor := fun _ => "0xA"%string; rc_coinType := None |}.

(** A's peer has been silent for a minute. *)
Definition sample_liveness : TunnelLiveness :=
  {| status := 1; iAmDisputeRaiser := false; hasCounterpartySignedNewerState := true;
     createdAtMs := 3; lastActivityMs := 7; timeoutMs := 1000; nowMs := 60_000;
     counterpartyDeposited := true; heartbeatTimeoutMs := 30_000; disputeStartMs := Some 3 |}.

Lemma recovery_lands_witness :
  exists t c c' u, opened = Ok t /\ sample_object = Done c /\
    _latest (attempts PaymentsProtocol t script) = Some u /\
    makeRecoveryExecutor decode_hex "0x42" sample_fresh
      (sample_tower (attempts PaymentsProtocol t script)) 60_000 "0xA1" RaiseDispute
      (sample_world c) = (send (set_tunnel (sample_world c) sample_id SUI_COIN_TYPE c') [], Ok tt) /\
    Move.status c' = Move.STATUS_DISPUTED /\ Move.nonce (Move.state c') = 2 /\ committed c' u.
Proof.
  destruct sample_play as (t & c & E & Ec & Hok & Hw & Hm & Hst & Hn & Hcr & Hts & Htid & Hid & Hpa
    & Hdr & Hto & Hf).
  assert (exists u, _latest (attempts PaymentsProtocol t script) = Some u /\
    nonce (update u) = 2 /\ timestamp (update u) = 7 /\ bytes_ok (stateHash (update u)))
    as (u & Hu & Eu & Etu & Hbu).
  { unfold latest_facts in Hf. destruct (_latest _) as [u|]; [|discriminate Hf]. exists u.
    cbn [option_map] in Hf. injection Hf as En Et Eb _ _. apply bool_decide_eq_true in Eb. done. }
  assert (Move.address (Move.party_a c) = Move.address sample_a) as Ha by (by rewrite Hpa).
  destruct (recovery_lands decode_hex decode_hex_ok "0x42" sample_fresh nobleBackend
    Payments.inv _ c (sample_world c)
    (sample_tower (attempts PaymentsProtocol t script)) PartyA 60_000
    sample_liveness (replicate 31 0 ++ [10]) Hok Hw Hm) as (c' & ps & H1 & H2).
  - apply lookup_singleton_eq.
  - done.
  - symmetry. exact Ha.
  - done.
  - reflexivity.
  - done.
  - intros _ u' E'. rewrite Hu in E'. injection E' as <-. unfold submittable.
    rewrite Hcr, Etu, Eu. split_and!; [lia|lia|by vm_compute|done].
  - rewrite Hu. split; cbn; rewrite ?Hst, ?Hcr, ?Hto, ?Hts, ?Hn, ?Eu, ?Hdr; done.
  - lia.
  - lia.
  - by vm_compute.
  - done.
  - done.
  - assert (decideRecovery sample_liveness = RaiseDispute) as Ed by (vm_compute; reflexivity).
    rewrite Ed, Htid, Hid in H1. rewrite Ed in H2. destruct H2 as (-> & Hs & _ & u' & E' & Hc).
    rewrite Hu in E'. injection E' as <-. exists t, c, c', u.
    split_and!; [exact E|exact Ec|exact Hu|exact H1|exact Hs| |exact Hc].
    by rewrite <- Eu, (proj1 Hc).
Defined.
