(* ===== verification/TunnelTx.v ===== *)
(** The wallet's tunnel transactions, [frontend/src/onchain/tunnelTx.ts]: what
    each of them does on chain, and the submit-and-correlate loops around them.

    The network -- wallet, sponsor and full node -- is an environment that answers
    each request, or leaves it pending; every statement is for all answers. *)

From stdpp Require Import gmap strings.
From S2P Require Import Prelude.
From S2P Require Import Bytes.
From S2P Require Import Wire.
From S2P Require Import Crypto.
From S2P Require Import Protocol.
From S2P Require Import Tunnel.
From S2P Require Import Transcript.
From S2P Require Import MoveTunnel.
From S2P Require Import TunnelContract.
From S2P Require Import TxBuilders.
From S2P Require Import Chain.

(** [s.includes(q)] *)
Fixpoint includes (q s : string) : bool :=
  match strip_prefix q s with
  | Some _ => true
  | None => match s with EmptyString => false | String _ s => includes q s end
  end.

Lemma includes_strip q p : forall s r, strip_prefix (p ++ q) s = Some r -> includes q s = true.
Proof.
  induction p as [|c p IH]; intros s r H.
  - change (strip_prefix q s = Some r) in H. destruct s; cbn [includes]; by rewrite H.
  - change (strip_prefix (String c (p ++ q)) s = Some r) in H.
    destruct s as [|c' s]; [done|]. cbn [strip_prefix] in H.
    destruct (Ascii.eqb c c'); [|done]. cbn [includes]. rewrite (IH s r H). by case_match.
Qed.

(** [src frontend/src/onchain/tunnelTx.ts PartyOnchain] *)
Record PartyOnchain := { po_address : string; po_publicKey : bytes }.

(** [src frontend/src/onchain/tunnelTx.ts TunnelOpenManySpec] *)
Record TunnelOpenManySpec := {
  tm_partyA : PartyOnchain;
  tm_partyB : PartyOnchain;
  tm_aAmount : Z;
  tm_bAmount : Z;
  tm_timeoutMs : option Z;
  tm_penaltyAmount : option Z
}.

(** [src frontend/src/onchain/tunnelTx.ts TunnelDepositSeatASpec] *)
Record TunnelDepositSeatASpec := {
  td_tunnelId : string;
  td_partyA : PartyOnchain;
  td_amount : Z
}.

(** [{ ...party, signatureType: SignatureScheme.ED25519 }] *)
Definition ed25519_party (p : PartyOnchain) : PartyArgs :=
  {| pa_address := po_address p; pa_publicKey := po_publicKey p; pa_signatureType := 0 |}.

Definition DAY_MS : Z := 86_400_000.

(** [src frontend/src/onchain/tunnelTx.ts:445-452 openAndFundMany] *)
Definition open_spec (s : TunnelOpenManySpec) : TunnelOpenSpec :=
  {| os_partyA := ed25519_party (tm_partyA s); os_partyB := ed25519_party (tm_partyB s);
     os_aAmount := tm_aAmount s; os_bAmount := tm_bAmount s;
     os_timeoutMs := default DAY_MS (tm_timeoutMs s);
     os_penaltyAmount := Some (default 0 (tm_penaltyAmount s)) |}.

Section Transactions.
Context (package : string).

(** [src frontend/src/onchain/tunnelTx.ts:440-457 openAndFundMany] *)
Definition open_many_tx (specs : list TunnelOpenManySpec) (coinType : option string)
    (stake : StakeOpts) : result Transaction :=
  let (tx, source) := stakeCoinArg [] stake in
  let! r := buildOpenAndFundMany package tx (map open_spec specs)
    {| bf_coinType := coinType; bf_sourceCoin := source |} in
  Ok (consumeStakeRemainder (fst r) stake source).

(** [src frontend/src/onchain/tunnelTx.ts:377-396 openAndFundSelfPlay] *)
Definition open_self_play_tx (s : TunnelOpenManySpec) (coinType : option string)
    (stake : StakeOpts) : result Transaction :=
  let (tx, source) := stakeCoinArg [] stake in
  let! r := buildOpenAndFundMany package tx [open_spec s]
    {| bf_coinType := coinType; bf_sourceCoin := source |} in
  Ok (consumeStakeRemainder (fst r) stake source).

(** [src frontend/src/onchain/tunnelTx.ts:561-572 openAndFundSelfPlayReturnless] *)
Definition open_returnless_tx (s : TunnelOpenManySpec) : result Transaction :=
  buildOpenAndFundOneReturnless package [] (open_spec s)
    {| bf_coinType := None; bf_sourceCoin := None |}.

(** [src frontend/src/onchain/tunnelTx.ts:326-340 openAndFundSharedTunnel] *)
Definition open_shared_tx (a b : PartyOnchain) (amount : Z) (timeoutMs penalty : option Z)
    (coinType : option string) (stake : StakeOpts) : result Transaction :=
  let (tx, source) := stakeCoinArg [] stake in
  let! tx := buildOpenAndFundSeatA package tx (ed25519_party a) (ed25519_party b) amount
    (default DAY_MS timeoutMs) (Some (default 0 penalty)) source coinType in
  Ok (consumeStakeRemainder tx stake source).

(** [src frontend/src/onchain/tunnelTx.ts:514-524 depositSeatAMany] *)
Definition deposit_many_tx (specs : list TunnelDepositSeatASpec) (coinType : option string)
    (stake : StakeOpts) : result Transaction :=
  let (tx, source) := stakeCoinArg [] stake in
  let! tx := buildDepositMany package tx
    (map (fun s => {| bd_tunnelId := td_tunnelId s; bd_amount := td_amount s |}) specs)
    {| bf_coinType := coinType; bf_sourceCoin := source |} in
  Ok (consumeStakeRemainder tx stake source).

(** [src frontend/src/onchain/tunnelTx.ts:601-627 depositStake]: a withdrawal is
    deposited whole, a coin is split, and without either the gas coin pays. *)
Definition deposit_stake_tx (tunnelId : string) (amount : Z) (coinType : option string)
    (stake : StakeOpts) : result Transaction :=
  match so_stakeFromBalance stake with
  | Some sb =>
      let (tx, coin) := redeemStakeFromBalance [] sb in
      buildDeposit package tx tunnelId coin coinType
  | None =>
      match so_stakeCoinId stake with
      | Some c =>
          if String.eqb c "" then buildDepositFromGas package [] tunnelId amount
          else buildDeposit package [SplitCoins (Obj c) [PureU64 amount]] tunnelId
                 (NestedRes 0 0) coinType
      | None => buildDepositFromGas package [] tunnelId amount
      end
  end.

(** [src frontend/src/onchain/tunnelTx.ts:683-690 raiseDisputeUnilateral] *)
Definition raise_unilateral_tx (tunnelId : string) (u : CoSignedUpdate) (role : Party)
  : result Transaction :=
  buildRaiseDisputeFromUpdate package [] tunnelId u role None.

(** [src frontend/src/onchain/tunnelTx.ts:696-701 forceCloseAfterTimeout] *)
Definition force_close_tx (tunnelId : string) : result Transaction :=
  buildForceClose package [] tunnelId None.

End Transactions.

(** * On chain *)

Section OnChain.
Context `{N : Natives}.
Context (decode_address : string -> option bytes).
Context (package : string) (fresh : nat -> Move.addr).
Context (Hpkg : package <> ""%string).
Context (sender : Move.addr) (now : Z).

Local Notation run := (run_commands decode_address package fresh sender now).
Local Notation run_tx := (run_tx decode_address package fresh sender now).

Lemma run_app f tx1 tx2 : run f (tx1 ++ tx2) = let* f := run f tx1 in run f tx2.
Proof.
  revert f. induction tx1 as [|c tx1 IH]; intros f; [done|]. cbn [app run_commands].
  destruct (run_command _ _ _ _ _ _ _) as [f'|]; [|done]. cbn [move_bind]. apply IH.
Qed.

Lemma get_slot_mid pre vs1 v vs2 post :
  get_slot (pre ++ (vs1 ++ v :: vs2) :: post) (length pre, length vs1) = Some v.
Proof.
  unfold get_slot. cbn [fst snd]. rewrite list_lookup_middle by done. cbn.
  by apply list_lookup_middle.
Qed.

Lemma set_slot_mid pre vs1 v v' vs2 post :
  set_slot (pre ++ (vs1 ++ v :: vs2) :: post) (length pre, length vs1) v'
  = pre ++ (vs1 ++ v' :: vs2) :: post.
Proof.
  unfold set_slot. cbn [fst snd].
  rewrite <- (Nat.add_0_r (length pre)), alter_app_r by done.
  cbn. f_equal. f_equal. by rewrite <- (Nat.add_0_r (length vs1)), insert_app_r.
Qed.

(** A slot of the split can be taken. *)
Lemma take_slot pre vs1 ty x vs2 post k j :
  k = length pre -> j = length vs1 ->
  take_coin (pre ++ (vs1 ++ VCoin ty x :: vs2) :: post) (NestedRes k j)
  = Done (ty, x, pre ++ (vs1 ++ VGone :: vs2) :: post).
Proof.
  intros -> ->. unfold take_coin. cbn [arg_slot need move_bind].
  by rewrite get_slot_mid, set_slot_mid.
Qed.

(** * Opening *)

Definition config_of (p : PartyArgs) (a : Move.addr) : Move.PartyConfig :=
  {| Move.address := a; Move.public_key := pa_publicKey p;
     Move.signature_type := pa_signatureType p |}.

(** What the contract asks of a spec, with the bytes of the two addresses. *)
Record spec_ok (s : TunnelOpenSpec) (a b : Move.addr) : Prop := {
  sp_a : decode_address (pa_address (os_partyA s)) = Some a;
  sp_b : decode_address (pa_address (os_partyB s)) = Some b;
  sp_pkA : bytes_ok (pa_publicKey (os_partyA s)) /\ is_byte (pa_signatureType (os_partyA s));
  sp_pkB : bytes_ok (pa_publicKey (os_partyB s)) /\ is_byte (pa_signatureType (os_partyB s));
  sp_valid : Move.validate_create_params (config_of (os_partyA s) a) (config_of (os_partyB s) b)
             = Done tt;
  sp_timeout : 0 < os_timeoutMs s <= Move.MAX_TOTAL_TIMEOUT_MS;
  sp_penalty : u64_range (default 0 (os_penaltyAmount s));
  sp_stakes : 0 < os_aAmount s /\ 0 < os_bAmount s /\ os_aAmount s + os_bAmount s <= U64_MAX
}.

(** The tunnel a spec asks for: active, at once, with both stakes. *)
Record opened_as (s : TunnelOpenSpec) (a b tid : Move.addr) (t : Move.Tunnel) : Prop := {
  op_wf : wf t;
  op_id : Move.id t = tid;
  op_status : Move.status t = Move.STATUS_ACTIVE;
  op_a : Move.party_a t = config_of (os_partyA s) a;
  op_b : Move.party_b t = config_of (os_partyB s) b;
  op_balA : Move.party_a_balance (Move.state t) = os_aAmount s;
  op_balB : Move.party_b_balance (Move.state t) = os_bAmount s;
  op_timeout : Move.timeout_ms t = os_timeoutMs s;
  op_penalty : Move.penalty_amount t = default 0 (os_penaltyAmount s)
}.

Definition stakes (specs : list TunnelOpenSpec) : list Z :=
  concat (map (fun s => [os_aAmount s; os_bAmount s]) specs).

(** The call of one spec; [k] is the split, [i] the index. *)
Definition open_command (ty : string) (k i : nat) (s : TunnelOpenSpec) : command :=
  MoveCall (package ++ "::tunnel::" ++ "create_and_fund") [ty]
    (party_arguments (os_partyA s) (os_partyB s) ++
     [NestedRes k (2 * i); NestedRes k (2 * i + 1); PureU64 (os_timeoutMs s);
      PureU64 (default 0 (os_penaltyAmount s)); CLOCK]).

Fixpoint open_commands (ty : string) (k i : nat) (specs : list TunnelOpenSpec) : Transaction :=
  match specs with
  | [] => []
  | s :: specs => open_command ty k i s :: open_commands ty k (S i) specs
  end.

Lemma target_ok fn : buildTarget package "tunnel" fn = Ok (package ++ "::tunnel::" ++ fn)%string.
Proof. unfold buildTarget. by rewrite (proj2 (String.eqb_neq package "") Hpkg). Qed.

Lemma open_specs_eq specs : forall tx ty k i,
  exists ids, open_specs package tx ty k i specs = Ok (tx ++ open_commands ty k i specs, ids).
Proof.
  induction specs as [|s specs IH]; intros tx ty k i; cbn [open_specs open_commands].
  { exists []. by rewrite app_nil_r. }
  unfold buildCreateAndFund, call_tunnel. rewrite target_ok. cbn [rbind fst snd].
  edestruct IH as [ids ->]. cbn [rbind fst snd]. eexists. by rewrite <- app_assoc.
Qed.

Lemma arg_party_ok pa a :
  decode_address (pa_address pa) = Some a -> bytes_ok (pa_publicKey pa) ->
  is_byte (pa_signatureType pa) ->
  arg_party decode_address (PureAddress (pa_address pa)) (PureVecU8 (pa_publicKey pa))
    (PureU8 (pa_signatureType pa)) = Some (config_of pa a).
Proof.
  intros Ha Hb Hs. unfold arg_party, arg_address. rewrite Ha. cbn [mbind option_bind].
  rewrite arg_bytes_ok by done. cbn [mbind option_bind]. unfold arg_u8.
  by rewrite bool_decide_eq_true_2 by done.
Qed.

Lemma timeout_u64 x : 0 < x <= Move.MAX_TOTAL_TIMEOUT_MS -> u64_range x.
Proof. intros [H1 H2]. split; [lia|]. by etrans; [apply H2|]. Qed.

(** One spec: its two coins are taken and the tunnel is shared. *)
Lemma run_open_command w pre gone rest post ty k i s a b :
  spec_ok s a b -> k = length pre -> length gone = (2 * i)%nat ->
  exists t, opened_as s a b (fresh (w_created w)) t /\
    run_command decode_address package fresh sender now
      (w, pre ++ (gone ++ VCoin ty (os_aAmount s) :: VCoin ty (os_bAmount s) :: rest) :: post)
      (open_command ty k i s)
    = Done (share (count_created w) ty t,
            pre ++ ((gone ++ [VGone; VGone]) ++ rest) :: post ++ [[]]).
Proof.
  intros [Ha Hb [HpA HsA] [HpB HsB] Hv [Ht1 Ht2] Hp (Hx & Hy & Hsum)] Hk Hg.
  destruct (create_and_fund_total (fresh (w_created w)) _ _ (os_aAmount s) (os_bAmount s)
    (os_timeoutMs s) (default 0 (os_penaltyAmount s)) now Hv) as [t Ht]; [done..|].
  destruct (create_and_fund_ok _ _ _ _ _ _ _ _ _ Ht) as
    (Hw & Hst & Hid & Ea & Eb & _ & _ & _ & Ba & Bb & _ & _ & Etm & Epn & _);
    [unfold u64_range; lia..|apply Hp|].
  exists t. split; [by split|].
  unfold open_command. cbn [run_command]. rewrite run_move_call_tunnel.
  cbn [is_constructor String.eqb Ascii.eqb Bool.eqb orb].
  unfold run_create. unfold party_arguments. cbn [app].
  rewrite (arg_party_ok _ a Ha HpA HsA), (arg_party_ok _ b Hb HpB HsB). cbn [need move_bind].
  rewrite (take_slot pre gone) by lia. cbn [move_bind].
  replace (gone ++ VGone :: VCoin ty (os_bAmount s) :: rest)
    with ((gone ++ [VGone]) ++ VCoin ty (os_bAmount s) :: rest) by (by rewrite <- app_assoc).
  rewrite (take_slot pre (gone ++ [VGone])) by (rewrite ?length_app; simpl; lia).
  cbn [move_bind]. rewrite String.eqb_refl. cbn [andb move_bind].
  rewrite (arg_u64_ok (os_timeoutMs s)), (arg_u64_ok _ Hp) by (by apply timeout_u64).
  cbn [need move_bind].
  replace (arg_clock CLOCK) with (Some tt) by done. cbn [need move_bind]. rewrite Ht.
  cbn [move_bind String.eqb Ascii.eqb Bool.eqb]. f_equal. f_equal.
  by rewrite <- !app_assoc.
Qed.

Definition share_all (ty : string) (w : World) (ts : list Move.Tunnel) : World :=
  fold_left (fun w t => share (count_created w) ty t) ts w.

Definition all_opened (n : nat) (specs : list TunnelOpenSpec) (ts : list Move.Tunnel) : Prop :=
  length ts = length specs /\
  forall i s, specs !! i = Some s ->
    exists a b t, spec_ok s a b /\ ts !! i = Some t /\ opened_as s a b (fresh (n + i)) t.

Lemma run_open_commands ty k pre specs : forall w i gone post,
  Forall (fun s => exists a b, spec_ok s a b) specs ->
  k = length pre -> length gone = (2 * i)%nat ->
  exists ts gone', all_opened (w_created w) specs ts /\ Forall (eq VGone) gone' /\
    run (w, pre ++ (gone ++ map (VCoin ty) (stakes specs)) :: post) (open_commands ty k i specs)
    = Done (share_all ty w ts,
            pre ++ (gone ++ gone') :: post ++ replicate (length specs) []).
Proof.
  induction specs as [|s specs IH]; intros w i gone post Hok Hk Hg.
  { exists [], []. cbn. rewrite !app_nil_r. repeat split; [|constructor]. by intros [|]. }
  apply Forall_cons in Hok as [(a & b & Hs) Hok]. cbn [open_commands run_commands].
  destruct (run_open_command w pre gone (map (VCoin ty) (stakes specs)) post ty k i s a b Hs Hk Hg)
    as (t & Ht & Hrun).
  cbn [stakes map concat app] in *. fold (stakes specs). rewrite Hrun. cbn [move_bind].
  destruct (IH (share (count_created w) ty t) (S i) (gone ++ [VGone; VGone]) (post ++ [[]]))
    as (ts & gone' & [Hl Hts] & Hg' & ->);
    [done..|rewrite length_app; simpl; lia|].
  exists (t :: ts), (VGone :: VGone :: gone'). split; [split; [simpl; lia|]|].
  - intros [|j] s' Hj; cbn in Hj; [injection Hj as <-; exists a, b, t; rewrite Nat.add_0_r; done|].
    destruct (Hts j s' Hj) as (a' & b' & t' & ? & ? & ?). exists a', b', t'.
    by rewrite <- Nat.add_succ_comm.
  - split; [by repeat constructor|]. cbn [share_all fold_left length replicate].
    by rewrite <- !app_assoc.
Qed.

Lemma share_all_cons ty w t ts :
  share_all ty w (t :: ts) = share_all ty (share (count_created w) ty t) ts.
Proof. done. Qed.

Lemma share_all_purse ty ts : forall w,
  w_coins (share_all ty w ts) = w_coins w /\ w_gas (share_all ty w ts) = w_gas w /\
  w_funds (share_all ty w ts) = w_funds w /\ w_sent (share_all ty w ts) = w_sent w.
Proof.
  induction ts as [|t ts IH]; intros w; [done|]. rewrite share_all_cons.
  destruct (IH (share (count_created w) ty t)) as (-> & -> & -> & ->). done.
Qed.

Lemma share_all_other ty ts tid : forall w,
  (forall t, In t ts -> Move.id t <> tid) ->
  w_tunnels (share_all ty w ts) !! tid = w_tunnels w !! tid.
Proof.
  induction ts as [|t ts IH]; intros w Hne; [done|]. rewrite share_all_cons.
  rewrite (IH (share (count_created w) ty t)) by (intros; apply Hne; by right).
  cbn. apply lookup_insert_ne, Hne. by left.
Qed.

Lemma share_all_lookup ty ts i t : forall w,
  NoDup (map Move.id ts) -> ts !! i = Some t ->
  w_tunnels (share_all ty w ts) !! Move.id t = Some (ty, t).
Proof.
  revert i. induction ts as [|t0 ts IH]; intros i w Hnd Hi; [done|].
  apply NoDup_cons in Hnd as [Hni Hnd]. rewrite share_all_cons.
  destruct i as [|i]; cbn in Hi; [injection Hi as ->|by apply (IH i)].
  rewrite share_all_other.
  - cbn. apply lookup_insert_eq.
  - intros t' Ht' E. apply Hni. rewrite <- E. by apply list_elem_of_In, in_map.
Qed.

Lemma all_opened_id n specs ts i t :
  all_opened n specs ts -> ts !! i = Some t -> Move.id t = fresh (n + i).
Proof.
  intros [Hl H] Hi. assert (is_Some (specs !! i)) as [s Hs].
  { apply lookup_lt_is_Some. rewrite <- Hl. by eapply lookup_lt_Some. }
  destruct (H i s Hs) as (a & b & t' & _ & Ht & Ho). rewrite Hi in Ht. injection Ht as <-.
  apply Ho.
Qed.

Lemma all_opened_NoDup n specs ts :
  Inj (=) (=) fresh -> all_opened n specs ts -> NoDup (map Move.id ts).
Proof.
  intros Hinj Hall. apply NoDup_alt. intros i j x Hi Hj.
  apply list_lookup_fmap_Some in Hi as (t & -> & Hi).
  apply list_lookup_fmap_Some in Hj as (t' & E & Hj).
  rewrite (all_opened_id _ _ _ _ _ Hall Hi), (all_opened_id _ _ _ _ _ Hall Hj) in E.
  apply Hinj in E. lia.
Qed.

(** * The framework *)

(** A target outside the tunnel module is one of the framework. *)
Lemma run_framework_call f target ty args :
  includes "::tunnel::" target = false ->
  run_move_call decode_address package fresh sender now f target [ty] args
  = run_framework package f target ty args.
Proof.
  intros H. unfold run_move_call. cbn [lookup list_lookup need move_bind].
  destruct (strip_prefix _ target) as [r|] eqn:E; [|done].
  apply includes_strip in E. by rewrite H in E.
Qed.

(** * Paying the stake *)

(** The three ways a transaction can pay [total] of [ty]. *)
Inductive pays (w : World) (ty : string) (total : Z) : StakeOpts -> World -> Prop :=
  | pays_from_balance coin v :
      default 0 (w_funds w !! ty) = v -> 0 <= total <= v ->
      pays w ty total
        {| so_stakeFromBalance := Some {| sb_amount := total; sb_coinType := ty |};
           so_stakeCoinId := coin |}
        (set_purse w (w_coins w) (w_gas w) (<[ty := v - total]> (w_funds w)))
  | pays_from_coin c v :
      c <> ""%string -> w_coins w !! c = Some (ty, v) -> 0 <= total <= v ->
      pays w ty total {| so_stakeFromBalance := None; so_stakeCoinId := Some c |}
        (set_purse w (<[c := (ty, v - total)]> (w_coins w)) (w_gas w) (w_funds w))
  | pays_from_gas :
      ty = SUI_COIN_TYPE -> 0 <= total <= w_gas w ->
      pays w ty total {| so_stakeFromBalance := None; so_stakeCoinId := None |}
        (set_purse w (w_coins w) (w_gas w - total) (w_funds w)).

Lemma args_u64 amounts :
  Forall u64_range amounts -> mapM arg_u64 (map PureU64 amounts) = Some amounts.
Proof.
  intros Hu. apply mapM_Some_2. induction Hu as [|x xs Hx Hu IH]; [constructor|].
  constructor; [by apply arg_u64_ok|done].
Qed.

Lemma balance_split_le v a : a <= v -> balance_split v a = Done (v - a).
Proof. intros H. by apply balance_split_ok. Qed.

Lemma droppable_gone vs : Forall (eq VGone) vs -> forallb droppable vs = true.
Proof. by induction 1 as [|v vs <- _ IH]. Qed.

Lemma droppable_post post : Forall (eq []) post -> forallb (forallb droppable) post = true.
Proof. by induction 1 as [|v vs <- _ IH]. Qed.

(** Whatever a batch does between the split and the end, the stake is paid as
    asked: [body] is the commands after the split, for the split at [k]. *)
Lemma run_staked w w1 ty amounts stake body :
  Forall u64_range amounts ->
  pays w ty (sum amounts) stake w1 ->
  let (tx, source) := stakeCoinArg [] stake in
  let k := length tx in
  (negb (String.eqb ty SUI_COIN_TYPE) && bool_decide (source = None)) = false /\
  exists pre, length pre = k /\ forall w2 gone post,
  Forall (eq VGone) gone -> Forall (eq []) post ->
  run (w1, pre ++ [map (VCoin ty) amounts]) body = Done (w2, pre ++ gone :: post) ->
  run_tx w (consumeStakeRemainder
    ((tx ++ [SplitCoins (default GasCoin source) (map PureU64 amounts)]) ++ body) stake source)
  = Done w2.
Proof.
  intros Hu%args_u64 Hp.
  destruct Hp as [coin v Hv Hle|c v Hne Hc Hle|Hty Hle]; cbn [stakeCoinArg redeemStakeFromBalance
    so_stakeFromBalance so_stakeCoinId consumeStakeRemainder].
  - cbn [length default app]. split; [by rewrite andb_false_r|]. exists [[VCoin ty 0]].
    split; [done|]. intros w2 gone post Hg Hpo Hrun.
    unfold Chain.run_tx. cbn [run_commands app sb_amount sb_coinType]. cbn [run_command].
    rewrite run_framework_call by done. unfold run_framework.
    cbn [String.eqb Ascii.eqb Bool.eqb]. rewrite String.eqb_refl, Hv. cbn [move_bind].
    rewrite balance_split_le by lia. cbn [move_bind app].
    unfold split_coins at 1. rewrite Hu. cbn [need move_bind draw id].
    cbn [arg_slot need move_bind get_slot set_slot].
    change (get_slot [[VCoin ty (sum amounts)]] (0, 0)%nat) with (Some (VCoin ty (sum amounts))).
    cbv beta iota. rewrite balance_split_le by lia. cbn [move_bind].
    rewrite Z.sub_diag. change (set_slot [[VCoin ty (sum amounts)]] (0, 0)%nat (VCoin ty 0))
      with [[VCoin ty 0]]. rewrite run_app, Hrun. cbn [move_bind app run_commands run_command].
    rewrite run_framework_call by done. unfold run_framework.
    cbn [String.eqb Ascii.eqb Bool.eqb].
    rewrite (take_slot [] [] ty 0 [] (gone :: post)) by done. cbn [move_bind app].
    rewrite String.eqb_refl. cbn [move_bind Z.eqb fst snd forallb droppable andb].
    by rewrite forallb_app, (droppable_gone gone), (droppable_post post).
  - rewrite (proj2 (String.eqb_neq c "") Hne). cbn [length default app].
    split; [by rewrite andb_false_r|]. exists [].
    split; [done|]. intros w2 gone post Hg Hpo Hrun.
    unfold Chain.run_tx. cbn [run_commands app run_command]. unfold split_coins at 1. rewrite Hu.
    cbn [need move_bind draw id]. rewrite Hc. cbn [need move_bind fst snd].
    rewrite balance_split_le by lia. cbn [move_bind app]. cbn [app] in Hrun. rewrite Hrun.
    cbn [move_bind fst snd forallb]. by rewrite (droppable_gone gone), (droppable_post post).
  - cbn [length default app]. subst ty. rewrite String.eqb_refl. split; [done|]. exists [].
    split; [done|]. intros w2 gone post Hg Hpo Hrun.
    unfold Chain.run_tx. cbn [run_commands app run_command]. unfold split_coins at 1. rewrite Hu.
    cbn [need move_bind draw id].
    rewrite balance_split_le by lia. cbn [move_bind app]. cbn [app] in Hrun. rewrite Hrun.
    cbn [move_bind fst snd forallb]. by rewrite (droppable_gone gone), (droppable_post post).
Qed.

Definition same_purse (w w' : World) : Prop :=
  w_coins w' = w_coins w /\ w_gas w' = w_gas w /\ w_funds w' = w_funds w /\ w_sent w' = w_sent w.

Lemma stakes_u64 specs :
  Forall (fun s => exists a b, spec_ok s a b) specs -> Forall u64_range (stakes specs).
Proof.
  intros H. apply Forall_concat. apply Forall_map. eapply Forall_impl; [exact H|].
  intros s (a & b & []). repeat constructor; unfold u64_range; lia.
Qed.

Lemma pays_purse w ty total stake w1 :
  pays w ty total stake w1 ->
  w_tunnels w1 = w_tunnels w /\ w_created w1 = w_created w /\ w_sent w1 = w_sent w.
Proof. by destruct 1. Qed.

(** C13: opening many tunnels.  When the stake source covers exactly the sum, the
    one transaction of [openAndFundMany] succeeds; each spec gets a tunnel of its
    own, active at once with both stakes as its balances and under the keys, the
    timeout and the penalty asked; the source pays the sum and not more; no other
    tunnel is touched.  This is so for each of the three stake sources. *)
Theorem open_many specs coinType stake w w1 :
  Inj (=) (=) fresh ->
  Forall (fun s => exists a b, spec_ok (open_spec s) a b) specs ->
  pays w (coin_or_sui coinType) (sum (stakes (map open_spec specs))) stake w1 ->
  exists tx w',
    open_many_tx package specs coinType stake = Ok tx /\ run_tx w tx = Done w' /\
    same_purse w1 w' /\
    (forall i s, specs !! i = Some s -> exists a b t,
       spec_ok (open_spec s) a b /\
       w_tunnels w' !! fresh (w_created w + i) = Some (coin_or_sui coinType, t) /\
       opened_as (open_spec s) a b (fresh (w_created w + i)) t) /\
    (forall tid, (forall i, (i < length specs)%nat -> tid <> fresh (w_created w + i)) ->
       w_tunnels w' !! tid = w_tunnels w !! tid).
Proof.
  intros Hinj Hok Hp. set (ty := coin_or_sui coinType) in *.
  set (sps := map open_spec specs) in *.
  assert (Forall (fun s => exists a b, spec_ok s a b) sps) as Hsps by (by apply Forall_fmap).
  destruct (pays_purse _ _ _ _ _ Hp) as (Et & Ec & _).
  pose proof (fun body => run_staked w w1 ty (stakes sps) stake body (stakes_u64 _ Hsps) Hp) as Hrun.
  unfold open_many_tx. destruct (stakeCoinArg [] stake) as [tx source]. cbn zeta beta in Hrun.
  destruct (Hrun (open_commands ty (length tx) 0 sps)) as (Hsrc & pre & Hpre & Hdone).
  destruct (run_open_commands ty (length tx) pre sps w1 0 [] [])
    as (ts & gone & Hall & Hg & Hr); [done..|].
  unfold buildOpenAndFundMany, check_source. cbn [bf_coinType bf_sourceCoin].
  fold ty. rewrite Hsrc. cbn [rbind].
  fold sps. change (concat (map _ sps)) with (stakes sps).
  destruct (open_specs_eq sps (tx ++ [SplitCoins (default GasCoin source) (map PureU64 (stakes sps))])
    ty (length tx) 0) as [ids ->]. cbn [rbind fst].
  eexists _, (share_all ty w1 ts). split; [reflexivity|].
  split; [eapply Hdone; [exact Hg| |exact Hr]; by apply Forall_replicate|].
  destruct (share_all_purse ty ts w1) as (? & ? & ? & ?). split; [done|].
  rewrite <- Ec, <- Et. split.
  - intros i s Hi. destruct (proj2 Hall i (open_spec s)) as (a & b & t & Hs & Hti & Ho).
    { unfold sps. by rewrite list_lookup_fmap, Hi. }
    exists a, b, t. split; [done|]. split; [|done]. rewrite <- (op_id _ _ _ _ _ Ho).
    by apply (share_all_lookup ty ts i t w1 (all_opened_NoDup _ _ _ Hinj Hall)).
  - intros tid Hne. apply share_all_other. intros t [i Hi]%list_elem_of_In%list_elem_of_lookup E.
    apply (Hne i).
    + apply lookup_lt_Some in Hi. rewrite (proj1 Hall) in Hi. unfold sps in Hi.
      by rewrite length_map in Hi.
    + by rewrite <- E, (all_opened_id _ _ _ _ _ Hall Hi).
Qed.

(** * Joining: seat A of tunnels whose seat B is funded *)

(** A tunnel opened and half funded by the other side, waiting for the sender. *)
Record awaiting (c : Move.Tunnel) (x : Z) : Prop := {
  aw_wf : wf c;
  aw_status : Move.status c = Move.STATUS_CREATED;
  aw_sender : Move.address (Move.party_a c) = sender;
  aw_a : Move.party_a_deposit c = 0;
  aw_b : 0 < Move.party_b_deposit c;
  aw_amount : 0 < x;
  aw_room : Move.party_b_deposit c + x <= U64_MAX
}.

Record joined (c : Move.Tunnel) (x : Z) (c' : Move.Tunnel) : Prop := {
  jo_wf : wf c';
  jo_status : Move.status c' = Move.STATUS_ACTIVE;
  jo_parties : Move.party_a c' = Move.party_a c /\ Move.party_b c' = Move.party_b c;
  jo_balA : Move.party_a_balance (Move.state c') = x;
  jo_balB : Move.party_b_balance (Move.state c') = Move.party_b_deposit c
}.

Lemma join_one c x :
  awaiting c x -> exists c', exec (CDeposit x) sender now c = Done (c', []) /\ joined c x c'.
Proof.
  intros [Hw Hst Hs Ha Hb Hx Hroom]. pose proof Hw as [Hv _ _ _ _ _ _ _ _].
  destruct (status_created c Hw Hst) as (_ & _ & Hbal & _).
  cbn [exec]. unfold no_payment, Move.deposit. rewrite <- Hs, bool_decide_eq_true_2 by done.
  destruct (Move.deposit_internal c x true now) as [c'|] eqn:E.
  - exists c'. split; [done|].
    destruct (keeps_deposit_internal c x true now c' Hw ltac:(unfold u64_range; lia) E) as [Hw' _].
    unfold Move.deposit_internal in E. inv_done. inv_u64. unfold Move.maybe_activate in *. cbn in *.
    rewrite Hst, Ha in *. cbn -[Z.add] in *. rewrite Z.add_0_l in *.
    rewrite (proj2 (Z.ltb_lt 0 x) Hx), (proj2 (Z.ltb_lt 0 _) Hb) in *. by split.
  - exfalso. unfold Move.deposit_internal, Move.MIN_DEPOSIT in E. rewrite Hv, Hst, Ha, Hbal in E.
    rewrite (proj2 (Z.leb_le 1 x)) in E by lia. cbn -[u64_add U64_MAX] in E.
    rewrite !(proj2 (u64_add_ok _ _ _)) in E by (split; [reflexivity|lia]). done.
Qed.

Definition deposit_command (ty : string) (k i : nat) (s : BatchDepositSpec) : command :=
  MoveCall (package ++ "::tunnel::" ++ "entry_deposit") [ty]
    [Obj (bd_tunnelId s); NestedRes k i; CLOCK].

Fixpoint deposit_commands (ty : string) (k i : nat) (specs : list BatchDepositSpec)
  : Transaction :=
  match specs with
  | [] => []
  | s :: specs => deposit_command ty k i s :: deposit_commands ty k (S i) specs
  end.

Lemma deposit_specs_eq specs : forall tx ty k i,
  deposit_specs package tx ty k i specs = Ok (tx ++ deposit_commands ty k i specs).
Proof.
  induction specs as [|s specs IH]; intros tx ty k i; cbn [deposit_specs deposit_commands].
  { by rewrite app_nil_r. }
  unfold buildDeposit, call_tunnel. rewrite target_ok. cbn [rbind].
  by rewrite IH, <- app_assoc.
Qed.

(** The spec's tunnel is one of the world and waits for the sender. *)
Definition waits (w : World) (ty : string) (s : BatchDepositSpec) : Prop :=
  exists (tid : Move.addr) c, decode_address (bd_tunnelId s) = Some tid /\
    w_tunnels w !! tid = Some (ty, c) /\ awaiting c (bd_amount s).

Definition has_joined (w w' : World) (ty : string) (s : BatchDepositSpec) : Prop :=
  exists (tid : Move.addr) c c', decode_address (bd_tunnelId s) = Some tid /\
    w_tunnels w !! tid = Some (ty, c) /\ w_tunnels w' !! tid = Some (ty, c') /\
    joined c (bd_amount s) c'.

Definition spec_tunnel (s : BatchDepositSpec) : option bytes := decode_address (bd_tunnelId s).

Lemma run_deposit_command w pre gone rest post ty k i s (tid : Move.addr) c c' :
  decode_address (bd_tunnelId s) = Some tid -> w_tunnels w !! tid = Some (ty, c) ->
  exec (CDeposit (bd_amount s)) sender now c = Done (c', []) ->
  k = length pre -> length gone = i ->
  run_command decode_address package fresh sender now
    (w, pre ++ (gone ++ VCoin ty (bd_amount s) :: rest) :: post) (deposit_command ty k i s)
  = Done (set_tunnel w tid ty c', pre ++ ((gone ++ [VGone]) ++ rest) :: post ++ [[]]).
Proof.
  intros Hd Hl Hx Hk Hg. unfold deposit_command. cbn [run_command]. rewrite run_move_call_tunnel.
  cbn [is_constructor String.eqb Ascii.eqb Bool.eqb orb].
  cbv beta iota delta [run_shared arg_tunnel]. rewrite Hd. cbv beta iota delta [need move_bind].
  rewrite Hl. cbv beta iota delta [fst snd]. rewrite String.eqb_refl.
  replace (decode_shared decode_address "entry_deposit" [NestedRes k i; CLOCK])
    with (Some (TakesCoin (NestedRes k i))) by done.
  cbv beta iota. rewrite (take_slot pre gone) by done. cbv beta iota.
  rewrite String.eqb_refl, Hx. by rewrite <- !app_assoc.
Qed.

Lemma run_deposit_commands ty k pre specs : forall w i gone post,
  Forall (waits w ty) specs -> NoDup (map spec_tunnel specs) ->
  k = length pre -> length gone = i ->
  exists w' gone', Forall (eq VGone) gone' /\ same_purse w w' /\
    Forall (has_joined w w' ty) specs /\
    (forall tid : Move.addr, ~ Some tid ∈ map spec_tunnel specs -> w_tunnels w' !! tid = w_tunnels w !! tid) /\
    run (w, pre ++ (gone ++ map (VCoin ty) (map bd_amount specs)) :: post)
      (deposit_commands ty k i specs)
    = Done (w', pre ++ (gone ++ gone') :: post ++ replicate (length specs) []).
Proof.
  induction specs as [|s specs IH]; intros w i gone post Hok Hnd Hk Hg.
  { exists w, []. cbn. rewrite !app_nil_r. by repeat constructor. }
  apply Forall_cons in Hok as [(tid & c & Hd & Hl & Haw) Hok]. cbn [map] in Hnd.
  apply NoDup_cons in Hnd as [Hni Hnd]. destruct (join_one c _ Haw) as (c' & Hx & Hj).
  cbn [deposit_commands run_commands map].
  rewrite (run_deposit_command w pre gone _ post ty k i s tid c c') by done. cbn [move_bind].
  assert (forall s', In s' specs -> forall tid', decode_address (bd_tunnelId s') = Some tid' ->
    tid' <> tid) as Hne.
  { intros s' Hs' tid' Hd' ->. apply Hni.
    assert (spec_tunnel s = spec_tunnel s') as -> by exact (eq_trans Hd (eq_sym Hd')).
    apply list_elem_of_In. by apply (in_map spec_tunnel). }
  destruct (IH (set_tunnel w tid ty c') (S i) (gone ++ [VGone]) (post ++ [[]]))
    as (w' & gone' & Hg' & Hpu & Hjs & Hoth & ->); [|done|done|rewrite length_app; simpl; lia|].
  { apply Forall_forall. intros s' Hs'. rewrite Forall_forall in Hok.
    destruct (Hok s' Hs') as (tid' & c1 & Hd' & Hl' & Haw'). exists tid', c1.
    split; [done|]. split; [|done]. cbn. rewrite lookup_insert_ne; [done|].
    symmetry. eapply Hne; [by apply list_elem_of_In|done]. }
  exists w', (VGone :: gone'). split; [by constructor|]. split; [done|]. split; [|split].
  - constructor.
    + exists tid, c, c'. split; [done|]. split; [done|]. split; [|done]. rewrite Hoth.
      * cbn. by rewrite lookup_insert_eq.
      * intros Hin. apply Hni. by assert (spec_tunnel s = Some tid) as -> by exact Hd.
    + apply Forall_forall. intros s' Hs'. rewrite Forall_forall in Hjs.
      destruct (Hjs s' Hs') as (tid' & c1 & c1' & Hd' & Hl' & Hl1 & Hj1).
      exists tid', c1, c1'. split; [done|]. split; [|done]. cbn in Hl'.
      rewrite lookup_insert_ne in Hl'; [done|]. symmetry.
      eapply Hne; [by apply list_elem_of_In|done].
  - intros tid' Hin. cbn [map] in Hin. rewrite elem_of_cons in Hin. rewrite Hoth by tauto.
    cbn. apply lookup_insert_ne. intros ->. apply Hin. left. symmetry. exact Hd.
  - cbn [length replicate]. by rewrite <- !app_assoc.
Qed.

Lemma awaiting_amounts w ty specs :
  Forall (waits w ty) specs -> Forall u64_range (map bd_amount specs).
Proof.
  intros H. apply Forall_fmap. eapply Forall_impl; [exact H|].
  intros s (tid & c & _ & _ & [_ _ _ _ Hb Hx Hr]). unfold u64_range. cbn. lia.
Qed.

Definition deposit_spec (s : TunnelDepositSeatASpec) : BatchDepositSpec :=
  {| bd_tunnelId := td_tunnelId s; bd_amount := td_amount s |}.

(** Joining many tunnels.  The one transaction of [depositSeatAMany] pays seat
    A of every tunnel it names, each of which becomes active with that stake and
    the one the other side had put in; the source pays the sum and not more, and
    no other tunnel is touched. *)
Theorem join_many specs coinType stake w w1 :
  Forall (waits w (coin_or_sui coinType)) (map deposit_spec specs) ->
  NoDup (map (fun s => decode_address (td_tunnelId s)) specs) ->
  pays w (coin_or_sui coinType) (sum (map td_amount specs)) stake w1 ->
  exists tx w',
    deposit_many_tx package specs coinType stake = Ok tx /\ run_tx w tx = Done w' /\
    same_purse w1 w' /\
    Forall (has_joined w w' (coin_or_sui coinType)) (map deposit_spec specs) /\
    (forall tid : Move.addr,
       ~ Some tid ∈ map (fun s => decode_address (td_tunnelId s)) specs ->
       w_tunnels w' !! tid = w_tunnels w !! tid).
Proof.
  intros Hok Hnd Hp. set (ty := coin_or_sui coinType) in *.
  set (sps := map deposit_spec specs) in *.
  assert (map td_amount specs = map bd_amount sps) as Ea by (unfold sps; by rewrite map_map).
  assert (map (fun s => decode_address (td_tunnelId s)) specs = map spec_tunnel sps) as Ed
    by (unfold sps; by rewrite map_map).
  rewrite Ea in Hp. rewrite Ed in Hnd |- *.
  destruct (pays_purse _ _ _ _ _ Hp) as (Et & _ & _).
  assert (Forall (waits w1 ty) sps) as Hw1 by (unfold waits; by rewrite Et).
  pose proof (fun body => run_staked w w1 ty (map bd_amount sps) stake body
    (awaiting_amounts _ _ _ Hok) Hp) as Hrun.
  unfold deposit_many_tx. destruct (stakeCoinArg [] stake) as [tx source]. cbn zeta beta in Hrun.
  destruct (Hrun (deposit_commands ty (length tx) 0 sps)) as (Hsrc & pre & Hpre & Hdone).
  destruct (run_deposit_commands ty (length tx) pre sps w1 0 [] [])
    as (w' & gone & Hg & Hpu & Hj & Hoth & Hr); [done..|].
  unfold buildDepositMany, check_source. cbn [bf_coinType bf_sourceCoin].
  fold ty. rewrite Hsrc. cbn [rbind]. change (map _ specs) with sps.
  rewrite deposit_specs_eq. cbn [rbind].
  rewrite <- (map_map bd_amount PureU64 sps).
  eexists _, w'. split; [reflexivity|].
  split; [eapply Hdone; [exact Hg| |exact Hr]; by apply Forall_replicate|].
  split; [done|]. unfold has_joined in *. rewrite Et in *. done.
Qed.

(** * The unilateral floor names no coin *)

(** A transaction of one call with the wrong type argument fails. *)
Lemma run_wrong_type w fn tids args (tid : Move.addr) ty t tx :
  call_tunnel package [] fn None (Obj tids :: args) = Ok tx ->
  is_constructor fn = false -> String.eqb fn "deposit_party_a" = false ->
  decode_address tids = Some tid -> w_tunnels w !! tid = Some (ty, t) ->
  ty <> SUI_COIN_TYPE -> run_tx w tx = Abort TypeMismatch.
Proof.
  intros Htx Hc Hd Ha Ht Hty. unfold call_tunnel in Htx. rewrite target_ok in Htx.
  cbn [rbind app] in Htx. apply Ok_inj in Htx as <-.
  unfold Chain.run_tx. cbn [run_commands run_command]. rewrite run_move_call_tunnel, Hc, Hd.
  cbv beta iota delta [run_shared arg_tunnel]. rewrite Ha. cbv beta iota delta [need move_bind].
  rewrite Ht. cbv beta iota delta [fst snd coin_or_sui default].
  by rewrite (proj2 (String.eqb_neq ty _) Hty).
Qed.

(** The dispute and the forced close of [tunnelTx.ts] pass no coin type, so the
    builders name SUI: on a tunnel of any other coin, as the faucet token every
    stake is in, both are refused whatever the state of the tunnel. *)
Theorem unilateral_floor_needs_sui w (tid : Move.addr) tids ty t u role tx1 tx2 :
  decode_address tids = Some tid -> w_tunnels w !! tid = Some (ty, t) -> ty <> SUI_COIN_TYPE ->
  raise_unilateral_tx package tids u role = Ok tx1 -> force_close_tx package tids = Ok tx2 ->
  run_tx w tx1 = Abort TypeMismatch /\ run_tx w tx2 = Abort TypeMismatch.
Proof.
  intros Hd Hl Hty H1 H2. split.
  - by eapply run_wrong_type; [exact H1|..].
  - by eapply run_wrong_type; [exact H2|..].
Qed.

End OnChain.

(** * The network *)

(** What a call of this module can throw: an error of the code or of the network,
    or the one that says the transaction is already on chain. *)
Inductive tx_error :=
  | Thrown (e : js_error)
  | BatchCommittedError (digest : string) (cause : js_error).

(** An entry of [objectChanges]. *)
Record ObjectChange := { oc_type : string; oc_objectType : option string; oc_objectId : string }.

(** One transaction handed to the wallet, and what came back: its digest once it
    is on chain, or why it was refused. *)
Record submission := { sub_sponsored : bool; sub_tx : Transaction; sub_reply : result string }.

(** The answers the environment still has for this task, and the transactions it
    was handed.  [objectChanges] and the address may be missing from a reply. *)
Record Net := {
  signs : list (result string);
  waited : list (result unit);
  blocks : list (result (option (list ObjectChange)));
  objects : list (result (option string));
  stakes_ready : list (result unit);
  stake_coins : list (result string);
  log : list submission
}.

(** A task has returned, thrown, or is waiting for an answer. *)
Inductive outcome (A : Type) :=
  | Waiting
  | Returned (a : A)
  | Raised (e : tx_error).
Arguments Waiting {A}.
Arguments Returned {A} a.
Arguments Raised {A} e.

Definition io (A : Type) : Type := Net -> Net * outcome A.

Definition iret {A} (a : A) : io A := fun n => (n, Returned a).
Definition iraise {A} (e : tx_error) : io A := fun n => (n, Raised e).
Definition ibind {A B} (m : io A) (k : A -> io B) : io B :=
  fun n => match m n with
           | (n, Returned a) => k a n
           | (n, Raised e) => (n, Raised e)
           | (n, Waiting) => (n, Waiting)
           end.
(** [try { m } catch (e) { h }] *)
Definition itry {A} (m : io A) (h : tx_error -> io A) : io A :=
  fun n => match m n with
           | (n, Raised e) => h e n
           | r => r
           end.

Notation "'do~' x <- e ; k" := (ibind e (fun x => k))
  (at level 200, x binder, e at level 100, k at level 200,
   format "'[v' 'do~'  x  <-  e ; '/' k ']'") : js_scope.

Definition answered {A} (r : result A) : outcome A :=
  match r with Ok a => Returned a | Throw e => Raised (Thrown e) end.

Definition set_signs (n : Net) (xs : list (result string)) (l : list submission) : Net :=
  {| signs := xs; waited := waited n; blocks := blocks n; objects := objects n;
     stakes_ready := stakes_ready n; stake_coins := stake_coins n; log := l |}.
Definition set_reads (n : Net) (ws : list (result unit))
    (bs : list (result (option (list ObjectChange)))) (os : list (result (option string)))
    (rs : list (result unit)) (cs : list (result string)) : Net :=
  {| signs := signs n; waited := ws; blocks := bs; objects := os; stakes_ready := rs;
     stake_coins := cs; log := log n |}.

(** [reads.waitForTransaction] *)
Definition waitForTransaction : io unit := fun n =>
  match waited n with
  | [] => (n, Waiting)
  | r :: ws => (set_reads n ws (blocks n) (objects n) (stakes_ready n) (stake_coins n), answered r)
  end.

(** [reads.getTransactionBlock] *)
Definition getTransactionBlock : io (option (list ObjectChange)) := fun n =>
  match blocks n with
  | [] => (n, Waiting)
  | r :: bs => (set_reads n (waited n) bs (objects n) (stakes_ready n) (stake_coins n), answered r)
  end.

(** [reads.getObject] *)
Definition getObject : io (option string) := fun n =>
  match objects n with
  | [] => (n, Waiting)
  | r :: os => (set_reads n (waited n) (blocks n) os (stakes_ready n) (stake_coins n), answered r)
  end.

(** A [SignExec]: the sponsored one or the wallet's own. *)
Definition signExec (sponsored : bool) (tx : Transaction) : io string := fun n =>
  match signs n with
  | [] => (n, Waiting)
  | r :: ss =>
      (set_signs n ss (log n ++ [{| sub_sponsored := sponsored; sub_tx := tx; sub_reply := r |}]),
       answered r)
  end.

Definition ilift {A} (r : result A) : io A := fun n => (n, answered r).

(** * Submitting *)

Definition message (e : js_error) : string :=
  match e with
  | Error m | RangeError m | TypeError m | SyntaxError m => m
  | OutOfFuel => ""
  end.

(** [src frontend/src/onchain/tunnelTx.ts isStaleObjectReject] *)
Definition isStaleObjectReject (e : js_error) : bool :=
  let msg := toLowerCase (message e) in
  includes "unavailable for consumption" msg ||
  includes "not available for consumption" msg ||
  includes "needs to be rebuilt" msg ||
  includes "objectversionunavailable" msg ||
  includes "rejected as invalid by more than 1/3" msg ||
  includes "equivocat" msg ||
  includes "invalid withdraw reservation" msg ||
  includes "available amount in account" msg.

(** [src frontend/src/onchain/tunnelTx.ts:230-242 submitRebuildingOnStale] the loop,
    over the answers that will come; each round builds the same commands again *)
Fixpoint submit_loop (sponsored : bool) (tx : Transaction) (rs : list (result string))
    (l : list submission) : list (result string) * list submission * outcome string :=
  match rs with
  | [] => ([], l, Waiting)
  | r :: rs =>
      let l := l ++ [{| sub_sponsored := sponsored; sub_tx := tx; sub_reply := r |}] in
      match r with
      | Ok d => (rs, l, Returned d)
      | Throw e =>
          if isStaleObjectReject e then submit_loop sponsored tx rs l
          else (rs, l, Raised (Thrown e))
      end
  end.

(** [src frontend/src/onchain/tunnelTx.ts submitRebuildingOnStale] *)
Definition submitRebuildingOnStale (buildTx : result Transaction) (sponsored : bool)
  : io string := fun n =>
  match buildTx with
  | Throw e => if isStaleObjectReject e then (n, Waiting) else (n, Raised (Thrown e))
  | Ok tx =>
      let '(rs, l, o) := submit_loop sponsored tx (signs n) (log n) in
      (set_signs n rs l, o)
  end.

(** [src frontend/src/onchain/tunnelTx.ts findAllTunnelIds] *)
Definition is_new_tunnel (c : ObjectChange) : bool :=
  String.eqb (oc_type c) "created" &&
  match oc_objectType c with Some t => includes "::tunnel::Tunnel" t | None => false end.

(** [src frontend/src/onchain/tunnelTx.ts findAllTunnelIds] *)
Definition findAllTunnelIds (changes : option (list ObjectChange)) : list string :=
  match changes with
  | None => []
  | Some cs => map oc_objectId (List.filter is_new_tunnel cs)
  end.

(** [src frontend/src/onchain/tunnelTx.ts findTunnelId] *)
Definition findTunnelId (changes : option (list ObjectChange)) : option string :=
  match changes with
  | None => None
  | Some cs => option_map oc_objectId (List.find is_new_tunnel cs)
  end.

(** [src frontend/src/onchain/tunnelTx.ts normalizeSuiAddress] *)
Definition normalizeSuiAddress (addr : string) : string :=
  ("0x" ++ padStart0 64 (strip_0x (toLowerCase addr)))%string.

(** [src frontend/src/onchain/tunnelTx.ts readTunnelPartyA] *)
Definition readTunnelPartyA (tunnelId : string) : io string :=
  do~ a <- getObject;
  match a with
  | Some a => iret a
  | None => iraise (Thrown (Error "tunnel: missing party_a.address in content"))
  end.

(** [src frontend/src/onchain/tunnelTx.ts:475-479 openAndFundMany] the loop over the ids *)
Fixpoint correlate (m : gmap string string) (ids : list string) : io (gmap string string) :=
  match ids with
  | [] => iret m
  | i :: ids =>
      do~ a <- readTunnelPartyA i;
      correlate (<[normalizeSuiAddress a := i]> m) ids
  end.

Definition wrap_committed {A} (digest : string) (m : io A) : io A :=
  itry m (fun e => match e with
                   | BatchCommittedError _ _ => iraise e
                   | Thrown e => iraise (BatchCommittedError digest e)
                   end).

Section Tasks.
Context (package : string).

(** [src frontend/src/onchain/tunnelTx.ts openAndFundMany] *)
Definition openAndFundMany (sponsored : bool) (specs : list TunnelOpenManySpec)
    (coinType : option string) (stake : StakeOpts) : io (gmap string string) :=
  do~ digest <- submitRebuildingOnStale (open_many_tx package specs coinType stake) sponsored;
  wrap_committed digest (
    do~ _ <- waitForTransaction;
    do~ txb <- getTransactionBlock;
    let ids := findAllTunnelIds txb in
    if (length ids =? length specs)%nat then correlate ∅ ids
    else iraise (Thrown (Error "openAndFundMany: unexpected number of tunnels"))).

(** [src frontend/src/onchain/tunnelTx.ts depositSeatAMany] *)
Definition depositSeatAMany (sponsored : bool) (specs : list TunnelDepositSeatASpec)
    (coinType : option string) (stake : StakeOpts) : io (gmap string string) :=
  do~ digest <- submitRebuildingOnStale (deposit_many_tx package specs coinType stake) sponsored;
  wrap_committed digest (
    do~ _ <- waitForTransaction;
    iret (fold_left (fun m s =>
      <[normalizeSuiAddress (po_address (td_partyA s)) := td_tunnelId s]> m) specs ∅)).

(** [src frontend/src/onchain/tunnelTx.ts:400-407 openAndFundSelfPlay] how the openers
    of one tunnel find its id *)
Definition read_created : io string :=
  do~ _ <- waitForTransaction;
  do~ txb <- getTransactionBlock;
  match findTunnelId txb with
  | Some i => if String.eqb i "" then iraise (Thrown (Error "could not find created tunnel id"))
              else iret i
  | None => iraise (Thrown (Error "could not find created tunnel id"))
  end.

(** [src frontend/src/onchain/tunnelTx.ts openAndFundSelfPlay] *)
Definition openAndFundSelfPlay (sponsored : bool) (s : TunnelOpenManySpec)
    (coinType : option string) (stake : StakeOpts) : io string :=
  do~ _ <- submitRebuildingOnStale (open_self_play_tx package s coinType stake) sponsored;
  read_created.

(** [src frontend/src/onchain/tunnelTx.ts openAndFundSelfPlayReturnless] *)
Definition openAndFundSelfPlayReturnless (sponsored : bool) (s : TunnelOpenManySpec)
  : io string :=
  do~ _ <- submitRebuildingOnStale (open_returnless_tx package s) sponsored;
  read_created.

(** [src frontend/src/onchain/tunnelTx.ts openAndFundSharedTunnel] *)
Definition openAndFundSharedTunnel (sponsored : bool) (a b : PartyOnchain) (amount : Z)
    (timeoutMs penalty : option Z) (coinType : option string) (stake : StakeOpts) : io string :=
  do~ _ <- submitRebuildingOnStale
    (open_shared_tx package a b amount timeoutMs penalty coinType stake) sponsored;
  read_created.

(** [src frontend/src/onchain/tunnelTx.ts depositStake] *)
Definition depositStake (sponsored : bool) (tunnelId : string) (amount : Z)
    (coinType : option string) (stake : StakeOpts) : io unit :=
  do~ _ <- submitRebuildingOnStale (deposit_stake_tx package tunnelId amount coinType stake)
    sponsored;
  iret tt.

(** [src frontend/src/onchain/tunnelTx.ts closeCooperative] *)
Definition walletClose (sponsored : bool) (tunnelId : string) (s : CoSignedSettlement)
    (coinType : option string) : io string :=
  do~ tx <- ilift (buildCloseFromSettlement package [] tunnelId s coinType);
  signExec sponsored tx.

(** [src frontend/src/onchain/tunnelTx.ts closeCooperativeWithRoot] *)
Definition closeCooperativeWithRoot (sponsored : bool) (tunnelId : string)
    (s : CoSignedSettlementWithRoot) (coinType : option string) : io string :=
  do~ tx <- ilift (buildCloseWithRootFromSettlement package [] tunnelId s coinType);
  signExec sponsored tx.

(** [src frontend/src/onchain/tunnelTx.ts raiseDisputeUnilateral] *)
Definition raiseDisputeUnilateral (sponsored : bool) (tunnelId : string) (u : CoSignedUpdate)
    (role : Party) : io string :=
  do~ tx <- ilift (raise_unilateral_tx package tunnelId u role);
  signExec sponsored tx.

(** [src frontend/src/onchain/tunnelTx.ts forceCloseAfterTimeout] *)
Definition forceCloseAfterTimeout (sponsored : bool) (tunnelId : string) : io string :=
  do~ tx <- ilift (force_close_tx package tunnelId);
  signExec sponsored tx.

End Tasks.

(** * What reaches the chain *)

(** The transactions a task got a digest for. *)
Definition commits (n : Net) : list Transaction :=
  map sub_tx (List.filter (fun s => is_ok (sub_reply s)) (log n)).

(** A task that submits nothing and never says it did. *)
Definition plain {A} (m : io A) : Prop := forall n,
  commits (fst (m n)) = commits n /\
  match snd (m n) with Raised (BatchCommittedError _ _) => False | _ => True end.

(** A task that commits one transaction, of those allowed, or none, and says
    which: none if it throws an ordinary error, one if it returns or throws a
    [BatchCommittedError]. *)
Definition once {A} (P : Transaction -> Prop) (m : io A) : Prop := forall n,
  (commits (fst (m n)) = commits n /\
   match snd (m n) with Waiting | Raised (Thrown _) => True | _ => False end) \/
  (exists tx, P tx /\ commits (fst (m n)) = commits n ++ [tx] /\
   match snd (m n) with Raised (Thrown _) => False | _ => True end).

(** A task that commits at most one, and one if it returns. *)
Definition at_most {A} (P : Transaction -> Prop) (m : io A) : Prop := forall n,
  (commits (fst (m n)) = commits n /\ match snd (m n) with Returned _ => False | _ => True end) \/
  (exists tx, P tx /\ commits (fst (m n)) = commits n ++ [tx]).

Create HintDb netdb.

Lemma plain_ret {A} (a : A) : plain (iret a).
Proof. done. Qed.
Lemma plain_throw {A} e : plain (@iraise A (Thrown e)).
Proof. done. Qed.
Lemma plain_lift {A} (r : result A) : plain (ilift r).
Proof. intros n. by destruct r. Qed.
Lemma plain_bind {A B} (m : io A) (k : A -> io B) :
  plain m -> (forall a, plain (k a)) -> plain (ibind m k).
Proof.
  intros Hm Hk n. unfold ibind. specialize (Hm n). destruct (m n) as [n1 [|a|e]]; cbn in *; [done| |done].
  destruct (Hk a n1) as [H1 H2]. split; [by rewrite H1, (proj1 Hm)|done].
Qed.
Lemma plain_wait : plain waitForTransaction.
Proof. intros n. unfold waitForTransaction. destruct (waited n) as [|[|] ?]; done. Qed.
Lemma plain_block : plain getTransactionBlock.
Proof. intros n. unfold getTransactionBlock. destruct (blocks n) as [|[|] ?]; done. Qed.
Lemma plain_object : plain getObject.
Proof. intros n. unfold getObject. destruct (objects n) as [|[|] ?]; done. Qed.
#[export] Hint Resolve plain_ret plain_throw plain_lift plain_bind plain_wait plain_block
  plain_object : netdb.

Lemma plain_correlate ids : forall m, plain (correlate m ids).
Proof.
  induction ids as [|i ids IH]; intros m; cbn; [auto with netdb|].
  unfold readTunnelPartyA. apply plain_bind; [|auto].
  apply plain_bind; [auto with netdb|]. intros [a|]; auto with netdb.
Qed.

Lemma plain_read_created : plain read_created.
Proof.
  unfold read_created. do 2 (apply plain_bind; [auto with netdb|]; intros ?).
  destruct (findTunnelId _) as [i|]; [destruct (String.eqb i "")|]; auto with netdb.
Qed.
#[export] Hint Resolve plain_correlate plain_read_created : netdb.

Lemma commits_app n xs l s :
  commits (set_signs n xs (l ++ [s])) =
  commits (set_signs n xs l) ++ (if is_ok (sub_reply s) then [sub_tx s] else []).
Proof.
  unfold commits. cbn [log set_signs]. rewrite List.filter_app, map_app. f_equal. cbn.
  by destruct (is_ok _).
Qed.

Lemma submit_loop_once sp tx n rs : forall l,
  let '(rs', l', o) := submit_loop sp tx rs l in
  (commits (set_signs n rs' l') = commits (set_signs n rs l) /\
   match o with Waiting | Raised (Thrown _) => True | _ => False end) \/
  (commits (set_signs n rs' l') = commits (set_signs n rs l) ++ [tx] /\
   match o with Returned _ => True | _ => False end).
Proof.
  induction rs as [|[d|e] rs IH]; intros l; cbn [submit_loop]; [by left| |].
  - right. by rewrite commits_app.
  - destruct (isStaleObjectReject e).
    + specialize (IH (l ++ [{| sub_sponsored := sp; sub_tx := tx; sub_reply := Throw e |}])).
      destruct (submit_loop _ _ _ _) as [[rs' l'] o]. rewrite commits_app in IH. cbn in IH.
      by rewrite app_nil_r in IH.
    + left. rewrite commits_app. cbn. by rewrite app_nil_r.
Qed.

(** The submission of [buildTx]: one transaction of it, or none; and it returns
    exactly when there is one. *)
Lemma submit_once buildTx sp n :
  let (n', o) := submitRebuildingOnStale buildTx sp n in
  (commits n' = commits n /\ match o with Waiting | Raised (Thrown _) => True | _ => False end) \/
  (exists tx, buildTx = Ok tx /\ commits n' = commits n ++ [tx] /\
   match o with Returned _ => True | _ => False end).
Proof.
  unfold submitRebuildingOnStale. destruct buildTx as [tx|e].
  - pose proof (submit_loop_once sp tx n (signs n) (log n)) as H.
    destruct (submit_loop _ _ _ _) as [[rs l] o]. destruct H as [H|[H Ho]]; [by left|right]. eauto.
  - destruct (isStaleObjectReject e); by left.
Qed.

(** A submission and what follows it. *)
Lemma submit_then_plain {A} buildTx sp (k : string -> io A) :
  (forall d, plain (k d)) ->
  at_most (fun tx => buildTx = Ok tx) (do~ d <- submitRebuildingOnStale buildTx sp; k d).
Proof.
  intros Hk n. unfold ibind. pose proof (submit_once buildTx sp n) as H.
  destruct (submitRebuildingOnStale buildTx sp n) as [n1 [|d|e]]; cbn.
  - destruct H as [[-> _]|(tx & _ & _ & [])]. by left.
  - destruct H as [[_ []]|(tx & Htx & E & _)]. right. exists tx. split; [done|].
    destruct (Hk d n1) as [-> _]. done.
  - destruct H as [[-> _]|(tx & _ & _ & [])]. by left.
Qed.

Lemma submit_then_wrapped {A} buildTx sp (k : string -> io A) :
  (forall d, plain (k d)) ->
  once (fun tx => buildTx = Ok tx)
    (do~ d <- submitRebuildingOnStale buildTx sp; wrap_committed d (k d)).
Proof.
  intros Hk n. unfold ibind. pose proof (submit_once buildTx sp n) as H.
  destruct (submitRebuildingOnStale buildTx sp n) as [n1 [|d|e]]; cbn.
  - destruct H as [[-> _]|(tx & _ & _ & [])]. by left.
  - destruct H as [[_ []]|(tx & Htx & E & _)]. right. exists tx. split; [done|].
    unfold wrap_committed, itry. destruct (Hk d n1) as [Hc Ho].
    destruct (k d n1) as [n2 [|a|[e|d' e]]]; cbn in *; rewrite ?Hc; done.
  - destruct H as [[-> Ho]|(tx & _ & _ & [])]. by left.
Qed.

Lemma openAndFundMany_once pkg sp specs ct stake :
  once (fun tx => open_many_tx pkg specs ct stake = Ok tx) (openAndFundMany pkg sp specs ct stake).
Proof.
  apply submit_then_wrapped. intros d.
  do 2 (apply plain_bind; [auto with netdb|]; intros ?).
  cbv zeta. case_match; auto with netdb.
Qed.

Lemma depositSeatAMany_once pkg sp specs ct stake :
  once (fun tx => deposit_many_tx pkg specs ct stake = Ok tx)
    (depositSeatAMany pkg sp specs ct stake).
Proof. apply submit_then_wrapped. intros d. auto with netdb. Qed.

Lemma openAndFundSelfPlay_at_most pkg sp s ct stake :
  at_most (fun tx => open_self_play_tx pkg s ct stake = Ok tx)
    (openAndFundSelfPlay pkg sp s ct stake).
Proof. apply submit_then_plain. auto with netdb. Qed.

Lemma once_impl {A} (P Q : Transaction -> Prop) (m : io A) :
  (forall tx, P tx -> Q tx) -> once P m -> once Q m.
Proof. intros HPQ H n. destruct (H n) as [?|(tx & ? & ?)]; [by left|right; eauto]. Qed.

Lemma at_most_impl {A} (P Q : Transaction -> Prop) (m : io A) :
  (forall tx, P tx -> Q tx) -> at_most P m -> at_most Q m.
Proof. intros HPQ H n. destruct (H n) as [?|(tx & ? & ?)]; [by left|right; eauto]. Qed.

Lemma once_after {A B} P (m : io A) (k : A -> io B) :
  plain m -> (forall a, once P (k a)) -> once P (ibind m k).
Proof.
  intros Hm Hk n. unfold ibind. destruct (Hm n) as [Hc Ho].
  destruct (m n) as [n1 [|a|[e|d e]]]; cbn in *; [by left| |by left|done].
  destruct (Hk a n1) as [[E ?]|(tx & ? & E & ?)]; rewrite E, Hc; [by left|right; eauto].
Qed.

Lemma at_most_after {A B} P (m : io A) (k : A -> io B) :
  plain m -> (forall a, at_most P (k a)) -> at_most P (ibind m k).
Proof.
  intros Hm Hk n. unfold ibind. destruct (Hm n) as [Hc Ho].
  destruct (m n) as [n1 [|a|e]]; cbn in *; [by left| |by left].
  destruct (Hk a n1) as [[E ?]|(tx & ? & E)]; rewrite E, Hc; [by left|right; eauto].
Qed.

(** What is read after a task that commits once does not change it. *)
Lemma once_then {A B} P (m : io A) (k : A -> io B) :
  once P m -> (forall a, plain (k a)) -> at_most P (ibind m k).
Proof.
  intros Hm Hk n. unfold ibind. specialize (Hm n).
  destruct (m n) as [n1 [|a|e]]; cbn in *.
  - destruct Hm as [[? _]|(tx & ? & ? & _)]; [by left|right; eauto].
  - destruct Hm as [[_ []]|(tx & ? & E & _)]. right. exists tx. split; [done|].
    by rewrite (proj1 (Hk a n1)).
  - destruct Hm as [[? _]|(tx & ? & ? & _)]; [by left|right; eauto].
Qed.

(** A second attempt after an ordinary error of the first. *)
Lemma once_retry {A} P (m1 m2 : io A) (msg : js_error) :
  once P m1 -> once P m2 ->
  once P (itry m1 (fun err => match err with
    | BatchCommittedError _ _ => iraise err
    | Thrown _ => itry m2 (fun payErr => match payErr with
                    | BatchCommittedError _ _ => iraise payErr
                    | Thrown _ => iraise (Thrown msg)
                    end)
    end)).
Proof.
  intros H1 H2 n. unfold itry. specialize (H1 n).
  destruct (m1 n) as [n1 [|a|[e|d e]]]; cbn in *; try done.
  destruct H1 as [[E1 _]|(tx & _ & _ & [])]. specialize (H2 n1).
  destruct (m2 n1) as [n2 [|a|[e2|d e2]]]; cbn in *; rewrite E1 in H2; done.
Qed.

(** * Samples *)

Definition sample_ids (i : nat) : Move.addr := [Z.of_nat i].

Lemma sample_ids_inj : Inj (=) (=) sample_ids.
Proof. intros i j H. unfold sample_ids in H. injection H as H. lia. Qed.

Definition sample_decode (s : string) : option bytes :=
  match addressToBytes32 s with Ok b => Some b | Throw _ => None end.

Definition sample_specs : list TunnelOpenManySpec :=
  [{| tm_partyA := {| po_address := "0xA1"; po_publicKey := replicate 32 3 |};
      tm_partyB := {| po_address := "0xB1"; po_publicKey := replicate 32 4 |};
      tm_aAmount := 10; tm_bAmount := 5; tm_timeoutMs := None; tm_penaltyAmount := None |};
   {| tm_partyA := {| po_address := "0xA2"; po_publicKey := replicate 32 5 |};
      tm_partyB := {| po_address := "0xB2"; po_publicKey := replicate 32 6 |};
      tm_aAmount := 7; tm_bAmount := 8; tm_timeoutMs := Some 1000; tm_penaltyAmount := Some 2 |}].

(** The sender's address balance holds 50 of the faucet token. *)
Definition sample_purse : World :=
  {| w_tunnels := ∅; w_coins := ∅; w_gas := 0; w_funds := {[ "0x9::m::M"%string := 50 ]};
     w_sent := []; w_created := 3 |}.

Definition sample_stake (x : Z) : StakeOpts :=
  {| so_stakeFromBalance := Some {| sb_amount := x; sb_coinType := "0x9::m::M" |};
     so_stakeCoinId := None |}.

Lemma open_many_witness :
  exists tx w' t, open_many_tx "0x42" sample_specs (Some "0x9::m::M"%string) (sample_stake 30) = Ok tx /\
    run_tx sample_decode "0x42" sample_ids [] 9 sample_purse tx = Done w' /\
    w_funds w' = {[ "0x9::m::M"%string := 20 ]} /\
    w_tunnels w' !! sample_ids 4 = Some ("0x9::m::M"%string, t) /\
    Move.status t = Move.STATUS_ACTIVE /\ Move.party_a_balance (Move.state t) = 7 /\
    Move.timeout_ms t = 1000.
Proof.
  assert (Forall (fun s => exists a b, spec_ok sample_decode (open_spec s) a b) sample_specs) as Hok.
  { repeat constructor; eexists _, _; constructor; try (vm_compute; reflexivity);
      try (split; vm_compute; repeat constructor; done);
      first [split; [lia|by vm_compute]|by vm_compute|repeat split; by vm_compute]. }
  destruct (open_many sample_decode "0x42" sample_ids ltac:(discriminate) [] 9 sample_specs
    (Some "0x9::m::M"%string) (sample_stake 30) sample_purse _ sample_ids_inj Hok
    (pays_from_balance sample_purse "0x9::m::M" 30 None 50 eq_refl ltac:(lia)))
    as (tx & w' & H1 & H2 & (_ & _ & H3 & _) & H4 & _).
  destruct (H4 1%nat _ eq_refl) as (a & b & t & _ & Hl & []).
  exists tx, w', t. split; [exact H1|]. split; [exact H2|]. split; [exact H3|].
  split; [exact Hl|]. split; [assumption|]. split; assumption.
Defined.

Definition sample_joins : list TunnelDepositSeatASpec :=
  [{| td_tunnelId := "0x0A1"; td_partyA := {| po_address := "0x1"; po_publicKey := [] |};
      td_amount := 12 |}].

(** A tunnel the fleet opened, with seat B funded. *)
Definition half_funded : move Move.Tunnel :=
  let* t := Move.build_tunnel sample_id sample_a sample_b 1000 0 1 in
  Move.deposit_internal t 40 false 2.

Lemma join_many_witness :
  exists c tx w' c', half_funded = Done c /\
    let w := set_tunnel sample_purse sample_id "0x9::m::M" c in
    deposit_many_tx "0x42" sample_joins (Some "0x9::m::M"%string) (sample_stake 12) = Ok tx /\
    run_tx sample_decode "0x42" sample_ids (Move.address sample_a) 9 w tx = Done w' /\
    w_tunnels w' !! sample_id = Some ("0x9::m::M"%string, c') /\
    Move.status c' = Move.STATUS_ACTIVE /\ Move.party_a_balance (Move.state c') = 12 /\
    Move.party_b_balance (Move.state c') = 40.
Proof.
  destruct half_funded as [c|] eqn:E; [|discriminate E]. exists c.
  assert (awaiting (Move.address sample_a) c 12 /\ Move.party_b_deposit c = 40) as [Haw Hb].
  { unfold half_funded in E. destruct (Move.build_tunnel _ _ _ _ _ _) as [t|] eqn:Eb; [|discriminate E].
    cbn [move_bind] in E. destruct (build_tunnel_wf _ _ _ _ _ _ _ ltac:(done) Eb) as (Hw & _).
    destruct (keeps_deposit_internal _ 40 false _ _ Hw ltac:(by vm_compute) E) as (Hw' & _).
    assert (Hf : match half_funded with Done c => (Move.status c, Move.address (Move.party_a c),
      Move.party_a_deposit c, Move.party_b_deposit c) | Abort _ => (9, [], 9, 9) end
      = (Move.STATUS_CREATED, Move.address sample_a, 0, 40)) by (vm_compute; reflexivity).
    unfold half_funded in Hf. rewrite Eb in Hf. cbn [move_bind] in Hf. rewrite E in Hf.
    injection Hf as F1 F2 F3 F4. split; [constructor|]; try done; rewrite ?F4; done. }
  set (w := set_tunnel sample_purse sample_id "0x9::m::M" c).
  assert (w_tunnels w !! sample_id = Some ("0x9::m::M"%string, c)) as Hl by apply lookup_insert_eq.
  destruct (join_many sample_decode "0x42" sample_ids ltac:(discriminate) (Move.address sample_a) 9
    sample_joins (Some "0x9::m::M"%string) (sample_stake 12) w
    (set_purse w (w_coins w) (w_gas w) (<["0x9::m::M"%string := 50 - 12]> (w_funds w))))
    as (tx & w' & H1 & H2 & _ & H4 & _).
  - repeat constructor. exists sample_id, c. split; [reflexivity|]. split; [exact Hl|exact Haw].
  - repeat constructor. intros H. inversion H.
  - apply (pays_from_balance w "0x9::m::M" 12 None 50); [reflexivity|lia].
  - apply Forall_inv in H4 as (tid & c0 & c' & Hd & Hl0 & Hl1 & [_ Hst _ Ha Hb']).
    assert (sample_id = tid) as <- by (vm_compute in Hd; injection Hd as <-; reflexivity).
    rewrite Hl in Hl0. injection Hl0 as <-.
    exists tx, w', c'. cbv zeta. rewrite Hb in Hb'. repeat split; assumption.
Defined.
