(* ===== verification/TunnelOpenBatcher.v ===== *)
(** The coalescing opener, [frontend/src/onchain/tunnelOpenBatcher.ts]: requests
    of one tick are grouped, cut into transactions, and each is answered; a batch
    that fails before it is on chain falls back to one transaction per request.

    The groups, the chunks and the fallbacks run side by side ([Promise.all]); each
    is a task with its own stream of answers, so every interleaving is covered. *)

From stdpp Require Import gmap strings.
From S2P Require Import Prelude.
From S2P Require Import TxBuilders.
From S2P Require Import TunnelTx.

(** [src frontend/src/onchain/tunnelOpenBatcher.ts:30-30 TunnelOpenRequest] *)
Inductive request_mode := ModeOpen | ModeDeposit.

(** [src frontend/src/onchain/tunnelOpenBatcher.ts TunnelOpenRequest] *)
Record TunnelOpenRequest := {
  rq_partyA : PartyOnchain;
  rq_partyB : PartyOnchain;
  rq_aAmount : Z;
  rq_bAmount : Z;
  rq_mode : option request_mode;
  rq_tunnelId : option string;
  rq_coinType : option string;
  rq_usesAddressBalance : bool;
  rq_timeoutMs : option Z;
  rq_penaltyAmount : option Z
}.

(** [src frontend/src/onchain/tunnelOpenBatcher.ts FundingMode] *)
Inductive FundingMode := FundBalance | FundMtpsCoin | FundSui.

(** [src frontend/src/onchain/tunnelOpenBatcher.ts Pending]: the two callbacks are
    the promise numbered [p_id]. *)
Record Pending := { p_id : nat; p_req : TunnelOpenRequest }.

#[export] Instance request_mode_eq_dec : EqDecision request_mode.
Proof. solve_decision. Defined.
#[export] Instance FundingMode_eq_dec : EqDecision FundingMode.
Proof. solve_decision. Defined.

(** [src frontend/src/onchain/tunnelOpenBatcher.ts DEFAULT_MAX_BATCH] *)
Definition DEFAULT_MAX_BATCH : nat := 30.

Definition wants_deposit (r : TunnelOpenRequest) : bool := bool_decide (rq_mode r = Some ModeDeposit).

(** [src frontend/src/onchain/tunnelOpenBatcher.ts stakeTotalOf] *)
Definition stakeTotalOf (r : TunnelOpenRequest) : Z :=
  if wants_deposit r then rq_aAmount r else rq_aAmount r + rq_bAmount r.

(** [src frontend/src/onchain/tunnelOpenBatcher.ts specOf] *)
Definition specOf (r : TunnelOpenRequest) : TunnelOpenManySpec :=
  {| tm_partyA := rq_partyA r; tm_partyB := rq_partyB r; tm_aAmount := rq_aAmount r;
     tm_bAmount := rq_bAmount r; tm_timeoutMs := rq_timeoutMs r;
     tm_penaltyAmount := rq_penaltyAmount r |}.

(** [src frontend/src/onchain/tunnelOpenBatcher.ts depositSpecOf] *)
Definition depositSpecOf (r : TunnelOpenRequest) : result TunnelDepositSeatASpec :=
  match rq_tunnelId r with
  | Some i =>
      if String.eqb i "" then Throw (Error "deposit request missing tunnelId (arena join, ADR-0025)")
      else Ok {| td_tunnelId := i; td_partyA := rq_partyA r; td_amount := rq_aAmount r |}
  | None => Throw (Error "deposit request missing tunnelId (arena join, ADR-0025)")
  end.

(** [src frontend/src/onchain/tunnelOpenBatcher.ts chunk]: a size of zero would not
    return. *)
Fixpoint chunk_loop {T} (fuel size : nat) (items : list T) : list (list T) :=
  match fuel, items with
  | O, _ | _, [] => []
  | S fuel, _ => take size items :: chunk_loop fuel size (drop size items)
  end.

(** [src frontend/src/onchain/tunnelOpenBatcher.ts chunk] *)
Definition chunk {T} (items : list T) (size : nat) : list (list T) :=
  chunk_loop (length items) size items.

(** The three sources a batch can pay from. *)
Definition from_balance (amount : Z) (ty : string) : StakeOpts :=
  {| so_stakeFromBalance := Some {| sb_amount := amount; sb_coinType := ty |};
     so_stakeCoinId := None |}.
Definition from_coin (c : string) : StakeOpts :=
  {| so_stakeFromBalance := None; so_stakeCoinId := Some c |}.
Definition from_gas : StakeOpts := {| so_stakeFromBalance := None; so_stakeCoinId := None |}.

(** [deps.ensureStakeBalance] *)
Definition ensureStakeBalance (need : Z) : io unit := fun n =>
  match stakes_ready n with
  | [] => (n, Waiting)
  | r :: rs => (set_reads n (waited n) (blocks n) (objects n) rs (stake_coins n), answered r)
  end.

(** [deps.prepareStake] and [deps.selectStakeCoin]: the id of a coin. *)
Definition coin_for (need : Z) : io string := fun n =>
  match stake_coins n with
  | [] => (n, Waiting)
  | r :: cs => (set_reads n (waited n) (blocks n) (objects n) (stakes_ready n) cs, answered r)
  end.

(** [src frontend/src/onchain/sponsor.ts:251-254 OwnedCoin] *)
Record OwnedCoin := { coinObjectId : string; oc_balance : Z }.

(** [src frontend/src/onchain/sponsor.ts selectStakeCoin] over the coins it was given *)
Definition selectStakeCoin (coins : list OwnedCoin) (minAmount : Z) : result string :=
  match List.find (fun c => minAmount <=? oc_balance c) coins with
  | Some c => Ok (coinObjectId c)
  | None => Throw (Error "no SUI coin large enough to fund the stake")
  end.

(** [src frontend/src/onchain/sponsor.ts withSponsorFallback] *)
Definition withSponsorFallback {T} (sponsored senderPays : io T) : io T :=
  itry sponsored (fun _ =>
    itry senderPays (fun _ => iraise (Thrown (Error
      "sponsored path failed; sender-pays fallback failed")))).

Section Batcher.
Context (package : string).
(** [isMtpsConfigured] of [frontend/src/onchain/mtps.ts] and the coin, from the
    environment; [isMtpsAddressBalance] is the same flag. *)
Context (isMtpsConfigured : bool) (MTPS_COIN_TYPE : string).

(** [src frontend/src/onchain/tunnelOpenBatcher.ts fundingModeOf] *)
Definition fundingModeOf (r : TunnelOpenRequest) : FundingMode :=
  if negb isMtpsConfigured then FundSui
  else if rq_usesAddressBalance r && isMtpsConfigured then FundBalance
  else FundMtpsCoin.

(** [src frontend/src/onchain/tunnelOpenBatcher.ts coinTypeOf]: an empty type is none. *)
Definition coinTypeOf (r : TunnelOpenRequest) : option string :=
  match rq_coinType r with
  | Some c => if String.eqb c "" then (if isMtpsConfigured then Some MTPS_COIN_TYPE else None)
              else Some c
  | None => if isMtpsConfigured then Some MTPS_COIN_TYPE else None
  end.

Definition mode_name (r : TunnelOpenRequest) : string :=
  match rq_mode r with Some ModeDeposit => "deposit" | _ => "open" end.
Definition funding_name (m : FundingMode) : string :=
  match m with FundBalance => "balance" | FundMtpsCoin => "mtps-coin" | FundSui => "sui" end.

(** [src frontend/src/onchain/tunnelOpenBatcher.ts:151-151 TunnelOpenBatcher.flush] *)
Definition group_key (r : TunnelOpenRequest) : string :=
  (mode_name r ++ ":" ++ funding_name (fundingModeOf r) ++ ":" ++
   default "SUI" (coinTypeOf r))%string.

(** [groups.get(key) ?? groups.set(key, [])] and [push]; a [Map] keeps its order. *)
Fixpoint add_to_group (p : Pending) (gs : list (string * list Pending))
  : list (string * list Pending) :=
  match gs with
  | [] => [(group_key (p_req p), [p])]
  | (k, ps) :: gs =>
      if String.eqb k (group_key (p_req p)) then (k, ps ++ [p]) :: gs
      else (k, ps) :: add_to_group p gs
  end.

(** [src frontend/src/onchain/tunnelOpenBatcher.ts:147-153 TunnelOpenBatcher.flush] *)
Definition group_requests (batch : list Pending) : list (string * list Pending) :=
  fold_left (fun gs p => add_to_group p gs) batch [].

(** [src frontend/src/onchain/tunnelOpenBatcher.ts TunnelOpenBatcher.openChunk] *)
Definition openChunk (mode : FundingMode) (coinType : option string)
    (specs : list TunnelOpenManySpec) (total : Z) : io (gmap string string) :=
  match mode with
  | FundBalance =>
      openAndFundMany package true specs coinType
        (from_balance total (default MTPS_COIN_TYPE coinType))
  | FundMtpsCoin =>
      do~ c <- coin_for total;
      openAndFundMany package true specs coinType (from_coin c)
  | FundSui =>
      itry (do~ c <- coin_for total;
            openAndFundMany package true specs coinType (from_coin c))
        (fun err => match err with
          | BatchCommittedError _ _ => iraise err
          | Thrown _ =>
              itry (openAndFundMany package false specs coinType from_gas)
                (fun payErr => match payErr with
                  | BatchCommittedError _ _ => iraise payErr
                  | Thrown _ => iraise (Thrown (Error
                      "batched open/fund: sponsored path failed; sender-pays fallback failed"))
                  end)
          end)
  end.

(** [src frontend/src/onchain/tunnelOpenBatcher.ts TunnelOpenBatcher.depositChunk] *)
Definition depositChunk (mode : FundingMode) (coinType : option string)
    (specs : list TunnelDepositSeatASpec) (total : Z) : io (gmap string string) :=
  match mode with
  | FundBalance =>
      depositSeatAMany package true specs coinType
        (from_balance total (default MTPS_COIN_TYPE coinType))
  | FundMtpsCoin =>
      do~ c <- coin_for total;
      depositSeatAMany package true specs coinType (from_coin c)
  | FundSui =>
      itry (do~ c <- coin_for total;
            depositSeatAMany package true specs coinType (from_coin c))
        (fun err => match err with
          | BatchCommittedError _ _ => iraise err
          | Thrown _ =>
              itry (depositSeatAMany package false specs coinType from_gas)
                (fun payErr => match payErr with
                  | BatchCommittedError _ _ => iraise payErr
                  | Thrown _ => iraise (Thrown (Error
                      "arena batched deposit: sponsored path failed; sender-pays fallback failed"))
                  end)
          end)
  end.

(** [src frontend/src/onchain/tunnelOpenBatcher.ts TunnelOpenBatcher.depositSingle] *)
Definition depositSingle (mode : FundingMode) (coinType : option string)
    (r : TunnelOpenRequest) : io string :=
  do~ spec <- ilift (depositSpecOf r);
  do~ m <- depositChunk mode coinType [spec] (rq_aAmount r);
  match m !! normalizeSuiAddress (po_address (rq_partyA r)) with
  | Some i => if String.eqb i "" then iraise (Thrown (Error "deposit did not resolve tunnel"))
              else iret i
  | None => iraise (Thrown (Error "deposit did not resolve tunnel"))
  end.

(** The spec [openSingle] passes on: the request's timeout and penalty are not in it. *)
Definition single_spec (r : TunnelOpenRequest) : TunnelOpenManySpec :=
  {| tm_partyA := rq_partyA r; tm_partyB := rq_partyB r; tm_aAmount := rq_aAmount r;
     tm_bAmount := rq_bAmount r; tm_timeoutMs := None; tm_penaltyAmount := None |}.

(** [src frontend/src/onchain/tunnelOpenBatcher.ts TunnelOpenBatcher.openSingle] *)
Definition openSingle (mode : FundingMode) (coinType : option string)
    (r : TunnelOpenRequest) : io string :=
  let total := rq_aAmount r + rq_bAmount r in
  match mode with
  | FundBalance =>
      openAndFundSelfPlay package true (single_spec r) coinType
        (from_balance total (default MTPS_COIN_TYPE coinType))
  | FundMtpsCoin =>
      do~ c <- coin_for total;
      openAndFundSelfPlay package true (single_spec r) coinType (from_coin c)
  | FundSui =>
      withSponsorFallback
        (do~ c <- coin_for total;
         openAndFundSelfPlay package true (single_spec r) None (from_coin c))
        (openAndFundSelfPlay package false (single_spec r) None from_gas)
  end.

(** What became of a promise, and the task that answered it: the batch of its
    chunk, or a fallback of its own with the network it ran on. *)
Record settled := {
  st_pending : Pending;
  st_outcome : outcome string;
  st_single : option Net
}.

Definition settle_all (ps : list Pending) (f : Pending -> outcome string) : list settled :=
  map (fun p => {| st_pending := p; st_outcome := f p; st_single := None |}) ps.

(** [src frontend/src/onchain/tunnelOpenBatcher.ts:213-228 TunnelOpenBatcher.flushChunk]
    the id of one request, from the map of its chunk *)
Definition chunk_answer (deposit : bool) (m : gmap string string) (p : Pending)
  : outcome string :=
  match (if deposit then rq_tunnelId (p_req p)
         else m !! normalizeSuiAddress (po_address (rq_partyA (p_req p)))) with
  | Some i => if String.eqb i "" then Raised (Thrown (Error "no tunnel matched party-A"))
              else Returned i
  | None => Raised (Thrown (Error "no tunnel matched party-A"))
  end.

(** [src frontend/src/onchain/tunnelOpenBatcher.ts:192-212 TunnelOpenBatcher.flushChunk]
    the batch of a chunk *)
Definition chunk_batch (deposit : bool) (mode : FundingMode) (coinType : option string)
    (ps : list Pending) : io (gmap string string) :=
  let total := fold_left (fun s p => s + stakeTotalOf (p_req p)) ps 0 in
  if deposit then
    do~ specs <- ilift (rmap (fun p => depositSpecOf (p_req p)) ps);
    depositChunk mode coinType specs total
  else openChunk mode coinType (map (fun p => specOf (p_req p)) ps) total.

(** [src frontend/src/onchain/tunnelOpenBatcher.ts:246-248 TunnelOpenBatcher.flushChunk]
    the fallback of one request *)
Definition chunk_single (deposit : bool) (mode : FundingMode) (coinType : option string)
    (r : TunnelOpenRequest) : io string :=
  if deposit then depositSingle mode coinType r else openSingle mode coinType r.

(** [src frontend/src/onchain/tunnelOpenBatcher.ts TunnelOpenBatcher.flushChunk]:
    [batchNet] answers the batch, [nets i] the fallback of request [i]. *)
Definition flushChunk (mode : FundingMode) (coinType : option string) (ps : list Pending)
    (batchNet : Net) (nets : nat -> Net) : Net * list settled :=
  let deposit := match ps with p :: _ => wants_deposit (p_req p) | [] => false end in
  match chunk_batch deposit mode coinType ps batchNet with
  | (n, Waiting) => (n, settle_all ps (fun _ => Waiting))
  | (n, Returned m) => (n, settle_all ps (chunk_answer deposit m))
  | (n, Raised (BatchCommittedError d e)) =>
      (n, settle_all ps (fun _ => Raised (BatchCommittedError d e)))
  | (n, Raised (Thrown _)) =>
      (n, map (fun p =>
            let (n, o) := chunk_single deposit mode coinType (p_req p) (nets (p_id p)) in
            {| st_pending := p; st_outcome := o; st_single := Some n |}) ps)
  end.

(** [src frontend/src/onchain/tunnelOpenBatcher.ts TunnelOpenBatcher.flushGroup] *)
Definition flushGroup (maxBatch : nat) (group : list Pending) (groupNet : Net)
    (batchNets : nat -> Net) (nets : nat -> Net) : list settled :=
  match group with
  | [] => []
  | p0 :: _ =>
      let mode := fundingModeOf (p_req p0) in
      let coinType := coinTypeOf (p_req p0) in
      let groupTotal := fold_left (fun s p => s + stakeTotalOf (p_req p)) group 0 in
      let run := concat (imap (fun i c => snd (flushChunk mode coinType c (batchNets i) nets))
                           (chunk group maxBatch)) in
      match mode with
      | FundBalance =>
          match snd (ensureStakeBalance groupTotal groupNet) with
          | Waiting => settle_all group (fun _ => Waiting)
          | Raised e => settle_all group (fun _ => Raised e)
          | Returned _ => run
          end
      | _ => run
      end
  end.

(** [src frontend/src/onchain/tunnelOpenBatcher.ts TunnelOpenBatcher.flush] with the
    wallet connected or not *)
Definition flush (maxBatch : nat) (connected : bool) (batch : list Pending)
    (groupNets : nat -> Net) (batchNets : nat -> nat -> Net) (nets : nat -> Net)
  : list settled :=
  if negb connected then
    settle_all batch (fun _ => Raised (Thrown (Error
      "no wallet connected — cannot open tunnels")))
  else
    concat (imap (fun g gr => flushGroup maxBatch (snd gr) (groupNets g) (batchNets g) nets)
      (group_requests batch)).

(** [src frontend/src/onchain/tunnelOpenBatcher.ts:104-115 TunnelOpenBatcher] *)
Record TunnelOpenBatcher := { queue : list Pending; timer : bool; issued : nat }.

Definition new_batcher : TunnelOpenBatcher := {| queue := []; timer := false; issued := 0 |}.

(** [src frontend/src/onchain/tunnelOpenBatcher.ts:118-131 TunnelOpenBatcher.request]
    with [scheduleFlush], which arms the timer unless it is *)
Definition request (b : TunnelOpenBatcher) (r : TunnelOpenRequest) : TunnelOpenBatcher :=
  {| queue := queue b ++ [{| p_id := issued b; p_req := r |}]; timer := true;
     issued := S (issued b) |}.

(** [src frontend/src/onchain/tunnelOpenBatcher.ts:127-135 TunnelOpenBatcher.flush] the
    timer fires: the queue is taken *)
Definition on_timer (b : TunnelOpenBatcher) : TunnelOpenBatcher * list Pending :=
  if timer b then ({| queue := []; timer := false; issued := issued b |}, queue b) else (b, []).

(** * Staked at most once *)

(** A transaction that stakes these requests, and only these. *)
Definition opens (coinType : option string) (specs : list TunnelOpenManySpec)
    (tx : Transaction) : Prop :=
  exists stake, open_many_tx package specs coinType stake = Ok tx.
Definition deposits (coinType : option string) (specs : list TunnelDepositSeatASpec)
    (tx : Transaction) : Prop :=
  exists stake, deposit_many_tx package specs coinType stake = Ok tx.

Lemma plain_coin_for x : plain (coin_for x).
Proof. intros n. unfold coin_for. destruct (stake_coins n) as [|[|] ?]; done. Qed.
#[local] Hint Resolve plain_coin_for : netdb.

Lemma openChunk_once mode ct specs total : once (opens ct specs) (openChunk mode ct specs total).
Proof.
  assert (forall sp stake, once (opens ct specs) (openAndFundMany package sp specs ct stake)) as H.
  { intros sp stake. eapply once_impl; [|apply openAndFundMany_once]. unfold opens. eauto. }
  destruct mode; cbn [openChunk].
  - apply H.
  - apply once_after; [auto with netdb|]. intros c. apply H.
  - apply once_retry; [|apply H]. apply once_after; [auto with netdb|]. intros c. apply H.
Qed.

Lemma depositChunk_once mode ct specs total :
  once (deposits ct specs) (depositChunk mode ct specs total).
Proof.
  assert (forall sp stake, once (deposits ct specs) (depositSeatAMany package sp specs ct stake)) as H.
  { intros sp stake. eapply once_impl; [|apply depositSeatAMany_once]. unfold deposits. eauto. }
  destruct mode; cbn [depositChunk].
  - apply H.
  - apply once_after; [auto with netdb|]. intros c. apply H.
  - apply once_retry; [|apply H]. apply once_after; [auto with netdb|]. intros c. apply H.
Qed.

(** What stakes a chunk as a whole, and one request alone. *)
Definition stakes_chunk (deposit : bool) (ct : option string) (ps : list Pending)
    (tx : Transaction) : Prop :=
  if deposit then exists specs, rmap (fun p => depositSpecOf (p_req p)) ps = Ok specs /\
    deposits ct specs tx
  else opens ct (map (fun p => specOf (p_req p)) ps) tx.
Definition stakes_one (deposit : bool) (ct : option string) (r : TunnelOpenRequest)
    (tx : Transaction) : Prop :=
  if deposit then exists spec, depositSpecOf r = Ok spec /\ deposits ct [spec] tx
  else opens ct [single_spec r] tx.

Lemma chunk_batch_once deposit mode ct ps :
  once (stakes_chunk deposit ct ps) (chunk_batch deposit mode ct ps).
Proof.
  unfold chunk_batch, stakes_chunk. destruct deposit; [|apply openChunk_once].
  destruct (rmap _ ps) as [specs|e]; [|intros n; by left].
  apply (once_impl (deposits ct specs)); [eauto|apply depositChunk_once].
Qed.

Lemma chunk_single_at_most deposit mode ct r :
  deposit = true \/ mode <> FundSui ->
  at_most (stakes_one deposit ct r) (chunk_single deposit mode ct r).
Proof.
  intros Hsafe. unfold chunk_single, stakes_one. destruct deposit.
  - unfold depositSingle. destruct (depositSpecOf r) as [spec|e]; [|intros n; by left].
    apply (at_most_impl (deposits ct [spec])); [eauto|].
    assert (forall k, (forall m, plain (k m)) -> at_most (deposits ct [spec])
      (do~ m <- depositChunk mode ct [spec] (rq_aAmount r); k m : io string)) as H
      by (intros k; apply once_then, depositChunk_once).
    intros n. apply H. intros m. destruct (m !! _) as [i|]; [destruct (String.eqb i "")|];
      auto with netdb.
  - assert (forall sp stake, at_most (opens ct [single_spec r])
      (openAndFundSelfPlay package sp (single_spec r) ct stake)) as H.
    { intros sp stake. eapply at_most_impl; [|apply openAndFundSelfPlay_at_most].
      intros tx Htx. by exists stake. }
    destruct mode; cbn [openSingle]; [apply H| |by destruct Hsafe].
    apply at_most_after; [auto with netdb|]. intros c. apply H.
Qed.

(** C14: a request is staked at most once.  In a chunk that deposits, or that is
    funded from the address balance or a faucet coin, either the one transaction
    of the whole chunk is on chain and no other was sent, or it is not, and each
    request has had at most one transaction of its own; a request is answered
    with an id only if a transaction that stakes it is on chain.  So it is for
    every sequence of refusals, failed reads and answers that never come. *)
Theorem chunk_stakes_once mode ct ps batchNet nets :
  (exists p0 ps', ps = p0 :: ps' /\ (wants_deposit (p_req p0) = true \/ mode <> FundSui)) ->
  commits batchNet = [] -> (forall i, commits (nets i) = []) ->
  let deposit := match ps with p :: _ => wants_deposit (p_req p) | [] => false end in
  let (n, sts) := flushChunk mode ct ps batchNet nets in
  map st_pending sts = ps /\
  ((exists tx, commits n = [tx] /\ stakes_chunk deposit ct ps tx /\
      Forall (fun st => st_single st = None) sts) \/
   (commits n = [] /\
      Forall (fun st => match st_single st with
        | None => st_outcome st = Waiting
        | Some n1 =>
            (commits n1 = [] /\ forall i, st_outcome st <> Returned i) \/
            (exists tx, commits n1 = [tx] /\ stakes_one deposit ct (p_req (st_pending st)) tx)
        end) sts)).
Proof.
  intros (p0 & ps' & Eps & Hsafe) Hb Hn. unfold flushChunk. cbv zeta.
  assert (match ps with p :: _ => wants_deposit (p_req p) | [] => false end
    = wants_deposit (p_req p0)) as -> by (by rewrite Eps). clear Eps.
  set (deposit := wants_deposit (p_req p0)) in *. pose proof (chunk_batch_once deposit mode ct ps batchNet) as H. rewrite Hb in H.
  assert (forall f, map st_pending (settle_all ps f) = ps) as Hall.
  { intros f. unfold settle_all. rewrite map_map. apply map_id. }
  assert (forall f, Forall (fun st => st_single st = None) (settle_all ps f)) as Hnone.
  { intros f. by apply Forall_map, Forall_true. }
  destruct (chunk_batch deposit mode ct ps batchNet) as [n [|m|[e|d e]]]; cbn in H.
  - split; [done|]. destruct H as [[E _]|(tx & Htx & E & _)].
    + right. split; [done|]. by apply Forall_map, Forall_true.
    + left. exists tx. done.
  - split; [done|]. destruct H as [[_ []]|(tx & Htx & E & _)]. left. exists tx. done.
  - destruct H as [[E _]|(tx & _ & _ & [])]. split.
    { rewrite map_map. rewrite <- (map_id ps) at 2. apply map_ext. intros p.
      by destruct (chunk_single _ _ _ _ _). }
    right. split; [done|]. apply Forall_map, Forall_true. intros p.
    pose proof (chunk_single_at_most deposit mode ct (p_req p) Hsafe (nets (p_id p))) as Hs.
    destruct (chunk_single _ _ _ _ _) as [n1 o]. cbn in *. rewrite Hn in Hs.
    destruct Hs as [[E1 Ho]|(tx & Htx & E1)]; [left|right; eauto]. split; [done|].
    intros i ->. done.
  - split; [done|]. destruct H as [[_ []]|(tx & Htx & E & _)]. left. exists tx. done.
Qed.

(** * Every request is answered once *)

Lemma settle_all_pending ps f : map st_pending (settle_all ps f) = ps.
Proof. unfold settle_all. rewrite map_map. apply map_id. Qed.

Lemma flushChunk_pending mode ct ps batchNet nets :
  map st_pending (snd (flushChunk mode ct ps batchNet nets)) = ps.
Proof.
  unfold flushChunk. cbv zeta.
  destruct (chunk_batch _ _ _ _ _) as [n [|m|[e|d e]]]; cbn [snd]; try apply settle_all_pending.
  rewrite map_map. rewrite <- (map_id ps) at 2. apply map_ext. intros p.
  by destruct (chunk_single _ _ _ _ _).
Qed.

Lemma chunk_loop_concat {T} size fuel : forall items : list T,
  (0 < size)%nat -> (length items <= fuel)%nat -> concat (chunk_loop fuel size items) = items.
Proof.
  induction fuel as [|fuel IH]; intros [|x items] Hs Hl; cbn [length] in Hl; try done; [lia|].
  cbn [chunk_loop]. cbn [concat]. rewrite IH by (done || rewrite length_drop; cbn; lia).
  apply take_drop.
Qed.

(** The chunks are a partition, none longer than the bound and none empty. *)
Lemma chunk_parts {T} size (items : list T) :
  (0 < size)%nat -> concat (chunk items size) = items /\
  Forall (fun c => (0 < length c <= size)%nat) (chunk items size).
Proof.
  intros Hs. split; [by apply chunk_loop_concat|]. unfold chunk.
  generalize (length items) as fuel. intros fuel. revert items.
  induction fuel as [|fuel IH]; intros [|x items]; cbn [chunk_loop]; try constructor.
  - rewrite length_take. cbn. lia.
  - apply IH.
Qed.

Lemma concat_imap_pending {T} (f : nat -> list T -> list settled) (pend : list T -> list Pending)
    (css : list (list T)) :
  (forall i c, map st_pending (f i c) = pend c) ->
  map st_pending (concat (imap f css)) = concat (map pend css).
Proof.
  intros H. rewrite concat_map. f_equal. revert f H.
  induction css as [|c css IH]; intros f H; [done|]. cbn.
  rewrite H. f_equal. apply (IH (f ∘ S)). intros i c'. apply H.
Qed.

Lemma flushGroup_pending maxBatch group groupNet batchNets nets :
  (0 < maxBatch)%nat -> map st_pending (flushGroup maxBatch group groupNet batchNets nets) = group.
Proof.
  intros Hm. destruct group as [|p0 group]; [done|]. unfold flushGroup. cbv zeta.
  assert (forall mode ct, map st_pending (concat (imap (fun i c =>
    snd (flushChunk mode ct c (batchNets i) nets)) (chunk (p0 :: group) maxBatch))) = p0 :: group) as H.
  { intros mode ct. rewrite (concat_imap_pending _ id) by (intros; apply flushChunk_pending).
    rewrite map_id. by apply chunk_parts. }
  destruct (fundingModeOf _); [|apply H..].
  destruct (snd _); try apply settle_all_pending. apply H.
Qed.

Lemma add_to_group_perm p gs :
  Permutation (concat (map snd (add_to_group p gs))) (p :: concat (map snd gs)).
Proof.
  induction gs as [|[k ps] gs IH]; [done|]. cbn [add_to_group].
  destruct (String.eqb k _); cbn [map concat snd].
  - rewrite <- app_assoc. cbn. symmetry. apply Permutation_middle.
  - rewrite IH. symmetry. apply Permutation_middle.
Qed.

Lemma group_requests_perm batch : Permutation (concat (map snd (group_requests batch))) batch.
Proof.
  unfold group_requests.
  assert (forall gs, Permutation (concat (map snd (fold_left (fun gs p => add_to_group p gs) batch gs)))
    (batch ++ concat (map snd gs))) as H.
  { induction batch as [|p batch IH]; intros gs; [done|]. cbn [fold_left].
    rewrite IH, add_to_group_perm. cbn. symmetry. apply Permutation_middle. }
  rewrite H. by rewrite app_nil_r.
Qed.

Lemma flush_pending maxBatch connected batch groupNets batchNets nets :
  (0 < maxBatch)%nat ->
  Permutation (map st_pending (flush maxBatch connected batch groupNets batchNets nets)) batch.
Proof.
  intros Hm. unfold flush. destruct (negb connected); [by rewrite settle_all_pending|].
  set (gs := group_requests batch).
  assert (map st_pending (concat (imap (fun g gr =>
    flushGroup maxBatch gr.2 (groupNets g) (batchNets g) nets) gs)) = concat (map snd gs)) as ->.
  { rewrite concat_map. f_equal. generalize groupNets batchNets.
    induction gs as [|[k gr] gs IH]; intros gN bN; [done|]. cbn.
    rewrite flushGroup_pending by done. f_equal. apply (IH (gN ∘ S) (bN ∘ S)). }
  apply group_requests_perm.
Qed.

(** All members of a group are funded the same way. *)
Definition alike (p q : Pending) : Prop :=
  wants_deposit (p_req p) = wants_deposit (p_req q) /\
  fundingModeOf (p_req p) = fundingModeOf (p_req q) /\
  default "SUI"%string (coinTypeOf (p_req p)) = default "SUI"%string (coinTypeOf (p_req q)).

Lemma group_key_inj p q : group_key (p_req p) = group_key (p_req q) -> alike p q.
Proof.
  unfold group_key, alike, mode_name, wants_deposit.
  generalize (default "SUI"%string (coinTypeOf (p_req p))).
  generalize (default "SUI"%string (coinTypeOf (p_req q))). intros cq cp.
  destruct (rq_mode (p_req p)) as [[]|], (rq_mode (p_req q)) as [[]|],
    (fundingModeOf (p_req p)), (fundingModeOf (p_req q)); intros H;
    cbv [String.append funding_name] in H;
    first [discriminate H|injection H as ->; split_and!; done].
Qed.

Lemma add_to_group_keys p gs :
  Forall (fun g => Forall (fun q => group_key (p_req q) = fst g) (snd g)) gs ->
  Forall (fun g => Forall (fun q => group_key (p_req q) = fst g) (snd g)) (add_to_group p gs).
Proof.
  induction 1 as [|[k ps] gs Hg Hgs IH]; cbn [add_to_group]; [by repeat constructor|].
  destruct (String.eqb_spec k (group_key (p_req p))) as [E|_]; [|by constructor].
  constructor; [|done]. cbn in *. apply Forall_app. split; [done|]. by repeat constructor.
Qed.

Lemma group_requests_alike batch k gr p q :
  In (k, gr) (group_requests batch) -> In p gr -> In q gr -> alike p q.
Proof.
  intros Hg Hp Hq. apply group_key_inj.
  assert (Forall (fun g => Forall (fun q => group_key (p_req q) = fst g) (snd g))
    (group_requests batch)) as H.
  { unfold group_requests. generalize (Forall_nil_2
      (fun g : string * list Pending => Forall (fun q => group_key (p_req q) = fst g) (snd g))).
    generalize (@nil (string * list Pending)). clear Hg.
    induction batch as [|p' batch IH]; intros gs Hgs; [done|]. by apply IH, add_to_group_keys. }
  rewrite Forall_forall in H. specialize (H _ (proj2 (list_elem_of_In _ _) Hg)). cbn in H.
  rewrite Forall_forall in H.
  rewrite (H p), (H q) by (by apply list_elem_of_In). done.
Qed.

(** What can happen to a batcher: a game asks, or the timer fires. *)
Inductive batcher_event := Ask (r : TunnelOpenRequest) | Tick.

Fixpoint life (b : TunnelOpenBatcher) (evs : list batcher_event)
  : TunnelOpenBatcher * list (list Pending) :=
  match evs with
  | [] => (b, [])
  | Ask r :: evs => life (request b r) evs
  | Tick :: evs =>
      let (b, batch) := on_timer b in
      let (b', batches) := life b evs in (b', batch :: batches)
  end.

Lemma life_partition evs : forall b,
  (timer b = false <-> queue b = []) ->
  let (b', batches) := life b evs in
  (timer b' = false <-> queue b' = []) /\
  exists asked, concat batches ++ queue b' = queue b ++ asked /\
    map p_id asked = seq (issued b) (issued b' - issued b) /\ (issued b <= issued b')%nat.
Proof.
  induction evs as [|[r|] evs IH]; intros b Hb; cbn [life].
  - split; [done|]. exists []. rewrite app_nil_r, Nat.sub_diag.
    repeat split; lia.
  - specialize (IH (request b r)). destruct (life (request b r) evs) as [b' batches].
    destruct IH as (Ht & asked & Eq & Ei & Hle).
    { cbn. split; [done|]. intros E. by destruct (queue b). }
    split; [done|]. cbn in *.
    exists ({| p_id := issued b; p_req := r |} :: asked). split; [by rewrite Eq, <- app_assoc|].
    split; [|lia]. cbn [map p_id]. rewrite Ei.
    replace (issued b' - issued b)%nat with (S (issued b' - S (issued b))) by lia. done.
  - destruct (on_timer b) as [b1 batch] eqn:E. specialize (IH b1).
    assert (issued b1 = issued b /\ batch ++ queue b1 = queue b /\
      (timer b1 = false <-> queue b1 = [])) as (Ei1 & Eq1 & Hb1).
    { unfold on_timer in E. destruct (timer b) eqn:Et; simplify_eq; cbn.
      - by rewrite app_nil_r.
      - by rewrite Et. }
    destruct (life b1 evs) as [b' batches]. destruct (IH Hb1) as (Ht & asked & Eq & Ei & Hle).
    split; [done|]. exists asked. cbn [concat].
    rewrite <- app_assoc, Eq, app_assoc, Eq1. split; [done|].
    by rewrite <- Ei1.
Qed.

(** ** The promises settle *)

(** The wallet's answers that end a submission: all but the rejections it is
    retried after. *)
Definition firm (rs : list (result string)) : nat :=
  length (List.filter (fun r => match r with Ok _ => true | Throw e => negb (isStaleObjectReject e) end) rs).

Definition ids_listed (bs : list (result (option (list ObjectChange)))) : nat :=
  list_sum (map (fun r => match r with Ok txb => length (findAllTunnelIds txb) | Throw _ => O end) bs).

(** A network that answers: it has this many firm answers to submissions, to waits
    and to reads of a transaction, a coin as often as asked, and the object of each
    tunnel a transaction lists, and [o] more.  Each may be an error. *)
Definition replies (s w b c o : nat) (n : Net) : Prop :=
  (s <= firm (signs n) /\ w <= length (waited n) /\ b <= length (blocks n) /\
   c <= length (stake_coins n) /\ ids_listed (blocks n) + o <= length (objects n))%nat.

(** From [P], a task comes to an end, in [Q]. *)
Definition ends {A} (m : io A) (P Q : Net -> Prop) : Prop := forall n, P n ->
  match m n with (_, Waiting) => False | (n', _) => Q n' end.

Lemma ends_weaken {A} (m : io A) (P P' Q Q' : Net -> Prop) :
  ends m P Q -> (forall n, P' n -> P n) -> (forall n, Q n -> Q' n) -> ends m P' Q'.
Proof. intros H HP HQ n Hn. specialize (H n (HP n Hn)). destruct (m n) as [n' []]; auto. Qed.

Lemma ends_bind {A B} (m : io A) (k : A -> io B) P Q R :
  ends m P Q -> (forall a, ends (k a) Q R) -> (forall n, Q n -> R n) -> ends (ibind m k) P R.
Proof.
  intros Hm Hk HQ n Hn. specialize (Hm n Hn). unfold ibind.
  destruct (m n) as [n' []]; auto. by apply Hk.
Qed.

Lemma ends_try {A} (m : io A) h P Q R :
  ends m P Q -> (forall e, ends (h e) Q R) -> (forall n, Q n -> R n) -> ends (itry m h) P R.
Proof.
  intros Hm Hk HQ n Hn. specialize (Hm n Hn). unfold itry.
  destruct (m n) as [n' []]; auto. by apply Hk.
Qed.

Lemma ends_ret {A} (a : A) (P : Net -> Prop) : ends (iret a) P P.
Proof. by intros n H. Qed.
Lemma ends_raise {A} e (P : Net -> Prop) : ends (@iraise A e) P P.
Proof. by intros n H. Qed.
Lemma ends_lift {A} (r : result A) (P : Net -> Prop) : ends (ilift r) P P.
Proof. intros n H. by destruct r. Qed.

Lemma replies_less s w b c o s' w' b' c' o' n :
  replies s w b c o n -> (s' <= s)%nat -> (w' <= w)%nat -> (b' <= b)%nat -> (c' <= c)%nat ->
  (o' <= o)%nat -> replies s' w' b' c' o' n.
Proof. unfold replies. lia. Qed.

Lemma coin_ends x s w b c o : ends (coin_for x) (replies s w b (S c) o) (replies s w b c o).
Proof.
  intros n (H1 & H2 & H3 & H4 & H5). unfold coin_for.
  destruct (stake_coins n) as [|r cs] eqn:E; cbn in H4; [lia|].
  destruct r; cbn [answered]; unfold replies, set_reads, set_signs; cbn [signs waited blocks objects stake_coins]; lia.
Qed.

Lemma wait_ends s w b c o : ends waitForTransaction (replies s (S w) b c o) (replies s w b c o).
Proof.
  intros n (H1 & H2 & H3 & H4 & H5). unfold waitForTransaction.
  destruct (waited n) as [|r ws] eqn:E; cbn in H2; [lia|].
  destruct r; cbn [answered]; unfold replies, set_reads, set_signs; cbn [signs waited blocks objects stake_coins]; lia.
Qed.

Lemma block_ends {B} (k : option (list ObjectChange) -> io B) s w b c R :
  (forall txb, ends (k txb) (replies s w b c (length (findAllTunnelIds txb))) R) ->
  (forall n, replies s w b c 0 n -> R n) ->
  ends (ibind getTransactionBlock k) (replies s w (S b) c 0) R.
Proof.
  intros Hk HR n (H1 & H2 & H3 & H4 & H5). unfold ibind, getTransactionBlock.
  destruct (blocks n) as [|r bs] eqn:E; cbn in H3; [lia|].
  assert (ids_listed (r :: bs) = (match r with Ok x => length (findAllTunnelIds x) | Throw _ => 0 end
    + ids_listed bs)%nat) as Ei by done. rewrite Ei in H5.
  destruct r as [txb|e]; cbn [answered].
  - apply (Hk txb). unfold replies, set_reads, set_signs; cbn [signs waited blocks objects stake_coins]; lia.
  - apply HR. unfold replies, set_reads, set_signs; cbn [signs waited blocks objects stake_coins]; lia.
Qed.

Lemma correlate_ends s w b c ids : forall m,
  ends (correlate m ids) (replies s w b c (length ids)) (replies s w b c 0).
Proof.
  induction ids as [|i ids IH]; intros m; cbn [correlate].
  { apply ends_ret. }
  apply (ends_bind _ _ _ (replies s w b c (length ids)));
    [|intros a; apply IH|intros n H; apply (replies_less _ _ _ _ _ _ _ _ _ _ _ H); lia].
  apply (ends_bind _ _ _ (replies s w b c (length ids))); [| |done].
  - intros n (H1 & H2 & H3 & H4 & H5). unfold getObject. cbn [length] in H5.
    destruct (objects n) as [|r os] eqn:E; cbn in H5; [lia|].
    destruct r; cbn [answered]; unfold replies, set_reads, set_signs; cbn [signs waited blocks objects stake_coins]; lia.
  - intros [a|]; [apply ends_ret|apply ends_raise].
Qed.

Lemma submit_loop_ends sp tx s rs : forall l, (S s <= firm rs)%nat ->
  let '(rs', _, o) := submit_loop sp tx rs l in o <> Waiting /\ (s <= firm rs')%nat.
Proof.
  induction rs as [|r rs IH]; intros l H; [cbn in H; lia|]. cbn [submit_loop].
  unfold firm in H. cbn in H. destruct r as [d|e]; cbn in H.
  - split; [done|]. unfold firm. lia.
  - destruct (isStaleObjectReject e); cbn in H; [by apply IH|]. split; [done|]. unfold firm. lia.
Qed.

(** A transaction that cannot be built is not tried again. *)
Definition buildable (tx : result Transaction) : Prop :=
  forall e, tx = Throw e -> isStaleObjectReject e = false.

Lemma submit_ends tx sp s w b c o : buildable tx ->
  ends (submitRebuildingOnStale tx sp) (replies (S s) w b c o) (replies s w b c o).
Proof.
  intros Hb n (H1 & H2 & H3 & H4 & H5). unfold submitRebuildingOnStale. destruct tx as [tx|e].
  - pose proof (submit_loop_ends sp tx s (signs n) (log n) H1) as H.
    destruct (submit_loop _ _ _ _) as [[rs l] o']. destruct H as [Ho Hs].
    assert (replies s w b c o (set_signs n rs l)) by (unfold replies, set_reads, set_signs; cbn [signs waited blocks objects stake_coins]; lia).
    by destruct o'.
  - rewrite (Hb e eq_refl). unfold replies. lia.
Qed.

(** What the builders of these transactions can throw. *)
Lemma building_errors (r : js_error) :
  r = Error "PACKAGE_ID not set" \/ r = Error "coinType is not SUI, so opts.sourceCoin is required" ->
  isStaleObjectReject r = false.
Proof. intros [-> | ->]; vm_compute; reflexivity. Qed.

Lemma check_source_errors opts e : check_source opts = Throw e ->
  e = Error "coinType is not SUI, so opts.sourceCoin is required".
Proof. unfold check_source. destruct (_ && _); by intros [= <-]. Qed.

Lemma open_specs_errors ty specs : forall tx k i e,
  open_specs package tx ty k i specs = Throw e -> e = Error "PACKAGE_ID not set".
Proof.
  induction specs as [|s specs IH]; intros tx k i e; cbn [open_specs]; [done|].
  unfold buildCreateAndFund, call_tunnel, buildTarget.
  destruct (String.eqb package ""); cbn [rbind]; [by intros [= <-]|].
  destruct (open_specs _ _ _ _ _ _) eqn:E; cbn [rbind]; [done|]. intros [= <-]. by eapply IH.
Qed.

Lemma build_open_errors tx specs opts e :
  buildOpenAndFundMany package tx specs opts = Throw e -> isStaleObjectReject e = false.
Proof.
  unfold buildOpenAndFundMany. destruct (check_source opts) eqn:E; cbn [rbind].
  - intros H%open_specs_errors. by apply building_errors; left.
  - intros [= <-]. apply building_errors. right. by eapply check_source_errors.
Qed.

Lemma deposit_specs_errors ty specs : forall tx k i e,
  deposit_specs package tx ty k i specs = Throw e -> e = Error "PACKAGE_ID not set".
Proof.
  induction specs as [|s specs IH]; intros tx k i e; cbn [deposit_specs]; [done|].
  unfold buildDeposit, call_tunnel, buildTarget.
  destruct (String.eqb package ""); cbn [rbind]; [by intros [= <-]|]. apply IH.
Qed.

Lemma open_many_buildable specs ct stake : buildable (open_many_tx package specs ct stake).
Proof.
  intros e. unfold open_many_tx. destruct (stakeCoinArg [] stake) as [tx src].
  destruct (buildOpenAndFundMany _ _ _ _) eqn:E; cbn [rbind]; [done|]. intros [= <-].
  by eapply build_open_errors.
Qed.

Lemma open_single_buildable s ct stake : buildable (open_self_play_tx package s ct stake).
Proof.
  intros e. unfold open_self_play_tx. destruct (stakeCoinArg [] stake) as [tx src].
  destruct (buildOpenAndFundMany _ _ _ _) eqn:E; cbn [rbind]; [done|]. intros [= <-].
  by eapply build_open_errors.
Qed.

Lemma deposit_buildable specs ct stake : buildable (deposit_many_tx package specs ct stake).
Proof.
  intros e. unfold deposit_many_tx. destruct (stakeCoinArg [] stake) as [tx src].
  destruct (buildDepositMany _ _ _ _) eqn:E; cbn [rbind]; [done|]. intros [= <-].
  unfold buildDepositMany in E. destruct (check_source _) eqn:E1; cbn [rbind] in E.
  - apply deposit_specs_errors in E. by apply building_errors; left.
  - injection E as <-. apply building_errors. right. by eapply check_source_errors.
Qed.

Lemma wrap_ends {A} d (m : io A) P Q : ends m P Q -> ends (wrap_committed d m) P Q.
Proof.
  intros H. apply (ends_try _ _ _ Q); [done| |done]. intros [e|d' e]; apply ends_raise.
Qed.

Lemma openMany_ends sp specs ct stake s w b c :
  ends (openAndFundMany package sp specs ct stake) (replies (S s) (S w) (S b) c 0) (replies s w b c 0).
Proof.
  assert (forall n, replies s w (S b) c 0 n -> replies s w b c 0 n) as Hb
    by (intros n H; apply (replies_less _ _ _ _ _ _ _ _ _ _ _ H); lia).
  unfold openAndFundMany. apply (ends_bind _ _ _ (replies s (S w) (S b) c 0));
    [apply submit_ends, open_many_buildable| |
     intros n H; apply (replies_less _ _ _ _ _ _ _ _ _ _ _ H); lia].
  intros d. apply wrap_ends. apply (ends_bind _ _ _ (replies s w (S b) c 0)); [apply wait_ends| |done].
  intros _. apply block_ends; [|done]. intros txb. cbv zeta.
  destruct (_ =? _)%nat; [apply correlate_ends|].
  eapply ends_weaken; [apply (ends_raise _ (replies s w b c 0))| |done].
  intros n H. apply (replies_less _ _ _ _ _ _ _ _ _ _ _ H); lia.
Qed.

Lemma depositMany_ends sp specs ct stake s w b c :
  ends (depositSeatAMany package sp specs ct stake) (replies (S s) (S w) (S b) c 0) (replies s w b c 0).
Proof.
  assert (forall n, replies s w (S b) c 0 n -> replies s w b c 0 n) as Hb
    by (intros n H; apply (replies_less _ _ _ _ _ _ _ _ _ _ _ H); lia).
  unfold depositSeatAMany. apply (ends_bind _ _ _ (replies s (S w) (S b) c 0));
    [apply submit_ends, deposit_buildable| |
     intros n H; apply (replies_less _ _ _ _ _ _ _ _ _ _ _ H); lia].
  intros d. apply wrap_ends. apply (ends_bind _ _ _ (replies s w (S b) c 0)); [apply wait_ends| |done].
  intros _. by eapply ends_weaken; [apply ends_ret| |].
Qed.

Lemma openSelfPlay_ends sp r ct stake s w b c :
  ends (openAndFundSelfPlay package sp (single_spec r) ct stake)
    (replies (S s) (S w) (S b) c 0) (replies s w b c 0).
Proof.
  assert (forall n, replies s w (S b) c 0 n -> replies s w b c 0 n) as Hb
    by (intros n H; apply (replies_less _ _ _ _ _ _ _ _ _ _ _ H); lia).
  unfold openAndFundSelfPlay. apply (ends_bind _ _ _ (replies s (S w) (S b) c 0));
    [apply submit_ends, open_single_buildable| |
     intros n H; apply (replies_less _ _ _ _ _ _ _ _ _ _ _ H); lia].
  intros d. unfold read_created. apply (ends_bind _ _ _ (replies s w (S b) c 0)); [apply wait_ends| |done].
  intros _. apply block_ends; [|done]. intros txb.
  eapply (ends_weaken _ (replies s w b c 0)); [|intros n H; apply (replies_less _ _ _ _ _ _ _ _ _ _ _ H); lia|by intros n H; exact H].
  destruct (findTunnelId txb) as [i|]; [destruct (String.eqb i "")|];
    first [apply ends_ret|apply ends_raise].
Qed.

(** A coin first, then the task. *)
Lemma coin_then_ends {A} x (k : string -> io A) s w b c P :
  (forall y, ends (k y) (replies s w b c 0) P) -> (forall n, replies s w b c 0 n -> P n) ->
  ends (ibind (coin_for x) k) (replies s w b (S c) 0) P.
Proof. intros H HP. eapply ends_bind; [apply coin_ends|done|done]. Qed.

Definition done_with (n : Net) : Prop := True.

Lemma openChunk_ends mode ct specs total :
  ends (openChunk mode ct specs total) (replies 2 2 2 1 0) done_with.
Proof.
  assert (forall sp stake c, ends (openAndFundMany package sp specs ct stake)
    (replies 2 2 2 c 0) (replies 1 1 1 c 0)) as H by (intros; apply openMany_ends).
  assert (forall n, replies 1 1 1 0 0 n -> done_with n) as Hd by done.
  destruct mode; cbn [openChunk].
  - by eapply ends_weaken; [apply H| |].
  - apply coin_then_ends; [|done]. intros y. by eapply ends_weaken; [apply H| |].
  - apply (ends_try _ _ _ (replies 1 1 1 0 0)); [| |done].
    + apply coin_then_ends; [intros y; apply H|].
      intros n Hn; apply (replies_less _ _ _ _ _ _ _ _ _ _ _ Hn); lia.
    + intros [e|d e]; [|by eapply ends_weaken; [apply ends_raise| |]].
      apply (ends_try _ _ _ (replies 0 0 0 0 0)); [apply openMany_ends| |done].
      intros [e'|d' e']; by eapply ends_weaken; [apply ends_raise| |].
Qed.

Lemma depositChunk_ends mode ct specs total :
  ends (depositChunk mode ct specs total) (replies 2 2 2 1 0) done_with.
Proof.
  assert (forall sp stake c, ends (depositSeatAMany package sp specs ct stake)
    (replies 2 2 2 c 0) (replies 1 1 1 c 0)) as H by (intros; apply depositMany_ends).
  assert (forall n, replies 1 1 1 0 0 n -> done_with n) as Hd by done.
  destruct mode; cbn [depositChunk].
  - by eapply ends_weaken; [apply H| |].
  - apply coin_then_ends; [|done]. intros y. by eapply ends_weaken; [apply H| |].
  - apply (ends_try _ _ _ (replies 1 1 1 0 0)); [| |done].
    + apply coin_then_ends; [intros y; apply H|].
      intros n Hn; apply (replies_less _ _ _ _ _ _ _ _ _ _ _ Hn); lia.
    + intros [e|d e]; [|by eapply ends_weaken; [apply ends_raise| |]].
      apply (ends_try _ _ _ (replies 0 0 0 0 0)); [apply depositMany_ends| |done].
      intros [e'|d' e']; by eapply ends_weaken; [apply ends_raise| |].
Qed.

Lemma chunk_batch_ends deposit mode ct ps :
  ends (chunk_batch deposit mode ct ps) (replies 2 2 2 1 0) done_with.
Proof.
  unfold chunk_batch. destruct deposit; [|apply openChunk_ends].
  eapply ends_bind; [apply ends_lift| |done]. intros specs. apply depositChunk_ends.
Qed.

Lemma chunk_single_ends deposit mode ct r :
  ends (chunk_single deposit mode ct r) (replies 2 2 2 1 0) done_with.
Proof.
  unfold chunk_single. destruct deposit.
  - unfold depositSingle. eapply ends_bind; [apply ends_lift| |done]. intros spec.
    eapply ends_bind; [apply depositChunk_ends| |done]. intros m.
    destruct (m !! _) as [i|]; [destruct (String.eqb i "")|]; first [apply ends_ret|apply ends_raise].
  - assert (forall sp ct stake c, ends (openAndFundSelfPlay package sp (single_spec r) ct stake)
      (replies 2 2 2 c 0) (replies 1 1 1 c 0)) as H by (intros; apply openSelfPlay_ends).
    assert (forall n, replies 1 1 1 0 0 n -> done_with n) as Hd by done.
    destruct mode; cbn [openSingle].
    + by eapply ends_weaken; [apply H| |].
    + apply coin_then_ends; [|done]. intros y. by eapply ends_weaken; [apply H| |].
    + unfold withSponsorFallback. apply (ends_try _ _ _ (replies 1 1 1 0 0)); [| |done].
      * apply coin_then_ends; [intros y; apply H|].
        intros n Hn; apply (replies_less _ _ _ _ _ _ _ _ _ _ _ Hn); lia.
      * intros _. apply (ends_try _ _ _ (replies 0 0 0 0 0)); [apply openSelfPlay_ends| |done].
        intros _. by eapply ends_weaken; [apply ends_raise| |].
Qed.

Definition is_settled (st : settled) : Prop := st_outcome st <> Waiting.

Lemma flushChunk_settles mode ct ps batchNet nets :
  replies 2 2 2 1 0 batchNet -> (forall i, replies 2 2 2 1 0 (nets i)) ->
  Forall is_settled (snd (flushChunk mode ct ps batchNet nets)).
Proof.
  intros Hb Hn. unfold flushChunk. cbv zeta. set (deposit := match ps with p :: _ => _ | [] => false end).
  pose proof (chunk_batch_ends deposit mode ct ps batchNet Hb) as H.
  destruct (chunk_batch _ _ _ _ _) as [n [|m|[e|d e]]]; [done| | |]; cbn [snd];
    apply Forall_map, Forall_true; intros p; unfold is_settled; cbn [st_outcome].
  - unfold chunk_answer. destruct (if deposit then _ else _) as [i|]; [|done]. by destruct (String.eqb i "").
  - pose proof (chunk_single_ends deposit mode ct (p_req p) (nets (p_id p)) (Hn _)) as Hs.
    destruct (chunk_single _ _ _ _ _) as [n1 []]; by cbn.
  - done.
Qed.

Lemma Forall_concat_imap {T} (P : settled -> Prop) (xs : list T) : forall (f : nat -> T -> list settled),
  (forall i x, Forall P (f i x)) -> Forall P (concat (imap f xs)).
Proof.
  induction xs as [|x xs IH]; intros f H; cbn; [done|]. apply Forall_app. split; [done|].
  apply (IH (f ∘ S)). intros i y. apply H.
Qed.

Lemma settle_all_settles ps f : (forall p, f p <> Waiting) -> Forall is_settled (settle_all ps f).
Proof. intros H. apply Forall_map, Forall_true. exact H. Qed.

(** In a network that answers, with errors or not, no promise is left open. *)
Lemma flush_settles maxBatch connected batch groupNets batchNets nets :
  (forall g, stakes_ready (groupNets g) <> []) -> (forall g i, replies 2 2 2 1 0 (batchNets g i)) ->
  (forall i, replies 2 2 2 1 0 (nets i)) ->
  Forall is_settled (flush maxBatch connected batch groupNets batchNets nets).
Proof.
  intros Hg Hb Hn. unfold flush. destruct (negb connected); [by apply settle_all_settles|].
  apply Forall_concat_imap. intros g [k gr]. cbn [snd].
  destruct gr as [|p0 gr]; [constructor|]. unfold flushGroup. cbv zeta.
  assert (forall mode ct, Forall is_settled (concat (imap (fun i c =>
    snd (flushChunk mode ct c (batchNets g i) nets)) (chunk (p0 :: gr) maxBatch)))) as Hrun
    by (intros mode ct; apply Forall_concat_imap; intros i c; by apply flushChunk_settles).
  destruct (fundingModeOf _); [|apply Hrun..]. unfold ensureStakeBalance.
  specialize (Hg g). destruct (stakes_ready (groupNets g)) as [|[[]|e] rs]; [done| |]; cbn [answered snd];
    [apply Hrun|by apply settle_all_settles].
Qed.

(** C16: every request is answered once.  Whenever requests come and the timer
    fires, a request is either waiting, with the timer armed, or was taken by
    exactly one flush.  A flush has one outcome for each request it took, whatever
    the network does, within a group whose members are all funded the same way;
    and if the wallet and the node answer what they are asked -- with an error or
    not, and after any number of rejections that are retried --, that outcome is an
    answer: every promise of the flush is resolved or rejected. *)
Theorem requests_answered_once evs :
  let (b, batches) := life new_batcher evs in
  map p_id (concat batches ++ queue b) = seq 0 (issued b) /\
  (timer b = false <-> queue b = []) /\
  forall batch maxBatch connected groupNets batchNets nets,
    In batch batches -> (0 < maxBatch)%nat ->
    let answers := flush maxBatch connected batch groupNets batchNets nets in
    Permutation (map st_pending answers) batch /\
    ((forall g, stakes_ready (groupNets g) <> []) -> (forall g i, replies 2 2 2 1 0 (batchNets g i)) ->
     (forall i, replies 2 2 2 1 0 (nets i)) -> Forall is_settled answers) /\
    forall k gr p q, In (k, gr) (group_requests batch) -> In p gr -> In q gr -> alike p q.
Proof.
  pose proof (life_partition evs new_batcher (conj (fun _ => eq_refl) (fun _ => eq_refl))) as H.
  destruct (life new_batcher evs) as [b batches]. destruct H as (Ht & asked & Eq & Ei & _).
  cbn in *. rewrite Nat.sub_0_r in Ei. split; [by rewrite Eq|]. split; [done|].
  intros batch maxBatch connected groupNets batchNets nets _ Hm.
  split; [by apply flush_pending|]. split; [apply flush_settles|].
  intros k gr p q. apply group_requests_alike.
Qed.

(** * Whose tunnel *)

(** Nothing was read of a transaction's effects. *)
Definition unread (n n' : Net) : Prop := blocks n' = blocks n /\ objects n' = objects n.

(** The node reports the changes [cs], and the party A of each tunnel in them. *)
Definition reports (n : Net) (cs : list ObjectChange) (party : string -> string) : Prop :=
  exists bs os, blocks n = Ok (Some cs) :: bs /\
    objects n = map (fun i => Ok (Some (party i))) (findAllTunnelIds (Some cs)) ++ os.

(** The map holds tunnels of the transaction, under their party A. *)
Definition own_map (cs : list ObjectChange) (party : string -> string)
    (m : gmap string string) : Prop :=
  forall k i, m !! k = Some i ->
    In i (findAllTunnelIds (Some cs)) /\ normalizeSuiAddress (party i) = k.

Lemma correlate_own party ids os : forall m n m',
  objects n = map (fun i => Ok (Some (party i))) ids ++ os ->
  snd (correlate m ids n) = Returned m' ->
  forall k i, m' !! k = Some i ->
    m !! k = Some i \/ (In i ids /\ normalizeSuiAddress (party i) = k).
Proof.
  induction ids as [|i0 ids IH]; intros m n m' Ho; cbn [correlate].
  { intros H. injection H as ->. by left. }
  unfold readTunnelPartyA, ibind, getObject. rewrite Ho. cbn. intros H k i Hk.
  eapply IH in H; [|done|exact Hk]. destruct H as [H|[Hin E]]; [|right; eauto].
  destruct (decide (normalizeSuiAddress (party i0) = k)) as [<-|Hne].
  - rewrite lookup_insert_eq in H. injection H as ->. right. eauto.
  - rewrite lookup_insert_ne in H by done. by left.
Qed.

Lemma submit_unread buildTx sp n : unread n (fst (submitRebuildingOnStale buildTx sp n)).
Proof.
  unfold submitRebuildingOnStale. destruct buildTx as [tx|e]; [|by destruct (isStaleObjectReject e)].
  by destruct (submit_loop _ _ _ _) as [[rs l] o].
Qed.

(** A batched open: a map of its own tunnels, or an error before anything was read. *)
Definition own_open (party : string -> string) (m : io (gmap string string)) : Prop :=
  forall n cs, reports n cs party ->
  match m n with
  | (_, Returned r) => own_map cs party r
  | (n', Raised (Thrown _)) => unread n n'
  | _ => True
  end.

Lemma openAndFundMany_own sp specs ct stake party :
  own_open party (openAndFundMany package sp specs ct stake).
Proof.
  intros n cs (bs & os & Hb & Ho). unfold openAndFundMany, ibind at 1.
  pose proof (submit_unread (open_many_tx package specs ct stake) sp n) as [Ub Uo].
  destruct (submitRebuildingOnStale _ sp n) as [n1 [|d|[e|d e]]]; cbn in *; [done| |done|done].
  unfold wrap_committed, itry, ibind, waitForTransaction.
  destruct (waited n1) as [|[[]|e] ws]; cbn; [done| |done].
  unfold getTransactionBlock. cbn. rewrite Ub, Hb. cbn [answered].
  destruct (_ =? _)%nat; [|done].
  match goal with |- context [correlate ∅ ?ids ?n2] =>
    pose proof (correlate_own party ids os ∅ n2) as Hc; destruct (correlate ∅ ids n2)
      as [n3 [|r|[e|d' e]]]; try done end.
  intros k i Hk. destruct (Hc r ltac:(cbn; by rewrite Uo, Ho) eq_refl k i Hk) as [H|H]; [|done].
  by rewrite lookup_empty in H.
Qed.

Lemma own_open_after {A} party (m : io A) k :
  (forall n, unread n (fst (m n))) -> (forall a, own_open party (k a)) ->
  own_open party (ibind m k).
Proof.
  intros Hm Hk n cs Hr. unfold ibind. destruct (Hm n) as [Ub Uo].
  destruct (m n) as [n1 [|a|[e|d e]]]; cbn in *; try done.
  specialize (Hk a n1 cs). unfold reports in *. rewrite Ub, Uo in Hk. specialize (Hk Hr).
  destruct (k a n1) as [n2 [|r|[e|d e]]]; try done. destruct Hk. split; congruence.
Qed.

Lemma coin_for_unread x n : unread n (fst (coin_for x n)).
Proof. unfold coin_for. by destruct (stake_coins n). Qed.

Lemma openChunk_own mode ct specs total party :
  own_open party (openChunk mode ct specs total).
Proof.
  destruct mode; cbn [openChunk]; [apply openAndFundMany_own| |].
  { apply own_open_after; [apply coin_for_unread|]. intros. apply openAndFundMany_own. }
  intros n cs Hr. unfold itry.
  pose proof (own_open_after party (coin_for total) _ (coin_for_unread total)
    (fun c => openAndFundMany_own true specs ct (from_coin c) party) n cs Hr) as H.
  destruct (ibind (coin_for total) _ n) as [n1 [|r|[e|d e]]]; [done|done| |done].
  destruct H as [Ub Uo].
  pose proof (openAndFundMany_own false specs ct from_gas party n1 cs) as H2.
  unfold reports in *. rewrite Ub, Uo in H2. specialize (H2 Hr).
  destruct (openAndFundMany package false specs ct from_gas n1) as [n2 [|r|[e2|d2 e2]]]; try done.
  destruct H2. split; congruence.
Qed.

Lemma depositSpecOf_ok r spec :
  depositSpecOf r = Ok spec ->
  exists i, rq_tunnelId r = Some i /\
    spec = {| td_tunnelId := i; td_partyA := rq_partyA r; td_amount := rq_aAmount r |}.
Proof.
  unfold depositSpecOf. destruct (rq_tunnelId r) as [i|]; [|done].
  destruct (String.eqb i ""); [done|]. intros H. injection H as <-. eauto.
Qed.

(** The map of a deposit of one. *)
Lemma depositSeatAMany_map sp spec ct stake n n' m :
  depositSeatAMany package sp [spec] ct stake n = (n', Returned m) ->
  m = {[ normalizeSuiAddress (po_address (td_partyA spec)) := td_tunnelId spec ]}.
Proof.
  unfold depositSeatAMany, ibind.
  destruct (submitRebuildingOnStale _ _ _) as [n1 [|d|e]]; [done| |done].
  unfold wrap_committed, itry, waitForTransaction.
  destruct (waited n1) as [|[[]|e] ws]; cbn; [done| |done]. by intros H; simplify_eq.
Qed.

Lemma depositChunk_map mode spec ct total n n' m :
  depositChunk mode ct [spec] total n = (n', Returned m) ->
  m = {[ normalizeSuiAddress (po_address (td_partyA spec)) := td_tunnelId spec ]}.
Proof.
  assert (forall sp n0, (do~ c <- coin_for total;
    depositSeatAMany package sp [spec] ct (from_coin c)) n0 = (n', Returned m) ->
    m = {[ normalizeSuiAddress (po_address (td_partyA spec)) := td_tunnelId spec ]}) as H.
  { intros sp n0. unfold ibind. destruct (coin_for total n0) as [n1 [|c|e]]; [done| |done].
    apply depositSeatAMany_map. }
  destruct mode; cbn [depositChunk]; [apply depositSeatAMany_map|apply H|].
  unfold itry. specialize (H true n).
  destruct (ibind (coin_for total) _ n) as [n1 [|r|[e|d e]]]; [done|auto| |done].
  destruct (depositSeatAMany package false [spec] ct from_gas n1) as [n2 [|r|[e2|d2 e2]]] eqn:E;
    try done. intros H0. injection H0 as -> ->. by eapply depositSeatAMany_map.
Qed.

Lemma depositSingle_own mode ct r n n' i :
  depositSingle mode ct r n = (n', Returned i) -> rq_tunnelId r = Some i.
Proof.
  unfold depositSingle, ibind, ilift. destruct (depositSpecOf r) as [spec|e] eqn:Es; [|done].
  cbn [answered]. destruct (depositSpecOf_ok r spec Es) as (j & Hj & ->).
  destruct (depositChunk _ _ _ _ _) as [n1 [|m|e]] eqn:E; [done| |done].
  apply depositChunk_map in E as ->. cbn [td_partyA td_tunnelId]. rewrite lookup_singleton_eq.
  destruct (String.eqb j ""); [done|]. intros H. injection H as _ <-. done.
Qed.

Lemma findTunnelId_listed txb i : findTunnelId txb = Some i -> In i (findAllTunnelIds txb).
Proof.
  destruct txb as [cs|]; [|done]. unfold findTunnelId, findAllTunnelIds.
  destruct (List.find _ _) as [c|] eqn:E; cbn; intros [= <-].
  apply find_some in E as [Hin Hc]. apply in_map, filter_In. done.
Qed.

(** A read of the effects takes answers of the node, and what it returns is a
    tunnel created in one of them. *)
Lemma openSelfPlay_created sp s ct stake n :
  let (n', o) := openAndFundSelfPlay package sp s ct stake n in
  incl (blocks n') (blocks n) /\
  forall i, o = Returned i -> exists txb, In (Ok txb) (blocks n) /\ In i (findAllTunnelIds txb).
Proof.
  unfold openAndFundSelfPlay, ibind at 1.
  pose proof (submit_unread (open_self_play_tx package s ct stake) sp n) as [Ub _].
  destruct (submitRebuildingOnStale _ sp n) as [n1 [|d|e]]; cbn [fst] in Ub;
    try (rewrite Ub; split; [apply incl_refl|done]).
  unfold read_created, ibind, waitForTransaction.
  destruct (waited n1) as [|[[]|e] ws]; cbn; try (rewrite Ub; split; [apply incl_refl|done]).
  unfold getTransactionBlock. cbn. rewrite Ub. destruct (blocks n) as [|r bs]; cbn; [split; [rewrite ?Ub; apply incl_refl|done]|].
  destruct r as [txb|e]; cbn; [|split; [apply incl_tl, incl_refl|done]].
  destruct (findTunnelId txb) as [i0|] eqn:E; [destruct (String.eqb i0 "")|]; cbn;
    (split; [apply incl_tl, incl_refl|]); intros i; [done| |done].
  intros [= <-]. exists txb. split; [by left|by apply findTunnelId_listed].
Qed.

Lemma openSingle_created mode ct r n n' i :
  openSingle mode ct r n = (n', Returned i) ->
  exists txb, In (Ok txb) (blocks n) /\ In i (findAllTunnelIds txb).
Proof.
  assert (forall x sp c k n n' o, (do~ y <- coin_for x;
    openAndFundSelfPlay package sp (single_spec r) c (k y)) n = (n', o) ->
    incl (blocks n') (blocks n) /\
    forall i, o = Returned i -> exists txb, In (Ok txb) (blocks n) /\ In i (findAllTunnelIds txb)) as Hc.
  { intros x sp c k m m' o. unfold ibind. destruct (coin_for_unread x m) as [Ub _].
    destruct (coin_for x m) as [m1 [|y|e]]; cbn [fst] in Ub;
      try (intros [= <- <-]; rewrite Ub; split; [apply incl_refl|done]).
    pose proof (openSelfPlay_created sp (single_spec r) c (k y) m1) as H. rewrite Ub in H.
    intros E. by rewrite E in H. }
  destruct mode; cbn [openSingle].
  - intros E. pose proof (openSelfPlay_created true (single_spec r) ct
      (from_balance (rq_aAmount r + rq_bAmount r) (default MTPS_COIN_TYPE ct)) n) as H.
    rewrite E in H. by apply H.
  - intros E. by eapply Hc.
  - unfold withSponsorFallback, itry. destruct (ibind _ _ n) as [n1 [|j|e]] eqn:E; [done| |].
    + intros [= <- <-]. by eapply (Hc _ _ _ _ _ _ _ E).
    + apply Hc in E as [Hi _].
      pose proof (openSelfPlay_created false (single_spec r) None from_gas n1) as H.
      destruct (openAndFundSelfPlay _ _ _ _ _ _) as [n2 [|j|e2]]; [done| |done].
      intros [= <- <-]. destruct H as [_ H]. destruct (H j eq_refl) as (txb & H1 & H2).
      exists txb. split; [by apply Hi|done].
Qed.

(** One answer of a chunk. *)
Lemma answer_own mode ct ps batchNet nets cs party st i :
  reports batchNet cs party ->
  (forall p q, In p ps -> In q ps -> alike p q) ->
  In st (snd (flushChunk mode ct ps batchNet nets)) -> st_outcome st = Returned i ->
  let r := p_req (st_pending st) in
  if wants_deposit r then rq_tunnelId r = Some i
  else match st_single st with
  | None => In i (findAllTunnelIds (Some cs)) /\
      normalizeSuiAddress (party i) = normalizeSuiAddress (po_address (rq_partyA r))
  | Some _ => exists txb, In (Ok txb) (blocks (nets (p_id (st_pending st)))) /\
      In i (findAllTunnelIds txb)
  end.
Proof.
  intros Hr Hal Hin Hi. cbv zeta.
  assert (In (st_pending st) ps) as Hp.
  { rewrite <- (flushChunk_pending mode ct ps batchNet nets). by apply in_map. }
  assert (match ps with p :: _ => wants_deposit (p_req p) | [] => false end
    = wants_deposit (p_req (st_pending st))) as Ed.
  { destruct ps as [|p0 ps]; [done|]. apply (Hal p0 (st_pending st)); [by left|done]. }
  unfold flushChunk in Hin. cbv zeta in Hin. rewrite Ed in Hin.
  set (deposit := wants_deposit (p_req (st_pending st))) in *. clearbody deposit.
  pose proof (fun specs total => openChunk_own mode ct specs total party batchNet cs Hr) as Hown.
  destruct (chunk_batch deposit mode ct ps batchNet) as [n [|m|[e|d e]]] eqn:E; cbn [snd] in Hin;
    apply in_map_iff in Hin as (p & <- & Hp'); cbn [st_outcome st_pending st_single] in *;
    try discriminate Hi.
  - unfold chunk_answer in Hi. destruct deposit.
    + destruct (rq_tunnelId (p_req p)) as [j|]; [|done].
      destruct (String.eqb j ""); [done|]. by injection Hi as ->.
    + unfold chunk_batch in E.
      specialize (Hown (map (fun p => specOf (p_req p)) ps)
        (fold_left (fun s p => s + stakeTotalOf (p_req p)) ps 0)).
      rewrite E in Hown. destruct (m !! _) as [j|] eqn:Ej; [|done].
      destruct (String.eqb j ""); [done|]. injection Hi as ->. by apply Hown.
  - unfold chunk_single in *. destruct deposit.
    + destruct (depositSingle mode ct (p_req p) (nets (p_id p))) as [n1 o] eqn:E1.
      cbn [st_outcome st_pending] in *. subst o. by eapply depositSingle_own.
    + destruct (openSingle mode ct (p_req p) (nets (p_id p))) as [n1 o] eqn:E1.
      cbn [st_outcome st_single st_pending] in *. subst o. by eapply openSingle_created.
Qed.

(** C15: whose tunnel an answer names.  A deposit, batched or not, is answered with
    the tunnel it named and no other, also when many games share one wallet.  An
    open that is answered from its batch gets a tunnel which, by what the node
    reports, that batch created and whose party A has the address of the requester;
    one that falls back to a transaction of its own gets a tunnel that one of the
    reads of that fallback listed.  So two opens answered from one batch share a
    tunnel only if their parties A have the same address (and then they do:
    [same_address_shares_tunnel]). *)
Theorem answers_are_own mode ct ps batchNet nets cs party st i :
  reports batchNet cs party ->
  (forall p q, In p ps -> In q ps -> alike p q) ->
  In st (snd (flushChunk mode ct ps batchNet nets)) -> st_outcome st = Returned i ->
  let r := p_req (st_pending st) in
  (if wants_deposit r then rq_tunnelId r = Some i
   else match st_single st with
   | None => In i (findAllTunnelIds (Some cs)) /\
       normalizeSuiAddress (party i) = normalizeSuiAddress (po_address (rq_partyA r))
   | Some _ => exists txb, In (Ok txb) (blocks (nets (p_id (st_pending st)))) /\
       In i (findAllTunnelIds txb)
   end) /\
  forall st', In st' (snd (flushChunk mode ct ps batchNet nets)) -> st_outcome st' = Returned i ->
    wants_deposit r = false -> st_single st = None -> st_single st' = None ->
    normalizeSuiAddress (po_address (rq_partyA (p_req (st_pending st')))) =
      normalizeSuiAddress (po_address (rq_partyA r)).
Proof.
  intros Hr Hal Hin Hi r. pose proof (answer_own mode ct ps batchNet nets cs party st i Hr Hal Hin Hi) as H.
  split; [exact H|]. intros st' Hin' Hi' Hd Hs Hs'.
  pose proof (answer_own mode ct ps batchNet nets cs party st' i Hr Hal Hin' Hi') as H'.
  cbv zeta in H, H'. fold r in H.
  assert (wants_deposit (p_req (st_pending st')) = wants_deposit r) as Ed.
  { apply Hal; rewrite <- (flushChunk_pending mode ct ps batchNet nets); by apply in_map. }
  rewrite Ed, Hd, Hs' in H'. rewrite Hd, Hs in H. destruct H as [_ <-], H' as [_ <-]. done.
Qed.

(** The fallback of one request does not depend on the timeout and the penalty it
    asked for: the tunnel has the defaults. *)
Lemma single_open_drops_terms mode ct r tmo pen :
  openSingle mode ct
    {| rq_partyA := rq_partyA r; rq_partyB := rq_partyB r; rq_aAmount := rq_aAmount r;
       rq_bAmount := rq_bAmount r; rq_mode := rq_mode r; rq_tunnelId := rq_tunnelId r;
       rq_coinType := rq_coinType r; rq_usesAddressBalance := rq_usesAddressBalance r;
       rq_timeoutMs := tmo; rq_penaltyAmount := pen |} = openSingle mode ct r.
Proof. done. Qed.

End Batcher.

(** * Samples *)

Definition quiet_net : Net :=
  {| signs := []; waited := []; blocks := []; objects := []; stakes_ready := [];
     stake_coins := []; log := [] |}.

Definition party_of_key (a : string) (k : Z) : PartyOnchain :=
  {| po_address := a; po_publicKey := replicate 32 k |}.

Definition ask (a : string) (mode : request_mode) (tid : option string) : TunnelOpenRequest :=
  {| rq_partyA := party_of_key a 3; rq_partyB := party_of_key "0xB" 4; rq_aAmount := 10;
     rq_bAmount := 5; rq_mode := Some mode; rq_tunnelId := tid; rq_coinType := None;
     rq_usesAddressBalance := true; rq_timeoutMs := None; rq_penaltyAmount := None |}.

Definition new_tunnel (i : string) : ObjectChange :=
  {| oc_type := "created"; oc_objectType := Some "0x42::tunnel::Tunnel<0x2::sui::SUI>"%string;
     oc_objectId := i |}.

(** The sponsored transaction is on chain, its effects cannot be read; then the
    wallet's own is, and they can. *)
Definition flaky_net : Net :=
  {| signs := [Ok "d1"; Ok "d2"]%string; waited := [Throw (Error "timeout"); Ok tt];
     blocks := [Ok (Some [new_tunnel "0x7"])]; objects := []; stakes_ready := [];
     stake_coins := [Ok "0xc"%string]; log := [] |}.

(** The fallback for one request opens and pays for two tunnels when the read of
    the first fails: [withSponsorFallback] takes any error for a refusal. *)
Theorem single_open_may_open_twice :
  let (n, o) := openSingle "0x42" "" FundSui None (ask "0xA" ModeOpen None) flaky_net in
  o = Returned "0x7"%string /\
  map Ok (commits n) =
    [open_self_play_tx "0x42" (single_spec (ask "0xA" ModeOpen None)) None (from_coin "0xc");
     open_self_play_tx "0x42" (single_spec (ask "0xA" ModeOpen None)) None from_gas].
Proof. vm_compute. split; reflexivity. Qed.

Definition two_deposits : list Pending :=
  [{| p_id := 0; p_req := ask "0xA" ModeDeposit (Some "0x71"%string) |};
   {| p_id := 1; p_req := ask "0xA" ModeDeposit (Some "0x72"%string) |}].

(** The batch is refused; each deposit then lands alone. *)
Definition refusing_net : Net :=
  {| signs := [Throw (Error "insufficient gas")]; waited := []; blocks := []; objects := [];
     stakes_ready := []; stake_coins := [Ok "0xc"%string]; log := [] |}.
Definition landing_net : Net :=
  {| signs := [Throw (Error "Object is unavailable for consumption"); Ok "d"%string];
     waited := [Ok tt]; blocks := []; objects := []; stakes_ready := [];
     stake_coins := [Ok "0xc"%string]; log := [] |}.

Lemma chunk_stakes_once_witness :
  exists n st1 st2 n1 n2, flushChunk "0x42" "0x9::m::M" FundMtpsCoin (Some "0x9::m::M"%string)
      two_deposits refusing_net (fun _ => landing_net) = (n, [st1; st2]) /\
    st_single st1 = Some n1 /\ st_single st2 = Some n2 /\
    commits n = [] /\ length (commits n1) = 1%nat /\ length (commits n2) = 1%nat.
Proof.
  pose proof (chunk_stakes_once "0x42" "0x9::m::M" FundMtpsCoin (Some "0x9::m::M"%string)
    two_deposits refusing_net (fun _ => landing_net)
    ltac:(eexists _, _; split; [reflexivity|left; reflexivity]) eq_refl (fun _ => eq_refl)) as H.
  cbv zeta in H.
  destruct (flushChunk "0x42" "0x9::m::M" FundMtpsCoin (Some "0x9::m::M"%string)
    two_deposits refusing_net (fun _ => landing_net)) as [n sts] eqn:E.
  assert (match flushChunk "0x42" "0x9::m::M" FundMtpsCoin (Some "0x9::m::M"%string)
    two_deposits refusing_net (fun _ => landing_net) with
    | (n, [st1; st2]) => match st_single st1, st_single st2 with
        | Some n1, Some n2 => (length (commits n), length (commits n1), length (commits n2))
        | _, _ => (9, 9, 9)%nat end
    | _ => (9, 9, 9)%nat end = (0, 1, 1)%nat) as F by (vm_compute; reflexivity).
  rewrite E in F. destruct sts as [|st1 [|st2 [|? ?]]]; try discriminate F.
  destruct (st_single st1) as [n1|] eqn:E1; [|discriminate F].
  destruct (st_single st2) as [n2|] eqn:E2; [|discriminate F].
  injection F as F0 F1 F2. exists n, st1, st2, n1, n2.
  destruct H as [_ [(tx & Hc & _)|[Hc _]]]; [rewrite Hc in F0; discriminate F0|].
  split; [reflexivity|]. split; [exact E1|]. split; [exact E2|]. split; [exact Hc|].
  split; assumption.
Defined.

Definition play_events : list batcher_event :=
  [Ask (ask "0xA" ModeOpen None); Ask (ask "0xA" ModeDeposit (Some "0x71"%string)); Tick;
   Ask (ask "0xC" ModeOpen None)].

(** Networks that answer: the top-up succeeds, the batch is refused, and each
    request then lands alone, after one rejection that is retried. *)
Definition topped_up_net : Net :=
  {| signs := []; waited := []; blocks := []; objects := []; stakes_ready := [Ok tt];
     stake_coins := []; log := [] |}.
Definition answering (ss : list (result string)) : Net :=
  {| signs := ss; waited := [Ok tt; Ok tt];
     blocks := [Ok (Some [new_tunnel "0x7"]); Ok (Some [new_tunnel "0x8"])];
     objects := [Ok (Some "0xA"); Ok None]%string; stakes_ready := [];
     stake_coins := [Ok "0xc"%string]; log := [] |}.
Definition refused_batch : Net := answering [Throw (Error "insufficient gas"); Ok "d0"%string].
Definition landed_single : Net :=
  answering [Throw (Error "Object is unavailable for consumption"); Ok "d1"; Ok "d2"]%string.

Lemma requests_answered_once_witness :
  exists b batch answers, life new_batcher play_events = (b, [batch]) /\
    flush "0x42" true "0x9::m::M" 30 true batch
      (fun _ => topped_up_net) (fun _ _ => refused_batch) (fun _ => landed_single) = answers /\
    map p_id batch = [0; 1]%nat /\ map p_id (queue b) = [2]%nat /\
    Permutation (map st_pending answers) batch /\ Forall is_settled answers /\
    map (fun st => (p_id (st_pending st), st_outcome st)) answers =
      [(0%nat, Returned "0x7"%string); (1%nat, Returned "0x71"%string)].
Proof.
  pose proof (requests_answered_once "0x42" true "0x9::m::M" play_events) as H.
  destruct (life new_batcher play_events) as [b batches] eqn:E.
  cbv in E. injection E as <- <-. destruct H as (_ & _ & H).
  eexists _, _, _. split; [reflexivity|]. split; [reflexivity|]. split; [reflexivity|]. split; [reflexivity|].
  edestruct (fun batch => H batch 30%nat true (fun _ => topped_up_net) (fun _ _ => refused_batch)
    (fun _ => landed_single)) as (H1 & H2 & _); [left; reflexivity|lia|].
  split; [exact H1|]. split; [apply H2|vm_compute; reflexivity].
  - discriminate.
  - intros _ _. vm_compute. lia.
  - intros _. vm_compute. lia.
Defined.

(** A batch of two opens, and what the node says of it, in another order. *)
Definition two_opens : list Pending :=
  [{| p_id := 0; p_req := ask "0xA" ModeOpen None |};
   {| p_id := 1; p_req := ask "0xC" ModeOpen None |}].
Definition created_changes : list ObjectChange :=
  [new_tunnel "0x72"; {| oc_type := "mutated"; oc_objectType := None; oc_objectId := "0xc" |};
   new_tunnel "0x71"].
Definition created_party (i : string) : string :=
  if String.eqb i "0x71" then "0x0a" else "0x000C".
Definition reporting_net : Net :=
  {| signs := [Ok "d"%string]; waited := [Ok tt]; blocks := [Ok (Some created_changes)];
     objects := map (fun i => Ok (Some (created_party i))) ["0x72"; "0x71"]%string;
     stakes_ready := []; stake_coins := [Ok "0xc"%string]; log := [] |}.

Lemma answers_are_own_witness :
  exists st, In st (snd (flushChunk "0x42" "0x9::m::M" FundMtpsCoin (Some "0x9::m::M"%string)
      two_opens reporting_net (fun _ => quiet_net))) /\
    st_outcome st = Returned "0x72"%string /\ p_id (st_pending st) = 1%nat /\
    normalizeSuiAddress (created_party "0x72") = normalizeSuiAddress "0xC".
Proof.
  assert (map (fun st => (st_outcome st, p_id (st_pending st), option_map (fun _ => tt) (st_single st)))
    (snd (flushChunk "0x42" "0x9::m::M" FundMtpsCoin (Some "0x9::m::M"%string)
      two_opens reporting_net (fun _ => quiet_net)))
    = [(Returned "0x71", 0, None); (Returned "0x72", 1, None)]%string%nat) as F by (vm_compute; reflexivity).
  pose proof (answers_are_own "0x42" false "" FundMtpsCoin (Some "0x9::m::M"%string)
    two_opens reporting_net (fun _ => quiet_net) created_changes created_party) as H.
  pose proof (flushChunk_pending "0x42" "0x9::m::M" FundMtpsCoin (Some "0x9::m::M"%string)
    two_opens reporting_net (fun _ => quiet_net)) as Hp.
  destruct (snd (flushChunk _ _ _ _ _ _ _)) as [|st1 [|st2 [|? ?]]]; try discriminate F.
  injection F as _ _ _ F3 F4 F5. injection Hp as _ Hp. exists st2.
  assert (In st2 [st1; st2]) as Hin by (right; left; reflexivity).
  split; [exact Hin|]. split; [exact F3|]. split; [exact F4|].
  specialize (H st2 "0x72"%string).
  assert (reports reporting_net created_changes created_party) as Hr.
  { exists [], []. split; reflexivity. }
  assert (forall p q, In p two_opens -> In q two_opens -> alike false "" p q) as Hal.
  { intros p q [<-|[<-|[]]] [<-|[<-|[]]]; repeat split. }
  specialize (H Hr Hal Hin F3). cbv zeta in H. rewrite Hp in H.
  assert (st_single st2 = None) as Hs by (destruct (st_single st2); [discriminate F5|reflexivity]).
  rewrite Hs in H. exact (proj2 (proj1 H)).
Defined.

(** Two opens of one wallet address with different session keys: the batch creates
    two tunnels, the map of their parties A keeps one of them, and both games are
    answered with it. *)
Definition one_wallet : list Pending :=
  [{| p_id := 0; p_req := {| rq_partyA := party_of_key "0xA" 3; rq_partyB := party_of_key "0xB" 4;
        rq_aAmount := 10; rq_bAmount := 5; rq_mode := Some ModeOpen; rq_tunnelId := None;
        rq_coinType := None; rq_usesAddressBalance := true; rq_timeoutMs := None;
        rq_penaltyAmount := None |} |};
   {| p_id := 1; p_req := {| rq_partyA := party_of_key "0xA" 8; rq_partyB := party_of_key "0xB" 9;
        rq_aAmount := 10; rq_bAmount := 5; rq_mode := Some ModeOpen; rq_tunnelId := None;
        rq_coinType := None; rq_usesAddressBalance := true; rq_timeoutMs := None;
        rq_penaltyAmount := None |} |}].
Definition one_wallet_net : Net :=
  {| signs := [Ok "d"%string]; waited := [Ok tt]; blocks := [Ok (Some [new_tunnel "0x71"; new_tunnel "0x72"])];
     objects := [Ok (Some "0xA"); Ok (Some "0xA")]%string; stakes_ready := [];
     stake_coins := [Ok "0xc"%string]; log := [] |}.

Theorem same_address_shares_tunnel :
  map (fun p => po_publicKey (rq_partyA (p_req p))) one_wallet = [replicate 32 3; replicate 32 8] /\
  map st_outcome (snd (flushChunk "0x42" "0x9::m::M" FundMtpsCoin (Some "0x9::m::M"%string)
    one_wallet one_wallet_net (fun _ => quiet_net))) = [Returned "0x72"; Returned "0x72"]%string.
Proof. vm_compute. split; reflexivity. Qed.
