(* ===== verification/PayStreams.v ===== *)
(** Payments over time, on chain and in the client that predicts them: the linear
    stream of [sui_tunnel/sources/streaming_payment.move] with
    [frontend/src/onchain/streamingPayment.ts], and the spending allowance of
    [sui_tunnel/sources/examples/example_agent_allowance.move] with
    [frontend/src/onchain/agentAllowance.ts]. *)

From S2P Require Import Prelude.
From S2P Require Import Bytes.
From S2P Require Import Wire.
From S2P Require Import Crypto.
From S2P Require Import MoveTunnel.
From S2P Require Import TunnelContract.
From S2P Require Import TxBuilders.

(** The fields as the client reads them are the fields of the object; a coin is
    its value, and what a call transfers is returned as payments. *)

Lemma paid_to_cons a b x ps :
  paid_to a ((b, x) :: ps) = (if decide (b = a) then x else 0) + paid_to a ps.
Proof. unfold paid_to. rewrite filter_cons. cbn [fst]. by destruct (decide (b = a)). Qed.

Lemma paid_to_app a ps qs : paid_to a (ps ++ qs) = paid_to a ps + paid_to a qs.
Proof. unfold paid_to. by rewrite filter_app, paid_app. Qed.

Lemma paid_to_nil a : paid_to a [] = 0.
Proof. done. Qed.

(** [x as u64]: aborts when it does not fit. *)
Definition as_u64 (x : Z) : move Z := assert! x <=? U64_MAX else ArithmeticError ; Done x.

(** [a * b] on [u128]. *)
Definition u128_mul (a b : Z) : move Z :=
  assert! a * b <? 2 ^ 128 else ArithmeticError ; Done (a * b).

(** [a + b] on [u128]. *)
Definition u128_add (a b : Z) : move Z :=
  assert! a + b <? 2 ^ 128 else ArithmeticError ; Done (a + b).

Lemma U64_sq : U64_MAX * U64_MAX + U64_MAX < 2 ^ 128.
Proof. by vm_compute. Qed.

Module Stream.

(** [src sui_tunnel/sources/streaming_payment.move:53-60 STATUS_ACTIVE] *)
Definition STATUS_ACTIVE : Z := 0.
Definition STATUS_COMPLETED : Z := 1.
Definition STATUS_CANCELLED : Z := 2.
(** [src sui_tunnel/sources/streaming_payment.move MIN_DURATION_MS] *)
Definition MIN_DURATION_MS : Z := 60_000.

(** [src sui_tunnel/sources/streaming_payment.move PaymentStream] *)
Record PaymentStream := {
  sender : Move.addr;
  recipient : Move.addr;
  total_amount : Z;
  withdrawn_amount : Z;
  funds : Z;
  start_time_ms : Z;
  end_time_ms : Z;
  memo : bytes;
  status : Z
}.

(** [src sui_tunnel/sources/streaming_payment.move calculate_unlocked] *)
Definition calculate_unlocked (s : PaymentStream) (now : Z) : move Z :=
  if now <=? start_time_ms s then Done 0
  else if end_time_ms s <=? now then Done (total_amount s)
  else
    let* elapsed := u64_sub now (start_time_ms s) in
    let* duration := u64_sub (end_time_ms s) (start_time_ms s) in
    let* p := u128_mul (total_amount s) elapsed in
    assert! negb (duration =? 0) else ArithmeticError ;
    as_u64 (p / duration).

(** [src sui_tunnel/sources/streaming_payment.move create_stream] *)
Definition create_stream (who to : Move.addr) (payment duration : Z) (m : bytes) (now : Z)
  : move PaymentStream :=
  assert! negb (bool_decide (who = to)) else EInvalidParties ;
  assert! 0 <? payment else EInvalidDepositAmount ;
  assert! MIN_DURATION_MS <=? duration else EInvalidTimeout ;
  let* finish := u64_add now duration in
  Done {| sender := who; recipient := to; total_amount := payment; withdrawn_amount := 0;
          funds := payment; start_time_ms := now; end_time_ms := finish; memo := m;
          status := STATUS_ACTIVE |}.

Definition with_funds (withdrawn bal st : Z) (s : PaymentStream) : PaymentStream :=
  {| sender := sender s; recipient := recipient s; total_amount := total_amount s;
     withdrawn_amount := withdrawn; funds := bal; start_time_ms := start_time_ms s;
     end_time_ms := end_time_ms s; memo := memo s; status := st |}.

(** The status after a withdrawal up to [withdrawn]. *)
Definition drained (s : PaymentStream) (withdrawn : Z) : Z :=
  if total_amount s <=? withdrawn then STATUS_COMPLETED else status s.

(** [src sui_tunnel/sources/streaming_payment.move withdraw] *)
Definition withdraw (s : PaymentStream) (who : Move.addr) (now : Z)
  : move (PaymentStream * list Move.payment) :=
  assert! bool_decide (who = recipient s) else ENotAuthorized ;
  assert! status s =? STATUS_ACTIVE else EInvalidState ;
  let* unlocked := calculate_unlocked s now in
  let* available := u64_sub unlocked (withdrawn_amount s) in
  assert! 0 <? available else EInsufficientBalance ;
  let* bal := balance_split (funds s) available in
  Done (with_funds unlocked bal (drained s unlocked) s, [(recipient s, available)]).

(** [src sui_tunnel/sources/streaming_payment.move withdraw_amount] *)
Definition withdraw_amount (s : PaymentStream) (amount : Z) (who : Move.addr) (now : Z)
  : move (PaymentStream * list Move.payment) :=
  assert! bool_decide (who = recipient s) else ENotAuthorized ;
  assert! status s =? STATUS_ACTIVE else EInvalidState ;
  let* unlocked := calculate_unlocked s now in
  let* available := u64_sub unlocked (withdrawn_amount s) in
  assert! (0 <? amount) && (amount <=? available) else EInsufficientBalance ;
  let* w := u64_add (withdrawn_amount s) amount in
  let* bal := balance_split (funds s) amount in
  Done (with_funds w bal (drained s w) s, [(recipient s, amount)]).

(** [src sui_tunnel/sources/streaming_payment.move cancel_stream] *)
Definition cancel_stream (s : PaymentStream) (who : Move.addr) (now : Z)
  : move (PaymentStream * list Move.payment) :=
  assert! bool_decide (who = sender s) else ENotAuthorized ;
  assert! status s =? STATUS_ACTIVE else EInvalidState ;
  let* unlocked := calculate_unlocked s now in
  let* owed := u64_sub unlocked (withdrawn_amount s) in
  let* refund := u64_sub (funds s) owed in
  let* bal := (if 0 <? owed then balance_split (funds s) owed else Done (funds s)) in
  let* rest := (if 0 <? refund then balance_split bal bal else Done bal) in
  let* _ := u64_add (withdrawn_amount s) owed in
  Done (with_funds (withdrawn_amount s) rest STATUS_CANCELLED s,
        (if 0 <? owed then [(recipient s, owed)] else []) ++
        (if 0 <? refund then [(sender s, bal)] else [])).

(** [src sui_tunnel/sources/streaming_payment.move top_up] *)
Definition top_up (s : PaymentStream) (additional duration : Z) (who : Move.addr) (now : Z)
  : move PaymentStream :=
  assert! bool_decide (who = sender s) else ENotAuthorized ;
  assert! status s =? STATUS_ACTIVE else EInvalidState ;
  assert! now <? end_time_ms s else ETimeoutReached ;
  assert! 0 <? additional else EInvalidDepositAmount ;
  assert! 0 <? duration else EInvalidParameter ;
  let* prev := calculate_unlocked s now in
  let* total := u64_add (total_amount s) additional in
  let* bal := u64_add (funds s) additional in
  let* finish := u64_add (end_time_ms s) duration in
  let s := {| sender := sender s; recipient := recipient s; total_amount := total;
              withdrawn_amount := withdrawn_amount s; funds := bal;
              start_time_ms := start_time_ms s; end_time_ms := finish; memo := memo s;
              status := status s |} in
  let* new := calculate_unlocked s now in
  assert! prev <=? new else EInvalidParameter ;
  Done s.

(** [src sui_tunnel/sources/streaming_payment.move available_balance] *)
Definition available_balance (s : PaymentStream) (now : Z) : move Z :=
  let* unlocked := calculate_unlocked s now in
  if withdrawn_amount s <? unlocked then u64_sub unlocked (withdrawn_amount s) else Done 0.

(** [src sui_tunnel/sources/streaming_payment.move remaining_balance] *)
Definition remaining_balance (s : PaymentStream) (now : Z) : move Z :=
  let* unlocked := calculate_unlocked s now in
  u64_sub (total_amount s) unlocked.

(** [src sui_tunnel/sources/streaming_payment.move rate_per_ms] *)
Definition rate_per_ms (s : PaymentStream) : move Z :=
  let* duration := u64_sub (end_time_ms s) (start_time_ms s) in
  assert! negb (duration =? 0) else ArithmeticError ;
  Done (total_amount s / duration).

(** * The client's arithmetic *)

(** [src frontend/src/onchain/streamingPayment.ts MIN_DURATION_MS] *)
Definition CLIENT_MIN_DURATION_MS : Z := 3_600_000.

(** [src frontend/src/onchain/streamingPayment.ts computeUnlocked]; BigInt division
    truncates. *)
Definition computeUnlocked (s : PaymentStream) (nowMs : Z) : Z :=
  if nowMs <=? start_time_ms s then 0
  else if end_time_ms s <=? nowMs then total_amount s
  else (total_amount s * (nowMs - start_time_ms s)) ÷ (end_time_ms s - start_time_ms s).

(** [src frontend/src/onchain/streamingPayment.ts computeAvailable] *)
Definition computeAvailable (s : PaymentStream) (nowMs : Z) : Z :=
  let unlocked := computeUnlocked s nowMs in
  if withdrawn_amount s <? unlocked then unlocked - withdrawn_amount s else 0.

(** [src frontend/src/onchain/streamingPayment.ts computeLocked] *)
Definition computeLocked (s : PaymentStream) (nowMs : Z) : Z :=
  let unlocked := computeUnlocked s nowMs in
  if unlocked <? total_amount s then total_amount s - unlocked else 0.

Definition duration_or_1 (s : PaymentStream) : Z :=
  if start_time_ms s <? end_time_ms s then end_time_ms s - start_time_ms s else 1.

(** [src frontend/src/onchain/streamingPayment.ts ratePerSecond] *)
Definition ratePerSecond (s : PaymentStream) : Z := (total_amount s * 1000) ÷ duration_or_1 s.

(** [src frontend/src/onchain/streamingPayment.ts topUpAmountFor] *)
Definition topUpAmountFor (s : PaymentStream) (addedMs : Z) : Z :=
  (total_amount s * addedMs + duration_or_1 s - 1) ÷ duration_or_1 s.

(** [src frontend/src/onchain/streamingPayment.ts streamStatusName] *)
Definition streamStatusName (st : Z) : string :=
  if st =? 0 then "Active" else if st =? 1 then "Completed"
  else if st =? 2 then "Cancelled" else "Unknown".

(** * Its transactions *)

Section Builders.
Context (package coin : string).

(** [src frontend/src/onchain/streamingPayment.ts:21-22 target] *)
Definition target (fn : string) : string := (package ++ "::streaming_payment::" ++ fn)%string.

(** [src frontend/src/onchain/streamingPayment.ts buildCreateStreamTx]; the memo as
    its UTF-8 bytes *)
Definition buildCreateStreamTx (stake : StakeFromBalance) (to : string) (durationMs : Z)
    (m : bytes) : Transaction :=
  let (tx, f) := redeemStakeFromBalance [] stake in
  tx ++ [MoveCall (target "create_stream") [coin]
           [PureAddress to; f; PureU64 durationMs; PureVecU8 m; CLOCK]].

(** [src frontend/src/onchain/streamingPayment.ts buildWithdrawTx] *)
Definition buildWithdrawTx (streamId : string) : Transaction :=
  [MoveCall (target "withdraw") [coin] [Obj streamId; CLOCK]].

(** [src frontend/src/onchain/streamingPayment.ts buildCancelStreamTx] *)
Definition buildCancelStreamTx (streamId : string) : Transaction :=
  [MoveCall (target "cancel_stream") [coin] [Obj streamId; CLOCK]].

(** [src frontend/src/onchain/streamingPayment.ts buildTopUpTx] *)
Definition buildTopUpTx (streamId : string) (stake : StakeFromBalance) (addedDurationMs : Z)
  : Transaction :=
  let (tx, f) := redeemStakeFromBalance [] stake in
  tx ++ [MoveCall (target "top_up") [coin] [Obj streamId; f; PureU64 addedDurationMs; CLOCK]].

End Builders.

(** * Invariant *)

Record ok (s : PaymentStream) : Prop := {
  ok_times : 0 <= start_time_ms s < end_time_ms s /\ end_time_ms s <= U64_MAX;
  ok_parties : sender s <> recipient s;
  ok_total : 0 <= withdrawn_amount s <= total_amount s /\ total_amount s <= U64_MAX;
  ok_status : (status s = STATUS_ACTIVE /\ funds s = total_amount s - withdrawn_amount s /\
               withdrawn_amount s < total_amount s) \/
              (status s = STATUS_COMPLETED /\ funds s = 0 /\ withdrawn_amount s = total_amount s) \/
              (status s = STATUS_CANCELLED /\ funds s = 0)
}.

(** The unlocked amount on the integers: what both sides compute. *)
Definition unlocked (s : PaymentStream) (now : Z) : Z :=
  if now <=? start_time_ms s then 0
  else if end_time_ms s <=? now then total_amount s
  else total_amount s * (now - start_time_ms s) / (end_time_ms s - start_time_ms s).

Lemma unlocked_bounds s now : ok s -> 0 <= unlocked s now <= total_amount s.
Proof.
  intros [Ht _ Hb _]. unfold unlocked. destruct (Z.leb_spec now (start_time_ms s)); [lia|].
  destruct (Z.leb_spec (end_time_ms s) now); [lia|]. split.
  - apply Z.div_pos; nia.
  - apply Z.div_le_upper_bound; nia.
Qed.

Lemma calculate_ok s now : ok s -> 0 <= now -> calculate_unlocked s now = Done (unlocked s now).
Proof.
  intros Hok Hn. pose proof (unlocked_bounds s now Hok) as Hb. destruct Hok as [Ht _ Ha _].
  unfold calculate_unlocked, unlocked in *.
  destruct (Z.leb_spec now (start_time_ms s)); [done|].
  destruct (Z.leb_spec (end_time_ms s) now); [done|].
  rewrite !(proj2 (u64_sub_ok _ _ _)) by (split; [reflexivity|lia]). cbn [move_bind].
  unfold u128_mul. rewrite (proj2 (Z.ltb_lt _ _)).
  - cbn [move_bind]. rewrite (proj2 (Z.eqb_neq _ 0)) by lia. cbn [negb]. unfold as_u64.
    rewrite (proj2 (Z.leb_le _ _)); [done|lia].
  - eapply Z.le_lt_trans; [|exact U64_sq]. nia.
Qed.

Lemma unlocked_mono s t t' : ok s -> t <= t' -> unlocked s t <= unlocked s t'.
Proof.
  intros Hok Ht. pose proof (unlocked_bounds s t' Hok). pose proof (unlocked_bounds s t Hok).
  destruct Hok as [[Hs _] _ Ha _]. unfold unlocked in *.
  destruct (Z.leb_spec t (start_time_ms s)); [lia|].
  destruct (Z.leb_spec t' (start_time_ms s)); [lia|].
  destruct (Z.leb_spec (end_time_ms s) t'); [lia|].
  destruct (Z.leb_spec (end_time_ms s) t); [lia|].
  apply Z.div_le_mono; nia.
Qed.

Lemma client_unlocked s now : ok s -> computeUnlocked s now = unlocked s now.
Proof.
  intros [Ht _ Ha _]. unfold computeUnlocked, unlocked.
  destruct (Z.leb_spec now (start_time_ms s)); [done|].
  destruct (Z.leb_spec (end_time_ms s) now); [done|]. apply Z.quot_div_nonneg; nia.
Qed.

(** * What can happen to a stream *)

Inductive call :=
  | Withdraw
  | WithdrawAmount (amount : Z)
  | Cancel
  | TopUp (additional duration : Z).

Definition call_ok (c : call) : Prop :=
  match c with
  | WithdrawAmount x => u64_range x
  | TopUp x d => u64_range x /\ u64_range d
  | _ => True
  end.

Definition exec (c : call) (who : Move.addr) (now : Z) (s : PaymentStream)
  : move (PaymentStream * list Move.payment) :=
  match c with
  | Withdraw => withdraw s who now
  | WithdrawAmount x => withdraw_amount s x who now
  | Cancel => cancel_stream s who now
  | TopUp x d => let* s := top_up s x d who now in Done (s, [])
  end.

Definition brings (c : call) : Z := match c with TopUp x _ => x | _ => 0 end.

(** What the recipient could take at [now]. *)
Definition earned (s : PaymentStream) (now : Z) : Z :=
  if status s =? STATUS_ACTIVE then unlocked s now - withdrawn_amount s else 0.

(** A stream in order at [now]: nothing was withdrawn that is not unlocked. *)
Definition sound (s : PaymentStream) (now : Z) : Prop :=
  ok s /\ 0 <= now /\ (status s = STATUS_ACTIVE -> withdrawn_amount s <= unlocked s now).

Lemma sound_later s t t' : sound s t -> t <= t' -> sound s t'.
Proof.
  intros (Hok & Ht & Hw) Hle. split; [done|]. split; [lia|]. intros Ha.
  pose proof (unlocked_mono s t t' Hok Hle). specialize (Hw Ha). lia.
Qed.

Lemma earned_later s t t' : sound s t -> t <= t' -> 0 <= earned s t <= earned s t'.
Proof.
  intros (Hok & Ht & Hw) Hle. unfold earned. pose proof (unlocked_mono s t t' Hok Hle).
  destruct (Z.eqb_spec (status s) STATUS_ACTIVE) as [E|_]; [specialize (Hw E)|]; lia.
Qed.

Lemma active_funds s : ok s -> status s = STATUS_ACTIVE ->
  funds s = total_amount s - withdrawn_amount s /\ withdrawn_amount s < total_amount s.
Proof. intros [_ _ _ Hs] E. rewrite E in Hs. naive_solver. Qed.

Lemma completed_drained s : ok s -> status s = STATUS_COMPLETED ->
  withdrawn_amount s = total_amount s.
Proof. intros [_ _ _ Hs] E. rewrite E in Hs. naive_solver. Qed.

(** Lower the funds and raise the withdrawn amount of an active stream alike. *)
Lemma ok_drained s w :
  ok s -> status s = STATUS_ACTIVE -> withdrawn_amount s <= w <= total_amount s ->
  ok (with_funds w (funds s - (w - withdrawn_amount s)) (drained s w) s).
Proof.
  intros Hok E Hw. destruct (active_funds s Hok E) as [Hf _]. destruct Hok as [Ht Hp Ha _].
  split; cbn; [done|done|lia|]. unfold drained.
  destruct (Z.leb_spec (total_amount s) w); [right; left|left]; rewrite ?E; split_and!; try done; lia.
Qed.

Lemma unlocked_with_funds s w f st now : unlocked (with_funds w f st s) now = unlocked s now.
Proof. done. Qed.

Definition effect (s : PaymentStream) (now : Z) (brought : Z) (s' : PaymentStream)
    (ps : list Move.payment) : Prop :=
  sound s' now /\ sender s' = sender s /\ recipient s' = recipient s /\
  funds s + brought = funds s' + paid ps /\
  (status s' <> STATUS_CANCELLED ->
   withdrawn_amount s' = withdrawn_amount s + paid_to (recipient s) ps) /\
  earned s now <= paid_to (recipient s) ps + earned s' now.

Lemma pay_effect s now w :
  sound s now -> status s = STATUS_ACTIVE -> withdrawn_amount s < w <= unlocked s now ->
  effect s now 0 (with_funds w (funds s - (w - withdrawn_amount s)) (drained s w) s)
    [(recipient s, w - withdrawn_amount s)].
Proof.
  intros (Hok & Hn & Hw) E Hle. pose proof (unlocked_bounds s now Hok) as Hb.
  pose proof (ok_drained s w Hok E ltac:(lia)) as Hok'.
  split; [split; [done|split; [done|]]|].
  - intros _. rewrite unlocked_with_funds. cbn. lia.
  - split_and!; try done; [cbn; lia| |].
    { rewrite paid_to_cons, paid_to_nil, decide_True by done. cbn. lia. }
    rewrite paid_to_cons, paid_to_nil, decide_True by done. unfold earned. rewrite E. cbn [Z.eqb STATUS_ACTIVE status with_funds].
    rewrite unlocked_with_funds. cbn [withdrawn_amount with_funds]. unfold drained.
    destruct (Z.leb_spec (total_amount s) w); [|rewrite E]; cbn; lia.
Qed.

Lemma cancel_effect s now :
  sound s now -> status s = STATUS_ACTIVE ->
  exists s' ps, cancel_stream s (sender s) now = Done (s', ps) /\ effect s now 0 s' ps /\
    status s' = STATUS_CANCELLED /\
    paid_to (recipient s) ps = earned s now /\ paid_to (sender s) ps = funds s - earned s now.
Proof.
  intros (Hok & Hn & Hw) E. destruct (active_funds s Hok E) as [Hf Hlt]. specialize (Hw E).
  pose proof (unlocked_bounds s now Hok) as Hb. pose proof Hok as [Ht Hp Ha _].
  unfold cancel_stream. rewrite bool_decide_eq_true_2 by done. rewrite E.
  cbn [Z.eqb STATUS_ACTIVE]. rewrite (calculate_ok s now Hok Hn). cbn [move_bind].
  set (u := unlocked s now) in *.
  rewrite (proj2 (u64_sub_ok u _ _)) by (split; [reflexivity|lia]). cbn [move_bind].
  rewrite (proj2 (u64_sub_ok (funds s) _ _)) by (split; [reflexivity|lia]). cbn [move_bind].
  assert (earned s now = u - withdrawn_amount s) as He
    by (unfold earned; rewrite E; done).
  set (owed := u - withdrawn_amount s) in *.
  assert (0 <= owed <= funds s) as Hr by (unfold owed; lia).
  assert ((if 0 <? owed then balance_split (funds s) owed else Done (funds s))
    = Done (funds s - owed)) as ->.
  { destruct (Z.ltb_spec 0 owed); [apply balance_split_ok; lia|f_equal; lia]. }
  cbn [move_bind].
  assert ((if 0 <? funds s - owed then balance_split (funds s - owed) (funds s - owed)
    else Done (funds s - owed)) = Done 0) as ->.
  { destruct (Z.ltb_spec 0 (funds s - owed)); [apply balance_split_ok; lia|f_equal; lia]. }
  cbn [move_bind]. rewrite (proj2 (u64_add_ok _ _ _)) by (split; [reflexivity|lia]).
  cbn [move_bind]. eexists _, _. split; [reflexivity|].
  set (ps := (if 0 <? owed then _ else _) ++ _).
  assert (paid ps = funds s /\ paid_to (recipient s) ps = owed /\
    paid_to (sender s) ps = funds s - owed) as (P1 & P2 & P3).
  { unfold ps. rewrite paid_app, !paid_to_app.
    destruct (Z.ltb_spec 0 owed), (Z.ltb_spec 0 (funds s - owed)); cbn [paid fold_right snd];
      rewrite ?paid_to_cons, ?paid_to_nil; repeat case_decide; first [congruence|lia]. }
  rewrite He. split_and!; try done. split; [|split_and!; try done].
  - split; [|split; [done|]]; [|by intros].
    split; cbn; [done|done|lia|]. right; right. done.
  - cbn [funds with_funds]. lia.
  - rewrite P2, He. unfold earned. cbn. lia.
Qed.

(** What a call that succeeds does: the stream stays in order, what it loses it
    pays out, and the recipient's due never drops. *)
Lemma exec_effect c who now s s' ps :
  sound s now -> call_ok c -> exec c who now s = Done (s', ps) ->
  status s = STATUS_ACTIVE /\ effect s now (brings c) s' ps.
Proof.
  intros Hs Hc H. pose proof Hs as (Hok & Hn & Hw).
  assert (status s = STATUS_ACTIVE) as E.
  { destruct c; cbn in H; unfold withdraw, withdraw_amount, cancel_stream, top_up in H; inv_done;
      by bool_to_prop. }
  split; [done|]. specialize (Hw E). pose proof (unlocked_bounds s now Hok) as Hb.
  destruct c as [|x| |x d]; cbn [exec brings] in *.
  - unfold withdraw in H. rewrite (calculate_ok s now Hok Hn) in H. inv_done. inv_u64. bool_to_prop.
    simplify_eq. apply pay_effect; [done|done|lia].
  - unfold withdraw_amount in H. rewrite (calculate_ok s now Hok Hn) in H. inv_done. inv_u64.
    bool_to_prop. simplify_eq.
    pose proof (pay_effect s now (withdrawn_amount s + x) Hs E ltac:(lia)) as P.
    by replace (withdrawn_amount s + x - withdrawn_amount s) with x in P by lia.
  - assert (who = sender s) as -> by (unfold cancel_stream in H; inv_done; bool_to_prop; done).
    destruct (cancel_effect s now Hs E) as (s1 & ps1 & H1 & He & _).
    rewrite H1 in H. apply Done_inj in H. by simplify_eq.
  - destruct Hc as [[? _] [? _]]. unfold top_up in H. inv_done. inv_u64. bool_to_prop.
    simplify_eq. destruct (active_funds s Hok E) as [Hf Hlt]. pose proof Hok as [Ht Hp Ha _].
    match goal with |- effect _ _ _ ?x _ => set (s2 := x) in * end.
    assert (ok s2) as Hok2.
    { split; cbn; [lia|done|lia|]. left. rewrite E. split_and!; [done|lia|lia]. }
    rewrite (calculate_ok s now Hok Hn) in *. rewrite (calculate_ok s2 now Hok2 Hn) in *.
    simplify_eq. split; [|split_and!; try done].
    + split; [done|split; [done|]]. intros _. cbn. lia.
    + cbn. lia.
    + rewrite paid_to_nil. cbn. lia.
    + rewrite paid_to_nil. unfold earned. cbn [status s2]. rewrite E. cbn. lia.
Qed.

(** The recipient can take what it has earned, at once. *)
Lemma withdraw_earned s now :
  sound s now -> status s = STATUS_ACTIVE ->
  if 0 <? earned s now
  then exists s', withdraw s (recipient s) now = Done (s', [(recipient s, earned s now)])
  else withdraw s (recipient s) now = Abort EInsufficientBalance.
Proof.
  intros (Hok & Hn & Hw) E. specialize (Hw E). destruct (active_funds s Hok E) as [Hf Hlt].
  pose proof (unlocked_bounds s now Hok) as Hb.
  unfold earned, withdraw. rewrite bool_decide_eq_true_2, E, (calculate_ok s now Hok Hn) by done.
  cbn [Z.eqb STATUS_ACTIVE move_bind].
  rewrite (proj2 (u64_sub_ok (unlocked s now) _ _)) by (split; [reflexivity|lia]). cbn [move_bind].
  destruct (Z.ltb_spec 0 (unlocked s now - withdrawn_amount s)); [|done].
  rewrite (proj2 (balance_split_ok _ _ _)) by (split; [reflexivity|lia]). by eexists.
Qed.

(** * Theorems *)

(** C37: the client predicts what the contract pays.  For a stream in order, the
    client's exact integers agree with the contract's checked 64- and 128-bit
    arithmetic, which never overflows: the unlocked, the available and the locked
    amount are the same.  While the stream is active, a withdrawal by the recipient
    pays exactly the available amount, or is refused if it is zero; once it is
    not, every withdrawal is refused, and of a completed stream the client shows
    nothing available (of a cancelled one it may: [cancelled_stream_shows_funds]). *)
Theorem stream_client_agrees s now :
  sound s now ->
  calculate_unlocked s now = Done (computeUnlocked s now) /\
  available_balance s now = Done (computeAvailable s now) /\
  remaining_balance s now = Done (computeLocked s now) /\
  (status s = STATUS_ACTIVE ->
   if 0 <? computeAvailable s now
   then exists s', withdraw s (recipient s) now =
     Done (s', [(recipient s, computeAvailable s now)])
   else withdraw s (recipient s) now = Abort EInsufficientBalance) /\
  (status s <> STATUS_ACTIVE -> withdraw s (recipient s) now = Abort EInvalidState) /\
  (status s = STATUS_COMPLETED -> computeAvailable s now = 0).
Proof.
  intros (Hok & Hn & Hw). pose proof (unlocked_bounds s now Hok) as Hb.
  unfold available_balance, remaining_balance, computeAvailable, computeLocked.
  rewrite client_unlocked, (calculate_ok s now Hok Hn) by done. cbn [move_bind].
  set (u := unlocked s now) in *. split_and!; [done| | | | |].
  - destruct (Z.ltb_spec (withdrawn_amount s) u); [apply u64_sub_ok; lia|done].
  - destruct (Z.ltb_spec u (total_amount s)); [apply u64_sub_ok; lia|].
    replace u with (total_amount s) by lia. apply u64_sub_ok. lia.
  - intros E. pose proof (withdraw_earned s now (conj Hok (conj Hn Hw)) E) as H.
    unfold earned in H. rewrite E in H. cbn [Z.eqb STATUS_ACTIVE] in H. fold u in H.
    destruct (Z.ltb_spec (withdrawn_amount s) u).
    + by rewrite (proj2 (Z.ltb_lt 0 _)) in H |- * by lia.
    + rewrite (proj2 (Z.ltb_ge 0 0)) by lia. by rewrite (proj2 (Z.ltb_ge 0 _)) in H by lia.
  - intros E. unfold withdraw. rewrite bool_decide_eq_true_2 by done.
    by rewrite (proj2 (Z.eqb_neq _ _) E).
  - intros E. assert (withdrawn_amount s = total_amount s) as -> by (by apply completed_drained).
    by rewrite (proj2 (Z.ltb_ge _ _)) by lia.
Qed.

Record event := { ev_call : call; ev_who : Move.addr; ev_now : Z }.

(** The stream, the payments and what was added, after a list of calls; one that
    aborts changes nothing. *)
Fixpoint history (s : PaymentStream) (evs : list event)
  : PaymentStream * list Move.payment * Z :=
  match evs with
  | [] => (s, [], 0)
  | e :: evs =>
      match exec (ev_call e) (ev_who e) (ev_now e) s with
      | Done (s', ps) =>
          let '(s2, qs, x) := history s' evs in (s2, ps ++ qs, brings (ev_call e) + x)
      | Abort _ => history s evs
      end
  end.

(** The clock does not go back, and the calls are well formed. *)
Fixpoint timed (t : Z) (evs : list event) : Prop :=
  match evs with
  | [] => True
  | e :: evs => t <= ev_now e /\ call_ok (ev_call e) /\ timed (ev_now e) evs
  end.

Definition last_time (t : Z) (evs : list event) : Z := fold_left (fun _ e => ev_now e) evs t.

Lemma history_over s evs :
  status s <> STATUS_ACTIVE -> history s evs = (s, [], 0).
Proof.
  intros Hs. induction evs as [|e evs IH]; [done|]. cbn [history].
  enough (exists a, exec (ev_call e) (ev_who e) (ev_now e) s = Abort a) as [a ->] by done.
  apply Z.eqb_neq in Hs.
  destruct (ev_call e); cbn; unfold withdraw, withdraw_amount, cancel_stream, top_up;
    rewrite Hs; case_match; eexists; done.
Qed.

Lemma timed_app evs evs' : forall t,
  timed t (evs ++ evs') -> timed t evs /\ timed (last_time t evs) evs'.
Proof.
  induction evs as [|e evs IH]; intros t Ht; [done|]. cbn in *. destruct Ht as (? & ? & Ht).
  destruct (IH _ Ht). done.
Qed.

(** What a list of calls does, from [t] to [t']. *)
Definition outcome_of (s : PaymentStream) (t x : Z) (s' : PaymentStream) (t' : Z)
    (ps : list Move.payment) : Prop :=
  sound s' t' /\ t <= t' /\ sender s' = sender s /\ recipient s' = recipient s /\
  funds s + x = funds s' + paid ps /\
  (status s' <> STATUS_CANCELLED ->
   withdrawn_amount s' = withdrawn_amount s + paid_to (recipient s) ps) /\
  earned s t <= paid_to (recipient s) ps + earned s' t'.

Lemma history_effect evs : forall s t,
  sound s t -> timed t evs ->
  let '(s', ps, x) := history s evs in outcome_of s t x s' (last_time t evs) ps.
Proof.
  induction evs as [|[c who now] evs IH]; intros s t Hs Ht; cbn [history].
  { unfold outcome_of. rewrite paid_to_nil. cbn. split_and!; try done; lia. }
  cbn [timed ev_now ev_call ev_who] in *. destruct Ht as (Hle & Hc & Ht).
  pose proof (sound_later s t now Hs Hle) as Hs1.
  pose proof (earned_later s t now Hs Hle) as [_ He1].
  destruct (exec c who now s) as [[s1 ps]|a] eqn:E.
  - destruct (exec_effect c who now s s1 ps Hs1 Hc E) as
      (Ea & Hs2 & Es & Er & Hf & Hw & He).
    specialize (IH s1 now Hs2 Ht). cbn [last_time fold_left ev_now].
    fold (last_time now evs).
    assert (status s1 = STATUS_CANCELLED -> history s1 evs = (s1, [], 0)) as Hover.
    { intros Est. apply history_over. by rewrite Est. }
    destruct (history s1 evs) as [[s2 qs] x].
    destruct IH as (Hs3 & Hle3 & Es3 & Er3 & Hf3 & Hw3 & He3).
    rewrite Er in *. unfold outcome_of. rewrite paid_app, paid_to_app.
    split_and!; try done; try congruence; try lia. intros H2.
    destruct (decide (status s1 = STATUS_CANCELLED)) as [Est|Est].
    + specialize (Hover Est). by simplify_eq.
    + rewrite Hw3, Hw by done. lia.
  - specialize (IH s now Hs1 Ht). destruct (history s evs) as [[s2 qs] x].
    destruct IH as (Hs3 & Hle3 & Es3 & Er3 & Hf3 & Hw3 & He3).
    split_and!; try done; cbn [last_time fold_left ev_now]; fold (last_time now evs); lia.
Qed.

(** C38: what is earned is safe.  Whoever calls what on a stream, as long as the
    clock does not go back: everything put in is in the stream or was paid out;
    while the stream runs the recipient has had exactly what is booked as
    withdrawn, and that is unlocked; and what the recipient has had plus what it
    can take never drops -- no top-up and no cancellation takes away what was
    unlocked -- and can be taken at once while the stream is active. *)
Theorem stream_pays_what_is_earned who to x d m t0 s0 evs evs' :
  create_stream who to x d m t0 = Done s0 -> 0 <= t0 -> x <= U64_MAX -> timed t0 (evs ++ evs') ->
  let '(s1, ps1, in1) := history s0 evs in
  let '(s2, ps2, in2) := history s1 evs' in
  let t1 := last_time t0 evs in
  let t2 := last_time t1 evs' in
  x + in1 + in2 = funds s2 + paid (ps1 ++ ps2) /\
  (status s2 <> STATUS_ACTIVE -> funds s2 = 0) /\
  (status s2 = STATUS_ACTIVE ->
     paid_to to (ps1 ++ ps2) = withdrawn_amount s2 /\ withdrawn_amount s2 <= computeUnlocked s2 t2 /\
     (0 < earned s2 t2 -> exists s3, withdraw s2 to t2 = Done (s3, [(to, earned s2 t2)]))) /\
  paid_to to ps1 + earned s1 t1 <= paid_to to (ps1 ++ ps2) + earned s2 t2.
Proof.
  intros Hc Ht0 Hx Htm. unfold create_stream in Hc. inv_done. inv_u64. bool_to_prop.
  match goal with |- context [history ?s evs] => set (s0 := s) in * end.
  assert (sound s0 t0) as Hs0.
  { unfold MIN_DURATION_MS in *. split; [|split; [done|]].
    - split; cbn; [lia|done|lia|]. left. split_and!; [done|lia|lia].
    - intros _. by apply unlocked_bounds; split; cbn; [lia|done|lia|left; split_and!; [done|lia|lia]]. }
  apply timed_app in Htm as [Hta Htb].
  pose proof (history_effect evs s0 t0 Hs0 Hta) as H1.
  destruct (history s0 evs) as [[s1 ps1] in1].
  destruct H1 as (Hs1 & Hl1 & _ & Er1 & Hf1 & Hw1 & He1).
  pose proof (history_effect evs' s1 _ Hs1 Htb) as H2.
  destruct (history s1 evs') as [[s2 ps2] in2] eqn:E2. cbv zeta.
  destruct H2 as (Hs2 & Hl2 & _ & Er2 & Hf2 & Hw2 & He2).
  rewrite Er1 in *. change (recipient s0) with to in *. change (funds s0) with x in *.
  change (withdrawn_amount s0) with 0 in *. rewrite paid_app, paid_to_app.
  set (t2 := last_time (last_time t0 evs) evs') in *.
  split; [lia|]. split; [|split; [|lia]].
  - intros Hst. destruct Hs2 as ([_ _ _ [[? _]|[(_ & ? & _)|[_ ?]]]] & _); done.
  - intros Hst. assert (status s1 <> STATUS_CANCELLED) as Hn1.
    { intros Ec. rewrite history_over in E2 by (by rewrite Ec). simplify_eq. by rewrite Ec in Hst. }
    rewrite Hw1 in Hw2 by done. specialize (Hw2 ltac:(by rewrite Hst)).
    destruct Hs2 as (Hok2 & Hn2 & Hwd). split; [lia|].
    split; [rewrite client_unlocked by done; by apply Hwd|]. intros He.
    pose proof (withdraw_earned s2 t2 (conj Hok2 (conj Hn2 Hwd)) Hst) as Hpay.
    rewrite (proj2 (Z.ltb_lt 0 _) He), Er2 in Hpay. exact Hpay.
Qed.

(** The stream after a top-up. *)
Definition extended (s : PaymentStream) (x d : Z) : PaymentStream :=
  {| sender := sender s; recipient := recipient s; total_amount := total_amount s + x;
     withdrawn_amount := withdrawn_amount s; funds := funds s + x;
     start_time_ms := start_time_ms s; end_time_ms := end_time_ms s + d; memo := memo s;
     status := status s |}.

Lemma ok_extended s x d :
  ok s -> status s = STATUS_ACTIVE -> 0 <= x -> 0 <= d -> total_amount s + x <= U64_MAX ->
  end_time_ms s + d <= U64_MAX -> ok (extended s x d).
Proof.
  intros Hok E Hx Hd Ht He. destruct (active_funds s Hok E). destruct Hok as [? ? ? _].
  split; cbn; [lia|done|lia|]. left. rewrite E. split_and!; [done|lia|lia].
Qed.

(** A rate that does not fall keeps the whole curve up. *)
Lemma unlocked_extended s x d t :
  ok s -> 0 <= d -> 0 <= x ->
  total_amount s * d <= x * (end_time_ms s - start_time_ms s) ->
  unlocked s t <= unlocked (extended s x d) t.
Proof.
  intros [Ht _ Ha _] Hd Hx Hrate. unfold unlocked. cbn [extended start_time_ms end_time_ms total_amount].
  destruct (Z.leb_spec t (start_time_ms s)); [lia|].
  set (D := end_time_ms s - start_time_ms s) in *. set (e := t - start_time_ms s).
  assert (end_time_ms s + d - start_time_ms s = D + d) as -> by lia.
  assert (total_amount s * (D + d) <= (total_amount s + x) * D) as Hk by nia.
  destruct (Z.leb_spec (end_time_ms s) t), (Z.leb_spec (end_time_ms s + d) t); [lia| |lia|].
  - apply Z.div_le_lower_bound; [lia|]. assert (D <= e) by lia. nia.
  - assert (0 < D) by lia. assert (0 < e) by lia. apply Z.div_le_lower_bound; [lia|].
    pose proof (Z.mul_div_le (total_amount s * e) D ltac:(lia)) as Hq.
    set (q := total_amount s * e / D) in *.
    assert (0 <= q) by (apply Z.div_pos; nia).
    apply (Z.mul_le_mono_pos_r _ _ D); [lia|].
    transitivity ((D + d) * (total_amount s * e)); [nia|]. nia.
Qed.

(** A top-up at a constant rate.  The amount the client computes for an
    extension is accepted by the contract whenever it fits its integers, and the
    recipient's curve is then nowhere below the old one, at any time. *)
Theorem top_up_at_constant_rate s d now :
  sound s now -> status s = STATUS_ACTIVE -> now < end_time_ms s -> 0 < d ->
  let x := topUpAmountFor s d in
  total_amount s + x <= U64_MAX -> end_time_ms s + d <= U64_MAX ->
  top_up s x d (sender s) now = Done (extended s x d) /\
  forall t, computeUnlocked s t <= computeUnlocked (extended s x d) t.
Proof.
  intros (Hok & Hn & Hw) E Hlt Hd x Hmax Hend. destruct (active_funds s Hok E) as [Hf Hltw].
  pose proof Hok as [Ht _ Ha _]. set (D := end_time_ms s - start_time_ms s).
  assert (x = (total_amount s * d + D - 1) / D) as Ex.
  { unfold x, topUpAmountFor, duration_or_1. rewrite (proj2 (Z.ltb_lt _ _)) by lia.
    apply Z.quot_div_nonneg; nia. }
  assert (total_amount s * d <= x * D) as Hrate.
  { pose proof (Z.mod_pos_bound (total_amount s * d + D - 1) D ltac:(lia)).
    pose proof (Z.div_mod (total_amount s * d + D - 1) D ltac:(lia)). rewrite <- Ex in *. lia. }
  assert (0 < x) as Hx by nia.
  pose proof (ok_extended s x d Hok E ltac:(lia) ltac:(lia) Hmax Hend) as Hok'.
  pose proof (fun t => unlocked_extended s x d t Hok ltac:(lia) ltac:(lia) Hrate) as Hmono.
  split; [|intros t; by rewrite !client_unlocked].
  unfold top_up. rewrite bool_decide_eq_true_2, E, (proj2 (Z.ltb_lt _ _) Hlt) by done.
  rewrite (proj2 (Z.ltb_lt 0 x) Hx), (proj2 (Z.ltb_lt 0 d) Hd).
  cbn [Z.eqb STATUS_ACTIVE]. rewrite (calculate_ok s now Hok Hn). cbn [move_bind].
  rewrite !(proj2 (u64_add_ok _ _ _)) by (split; [reflexivity|lia]). cbn [move_bind].
  rewrite <- E. fold (extended s x d). rewrite (calculate_ok _ now Hok' Hn). cbn [move_bind].
  by rewrite (proj2 (Z.leb_le _ _) (Hmono now)).
Qed.

(** The contract itself only compares the two curves at the present instant: at the
    start of a stream, one base unit and a long extension are accepted and push the
    recipient's money far into the future. *)
Theorem top_up_can_flatten :
  exists s s', create_stream [1] [2] 1_000_000 60_000 [] 0 = Done s /\
    top_up s 1 (365 * 86_400_000) [1] 0 = Done s' /\
    computeUnlocked s 60_000 = 1_000_000 /\ computeUnlocked s' 60_000 = 1.
Proof. eexists _, _. split; [reflexivity|]. split; [reflexivity|]. split; reflexivity. Qed.

(** The client's available amount does not look at the status: a stream that is
    cancelled halfway has paid both sides and is empty, but the client goes on
    showing, and counting up to, what the recipient could withdraw. *)
Theorem cancelled_stream_shows_funds :
  exists s s', create_stream [1] [2] 1_000 60_000 [] 0 = Done s /\
    cancel_stream s [1] 30_000 = Done (s', [([2], 500); ([1], 500)]) /\ funds s' = 0 /\
    computeAvailable s' 30_000 = 500 /\ computeAvailable s' 60_000 = 1_000 /\
    forall now, withdraw s' [2] now = Abort EInvalidState.
Proof. eexists _, _. split; [reflexivity|]. split; [reflexivity|]. split_and!; reflexivity. Qed.

(** The client asks for an hour where the contract, whose comment says the same,
    takes a minute. *)
Theorem shortest_stream_differs :
  CLIENT_MIN_DURATION_MS = 60 * MIN_DURATION_MS /\
  (exists s, create_stream [1] [2] 5 MIN_DURATION_MS [] 0 = Done s).
Proof. split; [reflexivity|]. eexists. reflexivity. Qed.

(** * Samples *)

Definition sample_events : list event :=
  [{| ev_call := Withdraw; ev_who := [2]; ev_now := 30_000 |};
   {| ev_call := TopUp 1_000 60_000; ev_who := [1]; ev_now := 30_000 |};
   {| ev_call := Withdraw; ev_who := [1]; ev_now := 40_000 |}].

Lemma stream_pays_what_is_earned_witness :
  exists s0, create_stream [1] [2] 1_000 60_000 [] 0 = Done s0 /\
    let '(s1, ps1, in1) := history s0 sample_events in
    let '(s2, ps2, in2) := history s1
      [{| ev_call := Cancel; ev_who := [1]; ev_now := 60_000 |}] in
    1_000 + in1 + in2 = funds s2 + paid (ps1 ++ ps2) /\ ps1 = [([2], 500)] /\
    ps2 = [([2], 500); ([1], 1_000)].
Proof.
  eexists. split; [reflexivity|].
  match goal with |- context [history ?s sample_events] => set (s0 := s) end.
  pose proof (stream_pays_what_is_earned [1] [2] 1_000 60_000 [] 0 s0 sample_events
    [{| ev_call := Cancel; ev_who := [1]; ev_now := 60_000 |}] eq_refl ltac:(lia)
    ltac:(by vm_compute) ltac:(repeat split; by vm_compute)) as H.
  destruct (history s0 sample_events) as [[s1 ps1] in1] eqn:E1.
  vm_compute in E1. injection E1 as <- <- <-.
  destruct (history _ [_]) as [[s2 ps2] in2] eqn:E2. vm_compute in E2. injection E2 as <- <- <-.
  split; [exact (proj1 H)|]. split; reflexivity.
Defined.

Lemma sample_stream_ok now :
  0 <= now -> exists s, create_stream [1] [2] 1_000 60_000 [] 0 = Done s /\ sound s now /\
    status s = STATUS_ACTIVE.
Proof.
  intros Hn. eexists. split; [reflexivity|]. split; [|reflexivity].
  match goal with |- sound ?s _ => assert (ok s) as Hok end.
  { split; cbn; [split; [lia|by vm_compute]|done|split; [lia|by vm_compute]|].
    left. split_and!; [done|lia|lia]. }
  split; [done|]. split; [done|]. intros _. cbn. by apply unlocked_bounds.
Qed.

Lemma stream_client_agrees_witness :
  exists s, create_stream [1] [2] 1_000 60_000 [] 0 = Done s /\
    available_balance s 20_000 = Done (computeAvailable s 20_000) /\
    computeAvailable s 20_000 = 333 /\
    exists s', withdraw s (recipient s) 20_000 = Done (s', [(recipient s, 333)]).
Proof.
  destruct (sample_stream_ok 20_000 ltac:(lia)) as (s & E & Hs & Hst). exists s. split; [exact E|].
  destruct (stream_client_agrees s 20_000 Hs) as (_ & Ha & _ & Hw & _). specialize (Hw Hst).
  assert (computeAvailable s 20_000 = 333) as Hv
    by (clear - E; cbv in E; injection E as <-; vm_compute; reflexivity).
  split; [exact Ha|]. split; [exact Hv|]. rewrite Hv in Hw. exact Hw.
Defined.

Lemma top_up_at_constant_rate_witness :
  exists s, create_stream [1] [2] 1_000 60_000 [] 0 = Done s /\ topUpAmountFor s 7_000 = 117 /\
    top_up s 117 7_000 (sender s) 20_000 = Done (extended s 117 7_000).
Proof.
  destruct (sample_stream_ok 20_000 ltac:(lia)) as (s & E & Hs & Hst). exists s. split; [exact E|].
  assert (topUpAmountFor s 7_000 = 117 /\ 20_000 < end_time_ms s /\
    total_amount s + 117 <= U64_MAX /\ end_time_ms s + 7_000 <= U64_MAX) as (F1 & F2 & F3 & F4).
  { clear Hs Hst. cbv in E. injection E as <-. vm_compute. repeat split; discriminate. }
  split; [exact F1|].
  pose proof (top_up_at_constant_rate s 7_000 20_000 Hs Hst F2 ltac:(lia)) as H. cbv zeta in H.
  rewrite F1 in H. exact (proj1 (H F3 F4)).
Defined.

End Stream.

Module Allowance.

(** [src sui_tunnel/sources/examples/example_agent_allowance.move:83-93 STATUS_ACTIVE] *)
Definition STATUS_ACTIVE : Z := 0.
Definition STATUS_PAUSED : Z := 1.
Definition STATUS_REVOKED : Z := 2.
Definition CURRENT_VERSION : Z := 1.

(** [src sui_tunnel/sources/examples/example_agent_allowance.move Allowance] *)
Record Allowance := {
  id : Move.addr;
  version : Z;
  principal : Move.addr;
  payee : Move.addr;
  delegate : option Move.addr;
  principal_public_key : bytes;
  principal_signature_type : Z;
  escrow : Z;
  rate_per_second : Z;
  spend_cap : Z;
  spent : Z;
  vested_floor : Z;
  anchor_ms : Z;
  authorized_total : Z;
  expiry_ms : Z;
  status : Z;
  created_at : Z
}.

(** Field updates. *)
Definition with_accrual (floor anchor rate st : Z) (a : Allowance) : Allowance :=
  {| id := id a; version := version a; principal := principal a; payee := payee a;
     delegate := delegate a; principal_public_key := principal_public_key a;
     principal_signature_type := principal_signature_type a; escrow := escrow a;
     rate_per_second := rate; spend_cap := spend_cap a; spent := spent a; vested_floor := floor;
     anchor_ms := anchor; authorized_total := authorized_total a; expiry_ms := expiry_ms a;
     status := st; created_at := created_at a |}.
Definition with_money (e sp st : Z) (a : Allowance) : Allowance :=
  {| id := id a; version := version a; principal := principal a; payee := payee a;
     delegate := delegate a; principal_public_key := principal_public_key a;
     principal_signature_type := principal_signature_type a; escrow := e;
     rate_per_second := rate_per_second a; spend_cap := spend_cap a; spent := sp;
     vested_floor := vested_floor a; anchor_ms := anchor_ms a;
     authorized_total := authorized_total a; expiry_ms := expiry_ms a;
     status := st; created_at := created_at a |}.
Definition with_limits (cap auth : Z) (d : option Move.addr) (a : Allowance) : Allowance :=
  {| id := id a; version := version a; principal := principal a; payee := payee a;
     delegate := d; principal_public_key := principal_public_key a;
     principal_signature_type := principal_signature_type a; escrow := escrow a;
     rate_per_second := rate_per_second a; spend_cap := cap; spent := spent a;
     vested_floor := vested_floor a; anchor_ms := anchor_ms a;
     authorized_total := auth; expiry_ms := expiry_ms a;
     status := status a; created_at := created_at a |}.

(** A delegate must be somebody else. *)
Definition check_delegate (d : option Move.addr) (pr pa : Move.addr) : bool :=
  match d with
  | Some x => negb (bool_decide (x = pr)) && negb (bool_decide (x = pa))
  | None => true
  end.

(** [src sui_tunnel/sources/examples/example_agent_allowance.move create_allowance] *)
Definition create_allowance (new_id who to : Move.addr) (d : option Move.addr) (pk : bytes)
    (sig_type funds rate cap expiry now : Z) : move Allowance :=
  assert! negb (bool_decide (who = to)) else EInvalidParties ;
  assert! 0 <? cap else EInvalidParameter ;
  assert! 0 <? funds else EInvalidParameter ;
  assert! (expiry =? 0) || (now <? expiry) else EInvalidParameter ;
  assert! check_delegate d who to else EInvalidParties ;
  Done {| id := new_id; version := CURRENT_VERSION; principal := who; payee := to;
          delegate := d; principal_public_key := pk; principal_signature_type := sig_type;
          escrow := funds; rate_per_second := rate; spend_cap := cap; spent := 0;
          vested_floor := 0; anchor_ms := now; authorized_total := 0; expiry_ms := expiry;
          status := STATUS_ACTIVE; created_at := now |}.

(** [src sui_tunnel/sources/examples/example_agent_allowance.move rate_vested] *)
Definition rate_vested (a : Allowance) (now : Z) : move Z :=
  if negb (status a =? STATUS_ACTIVE) then Done (Z.min (vested_floor a) (spend_cap a))
  else
    let deadline := if expiry_ms a =? 0 then now else Z.min (expiry_ms a) now in
    let* elapsed_secs :=
      (if anchor_ms a <? deadline
       then let* d := u64_sub deadline (anchor_ms a) in Done (d / 1000) else Done 0) in
    let* p := u128_mul (rate_per_second a) elapsed_secs in
    let* accrued := u128_add (vested_floor a) p in
    as_u64 (Z.min accrued (spend_cap a)).

(** [src sui_tunnel/sources/examples/example_agent_allowance.move entitled] *)
Definition entitled (a : Allowance) (now : Z) : move Z :=
  let* v := rate_vested a now in
  Done (Z.min (Z.max v (authorized_total a)) (spend_cap a)).

(** [src sui_tunnel/sources/examples/example_agent_allowance.move reanchor] *)
Definition reanchor (a : Allowance) (now : Z) : move Allowance :=
  let* v := rate_vested a now in
  Done (with_accrual v now (rate_per_second a) (status a) a).

(** [src sui_tunnel/sources/examples/example_agent_allowance.move pull_internal] *)
Definition pull_internal (a : Allowance) (amount : Z) : move (Allowance * list Move.payment) :=
  let* sp := u64_add (spent a) amount in
  let* e := balance_split (escrow a) amount in
  Done (with_money e sp (status a) a, [(payee a, amount)]).

(** [src sui_tunnel/sources/examples/example_agent_allowance.move assert_claimer] *)
Definition is_claimer (a : Allowance) (who : Move.addr) : bool :=
  bool_decide (who = payee a) || bool_decide (who = principal a) ||
  bool_decide (delegate a = Some who).

(** [earned - spent], not below zero. *)
Definition minus_floor (x y : Z) : Z := if y <? x then x - y else 0.

(** [src sui_tunnel/sources/examples/example_agent_allowance.move claim] *)
Definition claim (a : Allowance) (amount : Z) (who : Move.addr) (now : Z)
  : move (Allowance * list Move.payment) :=
  assert! version a =? CURRENT_VERSION else EInvalidVersion ;
  assert! status a =? STATUS_ACTIVE else EInvalidState ;
  assert! is_claimer a who else ENotAuthorized ;
  assert! 0 <? amount else EInvalidParameter ;
  let* earned := entitled a now in
  let unspent := minus_floor earned (spent a) in
  let* room := u64_sub (spend_cap a) (spent a) in
  assert! amount <=? room else ESpendCapExceeded ;
  assert! amount <=? unspent else ENotYetVested ;
  assert! amount <=? escrow a else EInsufficientBalance ;
  pull_internal a amount.

(** The 31 bytes of [b"sui_tunnel::spend_authorization"]. *)
Definition SPEND_AUTHORIZATION : bytes :=
  map (fun c => Z.of_N (Ascii.N_of_ascii c))
    (String.list_ascii_of_string "sui_tunnel::spend_authorization").

(** [src sui_tunnel/sources/examples/example_agent_allowance.move serialize_spend_authorization] *)
Definition serialize_spend_authorization (allowance_id : Move.addr) (total : Z) : bytes :=
  SPEND_AUTHORIZATION ++ allowance_id ++ u64_to_be_bytes total.

Section Vouchers.
Context `{N : Natives}.

(** [src sui_tunnel/sources/examples/example_agent_allowance.move authorize_spend] *)
Definition authorize_spend (a : Allowance) (total : Z) (voucher : bytes) : move Allowance :=
  assert! version a =? CURRENT_VERSION else EInvalidVersion ;
  assert! status a =? STATUS_ACTIVE else EInvalidState ;
  assert! authorized_total a <? total else EStaleAuthorization ;
  assert! total <=? spend_cap a else ESpendCapExceeded ;
  assert! is_valid_public_key_length (principal_signature_type a) (principal_public_key a)
    else EInvalidPublicKey ;
  let* v := signature_verify (principal_signature_type a) (principal_public_key a)
    (serialize_spend_authorization (id a) total) voucher in
  assert! v else EInvalidSignature ;
  Done (with_limits (spend_cap a) total (delegate a) a).

(** [src sui_tunnel/sources/examples/example_agent_allowance.move claim_with_voucher] *)
Definition claim_with_voucher (a : Allowance) (total : Z) (voucher : bytes) (amount : Z)
    (who : Move.addr) (now : Z) : move (Allowance * list Move.payment) :=
  let* a := authorize_spend a total voucher in
  claim a amount who now.

(** [src sui_tunnel/sources/examples/example_agent_allowance.move top_up] *)
Definition top_up (a : Allowance) (funds : Z) (who : Move.addr) : move Allowance :=
  assert! version a =? CURRENT_VERSION else EInvalidVersion ;
  assert! negb (status a =? STATUS_REVOKED) else EInvalidState ;
  assert! bool_decide (who = principal a) else ENotAuthorized ;
  assert! 0 <? funds else EInvalidParameter ;
  let* e := u64_add (escrow a) funds in
  Done (with_money e (spent a) (status a) a).

(** [src sui_tunnel/sources/examples/example_agent_allowance.move set_rate] *)
Definition set_rate (a : Allowance) (rate : Z) (who : Move.addr) (now : Z) : move Allowance :=
  assert! version a =? CURRENT_VERSION else EInvalidVersion ;
  assert! status a =? STATUS_ACTIVE else EInvalidState ;
  assert! bool_decide (who = principal a) else ENotAuthorized ;
  let* a := reanchor a now in
  Done (with_accrual (vested_floor a) (anchor_ms a) rate (status a) a).

(** [src sui_tunnel/sources/examples/example_agent_allowance.move increase_cap] *)
Definition increase_cap (a : Allowance) (cap : Z) (who : Move.addr) : move Allowance :=
  assert! version a =? CURRENT_VERSION else EInvalidVersion ;
  assert! negb (status a =? STATUS_REVOKED) else EInvalidState ;
  assert! bool_decide (who = principal a) else ENotAuthorized ;
  assert! spend_cap a <? cap else EInvalidParameter ;
  Done (with_limits cap (authorized_total a) (delegate a) a).

(** [src sui_tunnel/sources/examples/example_agent_allowance.move pause] *)
Definition pause (a : Allowance) (who : Move.addr) (now : Z) : move Allowance :=
  assert! version a =? CURRENT_VERSION else EInvalidVersion ;
  assert! status a =? STATUS_ACTIVE else EInvalidState ;
  assert! bool_decide (who = principal a) else ENotAuthorized ;
  let* a := reanchor a now in
  Done (with_accrual (vested_floor a) (anchor_ms a) (rate_per_second a) STATUS_PAUSED a).

(** [src sui_tunnel/sources/examples/example_agent_allowance.move resume] *)
Definition resume (a : Allowance) (who : Move.addr) (now : Z) : move Allowance :=
  assert! version a =? CURRENT_VERSION else EInvalidVersion ;
  assert! status a =? STATUS_PAUSED else EInvalidState ;
  assert! bool_decide (who = principal a) else ENotAuthorized ;
  Done (with_accrual (vested_floor a) now (rate_per_second a) STATUS_ACTIVE a).

(** [src sui_tunnel/sources/examples/example_agent_allowance.move set_delegate] *)
Definition set_delegate (a : Allowance) (d : option Move.addr) (who : Move.addr)
  : move Allowance :=
  assert! version a =? CURRENT_VERSION else EInvalidVersion ;
  assert! negb (status a =? STATUS_REVOKED) else EInvalidState ;
  assert! bool_decide (who = principal a) else ENotAuthorized ;
  assert! check_delegate d (principal a) (payee a) else EInvalidParties ;
  Done (with_limits (spend_cap a) (authorized_total a) d a).

(** [src sui_tunnel/sources/examples/example_agent_allowance.move revoke] *)
Definition revoke (a : Allowance) (who : Move.addr) (now : Z)
  : move (Allowance * list Move.payment) :=
  assert! version a =? CURRENT_VERSION else EInvalidVersion ;
  assert! negb (status a =? STATUS_REVOKED) else EInvalidState ;
  assert! bool_decide (who = principal a) else ENotAuthorized ;
  let* earned := entitled a now in
  let payable := Z.min (minus_floor earned (spent a)) (escrow a) in
  let* r := (if 0 <? payable then
      let* sp := u64_add (spent a) payable in
      let* e := balance_split (escrow a) payable in
      Done (sp, e, [(payee a, payable)])
    else Done (spent a, escrow a, [])) in
  let '(sp, refund, ps) := r in
  let* r := (if 0 <? refund then
      let* e := balance_split refund refund in Done (e, [(principal a, refund)])
    else Done (refund, [])) in
  Done (with_money (fst r) sp STATUS_REVOKED a, ps ++ snd r).

(** [src sui_tunnel/sources/examples/example_agent_allowance.move available_to_claim] *)
Definition available_to_claim (a : Allowance) (now : Z) : move Z :=
  if negb (status a =? STATUS_ACTIVE) then Done 0
  else
    let* earned := entitled a now in
    Done (Z.min (minus_floor earned (spent a)) (escrow a)).

End Vouchers.

(** * The client's arithmetic *)

(** [src frontend/src/onchain/agentAllowance.ts AccrualState] *)
Record AccrualState := {
  ratePerSecond : Z; vestedFloor : Z; anchorMs : Z; authorizedTotal : Z;
  spendCap : Z; expiryMs : Z; as_status : Z
}.

(** [src frontend/src/onchain/agentAllowance.ts toAccrualState] *)
Definition toAccrualState (a : Allowance) : AccrualState :=
  {| ratePerSecond := rate_per_second a; vestedFloor := vested_floor a; anchorMs := anchor_ms a;
     authorizedTotal := authorized_total a; spendCap := spend_cap a; expiryMs := expiry_ms a;
     as_status := status a |}.

(** [src frontend/src/onchain/agentAllowance.ts minBig] *)
Definition minBig (a b : Z) : Z := if a <? b then a else b.

(** [src frontend/src/onchain/agentAllowance.ts rateVested] *)
Definition rateVested (s : AccrualState) (nowMs : Z) : Z :=
  if negb (as_status s =? 0) then minBig (vestedFloor s) (spendCap s)
  else
    let deadline := if expiryMs s =? 0 then nowMs else minBig (expiryMs s) nowMs in
    let elapsedSecs := if anchorMs s <? deadline then (deadline - anchorMs s) ÷ 1000 else 0 in
    minBig (vestedFloor s + ratePerSecond s * elapsedSecs) (spendCap s).

(** [src frontend/src/onchain/agentAllowance.ts computeEntitled] *)
Definition computeEntitled (s : AccrualState) (nowMs : Z) : Z :=
  let byRate := rateVested s nowMs in
  minBig (if authorizedTotal s <? byRate then byRate else authorizedTotal s) (spendCap s).

(** [src frontend/src/onchain/agentAllowance.ts computeAvailable] *)
Definition computeAvailable (s : AccrualState) (sp escrowBalance nowMs : Z) : Z :=
  if negb (as_status s =? 0) then 0
  else
    let ent := computeEntitled s nowMs in
    minBig (if sp <? ent then ent - sp else 0) escrowBalance.

(** [src frontend/src/onchain/agentAllowance.ts allowanceStatusName] *)
Definition allowanceStatusName (st : Z) : string :=
  if st =? 0 then "Active" else if st =? 1 then "Paused"
  else if st =? 2 then "Revoked" else "Unknown".

Section Builders.
Context (package coin : string).

(** [src frontend/src/onchain/agentAllowance.ts:22-23 target] *)
Definition target (fn : string) : string :=
  (package ++ "::example_agent_allowance::" ++ fn)%string.

(** [src frontend/src/onchain/agentAllowance.ts buildCreateAllowanceTx] *)
Definition buildCreateAllowanceTx (fundsCoinId : string) (fundAmount : Z) (to : string)
    (d : option string) (rate cap : Z) (expiry : option Z) (pk : option bytes)
    (sig_type : option Z) : Transaction :=
  [SplitCoins (Obj fundsCoinId) [PureU64 fundAmount];
   MoveCall (target "entry_create_and_share") [coin]
     [PureAddress to; PureOptAddress d; PureVecU8 (default [] pk); PureU8 (default 0 sig_type);
      NestedRes 0 0; PureU64 rate; PureU64 cap; PureU64 (default 0 expiry); CLOCK]].

(** [src frontend/src/onchain/agentAllowance.ts buildClaimTx] *)
Definition buildClaimTx (allowanceId : string) (amount : Z) : Transaction :=
  [MoveCall (target "entry_claim") [coin] [Obj allowanceId; PureU64 amount; CLOCK]].

(** [src frontend/src/onchain/agentAllowance.ts buildTopUpTx] *)
Definition buildTopUpTx (allowanceId fundsCoinId : string) (amount : Z) : Transaction :=
  [SplitCoins (Obj fundsCoinId) [PureU64 amount];
   MoveCall (target "entry_top_up") [coin] [Obj allowanceId; NestedRes 0 0]].

(** [src frontend/src/onchain/agentAllowance.ts buildSetRateTx] *)
Definition buildSetRateTx (allowanceId : string) (rate : Z) : Transaction :=
  [MoveCall (target "set_rate") [coin] [Obj allowanceId; PureU64 rate; CLOCK]].

(** [src frontend/src/onchain/agentAllowance.ts buildClockOnlyTx] *)
Definition buildClockOnlyTx (allowanceId fn : string) : Transaction :=
  [MoveCall (target fn) [coin] [Obj allowanceId; CLOCK]].

(** [src frontend/src/onchain/agentAllowance.ts:145-151 buildPauseTx] *)
Definition buildPauseTx (i : string) : Transaction := buildClockOnlyTx i "pause".
Definition buildResumeTx (i : string) : Transaction := buildClockOnlyTx i "resume".
Definition buildRevokeTx (i : string) : Transaction := buildClockOnlyTx i "entry_revoke".

End Builders.

(** * Invariant *)

Definition vested (a : Allowance) (now : Z) : Z :=
  if negb (status a =? STATUS_ACTIVE) then Z.min (vested_floor a) (spend_cap a)
  else
    let deadline := if expiry_ms a =? 0 then now else Z.min (expiry_ms a) now in
    Z.min (vested_floor a + rate_per_second a * (Z.max 0 (deadline - anchor_ms a) / 1000))
      (spend_cap a).

(** What the payee is entitled to, on the integers. *)
Definition due (a : Allowance) (now : Z) : Z :=
  Z.min (Z.max (vested a now) (authorized_total a)) (spend_cap a).

Record ok (a : Allowance) (now : Z) : Prop := {
  ok_version : version a = CURRENT_VERSION;
  ok_parties : principal a <> payee a;
  ok_money : 0 <= escrow a <= U64_MAX /\ 0 <= spent a <= spend_cap a /\ spend_cap a <= U64_MAX;
  ok_rate : 0 <= rate_per_second a <= U64_MAX /\ 0 <= vested_floor a <= spend_cap a /\
            0 <= authorized_total a <= spend_cap a;
  ok_times : 0 <= anchor_ms a <= now /\ now <= U64_MAX /\ 0 <= expiry_ms a;
  ok_status : status a = STATUS_ACTIVE \/ status a = STATUS_PAUSED \/
              (status a = STATUS_REVOKED /\ escrow a = 0);
  ok_spent : status a <> STATUS_REVOKED -> spent a <= due a now
}.

Lemma vested_ok a now : ok a now -> rate_vested a now = Done (vested a now).
Proof.
  intros [_ _ [_ [_ Hc]] [Hr [Hf _]] [Ha [Hn He]] _ _]. unfold rate_vested, vested.
  destruct (negb _); [done|].
  set (deadline := if expiry_ms a =? 0 then now else _).
  assert (deadline <= now) as Hd by (unfold deadline; destruct (expiry_ms a =? 0); lia).
  assert ((if anchor_ms a <? deadline then let* d := u64_sub deadline (anchor_ms a) in Done (d / 1000)
    else Done 0) = Done (Z.max 0 (deadline - anchor_ms a) / 1000)) as ->.
  { destruct (Z.ltb_spec (anchor_ms a) deadline).
    - rewrite (proj2 (u64_sub_ok _ _ _)) by (split; [reflexivity|lia]). cbn [move_bind].
      by rewrite Z.max_r by lia.
    - by rewrite Z.max_l by lia. }
  cbn [move_bind]. set (secs := Z.max 0 (deadline - anchor_ms a) / 1000).
  assert (0 <= secs <= U64_MAX) as Hs.
  { unfold secs. split; [apply Z.div_pos; lia|]. apply Z.div_le_upper_bound; lia. }
  pose proof U64_sq. unfold u128_mul, u128_add.
  rewrite (proj2 (Z.ltb_lt (rate_per_second a * secs) _)) by nia. cbn [move_bind].
  rewrite (proj2 (Z.ltb_lt (_ + _) _)) by nia. cbn [move_bind]. unfold as_u64.
  by rewrite (proj2 (Z.leb_le _ _)) by lia.
Qed.

Lemma entitled_ok a now : ok a now -> entitled a now = Done (due a now).
Proof. intros H. unfold entitled, due. by rewrite vested_ok. Qed.

Lemma vested_bounds a now : ok a now -> vested_floor a <= vested a now <= spend_cap a.
Proof.
  intros [_ _ _ [Hr [Hf _]] [Ha [Hn He]] _ _]. unfold vested. destruct (negb _); [lia|].
  set (secs := _ / 1000). assert (0 <= secs) by (apply Z.div_pos; lia). nia.
Qed.

Lemma due_bounds a now : ok a now -> 0 <= due a now <= spend_cap a.
Proof.
  intros H. pose proof (vested_bounds a now H). destruct H as [_ _ _ [_ [? ?]] _ _ _].
  unfold due. lia.
Qed.

(** Time only adds to it. *)
Lemma vested_mono a t t' : ok a t -> t <= t' -> vested a t <= vested a t'.
Proof.
  intros [_ _ _ [Hr _] _ _ _] Ht. unfold vested. destruct (negb _); [done|].
  apply Z.min_le_compat_r, Zplus_le_compat_l, Zmult_le_compat_l; [|lia].
  apply Z.div_le_mono; [lia|]. destruct (expiry_ms a =? 0); lia.
Qed.

Lemma due_mono a t t' : ok a t -> t <= t' -> due a t <= due a t'.
Proof. intros H Ht. pose proof (vested_mono a t t' H Ht). unfold due. lia. Qed.

Lemma ok_later a t t' : ok a t -> t <= t' <= U64_MAX -> ok a t'.
Proof.
  intros H Ht. pose proof (due_mono a t t' H ltac:(lia)). destruct H as [? ? ? ? ? ? Hs].
  split; try done; [lia|]. intros Hr. specialize (Hs Hr). lia.
Qed.

(** The client's formulas are the same function. *)
Lemma minBig_min x y : minBig x y = Z.min x y.
Proof. unfold minBig. destruct (Z.ltb_spec x y); lia. Qed.

Lemma client_entitled a now : ok a now -> computeEntitled (toAccrualState a) now = due a now.
Proof.
  intros [_ _ _ _ [Ha _] _ _]. unfold computeEntitled, due. rewrite !minBig_min.
  assert (rateVested (toAccrualState a) now = vested a now) as ->.
  { unfold rateVested, vested. cbn. rewrite !minBig_min. change STATUS_ACTIVE with 0.
    destruct (negb _); [done|]. set (deadline := if expiry_ms a =? 0 then now else _).
    destruct (Z.ltb_spec (anchor_ms a) deadline); [|by rewrite Z.max_l by lia].
    rewrite Z.max_r by lia. by rewrite Z.quot_div_nonneg by lia. }
  cbn. destruct (Z.ltb_spec (authorized_total a) (vested a now)); lia.
Qed.

(** C39: the client predicts every claim.  For an allowance in order, what the client
    computes as available is what the contract's view says, its 128-bit
    arithmetic never overflows, and a claim by the payee, the delegate or the
    principal is paid exactly when the amount is positive and not more than that;
    a claim by anybody else is refused. *)
Theorem allowance_client_agrees a now who n :
  ok a now ->
  let avail := computeAvailable (toAccrualState a) (spent a) (escrow a) now in
  available_to_claim a now = Done avail /\
  (is_claimer a who = true ->
     ((exists a', claim a n who now = Done (a', [(payee a, n)])) <-> 0 < n <= avail)) /\
  (is_claimer a who = false -> exists e, claim a n who now = Abort e).
Proof.
  intros H. cbv zeta. pose proof (entitled_ok a now H) as He. pose proof (due_bounds a now H) as Hb.
  pose proof (client_entitled a now H) as Hc. destruct H as [Hv _ [Hes [Hsp Hcap]] _ _ Hst Hle].
  assert (computeAvailable (toAccrualState a) (spent a) (escrow a) now =
    if status a =? STATUS_ACTIVE then Z.min (minus_floor (due a now) (spent a)) (escrow a) else 0) as ->.
  { unfold computeAvailable. rewrite Hc, minBig_min. cbn [toAccrualState as_status].
    change STATUS_ACTIVE with 0. by destruct (status a =? 0). }
  unfold available_to_claim, claim. rewrite Hv, He. cbn [Z.eqb CURRENT_VERSION Pos.eqb].
  destruct (status a =? STATUS_ACTIVE) eqn:Ea; cbn [negb move_bind].
  - apply Z.eqb_eq in Ea. specialize (Hle ltac:(by rewrite Ea)).
    split; [done|]. split; intros ->; [|by eexists].
    rewrite (proj2 (u64_sub_ok _ _ _)) by (split; [reflexivity|lia]). cbn [move_bind].
    assert (minus_floor (due a now) (spent a) = due a now - spent a) as ->
      by (unfold minus_floor; destruct (Z.ltb_spec (spent a) (due a now)); lia).
    destruct (Z.ltb_spec 0 n); [|split; [intros [? ?]; done|lia]].
    destruct (Z.leb_spec n (spend_cap a - spent a)); [|split; [intros [? ?]; done|lia]].
    destruct (Z.leb_spec n (due a now - spent a)); [|split; [intros [? ?]; done|lia]].
    destruct (Z.leb_spec n (escrow a)); [|split; [intros [? ?]; done|lia]].
    split; [lia|]. intros _. unfold pull_internal.
    rewrite (proj2 (u64_add_ok _ _ _)) by (split; [reflexivity|lia]). cbn [move_bind].
    rewrite (proj2 (balance_split_ok _ _ _)) by (split; [reflexivity|lia]). by eexists.
  - split; [done|]. split; [|by eexists]. intros _. split; [intros [? ?]; done|lia].
Qed.

(** * What can happen to an allowance *)

Inductive call :=
  | Claim (amount : Z)
  | Authorize (total : Z) (voucher : bytes)
  | ClaimWithVoucher (total : Z) (voucher : bytes) (amount : Z)
  | TopUp (funds : Z)
  | SetRate (rate : Z)
  | IncreaseCap (cap : Z)
  | Pause
  | Resume
  | SetDelegate (d : option Move.addr)
  | Revoke.

Definition call_ok (c : call) : Prop :=
  match c with
  | SetRate r => u64_range r
  | IncreaseCap x => u64_range x
  | _ => True
  end.

Section Calls.
Context `{N : Natives}.

Definition no_payment (m : move Allowance) : move (Allowance * list Move.payment) :=
  let* a := m in Done (a, []).

Definition exec (c : call) (who : Move.addr) (now : Z) (a : Allowance)
  : move (Allowance * list Move.payment) :=
  match c with
  | Claim n => claim a n who now
  | Authorize x v => no_payment (authorize_spend a x v)
  | ClaimWithVoucher x v n => claim_with_voucher a x v n who now
  | TopUp x => no_payment (top_up a x who)
  | SetRate r => no_payment (set_rate a r who now)
  | IncreaseCap x => no_payment (increase_cap a x who)
  | Pause => no_payment (pause a who now)
  | Resume => no_payment (resume a who now)
  | SetDelegate d => no_payment (set_delegate a d who)
  | Revoke => revoke a who now
  end.

Definition brings (c : call) : Z := match c with TopUp x => x | _ => 0 end.

Definition revoked (a : Allowance) : Prop := status a = STATUS_REVOKED.

(** What the payee has had or has earned: what is due, as far as the escrow goes,
    and after a revocation what it was paid.  A pause does not lower it, but holds
    back what is not claimed yet ([claim_paused]). *)
Definition safe (a : Allowance) (now : Z) : Z :=
  if status a =? STATUS_REVOKED then spent a else Z.min (due a now) (spent a + escrow a).

(** What a call that succeeds does: the books balance, the payee gets what is
    booked as spent, only a revocation pays the principal, and what the payee was
    due it is still due, or was paid as far as the escrow went. *)
Definition effect (a : Allowance) (now brought : Z) (a' : Allowance) (ps : list Move.payment)
  : Prop :=
  ok a' now /\ principal a' = principal a /\ payee a' = payee a /\
  escrow a + brought = escrow a' + paid ps /\
  spent a' = spent a + paid_to (payee a) ps /\
  Forall (fun p => fst p = payee a \/ (fst p = principal a /\ revoked a')) ps /\
  spend_cap a <= spend_cap a' /\
  safe a now <= safe a' now.

(** What is earned and not claimed can be claimed at once while the allowance is
    active. *)
Lemma claim_safe a who now :
  ok a now -> status a = STATUS_ACTIVE -> is_claimer a who = true -> 0 < safe a now - spent a ->
  exists a', claim a (safe a now - spent a) who now = Done (a', [(payee a, safe a now - spent a)]).
Proof.
  intros H Ea Hw Hp. pose proof (due_bounds a now H) as Hb. unfold safe in *. rewrite Ea in *.
  cbn [Z.eqb STATUS_ACTIVE STATUS_REVOKED] in *. unfold claim.
  rewrite (entitled_ok a now H), (ok_version a now H), Ea, Hw, (proj2 (Z.ltb_lt _ _) Hp).
  destruct H as [_ _ [Hes [Hsp Hcap]] _ _ _ _]. set (n := Z.min _ _ - _) in *.
  cbn [Z.eqb CURRENT_VERSION STATUS_ACTIVE Pos.eqb move_bind].
  rewrite (proj2 (u64_sub_ok _ _ _)) by (split; [reflexivity|lia]). cbn [move_bind].
  assert (n <= minus_floor (due a now) (spent a))
    by (unfold minus_floor; destruct (Z.ltb_spec (spent a) (due a now)); lia).
  rewrite !(proj2 (Z.leb_le _ _)) by lia. unfold pull_internal.
  rewrite (proj2 (u64_add_ok _ _ _)) by (split; [reflexivity|lia]). cbn [move_bind].
  rewrite (proj2 (balance_split_ok _ _ _)) by (split; [reflexivity|lia]). by eexists.
Qed.

Lemma payee_claims a to : payee a = to -> is_claimer a to = true.
Proof. intros <-. unfold is_claimer. by rewrite bool_decide_eq_true_2. Qed.

(** A pause refuses every claim, and its end gives back what was earned before. *)
Lemma claim_paused a n who now :
  ok a now -> status a = STATUS_PAUSED -> claim a n who now = Abort EInvalidState.
Proof. intros H E. unfold claim. by rewrite (ok_version a now H), E. Qed.

Lemma resume_safe a now :
  ok a now -> status a = STATUS_PAUSED ->
  exists a', resume a (principal a) now = Done a' /\ status a' = STATUS_ACTIVE /\
    spent a' = spent a /\ safe a' now = safe a now.
Proof.
  intros H E. unfold resume. rewrite (ok_version a now H), E, bool_decide_eq_true_2 by done.
  eexists. split; [reflexivity|]. split; [done|]. split; [done|].
  unfold safe, due, vested. cbn [with_accrual status vested_floor anchor_ms rate_per_second
    expiry_ms spend_cap authorized_total spent escrow]. rewrite E.
  cbn [Z.eqb STATUS_ACTIVE STATUS_PAUSED STATUS_REVOKED Pos.eqb negb].
  replace (Z.max 0 _) with 0 by (destruct (expiry_ms a =? 0); lia). change (0 / 1000) with 0.
  rewrite Z.mul_0_r, Z.add_0_r. destruct H as [_ _ _ [_ [? _]] _ _ _].
  rewrite (Z.min_l (vested_floor a)) by lia. done.
Qed.

Lemma vested_anchored a v now rate st :
  v <= spend_cap a -> vested (with_accrual v now rate st a) now = v.
Proof.
  intros Hv. unfold vested. cbn. destruct (negb _); [lia|].
  rewrite Z.max_l by (destruct (expiry_ms a =? 0); lia). change (0 / 1000) with 0. lia.
Qed.

(** A call that pays nothing and leaves the money alone. *)
Lemma quiet_effect a a' now :
  ok a now -> ok a' now -> principal a' = principal a -> payee a' = payee a ->
  escrow a' = escrow a -> spent a' = spent a -> spend_cap a <= spend_cap a' ->
  ~ revoked a -> ~ revoked a' -> due a now <= due a' now -> effect a now 0 a' [].
Proof.
  intros H H' Hp Hq He Hs Hc Hn Hr Hd. unfold effect, safe. rewrite paid_to_nil. cbn [paid fold_right].
  rewrite (proj2 (Z.eqb_neq (status a) _)), (proj2 (Z.eqb_neq (status a') _)) by done.
  rewrite He, Hs. split_and!; try done; lia.
Qed.

Lemma accrual_effect a now rate st :
  ok a now -> 0 <= rate <= U64_MAX -> status a <> STATUS_REVOKED ->
  st = STATUS_ACTIVE \/ st = STATUS_PAUSED ->
  effect a now 0 (with_accrual (vested a now) now rate st a) [].
Proof.
  intros H Hr Hn Hst. pose proof (vested_bounds a now H) as Hv.
  assert (due (with_accrual (vested a now) now rate st a) now = due a now) as Hd
    by (unfold due; by rewrite vested_anchored by lia).
  apply quiet_effect; try done; [|by destruct Hst as [->| ->]|by rewrite Hd].
  destruct H as [? ? ? [? [? ?]] [? ?] ? Hs]. split; cbn; try done; lia.
Qed.

Lemma claim_effect a n who now a' ps :
  ok a now -> claim a n who now = Done (a', ps) -> effect a now 0 a' ps.
Proof.
  intros H Hc. unfold claim in Hc. rewrite (entitled_ok a now H) in Hc.
  unfold pull_internal in Hc. inv_done. inv_u64. bool_to_prop. simplify_eq.
  unfold minus_floor in *. pose proof (due_bounds a now H) as Hb.
  assert (spent a + n <= due a now) as Hle
    by (destruct (Z.ltb_spec (spent a) (due a now)); lia).
  assert (status a = STATUS_ACTIVE) as Ea by done.
  assert (due (with_money (escrow a - n) (spent a + n) (status a) a) now = due a now) as Hd by done.
  destruct H as [? ? [? [? ?]] ? ? ? _].
  split_and!; rewrite ?paid_to_cons, ?paid_to_nil, ?decide_True by done; cbn; try done; try lia.
  - split; cbn; try done; lia.
  - constructor; [by left|constructor].
  - unfold safe. rewrite Hd. cbn. rewrite Ea. cbn. lia.
Qed.

Lemma authorize_effect a x v a' now :
  ok a now -> authorize_spend a x v = Done a' -> effect a now 0 a' [].
Proof.
  intros H Ha. unfold authorize_spend in Ha. inv_done. bool_to_prop.
  pose proof (due_bounds a now H).
  assert (due a now <= due (with_limits (spend_cap a) x (delegate a) a) now) as Hd.
  { unfold due. change (vested (with_limits _ _ _ a) now) with (vested a now). cbn. lia. }
  assert (status a = STATUS_ACTIVE) as Ea by done.
  apply quiet_effect; try done; try (unfold revoked; cbn; by rewrite Ea).
  destruct H as [? ? [? [? ?]] [? [? ?]] ? ? Hs]. split; cbn; try done; lia.
Qed.

Lemma effect_trans a now x a1 ps y a2 qs :
  effect a now x a1 ps -> ~ revoked a1 -> effect a1 now y a2 qs ->
  effect a now (x + y) a2 (ps ++ qs).
Proof.
  intros (H1 & Ep & Eq & He & Hs & Hf & Hc & Hd) Hn (H2 & Ep2 & Eq2 & He2 & Hs2 & Hf2 & Hc2 & Hd2).
  unfold effect. rewrite paid_app, paid_to_app. rewrite Ep, Eq in *.
  split_and!; try done; try lia. apply Forall_app. split; [|done].
  eapply Forall_impl; [exact Hf|]. intros q [?|[_ ?]]; [by left|done].
Qed.

Lemma revoke_effect a who now a' ps :
  ok a now -> revoke a who now = Done (a', ps) ->
  effect a now 0 a' ps /\ revoked a' /\ spent a' = safe a now.
Proof.
  intros H Hr. unfold revoke in Hr. rewrite (entitled_ok a now H) in Hr. inv_done. bool_to_prop.
  set (p := Z.min (minus_floor (due a now) (spent a)) (escrow a)) in *.
  match goal with x : (Z * Z * list _)%type |- _ => destruct x as [[sp refund] ps1] end.
  match goal with H : _ = Done (sp, refund, ps1) |- _ => rename H into Hp0 end.
  pose proof (due_bounds a now H) as Hb. destruct H as [Hv Hne [Hes [Hsp Hcap]] Hrt Htm Hst Hs].
  assert (~ revoked a) as Hn by done. specialize (Hs Hn).
  assert (0 <= p <= escrow a /\ spent a + p = Z.min (due a now) (spent a + escrow a)) as [Hp Hsafe].
  { unfold p, minus_floor. destruct (Z.ltb_spec (spent a) (due a now)); lia. }
  assert (sp = spent a + p /\ refund = escrow a - p /\
    ps1 = if 0 <? p then [(payee a, p)] else []) as (-> & -> & ->).
  { destruct (Z.ltb_spec 0 p); inv_done; inv_u64; simplify_eq; split_and!; try done; lia. }
  clear Hp0. inv_done.
  match goal with x : (Z * list _)%type |- _ => destruct x as [e ps2] end.
  match goal with H : _ = Done (e, ps2) |- _ => rename H into Hp1 end.
  assert (e = 0 /\ ps2 = if 0 <? escrow a - p then [(principal a, escrow a - p)] else [])
    as (-> & ->).
  { destruct (Z.ltb_spec 0 (escrow a - p)); inv_done; inv_u64; simplify_eq; split; try done; lia. }
  clear Hp1. cbn [fst snd] in *. simplify_eq.
  assert (safe a now = spent a + p) as Es
    by (unfold safe; rewrite (proj2 (Z.eqb_neq (status a) _) Hn); lia).
  split; [|by rewrite Es].
  set (qs := (if 0 <? p then _ else _) ++ _).
  assert (paid qs = escrow a /\ paid_to (payee a) qs = p /\
    Forall (fun q => fst q = payee a \/ fst q = principal a) qs) as (P1 & P2 & P3).
  { unfold qs. rewrite paid_app, paid_to_app.
    destruct (Z.ltb_spec 0 p), (Z.ltb_spec 0 (escrow a - p)); cbn [paid fold_right snd app];
      rewrite ?paid_to_cons, ?paid_to_nil; repeat case_decide; try congruence;
      (split; [lia|split; [lia|]]); repeat (apply Forall_cons; split; [cbn; auto|]);
      by apply Forall_nil. }
  unfold effect. rewrite P1, P2. split_and!; try done; cbn; try lia.
  - split; cbn; try done; lia.
  - eapply Forall_impl; [exact P3|]. intros q [?|?]; [by left|by right].
Qed.

Lemma revoke_safe a now :
  ok a now -> ~ revoked a ->
  exists a' ps, revoke a (principal a) now = Done (a', ps) /\
    paid_to (payee a) ps = safe a now - spent a.
Proof.
  intros H Hn. assert (exists a' ps, revoke a (principal a) now = Done (a', ps)) as (a' & ps & E).
  { unfold revoke. rewrite (ok_version a now H), (entitled_ok a now H), bool_decide_eq_true_2 by done.
    rewrite (proj2 (Z.eqb_neq _ _) Hn). cbn [Z.eqb CURRENT_VERSION Pos.eqb negb move_bind].
    pose proof (due_bounds a now H). destruct H as [_ _ [Hes [Hsp Hcap]] _ _ _ _].
    assert (spent a + Z.min (minus_floor (due a now) (spent a)) (escrow a) <= U64_MAX)
      by (unfold minus_floor; destruct (Z.ltb_spec (spent a) (due a now)); lia).
    set (p := Z.min _ _) in *.
    assert (p <= escrow a) by (unfold p; lia).
    destruct (Z.ltb_spec 0 p).
    - rewrite (proj2 (u64_add_ok _ _ _)) by (split; [reflexivity|lia]). cbn [move_bind].
      rewrite (proj2 (balance_split_ok _ _ _)) by (split; [reflexivity|lia]). cbn [move_bind].
      destruct (0 <? escrow a - p); [|by do 2 eexists].
      rewrite (proj2 (balance_split_ok _ _ _)) by (split; [reflexivity|lia]). by do 2 eexists.
    - cbn [move_bind]. destruct (0 <? escrow a); [|by do 2 eexists].
      rewrite (proj2 (balance_split_ok _ _ _)) by (split; [reflexivity|lia]). by do 2 eexists. }
  exists a', ps. split; [done|].
  destruct (revoke_effect a _ now a' ps H E) as [(_ & _ & _ & _ & Hs & _) [_ Hr]]. lia.
Qed.

Lemma allowance_exec_effect c who now a a' ps :
  ok a now -> call_ok c -> exec c who now a = Done (a', ps) ->
  ~ revoked a /\ effect a now (brings c) a' ps.
Proof.
  intros H Hc Hx. assert (~ revoked a) as Hn.
  { destruct c; cbn in Hx; unfold no_payment, claim, claim_with_voucher, authorize_spend, top_up,
      set_rate, increase_cap, pause, resume, set_delegate, revoke in Hx; inv_done; bool_to_prop;
      unfold revoked, STATUS_REVOKED, STATUS_ACTIVE, STATUS_PAUSED in *; lia. }
  split; [done|]. unfold revoked in Hn.
  destruct c as [n|x v|x v n|x|r|x| | |d|]; cbn [exec brings] in *; unfold no_payment in Hx.
  - by eapply claim_effect.
  - inv_done. simplify_eq. by eapply authorize_effect.
  - unfold claim_with_voucher in Hx. inv_done.
    match goal with E : authorize_spend _ _ _ = Done ?x |- _ => rename E into Ha; rename x into a1 end.
    pose proof (authorize_effect _ _ _ _ now H Ha) as He.
    change 0 with (0 + 0). change ps with ([] ++ ps). eapply effect_trans; [exact He| |].
    + unfold authorize_spend in Ha. inv_done; bool_to_prop. exact Hn.
    + eapply claim_effect; [apply He|exact Hx].
  - inv_done. simplify_eq. unfold top_up in *. inv_done. inv_u64. bool_to_prop.
    pose proof H as [? ? [? [? ?]] ? ? ? Hs]. specialize (Hs Hn).
    assert (due (with_money (escrow a + x) (spent a) (status a) a) now = due a now) as Hd by done.
    unfold effect, safe. rewrite Hd, paid_to_nil. cbn. rewrite (proj2 (Z.eqb_neq (status a) _) Hn).
    split_and!; try done; try lia. split; cbn; try done; lia.
  - inv_done. simplify_eq. unfold set_rate, reanchor in *. rewrite (vested_ok a now H) in *.
    inv_done. bool_to_prop. apply (accrual_effect a now r (status a) H Hc Hn). by left.
  - inv_done. simplify_eq. unfold increase_cap in *. inv_done. bool_to_prop.
    assert (due a now <= due (with_limits x (authorized_total a) (delegate a) a) now) as Hd.
    { pose proof H as [? ? [? [? ?]] [? [? ?]] ? ? _].
      unfold due, vested. cbn. destruct (negb _); lia. }
    apply quiet_effect; try done; cbn; [|lia].
    destruct H as [? ? [? [? ?]] [? [? ?]] ? ? Hs], Hc. split; cbn; try done; lia.
  - inv_done. simplify_eq. unfold pause, reanchor in *. rewrite (vested_ok a now H) in *.
    inv_done. bool_to_prop. apply (accrual_effect a now _ STATUS_PAUSED H); [|done|by right].
    by destruct H as [_ _ _ [? _] _ _ _].
  - inv_done. simplify_eq. unfold resume in *. inv_done. bool_to_prop.
    assert (due (with_accrual (vested_floor a) now (rate_per_second a) STATUS_ACTIVE a) now
      = due a now) as Hd.
    { pose proof H as [_ _ _ [_ [? _]] _ _ _]. unfold due. rewrite vested_anchored by lia.
      unfold vested.
      replace (negb (status a =? STATUS_ACTIVE)) with true; [cbn; lia|].
      symmetry. apply negb_true_iff, Z.eqb_neq. unfold STATUS_ACTIVE, STATUS_PAUSED in *. lia. }
    apply quiet_effect; try done; [|by rewrite Hd].
    destruct H as [? ? [? [? ?]] [? [? ?]] ? ? Hs]. split; cbn; try done; lia.
  - inv_done. simplify_eq. unfold set_delegate in *. inv_done. bool_to_prop.
    apply quiet_effect; try done. destruct H as [? ? [? [? ?]] [? [? ?]] ? ? Hs].
    split; cbn; try done; lia.
  - by apply (revoke_effect a who now a' ps H Hx).
Qed.

Record event := { ev_call : call; ev_who : Move.addr; ev_now : Z }.

(** The allowance, the payments and what was added, after a list of calls; one
    that aborts changes nothing. *)
Fixpoint history (a : Allowance) (evs : list event) : Allowance * list Move.payment * Z :=
  match evs with
  | [] => (a, [], 0)
  | e :: evs =>
      match exec (ev_call e) (ev_who e) (ev_now e) a with
      | Done (a', ps) =>
          let '(a2, qs, x) := history a' evs in (a2, ps ++ qs, brings (ev_call e) + x)
      | Abort _ => history a evs
      end
  end.

Fixpoint timed (t : Z) (evs : list event) : Prop :=
  match evs with
  | [] => True
  | e :: evs => t <= ev_now e <= U64_MAX /\ call_ok (ev_call e) /\ timed (ev_now e) evs
  end.

Definition last_time (t : Z) (evs : list event) : Z := fold_left (fun _ e => ev_now e) evs t.

Lemma safe_later a t t' : ok a t -> t <= t' -> safe a t <= safe a t'.
Proof.
  intros H Ht. pose proof (due_mono a t t' H Ht). unfold safe. destruct (_ =? _); lia.
Qed.

Lemma exec_revoked c who now a : revoked a -> exists e, exec c who now a = Abort e.
Proof.
  intros Hr. unfold revoked in Hr.
  destruct c; cbn; unfold no_payment, claim, claim_with_voucher, authorize_spend, top_up,
    set_rate, increase_cap, pause, resume, set_delegate, revoke; rewrite Hr; case_match; eexists; done.
Qed.

Lemma history_revoked a evs : revoked a -> history a evs = (a, [], 0).
Proof.
  intros Hr. induction evs as [|e evs IH]; [done|]. cbn [history].
  by destruct (exec_revoked (ev_call e) (ev_who e) (ev_now e) a Hr) as [x ->].
Qed.

Lemma allowance_history_effect evs : forall a t,
  ok a t -> timed t evs ->
  let '(a', ps, x) := history a evs in
  let t' := last_time t evs in
  ok a' t' /\ principal a' = principal a /\ payee a' = payee a /\
  escrow a + x = escrow a' + paid ps /\ spent a' = spent a + paid_to (payee a) ps /\
  Forall (fun p => fst p = payee a \/ (fst p = principal a /\ revoked a')) ps /\
  safe a t <= safe a' t'.
Proof.
  induction evs as [|[c who now] evs IH]; intros a t Ha Ht; cbn [history].
  { rewrite paid_to_nil. cbn. split_and!; try done; lia. }
  cbn [timed ev_now ev_call ev_who] in *. destruct Ht as (Hle & Hc & Ht).
  pose proof (ok_later a t now Ha Hle) as Ha1. pose proof (safe_later a t now Ha ltac:(lia)) as Hs1.
  cbv zeta. cbn [last_time fold_left ev_now]. fold (last_time now evs).
  destruct (exec c who now a) as [[a1 ps]|e] eqn:E.
  - destruct (allowance_exec_effect c who now a a1 ps Ha1 Hc E) as
      (_ & Ha2 & Ep & Eq & He & Hs & Hf & _ & Hsafe).
    specialize (IH a1 now Ha2 Ht). pose proof (fun H => history_revoked a1 evs H) as Hover.
    destruct (history a1 evs) as [[a2 qs] x].
    destruct IH as (Ha3 & Ep3 & Eq3 & He3 & Hs3 & Hf3 & Hsafe3).
    rewrite Ep, Eq, paid_app, paid_to_app in *. split_and!; try done; try lia.
    apply Forall_app. split; [|done]. eapply Forall_impl; [exact Hf|].
    intros q [?|[? Hr]]; [by left|]. right. split; [done|]. specialize (Hover Hr). by simplify_eq.
  - specialize (IH a now Ha1 Ht). destruct (history a evs) as [[a2 qs] x].
    destruct IH as (? & ? & ? & ? & ? & ? & ?). split_and!; try done; lia.
Qed.

(** C40: an allowance keeps its promises.  Whoever calls what, in whatever order, as
    long as the clock does not go back: everything put in is in escrow or was paid
    out; the payee has had exactly what is booked as spent, never more than the
    cap nor, while the allowance lives, than what was due; nobody is paid but the
    payee and, by a revocation, the principal; and what the payee has had or has
    earned within the escrow never drops, whatever the principal does.  While the
    allowance is active the payee can claim all of the difference at once; while
    it is paused no claim at all is paid, until the principal resumes it and the
    same amount can be claimed again; a revocation pays it out. *)
Theorem allowance_keeps_promises new_id who to d pk st x rate cap expiry t0 a0 evs evs' :
  create_allowance new_id who to d pk st x rate cap expiry t0 = Done a0 ->
  0 <= t0 <= U64_MAX -> x <= U64_MAX -> u64_range rate -> cap <= U64_MAX -> 0 <= expiry ->
  timed t0 (evs ++ evs') ->
  let '(a1, ps1, in1) := history a0 evs in
  let '(a2, ps2, in2) := history a1 evs' in
  let t1 := last_time t0 evs in
  let t2 := last_time t1 evs' in
  x + in1 + in2 = escrow a2 + paid (ps1 ++ ps2) /\
  (revoked a2 -> escrow a2 = 0) /\
  paid_to to (ps1 ++ ps2) = spent a2 /\ spent a2 <= spend_cap a2 /\
  (~ revoked a2 -> spent a2 <= computeEntitled (toAccrualState a2) t2) /\
  Forall (fun p => fst p = to \/ (fst p = who /\ revoked a2)) (ps1 ++ ps2) /\
  safe a1 t1 <= safe a2 t2 /\
  (status a2 = STATUS_ACTIVE -> 0 < safe a2 t2 - spent a2 -> exists a3,
     claim a2 (safe a2 t2 - spent a2) to t2 = Done (a3, [(to, safe a2 t2 - spent a2)])) /\
  (status a2 = STATUS_PAUSED -> (forall n c, claim a2 n c t2 = Abort EInvalidState) /\ exists a3,
     resume a2 who t2 = Done a3 /\ status a3 = STATUS_ACTIVE /\ spent a3 = spent a2 /\
     safe a3 t2 = safe a2 t2) /\
  (~ revoked a2 -> exists a3 ps, revoke a2 who t2 = Done (a3, ps) /\
     paid_to to ps = safe a2 t2 - spent a2).
Proof.
  intros Hc Ht0 Hx [Hr0 Hr1] Hcap Hexp Htm. unfold create_allowance in Hc. inv_done. bool_to_prop.
  match goal with |- context [history ?a evs] => set (a0 := a) in * end.
  assert (ok a0 t0) as Ha0.
  { split; cbn; try done; try lia. intros _. unfold due.
    cbn [a0 spent authorized_total spend_cap]. lia. }
  assert (timed t0 evs /\ timed (last_time t0 evs) evs') as [Hta Htb].
  { revert Htm. clear. revert t0. induction evs as [|e evs IH]; intros t Ht; [done|].
    cbn in *. destruct Ht as (? & ? & Ht). by destruct (IH _ Ht). }
  pose proof (allowance_history_effect evs a0 t0 Ha0 Hta) as H1.
  destruct (history a0 evs) as [[a1 ps1] in1].
  destruct H1 as (Ha1 & Ep1 & Eq1 & He1 & Hs1 & Hf1 & _).
  pose proof (allowance_history_effect evs' a1 _ Ha1 Htb) as H2.
  pose proof (fun H => history_revoked a1 evs' H) as Hover.
  destruct (history a1 evs') as [[a2 ps2] in2]. cbv zeta.
  destruct H2 as (Ha2 & Ep2 & Eq2 & He2 & Hs2 & Hf2 & Hsafe).
  rewrite Ep1, Eq1 in *. change (payee a0) with to in *. change (principal a0) with who in *.
  change (escrow a0) with x in *. change (spent a0) with 0 in *.
  rewrite paid_app, paid_to_app, client_entitled by done.
  pose proof Ha2 as [_ _ [_ [? _]] _ _ Hst Hsp].
  pose proof (fun E => claim_safe a2 to _ Ha2 E (payee_claims a2 to Eq2)) as Hclaim.
  pose proof (resume_safe a2 _ Ha2) as Hres. pose proof (revoke_safe a2 _ Ha2) as Hrev.
  rewrite Ep2, Eq2 in *.
  split_and!; try done; try lia.
  - intros Hr. unfold revoked in Hr. rewrite Hr in Hst. naive_solver.
  - apply Forall_app. split; [|done]. eapply Forall_impl; [exact Hf1|].
    intros q [?|[? Hr]]; [by left|]. right. split; [done|]. specialize (Hover Hr). by simplify_eq.
  - intros Ep. split; [|by apply Hres]. intros n c. by apply claim_paused.
Qed.

(** Folding the accrual throws away the part of a second since the last anchor: a
    principal that sets the rate it has already set, every 999 ms, pays nothing,
    however long. *)
Fixpoint rate_again (who : Move.addr) (rate t : Z) (n : nat) : list event :=
  match n with
  | O => []
  | S n => {| ev_call := SetRate rate; ev_who := who; ev_now := t + 999 |} ::
           rate_again who rate (t + 999) n
  end.

Theorem reanchoring_stops_accrual n : forall a t,
  ok a t -> anchor_ms a = t -> expiry_ms a = 0 -> status a = STATUS_ACTIVE ->
  vested_floor a = 0 -> authorized_total a = 0 -> t + 999 * Z.of_nat n <= U64_MAX ->
  let evs := rate_again (principal a) (rate_per_second a) t n in
  let '(a', ps, _) := history a evs in
  due a' (t + 999 * Z.of_nat n) = 0 /\ ps = [] /\ rate_per_second a' = rate_per_second a.
Proof.
  induction n as [|n IH]; intros a t Ha Et Ee Es Ef Eu Hn; cbv zeta.
  { cbn [rate_again history]. rewrite Z.mul_0_r, Z.add_0_r. split; [|done].
    destruct Ha as [_ _ [_ [? ?]] _ _ _ _].
    unfold due, vested. rewrite Es, Ee, Ef, Eu, Et. cbn [Z.eqb STATUS_ACTIVE negb].
    rewrite Z.sub_diag. change (Z.max 0 0 / 1000) with 0. rewrite Z.mul_0_r. lia. }
  cbn [rate_again history ev_call ev_who ev_now exec].
  set (now := t + 999). pose proof (ok_later a t now Ha ltac:(unfold now; lia)) as Ha1.
  assert (vested a now = 0) as Hv.
  { unfold vested. rewrite Es, Ee, Ef, Et. cbn [Z.eqb STATUS_ACTIVE negb].
    unfold now. replace (t + 999 - t) with 999 by lia. change (Z.max 0 999 / 1000) with 0.
    destruct Ha as [_ _ [_ [? ?]] _ _ _ _]. lia. }
  pose proof Ha as [Hver _ _ [Hr _] _ _ _].
  unfold set_rate, reanchor. rewrite Hver, Es, bool_decide_eq_true_2 by done.
  cbn [Z.eqb CURRENT_VERSION STATUS_ACTIVE Pos.eqb]. rewrite (vested_ok a now Ha1), Hv.
  cbn [move_bind no_payment].
  match goal with |- context [history ?x _] => set (a1 := x) end.
  assert (ok a1 now) as Ha2.
  { pose proof (accrual_effect a now (rate_per_second a) STATUS_ACTIVE Ha1 Hr
      ltac:(by rewrite Es) ltac:(by left)) as (H & _). rewrite Hv in H. unfold a1. cbn.
    exact H. }
  specialize (IH a1 now Ha2 eq_refl Ee eq_refl eq_refl Eu ltac:(unfold now; lia)).
  cbv zeta in IH. change (principal a1) with (principal a) in IH.
  change (rate_per_second a1) with (rate_per_second a) in IH.
  destruct (history a1 _) as [[a2 qs] x]. destruct IH as (H1 & -> & H3).
  split_and!; try done.
  replace (t + 999 * Z.of_nat (S n)) with (now + 999 * Z.of_nat n) by (unfold now; lia). exact H1.
Qed.

End Calls.

(** * Samples *)

Definition sample_allowance : move Allowance :=
  create_allowance [9] [1] [2] (Some [3]) [] 0 1_000 4 500 0 10_000.

(** The delegate claims, the principal changes the rate and pauses, a claim is
    refused, the principal revokes. *)
Definition sample_calls : list event :=
  [{| ev_call := Claim 40; ev_who := [3]; ev_now := 20_000 |};
   {| ev_call := SetRate 10; ev_who := [1]; ev_now := 25_000 |};
   {| ev_call := Pause; ev_who := [1]; ev_now := 30_000 |};
   {| ev_call := Claim 1; ev_who := [2]; ev_now := 31_000 |}].
Definition sample_revocation : list event :=
  [{| ev_call := Revoke; ev_who := [1]; ev_now := 90_000 |}].

Lemma allowance_keeps_promises_witness :
  exists a0, sample_allowance = Done a0 /\
    let '(a1, ps1, in1) := history a0 sample_calls in
    let '(a2, ps2, in2) := history a1 sample_revocation in
    1_000 + in1 + in2 = escrow a2 + paid (ps1 ++ ps2) /\ ps1 = [([2], 40)] /\
    ps2 = [([2], 70); ([1], 890)] /\ safe a1 31_000 <= safe a2 90_000 /\ safe a1 31_000 = 110.
Proof.
  eexists. split; [reflexivity|].
  match goal with |- context [history ?a sample_calls] => set (a0 := a) end.
  pose proof (allowance_keeps_promises [9] [1] [2] (Some [3]) [] 0 1_000 4 500 0 10_000 a0
    sample_calls sample_revocation eq_refl ltac:(split; by vm_compute) ltac:(by vm_compute)
    ltac:(split; by vm_compute) ltac:(by vm_compute) ltac:(lia)
    ltac:(repeat split; by vm_compute)) as H.
  destruct (history a0 sample_calls) as [[a1 ps1] in1] eqn:E1.
  vm_compute in E1. injection E1 as <- <- <-.
  destruct (history _ sample_revocation) as [[a2 ps2] in2] eqn:E2.
  vm_compute in E2. injection E2 as <- <- <-. destruct H as (H & _ & _ & _ & _ & _ & Hsafe & _).
  split; [exact H|]. split; [reflexivity|]. split; [reflexivity|]. split; [exact Hsafe|reflexivity].
Defined.

Lemma sample_allowance_ok now :
  10_000 <= now <= U64_MAX -> exists a, sample_allowance = Done a /\ ok a now.
Proof.
  intros Hn. eexists. split; [reflexivity|].
  match goal with |- ok ?a _ => apply (ok_later a 10_000); [|lia] end.
  split; cbn; try done; try (split_and!; first [lia|by vm_compute]). by left.
Qed.

Lemma allowance_client_agrees_witness :
  exists a a', sample_allowance = Done a /\
    computeAvailable (toAccrualState a) (spent a) (escrow a) 20_999 = 40 /\
    claim a 40 [3] 20_999 = Done (a', [([2], 40)]).
Proof.
  destruct (sample_allowance_ok 20_999 ltac:(split; by vm_compute)) as (a & E & Ha).
  assert (computeAvailable (toAccrualState a) (spent a) (escrow a) 20_999 = 40 /\
    is_claimer a [3] = true /\ payee a = [2]) as (F1 & F2 & F3).
  { clear Ha. cbv in E. injection E as <-. vm_compute. repeat split. }
  destruct (allowance_client_agrees a 20_999 [3] 40 Ha) as (_ & H & _).
  rewrite F1, F3 in H. destruct (proj2 (H F2) ltac:(lia)) as [a' H'].
  exists a, a'. split; [exact E|]. split; [exact F1|exact H'].
Defined.

End Allowance.
