(* ===== verification/MpClient.v ===== *)
(** The relay client of the front end: [frontend/src/pvp/mpClient.ts].

    The client is the record of its fields and of what its closures hold: the
    sockets it opened, with what the handlers of each remember, and the channels.
    Functions given to it (handlers of frames and of peer messages) and promises it
    returns are numbers; what it does to them, and what it sends, is recorded in
    order in [outs].  A function given to it may throw: what the call recorded as
    output number [n] throws is the parameter [callback_throws n], and the theorems
    hold for every choice of it.  What such a function does to the client itself --
    an engine answers a frame -- is an event that follows the call.  A message of
    the server is a value, at the type the client casts it to; the payload of a relayed message is text.  What a WebSocket does
    between two calls are the events: it opens, delivers, fails and closes. *)
From stdpp Require Import gmap strings.
From S2P Require Import Prelude.
From S2P Require Import Bytes.
From S2P Require Import Wire.
From S2P Require Import Crypto.
From S2P Require Import Protocol.
From S2P Require Import DistributedTunnel.
From S2P Require Import Json.
From S2P Require Import DistributedFrame.
From S2P Require Import JsValue.
From S2P Require Import Float.

(** ** Delays *)

(** [Math.round]: the integer nearest to a finite number, halves upwards. *)
Definition math_round (x : number) : Z :=
  match x with
  | S754_finite s m e =>
      let z := if s then Zneg m else Zpos m in
      if 0 <=? e then Z.shiftl z e else (2 * z + Z.shiftl 1 (- e)) / Z.shiftl 1 (1 - e)
  | _ => 0
  end.

(** [src frontend/src/pvp/mpClient.ts ReconnectConfig] *)
Record ReconnectConfig := { baseMs : Z; maxMs : Z; jitter : number }.

(** [src frontend/src/pvp/mpClient.ts DEFAULT_RECONNECT] *)
Definition DEFAULT_RECONNECT : ReconnectConfig :=
  {| baseMs := 500; maxMs := 10000; jitter := f_lit 2 10 |}.

(** [src frontend/src/pvp/mpClient.ts nextBackoffDelay]: [rand] is what
    [rand()] returns. *)
Definition nextBackoffDelay (attempt : Z) (cfg : ReconnectConfig) (rand : number) : Z :=
  let grown := f_mul (f_int (baseMs cfg)) (f_scaled 1 attempt) in
  let capped := if f_lt grown (f_int (maxMs cfg)) then grown else f_int (maxMs cfg) in
  let spread := f_mul capped (jitter cfg) in
  math_round (f_add (f_sub capped spread) (f_mul (f_mul rand spread) (f_int 2))).

Example backoff_grows :
  map (fun k => nextBackoffDelay k DEFAULT_RECONNECT (f_lit 1 2)) [0; 1; 2; 4; 5; 10; 1100] =
  [500; 1000; 2000; 8000; 10000; 10000; 10000].
Proof. vm_compute. reflexivity. Qed.

Example backoff_jitter :
  map (nextBackoffDelay 2 DEFAULT_RECONNECT) [f_int 0; f_lit 1 4; f_lit 3 4] = [1600; 1800; 2200].
Proof. vm_compute. reflexivity. Qed.

(** ** Messages *)

(** [src frontend/src/pvp/mpClient.ts MatchInfo] *)
Record MatchInfo := { mi_matchId : string; mi_role : Party; mi_opponentWallet : string; mi_game : string }.

#[export] Instance match_info_eq_dec : EqDecision MatchInfo.
Proof. solve_decision. Defined.

(** [src frontend/src/pvp/mpClient.ts ResumeOkEvent] *)
Record ResumeOkEvent := { ro_match : MatchInfo; ro_peerOnline : bool }.

(** What the server sends. *)
Inductive ServerMsg :=
  | SChallenge (nonce : string)
  | SMatchFound (m : MatchInfo)
  | SRelay (matchId payload : string)
  | SResumeOk (e : ResumeOkEvent)
  | SPeerResumed (matchId : string) (seat : Party)
  | SPeerDropped (matchId : string)
  | SQueueTimeout
  | SError (code message : string)
  | SOther.

(** What the client sends. *)
Inductive ClientMsg :=
  | CConnect (wallet pubkey sig nonce : string)
  | CResume (matchId : string)
  | CQueueJoin (game : string)
  | CArenaJoin (matchId : string)
  | CRelay (matchId payload : string)
  | CTunnelOpened (matchId tunnelId : string).

(** ** The state *)

(** [WebSocket.readyState] *)
Inductive ready := CONNECTING | OPEN | CLOSING | CLOSED.

#[export] Instance ready_eq_dec : EqDecision ready.
Proof. solve_decision. Defined.

(** A socket with the variables its handlers close over: [isReconnect],
    [opened], and whether the promise of [#openSocket] is settled. *)
Record Socket := { so_isReconnect : bool; so_opened : bool; so_settled : bool; so_ready : ready }.

Definition with_ready (r : ready) (s : Socket) : Socket :=
  {| so_isReconnect := so_isReconnect s; so_opened := so_opened s; so_settled := so_settled s; so_ready := r |}.
Definition mark_opened (s : Socket) : Socket :=
  {| so_isReconnect := so_isReconnect s; so_opened := true; so_settled := so_settled s; so_ready := so_ready s |}.
Definition mark_settled (s : Socket) : Socket :=
  {| so_isReconnect := so_isReconnect s; so_opened := so_opened s; so_settled := true; so_ready := so_ready s |}.

(** [src frontend/src/pvp/mpClient.ts:355-365 channel] the variables of a
    channel: [peerCbs] is a [Set], in order of insertion. *)
Record Channel := {
  ch_matchId : string;
  engineOnFrame : option nat;
  frameBuffer : list bytes;
  peerCbs : list nat
}.

Definition with_engine (f : option nat) (b : list bytes) (ch : Channel) : Channel :=
  {| ch_matchId := ch_matchId ch; engineOnFrame := f; frameBuffer := b; peerCbs := peerCbs ch |}.
Definition with_cbs (l : list nat) (ch : Channel) : Channel :=
  {| ch_matchId := ch_matchId ch; engineOnFrame := engineOnFrame ch; frameBuffer := frameBuffer ch; peerCbs := l |}.

(** What the client does to the world. *)
Inductive Out :=
  | NewSocket (i : nat)
  | WsSend (i : nat) (m : ClientMsg)
  | WsClose (i : nat)
  | Schedule (ms : Z)
  | ConnectResolved (i : nat)
  | ConnectRejected (i : nat) (e : js_error)
  | MatchResolved (w : nat) (m : MatchInfo)
  | MatchRejected (w : nat) (e : js_error)
  | EngineFrame (ch cb : nat) (b : bytes)
  | PeerCall (ch cb : nat) (m : jv)
  | ResumeOkCall (e : ResumeOkEvent)
  | PeerResumedCall (matchId : string) (seat : Party)
  | PeerDroppedCall (matchId : string).

(** [src frontend/src/pvp/mpClient.ts:122-179 MpClient]; [timers] is the number
    of reconnect timers that are armed, [draws] how often [rand] was called, and
    [issued] the number of promises [quickMatch] and [joinMatch] gave out. *)
Record MpClient := {
  ws : option nat;
  connected : bool;
  closing : bool;
  reconnectAttempt : Z;
  activeMatches : list string;
  queuedGames : list string;
  matchQueue : list MatchInfo;
  matchWaiters : list nat;
  relayHandlers : gmap string nat;
  channels : list Channel;
  sockets : list Socket;
  timers : nat;
  draws : nat;
  issued : nat;
  outs : list Out
}.

Definition with_socket (w : option nat) (l : list Socket) (c : MpClient) : MpClient :=
  {| ws := w; connected := connected c; closing := closing c;
     reconnectAttempt := reconnectAttempt c; activeMatches := activeMatches c;
     queuedGames := queuedGames c; matchQueue := matchQueue c; matchWaiters := matchWaiters c;
     relayHandlers := relayHandlers c; channels := channels c; sockets := l;
     timers := timers c; draws := draws c; issued := issued c; outs := outs c |}.

Definition with_sockets (l : list Socket) (c : MpClient) : MpClient :=
  {| ws := ws c; connected := connected c; closing := closing c;
     reconnectAttempt := reconnectAttempt c; activeMatches := activeMatches c;
     queuedGames := queuedGames c; matchQueue := matchQueue c; matchWaiters := matchWaiters c;
     relayHandlers := relayHandlers c; channels := channels c; sockets := l;
     timers := timers c; draws := draws c; issued := issued c; outs := outs c |}.

Definition with_connected (a : Z) (c : MpClient) : MpClient :=
  {| ws := ws c; connected := true; closing := closing c; reconnectAttempt := a;
     activeMatches := activeMatches c; queuedGames := queuedGames c;
     matchQueue := matchQueue c; matchWaiters := matchWaiters c;
     relayHandlers := relayHandlers c; channels := channels c; sockets := sockets c;
     timers := timers c; draws := draws c; issued := issued c; outs := outs c |}.

Definition with_closing (b : bool) (c : MpClient) : MpClient :=
  {| ws := ws c; connected := connected c; closing := b;
     reconnectAttempt := reconnectAttempt c; activeMatches := activeMatches c;
     queuedGames := queuedGames c; matchQueue := matchQueue c; matchWaiters := matchWaiters c;
     relayHandlers := relayHandlers c; channels := channels c; sockets := sockets c;
     timers := timers c; draws := draws c; issued := issued c; outs := outs c |}.

Definition with_timers (a : Z) (n d : nat) (c : MpClient) : MpClient :=
  {| ws := ws c; connected := connected c; closing := closing c; reconnectAttempt := a;
     activeMatches := activeMatches c; queuedGames := queuedGames c;
     matchQueue := matchQueue c; matchWaiters := matchWaiters c;
     relayHandlers := relayHandlers c; channels := channels c; sockets := sockets c;
     timers := n; draws := d; issued := issued c; outs := outs c |}.

Definition with_active (l : list string) (c : MpClient) : MpClient :=
  {| ws := ws c; connected := connected c; closing := closing c;
     reconnectAttempt := reconnectAttempt c; activeMatches := l; queuedGames := queuedGames c;
     matchQueue := matchQueue c; matchWaiters := matchWaiters c;
     relayHandlers := relayHandlers c; channels := channels c; sockets := sockets c;
     timers := timers c; draws := draws c; issued := issued c; outs := outs c |}.

Definition with_queued (l : list string) (c : MpClient) : MpClient :=
  {| ws := ws c; connected := connected c; closing := closing c;
     reconnectAttempt := reconnectAttempt c; activeMatches := activeMatches c;
     queuedGames := l; matchQueue := matchQueue c; matchWaiters := matchWaiters c;
     relayHandlers := relayHandlers c; channels := channels c; sockets := sockets c;
     timers := timers c; draws := draws c; issued := issued c; outs := outs c |}.

Definition with_queue (l : list MatchInfo) (c : MpClient) : MpClient :=
  {| ws := ws c; connected := connected c; closing := closing c;
     reconnectAttempt := reconnectAttempt c; activeMatches := activeMatches c;
     queuedGames := queuedGames c; matchQueue := l; matchWaiters := matchWaiters c;
     relayHandlers := relayHandlers c; channels := channels c; sockets := sockets c;
     timers := timers c; draws := draws c; issued := issued c; outs := outs c |}.

Definition with_waiters (l : list nat) (n : nat) (c : MpClient) : MpClient :=
  {| ws := ws c; connected := connected c; closing := closing c;
     reconnectAttempt := reconnectAttempt c; activeMatches := activeMatches c;
     queuedGames := queuedGames c; matchQueue := matchQueue c; matchWaiters := l;
     relayHandlers := relayHandlers c; channels := channels c; sockets := sockets c;
     timers := timers c; draws := draws c; issued := n; outs := outs c |}.

Definition with_channels (m : gmap string nat) (l : list Channel) (c : MpClient) : MpClient :=
  {| ws := ws c; connected := connected c; closing := closing c;
     reconnectAttempt := reconnectAttempt c; activeMatches := activeMatches c;
     queuedGames := queuedGames c; matchQueue := matchQueue c; matchWaiters := matchWaiters c;
     relayHandlers := m; channels := l; sockets := sockets c; timers := timers c;
     draws := draws c; issued := issued c; outs := outs c |}.

Definition emit (o : Out) (c : MpClient) : MpClient :=
  {| ws := ws c; connected := connected c; closing := closing c;
     reconnectAttempt := reconnectAttempt c; activeMatches := activeMatches c;
     queuedGames := queuedGames c; matchQueue := matchQueue c; matchWaiters := matchWaiters c;
     relayHandlers := relayHandlers c; channels := channels c; sockets := sockets c;
     timers := timers c; draws := draws c; issued := issued c; outs := outs c ++ [o] |}.

(** [new MpClient(...)] *)
Definition newMpClient : MpClient :=
  {| ws := None; connected := false; closing := false; reconnectAttempt := 0; activeMatches := [];
     queuedGames := []; matchQueue := []; matchWaiters := []; relayHandlers := ∅; channels := [];
     sockets := []; timers := 0; draws := 0; issued := 0; outs := [] |}.

(** [Set.add] and [Set.delete] on a set in order of insertion. *)
Definition set_add {A} `{EqDecision A} (x : A) (l : list A) : list A :=
  if bool_decide (x ∈ l) then l else l ++ [x].
Definition set_delete {A} `{EqDecision A} (x : A) (l : list A) : list A :=
  List.filter (fun y => negb (bool_decide (y = x))) l.

(** The first occurrence, as [indexOf] and [splice] remove it. *)
Fixpoint remove_first {A} `{EqDecision A} (x : A) (l : list A) : list A :=
  match l with
  | [] => []
  | y :: l' => if bool_decide (y = x) then l' else y :: remove_first x l'
  end.

Section Client.
Context `{C : Crypto} (bk : CryptoBackend).
Context (cfg : ReconnectConfig) (rand : nat -> number) (wallet : string) (ephemeral : KeyPair).
Context (callback_throws : nat -> option js_error).

(** ** Sending *)

(** [WebSocket.send] on socket [i]: it throws while the socket is connecting and
    drops the message once it is closing. *)
Definition ws_send (i : nat) (m : ClientMsg) : eff MpClient unit :=
  fun c => match sockets c !! i with
           | Some s => match so_ready s with
                       | CONNECTING => (c, Throw (Error "InvalidStateError"))
                       | OPEN => (emit (WsSend i m) c, Ok tt)
                       | CLOSING | CLOSED => (c, Ok tt)
                       end
           | None => (c, Ok tt)
           end.

(** [src frontend/src/pvp/mpClient.ts:429-431 #send] *)
Definition send (m : ClientMsg) : eff MpClient unit :=
  fun c => match ws c with Some i => ws_send i m c | None => (c, Ok tt) end.

(** A [for] loop over a list. *)
Fixpoint for_each {A} (f : A -> eff MpClient unit) (l : list A) : eff MpClient unit :=
  match l with
  | [] => eret tt
  | x :: l' => do! _ <- f x; for_each f l'
  end.

(** A call of a function the client was given, which may throw. *)
Definition call (o : Out) : eff MpClient unit := fun c =>
  (emit o c, match callback_throws (length (outs c)) with Some e => Throw e | None => Ok tt end).

(** ** The connection *)

(** [src frontend/src/pvp/mpClient.ts:278-288 #scheduleReconnect] *)
Definition scheduleReconnect (c : MpClient) : MpClient :=
  emit (Schedule (nextBackoffDelay (reconnectAttempt c) cfg (rand (draws c))))
    (with_timers (reconnectAttempt c + 1) (S (timers c)) (S (draws c)) c).

(** [src frontend/src/pvp/mpClient.ts:207-211 #openSocket] *)
Definition openSocket (isReconnect : bool) (c : MpClient) : MpClient :=
  let i := length (sockets c) in
  emit (NewSocket i)
    (with_socket (Some i)
       (sockets c ++ [{| so_isReconnect := isReconnect; so_opened := false; so_settled := false;
                         so_ready := CONNECTING |}]) c).

(** The promise of [#openSocket] is settled once; [connect] hands it to its
    caller, and a reconnect catches its rejection. *)
Definition resolve_socket (i : nat) (s : Socket) (c : MpClient) : MpClient :=
  if so_settled s then c
  else
    let c := with_sockets (alter mark_settled i (sockets c)) c in
    if so_isReconnect s then c else emit (ConnectResolved i) c.

Definition reject_socket (i : nat) (s : Socket) (e : js_error) (c : MpClient) : MpClient :=
  if so_settled s then c
  else
    let c := with_sockets (alter mark_settled i (sockets c)) c in
    if so_isReconnect s then scheduleReconnect c else emit (ConnectRejected i e) c.

(** [src frontend/src/pvp/mpClient.ts connect] *)
Definition connect (c : MpClient) : MpClient := openSocket false (with_closing false c).

(** The timer of [#scheduleReconnect] fires. *)
Definition on_timer (c : MpClient) : MpClient :=
  match timers c with
  | O => c
  | S n =>
      let c := with_timers (reconnectAttempt c) n (draws c) c in
      if closing c then c else openSocket true c
  end.

(** [src frontend/src/pvp/mpClient.ts:291-298 #resumeActive] *)
Definition resumeActive : eff MpClient unit :=
  do! c <- eget;
  do! _ <- for_each (fun m => send (CResume m)) (activeMatches c);
  match activeMatches c with
  | [] => for_each (fun g => send (CQueueJoin g)) (queuedGames c)
  | _ :: _ => eret tt
  end.

(** ** Matches *)

(** [src frontend/src/pvp/mpClient.ts:309-312 #dropQueued] *)
Definition dropQueued (game : string) (c : MpClient) : MpClient :=
  with_queued (remove_first game (queuedGames c)) c.

(** [src frontend/src/pvp/mpClient.ts:314-318 #deliverMatch] *)
Definition deliverMatch (m : MatchInfo) (c : MpClient) : MpClient :=
  match matchWaiters c with
  | w :: l => emit (MatchResolved w m) (with_waiters l (issued c) c)
  | [] => with_queue (matchQueue c ++ [m]) c
  end.

(** [src frontend/src/pvp/mpClient.ts:319-321 #failNextMatch] *)
Definition failNextMatch (e : js_error) (c : MpClient) : MpClient :=
  match matchWaiters c with
  | w :: l => emit (MatchRejected w e) (with_waiters l (issued c) c)
  | [] => c
  end.

(** The promise that [quickMatch] and [joinMatch] return while they wait. *)
Definition await_match (c : MpClient) : MpClient :=
  with_waiters (matchWaiters c ++ [issued c]) (S (issued c)) c.

(** [src frontend/src/pvp/mpClient.ts quickMatch] *)
Definition quickMatch (game : string) : eff MpClient unit :=
  do! _ <- emodify (fun c => with_queued (queuedGames c ++ [game]) c);
  do! _ <- send (CQueueJoin game);
  emodify (fun c =>
    match matchQueue c with
    | buffered :: l =>
        let c := dropQueued (mi_game buffered) (with_queue l c) in
        emit (MatchResolved (issued c) buffered) (with_waiters (matchWaiters c) (S (issued c)) c)
    | [] => await_match c
    end).

(** [src frontend/src/pvp/mpClient.ts joinMatch] *)
Definition joinMatch (matchId : string) : eff MpClient unit :=
  do! _ <- send (CArenaJoin matchId);
  emodify await_match.

(** ** Channels *)

(** [src frontend/src/pvp/mpClient.ts:366-375 channel]: the payload handler of
    channel [k]; a message without a [t] that is ["frame"] goes to the peer
    callbacks.  The [data] of a frame is text; a frame whose [data] is something
    else, which [PeerMessage] excludes, is refused here. *)
Definition on_payload (k : nat) (payload : string) : eff MpClient unit :=
  do! o <- elift (parseWithBigint payload);
  do! t <- elift (vget o "t");
  do! c <- eget;
  match channels c !! k with
  | None => eret tt
  | Some ch =>
      if match t with VStr s => String.eqb s "frame" | _ => false end then
        do! data <- elift (vget o "data");
        match data with
        | VStr s =>
            let b := text_encode s in
            match engineOnFrame ch with
            | Some cb => call (EngineFrame k cb b)
            | None => emodify (fun c => with_channels (relayHandlers c)
                        (alter (with_engine None (frameBuffer ch ++ [b])) k (channels c)) c)
            end
        | _ => ethrow (TypeError "data is not a string")
        end
      else for_each (fun cb => call (PeerCall k cb o)) (peerCbs ch)
  end.

(** [src frontend/src/pvp/mpClient.ts:355-356 channel]: the new channel is the last one. *)
Definition channel (matchId : string) (c : MpClient) : MpClient :=
  with_channels (<[matchId := length (channels c)]> (relayHandlers c))
    (channels c ++ [{| ch_matchId := matchId; engineOnFrame := None; frameBuffer := []; peerCbs := [] |}])
    (with_active (set_add matchId (activeMatches c)) c).

(** [src frontend/src/pvp/mpClient.ts:382-389 send] of the transport *)
Definition transport_send (k : nat) (b : bytes) : eff MpClient unit :=
  do! c <- eget;
  match channels c !! k with
  | None => eret tt
  | Some ch =>
      do! p <- elift (wrapInnerFrameJson (text_decode b));
      send (CRelay (ch_matchId ch) p)
  end.

(** [src frontend/src/pvp/mpClient.ts:390-397 onFrame] of the transport: the buffer
    is emptied before the loop, which a callback that throws ends. *)
Definition transport_onFrame (k cb : nat) : eff MpClient unit :=
  do! c <- eget;
  match channels c !! k with
  | None => eret tt
  | Some ch =>
      do! _ <- emodify (fun c => with_channels (relayHandlers c) (alter (with_engine (Some cb) []) k (channels c)) c);
      for_each (fun b => call (EngineFrame k cb b)) (frameBuffer ch)
  end.

(** [src frontend/src/pvp/mpClient.ts:376-379 relaySend], which is [sendPeer] *)
Definition sendPeer (k : nat) (m : jv) : eff MpClient unit :=
  do! c <- eget;
  match channels c !! k with
  | None => eret tt
  | Some ch => send (CRelay (ch_matchId ch) (stringifyWithBigint m))
  end.

(** [src frontend/src/pvp/mpClient.ts:400-409 onPeer], [addPeerListener] and
    [removePeerListener] *)
Definition set_cbs (f : list nat -> list nat) (k : nat) (c : MpClient) : MpClient :=
  with_channels (relayHandlers c) (alter (fun ch => with_cbs (f (peerCbs ch)) ch) k (channels c)) c.
Definition onPeer (k cb : nat) : MpClient -> MpClient := set_cbs (fun _ => [cb]) k.
Definition addPeerListener (k cb : nat) : MpClient -> MpClient := set_cbs (set_add cb) k.
Definition removePeerListener (k cb : nat) : MpClient -> MpClient := set_cbs (set_delete cb) k.

(** [src frontend/src/pvp/mpClient.ts releaseMatch] *)
Definition releaseMatch (matchId : string) (c : MpClient) : MpClient :=
  with_channels (delete matchId (relayHandlers c)) (channels c)
    (with_active (set_delete matchId (activeMatches c)) c).

(** [src frontend/src/pvp/mpClient.ts markActive] *)
Definition markActive (matchId : string) (c : MpClient) : MpClient :=
  with_active (set_add matchId (activeMatches c)) c.

(** [src frontend/src/pvp/mpClient.ts announceTunnel] *)
Definition announceTunnel (matchId tunnelId : string) : eff MpClient unit :=
  send (CTunnelOpened matchId tunnelId).

(** [src frontend/src/pvp/mpClient.ts close] *)
Definition close (c : MpClient) : MpClient :=
  let c := with_closing true c in
  match ws c with
  | None => c
  | Some i =>
      emit (WsClose i)
        (with_socket None (alter (fun s => match so_ready s with CLOSED => s | _ => with_ready CLOSING s end) i
                             (sockets c)) c)
  end.

(** ** The handlers of a socket *)

(** [src frontend/src/pvp/mpClient.ts:212-266 onmessage] of socket [i] *)
Definition onmessage (i : nat) (s : Socket) (m : ServerMsg) : eff MpClient unit :=
  match m with
  | SChallenge nonce =>
      let sig := makeSigner bk (secretKey ephemeral) (text_encode nonce) in
      do! _ <- ws_send i (CConnect wallet (toHex (publicKey ephemeral)) (toHex sig) nonce);
      do! _ <- emodify (fun c =>
        with_connected (if so_isReconnect s then 0 else reconnectAttempt c)
          (with_sockets (alter mark_opened i (sockets c)) c));
      do! _ <- resumeActive;
      emodify (resolve_socket i s)
  | SMatchFound m =>
      emodify (fun c =>
        deliverMatch m (dropQueued (mi_game m) (with_active (set_add (mi_matchId m) (activeMatches c)) c)))
  | SRelay matchId payload =>
      do! c <- eget;
      match relayHandlers c !! matchId with
      | Some k => on_payload k payload
      | None => eret tt
      end
  | SResumeOk e =>
      do! _ <- emodify (fun c => with_active (set_add (mi_matchId (ro_match e)) (activeMatches c)) c);
      call (ResumeOkCall e)
  | SPeerResumed matchId seat => call (PeerResumedCall matchId seat)
  | SPeerDropped matchId => call (PeerDroppedCall matchId)
  | SQueueTimeout => emodify (failNextMatch (Error "queue.timeout"))
  | SError code message =>
      emodify (fun c =>
        if connected c then failNextMatch (Error "mp error") c
        else reject_socket i s (Error "mp error") c)
  | SOther => eret tt
  end.

(** [src frontend/src/pvp/mpClient.ts:267-270 onerror] of socket [i] *)
Definition onerror (i : nat) (s : Socket) (c : MpClient) : MpClient :=
  if negb (so_opened s) && negb (connected c) then reject_socket i s (Error "mp websocket error") c else c.

(** [src frontend/src/pvp/mpClient.ts:271-274 onclose] of a socket *)
Definition onclose (c : MpClient) : MpClient :=
  let c := with_socket None (sockets c) c in
  if closing c then c else scheduleReconnect c.

(** ** Runs *)

(** The calls of the client's users, and what sockets and timers do. *)
Inductive MpEvent :=
  | Connect
  | QuickMatch (game : string)
  | JoinMatch (matchId : string)
  | OpenChannel (matchId : string)
  | TransportSend (k : nat) (b : bytes)
  | WireEngine (k cb : nat)
  | SendPeer (k : nat) (m : jv)
  | OnPeer (k cb : nat)
  | AddPeerListener (k cb : nat)
  | RemovePeerListener (k cb : nat)
  | MarkActive (matchId : string)
  | ReleaseMatch (matchId : string)
  | AnnounceTunnel (matchId tunnelId : string)
  | Close
  | SocketOpen (i : nat)
  | SocketMessage (i : nat) (m : ServerMsg)
  | SocketError (i : nat)
  | SocketClose (i : nat)
  | TimerFires.

(** The events of a socket come in the order its state allows. *)
Definition on_socket (i : nat) (ok : ready -> bool) (f : Socket -> eff MpClient unit) : eff MpClient unit :=
  fun c => match sockets c !! i with
           | Some s => if ok (so_ready s) then f s c else (c, Ok tt)
           | None => (c, Ok tt)
           end.

(** One event; what it throws goes to the caller or to the console. *)
Definition step (e : MpEvent) : eff MpClient unit :=
  match e with
  | Connect => emodify connect
  | QuickMatch g => quickMatch g
  | JoinMatch m => joinMatch m
  | OpenChannel m => emodify (channel m)
  | TransportSend k b => transport_send k b
  | WireEngine k cb => transport_onFrame k cb
  | SendPeer k m => sendPeer k m
  | OnPeer k cb => emodify (onPeer k cb)
  | AddPeerListener k cb => emodify (addPeerListener k cb)
  | RemovePeerListener k cb => emodify (removePeerListener k cb)
  | MarkActive m => emodify (markActive m)
  | ReleaseMatch m => emodify (releaseMatch m)
  | AnnounceTunnel m t => announceTunnel m t
  | Close => emodify close
  | SocketOpen i =>
      on_socket i (fun r => bool_decide (r = CONNECTING))
        (fun s => emodify (fun c => with_sockets (alter (with_ready OPEN) i (sockets c)) c))
  | SocketMessage i m => on_socket i (fun r => bool_decide (r = OPEN)) (fun s => onmessage i s m)
  | SocketError i =>
      on_socket i (fun r => negb (bool_decide (r = CLOSED))) (fun s => emodify (onerror i s))
  | SocketClose i =>
      on_socket i (fun r => negb (bool_decide (r = CLOSED)))
        (fun s => emodify (fun c => onclose (with_sockets (alter (with_ready CLOSED) i (sockets c)) c)))
  | TimerFires => emodify on_timer
  end.

Definition run (evs : list MpEvent) (c : MpClient) : MpClient := fold_left (fun c e => fst (step e c)) evs c.
(** ** What a call leaves alone *)

Section Views.
Context {V : Type} (v : MpClient -> V).

(** [m] does not change the view [v], whatever it returns. *)
Definition keeps {A} (m : eff MpClient A) : Prop := forall c, v (fst (m c)) = v c.

Lemma keeps_bind {A B} (m : eff MpClient A) (k : A -> eff MpClient B) :
  keeps m -> (forall a, keeps (k a)) -> keeps (ebind m k).
Proof.
  intros Hm Hk c. unfold ebind. specialize (Hm c). destruct (m c) as [c' [a|e]]; cbn in *; [|done].
  by rewrite Hk.
Qed.

Lemma keeps_ret {A} (a : A) : keeps (eret a).
Proof. done. Qed.

Lemma keeps_get : keeps eget.
Proof. done. Qed.

Lemma keeps_lift {A} (r : result A) : keeps (elift r).
Proof. done. Qed.

Lemma keeps_modify (f : MpClient -> MpClient) : (forall c, v (f c) = v c) -> keeps (emodify f).
Proof. intros H c. apply H. Qed.

Lemma keeps_for_each {A} (f : A -> eff MpClient unit) l : (forall a, keeps (f a)) -> keeps (for_each f l).
Proof. intros Hf. induction l; cbn [for_each]; [apply keeps_ret|]. by apply keeps_bind. Qed.

Lemma keeps_call o : (forall c, v (emit o c) = v c) -> keeps (call o).
Proof. intros H c. apply H. Qed.

Lemma keeps_wire k cb :
  (forall b c, v (emit (EngineFrame k cb b) c) = v c) -> (forall m l c, v (with_channels m l c) = v c) ->
  keeps (transport_onFrame k cb).
Proof.
  intros He Hc. apply keeps_bind; [apply keeps_get|]. intros c. case_match; [|apply keeps_ret].
  apply keeps_bind; [apply keeps_modify; intros; apply Hc|]. intros _.
  apply keeps_for_each. intros b. by apply keeps_call.
Qed.

Lemma keeps_on_socket i ok (f : Socket -> eff MpClient unit) :
  (forall s, keeps (f s)) -> keeps (on_socket i ok f).
Proof. intros Hf c. unfold on_socket. repeat case_match; [apply Hf|done|done]. Qed.

(** A view that no message sent shows in. *)
Definition deaf : Prop := forall i m c, v (emit (WsSend i m) c) = v c.

Lemma keeps_ws_send i m : deaf -> keeps (ws_send i m).
Proof. intros Hd c. unfold ws_send. repeat case_match; cbn [fst]; auto. Qed.

Lemma keeps_send m : deaf -> keeps (send m).
Proof. intros Hd c. unfold send. case_match; [by apply keeps_ws_send|done]. Qed.

Lemma keeps_resumeActive : deaf -> keeps resumeActive.
Proof.
  intros Hd. apply keeps_bind; [apply keeps_get|]. intros c.
  apply keeps_bind; [apply keeps_for_each; intros; by apply keeps_send|].
  intros _. case_match; [apply keeps_for_each; intros; by apply keeps_send|apply keeps_ret].
Qed.

(** A view in which no channel and no call made for a payload shows. *)
Lemma keeps_on_payload k p :
  (forall cb b c, v (emit (EngineFrame k cb b) c) = v c) -> (forall cb m c, v (emit (PeerCall k cb m) c) = v c) ->
  (forall m l c, v (with_channels m l c) = v c) -> keeps (on_payload k p).
Proof.
  intros Hf Hp Hc.
  apply keeps_bind; [apply keeps_lift|]. intros o. apply keeps_bind; [apply keeps_lift|]. intros t.
  apply keeps_bind; [apply keeps_get|]. intros c. case_match; [|apply keeps_ret].
  case_match eqn:Et.
  - apply keeps_bind; [apply keeps_lift|]. intros d.
    repeat case_match; try done; [apply keeps_call|apply keeps_modify]; intros c'; [by apply Hf|by apply Hc].
  - apply keeps_for_each. intros cb. by apply keeps_call.
Qed.

End Views.

(** ** Frames reach the engine *)

(** The bytes of a frame payload. *)
Definition frame_data (payload : string) : option bytes :=
  match (let! o := parseWithBigint payload in
         let! t := vget o "t" in
         let! d := vget o "data" in Ok (t, d)) with
  | Ok (VStr t, VStr d) => if String.eqb t "frame" then Some (text_encode d) else None
  | _ => None
  end.

(** The frame for the match [m] that an event brings, if any. *)
Definition heard (m : string) (e : MpEvent) (c : MpClient) : list bytes :=
  match e with
  | SocketMessage i (SRelay m' p) =>
      match sockets c !! i with
      | Some s => if bool_decide (so_ready s = OPEN) && String.eqb m' m
                  then option_list (frame_data p) else []
      | None => []
      end
  | _ => []
  end.

Fixpoint heard_all (m : string) (evs : list MpEvent) (c : MpClient) : list bytes :=
  match evs with
  | [] => []
  | e :: evs => heard m e c ++ heard_all m evs (fst (step e c))
  end.

(** The frames the engine of channel [k] was called with. *)
Definition engine_got (k : nat) (o : list Out) : list bytes :=
  omap (fun x => match x with EngineFrame k' _ b => if Nat.eqb k' k then Some b else None | _ => None end) o.

Arguments engine_got : simpl never.

Definition buffered (k : nat) (c : MpClient) : list bytes :=
  match channels c !! k with Some ch => frameBuffer ch | None => [] end.

(** The handlers are those of the channels, and an engine that is wired has
    nothing left in its buffer. *)
Record routed (c : MpClient) : Prop := {
  rt_handlers : forall m k, relayHandlers c !! m = Some k ->
    exists ch, channels c !! k = Some ch /\ ch_matchId ch = m;
  rt_buffers : Forall (fun ch => is_Some (engineOnFrame ch) -> frameBuffer ch = []) (channels c);
  rt_calls : Forall (fun o => match o with EngineFrame k _ _ => (k < length (channels c))%nat | _ => True end)
               (outs c)
}.

Definition route (c : MpClient) := (channels c, relayHandlers c).
Definition engine_view (c : MpClient) :=
  (channels c, relayHandlers c,
   filter (fun o => match o with EngineFrame _ _ _ => true | _ => false end = true) (outs c)).

Lemma engine_got_filter k o :
  engine_got k (filter (fun o => match o with EngineFrame _ _ _ => true | _ => false end = true) o) =
  engine_got k o.
Proof.
  induction o as [|x o IH]; [done|]. rewrite filter_cons. case_decide; cbn in *.
  - unfold engine_got in *. cbn [omap list_omap]. by rewrite IH.
  - destruct x; try done; unfold engine_got in *; cbn [omap list_omap]; by rewrite IH.
Qed.

Lemma engine_emit o c :
  match o with EngineFrame _ _ _ => False | _ => True end -> engine_view (emit o c) = engine_view c.
Proof.
  intros Ho. unfold engine_view. cbn [emit channels relayHandlers outs]. rewrite filter_app, filter_cons, filter_nil.
  case_decide; [by destruct o|]. by rewrite app_nil_r.
Qed.

Lemma engine_deaf : deaf engine_view.
Proof. intros i m c. by apply engine_emit. Qed.

(** The events that show in the engine's view of a client. *)
Definition engine_event (e : MpEvent) : bool :=
  match e with
  | OpenChannel _ | ReleaseMatch _ | WireEngine _ _ | OnPeer _ _ | AddPeerListener _ _
  | RemovePeerListener _ _ | SocketMessage _ (SRelay _ _) => true
  | _ => false
  end.

Lemma engine_schedule c : engine_view (scheduleReconnect c) = engine_view c.
Proof. unfold scheduleReconnect. by rewrite engine_emit. Qed.

Lemma engine_open b c : engine_view (openSocket b c) = engine_view c.
Proof. unfold openSocket. by rewrite engine_emit. Qed.

Lemma engine_resolve i s c : engine_view (resolve_socket i s c) = engine_view c.
Proof. unfold resolve_socket. repeat case_match; rewrite ?engine_emit by done; done. Qed.

Lemma engine_reject i s e c : engine_view (reject_socket i s e c) = engine_view c.
Proof. unfold reject_socket. repeat case_match; rewrite ?engine_schedule, ?engine_emit by done; done. Qed.

Lemma engine_fail e c : engine_view (failNextMatch e c) = engine_view c.
Proof. unfold failNextMatch. case_match; [done|]. by rewrite engine_emit. Qed.

Ltac as_in H := etransitivity; [apply H|reflexivity].

Lemma step_engine e : engine_event e = false -> keeps engine_view (step e).
Proof.
  intros He.
  assert (forall f, (forall c, engine_view (f c) = engine_view c) -> keeps engine_view (emodify f)) as Hm
    by apply keeps_modify.
  destruct e as [|g|m| |k b| |k m| | | |m| |m t| |i|i m|i|i|]; try done; cbn [step].
  - apply Hm. intros c. as_in engine_open.
  - apply keeps_bind; [by apply Hm|]. intros _. apply keeps_bind; [apply keeps_send, engine_deaf|].
    intros _. apply Hm. intros c. unfold await_match. case_match; [done|]. by rewrite engine_emit.
  - apply keeps_bind; [apply keeps_send, engine_deaf|]. intros _. by apply Hm.
  - apply keeps_bind; [apply keeps_get|]. intros c. case_match; [|apply keeps_ret].
    apply keeps_bind; [apply keeps_lift|]. intros p. apply keeps_send, engine_deaf.
  - apply keeps_bind; [apply keeps_get|]. intros c. case_match; [|apply keeps_ret].
    apply keeps_send, engine_deaf.
  - apply keeps_send, engine_deaf.
  - apply Hm. intros c. unfold close. cbn zeta. case_match; [|done]. by rewrite engine_emit.
  - apply keeps_on_socket. intros s. by apply Hm.
  - apply keeps_on_socket. intros s. destruct m as [n|m| |e| | | |cd ms|]; try done; cbn [onmessage].
    + apply keeps_bind; [apply keeps_ws_send, engine_deaf|]. intros _.
      apply keeps_bind; [by apply Hm|]. intros _.
      apply keeps_bind; [apply keeps_resumeActive, engine_deaf|]. intros _.
      apply Hm. intros c. as_in engine_resolve.
    + apply Hm. intros c. unfold deliverMatch. case_match; [done|]. by rewrite engine_emit.
    + apply keeps_bind; [by apply Hm|]. intros _. apply keeps_call. intros c. by rewrite engine_emit.
    + apply keeps_call. intros c. by rewrite engine_emit.
    + apply keeps_call. intros c. by rewrite engine_emit.
    + apply Hm. intros c. as_in engine_fail.
    + apply Hm. intros c. case_match; [as_in engine_fail|as_in engine_reject].
  - apply keeps_on_socket. intros s. apply Hm. intros c. unfold onerror. case_match; [|done].
    as_in engine_reject.
  - apply keeps_on_socket. intros s. apply Hm. intros c. unfold onclose. cbn zeta. case_match; [done|].
    as_in engine_schedule.
  - apply Hm. intros c. unfold on_timer. cbn zeta. repeat case_match; [done|done|].
    as_in engine_open.
Qed.

Lemma routed_view c c' : engine_view c' = engine_view c -> routed c -> routed c'.
Proof.
  unfold engine_view. intros [= Hc Hh Ho] [H1 H2 H3]. split; rewrite ?Hc, ?Hh; try done.
  apply Forall_forall. intros o Hin. rewrite Forall_forall in H3. destruct o; try done.
  assert (EngineFrame ch cb b ∈ outs c) as Hi; [|by apply H3 in Hi].
  eapply (list_elem_of_filter (fun o => match o with EngineFrame _ _ _ => true | _ => false end = true)).
  rewrite <- Ho. by apply list_elem_of_filter.
Qed.

(** What becomes of the engine of channel [k] in one event that loses nothing. *)
Definition delivers (k : nat) (fs : list bytes) (c c' : MpClient) : Prop :=
  exists now, engine_got k (outs c') = engine_got k (outs c) ++ now /\
    now ++ buffered k c' = buffered k c ++ fs.

(** The engine is wired, and stopped the replay of its buffer by throwing: the rest
    of the buffer is lost. *)
Definition cuts (k : nat) (c c' : MpClient) : Prop :=
  exists now lost, lost <> [] /\ engine_got k (outs c') = engine_got k (outs c) ++ now /\
    buffered k c = now ++ lost /\ buffered k c' = [].

Definition wired (k : nat) (c : MpClient) : Prop :=
  exists ch, channels c !! k = Some ch /\ is_Some (engineOnFrame ch).

Lemma wired_buffered k c : routed c -> wired k c -> buffered k c = [].
Proof.
  intros Hr (ch & Hk & He). pose proof (rt_buffers _ Hr) as Hb. rewrite Forall_lookup in Hb.
  unfold buffered. rewrite Hk. by apply (Hb k).
Qed.

Lemma delivers_view k c c' : engine_view c' = engine_view c -> delivers k [] c c'.
Proof.
  unfold engine_view, delivers, buffered. intros [= -> _ Ho]. exists [].
  rewrite <- (engine_got_filter k (outs c')), Ho, engine_got_filter. by rewrite !app_nil_r.
Qed.

(** A loop of calls makes them in order, up to the first that throws. *)
Lemma each_call {A} (f : A -> Out) l : forall c, exists now later, l = now ++ later /\
  let r := for_each (fun b => call (f b)) l c in
  channels (fst r) = channels c /\ relayHandlers (fst r) = relayHandlers c /\
  outs (fst r) = outs c ++ map f now /\ (later <> [] -> exists e, snd r = Throw e).
Proof.
  induction l as [|x l IH]; intros c; cbn [for_each].
  { exists [], []. cbn. by rewrite app_nil_r. }
  assert (ebind (call (f x)) (fun _ => for_each (fun b => call (f b)) l) c =
          match callback_throws (length (outs c)) with
          | Some e => (emit (f x) c, Throw e)
          | None => for_each (fun b => call (f b)) l (emit (f x) c)
          end) as ->.
  { unfold ebind, call. by destruct (callback_throws _). }
  destruct (callback_throws (length (outs c))) as [e|].
  - exists [x], l. cbn. split_and!; try done. by exists e.
  - destruct (IH (emit (f x) c)) as (now & later & -> & H). cbn zeta in H.
    exists (x :: now), later. cbn zeta. destruct H as (-> & -> & -> & H). cbn.
    split_and!; try done. by rewrite <- app_assoc.
Qed.

Lemma on_payload_frame k p c b ch :
  channels c !! k = Some ch -> frame_data p = Some b ->
  on_payload k p c =
    match engineOnFrame ch with
    | Some cb => call (EngineFrame k cb b) c
    | None => (with_channels (relayHandlers c)
                 (alter (with_engine None (frameBuffer ch ++ [b])) k (channels c)) c, Ok tt)
    end.
Proof.
  unfold frame_data, on_payload, ebind, elift, eget, emodify. intros Hch.
  destruct (parseWithBigint p) as [o|]; cbn [rbind]; [|done].
  destruct (vget o "t") as [t|]; cbn [rbind]; [|done].
  destruct (vget o "data") as [d|]; cbn [rbind]; [|done].
  destruct t; try done. destruct d as [| | | |d| | |]; try done. case_match; [|done]. intros [= <-].
  rewrite Hch. by destruct (engineOnFrame ch).
Qed.

Lemma on_payload_other k p c :
  frame_data p = None -> engine_view (fst (on_payload k p c)) = engine_view c.
Proof.
  unfold frame_data, on_payload, ebind, elift, eget, emodify, ethrow, eret.
  destruct (parseWithBigint p) as [o|]; cbn [rbind]; [|done].
  destruct (vget o "t") as [t|]; cbn [rbind]; [|done].
  destruct (channels c !! k) as [ch|]; [|done]. intros Hf.
  destruct (match t with VStr s => String.eqb s "frame" | _ => false end) eqn:Et.
  - destruct t as [| | | |t| | |]; try done. destruct (vget o "data") as [d|]; cbn [rbind] in *; [|done].
    destruct d; try done. by rewrite Et in Hf.
  - unfold engine_view. destruct (each_call (fun cb => PeerCall k cb o) (peerCbs ch) c) as (now & later & _ & -> & -> & -> & _).
    rewrite filter_app. f_equal. induction now as [|cb l IH]; cbn [map]; [by rewrite app_nil_r|].
    by rewrite filter_cons.
Qed.

Lemma engine_got_app k o o' : engine_got k (o ++ o') = engine_got k o ++ engine_got k o'.
Proof. apply omap_app. Qed.

Lemma engine_got_frames k cb bs : engine_got k (map (EngineFrame k cb) bs) = bs.
Proof.
  induction bs as [|b bs IH]; [done|]. unfold engine_got in *. cbn [map omap list_omap].
  rewrite Nat.eqb_refl. by rewrite IH.
Qed.

Lemma engine_got_other k k' cb bs : k' <> k -> engine_got k (map (EngineFrame k' cb) bs) = [].
Proof.
  intros Hk. induction bs as [|b bs IH]; [done|]. unfold engine_got in *. cbn [map omap list_omap].
  by rewrite (proj2 (Nat.eqb_neq _ _)).
Qed.

(** Replacing the engine and the buffer of one channel, and calling its engine
    with [bs]. *)
Lemma routed_engine c c' k ch f buf cb bs :
  routed c -> channels c !! k = Some ch -> (is_Some f -> buf = []) ->
  channels c' = alter (with_engine f buf) k (channels c) -> relayHandlers c' = relayHandlers c ->
  outs c' = outs c ++ map (EngineFrame k cb) bs ->
  routed c' /\ forall j, (delivers j [] c c' \/ j = k) /\ (j <> k -> wired j c -> wired j c').
Proof.
  intros [H1 H2 H3] Hch Hb Hc Hr Ho. split; [split; rewrite ?Hc, ?Hr, ?Ho|].
  - intros m j (ch' & Hj & Hm)%H1. destruct (decide (j = k)) as [->|Hjk].
    + exists (with_engine f buf ch'). by rewrite list_lookup_alter_eq, Hj.
    + exists ch'. by rewrite list_lookup_alter_ne.
  - apply Forall_alter; [done|]. intros ch' _ _. exact Hb.
  - rewrite length_alter. apply Forall_app. split; [done|]. apply Forall_forall. intros o Hin.
    apply list_elem_of_fmap in Hin as (b & -> & _). by apply lookup_lt_Some in Hch.
  - intros j. split.
    + destruct (decide (j = k)) as [->|Hjk]; [by right|left]. exists []. unfold buffered.
      rewrite Hc, Ho, list_lookup_alter_ne by done.
      by rewrite engine_got_app, engine_got_other, !app_nil_r by done.
    + intros Hjk (ch' & Hj & He). exists ch'. by rewrite Hc, list_lookup_alter_ne.
Qed.

Lemma routed_fields c c' :
  routed c -> relayHandlers c' = relayHandlers c -> outs c' = outs c ->
  length (channels c') = length (channels c) ->
  (forall k ch, channels c !! k = Some ch -> exists ch', channels c' !! k = Some ch' /\
     ch_matchId ch' = ch_matchId ch /\ engineOnFrame ch' = engineOnFrame ch /\ frameBuffer ch' = frameBuffer ch) ->
  routed c' /\ forall k, delivers k [] c c' /\ (wired k c -> wired k c').
Proof.
  intros [H1 H2 H3] Hr Ho Hl Hc. split; [split; rewrite ?Hr, ?Ho, ?Hl; [|..|done]|].
  - intros m k (ch & Hk & <-)%H1. apply Hc in Hk as (ch' & -> & <- & _). by exists ch'.
  - apply Forall_lookup. intros k ch' Hk.
    destruct (channels c !! k) as [ch|] eqn:E; [|apply lookup_ge_None in E; apply lookup_lt_Some in Hk; lia].
    rewrite Forall_lookup in H2. specialize (H2 k ch E). apply Hc in E as (ch2 & E & _ & Ee & Eb).
    rewrite Hk in E. injection E as <-. by rewrite Ee, Eb.
  - intros k. split.
    + exists []. unfold buffered. rewrite Ho, !app_nil_r. split; [done|]. cbn [app].
      destruct (channels c !! k) as [ch|] eqn:E; [by apply Hc in E as (ch' & -> & _ & _ & ->)|].
      by rewrite (proj2 (lookup_ge_None _ _)) by (rewrite Hl; by apply lookup_ge_None).
    + intros (ch & E & He). apply Hc in E as (ch' & E & _ & Ee & _). exists ch'. by rewrite Ee.
Qed.

Lemma set_cbs_routed f k c :
  routed c -> routed (set_cbs f k c) /\ relayHandlers (set_cbs f k c) = relayHandlers c /\
              forall j, delivers j [] c (set_cbs f k c) /\ (wired j c -> wired j (set_cbs f k c)).
Proof.
  intros Hr.
  destruct (routed_fields c (set_cbs f k c) Hr) as [H1 H2]; [done|done| | |by split_and!].
  - cbn. by rewrite length_alter.
  - intros j ch Hj. cbn. destruct (decide (j = k)) as [->|].
    + rewrite list_lookup_alter_eq, Hj. by eexists.
    + rewrite list_lookup_alter_ne, Hj by done. by exists ch.
Qed.

Lemma wire_routed k cb c :
  routed c ->
  let r := transport_onFrame k cb c in
  routed (fst r) /\ relayHandlers (fst r) = relayHandlers c /\
  forall j, (wired j c -> wired j (fst r)) /\
    (delivers j [] c (fst r) \/ j = k /\ cuts k c (fst r) /\ wired k (fst r) /\ exists e, snd r = Throw e).
Proof.
  intros Hr r. unfold r, transport_onFrame, ebind, eget, emodify. destruct (channels c !! k) as [ch|] eqn:Hch.
  2:{ split_and!; [done|done|]. intros j. split; [done|]. left. by apply delivers_view. }
  set (d := with_channels _ _ _).
  destruct (each_call (EngineFrame k cb) (frameBuffer ch) d) as (now & later & Hb & Ec & Er & Eo & Ht).
  set (r2 := for_each _ _ _) in *.
  destruct (routed_engine c (fst r2) k ch (Some cb) [] cb now Hr Hch) as [H1 H2]; [done..|].
  assert (wired k (fst r2)) as Hw.
  { exists (with_engine (Some cb) [] ch). rewrite Ec. cbn [d channels with_channels].
    by rewrite list_lookup_alter_eq, Hch. }
  assert (buffered k (fst r2) = []) as Hb2 by by apply wired_buffered.
  assert (engine_got k (outs (fst r2)) = engine_got k (outs c) ++ now) as Hg
    by (rewrite Eo; cbn [d outs with_channels]; by rewrite engine_got_app, engine_got_frames).
  assert (buffered k c = now ++ later) as Hbc by (unfold buffered; by rewrite Hch).
  split_and!; [done|done|]. intros j. destruct (H2 j) as [H3 H4].
  destruct (decide (j = k)) as [->|Hj]; [|destruct H3; [by split; [auto|left]|done]].
  split; [done|]. destruct later as [|b later].
  - left. exists now. by rewrite Hb2, Hbc, !app_nil_r.
  - right. split_and!; [done| |done|by apply Ht]. by exists now, (b :: later).
Qed.

Lemma payload_routed k p c :
  routed c -> (k < length (channels c))%nat ->
  let c' := fst (on_payload k p c) in
  routed c' /\ relayHandlers c' = relayHandlers c /\
  forall j, (wired j c -> wired j c') /\
    delivers j (if bool_decide (j = k) then option_list (frame_data p) else []) c c'.
Proof.
  intros Hr Hk c'. destruct (frame_data p) as [b|] eqn:Ef.
  2:{ pose proof (on_payload_other k p c Ef) as Hv. split_and!; [by eapply routed_view|by injection Hv|].
      intros j. split; [unfold wired, c'; by injection Hv as -> _ _|]. case_bool_decide; by apply delivers_view. }
  apply lookup_lt_is_Some in Hk as [ch Hch]. unfold c'.
  rewrite (on_payload_frame k p c b ch) by done.
  pose proof (rt_buffers _ Hr) as Hb. rewrite Forall_lookup in Hb. specialize (Hb k ch Hch).
  destruct (engineOnFrame ch) as [cb|] eqn:Ee; cbn [call fst].
  - assert (alter (with_engine (Some cb) []) k (channels c) = channels c) as Ha.
    { apply list_eq. intros j. destruct (decide (j = k)) as [->|].
      - rewrite list_lookup_alter_eq, Hch. destruct ch; cbn in *. by rewrite Ee, Hb.
      - by rewrite list_lookup_alter_ne. }
    destruct (routed_engine c (emit (EngineFrame k cb b) c) k ch (Some cb) [] cb [b] Hr Hch) as [H1 H2]; [done|by rewrite Ha|done..|].
    split_and!; [done|done|]. intros j. split; [done|]. case_bool_decide as Hj.
    + subst j. exists [b]. unfold buffered. cbn [emit channels outs]. rewrite Hch, Hb by done.
      rewrite engine_got_app. split; [|done]. f_equal. apply (engine_got_frames k cb [b]).
    + by destruct (H2 j) as [[?|?] _].
  - set (c2 := with_channels _ _ _).
    destruct (routed_engine c c2 k ch None (frameBuffer ch ++ [b]) 0 [] Hr Hch) as [H1 H2];
      [by intros []|done|done|by rewrite app_nil_r|].
    split_and!; [done|done|]. intros j. destruct (H2 j) as [H3 H4]. split.
    { intros Hw. destruct (decide (j = k)) as [->|]; [|by apply H4]. destruct Hw as (ch' & E & [x He]). congruence. }
    case_bool_decide as Hj; [subst j|by destruct H3].
    exists []. unfold buffered. cbn [c2 with_channels channels outs]. rewrite list_lookup_alter_eq, Hch, app_nil_r. done.
Qed.

Lemma handler_inj c m m' k :
  routed c -> relayHandlers c !! m = Some k -> relayHandlers c !! m' = Some k -> m = m'.
Proof.
  intros Hr (ch & Hk & <-)%(rt_handlers _ Hr) (ch' & Hk' & <-)%(rt_handlers _ Hr). congruence.
Qed.

Lemma channel_routed m c :
  routed c ->
  let c' := channel m c in
  routed c' /\ relayHandlers c' !! m = Some (length (channels c)) /\
  (forall m', m' <> m -> relayHandlers c' !! m' = relayHandlers c !! m') /\
  forall j, (j < length (channels c))%nat -> delivers j [] c c' /\ (wired j c -> wired j c').
Proof.
  intros [H1 H2 H3] c'. cbn. split_and!.
  - split; cbn.
    + intros m' k [[<- <-]|[Hm Hk]]%lookup_insert_Some.
      * eexists. by rewrite lookup_app_r, Nat.sub_diag.
      * apply H1 in Hk as (ch & Hk & <-). exists ch. by rewrite lookup_app_l by (by eapply lookup_lt_Some).
    + apply Forall_app. split; [done|]. by repeat constructor; intros [].
    + eapply Forall_impl; [done|]. intros o. rewrite length_app. destruct o; cbn; lia.
  - by rewrite lookup_insert_eq.
  - intros m' Hm. by rewrite lookup_insert_ne.
  - intros j Hj. split.
    + exists []. unfold buffered. cbn. by rewrite lookup_app_l, !app_nil_r by done.
    + intros (ch & Hch & He). exists ch. cbn. by rewrite lookup_app_l.
Qed.

Lemma relay_routed i m' p c :
  routed c ->
  let c' := fst (step (SocketMessage i (SRelay m' p)) c) in
  routed c' /\ relayHandlers c' = relayHandlers c /\
  forall m k, relayHandlers c !! m = Some k ->
    (wired k c -> wired k c') /\ delivers k (heard m (SocketMessage i (SRelay m' p)) c) c c'.
Proof.
  intros Hr. cbn [step]. unfold on_socket, heard.
  assert (forall k, (wired k c -> wired k c) /\ delivers k [] c c) as Hnil by (intros; split; [done|by apply delivers_view]).
  destruct (sockets c !! i) as [s|]; [|by split_and!]. case_bool_decide; cbn [andb]; [|by split_and!].
  cbn [onmessage ebind]. unfold eget, ebind.
  destruct (relayHandlers c !! m') as [k'|] eqn:Ek'.
  2:{ cbn. split_and!; [done|done|]. intros m k Hk. destruct (String.eqb_spec m' m); [congruence|done]. }
  destruct (rt_handlers _ Hr _ _ Ek') as (ch & Hch & _). apply lookup_lt_Some in Hch.
  destruct (payload_routed k' p c Hr Hch) as (H1 & H2 & H3). split_and!; [done|done|].
  intros m k Hk. specialize (H3 k). destruct (String.eqb_spec m' m) as [->|Hne].
  - assert (k = k') as -> by congruence. by rewrite bool_decide_eq_true_2 in H3.
  - rewrite bool_decide_eq_false_2 in H3; [done|]. intros ->. destruct Hne. by apply (handler_inj c m' m k').
Qed.

Lemma step_delivers e c :
  routed c ->
  let c' := fst (step e c) in
  routed c' /\
  forall m k, relayHandlers c !! m = Some k -> e <> OpenChannel m -> e <> ReleaseMatch m ->
    relayHandlers c' !! m = Some k /\ (wired k c -> wired k c') /\
    (delivers k (heard m e c) c c' \/
     (exists cb x, e = WireEngine k cb /\ snd (step e c) = Throw x) /\ cuts k c c' /\ wired k c').
Proof.
  intros Hr c'. destruct (engine_event e) eqn:Ee.
  2:{ pose proof (step_engine e Ee c) as Hv. split; [by eapply routed_view|]. intros m k Hk _ _.
      pose proof Hv as Hv'. injection Hv' as Hc Hh _. unfold c', wired. rewrite Hh, Hc. split; [done|]. split; [done|].
      assert (heard m e c = []) as -> by (by destruct e as [| | | | | | | | | | | | | | |? []| | |]).
      left. by apply delivers_view. }
  assert (forall (P : Prop) m k c2, (relayHandlers c2 = relayHandlers c) ->
    (delivers k [] c c2 /\ (wired k c -> wired k c2)) -> relayHandlers c !! m = Some k ->
    relayHandlers c2 !! m = Some k /\ (wired k c -> wired k c2) /\ (delivers k [] c c2 \/ P)) as Hplain.
  { intros P m k c2 -> [H1 H2] H3. split_and!; [done|done|by left]. }
  unfold c'. destruct e as [| | |m'| |k' cb| |k' cb|k' cb|k' cb| |m'| | | |i []| | |]; try done; cbn [step heard].
  - destruct (channel_routed m' c Hr) as (H1 & H2 & H3 & H4). split; [done|]. intros m k Hk Hm _.
    cbn [emodify fst]. rewrite H3 by congruence. split; [done|].
    destruct (H4 k) as [H5 H6]; [|by split; [|left]].
    destruct (rt_handlers _ Hr _ _ Hk) as (ch & Hch & _). by apply lookup_lt_Some in Hch.
  - destruct (wire_routed k' cb c Hr) as (H1 & H2 & H3). split; [done|]. intros m k Hk _ _.
    rewrite H2. destruct (H3 k) as [H4 [H5|(-> & H5 & H6 & x & Hx)]]; (split_and!; [done|done|]); [by left|right].
    split_and!; [|done|done]. by exists cb, x.
  - destruct (set_cbs_routed (fun _ => [cb]) k' c Hr) as (H1 & H2 & H3). split; [done|]. intros m k Hk _ _. by apply Hplain.
  - destruct (set_cbs_routed (set_add cb) k' c Hr) as (H1 & H2 & H3). split; [done|]. intros m k Hk _ _. by apply Hplain.
  - destruct (set_cbs_routed (set_delete cb) k' c Hr) as (H1 & H2 & H3). split; [done|]. intros m k Hk _ _. by apply Hplain.
  - cbn. destruct Hr as [H1 H2 H3]. split.
    + split; cbn; [|done..]. intros m k [_ Hk]%lookup_delete_Some. by apply H1.
    + intros m k Hk _ Hm. rewrite lookup_delete_ne by congruence. split_and!; [done|done|].
      left. exists []. unfold buffered. cbn. by rewrite !app_nil_r.
  - destruct (relay_routed i matchId payload c Hr) as (H1 & H2 & H3). split; [done|].
    intros m k Hk _ _. destruct (H3 m k Hk) as [H4 H5]. split_and!; [|done|by left].
    cbn [step] in H2. by rewrite H2.
Qed.

(** A run hands the buffered frames and those it hears to the engine or keeps them
    buffered, in order and each once, but for one gap [lost]: what is left of the
    buffer when the engine throws while it is wired. *)
Lemma run_delivers evs m k : forall c,
  routed c -> relayHandlers c !! m = Some k -> OpenChannel m ∉ evs -> ReleaseMatch m ∉ evs ->
  routed (run evs c) /\ relayHandlers (run evs c) !! m = Some k /\
  exists got lost later, buffered k c ++ heard_all m evs c = got ++ lost ++ later /\
    engine_got k (outs (run evs c)) ++ buffered k (run evs c) = engine_got k (outs c) ++ got ++ later /\
    (wired k c -> lost = []) /\
    (lost <> [] -> exists evs1 cb evs2 x, evs = evs1 ++ WireEngine k cb :: evs2 /\
       snd (step (WireEngine k cb) (run evs1 c)) = Throw x /\
       engine_got k (outs (fst (step (WireEngine k cb) (run evs1 c)))) = engine_got k (outs c) ++ got).
Proof.
  induction evs as [|e evs IH]; intros c Hr Hk Ho Hd.
  { split_and!; [done|done|]. exists (buffered k c), [], []. cbn. by rewrite !app_nil_r. }
  rewrite not_elem_of_cons in Ho, Hd. destruct Ho as [Ho1 Ho2], Hd as [Hd1 Hd2].
  destruct (step_delivers e c Hr) as [H1 H2]. destruct (H2 m k Hk) as (H3 & Hw & H4); [congruence..|].
  destruct (IH _ H1 H3 Ho2 Hd2) as (H5 & H6 & got & lost & later & E1 & E2 & Hl & Hcut).
  change (run (e :: evs) c) with (run evs (fst (step e c))). split_and!; [done|done|]. cbn [heard_all].
  destruct H4 as [(now & Eg & Eb)|((cb & x & -> & Hx) & (now & gone & Hne & Eg & Eb & Eb') & Hw')].
  - exists (now ++ got), lost, later. split_and!.
    + rewrite (assoc_L (++) (buffered k c)), <- Eb, <- !(assoc_L (++)). by rewrite E1.
    + rewrite E2, Eg. by rewrite <- !(assoc_L (++)).
    + intros H. by apply Hl, Hw.
    + intros (evs1 & cb & evs2 & x & -> & Hx & Hg)%Hcut. exists (e :: evs1), cb, evs2, x.
      split_and!; [done|done|]. change (run (e :: evs1) c) with (run evs1 (fst (step e c))).
      by rewrite Hg, Eg, <- (assoc_L (++)).
  - rewrite (Hl Hw') in *. rewrite Eb' in E1. cbn [app] in E1.
    exists now, gone, (got ++ later). split_and!.
    + rewrite Eb. cbn [heard app]. by rewrite E1, <- (assoc_L (++)).
    + by rewrite E2, Eg, <- (assoc_L (++)).
    + intros H%wired_buffered; [|done]. rewrite H in Eb. symmetry in Eb. by apply app_eq_nil in Eb as [_ ->].
    + intros _. exists [], cb, evs, x. by split_and!.
Qed.

Lemma new_routed : routed newMpClient.
Proof. split; [|constructor..]. intros m k Hk. cbn in Hk. by rewrite lookup_empty in Hk. Qed.

Lemma run_routed evs c : routed c -> routed (run evs c).
Proof.
  revert c. induction evs as [|e evs IH]; intros c Hr; [done|]. apply IH. by apply step_delivers.
Qed.

(** C25: the relay loses no frame, unless the engine throws at one it had to wait for.
    A client opens a channel for a match after any history; whatever happens next
    -- other matches, peer messages, drops and reconnects, the engine wired early,
    late or again, callbacks that throw -- as long as that channel is not released
    or replaced: the frames relayed for the match are, in order and each once,
    those its engine was called with and then those it still buffers, but for at
    most one gap, [lost]; and nothing is buffered once an engine is there.  The gap
    arises only when the engine is wired and throws at a buffered frame, the last
    of [got]: it is then not called with the buffered frames after that one. *)
Theorem frames_reach_the_engine before after m :
  let c0 := run before newMpClient in
  let k := length (channels c0) in
  let c := run (before ++ OpenChannel m :: after) newMpClient in
  OpenChannel m ∉ after -> ReleaseMatch m ∉ after ->
  exists ch got lost later, channels c !! k = Some ch /\ ch_matchId ch = m /\
    heard_all m after (channel m c0) = got ++ lost ++ later /\
    engine_got k (outs c) ++ frameBuffer ch = got ++ later /\
    (is_Some (engineOnFrame ch) -> frameBuffer ch = []) /\
    (lost <> [] -> exists evs1 cb evs2 x, after = evs1 ++ WireEngine k cb :: evs2 /\
       snd (step (WireEngine k cb) (run evs1 (channel m c0))) = Throw x /\
       engine_got k (outs (fst (step (WireEngine k cb) (run evs1 (channel m c0))))) = got).
Proof.
  intros c0 k c Ho Hd. assert (routed c0) as Hr0 by apply run_routed, new_routed.
  destruct (channel_routed m c0 Hr0) as (Hr1 & Hk & _ & _).
  destruct (run_delivers after m k (channel m c0) Hr1 Hk Ho Hd) as (Hr & Hk' & got & lost & later & E1 & E2 & _ & Hcut).
  assert (run after (channel m c0) = c) as Ec by (unfold c, run; by rewrite fold_left_app). rewrite Ec in *.
  destruct (rt_handlers _ Hr _ _ Hk') as (ch & Hch & Hm). exists ch, got, lost, later.
  assert (engine_got k (outs (channel m c0)) = []) as Hg0.
  { cbn [channel with_channels with_active outs].
    pose proof (rt_calls _ Hr0) as Hc. fold k in Hc. induction Hc as [|o l Ho' _ IH]; [done|].
    unfold engine_got in *. cbn [omap list_omap]. destruct o; try done.
    by rewrite (proj2 (Nat.eqb_neq _ _)) by lia. }
  assert (buffered k (channel m c0) = []) as Hb0.
  { unfold buffered. cbn [channel with_channels with_active channels]. unfold k.
    by rewrite lookup_app_r, Nat.sub_diag. }
  rewrite Hg0 in *. rewrite Hb0 in E1. cbn [app] in *. split_and!; [done|done|done| | |done].
  - unfold buffered in E2. by rewrite Hch in E2.
  - pose proof (rt_buffers _ Hr) as Hb. rewrite Forall_lookup in Hb. by apply (Hb k).
Qed.

(** A view of the connection or of the active matches: what the other parts of
    the client do does not show. *)
Record steady {V} (v : MpClient -> V) : Prop := {
  st_emit : forall o c, v (emit o c) = v c;
  st_queued : forall l c, v (with_queued l c) = v c;
  st_queue : forall l c, v (with_queue l c) = v c;
  st_waiters : forall l n c, v (with_waiters l n c) = v c;
  st_channels : forall m l c, v (with_channels m l c) = v c
}.

Section Steady.
Context {V : Type} (v : MpClient -> V) (Hv : steady v).

Lemma steady_deaf : deaf v.
Proof using Hv. intros i m c. by apply st_emit. Qed.

Lemma steady_payload k p : keeps v (on_payload k p).
Proof using Hv. apply keeps_on_payload; intros; (by apply st_emit) || by apply st_channels. Qed.

Lemma steady_fail e c : v (failNextMatch e c) = v c.
Proof using Hv. unfold failNextMatch. case_match; [done|]. by rewrite st_emit, st_waiters. Qed.

Lemma steady_deliver m c : v (deliverMatch m c) = v c.
Proof using Hv.
  unfold deliverMatch. case_match; [by rewrite st_queue|]. by rewrite st_emit, st_waiters.
Qed.

(** The events that leave the connection and the set of active matches alone. *)
Definition steady_event (e : MpEvent) : bool :=
  match e with
  | QuickMatch _ | JoinMatch _ | TransportSend _ _ | WireEngine _ _ | SendPeer _ _ | OnPeer _ _
  | AddPeerListener _ _ | RemovePeerListener _ _ | AnnounceTunnel _ _
  | SocketMessage _ (SRelay _ _ | SPeerResumed _ _ | SPeerDropped _ | SQueueTimeout | SOther) => true
  | _ => false
  end.

Lemma step_steady e : steady_event e = true -> keeps v (step e).
Proof using Hv.
  pose proof steady_deaf as Hd. intros He.
  destruct e as [|g|m|m|k b|k cb|k m|k cb|k cb|k cb|m|m|m t| |i|i m|i|i|]; try done; cbn [step].
  - apply keeps_bind; [apply keeps_modify; intros; by apply st_queued|]. intros _.
    apply keeps_bind; [by apply keeps_send|]. intros _. apply keeps_modify. intros c.
    unfold await_match, dropQueued. case_match; [by apply st_waiters|].
    by rewrite st_emit, st_waiters, st_queued, st_queue.
  - apply keeps_bind; [by apply keeps_send|]. intros _. apply keeps_modify. intros. by apply st_waiters.
  - apply keeps_bind; [apply keeps_get|]. intros c. case_match; [|apply keeps_ret].
    apply keeps_bind; [apply keeps_lift|]. intros p. by apply keeps_send.
  - apply keeps_wire; intros; [by apply st_emit|by apply st_channels].
  - apply keeps_bind; [apply keeps_get|]. intros c. case_match; [|apply keeps_ret]. by apply keeps_send.
  - apply keeps_modify. intros. by apply st_channels.
  - apply keeps_modify. intros. by apply st_channels.
  - apply keeps_modify. intros. by apply st_channels.
  - by apply keeps_send.
  - apply keeps_on_socket. intros s. destruct m as [n|m|m p|e|m p|m| |cd ms|]; try done; cbn [onmessage].
    + apply keeps_bind; [apply keeps_get|]. intros c. case_match; [apply steady_payload|apply keeps_ret].
    + apply keeps_call. intros. by apply st_emit.
    + apply keeps_call. intros. by apply st_emit.
    + apply keeps_modify. intros. apply steady_fail.
Qed.

End Steady.

(** ** One connection at a time *)

(** Outputs in one go. *)
Definition emits (l : list Out) (c : MpClient) : MpClient := fold_left (fun c o => emit o c) l c.

Lemma emits_outs l c : outs (emits l c) = outs c ++ l.
Proof.
  revert c. induction l as [|o l IH]; intros c; [by rewrite app_nil_r|]. cbn [emits fold_left].
  fold (emits l (emit o c)). rewrite IH. cbn. by rewrite <- app_assoc.
Qed.

Lemma emits_keep {V} (v : MpClient -> V) l c : (forall o c, v (emit o c) = v c) -> v (emits l c) = v c.
Proof.
  intros Hv. revert c. induction l as [|o l IH]; intros c; [done|]. cbn [emits fold_left].
  fold (emits l (emit o c)). by rewrite IH.
Qed.

(** Everything but the outputs. *)
Definition inner (c : MpClient) :=
  (ws c, connected c, closing c, reconnectAttempt c, (activeMatches c, queuedGames c, matchQueue c, matchWaiters c),
   (relayHandlers c, channels c, sockets c, timers c, draws c, issued c)).

Lemma emits_inner l c : inner (emits l c) = inner c.
Proof. by apply emits_keep. Qed.

(** Socket [i] is the client's socket, and open. *)
Definition on_line (i : nat) (c : MpClient) : Prop :=
  ws c = Some i /\ exists s, sockets c !! i = Some s /\ so_ready s = OPEN.

Lemma send_open i m c : on_line i c -> send m c = (emit (WsSend i m) c, Ok tt).
Proof. intros (Hw & s & Hs & Ho). unfold send, ws_send. by rewrite Hw, Hs, Ho. Qed.

Lemma send_each {A} (g : A -> ClientMsg) i l c :
  on_line i c -> for_each (fun x => send (g x)) l c = (emits (map (fun x => WsSend i (g x)) l) c, Ok tt).
Proof.
  revert c. induction l as [|x l IH]; intros c Hl; [done|]. cbn [for_each map]. unfold ebind.
  rewrite (send_open i) by done. rewrite IH by done. done.
Qed.

(** What a handshake sends after its [connect] message. *)
Definition resume_frames (c : MpClient) : list ClientMsg :=
  match activeMatches c with [] => map CQueueJoin (queuedGames c) | l => map CResume l end.

Lemma resumeActive_open i c :
  on_line i c -> resumeActive c = (emits (map (WsSend i) (resume_frames c)) c, Ok tt).
Proof.
  intros Hl. unfold resumeActive, ebind, eget, resume_frames. rewrite (send_each CResume i) by done.
  destruct (activeMatches c) as [|m l].
  - cbn [map emits fold_left]. rewrite (send_each CQueueJoin i) by done. by rewrite map_map.
  - unfold eret. by rewrite map_map.
Qed.

(** The client's own signature over a challenge. *)
Definition hello (nonce : string) : ClientMsg :=
  CConnect wallet (toHex (publicKey ephemeral))
    (toHex (makeSigner bk (secretKey ephemeral) (text_encode nonce))) nonce.

(** A handshake on the client's socket. *)
Lemma challenge_answered i s nonce c :
  ws c = Some i -> sockets c !! i = Some s -> so_ready s = OPEN ->
  let c' := fst (step (SocketMessage i (SChallenge nonce)) c) in
  outs c' = outs c ++ WsSend i (hello nonce) :: map (WsSend i) (resume_frames c) ++
              (if so_settled s || so_isReconnect s then [] else [ConnectResolved i]) /\
  connected c' = true /\ closing c' = closing c /\ ws c' = ws c /\ timers c' = timers c /\
  sockets c' = alter (fun s => mark_settled (mark_opened s)) i (sockets c) /\
  reconnectAttempt c' = (if so_isReconnect s then 0 else reconnectAttempt c) /\
  activeMatches c' = activeMatches c /\ queuedGames c' = queuedGames c /\
  matchWaiters c' = matchWaiters c /\ relayHandlers c' = relayHandlers c /\ channels c' = channels c.
Proof.
  intros Hw Hs Ho. cbn [step]. unfold on_socket. rewrite Hs, Ho, bool_decide_eq_true_2 by done.
  cbn [onmessage]. unfold ebind, ws_send, emodify. rewrite Hs, Ho. fold (hello nonce).
  set (c1 := with_connected _ _).
  assert (on_line i c1) as Hl.
  { split; [done|]. cbn. rewrite list_lookup_alter_eq, Hs. by eexists. }
  rewrite (resumeActive_open i) by done. cbn zeta. cbn [fst].
  set (l := map _ (resume_frames c1)).
  pose proof (emits_inner l c1) as Hin. pose proof (emits_outs l c1) as Hout. unfold inner in Hin.
  injection Hin as E1 E2 E3 E4 E5 E6 E7 E8 E9 E10 E11 E12 E13 E14.
  unfold resolve_socket. destruct (so_settled s) eqn:Es; cbn [orb].
  - rewrite Hout, E1, E2, E3, E4, E5, E6, E8, E9, E10, E11, E12. split_and!; try done.
    + cbn. by rewrite <- app_assoc, app_nil_r.
    + cbn. apply list_eq. intros j. destruct (decide (j = i)) as [->|]; [|by rewrite !list_lookup_alter_ne].
      rewrite !list_lookup_alter_eq, Hs. cbn. destruct s; cbn in *. by subst.
  - assert (alter mark_settled i (alter mark_opened i (sockets c)) =
            alter (fun s => mark_settled (mark_opened s)) i (sockets c)) as Ha.
    { apply list_eq. intros j. destruct (decide (j = i)) as [->|]; [|by rewrite !list_lookup_alter_ne].
      by rewrite !list_lookup_alter_eq, Hs. }
    destruct (so_isReconnect s); cbn [emit with_sockets outs connected closing ws timers sockets reconnectAttempt
      activeMatches queuedGames matchWaiters relayHandlers channels];
    rewrite Hout, E1, E2, E3, E4, E5, E6, E8, E9, E10, E11, E12; cbn; rewrite Ha, <- ?app_assoc, ?app_nil_r; done.
Qed.

Definition ended (s : Socket) : Prop := so_ready s = CLOSED.

(** A client that has been connected, is not closed, and has either one timer
    that will open a socket, or one socket, the last it opened. *)
Inductive line_state (c : MpClient) : Prop :=
  | line_down : timers c = 1%nat -> ws c = None -> Forall ended (sockets c) -> line_state c
  | line_up olds s : timers c = 0%nat -> ws c = Some (length olds) -> sockets c = olds ++ [s] ->
      Forall ended olds -> so_ready s = CONNECTING \/ so_ready s = OPEN -> line_state c.

Record line (c : MpClient) : Prop := {
  ln_connected : connected c = true;
  ln_closing : closing c = false;
  ln_state : line_state c
}.

Definition line_view (c : MpClient) := (connected c, closing c, sockets c, ws c, timers c).

Lemma line_same c c' : line_view c' = line_view c -> line c -> line c'.
Proof.
  unfold line_view. intros [= H1 H2 H3 H4 H5] [Hc Hg Hs]. split; [congruence..|].
  destruct Hs as [|olds s]; [apply line_down|eapply line_up]; rewrite ?H3, ?H4, ?H5; eauto.
Qed.

Lemma line_steady : steady line_view.
Proof. by split. Qed.

(** The events that only the connection sees. *)
Definition line_event (e : MpEvent) : bool :=
  match e with
  | Connect | Close | SocketOpen _ | SocketMessage _ (SChallenge _) | SocketMessage _ (SError _ _)
  | SocketError _ | SocketClose _ | TimerFires => true
  | _ => false
  end.

Lemma step_line_view e : line_event e = false -> keeps line_view (step e).
Proof.
  intros He. destruct (steady_event e) eqn:Es; [by apply (step_steady _ line_steady)|].
  destruct e as [| | | | | | | | | | | | | |i|i m|i|i|]; try done.
  apply keeps_on_socket. intros s. destruct m as [n|m|m p|e|m p|m| |cd ms|]; try done; cbn [onmessage].
  apply keeps_modify. intros c. by rewrite (steady_deliver _ line_steady).
Qed.

Lemma ended_lookup l i s : Forall ended l -> l !! i = Some s -> so_ready s = CLOSED.
Proof. rewrite Forall_lookup. intros H Hi. by apply (H i). Qed.

(** A socket that is not closed is the client's. *)
Lemma line_socket c i s :
  line c -> sockets c !! i = Some s -> so_ready s <> CLOSED ->
  exists olds, sockets c = olds ++ [s] /\ i = length olds /\ Forall ended olds /\ ws c = Some i /\
    timers c = 0%nat /\ (so_ready s = CONNECTING \/ so_ready s = OPEN).
Proof.
  intros [_ _ [Ht Hw He|olds s' Ht Hw Hs He Hr]] Hi Hn.
  - by destruct Hn; eapply ended_lookup.
  - rewrite Hs in Hi. apply lookup_app_Some in Hi as [Hi|[Hl Hi]].
    + by destruct Hn; eapply ended_lookup.
    + apply list_lookup_singleton_Some in Hi as [Hi <-]. assert (i = length olds) as -> by lia.
      exists olds. by split_and!.
Qed.

Lemma alter_last {A} (f : A -> A) l x : alter f (length l) (l ++ [x]) = l ++ [f x].
Proof. induction l as [|y l IH]; [done|]. cbn. f_equal. apply IH. Qed.

Lemma socket_closes c i s :
  line c -> sockets c !! i = Some s -> so_ready s <> CLOSED ->
  let c' := fst (step (SocketClose i) c) in
  c' = scheduleReconnect (with_socket None (alter (with_ready CLOSED) i (sockets c)) c) /\
  line c' /\ timers c' = 1%nat.
Proof.
  intros Hl Hi Hn c'. destruct (line_socket c i s Hl Hi Hn) as (olds & Hs & -> & He & Hw & Ht & _).
  destruct Hl as [Hc Hg _].
  assert (c' = scheduleReconnect (with_socket None (alter (with_ready CLOSED) (length olds) (sockets c)) c)) as Hc'.
  { unfold c'. cbn [step]. unfold on_socket. rewrite Hi, bool_decide_eq_false_2 by done. cbn [negb].
    unfold emodify, onclose. cbn. by rewrite Hg. }
  rewrite Hc'. split_and!; [done| |cbn; by rewrite Ht]. split; [done|done|]. apply line_down; cbn; [by rewrite Ht|done|].
  rewrite Hs, alter_last. apply Forall_app. split; [done|]. by repeat constructor.
Qed.

Lemma timer_opens c :
  line c -> timers c = 1%nat ->
  let c' := fst (step TimerFires c) in
  c' = openSocket true (with_timers (reconnectAttempt c) 0 (draws c) c) /\ line c'.
Proof.
  intros [Hc Hg Hst] Hone c'. destruct Hst as [_ Hw He|olds s Ht]; [|congruence].
  assert (c' = openSocket true (with_timers (reconnectAttempt c) 0 (draws c) c)) as ->.
  { unfold c'. cbn [step emodify fst]. unfold on_timer. rewrite Hone. cbn. by rewrite Hg. }
  split; [done|]. split; [done|done|]. eapply line_up; cbn; [done..|]. by left.
Qed.

Lemma line_step e c : line c -> e <> Connect -> e <> Close -> line (fst (step e c)).
Proof.
  intros Hl Hn1 Hn2. destruct (line_event e) eqn:Ee.
  2:{ eapply line_same; [|done]. by apply step_line_view. }
  pose proof Hl as [Hc Hg Hst].
  destruct e as [| | | | | | | | | | | | | |i|i m|i|i|]; try done.
  - cbn [step]. unfold on_socket. destruct (sockets c !! i) as [s|] eqn:Hi; [|done].
    case_bool_decide as Hr; [|done].
    destruct (line_socket c i s Hl Hi) as (olds & Hs & -> & He & Hw & Ht & _); [congruence|].
    split; [done|done|]. eapply (line_up _ olds (with_ready OPEN s)); cbn; [done|done| |done|by right].
    by rewrite Hs, alter_last.
  - destruct m as [n| | | | | | |cd ms|]; try done; cbn [step].
    + destruct (sockets c !! i) as [s|] eqn:Hi; [|by unfold on_socket; rewrite Hi].
      destruct (decide (so_ready s = OPEN)) as [Hr|Hr].
      2:{ unfold on_socket. by rewrite Hi, bool_decide_eq_false_2. }
      destruct (line_socket c i s Hl Hi) as (olds & Hs & -> & He & Hw & Ht & _); [congruence|].
      destruct (challenge_answered _ s n c Hw Hi Hr) as (_ & H1 & H2 & H3 & H4 & H5 & _). cbn [step] in *.
      split; [done|congruence|]. eapply (line_up _ olds (mark_settled (mark_opened s))); [congruence|congruence| |done|by right].
      by rewrite H5, Hs, alter_last.
    + unfold on_socket. destruct (sockets c !! i); [|done]. case_bool_decide; [|done]. cbn. rewrite Hc.
      eapply line_same; [|done]. unfold failNextMatch. by case_match.
  - cbn [step]. unfold on_socket. repeat case_match; try done. cbn. unfold onerror.
    by rewrite Hc, andb_false_r.
  - destruct (sockets c !! i) as [s|] eqn:Hi; [|by cbn; unfold on_socket; rewrite Hi].
    destruct (decide (so_ready s = CLOSED)) as [Hr|Hr]; [|by eapply socket_closes].
    cbn [step]. unfold on_socket. by rewrite Hi, bool_decide_eq_true_2.
  - destruct Hst as [Ht _ _|olds s Ht _ _ _ _]; [by apply timer_opens|]. cbn [step emodify fst]. unfold on_timer. by rewrite Ht.
Qed.

Lemma line_run evs c : line c -> Connect ∉ evs -> Close ∉ evs -> line (run evs c).
Proof.
  revert c. induction evs as [|e evs IH]; intros c Hl H1 H2; [done|]. rewrite not_elem_of_cons in H1, H2.
  apply IH; [|naive_solver..]. apply line_step; naive_solver.
Qed.

(** Before its first [connect] a client has no socket and no timer. *)
Definition fresh (c : MpClient) : Prop := sockets c = [] /\ ws c = None /\ timers c = 0%nat.

Lemma fresh_run evs : Connect ∉ evs -> fresh (run evs newMpClient).
Proof.
  enough (forall c, fresh c -> Connect ∉ evs -> fresh (run evs c)) as H by (intros; by apply H).
  induction evs as [|e evs IH]; intros c Hf Hn; [done|]. rewrite not_elem_of_cons in Hn.
  apply IH; [|naive_solver]. destruct Hf as (Hs & Hw & Ht). destruct (line_event e) eqn:Ee.
  2:{ pose proof (step_line_view e Ee c) as Hv. injection Hv as _ _ H1 H2 H3. unfold fresh. by rewrite H1, H2, H3. }
  destruct e as [| | | | | | | | | | | | | |i|i m|i|i|]; try done; try naive_solver; cbn [step];
    unfold on_socket; rewrite ?Hs; [|done..|].
  - cbn. unfold close. cbn. by rewrite Hw.
  - cbn. unfold on_timer. by rewrite Ht.
Qed.

(** The first handshake. *)
Definition handshake (nonce : string) : list MpEvent :=
  [Connect; SocketOpen 0; SocketMessage 0 (SChallenge nonce)].

Lemma handshake_line before nonce :
  Connect ∉ before -> line (run (before ++ handshake nonce) newMpClient).
Proof.
  intros Hb. unfold run. rewrite fold_left_app. fold (run before newMpClient).
  destruct (fresh_run before Hb) as (Hs & Hw & Ht). set (c0 := run before newMpClient) in *.
  set (c1 := openSocket false (with_closing false c0)).
  set (c2 := with_sockets (alter (with_ready OPEN) 0%nat (sockets c1)) c1).
  assert (fst (step (SocketOpen 0) c1) = c2) as H2.
  { cbn [step]. unfold on_socket. assert (sockets c1 = [Build_Socket false false false CONNECTING]) as -> by (cbn; by rewrite Hs).
    done. }
  change (line (fst (step (SocketMessage 0 (SChallenge nonce)) (fst (step (SocketOpen 0) c1))))).
  rewrite H2. assert (sockets c2 = [Build_Socket false false false OPEN]) as Hs2 by (cbn; by rewrite Hs).
  destruct (challenge_answered 0 (Build_Socket false false false OPEN) nonce c2) as (_ & H3 & H4 & H5 & H6 & H7 & _);
    [cbn; by rewrite Hs|by rewrite Hs2|done|].
  split; [done|by rewrite H4|]. eapply (line_up _ [] (Build_Socket false true true OPEN)).
  - rewrite H6. done.
  - rewrite H5. cbn. by rewrite Hs.
  - by rewrite H7, Hs2.
  - done.
  - by right.
Qed.

(** A match stays active until it is released. *)
Lemma set_add_elem {A} `{EqDecision A} (x y : A) l : x ∈ set_add y l <-> x = y \/ x ∈ l.
Proof. unfold set_add. case_bool_decide; [naive_solver|]. set_solver. Qed.

Lemma active_steady : steady activeMatches.
Proof. by split. Qed.

Lemma active_settles i s e c :
  activeMatches (resolve_socket i s c) = activeMatches c /\ activeMatches (reject_socket i s e c) = activeMatches c.
Proof. unfold resolve_socket, reject_socket. by repeat case_match. Qed.

Lemma step_active m e c :
  e <> ReleaseMatch m -> m ∈ activeMatches c -> m ∈ activeMatches (fst (step e c)).
Proof.
  intros Hn Hm. destruct (steady_event e) eqn:Ee; [by rewrite (step_steady _ active_steady)|].
  assert (forall f : MpClient -> MpClient, (forall c, activeMatches (f c) = activeMatches c) ->
    keeps activeMatches (emodify f)) as Hf by apply keeps_modify.
  assert (forall i ok f, (forall s, keeps activeMatches (f s)) ->
    m ∈ activeMatches (fst (on_socket i ok f c))) as Hs by (intros; by rewrite keeps_on_socket).
  destruct e as [| | |m'| | | | | | |m'|m'| | |i|i x|i|i|]; try done; cbn [step].
  - cbn. apply set_add_elem. by right.
  - cbn. apply set_add_elem. by right.
  - cbn. unfold set_delete. rewrite list_elem_of_In, filter_In, <- list_elem_of_In.
    split; [done|]. rewrite bool_decide_eq_false_2; [done|congruence].
  - cbn. unfold close. cbn. by case_match.
  - apply Hs. intros. by apply Hf.
  - destruct x as [n|x|m' p|e|m' p|m'| |cd ms|]; try done.
    + apply Hs. intros s. cbn [onmessage]. apply keeps_bind; [by apply keeps_ws_send|]. intros _.
      apply keeps_bind; [by apply Hf|]. intros _. apply keeps_bind; [by apply keeps_resumeActive|]. intros _.
      apply Hf. intros c'. by apply (active_settles i s (Error "")).
    + unfold on_socket. repeat case_match; try done. cbn [onmessage emodify fst].
      rewrite (steady_deliver _ active_steady). cbn. apply set_add_elem. by right.
    + unfold on_socket. repeat case_match; try done. cbn. apply set_add_elem. by right.
    + apply Hs. intros s. apply Hf. intros c'. case_match; [apply (steady_fail _ active_steady)|apply active_settles].
  - apply Hs. intros s. apply Hf. intros c'. unfold onerror. case_match; [apply active_settles|done].
  - apply Hs. intros s. apply Hf. intros c'. unfold onclose. cbn zeta. by case_match.
  - cbn. unfold on_timer. by repeat case_match.
Qed.

Lemma run_active m evs c : ReleaseMatch m ∉ evs -> m ∈ activeMatches c -> m ∈ activeMatches (run evs c).
Proof.
  revert c. induction evs as [|e evs IH]; intros c Hn Hm; [done|]. rewrite not_elem_of_cons in Hn.
  apply IH; [naive_solver|]. apply step_active; naive_solver.
Qed.

(** A socket that drops, its timer, and the next socket up to the handshake. *)
Definition reconnection (i j : nat) (nonce : string) : list MpEvent :=
  [SocketClose i; TimerFires; SocketOpen j; SocketMessage j (SChallenge nonce)].

Lemma reconnects c i s nonce :
  line c -> sockets c !! i = Some s -> so_ready s <> CLOSED ->
  let j := length (sockets c) in
  let c' := run (reconnection i j nonce) c in
  outs c' = outs c ++
    [Schedule (nextBackoffDelay (reconnectAttempt c) cfg (rand (draws c))); NewSocket j; WsSend j (hello nonce)] ++
    map (WsSend j) (resume_frames c) /\
  ws c' = Some j /\ reconnectAttempt c' = 0 /\ timers c' = 0%nat /\
  matchWaiters c' = matchWaiters c /\ relayHandlers c' = relayHandlers c /\ channels c' = channels c /\
  activeMatches c' = activeMatches c.
Proof.
  intros Hl Hi Hn j c'. destruct (socket_closes c i s Hl Hi Hn) as (E1 & Hl1 & Ht1).
  set (c1 := fst (step (SocketClose i) c)) in *. destruct (timer_opens c1 Hl1 Ht1) as (E2 & Hl2).
  set (c2 := fst (step TimerFires c1)) in *.
  assert (length (sockets c1) = j) as Hj by (rewrite E1; cbn; by rewrite length_alter).
  assert (sockets c2 = sockets c1 ++ [Build_Socket true false false CONNECTING]) as Hs2 by (by rewrite E2).
  set (c3 := fst (step (SocketOpen j) c2)).
  assert (c3 = with_sockets (sockets c1 ++ [Build_Socket true false false OPEN]) c2) as E3.
  { unfold c3. cbn [step]. unfold on_socket. rewrite Hs2, lookup_app_r, Hj, Nat.sub_diag by lia.
    cbn [lookup list_lookup so_ready]. rewrite bool_decide_eq_true_2 by done. cbn [emodify fst].
    by rewrite Hs2, <- Hj, alter_last. }
  destruct (challenge_answered j (Build_Socket true false false OPEN) nonce c3) as
    (H1 & H2 & H3 & H4 & H5 & H6 & H7 & H8 & H9 & H10 & H11 & H12);
    [rewrite E3, E2; cbn; by rewrite Hj| |done|].
  { rewrite E3. cbn. by rewrite lookup_app_r, Hj, Nat.sub_diag by lia. }
  change (fst (step (SocketMessage j (SChallenge nonce)) c3)) with c' in *.
  rewrite H1, H4, H5, H7, H8, H10, H11, H12, E3, E2, E1.
  split_and!; cbn; rewrite ?length_alter, <- ?app_assoc, ?app_nil_r; done.
Qed.

(** C33: the connection comes back, and with it every match.  A client connects once
    and is not closed.  After any history from its first handshake it has one
    timer or one socket; and if its socket drops, then it draws one delay, opens
    one socket, signs the new challenge and resumes exactly its active matches (it
    queues again only if it has none), among them every match whose channel was
    opened and not released; handlers, channels and waiting calls are those it
    had.  These outputs are all there are: the field [onClose], whose comment says
    that it fires at such a drop and that a match cannot be resumed, is never
    called. *)
Theorem connection_comes_back before nonce0 evs i s nonce :
  Connect ∉ before -> Connect ∉ evs -> Close ∉ evs ->
  let history := before ++ handshake nonce0 ++ evs in
  let c := run history newMpClient in
  sockets c !! i = Some s -> so_ready s <> CLOSED ->
  let j := length (sockets c) in
  let c' := run (reconnection i j nonce) c in
  line_state c /\
  outs c' = outs c ++
    [Schedule (nextBackoffDelay (reconnectAttempt c) cfg (rand (draws c))); NewSocket j; WsSend j (hello nonce)] ++
    map (WsSend j) (resume_frames c) /\
  (forall m p1 p2, history = p1 ++ OpenChannel m :: p2 -> ReleaseMatch m ∉ p2 -> CResume m ∈ resume_frames c) /\
  matchWaiters c' = matchWaiters c /\ relayHandlers c' = relayHandlers c /\ channels c' = channels c /\
  activeMatches c' = activeMatches c.
Proof.
  intros Hb He Hcl history c Hi Hs j c'.
  assert (c = run evs (run (before ++ handshake nonce0) newMpClient)) as Ec
    by (unfold c, history, run; by rewrite !fold_left_app).
  assert (line c) as Hl by (rewrite Ec; apply line_run; [by apply handshake_line|done..]).
  destruct (reconnects c i s nonce Hl Hi Hs) as (H1 & _ & _ & _ & H5 & H6 & H7 & H8).
  split_and!; [by destruct Hl|done| |done..].
  intros m p1 p2 Hp Hr. assert (m ∈ activeMatches c) as Hm.
  { unfold c. rewrite Hp. unfold run. rewrite fold_left_app. cbn [fold_left].
    apply (run_active m p2); [done|]. cbn. apply set_add_elem. by left. }
  unfold resume_frames. destruct (activeMatches c); [by apply elem_of_nil in Hm|].
  by apply (list_elem_of_fmap_2 CResume).
Qed.

(** ** Matches and waiting calls *)

Definition resolved (o : list Out) : list (nat * MatchInfo) :=
  omap (fun x => match x with MatchResolved w m => Some (w, m) | _ => None end) o.
Definition rejected (o : list Out) : list nat :=
  omap (fun x => match x with MatchRejected w _ => Some w | _ => None end) o.

Arguments resolved : simpl never.
Arguments rejected : simpl never.

Definition match_view (c : MpClient) :=
  (matchQueue c, matchWaiters c, issued c, resolved (outs c), rejected (outs c)).

(** The match an event brings. *)
Definition found (e : MpEvent) (c : MpClient) : list MatchInfo :=
  match e with
  | SocketMessage i (SMatchFound m) =>
      match sockets c !! i with
      | Some s => if bool_decide (so_ready s = OPEN) then [m] else []
      | None => []
      end
  | _ => []
  end.

Fixpoint found_all (evs : list MpEvent) (c : MpClient) : list MatchInfo :=
  match evs with
  | [] => []
  | e :: evs => found e c ++ found_all evs (fst (step e c))
  end.

(** Every match that was found is kept or was handed out, and every call that was
    made is waiting or was settled, once. *)
Record accounted (fs : list MatchInfo) (c : MpClient) : Prop := {
  ac_matches : fs ≡ₚ map snd (resolved (outs c)) ++ matchQueue c;
  ac_calls : map fst (resolved (outs c)) ++ rejected (outs c) ++ matchWaiters c ≡ₚ seq 0 (issued c)
}.

Lemma accounted_view fs c c' : match_view c' = match_view c -> accounted fs c -> accounted fs c'.
Proof. unfold match_view. intros [= H1 H2 H3 H4 H5] [Ha Hb]. split; rewrite ?H1, ?H2, ?H3, ?H4, ?H5; done. Qed.

Lemma match_emit o c :
  match o with MatchResolved _ _ | MatchRejected _ _ => False | _ => True end ->
  match_view (emit o c) = match_view c.
Proof.
  intros Ho. unfold match_view, resolved, rejected. cbn [emit matchQueue matchWaiters issued outs].
  rewrite !omap_app. destruct o; try done; cbn; by rewrite !app_nil_r.
Qed.

Lemma match_deaf : deaf match_view.
Proof. intros i m c. by apply match_emit. Qed.

Lemma resolved_emit w m c : resolved (outs (emit (MatchResolved w m) c)) = resolved (outs c) ++ [(w, m)].
Proof. cbn [emit outs]. unfold resolved. by rewrite omap_app. Qed.
Lemma rejected_resolve w m c : rejected (outs (emit (MatchResolved w m) c)) = rejected (outs c).
Proof. cbn [emit outs]. unfold rejected. rewrite omap_app. cbn. by rewrite app_nil_r. Qed.
Lemma rejected_emit w e c : rejected (outs (emit (MatchRejected w e) c)) = rejected (outs c) ++ [w].
Proof. cbn [emit outs]. unfold rejected. by rewrite omap_app. Qed.
Lemma resolved_reject w e c : resolved (outs (emit (MatchRejected w e) c)) = resolved (outs c).
Proof. cbn [emit outs]. unfold resolved. rewrite omap_app. cbn. by rewrite app_nil_r. Qed.

Lemma accounted_deliver m fs c : accounted fs c -> accounted (fs ++ [m]) (deliverMatch m c).
Proof.
  intros [Ha Hb]. unfold deliverMatch. destruct (matchWaiters c) as [|w l] eqn:Ew.
  - split; cbn.
    + rewrite Ha. by rewrite <- app_assoc.
    + by rewrite Ew.
  - split.
    + rewrite resolved_emit, map_app. cbn. rewrite Ha, <- !app_assoc. f_equiv. by rewrite (comm (++)).
    + rewrite resolved_emit, rejected_resolve, map_app. cbn. rewrite <- Hb, <- !app_assoc. f_equiv.
      cbn. by rewrite <- Permutation_middle.
Qed.

Lemma accounted_fail e fs c : accounted fs c -> accounted fs (failNextMatch e c).
Proof.
  intros [Ha Hb]. unfold failNextMatch. destruct (matchWaiters c) as [|w l] eqn:Ew; [by split; rewrite ?Ew|].
  split.
  - by rewrite resolved_reject.
  - rewrite resolved_reject, rejected_emit. cbn. rewrite <- Hb, <- !app_assoc. done.
Qed.

Lemma accounted_await fs c : accounted fs c -> accounted fs (await_match c).
Proof.
  intros [Ha Hb]. split; [done|]. unfold await_match. cbn [with_waiters outs matchWaiters issued].
  rewrite seq_S, <- Hb, <- !app_assoc. done.
Qed.

Lemma accounted_take m l fs c :
  matchQueue c = m :: l -> accounted fs c ->
  accounted fs (emit (MatchResolved (issued c) m)
    (with_waiters (matchWaiters c) (S (issued c)) (dropQueued (mi_game m) (with_queue l c)))).
Proof.
  intros Eq [Ha Hb]. split.
  - rewrite resolved_emit, map_app. cbn. rewrite Ha, Eq, <- app_assoc. done.
  - rewrite resolved_emit, rejected_resolve, map_app. cbn [emit with_waiters outs matchWaiters issued map fst].
    cbn [dropQueued with_queued with_queue outs]. rewrite seq_S, <- Hb, <- !app_assoc. f_equiv.
    rewrite (comm (++) [_]). by rewrite <- app_assoc.
Qed.

Lemma match_schedule c : match_view (scheduleReconnect c) = match_view c.
Proof. unfold scheduleReconnect. by rewrite match_emit. Qed.

Lemma match_open b c : match_view (openSocket b c) = match_view c.
Proof. unfold openSocket. by rewrite match_emit. Qed.

Lemma match_resolve i s c : match_view (resolve_socket i s c) = match_view c.
Proof. unfold resolve_socket. repeat case_match; rewrite ?match_emit by done; done. Qed.

Lemma match_reject i s e c : match_view (reject_socket i s e c) = match_view c.
Proof. unfold reject_socket. repeat case_match; rewrite ?match_schedule, ?match_emit by done; done. Qed.

Lemma match_payload k p : keeps match_view (on_payload k p).
Proof. apply keeps_on_payload; intros; (by apply match_emit) || done. Qed.

(** The events that find a match, settle a call or make one. *)
Definition match_event (e : MpEvent) : bool :=
  match e with
  | QuickMatch _ | JoinMatch _ | SocketMessage _ (SMatchFound _ | SQueueTimeout | SError _ _) => true
  | _ => false
  end.

Lemma step_match_view e : match_event e = false -> keeps match_view (step e).
Proof.
  intros He. pose proof match_deaf as Hd.
  assert (forall f, (forall c, match_view (f c) = match_view c) -> keeps match_view (emodify f)) as Hm
    by apply keeps_modify.
  destruct e as [|g|m|m|k b|k cb|k m|k cb|k cb|k cb|m|m|m t| |i|i m|i|i|]; try done; cbn [step].
  - apply Hm. intros c. as_in match_open.
  - apply keeps_bind; [apply keeps_get|]. intros c. case_match; [|apply keeps_ret].
    apply keeps_bind; [apply keeps_lift|]. intros p. by apply keeps_send.
  - apply keeps_wire; intros; [by rewrite match_emit|done].
  - apply keeps_bind; [apply keeps_get|]. intros c. case_match; [|apply keeps_ret]. by apply keeps_send.
  - by apply keeps_send.
  - apply Hm. intros c. unfold close. cbn zeta. case_match; [|done]. by rewrite match_emit.
  - apply keeps_on_socket. intros s. by apply Hm.
  - apply keeps_on_socket. intros s. destruct m as [n|m|m p|e|m p|m| |cd ms|]; try done; cbn [onmessage].
    + apply keeps_bind; [by apply keeps_ws_send|]. intros _. apply keeps_bind; [by apply Hm|]. intros _.
      apply keeps_bind; [by apply keeps_resumeActive|]. intros _.
      apply Hm. intros c. as_in match_resolve.
    + apply keeps_bind; [apply keeps_get|]. intros c. case_match; [apply match_payload|apply keeps_ret].
    + apply keeps_bind; [by apply Hm|]. intros _. apply keeps_call. intros c. by rewrite match_emit.
    + apply keeps_call. intros c. by rewrite match_emit.
    + apply keeps_call. intros c. by rewrite match_emit.
  - apply keeps_on_socket. intros s. apply Hm. intros c. unfold onerror. case_match; [|done].
    as_in match_reject.
  - apply keeps_on_socket. intros s. apply Hm. intros c. unfold onclose. cbn zeta. case_match; [done|].
    as_in match_schedule.
  - apply Hm. intros c. unfold on_timer. cbn zeta. repeat case_match; [done|done|].
    as_in match_open.
Qed.

(** A request that throws makes no call. *)
Lemma accounted_request m (k : MpClient -> MpClient) fs c :
  (forall c', match_view c' = match_view c -> accounted fs c' -> accounted fs (k c')) ->
  accounted fs c -> accounted fs (fst (ebind (send m) (fun _ => emodify k) c)).
Proof.
  intros Hk Ha. unfold ebind. pose proof (keeps_send match_view m match_deaf c) as Hv.
  destruct (send m c) as [c' [[]|e]]; cbn in *.
  - apply Hk; [done|]. by eapply accounted_view.
  - by eapply accounted_view.
Qed.

Lemma step_accounted fs e c : accounted fs c -> accounted (fs ++ found e c) (fst (step e c)).
Proof.
  intros Ha. destruct (match_event e) eqn:Ee.
  2:{ assert (found e c = []) as -> by (by destruct e as [| | | | | | | | | | | | | | |? []| | |]).
      rewrite app_nil_r. eapply accounted_view; [by apply step_match_view|done]. }
  destruct e as [|g|m| | | | | | | | | | | | |i m| | |]; try done; cbn [step found].
  - rewrite app_nil_r. unfold quickMatch. unfold ebind at 1, emodify at 1.
    apply accounted_request; [|by apply (accounted_view _ c)].
    intros c' Hv Ha'. destruct (matchQueue c') as [|b l] eqn:Eq; [by apply accounted_await|].
    exact (accounted_take b l fs c' Eq Ha').
  - rewrite app_nil_r. apply accounted_request; [|done]. intros c' _. apply accounted_await.
  - unfold on_socket.
    destruct (sockets c !! i) as [s|]; [|destruct m; try done; by rewrite app_nil_r].
    case_bool_decide; [|destruct m; try done; by rewrite app_nil_r].
    destruct m as [|m| | | | | |cd ms|]; try done; cbn [onmessage emodify fst].
    + apply accounted_deliver. by apply (accounted_view _ c).
    + rewrite app_nil_r. by apply accounted_fail.
    + rewrite app_nil_r. case_match; [by apply accounted_fail|].
      eapply accounted_view; [apply match_reject|done].
Qed.

(** Every match that is found is handed out or kept, and every call is settled
    at most once.  After any history of any client: the matches the server
    announced are, as a multiset, those the calls were resolved with and those in
    the queue; and the calls made are those resolved, those rejected and those
    waiting, each counted once. *)
Theorem matches_accounted evs :
  let c := run evs newMpClient in
  found_all evs newMpClient ≡ₚ map snd (resolved (outs c)) ++ matchQueue c /\
  map fst (resolved (outs c)) ++ rejected (outs c) ++ matchWaiters c ≡ₚ seq 0 (issued c) /\
  NoDup (map fst (resolved (outs c)) ++ rejected (outs c) ++ matchWaiters c).
Proof.
  enough (forall fs c, accounted fs c -> accounted (fs ++ found_all evs c) (run evs c)) as H.
  { destruct (H [] newMpClient) as [H1 H2]; [by split|]. split_and!; [done|done|].
    rewrite H2. apply NoDup_seq. }
  induction evs as [|e evs IH]; intros fs c Ha; cbn [found_all]; [by rewrite app_nil_r|].
  rewrite (assoc_L (++)). by apply IH, step_accounted.
Qed.

(** ** What goes wrong *)

(** A server that cannot be reached at the first [connect]: the promise of each
    later socket is rejected as well, because the client was never connected, and
    its handler and [onclose] both schedule a reconnect.  [round next n] fires
    the [n] timers and lets the [n] new sockets, from [next] on, fail. *)
Definition fails (i : nat) : list MpEvent := [SocketError i; SocketClose i].
Definition round (next n : nat) : list MpEvent := replicate n TimerFires ++ flat_map fails (seq next n).

Fixpoint rounds (r next n : nat) : list MpEvent :=
  match r with O => [] | S r => round next n ++ rounds r (next + n) (2 * n) end.

(** [n] sockets have just been opened by reconnects, from [next] on. *)
Record dialing (next n t : nat) (c : MpClient) : Prop := {
  di_connected : connected c = false;
  di_closing : closing c = false;
  di_timers : timers c = t;
  di_length : length (sockets c) = (next + n)%nat;
  di_sockets : forall i, (next <= i < next + n)%nat ->
    sockets c !! i = Some (Build_Socket true false false CONNECTING)
}.

Lemma timers_fire n next m t c :
  dialing next m (n + t) c -> dialing next (m + n) t (run (replicate n TimerFires) c).
Proof.
  revert m c. induction n as [|n IH]; intros m c Hd; [by rewrite Nat.add_0_r|].
  rewrite <- Nat.add_succ_comm. apply IH. destruct Hd as [H1 H2 H3 H4 H5].
  cbn [step emodify fst]. unfold on_timer. rewrite H3. cbn [Nat.add]. cbn zeta. cbn [closing with_timers]. rewrite H2.
  split; cbn; try done.
  - rewrite length_app, H4. cbn. lia.
  - intros i Hi. destruct (decide (i < next + m)%nat) as [Hlt|].
    + rewrite lookup_app_l by lia. apply H5. lia.
    + rewrite lookup_app_r by lia. by replace (i - length (sockets c))%nat with 0%nat by lia.
Qed.

Lemma socket_fails next n t c :
  dialing next (S n) t c -> dialing (S next) n (2 + t) (run (fails next) c).
Proof.
  intros [H1 H2 H3 H4 H5]. assert (sockets c !! next = Some (Build_Socket true false false CONNECTING)) as Hs
    by (apply H5; lia).
  unfold run, fails. cbn [fold_left].
  assert (fst (step (SocketError next) c) =
    scheduleReconnect (with_sockets (alter mark_settled next (sockets c)) c)) as ->.
  { cbn [step]. unfold on_socket. rewrite Hs. cbn [so_ready]. rewrite bool_decide_eq_false_2 by done.
    cbn [negb emodify fst]. unfold onerror. by rewrite H1. }
  cbn [step]. unfold on_socket. cbn [scheduleReconnect emit with_timers with_sockets sockets].
  rewrite list_lookup_alter_eq, Hs. cbn [fmap option_fmap option_map mark_settled so_ready].
  rewrite bool_decide_eq_false_2 by done. cbn. unfold onclose. cbn. rewrite H2.
  split; cbn; try done; [lia|rewrite !length_alter; lia|].
  intros i Hi. rewrite !list_lookup_alter_ne by lia. apply H5. lia.
Qed.

Lemma sockets_fail n next t c :
  dialing next n t c -> dialing (next + n) 0 (2 * n + t) (run (flat_map fails (seq next n)) c).
Proof.
  revert next t c. induction n as [|n IH]; intros next t c Hd; [by rewrite Nat.add_0_r|].
  cbn [seq flat_map]. unfold run. rewrite fold_left_app. fold (run (fails next) c).
  apply socket_fails, IH in Hd. replace (next + S n)%nat with (S next + n)%nat by lia.
  by replace (2 * S n + t)%nat with (2 * n + (2 + t))%nat by lia.
Qed.

Lemma rounds_double r next n c :
  dialing next 0 n c -> timers (run (rounds r next n) c) = (2 ^ r * n)%nat.
Proof.
  revert next n c. induction r as [|r IH]; intros next n c Hd; [rewrite Nat.pow_0_r, Nat.mul_1_l; apply Hd|].
  cbn [rounds]. unfold round, run. rewrite !fold_left_app. fold (run (replicate n TimerFires) c).
  assert (dialing next 0 (n + 0) c) as Hd' by (by rewrite Nat.add_0_r).
  apply timers_fire, sockets_fail in Hd'. rewrite Nat.add_0_r in Hd'.
  eapply IH in Hd'. unfold run in *. cbn [Nat.add] in Hd'. rewrite Hd'. cbn [Nat.pow]. lia.
Qed.

Theorem unreachable_server_doubles r :
  timers (run (Connect :: fails 0 ++ rounds r 1 1) newMpClient) = (2 ^ r)%nat.
Proof.
  assert (forall rs, run (Connect :: fails 0 ++ rs) newMpClient = run rs (run (Connect :: fails 0) newMpClient)) as ->.
  { intros rs. rewrite app_comm_cons. unfold run at 1. apply fold_left_app. }
  rewrite (rounds_double r 1 1); [lia|]. split; [reflexivity..|]. intros i Hi. lia.
Qed.

(** An engine that throws at a buffered frame while it is wired never gets the
    frames buffered after that one, although it gets what is relayed later. *)
Theorem throwing_engine_loses_frames k cb ch b bs e c :
  channels c !! k = Some ch -> frameBuffer ch = b :: bs -> callback_throws (length (outs c)) = Some e ->
  let r := step (WireEngine k cb) c in
  snd r = Throw e /\ engine_got k (outs (fst r)) = engine_got k (outs c) ++ [b] /\ buffered k (fst r) = [].
Proof.
  intros Hch Hb He. cbn [step]. unfold transport_onFrame, ebind, eget, emodify. rewrite Hch, Hb.
  cbn [for_each]. unfold ebind, call. cbn [with_channels outs]. rewrite He. split_and!; [done| |].
  - cbn [fst emit with_channels outs]. rewrite engine_got_app. f_equal. apply (engine_got_frames k cb [b]).
  - unfold buffered. cbn [fst emit with_channels channels]. by rewrite list_lookup_alter_eq, Hch.
Qed.

(** Two games queued at once: the first call gets whatever match is found
    first, also one of the other game. *)
Theorem concurrent_games_crossed nonce m :
  mi_game m = "b"%string ->
  resolved (outs (run (handshake nonce ++ [QuickMatch "a"; QuickMatch "b"; SocketMessage 0 (SMatchFound m)])
                    newMpClient)) = [(0%nat, m)].
Proof. intros _. reflexivity. Qed.

(** A call that timed out leaves its game in the queue list: after a drop the
    client joins that queue again, with nobody waiting for the match. *)
Theorem timed_out_game_rejoins nonce game nonce' :
  let c := run (handshake nonce ++ [QuickMatch game; SocketMessage 0 SQueueTimeout] ++ reconnection 0 1 nonce')
             newMpClient in
  matchWaiters c = [] /\ WsSend 1 (CQueueJoin game) ∈ outs c.
Proof. split; [reflexivity|]. cbn. set_solver. Qed.

(** ** From one client to the other *)

Lemma frame_payload s kind :
  (forall k, kind = Some k -> exists t, k = JStr t) ->
  frame_data (stringify (JObj ([("t", JStr "frame")] ++
     match kind with Some k => [("kind", k)] | None => [] end ++ [("data", JStr s)])))%string =
  Some (text_encode s).
Proof.
  intros Hk. unfold frame_data, parseWithBigint. rewrite parse_stringify. cbn [rbind].
  destruct kind as [k|]; [destruct (Hk k) as (t & ->); [done|]|]; done.
Qed.

(** C34: what one engine sends, the other is given.  A frame handed to the transport of
    an open client leaves on its socket as one relay message of the channel's
    match; a client that is handed that payload for that match calls its engine
    with the very bytes sent, which decode to the frame, its move stripped of
    what is local. *)
Theorem frame_reaches_the_peer {M R} (codec : MoveCodec M R) valid strip `{!CodecLaws codec valid strip}
    (f : Frame M) cX i k chX cY i' s' k' chY cb :
  frame_ok valid f -> on_line i cX -> channels cX !! k = Some chX ->
  sockets cY !! i' = Some s' -> so_ready s' = OPEN ->
  relayHandlers cY !! ch_matchId chX = Some k' -> channels cY !! k' = Some chY -> engineOnFrame chY = Some cb ->
  exists p, let m := ch_matchId chX in
    step (TransportSend k (encodeFrame codec f)) cX = (emit (WsSend i (CRelay m p)) cX, Ok tt) /\
    step (SocketMessage i' (SRelay m p)) cY = call (EngineFrame k' cb (encodeFrame codec f)) cY /\
    exists d, decodeFrame codec (encodeFrame codec f) = Ok d /\ as_frame codec d = Some (stripped strip f).
Proof.
  intros Hf Hl Hch Hs Ho Hh Hch' He.
  assert (exists p, wrapInnerFrameJson (text_decode (encodeFrame codec f)) = Ok p /\
                    frame_data p = Some (encodeFrame codec f)) as (p & Hp & Hd).
  { unfold wrapInnerFrameJson, encodeFrame. rewrite text_decode_encode, parse_stringify.
    destruct f as [f|f]; cbn -[stringify frame_json frame_data]; eexists; (split; [reflexivity|]).
    - apply (frame_payload _ (Some (JStr "move"))). intros ? [= <-]. by eexists.
    - apply (frame_payload _ (Some (JStr "ack"))). intros ? [= <-]. by eexists. }
  exists p. split_and!.
  - cbn [step]. unfold transport_send, ebind, eget, elift. rewrite Hch, Hp. by apply send_open.
  - cbn [step]. unfold on_socket. rewrite Hs, Ho, bool_decide_eq_true_2 by done.
    cbn [onmessage]. unfold ebind, eget. rewrite Hh.
    by rewrite (on_payload_frame k' p cY (encodeFrame codec f) chY), He.
  - destruct f as [f|f]; [by apply (decode_move codec valid strip)|by apply (decode_ack codec valid strip)].
Qed.

End Client.

(** ** A client, to evaluate the model on *)

Definition sample_rand : nat -> number := fun _ => f_lit 1 2.
Definition sample_keys : KeyPair := {| secretKey := replicate 32 7; publicKey := replicate 32 9; scheme := 0 |}.
Definition never_throws : nat -> option js_error := fun _ => None.
Notation sample_run := (run nobleBackend DEFAULT_RECONNECT sample_rand "0xa" sample_keys never_throws).

Definition sample_frame : Frame json := FAck {| af_nonce := 3; sigResponder := [1; 2; 255] |}.
Definition sample_payload : string :=
  Eval vm_compute in match encodeRelayEnvelope identityMoveCodec sample_frame with Ok p => p | Throw _ => "" end.

(** An engine that throws at every frame. *)
Notation throwing_run :=
  (run nobleBackend DEFAULT_RECONNECT sample_rand "0xa" sample_keys (fun _ => Some (Error "bad frame"))).

Definition later_frame : Frame json := FAck {| af_nonce := 4; sigResponder := [3] |}.
Definition later_payload : string :=
  Eval vm_compute in match encodeRelayEnvelope identityMoveCodec later_frame with Ok p => p | Throw _ => "" end.

(** Two frames that wait for the engine, and one that comes when it is there. *)
Definition late_engine : list MpEvent :=
  [SocketMessage 0 (SRelay "m" sample_payload); SocketMessage 0 (SRelay "m" later_payload); WireEngine 0 5;
   SocketMessage 0 (SRelay "m" sample_payload)].

Example the_waiting_frame_is_lost :
  engine_got 0 (outs (throwing_run (handshake "n" ++ OpenChannel "m" :: late_engine) newMpClient)) =
  map (encodeFrame identityMoveCodec) [sample_frame; sample_frame].
Proof. vm_compute. reflexivity. Qed.

Lemma frames_reach_the_engine_witness :
  let c := throwing_run (handshake "n" ++ OpenChannel "m" :: late_engine) newMpClient in
  exists ch got lost later, channels c !! 0%nat = Some ch /\
    map (encodeFrame identityMoveCodec) [sample_frame; later_frame; sample_frame] = got ++ lost ++ later /\
    engine_got 0 (outs c) ++ frameBuffer ch = got ++ later /\ frameBuffer ch = [].
Proof.
  assert (OpenChannel "m" ∉ late_engine) as H1
    by (unfold late_engine; rewrite !not_elem_of_cons; by split_and!; [..|apply not_elem_of_nil]).
  assert (ReleaseMatch "m" ∉ late_engine) as H2
    by (unfold late_engine; rewrite !not_elem_of_cons; by split_and!; [..|apply not_elem_of_nil]).
  intros c.
  destruct (frames_reach_the_engine nobleBackend DEFAULT_RECONNECT sample_rand "0xa" sample_keys
              (fun _ => Some (Error "bad frame")) (handshake "n") late_engine "m" H1 H2)
    as (ch & got & lost & later & E1 & _ & E2 & E3 & E4 & _).
  exists ch, got, lost, later. split_and!; [exact E1| |exact E3|].
  - rewrite <- E2. vm_compute. reflexivity.
  - apply E4. assert (channels c !! 0%nat = Some (Build_Channel "m" (Some 5%nat) [] [])) as E by (vm_compute; reflexivity).
    change (channels c !! 0%nat = Some ch) in E1. rewrite E in E1. injection E1 as <-. by eexists.
Defined.

Example the_engine_gets_the_frame :
  engine_got 0 (outs (sample_run (handshake "n" ++ [OpenChannel "m"; SocketMessage 0 (SRelay "m" sample_payload);
    WireEngine 0 5]) newMpClient)) = [encodeFrame identityMoveCodec sample_frame].
Proof. vm_compute. reflexivity. Qed.

Lemma connection_comes_back_witness :
  let c := sample_run ([OpenChannel "m"] ++ handshake "n" ++ [QuickMatch "g"]) newMpClient in
  exists s, sockets c !! 0%nat = Some s /\ line_state c /\
    CResume "m" ∈ resume_frames c.
Proof.
  assert (exists s, sockets (sample_run ([OpenChannel "m"] ++ handshake "n" ++ [QuickMatch "g"]) newMpClient)
            !! 0%nat = Some s /\ so_ready s <> CLOSED) as (s & Hs & Hr) by (by eexists).
  exists s. split; [exact Hs|].
  destruct (connection_comes_back nobleBackend DEFAULT_RECONNECT sample_rand "0xa" sample_keys never_throws
              [OpenChannel "m"] "n" [QuickMatch "g"] 0 s "n2") as (H1 & _ & H2 & _).
  - rewrite not_elem_of_cons. split; [done|apply not_elem_of_nil].
  - rewrite not_elem_of_cons. split; [done|apply not_elem_of_nil].
  - rewrite not_elem_of_cons. split; [done|apply not_elem_of_nil].
  - exact Hs.
  - exact Hr.
  - split; [exact H1|]. apply (H2 "m"%string [] (handshake "n" ++ [QuickMatch "g"])); [reflexivity|].
    cbn [handshake app]. rewrite !not_elem_of_cons. split_and!; try done. apply not_elem_of_nil.
Defined.

Lemma frame_reaches_the_peer_witness :
  let c := sample_run (handshake "n" ++ [OpenChannel "m"; WireEngine 0 5]) newMpClient in
  exists p, step nobleBackend DEFAULT_RECONNECT sample_rand "0xa" sample_keys never_throws
    (SocketMessage 0 (SRelay "m" p)) c = (emit (EngineFrame 0 5 (encodeFrame identityMoveCodec sample_frame)) c, Ok tt).
Proof.
  destruct (frame_reaches_the_peer nobleBackend DEFAULT_RECONNECT sample_rand "0xa" sample_keys never_throws
    identityMoveCodec (fun _ => True) (fun m => m) sample_frame
    (sample_run (handshake "n" ++ [OpenChannel "m"; WireEngine 0 5]) newMpClient) 0 0 (Build_Channel "m" (Some 5%nat) [] [])
    (sample_run (handshake "n" ++ [OpenChannel "m"; WireEngine 0 5]) newMpClient) 0 (Build_Socket false true true OPEN)
    0 (Build_Channel "m" (Some 5%nat) [] []) 5) as (p & _ & Hp & _);
    [cbn; repeat apply Forall_cons_2; first [apply Forall_nil_2|unfold is_byte; lia]|split; [done|by eexists]|done..|].
  exists p. exact Hp.
Defined.
