(* ===== verification/PvpSession.v ===== *)
(** The session of a match in the front end: [frontend/src/pvp/pvpMatchHook.ts].

    A [PvpSession] is the record of the fields of the class and of the objects its
    closures share: the clients and inboxes it made, the tunnels, the suspended
    async functions and the timers that are armed.  An async function is split at
    its [await]s: what is left of it is a [task], and an answer, whenever it comes,
    runs the task up to its next [await].  What the session asks of others -- the
    relay client, the chain, the resume driver -- is recorded in [calls]; a
    [call] that is awaited carries the number of the task.

    The seats are those of [DistributedTunnel], frames as values.  What the resume
    handlers do to a seat is modelled in [ResumeSession]; here it is the event
    [Reconciled].  In the code a proposal is pending when [displayState] is not the
    object [state]; protocols return a new object for every move. *)
From stdpp Require Import gmap strings.
From S2P Require Import Prelude.
From S2P Require Import Bytes.
From S2P Require Import Wire.
From S2P Require Import Crypto.
From S2P Require Import Protocol.
From S2P Require Import Tunnel.
From S2P Require Import DistributedTunnel.
From S2P Require Import SeatSafety.
From S2P Require Import PvpClose.
From S2P Require Import MpClient.

(** ** Peer messages and the inbox *)

(** The messages of [PeerMessage] that a session reads; any other by its [t]. *)
Inductive peer_msg :=
  | PHello (ephemeralPubkey : string)
  | POpen (tunnelId : string)
  | PReady
  | PSettleHalf (sig transcriptRoot : string)
  | POther (t : string).

Definition kind (m : peer_msg) : string :=
  match m with
  | PHello _ => "hello" | POpen _ => "open" | PReady => "ready" | PSettleHalf _ _ => "settleHalf"
  | POther t => t
  end.

(** [src frontend/src/pvp/pvpMatchHook.ts:174-176 makeInbox], its two maps; a
    waiter is the number of the task that awaits. *)
Record Inbox := { buf : gmap string peer_msg; waiters : gmap string nat }.

Definition empty_inbox : Inbox := {| buf := ∅; waiters := ∅ |}.

(** [src frontend/src/pvp/pvpMatchHook.ts:177-185 makeInbox], the handler: the
    waiter to resolve, if there is one. *)
Definition deliver (m : peer_msg) (b : Inbox) : Inbox * option nat :=
  match waiters b !! kind m with
  | Some w => ({| buf := buf b; waiters := delete (kind m) (waiters b) |}, Some w)
  | None => ({| buf := <[kind m := m]> (buf b); waiters := waiters b |}, None)
  end.

(** [src frontend/src/pvp/pvpMatchHook.ts:186-196 makeInbox], the function it
    returns: the message, if it is there. *)
Definition wait (t : string) (w : nat) (b : Inbox) : Inbox * option peer_msg :=
  match buf b !! t with
  | Some m => ({| buf := delete t (buf b); waiters := waiters b |}, Some m)
  | None => ({| buf := buf b; waiters := <[t := w]> (waiters b) |}, None)
  end.

(** [src frontend/src/pvp/pvpMatchHook.ts turn] *)
Definition turn (nonce : Z) : Party := if Z.even nonce then PartyA else PartyB.

(** [src frontend/src/pvp/pvpMatchHook.ts PvpStatus] *)
Inductive PvpStatus := Idle | Matching | Funding | Playing | Settling | Settled | Failed.

#[export] Instance pvp_status_eq_dec : EqDecision PvpStatus.
Proof. solve_decision. Defined.

Section Session.
Context `{C : Crypto} (bk : CryptoBackend).
Context {State Move Intent View Winner : Type} `{!EqDecision Intent} (P : Protocol State Move).
Notation seat := (DistributedTunnel State Move).

(** [src frontend/src/pvp/pvpMatchHook.ts PvpMatchSpec]; the protocol is [P], and
    [winnerOf] and [noWinner] are [state.winner] and [null]. *)
Record PvpMatchSpec := {
  sp_game : string;
  sp_stepMs : Z;
  stake : Z;
  winnerOf : State -> Winner;
  noWinner : Winner;
  deriveView : State -> View;
  idleIntent : Intent;
  intentToMove : Party -> Intent -> Move;
  readIntent : Party -> option Move -> option Intent
}.
Context (spec : PvpMatchSpec).

(** [src frontend/src/pvp/pvpMatchHook.ts PvpSnapshot] *)
Record PvpSnapshot := {
  sn_status : PvpStatus;
  sn_role : option Party;
  sn_stake : Z;
  sn_auto : bool;
  sn_view : option View;
  sn_winner : Winner;
  sn_error : option js_error
}.

(** The local variables of [findMatch] and [enterArenaMatch]: the client, the
    wallet, the ephemeral key, and the match and tunnel of an arena allocation. *)
Record Flow := { fl_mp : nat; fl_wallet : string; fl_keys : KeyPair; fl_alloc : option (string * string) }.

(** What is left of an async function at an [await]. *)
Inductive task :=
  | TConnected (f : Flow)
  | TMatched (f : Flow)
  | THello (f : Flow) (m : MatchInfo)
  | TOpened (f : Flow) (m : MatchInfo) (oppPub : bytes)
  | TOpenHeard (f : Flow) (m : MatchInfo) (oppPub : bytes)
  | TDeposited (f : Flow) (m : MatchInfo) (oppPub : bytes) (tid : string)
  | TReady (f : Flow)
  | TResumed (t : nat)
  | TCreatedAt (t : nat)
  | THalf (t : nat) (createdAt : Z)
  | TSubmitted (t : nat) (co : CoSignedSettlementWithRoot)
  | TClosed (t : nat).

(** What a promise resolves to, or its rejection. *)
Inductive answer :=
  | ADone
  | AMatch (m : MatchInfo)
  | AText (s : string)
  | ATime (z : Z)
  | AMsg (m : peer_msg)
  | AError (e : js_error).

Inductive alarm := ProposeAlarm | WatchdogAlarm (tunnelId : string).

(** A tunnel the session plays or played: its seat, its client, the hooks set on
    it -- the game's, the resume driver's and the watchdog's, each calling the one
    before -- and the flag of its [triggerSettle]. *)
Record Live := {
  lv_seat : seat;
  lv_mp : nat;
  lv_role : Party;
  lv_hooked : bool;
  lv_attached : bool;
  lv_watched : bool;
  lv_settling : bool
}.

(** What a session asks of its environment. *)
Inductive call :=
  | NewClient (k : nat)
  | AskConnect (k w : nat)
  | AskMatch (k : nat) (game : string) (w : nat)
  | AskJoin (k : nat) (matchId : string) (w : nat)
  | AskOpen (wallet : string) (pk : bytes) (opponentWallet : string) (oppPub : bytes) (amount : Z) (w : nat)
  | AskDeposit (tunnelId : string) (amount : Z) (w : nat)
  | AskCreatedAt (tunnelId : string) (w : nat)
  | AskSettle (tunnelId : string) (co : CoSignedSettlementWithRoot) (w : nat)
  | AskWalletClose (tunnelId : string) (co : CoSignedSettlementWithRoot) (w : nat)
  | SendPeer (k : nat) (m : peer_msg)
  | Announce (k : nat) (matchId tunnelId : string)
  | CloseClient (k : nat)
  | Attach (t : nat)
  | Detach (t : nat)
  | Persist (t : nat)
  | ClearRecord (tunnelId : string)
  | RaiseDispute (tunnelId : string) (co : CoSignedUpdate) (role : Party)
  | SetTimer (h : nat) (ms : Z)
  | Notify.

(** [src frontend/src/pvp/pvpMatchHook.ts:208-229 PvpSession] its fields, and
    after [autoByGame] -- the module variable of [autoPreference.ts] -- the objects
    it shares with its closures. *)
Record PvpSession := {
  account : option string;
  status : PvpStatus;
  role : option Party;
  sAuto : bool;
  view : option View;
  winner : Winner;
  error : option js_error;
  snap : PvpSnapshot;
  mp : option nat;
  dt : option nat;
  detachResume : option nat;
  proposeTimer : option nat;
  resumeWatchdog : option nat;
  intent : Intent;
  settleNow : option nat;
  leaving : bool;
  autoByGame : gmap string bool;
  clients : nat;
  closed : list nat;
  inboxes : gmap nat Inbox;
  early : gmap nat (list (Frame Move));
  lives : list Live;
  tasks : gmap nat task;
  armed : list (nat * alarm);
  next : nat;
  calls : list call
}.

Definition with_account (a : option string) (s : PvpSession) : PvpSession :=
  {| account := a; status := status s; role := role s; sAuto := sAuto s; view := view s;
     winner := winner s; error := error s; snap := snap s; mp := mp s; dt := dt s;
     detachResume := detachResume s; proposeTimer := proposeTimer s;
     resumeWatchdog := resumeWatchdog s; intent := intent s; settleNow := settleNow s;
     leaving := leaving s; autoByGame := autoByGame s; clients := clients s; closed := closed s;
     inboxes := inboxes s; early := early s; lives := lives s; tasks := tasks s; armed := armed s;
     next := next s; calls := calls s |}.
Definition with_status (x : PvpStatus) (s : PvpSession) : PvpSession :=
  {| account := account s; status := x; role := role s; sAuto := sAuto s; view := view s;
     winner := winner s; error := error s; snap := snap s; mp := mp s; dt := dt s;
     detachResume := detachResume s; proposeTimer := proposeTimer s;
     resumeWatchdog := resumeWatchdog s; intent := intent s; settleNow := settleNow s;
     leaving := leaving s; autoByGame := autoByGame s; clients := clients s; closed := closed s;
     inboxes := inboxes s; early := early s; lives := lives s; tasks := tasks s; armed := armed s;
     next := next s; calls := calls s |}.
Definition with_role (r : option Party) (s : PvpSession) : PvpSession :=
  {| account := account s; status := status s; role := r; sAuto := sAuto s; view := view s;
     winner := winner s; error := error s; snap := snap s; mp := mp s; dt := dt s;
     detachResume := detachResume s; proposeTimer := proposeTimer s;
     resumeWatchdog := resumeWatchdog s; intent := intent s; settleNow := settleNow s;
     leaving := leaving s; autoByGame := autoByGame s; clients := clients s; closed := closed s;
     inboxes := inboxes s; early := early s; lives := lives s; tasks := tasks s; armed := armed s;
     next := next s; calls := calls s |}.
Definition with_auto (b : bool) (m : gmap string bool) (s : PvpSession) : PvpSession :=
  {| account := account s; status := status s; role := role s; sAuto := b; view := view s;
     winner := winner s; error := error s; snap := snap s; mp := mp s; dt := dt s;
     detachResume := detachResume s; proposeTimer := proposeTimer s;
     resumeWatchdog := resumeWatchdog s; intent := intent s; settleNow := settleNow s;
     leaving := leaving s; autoByGame := m; clients := clients s; closed := closed s;
     inboxes := inboxes s; early := early s; lives := lives s; tasks := tasks s; armed := armed s;
     next := next s; calls := calls s |}.
Definition with_board (v : option View) (w : Winner) (s : PvpSession) : PvpSession :=
  {| account := account s; status := status s; role := role s; sAuto := sAuto s; view := v;
     winner := w; error := error s; snap := snap s; mp := mp s; dt := dt s;
     detachResume := detachResume s; proposeTimer := proposeTimer s;
     resumeWatchdog := resumeWatchdog s; intent := intent s; settleNow := settleNow s;
     leaving := leaving s; autoByGame := autoByGame s; clients := clients s; closed := closed s;
     inboxes := inboxes s; early := early s; lives := lives s; tasks := tasks s; armed := armed s;
     next := next s; calls := calls s |}.
Definition with_error (e : option js_error) (s : PvpSession) : PvpSession :=
  {| account := account s; status := status s; role := role s; sAuto := sAuto s; view := view s;
     winner := winner s; error := e; snap := snap s; mp := mp s; dt := dt s;
     detachResume := detachResume s; proposeTimer := proposeTimer s;
     resumeWatchdog := resumeWatchdog s; intent := intent s; settleNow := settleNow s;
     leaving := leaving s; autoByGame := autoByGame s; clients := clients s; closed := closed s;
     inboxes := inboxes s; early := early s; lives := lives s; tasks := tasks s; armed := armed s;
     next := next s; calls := calls s |}.
Definition with_snap (x : PvpSnapshot) (s : PvpSession) : PvpSession :=
  {| account := account s; status := status s; role := role s; sAuto := sAuto s; view := view s;
     winner := winner s; error := error s; snap := x; mp := mp s; dt := dt s;
     detachResume := detachResume s; proposeTimer := proposeTimer s;
     resumeWatchdog := resumeWatchdog s; intent := intent s; settleNow := settleNow s;
     leaving := leaving s; autoByGame := autoByGame s; clients := clients s; closed := closed s;
     inboxes := inboxes s; early := early s; lives := lives s; tasks := tasks s; armed := armed s;
     next := next s; calls := calls s |}.
Definition with_mp (m : option nat) (s : PvpSession) : PvpSession :=
  {| account := account s; status := status s; role := role s; sAuto := sAuto s; view := view s;
     winner := winner s; error := error s; snap := snap s; mp := m; dt := dt s;
     detachResume := detachResume s; proposeTimer := proposeTimer s;
     resumeWatchdog := resumeWatchdog s; intent := intent s; settleNow := settleNow s;
     leaving := leaving s; autoByGame := autoByGame s; clients := clients s; closed := closed s;
     inboxes := inboxes s; early := early s; lives := lives s; tasks := tasks s; armed := armed s;
     next := next s; calls := calls s |}.
Definition with_dt (t : option nat) (s : PvpSession) : PvpSession :=
  {| account := account s; status := status s; role := role s; sAuto := sAuto s; view := view s;
     winner := winner s; error := error s; snap := snap s; mp := mp s; dt := t;
     detachResume := detachResume s; proposeTimer := proposeTimer s;
     resumeWatchdog := resumeWatchdog s; intent := intent s; settleNow := settleNow s;
     leaving := leaving s; autoByGame := autoByGame s; clients := clients s; closed := closed s;
     inboxes := inboxes s; early := early s; lives := lives s; tasks := tasks s; armed := armed s;
     next := next s; calls := calls s |}.
Definition with_detach (t : option nat) (s : PvpSession) : PvpSession :=
  {| account := account s; status := status s; role := role s; sAuto := sAuto s; view := view s;
     winner := winner s; error := error s; snap := snap s; mp := mp s; dt := dt s;
     detachResume := t; proposeTimer := proposeTimer s; resumeWatchdog := resumeWatchdog s;
     intent := intent s; settleNow := settleNow s; leaving := leaving s;
     autoByGame := autoByGame s; clients := clients s; closed := closed s; inboxes := inboxes s;
     early := early s; lives := lives s; tasks := tasks s; armed := armed s; next := next s;
     calls := calls s |}.
Definition with_timer (h : option nat) (l : list (nat * alarm)) (n : nat) (s : PvpSession) : PvpSession :=
  {| account := account s; status := status s; role := role s; sAuto := sAuto s; view := view s;
     winner := winner s; error := error s; snap := snap s; mp := mp s; dt := dt s;
     detachResume := detachResume s; proposeTimer := h; resumeWatchdog := resumeWatchdog s;
     intent := intent s; settleNow := settleNow s; leaving := leaving s;
     autoByGame := autoByGame s; clients := clients s; closed := closed s; inboxes := inboxes s;
     early := early s; lives := lives s; tasks := tasks s; armed := l; next := n;
     calls := calls s |}.
Definition with_watchdog (h : option nat) (l : list (nat * alarm)) (n : nat) (s : PvpSession) : PvpSession :=
  {| account := account s; status := status s; role := role s; sAuto := sAuto s; view := view s;
     winner := winner s; error := error s; snap := snap s; mp := mp s; dt := dt s;
     detachResume := detachResume s; proposeTimer := proposeTimer s; resumeWatchdog := h;
     intent := intent s; settleNow := settleNow s; leaving := leaving s;
     autoByGame := autoByGame s; clients := clients s; closed := closed s; inboxes := inboxes s;
     early := early s; lives := lives s; tasks := tasks s; armed := l; next := n;
     calls := calls s |}.
Definition with_intent (i : Intent) (s : PvpSession) : PvpSession :=
  {| account := account s; status := status s; role := role s; sAuto := sAuto s; view := view s;
     winner := winner s; error := error s; snap := snap s; mp := mp s; dt := dt s;
     detachResume := detachResume s; proposeTimer := proposeTimer s;
     resumeWatchdog := resumeWatchdog s; intent := i; settleNow := settleNow s;
     leaving := leaving s; autoByGame := autoByGame s; clients := clients s; closed := closed s;
     inboxes := inboxes s; early := early s; lives := lives s; tasks := tasks s; armed := armed s;
     next := next s; calls := calls s |}.
Definition with_settle (t : option nat) (b : bool) (s : PvpSession) : PvpSession :=
  {| account := account s; status := status s; role := role s; sAuto := sAuto s; view := view s;
     winner := winner s; error := error s; snap := snap s; mp := mp s; dt := dt s;
     detachResume := detachResume s; proposeTimer := proposeTimer s;
     resumeWatchdog := resumeWatchdog s; intent := intent s; settleNow := t; leaving := b;
     autoByGame := autoByGame s; clients := clients s; closed := closed s; inboxes := inboxes s;
     early := early s; lives := lives s; tasks := tasks s; armed := armed s; next := next s;
     calls := calls s |}.
Definition with_clients (n : nat) (l : list nat) (s : PvpSession) : PvpSession :=
  {| account := account s; status := status s; role := role s; sAuto := sAuto s; view := view s;
     winner := winner s; error := error s; snap := snap s; mp := mp s; dt := dt s;
     detachResume := detachResume s; proposeTimer := proposeTimer s;
     resumeWatchdog := resumeWatchdog s; intent := intent s; settleNow := settleNow s;
     leaving := leaving s; autoByGame := autoByGame s; clients := n; closed := l;
     inboxes := inboxes s; early := early s; lives := lives s; tasks := tasks s; armed := armed s;
     next := next s; calls := calls s |}.
Definition with_inboxes (m : gmap nat Inbox) (s : PvpSession) : PvpSession :=
  {| account := account s; status := status s; role := role s; sAuto := sAuto s; view := view s;
     winner := winner s; error := error s; snap := snap s; mp := mp s; dt := dt s;
     detachResume := detachResume s; proposeTimer := proposeTimer s;
     resumeWatchdog := resumeWatchdog s; intent := intent s; settleNow := settleNow s;
     leaving := leaving s; autoByGame := autoByGame s; clients := clients s; closed := closed s;
     inboxes := m; early := early s; lives := lives s; tasks := tasks s; armed := armed s;
     next := next s; calls := calls s |}.
Definition with_lives (m : gmap nat (list (Frame Move))) (l : list Live) (s : PvpSession) : PvpSession :=
  {| account := account s; status := status s; role := role s; sAuto := sAuto s; view := view s;
     winner := winner s; error := error s; snap := snap s; mp := mp s; dt := dt s;
     detachResume := detachResume s; proposeTimer := proposeTimer s;
     resumeWatchdog := resumeWatchdog s; intent := intent s; settleNow := settleNow s;
     leaving := leaving s; autoByGame := autoByGame s; clients := clients s; closed := closed s;
     inboxes := inboxes s; early := m; lives := l; tasks := tasks s; armed := armed s;
     next := next s; calls := calls s |}.
Definition with_tasks (m : gmap nat task) (n : nat) (s : PvpSession) : PvpSession :=
  {| account := account s; status := status s; role := role s; sAuto := sAuto s; view := view s;
     winner := winner s; error := error s; snap := snap s; mp := mp s; dt := dt s;
     detachResume := detachResume s; proposeTimer := proposeTimer s;
     resumeWatchdog := resumeWatchdog s; intent := intent s; settleNow := settleNow s;
     leaving := leaving s; autoByGame := autoByGame s; clients := clients s; closed := closed s;
     inboxes := inboxes s; early := early s; lives := lives s; tasks := m; armed := armed s;
     next := n; calls := calls s |}.
Definition say (x : call) (s : PvpSession) : PvpSession :=
  {| account := account s; status := status s; role := role s; sAuto := sAuto s; view := view s;
     winner := winner s; error := error s; snap := snap s; mp := mp s; dt := dt s;
     detachResume := detachResume s; proposeTimer := proposeTimer s;
     resumeWatchdog := resumeWatchdog s; intent := intent s; settleNow := settleNow s;
     leaving := leaving s; autoByGame := autoByGame s; clients := clients s; closed := closed s;
     inboxes := inboxes s; early := early s; lives := lives s; tasks := tasks s; armed := armed s;
     next := next s; calls := calls s ++ [x] |}.

(** [src frontend/src/pvp/pvpMatchHook.ts:231-243 constructor] *)
Definition newPvpSession (prefs : gmap string bool) : PvpSession :=
  let auto := defaultAuto prefs (sp_game spec) in
  {| account := None; status := Idle; role := None; sAuto := auto; view := None;
     winner := noWinner spec; error := None;
     snap := {| sn_status := Idle; sn_role := None; sn_stake := stake spec; sn_auto := auto;
                sn_view := None; sn_winner := noWinner spec; sn_error := None |};
     mp := None; dt := None; detachResume := None; proposeTimer := None; resumeWatchdog := None;
     intent := idleIntent spec; settleNow := None; leaving := false; autoByGame := prefs; clients := 0;
     closed := []; inboxes := ∅; early := ∅; lives := []; tasks := ∅; armed := []; next := 0; calls := [] |}.

(** [src frontend/src/pvp/pvpMatchHook.ts:253-264 emit] *)
Definition emit (s : PvpSession) : PvpSession :=
  say Notify (with_snap {| sn_status := status s; sn_role := role s; sn_stake := stake spec; sn_auto := sAuto s;
                           sn_view := view s; sn_winner := winner s; sn_error := error s |} s).

(** [src frontend/src/pvp/pvpMatchHook.ts:266-270 fail] *)
Definition fail (e : js_error) (s : PvpSession) : PvpSession :=
  emit (with_status Failed (with_error (Some e) s)).

(** [src frontend/src/pvp/pvpMatchHook.ts:272-278 sync] *)
Definition sync (s : PvpSession) : PvpSession :=
  emit match dt s with
       | Some t => match lives s !! t with
                   | Some l => with_board (Some (deriveView spec (displayState (lv_seat l))))
                                 (winnerOf spec (d_state (lv_seat l))) s
                   | None => s
                   end
       | None => s
       end.

(** ** Timers *)

Definition disarm (h : nat) (l : list (nat * alarm)) : list (nat * alarm) :=
  List.filter (fun x => negb (Nat.eqb (fst x) h)) l.

(** [clearTimeout] on the propose timer, and on the watchdog. *)
Definition clearProposeTimer (s : PvpSession) : PvpSession :=
  match proposeTimer s with
  | Some h => with_timer None (disarm h (armed s)) (next s) s
  | None => s
  end.

(** [src frontend/src/pvp/pvpMatchHook.ts:592-597 clearResumeWatchdog] *)
Definition clearResumeWatchdog (s : PvpSession) : PvpSession :=
  match resumeWatchdog s with
  | Some h => with_watchdog None (disarm h (armed s)) (next s) s
  | None => s
  end.

(** [displayState !== state] *)
Definition has_pending (d : seat) : bool :=
  match pending d with Some p => d_nonce d <? nonce (p_update p) | None => false end.

(** [src frontend/src/pvp/pvpMatchHook.ts:288-309 maybePropose], up to the timer *)
Definition maybePropose (s : PvpSession) : PvpSession :=
  match dt s, role s with
  | Some t, Some myRole =>
      match lives s !! t with
      | None => s
      | Some l =>
          let d := lv_seat l in
          let plan := proposePlan
            {| myRole := myRole; turnRole := turn (d_nonce d); terminal := isTerminal P (d_state d);
               hasPending := has_pending d; auto := sAuto s;
               hasInput := negb (sAuto s) && negb (bool_decide (intent s = idleIntent spec));
               stepMs := sp_stepMs spec |} in
          let s := clearProposeTimer s in
          match plan with
          | None => s
          | Some ms =>
              say (SetTimer (next s) ms)
                (with_timer (Some (next s)) (armed s ++ [(next s, ProposeAlarm)]) (S (next s)) s)
          end
      end
  | _, _ => s
  end.

(** ** The tunnels *)

Definition with_seat (d : seat) (l : Live) : Live :=
  {| lv_seat := d; lv_mp := lv_mp l; lv_role := lv_role l; lv_hooked := lv_hooked l;
     lv_attached := lv_attached l; lv_watched := lv_watched l; lv_settling := lv_settling l |}.
Definition with_hooks (h a w : bool) (l : Live) : Live :=
  {| lv_seat := lv_seat l; lv_mp := lv_mp l; lv_role := lv_role l; lv_hooked := h; lv_attached := a;
     lv_watched := w; lv_settling := lv_settling l |}.
Definition mark_settling (l : Live) : Live :=
  {| lv_seat := lv_seat l; lv_mp := lv_mp l; lv_role := lv_role l; lv_hooked := lv_hooked l;
     lv_attached := lv_attached l; lv_watched := lv_watched l; lv_settling := true |}.

Definition on_live (f : Live -> Live) (t : nat) (s : PvpSession) : PvpSession :=
  with_lives (early s) (alter f t (lives s)) s.

(** The function [attachResume] returned: it puts the game's hook back, and the
    watchdog's with it. *)
Definition detach (s : PvpSession) : PvpSession :=
  match detachResume s with
  | Some t => with_detach None (say (Detach t) (on_live (fun l => with_hooks (lv_hooked l) false false l) t s))
  | None => s
  end.

(** [this.mp?.close(); this.mp = null] *)
Definition close_mp (s : PvpSession) : PvpSession :=
  match mp s with
  | Some k => with_mp None (with_clients (clients s) (closed s ++ [k]) (say (CloseClient k) s))
  | None => s
  end.

(** [src frontend/src/pvp/pvpMatchHook.ts:342-363 reset] *)
Definition reset (s : PvpSession) : PvpSession :=
  let s := close_mp (detach (clearResumeWatchdog (clearProposeTimer s))) in
  emit (with_settle None false (with_error None (with_board None (noWinner spec) (with_status Idle
    (with_auto (defaultAuto (autoByGame s) (sp_game spec)) (autoByGame s)
      (with_intent (idleIntent spec) (with_role None (with_dt None s)))))))).

(** [src frontend/src/pvp/pvpMatchHook.ts:381-393 dispose] *)
Definition dispose (s : PvpSession) : PvpSession :=
  with_dt None (close_mp (detach (clearResumeWatchdog (clearProposeTimer s)))).

(** ** Awaiting *)

(** A promise of the environment. *)
Definition ask (x : nat -> call) (k : task) (s : PvpSession) : PvpSession :=
  say (x (next s)) (with_tasks (<[next s := k]> (tasks s)) (S (next s)) s).

Definition inbox (k : nat) (s : PvpSession) : Inbox := default empty_inbox (inboxes s !! k).

(** [await waitPeer(t)]: [now] goes on with a message that is there already. *)
Definition await_peer (k : nat) (t : string) (later : task) (now : peer_msg -> PvpSession -> PvpSession)
    (s : PvpSession) : PvpSession :=
  match wait t (next s) (inbox k s) with
  | (b, Some m) => now m (with_inboxes (<[k := b]> (inboxes s)) s)
  | (b, None) => with_tasks (<[next s := later]> (tasks s)) (S (next s)) (with_inboxes (<[k := b]> (inboxes s)) s)
  end.

(** ** The close *)

(** The handlers of [settle(...).then] in [triggerSettle]. *)
Definition settle_done (s : PvpSession) : PvpSession :=
  let s := emit (with_status Settled s) in if leaving s then reset s else s.
Definition settle_failed (e : js_error) (s : PvpSession) : PvpSession :=
  if leaving s then reset s else fail e s.

(** [src frontend/src/pvp/pvpMatchHook.ts:957-968 settle] once the half of the peer is
    there. *)
Definition settle_half (t : nat) (createdAt : Z) (m : peer_msg) (s : PvpSession) : PvpSession :=
  match lives s !! t, m with
  | Some l, PSettleHalf sig root =>
      match (let! r := fromHex root in let! g := fromHex sig in Ok (r, g)) with
      | Throw e => settle_failed e s
      | Ok (r, g) =>
          let '(d, res) := coSignCloseFromPeerRoot P createdAt r g (lv_seat l) in
          let s := on_live (with_seat d) t s in
          match res with
          | Throw e => settle_failed e s
          | Ok co =>
              if party_eqb (lv_role l) PartyA then ask (AskSettle (d_tunnelId d) co) (TSubmitted t co) s
              else settle_done s
          end
      end
  | _, _ => s
  end.

(** [src frontend/src/pvp/pvpMatchHook.ts:956-959 settle] after [readCreatedAt] *)
Definition settle_created (t : nat) (createdAt : Z) (s : PvpSession) : PvpSession :=
  match lives s !! t with
  | Some l => await_peer (lv_mp l) "settleHalf" (THalf t createdAt) (settle_half t createdAt) s
  | None => s
  end.

(** [src frontend/src/pvp/pvpMatchHook.ts:427-463 triggerSettle] and the
    start of [settle], which returns at once when [publishOnly]. *)
Definition triggerSettle (t : nat) (publishOnly : bool) (s : PvpSession) : PvpSession :=
  match lives s !! t with
  | None => s
  | Some l =>
      if lv_settling l then s
      else
        let s := emit (with_status Settling (on_live mark_settling t s)) in
        if publishOnly then settle_done s
        else ask (AskCreatedAt (d_tunnelId (lv_seat l))) (TCreatedAt t) s
  end.

(** [src frontend/src/pvp/pvpMatchHook.ts:369-379 leave] *)
Definition leave (s : PvpSession) : PvpSession :=
  match settleNow s, status s with
  | Some t, Playing | Some t, Settling => triggerSettle t true (with_settle (settleNow s) true s)
  | _, _ => reset s
  end.

(** ** Hooks of a seat *)

(** [onConfirmed] of tunnel [t]: the watchdog's, then the game's, then that of
    [attachResume]. *)
Definition on_confirmed (t : nat) (s : PvpSession) : PvpSession :=
  match lives s !! t with
  | None => s
  | Some l =>
      let s := if lv_watched l
               then on_live (fun l => with_hooks (lv_hooked l) (lv_attached l) false l) t (clearResumeWatchdog s)
               else s in
      let s := if lv_hooked l then
                 let s := maybePropose (sync s) in
                 if isTerminal P (d_state (lv_seat l)) then triggerSettle t false s else s
               else s in
      if lv_attached l then say (Persist t) s else s
  end.

Definition on_effect (t : nat) (s : PvpSession) (e : effect Move) : PvpSession :=
  match e with
  | OnConfirmed _ => on_confirmed t s
  | OnProposed => match lives s !! t with
                  | Some l => if lv_attached l then say (Persist t) s else s
                  | None => s
                  end
  | _ => s
  end.

(** A handler of the seat of tunnel [t] with the hooks it calls; the outcome of
    the handler is returned. *)
Definition on_seat (t : nat) (m : eff seat unit) (s : PvpSession) : PvpSession * result unit :=
  match lives s !! t with
  | None => (s, Ok tt)
  | Some l =>
      let '(d, r) := m (lv_seat l) in
      let new := drop (length (effects (lv_seat l))) (effects d) in
      (fold_left (on_effect t) new (on_live (with_seat d) t s), r)
  end.

(** [src frontend/src/pvp/pvpMatchHook.ts:309-339 maybePropose], the timer; [bot] is what [randomMove] returns. *)
Definition on_propose_timer (bot : option Move) (s : PvpSession) : PvpSession :=
  match dt s, role s with
  | Some t, Some myRole =>
      match lives s !! t with
      | None => s
      | Some l =>
          let d := lv_seat l in
          if isTerminal P (d_state d) then s
          else if negb (party_eqb (turn (d_nonce d)) myRole) then s
          else if has_pending d then s
          else
            let i := if sAuto s then default (idleIntent spec) (readIntent spec myRole bot) else intent s in
            let s := if sAuto s then s else with_intent (idleIntent spec) s in
            match on_seat t (propose P (intentToMove spec myRole i) 0) s with
            | (s, Ok tt) => sync s
            | (s, Throw _) => s
            end
      end
  | _, _ => s
  end.

(** ** Starting a match *)

(** [src frontend/src/pvp/pvpMatchHook.ts:402-499 activateSession]; [attach] also tells
    the resume driver the identity of the match. *)
Definition activateSession (t : nat) (s : PvpSession) : PvpSession :=
  let s := with_dt (Some t) s in
  let s := with_settle (Some t) (leaving s) s in
  let s := on_live (fun l => with_hooks true (lv_attached l) (lv_watched l) l) t s in
  let s := detach s in
  let s := with_detach (Some t) (say (Attach t) (on_live (fun l => with_hooks (lv_hooked l) true (lv_watched l) l) t s)) in
  sync (with_status Playing s).

(** [src frontend/src/pvp/pvpMatchHook.ts:680-698 findMatch], and the same in [enterArenaMatch]; the frames that came
    before it are delivered by its constructor, with no hook set. *)
Definition build_seat (f : Flow) (m : MatchInfo) (oppPub : bytes) (tid : string) (frames : list (Frame Move))
  : result seat :=
  let keys := fl_keys f in
  let slf := makeEndpoint bk (fl_wallet f) (publicKey keys) (scheme keys) (Some (secretKey keys)) true in
  let opp := makeEndpoint bk (mi_opponentWallet m) oppPub (scheme keys) None false in
  let! d := newDistributedTunnel P tid slf opp (mi_role m) false {| bal_a := stake spec; bal_b := stake spec |} in
  rfold (fun d fr => match onFrame P fr d with (d', Ok _) => Ok d' | (_, Throw e) => Throw e end) d frames.

(** The end of both functions, after the readiness handshake. *)
Definition kick (s : PvpSession) : PvpSession := sync (maybePropose s).

(** [src frontend/src/pvp/pvpMatchHook.ts:708-715 findMatch]: A awaits B's [ready]; in the arena there is none. *)
Definition opening (f : Flow) (m : MatchInfo) (s : PvpSession) : PvpSession :=
  match fl_alloc f, mi_role m with
  | Some _, _ => kick s
  | None, PartyA => await_peer (fl_mp f) "ready" (TReady f) (fun _ => kick) s
  | None, PartyB => kick (say (SendPeer (fl_mp f) PReady) s)
  end.

(** [src frontend/src/pvp/pvpMatchHook.ts:688-706 findMatch] and the same in
    [enterArenaMatch]: the session of the seat. *)
Definition start_play (f : Flow) (m : MatchInfo) (oppPub : bytes) (tid : string) (s : PvpSession) : PvpSession :=
  let k := fl_mp f in
  match build_seat f m oppPub tid (default [] (early s !! k)) with
  | Throw e => fail e s
  | Ok d =>
      let t := length (lives s) in
      let l := {| lv_seat := d; lv_mp := k; lv_role := mi_role m; lv_hooked := false; lv_attached := false;
                  lv_watched := false; lv_settling := false |} in
      opening f m (activateSession t (with_lives (delete k (early s)) (lives s ++ [l]) s))
  end.

(** [src frontend/src/pvp/pvpMatchHook.ts:669-676 findMatch], the message the opener sends *)
Definition after_open (f : Flow) (m : MatchInfo) (oppPub : bytes) (x : peer_msg) (s : PvpSession) : PvpSession :=
  match x with
  | POpen tid => ask (AskDeposit tid (stake spec)) (TDeposited f m oppPub tid) s
  | _ => s
  end.

(** [src frontend/src/pvp/pvpMatchHook.ts:641-669 findMatch], the funding; in the arena the
    tunnel is funded already. *)
Definition after_hello (f : Flow) (m : MatchInfo) (x : peer_msg) (s : PvpSession) : PvpSession :=
  match x with
  | PHello pub =>
      match fromHex pub with
      | Throw e => fail e s
      | Ok oppPub =>
          match fl_alloc f with
          | Some (_, tid) => start_play f m oppPub tid s
          | None =>
              let s := emit (with_status Funding s) in
              match mi_role m with
              | PartyA =>
                  ask (AskOpen (fl_wallet f) (publicKey (fl_keys f)) (mi_opponentWallet m) oppPub (stake spec))
                    (TOpened f m oppPub) s
              | PartyB => await_peer (fl_mp f) "open" (TOpenHeard f m oppPub) (after_open f m oppPub) s
              end
          end
      end
  | _ => s
  end.

(** [src frontend/src/pvp/pvpMatchHook.ts:629-640 findMatch], and the same in [enterArenaMatch]: the channel, the inbox and the exchange of
    ephemeral keys. *)
Definition after_match (f : Flow) (m : MatchInfo) (s : PvpSession) : PvpSession :=
  let s := emit (with_role (Some (mi_role m)) s) in
  let s := with_inboxes (<[fl_mp f := empty_inbox]> (inboxes s)) s in
  let s := say (SendPeer (fl_mp f) (PHello (toHex (publicKey (fl_keys f))))) s in
  await_peer (fl_mp f) "hello" (THello f m) (after_hello f m) s.

(** [src frontend/src/pvp/pvpMatchHook.ts:628-628 findMatch] and [joinMatch] in [enterArenaMatch] *)
Definition after_connect (f : Flow) (s : PvpSession) : PvpSession :=
  match fl_alloc f with
  | None => ask (fun w => AskMatch (fl_mp f) (sp_game spec) w) (TMatched f) s
  | Some (mid, _) => ask (fun w => AskJoin (fl_mp f) mid w) (TMatched f) s
  end.

(** The part of both functions before their first [await]. *)
Definition start_flow (alloc : option (string * string)) (keys : KeyPair) (s : PvpSession) : PvpSession :=
  match account s with
  | None => emit (with_status Failed (with_error (Some (Error "connect a wallet first")) s))
  | Some wallet =>
      let s := match alloc with Some _ => with_auto true (autoByGame s) s | None => s end in
      let s := emit (with_status Matching (with_error None s)) in
      let k := clients s in
      let s := with_mp (Some k) (with_clients (S k) (closed s) (say (NewClient k) s)) in
      ask (AskConnect k) (TConnected {| fl_mp := k; fl_wallet := wallet; fl_keys := keys; fl_alloc := alloc |}) s
  end.

(** [src frontend/src/pvp/pvpMatchHook.ts:599-627 findMatch]; [keys] is the fresh ephemeral key *)
Definition findMatch (keys : KeyPair) : PvpSession -> PvpSession := start_flow None keys.

(** [src frontend/src/pvp/pvpMatchHook.ts:732-759 enterArenaMatch] *)
Definition enterArenaMatch (matchId tid : string) (eph : KeyPair) : PvpSession -> PvpSession :=
  start_flow (Some (matchId, tid)) eph.

(** ** Resuming *)

(** [src frontend/src/pvp/pvpMatchHook.ts:502-547 resume] up to its [await]: [restored] are the
    seats that [resumeActiveTunnels] rebuilt, with the roles of their records;
    [resumable] says that some record is of this game. *)
Definition resume (resumable : bool) (restored : list (seat * Party)) (s : PvpSession) : PvpSession :=
  match mp s, account s with
  | None, Some _ =>
      if resumable then
        let k := clients s in
        let s := with_mp (Some k) (with_clients (S k) (closed s) (say (NewClient k) s)) in
        match restored with
        | [] => close_mp s
        | (d, r) :: _ =>
            let s := with_inboxes (<[k := empty_inbox]> (inboxes s)) (with_role (Some r) s) in
            let t := length (lives s) in
            let l := {| lv_seat := d; lv_mp := k; lv_role := r; lv_hooked := false; lv_attached := false;
                        lv_watched := false; lv_settling := false |} in
            let s := activateSession t (with_lives (early s) (lives s ++ [l]) s) in
            ask (AskConnect k) (TResumed t) s
        end
      else s
  | _, _ => s
  end.

(** [src frontend/src/pvp/resumeWatchdog.ts RESUME_WATCHDOG_MS] *)
Definition RESUME_WATCHDOG_MS : Z := 8000.

(** [src frontend/src/pvp/pvpMatchHook.ts armResumeWatchdog] *)
Definition armResumeWatchdog (t : nat) (s : PvpSession) : PvpSession :=
  match lives s !! t with
  | None => s
  | Some l =>
      let d := lv_seat l in
      if resumeWatchdogShouldArm (match pending d with Some _ => true | None => false end)
           (negb (bool_decide (Some (turn (d_nonce d)) = role s)))
      then
        let s := clearResumeWatchdog s in
        let s := on_live (fun l => with_hooks (lv_hooked l) (lv_attached l) true l) t s in
        say (SetTimer (next s) RESUME_WATCHDOG_MS)
          (with_watchdog (Some (next s)) (armed s ++ [(next s, WatchdogAlarm (d_tunnelId d))]) (S (next s)) s)
      else s
  end.

(** ** Answers and events *)

(** [src frontend/src/pvp/pvpMatchHook.ts:967-980 settle] when the back end refuses, and the failure of any
    other flow or close. *)
Definition task_failed (k : task) (e : js_error) (s : PvpSession) : PvpSession :=
  match k with
  | TCreatedAt _ | THalf _ _ | TClosed _ => settle_failed e s
  | TSubmitted t co =>
      match lives s !! t with
      | Some l => ask (AskWalletClose (d_tunnelId (lv_seat l)) co) (TClosed t) s
      | None => s
      end
  | _ => fail e s
  end.

(** What is left of an async function, with the answer it awaited. *)
Definition run_task (k : task) (a : answer) (s : PvpSession) : PvpSession :=
  match k, a with
  | _, AError e => task_failed k e s
  | TConnected f, ADone => after_connect f s
  | TMatched f, AMatch m => after_match f m s
  | THello f m, AMsg x => after_hello f m x s
  | TOpened f m oppPub, AText tid =>
      start_play f m oppPub tid
        (say (SendPeer (fl_mp f) (POpen tid)) (say (Announce (fl_mp f) (mi_matchId m) tid) s))
  | TOpenHeard f m oppPub, AMsg x => after_open f m oppPub x s
  | TDeposited f m oppPub tid, ADone => start_play f m oppPub tid s
  | TReady f, AMsg _ => kick s
  | TResumed t, ADone => armResumeWatchdog t (kick s)
  | TCreatedAt t, ATime z => settle_created t z s
  | THalf t z, AMsg x => settle_half t z x s
  | TSubmitted t _, ADone | TClosed t, ADone => settle_done s
  | _, _ => s
  end.

Definition answer_task (w : nat) (a : answer) (s : PvpSession) : PvpSession :=
  match tasks s !! w with
  | Some k => run_task k a (with_tasks (delete w (tasks s)) (next s) s)
  | None => s
  end.

(** A task that awaits a message of the peer; no promise of the environment
    answers it. *)
Definition awaits_peer (k : task) : bool :=
  match k with THello _ _ | TOpenHeard _ _ _ | TReady _ | THalf _ _ => true | _ => false end.

Definition on_answer (w : nat) (a : answer) (s : PvpSession) : PvpSession :=
  match tasks s !! w with
  | Some k => if awaits_peer k then s else answer_task w a s
  | None => s
  end.

(** What the user, React, the promises, the peer and the clock do. *)
Inductive PvpEvent :=
  | SetAccount (a : option string)
  | FindMatch (keys : KeyPair)
  | EnterArenaMatch (matchId tid : string) (eph : KeyPair)
  | Resume (resumable : bool) (restored : list (seat * Party))
  | SetIntent (i : Intent)
  | ToggleAuto
  | Reset
  | Leave
  | Dispose
  | Answer (w : nat) (a : answer)
  | PeerMsg (k : nat) (m : peer_msg)
  | FrameIn (k : nat) (f : Frame Move)
  | Reconciled (t : nat) (d : seat)
  | GraceExpired (t : nat)
  | TimerFires (h : nat) (bot : option Move).

(** [src frontend/src/pvp/pvpMatchHook.ts:817-823 setIntent] *)
Definition setIntent (i : Intent) (s : PvpSession) : PvpSession :=
  let s := with_intent i s in if sAuto s then s else maybePropose s.

(** [src frontend/src/pvp/pvpMatchHook.ts:825-830 toggleAuto] *)
Definition toggleAuto (s : PvpSession) : PvpSession :=
  let a := negb (sAuto s) in
  emit (with_intent (idleIntent spec) (with_auto a (rememberAuto (sp_game spec) a (autoByGame s)) s)).

(** A peer message on the channel of client [k]. *)
Definition on_peer (k : nat) (m : peer_msg) (s : PvpSession) : PvpSession :=
  if bool_decide (k ∈ closed s) then s
  else match inboxes s !! k with
       | None => s
       | Some b =>
           let '(b', w) := deliver m b in
           let s := with_inboxes (<[k := b']> (inboxes s)) s in
           match w with Some w => answer_task w (AMsg m) s | None => s end
       end.

(** The tunnel of client [k]. *)
Fixpoint live_of (k i : nat) (l : list Live) : option nat :=
  match l with
  | [] => None
  | x :: l => if Nat.eqb (lv_mp x) k then Some i else live_of k (S i) l
  end.

(** A frame on the channel of client [k], once there is one; it waits for the engine. *)
Definition on_frame (k : nat) (f : Frame Move) (s : PvpSession) : PvpSession :=
  if bool_decide (k ∈ closed s) then s
  else match live_of k 0 (lives s) with
       | Some t => fst (on_seat t (onFrame P f) s)
       | None => match inboxes s !! k with
                 | Some _ => with_lives (<[k := default [] (early s !! k) ++ [f]]> (early s)) (lives s) s
                 | None => s
                 end
       end.

Definition on_timer (h : nat) (bot : option Move) (s : PvpSession) : PvpSession :=
  match list_find (fun x => fst x = h) (armed s) with
  | Some (_, (_, ProposeAlarm)) => on_propose_timer bot (with_timer None (disarm h (armed s)) (next s) s)
  | Some (_, (_, WatchdogAlarm tid)) =>
      reset (say (ClearRecord tid) (with_watchdog None (disarm h (armed s)) (next s) s))
  | None => s
  end.

(** [src frontend/src/pvp/pvpMatchHook.ts:486-495 onGraceExpired] *)
Definition on_grace (t : nat) (s : PvpSession) : PvpSession :=
  match lives s !! t with
  | Some l => match d_latest (lv_seat l) with
              | Some co => if lv_attached l then say (RaiseDispute (d_tunnelId (lv_seat l)) co (lv_role l)) s else s
              | None => s
              end
  | None => s
  end.

Definition step (s : PvpSession) (e : PvpEvent) : PvpSession :=
  match e with
  | SetAccount a => with_account a s
  | FindMatch keys => findMatch keys s
  | EnterArenaMatch mid tid eph => enterArenaMatch mid tid eph s
  | Resume b l => resume b l s
  | SetIntent i => setIntent i s
  | ToggleAuto => toggleAuto s
  | Reset => reset s
  | Leave => leave s
  | Dispose => dispose s
  | Answer w a => on_answer w a s
  | PeerMsg k m => on_peer k m s
  | FrameIn k f => on_frame k f s
  | Reconciled t d => match lives s !! t with
                      | Some l => if lv_attached l then sync (on_live (with_seat d) t s) else s
                      | None => s
                      end
  | GraceExpired t => on_grace t s
  | TimerFires h bot => on_timer h bot s
  end.

Definition run (s : PvpSession) (evs : list PvpEvent) : PvpSession := fold_left step evs s.

(** ** What a session does to its seats *)

Definition seats (s : PvpSession) : list seat := map lv_seat (lives s).

Lemma seats_lookup s t : seats s !! t = lv_seat <$> (lives s !! t).
Proof. apply list_lookup_fmap. Qed.

(** The field [lives] of a state some setters away from another. *)
Ltac still :=
  unfold seats; cbn [lives ask say emit with_account with_status with_role with_auto with_board with_error with_snap
    with_mp with_dt with_detach with_timer with_watchdog with_intent with_settle with_clients with_inboxes with_tasks];
  reflexivity.

(** A change of the seats aside, a handler leaves them alone. *)
Definition same_seats (f : PvpSession -> PvpSession) : Prop := forall s, seats (f s) = seats s.

Lemma seats_on_live (f : Live -> Live) t s :
  (forall l, lv_seat (f l) = lv_seat l) -> seats (on_live f t s) = seats s.
Proof.
  intros Hf. unfold seats, on_live. cbn [lives with_lives]. apply list_eq. intros i.
  rewrite !list_lookup_fmap. destruct (decide (i = t)) as [->|]; [|by rewrite list_lookup_alter_ne].
  rewrite list_lookup_alter_eq. destruct (lives s !! t); [|done]. cbn. by rewrite Hf.
Qed.

Lemma seats_set d t s : (t < length (lives s))%nat -> seats (on_live (with_seat d) t s) = <[t := d]> (seats s).
Proof.
  intros Ht. unfold seats, on_live. cbn [lives with_lives]. apply list_eq. intros i.
  rewrite list_lookup_fmap. destruct (decide (i = t)) as [->|].
  - rewrite list_lookup_alter_eq, list_lookup_insert_eq by (by rewrite length_map).
    apply lookup_lt_is_Some in Ht as [l ->]. done.
  - rewrite list_lookup_alter_ne, list_lookup_insert_ne by done. by rewrite list_lookup_fmap.
Qed.

Lemma seats_ask x k : same_seats (ask x k).
Proof. intros s. still. Qed.
Lemma seats_emit : same_seats emit.
Proof. done. Qed.
Lemma seats_fail e : same_seats (fail e).
Proof. done. Qed.
Lemma seats_sync : same_seats sync.
Proof. intros s. unfold sync. by repeat case_match. Qed.
Lemma seats_clear : same_seats clearProposeTimer.
Proof. intros s. unfold clearProposeTimer. by case_match. Qed.
Lemma seats_clear_watchdog : same_seats clearResumeWatchdog.
Proof. intros s. unfold clearResumeWatchdog. by case_match. Qed.
Lemma seats_maybePropose : same_seats maybePropose.
Proof. intros s. unfold maybePropose. cbn zeta. repeat case_match; try done; apply seats_clear. Qed.
Lemma seats_detach : same_seats detach.
Proof.
  intros s. unfold detach. case_match; [|done].
  change (seats (on_live (fun l => with_hooks (lv_hooked l) false false l) n s) = seats s). by apply seats_on_live.
Qed.
Lemma seats_close : same_seats close_mp.
Proof. intros s. unfold close_mp. by case_match. Qed.

(** What [reset] and [dispose] begin with. *)
Lemma seats_teardown s : seats (close_mp (detach (clearResumeWatchdog (clearProposeTimer s)))) = seats s.
Proof. by rewrite seats_close, seats_detach, seats_clear_watchdog, seats_clear. Qed.

Lemma seats_reset : same_seats reset.
Proof. intros s. etransitivity; [|apply seats_teardown]. done. Qed.
Lemma seats_dispose : same_seats dispose.
Proof. intros s. etransitivity; [|apply seats_teardown]. done. Qed.
Lemma seats_settle_done : same_seats settle_done.
Proof. intros s. unfold settle_done. cbn zeta. case_match; [by rewrite seats_reset|done]. Qed.
Lemma seats_settle_failed e : same_seats (settle_failed e).
Proof. intros s. unfold settle_failed. case_match; [by rewrite seats_reset|done]. Qed.

Lemma seats_triggerSettle t b : same_seats (triggerSettle t b).
Proof.
  intros s. unfold triggerSettle. case_match; [|done]. case_match; [done|]. cbn zeta.
  case_match; [rewrite seats_settle_done|]; by apply (seats_on_live mark_settling).
Qed.

Lemma seats_leave : same_seats leave.
Proof.
  intros s. unfold leave. repeat case_match; rewrite ?seats_reset, ?seats_triggerSettle; done.
Qed.

Lemma seats_on_confirmed t : same_seats (on_confirmed t).
Proof.
  intros s. unfold on_confirmed. destruct (lives s !! t) as [l|]; [|done]. cbn zeta.
  set (s1 := if lv_watched l then _ else s).
  assert (seats s1 = seats s) as <-.
  { unfold s1. case_match; [|done]. rewrite seats_on_live by done. apply seats_clear_watchdog. }
  set (s2 := if lv_hooked l then _ else s1).
  assert (seats s2 = seats s1) as <-.
  { unfold s2. repeat case_match; rewrite ?seats_triggerSettle, ?seats_maybePropose, ?seats_sync; done. }
  by case_match.
Qed.

Lemma seats_on_effect t s e : seats (on_effect t s e) = seats s.
Proof. destruct e; try done; cbn; [apply seats_on_confirmed|]. by repeat case_match. Qed.

Lemma seats_on_effects t es s : seats (fold_left (on_effect t) es s) = seats s.
Proof. revert s. induction es as [|e es IH]; intros s; [done|]. cbn [fold_left]. by rewrite IH, seats_on_effect. Qed.

Lemma seats_kick : same_seats kick.
Proof. intros s. unfold kick. by rewrite seats_sync, seats_maybePropose. Qed.

Lemma seats_activate t : same_seats (activateSession t).
Proof.
  intros s. unfold activateSession. cbn zeta. rewrite seats_sync.
  match goal with |- seats (with_status _ (with_detach _ (say _ (on_live ?f ?t ?x)))) = _ =>
    change (seats (on_live f t x) = seats s) end.
  rewrite seats_on_live, seats_detach, seats_on_live by done. done.
Qed.

Lemma seats_arm t : same_seats (armResumeWatchdog t).
Proof.
  intros s. unfold armResumeWatchdog. cbn zeta. destruct (lives s !! t) as [l|]; [|done].
  destruct (resumeWatchdogShouldArm _ _); [|done].
  match goal with |- seats (say _ (with_watchdog _ _ _ (on_live ?f ?t ?x))) = _ =>
    change (seats (on_live f t x) = seats s) end.
  rewrite seats_on_live by done. apply seats_clear_watchdog.
Qed.

Lemma seats_on_seat t m s l :
  lives s !! t = Some l ->
  seats (fst (on_seat t m s)) = <[t := fst (m (lv_seat l))]> (seats s) /\ snd (on_seat t m s) = snd (m (lv_seat l)).
Proof.
  intros Hl. unfold on_seat. rewrite Hl. destruct (m (lv_seat l)) as [d r]. cbn [fst snd]. split; [|done].
  rewrite seats_on_effects. apply seats_set. by apply lookup_lt_Some in Hl.
Qed.

(** ** One match at a time *)

(** The flow of an async function that has not made its tunnel yet, and the role
    it has been given. *)
Definition starting (k : task) : option (Flow * option Party) :=
  match k with
  | TConnected f | TMatched f => Some (f, None)
  | THello f m | TOpened f m _ | TOpenHeard f m _ | TDeposited f m _ _ => Some (f, Some (mi_role m))
  | _ => None
  end.

(** From [s] to [s'] no match was started or given a role. *)
Record quiet (s s' : PvpSession) : Prop := {
  q_dt : dt s' = dt s \/ dt s' = None;
  q_role : role s' = role s \/ role s' = None;
  q_lives : forall t l, lives s !! t = Some l -> exists l', lives s' !! t = Some l' /\ lv_role l' = lv_role l;
  q_tasks : forall w k, tasks s' !! w = Some k -> starting k <> None -> tasks s !! w = Some k
}.

Lemma quiet_refl s : quiet s s.
Proof. split; eauto. Qed.

Lemma quiet_trans s1 s2 s3 : quiet s1 s2 -> quiet s2 s3 -> quiet s1 s3.
Proof.
  intros [D R L T] [D' R' L' T']. split.
  - destruct D' as [->|?]; eauto.
  - destruct R' as [->|?]; eauto.
  - intros t l Hl. destruct (L t l Hl) as (l1 & H1 & E1). destruct (L' t l1 H1) as (l2 & H2 & E2).
    exists l2. split; [done|congruence].
  - eauto.
Qed.

Lemma quiet_eq s s1 s' :
  dt s' = dt s1 -> role s' = role s1 -> lives s' = lives s1 -> tasks s' = tasks s1 -> quiet s s1 -> quiet s s'.
Proof. intros D R L T [? ? ? ?]. split; rewrite ?D, ?R, ?L, ?T; done. Qed.

Lemma q_status x s s1 : quiet s s1 -> quiet s (with_status x s1).
Proof. by apply quiet_eq. Qed.
Lemma q_auto b m s s1 : quiet s s1 -> quiet s (with_auto b m s1).
Proof. by apply quiet_eq. Qed.
Lemma q_board v w s s1 : quiet s s1 -> quiet s (with_board v w s1).
Proof. by apply quiet_eq. Qed.
Lemma q_error e s s1 : quiet s s1 -> quiet s (with_error e s1).
Proof. by apply quiet_eq. Qed.
Lemma q_account a s s1 : quiet s s1 -> quiet s (with_account a s1).
Proof. by apply quiet_eq. Qed.
Lemma q_mp m s s1 : quiet s s1 -> quiet s (with_mp m s1).
Proof. by apply quiet_eq. Qed.
Lemma q_detach_field t s s1 : quiet s s1 -> quiet s (with_detach t s1).
Proof. by apply quiet_eq. Qed.
Lemma q_timer h l n s s1 : quiet s s1 -> quiet s (with_timer h l n s1).
Proof. by apply quiet_eq. Qed.
Lemma q_watchdog h l n s s1 : quiet s s1 -> quiet s (with_watchdog h l n s1).
Proof. by apply quiet_eq. Qed.
Lemma q_intent i s s1 : quiet s s1 -> quiet s (with_intent i s1).
Proof. by apply quiet_eq. Qed.
Lemma q_settle t b s s1 : quiet s s1 -> quiet s (with_settle t b s1).
Proof. by apply quiet_eq. Qed.
Lemma q_clients n l s s1 : quiet s s1 -> quiet s (with_clients n l s1).
Proof. by apply quiet_eq. Qed.
Lemma q_inboxes m s s1 : quiet s s1 -> quiet s (with_inboxes m s1).
Proof. by apply quiet_eq. Qed.
Lemma q_early m s s1 : quiet s s1 -> quiet s (with_lives m (lives s1) s1).
Proof. by apply quiet_eq. Qed.
Lemma q_say x s s1 : quiet s s1 -> quiet s (say x s1).
Proof. by apply quiet_eq. Qed.
Lemma q_emit s s1 : quiet s s1 -> quiet s (emit s1).
Proof. by apply quiet_eq. Qed.
Lemma q_no_dt s s1 : quiet s s1 -> quiet s (with_dt None s1).
Proof. intros [? ? ? ?]. split; cbn [dt role lives tasks with_dt]; auto. Qed.
Lemma q_no_role s s1 : quiet s s1 -> quiet s (with_role None s1).
Proof. intros [? ? ? ?]. split; cbn [dt role lives tasks with_role]; auto. Qed.

Lemma q_live f t s s1 : (forall l, lv_role (f l) = lv_role l) -> quiet s s1 -> quiet s (on_live f t s1).
Proof.
  intros Hf Hq. apply (quiet_trans _ s1); [done|]. split; cbn [dt role lives tasks on_live with_lives]; auto.
  intros i l Hl. destruct (decide (i = t)) as [->|].
  - exists (f l). by rewrite list_lookup_alter_eq, Hl.
  - exists l. by rewrite list_lookup_alter_ne.
Qed.

Lemma q_task k n s s1 w : starting k = None -> quiet s s1 -> quiet s (with_tasks (<[w:=k]> (tasks s1)) n s1).
Proof.
  intros Hk Hq. apply (quiet_trans _ s1); [done|]. split; cbn [dt role lives tasks with_tasks]; eauto.
  intros w' k'. destruct (decide (w' = w)) as [->|]; [|by rewrite lookup_insert_ne].
  rewrite lookup_insert_eq. intros [= <-]. done.
Qed.

Lemma q_ask x k s s1 : starting k = None -> quiet s s1 -> quiet s (ask x k s1).
Proof. intros Hk Hq. apply q_say. by apply q_task. Qed.

Lemma q_forget w n s s1 : quiet s s1 -> quiet s (with_tasks (delete w (tasks s1)) n s1).
Proof.
  intros Hq. apply (quiet_trans _ s1); [done|]. split; cbn [dt role lives tasks with_tasks]; eauto.
  intros w' k' H _. by apply lookup_delete_Some in H as [_ ?].
Qed.

Create HintDb quiet.
#[local] Hint Resolve quiet_refl q_status q_auto q_board q_error q_account q_mp q_detach_field q_timer q_watchdog
  q_intent q_settle q_clients q_inboxes q_early q_say q_emit q_no_dt q_no_role q_live q_task q_ask q_forget : quiet.
#[local] Hint Extern 1 (starting _ = None) => reflexivity : quiet.
#[local] Hint Extern 1 (forall l, lv_role _ = lv_role l) => reflexivity : quiet.

(** A handler by cases, each a chain of quiet changes. *)
Ltac quiet f := intros; unfold f; cbn zeta; repeat case_match; eauto 30 with quiet.

Lemma q_fail e s s1 : quiet s s1 -> quiet s (fail e s1).
Proof. quiet fail. Qed.
Lemma q_sync s s1 : quiet s s1 -> quiet s (sync s1).
Proof. quiet sync. Qed.
Lemma q_clear s s1 : quiet s s1 -> quiet s (clearProposeTimer s1).
Proof. quiet clearProposeTimer. Qed.
Lemma q_clear_watchdog s s1 : quiet s s1 -> quiet s (clearResumeWatchdog s1).
Proof. quiet clearResumeWatchdog. Qed.
#[local] Hint Resolve q_fail q_sync q_clear q_clear_watchdog : quiet.
Lemma q_maybePropose s s1 : quiet s s1 -> quiet s (maybePropose s1).
Proof. quiet maybePropose. Qed.
Lemma q_detach s s1 : quiet s s1 -> quiet s (detach s1).
Proof. quiet detach. Qed.
Lemma q_close s s1 : quiet s s1 -> quiet s (close_mp s1).
Proof. quiet close_mp. Qed.
#[local] Hint Resolve q_maybePropose q_detach q_close : quiet.
Lemma q_reset s s1 : quiet s s1 -> quiet s (reset s1).
Proof. quiet reset. Qed.
Lemma q_dispose s s1 : quiet s s1 -> quiet s (dispose s1).
Proof. quiet dispose. Qed.
#[local] Hint Resolve q_reset q_dispose : quiet.
Lemma q_settle_done s s1 : quiet s s1 -> quiet s (settle_done s1).
Proof. quiet settle_done. Qed.
Lemma q_settle_failed e s s1 : quiet s s1 -> quiet s (settle_failed e s1).
Proof. quiet settle_failed. Qed.
#[local] Hint Resolve q_settle_done q_settle_failed : quiet.
Lemma q_triggerSettle t b s s1 : quiet s s1 -> quiet s (triggerSettle t b s1).
Proof. quiet triggerSettle. Qed.
#[local] Hint Resolve q_triggerSettle : quiet.
Lemma q_leave s s1 : quiet s s1 -> quiet s (leave s1).
Proof. quiet leave. Qed.
Lemma q_kick s s1 : quiet s s1 -> quiet s (kick s1).
Proof. intros. unfold kick. eauto with quiet. Qed.
Lemma q_on_confirmed t s s1 : quiet s s1 -> quiet s (on_confirmed t s1).
Proof. quiet on_confirmed. Qed.
#[local] Hint Resolve q_on_confirmed q_kick : quiet.

Lemma q_effects t es s s1 : quiet s s1 -> quiet s (fold_left (on_effect t) es s1).
Proof.
  revert s1. induction es as [|e es IH]; intros s1 Hq; [done|]. apply IH.
  destruct e; cbn [on_effect]; repeat case_match; eauto with quiet.
Qed.

Lemma q_on_seat t m s s1 : quiet s s1 -> quiet s (fst (on_seat t m s1)).
Proof.
  intros Hq. unfold on_seat. destruct (lives s1 !! t) as [l|]; [|done].
  destruct (m (lv_seat l)) as [d r]. by apply q_effects, q_live.
Qed.
#[local] Hint Resolve q_on_seat : quiet.

Lemma q_propose_timer bot s s1 : quiet s s1 -> quiet s (on_propose_timer bot s1).
Proof.
  intros Hq. unfold on_propose_timer. cbn zeta. repeat (case_match; [|done]). repeat case_match; try done.
  all: match goal with H : on_seat ?t ?m ?x = (?y, _) |- _ =>
         assert (quiet s (fst (on_seat t m x))) as Hy by eauto with quiet; rewrite H in Hy; cbn [fst] in Hy end.
  all: eauto with quiet.
Qed.

Lemma q_await k t later now s s1 :
  starting later = None -> (forall m s2, quiet s s2 -> quiet s (now m s2)) ->
  quiet s s1 -> quiet s (await_peer k t later now s1).
Proof.
  intros Hl Hn Hq. unfold await_peer. destruct (wait t (next s1) (inbox k s1)) as [b [m|]]; [eauto with quiet|].
  apply (q_task _ _ s (with_inboxes (<[k:=b]> (inboxes s1)) s1)); eauto with quiet.
Qed.

Lemma q_settle_half t z m s s1 : quiet s s1 -> quiet s (settle_half t z m s1).
Proof. quiet settle_half. Qed.

Lemma q_settle_created t z s s1 : quiet s s1 -> quiet s (settle_created t z s1).
Proof.
  intros Hq. unfold settle_created. destruct (lives s1 !! t); [|done].
  apply q_await; [done|intros; by apply q_settle_half|done].
Qed.

Lemma q_opening f m s s1 : quiet s s1 -> quiet s (opening f m s1).
Proof.
  intros Hq. unfold opening. destruct (fl_alloc f); [by apply q_kick|]. destruct (mi_role m); [|eauto with quiet].
  apply q_await; [done| |done]. intros _ s2 ?. by apply q_kick.
Qed.

Lemma q_arm t s s1 : quiet s s1 -> quiet s (armResumeWatchdog t s1).
Proof.
  intros Hq. unfold armResumeWatchdog. destruct (lives s1 !! t); [|done]. cbn zeta.
  destruct (resumeWatchdogShouldArm _ _); [|done]. eauto 10 with quiet.
Qed.
#[local] Hint Resolve q_leave q_propose_timer q_settle_half q_settle_created q_opening q_arm : quiet.

(** The end of an async function that has made its tunnel. *)
Lemma q_task_failed k e s s1 : quiet s s1 -> quiet s (task_failed k e s1).
Proof. intros Hq. destruct k; cbn [task_failed]; repeat case_match; eauto with quiet. Qed.

Lemma q_run_task k a s s1 : starting k = None -> quiet s s1 -> quiet s (run_task k a s1).
Proof. intros Hk Hq. destruct k, a; try discriminate Hk; cbn [run_task]; eauto using q_task_failed with quiet. Qed.

(** ** Tunnels stay, with their roles *)

Definition keeps (s s' : PvpSession) : Prop :=
  forall t l, lives s !! t = Some l -> exists l', lives s' !! t = Some l' /\ lv_role l' = lv_role l.

Lemma keeps_eq s s' : lives s' = lives s -> keeps s s'.
Proof. intros E t l Hl. rewrite E. eauto. Qed.

Lemma keeps_trans s1 s2 s3 : keeps s1 s2 -> keeps s2 s3 -> keeps s1 s3.
Proof.
  intros H1 H2 t l Hl. destruct (H1 t l Hl) as (l1 & Hl1 & E1). destruct (H2 t l1 Hl1) as (l2 & Hl2 & E2).
  exists l2. split; [done|congruence].
Qed.

Lemma keeps_quiet s s' : quiet s s' -> keeps s s'.
Proof. intros Hq. exact (q_lives _ _ Hq). Qed.

Lemma keeps_await i t later now s :
  (forall m s1, keeps s1 (now m s1)) -> keeps s (await_peer i t later now s).
Proof.
  intros Hn. unfold await_peer. destruct (wait t (next s) (inbox i s)) as [b [m|]]; [|by apply keeps_eq].
  eapply keeps_trans; [|apply Hn]. by apply keeps_eq.
Qed.

Lemma quiet_activate t s : quiet (with_dt (Some t) s) (activateSession t s).
Proof. unfold activateSession. cbn zeta. eauto 20 using q_detach with quiet. Qed.

Lemma keeps_activate t s : keeps s (activateSession t s).
Proof. apply (keeps_trans _ (with_dt (Some t) s)); [by apply keeps_eq|apply keeps_quiet, quiet_activate]. Qed.

Lemma keeps_app m l s : keeps s (with_lives m (lives s ++ l) s).
Proof. intros t x Hx. exists x. split; [by apply lookup_app_l_Some|done]. Qed.

Lemma keeps_play f m pub tid s : keeps s (start_play f m pub tid s).
Proof.
  unfold start_play. destruct (build_seat _ _ _ _ _) as [d|e]; [|by apply keeps_eq].
  eapply keeps_trans; [apply keeps_app|]. eapply keeps_trans; [apply keeps_activate|].
  apply keeps_quiet, q_opening, quiet_refl.
Qed.

Lemma keeps_open f m pub x s : keeps s (after_open f m pub x s).
Proof. destruct x; by apply keeps_eq. Qed.

Lemma keeps_hello f m x s : keeps s (after_hello f m x s).
Proof.
  destruct x; cbn [after_hello]; try by apply keeps_eq. destruct (fromHex _) as [pub|e]; [|by apply keeps_eq].
  destruct (fl_alloc f) as [[mid tid]|]; [apply keeps_play|]. cbn zeta. destruct (mi_role m); [by apply keeps_eq|].
  eapply keeps_trans; [|apply keeps_await; intros; apply keeps_open]. by apply keeps_eq.
Qed.

Lemma keeps_task k a s : keeps s (run_task k a s).
Proof.
  destruct (starting k) as [[f o]|] eqn:Ek; [|by apply keeps_quiet, q_run_task, quiet_refl].
  assert (forall e, keeps s (task_failed k e s)) as Hf by (intros; apply keeps_quiet, q_task_failed, quiet_refl).
  destruct k; try discriminate Ek; destruct a; try apply Hf; try (by apply keeps_eq); cbn [run_task].
  - unfold after_connect. destruct (fl_alloc f0) as [[]|]; by apply keeps_eq.
  - unfold after_match. cbn zeta. eapply keeps_trans; [|apply keeps_await; intros; apply keeps_hello]. by apply keeps_eq.
  - apply keeps_hello.
  - eapply keeps_trans; [|apply keeps_play]. by apply keeps_eq.
  - apply keeps_open.
  - apply keeps_play.
Qed.

Lemma keeps_answer w a s : keeps s (answer_task w a s).
Proof.
  unfold answer_task. destruct (tasks s !! w); [|by apply keeps_eq].
  eapply keeps_trans; [|apply keeps_task]. by apply keeps_eq.
Qed.

Lemma keeps_resume b rs s : keeps s (resume b rs s).
Proof.
  unfold resume. destruct (mp s); [by apply keeps_eq|]. destruct (account s); [|by apply keeps_eq].
  destruct b; [|by apply keeps_eq]. cbn zeta.
  destruct rs as [|[d r] rs]; [apply keeps_quiet; eauto 10 using q_close with quiet|].
  eapply keeps_trans; [|apply keeps_quiet, q_ask; [done|apply quiet_refl]].
  eapply keeps_trans; [|apply keeps_activate]. intros t x Hx. exists x. split; [by apply lookup_app_l_Some|done].
Qed.

(** The events that start no match. *)
Lemma quiet_step s e :
  match e with FindMatch _ | EnterArenaMatch _ _ _ | Resume _ _ | Answer _ _ | PeerMsg _ _ => False | _ => True end ->
  quiet s (step s e).
Proof.
  intros He. destruct e; try done; cbn [step].
  - eauto with quiet.
  - unfold setIntent. cbn zeta. case_match; eauto using q_maybePropose with quiet.
  - unfold toggleAuto. eauto with quiet.
  - apply q_reset, quiet_refl.
  - apply q_leave, quiet_refl.
  - apply q_dispose, quiet_refl.
  - unfold on_frame. repeat case_match; eauto using q_on_seat with quiet.
  - repeat case_match; eauto using q_sync with quiet.
  - unfold on_grace. repeat case_match; eauto with quiet.
  - unfold on_timer. repeat case_match; eauto using q_propose_timer, q_reset with quiet.
Qed.

Lemma keeps_flow a keys s : keeps s (start_flow a keys s).
Proof.
  unfold start_flow. destruct (account s); [|by apply keeps_eq]. cbn zeta. apply keeps_eq.
  destruct a; still.
Qed.

Lemma step_keeps s e : keeps s (step s e).
Proof.
  destruct e; try (by apply keeps_quiet, quiet_step); cbn [step].
  - apply keeps_flow.
  - apply keeps_flow.
  - apply keeps_resume.
  - unfold on_answer. destruct (tasks s !! w); [|by apply keeps_eq]. case_match; [by apply keeps_eq|apply keeps_answer].
  - unfold on_peer. case_bool_decide; [by apply keeps_eq|]. destruct (inboxes s !! k); [|by apply keeps_eq].
    destruct (deliver m _) as [b [w|]]; [|by apply keeps_eq]. eapply keeps_trans; [|apply keeps_answer]. by apply keeps_eq.
Qed.

(** A session makes three kinds of call on a seat: a frame that came for it, a
    proposal at its turn, and its half of the close. *)
Definition allowed (s : PvpSession) (e : PvpEvent) (t : nat) (d : seat) (c : seat_call (State := State) (Move := Move)) : Prop :=
  match c with
  | CallFrame f => exists k, e = FrameIn k f /\ live_of k 0 (lives s) = Some t
  | CallPropose m ts =>
      dt s = Some t /\ role s = Some (turn (d_nonce d)) /\ has_pending d = false /\ isTerminal P (d_state d) = false
  | CallSettleRoot _ _ 0 => True
  | _ => False
  end.

Inductive seats_step (s : PvpSession) (e : PvpEvent) (s' : PvpSession) : Prop :=
  | SeatsSame : seats s' = seats s -> seats_step s e s'
  | SeatsNew w k o f m pub tid d : tasks s !! w = Some k -> starting k = Some (f, o) ->
      build_seat f m pub tid (default [] (early s !! fl_mp f)) = Ok d -> seats s' = seats s ++ [d] ->
      (exists l, lives s' !! length (lives s) = Some l /\ lv_role l = mi_role m) -> seats_step s e s'
  | SeatsRestored b d r rs : e = Resume b ((d, r) :: rs) -> seats s' = seats s ++ [d] -> seats_step s e s'
  | SeatsCall t d c : seats s !! t = Some d -> seats s' = <[t := do_call P c d]> (seats s) ->
      allowed s e t d c -> seats_step s e s'
  | SeatsReconciled t d : e = Reconciled t d -> seats s' = <[t := d]> (seats s) -> seats_step s e s'.

(** The same, for what is left of an async function. *)
Inductive seats_go (who : option Flow) (s s' : PvpSession) : Prop :=
  | GoSame : seats s' = seats s -> seats_go who s s'
  | GoNew f m pub tid d : who = Some f -> build_seat f m pub tid (default [] (early s !! fl_mp f)) = Ok d ->
      seats s' = seats s ++ [d] -> (exists l, lives s' !! length (lives s) = Some l /\ lv_role l = mi_role m) ->
      seats_go who s s'
  | GoSettle t d ts root : seats s !! t = Some d ->
      seats s' = <[t := do_call P (CallSettleRoot ts root 0) d]> (seats s) -> seats_go who s s'.

Lemma go_from who s0 s s' :
  seats s0 = seats s -> early s0 = early s -> seats_go who s0 s' -> seats_go who s s'.
Proof.
  intros E Ee [H|f m pub tid d Hw Hb H Hl|t d ts root Hd H]; rewrite E in *; rewrite ?Ee in *.
  - by apply GoSame.
  - eapply GoNew; [done..|]. replace (length (lives s)) with (length (lives s0)); [done|].
    rewrite <- !(length_map lv_seat). exact (f_equal length E).
  - by eapply GoSettle.
Qed.

Lemma go_await who k t later now s :
  (forall m s1, seats_go who s1 (now m s1)) -> seats_go who s (await_peer k t later now s).
Proof.
  intros Hn. unfold await_peer. destruct (wait t (next s) (inbox k s)) as [b [m|]]; [|by apply GoSame].
  eapply go_from; [| |apply Hn]; done.
Qed.

Lemma go_settle_half who t z m s : seats_go who s (settle_half t z m s).
Proof.
  unfold settle_half. destruct (lives s !! t) as [l|] eqn:El; [|by apply GoSame].
  destruct m as [| | |sig root|]; try by apply GoSame.
  destruct (let! r := fromHex root in let! g := fromHex sig in Ok (r, g)) as [[r g]|e];
    [|apply GoSame, seats_settle_failed].
  unfold coSignCloseFromPeerRoot, ebind.
  destruct (buildSettlementHalfWithRoot P z r 0 (lv_seat l)) as [d [half|e]] eqn:Eb; cbn [eget elift].
  - assert (seats (on_live (with_seat d) t s) = <[t := do_call P (CallSettleRoot z r 0) (lv_seat l)]> (seats s)) as Hs.
    { cbn [do_call]. rewrite Eb. cbn [fst]. apply seats_set. by apply lookup_lt_Some in El. }
    eapply (GoSettle _ _ _ t (lv_seat l) z r); [by rewrite seats_lookup, El|]. rewrite <- Hs.
    destruct (combineSettlementWithRoot _ _ _ _); [case_match|]; [done|apply seats_settle_done|apply seats_settle_failed].
  - eapply (GoSettle _ _ _ t (lv_seat l) z r); [by rewrite seats_lookup, El|].
    rewrite seats_settle_failed, seats_set by (by apply lookup_lt_Some in El). cbn [do_call]. by rewrite Eb.
Qed.

Lemma seats_await k t later now s :
  (forall m, same_seats (now m)) -> seats (await_peer k t later now s) = seats s.
Proof.
  intros Hn. unfold await_peer. destruct (wait t (next s) (inbox k s)) as [b [m|]]; [|done]. by rewrite Hn.
Qed.

Lemma seats_opening f m : same_seats (opening f m).
Proof.
  intros s. unfold opening. destruct (fl_alloc f); [apply seats_kick|]. destruct (mi_role m); [|by rewrite seats_kick].
  apply seats_await. intros _. apply seats_kick.
Qed.

Lemma go_start f m pub tid s : seats_go (Some f) s (start_play f m pub tid s).
Proof.
  unfold start_play. destruct (build_seat _ _ _ _ _) as [d|e] eqn:Eb; [|by apply GoSame].
  eapply (GoNew _ _ _ f m pub tid d); [done|done| |].
  - rewrite seats_opening, seats_activate. unfold seats. cbn [lives with_lives]. by rewrite map_app.
  - cbn zeta. set (l := {| lv_seat := d; lv_mp := fl_mp f; lv_role := mi_role m; lv_hooked := false;
      lv_attached := false; lv_watched := false; lv_settling := false |}).
    change (mi_role m) with (lv_role l). set (s1 := with_lives _ (lives s ++ [l]) s).
    assert (keeps s1 (opening f m (activateSession (length (lives s)) s1))) as Hk.
    { eapply keeps_trans; [apply keeps_activate|apply keeps_quiet, q_opening, quiet_refl]. }
    apply Hk. by apply list_lookup_middle.
Qed.

Lemma go_open who f m pub x s : seats_go who s (after_open f m pub x s).
Proof. destruct x; by apply GoSame. Qed.

Lemma go_hello f m x s : seats_go (Some f) s (after_hello f m x s).
Proof.
  destruct x; try by apply GoSame. cbn [after_hello]. destruct (fromHex _) as [pub|e]; [|by apply GoSame].
  destruct (fl_alloc f) as [[mid tid]|]; [apply go_start|]. cbn zeta. destruct (mi_role m); [by apply GoSame|].
  eapply go_from; [| |apply go_await; intros; apply go_open]; done.
Qed.

Lemma go_task k a s : seats_go (fst <$> starting k) s (run_task k a s).
Proof.
  assert (forall e, seats_go (fst <$> starting k) s (task_failed k e s)) as Hf.
  { intros e. destruct k; cbn [task_failed]; try (by apply GoSame); try (apply GoSame, seats_settle_failed).
    case_match; by apply GoSame. }
  destruct k, a; try apply Hf; try (by apply GoSame); cbn [run_task].
  - unfold after_connect. destruct (fl_alloc f) as [[]|]; by apply GoSame.
  - eapply go_from; [| |apply go_await; intros; apply go_hello]; done.
  - apply go_hello.
  - eapply go_from; [| |apply go_start]; done.
  - apply go_open.
  - apply go_start.
  - apply GoSame, seats_kick.
  - apply GoSame. by rewrite seats_arm, seats_kick.
  - unfold settle_created. case_match; [|by apply GoSame]. apply go_await. intros. apply go_settle_half.
  - apply go_settle_half.
  - apply GoSame, seats_settle_done.
  - apply GoSame, seats_settle_done.
Qed.

Lemma step_answer e w a s s0 :
  seats s0 = seats s -> early s0 = early s -> tasks s0 = tasks s -> seats_step s e (answer_task w a s0).
Proof.
  intros E Ee Et. unfold answer_task. rewrite Et. destruct (tasks s !! w) as [k|] eqn:Ek; [|by apply SeatsSame].
  set (s1 := with_tasks _ _ s0).
  assert (seats_go (fst <$> starting k) s (run_task k a s1)) as Hg by (eapply go_from; [| |apply go_task]; done).
  destruct Hg as [H|f m pub tid d Hw Hb H Hl|t d ts root Hd H].
  - by apply SeatsSame.
  - destruct (starting k) as [[f' o]|] eqn:Es; [|discriminate Hw]. injection Hw as ->. by eapply SeatsNew.
  - eapply SeatsCall; [exact Hd|exact H|done].
Qed.

Lemma seats_setIntent i : same_seats (setIntent i).
Proof. intros s. unfold setIntent. cbn zeta. case_match; [done|]. by rewrite seats_maybePropose. Qed.

Lemma step_resume b l s : seats_step s (Resume b l) (resume b l s).
Proof.
  unfold resume. destruct (mp s); [by apply SeatsSame|]. destruct (account s); [|by apply SeatsSame].
  destruct b; [|by apply SeatsSame]. cbn zeta.
  destruct l as [|[d r] l]; [apply SeatsSame; etransitivity; [apply seats_close|still]|].
  eapply SeatsRestored; [done|]. rewrite seats_ask, seats_activate. unfold seats.
  cbn [lives with_lives with_inboxes with_role with_mp with_clients say]. by rewrite map_app.
Qed.

Lemma step_flow e a keys s : seats_step s e (start_flow a keys s).
Proof.
  unfold start_flow. destruct (account s); [|by apply SeatsSame]. apply SeatsSame. unfold seats.
  destruct a; still.
Qed.

Lemma step_peer k m s : seats_step s (PeerMsg k m) (on_peer k m s).
Proof.
  unfold on_peer. case_bool_decide; [by apply SeatsSame|]. destruct (inboxes s !! k); [|by apply SeatsSame].
  destruct (deliver m _) as [b [w|]]; [|by apply SeatsSame]. by apply step_answer.
Qed.

Lemma live_of_lookup k i l t : live_of k i l = Some t -> (i <= t)%nat /\ exists x, l !! (t - i)%nat = Some x /\ lv_mp x = k.
Proof.
  revert i. induction l as [|x l IH]; intros i; [done|]. cbn [live_of].
  destruct (Nat.eqb_spec (lv_mp x) k) as [E|].
  - intros [= <-]. split; [lia|]. exists x. by rewrite Nat.sub_diag.
  - intros [Hle (y & Hy & Hk)]%IH. split; [lia|]. exists y. replace (t - i)%nat with (S (t - S i)) by lia. done.
Qed.

Lemma live_of_live k l t : live_of k 0 l = Some t -> exists x, l !! t = Some x.
Proof. intros [_ (x & Hx & _)]%live_of_lookup. rewrite Nat.sub_0_r in Hx. eauto. Qed.

Lemma seats_frame k f s : seats_step s (FrameIn k f) (on_frame k f s).
Proof.
  unfold on_frame. case_bool_decide; [by apply SeatsSame|].
  destruct (live_of k 0 (lives s)) as [t|] eqn:El; [|case_match; by apply SeatsSame].
  destruct (live_of_live _ _ _ El) as [l Hl]. destruct (seats_on_seat t (onFrame P f) s l Hl) as [Hs _].
  eapply (SeatsCall _ _ _ t (lv_seat l) (CallFrame f)); [by rewrite seats_lookup, Hl|exact Hs|]. by exists k.
Qed.

Lemma seats_intent s (b : bool) i : seats (if b then s else with_intent i s) = seats s.
Proof. by destruct b. Qed.

Lemma seats_propose e bot s s0 :
  seats s0 = seats s -> dt s0 = dt s -> role s0 = role s -> seats_step s e (on_propose_timer bot s0).
Proof.
  intros E Ed Er. unfold on_propose_timer.
  destruct (dt s0) as [t|] eqn:Edt; [|by apply SeatsSame]. destruct (role s0) as [r|] eqn:Ero; [|by apply SeatsSame].
  destruct (lives s0 !! t) as [l|] eqn:El; [|by apply SeatsSame].
  destruct (isTerminal P _) eqn:Et; [by apply SeatsSame|].
  destruct (party_eqb _ r) eqn:Etr; cbn [negb]; [|by apply SeatsSame]. apply party_eqb_spec in Etr.
  destruct (has_pending _) eqn:Ep; [by apply SeatsSame|]. cbn zeta.
  set (s1 := if sAuto s0 then s0 else _).
  assert (lives s1 = lives s0) as E1 by (unfold s1; by destruct (sAuto s0)).
  set (m := intentToMove spec r _).
  destruct (seats_on_seat t (propose P m 0) s1 l) as [Hs _]; [by rewrite E1|].
  assert (seats (fst (on_seat t (propose P m 0) s1)) = <[t := do_call P (CallPropose m 0) (lv_seat l)]> (seats s)) as Hs'.
  { rewrite Hs. unfold seats at 1. by rewrite E1, <- E. }
  eapply (SeatsCall _ _ _ t (lv_seat l) (CallPropose m 0)); [by rewrite <- E, seats_lookup, El| |].
  - rewrite <- Hs'. destruct (on_seat _ _ _) as [s2 [[]|err]]; [by rewrite seats_sync|done].
  - split_and!; [congruence|congruence|done|done].
Qed.

(** Every event makes at most one call on one seat, and only of these kinds. *)
Lemma step_seats s e : seats_step s e (step s e).
Proof.
  destruct e; cbn [step].
  - by apply SeatsSame.
  - apply step_flow.
  - apply step_flow.
  - apply step_resume.
  - apply SeatsSame, seats_setIntent.
  - by apply SeatsSame.
  - apply SeatsSame, seats_reset.
  - apply SeatsSame, seats_leave.
  - apply SeatsSame, seats_dispose.
  - unfold on_answer. destruct (tasks s !! w); [|by apply SeatsSame].
    case_match; [by apply SeatsSame|by apply step_answer].
  - apply step_peer.
  - apply seats_frame.
  - destruct (lives s !! t) as [l|] eqn:El; [|by apply SeatsSame].
    destruct (lv_attached l); [|by apply SeatsSame].
    eapply SeatsReconciled; [done|]. rewrite seats_sync, seats_set; [done|]. by apply lookup_lt_Some in El.
  - apply SeatsSame. unfold on_grace. repeat case_match; done.
  - unfold on_timer. destruct (list_find _ (armed s)) as [[i [h' []]]|] eqn:Ef; [| |by apply SeatsSame].
    + by apply seats_propose.
    + apply SeatsSame. by rewrite seats_reset.
Qed.

(** The session does not speak for the other seat. *)
Definition role_ok (s : PvpSession) (r : Party) : Prop := role s = None \/ role s = Some r.

(** Key pairs as [generateKeyPair] makes them. *)
Definition good_keys (k : KeyPair) : Prop := exists sk, keyPairFromSecret sk = Ok k.

Definition unengaged (s : PvpSession) : Prop :=
  dt s = None /\ forall w k, tasks s !! w = Some k -> starting k = None.

(** At most one match is being started, and none while one is played; the role
    of the session is that of its match. *)
Record steady (s : PvpSession) : Prop := {
  st_one : forall w1 w2 k1 k2, tasks s !! w1 = Some k1 -> tasks s !! w2 = Some k2 ->
    starting k1 <> None -> starting k2 <> None -> w1 = w2;
  st_start : forall w k f o, tasks s !! w = Some k -> starting k = Some (f, o) ->
    dt s = None /\ good_keys (fl_keys f) /\ (forall r, o = Some r -> role_ok s r);
  st_play : forall t, dt s = Some t -> exists l, lives s !! t = Some l /\ role_ok s (lv_role l)
}.

Lemma role_ok_quiet s s' r : quiet s s' -> role_ok s r -> role_ok s' r.
Proof. intros [_ [E|E] _ _] H; unfold role_ok; rewrite E; auto. Qed.

Lemma steady_quiet s s' : steady s -> quiet s s' -> steady s'.
Proof.
  intros [H1 H2 H3] Hq. pose proof (role_ok_quiet s s') as Hr. destruct Hq as [D R L T]. split.
  - intros w1 w2 k1 k2 E1 E2 S1 S2. eapply H1; eauto.
  - intros w k f o E S. destruct (H2 w k f o) as (Hd & Hk & Ho); [apply T; [done|congruence]|done|].
    split_and!; [destruct D as [D|D]; by rewrite D|done|]. intros r Er. apply Hr; [by split|auto].
  - intros t Ht. assert (dt s = Some t) as Hd by (destruct D as [D|D]; congruence).
    destruct (H3 t Hd) as (l & Hl & Ho). destruct (L t l Hl) as (l' & Hl' & E). exists l'. split; [done|].
    rewrite E. apply Hr; [by split|done].
Qed.

Lemma unengaged_quiet s s' : unengaged s -> quiet s s' -> unengaged s'.
Proof.
  intros [Hd Ht] [D _ _ T]. split; [destruct D as [D|D]; congruence|].
  intros w k E. destruct (starting k) eqn:S; [|done]. rewrite (Ht w k) in S; [done|]. apply T; congruence.
Qed.

Lemma unengaged_steady s : unengaged s -> steady s.
Proof.
  intros [Hd Ht]. split; [|intros w k f o E S; by rewrite (Ht w k E) in S|by rewrite Hd].
  intros w1 w2 k1 k2 E1 _ S1. by rewrite (Ht w1 k1 E1) in S1.
Qed.

(** A match is being started. *)
Lemma steady_start s w n k f o :
  unengaged s -> starting k = Some (f, o) -> good_keys (fl_keys f) -> (forall r, o = Some r -> role_ok s r) ->
  steady (with_tasks (<[w:=k]> (tasks s)) n s).
Proof.
  intros [Hd Ht] Hk Hg Ho.
  assert (forall w' k', <[w:=k]> (tasks s) !! w' = Some k' -> starting k' <> None -> w' = w /\ k' = k) as Hone.
  { intros w' k'. destruct (decide (w' = w)) as [->|].
    - rewrite lookup_insert_eq. by intros [= <-].
    - rewrite lookup_insert_ne by done. intros E S. by rewrite (Ht _ _ E) in S. }
  split; cbn [tasks dt lives role with_tasks].
  - intros w1 w2 k1 k2 E1 E2 S1 S2. destruct (Hone _ _ E1 S1), (Hone _ _ E2 S2). congruence.
  - intros w' k' f' o' E S. destruct (Hone _ _ E) as [-> ->]; [congruence|].
    rewrite Hk in S. injection S as <- <-. done.
  - by rewrite Hd.
Qed.

Lemma steady_ask x s k f o :
  unengaged s -> starting k = Some (f, o) -> good_keys (fl_keys f) -> (forall r, o = Some r -> role_ok s r) ->
  steady (ask x k s).
Proof.
  intros. apply (steady_quiet (with_tasks (<[next s:=k]> (tasks s)) (S (next s)) s)); [by eapply steady_start|].
  by apply q_say, quiet_refl.
Qed.

Lemma steady_await i t later now s f o :
  unengaged s -> starting later = Some (f, o) -> good_keys (fl_keys f) -> (forall r, o = Some r -> role_ok s r) ->
  (forall m s1, unengaged s1 -> role s1 = role s -> steady (now m s1)) ->
  steady (await_peer i t later now s).
Proof.
  intros Hu Hl Hg Ho Hn. unfold await_peer. destruct (wait t (next s) (inbox i s)) as [b [m|]].
  - apply Hn; [|done]. eapply unengaged_quiet; [exact Hu|]. apply q_inboxes, quiet_refl.
  - eapply (steady_start (with_inboxes (<[i:=b]> (inboxes s)) s)); [|done..].
    eapply unengaged_quiet; [exact Hu|]. apply q_inboxes, quiet_refl.
Qed.

(** A match is being played. *)
Lemma steady_activate t s l :
  unengaged s -> lives s !! t = Some l -> role_ok s (lv_role l) -> steady (activateSession t s).
Proof.
  intros [Hd Ht] Hl Hr. apply (steady_quiet (with_dt (Some t) s)).
  - split; cbn [dt role lives tasks with_dt].
    + intros w1 w2 k1 k2 E1 _ S1. by rewrite (Ht w1 k1 E1) in S1.
    + intros w k f o E S. by rewrite (Ht w k E) in S.
    + intros t' [= <-]. by exists l.
  - apply quiet_activate.
Qed.

Lemma steady_play f m pub tid s :
  unengaged s -> role_ok s (mi_role m) -> steady (start_play f m pub tid s).
Proof.
  intros Hu Hr. unfold start_play. destruct (build_seat _ _ _ _ _) as [d|e].
  - eapply steady_quiet; [|apply q_opening, quiet_refl]. eapply steady_activate; [exact Hu|by apply list_lookup_middle|exact Hr].
  - eapply steady_quiet; [by apply unengaged_steady|apply q_fail, quiet_refl].
Qed.

Lemma steady_open f m pub x s :
  unengaged s -> good_keys (fl_keys f) -> role_ok s (mi_role m) -> steady (after_open f m pub x s).
Proof.
  intros Hu Hg Hr. destruct x; cbn [after_open]; try by apply unengaged_steady.
  eapply steady_ask; [done|done|done|]. by intros r [= <-].
Qed.

Lemma steady_hello f m x s :
  unengaged s -> good_keys (fl_keys f) -> role_ok s (mi_role m) -> steady (after_hello f m x s).
Proof.
  intros Hu Hg Hr. destruct x; cbn [after_hello]; try by apply unengaged_steady.
  destruct (fromHex _) as [pub|e].
  2:{ eapply steady_quiet; [by apply unengaged_steady|apply q_fail, quiet_refl]. }
  destruct (fl_alloc f) as [[mid tid]|]; [by apply steady_play|]. cbn zeta.
  assert (quiet s (emit (with_status Funding s))) as Hq by eauto with quiet.
  destruct (mi_role m) eqn:Er.
  - eapply steady_ask; [by eapply unengaged_quiet|done|done|].
    intros r [= <-]. rewrite Er. by eapply role_ok_quiet.
  - eapply steady_await; [by eapply unengaged_quiet|done|done| |].
    + intros r [= <-]. rewrite Er. by eapply role_ok_quiet.
    + intros m' s1 Hu1 E1. apply steady_open; [done|done|]. unfold role_ok in *. rewrite E1, Er. done.
Qed.

Lemma steady_match f m s : unengaged s -> good_keys (fl_keys f) -> steady (after_match f m s).
Proof.
  intros Hu Hg. unfold after_match. cbn zeta.
  set (s1 := say _ _).
  assert (unengaged s1) as Hu1 by (destruct Hu; by split).
  assert (role s1 = Some (mi_role m)) as Hr1 by done.
  eapply steady_await; [done|done|done| |].
  - intros r [= <-]. by right.
  - intros m' s2 Hu2 E2. apply steady_hello; [done|done|]. right. by rewrite E2.
Qed.

Lemma steady_connect f s : unengaged s -> good_keys (fl_keys f) -> steady (after_connect f s).
Proof.
  intros Hu Hg. unfold after_connect. destruct (fl_alloc f) as [[]|]; by eapply steady_ask.
Qed.

Lemma steady_flow a keys s : unengaged s -> good_keys keys -> steady (start_flow a keys s).
Proof.
  intros Hu Hg. unfold start_flow. destruct (account s).
  2:{ eapply steady_quiet; [by apply unengaged_steady|eauto with quiet]. }
  cbn zeta. eapply steady_ask; [|done|done|done].
  eapply unengaged_quiet; [exact Hu|]. destruct a; eauto 10 with quiet.
Qed.

Lemma steady_task k a s f o :
  starting k = Some (f, o) -> unengaged s -> good_keys (fl_keys f) -> (forall r, o = Some r -> role_ok s r) ->
  steady (run_task k a s).
Proof.
  intros Hk Hu Hg Ho. pose proof (unengaged_steady s Hu) as Hs.
  assert (forall e, steady (task_failed k e s)) as Hf.
  { intros e. eapply steady_quiet; [exact Hs|]. apply q_task_failed, quiet_refl. }
  destruct k; try discriminate Hk; injection Hk as <- <-; destruct a; try apply Hf; try exact Hs; cbn [run_task].
  - by apply steady_connect.
  - by apply steady_match.
  - apply steady_hello; auto.
  - apply steady_play; [|by apply Ho]. destruct Hu; by split.
  - apply steady_open; auto.
  - apply steady_play; auto.
Qed.

Lemma steady_answer w a s : steady s -> steady (answer_task w a s).
Proof.
  intros Hs. unfold answer_task. destruct (tasks s !! w) as [k|] eqn:Ek; [|done].
  assert (quiet s (with_tasks (delete w (tasks s)) (next s) s)) as Hq by eauto with quiet.
  destruct (starting k) as [[f o]|] eqn:Es.
  - destruct (st_start s Hs w k f o Ek Es) as (Hd & Hg & Ho).
    eapply steady_task; [exact Es| |done|exact Ho]. split; [done|]. cbn [tasks with_tasks].
    intros w' k' [Hne Hk']%lookup_delete_Some. destruct (starting k') eqn:S'; [|done].
    destruct Hne. eapply (st_one s Hs); eauto; congruence.
  - eapply steady_quiet; [exact Hs|]. by apply q_run_task.
Qed.

(** Matches are started one at a time, with keys of [generateKeyPair]. *)
Definition calm (s : PvpSession) (e : PvpEvent) : Prop :=
  match e with
  | FindMatch keys | EnterArenaMatch _ _ keys => unengaged s /\ good_keys keys
  | Resume _ _ => unengaged s
  | _ => True
  end.

Lemma steady_resume b rs s : unengaged s -> steady (resume b rs s).
Proof.
  intros Hu. pose proof (unengaged_steady s Hu) as Hs. unfold resume.
  destruct (mp s); [done|]. destruct (account s); [|done]. destruct b; [|done]. cbn zeta.
  destruct rs as [|[d r] rs]; [eapply steady_quiet; [exact Hs|eauto 10 using q_close with quiet]|].
  eapply steady_quiet; [|apply q_ask; [done|apply quiet_refl]].
  eapply steady_activate; [by destruct Hu|by apply list_lookup_middle|by right].
Qed.

Lemma session_steady s e : steady s -> calm s e -> steady (step s e).
Proof.
  intros Hs Hc. destruct e; try (by eapply steady_quiet; [exact Hs|apply quiet_step]); cbn [step calm] in *.
  - destruct Hc. by apply steady_flow.
  - destruct Hc. by apply steady_flow.
  - by apply steady_resume.
  - unfold on_answer. destruct (tasks s !! w); [|done]. case_match; [done|by apply steady_answer].
  - unfold on_peer. case_bool_decide; [done|]. destruct (inboxes s !! k); [|done].
    destruct (deliver m _) as [b [w|]]; [apply steady_answer|]; (eapply steady_quiet; [exact Hs|eauto with quiet]).
Qed.

(** ** What the user sees, and the timers *)

Definition snapshot_of (s : PvpSession) : PvpSnapshot :=
  {| sn_status := status s; sn_role := role s; sn_stake := stake spec; sn_auto := sAuto s;
     sn_view := view s; sn_winner := winner s; sn_error := error s |}.

(** The snapshot React reads is that of the session's fields. *)
Definition shown (s : PvpSession) : Prop := snap s = snapshot_of s.

Lemma shown_eq s s' : snap s' = snap s -> snapshot_of s' = snapshot_of s -> shown s -> shown s'.
Proof. unfold shown. congruence. Qed.

Lemma shown_emit s : shown (emit s).
Proof. done. Qed.
Lemma shown_fail e s : shown (fail e s).
Proof. done. Qed.
Lemma shown_sync s : shown (sync s).
Proof. apply shown_emit. Qed.
Lemma shown_kick s : shown (kick s).
Proof. apply shown_sync. Qed.
Lemma shown_reset s : shown (reset s).
Proof. apply shown_emit. Qed.
Lemma shown_activate t s : shown (activateSession t s).
Proof. apply shown_sync. Qed.
Lemma shown_account a s : shown s -> shown (with_account a s).
Proof. by apply shown_eq. Qed.
Lemma shown_mp m s : shown s -> shown (with_mp m s).
Proof. by apply shown_eq. Qed.
Lemma shown_dt m s : shown s -> shown (with_dt m s).
Proof. by apply shown_eq. Qed.
Lemma shown_detach_field m s : shown s -> shown (with_detach m s).
Proof. by apply shown_eq. Qed.
Lemma shown_timer h l n s : shown s -> shown (with_timer h l n s).
Proof. by apply shown_eq. Qed.
Lemma shown_watchdog h l n s : shown s -> shown (with_watchdog h l n s).
Proof. by apply shown_eq. Qed.
Lemma shown_intent i s : shown s -> shown (with_intent i s).
Proof. by apply shown_eq. Qed.
Lemma shown_settle t b s : shown s -> shown (with_settle t b s).
Proof. by apply shown_eq. Qed.
Lemma shown_clients n l s : shown s -> shown (with_clients n l s).
Proof. by apply shown_eq. Qed.
Lemma shown_inboxes m s : shown s -> shown (with_inboxes m s).
Proof. by apply shown_eq. Qed.
Lemma shown_lives m l s : shown s -> shown (with_lives m l s).
Proof. by apply shown_eq. Qed.
Lemma shown_tasks m n s : shown s -> shown (with_tasks m n s).
Proof. by apply shown_eq. Qed.
Lemma shown_say x s : shown s -> shown (say x s).
Proof. by apply shown_eq. Qed.
Lemma shown_live f t s : shown s -> shown (on_live f t s).
Proof. by apply shown_eq. Qed.
Lemma shown_ask x k s : shown s -> shown (ask x k s).
Proof. by apply shown_eq. Qed.

Create HintDb shown.
#[local] Hint Resolve shown_emit shown_fail shown_sync shown_kick shown_reset shown_activate shown_account shown_mp
  shown_dt shown_detach_field shown_timer shown_watchdog shown_intent shown_settle shown_clients shown_inboxes
  shown_lives shown_tasks shown_say shown_live shown_ask : shown.

Ltac shown f := intros; unfold f; cbn zeta; repeat case_match; auto 20 with shown.

Lemma shown_clear s : shown s -> shown (clearProposeTimer s).
Proof. shown clearProposeTimer. Qed.
Lemma shown_clear_watchdog s : shown s -> shown (clearResumeWatchdog s).
Proof. shown clearResumeWatchdog. Qed.
#[local] Hint Resolve shown_clear shown_clear_watchdog : shown.
Lemma shown_maybePropose s : shown s -> shown (maybePropose s).
Proof. shown maybePropose. Qed.
Lemma shown_detach s : shown s -> shown (detach s).
Proof. shown detach. Qed.
Lemma shown_close s : shown s -> shown (close_mp s).
Proof. shown close_mp. Qed.
#[local] Hint Resolve shown_maybePropose shown_detach shown_close : shown.
Lemma shown_dispose s : shown s -> shown (dispose s).
Proof. shown dispose. Qed.
Lemma shown_settle_done s : shown (settle_done s).
Proof. shown settle_done. Qed.
Lemma shown_settle_failed e s : shown (settle_failed e s).
Proof. shown settle_failed. Qed.
#[local] Hint Resolve shown_dispose shown_settle_done shown_settle_failed : shown.
Lemma shown_triggerSettle t b s : shown s -> shown (triggerSettle t b s).
Proof. shown triggerSettle. Qed.
#[local] Hint Resolve shown_triggerSettle : shown.
Lemma shown_leave s : shown s -> shown (leave s).
Proof. shown leave. Qed.
Lemma shown_confirmed t s : shown s -> shown (on_confirmed t s).
Proof. shown on_confirmed. Qed.
#[local] Hint Resolve shown_leave shown_confirmed : shown.

Lemma shown_effects t es s : shown s -> shown (fold_left (on_effect t) es s).
Proof.
  revert s. induction es as [|e es IH]; intros s H; [done|]. apply IH.
  destruct e; cbn [on_effect]; repeat case_match; auto with shown.
Qed.

Lemma shown_on_seat t m s : shown s -> shown (fst (on_seat t m s)).
Proof.
  intros H. unfold on_seat. destruct (lives s !! t) as [l|]; [|done]. destruct (m (lv_seat l)).
  by apply shown_effects, shown_live.
Qed.

Lemma shown_await k t later now s :
  (forall m s1, shown s1 -> shown (now m s1)) -> shown s -> shown (await_peer k t later now s).
Proof.
  intros Hn H. unfold await_peer. destruct (wait t (next s) (inbox k s)) as [b [m|]]; auto with shown.
Qed.
#[local] Hint Resolve shown_on_seat shown_await : shown.

Lemma shown_propose_timer bot s : shown s -> shown (on_propose_timer bot s).
Proof.
  intros H. unfold on_propose_timer. cbn zeta. repeat (case_match; [|done]). repeat case_match; try done.
  all: match goal with H : on_seat ?t ?m ?x = (?y, _) |- _ =>
         assert (shown (fst (on_seat t m x))) as Hy by auto with shown; rewrite H in Hy; cbn [fst] in Hy end.
  all: auto with shown.
Qed.

Lemma shown_opening f m s : shown s -> shown (opening f m s).
Proof. shown opening. Qed.
Lemma shown_play f m pub tid s : shown (start_play f m pub tid s).
Proof. unfold start_play. case_match; [apply shown_opening, shown_activate|apply shown_fail]. Qed.
Lemma shown_open f m pub x s : shown s -> shown (after_open f m pub x s).
Proof. shown after_open. Qed.
#[local] Hint Resolve shown_propose_timer shown_opening shown_play shown_open : shown.
Lemma shown_hello f m x s : shown s -> shown (after_hello f m x s).
Proof. shown after_hello. Qed.
#[local] Hint Resolve shown_hello : shown.
Lemma shown_match f m s : shown (after_match f m s).
Proof. unfold after_match. cbn zeta. auto 20 with shown. Qed.
Lemma shown_connect f s : shown s -> shown (after_connect f s).
Proof. shown after_connect. Qed.
Lemma shown_settle_half t z m s : shown s -> shown (settle_half t z m s).
Proof. shown settle_half. Qed.
#[local] Hint Resolve shown_match shown_connect shown_settle_half : shown.
Lemma shown_settle_created t z s : shown s -> shown (settle_created t z s).
Proof. shown settle_created. Qed.
Lemma shown_arm t s : shown s -> shown (armResumeWatchdog t s).
Proof. intros H. unfold armResumeWatchdog. cbn zeta. destruct (lives s !! t); [|done]. case_match; auto 10 with shown. Qed.
Lemma shown_task_failed k e s : shown s -> shown (task_failed k e s).
Proof. intros H. destruct k; cbn [task_failed]; repeat case_match; auto with shown. Qed.
#[local] Hint Resolve shown_settle_created shown_arm shown_task_failed : shown.
Lemma shown_task k a s : shown s -> shown (run_task k a s).
Proof. intros H. destruct k, a; cbn [run_task]; auto 10 with shown. Qed.
Lemma shown_answer w a s : shown s -> shown (answer_task w a s).
Proof. unfold answer_task. case_match; auto using shown_task with shown. Qed.
#[local] Hint Resolve shown_answer : shown.
Lemma shown_flow a keys s : shown (start_flow a keys s).
Proof. unfold start_flow. case_match; [|apply shown_emit]. cbn zeta. auto 10 with shown. Qed.

Lemma step_shown s e : shown s -> shown (step s e).
Proof.
  intros H. destruct e; cbn [step].
  - auto with shown.
  - apply shown_flow.
  - apply shown_flow.
  - shown resume.
  - shown setIntent.
  - apply shown_emit.
  - apply shown_reset.
  - auto with shown.
  - auto with shown.
  - shown on_answer.
  - shown on_peer.
  - shown on_frame.
  - repeat case_match; auto with shown.
  - shown on_grace.
  - shown on_timer.
Qed.

(** What every handler preserves: an invariant that only the timers and the calls
    can break. *)
Class Preserved (I : PvpSession -> Prop) : Prop := {
  pr_eq s s' : proposeTimer s' = proposeTimer s -> resumeWatchdog s' = resumeWatchdog s -> armed s' = armed s ->
    (next s <= next s')%nat -> calls s' = calls s -> I s -> I s';
  pr_say x s : (forall k sig root, x <> SendPeer k (PSettleHalf sig root)) -> I s -> I (say x s);
  pr_clear s : I s -> I (clearProposeTimer s);
  pr_clear_watchdog s : I s -> I (clearResumeWatchdog s);
  pr_maybePropose s : I s -> I (maybePropose s);
  pr_arm t s : I s -> I (armResumeWatchdog t s);
  pr_fire h s : (h, ProposeAlarm) ∈ armed s -> I s -> I (with_timer None (disarm h (armed s)) (next s) s);
  pr_fire_watchdog h tid s : (h, WatchdogAlarm tid) ∈ armed s -> I s ->
    I (with_watchdog None (disarm h (armed s)) (next s) s)
}.

Section Preserved.
Context (I : PvpSession -> Prop) `{!Preserved I}.

Lemma pr_account a s : I s -> I (with_account a s).
Proof. by apply pr_eq. Qed.
Lemma pr_status x s : I s -> I (with_status x s).
Proof. by apply pr_eq. Qed.
Lemma pr_role r s : I s -> I (with_role r s).
Proof. by apply pr_eq. Qed.
Lemma pr_board v w s : I s -> I (with_board v w s).
Proof. by apply pr_eq. Qed.
Lemma pr_error e s : I s -> I (with_error e s).
Proof. by apply pr_eq. Qed.
Lemma pr_mp m s : I s -> I (with_mp m s).
Proof. by apply pr_eq. Qed.
Lemma pr_dt m s : I s -> I (with_dt m s).
Proof. by apply pr_eq. Qed.
Lemma pr_detach_field m s : I s -> I (with_detach m s).
Proof. by apply pr_eq. Qed.
Lemma pr_intent i s : I s -> I (with_intent i s).
Proof. by apply pr_eq. Qed.
Lemma pr_settle t b s : I s -> I (with_settle t b s).
Proof. by apply pr_eq. Qed.
Lemma pr_clients n l s : I s -> I (with_clients n l s).
Proof. by apply pr_eq. Qed.
Lemma pr_inboxes m s : I s -> I (with_inboxes m s).
Proof. by apply pr_eq. Qed.
Lemma pr_lives m l s : I s -> I (with_lives m l s).
Proof. by apply pr_eq. Qed.
Lemma pr_auto b m s : I s -> I (with_auto b m s).
Proof. by apply pr_eq. Qed.
Lemma pr_snap x s : I s -> I (with_snap x s).
Proof. by apply pr_eq. Qed.
Lemma pr_live f t s : I s -> I (on_live f t s).
Proof. by apply pr_eq. Qed.
Lemma pr_emit s : I s -> I (emit s).
Proof. intros H. apply pr_say; [done|]. by apply pr_snap. Qed.
Lemma pr_forget m s : I s -> I (with_tasks m (next s) s).
Proof. by apply pr_eq. Qed.
Lemma pr_task m s : I s -> I (with_tasks m (S (next s)) s).
Proof. apply pr_eq; try done. cbn [next with_tasks]. lia. Qed.
Lemma pr_ask x k s : (forall w i sig root, x w <> SendPeer i (PSettleHalf sig root)) -> I s -> I (ask x k s).
Proof. intros Hx H. apply pr_say; [done|]. by apply pr_task. Qed.

Lemma in_say x s : (forall k sig root, x <> SendPeer k (PSettleHalf sig root)) -> I s -> I (say x s).
Proof. apply pr_say. Qed.
Lemma in_clear s : I s -> I (clearProposeTimer s).
Proof. apply pr_clear. Qed.
Lemma in_clear_watchdog s : I s -> I (clearResumeWatchdog s).
Proof. apply pr_clear_watchdog. Qed.
Lemma in_maybePropose s : I s -> I (maybePropose s).
Proof. apply pr_maybePropose. Qed.
Lemma in_arm t s : I s -> I (armResumeWatchdog t s).
Proof. apply pr_arm. Qed.

Create HintDb preserved.
#[local] Hint Resolve pr_account pr_status pr_role pr_board pr_error pr_mp pr_dt pr_detach_field pr_intent pr_settle pr_clients pr_inboxes pr_lives pr_auto pr_snap in_say pr_live pr_emit pr_forget pr_task pr_ask in_clear in_clear_watchdog in_maybePropose in_arm : preserved.
#[local] Hint Extern 1 (_ <> _) => discriminate : preserved.

Ltac preserved f := intros; unfold f; cbn zeta; repeat case_match; auto 20 with preserved.

Lemma pr_fail e s : I s -> I (fail e s).
Proof. preserved fail. Qed.
Lemma pr_sync s : I s -> I (sync s).
Proof. preserved sync. Qed.
Lemma pr_detach s : I s -> I (detach s).
Proof. preserved detach. Qed.
Lemma pr_close s : I s -> I (close_mp s).
Proof. preserved close_mp. Qed.
#[local] Hint Resolve pr_fail pr_sync pr_detach pr_close : preserved.
Lemma pr_reset s : I s -> I (reset s).
Proof. preserved reset. Qed.
Lemma pr_dispose s : I s -> I (dispose s).
Proof. preserved dispose. Qed.
Lemma pr_kick s : I s -> I (kick s).
Proof. preserved kick. Qed.
#[local] Hint Resolve pr_reset pr_dispose pr_kick : preserved.
Lemma pr_settle_done s : I s -> I (settle_done s).
Proof. preserved settle_done. Qed.
Lemma pr_settle_failed e s : I s -> I (settle_failed e s).
Proof. preserved settle_failed. Qed.
#[local] Hint Resolve pr_settle_done pr_settle_failed : preserved.
Lemma pr_triggerSettle t b s : I s -> I (triggerSettle t b s).
Proof. preserved triggerSettle. Qed.
#[local] Hint Resolve pr_triggerSettle : preserved.
Lemma pr_leave s : I s -> I (leave s).
Proof. preserved leave. Qed.
Lemma pr_confirmed t s : I s -> I (on_confirmed t s).
Proof. preserved on_confirmed. Qed.
Lemma pr_activate t s : I s -> I (activateSession t s).
Proof. preserved activateSession. Qed.
#[local] Hint Resolve pr_leave pr_confirmed pr_activate : preserved.

Lemma pr_effects t es s : I s -> I (fold_left (on_effect t) es s).
Proof.
  revert s. induction es as [|e es IH]; intros s H; [done|]. apply IH.
  destruct e; cbn [on_effect]; repeat case_match; auto with preserved.
Qed.

Lemma pr_on_seat t m s : I s -> I (fst (on_seat t m s)).
Proof.
  intros H. unfold on_seat. destruct (lives s !! t) as [l|]; [|done]. destruct (m (lv_seat l)).
  by apply pr_effects, pr_live.
Qed.

Lemma pr_await k t later now s :
  (forall m s1, I s1 -> I (now m s1)) -> I s -> I (await_peer k t later now s).
Proof.
  intros Hn H. unfold await_peer. destruct (wait t (next s) (inbox k s)) as [b [m|]]; [auto with preserved|].
  apply (pr_task _ (with_inboxes (<[k:=b]> (inboxes s)) s)). auto with preserved.
Qed.
#[local] Hint Resolve pr_on_seat pr_await : preserved.

Lemma pr_propose_timer bot s : I s -> I (on_propose_timer bot s).
Proof.
  intros H. unfold on_propose_timer. cbn zeta. repeat (case_match; [|done]). repeat case_match; try done.
  all: match goal with H : on_seat ?t ?m ?x = (?y, _) |- _ =>
         assert (I (fst (on_seat t m x))) as Hy by auto with preserved; rewrite H in Hy; cbn [fst] in Hy end.
  all: auto with preserved.
Qed.

Lemma pr_opening f m s : I s -> I (opening f m s).
Proof. preserved opening. Qed.
#[local] Hint Resolve pr_propose_timer pr_opening : preserved.
Lemma pr_play f m pub tid s : I s -> I (start_play f m pub tid s).
Proof. intros H. unfold start_play. case_match; [|by apply pr_fail]. apply pr_opening, pr_activate. auto with preserved. Qed.
Lemma pr_open f m pub x s : I s -> I (after_open f m pub x s).
Proof. preserved after_open. Qed.
#[local] Hint Resolve pr_play pr_open : preserved.
Lemma pr_hello f m x s : I s -> I (after_hello f m x s).
Proof. preserved after_hello. Qed.
#[local] Hint Resolve pr_hello : preserved.
Lemma pr_match f m s : I s -> I (after_match f m s).
Proof. preserved after_match. Qed.
Lemma pr_connect f s : I s -> I (after_connect f s).
Proof. preserved after_connect. Qed.
Lemma pr_settle_half t z m s : I s -> I (settle_half t z m s).
Proof. preserved settle_half. Qed.
#[local] Hint Resolve pr_match pr_connect pr_settle_half : preserved.
Lemma pr_settle_created t z s : I s -> I (settle_created t z s).
Proof. preserved settle_created. Qed.
Lemma pr_task_failed k e s : I s -> I (task_failed k e s).
Proof. intros H. destruct k; cbn [task_failed]; repeat case_match; auto with preserved. Qed.
#[local] Hint Resolve pr_settle_created pr_task_failed : preserved.
Lemma pr_run_task k a s : I s -> I (run_task k a s).
Proof. intros H. destruct k, a; cbn [run_task]; auto 10 with preserved. Qed.
Lemma pr_answer w a s : I s -> I (answer_task w a s).
Proof. unfold answer_task. case_match; auto using pr_run_task with preserved. Qed.
#[local] Hint Resolve pr_answer : preserved.
Lemma pr_flow a keys s : I s -> I (start_flow a keys s).
Proof. preserved start_flow. Qed.

Lemma pr_on_timer h bot s : I s -> I (on_timer h bot s).
Proof.
  intros H. unfold on_timer. destruct (list_find _ (armed s)) as [[i [h' a]]|] eqn:Ef; [|done].
  apply list_find_Some in Ef as (Hin%list_elem_of_lookup_2 & Eh & _). cbn in Eh. subst h'. destruct a.
  - apply pr_propose_timer. by apply pr_fire.
  - apply pr_reset, pr_say; [done|]. by eapply pr_fire_watchdog.
Qed.

Lemma session_preserves s e : I s -> I (step s e).
Proof.
  intros H. destruct e; cbn [step]; try by auto using pr_flow, pr_on_timer with preserved.
  - apply pr_flow. done.
  - by apply pr_flow.
  - preserved resume.
  - preserved setIntent.
  - preserved toggleAuto.
  - preserved on_answer.
  - preserved on_peer.
  - preserved on_frame.
  - repeat case_match; auto with preserved.
  - preserved on_grace.
Qed.

End Preserved.

(** A timer that is armed is held by the session, and armed once. *)
Record timed (s : PvpSession) : Prop := {
  tm_held : forall h a, (h, a) ∈ armed s -> (h < next s)%nat /\
    match a with ProposeAlarm => proposeTimer s = Some h | WatchdogAlarm _ => resumeWatchdog s = Some h end;
  tm_once : NoDup (map fst (armed s))
}.

Lemma timed_eq s s' :
  proposeTimer s' = proposeTimer s -> resumeWatchdog s' = resumeWatchdog s -> armed s' = armed s ->
  (next s <= next s')%nat -> timed s -> timed s'.
Proof.
  intros E1 E2 E3 E4 [H1 H2]. split; rewrite ?E1, ?E2, ?E3; try done. intros h a [? ?]%H1. split; [lia|done].
Qed.

Lemma disarm_in h x l : x ∈ disarm h l <-> x ∈ l /\ fst x <> h.
Proof. unfold disarm. rewrite !list_elem_of_In, filter_In, negb_true_iff, Nat.eqb_neq. done. Qed.

Lemma disarm_nodup h l : NoDup (map fst l) -> NoDup (map fst (disarm h l)).
Proof.
  induction l as [|x l IH]; [done|]. cbn [map]. intros [Hn Hl]%NoDup_cons. unfold disarm. cbn [List.filter].
  case_match; [|by apply IH]. cbn [map]. apply NoDup_cons. split; [|by apply IH]. intros Hin. apply Hn.
  apply list_elem_of_In, in_map_iff in Hin as (y & <- & [Hy _]%filter_In). apply list_elem_of_In, in_map, Hy.
Qed.

(** The timer that fires, or is cleared. *)
Lemma timed_disarm_propose h s :
  timed s -> proposeTimer s = Some h -> timed (with_timer None (disarm h (armed s)) (next s) s).
Proof.
  intros [H1 H2] E. split; cbn [armed next proposeTimer resumeWatchdog with_timer]; [|by apply disarm_nodup].
  intros h' a [[Hlt Ha]%H1 Hne]%disarm_in. split; [done|]. destruct a; [|done]. cbn in Hne. congruence.
Qed.

Lemma timed_disarm_watchdog h s :
  timed s -> resumeWatchdog s = Some h -> timed (with_watchdog None (disarm h (armed s)) (next s) s).
Proof.
  intros [H1 H2] E. split; cbn [armed next proposeTimer resumeWatchdog with_watchdog]; [|by apply disarm_nodup].
  intros h' a [[Hlt Ha]%H1 Hne]%disarm_in. split; [done|]. destruct a; [done|]. cbn in Hne. congruence.
Qed.

Lemma timed_clear s : timed s -> timed (clearProposeTimer s) /\ proposeTimer (clearProposeTimer s) = None.
Proof. unfold clearProposeTimer. destruct (proposeTimer s) eqn:E; [|done]. by split; [apply timed_disarm_propose|]. Qed.

Lemma timed_clear_watchdog s :
  timed s -> timed (clearResumeWatchdog s) /\ resumeWatchdog (clearResumeWatchdog s) = None.
Proof. unfold clearResumeWatchdog. destruct (resumeWatchdog s) eqn:E; [|done]. by split; [apply timed_disarm_watchdog|]. Qed.

Lemma armed_fresh a s : timed s -> NoDup (map fst (armed s ++ [(next s, a)])).
Proof.
  intros [H1 H2]. rewrite map_app. apply NoDup_app. split_and!; [done| |apply NoDup_singleton].
  intros h ([h' b] & <- & Hin%list_elem_of_In)%list_elem_of_In%in_map_iff Heq%list_elem_of_singleton.
  apply H1 in Hin as [Hlt _]. cbn in *. lia.
Qed.

(** Arming a timer when the session holds none of its kind. *)
Lemma timed_arm_propose s :
  timed s -> proposeTimer s = None ->
  timed (with_timer (Some (next s)) (armed s ++ [(next s, ProposeAlarm)]) (S (next s)) s).
Proof.
  intros Ht E. split; cbn [armed next proposeTimer resumeWatchdog with_timer]; [|by apply armed_fresh].
  destruct Ht as [H1 H2]. intros h a [[Hlt Ha]%H1|[= -> ->]%list_elem_of_singleton]%elem_of_app.
  - split; [lia|]. destruct a; [congruence|done].
  - split; [lia|done].
Qed.

Lemma timed_arm_watchdog tid s :
  timed s -> resumeWatchdog s = None ->
  timed (with_watchdog (Some (next s)) (armed s ++ [(next s, WatchdogAlarm tid)]) (S (next s)) s).
Proof.
  intros Ht E. split; cbn [armed next proposeTimer resumeWatchdog with_watchdog]; [|by apply armed_fresh].
  destruct Ht as [H1 H2]. intros h a [[Hlt Ha]%H1|[= -> ->]%list_elem_of_singleton]%elem_of_app.
  - split; [lia|]. destruct a; [done|congruence].
  - split; [lia|done].
Qed.

Lemma timed_say x s : timed s -> timed (say x s).
Proof. by apply timed_eq. Qed.

#[local] Instance timed_preserved : Preserved timed.
Proof.
  split.
  - intros s s' E1 E2 E3 E4 _. by apply timed_eq.
  - intros x s _. by apply timed_eq.
  - intros s H. apply (timed_clear s H).
  - intros s H. apply (timed_clear_watchdog s H).
  - intros s H. unfold maybePropose. repeat (case_match; [|done]). cbn zeta. destruct (timed_clear s H) as [Hc Hn].
    case_match; [|done]. apply timed_say. by apply timed_arm_propose.
  - intros t s H. unfold armResumeWatchdog. destruct (lives s !! t); [|done]. cbn zeta. case_match; [|done].
    destruct (timed_clear_watchdog s H) as [Hc Hn]. apply timed_say.
    apply (timed_arm_watchdog _ (on_live _ t (clearResumeWatchdog s))); [|done]. by apply (timed_eq (clearResumeWatchdog s)).
  - intros h s Hin H. apply timed_disarm_propose; [done|]. by apply (tm_held s H) in Hin as [_ ?].
  - intros h tid s Hin H. apply timed_disarm_watchdog; [done|]. by apply (tm_held s H) in Hin as [_ ?].
Qed.

Lemma timed_few s : timed s -> (length (armed s) <= 2)%nat.
Proof.
  intros [H1 H2]. rewrite <- (length_map fst).
  assert (map fst (armed s) ⊆+ option_list (proposeTimer s) ++ option_list (resumeWatchdog s)) as Hs.
  { apply NoDup_submseteq; [done|]. intros h ([h' a] & <- & Hin%list_elem_of_In)%list_elem_of_In%in_map_iff.
    apply H1 in Hin as [_ Ha]. cbn [fst]. apply elem_of_app. destruct a; rewrite Ha; [left|right]; by left. }
  apply submseteq_length in Hs. rewrite length_app in Hs. destruct (proposeTimer s), (resumeWatchdog s); cbn in Hs; lia.
Qed.

Lemma timed_idle s : timed s -> proposeTimer s = None -> resumeWatchdog s = None -> armed s = [].
Proof.
  intros [H1 _] Hp Hw. destruct (armed s) as [|[h a] l]; [done|]. destruct (H1 h a) as [_ Ha]; [by left|].
  destruct a; congruence.
Qed.

Lemma run_kept s0 evs : shown s0 -> timed s0 -> shown (run s0 evs) /\ timed (run s0 evs).
Proof.
  revert s0. induction evs as [|e evs IH]; intros s0 Hs Ht; [done|]. apply IH; [by apply step_shown|by apply (session_preserves timed)].
Qed.

Lemma new_timed prefs : timed (newPvpSession prefs).
Proof. split; cbn [armed newPvpSession]; [|apply NoDup_nil_2]. by intros h a ?%not_elem_of_nil. Qed.

(** No handle is left by the teardown that [reset] and [dispose] begin with. *)
Lemma teardown_handles s :
  let s' := close_mp (detach (clearResumeWatchdog (clearProposeTimer s))) in
  proposeTimer s' = None /\ resumeWatchdog s' = None.
Proof.
  cbv zeta.
  assert (forall x, proposeTimer (close_mp x) = proposeTimer x /\ resumeWatchdog (close_mp x) = resumeWatchdog x) as Hc
    by (intros x; unfold close_mp; by case_match).
  assert (forall x, proposeTimer (detach x) = proposeTimer x /\ resumeWatchdog (detach x) = resumeWatchdog x) as Hd
    by (intros x; unfold detach; by case_match).
  rewrite (proj1 (Hc _)), (proj2 (Hc _)), (proj1 (Hd _)), (proj2 (Hd _)).
  unfold clearResumeWatchdog, clearProposeTimer. repeat case_match; done.
Qed.

(** C22: a session is kept in order, whatever happens to it.  After any events the
    snapshot React renders is that of the session's fields; at most two timers are
    armed, each the one whose handle the session holds for its kind; and none is
    left when the session is reset to the lobby or disposed with its window. *)
Theorem session_kept prefs evs :
  let s := run (newPvpSession prefs) evs in
  snap s = snapshot_of s /\ (length (armed s) <= 2)%nat /\
  (forall h a, (h, a) ∈ armed s ->
     match a with ProposeAlarm => proposeTimer s = Some h | WatchdogAlarm _ => resumeWatchdog s = Some h end) /\
  armed (reset s) = [] /\ armed (dispose s) = [].
Proof.
  intros s. destruct (run_kept (newPvpSession prefs) evs) as [Hs Ht]; [done|apply new_timed|]. fold s in Hs, Ht.
  destruct (teardown_handles s) as [E1 E2]. split_and!.
  - exact Hs.
  - by apply timed_few.
  - intros h a Hin. by apply (tm_held s Ht).
  - apply timed_idle; [by apply (pr_reset timed)|exact E1|exact E2].
  - apply timed_idle; [by apply (pr_dispose timed)|exact E1|exact E2].
Qed.

(** ** Closing *)

(** A session awaits the settlement half of its peer and sends none: two browsers
    that the public queue has paired both wait, and neither closes. *)
Definition mute (s : PvpSession) : Prop := forall k sig root, SendPeer k (PSettleHalf sig root) ∉ calls s.

#[local] Instance mute_preserved : Preserved mute.
Proof.
  assert (forall s s', calls s' = calls s -> mute s -> mute s') as Heq by (unfold mute; by intros s s' ->).
  assert (forall x s, (forall k sig root, x <> SendPeer k (PSettleHalf sig root)) -> mute s -> mute (say x s)) as Hsay.
  { intros x s Hx Hm k sig root [Hin|E%list_elem_of_singleton]%elem_of_app; [by eapply Hm|]. by destruct (Hx k sig root). }
  assert (forall s, calls (clearProposeTimer s) = calls s) as Hc by (intros s; unfold clearProposeTimer; by case_match).
  assert (forall s, calls (clearResumeWatchdog s) = calls s) as Hw by (intros s; unfold clearResumeWatchdog; by case_match).
  split.
  - intros. by eapply Heq.
  - exact Hsay.
  - intros s. by apply Heq.
  - intros s. by apply Heq.
  - intros s H. unfold maybePropose. repeat (case_match; [|done]). cbn zeta. case_match; [apply Hsay; [done|]|];
      eapply Heq; [|exact H| |exact H]; cbn [calls with_timer]; apply Hc.
  - intros t s H. unfold armResumeWatchdog. destruct (lives s !! t); [|done]. cbn zeta. case_match; [|done].
    apply Hsay; [done|]. eapply Heq; [|exact H]. cbn [calls with_watchdog on_live with_lives]. apply Hw.
  - intros. by eapply Heq.
  - intros. by eapply Heq.
Qed.

Lemma no_half_is_sent prefs evs k sig root :
  SendPeer k (PSettleHalf sig root) ∉ calls (run (newPvpSession prefs) evs).
Proof.
  assert (forall s0, mute s0 -> mute (run s0 evs)) as H.
  { induction evs as [|e evs IH]; intros s0 Hs; [done|]. apply IH. by apply (session_preserves mute). }
  apply H. intros ? ? ? Hin. by apply not_elem_of_nil in Hin.
Qed.

(** Leaving while the close is awaited waits with it: the session stays in
    [settling] until the peer's half comes. *)
Lemma leave_waits_for_the_peer s t l :
  settleNow s = Some t -> status s = Settling -> lives s !! t = Some l -> lv_settling l = true ->
  status (leave s) = Settling /\ calls (leave s) = calls s.
Proof.
  intros Hn Hs Hl Hm. unfold leave. rewrite Hn, Hs. unfold triggerSettle. cbn [lives with_settle]. by rewrite Hl, Hm.
Qed.

(** What comes of the peer's half.  Either the close fails, or the settlement that
    is submitted -- by seat A -- pays what this seat holds, over the peer's root,
    with both signatures. *)
Theorem half_closes `{!CryptoLaws C} `{!BackendLaws bk} t z sig root s l :
  lives s !! t = Some l -> seat_safe bk P (lv_seat l) ->
  (exists e d, settle_half t z (PSettleHalf sig root) s = settle_failed e (on_live (with_seat d) t s) \/
     settle_half t z (PSettleHalf sig root) s = settle_failed e s) \/
  exists d r co, fromHex root = Ok r /\ csr_settlement co = close_over P (lv_seat l) z r /\
    close_signed (lv_seat l) co /\
    settle_half t z (PSettleHalf sig root) s =
      (if party_eqb (lv_role l) PartyA
       then ask (AskSettle (d_tunnelId d) co) (TSubmitted t co) (on_live (with_seat d) t s)
       else settle_done (on_live (with_seat d) t s)).
Proof.
  intros Hl Hs. unfold settle_half. rewrite Hl.
  destruct (fromHex root) as [r|e] eqn:Er; cbn [rbind]; [|left; exists e, (lv_seat l); by right].
  destruct (fromHex sig) as [g|e]; cbn [rbind]; [|left; exists e, (lv_seat l); by right].
  destruct (coSignCloseFromPeerRoot P z r g (lv_seat l)) as [d [co|e]] eqn:E; [|left; exists e, d; by left].
  right. exists d, r, co. destruct (close_ok bk P _ _ _ _ _ _ Hs E) as (H1 & H2 & _). by split_and!.
Qed.

End Session.
