(* ===== verification/PvpDuel.v ===== *)
(** Two sessions of a match: [PvpSession] at both ends of one tunnel, under the
    theorems of [Agreement].

    [duel] follows two sessions from their creation, through any events; the seat
    each builds for the tunnel is a seat of a system of [Agreement], whose callers
    take turns.  The last part runs a match, and shows what becomes of starts that
    are abandoned. *)
From stdpp Require Import gmap strings.
From S2P Require Import Prelude.
From S2P Require Import Bytes.
From S2P Require Import Wire.
From S2P Require Import Crypto.
From S2P Require Import Protocol.
From S2P Require Import Tunnel.
From S2P Require Import DistributedTunnel.
From S2P Require Import SeatSafety.
From S2P Require Import Agreement.
From S2P Require Import AgreementSamples.
From S2P Require Import PvpClose.
From S2P Require Import MpClient.
From S2P Require Import PvpSession.

Section Sessions.
Context `{C : Crypto} (bk : CryptoBackend).
Context {State Move Intent View Winner : Type} `{!EqDecision Intent} (P : Protocol State Move).
Context (spec : @PvpMatchSpec State Move Intent View Winner).
Notation seat := (DistributedTunnel State Move).
Notation PvpSession := (@PvpSession.PvpSession State Move Intent View Winner).
Notation PvpEvent := (@PvpSession.PvpEvent State Move Intent).
Notation step := (PvpSession.step bk P spec).
Notation build_seat := (PvpSession.build_seat bk P spec).

(** ** Two sessions on one tunnel *)

(** The seat that a start of a match builds: a new seat, and the frames that were
    waiting for it. *)
Lemma built_calls frames (d d' : seat) :
  rfold (fun d fr => match onFrame P fr d with (d', Ok _) => Ok d' | (_, Throw e) => Throw e end) d frames = Ok d' ->
  d' = do_calls P (map CallFrame frames) d.
Proof.
  revert d. induction frames as [|f frames IH]; intros d; cbn [rfold map]; [by intros [= <-]|].
  destruct (onFrame P f d) as [d1 [[]|e]] eqn:E; cbn [rbind]; [|done]. intros H%IH. rewrite H.
  change (do_calls P (CallFrame f :: map CallFrame frames) d) with (do_calls P (map CallFrame frames) (fst (onFrame P f d))).
  by rewrite E.
Qed.

Section Duel.
Context `{!CryptoLaws C} `{!BackendLaws bk}.
Context (inv : Z -> State -> Prop) (ctx_ok : ProtocolContext -> Prop) `{!ProtocolLaws P inv ctx_ok}.
Context (tid : string) (pk : Party -> bytes).

Definition stakes : Balances := {| bal_a := stake spec; bal_b := stake spec |}.
Notation tot := (sum_of stakes).

(** The seat of party [X] in the match of tunnel [tid] between the keys [pk]. *)
Definition mine (X : Party) (d : seat) : bool :=
  String.eqb (d_tunnelId d) tid && party_eqb (selfParty d) X &&
  bytesEqual (ep_publicKey (self d)) (pk X) && bytesEqual (ep_publicKey (opponent d)) (pk (otherParty X)).

Lemma built_opened X f m pub t frames d :
  good_keys (fl_keys f) -> build_seat f m pub t frames = Ok d -> mine X d = true ->
  mi_role m = X /\ exists d0, opened bk P tid pk stakes X d0 /\ d = do_calls P (map CallFrame frames) d0.
Proof.
  intros [sk Hk] Hb Hm. unfold keyPairFromSecret in Hk. inv_ok.
  unfold build_seat in Hb. apply rbind_ok in Hb as (d0 & Hd & Hb). apply built_calls in Hb.
  set (slf := makeEndpoint bk (fl_wallet f) _ _ _ true) in Hd.
  set (opp := makeEndpoint bk (mi_opponentWallet m) _ _ _ false) in Hd.
  assert (own_endpoint bk slf) as Ho.
  { exists (fl_wallet f), sk. apply negb_false_iff, Nat.eqb_eq in E. split; [done|]. unfold slf. by rewrite <- Hk. }
  assert (opp = makeEndpoint bk (mi_opponentWallet m) pub SCHEME_ED25519 None false) as Eo by (unfold opp; by rewrite <- Hk).
  assert (opp_endpoint bk opp) as Hoo by (rewrite Eo; by do 2 eexists).
  destruct (opened_safe bk P _ _ _ _ _ _ _ Ho Hoo Hd) as (Hs & E1 & _ & E2 & E3 & E4).
  pose proof (calls_frame bk P (map CallFrame frames) d0 Hs) as (F1 & _ & F3 & F4 & F5).
  rewrite <- Hb in *. unfold mine in Hm.
  apply andb_prop in Hm as [[[H1%String.eqb_eq H2%party_eqb_spec]%andb_prop H3%bytesEqual_spec]%andb_prop H4%bytesEqual_spec].
  rewrite F5, E4 in H2. split; [done|]. exists d0. split; [|done]. exists slf, opp, false.
  rewrite F3, E2 in H3. rewrite F4, E3 in H4. rewrite F1, E1 in H1. subst t X.
  split_and!; [done|done| |done]. rewrite <- H4. by rewrite Eo.
Qed.

Definition frame_sig (f : Frame Move) : bytes :=
  match f with FMove m => sigProposer m | FAck a => sigResponder a end.

Definition change {A} (X : Party) (a : A) (g : Party -> A) : Party -> A :=
  fun Y => if party_eqb X Y then a else g Y.

(** What party [Y] has signed with the seat it has in the match; the signatures
    of [Y] that reach the sessions are over such messages. *)
Definition signed (ss : Party -> PvpSession) (ix : Party -> option nat) (Y : Party) (msg : bytes) : Prop :=
  exists t d, ix Y = Some t /\ seats (ss Y) !! t = Some d /\ Signed msg ∈ effects d.

Definition genuine (ss : Party -> PvpSession) (ix : Party -> option nat) (Y : Party) (sig : bytes) : Prop :=
  forall msg, verify sig msg (pk Y) = true -> signed ss ix Y msg.

(** Frames -- those that come and those that wait -- and checkpoints carry no
    forged signature; the resume driver re-sends or adopts.  The match has not
    been played before: it is not among those restored. *)
Definition fair (ss : Party -> PvpSession) (ix : Party -> option nat) (X : Party) (e : PvpEvent) : Prop :=
  (forall k f, f ∈ default [] (early (ss X) !! k) -> genuine ss ix (otherParty X) (frame_sig f)) /\
  match e with
  | FrameIn _ f => genuine ss ix (otherParty X) (frame_sig f)
  | Reconciled t d =>
      ix X = Some t -> exists d0 c, seats (ss X) !! t = Some d0 /\ d = do_call P c d0 /\
        match c with
        | CallResend => True
        | CallAdopt st co => inv tot st /\ genuine ss ix PartyA (sigA co) /\ genuine ss ix PartyB (sigB co)
        | _ => False
        end
  | Resume _ rs => forall d r, (d, r) ∈ rs -> mine X d = false
  | _ => True
  end.

(** The seat of the match, when the step from [s] to [s'] built it. *)
Definition look (X : Party) (s s' : PvpSession) : option nat :=
  match seats s' !! length (seats s) with
  | Some d => if mine X d then Some (length (seats s)) else None
  | None => None
  end.

(** Two sessions, from their creation on; [ix] says where each has its seat. *)
Inductive duel : (Party -> PvpSession) -> (Party -> option nat) -> Prop :=
  | duel_start ss : (forall X, exists prefs, ss X = newPvpSession spec prefs) -> duel ss (fun _ => None)
  | duel_event ss ix X e :
      duel ss ix -> calm (ss X) e -> fair ss ix X e ->
      duel (change X (step (ss X) e) ss)
        (change X (match ix X with Some t => Some t | None => look X (ss X) (step (ss X) e) end) ix).

Notation reach := (reachable bk P inv tid pk stakes (alternates turn)).
Notation open_seat := (opened bk P tid pk stakes).

(** A seat a session has, or may still get. *)
Definition holds (ss : Party -> PvpSession) (ix : Party -> option nat) (X : Party) (d : seat) : Prop :=
  match ix X with Some t => seats (ss X) !! t = Some d | None => open_seat X d end.

Lemma genuine_unforged ss ix sg Y sig :
  (forall X, holds ss ix X (sg X)) -> genuine ss ix Y sig -> unforged pk sg Y sig.
Proof.
  intros Hh Hg msg Hv. destruct (Hg msg Hv) as (t & d & Ei & Hd & Hm). specialize (Hh Y). unfold holds in Hh.
  rewrite Ei, Hd in Hh. unfold signed_by. by injection Hh as ->.
Qed.

(** A call of party [X] on its seat, the signatures in it being genuine. *)
Lemma reach_call sg X c :
  reach sg ->
  match c with
  | CallPropose _ _ => turn (d_nonce (sg X)) = X
  | CallFrame f => unforged pk sg (otherParty X) (frame_sig f)
  | CallResend => True
  | CallAdopt st co => inv tot st /\ unforged pk sg PartyA (sigA co) /\ unforged pk sg PartyB (sigB co)
  | CallSettleRoot _ _ _ => True
  | _ => False
  end -> reach (put sg X (do_call P c (sg X))).
Proof.
  intros Hr Hc. eapply reach_step; [exact Hr|]. destruct c as [m ts|m ts| |[f|f]|st co|ts n|ts root n]; try done; cbn [do_call].
  - apply StepPropose. intros s' _. exact Hc.
  - by apply StepResend.
  - by apply StepMove.
  - by apply StepAck.
  - apply StepAdopt; tauto.
  - by apply StepSettleRoot.
Qed.

Lemma reach_frames sg X frames :
  reach sg -> (forall f, f ∈ frames -> unforged pk sg (otherParty X) (frame_sig f)) ->
  exists sg', reach sg' /\ sg' X = do_calls P (map CallFrame frames) (sg X) /\ forall Y, Y <> X -> sg' Y = sg Y.
Proof.
  revert sg. induction frames as [|f frames IH]; intros sg Hr Hf; [by exists sg|].
  destruct (IH (put sg X (do_call P (CallFrame f) (sg X)))) as (sg' & Hr' & HX & HY).
  - apply reach_call; [done|]. apply Hf. by left.
  - intros f' Hf' msg Hv. unfold signed_by. rewrite put_other by apply otherParty_neq.
    apply (Hf f'); [by right|done].
  - exists sg'. split_and!; [done|rewrite HX; by rewrite put_same|].
    intros Y Hne. rewrite HY by done. by apply put_other.
Qed.

Lemma change_same {A} X (a : A) g : change X a g X = a.
Proof. unfold change. by rewrite party_eqb_refl. Qed.
Lemma change_other {A} X (a : A) g Y : Y <> X -> change X a g Y = g Y.
Proof. intros H. unfold change. by rewrite (proj2 (party_eqb_neq X Y)). Qed.

Record duel_inv (ss : Party -> PvpSession) (ix : Party -> option nat) : Prop := {
  di_steady : forall X, steady (ss X);
  di_role : forall X t, ix X = Some t -> exists l, lives (ss X) !! t = Some l /\ lv_role l = X;
  di_reach : forall o, (forall X, holds ss ix X (o X)) -> exists sg, reach sg /\ forall X, sg X = o X
}.

Lemma seats_length (s : PvpSession) : length (seats s) = length (lives s).
Proof. apply length_map. Qed.

Lemma look_none X s s' : length (seats s') = length (seats s) -> look X s s' = None.
Proof. intros E. unfold look. rewrite lookup_ge_None_2 by lia. done. Qed.

Lemma look_new X s s' d :
  seats s' = seats s ++ [d] -> look X s s' = if mine X d then Some (length (seats s)) else None.
Proof. intros E. unfold look. by rewrite E, list_lookup_middle. Qed.

(** Where the seat of the match is after an event. *)
Definition placed (ix : Party -> option nat) (X : Party) (s s' : PvpSession) : option nat :=
  match ix X with Some t => Some t | None => look X s s' end.

Lemma placed_role ss ix X e t :
  duel_inv ss ix -> calm (ss X) e -> fair ss ix X e -> placed ix X (ss X) (step (ss X) e) = Some t ->
  exists l, lives (step (ss X) e) !! t = Some l /\ lv_role l = X.
Proof.
  intros Hi Hc [_ Hf] Hp. unfold placed in Hp. destruct (ix X) as [t0|] eqn:Ei.
  - injection Hp as ->. destruct (di_role _ _ Hi X t Ei) as (l & Hl & Hr).
    destruct (step_keeps bk P spec (ss X) e t l Hl) as (l' & Hl' & E). exists l'. split; [done|congruence].
  - destruct (step_seats bk P spec (ss X) e) as [H|w k o f m pub t' d Hw Hk Hb H Hl|b d r rs -> H|t' d c Hd H _|t' d _ H];
      try (rewrite look_none in Hp by (rewrite H; rewrite ?length_insert; done); done);
      rewrite (look_new _ _ _ _ H) in Hp.
    + destruct (mine X d) eqn:Em; [|done]. injection Hp as <-. rewrite seats_length.
      destruct (st_start _ (di_steady _ _ Hi X) w k f o Hw Hk) as (_ & Hg & _).
      destruct (built_opened X f m pub t' _ d Hg Hb Em) as [<- _]. exact Hl.
    + rewrite (Hf d r) in Hp; [done|by left].
Qed.

(** What an event does to the seat of the match: nothing, or the steps of a seat
    of [Agreement]. *)
Lemma placed_seat ss ix X e d' :
  duel_inv ss ix -> calm (ss X) e -> fair ss ix X e ->
  match placed ix X (ss X) (step (ss X) e) with
  | Some t => seats (step (ss X) e) !! t = Some d'
  | None => open_seat X d'
  end ->
  exists d, holds ss ix X d /\
    forall sg, reach sg -> sg X = d -> (forall Y, holds ss ix Y (sg Y)) ->
    exists sg', reach sg' /\ sg' X = d' /\ forall Y, Y <> X -> sg' Y = sg Y.
Proof.
  intros Hi Hc [He Hf] Hp. unfold placed in Hp.
  assert (holds ss ix X d' -> exists d, holds ss ix X d /\
    forall sg, reach sg -> sg X = d -> (forall Y, holds ss ix Y (sg Y)) ->
    exists sg', reach sg' /\ sg' X = d' /\ forall Y, Y <> X -> sg' Y = sg Y) as Same.
  { intros H. exists d'. split; [done|]. intros sg Hr E _. by exists sg. }
  assert (forall c d, do_call P c d = d' -> (forall sg, sg X = d -> (forall Y, holds ss ix Y (sg Y)) ->
      match c with
      | CallPropose _ _ => turn (d_nonce (sg X)) = X
      | CallFrame f => unforged pk sg (otherParty X) (frame_sig f)
      | CallResend => True
      | CallAdopt st co => inv tot st /\ unforged pk sg PartyA (sigA co) /\ unforged pk sg PartyB (sigB co)
      | CallSettleRoot _ _ _ => True
      | _ => False
      end) -> forall sg, reach sg -> sg X = d -> (forall Y, holds ss ix Y (sg Y)) ->
    exists sg', reach sg' /\ sg' X = d' /\ forall Y, Y <> X -> sg' Y = sg Y) as Call.
  { intros c d <- Hok sg Hr <- Hh. exists (put sg X (do_call P c (sg X))).
    split_and!; [apply reach_call; [done|by apply Hok]|by rewrite put_same|intros; by apply put_other]. }
  destruct (ix X) as [t|] eqn:Ei.
  - assert (forall d, seats (ss X) !! t = Some d -> holds ss ix X d) as Hhold by (intros d ?; unfold holds; by rewrite Ei).
    destruct (di_role _ _ Hi X t Ei) as (l & Hl & Hr).
    assert (seats (ss X) !! t = Some (lv_seat l)) as Hs by (by rewrite seats_lookup, Hl).
    assert (t < length (seats (ss X)))%nat as Ht by (by apply lookup_lt_Some in Hs).
    destruct (step_seats bk P spec (ss X) e) as [H|w k o f m pub t' d Hw Hk Hb H _|b d r rs _ H|t' d c Hd H Ha|t' d E H];
      rewrite H in Hp; try (rewrite lookup_app_l in Hp by done); try (by apply Same, Hhold);
      destruct (decide (t' = t)) as [->|]; try (rewrite list_lookup_insert_ne in Hp by done; by apply Same, Hhold);
      rewrite list_lookup_insert_eq in Hp by done; injection Hp as Hp.
    + exists d. split; [by apply Hhold|]. apply (Call c d Hp). intros sg E Hh.
      destruct c as [m ts| | |f| | |ts root n]; try done; cbn [allowed] in Ha.
      * destruct Ha as (Hdt & Hro & _). rewrite E.
        destruct (st_play _ (di_steady _ _ Hi X) t Hdt) as (l' & Hl' & [Hn|Ho]); [congruence|].
        rewrite Hl in Hl'. injection Hl' as <-. rewrite Hr in Ho. congruence.
      * destruct Ha as (k & -> & _). by eapply genuine_unforged.
    + subst e. destruct (Hf eq_refl) as (d0 & c & Hd0 & -> & Hc0). exists d0.
      split; [by apply Hhold|]. apply (Call c d0 Hp).
      intros sg E Hh. destruct c; try done. destruct Hc0 as (? & ? & ?). split_and!; [done|by eapply genuine_unforged..].
  - assert (forall d, open_seat X d -> holds ss ix X d) as Hhold by (intros d ?; unfold holds; by rewrite Ei).
    destruct (step_seats bk P spec (ss X) e) as [H|w k o f m pub t' d Hw Hk Hb H _|b d r rs -> H|t' d c Hd H _|t' d _ H];
      try (rewrite look_none in Hp by (rewrite H; rewrite ?length_insert; done); by apply Same, Hhold);
      rewrite (look_new _ _ _ _ H) in Hp.
    + destruct (mine X d) eqn:Em; [|by apply Same, Hhold]. rewrite H, list_lookup_middle in Hp by done. injection Hp as ->.
      destruct (st_start _ (di_steady _ _ Hi X) w k f o Hw Hk) as (_ & Hg & _).
      destruct (built_opened X f m pub t' _ d' Hg Hb Em) as (_ & d0 & Ho & ->). exists d0. split; [by apply Hhold|].
      intros sg Hr <- Hh. apply reach_frames; [done|]. intros fr Hfr. eapply genuine_unforged; [done|]. by eapply He.
    + rewrite (Hf d r) in Hp by (by left). by apply Same, Hhold.
Qed.

Lemma duel_inv_step ss ix X e :
  duel_inv ss ix -> calm (ss X) e -> fair ss ix X e ->
  duel_inv (change X (step (ss X) e) ss) (change X (placed ix X (ss X) (step (ss X) e)) ix).
Proof.
  intros Hi Hc Hf. split.
  - intros Y. destruct (decide (Y = X)) as [->|]; [rewrite change_same|rewrite change_other by done; by apply (di_steady _ _ Hi)].
    apply session_steady; [by apply (di_steady _ _ Hi)|done].
  - intros Y t. destruct (decide (Y = X)) as [->|]; [rewrite !change_same; by apply placed_role|].
    rewrite !change_other by done. apply (di_role _ _ Hi).
  - intros o Ho.
    assert (forall Y, Y <> X -> holds ss ix Y (o Y)) as HY.
    { intros Y Hne. specialize (Ho Y). unfold holds in *. by rewrite !change_other in Ho. }
    pose proof (Ho X) as HX. unfold holds in HX. rewrite !change_same in HX.
    destruct (placed_seat ss ix X e (o X) Hi Hc Hf HX) as (d & Hd & Hgo).
    assert (forall Y, holds ss ix Y (put o X d Y)) as Hold.
    { intros Y. destruct (decide (Y = X)) as [->|]; [by rewrite put_same|rewrite put_other by done; auto]. }
    destruct (di_reach _ _ Hi _ Hold) as (sg & Hr & E).
    destruct (Hgo sg Hr) as (sg' & Hr' & EX & EY); [by rewrite E, put_same|intros Y; rewrite E; apply Hold|].
    exists sg'. split; [done|]. intros Y. destruct (decide (Y = X)) as [->|]; [done|].
    rewrite EY, E by done. by apply put_other.
Qed.

Lemma duel_invariant ss ix : duel ss ix -> duel_inv ss ix.
Proof.
  induction 1 as [ss Hn|ss ix X e _ IH Hc Hf].
  - split; [|done|].
    + intros X. destruct (Hn X) as [prefs ->]. apply unengaged_steady. split; [done|]. intros w k E. cbn [tasks newPvpSession] in E. by apply lookup_empty_Some in E.
    + intros o Ho. exists o. split; [|done]. by apply reach_init.
  - by apply duel_inv_step.
Qed.

(** C2: two browsers do not fork a match they play from its start, as long as no
    two states of the protocol have the same hash ([hash_binding]) and the two
    stakes fit in 64 bits ([lockable]).  Two sessions are created, and users,
    promises, timers, the peers and the relay do to them what they like, in any
    order and with any interleaving, within three bounds that [duel] sets: a session
    starts or restores a match only while it is in none, with keys of its own
    ([calm]); no frame or checkpoint carries a forged signature, and what the resume
    driver adopts is a well-formed state of the protocol ([fair]); and no session
    restores this very match from an earlier page ([fair], [Resume]).  Once both
    have a seat in the match of one tunnel, their nonces differ by at most one, at
    the same nonce they hold the same state and the same last update, and both
    states share out the two stakes.  The protocol need not give the turn to one
    party: the propose timers of the sessions see to it. *)
Theorem sessions_agree ss ix (d : Party -> seat) :
  hash_binding P inv stakes ->
  ctx_ok {| ctx_tunnelId := tid; initialBalances := stakes |} -> lockable stakes ->
  duel ss ix -> (forall X, exists t, ix X = Some t /\ seats (ss X) !! t = Some (d X)) ->
  Z.abs (d_nonce (d PartyA) - d_nonce (d PartyB)) <= 1 /\
  (d_nonce (d PartyA) = d_nonce (d PartyB) ->
     d_state (d PartyA) = d_state (d PartyB) /\
     option_map update (d_latest (d PartyA)) = option_map update (d_latest (d PartyB))) /\
  forall X, 0 <= bal_a (balances P (d_state (d X))) /\ 0 <= bal_b (balances P (d_state (d X))) /\
    sum_of (balances P (d_state (d X))) = 2 * stake spec.
Proof.
  intros Hb Hctx Hlock Hdu Hd.
  destruct (di_reach _ _ (duel_invariant ss ix Hdu) d) as (sg & Hr & E).
  { intros X. destruct (Hd X) as (t & Ei & Hs). unfold holds. by rewrite Ei. }
  destruct (reachable_inv bk P inv ctx_ok tid pk stakes (alternates turn) sg
    (alternates_exclusive inv stakes turn) Hb Hctx Hlock Hr) as [(s0 & h & Hi) _].
  rewrite <- !E. split_and!.
  - pose proof (nonce_gap P inv tid pk stakes (alternates turn) s0 h sg PartyA Hi).
    pose proof (nonce_gap P inv tid pk stakes (alternates turn) s0 h sg PartyB Hi). simpl in *. lia.
  - by eapply same_nonce.
  - intros X. rewrite <- E. replace (2 * stake spec) with (sum_of stakes) by (unfold sum_of, stakes; cbn; lia).
    apply (laws_balances (inv := inv) (ctx_ok := ctx_ok)). by eapply seat_state_inv.
Qed.

End Duel.

End Sessions.

(** ** A match between two sessions

    In the protocol of the match either party may move at any time: the taps are
    counted. *)

#[local] Existing Instance ideal_crypto.
#[local] Existing Instance ideal_crypto_laws.

Definition TapProtocol : Protocol Z Z :=
  {| movesCarrySecrets := false;
     Protocol.initialState := fun _ => Ok 0;
     Protocol.applyMove := fun s m _ => throw_if (9 <=? s) || negb (m =? 1) with Error "over" ; Ok (s + 1);
     Protocol.encodeState := fun s => Ok [s];
     Protocol.balances := fun _ => {| bal_a := 50; bal_b := 50 |};
     Protocol.isTerminal := fun s => 9 <=? s |}.

Definition tap_inv (tot : Z) (s : Z) : Prop := 0 <= s <= 9 /\ tot = 100.
Definition tap_ctx (ctx : ProtocolContext) : Prop :=
  initialBalances ctx = {| bal_a := 50; bal_b := 50 |}.

#[local] Instance tap_laws : ProtocolLaws TapProtocol tap_inv tap_ctx.
Proof.
  split.
  - intros ctx s Hc _ H. simpl in H. inv_ok. unfold tap_ctx in Hc. rewrite Hc. done.
  - intros tot s m p s' [? ?] Hstp. simpl in Hstp. inv_ok. bool_to_prop. split; [lia|done].
  - intros tot s [? ->]. done.
Qed.

Lemma tap_binding : hash_binding TapProtocol tap_inv {| bal_a := 50; bal_b := 50 |}.
Proof.
  intros s1 s2 e1 e2 [H1 _] [H2 _] E1 E2 Hh. simpl in E1, E2. inv_ok. by apply toy_digest_one in Hh.
Qed.

Definition tap_spec : @PvpMatchSpec Z Z Z Z bool :=
  {| sp_game := "taps"; sp_stepMs := 120; stake := 50; winnerOf := fun s => 9 <=? s; noWinner := false;
     deriveView := fun s => s; idleIntent := 1; intentToMove := fun _ i => i; readIntent := fun _ m => m |}.

Notation tap_session := (@PvpSession Z Z Z Z bool).
Notation tap_step := (step nobleBackend TapProtocol tap_spec).
Notation tap_event := (@PvpEvent Z Z Z).

Definition tap_keys (X : Party) : KeyPair := {| secretKey := sk X; publicKey := sk X; scheme := SCHEME_ED25519 |}.
Definition tap_wallet (X : Party) : string := match X with PartyA => "0xa" | PartyB => "0xb" end.
Definition tap_match (X : Party) : MatchInfo :=
  {| mi_matchId := "m1"; mi_role := X; mi_opponentWallet := tap_wallet (otherParty X); mi_game := "taps" |}.

(** The last frame a seat of a session sent. *)
Definition last_frame (s : tap_session) : option (Frame Z) :=
  match seats s with
  | d :: _ => last (omap (fun e => match e with Sent f => Some f | _ => None end) (effects d))
  | [] => None
  end.

Definition relayed_frame (s : tap_session) : tap_event :=
  match last_frame s with Some f => FrameIn 0 f | None => Dispose end.

(** The whole of a match up to its first move: [PvpEvent]s by party; a frame is the
    last one of the other session. *)
Definition tap_events : list (Party * ((Party -> tap_session) -> tap_event)) :=
  let both X l := map (fun e : tap_event => (X, fun _ : Party -> tap_session => e)) l in
  both PartyA [SetAccount (Some "0xa"); FindMatch (tap_keys PartyA); Answer 0 ADone; Answer 1 (AMatch (tap_match PartyA))] ++
  both PartyB [SetAccount (Some "0xb"); FindMatch (tap_keys PartyB); Answer 0 ADone; Answer 1 (AMatch (tap_match PartyB));
               PeerMsg 0 (PHello (toHex (sk PartyA)))] ++
  both PartyA [PeerMsg 0 (PHello (toHex (sk PartyB))); Answer 3 (AText "0xA1")] ++
  both PartyB [PeerMsg 0 (POpen "0xA1"); Answer 4 ADone] ++
  both PartyA [PeerMsg 0 PReady; TimerFires 5 None] ++
  [(PartyB, fun ss => relayed_frame (ss PartyA)); (PartyA, fun ss => relayed_frame (ss PartyB))].

Definition is_nil {A} (l : list A) : bool := match l with [] => true | _ => false end.

(** What makes an event of the match calm and fair, as a test. *)
Definition carries (Y : Party) (sig : bytes) (s : tap_session) (i : option nat) : bool :=
  match i with
  | Some t => match seats s !! t with
              | Some d => existsb (fun e => match e with Signed m => bytesEqual sig (sk Y ++ m) | _ => false end) (effects d)
              | None => false
              end
  | None => false
  end.

Definition event_ok (ss : Party -> tap_session) (ix : Party -> option nat) (X : Party) (e : tap_event) : bool :=
  is_nil (map_to_list (early (ss X))) &&
  match e with
  | FindMatch keys =>
      bytesEqual (secretKey keys) (sk X) && bytesEqual (publicKey keys) (sk X) && (scheme keys =? SCHEME_ED25519) &&
      bool_decide (dt (ss X) = None) && is_nil (map_to_list (tasks (ss X)))
  | FrameIn _ f => carries (otherParty X) (frame_sig f) (ss (otherParty X)) (ix (otherParty X))
  | EnterArenaMatch _ _ _ | Resume _ _ | Reconciled _ _ => false
  | _ => true
  end.

Fixpoint tap_play (evs : list (Party * ((Party -> tap_session) -> tap_event)))
    (ss : Party -> tap_session) (ix : Party -> option nat) : option ((Party -> tap_session) * (Party -> option nat)) :=
  match evs with
  | [] => Some (ss, ix)
  | (X, g) :: evs =>
      let e := g ss in
      if event_ok ss ix X e
      then let s' := tap_step (ss X) e in
           tap_play evs (change X s' ss) (change X (placed "0xA1" sk ix X (ss X) s') ix)
      else None
  end.

Lemma is_nil_empty {A} (m : gmap nat A) : is_nil (map_to_list m) = true -> m = ∅.
Proof. intros H. apply map_to_list_empty_iff. by destruct (map_to_list m). Qed.

Lemma carries_genuine ss ix Y sig :
  carries Y sig (ss Y) (ix Y) = true -> genuine sk ss ix Y sig.
Proof.
  unfold carries. destruct (ix Y) as [t|] eqn:Ei; [|done]. destruct (seats (ss Y) !! t) as [d|] eqn:Ed; [|done].
  intros (e & He & Hs)%existsb_exists msg Hv. destruct e as [m| | |]; try done.
  apply bytesEqual_spec in Hs as ->. apply ideal_verify, app_inv_head in Hv as <-.
  exists t, d. split_and!; [done|done|]. by apply list_elem_of_In.
Qed.

Lemma event_ok_calm ss ix X e : event_ok ss ix X e = true -> calm (ss X) e.
Proof.
  unfold event_ok. intros [_ H]%andb_prop. destruct e; try done. cbn [calm].
  repeat match goal with H : _ && _ = true |- _ => apply andb_prop in H as [H ?] end.
  split.
  - split; [by apply bool_decide_eq_true in H1|]. intros w k Hk. apply is_nil_empty in H0. by rewrite H0, lookup_empty in Hk.
  - exists (sk X). repeat match goal with H : bytesEqual _ _ = true |- _ => apply bytesEqual_spec in H end.
    apply Z.eqb_eq in H2. destruct keys. cbn in *. subst. done.
Qed.

Lemma event_ok_fair ss ix X e :
  event_ok ss ix X e = true -> fair TapProtocol tap_spec tap_inv "0xA1" sk ss ix X e.
Proof.
  unfold event_ok. intros [H1%is_nil_empty H2]%andb_prop. split.
  - intros k f Hf. rewrite H1, lookup_empty in Hf. by apply not_elem_of_nil in Hf.
  - destruct e; try done. by apply carries_genuine.
Qed.

Lemma tap_play_duel evs ss ix ss' ix' :
  duel nobleBackend TapProtocol tap_spec tap_inv "0xA1" sk ss ix -> tap_play evs ss ix = Some (ss', ix') ->
  duel nobleBackend TapProtocol tap_spec tap_inv "0xA1" sk ss' ix'.
Proof.
  revert ss ix. induction evs as [|[X g] evs IH]; intros ss ix Hd; cbn [tap_play]; [by intros [= <- <-]|].
  destruct (event_ok ss ix X (g ss)) eqn:Eo; [|done]. apply IH.
  apply duel_event; [done|by apply event_ok_calm in Eo|by apply event_ok_fair].
Qed.

Definition tap_new : Party -> tap_session := fun _ => newPvpSession tap_spec ∅.

(** What the match comes to. *)
Definition tap_facts : bool :=
  match tap_play tap_events tap_new (fun _ => None) with
  | Some (ss, ix) =>
      let ok X := match ix X, seats (ss X) with
                  | Some 0%nat, [d] => (d_nonce d =? 1) && (d_state d =? 1) && bool_decide (status (ss X) = Playing)
                  | _, _ => false
                  end in ok PartyA && ok PartyB
  | None => false
  end.

Lemma tap_facts_hold : tap_facts = true.
Proof. vm_compute. reflexivity. Qed.

Lemma sessions_agree_witness :
  exists ss ix d, tap_play tap_events tap_new (fun _ => None) = Some (ss, ix) /\
    (forall X, seats (ss X) = [d X]) /\ d_nonce (d PartyA) = 1 /\ d_nonce (d PartyB) = 1 /\
    d_state (d PartyA) = d_state (d PartyB).
Proof.
  pose proof tap_facts_hold as F. unfold tap_facts in F.
  destruct (tap_play tap_events tap_new (fun _ => None)) as [[ss ix]|] eqn:E; [|discriminate F]. cbv zeta in F.
  apply andb_prop in F as [FA FB].
  destruct (ix PartyA) as [[|]|] eqn:IA; [|discriminate FA..]. destruct (ix PartyB) as [[|]|] eqn:IB; [|discriminate FB..].
  destruct (seats (ss PartyA)) as [|dA [|]] eqn:SA; [discriminate FA| |discriminate FA].
  destruct (seats (ss PartyB)) as [|dB [|]] eqn:SB; [discriminate FB| |discriminate FB].
  assert (d_nonce dA = 1 /\ d_nonce dB = 1) as [NA NB] by (clear E; bool_to_prop; done). clear FA FB.
  exists ss, ix, (fun X => match X with PartyA => dA | PartyB => dB end).
  split; [reflexivity|]. split; [intros []; assumption|]. split; [assumption|]. split; [assumption|].
  refine (proj1 (proj1 (proj2 (sessions_agree nobleBackend TapProtocol tap_spec tap_inv tap_ctx "0xA1" sk ss ix
    (fun X => match X with PartyA => dA | PartyB => dB end) tap_binding eq_refl _ _ _)) _)).
  - unfold lockable, sum_of. simpl. rewrite U64_MAX_eq. lia.
  - eapply tap_play_duel; [|exact E]. apply duel_start. intros X. by exists ∅.
  - clear E. intros []; exists 0%nat; [rewrite SA|rewrite SB]; auto.
  - clear E. cbn beta iota. congruence.
Defined.

(** ** Starts that are abandoned *)

Definition tap_run (s : tap_session) (evs : list tap_event) : tap_session :=
  run nobleBackend TapProtocol tap_spec s evs.

(** Seat A is opening the tunnel when its user goes back to the lobby. *)
Definition tap_opening : list tap_event :=
  [SetAccount (Some "0xa"); FindMatch (tap_keys PartyA); Answer 0 ADone; Answer 1 (AMatch (tap_match PartyA));
   PeerMsg 0 (PHello (toHex (sk PartyB))); Reset].

(** The start is not cancelled: when the tunnel is open, the match is played by a
    session that has no role and no client, so it never proposes. *)
Lemma abandoned_start_plays :
  let s0 := tap_run (newPvpSession tap_spec ∅) tap_opening in
  let s := tap_run s0 [Answer 3 (AText "0xA1"); ToggleAuto; SetIntent 1] in
  status s0 = Idle /\ status s = Playing /\ dt s = Some 0%nat /\ role s = None /\ mp s = None /\ armed s = [].
Proof. vm_compute. by split_and!. Qed.

(** Looking for another match meanwhile gives the session the role of the one and
    the tunnel of the other: it then speaks for B on A's seat. *)
Lemma abandoned_start_takes_over :
  let s := tap_run (newPvpSession tap_spec ∅) (tap_opening ++
    [FindMatch (tap_keys PartyA); Answer 4 ADone; Answer 5 (AMatch (tap_match PartyB)); Answer 3 (AText "0xA1")]) in
  status s = Playing /\ role s = Some PartyB /\ dt s = Some 0%nat /\ map selfParty (seats s) = [PartyA].
Proof. vm_compute. by split_and!. Qed.
